(* ===== verification/_CoqProject ===== *)
-Q . S2P
Prelude.v
Reason.v
Ids.v
Contract.v
Externals.v
Limits.v
State.v
Tables.v
Classify.v
Ticket.v
Authority.v
Shape.v
Genesis.v
Resource.v
Grant.v
Retire.v
Membership.v
Apply.v
Wire.v
Boundary.v
Changes.v
Durable.v
Scenario.v
Accounting.v
Invariant.v
AuditTrail.v
Steps.v
SessionTable.v
MembershipTable.v
RouteTable.v
Preservation.v
Validation.v
Refinement.v
Leases.v
AccessControl.v
Sessions.v
Replication.v
Lifecycle.v
StoredRows.v
Ingress.v
Typing.v
CoreLease.v
LeaseSafety.v
Adapter.v
LeaseRefinement.v
Controller.v
Expiry.v
Journal.v
JournalSafety.v
Delivery.v
Mirror.v
LogStore.v
LogSafety.v
Store.v
Inbound.v
Honesty.v
Served.v
Engine.v
Driver.v
Settled.v
Sendable.v
Reads.v
ReadSafety.v
ReadReplies.v
ReadHonesty.v
Topology.v
Clusters.v
Placement.v
Admission.v
AdmissionSafety.v
NodeRuntime.v
NodeRuntimeSafety.v
Network.v
NetworkSafety.v
PlacementSafety.v
Manager.v
ManagerSafety.v
Canonical.v
Envelope.v
Identity.v
