(* ===== verification/Prelude.v ===== *)
(** * Aster coordination: a verified model

    The coordination service of aster-rpc is a small replicated store of leases
    with values: clients acquire, renew and release resources under fencing
    epochs, administrators grant rights and change the membership of the group,
    and every voter applies the same committed commands. This library models the
    service's own decisions, from the client's call to the stored row and back,
    the lease engine its clients run, and the two loops a leader runs, and proves
    what makes them correct. Paths below are under [src/].

    ** The parts and how they meet

    A client command enters at [coordination/model/boundary.rs], which narrows
    the wire form, checks its size and its request hash, and produces a model
    command or a rejection. [model/apply.rs] applies it: it classifies the
    command against the client's session ([classify.rs]), asks the decision
    function of the action ([resource.rs], [grant.rs], [admin.rs],
    [membership.rs], [retire.rs], [expire.rs], each guarded by [shape.rs] and
    [limits.rs]), writes the effect through [tables.rs] with its change set, saves
    the reply and appends an audit row. [storage/machine.rs] applies entries in
    batches and [storage/rows.rs] commits the rows the change set names, and
    validates everything at the next load. [model/authority.rs] verifies the
    signed documents a group is founded on and joined with. The leader's
    controller ([runtime/membership.rs]) drives a membership intent through the
    consensus library and reports progress as committed commands; its expiry loop
    ([runtime/expiry.rs]) proposes expiries. A lease holder runs the engine of
    [core/src/lease.rs] over a serializer; [model/adapter.rs] and
    [client/lease.rs] make the group one. A client keeps its one request in flight
    in the durable journal of [client/journal.rs], so that a retry, even after a
    crash, resends the same bytes. The driver of [client/driver.rs] takes that
    request to its answer: it sends it through the walk of [client/engine.rs],
    which asks member after member and follows leader hints, judges every reply
    with [client/inbound.rs], and closes the client id through a retirement when
    the request was refused without being saved. On the other side the store
    service ([store/host.rs], [store/methods.rs]) checks an inbound mutation,
    runs the preflight, proposes, and answers from what was applied; its reads
    pin one committed version at or past the leader's barrier and answer from it
    ([storage/serve.rs]). The consensus library keeps its log through the single
    writer of [storage/log.rs], and its messages cross the wire in the mirrors of
    [convert.rs]. Beside an administrator, the placement manager
    ([client/manager.rs]) reads the group's status, takes a snapshot of the
    clusters derived from what nodes report of their distances
    ([core/src/topology/cluster.rs]), lets the planner ([client/placement.rs])
    choose voters and learners, and submits a membership change.

    Under every call lies the wire path of the transport core: the envelopes of
    [core/src/envelope.rs] over the byte primitives of [canonical.rs], carried in the
    frames of [framing.rs]; and the contract ids both sides compare are hashes of
    the canonical bytes [core/src/contract.rs] writes with the same primitives.

    ** Files

    Data and decisions, one file per source file: [Reason] (reason.rs), [Ids]
    (ids.rs), [Contract] (contract.rs, raft.rs), [Limits], [State], [Tables],
    [Classify], [Ticket] (core/src/ticket.rs), [Authority] and [Genesis]
    (authority.rs), [Shape], [Resource], [Grant] (grants and
    administrators), [Retire] (retirement and expiry),
    [Membership], [Apply], [Wire] (model/wire.rs), [Boundary] (boundary.rs,
    project.rs, hash.rs), [Durable] (storage/rows.rs and the batch of
    storage/machine.rs), [CoreLease] (core/src/lease.rs), [Adapter], [Controller]
    (runtime/membership.rs), [Expiry] (runtime/expiry.rs, held_rows of
    storage/serve.rs), [Journal] (client/journal.rs), [Mirror] (convert.rs and the
    mirrors of raft.rs), [LogStore] (storage/log.rs, error.rs, codec.rs), [Store]
    (the mutation and retirement pipelines of the store service), [Inbound]
    (client/inbound.rs), [Engine] (the unary walk of client/engine.rs), [Driver]
    (client/driver.rs), [Reads] (the reads of store/host.rs and storage/serve.rs),
    [ReadReplies] (the verdicts of client/inbound.rs on read replies, the envelope
    check and the audit stream's loop of client/mod.rs),
    [Topology] (core/src/topology/records.rs, cluster.rs and the snapshot of
    aster/src/topology.rs), [Placement] (client/placement.rs), [Admission] (the
    buckets, guards and router of store/host.rs and runtime/pressure.rs),
    [NodeRuntime] (runtime/lifecycle.rs, readiness.rs, owner.rs and config.rs),
    [Network] (coordination/admission.rs, network/admit.rs, errors.rs and the unary
    calls of client.rs and service.rs), [Manager]
    (client/manager.rs and the plan check of client/mod.rs), [Canonical]
    (core/src/canonical.rs), [Envelope] (core/src/envelope.rs and framing.rs) and
    [Identity] (the canonical serialization of core/src/contract.rs).
    [Externals] is the class of third-party functions (the codec, Ed25519,
    BLAKE3, base58) with their laws; [Prelude], this file, holds machine
    integers, byte orders, generic lemmas on lists, maps and sums, the hint
    database and the tactics.

    Proof layers: [Changes] (change sets are complete, and what a writer leaves
    alone), [Accounting] (the byte counters follow the rows), [Invariant]
    with [AuditTrail], [SessionTable] (sessions, resources, grants and
    administrators), [MembershipTable] and [RouteTable] (routes and budgets), each
    of which shows that its tables keep their invariant, [Steps] (a command
    is a business write, a session step and an audit row), [Preservation]
    (every log keeps the invariant), [Validation] (the invariant implies the
    validator), [Honesty] (what a store saves is the honest reply to its
    operation). [Served], [Driver], [Settled] and [Sendable] compose the
    client's side with the service's; [ReadSafety], [ReadHonesty], [Clusters],
    [PlacementSafety] and [ManagerSafety] hold the theorems of the reads, the
    clusters, the planner and the manager; [AdmissionSafety],
    [NodeRuntimeSafety] and [NetworkSafety] those of admission, of the runtime
    and of the Raft service. [Scenario] is a concrete run the witnesses
    evaluate.

    ** State and operations

    [State] is the code's [State], field by field, with each [BTreeMap] a [gmap];
    [&mut State] with [&mut ChangeSet] is the transaction [Tx] of [Apply]; a
    fallible function returns [result] or [option]; [u64] arithmetic is on [N]
    with the wrap-around or saturation the code has. The store is [DurableState]
    with its [StoredTables]; a log is a list of stamped payloads, applied by
    [apply_batch]. The lease engine, where holder and serializer run
    concurrently, is the step relation [world_step]; the controller is the pure
    [next_step] with the ordered effects of a pass; the expiry loop is [sweep]
    over the timers of a generation; the journal is a record and the file it was
    written to, with every write failing on either side of its rename or not;
    the log store is a database whose commits fail likewise, behind the queue of
    its single writer; the driver is a state monad over the journal and any
    caller, which also records the journal's events; a read is a function of the
    pinned [Version]; a reconciliation of the manager is a function of its timers
    and of what its calls return. Where tasks run side by side the model is a
    step relation with one step per atomic action: [endpoint_step] for the calls
    of the Store service, [tasks_step] for the controller registry, [voter_step]
    for the runtime of a voter; [f64] is binary64. A reader of the wire path takes
    the slice and its cursor and returns [run], which tells a panic from an error;
    the interfaces [Reader] and [Codec] of [Canonical] are what the envelope
    decoders are proved against.

    ** What the theorems show

    - The store ([Refinement], [Replication], [StoredRows], [Typing]): every
      store reached from its binding through well-formed batches is accepted by
      a load under every rule and read back exactly; its counters are exact and
      within budget; batching is invisible; rows survive their wire form, the widths
      of whose arrays are kept by every admitted batch; an entry applies or is
      refused for one of four named faults.
    - The log ([Mirror], [LogSafety]): what a log writer leaves on disk is the
      contract applied to every command it acknowledged and at most the one
      whose outcome was in question, wherever writes fail; the store then opens
      again; every message survives its mirror.
    - Clients ([Sessions], [AccessControl], [Ingress], [JournalSafety],
      [Delivery]): a journaled mutation is applied at most once whatever crashes
      and resends there are, the journal's file always opens again and an
      acknowledgement settles the result it was given; duplicates get the first
      reply, dispositions mean what they say, preflight agrees with apply, a
      caller without rights changes nothing, a register value goes only to a
      reader, narrowing has exactly three outcomes and feeds the log only
      commands the log theorems cover.
    - Calls ([Served], [Engine], [Driver], [Settled], [Sendable]): every
      typed answer an honest leader gives to a mutation is one the client
      accepts, and lets its driver settle; the driver moves the journal only
      along its transition system and always leaves its loop, and a tombstoned
      client id ends the corridor a refusal opened; the walk reaches a member
      that serves; a request the client may send is never refused for its shape.
    - Reads ([ReadSafety], [ReadHonesty]): a linearizable read sees every entry up
      to the confirmed barrier and only a reader gets it; every reply an honest
      group gives to a read passes the verdict of the client that asked; a reader
      that follows the audit stream of a group at work is refused below the floor
      and otherwise misses no row and gets none twice.
    - Placement ([Clusters], [PlacementSafety], [ManagerSafety]): the clusters are
      the connected components of the corroborated near edges, the same for every
      reader of the same records, and separation is claimed only on evidence; the
      search for voters is exhaustive and optimal; an automatic change replaces at
      most one voter, after a full grace of absence; and what the manager submits
      the group it observed accepts, under a policy of the group's own authority.
    - The runtime ([AdmissionSafety], [NodeRuntimeSafety], [NetworkSafety]): the
      in-flight ceilings hold and are exact whatever the interleaving; controllers
      never overlap, and none runs after a stop; a view is ready exactly on
      its grounds, and none is whose reads began once the node drains or is fatal;
      a voter is taken down in order; a request reaches the consensus library only from an
      admitted sender, and a call between voters is faithful.
    - Leases ([Leases], [LeaseSafety], [LeaseRefinement], [Expiry]): a stale
      fence is never accepted again, the epoch fixes the holder, the group
      refines the normative lease machine operation by operation, but for the
      revocation of a resource without a row, and along whole histories, a fence
      the holder's engine hands out is good or was taken away on purpose and is
      refused, and the leader's expiry waits out the holder and does come.
    - Membership ([Lifecycle], [Controller], [Shape]): intents move along
      the legal phases, member routes stay, the controller's reports are
      accepted, and whatever fails on the way its passes complete an accepted plan
      once seven of them have gone through.
    - The wire path ([Canonical], [Envelope], [Identity]): an envelope has one
      encoding, its decoder accepts that encoding and nothing else and never panics;
      a frame delivers its payload and bounds what a receiver holds; canonical
      bytes identify a contract up to the order of its declarations. The
      two kinds of input that make a contract reader panic are shown too.
    - Documents and encodings ([Genesis], [Authority], [Ticket], [Adapter],
      [Classify]): what accepted documents prove, round trips of tickets and
      resource strings, and the classifier as its printed table.

    The hypotheses on a log ([log_wf]) are those the boundary and the consensus
    layer establish: positions advance, memberships are within the profile, and
    a request hash commits to one operation. [Ingress] proves the boundary's
    share. Two are not checked by the code, and [Refinement] ends with what
    then leaves a store no load accepts: every rejected command that replays
    another operation's answer, and a report that observed the future.

    ** Bounds and fuel

    The decoders and encoders recurse on their input. [prune_loop] has fuel:
    [AuditTrail] shows the audit table's size is enough and that the loop leaves
    the cap respected. The driver's [loop] has fuel too: three rounds, shown
    enough, since each round moves the journal forward along pending, closing and
    replay; within a round an attempt is repeated at most the code's
    [DRIVE_ATTEMPTS] times, and a walk makes at most the code's two hops more than
    there are members. Union-find's [find] has the number of vertices as fuel, and
    [Clusters] shows that it never runs out; [trim_learners] and [pop_while]
    have the size of what they shrink, shown enough where they are used. The two varint loops have the ten rounds of the code, enough for
    a [u64] ([write_varint_rounds]); the theorems on slices ask for fewer than [2^58]
    bytes, so that a list of as many strings can be allocated. [controller_converges] counts the
    passes that went through: a phase table of seven levels. Counters are bounded by [MAX_COUNTER], and the
    theorems about fresh epochs of the in-memory serializer ask for fewer than
    [2^64] operations.

    ** Not modelled

    The database transactions, files and tasks around the modelled rows
    (snapshot.rs, schema.rs, the actor of machine.rs), the
    snapshot stream and the rest of the network and RPC layers, the JSON forms, the
    manifest and the cyclic type graphs of contract.rs, the store service's
    recovery export, bounds on the rate of a token bucket,
    the client's verdict on the recovery manifest, the engine's streams and backoff
    delays, the rest of the client facade, the swarm engine that publishes
    topology records, the transport library, enrollment and delegation, the
    tools and the language bindings: they are I/O and scheduling over the parts
    above, or other subsystems. The binary codec, signatures, digests, zstd,
    Unicode normalization, the hex strings of a contract and the consensus library
    are parameters with named laws. *)

From stdpp Require Export base gmap sorting strings list fin_maps numbers.
From Stdlib Require Export Lia.
From Stdlib Require Strings.Byte.

#[local] Open Scope N_scope.

#[global] Set Default Goal Selector "!".

(** ** Bytes and byte strings

    [u8] is the standard byte type; [Vec<u8>], [String] (through its UTF-8
    bytes) and the fixed-width arrays [[u8; N]] are byte lists. *)

Abbreviation byte := Corelib.Init.Byte.byte.
Abbreviation bytes := (list byte).

#[export] Instance byte_eq_dec : EqDecision byte := Strings.Byte.byte_eq_dec.

#[export] Program Instance byte_countable : Countable byte :=
  inj_countable Strings.Byte.to_N Strings.Byte.of_N _.
Next Obligation. exact Strings.Byte.of_to_N. Qed.

(** [len l] is [l.len()] as an integer. *)
Definition len {A : Type} (l : list A) : N := N.of_nat (length l).

(** The order of [u8], and the lexicographic order Rust derives for byte
    slices and arrays. *)
Definition byte_ltb (a b : byte) : bool :=
  N.ltb (Strings.Byte.to_N a) (Strings.Byte.to_N b).

Fixpoint bytes_ltb (a b : bytes) : bool :=
  match a, b with
  | _, [] => false
  | [], _ :: _ => true
  | x :: a', y :: b' => byte_ltb x y || (bool_decide (x = y) && bytes_ltb a' b')
  end.

Definition bytes_leb (a b : bytes) : bool := negb (bytes_ltb b a).

(** [slice.windows(2).all(|w| f(w[0], w[1]))]. *)
Fixpoint windows2_all {A : Type} (f : A -> A -> bool) (l : list A) : bool :=
  match l with
  | x :: ((y :: _) as t) => f x y && windows2_all f t
  | _ => true
  end.

(** ** Machine integers

    [u64] and [usize] are [N]; an operator that the source applies to a stored
    counter is the release build's wrapping one. [i32] codes are [Z]. *)

Definition U64_MODULUS : N := 18446744073709551616.
Definition U64_MAX : N := 18446744073709551615.
Definition u64_add (a b : N) : N := (a + b) mod U64_MODULUS.
Definition u64_sub (a b : N) : N := (a + (U64_MODULUS - b mod U64_MODULUS)) mod U64_MODULUS.
Definition u64_saturating_add (a b : N) : N := N.min (a + b) U64_MAX.
Definition u64_saturating_sub (a b : N) : N := a - b.

(** ** Fallible results *)

Inductive result (A E : Type) : Type :=
| Ok (a : A)
| Err (e : E).
Arguments Ok {A E} _.
Arguments Err {A E} _.

(** [Result::ok]. *)
Definition result_ok {A E : Type} (r : result A E) : option A :=
  match r with
  | Ok a => Some a
  | Err _ => None
  end.

Declare Scope coordination_scope.
Delimit Scope coordination_scope with coord.

(** [let? x := r in k]: the [?] operator on [result]. *)
Notation "'let?' x := r 'in' k" :=
  (match r with Ok x => k | Err e => Err e end)
  (at level 10, x pattern, r at level 100, k at level 200) : coordination_scope.

#[export] Instance result_eq_dec {A E} `{EqDecision A, EqDecision E} : EqDecision (result A E).
Proof. solve_decision. Defined.

(** ** Ordered iteration

    A [BTreeMap] is a [gmap]; what depends on its iteration order goes through
    [btree_iter], the association list sorted by key. *)

Definition pair_leb (a b : N * N) : bool :=
  N.ltb a.1 b.1 || (N.eqb a.1 b.1 && N.leb a.2 b.2).

(** The order of [((u64, u64), [u8; N])] tuples. *)
Definition stamped_leb (a b : (N * N) * bytes) : bool :=
  if bool_decide (a.1 = b.1) then bytes_leb a.2 b.2 else pair_leb a.1 b.1.

Definition stamped_le (a b : (N * N) * bytes) : Prop := stamped_leb a b = true.
#[export] Instance stamped_le_dec : RelDecision stamped_le := λ a b, bool_eq_dec _ _.

Definition audit_key_le {V : Type} (a b : (N * N) * V) : Prop := pair_leb a.1 b.1 = true.
#[export] Instance audit_key_le_dec {V} : RelDecision (@audit_key_le V) := λ a b, bool_eq_dec _ _.

Definition btree_iter {V : Type} (m : gmap (N * N) V) : list ((N * N) * V) :=
  merge_sort audit_key_le (map_to_list m).

(** ** Sums over tables

    [msum] is the mathematical sum of a charge over a table and [wsum] the
    [u64] fold [iter().map(charge).sum()] computes. *)

Definition msum {K V : Type} `{Countable K} (f : K -> V -> N) (m : gmap K V) : N :=
  map_fold (λ k v acc, f k v + acc) 0 m.

Definition wsum {K V : Type} `{Countable K} (f : K -> V -> N) (m : gmap K V) : N :=
  map_fold (λ k v acc, u64_add acc (f k v)) 0 m.

(** [count] of the rows that satisfy a predicate. *)
Definition mcount {K V : Type} `{Countable K} (p : K -> V -> bool) (m : gmap K V) : N :=
  msum (λ k v, if p k v then 1 else 0) m.

(** ** Tactics and hints *)

Create HintDb coord.

(** Split the conditionals and matches of a decision function, keeping the
    equation of each test. *)
Ltac split_tests :=
  repeat first
    [ progress simplify_eq/=
    | case_match ].

(** Turn boolean comparisons into propositions. *)
Ltac boolean_facts :=
  repeat match goal with
  | H : negb _ = true |- _ => apply negb_true_iff in H
  | H : negb _ = false |- _ => apply negb_false_iff in H
  | H : (_ && _)%bool = true |- _ => apply andb_true_iff in H as [??]
  | H : (_ || _)%bool = false |- _ => apply orb_false_iff in H as [??]
  | H : (_ <? _)%N = true |- _ => apply N.ltb_lt in H
  | H : (_ <? _)%N = false |- _ => apply N.ltb_ge in H
  | H : (_ <=? _)%N = true |- _ => apply N.leb_le in H
  | H : (_ <=? _)%N = false |- _ => apply N.leb_gt in H
  | H : (_ =? _)%N = true |- _ => apply N.eqb_eq in H
  | H : (_ =? _)%N = false |- _ => apply N.eqb_neq in H
  | H : (_ =? _)%Z = true |- _ => apply Z.eqb_eq in H
  | H : (_ =? _)%Z = false |- _ => apply Z.eqb_neq in H
  | H : bool_decide _ = true |- _ => apply bool_decide_eq_true_1 in H
  | H : bool_decide _ = false |- _ => apply bool_decide_eq_false_1 in H
  end.

(** ** Machine integer lemmas *)

Lemma U64_MODULUS_pos : 0 < U64_MODULUS.
Proof. done. Qed.

Lemma u64_add_small a b : a + b < U64_MODULUS -> u64_add a b = a + b.
Proof. apply N.mod_small. Qed.

Lemma u64_sub_small a b : b <= a -> a < U64_MODULUS -> u64_sub a b = a - b.
Proof.
  intros Hle Ha. unfold u64_sub. rewrite (N.mod_small b) by lia.
  replace (a + (U64_MODULUS - b)) with ((a - b) + 1 * U64_MODULUS) by lia.
  rewrite N.Div0.mod_add. apply N.mod_small. lia.
Qed.

(** The counter update [c + new - old] of the accounting code, modulo [2^64]:
    it is the right residue whatever the sizes. *)
Lemma u64_add_sub_mod c new old x y :
  c = x mod U64_MODULUS -> y + old = x + new ->
  u64_sub (u64_add c new) old = y mod U64_MODULUS.
Proof.
  intros -> Hy. unfold u64_sub, u64_add.
  rewrite N.Div0.add_mod_idemp_l, <- N.add_assoc, N.Div0.add_mod_idemp_l, N.add_assoc.
  pose proof (N.mod_lt old U64_MODULUS ltac:(done)).
  pose proof (N.Div0.div_mod old U64_MODULUS) as Hold.
  replace (x + new + (U64_MODULUS - old mod U64_MODULUS))
    with (y + (old / U64_MODULUS + 1) * U64_MODULUS) by lia.
  apply N.Div0.mod_add.
Qed.

Lemma u64_add_mod c new x :
  c = x mod U64_MODULUS -> u64_add c new = (x + new) mod U64_MODULUS.
Proof. intros ->. unfold u64_add. by rewrite N.Div0.add_mod_idemp_l. Qed.

Lemma u64_add_mods x y :
  u64_add (x mod U64_MODULUS) (y mod U64_MODULUS) = (x + y) mod U64_MODULUS.
Proof. unfold u64_add. by rewrite N.Div0.add_mod_idemp_l, N.Div0.add_mod_idemp_r. Qed.

Lemma u64_sub_mod c old x y :
  c = x mod U64_MODULUS -> y + old = x -> u64_sub c old = y mod U64_MODULUS.
Proof.
  intros Hc Hy. rewrite <- (u64_add_sub_mod c 0 old x y Hc); [|lia].
  f_equal. rewrite (u64_add_mod _ _ _ Hc), N.add_0_r. done.
Qed.

(** ** Byte order lemmas *)

Lemma byte_ltb_trans a b c : byte_ltb a b = true -> byte_ltb b c = true -> byte_ltb a c = true.
Proof. unfold byte_ltb. rewrite !N.ltb_lt. lia. Qed.

Lemma byte_to_N_inj a b : Strings.Byte.to_N a = Strings.Byte.to_N b -> a = b.
Proof.
  intros H. apply (inj Some). by rewrite <- !Strings.Byte.of_to_N, H.
Qed.

Lemma byte_ltb_total a b : byte_ltb a b = true \/ a = b \/ byte_ltb b a = true.
Proof.
  unfold byte_ltb. rewrite !N.ltb_lt.
  destruct (N.lt_trichotomy (Strings.Byte.to_N a) (Strings.Byte.to_N b)) as [|[?%byte_to_N_inj|]]; auto.
Qed.

Lemma byte_ltb_irrefl a : byte_ltb a a = false.
Proof. unfold byte_ltb. apply N.ltb_irrefl. Qed.

Lemma bytes_ltb_irrefl a : bytes_ltb a a = false.
Proof.
  induction a as [|x a IH]; [done|]. simpl.
  rewrite byte_ltb_irrefl, IH. by destruct (bool_decide _).
Qed.

Lemma bytes_ltb_trans a b c :
  bytes_ltb a b = true -> bytes_ltb b c = true -> bytes_ltb a c = true.
Proof.
  revert b c. induction a as [|x a IH]; intros [|y b] [|z c]; simpl; try done.
  rewrite !orb_true_iff, !andb_true_iff, !bool_decide_eq_true.
  intros [H1|[-> H1]] [H2|[-> H2]].
  - left. eauto using byte_ltb_trans.
  - by left.
  - by left.
  - right. eauto.
Qed.

Lemma bytes_ltb_total a b : bytes_ltb a b = true \/ a = b \/ bytes_ltb b a = true.
Proof.
  revert b. induction a as [|x a IH]; intros [|y b]; simpl; auto.
  destruct (byte_ltb_total x y) as [H|[H|H]]; [by rewrite H; auto|subst y|by rewrite H; auto].
  rewrite bool_decide_eq_true_2 by done. rewrite byte_ltb_irrefl. simpl.
  destruct (IH b) as [H|[H|H]]; subst; auto.
Qed.

(** A part of a sorted list is sorted. *)
Lemma sublist_sorted {A} (R : relation A) k l : sublist k l -> StronglySorted R l -> StronglySorted R k.
Proof.
  induction 1 as [|x k l Hs IH|x k l _ IH]; intros Hl; [constructor|..];
    apply StronglySorted_inv in Hl as [Hl Hall]; [|auto].
  constructor; [auto|]. rewrite List.Forall_forall in *. intros y Hy%list_elem_of_In.
  by eapply Hall, list_elem_of_In, elem_of_sublist.
Qed.

Lemma windows2_all_ltb_Sorted (l : list bytes) :
  windows2_all bytes_ltb l = true <-> StronglySorted (λ a b, bytes_ltb a b = true) l.
Proof.
  split.
  - intros H. apply Sorted_StronglySorted; [intros ???; apply bytes_ltb_trans|].
    induction l as [|x [|y l] IH]; simpl in *; [by constructor|by repeat constructor|].
    apply andb_true_iff in H as [H1 H2]. constructor; [by auto|]. by constructor.
  - induction 1 as [|x l Hs IH Hall]; [done|].
    destruct l as [|y l]; [done|]. simpl in *. rewrite IH, andb_true_r.
    by inversion Hall.
Qed.

Lemma windows2_all_ltb_NoDup (l : list bytes) : windows2_all bytes_ltb l = true -> NoDup l.
Proof.
  rewrite windows2_all_ltb_Sorted. induction 1 as [|x l Hs IH Hall]; constructor; [|done].
  intros Hin. rewrite Forall_forall in Hall. specialize (Hall x).
  rewrite bytes_ltb_irrefl in Hall. discriminate Hall. by apply list_elem_of_In.
Qed.

(** ** Table sums *)

Section table_sums.
Context {K V : Type} `{Countable K} (f : K -> V -> N).
Implicit Types (m : gmap K V).

Lemma msum_empty : msum f ∅ = 0.
Proof. apply map_fold_empty. Qed.

Lemma msum_insert_None m k v : m !! k = None -> msum f (<[k:=v]> m) = f k v + msum f m.
Proof. intros Hk. unfold msum. apply (map_fold_insert_L (λ k v acc, f k v + acc)); [intros; lia|done]. Qed.

Lemma msum_delete m k v : m !! k = Some v -> msum f m = f k v + msum f (delete k m).
Proof. intros Hk. unfold msum. apply (map_fold_delete_L (λ k v acc, f k v + acc)); [intros; lia|done]. Qed.

(** Overwriting a row moves the sum by the difference of the charges. *)
Lemma msum_insert m k v :
  msum f (<[k:=v]> m) + from_option (f k) 0 (m !! k) = msum f m + f k v.
Proof.
  destruct (m !! k) as [old|] eqn:Hk; simpl.
  - rewrite <- insert_delete_eq, msum_insert_None by apply lookup_delete_eq.
    rewrite (msum_delete m k old Hk). lia.
  - rewrite msum_insert_None by done. lia.
Qed.

Lemma msum_delete_opt m k :
  msum f (delete k m) + from_option (f k) 0 (m !! k) = msum f m.
Proof.
  destruct (m !! k) as [old|] eqn:Hk; simpl.
  - rewrite (msum_delete m k old Hk). lia.
  - rewrite delete_id by done. lia.
Qed.

Lemma msum_lookup_le m k v : m !! k = Some v -> f k v <= msum f m.
Proof. intros Hk. rewrite (msum_delete m k v Hk). lia. Qed.

Lemma wsum_msum m : wsum f m = msum f m mod U64_MODULUS.
Proof.
  induction m as [|k v m Hk IH] using map_ind.
  - unfold wsum. by rewrite map_fold_empty, msum_empty.
  - rewrite msum_insert_None by done. unfold wsum in *.
    rewrite (map_fold_insert_L (λ k v acc, u64_add acc (f k v))); [..|done].
    + rewrite IH. unfold u64_add. rewrite N.Div0.add_mod_idemp_l. f_equal. lia.
    + intros. unfold u64_add. rewrite !N.Div0.add_mod_idemp_l. f_equal. lia.
Qed.

Lemma msum_le_size m c :
  (forall k v, m !! k = Some v -> f k v <= c) -> msum f m <= N.of_nat (size m) * c.
Proof.
  induction m as [|k v m Hk IH] using map_ind; intros Hc.
  - rewrite msum_empty. lia.
  - rewrite msum_insert_None, map_size_insert_None by done.
    pose proof (Hc k v ltac:(apply lookup_insert_eq)).
    enough (msum f m <= N.of_nat (size m) * c) by lia.
    apply IH. intros k' v' Hk'. apply (Hc k'). rewrite lookup_insert_ne; [done|naive_solver].
Qed.
End table_sums.

Lemma msum_ext {K V} `{Countable K} (f g : K -> V -> N) (m : gmap K V) :
  (forall k v, m !! k = Some v -> f k v = g k v) -> msum f m = msum g m.
Proof.
  induction m as [|k v m Hk IH] using map_ind; intros Heq; [by rewrite !msum_empty|].
  rewrite !msum_insert_None by done. f_equal.
  - apply Heq, lookup_insert_eq.
  - apply IH. intros k' v' Hk'. apply Heq. rewrite lookup_insert_ne; [done|naive_solver].
Qed.

Lemma mcount_le_size {K V} `{Countable K} (p : K -> V -> bool) (m : gmap K V) :
  mcount p m <= N.of_nat (size m).
Proof.
  pose proof (msum_le_size (λ k v, if p k v then 1 else 0) m 1) as Hle.
  unfold mcount. etrans; [apply Hle|lia]. intros k v _. destruct (p k v); lia.
Qed.

Lemma mcount_insert {K V} `{Countable K} (p : K -> V -> bool) (m : gmap K V) k v :
  mcount p (<[k:=v]> m) + from_option (λ o, if p k o then 1 else 0) 0 (m !! k)
  = mcount p m + (if p k v then 1 else 0).
Proof. apply (msum_insert (λ k v, if p k v then 1 else 0)). Qed.

Lemma mcount_delete {K V} `{Countable K} (p : K -> V -> bool) (m : gmap K V) k :
  mcount p (delete k m) + from_option (λ o, if p k o then 1 else 0) 0 (m !! k) = mcount p m.
Proof. apply (msum_delete_opt (λ k v, if p k v then 1 else 0)). Qed.

Lemma size_delete_le {K V} `{Countable K} (m : gmap K V) k :
  (size (delete k m) <= size m)%nat.
Proof.
  destruct (m !! k) eqn:Hk; [rewrite (map_size_delete_Some k m) by (by eexists); lia|].
  by rewrite delete_id.
Qed.

Lemma insert_is_Some {K V} `{Countable K} (m : gmap K V) k v k' :
  is_Some (m !! k') -> is_Some (<[k:=v]> m !! k').
Proof.
  intros. destruct (decide (k = k')) as [<-|]; [by rewrite lookup_insert_eq; eexists|].
  by rewrite lookup_insert_ne.
Qed.

(** Two counts of complementary predicates are the size of the table. *)
Lemma mcount_split {K V} `{Countable K} (p : K -> V -> bool) (m : gmap K V) :
  mcount p m + mcount (λ k v, negb (p k v)) m = N.of_nat (size m).
Proof.
  induction m as [|k v m Hk IH] using map_ind; [done|].
  pose proof (mcount_insert p m k v) as H1.
  pose proof (mcount_insert (λ k v, negb (p k v)) m k v) as H2.
  rewrite Hk in H1, H2. simpl in H1, H2. rewrite map_size_insert_None by done.
  destruct (p k v); simpl in *; lia.
Qed.

Lemma mcount_pos {K V} `{Countable K} (p : K -> V -> bool) (m : gmap K V) k v :
  m !! k = Some v -> p k v = true -> 1 <= mcount p m.
Proof.
  intros Hk Hp. unfold mcount. etrans; [|by apply (msum_lookup_le _ m k v)].
  simpl. by rewrite Hp.
Qed.

(** ** Ordered iteration lemmas *)

Lemma pair_leb_trans a b c : pair_leb a b = true -> pair_leb b c = true -> pair_leb a c = true.
Proof.
  unfold pair_leb. rewrite !orb_true_iff, !andb_true_iff, !N.ltb_lt, !N.eqb_eq, !N.leb_le. lia.
Qed.

Lemma pair_leb_total a b : pair_leb a b = true \/ pair_leb b a = true.
Proof.
  unfold pair_leb. rewrite !orb_true_iff, !andb_true_iff, !N.ltb_lt, !N.eqb_eq, !N.leb_le. lia.
Qed.

Lemma pair_leb_antisym a b : pair_leb a b = true -> pair_leb b a = true -> a = b.
Proof.
  destruct a, b. unfold pair_leb. simpl.
  rewrite !orb_true_iff, !andb_true_iff, !N.ltb_lt, !N.eqb_eq, !N.leb_le.
  intros. f_equal; lia.
Qed.

#[export] Instance audit_key_le_trans {V} : Transitive (@audit_key_le V).
Proof. intros ???. apply pair_leb_trans. Qed.

#[export] Instance audit_key_le_total {V} : Total (@audit_key_le V).
Proof. intros ??. apply pair_leb_total. Qed.

Lemma btree_iter_perm {V} (m : gmap (N * N) V) : btree_iter m ≡ₚ map_to_list m.
Proof. apply merge_sort_Permutation. Qed.

(** The first entry of the iteration is a row of the table with the least key. *)
Lemma btree_iter_head {V} (m : gmap (N * N) V) k v t :
  btree_iter m = (k, v) :: t ->
  m !! k = Some v /\ forall k' v', m !! k' = Some v' -> pair_leb k k' = true.
Proof.
  intros Hit. pose proof (btree_iter_perm m) as Hp. rewrite Hit in Hp. split.
  - apply elem_of_map_to_list. rewrite <- Hp. left.
  - intros k' v' Hk'. apply elem_of_map_to_list in Hk'. rewrite <- Hp in Hk'.
    pose proof (StronglySorted_merge_sort audit_key_le (map_to_list m)) as Hs.
    fold (btree_iter m) in Hs. rewrite Hit in Hs. inversion Hs as [|?? _ Hall]; subst.
    apply elem_of_cons in Hk' as [[= -> ->]|Hk'].
    + unfold pair_leb. rewrite N.eqb_refl, N.leb_refl. by rewrite orb_true_r.
    + rewrite Forall_forall in Hall. apply (Hall (k', v')), list_elem_of_In, Hk'.
Qed.

Lemma btree_iter_nil {V} (m : gmap (N * N) V) : btree_iter m = [] -> m = ∅.
Proof.
  intros Hit. pose proof (btree_iter_perm m) as Hp. rewrite Hit in Hp.
  apply map_to_list_empty_iff. symmetry. by apply Permutation_nil_l.
Qed.

Lemma bytes_leb_trans a b c : bytes_leb a b = true -> bytes_leb b c = true -> bytes_leb a c = true.
Proof.
  unfold bytes_leb. rewrite !negb_true_iff. intros H1 H2.
  destruct (bytes_ltb c a) eqn:H3; [|done].
  destruct (bytes_ltb_total a b) as [H4|[H4|H4]]; [|congruence..].
  by rewrite (bytes_ltb_trans _ _ _ H3 H4) in H2.
Qed.

Lemma bytes_leb_total a b : bytes_leb a b = true \/ bytes_leb b a = true.
Proof.
  unfold bytes_leb. rewrite !negb_true_iff.
  destruct (bytes_ltb b a) eqn:H1; [right|by left].
  destruct (bytes_ltb a b) eqn:H2; [|done].
  pose proof (bytes_ltb_trans _ _ _ H1 H2) as H3. by rewrite bytes_ltb_irrefl in H3.
Qed.

#[export] Instance stamped_le_trans : Transitive stamped_le.
Proof.
  intros [a a'] [b b'] [c c']. unfold stamped_le, stamped_leb. simpl.
  repeat case_bool_decide; subst; simplify_eq/=; intros Hab Hbc;
    eauto using bytes_leb_trans, pair_leb_trans.
  exfalso. eauto using pair_leb_antisym.
Qed.

#[export] Instance stamped_le_total : Total stamped_le.
Proof.
  intros [a a'] [b b']. unfold stamped_le, stamped_leb. simpl.
  repeat case_bool_decide; subst; simplify_eq/=; auto using bytes_leb_total, pair_leb_total.
Qed.

(** ** Bit strings

    stdpp's encodings as byte strings: the codec the witnesses run with. *)
Fixpoint bits_of (p : positive) : bytes :=
  match p with
  | xH => []
  | xO p => Byte.x00 :: bits_of p
  | xI p => Byte.x01 :: bits_of p
  end.

Fixpoint of_bits (b : bytes) : positive :=
  match b with
  | [] => xH
  | Byte.x00 :: b => xO (of_bits b)
  | _ :: b => xI (of_bits b)
  end.

Lemma of_bits_of p : of_bits (bits_of p) = p.
Proof. induction p as [p IH|p IH|]; simpl; [by rewrite IH..|done]. Qed.
