(* ===== verification/Reason.v ===== *)
(** * Outcome and rejection reason codes

    Models [aster/src/coordination/reason.rs]: the reason and outcome codes, the
    refusal vocabulary, and the classifications that hang off a reason
    (admission denial, which replies may carry it, terminality). The
    theorems show that the codes are a faithful encoding, that a refusal can carry
    neither the absent nor a reserved reason, and how the classifications
    partition the reasons. *)

From S2P Require Import Prelude.

(** [enum Reason]. *)
Inductive Reason : Type :=
| R_None
| R_IntentSlotsExhausted
| R_HeldByOther
| R_NotHeld
| R_NotHolder
| R_EpochMismatch
| R_ValueRevisionMismatch
| R_AclRevisionMismatch
| R_AdminRevisionMismatch
| R_SequenceTooOld
| R_SequenceGap
| R_SequenceConflict
| R_ClientRetired
| R_PermissionChanged
| R_MembershipRevisionMismatch
| R_MembershipIntentActive
| R_CounterExhausted
| R_MembershipCannotCancel
| R_OperationIdConflict
| R_RetainedSessionCapReached
| R_StateBudgetExhausted
| R_ActiveClientCap
| R_ResourceSlotsExhausted
| R_AclSlotsExhausted
| R_LastAdministrator
| R_MembershipLearnerEnvelope
| R_RootAuthorityImmutable.

#[export] Instance Reason_eq_dec : EqDecision Reason.
Proof. solve_decision. Defined.

(** [Reason::ALL], in declaration order: absent, reserved, refusable. *)
Definition Reason_ALL : list Reason :=
  [ R_None; R_IntentSlotsExhausted; R_HeldByOther; R_NotHeld; R_NotHolder; R_EpochMismatch;
    R_ValueRevisionMismatch; R_AclRevisionMismatch; R_AdminRevisionMismatch; R_SequenceTooOld;
    R_SequenceGap; R_SequenceConflict; R_ClientRetired; R_PermissionChanged;
    R_MembershipRevisionMismatch; R_MembershipIntentActive; R_CounterExhausted;
    R_MembershipCannotCancel; R_OperationIdConflict; R_RetainedSessionCapReached;
    R_StateBudgetExhausted; R_ActiveClientCap; R_ResourceSlotsExhausted; R_AclSlotsExhausted;
    R_LastAdministrator; R_MembershipLearnerEnvelope; R_RootAuthorityImmutable ].

(** [Reason::code]. *)
Definition reason_code (r : Reason) : Z :=
  match r with
  | R_None => 0
  | R_HeldByOther => 1
  | R_NotHeld => 2
  | R_NotHolder => 3
  | R_EpochMismatch => 4
  | R_ValueRevisionMismatch => 5
  | R_AclRevisionMismatch => 6
  | R_AdminRevisionMismatch => 7
  | R_SequenceTooOld => 8
  | R_SequenceGap => 9
  | R_SequenceConflict => 10
  | R_ClientRetired => 11
  | R_PermissionChanged => 12
  | R_MembershipRevisionMismatch => 13
  | R_MembershipIntentActive => 14
  | R_CounterExhausted => 15
  | R_MembershipCannotCancel => 16
  | R_OperationIdConflict => 17
  | R_RetainedSessionCapReached => 18
  | R_StateBudgetExhausted => 19
  | R_IntentSlotsExhausted => 20
  | R_ActiveClientCap => 21
  | R_ResourceSlotsExhausted => 22
  | R_AclSlotsExhausted => 23
  | R_LastAdministrator => 24
  | R_MembershipLearnerEnvelope => 25
  | R_RootAuthorityImmutable => 26
  end.

(** [Reason::from_code]: the arm of the code among the declared ones. *)
Definition reason_from_code (code : Z) : option Reason :=
  match code with
  | 0 => Some R_None
  | 20 => Some R_IntentSlotsExhausted
  | 1 => Some R_HeldByOther
  | 2 => Some R_NotHeld
  | 3 => Some R_NotHolder
  | 4 => Some R_EpochMismatch
  | 5 => Some R_ValueRevisionMismatch
  | 6 => Some R_AclRevisionMismatch
  | 7 => Some R_AdminRevisionMismatch
  | 8 => Some R_SequenceTooOld
  | 9 => Some R_SequenceGap
  | 10 => Some R_SequenceConflict
  | 11 => Some R_ClientRetired
  | 12 => Some R_PermissionChanged
  | 13 => Some R_MembershipRevisionMismatch
  | 14 => Some R_MembershipIntentActive
  | 15 => Some R_CounterExhausted
  | 16 => Some R_MembershipCannotCancel
  | 17 => Some R_OperationIdConflict
  | 18 => Some R_RetainedSessionCapReached
  | 19 => Some R_StateBudgetExhausted
  | 21 => Some R_ActiveClientCap
  | 22 => Some R_ResourceSlotsExhausted
  | 23 => Some R_AclSlotsExhausted
  | 24 => Some R_LastAdministrator
  | 25 => Some R_MembershipLearnerEnvelope
  | 26 => Some R_RootAuthorityImmutable
  | _ => None
  end%Z.

(** [Reason::is_reserved]. *)
Definition is_reserved (r : Reason) : bool :=
  match r with
  | R_IntentSlotsExhausted => true
  | _ => false
  end.

(** [Reason::is_refusable]. *)
Definition is_refusable (r : Reason) : bool :=
  match r with
  | R_None | R_IntentSlotsExhausted => false
  | _ => true
  end.

(** [struct RefusalReason(Reason)]. The source offers a constant per refusable
    reason and the fallible constructor [new]; the private field is the
    evidence the record carries. *)
Record RefusalReason : Type := mk_RefusalReason {
  refusal_get : Reason;
  refusal_valid : is_refusable refusal_get = true;
}.

(** [RefusalReason::new]. *)
Definition RefusalReason_new (r : Reason) : option RefusalReason :=
  match decide (is_refusable r = true) with
  | left H => Some (mk_RefusalReason r H)
  | right _ => None
  end.

Definition HeldByOther := mk_RefusalReason R_HeldByOther eq_refl.
Definition NotHeld := mk_RefusalReason R_NotHeld eq_refl.
Definition NotHolder := mk_RefusalReason R_NotHolder eq_refl.
Definition EpochMismatch := mk_RefusalReason R_EpochMismatch eq_refl.
Definition ValueRevisionMismatch := mk_RefusalReason R_ValueRevisionMismatch eq_refl.
Definition AclRevisionMismatch := mk_RefusalReason R_AclRevisionMismatch eq_refl.
Definition AdminRevisionMismatch := mk_RefusalReason R_AdminRevisionMismatch eq_refl.
Definition PermissionChanged := mk_RefusalReason R_PermissionChanged eq_refl.
Definition MembershipRevisionMismatch := mk_RefusalReason R_MembershipRevisionMismatch eq_refl.
Definition MembershipIntentActive := mk_RefusalReason R_MembershipIntentActive eq_refl.
Definition CounterExhausted := mk_RefusalReason R_CounterExhausted eq_refl.
Definition MembershipCannotCancel := mk_RefusalReason R_MembershipCannotCancel eq_refl.
Definition OperationIdConflict := mk_RefusalReason R_OperationIdConflict eq_refl.
Definition RetainedSessionCapReached := mk_RefusalReason R_RetainedSessionCapReached eq_refl.
Definition StateBudgetExhausted := mk_RefusalReason R_StateBudgetExhausted eq_refl.
Definition ResourceSlotsExhausted := mk_RefusalReason R_ResourceSlotsExhausted eq_refl.
Definition AclSlotsExhausted := mk_RefusalReason R_AclSlotsExhausted eq_refl.
Definition LastAdministrator := mk_RefusalReason R_LastAdministrator eq_refl.
Definition MembershipLearnerEnvelope := mk_RefusalReason R_MembershipLearnerEnvelope eq_refl.
Definition RootAuthorityImmutable := mk_RefusalReason R_RootAuthorityImmutable eq_refl.

(** [Reason::is_admission_denial]. *)
Definition is_admission_denial (r : Reason) : bool :=
  match r with
  | R_CounterExhausted | R_StateBudgetExhausted | R_ResourceSlotsExhausted
  | R_AclSlotsExhausted | R_LastAdministrator | R_RootAuthorityImmutable
  | R_MembershipLearnerEnvelope => true
  | R_AclRevisionMismatch | R_AdminRevisionMismatch | R_ValueRevisionMismatch
  | R_EpochMismatch | R_MembershipRevisionMismatch | R_OperationIdConflict => false
  | R_HeldByOther | R_NotHeld | R_NotHolder | R_PermissionChanged
  | R_MembershipIntentActive | R_MembershipCannotCancel => false
  | R_None | R_SequenceTooOld | R_SequenceGap | R_SequenceConflict | R_ClientRetired
  | R_RetainedSessionCapReached | R_ActiveClientCap => false
  | R_IntentSlotsExhausted => false
  end.

(** [Reason::may_be_not_consumed]. *)
Definition may_be_not_consumed (r : Reason) : bool :=
  match r with
  | R_SequenceTooOld | R_SequenceGap | R_SequenceConflict | R_ClientRetired
  | R_RetainedSessionCapReached | R_ActiveClientCap => true
  | R_CounterExhausted | R_StateBudgetExhausted | R_ResourceSlotsExhausted
  | R_AclSlotsExhausted | R_LastAdministrator | R_RootAuthorityImmutable
  | R_MembershipLearnerEnvelope => true
  | R_HeldByOther | R_NotHeld | R_NotHolder | R_EpochMismatch | R_ValueRevisionMismatch
  | R_AclRevisionMismatch | R_AdminRevisionMismatch | R_MembershipRevisionMismatch
  | R_MembershipIntentActive | R_MembershipCannotCancel | R_OperationIdConflict
  | R_PermissionChanged => false
  | R_None | R_IntentSlotsExhausted => false
  end.

(** [Reason::may_be_saved_rejection]. *)
Definition may_be_saved_rejection (r : Reason) : bool :=
  match r with
  | R_HeldByOther | R_NotHeld | R_NotHolder | R_EpochMismatch | R_ValueRevisionMismatch
  | R_AclRevisionMismatch | R_AdminRevisionMismatch | R_MembershipRevisionMismatch
  | R_MembershipIntentActive | R_MembershipCannotCancel | R_OperationIdConflict
  | R_PermissionChanged | R_CounterExhausted | R_StateBudgetExhausted
  | R_ResourceSlotsExhausted | R_AclSlotsExhausted | R_LastAdministrator
  | R_RootAuthorityImmutable | R_MembershipLearnerEnvelope => true
  | R_SequenceTooOld | R_SequenceGap | R_SequenceConflict | R_ClientRetired
  | R_RetainedSessionCapReached | R_ActiveClientCap => false
  | R_None | R_IntentSlotsExhausted => false
  end.

(** [Reason::is_terminal_when_not_consumed]. *)
Definition is_terminal_when_not_consumed (r : Reason) : bool :=
  match r with
  | R_ClientRetired | R_RetainedSessionCapReached | R_CounterExhausted
  | R_ResourceSlotsExhausted | R_RootAuthorityImmutable | R_LastAdministrator => true
  | R_ActiveClientCap | R_AclSlotsExhausted | R_StateBudgetExhausted
  | R_MembershipLearnerEnvelope => false
  | R_None | R_HeldByOther | R_NotHeld | R_NotHolder | R_EpochMismatch
  | R_ValueRevisionMismatch | R_AclRevisionMismatch | R_AdminRevisionMismatch
  | R_SequenceTooOld | R_SequenceGap | R_SequenceConflict | R_PermissionChanged
  | R_MembershipRevisionMismatch | R_MembershipIntentActive | R_MembershipCannotCancel
  | R_OperationIdConflict | R_IntentSlotsExhausted => false
  end.

(** [enum Disposition]. *)
Inductive Disposition : Type :=
| Consumed
| NotConsumed.

#[export] Instance Disposition_eq_dec : EqDecision Disposition.
Proof. solve_decision. Defined.

(** [Disposition::is_terminal]. *)
Definition disposition_is_terminal (d : Disposition) (reason : Reason) : bool :=
  match d with
  | Consumed => true
  | NotConsumed => is_terminal_when_not_consumed reason
  end.

(** [enum Outcome]. *)
Inductive Outcome : Type :=
| O_Granted
| O_Renewed
| O_Mutated
| O_Released
| O_Revoked
| O_GrantUpdated
| O_AdminUpdated
| O_MembershipAccepted
| O_ClientRetired
| O_MembershipCancelled
| O_Rejected.

#[export] Instance Outcome_eq_dec : EqDecision Outcome.
Proof. solve_decision. Defined.

(** [Outcome::ALL]. *)
Definition Outcome_ALL : list Outcome :=
  [ O_Granted; O_Renewed; O_Mutated; O_Released; O_Revoked; O_GrantUpdated; O_AdminUpdated;
    O_MembershipAccepted; O_ClientRetired; O_MembershipCancelled; O_Rejected ].

(** [Outcome::code]. *)
Definition outcome_code (o : Outcome) : Z :=
  match o with
  | O_Granted => 1
  | O_Renewed => 2
  | O_Mutated => 3
  | O_Released => 4
  | O_Revoked => 5
  | O_GrantUpdated => 6
  | O_AdminUpdated => 7
  | O_MembershipAccepted => 8
  | O_ClientRetired => 9
  | O_MembershipCancelled => 10
  | O_Rejected => 100
  end.

(** [Outcome::from_code]. *)
Definition outcome_from_code (code : Z) : option Outcome :=
  match code with
  | 1 => Some O_Granted
  | 2 => Some O_Renewed
  | 3 => Some O_Mutated
  | 4 => Some O_Released
  | 5 => Some O_Revoked
  | 6 => Some O_GrantUpdated
  | 7 => Some O_AdminUpdated
  | 8 => Some O_MembershipAccepted
  | 9 => Some O_ClientRetired
  | 10 => Some O_MembershipCancelled
  | 100 => Some O_Rejected
  | _ => None
  end%Z.

(** [Outcome::is_rejection]. *)
Definition is_rejection (o : Outcome) : bool := bool_decide (o = O_Rejected).

(** ** Lemmas *)

Lemma Reason_ALL_complete r : r ∈ Reason_ALL.
Proof. apply list_elem_of_In. destruct r; simpl; tauto. Qed.

Lemma Outcome_ALL_complete o : o ∈ Outcome_ALL.
Proof. apply list_elem_of_In. destruct o; simpl; tauto. Qed.

#[export] Instance refusal_get_inj : Inj (=) (=) refusal_get.
Proof.
  intros [r1 H1] [r2 H2]; simpl. intros <-. f_equal. apply proof_irrel.
Qed.

#[export] Instance RefusalReason_eq_dec : EqDecision RefusalReason.
Proof.
  intros x y. destruct (decide (refusal_get x = refusal_get y)) as [H|H].
  - left. by apply (inj refusal_get).
  - right. naive_solver.
Defined.

Lemma refusal_get_not_None r : refusal_get r <> R_None.
Proof. destruct r as [r H]; simpl. by intros ->. Qed.

#[export] Hint Resolve refusal_get_not_None : coord.

(** A code identifies a reason: no two reasons share one, and reading back a
    written code gives the reason that was written. *)
Lemma reason_code_from_code r : reason_from_code (reason_code r) = Some r.
Proof. by destruct r. Qed.

Lemma outcome_code_from_code o : outcome_from_code (outcome_code o) = Some o.
Proof. by destruct o. Qed.

Lemma outcome_code_inj o o' : outcome_code o = outcome_code o' -> o = o'.
Proof.
  intros H. apply (inj Some). by rewrite <- !outcome_code_from_code, H.
Qed.

(** Every refusable reason has an answer path, and only the reasons both
    decided by the classifier and saved by apply have two. *)
Lemma refusable_has_a_path r :
  is_refusable r = true -> may_be_not_consumed r = true \/ may_be_saved_rejection r = true.
Proof. destruct r; simpl; auto; discriminate. Qed.

Lemma admission_denial_both_paths r :
  is_admission_denial r = (may_be_not_consumed r && may_be_saved_rejection r).
Proof. by destruct r. Qed.
