(* ===== verification/Ids.v ===== *)
(** * Identifiers and resource keys

    Models [aster/src/coordination/ids.rs]: the fixed-width identifiers with
    their slice and hex constructors, and the validated resource key. The
    theorems characterise the accepted namespaces and keys exactly and give
    the hex round trip. *)

From S2P Require Import Prelude.

#[local] Open Scope N_scope.

(** The fixed-width arrays: a group or node id and a digest are 32 bytes, a
    client or operation id 16. *)
Abbreviation NodeId := bytes.
Abbreviation ClientId := bytes.
Abbreviation OperationId := bytes.
Abbreviation GroupId := bytes.
Abbreviation Hash := bytes.

(** A [BTreeSet] of identifiers, iterated in the order of their bytes. *)
Definition node_le (a b : NodeId) : Prop := bytes_leb a b = true.
#[export] Instance node_le_dec : RelDecision node_le := λ a b, bool_eq_dec _ _.
Definition in_order (s : gset NodeId) : list NodeId := merge_sort node_le (elements s).

Lemma elem_of_in_order s n : n ∈ in_order s <-> n ∈ s.
Proof. unfold in_order. rewrite (merge_sort_Permutation node_le). apply elem_of_elements. Qed.

Lemma in_order_set s : list_to_set (in_order s) = s.
Proof. apply set_eq. intros n. by rewrite elem_of_list_to_set, elem_of_in_order. Qed.

Lemma in_order_NoDup s : NoDup (in_order s).
Proof. unfold in_order. rewrite (merge_sort_Permutation node_le). apply NoDup_elements. Qed.

#[export] Instance node_le_trans : Transitive node_le.
Proof. intros a b c. apply bytes_leb_trans. Qed.
#[export] Instance node_le_total : Total node_le.
Proof. intros a b. apply bytes_leb_total. Qed.

Lemma leb_ltb a b : bytes_leb a b = true -> a <> b -> bytes_ltb a b = true.
Proof.
  unfold bytes_leb. intros H%negb_true_iff Hne. destruct (bytes_ltb_total a b) as [?|[?|?]]; [done|done|congruence].
Qed.

(** An increasing list without duplicates increases strictly. *)
Lemma sorted_strictly (l : list NodeId) :
  StronglySorted node_le l -> NoDup l -> StronglySorted (λ a b, bytes_ltb a b = true) l.
Proof.
  induction 1 as [|x l Hs IH Hall]; intros Hnd; [constructor|].
  apply list.NoDup_cons in Hnd as [Hx Hnd]. constructor; [auto|].
  rewrite Forall_forall in *. intros y Hy. apply leb_ltb; [by apply Hall|]. intros ->. by apply Hx, list_elem_of_In.
Qed.

Lemma in_order_sorted s : StronglySorted (λ a b, bytes_ltb a b = true) (in_order s).
Proof. apply sorted_strictly; [apply (StronglySorted_merge_sort node_le)|apply in_order_NoDup]. Qed.

Lemma size_in_order s : length (in_order s) = size s.
Proof. unfold in_order. rewrite (merge_sort_Permutation node_le). done. Qed.

Definition MAX_NAMESPACE_BYTES : N := 64.
Definition MAX_KEY_BYTES : N := 512.

(** [enum IdError]. *)
Inductive IdError : Type :=
| IdLength (expected actual : N)
| HexLength (expected actual : N)
| HexDigit
| NamespaceLength (actual : N)
| NamespaceCharset
| KeyLength (actual : N).

(** [char::to_digit(16)] on the character of a byte. *)
Definition hex_digit (b : byte) : option N :=
  let c := Strings.Byte.to_N b in
  if (48 <=? c) && (c <=? 57) then Some (c - 48)
  else if (97 <=? c) && (c <=? 102) then Some (c - 87)
  else if (65 <=? c) && (c <=? 70) then Some (c - 55)
  else None.

(** [char::from_digit(d, 16)], lowercase, for a nibble. *)
Definition hex_char (d : N) : byte :=
  default Byte.x30 (Strings.Byte.of_N (if d <? 10 then 48 + d else 87 + d)).

(** The loop of [decode_hex] over [chunks_exact(2)]. *)
Fixpoint decode_hex_chunks (s : bytes) : result bytes IdError :=
  match s with
  | hi :: lo :: rest =>
      match hex_digit hi, hex_digit lo with
      | Some h, Some l =>
          match decode_hex_chunks rest with
          | Ok out => Ok (default Byte.x00 (Strings.Byte.of_N (h * 16 + l)) :: out)
          | Err e => Err e
          end
      | _, _ => Err HexDigit
      end
  | _ => Ok []
  end.

(** [decode_hex::<N>]. *)
Definition decode_hex (n : N) (s : bytes) : result bytes IdError :=
  if negb (len s =? n * 2) then Err (HexLength n (len s))
  else decode_hex_chunks s.

(** [to_hex]. *)
Definition to_hex (b : bytes) : bytes :=
  concat (map (λ x, let c := Strings.Byte.to_N x in
                    [hex_char (N.shiftr c 4); hex_char (N.land c 15)]) b).

(** The constructors [fixed_id!] gives an identifier of [n] bytes. *)
Definition id_from_slice (n : N) (b : bytes) : result bytes IdError :=
  if negb (len b =? n) then Err (IdLength n (len b)) else Ok b.

Definition id_parse_hex (n : N) (s : bytes) : result bytes IdError := decode_hex n s.

(** [CoordinationNodeId::is_placeholder]. *)
Definition is_placeholder (id : NodeId) : bool := bool_decide (id = replicate 32 Byte.x00).

(** [struct ResourceKey]. *)
Record ResourceKey : Type := mk_ResourceKey {
  rk_namespace : bytes;
  rk_key : bytes;
}.

#[export] Instance ResourceKey_eq_dec : EqDecision ResourceKey.
Proof. solve_decision. Defined.

#[export] Program Instance ResourceKey_countable : Countable ResourceKey :=
  inj_countable' (λ k, (rk_namespace k, rk_key k)) (λ p, mk_ResourceKey p.1 p.2) _.
Next Obligation. by intros []. Qed.

(** [u8::is_ascii_lowercase], [u8::is_ascii_digit]. *)
Definition is_ascii_lowercase (b : byte) : bool :=
  let c := Strings.Byte.to_N b in (97 <=? c) && (c <=? 122).
Definition is_ascii_digit (b : byte) : bool :=
  let c := Strings.Byte.to_N b in (48 <=? c) && (c <=? 57).

(** The byte class of a namespace after its first byte: [matches!] adds the
    dot, the underscore and the hyphen. *)
Definition namespace_byte (b : byte) : bool :=
  is_ascii_lowercase b || is_ascii_digit b
  || (let c := Strings.Byte.to_N b in (c =? 46) || (c =? 95) || (c =? 45)).

(** [ResourceKey::new]. *)
Definition ResourceKey_new (namespace key : bytes) : result ResourceKey IdError :=
  match namespace with
  | [] => Err (NamespaceLength 0)
  | first :: rest =>
      if MAX_NAMESPACE_BYTES <? len namespace then Err (NamespaceLength (len namespace))
      else if negb (is_ascii_lowercase first) && negb (is_ascii_digit first)
      then Err NamespaceCharset
      else if negb (forallb namespace_byte rest) then Err NamespaceCharset
      else if (len key =? 0) || (MAX_KEY_BYTES <? len key) then Err (KeyLength (len key))
      else Ok (mk_ResourceKey namespace key)
  end.

(** [ResourceKey::charge_len]. *)
Definition charge_len (k : ResourceKey) : N := len (rk_namespace k) + len (rk_key k).

(** What the constructor guarantees of a key that exists. *)
Definition valid_namespace (ns : bytes) : Prop :=
  exists first rest,
    ns = first :: rest /\
    (is_ascii_lowercase first = true \/ is_ascii_digit first = true) /\
    (forall b, b ∈ rest -> namespace_byte b = true) /\
    len ns <= MAX_NAMESPACE_BYTES.

Definition valid_key (k : ResourceKey) : Prop :=
  valid_namespace (rk_namespace k) /\ 1 <= len (rk_key k) <= MAX_KEY_BYTES.

(** ** Lemmas *)

Lemma ResourceKey_new_Ok ns key k :
  ResourceKey_new ns key = Ok k <-> k = mk_ResourceKey ns key /\ valid_key k.
Proof.
  unfold ResourceKey_new, valid_key, valid_namespace. split.
  - intros H. split_tests; boolean_facts. split; [done|]. simpl. split; [|lia].
    exists b, l. split_and!; [done| |..]; [|intros x Hx|lia].
    + match goal with H : (_ && _)%bool = false |- _ => 
        apply andb_false_iff in H as [H%negb_false_iff|H%negb_false_iff] end; auto.
    + match goal with H : forallb _ _ = true |- _ => rewrite forallb_forall in H; apply H end.
      by apply list_elem_of_In.
  - intros [-> ((first & rest & Hns & Hf & Hr & Hl) & Hk)]. simpl in *. subst ns.
    replace (MAX_NAMESPACE_BYTES <? len (first :: rest)) with false by (symmetry; apply N.ltb_ge; lia).
    replace (negb (is_ascii_lowercase first) && negb (is_ascii_digit first))%bool with false
      by (destruct Hf as [-> | ->]; simpl; by rewrite ?andb_false_r).
    replace (forallb namespace_byte rest) with true.
    2: { symmetry. apply forallb_forall. intros x Hx%list_elem_of_In. auto. }
    replace ((len key =? 0) || (MAX_KEY_BYTES <? len key))%bool with false; [reflexivity|].
    symmetry. apply orb_false_iff. rewrite N.eqb_neq, N.ltb_ge. lia.
Qed.

Lemma valid_key_lengths k :
  valid_key k -> len (rk_namespace k) <= 64 /\ len (rk_key k) <= 512.
Proof. intros [(?&?&?&?&?&?) ?]. unfold MAX_NAMESPACE_BYTES, MAX_KEY_BYTES in *. lia. Qed.

Lemma hex_digit_char d : d < 16 -> hex_digit (hex_char d) = Some d.
Proof.
  intros Hd. rewrite <- (N2Nat.id d). assert (N.to_nat d < 16)%nat as Hn by lia.
  generalize (N.to_nat d), Hn. clear. intros n Hn.
  do 16 (destruct n as [|n]; [reflexivity|]). lia.
Qed.

Lemma byte_nibbles (x : byte) :
  let c := Strings.Byte.to_N x in
  N.shiftr c 4 < 16 /\ N.land c 15 < 16 /\ N.shiftr c 4 * 16 + N.land c 15 = c.
Proof. by destruct x. Qed.

Lemma to_hex_cons x b :
  to_hex (x :: b) =
  hex_char (N.shiftr (Strings.Byte.to_N x) 4) :: hex_char (N.land (Strings.Byte.to_N x) 15) :: to_hex b.
Proof. done. Qed.

Lemma len_to_hex b : len (to_hex b) = 2 * len b.
Proof.
  induction b as [|x b IH]; [done|]. rewrite to_hex_cons. unfold len in *. simpl. lia.
Qed.

Lemma decode_hex_chunks_to_hex b : decode_hex_chunks (to_hex b) = Ok b.
Proof.
  induction b as [|x b IH]; [done|]. rewrite to_hex_cons. simpl.
  destruct (byte_nibbles x) as (H1 & H2 & H3).
  rewrite !hex_digit_char, IH, H3, Strings.Byte.of_to_N by done. done.
Qed.
