(* ===== verification/Contract.v ===== *)
(** * The wire contract the state machine reads and writes

    Models the declarations of [aster/src/coordination/contract.rs] and
    [aster/src/coordination/raft.rs] that the replicated state machine uses:
    the membership plan action, the signed documents, the system result and
    operation codes and the audit operation/result table. *)

From S2P Require Import Prelude Ids Reason.

#[local] Open Scope N_scope.

(** [MAX_WIRE_STRING]. *)
Definition MAX_WIRE_STRING : N := 4095.

(** [struct NodeIdV1]. *)
Record NodeIdV1 : Type := mk_NodeIdV1 { nv_node_id : bytes }.

(** [struct LogIdV1]. *)
Record LogIdV1 : Type := mk_LogIdV1 {
  lv_term : N;
  lv_leader_node_id : bytes;
  lv_index : N;
}.

(** [struct MemberSeedV1]. *)
Record MemberSeedV1 : Type := mk_MemberSeedV1 {
  msv_node_id : bytes;
  msv_ticket : bytes;
  msv_signed_join_permit : option bytes;
}.

(** [struct ChangeMembershipActionV1]. *)
Record ChangeMembershipActionV1 : Type := mk_ChangeMembershipActionV1 {
  cmv_operation_id : bytes;
  cmv_expected_membership_log_id : option LogIdV1;
  cmv_desired_voters : list NodeIdV1;
  cmv_retained_learners : list NodeIdV1;
  cmv_member_seeds : list MemberSeedV1;
}.

(** [struct VoterSeedV1]. *)
Record VoterSeedV1 : Type := mk_VoterSeedV1 {
  vsv_node_id : bytes;
  vsv_ticket : bytes;
}.

(** [struct GenesisV1]. *)
Record GenesisV1 : Type := mk_GenesisV1 {
  gv_format_version : N;
  gv_group_id : bytes;
  gv_authority_domain : bytes;
  gv_genesis_nonce : bytes;
  gv_deployment_profile_code : Z;
  gv_initial_voters : list VoterSeedV1;
  gv_initial_admins : list NodeIdV1;
  gv_recovery_export_hash : option bytes;
}.

(** [struct JoinPermitV1]. *)
Record JoinPermitV1 : Type := mk_JoinPermitV1 {
  jp_format_version : N;
  jp_group_id : bytes;
  jp_authority_domain : bytes;
  jp_genesis_hash : bytes;
  jp_candidate_node_id : bytes;
  jp_candidate_ticket : bytes;
  jp_bootstrap_senders : list NodeIdV1;
  jp_join_nonce : bytes;
}.

(** [struct SignedCoordinationDocumentV1]. *)
Record SignedCoordinationDocumentV1 : Type := mk_SignedCoordinationDocumentV1 {
  sd_format_version : N;
  sd_document_bytes : bytes;
  sd_authority_public_key : bytes;
  sd_signature : bytes;
}.

(** The system result codes. *)
Definition SYS_EXPIRED : Z := 1.
Definition SYS_EXPIRY_STALE : Z := 2.
Definition SYS_MEMBERSHIP_ADVANCED : Z := 3.
Definition SYS_MEMBERSHIP_PHASE_MISMATCH : Z := 4.
Definition SYS_EXPIRE_MALFORMED : Z := 5.
Definition SYS_MEMBERSHIP_MALFORMED : Z := 6.
Definition SYS_GENESIS_INSTALLED : Z := 7.
Definition SYS_GENESIS_ALREADY_INSTALLED : Z := 8.

(** The system operation codes. *)
Definition OPERATION_EXPIRE : Z := 100.
Definition OPERATION_MEMBERSHIP_PROGRESS : Z := 101.
Definition OPERATION_GENESIS : Z := 102.

(** [AUDIT_RESULTS]: which results an operation can record. *)
Definition AUDIT_RESULTS : list (Z * list Z) :=
  let REJECTED := outcome_code O_Rejected in
  [ (1, [outcome_code O_Granted; REJECTED]);
    (2, [outcome_code O_Renewed; REJECTED]);
    (3, [outcome_code O_Mutated; REJECTED]);
    (4, [outcome_code O_Released; REJECTED]);
    (5, [outcome_code O_Released; REJECTED]);
    (6, [outcome_code O_Revoked; REJECTED]);
    (7, [outcome_code O_GrantUpdated; REJECTED]);
    (8, [outcome_code O_AdminUpdated; REJECTED]);
    (9, [outcome_code O_MembershipAccepted; REJECTED]);
    (10, [outcome_code O_ClientRetired; REJECTED]);
    (11, [outcome_code O_MembershipCancelled; REJECTED]);
    (OPERATION_EXPIRE, [SYS_EXPIRED; SYS_EXPIRY_STALE; SYS_EXPIRE_MALFORMED]);
    (OPERATION_MEMBERSHIP_PROGRESS,
      [SYS_MEMBERSHIP_ADVANCED; SYS_MEMBERSHIP_PHASE_MISMATCH; SYS_MEMBERSHIP_MALFORMED]);
    (OPERATION_GENESIS, [SYS_GENESIS_INSTALLED; SYS_GENESIS_ALREADY_INSTALLED]) ]%Z.

(** [audit_results_for]. *)
Definition audit_results_for (operation_code : Z) : option (list Z) :=
  snd <$> List.find (λ p, bool_decide (fst p = operation_code)) AUDIT_RESULTS.

(** [std::str::from_utf8(_).is_ok()]: the well-formed UTF-8 byte sequences. *)
Definition utf8_between (lo hi : N) (b : byte) : bool :=
  (lo <=? Strings.Byte.to_N b) && (Strings.Byte.to_N b <=? hi).

Fixpoint utf8_valid (l : bytes) : bool :=
  match l with
  | [] => true
  | a :: t =>
      if utf8_between 0 127 a then utf8_valid t
      else match t with
           | [] => false
           | b :: t1 =>
               if utf8_between 194 223 a && utf8_between 128 191 b then utf8_valid t1
               else match t1 with
                    | [] => false
                    | c :: t2 =>
                        if utf8_between 128 191 c
                           && ((utf8_between 224 224 a && utf8_between 160 191 b)
                               || (utf8_between 225 236 a && utf8_between 128 191 b)
                               || (utf8_between 237 237 a && utf8_between 128 159 b)
                               || (utf8_between 238 239 a && utf8_between 128 191 b))
                        then utf8_valid t2
                        else match t2 with
                             | [] => false
                             | d :: t3 =>
                                 utf8_between 128 191 c && utf8_between 128 191 d
                                 && ((utf8_between 240 240 a && utf8_between 144 191 b)
                                     || (utf8_between 241 243 a && utf8_between 128 191 b)
                                     || (utf8_between 244 244 a && utf8_between 128 143 b))
                                 && utf8_valid t3
                             end
                    end
           end
  end.

(** [str::is_ascii]. *)
Definition is_ascii (l : bytes) : bool := forallb (λ b, Strings.Byte.to_N b <? 128) l.

#[export] Instance NodeIdV1_eq_dec : EqDecision NodeIdV1.
Proof. solve_decision. Defined.
#[export] Instance LogIdV1_eq_dec : EqDecision LogIdV1.
Proof. solve_decision. Defined.
#[export] Instance MemberSeedV1_eq_dec : EqDecision MemberSeedV1.
Proof. solve_decision. Defined.
#[export] Instance ChangeMembershipActionV1_eq_dec : EqDecision ChangeMembershipActionV1.
Proof. solve_decision. Defined.
#[export] Instance VoterSeedV1_eq_dec : EqDecision VoterSeedV1.
Proof. solve_decision. Defined.
#[export] Instance GenesisV1_eq_dec : EqDecision GenesisV1.
Proof. solve_decision. Defined.
#[export] Instance JoinPermitV1_eq_dec : EqDecision JoinPermitV1.
Proof. solve_decision. Defined.
#[export] Instance SignedCoordinationDocumentV1_eq_dec : EqDecision SignedCoordinationDocumentV1.
Proof. solve_decision. Defined.
