(* ===== verification/Externals.v ===== *)
(** * The third-party code the coordination model calls

    The Fory codec, Ed25519, BLAKE3 and base58 are crates outside this
    repository. Their functions are the fields of the class [Externals]; every
    definition that reaches them takes an instance, and a theorem that relies
    on how they behave takes the laws it needs from [ExternalLaws]. *)

From S2P Require Import Prelude Contract.

Class Externals : Type := {
  (** [payload_fory::<T>().serialize(&v)], [None] for an encoding error. *)
  fory_encode_change_membership : ChangeMembershipActionV1 -> option bytes;
  fory_encode_genesis : GenesisV1 -> option bytes;
  fory_encode_permit : JoinPermitV1 -> option bytes;
  (** [payload_fory::<T>().deserialize(&b)], [None] for a decoding error. *)
  fory_decode_signed_document : bytes -> option SignedCoordinationDocumentV1;
  fory_decode_genesis : bytes -> option GenesisV1;
  fory_decode_permit : bytes -> option JoinPermitV1;
  (** [VerifyingKey::from_bytes], [Signature::from_slice]: do they accept. *)
  ed25519_key_accepted : bytes -> bool;
  ed25519_signature_accepted : bytes -> bool;
  (** [key.verify(message, signature).is_ok()]. *)
  ed25519_verify : bytes -> bytes -> bytes -> bool;
  (** [blake3::Hasher] over the concatenated updates. *)
  blake3 : bytes -> bytes;
  (** [bs58::encode(_).into_string()] and [bs58::decode(_).into_vec()]. *)
  bs58_encode : bytes -> bytes;
  bs58_decode : bytes -> option bytes;
}.

(** Documented behaviour of the external codecs. *)
Class ExternalLaws `{Externals} : Prop := {
  (** Base58 decoding inverts encoding. *)
  bs58_decode_encode b : bs58_decode (bs58_encode b) = Some b;
}.

(** A toy instance, for evaluating the definitions on concrete inputs: the
    codecs are the identity or a fixed document, and every signature is
    accepted. *)
Definition sample_externals (document : SignedCoordinationDocumentV1) (genesis : GenesisV1)
    (permit : JoinPermitV1) : Externals :=
  {| fory_encode_change_membership := λ p, Some (cmv_operation_id p);
     fory_encode_genesis := λ _, Some (sd_document_bytes document);
     fory_encode_permit := λ _, Some (sd_document_bytes document);
     fory_decode_signed_document := λ _, Some document;
     fory_decode_genesis := λ _, Some genesis;
     fory_decode_permit := λ _, Some permit;
     ed25519_key_accepted := λ _, true;
     ed25519_signature_accepted := λ _, true;
     ed25519_verify := λ _ _ _, true;
     blake3 := λ _, replicate 32 Byte.x01;
     bs58_encode := λ b, b;
     bs58_decode := Some |}.

Definition sample_document : SignedCoordinationDocumentV1 :=
  mk_SignedCoordinationDocumentV1 1 [] [] [].
Definition sample_genesis : GenesisV1 := mk_GenesisV1 1 [] [] [] 0 [] [] None.
Definition sample_permit : JoinPermitV1 := mk_JoinPermitV1 1 [] [] [] [] [] [] [].

Definition plain_externals : Externals :=
  sample_externals sample_document sample_genesis sample_permit.

Lemma sample_externals_laws d g p : @ExternalLaws (sample_externals d g p).
Proof. by split. Qed.
