(* ===== verification/Limits.v ===== *)
(** * Logical limits, rights bits and charges

    Models [aster/src/coordination/model/limits.rs]. Charges are arithmetic
    on lengths of buffers held in memory, so they are exact; the compile-time
    assertions of the source are lemmas here. *)

From S2P Require Import Prelude Ids Contract.

#[local] Open Scope N_scope.

Definition MAX_NAMESPACE : N := 64.
Definition MAX_KEY : N := 512.
Definition MAX_VALUE : N := 65536.
Definition MAX_TICKET : N := MAX_WIRE_STRING.
Definition MAX_JOIN_PERMIT : N := 8 * 1024.
Definition MAX_ENCODED_COMMAND : N := 256 * 1024.
Definition MAX_ROW_KEY : N := MAX_NAMESPACE + MAX_KEY.

(** [i64::MAX as u64]. *)
Definition MAX_COUNTER : N := 9223372036854775807.

Definition GROWTH_BUDGET : N := 192 * 1024 * 1024.
Definition RESERVE_BUDGET : N := 128 * 1024 * 1024.
Definition LOCAL_HIGH_WATER : N := 384 * 1024 * 1024.

Definition MAX_RESOURCES_PER_GROUP : N := 100000.
Definition MAX_ACL_ROWS_PER_GROUP : N := 100000.
Definition MAX_GRANTS_PER_RESOURCE : N := 256.
Definition MAX_ADMINS_PER_GROUP : N := 64.
Definition MAX_AUDIT_ROWS : N := 100000.
Definition MAX_RETAINED_INTENTS : N := 64.
Definition MAX_INTENT_ROWS : N := MAX_RETAINED_INTENTS + 1.
Definition MAX_RETAINED_ROUTES : N := 64.
Definition MAX_RETAINED_SESSIONS_PER_GROUP : N := 16384.
Definition MAX_RETAINED_SESSIONS_PER_ACTOR : N := 256.
Definition MAX_ACTIVE_CLIENTS_PER_GROUP : N := 1024.
Definition MAX_ACTIVE_CLIENTS_PER_ACTOR : N := 8.
Definition MIN_TTL_MS : N := 5000.
Definition MAX_TTL_MS : N := 300000.

Definition RIGHT_READ : N := 1.
Definition RIGHT_ACQUIRE : N := 2.
Definition RIGHT_RENEW : N := 4.
Definition RIGHT_MUTATE : N := 8.
Definition RIGHT_RELEASE : N := 16.
Definition RIGHT_REVOKE : N := 32.

Definition ALL_RIGHTS : N :=
  N.lor (N.lor (N.lor (N.lor (N.lor RIGHT_READ RIGHT_ACQUIRE) RIGHT_RENEW) RIGHT_MUTATE)
               RIGHT_RELEASE) RIGHT_REVOKE.

Definition LEASE_SUSTAINING_RIGHTS : N := N.lor (N.lor RIGHT_RENEW RIGHT_MUTATE) RIGHT_RELEASE.

(** [rights_are_known]: [rights & !ALL_RIGHTS == 0]. *)
Definition rights_are_known (rights : N) : bool := N.ldiff rights ALL_RIGHTS =? 0.

Definition key_charge (namespace key : bytes) : N := len namespace + len key.

Definition charge_resource (namespace key : bytes) (value_len : N) : N :=
  256 + key_charge namespace key + value_len.

Definition charge_acl (namespace key : bytes) : N := 256 + key_charge namespace key.

Definition charge_admin : N := 128.

Definition charge_intent (encoded_plan_len : N) : N := 1024 + encoded_plan_len.

Definition charge_route (ticket_len : N) : N := 256 + ticket_len.

Definition charge_session (saved_key : option (bytes * bytes)) : N :=
  256 + from_option (λ p, key_charge p.1 p.2) 0 saved_key.

Definition charge_audit (resource : option (bytes * bytes)) : N :=
  256 + from_option (λ p, key_charge p.1 p.2) 0 resource.

Definition MAX_RESERVE_ROW_CHARGE : N := 256 + MAX_ROW_KEY.

(** ** The compile-time assertions of the source *)

Lemma RESERVE_FITS :
  (MAX_AUDIT_ROWS + MAX_RETAINED_SESSIONS_PER_GROUP) * MAX_RESERVE_ROW_CHARGE <= RESERVE_BUDGET.
Proof. by vm_compute. Qed.

Lemma BUDGETS_FIT_THE_STORE : GROWTH_BUDGET + RESERVE_BUDGET < LOCAL_HIGH_WATER.
Proof. by vm_compute. Qed.

Lemma ACTIVE_IS_INSIDE_RETAINED :
  MAX_ACTIVE_CLIENTS_PER_GROUP <= MAX_RETAINED_SESSIONS_PER_GROUP /\
  MAX_ACTIVE_CLIENTS_PER_ACTOR <= MAX_RETAINED_SESSIONS_PER_ACTOR.
Proof. by vm_compute. Qed.

(** A known mask has no bit outside the six rights. *)
Lemma rights_are_known_bits rights :
  rights_are_known rights = true <-> forall i, N.testbit rights i = true -> i < 6.
Proof.
  unfold rights_are_known. rewrite N.eqb_eq. split.
  - intros H i Hi. assert (N.testbit (N.ldiff rights ALL_RIGHTS) i = false) as Hb
      by (rewrite H; apply N.bits_0).
    rewrite N.ldiff_spec, Hi, andb_true_l in Hb. apply negb_false_iff in Hb.
    replace ALL_RIGHTS with (N.ones 6) in Hb by done.
    destruct (N.lt_ge_cases i 6); [done|]. by rewrite N.ones_spec_high in Hb.
  - intros H. apply N.bits_inj. intros i. rewrite N.ldiff_spec, N.bits_0.
    destruct (N.testbit rights i) eqn:Hi; [|done].
    replace ALL_RIGHTS with (N.ones 6) by done. rewrite N.ones_spec_low by auto. done.
Qed.

Lemma key_charge_valid k : valid_key k -> key_charge (rk_namespace k) (rk_key k) <= MAX_ROW_KEY.
Proof.
  intros [??]%valid_key_lengths. unfold key_charge, MAX_ROW_KEY, MAX_NAMESPACE, MAX_KEY. lia.
Qed.

(** A row whose key passed validation is charged at most the figure the
    reserve is sized against. *)
Lemma charge_session_bound k :
  (forall key, k = Some key -> valid_key key) ->
  charge_session ((λ x, (rk_namespace x, rk_key x)) <$> k) <= MAX_RESERVE_ROW_CHARGE.
Proof.
  intros Hk. unfold charge_session, MAX_RESERVE_ROW_CHARGE.
  destruct k as [k|]; simpl; [|lia]. pose proof (key_charge_valid k (Hk k eq_refl)). lia.
Qed.

Lemma charge_audit_session k : charge_audit k = charge_session k.
Proof. done. Qed.
