(* ===== verification/State.v ===== *)
(** * The replicated row set

    Models [aster/src/coordination/model/state.rs]: the rows of the seven
    replicated tables, the change set an applied entry reports, the group
    authority and committed membership, the state with its two byte counters,
    and the predicates every decision reads. A [BTreeMap] is a [gmap] and a
    [BTreeSet] a [gset]; iteration order matters only where the code sorts or
    takes the first row, and is explicit there. *)

From S2P Require Import Prelude Reason Ids Contract Externals Limits.

#[local] Open Scope N_scope.

(** [struct LogId]. *)
Record LogId : Type := mk_LogId {
  li_term : N;
  li_leader_node_id : NodeId;
  li_index : N;
}.

#[export] Instance LogId_eq_dec : EqDecision LogId.
Proof. solve_decision. Defined.

(** [struct ResourceRow]. *)
Record ResourceRow : Type := mk_ResourceRow {
  rr_epoch : N;
  rr_held : bool;
  rr_holder : option NodeId;
  rr_ttl_ms : N;
  rr_lease_revision : N;
  rr_value_revision : N;
  rr_value : bytes;
  rr_acl_revision : N;
}.

#[export] Instance ResourceRow_eq_dec : EqDecision ResourceRow.
Proof. solve_decision. Defined.

(** [ResourceRow::default]. *)
Definition ResourceRow_default : ResourceRow := mk_ResourceRow 0 false None 0 0 0 [] 0.

(** [struct SavedSnapshot]. *)
Record SavedSnapshot : Type := mk_SavedSnapshot {
  ss_resource : ResourceKey;
  ss_epoch : N;
  ss_holder : option NodeId;
  ss_held : bool;
  ss_ttl_ms : N;
  ss_lease_revision : N;
  ss_value_revision : N;
  ss_acl_revision : N;
}.

#[export] Instance SavedSnapshot_eq_dec : EqDecision SavedSnapshot.
Proof. solve_decision. Defined.

(** [SavedSnapshot::of]. *)
Definition SavedSnapshot_of (resource : ResourceKey) (row : ResourceRow) : SavedSnapshot :=
  {| ss_resource := resource;
     ss_epoch := rr_epoch row;
     ss_holder := rr_holder row;
     ss_held := rr_held row;
     ss_ttl_ms := rr_ttl_ms row;
     ss_lease_revision := rr_lease_revision row;
     ss_value_revision := rr_value_revision row;
     ss_acl_revision := rr_acl_revision row |}.

(** [struct SavedReply]. *)
Record SavedReply : Type := mk_SavedReply {
  sr_outcome : Outcome;
  sr_reason : Reason;
  sr_snapshot : option SavedSnapshot;
  sr_acl_revision : N;
  sr_admin_revision : N;
  sr_operation_id : option OperationId;
  sr_membership_log_id : option LogId;
}.

#[export] Instance SavedReply_eq_dec : EqDecision SavedReply.
Proof. solve_decision. Defined.

(** [SavedReply::resource]. *)
Definition sr_resource (r : SavedReply) : option ResourceKey := ss_resource <$> sr_snapshot r.

(** [key_parts]. *)
Definition key_parts (k : ResourceKey) : bytes * bytes := (rk_namespace k, rk_key k).

(** [SavedReply::key_parts]. *)
Definition sr_key_parts (r : SavedReply) : option (bytes * bytes) := key_parts <$> sr_resource r.

(** [struct Session]. *)
Record Session : Type := mk_Session {
  se_last_sequence : N;
  se_request_hash : Hash;
  se_last_result : option SavedReply;
  se_retired : bool;
}.

#[export] Instance Session_eq_dec : EqDecision Session.
Proof. solve_decision. Defined.

(** [enum AuditResult]. *)
Inductive AuditResult : Type :=
| AR_Client (outcome : Outcome)
| AR_System (code : Z).

#[export] Instance AuditResult_eq_dec : EqDecision AuditResult.
Proof. solve_decision. Defined.

(** [AuditResult::code], [AuditResult::is_client]. *)
Definition audit_result_code (r : AuditResult) : Z :=
  match r with
  | AR_Client outcome => outcome_code outcome
  | AR_System code => code
  end.

Definition audit_result_is_client (r : AuditResult) : bool :=
  match r with
  | AR_Client _ => true
  | AR_System _ => false
  end.

(** [struct AuditRow]. *)
Record AuditRow : Type := mk_AuditRow {
  ar_leader_node_id : NodeId;
  ar_actor : option NodeId;
  ar_operation_code : Z;
  ar_resource : option ResourceKey;
  ar_result : AuditResult;
  ar_epoch : N;
  ar_value_revision : N;
}.

#[export] Instance AuditRow_eq_dec : EqDecision AuditRow.
Proof. solve_decision. Defined.

(** [struct MemberSeed]. *)
Record MemberSeed : Type := mk_MemberSeed {
  ms_node_id : NodeId;
  ms_ticket : bytes;
  ms_join_permit : option bytes;
}.

#[export] Instance MemberSeed_eq_dec : EqDecision MemberSeed.
Proof. solve_decision. Defined.

(** [struct MembershipPlan]. *)
Record MembershipPlan : Type := mk_MembershipPlan {
  mp_desired_voters : list NodeId;
  mp_retained_learners : list NodeId;
  mp_member_seeds : list MemberSeed;
}.

#[export] Instance MembershipPlan_eq_dec : EqDecision MembershipPlan.
Proof. solve_decision. Defined.

(** [struct Intent]. *)
Record Intent : Type := mk_Intent {
  in_actor : NodeId;
  in_request_hash : Hash;
  in_expected_membership : option LogId;
  in_plan : MembershipPlan;
  in_status_code : Z;
  in_result_code : Z;
  in_accepted_log_id : LogId;
  in_completed_log_id : option LogId;
  in_observed_membership_log_id : option LogId;
}.

#[export] Instance Intent_eq_dec : EqDecision Intent.
Proof. solve_decision. Defined.

(** [struct Route]. *)
Record Route : Type := mk_Route {
  ro_ticket : bytes;
  ro_source_operation_id : OperationId;
  ro_introduced_log_id : LogId;
}.

#[export] Instance Route_eq_dec : EqDecision Route.
Proof. solve_decision. Defined.

(** [type GrantKey]. *)
Abbreviation GrantKey := (ResourceKey * NodeId)%type.
(** The key of the session table. *)
Abbreviation SessionKey := (NodeId * ClientId)%type.

(** [struct ChangeSet]: the durable rows an entry touched. *)
Record ChangeSet : Type := mk_ChangeSet {
  cs_resources : gset ResourceKey;
  cs_grants : gset GrantKey;
  cs_admins : gset NodeId;
  cs_sessions : gset SessionKey;
  cs_intents : gset OperationId;
  cs_routes : gset NodeId;
  cs_audit : gset (N * N);
}.

(** [ChangeSet::default]. *)
Definition ChangeSet_default : ChangeSet := mk_ChangeSet ∅ ∅ ∅ ∅ ∅ ∅ ∅.

(** [ChangeSet::is_empty]. *)
Definition changeset_is_empty (c : ChangeSet) : bool :=
  bool_decide (cs_resources c = ∅) && bool_decide (cs_grants c = ∅)
  && bool_decide (cs_admins c = ∅) && bool_decide (cs_sessions c = ∅)
  && bool_decide (cs_intents c = ∅) && bool_decide (cs_routes c = ∅)
  && bool_decide (cs_audit c = ∅).

(** [struct GroupAuthority]. *)
Record GroupAuthority : Type := mk_GroupAuthority {
  ga_public_key : bytes;
  ga_domain : bytes;
  ga_group_id : GroupId;
  ga_genesis_hash : Hash;
}.

(** [struct CommittedMembership]. *)
Record CommittedMembership : Type := mk_CommittedMembership {
  cm_voters : gset NodeId;
  cm_learners : gset NodeId;
  cm_joint : bool;
}.

#[export] Instance CommittedMembership_eq_dec : EqDecision CommittedMembership.
Proof. solve_decision. Defined.

(** [CommittedMembership::members], [CommittedMembership::contains]. *)
Definition cm_members (m : CommittedMembership) : gset NodeId := cm_voters m ∪ cm_learners m.

Definition cm_contains (m : CommittedMembership) (node : NodeId) : bool :=
  bool_decide (node ∈ cm_voters m) || bool_decide (node ∈ cm_learners m).

(** [struct State]. *)
Record State : Type := mk_State {
  st_resources : gmap ResourceKey ResourceRow;
  st_acl : gmap GrantKey N;
  st_admins : gset NodeId;
  st_sessions : gmap SessionKey Session;
  st_intents : gmap OperationId Intent;
  st_routes : gmap NodeId Route;
  st_audit_tip : option LogId;
  st_audit : gmap (N * N) AuditRow;
  st_growth_bytes : N;
  st_reserve_bytes : N;
  st_admin_revision : N;
  st_authority : GroupAuthority;
  st_deployment_profile_code : Z;
  st_membership : CommittedMembership;
  st_membership_log_id : option LogId;
  st_audit_floor : option LogId;
  st_last_applied : option LogId;
}.

(** [State::default] with the replicated facts a store is bound to: the
    authority, profile and membership come from the storage layer. *)
Definition State_initial (authority : GroupAuthority) (profile : Z)
    (membership : CommittedMembership) (membership_log_id : option LogId) : State :=
  {| st_resources := ∅; st_acl := ∅; st_admins := ∅; st_sessions := ∅; st_intents := ∅;
     st_routes := ∅; st_audit_tip := None; st_audit := ∅; st_growth_bytes := 0;
     st_reserve_bytes := 0; st_admin_revision := 0; st_authority := authority;
     st_deployment_profile_code := profile; st_membership := membership;
     st_membership_log_id := membership_log_id; st_audit_floor := None;
     st_last_applied := None |}.

(** Field updates. *)
Definition set_resources (x : gmap ResourceKey ResourceRow) (s : State) : State :=
  mk_State x (st_acl s) (st_admins s) (st_sessions s) (st_intents s) (st_routes s)
    (st_audit_tip s) (st_audit s) (st_growth_bytes s) (st_reserve_bytes s) (st_admin_revision s)
    (st_authority s) (st_deployment_profile_code s) (st_membership s) (st_membership_log_id s)
    (st_audit_floor s) (st_last_applied s).

Definition set_acl (x : gmap GrantKey N) (s : State) : State :=
  mk_State (st_resources s) x (st_admins s) (st_sessions s) (st_intents s) (st_routes s)
    (st_audit_tip s) (st_audit s) (st_growth_bytes s) (st_reserve_bytes s) (st_admin_revision s)
    (st_authority s) (st_deployment_profile_code s) (st_membership s) (st_membership_log_id s)
    (st_audit_floor s) (st_last_applied s).

Definition set_admins (x : gset NodeId) (s : State) : State :=
  mk_State (st_resources s) (st_acl s) x (st_sessions s) (st_intents s) (st_routes s)
    (st_audit_tip s) (st_audit s) (st_growth_bytes s) (st_reserve_bytes s) (st_admin_revision s)
    (st_authority s) (st_deployment_profile_code s) (st_membership s) (st_membership_log_id s)
    (st_audit_floor s) (st_last_applied s).

Definition set_sessions (x : gmap SessionKey Session) (s : State) : State :=
  mk_State (st_resources s) (st_acl s) (st_admins s) x (st_intents s) (st_routes s)
    (st_audit_tip s) (st_audit s) (st_growth_bytes s) (st_reserve_bytes s) (st_admin_revision s)
    (st_authority s) (st_deployment_profile_code s) (st_membership s) (st_membership_log_id s)
    (st_audit_floor s) (st_last_applied s).

Definition set_intents (x : gmap OperationId Intent) (s : State) : State :=
  mk_State (st_resources s) (st_acl s) (st_admins s) (st_sessions s) x (st_routes s)
    (st_audit_tip s) (st_audit s) (st_growth_bytes s) (st_reserve_bytes s) (st_admin_revision s)
    (st_authority s) (st_deployment_profile_code s) (st_membership s) (st_membership_log_id s)
    (st_audit_floor s) (st_last_applied s).

Definition set_routes (x : gmap NodeId Route) (s : State) : State :=
  mk_State (st_resources s) (st_acl s) (st_admins s) (st_sessions s) (st_intents s) x
    (st_audit_tip s) (st_audit s) (st_growth_bytes s) (st_reserve_bytes s) (st_admin_revision s)
    (st_authority s) (st_deployment_profile_code s) (st_membership s) (st_membership_log_id s)
    (st_audit_floor s) (st_last_applied s).

Definition set_audit (x : gmap (N * N) AuditRow) (s : State) : State :=
  mk_State (st_resources s) (st_acl s) (st_admins s) (st_sessions s) (st_intents s) (st_routes s)
    (st_audit_tip s) x (st_growth_bytes s) (st_reserve_bytes s) (st_admin_revision s)
    (st_authority s) (st_deployment_profile_code s) (st_membership s) (st_membership_log_id s)
    (st_audit_floor s) (st_last_applied s).

Definition set_audit_tip (x : option LogId) (s : State) : State :=
  mk_State (st_resources s) (st_acl s) (st_admins s) (st_sessions s) (st_intents s) (st_routes s)
    x (st_audit s) (st_growth_bytes s) (st_reserve_bytes s) (st_admin_revision s)
    (st_authority s) (st_deployment_profile_code s) (st_membership s) (st_membership_log_id s)
    (st_audit_floor s) (st_last_applied s).

Definition set_growth_bytes (x : N) (s : State) : State :=
  mk_State (st_resources s) (st_acl s) (st_admins s) (st_sessions s) (st_intents s) (st_routes s)
    (st_audit_tip s) (st_audit s) x (st_reserve_bytes s) (st_admin_revision s)
    (st_authority s) (st_deployment_profile_code s) (st_membership s) (st_membership_log_id s)
    (st_audit_floor s) (st_last_applied s).

Definition set_reserve_bytes (x : N) (s : State) : State :=
  mk_State (st_resources s) (st_acl s) (st_admins s) (st_sessions s) (st_intents s) (st_routes s)
    (st_audit_tip s) (st_audit s) (st_growth_bytes s) x (st_admin_revision s)
    (st_authority s) (st_deployment_profile_code s) (st_membership s) (st_membership_log_id s)
    (st_audit_floor s) (st_last_applied s).

Definition set_admin_revision (x : N) (s : State) : State :=
  mk_State (st_resources s) (st_acl s) (st_admins s) (st_sessions s) (st_intents s) (st_routes s)
    (st_audit_tip s) (st_audit s) (st_growth_bytes s) (st_reserve_bytes s) x
    (st_authority s) (st_deployment_profile_code s) (st_membership s) (st_membership_log_id s)
    (st_audit_floor s) (st_last_applied s).

Definition set_audit_floor (x : option LogId) (s : State) : State :=
  mk_State (st_resources s) (st_acl s) (st_admins s) (st_sessions s) (st_intents s) (st_routes s)
    (st_audit_tip s) (st_audit s) (st_growth_bytes s) (st_reserve_bytes s) (st_admin_revision s)
    (st_authority s) (st_deployment_profile_code s) (st_membership s) (st_membership_log_id s)
    x (st_last_applied s).

Definition set_last_applied (x : option LogId) (s : State) : State :=
  mk_State (st_resources s) (st_acl s) (st_admins s) (st_sessions s) (st_intents s) (st_routes s)
    (st_audit_tip s) (st_audit s) (st_growth_bytes s) (st_reserve_bytes s) (st_admin_revision s)
    (st_authority s) (st_deployment_profile_code s) (st_membership s) (st_membership_log_id s)
    (st_audit_floor s) x.

(** [State::is_root]. *)
Definition is_root (s : State) (actor : NodeId) : bool :=
  bool_decide (actor = ga_public_key (st_authority s)).

(** [State::is_administrator]. *)
Definition is_administrator (s : State) (actor : NodeId) : bool :=
  (0 <? st_admin_revision s) && (is_root s actor || bool_decide (actor ∈ st_admins s)).

(** [State::growth_fits]. *)
Definition state_growth_fits (s : State) (added : N) : bool :=
  u64_saturating_add (st_growth_bytes s) added <=? GROWTH_BUDGET.

(** [struct Capacity]. *)
Record Capacity : Type := mk_Capacity {
  ca_retained_group : N;
  ca_retained_actor : N;
  ca_active_group : N;
  ca_active_actor : N;
}.

(** [State::capacity_for]. *)
Definition capacity_for (s : State) (actor : NodeId) : Capacity :=
  {| ca_retained_group := N.of_nat (size (st_sessions s));
     ca_retained_actor := mcount (λ k _, bool_decide (k.1 = actor)) (st_sessions s);
     ca_active_group := mcount (λ _ v, negb (se_retired v)) (st_sessions s);
     ca_active_actor :=
       mcount (λ k v, bool_decide (k.1 = actor) && negb (se_retired v)) (st_sessions s) |}.

(** [Capacity::retained_exhausted], [Capacity::active_exhausted]. *)
Definition retained_exhausted (c : Capacity) : bool :=
  (MAX_RETAINED_SESSIONS_PER_GROUP <=? ca_retained_group c)
  || (MAX_RETAINED_SESSIONS_PER_ACTOR <=? ca_retained_actor c).

Definition active_exhausted (c : Capacity) : bool :=
  (MAX_ACTIVE_CLIENTS_PER_GROUP <=? ca_active_group c)
  || (MAX_ACTIVE_CLIENTS_PER_ACTOR <=? ca_active_actor c).

(** [From<&LogId> for LogIdV1] of [wire.rs]. *)
Definition log_id_to_wire (id : LogId) : LogIdV1 :=
  mk_LogIdV1 (li_term id) (li_leader_node_id id) (li_index id).

(** The seeds of [plan_to_wire]: the loop stops at the first ticket that is
    not UTF-8. *)
Fixpoint seeds_to_wire (seeds : list MemberSeed) : option (list MemberSeedV1) :=
  match seeds with
  | [] => Some []
  | seed :: rest =>
      if utf8_valid (ms_ticket seed) then
        cons (mk_MemberSeedV1 (ms_node_id seed) (ms_ticket seed) (ms_join_permit seed))
          <$> seeds_to_wire rest
      else None
  end.

(** [wire::plan_to_wire]; its only error is [TicketEncoding]. *)
Definition plan_to_wire (plan : MembershipPlan) (operation_id : OperationId)
    (expected_membership : option LogId) : option ChangeMembershipActionV1 :=
  member_seeds ← seeds_to_wire (mp_member_seeds plan);
  Some {| cmv_operation_id := operation_id;
          cmv_expected_membership_log_id := log_id_to_wire <$> expected_membership;
          cmv_desired_voters := map mk_NodeIdV1 (mp_desired_voters plan);
          cmv_retained_learners := map mk_NodeIdV1 (mp_retained_learners plan);
          cmv_member_seeds := member_seeds |}.

Section accounting.
Context `{Ext : Externals}.

(** [MembershipPlan::encoded_len]. *)
Definition encoded_len (plan : MembershipPlan) (operation_id : OperationId)
    (expected_membership : option LogId) : N :=
  match plan_to_wire plan operation_id expected_membership with
  | Some wire =>
      match fory_encode_change_membership wire with
      | Some b => len b
      | None => MAX_ENCODED_COMMAND
      end
  | None => MAX_ENCODED_COMMAND
  end.

(** [Intent::charge_len]. *)
Definition intent_charge_len (i : Intent) (operation_id : OperationId) : N :=
  encoded_len (in_plan i) operation_id (in_expected_membership i).

(** The charge of each row, as the two recomputations take it. *)
Definition resource_row_charge (k : ResourceKey) (r : ResourceRow) : N :=
  charge_resource (rk_namespace k) (rk_key k) (len (rr_value r)).
Definition acl_row_charge (k : GrantKey) (_ : N) : N :=
  charge_acl (rk_namespace k.1) (rk_key k.1).
Definition intent_row_charge (id : OperationId) (i : Intent) : N :=
  charge_intent (intent_charge_len i id).
Definition route_row_charge (_ : NodeId) (r : Route) : N := charge_route (len (ro_ticket r)).
Definition session_row_charge (_ : SessionKey) (s : Session) : N :=
  charge_session (se_last_result s ≫= sr_key_parts).
Definition audit_row_charge (_ : N * N) (a : AuditRow) : N :=
  charge_audit (key_parts <$> ar_resource a).

(** [State::recompute_growth]. *)
Definition recompute_growth (s : State) : N :=
  u64_add (u64_add (u64_add (u64_add
    (wsum resource_row_charge (st_resources s))
    (wsum acl_row_charge (st_acl s)))
    (N.of_nat (size (st_admins s)) * charge_admin mod U64_MODULUS))
    (wsum intent_row_charge (st_intents s)))
    (wsum route_row_charge (st_routes s)).

(** [State::recompute_reserve]. *)
Definition recompute_reserve (s : State) : N :=
  u64_add (wsum session_row_charge (st_sessions s)) (wsum audit_row_charge (st_audit s)).

(** [State::counters_match_recomputation]. *)
Definition counters_match_recomputation (s : State) : bool :=
  (st_growth_bytes s =? recompute_growth s) && (st_reserve_bytes s =? recompute_reserve s).

(** The same sums without the machine width. *)
Definition growth_total (s : State) : N :=
  msum resource_row_charge (st_resources s) + msum acl_row_charge (st_acl s)
  + N.of_nat (size (st_admins s)) * charge_admin
  + msum intent_row_charge (st_intents s) + msum route_row_charge (st_routes s).

Definition reserve_total (s : State) : N :=
  msum session_row_charge (st_sessions s) + msum audit_row_charge (st_audit s).

(** ** Lemmas *)

Lemma recompute_growth_total s : recompute_growth s = growth_total s mod U64_MODULUS.
Proof. unfold recompute_growth, growth_total. by rewrite !wsum_msum, !u64_add_mods. Qed.

Lemma recompute_reserve_total s : recompute_reserve s = reserve_total s mod U64_MODULUS.
Proof. unfold recompute_reserve, reserve_total. by rewrite !wsum_msum, u64_add_mods. Qed.
End accounting.

Lemma is_administrator_spec s actor :
  is_administrator s actor = true <->
  0 < st_admin_revision s /\ (actor = ga_public_key (st_authority s) \/ actor ∈ st_admins s).
Proof.
  unfold is_administrator, is_root.
  by rewrite andb_true_iff, orb_true_iff, N.ltb_lt, !bool_decide_eq_true.
Qed.

Lemma cm_contains_spec m node : cm_contains m node = true <-> node ∈ cm_members m.
Proof.
  unfold cm_contains, cm_members. rewrite orb_true_iff, !bool_decide_eq_true. set_solver.
Qed.
