(* ===== verification/Tables.v ===== *)
(** * The writers of the replicated tables

    Models [aster/src/coordination/model/tables.rs]. The source passes
    [&mut State] and [&mut ChangeSet] together to every writer; [Tx] is that
    pair. A writer changes one row and records its key in the same step. *)

From S2P Require Import Prelude Ids Externals Limits State.

#[local] Open Scope N_scope.

(** The mutable state an apply step holds: [(&mut State, &mut ChangeSet)]. *)
Record Tx : Type := mk_Tx {
  tx_state : State;
  tx_changes : ChangeSet;
}.

(** An update of the state that touches no table row. *)
Definition tx_modify (f : State -> State) (tx : Tx) : Tx :=
  mk_Tx (f (tx_state tx)) (tx_changes tx).

Definition record_resource (k : ResourceKey) (c : ChangeSet) : ChangeSet :=
  mk_ChangeSet ({[k]} ∪ cs_resources c) (cs_grants c) (cs_admins c) (cs_sessions c)
    (cs_intents c) (cs_routes c) (cs_audit c).
Definition record_grant (k : GrantKey) (c : ChangeSet) : ChangeSet :=
  mk_ChangeSet (cs_resources c) ({[k]} ∪ cs_grants c) (cs_admins c) (cs_sessions c)
    (cs_intents c) (cs_routes c) (cs_audit c).
Definition record_admin (k : NodeId) (c : ChangeSet) : ChangeSet :=
  mk_ChangeSet (cs_resources c) (cs_grants c) ({[k]} ∪ cs_admins c) (cs_sessions c)
    (cs_intents c) (cs_routes c) (cs_audit c).
Definition record_session (k : SessionKey) (c : ChangeSet) : ChangeSet :=
  mk_ChangeSet (cs_resources c) (cs_grants c) (cs_admins c) ({[k]} ∪ cs_sessions c)
    (cs_intents c) (cs_routes c) (cs_audit c).
Definition record_intent (k : OperationId) (c : ChangeSet) : ChangeSet :=
  mk_ChangeSet (cs_resources c) (cs_grants c) (cs_admins c) (cs_sessions c)
    ({[k]} ∪ cs_intents c) (cs_routes c) (cs_audit c).
Definition record_route (k : NodeId) (c : ChangeSet) : ChangeSet :=
  mk_ChangeSet (cs_resources c) (cs_grants c) (cs_admins c) (cs_sessions c)
    (cs_intents c) ({[k]} ∪ cs_routes c) (cs_audit c).
Definition record_audit (k : N * N) (c : ChangeSet) : ChangeSet :=
  mk_ChangeSet (cs_resources c) (cs_grants c) (cs_admins c) (cs_sessions c)
    (cs_intents c) (cs_routes c) ({[k]} ∪ cs_audit c).

(** [put_resource]. *)
Definition put_resource (key : ResourceKey) (row : ResourceRow) (tx : Tx) : Tx :=
  let st := tx_state tx in
  mk_Tx (set_resources (<[key:=row]> (st_resources st)) st) (record_resource key (tx_changes tx)).

(** [put_grant]: also whether the row is new. *)
Definition put_grant (key : GrantKey) (rights : N) (tx : Tx) : bool * Tx :=
  let st := tx_state tx in
  (bool_decide (st_acl st !! key = None),
   mk_Tx (set_acl (<[key:=rights]> (st_acl st)) st) (record_grant key (tx_changes tx))).

(** [remove_grant]: also whether one was there. *)
Definition remove_grant (key : GrantKey) (tx : Tx) : bool * Tx :=
  let st := tx_state tx in
  (bool_decide (is_Some (st_acl st !! key)),
   mk_Tx (set_acl (delete key (st_acl st)) st) (record_grant key (tx_changes tx))).

(** [put_admin]: also whether the row is new. *)
Definition put_admin (target : NodeId) (tx : Tx) : bool * Tx :=
  let st := tx_state tx in
  (bool_decide (target ∉ st_admins st),
   mk_Tx (set_admins ({[target]} ∪ st_admins st) st) (record_admin target (tx_changes tx))).

(** [remove_admin]: also whether one was there. *)
Definition remove_admin (target : NodeId) (tx : Tx) : bool * Tx :=
  let st := tx_state tx in
  (bool_decide (target ∈ st_admins st),
   mk_Tx (set_admins (st_admins st ∖ {[target]}) st) (record_admin target (tx_changes tx))).

(** [put_session]. *)
Definition put_session (key : SessionKey) (row : Session) (tx : Tx) : Tx :=
  let st := tx_state tx in
  mk_Tx (set_sessions (<[key:=row]> (st_sessions st)) st) (record_session key (tx_changes tx)).

(** [put_intent]. *)
Definition put_intent (operation_id : OperationId) (intent : Intent) (tx : Tx) : Tx :=
  let st := tx_state tx in
  mk_Tx (set_intents (<[operation_id:=intent]> (st_intents st)) st)
    (record_intent operation_id (tx_changes tx)).

(** [remove_intent]: also what was there. *)
Definition remove_intent (operation_id : OperationId) (tx : Tx) : option Intent * Tx :=
  let st := tx_state tx in
  (st_intents st !! operation_id,
   mk_Tx (set_intents (delete operation_id (st_intents st)) st)
     (record_intent operation_id (tx_changes tx))).

(** [put_route]. *)
Definition put_route (node : NodeId) (route : Route) (tx : Tx) : Tx :=
  let st := tx_state tx in
  mk_Tx (set_routes (<[node:=route]> (st_routes st)) st) (record_route node (tx_changes tx)).

(** [remove_route]: also what was there. *)
Definition remove_route (node : NodeId) (tx : Tx) : option Route * Tx :=
  let st := tx_state tx in
  (st_routes st !! node,
   mk_Tx (set_routes (delete node (st_routes st)) st) (record_route node (tx_changes tx))).

(** [put_audit]. *)
Definition put_audit (key : N * N) (row : AuditRow) (tx : Tx) : Tx :=
  let st := tx_state tx in
  mk_Tx (set_audit (<[key:=row]> (st_audit st)) st) (record_audit key (tx_changes tx)).

(** [remove_audit]: also what was there. *)
Definition remove_audit (key : N * N) (tx : Tx) : option AuditRow * Tx :=
  let st := tx_state tx in
  (st_audit st !! key,
   mk_Tx (set_audit (delete key (st_audit st)) st) (record_audit key (tx_changes tx))).

(** ** What a step may have changed

    [tables_covered st c st'] says that every row the two states disagree on
    is recorded in [c]; [changes_grow c c'] that a change set is only added to. *)

Record tables_covered (st : State) (c : ChangeSet) (st' : State) : Prop := {
  tc_resources k : k ∉ cs_resources c -> st_resources st' !! k = st_resources st !! k;
  tc_acl k : k ∉ cs_grants c -> st_acl st' !! k = st_acl st !! k;
  tc_admins k : k ∉ cs_admins c -> (k ∈ st_admins st' <-> k ∈ st_admins st);
  tc_sessions k : k ∉ cs_sessions c -> st_sessions st' !! k = st_sessions st !! k;
  tc_intents k : k ∉ cs_intents c -> st_intents st' !! k = st_intents st !! k;
  tc_routes k : k ∉ cs_routes c -> st_routes st' !! k = st_routes st !! k;
  tc_audit k : k ∉ cs_audit c -> st_audit st' !! k = st_audit st !! k;
}.

Record changes_grow (c c' : ChangeSet) : Prop := {
  cg_resources : cs_resources c ⊆ cs_resources c';
  cg_grants : cs_grants c ⊆ cs_grants c';
  cg_admins : cs_admins c ⊆ cs_admins c';
  cg_sessions : cs_sessions c ⊆ cs_sessions c';
  cg_intents : cs_intents c ⊆ cs_intents c';
  cg_routes : cs_routes c ⊆ cs_routes c';
  cg_audit : cs_audit c ⊆ cs_audit c';
}.

(** One transaction step: what it changes in the tables it records. *)
Definition tx_recorded (tx tx' : Tx) : Prop :=
  tables_covered (tx_state tx) (tx_changes tx') (tx_state tx') /\
  changes_grow (tx_changes tx) (tx_changes tx').

#[export] Instance changes_grow_preorder : PreOrder changes_grow.
Proof.
  split; [intros c; by split|].
  intros c1 c2 c3 [] []; split; etrans; eassumption.
Qed.

Lemma tables_covered_refl st c : tables_covered st c st.
Proof. by split. Qed.

Lemma tables_covered_mono st c c' st' :
  changes_grow c c' -> tables_covered st c st' -> tables_covered st c' st'.
Proof.
  intros G H. split; intros k Hk.
  - apply (tc_resources _ _ _ H). by intros ?%(cg_resources _ _ G).
  - apply (tc_acl _ _ _ H). by intros ?%(cg_grants _ _ G).
  - apply (tc_admins _ _ _ H). by intros ?%(cg_admins _ _ G).
  - apply (tc_sessions _ _ _ H). by intros ?%(cg_sessions _ _ G).
  - apply (tc_intents _ _ _ H). by intros ?%(cg_intents _ _ G).
  - apply (tc_routes _ _ _ H). by intros ?%(cg_routes _ _ G).
  - apply (tc_audit _ _ _ H). by intros ?%(cg_audit _ _ G).
Qed.

Lemma tables_covered_trans st1 c st2 st3 :
  tables_covered st1 c st2 -> tables_covered st2 c st3 -> tables_covered st1 c st3.
Proof.
  intros H1 H2. split; intros k Hk; try (etrans; [by apply H2|by apply H1]).
Qed.

#[export] Instance tx_recorded_preorder : PreOrder tx_recorded.
Proof.
  split.
  - intros tx. split; [apply tables_covered_refl|reflexivity].
  - intros t1 t2 t3 [H1 G1] [H2 G2]. split; [|by etrans].
    eauto using tables_covered_mono, tables_covered_trans.
Qed.

Lemma tx_modify_recorded f tx :
  (forall st, st_resources (f st) = st_resources st /\ st_acl (f st) = st_acl st /\
     st_admins (f st) = st_admins st /\ st_sessions (f st) = st_sessions st /\
     st_intents (f st) = st_intents st /\ st_routes (f st) = st_routes st /\
     st_audit (f st) = st_audit st) ->
  tx_recorded tx (tx_modify f tx).
Proof.
  intros Hf. split; [|reflexivity]. destruct (Hf (tx_state tx)) as (?&?&?&?&?&?&?).
  split; simpl; intros k _; congruence || set_solver.
Qed.

Ltac solve_recorded :=
  split; (split; cbn; try done);
  [ intros k Hk; first
      [ apply lookup_insert_ne; intros ->; apply Hk, elem_of_union_l, elem_of_singleton_2; done
      | apply lookup_delete_ne; intros ->; apply Hk, elem_of_union_l, elem_of_singleton_2; done
      | set_solver ]
  | apply union_subseteq_r ].

Lemma put_resource_recorded key row tx : tx_recorded tx (put_resource key row tx).
Proof. solve_recorded. Qed.
Lemma put_grant_recorded key rights tx : tx_recorded tx (put_grant key rights tx).2.
Proof. solve_recorded. Qed.
Lemma remove_grant_recorded key tx : tx_recorded tx (remove_grant key tx).2.
Proof. solve_recorded. Qed.
Lemma put_admin_recorded target tx : tx_recorded tx (put_admin target tx).2.
Proof. solve_recorded. Qed.
Lemma remove_admin_recorded target tx : tx_recorded tx (remove_admin target tx).2.
Proof. solve_recorded. Qed.
Lemma put_session_recorded key row tx : tx_recorded tx (put_session key row tx).
Proof. solve_recorded. Qed.
Lemma put_intent_recorded id intent tx : tx_recorded tx (put_intent id intent tx).
Proof. solve_recorded. Qed.
Lemma remove_intent_recorded id tx : tx_recorded tx (remove_intent id tx).2.
Proof. solve_recorded. Qed.
Lemma put_route_recorded node route tx : tx_recorded tx (put_route node route tx).
Proof. solve_recorded. Qed.
Lemma remove_route_recorded node tx : tx_recorded tx (remove_route node tx).2.
Proof. solve_recorded. Qed.
Lemma put_audit_recorded key row tx : tx_recorded tx (put_audit key row tx).
Proof. solve_recorded. Qed.
Lemma remove_audit_recorded key tx : tx_recorded tx (remove_audit key tx).2.
Proof. solve_recorded. Qed.

#[export] Hint Resolve put_resource_recorded put_grant_recorded remove_grant_recorded
  put_admin_recorded remove_admin_recorded put_session_recorded put_intent_recorded
  remove_intent_recorded put_route_recorded remove_route_recorded put_audit_recorded
  remove_audit_recorded : coord.
