(* ===== verification/Classify.v ===== *)
(** * The session classifier

    Models [aster/src/coordination/model/classify.rs]: the one function that
    preflight and apply share to answer a [(sequence, request_hash)] from the
    committed session row. [classification_table] is the thirteen-row table the
    specification prints, as data with a first-match reading; the theorems show
    that the nested tests of the code are that table, that a sequence is only
    ever accepted as the exact successor of the last one, and which answers
    are permanent. *)

From S2P Require Import Prelude Reason Ids Limits State.

#[local] Open Scope N_scope.

(** [enum Row]. *)
Inductive Row : Type :=
| SequenceZero
| RowReplay
| RowRetired
| HashConflict
| TooOld
| CeilingExisting
| ExactNext
| Gap
| NoSessionRetainedFull
| NoSessionActiveFull
| NoSessionFirst
| CeilingAbsent
| NoSessionGap.

(** The discriminants [repr(u8)] gives the rows. *)
Definition row_number (r : Row) : N :=
  match r with
  | SequenceZero => 1
  | RowReplay => 2
  | RowRetired => 3
  | HashConflict => 4
  | TooOld => 5
  | CeilingExisting => 6
  | ExactNext => 7
  | Gap => 8
  | NoSessionRetainedFull => 9
  | NoSessionActiveFull => 10
  | NoSessionFirst => 11
  | CeilingAbsent => 12
  | NoSessionGap => 13
  end.

(** [enum Classification]. *)
Inductive Classification : Type :=
| Unresolved (row : Row) (creates_session : bool)
| Replay (row : Row) (saved : SavedReply)
| Refuse (row : Row) (reason : Reason).

(** [Classification::disposition], [Classification::row],
    [Classification::is_terminal]. *)
Definition classification_disposition (c : Classification) : option Disposition :=
  match c with
  | Unresolved _ _ => None
  | Replay _ _ => Some Consumed
  | Refuse _ _ => Some NotConsumed
  end.

Definition classification_row (c : Classification) : Row :=
  match c with
  | Unresolved row _ | Replay row _ | Refuse row _ => row
  end.

Definition classification_is_terminal (c : Classification) : bool :=
  match c with
  | Unresolved _ _ => false
  | Replay _ _ => true
  | Refuse _ reason => disposition_is_terminal NotConsumed reason
  end.

(** [u64::checked_add]. *)
Definition u64_checked_add (a b : N) : option N :=
  if a + b <=? U64_MAX then Some (a + b) else None.

(** [classify_absent]. *)
Definition classify_absent (sequence : N) (capacity : Capacity) : Classification :=
  if retained_exhausted capacity then Refuse NoSessionRetainedFull R_RetainedSessionCapReached
  else if active_exhausted capacity then Refuse NoSessionActiveFull R_ActiveClientCap
  else if MAX_COUNTER <? sequence then Refuse CeilingAbsent R_CounterExhausted
  else if sequence =? 1 then Unresolved NoSessionFirst true
  else Refuse NoSessionGap R_SequenceGap.

(** The part of [classify] below row 2, for a session row that does not answer
    by replay. *)
Definition classify_unanswered (session : Session) (sequence : N) : Classification :=
  if se_retired session then Refuse RowRetired R_ClientRetired
  else if sequence =? se_last_sequence session then Refuse HashConflict R_SequenceConflict
  else if sequence <? se_last_sequence session then Refuse TooOld R_SequenceTooOld
  else if (MAX_COUNTER <=? se_last_sequence session) || (MAX_COUNTER <? sequence)
  then Refuse CeilingExisting R_CounterExhausted
  else match u64_checked_add (se_last_sequence session) 1 with
       | None => Refuse CeilingExisting R_CounterExhausted
       | Some next =>
           if sequence =? next then Unresolved ExactNext false
           else Refuse Gap R_SequenceGap
       end.

(** [classify]. *)
Definition classify (session : option Session) (sequence : N) (request_hash : Hash)
    (capacity : Capacity) : Classification :=
  if sequence =? 0 then Refuse SequenceZero R_SequenceTooOld
  else match session with
  | None => classify_absent sequence capacity
  | Some session =>
      if (sequence =? se_last_sequence session)
         && bool_decide (request_hash = se_request_hash session)
      then match se_last_result session with
           | Some saved => Replay RowReplay saved
           | None => classify_unanswered session sequence
           end
      else classify_unanswered session sequence
  end.

(** ** The printed table

    One entry per row: the condition, stated on its own as the table states it
    (no row repeats the negation of an earlier one), and the answer. *)

Record TableRow : Type := mk_TableRow {
  tr_when : option Session -> N -> Hash -> Capacity -> bool;
  tr_answer : option Session -> Classification;
}.

Definition on_session (p : Session -> bool) (s : option Session) : bool :=
  match s with
  | Some session => p session
  | None => false
  end.

Definition no_session (s : option Session) : bool := negb (bool_decide (is_Some s)).

(** The saved reply an exact replay is answered with. *)
Definition saved_of (s : option Session) : option SavedReply := s ≫= se_last_result.

Definition classification_table : list TableRow :=
  [ mk_TableRow (λ _ q _ _, q =? 0) (λ _, Refuse SequenceZero R_SequenceTooOld);
    mk_TableRow
      (λ s q h _, on_session (λ x, (q =? se_last_sequence x)
         && bool_decide (h = se_request_hash x) && bool_decide (is_Some (se_last_result x))) s)
      (λ s, match saved_of s with
            | Some r => Replay RowReplay r
            | None => Refuse RowRetired R_ClientRetired
            end);
    mk_TableRow (λ s _ _ _, on_session se_retired s) (λ _, Refuse RowRetired R_ClientRetired);
    mk_TableRow (λ s q _ _, on_session (λ x, q =? se_last_sequence x) s)
      (λ _, Refuse HashConflict R_SequenceConflict);
    mk_TableRow (λ s q _ _, on_session (λ x, q <? se_last_sequence x) s)
      (λ _, Refuse TooOld R_SequenceTooOld);
    mk_TableRow
      (λ s q _ _, on_session (λ x, (MAX_COUNTER <=? se_last_sequence x) || (MAX_COUNTER <? q)) s)
      (λ _, Refuse CeilingExisting R_CounterExhausted);
    mk_TableRow (λ s q _ _, on_session (λ x, q =? se_last_sequence x + 1) s)
      (λ _, Unresolved ExactNext false);
    mk_TableRow (λ s q _ _, on_session (λ x, se_last_sequence x + 1 <? q) s)
      (λ _, Refuse Gap R_SequenceGap);
    mk_TableRow (λ s _ _ c, no_session s && retained_exhausted c)
      (λ _, Refuse NoSessionRetainedFull R_RetainedSessionCapReached);
    mk_TableRow (λ s _ _ c, no_session s && active_exhausted c)
      (λ _, Refuse NoSessionActiveFull R_ActiveClientCap);
    mk_TableRow (λ s q _ _, no_session s && (q =? 1)) (λ _, Unresolved NoSessionFirst true);
    mk_TableRow (λ s q _ _, no_session s && (MAX_COUNTER <? q))
      (λ _, Refuse CeilingAbsent R_CounterExhausted);
    mk_TableRow (λ s q _ _, no_session s && (1 <? q)) (λ _, Refuse NoSessionGap R_SequenceGap) ].

(** The first matching row's answer. *)
Fixpoint first_match (t : list TableRow) (s : option Session) (q : N) (h : Hash)
    (c : Capacity) : option Classification :=
  match t with
  | [] => None
  | r :: rest => if tr_when r s q h c then Some (tr_answer r s) else first_match rest s q h c
  end.

(** ** Theorems *)

(** The existing-session rows 3 to 8 of the table. *)
Lemma classify_unanswered_table s q h c :
  q <> 0 ->
  first_match (drop 2 classification_table) (Some s) q h c = Some (classify_unanswered s q).
Proof.
  intros Hq. unfold classify_unanswered, u64_checked_add. simpl.
  repeat case_match; boolean_facts; simplify_eq/=;
    rewrite ?orb_true_iff in *; boolean_facts; unfold U64_MAX, MAX_COUNTER in *; try done; lia.
Qed.

(** The absent-session rows 9 to 13. *)
Lemma classify_absent_table q h c :
  q <> 0 -> first_match (drop 8 classification_table) None q h c = Some (classify_absent q c).
Proof.
  intros Hq. unfold classify_absent. simpl. unfold no_session. simpl.
  repeat case_match; boolean_facts; simplify_eq/=; unfold MAX_COUNTER in *; try done; lia.
Qed.

Lemma classify_replay_iff s q h c saved row :
  classify s q h c = Replay row saved <->
  row = RowReplay /\ q <> 0 /\ exists x, s = Some x /\ q = se_last_sequence x /\
    h = se_request_hash x /\ se_last_result x = Some saved.
Proof.
  unfold classify, classify_unanswered, classify_absent. split.
  - intros H. repeat case_match; boolean_facts; simplify_eq/=; split_and!; eauto 10.
  - intros (-> & Hq & x & -> & -> & -> & Hr). rewrite Hr.
    apply N.eqb_neq in Hq. rewrite Hq, N.eqb_refl, bool_decide_eq_true_2 by done. done.
Qed.

(** The two accepting rows, as the client's contract states them. *)
Lemma classify_unresolved_iff s q h c row creates :
  classify s q h c = Unresolved row creates <->
  (row = ExactNext /\ creates = false /\
     exists x, s = Some x /\ se_retired x = false /\ q = se_last_sequence x + 1 /\
       q <= MAX_COUNTER) \/
  (row = NoSessionFirst /\ creates = true /\ s = None /\ q = 1 /\
     retained_exhausted c = false /\ active_exhausted c = false).
Proof.
  unfold classify, classify_unanswered, classify_absent, u64_checked_add. split.
  - intros H. repeat case_match; boolean_facts; simplify_eq/=; try (by right);
      try (left; split_and!; [done|done|]; eexists; split_and!; [done|done|lia|lia]).
  - intros [(-> & -> & x & -> & Hr & -> & Hle)|(-> & -> & -> & -> & Hf & Ha)].
    + rewrite Hr. unfold U64_MAX, MAX_COUNTER in *.
      repeat case_match; boolean_facts; simplify_eq/=; rewrite ?orb_true_iff in *;
        boolean_facts; try done; try lia; destruct_or!; boolean_facts; lia.
    + by rewrite Hf, Ha.
Qed.

(** A refusal's reason is one of the six a classifier may answer with, or the
    counter ceiling. *)
Lemma classify_refuse_reason s q h c row reason :
  classify s q h c = Refuse row reason -> may_be_not_consumed reason = true.
Proof.
  unfold classify, classify_unanswered, classify_absent. intros H.
  repeat case_match; by simplify_eq/=.
Qed.

Lemma classify_retired s q h c :
  se_retired s = true ->
  (exists saved, classify (Some s) q h c = Replay RowReplay saved) \/
  classify (Some s) q h c = Refuse RowRetired R_ClientRetired \/
  classify (Some s) q h c = Refuse SequenceZero R_SequenceTooOld.
Proof.
  intros Hr. unfold classify, classify_unanswered. rewrite Hr. repeat case_match; eauto.
Qed.

(** The classifier is the thirteen-row table: for every session row,
    sequence, request hash and capacity, the nested tests of the code return the
    answer of the first table row whose condition holds, and some row
    always holds. *)
Theorem classify_first_match s q h c :
  first_match classification_table s q h c = Some (classify s q h c).
Proof.
  destruct (N.eqb_spec q 0) as [->|Hq]; [done|].
  unfold classify. replace (q =? 0) with false by (symmetry; by apply N.eqb_neq).
  destruct s as [x|]; simpl.
  2:{ replace (q =? 0) with false by (symmetry; by apply N.eqb_neq).
      exact (classify_absent_table q h c Hq). }
  pose proof (classify_unanswered_table x q h c Hq) as Htail. simpl in Htail.
  replace (q =? 0) with false by (symmetry; by apply N.eqb_neq).
  destruct ((q =? se_last_sequence x) && bool_decide (h = se_request_hash x)); simpl; [|done].
  destruct (se_last_result x) as [r|]; simpl; [|done].
  done.
Qed.
