(* ===== verification/Ticket.v ===== *)
(** * The compact ticket codec

    Models [core/src/ticket.rs]: the binary wire format of an endpoint address
    with its optional credential, and the [aster1<base58>] string form. The
    decoder's cursor [pos] is the list of bytes still unread. The theorems give
    the round trip in both directions: an encoded ticket decodes to itself, and
    whatever decodes can be encoded again, no longer than it was, to bytes
    that decode to the same ticket. *)

From S2P Require Import Prelude Contract Externals.

#[local] Open Scope N_scope.
#[local] Open Scope coordination_scope.

Definition MAX_WIRE_SIZE : N := 256.
Definition MAX_CREDENTIAL_PAYLOAD : N := 220.
Definition FORMAT_VERSION : N := 1.
Definition MAX_DIRECT_ADDRS : N := 15.
(** ["aster1"]. *)
Definition STRING_PREFIX : bytes :=
  [Byte.x61; Byte.x73; Byte.x74; Byte.x65; Byte.x72; Byte.x31].

(** [std::net::SocketAddr]: the octets, the port, and for IPv6 the flow
    information and scope id. *)
Inductive SocketAddr : Type :=
| V4 (octets : bytes) (port : N)
| V6 (octets : bytes) (port : N) (flowinfo scope_id : N).

#[export] Instance SocketAddr_eq_dec : EqDecision SocketAddr.
Proof. solve_decision. Defined.

(** [enum TicketCredential]. *)
Inductive TicketCredential : Type :=
| Open
| ConsumerRcan (payload : bytes)
| Enrollment (payload : bytes)
| RegistryRead (namespace : bytes).

#[export] Instance TicketCredential_eq_dec : EqDecision TicketCredential.
Proof. solve_decision. Defined.

(** [struct AsterTicket]. *)
Record AsterTicket : Type := mk_AsterTicket {
  at_endpoint_id : bytes;
  at_relay : option SocketAddr;
  at_direct_addrs : list SocketAddr;
  at_credential : option TicketCredential;
}.

#[export] Instance AsterTicket_eq_dec : EqDecision AsterTicket.
Proof. solve_decision. Defined.

(** One constructor per [ensure!] or [bail!]. *)
Inductive TicketError : Type :=
| TooManyDirectAddresses
| CredentialTooLarge
| EncodedTooLarge
| TicketTooLarge
| TicketTooShort
| UnsupportedVersion
| TruncatedRelay
| ReservedRelayType
| MissingDirectCount
| TruncatedBitfield
| TruncatedDirectAddr
| ReservedAddressType
| TruncatedCredentialHeader
| TruncatedCredentialPayload
| RegistryReadLength
| UnknownCredentialType
| TrailingBytes
| MissingPrefix
| InvalidBase58.

(** [x as u8]. *)
Definition u8 (n : N) : byte := default Byte.x00 (Strings.Byte.of_N (n mod 256)).

#[local] Arguments u8 _ : simpl never.
#[local] Arguments Strings.Byte.to_N _ : simpl never.

(** [u16::to_be_bytes], [u16::from_be_bytes]. *)
Definition u16_to_be_bytes (n : N) : bytes := [u8 (N.shiftr n 8); u8 n].
Definition u16_from_be_bytes (hi lo : byte) : N :=
  Strings.Byte.to_N hi * 256 + Strings.Byte.to_N lo.

(** [TicketCredential::type_byte]. *)
Definition type_byte (c : TicketCredential) : N :=
  match c with
  | Open => 0
  | ConsumerRcan _ => 1
  | Enrollment _ => 2
  | RegistryRead _ => 3
  end.

(** [TicketCredential::payload_bytes]. *)
Definition payload_bytes (c : TicketCredential) : bytes :=
  match c with
  | Open => []
  | ConsumerRcan v | Enrollment v => v
  | RegistryRead ns => ns
  end.

(** [TicketCredential::from_tlv]. *)
Definition from_tlv (t : N) (payload : bytes) : result TicketCredential TicketError :=
  match t with
  | 0 => Ok Open
  | 1 => Ok (ConsumerRcan payload)
  | 2 => Ok (Enrollment payload)
  | 3 => if negb (len payload =? 32) then Err RegistryReadLength else Ok (RegistryRead payload)
  | _ => Err UnknownCredentialType
  end.

(** ** Encoding *)

Definition relay_type (relay : option SocketAddr) : N :=
  match relay with
  | None => 0
  | Some (V4 _ _) => 1
  | Some (V6 _ _ _ _) => 2
  end.

(** The address and port bytes both address loops append. *)
Definition addr_bytes (a : SocketAddr) : bytes :=
  match a with
  | V4 octets port | V6 octets port _ _ => octets ++ u16_to_be_bytes port
  end.

(** The two bits of an address in the type bitfield. *)
Definition addr_bits (a : SocketAddr) : N :=
  match a with
  | V4 _ _ => 0
  | V6 _ _ _ _ => 1
  end.

(** [buf[start + byte_idx] |= bits << (6 - bit_offset)] for address [i]. *)
Definition or_slot (i : nat) (bits : N) (field : list N) : list N :=
  alter (λ b, N.lor b (N.shiftl bits (6 - (N.of_nat i * 2) mod 8)))
    (N.to_nat (N.of_nat i * 2 / 8)) field.

(** The loop over [direct_addrs.iter().enumerate()], from index [i]. *)
Fixpoint pack_types (i : nat) (addrs : list SocketAddr) (field : list N) : list N :=
  match addrs with
  | [] => field
  | a :: rest => pack_types (S i) rest (or_slot i (addr_bits a) field)
  end.

(** [(count * 2).div_ceil(8)]. *)
Definition bitfield_bytes (count : N) : nat := N.to_nat ((count * 2 + 7) / 8).

(** The direct-address block: the count byte, then the bitfield and the
    addresses when there are any. *)
Definition encode_direct (addrs : list SocketAddr) : bytes :=
  let count := len addrs in
  u8 (N.shiftl count 4)
    :: (if 0 <? count
        then map u8 (pack_types 0 addrs (replicate (bitfield_bytes count) 0))
               ++ concat (map addr_bytes addrs)
        else []).

(** The credential TLV. *)
Definition encode_credential (c : option TicketCredential) : result bytes TicketError :=
  match c with
  | None => Ok []
  | Some cred =>
      let payload := payload_bytes cred in
      if negb (len payload <=? MAX_CREDENTIAL_PAYLOAD) then Err CredentialTooLarge
      else Ok (u8 (type_byte cred) :: u16_to_be_bytes (len payload) ++ payload)
  end.

(** [AsterTicket::encode]. *)
Definition encode (t : AsterTicket) : result bytes TicketError :=
  if negb (len (at_direct_addrs t) <=? MAX_DIRECT_ADDRS) then Err TooManyDirectAddresses
  else
    let header := N.lor (N.shiftl FORMAT_VERSION 4) (N.shiftl (relay_type (at_relay t)) 2) in
    let buf := at_endpoint_id t ++ [u8 header] ++ from_option addr_bytes [] (at_relay t)
                 ++ encode_direct (at_direct_addrs t) in
    let? tlv := encode_credential (at_credential t) in
    let buf := buf ++ tlv in
    if negb (len buf <=? MAX_WIRE_SIZE) then Err EncodedTooLarge else Ok buf.

(** ** Decoding *)

(** Read an address of [w] octets and its port at the cursor, or [err] when
    fewer than [w + 2] bytes are left. *)
Definition read_addr (w : nat) (mk : bytes -> N -> SocketAddr) (err : TicketError)
    (rest : bytes) : result (SocketAddr * bytes) TicketError :=
  match drop w rest with
  | hi :: lo :: rest' => Ok (mk (take w rest) (u16_from_be_bytes hi lo), rest')
  | _ => Err err
  end.

Definition decode_relay (kind : N) (rest : bytes)
    : result (option SocketAddr * bytes) TicketError :=
  match kind with
  | 0 => Ok (None, rest)
  | 1 => let? (a, rest') := read_addr 4 V4 TruncatedRelay rest in Ok (Some a, rest')
  | 2 => let? (a, rest') := read_addr 16 (λ o p, V6 o p 0 0) TruncatedRelay rest in
         Ok (Some a, rest')
  | _ => Err ReservedRelayType
  end.

(** [(bitfield[byte_idx] >> (6 - bit_offset)) & 0b11] for address [i]. *)
Definition read_slot (i : nat) (field : list N) : N :=
  N.land (N.shiftr (field !!! N.to_nat (N.of_nat i * 2 / 8)) (6 - (N.of_nat i * 2) mod 8)) 3.

(** The loop [for i in 0..count], with [n] addresses left. *)
Fixpoint decode_addrs (n i : nat) (field : list N) (rest : bytes)
    : result (list SocketAddr * bytes) TicketError :=
  match n with
  | O => Ok ([], rest)
  | S n' =>
      let? (a, rest') :=
        match read_slot i field with
        | 0 => read_addr 4 V4 TruncatedDirectAddr rest
        | 1 => read_addr 16 (λ o p, V6 o p 0 0) TruncatedDirectAddr rest
        | _ => Err ReservedAddressType
        end in
      let? (l, rest'') := decode_addrs n' (S i) field rest' in
      Ok (a :: l, rest'')
  end.

Definition decode_direct (rest : bytes) : result (list SocketAddr * bytes) TicketError :=
  match rest with
  | [] => Err MissingDirectCount
  | count_byte :: rest =>
      let count := N.shiftr (Strings.Byte.to_N count_byte) 4 in
      if 0 <? count then
        let w := bitfield_bytes count in
        if Nat.ltb (length rest) w then Err TruncatedBitfield
        else decode_addrs (N.to_nat count) 0 (map Strings.Byte.to_N (take w rest)) (drop w rest)
      else Ok ([], rest)
  end.

Definition decode_credential (rest : bytes)
    : result (option TicketCredential * bytes) TicketError :=
  match rest with
  | [] => Ok (None, [])
  | t :: hi :: lo :: rest =>
      let payload_len := u16_from_be_bytes hi lo in
      if negb (payload_len <=? MAX_CREDENTIAL_PAYLOAD) then Err CredentialTooLarge
      else if negb (payload_len <=? len rest) then Err TruncatedCredentialPayload
      else let? c := from_tlv (Strings.Byte.to_N t) (take (N.to_nat payload_len) rest) in
           Ok (Some c, drop (N.to_nat payload_len) rest)
  | _ => Err TruncatedCredentialHeader
  end.

(** [AsterTicket::decode]. *)
Definition decode (b : bytes) : result AsterTicket TicketError :=
  if negb (len b <=? MAX_WIRE_SIZE) then Err TicketTooLarge
  else if negb (34 <=? len b) then Err TicketTooShort
  else
    match drop 32 b with
    | [] => Err TicketTooShort
    | header :: rest =>
        let header := Strings.Byte.to_N header in
        if negb (N.shiftr header 4 =? FORMAT_VERSION) then Err UnsupportedVersion
        else
          let? (relay, rest) := decode_relay (N.land (N.shiftr header 2) 3) rest in
          let? (direct, rest) := decode_direct rest in
          let? (credential, rest) := decode_credential rest in
          match rest with
          | [] => Ok (mk_AsterTicket (take 32 b) relay direct credential)
          | _ => Err TrailingBytes
          end
    end.

(** [str::strip_prefix]. *)
Definition strip_prefix (prefix s : bytes) : option bytes :=
  if bool_decide (take (length prefix) s = prefix) then Some (drop (length prefix) s) else None.

Section strings.
Context `{Ext : Externals}.

(** [AsterTicket::to_base58_string]. *)
Definition to_base58_string (t : AsterTicket) : result bytes TicketError :=
  let? wire := encode t in Ok (STRING_PREFIX ++ bs58_encode wire).

(** [AsterTicket::from_base58_str]. *)
Definition from_base58_str (s : bytes) : result AsterTicket TicketError :=
  match strip_prefix STRING_PREFIX s with
  | None => Err MissingPrefix
  | Some payload =>
      match bs58_decode payload with
      | None => Err InvalidBase58
      | Some wire => decode wire
      end
  end.
End strings.

(** ** Well-formed tickets

    What the Rust types guarantee (fixed-width arrays and [u16] ports), and
    the IPv6 fields the wire does not carry. *)

Definition addr_wf (a : SocketAddr) : Prop :=
  match a with
  | V4 octets port => length octets = 4%nat /\ port < 65536
  | V6 octets port flowinfo scope_id =>
      length octets = 16%nat /\ port < 65536 /\ flowinfo = 0 /\ scope_id = 0
  end.

Definition credential_wf (c : TicketCredential) : Prop :=
  match c with
  | RegistryRead ns => len ns = 32
  | _ => True
  end.

Record ticket_wf (t : AsterTicket) : Prop := {
  twf_endpoint : length (at_endpoint_id t) = 32%nat;
  twf_relay a : at_relay t = Some a -> addr_wf a;
  twf_direct : Forall addr_wf (at_direct_addrs t);
  twf_credential c : at_credential t = Some c -> credential_wf c;
}.

(** ** Byte and bitfield lemmas *)

Lemma byte_to_N_lt b : Strings.Byte.to_N b < 256.
Proof. pose proof (Strings.Byte.to_N_bounded b). lia. Qed.

Lemma u8_to_N n : Strings.Byte.to_N (u8 n) = n mod 256.
Proof.
  unfold u8. pose proof (N.mod_lt n 256 ltac:(done)).
  destruct (Strings.Byte.of_N (n mod 256)) as [b|] eqn:Hb; simpl.
  - by apply Strings.Byte.to_of_N.
  - apply Strings.Byte.of_N_None_iff in Hb. lia.
Qed.

Lemma u8_of_to b : u8 (Strings.Byte.to_N b) = b.
Proof. apply byte_to_N_inj. rewrite u8_to_N. apply N.mod_small, byte_to_N_lt. Qed.

Lemma u8_small n : n < 256 -> Strings.Byte.to_N (u8 n) = n.
Proof. intros. by rewrite u8_to_N, N.mod_small. Qed.

Lemma u16_be_bound hi lo : u16_from_be_bytes hi lo < 65536.
Proof. unfold u16_from_be_bytes. pose proof (byte_to_N_lt hi). pose proof (byte_to_N_lt lo). lia. Qed.

Lemma u16_roundtrip n hi lo :
  n < 65536 -> u16_to_be_bytes n = [hi; lo] -> u16_from_be_bytes hi lo = n.
Proof.
  unfold u16_to_be_bytes. intros Hn [= <- <-]. unfold u16_from_be_bytes. rewrite !u8_to_N.
  rewrite N.shiftr_div_pow2. change (2 ^ 8) with 256.
  rewrite (N.mod_small (n / 256)) by (apply N.Div0.div_lt_upper_bound; lia).
  rewrite N.mul_comm. symmetry. apply N.div_mod. lia.
Qed.

Lemma length_pack_types i addrs field : length (pack_types i addrs field) = length field.
Proof.
  revert i field. induction addrs as [|a addrs IH]; intros i field; [done|].
  simpl. rewrite IH. apply length_alter.
Qed.

(** Two slots of one byte do not overlap. *)
Lemma slot_disjoint (x y : N) bits :
  x < 4 -> y < 4 -> bits < 2 ->
  N.land (N.shiftr (N.shiftl bits (6 - x * 2)) (6 - y * 2)) 3 = if x =? y then bits else 0.
Proof.
  intros Hx Hy Hb.
  assert (x = 0 \/ x = 1 \/ x = 2 \/ x = 3) as [-> | [-> | [-> | ->]]] by lia;
  assert (y = 0 \/ y = 1 \/ y = 2 \/ y = 3) as [-> | [-> | [-> | ->]]] by lia;
  assert (bits = 0 \/ bits = 1) as [-> | ->] by lia; done.
Qed.

Lemma slot_offset i : (N.of_nat i * 2) mod 8 = (N.of_nat i mod 4) * 2.
Proof. change 8 with (4 * 2). by rewrite N.Div0.mul_mod_distr_r. Qed.

Lemma slot_index i : N.of_nat i * 2 / 8 = N.of_nat i / 4.
Proof. change 8 with (4 * 2). by rewrite N.Div0.div_mul_cancel_r. Qed.

Lemma read_or_slot i j bits field :
  bits < 2 -> (N.to_nat (N.of_nat i / 4) < length field)%nat ->
  read_slot j (or_slot i bits field) =
  N.lor (read_slot j field) (if Nat.eqb i j then bits else 0).
Proof.
  intros Hb Hi. unfold read_slot, or_slot. rewrite !slot_offset, !slot_index.
  pose proof (N.mod_lt (N.of_nat i) 4 ltac:(done)).
  pose proof (N.mod_lt (N.of_nat j) 4 ltac:(done)).
  destruct (decide (N.of_nat i / 4 = N.of_nat j / 4)) as [Heq|Hne].
  - rewrite <- Heq. destruct (lookup_lt_is_Some_2 _ _ Hi) as [x Hx].
    rewrite (list_lookup_total_correct _ _ _ Hx).
    erewrite list_lookup_total_correct; [|rewrite list_lookup_alter_eq, Hx; done].
    rewrite N.shiftr_lor, N.land_lor_distr_l, slot_disjoint by done.
    f_equal. destruct (Nat.eqb_spec i j) as [->|Hij]; [by rewrite N.eqb_refl|].
    destruct (N.eqb_spec (N.of_nat i mod 4) (N.of_nat j mod 4)) as [Hm|]; [|done].
    pose proof (N.Div0.div_mod (N.of_nat i) 4). pose proof (N.Div0.div_mod (N.of_nat j) 4). lia.
  - rewrite list_lookup_total_alter_ne by lia.
    destruct (Nat.eqb_spec i j) as [->|]; [done|]. by rewrite N.lor_0_r.
Qed.

Lemma addr_bits_lt a : addr_bits a < 2.
Proof. by destruct a. Qed.

Lemma or_slot_length i bits field : length (or_slot i bits field) = length field.
Proof. apply length_alter. Qed.

(** The bits of address [j] after the packing loop. *)
Lemma read_pack_types i addrs field j :
  (i + length addrs <= 4 * length field)%nat ->
  read_slot j (pack_types i addrs field) =
  N.lor (read_slot j field)
    (if Nat.leb i j then from_option addr_bits 0 (addrs !! (j - i)%nat) else 0).
Proof.
  revert i field. induction addrs as [|a addrs IH]; intros i field Hlen; simpl.
  { destruct (Nat.leb i j); by rewrite N.lor_0_r. }
  simpl in Hlen. rewrite IH by (rewrite or_slot_length; lia).
  assert (N.of_nat i / 4 < N.of_nat (length field)) by (apply N.Div0.div_lt_upper_bound; lia).
  rewrite read_or_slot by (apply addr_bits_lt || lia).
  rewrite <- N.lor_assoc. f_equal.
  destruct (Nat.eqb_spec i j) as [->|Hne].
  - rewrite Nat.leb_refl, Nat.sub_diag.
    rewrite (proj2 (Nat.leb_gt (S j) j)) by lia. apply N.lor_0_r.
  - rewrite N.lor_0_l. destruct (Nat.leb_spec (S i) j), (Nat.leb_spec i j); try lia.
    by replace (j - i)%nat with (S (j - S i)) by lia.
Qed.

(** Packed types are bytes. *)
Lemma or_slot_bound i bits field :
  bits < 2 -> Forall (λ x, x < 256) field -> Forall (λ x, x < 256) (or_slot i bits field).
Proof.
  intros Hb Hf. unfold or_slot. apply Forall_alter; [done|].
  intros x Hx Hx256. rewrite slot_offset.
  pose proof (N.mod_lt (N.of_nat i) 4 ltac:(done)).
  change 256 with (2 ^ 8).
  enough (N.lor x (N.shiftl bits (6 - N.of_nat i mod 4 * 2)) mod 2 ^ 8
          = N.lor x (N.shiftl bits (6 - N.of_nat i mod 4 * 2))) as <- by (apply N.mod_lt; done).
  rewrite <- !N.land_ones, N.land_lor_distr_l, !N.land_ones. f_equal; apply N.mod_small.
  - done.
  - remember (N.of_nat i mod 4) as x'.
    assert (x' = 0 \/ x' = 1 \/ x' = 2 \/ x' = 3) as [-> | [-> | [-> | ->]]] by lia;
    assert (bits = 0 \/ bits = 1) as [-> | ->] by lia; done.
Qed.

Lemma pack_types_bound i addrs field :
  Forall (λ x, x < 256) field -> Forall (λ x, x < 256) (pack_types i addrs field).
Proof.
  revert i field. induction addrs as [|a addrs IH]; intros i field Hf; [done|].
  simpl. apply IH, or_slot_bound; [apply addr_bits_lt|done].
Qed.

Lemma map_to_N_u8 l : Forall (λ x, x < 256) l -> map Strings.Byte.to_N (map u8 l) = l.
Proof. induction 1 as [|x l Hx _ IH]; simpl; [done|]. by rewrite IH, u8_small. Qed.

(** ** Decoding what was encoded *)

Lemma read_addr_bytes w mk err octets port rest :
  length octets = w -> port < 65536 ->
  read_addr w mk err ((octets ++ u16_to_be_bytes port) ++ rest) = Ok (mk octets port, rest).
Proof.
  intros <- Hp. unfold read_addr. rewrite <- app_assoc, drop_app_length, take_app_length. simpl.
  do 3 f_equal. by apply u16_roundtrip.
Qed.

Lemma decode_relay_encode r rest :
  (forall a, r = Some a -> addr_wf a) ->
  decode_relay (relay_type r) (from_option addr_bytes [] r ++ rest) = Ok (r, rest).
Proof.
  intros Hwf. destruct r as [a|]; [|done]. specialize (Hwf a eq_refl).
  destruct a; simpl in *; destruct_and!; subst; by rewrite read_addr_bytes.
Qed.

Lemma decode_addrs_encode addrs i field rest :
  Forall addr_wf addrs ->
  (forall k a, addrs !! k = Some a -> read_slot (i + k)%nat field = addr_bits a) ->
  decode_addrs (length addrs) i field (concat (map addr_bytes addrs) ++ rest) = Ok (addrs, rest).
Proof.
  intros Hwf. revert i. induction Hwf as [|a addrs Ha _ IH]; intros i Hslot; [done|].
  simpl. rewrite <- app_assoc. pose proof (Hslot 0%nat a eq_refl) as H0.
  rewrite Nat.add_0_r in H0. rewrite H0.
  assert (forall k b, addrs !! k = Some b -> read_slot (S i + k)%nat field = addr_bits b) as Hs.
  { intros k b Hk. rewrite <- (Hslot (S k) b Hk). f_equal. lia. }
  destruct a; simpl in *; destruct_and!; subst; rewrite read_addr_bytes by done;
    by rewrite (IH (S i) Hs).
Qed.

Lemma bitfield_bytes_enough n : (n <= 4 * bitfield_bytes (N.of_nat n))%nat.
Proof.
  unfold bitfield_bytes. pose proof (N.Div0.div_mod (N.of_nat n * 2 + 7) 8).
  pose proof (N.mod_lt (N.of_nat n * 2 + 7) 8 ltac:(done)). lia.
Qed.

Lemma read_slot_zeros j n : (j < 4 * n)%nat -> read_slot j (replicate n 0) = 0.
Proof.
  intros Hj. unfold read_slot. rewrite slot_index.
  assert (N.of_nat j / 4 < N.of_nat n) by (apply N.Div0.div_lt_upper_bound; lia).
  rewrite lookup_total_replicate_2 by lia. by rewrite N.shiftr_0_l.
Qed.

Lemma decode_direct_encode addrs rest :
  Forall addr_wf addrs -> len addrs <= MAX_DIRECT_ADDRS ->
  decode_direct (encode_direct addrs ++ rest) = Ok (addrs, rest).
Proof.
  intros Hwf Hlen. unfold encode_direct, len, MAX_DIRECT_ADDRS in *. cbn [app decode_direct].
  rewrite u8_small by (rewrite N.shiftl_mul_pow2; change (2 ^ 4) with 16; lia).
  rewrite N.shiftr_shiftl_l, N.sub_diag, N.shiftl_0_r by done.
  destruct (N.ltb_spec 0 (N.of_nat (length addrs))).
  2:{ destruct addrs; [done|simpl in *; lia]. }
  set (field := pack_types 0 addrs (replicate (bitfield_bytes (N.of_nat (length addrs))) 0)).
  assert (length (map u8 field) = bitfield_bytes (N.of_nat (length addrs))) as Hf.
  { unfold field. by rewrite length_map, length_pack_types, length_replicate. }
  destruct (Nat.ltb_spec (length ((map u8 field ++ concat (map addr_bytes addrs)) ++ rest))
    (bitfield_bytes (N.of_nat (length addrs)))) as [Hl|_].
  { rewrite !length_app in Hl. lia. }
  rewrite <- app_assoc, take_app_length', drop_app_length' by done.
  rewrite map_to_N_u8 by (apply pack_types_bound, Forall_replicate; done).
  rewrite Nat2N.id. apply decode_addrs_encode; [done|]. intros k a Hk. simpl.
  unfold field. rewrite read_pack_types by (rewrite length_replicate; apply bitfield_bytes_enough).
  apply lookup_lt_Some in Hk as Hkl. pose proof (bitfield_bytes_enough (length addrs)).
  by rewrite read_slot_zeros, Nat.sub_0_r, Hk by lia.
Qed.

Lemma decode_credential_encode c tlv :
  (forall x, c = Some x -> credential_wf x) -> encode_credential c = Ok tlv ->
  decode_credential tlv = Ok (c, []).
Proof.
  intros Hwf. destruct c as [c|]; simpl; [|by intros [= <-]].
  destruct (N.leb_spec (len (payload_bytes c)) MAX_CREDENTIAL_PAYLOAD) as [Hle|]; [|done].
  intros [= <-]. cbn [app decode_credential u16_to_be_bytes]. unfold MAX_CREDENTIAL_PAYLOAD in *.
  rewrite (u16_roundtrip (len (payload_bytes c))) by (done || lia).
  rewrite (proj2 (N.leb_le _ _) Hle), N.leb_refl. simpl.
  unfold len at 1 2. rewrite Nat2N.id, firstn_all, drop_all.
  specialize (Hwf c eq_refl). destruct c; simpl in *; try done. by rewrite Hwf.
Qed.

Lemma decode_encode t b : ticket_wf t -> encode t = Ok b -> decode b = Ok t.
Proof.
  intros [Hid Hrelay Hdirect Hcred]. unfold encode.
  destruct (N.leb_spec (len (at_direct_addrs t)) MAX_DIRECT_ADDRS) as [Hn|]; [|done]. simpl.
  destruct (encode_credential (at_credential t)) as [tlv|] eqn:Htlv; [|done].
  set (h := N.lor _ _). set (buf := (_ ++ _) ++ tlv).
  destruct (N.leb_spec (len buf) MAX_WIRE_SIZE) as [Hsz|]; [|done]. intros [= <-].
  unfold decode. rewrite (proj2 (N.leb_le _ _) Hsz). simpl.
  assert (34 <= len buf) as H34.
  { unfold buf, len, encode_direct. rewrite !length_app. simpl. rewrite length_app. simpl. lia. }
  rewrite (proj2 (N.leb_le _ _) H34). simpl.
  assert (buf = at_endpoint_id t ++ u8 h :: from_option addr_bytes [] (at_relay t)
            ++ encode_direct (at_direct_addrs t) ++ tlv) as ->.
  { unfold buf. rewrite <- !app_assoc. simpl. rewrite <- ?app_assoc. reflexivity. }
  rewrite drop_app_length', take_app_length' by done.
  assert ((N.shiftr (Strings.Byte.to_N (u8 h)) 4 =? FORMAT_VERSION) = true) as ->.
  { subst h. destruct (at_relay t) as [[]|]; vm_compute; reflexivity. }
  assert (N.land (N.shiftr (Strings.Byte.to_N (u8 h)) 2) 3 = relay_type (at_relay t)) as ->.
  { unfold h. by destruct (at_relay t) as [[]|]. }
  cbn [negb]. rewrite decode_relay_encode, decode_direct_encode by done.
  rewrite (decode_credential_encode _ _ Hcred Htlv). by destruct t.
Qed.

(** ** Encoding what was decoded *)

Lemma read_addr_inv w mk err rest a rest' :
  read_addr w mk err rest = Ok (a, rest') ->
  exists octets port, a = mk octets port /\ length octets = w /\ port < 65536 /\
    length rest = (w + 2 + length rest')%nat.
Proof.
  unfold read_addr. destruct (drop w rest) as [|hi [|lo r]] eqn:Hd; [done..|].
  intros [= <- <-]. exists (take w rest), (u16_from_be_bytes hi lo).
  assert (length (drop w rest) = S (S (length r))) as Hl by (by rewrite Hd).
  rewrite length_drop in Hl.
  split_and!; [done| rewrite length_take; lia | apply u16_be_bound | lia].
Qed.

Lemma decode_relay_inv k rest r rest' :
  decode_relay k rest = Ok (r, rest') ->
  (forall a, r = Some a -> addr_wf a) /\
  length rest = (length (from_option addr_bytes [] r) + length rest')%nat.
Proof.
  unfold decode_relay. intros H.
  repeat case_match; simplify_eq/=;
    try match goal with
    | H : read_addr _ _ _ _ = Ok _ |- _ => apply read_addr_inv in H as (o & p & -> & ? & ? & ?)
    end; (split; [intros; simplify_eq/=; auto|]); simpl; rewrite ?length_app; simpl; lia.
Qed.

Lemma decode_addrs_inv n i field rest l rest' :
  decode_addrs n i field rest = Ok (l, rest') ->
  Forall addr_wf l /\ length l = n /\
  length rest = (length (concat (map addr_bytes l)) + length rest')%nat.
Proof.
  revert i rest l. induction n as [|n IH]; intros i rest l H; simpl in H.
  { simplify_eq. auto. }
  repeat case_match; simplify_eq/=;
    match goal with
    | Ha : read_addr _ _ _ _ = Ok _, Hr : decode_addrs _ _ _ _ = Ok _ |- _ =>
        apply read_addr_inv in Ha as (o & p & -> & ? & ? & ?);
        apply IH in Hr as (? & ? & ?)
    end;
    (split_and!; [constructor; [by simpl|done]|lia|simpl; rewrite !length_app; simpl; lia]).
Qed.

Lemma length_encode_direct l :
  length (encode_direct l) =
  (1 + bitfield_bytes (len l) + length (concat (map addr_bytes l)))%nat.
Proof.
  unfold encode_direct. simpl. destruct (N.ltb_spec 0 (len l)).
  - by rewrite length_app, length_map, length_pack_types, length_replicate.
  - destruct l; [done|unfold len in *; simpl in *; lia].
Qed.

Lemma decode_direct_inv rest l rest' :
  decode_direct rest = Ok (l, rest') ->
  Forall addr_wf l /\ len l <= MAX_DIRECT_ADDRS /\
  length rest = (length (encode_direct l) + length rest')%nat.
Proof.
  destruct rest as [|c rest]; cbn [decode_direct]; [done|].
  pose proof (byte_to_N_lt c) as Hc. set (n := N.shiftr (Strings.Byte.to_N c) 4).
  assert (n <= 15) as Hn.
  { unfold n. rewrite N.shiftr_div_pow2. change (2 ^ 4) with 16.
    enough (Strings.Byte.to_N c / 16 < 16) by lia. apply N.Div0.div_lt_upper_bound. lia. }
  rewrite length_encode_direct. unfold MAX_DIRECT_ADDRS.
  destruct (N.ltb_spec 0 n); [|intros [= <- <-]; split_and!; done].
  destruct (Nat.ltb_spec (length rest) (bitfield_bytes n)); [done|].
  intros (Hwf & Hl & Hlen)%decode_addrs_inv. rewrite length_drop in Hlen.
  assert (len l = n) as Heq by (unfold len; lia). rewrite Heq. simpl length; split_and!; [done|done|lia].
Qed.

Lemma decode_credential_inv rest c rest' :
  decode_credential rest = Ok (c, rest') ->
  (forall x, c = Some x -> credential_wf x) /\
  exists tlv, encode_credential c = Ok tlv /\ (length tlv + length rest' <= length rest)%nat.
Proof.
  destruct rest as [|t [|hi [|lo rest]]]; simpl; try done.
  { intros [= <- <-]. split; [done|]. by exists []. }
  set (n := u16_from_be_bytes hi lo).
  destruct (N.leb_spec n MAX_CREDENTIAL_PAYLOAD) as [Hn|]; [|done]. simpl.
  destruct (N.leb_spec n (len rest)) as [Hr|]; [|done]. simpl.
  destruct (from_tlv _ _) as [x|] eqn:Htlv; [|done]. intros [= <- <-].
  assert (length (take (N.to_nat n) rest) = N.to_nat n) as Htake.
  { rewrite length_take. unfold len in Hr. lia. }
  assert (credential_wf x /\ len (payload_bytes x) <= n) as [Hwf Hp].
  { unfold from_tlv in Htlv. unfold len at 1.
    repeat case_match; simplify_eq/=; boolean_facts; rewrite ?Htake; split; try done; lia. }
  split; [by intros ? [= <-]|]. simpl.
  rewrite (proj2 (N.leb_le _ _)) by lia. simpl. eexists. split; [done|].
  simpl. rewrite length_drop. unfold len in *. lia.
Qed.

Lemma decode_inv b t :
  decode b = Ok t ->
  ticket_wf t /\ exists b', encode t = Ok b' /\ (length b' <= length b)%nat.
Proof.
  unfold decode. destruct (N.leb_spec (len b) MAX_WIRE_SIZE) as [Hmax|]; [|done]. simpl.
  destruct (N.leb_spec 34 (len b)) as [H34|]; [|done]. simpl.
  destruct (drop 32 b) as [|h rest] eqn:Hd; [done|].
  destruct (negb _); [done|].
  destruct (decode_relay _ rest) as [[relay r1]|] eqn:Hrelay; [|done].
  destruct (decode_direct r1) as [[direct r2]|] eqn:Hdirect; [|done].
  destruct (decode_credential r2) as [[c r3]|] eqn:Hcred; [|done].
  destruct r3; [|done]. intros [= <-].
  apply decode_relay_inv in Hrelay as [Hw1 Hl1].
  apply decode_direct_inv in Hdirect as (Hw2 & Hc2 & Hl2).
  apply decode_credential_inv in Hcred as [Hw3 (tlv & Htlv & Hl3)]. simpl in Hl3.
  assert (length (drop 32 b) = S (length rest)) as Hlb by (by rewrite Hd).
  rewrite length_drop in Hlb. unfold len in H34.
  split; [split; simpl; [rewrite length_take; lia|done|done|done]|].
  unfold encode. simpl. rewrite (proj2 (N.leb_le _ _) Hc2), Htlv. simpl.
  set (buf := (_ ++ _) ++ tlv). unfold MAX_WIRE_SIZE, len in *.
  assert (length buf <= length b)%nat as Hbuf.
  { unfold buf. rewrite !length_app, length_take. cbn [length]. rewrite length_app. lia. }
  rewrite (proj2 (N.leb_le (N.of_nat (length buf)) 256)) by lia. simpl. eauto.
Qed.

(** ** Claims *)

Lemma strip_prefix_app p s : strip_prefix p (p ++ s) = Some s.
Proof.
  unfold strip_prefix. rewrite take_app_length, drop_app_length.
  by rewrite bool_decide_eq_true_2.
Qed.

Lemma from_to_base58 `{ExternalLaws} t s :
  ticket_wf t -> to_base58_string t = Ok s -> from_base58_str s = Ok t.
Proof.
  intros Hwf. unfold to_base58_string, from_base58_str.
  destruct (encode t) as [w|] eqn:Hw; [|done]. intros Hs.
  assert (s = STRING_PREFIX ++ bs58_encode w) as -> by congruence.
  rewrite strip_prefix_app, bs58_decode_encode. by apply decode_encode.
Qed.

(** The ticket string format round-trips: a ticket whose fields have the
    widths of their types and whose IPv6 addresses carry no flow or scope id, once
    printed as an [aster1] string, parses back to itself, for every relay,
    every mix of up to fifteen IPv4 and IPv6 addresses and every credential. *)
Theorem ticket_string_roundtrip `{ExternalLaws} t s :
  ticket_wf t -> to_base58_string t = Ok s -> from_base58_str s = Ok t.
Proof. apply from_to_base58. Qed.

Definition sample_ticket : AsterTicket :=
  mk_AsterTicket (replicate 32 Byte.x07) (Some (V4 (replicate 4 Byte.x0a) 443))
    [V4 (replicate 4 Byte.x7f) 65535; V6 (replicate 16 Byte.xfe) 1 0 0]
    (Some (RegistryRead (replicate 32 Byte.x02))).

Lemma sample_ticket_wf : ticket_wf sample_ticket.
Proof.
  split; simpl; [done|..]; intros; simplify_eq/=; try done. repeat constructor; done.
Qed.

Lemma ticket_string_roundtrip_witness :
  exists s, @to_base58_string plain_externals sample_ticket = Ok s /\
    @from_base58_str plain_externals s = Ok sample_ticket.
Proof.
  eexists. split; [vm_compute; reflexivity|].
  apply (@ticket_string_roundtrip plain_externals (sample_externals_laws _ _ _));
    [exact sample_ticket_wf|vm_compute; reflexivity].
Defined.

(** Every byte string the decoder accepts is a ticket in the domain of the
    encoder: it has at most fifteen addresses and fields of the right widths,
    encoding it succeeds within the size limit and gives no more bytes than were
    decoded, and those decode to the same ticket. *)
Theorem ticket_decode_reencode b t :
  decode b = Ok t ->
  ticket_wf t /\ exists b', encode t = Ok b' /\ len b' <= len b /\ decode b' = Ok t.
Proof.
  intros [Hwf (b' & He & Hl)]%decode_inv. split; [done|]. exists b'.
  split_and!; [done|unfold len; lia|by apply decode_encode].
Qed.

Definition sample_wire : bytes := replicate 32 Byte.x07 ++ [Byte.x13; Byte.x0f].

Lemma ticket_decode_reencode_witness :
  exists t b', decode sample_wire = Ok t /\ encode t = Ok b' /\ b' <> sample_wire /\
    decode b' = Ok t.
Proof.
  assert (decode sample_wire = Ok (mk_AsterTicket (replicate 32 Byte.x07) None [] None)) as Hd
    by (vm_compute; reflexivity).
  destruct (ticket_decode_reencode _ _ Hd) as [_ (b' & He & _ & Hd')].
  exists (mk_AsterTicket (replicate 32 Byte.x07) None [] None), b'.
  split; [exact Hd|]. split; [exact He|]. split; [|exact Hd'].
  intros ->. vm_compute in He. discriminate He.
Defined.
