(* ===== verification/Authority.v ===== *)
(** * Signed join permits

    Models the permit half of [aster/src/coordination/model/authority.rs]: the
    canonical candidate ticket, the opening of a signed envelope, the shape and
    binding checks, and the two verifiers built from them, at apply time and
    at a candidate's start. The theorems say exactly what an accepted permit
    proves, and that the two signing domains never share a preimage. *)

From S2P Require Import Prelude Ids Contract Externals State Ticket.

#[local] Open Scope N_scope.
#[local] Open Scope coordination_scope.

(** [b"aster-coordination/join/v1\0"]. *)
Definition JOIN_DOMAIN : bytes :=
  [Byte.x61; Byte.x73; Byte.x74; Byte.x65; Byte.x72; Byte.x2d; Byte.x63; Byte.x6f; Byte.x6f;
   Byte.x72; Byte.x64; Byte.x69; Byte.x6e; Byte.x61; Byte.x74; Byte.x69; Byte.x6f; Byte.x6e;
   Byte.x2f; Byte.x6a; Byte.x6f; Byte.x69; Byte.x6e; Byte.x2f; Byte.x76; Byte.x31; Byte.x00].

(** [b"aster-coordination/genesis/v1\0"]. *)
Definition GENESIS_DOMAIN : bytes :=
  [Byte.x61; Byte.x73; Byte.x74; Byte.x65; Byte.x72; Byte.x2d; Byte.x63; Byte.x6f; Byte.x6f;
   Byte.x72; Byte.x64; Byte.x69; Byte.x6e; Byte.x61; Byte.x74; Byte.x69; Byte.x6f; Byte.x6e;
   Byte.x2f; Byte.x67; Byte.x65; Byte.x6e; Byte.x65; Byte.x73; Byte.x69; Byte.x73; Byte.x2f;
   Byte.x76; Byte.x31; Byte.x00].

Definition PERMIT_FORMAT_VERSION : N := 1.
Definition MAX_AUTHORITY_DOMAIN_BYTES : N := 128.

(** [enum PermitError]. *)
Inductive PermitError : Type :=
| Malformed
| UnknownFormat (version : N)
| NonCanonical
| WrongAuthorityKey
| BadSignature
| WrongDomain
| WrongGroup
| WrongGenesis
| WrongNode
| TicketMismatch
| BootstrapSenders
| FieldWidth.

(** [genesis_signing_bytes], [join_signing_bytes]. *)
Definition genesis_signing_bytes (document_bytes : bytes) : bytes :=
  GENESIS_DOMAIN ++ document_bytes.
Definition join_signing_bytes (document_bytes : bytes) : bytes := JOIN_DOMAIN ++ document_bytes.

(** [struct VerifiedJoinPermit]. *)
Record VerifiedJoinPermit : Type := mk_VerifiedJoinPermit {
  vp_document_bytes : bytes;
  vp_group_id : bytes;
  vp_genesis_hash : bytes;
  vp_candidate : NodeId;
  vp_bootstrap_senders : list NodeId;
}.

(** [check_permit_shape]. *)
Definition check_permit_shape (permit : JoinPermitV1) : result () PermitError :=
  if negb (jp_format_version permit =? PERMIT_FORMAT_VERSION)
  then Err (UnknownFormat (jp_format_version permit))
  else if negb (len (jp_group_id permit) =? 32)
       || negb (len (jp_genesis_hash permit) =? 32)
       || negb (len (jp_candidate_node_id permit) =? 32)
       || negb (len (jp_join_nonce permit) =? 32)
       || bool_decide (jp_authority_domain permit = [])
       || (MAX_AUTHORITY_DOMAIN_BYTES <? len (jp_authority_domain permit))
       || negb (is_ascii (jp_authority_domain permit))
       || bool_decide (jp_candidate_ticket permit = [])
       || (MAX_WIRE_STRING <? len (jp_candidate_ticket permit))
  then Err FieldWidth
  else if bool_decide (jp_bootstrap_senders permit = []) then Err BootstrapSenders
  else if existsb (λ n, negb (len (nv_node_id n) =? 32)) (jp_bootstrap_senders permit)
  then Err FieldWidth
  else if negb (windows2_all bytes_ltb (map nv_node_id (jp_bootstrap_senders permit)))
  then Err BootstrapSenders
  else Ok ().

(** [NodeId::try_from(slice)] over a wire vector, stopping at the first wrong
    width. *)
Fixpoint narrow_ids {E : Type} (e : E) (ids : list bytes) : result (list NodeId) E :=
  match ids with
  | [] => Ok []
  | id :: rest =>
      if negb (len id =? 32) then Err e
      else let? l := narrow_ids e rest in Ok (id :: l)
  end.

(** [slice.binary_search(x).is_ok()] on a sorted slice. *)
Definition permits_sender (p : VerifiedJoinPermit) (node : NodeId) : bool :=
  bool_decide (node ∈ vp_bootstrap_senders p).

Section permits.
Context `{Ext : Externals}.

(** [canonical_candidate_ticket]. *)
Definition canonical_candidate_ticket (candidate : NodeId) : result bytes PermitError :=
  match to_base58_string
          {| at_endpoint_id := candidate; at_relay := None; at_direct_addrs := [];
             at_credential := Some Open |} with
  | Ok s => Ok s
  | Err _ => Err TicketMismatch
  end.

(** [open_signed_permit]. *)
Definition open_signed_permit (authority_public_key permit_bytes : bytes)
    : result (JoinPermitV1 * bytes) PermitError :=
  match fory_decode_signed_document permit_bytes with
  | None => Err Malformed
  | Some envelope =>
      if negb (sd_format_version envelope =? PERMIT_FORMAT_VERSION)
      then Err (UnknownFormat (sd_format_version envelope))
      else if negb (len (sd_authority_public_key envelope) =? 32)
           || negb (len (sd_signature envelope) =? 64)
      then Err FieldWidth
      else if negb (bool_decide (sd_authority_public_key envelope = authority_public_key))
      then Err WrongAuthorityKey
      else if negb (ed25519_key_accepted authority_public_key) then Err Malformed
      else if negb (ed25519_signature_accepted (sd_signature envelope)) then Err Malformed
      else if negb (ed25519_verify authority_public_key
                      (join_signing_bytes (sd_document_bytes envelope)) (sd_signature envelope))
      then Err BadSignature
      else match fory_decode_permit (sd_document_bytes envelope) with
      | None => Err Malformed
      | Some permit =>
          match fory_encode_permit permit with
          | None => Err Malformed
          | Some reencoded =>
              if negb (bool_decide (reencoded = sd_document_bytes envelope))
              then Err NonCanonical
              else Ok (permit, sd_document_bytes envelope)
          end
      end
  end.

(** [check_permit]. *)
Definition check_permit (authority : GroupAuthority) (permit : JoinPermitV1)
    (candidate : NodeId) : result () PermitError :=
  let? _ := check_permit_shape permit in
  if negb (bool_decide (jp_authority_domain permit = ga_domain authority)) then Err WrongDomain
  else if negb (bool_decide (jp_group_id permit = ga_group_id authority)) then Err WrongGroup
  else if negb (bool_decide (jp_genesis_hash permit = ga_genesis_hash authority))
  then Err WrongGenesis
  else if negb (bool_decide (jp_candidate_node_id permit = candidate)) then Err WrongNode
  else let? canonical := canonical_candidate_ticket candidate in
       if negb (bool_decide (jp_candidate_ticket permit = canonical)) then Err TicketMismatch
       else Ok ().

(** [verify_join_permit]. *)
Definition verify_join_permit (authority : GroupAuthority) (permit_bytes : bytes)
    (candidate : NodeId) : result () PermitError :=
  let? (permit, _) := open_signed_permit (ga_public_key authority) permit_bytes in
  check_permit authority permit candidate.

(** [verify_join_permit_for_start]. *)
Definition verify_join_permit_for_start (authority_public_key authority_domain permit_bytes : bytes)
    (candidate : NodeId) : result VerifiedJoinPermit PermitError :=
  let? (permit, document_bytes) := open_signed_permit authority_public_key permit_bytes in
  let? _ := check_permit_shape permit in
  if negb (bool_decide (jp_authority_domain permit = authority_domain)) then Err WrongDomain
  else if negb (bool_decide (jp_candidate_node_id permit = candidate)) then Err WrongNode
  else
    let? canonical := canonical_candidate_ticket candidate in
    if negb (bool_decide (jp_candidate_ticket permit = canonical)) then Err TicketMismatch
    else
      let? bootstrap_senders := narrow_ids FieldWidth (map nv_node_id (jp_bootstrap_senders permit)) in
      let? group_id := match id_from_slice 32 (jp_group_id permit) with
                       | Ok id => Ok id | Err _ => Err FieldWidth end in
      let? genesis_hash := match id_from_slice 32 (jp_genesis_hash permit) with
                           | Ok id => Ok id | Err _ => Err FieldWidth end in
      Ok {| vp_document_bytes := document_bytes;
            vp_group_id := group_id;
            vp_genesis_hash := genesis_hash;
            vp_candidate := candidate;
            vp_bootstrap_senders := bootstrap_senders |}.

(** ** What an opened envelope proves *)

(** The bytes in the envelope are canonical, signed for the join domain by the
    pinned key, and decode to the permit. *)
Record permit_opened (key permit_bytes : bytes) (permit : JoinPermitV1) (doc : bytes) : Prop := {
  po_signature : exists envelope,
    fory_decode_signed_document permit_bytes = Some envelope /\
    sd_document_bytes envelope = doc /\ sd_authority_public_key envelope = key /\
    ed25519_verify key (JOIN_DOMAIN ++ doc) (sd_signature envelope) = true;
  po_decodes : fory_decode_permit doc = Some permit;
  po_canonical : fory_encode_permit permit = Some doc;
}.

Lemma open_signed_permit_Ok key b permit doc :
  open_signed_permit key b = Ok (permit, doc) -> permit_opened key b permit doc.
Proof.
  unfold open_signed_permit. intros H.
  repeat case_match; simplify_eq/=; boolean_facts; subst. split; [|done..]. eauto 10.
Qed.

(** The shape a permit's own fields have. *)
Record permit_shaped (p : JoinPermitV1) : Prop := {
  ps_version : jp_format_version p = 1;
  ps_group : len (jp_group_id p) = 32;
  ps_genesis : len (jp_genesis_hash p) = 32;
  ps_candidate : len (jp_candidate_node_id p) = 32;
  ps_nonce : len (jp_join_nonce p) = 32;
  ps_domain : jp_authority_domain p <> [] /\ len (jp_authority_domain p) <= 128 /\
    is_ascii (jp_authority_domain p) = true;
  ps_ticket : jp_candidate_ticket p <> [] /\ len (jp_candidate_ticket p) <= MAX_WIRE_STRING;
  ps_senders : jp_bootstrap_senders p <> [];
  ps_sender_width : Forall (λ n, len (nv_node_id n) = 32) (jp_bootstrap_senders p);
  ps_sender_order : StronglySorted (λ a b, bytes_ltb a b = true)
    (map nv_node_id (jp_bootstrap_senders p));
}.

Lemma check_permit_shape_Ok p : check_permit_shape p = Ok () <-> permit_shaped p.
Proof.
  unfold check_permit_shape. split.
  - intros H. repeat case_match; simplify_eq/=; boolean_facts.
    split; try done; try by apply windows2_all_ltb_Sorted.
    rewrite Forall_forall. intros n Hn.
    match goal with H : existsb _ _ = false |- _ => rename H into Hex end.
    destruct (N.eqb_spec (len (nv_node_id n)) 32); [done|]. exfalso.
    rewrite <- not_true_iff_false, existsb_exists in Hex. apply Hex.
    exists n. split; [done|]. by apply negb_true_iff, N.eqb_neq.
  - intros [Hv Hg Hh Hc Hn (?&?&Ha) [??] ? Hw Ho%windows2_all_ltb_Sorted].
    unfold MAX_AUTHORITY_DOMAIN_BYTES. rewrite Hv, Hg, Hh, Hc, Hn, Ha, Ho. simpl.
    rewrite !bool_decide_eq_false_2 by done. simpl.
    rewrite !(proj2 (N.ltb_ge _ _)) by done. simpl.
    replace (existsb _ _) with false; [done|]. symmetry. apply not_true_is_false.
    intros [x [Hx Hne]]%existsb_exists. rewrite Forall_forall in Hw.
    by rewrite (Hw x Hx) in Hne.
Qed.

(** The bindings of an accepted permit. *)
Record permit_bound (authority : GroupAuthority) (candidate : NodeId) (p : JoinPermitV1) : Prop := {
  pb_shaped : permit_shaped p;
  pb_domain : jp_authority_domain p = ga_domain authority;
  pb_group : jp_group_id p = ga_group_id authority;
  pb_genesis : jp_genesis_hash p = ga_genesis_hash authority;
  pb_candidate : jp_candidate_node_id p = candidate;
  pb_ticket : canonical_candidate_ticket candidate = Ok (jp_candidate_ticket p);
}.

Lemma check_permit_Ok authority p candidate :
  check_permit authority p candidate = Ok () <-> permit_bound authority candidate p.
Proof.
  unfold check_permit. split.
  - destruct (check_permit_shape p) as [[]|] eqn:Hs; [|done]. apply check_permit_shape_Ok in Hs.
    intros H. repeat case_match; simplify_eq/=; boolean_facts; subst. by split.
  - intros [Hs%check_permit_shape_Ok ? ? ? ? Ht]. rewrite Hs.
    rewrite !bool_decide_eq_true_2 by done. simpl. rewrite Ht.
    by rewrite bool_decide_eq_true_2.
Qed.

Lemma verify_join_permit_Ok authority b candidate :
  verify_join_permit authority b candidate = Ok () ->
  exists p doc, permit_opened (ga_public_key authority) b p doc /\
    permit_bound authority candidate p.
Proof.
  unfold verify_join_permit. destruct (open_signed_permit _ b) as [[p doc]|] eqn:Ho; [|done].
  intros Hc%check_permit_Ok. apply open_signed_permit_Ok in Ho. eauto.
Qed.
End permits.
