(* ===== verification/Shape.v ===== *)
(** * Request-shape limits

    Models [aster/src/coordination/model/shape.rs]: the bounds that are
    properties of a submitted request, with the whole membership-plan predicate.
    The theorems characterise an accepted plan, show that an accepted seed
    ticket is the only spelling of its route, and bound what one
    plan can add. *)

From S2P Require Import Prelude Ids Contract Externals Limits State Ticket Authority.

#[local] Open Scope N_scope.
#[local] Open Scope coordination_scope.

(** [enum ShapeLimit]. *)
Inductive ShapeLimit : Type :=
| SL_Namespace
| SL_ResourceKey
| SL_Value
| SL_Ttl
| SL_RightsBits
| SL_EncodedCommand
| SL_MemberSeedTicket
| SL_MemberSeedJoinPermit
| SL_NodeIdWidth
| SL_FenceGroupWidth
| SL_ClientIdWidth
| SL_RequestHashWidth
| SL_RequestHashMismatch
| SL_MembershipPlanSize
| SL_MembershipPlanOrder
| SL_MembershipPlanRoot
| SL_MemberSeedUnknownNode
| SL_MemberSeedPermit
| SL_MemberSeedTicketEmpty
| SL_MemberSeedTicketInvalid
| SL_MemberSeedTicketCredential
| SL_MemberSeedTicketNode
| SL_MemberSeedTicketNonCanonical
| SL_MembershipNewVoters.

#[export] Instance ShapeLimit_eq_dec : EqDecision ShapeLimit.
Proof. solve_decision. Defined.

Definition MEMBERSHIP_RETAIN : bool := false.

(** [projected_learners]: the size of the set of current learners and of named
    nodes that are not members. *)
Definition projected_learners (current_learners current_members : gset NodeId)
    (desired_voters retained_learners : list NodeId) : N :=
  let missing := filter (λ node, node ∉ current_members) (desired_voters ++ retained_learners) in
  N.of_nat (size (current_learners ∪ list_to_set missing)).

(** [validate_resource_key]. *)
Definition validate_resource_key (namespace key : bytes) : result ResourceKey ShapeLimit :=
  match ResourceKey_new namespace key with
  | Ok k => Ok k
  | Err e =>
      Err match e with
          | NamespaceLength _ | NamespaceCharset => SL_Namespace
          | KeyLength _ => SL_ResourceKey
          | IdLength _ _ | HexLength _ _ | HexDigit => SL_ResourceKey
          end
  end.

Definition then_some {A : Type} (b : bool) (a : A) : option A := if b then Some a else None.

(** [check_value]. *)
Definition check_value (value : bytes) : option ShapeLimit :=
  then_some (MAX_VALUE <? len value) SL_Value.

(** [check_ttl]. *)
Definition check_ttl (ttl_ms : N) : option ShapeLimit :=
  then_some (negb ((MIN_TTL_MS <=? ttl_ms) && (ttl_ms <=? MAX_TTL_MS))) SL_Ttl.

(** [check_rights]. *)
Definition check_rights (rights : N) : option ShapeLimit :=
  then_some (negb (rights_are_known rights)) SL_RightsBits.

(** [check_encoded_command]. *)
Definition check_encoded_command (n : N) : option ShapeLimit :=
  then_some (MAX_ENCODED_COMMAND <? n) SL_EncodedCommand.

Definition MIN_VOTERS : N := 3.
Definition MAX_VOTERS : N := 5.
Definition MAX_RETAINED_LEARNERS : N := 2.
Definition MAX_NEW_VOTERS : N := 2.
Definition MAX_LEARNER_ENVELOPE : N :=
  MAX_RETAINED_LEARNERS + MAX_NEW_VOTERS + MAX_RETAINED_LEARNERS.

Definition PROFILE_PROD : Z := 1.
Definition PROFILE_DEV_SINGLE : Z := 2.
Definition PROFILE_DEV_EVEN : Z := 3.
Definition PROFILES : list Z := [PROFILE_PROD; PROFILE_DEV_SINGLE; PROFILE_DEV_EVEN].

(** [profile_permits_voters]: true when the count is not permitted. *)
Definition profile_permits_voters (deployment_profile_code : Z) (voters : N) : bool :=
  let permitted :=
    if (deployment_profile_code =? PROFILE_PROD)%Z
    then (voters =? MIN_VOTERS) || (voters =? MAX_VOTERS)
    else if (deployment_profile_code =? PROFILE_DEV_SINGLE)%Z then voters =? 1
    else if (deployment_profile_code =? PROFILE_DEV_EVEN)%Z then voters =? 2
    else false in
  negb permitted.

(** [check_membership_plan]. *)
Definition check_membership_plan (voters retained_learners : N) (deployment_profile_code : Z)
    : option ShapeLimit :=
  if MAX_RETAINED_LEARNERS <? retained_learners then Some SL_MembershipPlanSize
  else then_some (profile_permits_voters deployment_profile_code voters) SL_MembershipPlanSize.

(** [new_voters]. *)
Definition new_voters (desired : list NodeId) (current : gset NodeId) : N :=
  len (filter (λ v, v ∉ current) desired).

(** [sorted_unique]. *)
Definition sorted_unique (ids : list NodeId) : bool := windows2_all bytes_ltb ids.

(** [check_member_seed]. *)
Definition check_member_seed (ticket_len : N) (join_permit_len : option N) : option ShapeLimit :=
  if MAX_TICKET <? ticket_len then Some SL_MemberSeedTicket
  else if from_option (λ n, MAX_JOIN_PERMIT <? n) false join_permit_len
  then Some SL_MemberSeedJoinPermit
  else None.

Section plans.
Context `{Ext : Externals}.

(** [check_seed_ticket]. *)
Definition check_seed_ticket (ticket : bytes) (node : NodeId) : result () ShapeLimit :=
  if bool_decide (ticket = []) then Err SL_MemberSeedTicketEmpty
  else if negb (utf8_valid ticket) then Err SL_MemberSeedTicketInvalid
  else match from_base58_str ticket with
  | Err _ => Err SL_MemberSeedTicketInvalid
  | Ok parsed =>
      match to_base58_string parsed with
      | Err _ => Err SL_MemberSeedTicketInvalid
      | Ok canonical =>
          if negb (bool_decide (canonical = ticket)) then Err SL_MemberSeedTicketNonCanonical
          else if negb (match at_credential parsed with None | Some Open => true | _ => false end)
          then Err SL_MemberSeedTicketCredential
          else if negb (bool_decide (at_endpoint_id parsed = node))
          then Err SL_MemberSeedTicketNode
          else Ok ()
      end
  end.

(** One iteration of the loop of [plan_shape] over the seeds. *)
Definition seed_shape (plan : MembershipPlan) (current_members : gset NodeId)
    (authority : GroupAuthority) (seed : MemberSeed) : option ShapeLimit :=
  match check_member_seed (len (ms_ticket seed)) (len <$> ms_join_permit seed) with
  | Some limit => Some limit
  | None =>
      if negb (bool_decide (ms_node_id seed ∈ mp_desired_voters plan)
               || bool_decide (ms_node_id seed ∈ mp_retained_learners plan))
      then Some SL_MemberSeedUnknownNode
      else match check_seed_ticket (ms_ticket seed) (ms_node_id seed) with
      | Err limit => Some limit
      | Ok _ =>
          let is_new := negb (bool_decide (ms_node_id seed ∈ current_members)) in
          match is_new, ms_join_permit seed with
          | true, Some permit =>
              match verify_join_permit authority permit (ms_node_id seed) with
              | Err _ => Some SL_MemberSeedPermit
              | Ok _ => None
              end
          | false, None => None
          | _, _ => Some SL_MemberSeedPermit
          end
      end
  end.

(** A loop that returns the first verdict. *)
Fixpoint find_limit {A : Type} (f : A -> option ShapeLimit) (l : list A) : option ShapeLimit :=
  match l with
  | [] => None
  | x :: rest => match f x with Some limit => Some limit | None => find_limit f rest end
  end.

(** [plan_shape]. *)
Definition plan_shape (plan : MembershipPlan) (current : CommittedMembership)
    (authority_material : GroupAuthority) (deployment_profile_code : Z) : option ShapeLimit :=
  let current_members := cm_members current in
  match check_membership_plan (len (mp_desired_voters plan)) (len (mp_retained_learners plan))
          deployment_profile_code with
  | Some limit => Some limit
  | None =>
      if negb (sorted_unique (mp_desired_voters plan))
         || negb (sorted_unique (mp_retained_learners plan))
      then Some SL_MembershipPlanOrder
      else if negb (sorted_unique (map ms_node_id (mp_member_seeds plan)))
      then Some SL_MembershipPlanOrder
      else if existsb (λ v, bool_decide (v ∈ mp_retained_learners plan)) (mp_desired_voters plan)
      then Some SL_MembershipPlanOrder
      else if existsb (λ node, bool_decide (node = ga_public_key authority_material))
                (mp_desired_voters plan ++ mp_retained_learners plan)
      then Some SL_MembershipPlanRoot
      else if MAX_NEW_VOTERS <? new_voters (mp_desired_voters plan) current_members
      then Some SL_MembershipNewVoters
      else match find_limit (seed_shape plan current_members authority_material)
                   (mp_member_seeds plan) with
      | Some limit => Some limit
      | None =>
          let seeded node := existsb (λ s, bool_decide (ms_node_id s = node)) (mp_member_seeds plan) in
          find_limit
            (λ node, then_some (negb (bool_decide (node ∈ current_members)) && negb (seeded node))
                       SL_MemberSeedUnknownNode)
            (mp_desired_voters plan ++ mp_retained_learners plan)
      end
  end.

(** ** What an accepted ticket and plan are *)

Lemma check_seed_ticket_Ok ticket node :
  check_seed_ticket ticket node = Ok () <->
  ticket <> [] /\ utf8_valid ticket = true /\
  exists t, from_base58_str ticket = Ok t /\ to_base58_string t = Ok ticket /\
    (at_credential t = None \/ at_credential t = Some Open) /\ at_endpoint_id t = node.
Proof.
  unfold check_seed_ticket. split.
  - intros H. repeat case_match; simplify_eq/=; boolean_facts; subst; naive_solver.
  - intros (? & Hu & t & Hf & Ht & Hc & ?). rewrite bool_decide_eq_false_2 by done.
    rewrite Hu, Hf, Ht. simpl. rewrite !bool_decide_eq_true_2 by done.
    destruct Hc as [-> | ->]; done.
Qed.

Lemma find_limit_None {A} (f : A -> option ShapeLimit) l :
  find_limit f l = None <-> forall x, x ∈ l -> f x = None.
Proof.
  induction l as [|x l IH]; simpl; [set_solver|].
  destruct (f x) eqn:Hf; split.
  - done.
  - intros H. rewrite <- Hf. apply H. left.
  - rewrite IH. intros H y [->|]%elem_of_cons; auto.
  - intros H. apply IH. intros y Hy. apply H. by right.
Qed.

(** A seed of an accepted plan. *)
Record seed_accepted (plan : MembershipPlan) (members : gset NodeId)
    (authority : GroupAuthority) (seed : MemberSeed) : Prop := {
  sa_ticket_len : len (ms_ticket seed) <= MAX_TICKET;
  sa_ticket : check_seed_ticket (ms_ticket seed) (ms_node_id seed) = Ok ();
  sa_in_plan : ms_node_id seed ∈ mp_desired_voters plan ++ mp_retained_learners plan;
  sa_permit_iff_new : is_Some (ms_join_permit seed) <-> ms_node_id seed ∉ members;
  sa_permit_len p : ms_join_permit seed = Some p -> len p <= MAX_JOIN_PERMIT;
  sa_permit p : ms_join_permit seed = Some p ->
    verify_join_permit authority p (ms_node_id seed) = Ok ();
}.

Lemma seed_shape_None plan members authority seed :
  seed_shape plan members authority seed = None -> seed_accepted plan members authority seed.
Proof.
  unfold seed_shape, check_member_seed. intros H.
  repeat case_match; simplify_eq/=; boolean_facts;
    match goal with H : _ || _ = true |- _ => apply orb_true_iff in H; rewrite !bool_decide_eq_true in H end;
    match goal with H : check_seed_ticket _ _ = Ok ?u |- _ => destruct u end;
    (split; [lia|done|set_solver|..]);
    repeat match goal with H : ms_join_permit _ = _ |- _ => rewrite ?H in * end; simpl in *;
    boolean_facts.
  all: try (split; [intros [? ?]; done | intros; eauto; done]).
  all: try (intros; simplify_eq/=; boolean_facts; lia).
  all: intros; simplify_eq/=;
    match goal with H : verify_join_permit _ _ _ = Ok ?u |- _ => by destruct u end.
Qed.

(** An accepted plan, rule by rule. *)
Record plan_accepted (plan : MembershipPlan) (current : CommittedMembership)
    (authority : GroupAuthority) (profile : Z) : Prop := {
  pa_voters : profile_permits_voters profile (len (mp_desired_voters plan)) = false;
  pa_learners : len (mp_retained_learners plan) <= 2;
  pa_voters_sorted : StronglySorted (λ a b, bytes_ltb a b = true) (mp_desired_voters plan);
  pa_learners_sorted : StronglySorted (λ a b, bytes_ltb a b = true) (mp_retained_learners plan);
  pa_seeds_sorted : StronglySorted (λ a b, bytes_ltb a b = true)
    (map ms_node_id (mp_member_seeds plan));
  pa_disjoint : mp_desired_voters plan ## mp_retained_learners plan;
  pa_not_root : ga_public_key authority ∉ mp_desired_voters plan ++ mp_retained_learners plan;
  pa_new_voters : new_voters (mp_desired_voters plan) (cm_members current) <= 2;
  pa_seeds seed : seed ∈ mp_member_seeds plan ->
    seed_accepted plan (cm_members current) authority seed;
  pa_seeded node : node ∈ mp_desired_voters plan ++ mp_retained_learners plan ->
    node ∉ cm_members current -> node ∈ map ms_node_id (mp_member_seeds plan);
}.

Lemma existsb_false_forall {A} (f : A -> bool) l :
  existsb f l = false -> forall x, x ∈ l -> f x = false.
Proof.
  intros H x Hx%list_elem_of_In. destruct (f x) eqn:Hf; [|done].
  rewrite <- not_true_iff_false, existsb_exists in H. destruct H. eauto.
Qed.

Lemma plan_shape_None plan current authority profile :
  plan_shape plan current authority profile = None -> plan_accepted plan current authority profile.
Proof.
  unfold plan_shape, check_membership_plan, then_some, sorted_unique. intros H.
  repeat case_match; simplify_eq/=; boolean_facts.
  repeat match goal with
  | H : windows2_all _ _ = true |- _ => apply windows2_all_ltb_Sorted in H
  | H : find_limit _ _ = None |- _ => rewrite find_limit_None in H
  end.
  match goal with
  | Hd : existsb _ (mp_desired_voters plan) = false, Hr : existsb _ (_ ++ _) = false |- _ =>
      pose proof (existsb_false_forall _ _ Hd) as Hdisj;
      pose proof (existsb_false_forall _ _ Hr) as Hroot
  end.
  split; try done.
  - intros x Hv Hl. specialize (Hdisj x Hv). by apply bool_decide_eq_false_1 in Hdisj.
  - intros Hr. specialize (Hroot _ Hr). by apply bool_decide_eq_false_1 in Hroot.
  - intros seed Hs. apply seed_shape_None. auto.
  - intros node Hn Hnew. match goal with H : forall _, _ -> (if _ then _ else _) = None |- _ =>
      specialize (H node Hn) end.
    case_match; [done|]. rewrite bool_decide_eq_false_2 in * by done. simpl in *.
    boolean_facts. apply list_elem_of_In, in_map_iff.
    match goal with H : existsb _ _ = true |- _ => apply existsb_exists in H as (s & Hs & He) end.
    boolean_facts. eauto.
Qed.

(** A sorted vector of plan members has no more entries than the plan. *)
Lemma plan_seed_count plan current authority profile :
  plan_accepted plan current authority profile ->
  len (mp_member_seeds plan) <= len (mp_desired_voters plan) + len (mp_retained_learners plan).
Proof.
  intros Hp. unfold len. rewrite <- Nat2N.inj_add, <- length_app, <- (length_map ms_node_id).
  enough (length (map ms_node_id (mp_member_seeds plan))
          <= length (mp_desired_voters plan ++ mp_retained_learners plan))%nat by lia.
  apply submseteq_length, NoDup_submseteq.
  - apply windows2_all_ltb_NoDup, windows2_all_ltb_Sorted, (pa_seeds_sorted _ _ _ _ Hp).
  - intros x (seed & <- & Hs)%list_elem_of_In%in_map_iff.
    apply list_elem_of_In, (pa_seeds _ _ _ _ Hp) in Hs. apply Hs.
Qed.

Lemma profile_voters_bound profile n : profile_permits_voters profile n = false -> n <= MAX_VOTERS.
Proof.
  unfold profile_permits_voters, MIN_VOTERS, MAX_VOTERS. intros H.
  repeat case_match; boolean_facts; rewrite ?orb_true_iff in *; destruct_or?; boolean_facts; lia.
Qed.

Lemma plan_seeds_bound plan current authority profile :
  plan_accepted plan current authority profile -> len (mp_member_seeds plan) <= 7.
Proof.
  intros Hp. pose proof (plan_seed_count _ _ _ _ Hp).
  pose proof (profile_voters_bound _ _ (pa_voters _ _ _ _ Hp)).
  pose proof (pa_learners _ _ _ _ Hp). unfold MAX_VOTERS in *. lia.
Qed.

Lemma seed_accepted_shape plan members authority seed :
  seed_accepted plan members authority seed -> seed_shape plan members authority seed = None.
Proof.
  intros [Hl Ht Hin Hiff Hpl Hp]. unfold seed_shape, check_member_seed.
  rewrite (proj2 (N.ltb_ge _ _) Hl), Ht.
  replace (_ || _) with true.
  2:{ symmetry. rewrite orb_true_iff, !bool_decide_eq_true. set_solver. }
  destruct (ms_join_permit seed) as [p|] eqn:Hjp; simpl.
  - rewrite (proj2 (N.ltb_ge _ _) (Hpl p eq_refl)), (Hp p eq_refl).
    rewrite bool_decide_eq_false_2 by (apply Hiff; eauto). done.
  - rewrite bool_decide_eq_true_2; [done|].
    destruct (decide (ms_node_id seed ∈ members)) as [|Hn]; [done|].
    apply Hiff in Hn as [? ?]. done.
Qed.

Lemma plan_accepted_shape plan current authority profile :
  plan_accepted plan current authority profile -> plan_shape plan current authority profile = None.
Proof.
  intros [Hv Hl Hs1%windows2_all_ltb_Sorted Hs2%windows2_all_ltb_Sorted
          Hs3%windows2_all_ltb_Sorted Hd Hr Hn Hseed Hall].
  unfold plan_shape, check_membership_plan, sorted_unique, MAX_RETAINED_LEARNERS, MAX_NEW_VOTERS.
  rewrite (proj2 (N.ltb_ge _ _) Hl), (proj2 (N.ltb_ge _ _) Hn), Hv, Hs1, Hs2, Hs3. simpl.
  destruct (existsb _ (mp_desired_voters plan)) eqn:He1.
  { apply existsb_exists in He1 as (x & Hx%list_elem_of_In & Hb%bool_decide_eq_true_1). by destruct (Hd x). }
  destruct (existsb _ (_ ++ _)) eqn:He2.
  { apply existsb_exists in He2 as (x & Hx%list_elem_of_In & Hb%bool_decide_eq_true_1). by subst. }
  rewrite (proj2 (find_limit_None _ _)) by (intros; auto using seed_accepted_shape).
  apply find_limit_None. intros node Hnode. unfold then_some.
  destruct (decide (node ∈ cm_members current)) as [Hm|Hm].
  { by rewrite bool_decide_eq_true_2. }
  rewrite bool_decide_eq_false_2 by done. simpl.
  specialize (Hall node Hnode Hm). apply list_elem_of_In, in_map_iff in Hall as (s & Hs & Hi).
  destruct (existsb _ (mp_member_seeds plan)) eqn:He3; [done|].
  apply list_elem_of_In in Hi. pose proof (existsb_false_forall _ _ He3 s Hi) as Hf. by apply bool_decide_eq_false_1 in Hf.
Qed.

(** A membership plan passes [plan_shape] exactly when it satisfies every rule
    of the specification at once: the profile's voter count, at most two
    retained learners, three sorted duplicate-free vectors, disjoint roles, the
    deployment root in neither, at most two new voters, every seed a plan member
    with a canonical credential-free ticket of its own, a permit verified
    exactly for the new nodes, and every new node seeded. *)
Theorem plan_shape_exact plan current authority profile :
  plan_shape plan current authority profile = None <->
  plan_accepted plan current authority profile.
Proof. split; auto using plan_shape_None, plan_accepted_shape. Qed.

(** A route has one spelling: two tickets accepted by the seed check, for
    whatever nodes, that parse to the same value are the same bytes; an accepted
    ticket names the node it seeds and carries no credential beyond the open
    one. The decoder alone gives no such guarantee, since it ignores reserved
    bits. *)
Theorem seed_ticket_spelling ticket1 ticket2 node1 node2 t :
  check_seed_ticket ticket1 node1 = Ok () -> check_seed_ticket ticket2 node2 = Ok () ->
  from_base58_str ticket1 = Ok t -> from_base58_str ticket2 = Ok t ->
  ticket1 = ticket2 /\ node1 = node2 /\ at_endpoint_id t = node1 /\
  default Open (at_credential t) = Open.
Proof.
  intros (_ & _ & t1 & H1 & S1 & C1 & E1)%check_seed_ticket_Ok
         (_ & _ & t2 & H2 & S2 & C2 & E2)%check_seed_ticket_Ok ??.
  assert (t1 = t) as -> by congruence. assert (t2 = t) as -> by congruence.
  split_and!; [congruence..|]. by destruct C1 as [-> | ->].
Qed.
End plans.

Definition open_ticket (node : NodeId) : AsterTicket :=
  mk_AsterTicket node None [] (Some Open).

Definition sample_seed_ticket : bytes :=
  match @to_base58_string plain_externals (open_ticket (replicate 32 Byte.x07)) with
  | Ok s => s
  | Err _ => []
  end.

Lemma seed_ticket_spelling_witness :
  @check_seed_ticket plain_externals sample_seed_ticket (replicate 32 Byte.x07) = Ok () /\
  default Open (at_credential (open_ticket (replicate 32 Byte.x07))) = Open.
Proof.
  assert (@check_seed_ticket plain_externals sample_seed_ticket (replicate 32 Byte.x07) = Ok ())
    as Hc by (vm_compute; reflexivity).
  split; [exact Hc|].
  refine (proj2 (proj2 (proj2 (@seed_ticket_spelling plain_externals _ _ _ _
    (open_ticket (replicate 32 Byte.x07)) Hc Hc _ _)))); vm_compute; reflexivity.
Defined.
