(* ===== verification/Genesis.v ===== *)
(** * Signed genesis documents

    Models the genesis half of [aster/src/coordination/model/authority.rs]:
    [verify_genesis], [seal_genesis] and the derived hash. The theorems say what
    a sealed genesis proves, that what a group is founded on satisfies the
    invariants the state machine starts from, and that a signature for one
    document kind is never one for the other. *)

From S2P Require Import Prelude Ids Contract Externals Limits State Ticket Authority Shape.

#[local] Open Scope N_scope.
#[local] Open Scope coordination_scope.

(** [enum GenesisError]. *)
Inductive GenesisError : Type :=
| GE_Malformed
| GE_UnknownFormat (version : N)
| GE_NonCanonical
| GE_WrongAuthorityKey
| GE_BadSignature
| GE_WrongDomain
| GE_FieldWidth
| GE_UnknownProfile (profile : Z)
| GE_VoterCount (profile : Z) (voters : N)
| GE_InitialVoters
| GE_RootIsNotDelegable
| GE_RootIsNotAMember
| GE_InitialAdmins
| GE_VoterSeedTicket (limit : ShapeLimit).

(** [struct VerifiedVoterSeed]. *)
Record VerifiedVoterSeed : Type := mk_VerifiedVoterSeed {
  vvs_node_id : NodeId;
  vvs_ticket : bytes;
}.

(** [struct VerifiedGenesis]. *)
Record VerifiedGenesis : Type := mk_VerifiedGenesis {
  vg_document_bytes : bytes;
  vg_genesis_hash : Hash;
  vg_group_id : GroupId;
  vg_authority_public_key : bytes;
  vg_authority_domain : bytes;
  vg_deployment_profile_code : Z;
  vg_initial_voters : list VerifiedVoterSeed;
  vg_initial_admins : list NodeId;
  vg_recovery_export_hash : option bytes;
}.

(** [VerifiedGenesis::is_initial_voter]. *)
Definition is_initial_voter (g : VerifiedGenesis) (node : NodeId) : bool :=
  existsb (λ v, bool_decide (vvs_node_id v = node)) (vg_initial_voters g).

Section genesis.
Context `{Ext : Externals}.

(** [genesis_hash]. *)
Definition genesis_hash (document_bytes : bytes) : Hash :=
  blake3 (GENESIS_DOMAIN ++ document_bytes).

(** The loop of [seal_genesis] over the initial voters. *)
Fixpoint seal_voters (seeds : list VoterSeedV1) : result (list VerifiedVoterSeed) GenesisError :=
  match seeds with
  | [] => Ok []
  | seed :: rest =>
      if negb (len (vsv_node_id seed) =? 32) then Err GE_FieldWidth
      else if MAX_TICKET <? len (vsv_ticket seed)
      then Err (GE_VoterSeedTicket SL_MemberSeedTicket)
      else match check_seed_ticket (vsv_ticket seed) (vsv_node_id seed) with
      | Err limit => Err (GE_VoterSeedTicket limit)
      | Ok _ =>
          let? l := seal_voters rest in
          Ok (mk_VerifiedVoterSeed (vsv_node_id seed) (vsv_ticket seed) :: l)
      end
  end.

(** [seal_genesis]. *)
Definition seal_genesis (authority_public_key authority_domain : bytes) (genesis : GenesisV1)
    (document_bytes : bytes) : result VerifiedGenesis GenesisError :=
  if negb (gv_format_version genesis =? PERMIT_FORMAT_VERSION)
  then Err (GE_UnknownFormat (gv_format_version genesis))
  else if negb (len (gv_group_id genesis) =? 32)
       || negb (len (gv_genesis_nonce genesis) =? 32)
       || bool_decide (gv_authority_domain genesis = [])
       || (MAX_AUTHORITY_DOMAIN_BYTES <? len (gv_authority_domain genesis))
       || negb (is_ascii (gv_authority_domain genesis))
  then Err GE_FieldWidth
  else
    let? recovery_export_hash :=
      match gv_recovery_export_hash genesis with
      | None => Ok None
      | Some b => if negb (len b =? 32) then Err GE_FieldWidth else Ok (Some b)
      end in
    if negb (bool_decide (gv_authority_domain genesis = authority_domain)) then Err GE_WrongDomain
    else if negb (bool_decide (gv_deployment_profile_code genesis ∈ PROFILES))
    then Err (GE_UnknownProfile (gv_deployment_profile_code genesis))
    else if profile_permits_voters (gv_deployment_profile_code genesis)
              (len (gv_initial_voters genesis))
    then Err (GE_VoterCount (gv_deployment_profile_code genesis) (len (gv_initial_voters genesis)))
    else
      let? initial_voters := seal_voters (gv_initial_voters genesis) in
      if bool_decide (length initial_voters = 0%nat)
         || negb (windows2_all bytes_ltb (map vvs_node_id initial_voters))
      then Err GE_InitialVoters
      else
        let? initial_admins := narrow_ids GE_FieldWidth (map nv_node_id (gv_initial_admins genesis)) in
        if bool_decide (initial_admins = [])
           || (MAX_ADMINS_PER_GROUP <? len initial_admins)
           || negb (windows2_all bytes_ltb initial_admins)
        then Err GE_InitialAdmins
        else if bool_decide (authority_public_key ∈ initial_admins)
        then Err GE_RootIsNotDelegable
        else if existsb (λ seed, bool_decide (vvs_node_id seed = authority_public_key))
                  initial_voters
        then Err GE_RootIsNotAMember
        else
          let? group_id := match id_from_slice 32 (gv_group_id genesis) with
                           | Ok id => Ok id | Err _ => Err GE_FieldWidth end in
          Ok {| vg_document_bytes := document_bytes;
                vg_genesis_hash := genesis_hash document_bytes;
                vg_group_id := group_id;
                vg_authority_public_key := authority_public_key;
                vg_authority_domain := gv_authority_domain genesis;
                vg_deployment_profile_code := gv_deployment_profile_code genesis;
                vg_initial_voters := initial_voters;
                vg_initial_admins := initial_admins;
                vg_recovery_export_hash := recovery_export_hash |}.

(** [verify_genesis]. *)
Definition verify_genesis (authority_public_key authority_domain signed_bytes : bytes)
    : result VerifiedGenesis GenesisError :=
  match fory_decode_signed_document signed_bytes with
  | None => Err GE_Malformed
  | Some envelope =>
      if negb (sd_format_version envelope =? PERMIT_FORMAT_VERSION)
      then Err (GE_UnknownFormat (sd_format_version envelope))
      else if negb (len (sd_authority_public_key envelope) =? 32)
           || negb (len (sd_signature envelope) =? 64)
      then Err GE_FieldWidth
      else if negb (bool_decide (sd_authority_public_key envelope = authority_public_key))
      then Err GE_WrongAuthorityKey
      else if negb (ed25519_key_accepted authority_public_key) then Err GE_Malformed
      else if negb (ed25519_signature_accepted (sd_signature envelope)) then Err GE_Malformed
      else if negb (ed25519_verify authority_public_key
                      (GENESIS_DOMAIN ++ sd_document_bytes envelope) (sd_signature envelope))
      then Err GE_BadSignature
      else match fory_decode_genesis (sd_document_bytes envelope) with
      | None => Err GE_Malformed
      | Some genesis =>
          match fory_encode_genesis genesis with
          | None => Err GE_Malformed
          | Some reencoded =>
              if negb (bool_decide (reencoded = sd_document_bytes envelope))
              then Err GE_NonCanonical
              else seal_genesis authority_public_key authority_domain genesis
                     (sd_document_bytes envelope)
          end
      end
  end.

(** ** What a sealed genesis proves *)

Lemma narrow_ids_Ok {E} (e : E) ids l :
  narrow_ids e ids = Ok l -> l = ids /\ Forall (λ id, len id = 32) ids.
Proof.
  revert l. induction ids as [|id ids IH]; simpl; intros l; [by intros [= <-]|].
  destruct (N.eqb_spec (len id) 32); [|done]. simpl.
  destruct (narrow_ids e ids) as [l'|]; [|done]. intros [= <-].
  destruct (IH l' eq_refl) as [-> ?]. auto.
Qed.

(** Each sealed voter is a 32-byte node with a bounded, accepted ticket. *)
Definition voter_sealed (v : VerifiedVoterSeed) : Prop :=
  len (vvs_node_id v) = 32 /\ len (vvs_ticket v) <= MAX_TICKET /\
  check_seed_ticket (vvs_ticket v) (vvs_node_id v) = Ok ().

Lemma seal_voters_Ok seeds l :
  seal_voters seeds = Ok l ->
  Forall voter_sealed l /\
  map (λ v, mk_VoterSeedV1 (vvs_node_id v) (vvs_ticket v)) l = seeds.
Proof.
  revert l. induction seeds as [|seed seeds IH]; simpl; intros l H; [by simplify_eq|].
  repeat case_match; simplify_eq/=; boolean_facts.
  destruct (IH _ eq_refl) as [Hf Hm].
  match goal with H : check_seed_ticket _ _ = Ok ?u |- _ => destruct u end.
  split; [by constructor|]. rewrite Hm. by destruct seed.
Qed.

(** The facts of a founding document. *)
Record genesis_sealed (key domain : bytes) (g : VerifiedGenesis) : Prop := {
  gs_key : vg_authority_public_key g = key;
  gs_domain : vg_authority_domain g = domain;
  gs_hash : vg_genesis_hash g = blake3 (GENESIS_DOMAIN ++ vg_document_bytes g);
  gs_group : len (vg_group_id g) = 32;
  gs_profile : vg_deployment_profile_code g ∈ PROFILES;
  gs_voters : profile_permits_voters (vg_deployment_profile_code g)
    (len (vg_initial_voters g)) = false;
  gs_voters_sorted : StronglySorted (λ a b, bytes_ltb a b = true)
    (map vvs_node_id (vg_initial_voters g));
  gs_voters_sealed : Forall voter_sealed (vg_initial_voters g);
  gs_admins : vg_initial_admins g <> [] /\ len (vg_initial_admins g) <= MAX_ADMINS_PER_GROUP;
  gs_admins_sorted : StronglySorted (λ a b, bytes_ltb a b = true) (vg_initial_admins g);
  gs_admins_width : Forall (λ a, len a = 32) (vg_initial_admins g);
  gs_root_not_admin : key ∉ vg_initial_admins g;
  gs_root_not_voter : key ∉ map vvs_node_id (vg_initial_voters g);
  gs_recovery b : vg_recovery_export_hash g = Some b -> len b = 32;
}.

Lemma seal_genesis_Ok key domain genesis doc g :
  seal_genesis key domain genesis doc = Ok g ->
  genesis_sealed key domain g /\ vg_document_bytes g = doc /\ vg_group_id g = gv_group_id genesis.
Proof.
  unfold seal_genesis, id_from_slice. intros H.
  destruct (negb (gv_format_version genesis =? _)); [done|].
  destruct (_ || _) eqn:Hw; [done|].
  destruct (match gv_recovery_export_hash genesis with Some _ => _ | None => _ end)
    as [rec|] eqn:Hrec; [|done].
  assert (forall b, rec = Some b -> len b = 32) as Hrec32.
  { intros b ->. repeat case_match; simplify_eq/=. by boolean_facts. }
  clear Hrec. destruct (negb (bool_decide (gv_authority_domain _ = _))) eqn:?; [done|].
  destruct (negb (bool_decide (_ ∈ PROFILES))) eqn:?; [done|].
  destruct (profile_permits_voters _ _) eqn:?; [done|].
  destruct (seal_voters _) as [l|] eqn:?; [|done].
  destruct (bool_decide (length l = 0%nat) || _) eqn:?; [done|].
  destruct (narrow_ids _ _) as [admins|] eqn:?; [|done].
  destruct (bool_decide (admins = []) || _ || _) eqn:?; [done|].
  destruct (bool_decide (key ∈ admins)) eqn:?; [done|].
  destruct (existsb _ l) eqn:?; [done|].
  destruct (negb (len (gv_group_id genesis) =? 32)) eqn:?; [done|].
  simplify_eq/=. boolean_facts.
  repeat match goal with
  | H : windows2_all _ _ = true |- _ => apply windows2_all_ltb_Sorted in H
  | H : narrow_ids _ _ = Ok _ |- _ => apply narrow_ids_Ok in H as [-> ?]
  | H : seal_voters _ = Ok _ |- _ => apply seal_voters_Ok in H as [? Hm]
  end.
  assert (key ∉ map vvs_node_id l) as Hroot.
  { intros (v & Hv & Hin)%list_elem_of_In%in_map_iff.
    match goal with H : existsb _ l = false |- _ =>
      pose proof (existsb_false_forall _ _ H v ltac:(by apply list_elem_of_In)) as Hf end.
    by apply bool_decide_eq_false_1 in Hf. }
  split; [|done]. split; simpl; try done.
  - rewrite <- Hm in *. unfold len in *. by rewrite length_map in *.
Qed.
End genesis.

Section genesis_claims.
Context `{Ext : Externals}.

(** What an accepted genesis proves: the sealed bytes carry a signature of
    the configured key over the genesis domain, they are the canonical encoding
    of the document, its domain is the configured one, its hash is derived from
    those bytes, its voter set is sorted, of a size its profile permits, each
    with a validated ticket of its own, its administrators are between one and
    sixty-four, sorted and distinct, and the deployment root is neither a voter
    nor an administrator. *)
Theorem verify_genesis_sound key domain b g :
  verify_genesis key domain b = Ok g ->
  genesis_sealed key domain g /\
  exists envelope genesis,
    fory_decode_signed_document b = Some envelope /\
    sd_document_bytes envelope = vg_document_bytes g /\
    sd_authority_public_key envelope = key /\
    ed25519_verify key (GENESIS_DOMAIN ++ vg_document_bytes g) (sd_signature envelope) = true /\
    fory_decode_genesis (vg_document_bytes g) = Some genesis /\
    fory_encode_genesis genesis = Some (vg_document_bytes g) /\
    vg_group_id g = gv_group_id genesis.
Proof.
  unfold verify_genesis. intros H.
  destruct (fory_decode_signed_document b) as [envelope|]; [|done].
  repeat (case_match; try discriminate H). boolean_facts.
  apply seal_genesis_Ok in H as (Hs & Hd & Hg). split; [done|].
  exists envelope, g0. rewrite Hd. subst. split_and!; congruence.
Qed.

(** What an accepted join permit proves at apply time: the permit is the
    canonical decoding of bytes the group's pinned key signed for the join
    domain, and it names this deployment's domain, this group, this genesis and
    the seeded candidate, with the candidate's addressless ticket and a sorted
    non-empty list of bootstrap senders. *)
Theorem verify_join_permit_sound authority b candidate :
  verify_join_permit authority b candidate = Ok () ->
  exists p doc, permit_opened (ga_public_key authority) b p doc /\
    permit_bound authority candidate p.
Proof. apply verify_join_permit_Ok. Qed.
End genesis_claims.

(** One authority's signature is never two documents: no preimage it signs
    for a join permit is a preimage it signs for a genesis, whatever the
    document bytes. *)
Theorem signing_domains_disjoint doc1 doc2 :
  join_signing_bytes doc1 <> genesis_signing_bytes doc2.
Proof. by unfold join_signing_bytes, genesis_signing_bytes. Qed.

(** A concrete single-voter founding document. *)
Definition sample_root : bytes := replicate 32 Byte.x09.
Definition sample_voter : NodeId := replicate 32 Byte.x07.
Definition sample_admin : NodeId := replicate 32 Byte.x08.
Definition founding_document : GenesisV1 :=
  {| gv_format_version := 1; gv_group_id := replicate 32 Byte.x05;
     gv_authority_domain := [Byte.x64]; gv_genesis_nonce := replicate 32 Byte.x06;
     gv_deployment_profile_code := PROFILE_DEV_SINGLE;
     gv_initial_voters := [mk_VoterSeedV1 sample_voter sample_seed_ticket];
     gv_initial_admins := [mk_NodeIdV1 sample_admin];
     gv_recovery_export_hash := None |}.
Definition founding_permit : JoinPermitV1 :=
  {| jp_format_version := 1; jp_group_id := replicate 32 Byte.x05;
     jp_authority_domain := [Byte.x64]; jp_genesis_hash := replicate 32 Byte.x01;
     jp_candidate_node_id := sample_voter; jp_candidate_ticket := sample_seed_ticket;
     jp_bootstrap_senders := [mk_NodeIdV1 sample_admin];
     jp_join_nonce := replicate 32 Byte.x06 |}.
Definition founding_externals : Externals :=
  sample_externals
    (mk_SignedCoordinationDocumentV1 1 [Byte.x01] sample_root (replicate 64 Byte.x00))
    founding_document founding_permit.
Definition founding_authority : GroupAuthority :=
  {| ga_public_key := sample_root; ga_domain := [Byte.x64];
     ga_group_id := replicate 32 Byte.x05; ga_genesis_hash := replicate 32 Byte.x01 |}.

Lemma verify_genesis_sound_witness :
  exists g, @verify_genesis founding_externals sample_root [Byte.x64] [] = Ok g /\
    vg_initial_admins g = [sample_admin] /\
    @genesis_sealed founding_externals sample_root [Byte.x64] g.
Proof.
  eexists. split; [vm_compute; reflexivity|]. split; [reflexivity|].
  refine (proj1 (@verify_genesis_sound founding_externals sample_root [Byte.x64] [] _ _)).
  vm_compute. reflexivity.
Defined.

Lemma verify_join_permit_sound_witness :
  exists p doc, @permit_bound founding_externals founding_authority sample_voter p /\
    @permit_opened founding_externals sample_root [] p doc.
Proof.
  destruct (@verify_join_permit_sound founding_externals founding_authority [] sample_voter)
    as (p & doc & Ho & Hb).
  - vm_compute. reflexivity.
  - exists p, doc. split; [exact Hb|exact Ho].
Defined.
