(* ===== verification/Resource.v ===== *)
(** * Resource transitions

    Models [aster/src/coordination/model/resource.rs]: the raw and validated
    identities, fences, the six client actions on a resource and the decision
    function of each. A decision is a pure function of the committed state; the
    lemmas give, for every accepted decision, the row before, the guard
    that held and the row after. *)

From S2P Require Import Prelude Reason Ids Limits State Shape.

#[local] Open Scope N_scope.

(** [struct RawResourceKey]. *)
Record RawResourceKey : Type := mk_RawResourceKey {
  raw_namespace : bytes;
  raw_key : bytes;
}.

(** [RawResourceKey::validate]. *)
Definition validate (r : RawResourceKey) : result ResourceKey ShapeLimit :=
  validate_resource_key (raw_namespace r) (raw_key r).

(** [struct Fence]. *)
Record Fence : Type := mk_Fence {
  fe_group : GroupId;
  fe_resource : RawResourceKey;
  fe_epoch : N;
  fe_holder : NodeId;
}.

(** [enum ResourceAction]. *)
Inductive ResourceAction : Type :=
| Acquire (resource : RawResourceKey) (ttl_ms : N)
| Renew (fence : Fence)
| CompareAndSet (fence : Fence) (expected_value_revision : N) (new_value : bytes)
| Release (fence : Fence)
| ReleaseWithValue (fence : Fence) (expected_value_revision : N) (final_value : bytes)
| Revoke (resource : RawResourceKey) (expected_epoch : option N).

(** [ResourceAction::fence]. *)
Definition action_fence (a : ResourceAction) : option Fence :=
  match a with
  | Renew fence | CompareAndSet fence _ _ | Release fence | ReleaseWithValue fence _ _ =>
      Some fence
  | Acquire _ _ | Revoke _ _ => None
  end.

(** [ResourceAction::raw_resource]. *)
Definition raw_resource (a : ResourceAction) : RawResourceKey :=
  match a with
  | Acquire resource _ | Revoke resource _ => resource
  | Renew fence | CompareAndSet fence _ _ | Release fence | ReleaseWithValue fence _ _ =>
      fe_resource fence
  end.

(** [ResourceAction::is_safety_reducing]. *)
Definition is_safety_reducing (a : ResourceAction) (current_value_len : N) : bool :=
  match a with
  | Release _ | Revoke _ _ => true
  | ReleaseWithValue _ _ final_value => len final_value <=? current_value_len
  | Acquire _ _ | Renew _ | CompareAndSet _ _ _ => false
  end.

(** [struct ResourceEffect]. *)
Record ResourceEffect : Type := mk_ResourceEffect {
  re_key : ResourceKey;
  re_row : ResourceRow;
  re_outcome : Outcome;
  re_creates_resource : bool;
}.

(** [resource::Decision]. *)
Inductive ResourceDecision : Type :=
| RD_Apply (effect : ResourceEffect)
| RD_Refuse (reason : RefusalReason)
| RD_RefuseShapeless (limit : ShapeLimit).

(** [required_rights]. *)
Definition required_rights (a : ResourceAction) : N :=
  match a with
  | Acquire _ _ => RIGHT_ACQUIRE
  | Renew _ => RIGHT_RENEW
  | CompareAndSet _ _ _ => RIGHT_MUTATE
  | Release _ => RIGHT_RELEASE
  | ReleaseWithValue _ _ _ => N.lor RIGHT_RELEASE RIGHT_MUTATE
  | Revoke _ _ => RIGHT_REVOKE
  end.

(** [granted_rights]. *)
Definition granted_rights (state : State) (resource : ResourceKey) (actor : NodeId) : N :=
  default 0 (st_acl state !! (resource, actor)).

(** [counters_have_room]. *)
Definition counters_have_room (counters : list N) : bool :=
  forallb (λ c, c <? MAX_COUNTER) counters.

(** [growth_fits]. *)
Definition resource_growth_fits (state : State) (key : ResourceKey) (old_len : option N)
    (new_len : N) : bool :=
  let old := from_option (charge_resource (rk_namespace key) (rk_key key)) 0 old_len in
  let new := charge_resource (rk_namespace key) (rk_key key) new_len in
  if new <=? old then true
  else u64_saturating_add (st_growth_bytes state) (new - old) <=? GROWTH_BUDGET.

(** [check_shape]. *)
Definition check_shape (a : ResourceAction) : option ShapeLimit :=
  let value := match a with
               | CompareAndSet _ _ new_value => Some new_value
               | ReleaseWithValue _ _ final_value => Some final_value
               | Acquire _ _ | Renew _ | Release _ | Revoke _ _ => None
               end in
  match value ≫= check_value with
  | Some limit => Some limit
  | None =>
      match a with
      | Acquire _ ttl_ms => check_ttl ttl_ms
      | _ => None
      end
  end.

(** [check_fence]. *)
Definition check_fence (actor : NodeId) (row : ResourceRow) (fence : Fence)
    : option RefusalReason :=
  if negb (rr_held row) then Some NotHeld
  else if negb (bool_decide (fe_holder fence = actor))
       || negb (bool_decide (rr_holder row = Some actor))
  then Some NotHolder
  else if negb (rr_epoch row =? fe_epoch fence) then Some EpochMismatch
  else None.

(** The row a lease-ending transition writes: cleared holder, both lease
    counters advanced, with the given value and value revision. *)
Definition cleared_lease (row : ResourceRow) (value : bytes) (value_revision : N) : ResourceRow :=
  {| rr_epoch := u64_add (rr_epoch row) 1;
     rr_held := false;
     rr_holder := None;
     rr_ttl_ms := rr_ttl_ms row;
     rr_lease_revision := u64_add (rr_lease_revision row) 1;
     rr_value_revision := value_revision;
     rr_value := value;
     rr_acl_revision := rr_acl_revision row |}.

(** [decide_acquire]. *)
Definition decide_acquire (state : State) (actor : NodeId) (key : ResourceKey)
    (existing : option ResourceRow) (ttl_ms : N) : ResourceDecision :=
  let row := default ResourceRow_default existing in
  let creates := bool_decide (existing = None) in
  if rr_held row then RD_Refuse HeldByOther
  else if creates && (MAX_RESOURCES_PER_GROUP <=? N.of_nat (size (st_resources state)))
  then RD_Refuse ResourceSlotsExhausted
  else if creates && negb (resource_growth_fits state key None 0)
  then RD_Refuse StateBudgetExhausted
  else if negb (counters_have_room [rr_epoch row; rr_lease_revision row])
  then RD_Refuse CounterExhausted
  else RD_Apply
    {| re_key := key;
       re_row :=
         {| rr_epoch := u64_add (rr_epoch row) 1;
            rr_held := true;
            rr_holder := Some actor;
            rr_ttl_ms := ttl_ms;
            rr_lease_revision := u64_add (rr_lease_revision row) 1;
            rr_value_revision := rr_value_revision row;
            rr_value := rr_value row;
            rr_acl_revision := rr_acl_revision row |};
       re_outcome := O_Granted;
       re_creates_resource := creates |}.

(** [decide_renew]. *)
Definition decide_renew (actor : NodeId) (key : ResourceKey) (existing : option ResourceRow)
    (fence : Fence) : ResourceDecision :=
  match existing with
  | None => RD_Refuse NotHeld
  | Some row =>
      match check_fence actor row fence with
      | Some reason => RD_Refuse reason
      | None =>
          if negb (counters_have_room [rr_lease_revision row]) then RD_Refuse CounterExhausted
          else RD_Apply
            {| re_key := key;
               re_row :=
                 {| rr_epoch := rr_epoch row;
                    rr_held := rr_held row;
                    rr_holder := rr_holder row;
                    rr_ttl_ms := rr_ttl_ms row;
                    rr_lease_revision := u64_add (rr_lease_revision row) 1;
                    rr_value_revision := rr_value_revision row;
                    rr_value := rr_value row;
                    rr_acl_revision := rr_acl_revision row |};
               re_outcome := O_Renewed;
               re_creates_resource := false |}
      end
  end.

(** [decide_compare_and_set]. *)
Definition decide_compare_and_set (state : State) (actor : NodeId) (key : ResourceKey)
    (existing : option ResourceRow) (fence : Fence) (expected_value_revision : N)
    (new_value : bytes) : ResourceDecision :=
  match existing with
  | None => RD_Refuse NotHeld
  | Some row =>
      match check_fence actor row fence with
      | Some reason => RD_Refuse reason
      | None =>
          if negb (rr_value_revision row =? expected_value_revision)
          then RD_Refuse ValueRevisionMismatch
          else if negb (resource_growth_fits state key (Some (len (rr_value row))) (len new_value))
          then RD_Refuse StateBudgetExhausted
          else if negb (counters_have_room [rr_value_revision row])
          then RD_Refuse CounterExhausted
          else RD_Apply
            {| re_key := key;
               re_row :=
                 {| rr_epoch := rr_epoch row;
                    rr_held := rr_held row;
                    rr_holder := rr_holder row;
                    rr_ttl_ms := rr_ttl_ms row;
                    rr_lease_revision := rr_lease_revision row;
                    rr_value_revision := u64_add (rr_value_revision row) 1;
                    rr_value := new_value;
                    rr_acl_revision := rr_acl_revision row |};
               re_outcome := O_Mutated;
               re_creates_resource := false |}
      end
  end.

(** [decide_release]. *)
Definition decide_release (actor : NodeId) (key : ResourceKey) (existing : option ResourceRow)
    (fence : Fence) : ResourceDecision :=
  match existing with
  | None => RD_Refuse NotHeld
  | Some row =>
      match check_fence actor row fence with
      | Some reason => RD_Refuse reason
      | None =>
          if negb (counters_have_room [rr_epoch row; rr_lease_revision row])
          then RD_Refuse CounterExhausted
          else RD_Apply
            (mk_ResourceEffect key (cleared_lease row (rr_value row) (rr_value_revision row))
               O_Released false)
      end
  end.

(** [decide_release_with_value]. *)
Definition decide_release_with_value (state : State) (actor : NodeId) (key : ResourceKey)
    (existing : option ResourceRow) (fence : Fence) (expected_value_revision : N)
    (final_value : bytes) (action : ResourceAction) : ResourceDecision :=
  match existing with
  | None => RD_Refuse NotHeld
  | Some row =>
      match check_fence actor row fence with
      | Some reason => RD_Refuse reason
      | None =>
          if negb (rr_value_revision row =? expected_value_revision)
          then RD_Refuse ValueRevisionMismatch
          else if negb (is_safety_reducing action (len (rr_value row)))
               && negb (resource_growth_fits state key (Some (len (rr_value row)))
                          (len final_value))
          then RD_Refuse StateBudgetExhausted
          else if negb (counters_have_room
                          [rr_epoch row; rr_lease_revision row; rr_value_revision row])
          then RD_Refuse CounterExhausted
          else RD_Apply
            (mk_ResourceEffect key
               (cleared_lease row final_value (u64_add (rr_value_revision row) 1))
               O_Released false)
      end
  end.

(** [decide_revoke]. *)
Definition decide_revoke (key : ResourceKey) (existing : option ResourceRow)
    (expected_epoch : option N) : ResourceDecision :=
  match existing with
  | None => RD_Refuse NotHeld
  | Some row =>
      if from_option (λ expected, negb (rr_epoch row =? expected)) false expected_epoch
      then RD_Refuse EpochMismatch
      else if negb (counters_have_room [rr_epoch row; rr_lease_revision row])
      then RD_Refuse CounterExhausted
      else RD_Apply
        (mk_ResourceEffect key (cleared_lease row (rr_value row) (rr_value_revision row))
           O_Revoked false)
  end.

(** [resource::decide]. *)
Definition resource_decide (state : State) (actor : NodeId) (action : ResourceAction)
    : ResourceDecision :=
  match validate (raw_resource action) with
  | Err limit => RD_RefuseShapeless limit
  | Ok key =>
      match check_shape action with
      | Some limit => RD_RefuseShapeless limit
      | None =>
          let existing := st_resources state !! key in
          let needed := required_rights action in
          if negb (N.land (granted_rights state key actor) needed =? needed)
          then RD_Refuse PermissionChanged
          else if from_option
                    (λ fence, negb (bool_decide (fe_group fence = ga_group_id (st_authority state))))
                    false (action_fence action)
          then RD_Refuse EpochMismatch
          else match action with
          | Acquire _ ttl_ms => decide_acquire state actor key existing ttl_ms
          | Renew fence => decide_renew actor key existing fence
          | CompareAndSet fence expected_value_revision new_value =>
              decide_compare_and_set state actor key existing fence expected_value_revision new_value
          | Release fence => decide_release actor key existing fence
          | ReleaseWithValue fence expected_value_revision final_value =>
              decide_release_with_value state actor key existing fence expected_value_revision
                final_value action
          | Revoke _ expected_epoch => decide_revoke key existing expected_epoch
          end
      end
  end.

(** ** What a transition may do to a row *)

(** The well-formed rows. *)
Record row_ok (r : ResourceRow) : Prop := {
  rok_held : rr_held r = true <-> is_Some (rr_holder r);
  rok_ttl : MIN_TTL_MS <= rr_ttl_ms r <= MAX_TTL_MS \/ (rr_held r = false /\ rr_ttl_ms r = 0);
  rok_epoch : rr_epoch r <= MAX_COUNTER;
  rok_lease : rr_lease_revision r <= MAX_COUNTER;
  rok_value_revision : rr_value_revision r <= MAX_COUNTER;
  rok_acl : rr_acl_revision r <= MAX_COUNTER;
  rok_value : len (rr_value r) <= MAX_VALUE;
}.

(** Every counter is monotone, and the holder is fixed while the epoch is. *)
Record row_advance (old new : ResourceRow) : Prop := {
  ra_epoch : rr_epoch old <= rr_epoch new;
  ra_lease : rr_lease_revision old <= rr_lease_revision new;
  ra_value : rr_value_revision old <= rr_value_revision new;
  ra_acl : rr_acl_revision old <= rr_acl_revision new;
  ra_fence : rr_epoch new = rr_epoch old ->
    rr_held new = rr_held old /\ rr_holder new = rr_holder old;
}.

#[export] Instance row_advance_preorder : PreOrder row_advance.
Proof.
  split; [by split|]. intros a b c [? ? ? ? H1] [? ? ? ? H2]. split; [lia..|].
  intros Hac. destruct H1, H2; [lia..|]. split; congruence.
Qed.

Lemma row_ok_default : row_ok ResourceRow_default.
Proof.
  split; simpl; try (vm_compute; done); [|by right]. split; [done|]. by intros [??].
Qed.

Lemma counters_have_room_spec l : counters_have_room l = true <-> Forall (λ c, c < MAX_COUNTER) l.
Proof.
  unfold counters_have_room. rewrite forallb_forall, Forall_forall.
  split; intros H x Hx; specialize (H x Hx); by apply N.ltb_lt.
Qed.

Lemma counter_step c : c < MAX_COUNTER -> u64_add c 1 = c + 1.
Proof. intros H. apply u64_add_small. unfold MAX_COUNTER, U64_MODULUS in *. lia. Qed.

Lemma cleared_lease_ok row value vr :
  row_ok row -> len value <= MAX_VALUE -> vr <= MAX_COUNTER -> rr_value_revision row <= vr ->
  rr_epoch row < MAX_COUNTER -> rr_lease_revision row < MAX_COUNTER ->
  row_ok (cleared_lease row value vr) /\ row_advance row (cleared_lease row value vr).
Proof.
  intros [] ?????. unfold cleared_lease. split; split; simpl; rewrite ?counter_step by done;
    try done; try lia; naive_solver.
Qed.

Lemma check_fence_None actor row fence :
  check_fence actor row fence = None ->
  rr_held row = true /\ rr_holder row = Some actor /\ fe_holder fence = actor /\
  rr_epoch row = fe_epoch fence.
Proof. unfold check_fence. intros H. repeat case_match; boolean_facts; simplify_eq; auto. Qed.

(** The outcome an accepted action reports. *)
Definition resource_outcome (a : ResourceAction) : Outcome :=
  match a with
  | Acquire _ _ => O_Granted
  | Renew _ => O_Renewed
  | CompareAndSet _ _ _ => O_Mutated
  | Release _ | ReleaseWithValue _ _ _ => O_Released
  | Revoke _ _ => O_Revoked
  end.

(** The guards an accepted action passed, against the committed row. *)
Record resource_accepted (st : State) (actor : NodeId) (a : ResourceAction)
    (e : ResourceEffect) : Prop := {
  rac_key : validate (raw_resource a) = Ok (re_key e);
  rac_shape : check_shape a = None;
  rac_rights : N.land (granted_rights st (re_key e) actor) (required_rights a)
               = required_rights a;
  rac_creates : re_creates_resource e = bool_decide (st_resources st !! re_key e = None);
  rac_outcome : re_outcome e = resource_outcome a;
  rac_fence f : action_fence a = Some f ->
    fe_group f = ga_group_id (st_authority st) /\
    exists row, st_resources st !! re_key e = Some row /\ rr_held row = true /\
      rr_holder row = Some actor /\ fe_holder f = actor /\ rr_epoch row = fe_epoch f;
  rac_slot : st_resources st !! re_key e = None ->
    N.of_nat (size (st_resources st)) < MAX_RESOURCES_PER_GROUP;
  rac_growth :
    let charge r := resource_row_charge (re_key e) r in
    let old := from_option charge 0 (st_resources st !! re_key e) in
    old < charge (re_row e) ->
    u64_saturating_add (st_growth_bytes st) (charge (re_row e) - old) <= GROWTH_BUDGET;
}.

Lemma resource_growth_fits_spec st key old n :
  resource_growth_fits st key old n = true ->
  let o := from_option (charge_resource (rk_namespace key) (rk_key key)) 0 old in
  let c := charge_resource (rk_namespace key) (rk_key key) n in
  o < c -> u64_saturating_add (st_growth_bytes st) (c - o) <= GROWTH_BUDGET.
Proof.
  unfold resource_growth_fits. simpl. intros H Hlt.
  rewrite (proj2 (N.leb_gt _ _) Hlt) in H. by apply N.leb_le.
Qed.

(** An accepting decision function: how the branch of [resource_decide] ends. *)
Ltac accepted_branch :=
  repeat match goal with
  | H : context [match ?x with _ => _ end] |- _ => destruct x eqn:?; try discriminate H
  end.

Lemma resource_decide_accepted st actor a e :
  resource_decide st actor a = RD_Apply e -> resource_accepted st actor a e.
Proof.
  unfold resource_decide, decide_acquire, decide_renew, decide_compare_and_set, decide_release,
    decide_release_with_value, decide_revoke.
  destruct (validate (raw_resource a)) as [key|] eqn:Hkey; [|done].
  destruct (check_shape a) eqn:Hshape; [done|].
  destruct (negb (_ =? required_rights a)) eqn:Hr; [done|].
  destruct (from_option _ _ (action_fence a)) eqn:Hg; [done|]. boolean_facts.
  assert (forall f, action_fence a = Some f -> fe_group f = ga_group_id (st_authority st)) as Hgroup.
  { intros f Hf. rewrite Hf in Hg. simpl in Hg. by boolean_facts. }
  clear Hg. intros H. destruct a; simpl in *.
  1:{ repeat (case_match; try discriminate H). simplify_eq/=. boolean_facts.
      split; try done; simpl.
      - intros Hn. rewrite Hn in *. rewrite bool_decide_eq_true_2 in * by done. simpl in *.
        by boolean_facts.
      - destruct (st_resources st !! key) as [row|] eqn:Hrow; simpl.
        + unfold resource_row_charge. simpl. lia.
        + rewrite bool_decide_eq_true_2 in * by done. simpl in *. boolean_facts.
          by eapply (resource_growth_fits_spec st key None). }
  all: destruct (st_resources st !! key) as [row|] eqn:Hrow; [|done].
  all: try (destruct (check_fence actor row fence) eqn:Hf; [done|];
            apply check_fence_None in Hf as (? & ? & ? & ?)).
  all: repeat (case_match; try discriminate H); simplify_eq/=; boolean_facts.
  all: split; simpl; rewrite ?Hrow; try done;
    try (by intros ? [= <-]; split; [auto|eauto 10]);
    try (unfold resource_row_charge; simpl; lia).
  - by eapply (resource_growth_fits_spec st key (Some _)).
  - unfold resource_row_charge; simpl; intros Hlt.
    match goal with H : _ && _ = false |- _ => apply andb_false_iff in H as [Hs|Hs] end;
      boolean_facts.
    + unfold charge_resource in Hlt. lia.
    + by eapply (resource_growth_fits_spec st key (Some _)).
Qed.

Lemma check_ttl_None ttl : check_ttl ttl = None -> MIN_TTL_MS <= ttl <= MAX_TTL_MS.
Proof. unfold check_ttl, then_some. case_match; [done|]. boolean_facts. done. Qed.

Lemma check_value_None value : check_value value = None -> len value <= MAX_VALUE.
Proof. unfold check_value, then_some. case_match; [done|]. by boolean_facts. Qed.

(** Every accepted action takes a well-formed row to a well-formed row that
    advances it. *)
Lemma resource_decide_row st actor a e :
  resource_decide st actor a = RD_Apply e ->
  row_ok (default ResourceRow_default (st_resources st !! re_key e)) ->
  row_ok (re_row e) /\
  row_advance (default ResourceRow_default (st_resources st !! re_key e)) (re_row e).
Proof.
  unfold resource_decide, decide_acquire, decide_renew, decide_compare_and_set, decide_release,
    decide_release_with_value, decide_revoke.
  destruct (validate (raw_resource a)) as [key|]; [|done].
  destruct (check_shape a) eqn:Hshape; [done|].
  destruct (negb (_ =? required_rights a)); [done|].
  destruct (from_option _ _ (action_fence a)); [done|].
  intros H. destruct a; simpl in *.
  1:{ repeat (case_match; try discriminate H). simplify_eq/=. boolean_facts.
      unfold check_shape in Hshape. simpl in Hshape. apply check_ttl_None in Hshape.
      generalize dependent (default ResourceRow_default (st_resources st !! key)).
      intros row Hheld ?? []. split; split; simpl; rewrite ?counter_step by done; eauto; try lia.
      by split; eauto. }
  all: destruct (st_resources st !! key) as [row|] eqn:Hrow; [|done].
  all: try (destruct (check_fence actor row fence) eqn:Hf; [done|];
            apply check_fence_None in Hf as (? & ? & ? & ?)).
  all: repeat (case_match; try discriminate H); simplify_eq/=; boolean_facts.
  all: rewrite ?Hrow; simpl; unfold check_shape in Hshape; simpl in Hshape.
  all: try (destruct (check_value _) eqn:Hv in Hshape; [done|apply check_value_None in Hv]).
  all: intros Hok; try (apply cleared_lease_ok; try done; try apply Hok;
         rewrite ?counter_step by done; lia).
  all: destruct Hok; split; split; simpl; rewrite ?counter_step by done; try done; lia.
Qed.
