(* ===== verification/Grant.v ===== *)
(** * Granting rights and administration

    Models [aster/src/coordination/model/grant.rs]: [set_grant] with its holder
    fence, change detection, capacity rules and lazily created resource row, and [model/admin.rs].
    The lemmas give the guards of an accepted grant and what it writes. *)

From S2P Require Import Prelude Reason Ids Limits State Shape Resource.

#[local] Open Scope N_scope.

(** [struct GrantAction]. *)
Record GrantAction : Type := mk_GrantAction {
  gra_resource : RawResourceKey;
  gra_subject : NodeId;
  gra_rights : N;
  gra_expected_acl_revision : N;
}.

(** [struct GrantEffect]. *)
Record GrantEffect : Type := mk_GrantEffect {
  gre_key : ResourceKey;
  gre_subject : NodeId;
  gre_row : ResourceRow;
  gre_creates_resource : bool;
  gre_rights : option N;
  gre_creates_acl_row : bool;
  gre_fenced : bool;
}.

(** [grant::Decision]. *)
Inductive GrantDecision : Type :=
| GD_Apply (effect : GrantEffect)
| GD_NoOp (acl_revision : N)
| GD_Refuse (reason : RefusalReason)
| GD_RefuseShapeless (limit : ShapeLimit).

(** [grants_on]. *)
Definition grants_on (state : State) (key : ResourceKey) : N :=
  mcount (λ k _, bool_decide (k.1 = key)) (st_acl state).

(** [growth_fits]. *)
Definition grant_growth_fits (state : State) (key : ResourceKey)
    (creates_resource creates_acl_row : bool) : bool :=
  let added :=
    (if creates_resource then charge_resource (rk_namespace key) (rk_key key) 0 else 0)
    + (if creates_acl_row then charge_acl (rk_namespace key) (rk_key key) else 0) in
  if added =? 0 then true
  else u64_saturating_add (st_growth_bytes state) added <=? GROWTH_BUDGET.

(** The holder loses a right its lease depends on:
    [before & LEASE_SUSTAINING_RIGHTS & !after != 0]. *)
Definition loses_sustaining_right (before after : N) : bool :=
  negb (N.ldiff (N.land before LEASE_SUSTAINING_RIGHTS) after =? 0).

(** [fences] of [grant::decide]. *)
Definition grant_fences (existing_resource : option ResourceRow) (existing_rights : option N)
    (subject : NodeId) (rights : N) : bool :=
  from_option
    (λ row, rr_held row && bool_decide (rr_holder row = Some subject)
            && from_option (λ before, loses_sustaining_right before rights) false existing_rights)
    false existing_resource.

(** The counters checked together before any of them moves. *)
Definition grant_counters (existing_resource : option ResourceRow) (current_revision : N)
    (fences : bool) : list N :=
  current_revision ::
    (if fences
     then from_option (λ row, [rr_epoch row; rr_lease_revision row]) [] existing_resource
     else []).

(** The row an accepted grant writes. *)
Definition grant_row (existing_resource : option ResourceRow) (current_revision : N)
    (fences : bool) : ResourceRow :=
  let row := default ResourceRow_default existing_resource in
  {| rr_epoch := if fences then u64_add (rr_epoch row) 1 else rr_epoch row;
     rr_held := if fences then false else rr_held row;
     rr_holder := if fences then None else rr_holder row;
     rr_ttl_ms := rr_ttl_ms row;
     rr_lease_revision :=
       if fences then u64_add (rr_lease_revision row) 1 else rr_lease_revision row;
     rr_value_revision := rr_value_revision row;
     rr_value := rr_value row;
     rr_acl_revision := u64_add current_revision 1 |}.

(** [grant::decide]. *)
Definition grant_decide (state : State) (actor : NodeId) (action : GrantAction) : GrantDecision :=
  match validate (gra_resource action) with
  | Err limit => GD_RefuseShapeless limit
  | Ok key =>
      match check_rights (gra_rights action) with
      | Some limit => GD_RefuseShapeless limit
      | None =>
          let existing_resource := st_resources state !! key in
          let current_revision := from_option rr_acl_revision 0 existing_resource in
          let existing_rights := st_acl state !! (key, gra_subject action) in
          let removing := gra_rights action =? 0 in
          let changes := if removing then bool_decide (is_Some existing_rights)
                         else negb (bool_decide (existing_rights = Some (gra_rights action))) in
          let fences := grant_fences existing_resource existing_rights (gra_subject action)
                          (gra_rights action) in
          let creates_resource := bool_decide (existing_resource = None) && negb removing in
          let creates_acl_row := bool_decide (existing_rights = None) && negb removing in
          if negb (is_administrator state actor) then GD_Refuse PermissionChanged
          else if negb (gra_expected_acl_revision action =? current_revision)
          then GD_Refuse AclRevisionMismatch
          else if negb changes then GD_NoOp current_revision
          else if negb (counters_have_room
                          (grant_counters existing_resource current_revision fences))
          then GD_Refuse CounterExhausted
          else if negb removing && creates_resource
               && (MAX_RESOURCES_PER_GROUP <=? N.of_nat (size (st_resources state)))
          then GD_Refuse ResourceSlotsExhausted
          else if negb removing && creates_acl_row
               && ((MAX_ACL_ROWS_PER_GROUP <=? N.of_nat (size (st_acl state)))
                   || (MAX_GRANTS_PER_RESOURCE <=? grants_on state key))
          then GD_Refuse AclSlotsExhausted
          else if negb removing && negb (grant_growth_fits state key creates_resource creates_acl_row)
          then GD_Refuse StateBudgetExhausted
          else GD_Apply
            {| gre_key := key;
               gre_subject := gra_subject action;
               gre_row := grant_row existing_resource current_revision fences;
               gre_creates_resource := creates_resource;
               gre_rights := if removing then None else Some (gra_rights action);
               gre_creates_acl_row := creates_acl_row;
               gre_fenced := fences |}
      end
  end.

(** ** Lemmas *)

(** The guards an accepted [set_grant] passed. *)
Record grant_accepted (st : State) (actor : NodeId) (a : GrantAction) (e : GrantEffect) : Prop := {
  gac_key : validate (gra_resource a) = Ok (gre_key e);
  gac_subject : gre_subject e = gra_subject a;
  gac_known : rights_are_known (gra_rights a) = true;
  gac_admin : is_administrator st actor = true;
  gac_revision : gra_expected_acl_revision a =
    from_option rr_acl_revision 0 (st_resources st !! gre_key e);
  gac_rights : gre_rights e = if gra_rights a =? 0 then None else Some (gra_rights a);
  gac_removes : gre_rights e = None -> is_Some (st_acl st !! (gre_key e, gre_subject e));
  gac_changes : st_acl st !! (gre_key e, gre_subject e) <> gre_rights e;
  gac_fenced : gre_fenced e =
    grant_fences (st_resources st !! gre_key e) (st_acl st !! (gre_key e, gre_subject e))
      (gre_subject e) (gra_rights a);
  gac_row : gre_row e =
    grant_row (st_resources st !! gre_key e)
      (from_option rr_acl_revision 0 (st_resources st !! gre_key e)) (gre_fenced e);
  gac_counters : Forall (λ c, c < MAX_COUNTER)
    (grant_counters (st_resources st !! gre_key e)
      (from_option rr_acl_revision 0 (st_resources st !! gre_key e)) (gre_fenced e));
  gac_creates_acl : gre_creates_acl_row e =
    bool_decide (st_acl st !! (gre_key e, gre_subject e) = None) && bool_decide (is_Some (gre_rights e));
  gac_slot : gre_rights e <> None -> st_resources st !! gre_key e = None ->
    N.of_nat (size (st_resources st)) < MAX_RESOURCES_PER_GROUP;
  gac_acl_slot : gre_creates_acl_row e = true ->
    N.of_nat (size (st_acl st)) < MAX_ACL_ROWS_PER_GROUP /\
    grants_on st (gre_key e) < MAX_GRANTS_PER_RESOURCE;
  gac_growth : gre_rights e <> None ->
    let added :=
      (if bool_decide (st_resources st !! gre_key e = None)
       then charge_resource (rk_namespace (gre_key e)) (rk_key (gre_key e)) 0 else 0)
      + (if gre_creates_acl_row e then charge_acl (rk_namespace (gre_key e)) (rk_key (gre_key e))
         else 0) in
    0 < added -> u64_saturating_add (st_growth_bytes st) added <= GROWTH_BUDGET;
}.

Lemma check_rights_None r : check_rights r = None -> rights_are_known r = true.
Proof. unfold check_rights, then_some. case_match; [done|]. by boolean_facts. Qed.

Lemma grant_decide_accepted st actor a e :
  grant_decide st actor a = GD_Apply e -> grant_accepted st actor a e.
Proof.
  unfold grant_decide. destruct (validate (gra_resource a)) as [key|] eqn:Hkey; [|done].
  destruct (check_rights (gra_rights a)) eqn:Hr; [done|]. apply check_rights_None in Hr.
  destruct (negb (is_administrator st actor)) eqn:Ha; [done|].
  destruct (negb (gra_expected_acl_revision a =? _)) eqn:He; [done|].
  destruct (negb (if gra_rights a =? 0 then _ else _)) eqn:Hc; [done|].
  destruct (negb (counters_have_room _)) eqn:Hn; [done|].
  destruct (_ && (MAX_RESOURCES_PER_GROUP <=? _)) eqn:Hs; [done|].
  destruct (_ && ((MAX_ACL_ROWS_PER_GROUP <=? _) || _)) eqn:Hs2; [done|].
  destruct (_ && negb (grant_growth_fits _ _ _ _)) eqn:Hg; [done|].
  intros [= <-]. boolean_facts. rewrite counters_have_room_spec in Hn.
  destruct (gra_rights a =? 0) eqn:Hz; simpl in *; boolean_facts.
  - rewrite Hz in Hn. split; simpl; rewrite ?Hz, ?andb_false_r; try done;
      try (intros Hx; by destruct Hx).
    intros Heq. destruct Hc as [? Hx]. congruence.
  - rewrite !andb_true_r in *.
    assert ((gra_rights a =? 0) = false) as Hzb by (by apply N.eqb_neq).
    split; simpl; rewrite ?Hzb, ?andb_true_r; try done.
    + intros _ Hnone. rewrite bool_decide_eq_true_2 in Hs by done. simpl in Hs. by boolean_facts.
    + intros Hnone. rewrite Hnone in Hs2. simpl in Hs2. by boolean_facts.
    + intros _. unfold grant_growth_fits in Hg. intros Hpos.
      destruct (_ =? 0) eqn:Hz0 in Hg; boolean_facts; [lia|done].
Qed.

(** The row an accepted grant writes is well formed and advances the old one. *)
Lemma grant_row_ok old fences subject before rights :
  row_ok (default ResourceRow_default old) ->
  fences = grant_fences old before subject rights ->
  Forall (λ c, c < MAX_COUNTER)
    (grant_counters old (from_option rr_acl_revision 0 old) fences) ->
  row_ok (grant_row old (from_option rr_acl_revision 0 old) fences) /\
  row_advance (default ResourceRow_default old)
    (grant_row old (from_option rr_acl_revision 0 old) fences).
Proof.
  intros Hok Hf Hc. unfold grant_counters in Hc. apply Forall_cons_iff in Hc as [Ha Hc].
  assert (from_option rr_acl_revision 0 old = rr_acl_revision (default ResourceRow_default old))
    as Hrev by (by destruct old).
  rewrite Hrev in *. destruct fences.
  - destruct old as [row|]; [|done]. simpl in *.
    apply Forall_cons_iff in Hc as [He Hc]. apply Forall_cons_iff in Hc as [Hl _].
    destruct Hok. split; split; simpl; rewrite ?counter_step by done; try done; lia.
  - destruct Hok. split; split; simpl; rewrite ?counter_step by done; try done; lia.
Qed.

(** ** The administrator set

    Models [aster/src/coordination/model/admin.rs]: [set_admin], with the
    immutable root, the revision fence, the no-op rule and the final-administrator
    rule. *)

(** [struct AdminAction]. *)
Record AdminAction : Type := mk_AdminAction {
  ada_target : NodeId;
  ada_enabled : bool;
  ada_expected_admin_revision : N;
}.

(** [struct AdminEffect]. *)
Record AdminEffect : Type := mk_AdminEffect {
  ade_target : NodeId;
  ade_enabled : bool;
  ade_admin_revision : N;
}.

(** [admin::Decision]. *)
Inductive AdminDecision : Type :=
| AD_Apply (effect : AdminEffect)
| AD_NoOp (admin_revision : N)
| AD_Refuse (reason : RefusalReason).

(** [admin::decide]. *)
Definition admin_decide (state : State) (actor : NodeId) (action : AdminAction) : AdminDecision :=
  let is_admin := bool_decide (ada_target action ∈ st_admins state) in
  if negb (is_administrator state actor) then AD_Refuse PermissionChanged
  else if is_root state (ada_target action) then AD_Refuse RootAuthorityImmutable
  else if negb (ada_expected_admin_revision action =? st_admin_revision state)
  then AD_Refuse AdminRevisionMismatch
  else if eqb is_admin (ada_enabled action) then AD_NoOp (st_admin_revision state)
  else
    let refusal :=
      if negb (ada_enabled action) then
        if N.of_nat (size (st_admins state)) <=? 1 then Some LastAdministrator else None
      else if negb (state_growth_fits state charge_admin) then Some StateBudgetExhausted
      else if MAX_ADMINS_PER_GROUP <=? N.of_nat (size (st_admins state))
      then Some AclSlotsExhausted
      else None in
    match refusal with
    | Some reason => AD_Refuse reason
    | None =>
        if MAX_COUNTER <=? st_admin_revision state then AD_Refuse CounterExhausted
        else AD_Apply
          {| ade_target := ada_target action;
             ade_enabled := ada_enabled action;
             ade_admin_revision := u64_add (st_admin_revision state) 1 |}
    end.

(** The guards an accepted [set_admin] passed. *)
Record admin_accepted (st : State) (actor : NodeId) (a : AdminAction) (e : AdminEffect) : Prop := {
  adc_admin : is_administrator st actor = true;
  adc_target : ade_target e = ada_target a;
  adc_enabled : ade_enabled e = ada_enabled a;
  adc_not_root : ade_target e <> ga_public_key (st_authority st);
  adc_revision : ada_expected_admin_revision a = st_admin_revision st;
  adc_changes : ade_target e ∈ st_admins st <-> ade_enabled e = false;
  adc_room : st_admin_revision st < MAX_COUNTER;
  adc_next : ade_admin_revision e = st_admin_revision st + 1;
  adc_last : ade_enabled e = false -> 1 < N.of_nat (size (st_admins st));
  adc_cap : ade_enabled e = true -> N.of_nat (size (st_admins st)) < MAX_ADMINS_PER_GROUP;
  adc_growth : ade_enabled e = true ->
    u64_saturating_add (st_growth_bytes st) charge_admin <= GROWTH_BUDGET;
}.

Lemma admin_decide_accepted st actor a e :
  admin_decide st actor a = AD_Apply e -> admin_accepted st actor a e.
Proof.
  unfold admin_decide, is_root, state_growth_fits. intros H.
  destruct (is_administrator st actor) eqn:Hadm; [|done]. simpl in H.
  destruct (bool_decide (ada_target a = _)) eqn:Hroot; [done|].
  destruct (ada_expected_admin_revision a =? _) eqn:Hrev; [|done]. simpl in H.
  destruct (bool_decide (_ ∈ _)) eqn:Hin, (ada_enabled a) eqn:He; simpl in H; try done.
  all: repeat (case_match; try discriminate H); simplify_eq/=; boolean_facts.
  all: split; simpl; try done; try congruence.
  all: apply u64_add_small; unfold MAX_COUNTER, U64_MODULUS in *; lia.
Qed.
