(* ===== verification/Retire.v ===== *)
(** * Retiring a client, and the expiry of a lease

    Models [aster/src/coordination/model/retire.rs]: the sessionless
    [retire_client], which turns a session into a tombstone or creates one; and [model/expire.rs]. *)

From S2P Require Import Prelude Reason Ids Contract Limits State Resource.

#[local] Open Scope N_scope.

(** [struct RetireCommand]. *)
Record RetireCommand : Type := mk_RetireCommand {
  rc_actor : NodeId;
  rc_target_actor : NodeId;
  rc_target_client_id : ClientId;
}.

(** [enum RetireEffect]. *)
Inductive RetireEffect : Type :=
| Convert
| CreateTombstone
| AlreadyRetired.

(** [retire::Decision]. *)
Inductive RetireDecision : Type :=
| RT_Apply (effect : RetireEffect)
| RT_Refuse (reason : RefusalReason).

(** [retained_exhausted_for_new_row]. *)
Definition retained_exhausted_for_new_row (c : Capacity) : bool :=
  (MAX_RETAINED_SESSIONS_PER_GROUP <=? ca_retained_group c)
  || (MAX_RETAINED_SESSIONS_PER_ACTOR <=? ca_retained_actor c).

(** [retire::decide]. *)
Definition retire_decide (state : State) (command : RetireCommand) : RetireDecision :=
  let authorized := bool_decide (rc_actor command = rc_target_actor command)
                    || is_administrator state (rc_actor command) in
  if negb authorized then RT_Refuse PermissionChanged
  else match st_sessions state !! (rc_target_actor command, rc_target_client_id command) with
  | Some session => if se_retired session then RT_Apply AlreadyRetired else RT_Apply Convert
  | None =>
      if retained_exhausted_for_new_row (capacity_for state (rc_target_actor command))
      then RT_Refuse RetainedSessionCapReached
      else RT_Apply CreateTombstone
  end.

(** The tombstone of a client that had no session. *)
Definition tombstone : Session := mk_Session 0 (replicate 32 Byte.x00) None true.

(** [retire::effect_row]. *)
Definition effect_row (state : State) (command : RetireCommand) (effect : RetireEffect)
    : option Session :=
  match effect with
  | AlreadyRetired => None
  | Convert =>
      existing ← st_sessions state !! (rc_target_actor command, rc_target_client_id command);
      Some (mk_Session (se_last_sequence existing) (se_request_hash existing)
              (se_last_result existing) true)
  | CreateTombstone => Some tombstone
  end.

(** ** Lemmas *)

(** Retirement by capacity is the classifier's retained rule. *)
Lemma retained_exhausted_for_new_row_eq c :
  retained_exhausted_for_new_row c = retained_exhausted c.
Proof. done. Qed.

(** What an accepted retirement stores. *)
Lemma retire_effect_row st c e row :
  retire_decide st c = RT_Apply e -> effect_row st c e = Some row ->
  se_retired row = true /\
  match st_sessions st !! (rc_target_actor c, rc_target_client_id c) with
  | Some old => se_retired old = false /\ se_last_sequence row = se_last_sequence old /\
      se_request_hash row = se_request_hash old /\ se_last_result row = se_last_result old
  | None => row = tombstone /\
      retained_exhausted (capacity_for st (rc_target_actor c)) = false
  end.
Proof.
  unfold retire_decide. intros Hd He. rewrite retained_exhausted_for_new_row_eq in Hd.
  destruct (negb _); [done|].
  destruct (st_sessions st !! _) as [old|] eqn:Hs.
  - destruct (se_retired old) eqn:Hr; simplify_eq/=. rewrite Hs in He. by simplify_eq/=.
  - destruct (retained_exhausted _) eqn:Hc; simplify_eq/=. done.
Qed.

(** ** Lease expiry

    Models [aster/src/coordination/model/expire.rs]: the system [Expire]
    command, which clears exactly the lease it names or does nothing. *)

(** [struct ExpireCommand]. *)
Record ExpireCommand : Type := mk_ExpireCommand {
  ec_resource : ResourceKey;
  ec_epoch : N;
  ec_lease_revision : N;
}.

(** [expire::Decision]. *)
Inductive ExpireDecision : Type :=
| ED_Apply (row : ResourceRow)
| ED_Stale.

(** [Decision::system_result_code]. *)
Definition expire_result_code (d : ExpireDecision) : Z :=
  match d with
  | ED_Apply _ => SYS_EXPIRED
  | ED_Stale => SYS_EXPIRY_STALE
  end.

(** [expire::decide]. *)
Definition expire_decide (state : State) (command : ExpireCommand) : ExpireDecision :=
  match st_resources state !! ec_resource command with
  | None => ED_Stale
  | Some row =>
      if negb (rr_held row) || negb (rr_epoch row =? ec_epoch command)
         || negb (rr_lease_revision row =? ec_lease_revision command)
      then ED_Stale
      else if (MAX_COUNTER <=? rr_epoch row) || (MAX_COUNTER <=? rr_lease_revision row)
      then ED_Stale
      else ED_Apply (cleared_lease row (rr_value row) (rr_value_revision row))
  end.

(** ** Lemmas *)

(** An expiry applies exactly to the held lease it names, below the ceiling. *)
Lemma expire_decide_Apply st c row' :
  expire_decide st c = ED_Apply row' <->
  exists row, st_resources st !! ec_resource c = Some row /\ rr_held row = true /\
    rr_epoch row = ec_epoch c /\ rr_lease_revision row = ec_lease_revision c /\
    rr_epoch row < MAX_COUNTER /\ rr_lease_revision row < MAX_COUNTER /\
    row' = cleared_lease row (rr_value row) (rr_value_revision row).
Proof.
  unfold expire_decide. split.
  - intros H. repeat case_match; simplify_eq/=; boolean_facts. eauto 10.
  - intros (row & Hr & Hh & He & Hl & H1 & H2 & ->). rewrite Hr, Hh, He, Hl, !N.eqb_refl.
    simpl. rewrite He in H1. rewrite Hl in H2.
    by rewrite !(proj2 (N.leb_gt _ _)) by done.
Qed.

Lemma expire_row_ok st c row' :
  expire_decide st c = ED_Apply row' ->
  exists row, st_resources st !! ec_resource c = Some row /\
    rr_value row' = rr_value row /\ (row_ok row -> row_ok row' /\ row_advance row row').
Proof.
  intros (row & Hr & _ & _ & _ & ? & ? & ->)%expire_decide_Apply.
  exists row. split_and!; [done|done|]. intros Hok. pose proof (rok_value_revision _ Hok).
  apply cleared_lease_ok; try done; apply Hok.
Qed.
