(* ===== verification/Membership.v ===== *)
(** * Membership intents

    Models [aster/src/coordination/model/membership.rs]: the phases of a
    membership intent, the decisions of [change_membership],
    [cancel_membership] and the system progress report, and the eviction of
    terminal intents and displaced routes. *)

From S2P Require Import Prelude Reason Ids Contract Externals Limits State Ticket Authority.
From S2P Require Import Shape.

#[local] Open Scope N_scope.

Definition PHASE_PENDING : Z := 1.
Definition PHASE_ADDING_LEARNERS : Z := 2.
Definition PHASE_CHANGING_VOTERS : Z := 3.
Definition PHASE_COMPLETED : Z := 4.
Definition PHASE_FAILED : Z := 5.
Definition PHASE_CANCEL_REQUESTED : Z := 6.
Definition PHASE_CANCELLED : Z := 7.

(** [is_terminal_phase]. *)
Definition is_terminal_phase (phase : Z) : bool :=
  (phase =? PHASE_COMPLETED)%Z || (phase =? PHASE_FAILED)%Z || (phase =? PHASE_CANCELLED)%Z.

(** [is_legal_transition]. *)
Definition is_legal_transition (from to : Z) : bool :=
  if is_terminal_phase from then false
  else
    ((from =? PHASE_PENDING)%Z && (to =? PHASE_ADDING_LEARNERS)%Z)
    || ((from =? PHASE_ADDING_LEARNERS)%Z && (to =? PHASE_CHANGING_VOTERS)%Z)
    || ((from =? PHASE_CHANGING_VOTERS)%Z && (to =? PHASE_COMPLETED)%Z)
    || ((from =? PHASE_CANCEL_REQUESTED)%Z && (to =? PHASE_CANCELLED)%Z)
    || (to =? PHASE_FAILED)%Z.

(** [struct ChangeMembershipAction]. *)
Record ChangeMembershipAction : Type := mk_ChangeMembershipAction {
  cha_operation_id : OperationId;
  cha_expected_membership_log_id : option LogId;
  cha_plan : MembershipPlan;
}.

(** [struct CancelMembershipAction]. *)
Record CancelMembershipAction : Type := mk_CancelMembershipAction {
  caa_operation_id : OperationId;
  caa_expected_phase_code : Z;
}.

(** [struct MembershipProgressCommand]. *)
Record MembershipProgressCommand : Type := mk_MembershipProgressCommand {
  mpc_operation_id : OperationId;
  mpc_expected_phase : Z;
  mpc_new_phase : Z;
  mpc_observed_membership_log_id : option LogId;
  mpc_result_code : Z;
}.

(** [struct IntentEffect]. *)
Record IntentEffect : Type := mk_IntentEffect {
  ie_operation_id : OperationId;
  ie_intent : Intent;
  ie_outcome : Outcome;
  ie_evict : list OperationId;
  ie_routes : list (NodeId * Route);
  ie_evict_routes : list NodeId;
}.

(** [membership::Decision]. *)
Inductive MembershipDecision : Type :=
| MD_Apply (effect : IntentEffect)
| MD_Existing (phase : Z)
| MD_Refuse (reason : RefusalReason)
| MD_RefuseShapeless (limit : ShapeLimit).

(** The placeholder [LogId::new(0, [0u8; 32], 0)] that apply replaces. *)
Definition unstamped : LogId := mk_LogId 0 (replicate 32 Byte.x00) 0.

(** [routes_from]. *)
Definition routes_from (action : ChangeMembershipAction) : list (NodeId * Route) :=
  map (λ seed, (ms_node_id seed,
                mk_Route (ms_ticket seed) (cha_operation_id action) unstamped))
    (filter (λ seed, ms_ticket seed <> []) (mp_member_seeds (cha_plan action))).

(** The routes [route_evictions] may displace: not of a current member and not
    replaced by an incoming one, stamped with the log position that
    introduced them. *)
Definition route_candidates (state : State) (incoming : list (NodeId * Route))
    : list ((N * N) * NodeId) :=
  map (λ kv, ((li_term (ro_introduced_log_id kv.2), li_index (ro_introduced_log_id kv.2)), kv.1))
    (filter (λ kv, cm_contains (st_membership state) kv.1 = false /\ kv.1 ∉ map fst incoming)
       (map_to_list (st_routes state))).

(** [route_evictions]. *)
Definition route_evictions (state : State) (incoming : list (NodeId * Route)) : list NodeId :=
  let new_nodes := len (filter (λ nr, st_routes state !! nr.1 = None) incoming) in
  if new_nodes =? 0 then []
  else
    let candidates := merge_sort stamped_le (route_candidates state incoming) in
    let retained := N.of_nat (size (st_routes state)) in
    let over := u64_saturating_sub (retained + new_nodes) MAX_RETAINED_ROUTES in
    map snd (take (N.to_nat over) candidates).

(** The terminal intents with their completion stamps. *)
Definition terminal_intents (state : State) : list ((N * N) * OperationId) :=
  map (λ kv, (from_option (λ l, (li_term l, li_index l)) (U64_MAX, U64_MAX)
                (in_completed_log_id kv.2), kv.1))
    (filter (λ kv, is_terminal_phase (in_status_code kv.2) = true)
       (map_to_list (st_intents state))).

(** [evictions]. *)
Definition evictions (state : State) (incoming_terminal : N) : list OperationId :=
  let terminal := merge_sort stamped_le (terminal_intents state) in
  let over := u64_saturating_sub (len terminal + incoming_terminal) MAX_RETAINED_INTENTS in
  map snd (take (N.to_nat over) terminal).

(** [completion_is_observable]. *)
Definition completion_is_observable (state : State) (intent : Intent)
    (command : MembershipProgressCommand) : bool :=
  if negb (bool_decide (mpc_observed_membership_log_id command = st_membership_log_id state))
  then false
  else if cm_joint (st_membership state) then false
  else
    bool_decide (cm_voters (st_membership state) = list_to_set (mp_desired_voters (in_plan intent)))
    && bool_decide (cm_learners (st_membership state)
                    = list_to_set (mp_retained_learners (in_plan intent))).

(** [decide_cancel]. *)
Definition decide_cancel (state : State) (actor : NodeId) (action : CancelMembershipAction)
    : MembershipDecision :=
  if negb (is_administrator state actor) then MD_Refuse PermissionChanged
  else match st_intents state !! caa_operation_id action with
  | None => MD_Refuse MembershipCannotCancel
  | Some existing =>
      if negb (in_status_code existing =? caa_expected_phase_code action)%Z
      then MD_Refuse MembershipRevisionMismatch
      else
        let cancelled :=
          if (in_status_code existing =? PHASE_PENDING)%Z
          then Some (PHASE_CANCELLED, evictions state 1)
          else if (in_status_code existing =? PHASE_ADDING_LEARNERS)%Z
          then Some (PHASE_CANCEL_REQUESTED, [])
          else None in
        match cancelled with
        | None => MD_Refuse MembershipCannotCancel
        | Some (status, evict) =>
            MD_Apply
              {| ie_operation_id := caa_operation_id action;
                 ie_intent :=
                   {| in_actor := in_actor existing;
                      in_request_hash := in_request_hash existing;
                      in_expected_membership := in_expected_membership existing;
                      in_plan := in_plan existing;
                      in_status_code := status;
                      in_result_code := if is_terminal_phase status then SYS_MEMBERSHIP_ADVANCED
                                        else in_result_code existing;
                      in_accepted_log_id := in_accepted_log_id existing;
                      in_completed_log_id := in_completed_log_id existing;
                      in_observed_membership_log_id := in_observed_membership_log_id existing |};
                 ie_outcome := O_MembershipCancelled;
                 ie_evict := evict;
                 ie_routes := [];
                 ie_evict_routes := [] |}
        end
  end.

(** [decide_progress]. *)
Definition decide_progress (state : State) (command : MembershipProgressCommand)
    : option IntentEffect :=
  existing ← st_intents state !! mpc_operation_id command;
  if negb (in_status_code existing =? mpc_expected_phase command)%Z then None
  else if negb (is_legal_transition (in_status_code existing) (mpc_new_phase command)) then None
  else if (mpc_new_phase command =? PHASE_COMPLETED)%Z
       && negb (completion_is_observable state existing command) then None
  else
    let becoming_terminal := is_terminal_phase (mpc_new_phase command) in
    Some
      {| ie_operation_id := mpc_operation_id command;
         ie_intent :=
           {| in_actor := in_actor existing;
              in_request_hash := in_request_hash existing;
              in_expected_membership := in_expected_membership existing;
              in_plan := in_plan existing;
              in_status_code := mpc_new_phase command;
              in_result_code := if becoming_terminal then mpc_result_code command
                                else in_result_code existing;
              in_accepted_log_id := in_accepted_log_id existing;
              in_completed_log_id := in_completed_log_id existing;
              in_observed_membership_log_id := mpc_observed_membership_log_id command |};
         ie_outcome := O_MembershipAccepted;
         ie_evict := if becoming_terminal then evictions state 1 else [];
         ie_routes := [];
         ie_evict_routes := [] |}.

Section change.
Context `{Ext : Externals}.

(** The sum of what the rows at the keys of a list are charged. *)
Definition charge_of_intents (state : State) (ids : list OperationId) : N :=
  foldr (λ id acc, from_option (intent_row_charge id) 0 (st_intents state !! id) + acc) 0 ids.
Definition charge_of_routes (state : State) (nodes : list NodeId) : N :=
  foldr (λ node acc, from_option (route_row_charge node) 0 (st_routes state !! node) + acc) 0 nodes.

(** [growth_delta]. *)
Definition growth_delta (state : State) (effect : IntentEffect) : N :=
  let added :=
    charge_intent (intent_charge_len (ie_intent effect) (ie_operation_id effect))
    + foldr (λ nr acc, charge_route (len (ro_ticket nr.2)) + acc) 0 (ie_routes effect) in
  let freed :=
    from_option (intent_row_charge (ie_operation_id effect)) 0
      (st_intents state !! ie_operation_id effect)
    + charge_of_intents state (ie_evict effect)
    + charge_of_routes state (map fst (ie_routes effect))
    + charge_of_routes state (ie_evict_routes effect) in
  u64_saturating_sub added freed.

(** [decide_change]. *)
Definition decide_change (state : State) (actor : NodeId) (request_hash : Hash)
    (action : ChangeMembershipAction) : MembershipDecision :=
  if negb (is_administrator state actor) then MD_Refuse PermissionChanged
  else match st_intents state !! cha_operation_id action with
  | Some existing =>
      if bool_decide (in_request_hash existing = request_hash)
      then MD_Existing (in_status_code existing)
      else MD_Refuse OperationIdConflict
  | None =>
      if negb (bool_decide (cha_expected_membership_log_id action = st_membership_log_id state))
      then MD_Refuse MembershipRevisionMismatch
      else match plan_shape (cha_plan action) (st_membership state) (st_authority state)
                   (st_deployment_profile_code state) with
      | Some limit => MD_RefuseShapeless limit
      | None =>
          if existsb (λ kv, negb (is_terminal_phase (in_status_code kv.2)))
               (map_to_list (st_intents state))
          then MD_Refuse MembershipIntentActive
          else if MAX_LEARNER_ENVELOPE
                    <? projected_learners (cm_learners (st_membership state))
                         (cm_members (st_membership state))
                         (mp_desired_voters (cha_plan action))
                         (mp_retained_learners (cha_plan action))
          then MD_Refuse MembershipLearnerEnvelope
          else
            let intent :=
              {| in_actor := actor;
                 in_request_hash := request_hash;
                 in_expected_membership := cha_expected_membership_log_id action;
                 in_plan := cha_plan action;
                 in_status_code := PHASE_PENDING;
                 in_result_code := 0%Z;
                 in_accepted_log_id := unstamped;
                 in_completed_log_id := None;
                 in_observed_membership_log_id := None |} in
            let routes := routes_from action in
            let effect :=
              {| ie_operation_id := cha_operation_id action;
                 ie_intent := intent;
                 ie_outcome := O_MembershipAccepted;
                 ie_evict := [];
                 ie_routes := routes;
                 ie_evict_routes := route_evictions state routes |} in
            if negb (state_growth_fits state (growth_delta state effect))
            then MD_Refuse StateBudgetExhausted
            else MD_Apply effect
      end
  end.
End change.
