(* ===== verification/Apply.v ===== *)
(** * Preflight and the committed apply path

    Models [aster/src/coordination/model/apply.rs]: commands and replies, the
    projection a leader answers with before proposing, the delivery guard, and
    the application of every committed command with its writers, audit row and
    retention. [&mut State] with [&mut ChangeSet] is the transaction [Tx]; an
    application returns the transaction with the reply or the fault, so that
    what a fault leaves behind can be stated. *)

From S2P Require Import Prelude Reason Ids Contract Externals Limits State Tables Classify.
From S2P Require Import Authority Shape Genesis Resource Grant Retire Membership.

#[local] Open Scope N_scope.

(** [struct ClientRef]. *)
Record ClientRef : Type := mk_ClientRef {
  cr_actor : NodeId;
  cr_client_id : ClientId;
  cr_sequence : N;
  cr_request_hash : Hash;
}.

(** The session key of a client: [(client.actor, client.client_id)]. *)
Definition client_key (c : ClientRef) : SessionKey := (cr_actor c, cr_client_id c).

(** [enum Action]. *)
Inductive Action : Type :=
| A_Resource (r : ResourceAction)
| A_Grant (g : GrantAction)
| A_Admin (a : AdminAction)
| A_ChangeMembership (m : ChangeMembershipAction)
| A_CancelMembership (m : CancelMembershipAction).

(** [enum ActionDecision]. *)
Inductive ActionDecision : Type :=
| DD_Resource (d : ResourceDecision)
| DD_Grant (d : GrantDecision)
| DD_Admin (d : AdminDecision)
| DD_Membership (d : MembershipDecision).

(** [Action::operation_code]. *)
Definition operation_code (a : Action) : Z :=
  match a with
  | A_Resource r =>
      match r with
      | Acquire _ _ => 1
      | Renew _ => 2
      | CompareAndSet _ _ _ => 3
      | Release _ => 4
      | ReleaseWithValue _ _ _ => 5
      | Revoke _ _ => 6
      end
  | A_Grant _ => 7
  | A_Admin _ => 8
  | A_ChangeMembership _ => 9
  | A_CancelMembership _ => 11
  end%Z.

(** [Action::operation_id]. *)
Definition action_operation_id (a : Action) : option OperationId :=
  match a with
  | A_ChangeMembership m => Some (cha_operation_id m)
  | A_CancelMembership m => Some (caa_operation_id m)
  | _ => None
  end.

(** [Action::validated_resource]. *)
Definition validated_resource (a : Action) : option ResourceKey :=
  match a with
  | A_Resource r => result_ok (validate (raw_resource r))
  | A_Grant g => result_ok (validate (gra_resource g))
  | A_Admin _ | A_ChangeMembership _ | A_CancelMembership _ => None
  end.

(** [struct ClientResult]. *)
Record ClientResult : Type := mk_ClientResult {
  clr_disposition : Disposition;
  clr_reply : SavedReply;
  clr_replayed : bool;
}.

(** [ClientResult::is_terminal], [ClientResult::is_forced_shape_rejection]. *)
Definition client_result_is_terminal (r : ClientResult) : bool :=
  disposition_is_terminal (clr_disposition r) (sr_reason (clr_reply r)).

Definition is_forced_shape_rejection (r : ClientResult) : bool :=
  bool_decide (sr_outcome (clr_reply r) = O_Rejected)
  && bool_decide (sr_reason (clr_reply r) = R_None).

(** [enum StatusDenial]. *)
Inductive StatusDenial : Type :=
| NotAuthorized
| SD_Shape (limit : ShapeLimit).

(** [enum Admission]. *)
Inductive Admission : Type :=
| Resolved (r : ClientResult)
| Deny (reason : RefusalReason)
| Status (d : StatusDenial)
| Admit.

(** The detail strings of [Fault::GenesisRefused], one constructor each. *)
Inductive GenesisDetail : Type :=
| GR_DoesNotVerify (e : GenesisError)
| GR_AnotherGroup
| GR_AnotherDocument
| GR_AnotherProfile
| GR_Joint
| GR_Learners
| GR_InitialVoters.

(** [enum Fault]. *)
Inductive Fault : Type :=
| LogIdNotAdvancing (delivered last_applied : LogId)
| UnknownCommand
| AuditAheadOfLastApplied (audit_tip : LogId) (last_applied : option LogId)
| GenesisRefused (detail : GenesisDetail).

(** [enum ReplyShape]. *)
Inductive ReplyShape : Type :=
| RS_Client
| RS_Retirement
| RS_System.

(** [struct ShapelessCommand]. *)
Record ShapelessCommand : Type := mk_ShapelessCommand {
  shc_operation_code : Z;
  shc_reply_shape : ReplyShape;
  shc_system_result_code : Z;
  shc_actor : option NodeId;
  shc_resource : option ResourceKey;
}.

(** [enum Command]; [Genesis] carries [GenesisCommand]'s one field. *)
Inductive Command : Type :=
| C_Unknown
| C_Client (client : ClientRef) (action : Action)
| C_RejectedClient (client : ClientRef) (operation_code : Z) (resource : option ResourceKey)
| C_Shapeless (s : ShapelessCommand)
| C_Expire (e : ExpireCommand)
| C_MembershipProgress (p : MembershipProgressCommand)
| C_RetireClient (r : RetireCommand)
| C_Genesis (signed_genesis : bytes).

(** [struct SystemResult], [struct RetirementResult]. *)
Record SystemResult : Type := mk_SystemResult {
  sys_result_code : Z;
  sys_lease_revision : N;
}.

Record RetirementResult : Type := mk_RetirementResult {
  ret_outcome : Outcome;
  ret_reason : Reason;
}.

(** [RetirementResult::is_terminal]. *)
Definition retirement_is_terminal (r : RetirementResult) : bool :=
  bool_decide (ret_outcome r = O_ClientRetired) || is_terminal_when_not_consumed (ret_reason r).

(** [enum CommandReply]. *)
Inductive CommandReply : Type :=
| CR_Client (r : ClientResult)
| CR_System (r : SystemResult)
| CR_Retirement (r : RetirementResult).

Definition OPERATION_RETIRE_CLIENT : Z := 10.

(** [is_system_operation]. *)
Definition is_system_operation (operation_code : Z) : bool :=
  (operation_code =? OPERATION_EXPIRE)%Z || (operation_code =? OPERATION_MEMBERSHIP_PROGRESS)%Z
  || (operation_code =? OPERATION_GENESIS)%Z.

(** [rejection]. *)
Definition rejection (state : State) (resource : option ResourceKey) (reason : Reason)
    : SavedReply :=
  let snapshot :=
    (λ key, SavedSnapshot_of key (default ResourceRow_default (st_resources state !! key)))
      <$> resource in
  {| sr_outcome := O_Rejected;
     sr_reason := reason;
     sr_snapshot := snapshot;
     sr_acl_revision := from_option ss_acl_revision 0 snapshot;
     sr_admin_revision := st_admin_revision state;
     sr_operation_id := None;
     sr_membership_log_id := None |}.

(** [project_refusal]; the guard on [PermissionChanged] compares the reason. *)
Definition project_refusal (refusal : option RefusalReason) (shapeless : option ShapeLimit)
    : Admission :=
  match refusal, shapeless with
  | _, Some limit => Status (SD_Shape limit)
  | Some reason, None =>
      if bool_decide (refusal_get reason = R_PermissionChanged) then Status NotAuthorized
      else if is_admission_denial (refusal_get reason) then Deny reason
      else Admit
  | None, None => Admit
  end.

(** [project]. *)
Definition project (decision : ActionDecision) : Admission :=
  match decision with
  | DD_Resource (RD_Apply _) | DD_Grant (GD_Apply _) | DD_Admin (AD_Apply _)
  | DD_Grant (GD_NoOp _) | DD_Admin (AD_NoOp _)
  | DD_Membership (MD_Apply _) | DD_Membership (MD_Existing _) => Admit
  | DD_Resource (RD_Refuse r) | DD_Grant (GD_Refuse r) | DD_Admin (AD_Refuse r)
  | DD_Membership (MD_Refuse r) => project_refusal (Some r) None
  | DD_Resource (RD_RefuseShapeless l) | DD_Grant (GD_RefuseShapeless l)
  | DD_Membership (MD_RefuseShapeless l) => project_refusal None (Some l)
  end.

(** [guard_delivery]. *)
Definition guard_delivery (state : State) (log_id : LogId) : result () Fault :=
  let audit_check :=
    match st_audit_tip state with
    | Some tip =>
        let consistent :=
          match st_last_applied state with
          | None => false
          | Some last => (li_index tip <? li_index last) || bool_decide (tip = last)
          end in
        if negb consistent then Err (AuditAheadOfLastApplied tip (st_last_applied state))
        else Ok ()
    | None => Ok ()
    end in
  match st_last_applied state with
  | Some last =>
      if li_index log_id <=? li_index last then Err (LogIdNotAdvancing log_id last)
      else audit_check
  | None => audit_check
  end.

(** [admin_reply]. *)
Definition admin_reply (admin_revision : N) : SavedReply :=
  mk_SavedReply O_AdminUpdated R_None None 0 admin_revision None None.

(** [no_op_grant_reply]. *)
Definition no_op_grant_reply (state : State) (resource : option ResourceKey) (acl_revision : N)
    : SavedReply :=
  let snapshot := key ← resource; SavedSnapshot_of key <$> st_resources state !! key in
  mk_SavedReply O_GrantUpdated R_None snapshot acl_revision 0 None None.

(** [membership_reply]. *)
Definition membership_reply (outcome : Outcome) (operation_id : OperationId)
    (membership_log_id : option LogId) : ClientResult :=
  {| clr_replayed := false;
     clr_disposition := Consumed;
     clr_reply := mk_SavedReply outcome R_None None 0 0 (Some operation_id) membership_log_id |}.

(** [consumed_success]. *)
Definition consumed_success (outcome : Outcome) (key : ResourceKey) (row : ResourceRow)
    : ClientResult :=
  {| clr_replayed := false;
     clr_disposition := Consumed;
     clr_reply := mk_SavedReply outcome R_None (Some (SavedSnapshot_of key row))
                    (rr_acl_revision row) 0 None None |}.

(** [session_charge]. *)
Definition session_charge (s : Session) : N := charge_session (se_last_result s ≫= sr_key_parts).

(** ** Writers *)

(** [charge_resource_row]. *)
Definition charge_resource_row (key : ResourceKey) (new_value_len : N) (tx : Tx) : Tx :=
  let st := tx_state tx in
  let old := from_option (λ row, charge_resource (rk_namespace key) (rk_key key) (len (rr_value row)))
               0 (st_resources st !! key) in
  let new := charge_resource (rk_namespace key) (rk_key key) new_value_len in
  tx_modify (set_growth_bytes (u64_sub (u64_add (st_growth_bytes st) new) old)) tx.

(** [growth_bytes += n] and [growth_bytes -= n]. *)
Definition growth_add (n : N) (tx : Tx) : Tx :=
  tx_modify (λ st, set_growth_bytes (u64_add (st_growth_bytes st) n) st) tx.
Definition growth_sub (n : N) (tx : Tx) : Tx :=
  tx_modify (λ st, set_growth_bytes (u64_sub (st_growth_bytes st) n) st) tx.

(** One turn of the loop of [prune_audit]: drop the oldest row. *)
Definition prune_one (tx : Tx) : Tx :=
  match btree_iter (st_audit (tx_state tx)) with
  | [] => tx
  | (key, row) :: _ =>
      let charge := charge_audit (key_parts <$> ar_resource row) in
      let leader := ar_leader_node_id row in
      let tx := snd (remove_audit key tx) in
      let tx := tx_modify (λ st, set_reserve_bytes (u64_sub (st_reserve_bytes st) charge) st) tx in
      let floor :=
        match btree_iter (st_audit (tx_state tx)) with
        | ((term, index), oldest) :: _ => Some (mk_LogId term (ar_leader_node_id oldest) index)
        | [] => Some (mk_LogId key.1 leader key.2)
        end in
      tx_modify (set_audit_floor floor) tx
  end.

(** The loop [while audit.len() > MAX_AUDIT_ROWS], with at most [fuel] turns. *)
Fixpoint prune_loop (fuel : nat) (tx : Tx) : Tx :=
  match fuel with
  | O => tx
  | S fuel' =>
      if MAX_AUDIT_ROWS <? N.of_nat (size (st_audit (tx_state tx)))
      then prune_loop fuel' (prune_one tx)
      else tx
  end.

(** [prune_audit]: every turn removes a row, so the number of rows is enough
    turns. *)
Definition prune_audit (tx : Tx) : Tx := prune_loop (size (st_audit (tx_state tx))) tx.

(** [write_audit_row]. *)
Definition write_audit_row (log_id : LogId) (row : AuditRow) (tx : Tx) : Tx :=
  let charge := charge_audit (key_parts <$> ar_resource row) in
  let tx := tx_modify (λ st, set_reserve_bytes (u64_add (st_reserve_bytes st) charge) st) tx in
  let tx := put_audit (li_term log_id, li_index log_id) row tx in
  let tx := tx_modify (set_audit_tip (Some log_id)) tx in
  prune_audit tx.

(** [write_audit]. *)
Definition write_audit (log_id : LogId) (client : ClientRef) (reply : SavedReply)
    (action : Action) (tx : Tx) : Tx :=
  write_audit_row log_id
    {| ar_leader_node_id := li_leader_node_id log_id;
       ar_actor := Some (cr_actor client);
       ar_operation_code := operation_code action;
       ar_resource := sr_resource reply;
       ar_result := AR_Client (sr_outcome reply);
       ar_epoch := from_option ss_epoch 0 (sr_snapshot reply);
       ar_value_revision := from_option ss_value_revision 0 (sr_snapshot reply) |} tx.

(** Store a session row, moving the reserve by the difference of the charges:
    the body [write_session] and [apply_retire] share. *)
Definition store_session (key : SessionKey) (row : Session) (tx : Tx) : Tx :=
  let st := tx_state tx in
  let previous := from_option session_charge 0 (st_sessions st !! key) in
  let tx := tx_modify
    (set_reserve_bytes (u64_sub (u64_add (st_reserve_bytes st) (session_charge row)) previous)) tx in
  put_session key row tx.

(** [write_session]. *)
Definition write_session (client : ClientRef) (reply : option SavedReply) (tx : Tx) : Tx :=
  let key := client_key client in
  store_session key
    {| se_last_sequence := cr_sequence client;
       se_request_hash := cr_request_hash client;
       se_last_result := reply;
       se_retired := from_option se_retired false (st_sessions (tx_state tx) !! key) |} tx.

(** An audit row a system command writes. *)
Definition system_audit (log_id : LogId) (operation : Z) (resource : option ResourceKey)
    (code : Z) (epoch : N) : AuditRow :=
  {| ar_leader_node_id := li_leader_node_id log_id;
     ar_actor := Some (li_leader_node_id log_id);
     ar_operation_code := operation;
     ar_resource := resource;
     ar_result := AR_System code;
     ar_epoch := epoch;
     ar_value_revision := 0 |}.

Section apply.
Context `{Ext : Externals}.

(** [Action::decide]. *)
Definition action_decide (a : Action) (state : State) (actor : NodeId) (request_hash : Hash)
    : ActionDecision :=
  match a with
  | A_Resource r => DD_Resource (resource_decide state actor r)
  | A_Grant g => DD_Grant (grant_decide state actor g)
  | A_Admin x => DD_Admin (admin_decide state actor x)
  | A_ChangeMembership m => DD_Membership (decide_change state actor request_hash m)
  | A_CancelMembership m => DD_Membership (decide_cancel state actor m)
  end.

(** The classifier applied to a client's committed session. *)
Definition classify_client (state : State) (client : ClientRef) : Classification :=
  classify (st_sessions state !! client_key client) (cr_sequence client)
    (cr_request_hash client) (capacity_for state (cr_actor client)).

(** [preflight]. *)
Definition preflight (state : State) (client : ClientRef) (action : Action) : Admission :=
  match classify_client state client with
  | Replay _ saved => Resolved (mk_ClientResult Consumed saved true)
  | Refuse _ reason =>
      Resolved (mk_ClientResult NotConsumed
                  (rejection state (validated_resource action) reason) false)
  | Unresolved _ _ =>
      project (action_decide action state (cr_actor client) (cr_request_hash client))
  end.

(** [preflight_shapeless]. *)
Definition preflight_shapeless (state : State) (client : ClientRef) : option Admission :=
  match classify_client state client with
  | Replay _ saved => Some (Resolved (mk_ClientResult Consumed saved true))
  | Refuse _ reason =>
      Some (Resolved (mk_ClientResult NotConsumed (rejection state None reason) false))
  | Unresolved _ _ => None
  end.

(** The first loop of [write_intent]. *)
Definition evict_intent (id : OperationId) (tx : Tx) : Tx :=
  match remove_intent id tx with
  | (Some old, tx) => growth_sub (charge_intent (intent_charge_len old id)) tx
  | (None, tx) => tx
  end.

(** The stamps [write_intent] puts on an intent: the accepting entry when none is
    set yet, the completing one when the phase is terminal. *)
Definition stamp_intent (log_id : LogId) (i : Intent) : Intent :=
  {| in_actor := in_actor i;
     in_request_hash := in_request_hash i;
     in_expected_membership := in_expected_membership i;
     in_plan := in_plan i;
     in_status_code := in_status_code i;
     in_result_code := in_result_code i;
     in_accepted_log_id :=
       if li_index (in_accepted_log_id i) =? 0 then log_id else in_accepted_log_id i;
     in_completed_log_id :=
       if is_terminal_phase (in_status_code i) && bool_decide (in_completed_log_id i = None)
       then Some log_id else in_completed_log_id i;
     in_observed_membership_log_id := in_observed_membership_log_id i |}.

(** The intent row itself, with its growth charge. *)
Definition store_intent (id : OperationId) (intent : Intent) (tx : Tx) : Tx :=
  let previous :=
    from_option (λ i, charge_intent (intent_charge_len i id)) 0 (st_intents (tx_state tx) !! id) in
  let tx := tx_modify
    (λ st, set_growth_bytes
             (u64_sub (u64_add (st_growth_bytes st) (charge_intent (intent_charge_len intent id)))
                previous) st) tx in
  put_intent id intent tx.

(** The loop of [write_intent] over the displaced routes. *)
Definition evict_route (node : NodeId) (tx : Tx) : Tx :=
  match remove_route node tx with
  | (Some old, tx) => growth_sub (charge_route (len (ro_ticket old))) tx
  | (None, tx) => tx
  end.

(** The loop of [write_intent] over the routes a plan introduces. *)
Definition store_route (log_id : LogId) (nr : NodeId * Route) (tx : Tx) : Tx :=
  let route := mk_Route (ro_ticket nr.2) (ro_source_operation_id nr.2)
                 (if li_index (ro_introduced_log_id nr.2) =? 0 then log_id
                  else ro_introduced_log_id nr.2) in
  let previous :=
    from_option (λ r, charge_route (len (ro_ticket r))) 0 (st_routes (tx_state tx) !! nr.1) in
  let tx := tx_modify
    (λ st, set_growth_bytes
             (u64_sub (u64_add (st_growth_bytes st) (charge_route (len (ro_ticket route)))) previous)
             st) tx in
  put_route nr.1 route tx.

(** [write_intent]. *)
Definition write_intent (log_id : LogId) (effect : IntentEffect) (tx : Tx) : Tx :=
  let tx := foldl (λ tx id, evict_intent id tx) tx (ie_evict effect) in
  let tx := store_intent (ie_operation_id effect) (stamp_intent log_id (ie_intent effect)) tx in
  let tx := foldl (λ tx node, evict_route node tx) tx (ie_evict_routes effect) in
  foldl (λ tx nr, store_route log_id nr tx) tx (ie_routes effect).

(** The grant arm of [apply_decided]. *)
Definition write_grant (effect : GrantEffect) (tx : Tx) : Tx :=
  let key := gre_key effect in
  let charge := charge_acl (rk_namespace key) (rk_key key) in
  let tx := charge_resource_row key (len (rr_value (gre_row effect))) tx in
  let tx := put_resource key (gre_row effect) tx in
  match gre_rights effect with
  | Some rights =>
      let tx := if gre_creates_acl_row effect then growth_add charge tx else tx in
      snd (put_grant (key, gre_subject effect) rights tx)
  | None =>
      match remove_grant (key, gre_subject effect) tx with
      | (true, tx) => growth_sub charge tx
      | (false, tx) => tx
      end
  end.

(** The administrator arm of [apply_decided]. *)
Definition write_admin (effect : AdminEffect) (tx : Tx) : Tx :=
  let tx :=
    if ade_enabled effect then
      match put_admin (ade_target effect) tx with
      | (true, tx) => growth_add charge_admin tx
      | (false, tx) => tx
      end
    else
      match remove_admin (ade_target effect) tx with
      | (true, tx) => growth_sub charge_admin tx
      | (false, tx) => tx
      end in
  tx_modify (set_admin_revision (ade_admin_revision effect)) tx.

(** [apply_decided]. *)
Definition apply_decided (log_id : LogId) (client : ClientRef) (action : Action) (tx : Tx)
    : ClientResult * Tx :=
  let st := tx_state tx in
  match action_decide action st (cr_actor client) (cr_request_hash client) with
  | DD_Resource (RD_Apply effect) =>
      let tx := charge_resource_row (re_key effect) (len (rr_value (re_row effect))) tx in
      let tx := put_resource (re_key effect) (re_row effect) tx in
      (consumed_success (re_outcome effect) (re_key effect) (re_row effect), tx)
  | DD_Grant (GD_Apply effect) =>
      (consumed_success O_GrantUpdated (gre_key effect) (gre_row effect), write_grant effect tx)
  | DD_Admin (AD_Apply effect) =>
      (mk_ClientResult Consumed (admin_reply (ade_admin_revision effect)) false,
       write_admin effect tx)
  | DD_Admin (AD_NoOp admin_revision) =>
      (mk_ClientResult Consumed (admin_reply admin_revision) false, tx)
  | DD_Membership (MD_Apply effect) =>
      let tx := write_intent log_id effect tx in
      (membership_reply (ie_outcome effect) (ie_operation_id effect)
         (st_membership_log_id (tx_state tx)), tx)
  | DD_Membership (MD_Existing _) =>
      (membership_reply O_MembershipAccepted (default [] (action_operation_id action))
         (st_membership_log_id st), tx)
  | DD_Grant (GD_NoOp acl_revision) =>
      (mk_ClientResult Consumed (no_op_grant_reply st (validated_resource action) acl_revision) false,
       tx)
  | DD_Resource (RD_Refuse reason) | DD_Grant (GD_Refuse reason) | DD_Admin (AD_Refuse reason)
  | DD_Membership (MD_Refuse reason) =>
      (mk_ClientResult Consumed (rejection st (validated_resource action) (refusal_get reason)) false,
       tx)
  | DD_Resource (RD_RefuseShapeless _) | DD_Grant (GD_RefuseShapeless _)
  | DD_Membership (MD_RefuseShapeless _) =>
      (mk_ClientResult Consumed (rejection st (validated_resource action) R_None) false, tx)
  end.

(** [apply_client]. *)
Definition apply_client (log_id : LogId) (client : ClientRef) (action : Action) (tx : Tx)
    : ClientResult * Tx :=
  let st := tx_state tx in
  let '(res, writes_session, tx) :=
    match classify_client st client with
    | Replay _ saved => (mk_ClientResult Consumed saved true, false, tx)
    | Refuse _ reason =>
        (mk_ClientResult NotConsumed (rejection st (validated_resource action) reason) false,
         false, tx)
    | Unresolved _ _ =>
        let '(res, tx) := apply_decided log_id client action tx in (res, true, tx)
    end in
  let tx := if (writes_session : bool) then write_session client (Some (clr_reply res)) tx else tx in
  (res, write_audit log_id client (clr_reply res) action tx).

(** [apply_rejected_client]. *)
Definition apply_rejected_client (log_id : LogId) (client : ClientRef) (operation : Z)
    (resource : option ResourceKey) (tx : Tx) : ClientResult * Tx :=
  let st := tx_state tx in
  let '(res, writes_session) :=
    match classify_client st client with
    | Replay _ saved => (mk_ClientResult Consumed saved true, false)
    | Refuse _ reason =>
        (mk_ClientResult NotConsumed (rejection st resource reason) false, false)
    | Unresolved _ _ => (mk_ClientResult Consumed (rejection st resource R_None) false, true)
    end in
  let tx := if (writes_session : bool) then write_session client (Some (clr_reply res)) tx else tx in
  (res,
   write_audit_row log_id
     {| ar_leader_node_id := li_leader_node_id log_id;
        ar_actor := Some (cr_actor client);
        ar_operation_code := operation;
        ar_resource := sr_resource (clr_reply res);
        ar_result := AR_Client (sr_outcome (clr_reply res));
        ar_epoch := 0;
        ar_value_revision := 0 |} tx).

(** [apply_shapeless]. *)
Definition apply_shapeless (log_id : LogId) (command : ShapelessCommand) (tx : Tx)
    : CommandReply * Tx :=
  let st := tx_state tx in
  let reply :=
    match shc_reply_shape command with
    | RS_Client =>
        CR_Client (mk_ClientResult NotConsumed (rejection st (shc_resource command) R_None) false)
    | RS_Retirement => CR_Retirement (mk_RetirementResult O_Rejected R_None)
    | RS_System => CR_System (mk_SystemResult (shc_system_result_code command) 0)
    end in
  (reply,
   write_audit_row log_id
     {| ar_leader_node_id := li_leader_node_id log_id;
        ar_actor := match shc_reply_shape command with
                    | RS_System => Some (li_leader_node_id log_id)
                    | RS_Client | RS_Retirement => shc_actor command
                    end;
        ar_operation_code := shc_operation_code command;
        ar_resource := shc_resource command;
        ar_result := match shc_reply_shape command with
                     | RS_System => AR_System (shc_system_result_code command)
                     | RS_Client | RS_Retirement => AR_Client O_Rejected
                     end;
        ar_epoch := 0;
        ar_value_revision := 0 |} tx).

(** [apply_retire]. *)
Definition apply_retire (log_id : LogId) (command : RetireCommand) (tx : Tx)
    : RetirementResult * Tx :=
  let st := tx_state tx in
  let '(res, tx) :=
    match retire_decide st command with
    | RT_Apply effect =>
        (mk_RetirementResult O_ClientRetired R_None,
         match effect_row st command effect with
         | Some row => store_session (rc_target_actor command, rc_target_client_id command) row tx
         | None => tx
         end)
    | RT_Refuse reason => (mk_RetirementResult O_Rejected (refusal_get reason), tx)
    end in
  (res,
   write_audit_row log_id
     {| ar_leader_node_id := li_leader_node_id log_id;
        ar_actor := Some (rc_actor command);
        ar_operation_code := OPERATION_RETIRE_CLIENT;
        ar_resource := None;
        ar_result := AR_Client (ret_outcome res);
        ar_epoch := 0;
        ar_value_revision := 0 |} tx).

(** [apply_expire]. *)
Definition apply_expire (log_id : LogId) (command : ExpireCommand) (tx : Tx) : SystemResult * Tx :=
  let decision := expire_decide (tx_state tx) command in
  let tx := match decision with
            | ED_Apply row => put_resource (ec_resource command) row tx
            | ED_Stale => tx
            end in
  let row := st_resources (tx_state tx) !! ec_resource command in
  let lease_revision := from_option rr_lease_revision 0 row in
  let epoch := from_option rr_epoch 0 row in
  (mk_SystemResult (expire_result_code decision) lease_revision,
   write_audit_row log_id
     (system_audit log_id OPERATION_EXPIRE (Some (ec_resource command))
        (expire_result_code decision) epoch) tx).

(** [apply_membership_progress]. *)
Definition apply_membership_progress (log_id : LogId) (command : MembershipProgressCommand)
    (tx : Tx) : SystemResult * Tx :=
  let '(code, tx) :=
    match decide_progress (tx_state tx) command with
    | Some effect => (SYS_MEMBERSHIP_ADVANCED, write_intent log_id effect tx)
    | None => (SYS_MEMBERSHIP_PHASE_MISMATCH, tx)
    end in
  (mk_SystemResult code 0,
   write_audit_row log_id (system_audit log_id OPERATION_MEMBERSHIP_PROGRESS None code 0) tx).

(** The first installation: the delegated set, its revision and the recomputed
    growth. *)
Definition install_admins (admins : list NodeId) (tx : Tx) : Tx :=
  let tx := foldl (λ tx admin, snd (put_admin admin tx)) tx admins in
  let tx := tx_modify (set_admin_revision 1) tx in
  tx_modify (λ st, set_growth_bytes (recompute_growth st) st) tx.

(** [apply_genesis]. *)
Definition apply_genesis (log_id : LogId) (signed_genesis : bytes) (tx : Tx)
    : result SystemResult Fault * Tx :=
  let st := tx_state tx in
  match verify_genesis (ga_public_key (st_authority st)) (ga_domain (st_authority st))
          signed_genesis with
  | Err err => (Err (GenesisRefused (GR_DoesNotVerify err)), tx)
  | Ok verified =>
      if negb (bool_decide (vg_group_id verified = ga_group_id (st_authority st)))
      then (Err (GenesisRefused GR_AnotherGroup), tx)
      else if negb (bool_decide (vg_genesis_hash verified = ga_genesis_hash (st_authority st)))
      then (Err (GenesisRefused GR_AnotherDocument), tx)
      else if negb (vg_deployment_profile_code verified =? st_deployment_profile_code st)%Z
      then (Err (GenesisRefused GR_AnotherProfile), tx)
      else if 0 <? st_admin_revision st then
        (Ok (mk_SystemResult SYS_GENESIS_ALREADY_INSTALLED 0),
         write_audit_row log_id
           (system_audit log_id OPERATION_GENESIS None SYS_GENESIS_ALREADY_INSTALLED 0) tx)
      else if cm_joint (st_membership st) then (Err (GenesisRefused GR_Joint), tx)
      else if negb (bool_decide (cm_learners (st_membership st) = ∅))
      then (Err (GenesisRefused GR_Learners), tx)
      else if negb (bool_decide (list_to_set (map vvs_node_id (vg_initial_voters verified))
                                 = cm_voters (st_membership st)))
      then (Err (GenesisRefused GR_InitialVoters), tx)
      else
        let tx := install_admins (vg_initial_admins verified) tx in
        (Ok (mk_SystemResult SYS_GENESIS_INSTALLED 0),
         write_audit_row log_id
           (system_audit log_id OPERATION_GENESIS None SYS_GENESIS_INSTALLED 0) tx)
  end.

(** The [match command] of [apply_command_recording]. *)
Definition dispatch (log_id : LogId) (command : Command) (tx : Tx)
    : result CommandReply Fault * Tx :=
  match command with
  | C_Unknown => (Err UnknownCommand, tx)
  | C_Client client action =>
      let '(r, tx) := apply_client log_id client action tx in (Ok (CR_Client r), tx)
  | C_RejectedClient client operation resource =>
      let '(r, tx) := apply_rejected_client log_id client operation resource tx in
      (Ok (CR_Client r), tx)
  | C_Shapeless s => let '(r, tx) := apply_shapeless log_id s tx in (Ok r, tx)
  | C_Expire e => let '(r, tx) := apply_expire log_id e tx in (Ok (CR_System r), tx)
  | C_MembershipProgress p =>
      let '(r, tx) := apply_membership_progress log_id p tx in (Ok (CR_System r), tx)
  | C_RetireClient r =>
      let '(res, tx) := apply_retire log_id r tx in (Ok (CR_Retirement res), tx)
  | C_Genesis signed =>
      match apply_genesis log_id signed tx with
      | (Ok r, tx) => (Ok (CR_System r), tx)
      | (Err f, tx) => (Err f, tx)
      end
  end.

(** [apply_command_recording]. *)
Definition apply_command_recording (log_id : LogId) (command : Command) (tx : Tx)
    : result CommandReply Fault * Tx :=
  match guard_delivery (tx_state tx) log_id with
  | Err f => (Err f, tx)
  | Ok _ =>
      match dispatch log_id command tx with
      | (Ok reply, tx) => (Ok reply, tx_modify (set_last_applied (Some log_id)) tx)
      | (Err f, tx) => (Err f, tx)
      end
  end.

(** [apply_command]. *)
Definition apply_command (log_id : LogId) (command : Command) (state : State)
    : result CommandReply Fault * State :=
  let '(r, tx) := apply_command_recording log_id command (mk_Tx state ChangeSet_default) in
  (r, tx_state tx).
End apply.
