(* ===== verification/Wire.v ===== *)
(** * Rows and their wire forms

    Models [aster/src/coordination/model/wire.rs]: the widening of every
    replicated row to the type that is stored and streamed, and the narrowing
    back, with each refusal. The theorems give the round trip of every row
    kind under the widths the source's array types have, and what a narrowed
    row is known to satisfy. *)

From S2P Require Import Prelude Reason Ids Contract Externals Limits State Membership Apply.

#[local] Open Scope N_scope.
#[local] Open Scope coordination_scope.

(** [enum WireError]. *)
Inductive WireError : Type :=
| WE_NodeIdWidth
| WE_OperationIdWidth
| WE_HashWidth
| WE_ResourceKey
| WE_OutcomeCode
| WE_ReasonCode
| WE_DispositionCode
| WE_PhaseCode
| WE_TicketEncoding
| WE_LeaseIncoherent
| WE_IntentCompletionIncoherent
| WE_GroupMismatch
| WE_KeyMismatch.

(** [struct ResourceKeyV1]. *)
Record ResourceKeyV1 : Type := mk_ResourceKeyV1 {
  rkv_namespace : bytes;
  rkv_key : bytes;
}.

(** [struct AuditRowV1]. *)
Record AuditRowV1 : Type := mk_AuditRowV1 {
  arv_leader_node_id : bytes;
  arv_actor_node_id : option bytes;
  arv_operation_code : Z;
  arv_resource : option ResourceKeyV1;
  arv_result_code : Z;
  arv_epoch : N;
  arv_value_revision : N;
}.

(** [struct ResourceRowV1]. *)
Record ResourceRowV1 : Type := mk_ResourceRowV1 {
  rrv_epoch : N;
  rrv_held : bool;
  rrv_holder_node_id : option bytes;
  rrv_ttl_ms : N;
  rrv_lease_revision : N;
  rrv_value_revision : N;
  rrv_value : bytes;
  rrv_acl_revision : N;
}.

(** [struct SavedSnapshotV1]. *)
Record SavedSnapshotV1 : Type := mk_SavedSnapshotV1 {
  ssv_group_id : bytes;
  ssv_resource : ResourceKeyV1;
  ssv_epoch : N;
  ssv_holder : option bytes;
  ssv_held : bool;
  ssv_ttl_ms : N;
  ssv_lease_revision : N;
  ssv_value_revision : N;
  ssv_acl_revision : N;
}.

(** [struct SavedReplyV1]. *)
Record SavedReplyV1 : Type := mk_SavedReplyV1 {
  srv_disposition_code : Z;
  srv_outcome_code : Z;
  srv_reason_code : Z;
  srv_snapshot : option SavedSnapshotV1;
  srv_acl_revision : N;
  srv_admin_revision : N;
  srv_operation_id : option bytes;
  srv_membership_log_id : option LogIdV1;
}.

(** [struct ClientSessionV1]. *)
Record ClientSessionV1 : Type := mk_ClientSessionV1 {
  csv_last_sequence : N;
  csv_request_hash : bytes;
  csv_last_result : option SavedReplyV1;
  csv_retired : bool;
}.

(** [struct MembershipIntentV1]. *)
Record MembershipIntentV1 : Type := mk_MembershipIntentV1 {
  miv_actor_node_id : bytes;
  miv_request_hash : bytes;
  miv_expected_membership : option LogIdV1;
  miv_desired_plan : ChangeMembershipActionV1;
  miv_status_code : Z;
  miv_result_code : Z;
  miv_accepted_log_id : LogIdV1;
  miv_completed_log_id : option LogIdV1;
  miv_observed_membership_log_id : option LogIdV1;
}.

(** [struct NodeRouteV1]. *)
Record NodeRouteV1 : Type := mk_NodeRouteV1 {
  nrv_ticket_bytes : bytes;
  nrv_source_operation_id : bytes;
  nrv_introduced_log_id : LogIdV1;
}.

(** [bytes.try_into()] to an array of [n] bytes. *)
Definition narrow_width {E : Type} (n : N) (err : E) (b : bytes) : result bytes E :=
  if len b =? n then Ok b else Err err.

(** An [Option] narrowed through: [Some(x) => Some(f(x)?), None => None]. *)
Definition narrow_option {A B E : Type} (f : A -> result B E) (o : option A) : result (option B) E :=
  match o with
  | Some a => match f a with Ok b => Ok (Some b) | Err e => Err e end
  | None => Ok None
  end.

(** [iter().map(f).collect::<Result<Vec<_>, _>>()]: the first error, or all. *)
Fixpoint narrow_all {A B E : Type} (f : A -> result B E) (l : list A) : result (list B) E :=
  match l with
  | [] => Ok []
  | a :: rest =>
      match f a with
      | Err e => Err e
      | Ok b => match narrow_all f rest with Ok bs => Ok (b :: bs) | Err e => Err e end
      end
  end.

(** [Option::ok_or]. *)
Definition ok_or {A E : Type} (o : option A) (err : E) : result A E :=
  match o with Some a => Ok a | None => Err err end.

(** [wire::node_id], [wire::operation_id], [wire::hash]. *)
Definition wire_node_id : bytes -> result NodeId WireError := narrow_width 32 WE_NodeIdWidth.
Definition wire_operation_id : bytes -> result OperationId WireError := narrow_width 16 WE_OperationIdWidth.
Definition wire_hash : bytes -> result Hash WireError := narrow_width 32 WE_HashWidth.

(** [wire::resource_key], [wire::resource_key_to_wire]. *)
Definition wire_resource_key (w : ResourceKeyV1) : result ResourceKey WireError :=
  match ResourceKey_new (rkv_namespace w) (rkv_key w) with
  | Ok k => Ok k
  | Err _ => Err WE_ResourceKey
  end.
Definition resource_key_to_wire (k : ResourceKey) : ResourceKeyV1 :=
  mk_ResourceKeyV1 (rk_namespace k) (rk_key k).

(** [TryFrom<&LogIdV1> for LogId], [opt_log_id]. *)
Definition log_id_from_wire (w : LogIdV1) : result LogId WireError :=
  match wire_node_id (lv_leader_node_id w) with
  | Ok n => Ok (mk_LogId (lv_term w) n (lv_index w))
  | Err e => Err e
  end.
Definition opt_log_id : option LogIdV1 -> result (option LogId) WireError := narrow_option log_id_from_wire.

(** [From<&AuditRow> for AuditRowV1] and its [TryFrom]. *)
Definition audit_row_to_wire (r : AuditRow) : AuditRowV1 :=
  mk_AuditRowV1 (ar_leader_node_id r) (ar_actor r) (ar_operation_code r)
    (resource_key_to_wire <$> ar_resource r) (audit_result_code (ar_result r)) (ar_epoch r)
    (ar_value_revision r).

Definition audit_row_from_wire (w : AuditRowV1) : result AuditRow WireError :=
  let? resource := narrow_option wire_resource_key (arv_resource w) in
  let? leader := wire_node_id (arv_leader_node_id w) in
  let? actor := narrow_option wire_node_id (arv_actor_node_id w) in
  let? res := (if is_system_operation (arv_operation_code w) then Ok (AR_System (arv_result_code w))
               else let? o := ok_or (outcome_from_code (arv_result_code w)) WE_OutcomeCode in
                    Ok (AR_Client o)) in
  Ok (mk_AuditRow leader actor (arv_operation_code w) resource res (arv_epoch w) (arv_value_revision w)).

(** [From<&ResourceRow> for ResourceRowV1] and its [TryFrom]. *)
Definition resource_row_to_wire (r : ResourceRow) : ResourceRowV1 :=
  mk_ResourceRowV1 (rr_epoch r) (rr_held r) (rr_holder r) (rr_ttl_ms r) (rr_lease_revision r)
    (rr_value_revision r) (rr_value r) (rr_acl_revision r).

Definition resource_row_from_wire (w : ResourceRowV1) : result ResourceRow WireError :=
  let? holder := narrow_option wire_node_id (rrv_holder_node_id w) in
  if negb (eqb (rrv_held w) (bool_decide (is_Some holder))) then Err WE_LeaseIncoherent
  else Ok (mk_ResourceRow (rrv_epoch w) (rrv_held w) holder (rrv_ttl_ms w) (rrv_lease_revision w)
             (rrv_value_revision w) (rrv_value w) (rrv_acl_revision w)).

(** [saved_snapshot_to_wire], [saved_snapshot_from_wire]. *)
Definition saved_snapshot_to_wire (group_id : bytes) (s : SavedSnapshot) : SavedSnapshotV1 :=
  mk_SavedSnapshotV1 group_id (resource_key_to_wire (ss_resource s)) (ss_epoch s) (ss_holder s)
    (ss_held s) (ss_ttl_ms s) (ss_lease_revision s) (ss_value_revision s) (ss_acl_revision s).

Definition saved_snapshot_from_wire (group_id : bytes) (w : SavedSnapshotV1)
    : result SavedSnapshot WireError :=
  if negb (bool_decide (ssv_group_id w = group_id)) then Err WE_GroupMismatch
  else
    let? holder := narrow_option wire_node_id (ssv_holder w) in
    if negb (eqb (ssv_held w) (bool_decide (is_Some holder))) then Err WE_LeaseIncoherent
    else
      let? key := wire_resource_key (ssv_resource w) in
      Ok {| ss_resource := key; ss_epoch := ssv_epoch w; ss_holder := holder; ss_held := ssv_held w;
            ss_ttl_ms := ssv_ttl_ms w; ss_lease_revision := ssv_lease_revision w;
            ss_value_revision := ssv_value_revision w; ss_acl_revision := ssv_acl_revision w |}.

(** [wire::disposition_code], [STORED_DISPOSITION]. *)
Definition disposition_code (d : Disposition) : Z :=
  match d with
  | Consumed => 1
  | NotConsumed => 2
  end.
Definition STORED_DISPOSITION : Disposition := Consumed.

(** [saved_reply_to_wire], [saved_reply_from_wire]. *)
Definition saved_reply_to_wire (group_id : bytes) (r : SavedReply) : SavedReplyV1 :=
  mk_SavedReplyV1 (disposition_code STORED_DISPOSITION) (outcome_code (sr_outcome r))
    (reason_code (sr_reason r)) (saved_snapshot_to_wire group_id <$> sr_snapshot r)
    (sr_acl_revision r) (sr_admin_revision r) (sr_operation_id r)
    (log_id_to_wire <$> sr_membership_log_id r).

Definition saved_reply_from_wire (group_id : bytes) (w : SavedReplyV1) : result SavedReply WireError :=
  if negb (srv_disposition_code w =? disposition_code STORED_DISPOSITION)%Z
  then Err WE_DispositionCode
  else
    let? snapshot := narrow_option (saved_snapshot_from_wire group_id) (srv_snapshot w) in
    let? outcome := ok_or (outcome_from_code (srv_outcome_code w)) WE_OutcomeCode in
    let? reason := ok_or (reason_from_code (srv_reason_code w)) WE_ReasonCode in
    let? operation := narrow_option wire_operation_id (srv_operation_id w) in
    let? log := opt_log_id (srv_membership_log_id w) in
    Ok (mk_SavedReply outcome reason snapshot (srv_acl_revision w) (srv_admin_revision w) operation log).

(** [session_to_wire], [session_from_wire]. *)
Definition session_to_wire (group_id : bytes) (s : Session) : ClientSessionV1 :=
  mk_ClientSessionV1 (se_last_sequence s) (se_request_hash s)
    (saved_reply_to_wire group_id <$> se_last_result s) (se_retired s).

Definition session_from_wire (group_id : bytes) (w : ClientSessionV1) : result Session WireError :=
  let? h := wire_hash (csv_request_hash w) in
  let? reply := narrow_option (saved_reply_from_wire group_id) (csv_last_result w) in
  Ok (mk_Session (csv_last_sequence w) h reply (csv_retired w)).

(** One seed of [plan_from_wire]. *)
Definition seed_from_wire (w : MemberSeedV1) : result MemberSeed WireError :=
  let? n := wire_node_id (msv_node_id w) in
  Ok (mk_MemberSeed n (msv_ticket w) (msv_signed_join_permit w)).

(** [plan_from_wire]. *)
Definition plan_from_wire (w : ChangeMembershipActionV1)
    : result (OperationId * option LogId * MembershipPlan) WireError :=
  let? seeds := narrow_all seed_from_wire (cmv_member_seeds w) in
  let? operation := wire_operation_id (cmv_operation_id w) in
  let? expected := opt_log_id (cmv_expected_membership_log_id w) in
  let? voters := narrow_all (λ n, wire_node_id (nv_node_id n)) (cmv_desired_voters w) in
  let? learners := narrow_all (λ n, wire_node_id (nv_node_id n)) (cmv_retained_learners w) in
  Ok (operation, expected, mk_MembershipPlan voters learners seeds).

(** [intent_to_wire]. *)
Definition intent_to_wire (operation_id : OperationId) (i : Intent) : result MembershipIntentV1 WireError :=
  let? plan := ok_or (plan_to_wire (in_plan i) operation_id (in_expected_membership i)) WE_TicketEncoding in
  Ok {| miv_actor_node_id := in_actor i;
        miv_request_hash := in_request_hash i;
        miv_expected_membership := log_id_to_wire <$> in_expected_membership i;
        miv_desired_plan := plan;
        miv_status_code := in_status_code i;
        miv_result_code := in_result_code i;
        miv_accepted_log_id := log_id_to_wire (in_accepted_log_id i);
        miv_completed_log_id := log_id_to_wire <$> in_completed_log_id i;
        miv_observed_membership_log_id := log_id_to_wire <$> in_observed_membership_log_id i |}.

(** [wire::PHASES]. *)
Definition PHASES : list Z :=
  [PHASE_PENDING; PHASE_ADDING_LEARNERS; PHASE_CHANGING_VOTERS; PHASE_COMPLETED; PHASE_FAILED;
   PHASE_CANCEL_REQUESTED; PHASE_CANCELLED].

(** [intent_from_wire]. *)
Definition intent_from_wire (operation_id : OperationId) (w : MembershipIntentV1)
    : result Intent WireError :=
  let? p := plan_from_wire (miv_desired_plan w) in
  let '(plan_operation_id, plan_expected, plan) := p in
  if negb (bool_decide (plan_operation_id = operation_id)) then Err WE_KeyMismatch
  else
    let? expected := opt_log_id (miv_expected_membership w) in
    if negb (bool_decide (plan_expected = expected)) then Err WE_KeyMismatch
    else if negb (bool_decide (miv_status_code w ∈ PHASES)) then Err WE_PhaseCode
    else
      let? completed := opt_log_id (miv_completed_log_id w) in
      if negb (eqb (is_terminal_phase (miv_status_code w)) (bool_decide (is_Some completed)))
      then Err WE_IntentCompletionIncoherent
      else
        let? actor := wire_node_id (miv_actor_node_id w) in
        let? h := wire_hash (miv_request_hash w) in
        let? accepted := log_id_from_wire (miv_accepted_log_id w) in
        let? observed := opt_log_id (miv_observed_membership_log_id w) in
        Ok {| in_actor := actor; in_request_hash := h; in_expected_membership := expected;
              in_plan := plan; in_status_code := miv_status_code w;
              in_result_code := miv_result_code w; in_accepted_log_id := accepted;
              in_completed_log_id := completed; in_observed_membership_log_id := observed |}.

(** [From<&Route> for NodeRouteV1] and its [TryFrom]. *)
Definition route_to_wire (r : Route) : NodeRouteV1 :=
  mk_NodeRouteV1 (ro_ticket r) (ro_source_operation_id r) (log_id_to_wire (ro_introduced_log_id r)).

Definition route_from_wire (w : NodeRouteV1) : result Route WireError :=
  let? operation := wire_operation_id (nrv_source_operation_id w) in
  let? id := log_id_from_wire (nrv_introduced_log_id w) in
  Ok (mk_Route (nrv_ticket_bytes w) operation id).

(** ** Narrowing *)

Lemma narrow_width_Ok {E} n (err : E) b b' : narrow_width n err b = Ok b' <-> b' = b /\ len b = n.
Proof.
  unfold narrow_width. destruct (N.eqb_spec (len b) n); split; try done; [by intros [= <-]|by intros [-> _]|by intros [_ ?]].
Qed.

Lemma narrow_width_same {E} n (err : E) b : len b = n -> narrow_width n err b = Ok b.
Proof. intros. by apply narrow_width_Ok. Qed.

Lemma narrow_option_roundtrip {A B E} (f : B -> result A E) (g : A -> B) (o : option A) :
  (forall a, o = Some a -> f (g a) = Ok a) -> narrow_option f (g <$> o) = Ok o.
Proof. destruct o as [a|]; [|done]. simpl. intros H. by rewrite (H a). Qed.

Lemma narrow_option_same {A E} (f : A -> result A E) (o : option A) :
  (forall a, o = Some a -> f a = Ok a) -> narrow_option f o = Ok o.
Proof. destruct o as [a|]; [|done]. simpl. intros H. by rewrite (H a). Qed.

Lemma narrow_all_roundtrip {A B E} (f : B -> result A E) (g : A -> B) (l : list A) :
  (forall a, a ∈ l -> f (g a) = Ok a) -> narrow_all f (map g l) = Ok l.
Proof.
  induction l as [|a l IH]; intros H; simpl; [done|].
  rewrite H by set_solver. rewrite IH; [done|]. intros. apply H. set_solver.
Qed.

Lemma wire_resource_key_valid k : valid_key k -> wire_resource_key (resource_key_to_wire k) = Ok k.
Proof.
  intros Hk. unfold wire_resource_key. destruct k as [ns key]. simpl.
  assert (ResourceKey_new ns key = Ok (mk_ResourceKey ns key)) as -> by (by apply ResourceKey_new_Ok). done.
Qed.

(** ** The widths the source's types have *)

Definition log_id_typed (id : LogId) : Prop := len (li_leader_node_id id) = 32.
Definition log_ids_typed (o : option LogId) : Prop := forall id, o = Some id -> log_id_typed id.
Definition width_typed (n : N) (o : option bytes) : Prop := forall b, o = Some b -> len b = n.

Record reply_typed (r : SavedReply) : Prop := {
  rt_holder s : sr_snapshot r = Some s -> width_typed 32 (ss_holder s);
  rt_operation : width_typed 16 (sr_operation_id r);
  rt_log : log_ids_typed (sr_membership_log_id r);
}.

Record session_typed (s : Session) : Prop := {
  set_hash : len (se_request_hash s) = 32;
  set_reply r : se_last_result s = Some r -> reply_typed r;
}.

Record audit_typed (r : AuditRow) : Prop := {
  aut_leader : len (ar_leader_node_id r) = 32;
  aut_actor : width_typed 32 (ar_actor r);
}.

Record plan_typed (p : MembershipPlan) : Prop := {
  pt_voters n : n ∈ mp_desired_voters p -> len n = 32;
  pt_learners n : n ∈ mp_retained_learners p -> len n = 32;
  pt_seeds s : s ∈ mp_member_seeds p -> len (ms_node_id s) = 32;
}.

Record intent_typed (i : Intent) : Prop := {
  it_actor : len (in_actor i) = 32;
  it_hash : len (in_request_hash i) = 32;
  it_plan : plan_typed (in_plan i);
  it_expected : log_ids_typed (in_expected_membership i);
  it_accepted : log_id_typed (in_accepted_log_id i);
  it_completed : log_ids_typed (in_completed_log_id i);
  it_observed : log_ids_typed (in_observed_membership_log_id i);
}.

Record route_typed (r : Route) : Prop := {
  rot_operation : len (ro_source_operation_id r) = 16;
  rot_log : log_id_typed (ro_introduced_log_id r);
}.

(** ** Round trips *)

Lemma log_id_roundtrip id : log_id_typed id -> log_id_from_wire (log_id_to_wire id) = Ok id.
Proof.
  intros H. unfold log_id_from_wire, wire_node_id. simpl. rewrite narrow_width_same by done. by destruct id.
Qed.

Lemma opt_log_id_roundtrip o : log_ids_typed o -> opt_log_id (log_id_to_wire <$> o) = Ok o.
Proof. intros H. apply narrow_option_roundtrip. eauto using log_id_roundtrip. Qed.

Lemma opt_node_id_same o : width_typed 32 o -> narrow_option wire_node_id o = Ok o.
Proof. intros H. apply narrow_option_same. intros a Ha. apply narrow_width_same. auto. Qed.

Lemma resource_row_roundtrip r :
  width_typed 32 (rr_holder r) -> (rr_held r = true <-> is_Some (rr_holder r)) ->
  resource_row_from_wire (resource_row_to_wire r) = Ok r.
Proof.
  intros Hw Hh. unfold resource_row_from_wire. simpl. rewrite opt_node_id_same by done. simpl.
  replace (eqb _ _) with true by (symmetry; apply eqb_true_iff, eq_true_iff_eq;
    by rewrite bool_decide_eq_true). by destruct r.
Qed.

Lemma audit_row_roundtrip r :
  audit_typed r -> (forall k, ar_resource r = Some k -> valid_key k) ->
  (match ar_result r with AR_Client _ => false | AR_System _ => true end
     = is_system_operation (ar_operation_code r)) ->
  audit_row_from_wire (audit_row_to_wire r) = Ok r.
Proof.
  intros [Hl Ha] Hk Hr. unfold audit_row_from_wire. simpl.
  rewrite (narrow_option_roundtrip wire_resource_key resource_key_to_wire) by
    (intros; auto using wire_resource_key_valid). simpl.
  unfold wire_node_id at 1. rewrite narrow_width_same by done. simpl.
  rewrite opt_node_id_same by done. simpl. rewrite <- Hr. destruct r as [? ? ? ? []]; simpl; [|done].
  by rewrite outcome_code_from_code.
Qed.

Lemma saved_snapshot_roundtrip group s :
  width_typed 32 (ss_holder s) -> ss_held s = bool_decide (is_Some (ss_holder s)) ->
  valid_key (ss_resource s) ->
  saved_snapshot_from_wire group (saved_snapshot_to_wire group s) = Ok s.
Proof.
  intros Hw Hh Hk. unfold saved_snapshot_from_wire. simpl.
  rewrite bool_decide_eq_true_2 by done. simpl. rewrite opt_node_id_same by done. simpl.
  rewrite Hh, eqb_reflx. simpl. rewrite wire_resource_key_valid by done. simpl.
  by destruct s; simpl in *; subst.
Qed.

Lemma saved_reply_roundtrip group r :
  reply_typed r ->
  (forall s, sr_snapshot r = Some s ->
     ss_held s = bool_decide (is_Some (ss_holder s)) /\ valid_key (ss_resource s)) ->
  saved_reply_from_wire group (saved_reply_to_wire group r) = Ok r.
Proof.
  intros [Hh Ho Hl] Hs. unfold saved_reply_from_wire. simpl.
  rewrite (narrow_option_roundtrip (saved_snapshot_from_wire group)).
  2:{ intros s Hsn. destruct (Hs s Hsn). apply saved_snapshot_roundtrip; eauto. }
  simpl. rewrite outcome_code_from_code, reason_code_from_code. simpl.
  rewrite narrow_option_same by (intros; apply narrow_width_same; auto). simpl.
  rewrite opt_log_id_roundtrip by done. by destruct r.
Qed.

Lemma session_roundtrip group s :
  session_typed s ->
  (forall r sn, se_last_result s = Some r -> sr_snapshot r = Some sn ->
     ss_held sn = bool_decide (is_Some (ss_holder sn)) /\ valid_key (ss_resource sn)) ->
  session_from_wire group (session_to_wire group s) = Ok s.
Proof.
  intros [Hh Hr] Hs. unfold session_from_wire, wire_hash. simpl. rewrite narrow_width_same by done. simpl.
  rewrite (narrow_option_roundtrip (saved_reply_from_wire group)).
  2:{ intros r Hr'. apply saved_reply_roundtrip; eauto. }
  by destruct s.
Qed.

Lemma seeds_to_wire_utf8 seeds :
  (forall s, s ∈ seeds -> utf8_valid (ms_ticket s) = true) ->
  seeds_to_wire seeds =
    Some (map (λ s, mk_MemberSeedV1 (ms_node_id s) (ms_ticket s) (ms_join_permit s)) seeds).
Proof.
  induction seeds as [|s seeds IH]; intros H; simpl; [done|].
  rewrite (H s) by set_solver. rewrite IH; [done|]. intros. apply H. set_solver.
Qed.

Lemma plan_roundtrip plan operation expected :
  plan_typed plan -> len operation = 16 -> log_ids_typed expected ->
  (forall s, s ∈ mp_member_seeds plan -> utf8_valid (ms_ticket s) = true) ->
  exists w, plan_to_wire plan operation expected = Some w /\
    plan_from_wire w = Ok (operation, expected, plan).
Proof.
  intros [Hv Hl Hs] Ho He Hu. unfold plan_to_wire. rewrite seeds_to_wire_utf8 by done.
  eexists. split; [reflexivity|]. unfold plan_from_wire. simpl.
  rewrite (narrow_all_roundtrip seed_from_wire).
  2:{ intros s Hin. unfold seed_from_wire, wire_node_id. simpl. rewrite narrow_width_same by auto. by destruct s. }
  simpl. unfold wire_operation_id. rewrite narrow_width_same by done. simpl.
  rewrite opt_log_id_roundtrip by done. simpl.
  rewrite !(narrow_all_roundtrip (λ n, wire_node_id (nv_node_id n)) mk_NodeIdV1)
    by (intros; apply narrow_width_same; auto).
  by destruct plan.
Qed.

Lemma intent_roundtrip operation i :
  intent_typed i -> len operation = 16 -> in_status_code i ∈ PHASES ->
  is_terminal_phase (in_status_code i) = bool_decide (is_Some (in_completed_log_id i)) ->
  (forall s, s ∈ mp_member_seeds (in_plan i) -> utf8_valid (ms_ticket s) = true) ->
  exists w, intent_to_wire operation i = Ok w /\ intent_from_wire operation w = Ok i.
Proof.
  intros [Ha Hh Hp He Hac Hc Hob] Ho Hph Ht Hu.
  destruct (plan_roundtrip _ operation (in_expected_membership i) Hp Ho He Hu) as (w & Hw & Hback).
  unfold intent_to_wire. rewrite Hw. simpl. eexists. split; [reflexivity|].
  unfold intent_from_wire. simpl. rewrite Hback. simpl. rewrite bool_decide_eq_true_2 by done. simpl.
  rewrite opt_log_id_roundtrip by done. simpl. rewrite bool_decide_eq_true_2 by done. simpl.
  rewrite bool_decide_eq_true_2 by done. simpl. rewrite opt_log_id_roundtrip by done. simpl.
  rewrite Ht, eqb_reflx. simpl. unfold wire_node_id, wire_hash. rewrite !narrow_width_same by done. simpl.
  rewrite log_id_roundtrip, opt_log_id_roundtrip by done. by destruct i.
Qed.

Lemma route_roundtrip r : route_typed r -> route_from_wire (route_to_wire r) = Ok r.
Proof.
  intros [Ho Hl]. unfold route_from_wire, wire_operation_id. simpl. rewrite narrow_width_same by done. simpl.
  rewrite log_id_roundtrip by done. by destruct r.
Qed.
