(* ===== verification/Boundary.v ===== *)
(** * The production boundary

    Models [aster/src/coordination/model/boundary.rs] with the parts of
    [contract.rs], [hash.rs] and [model/project.rs] it uses: the wire command
    and reply unions, the request hash, the narrowing of a committed command
    with its three outcomes (a model command, a rejection forced through the
    log, a fatal unknown variant), and the projection of a reply with value
    redaction. The Fory codec is a parameter; [fory_core::UnknownCase], which
    no code of this crate inspects, is a type parameter. *)

From S2P Require Import Prelude Reason Ids Contract Externals Limits State Tables Shape Resource.
From S2P Require Import Grant Retire Membership Apply Wire.

#[local] Open Scope N_scope.
#[local] Open Scope coordination_scope.

(** [fory_core::UnknownCase]. *)
Class UnknownCarrier : Type := UnknownCase : Type.

(** [struct FenceV1]. *)
Record FenceV1 : Type := mk_FenceV1 {
  fev_group_id : bytes;
  fev_resource : ResourceKeyV1;
  fev_epoch : N;
  fev_holder : bytes;
}.

(** [enum ActionV1], a constructor per variant with its wrapper's fields. *)
Inductive ActionV1 `{UnknownCarrier} : Type :=
| AV_Acquire (resource : ResourceKeyV1) (ttl_ms : N)
| AV_Renew (fence : FenceV1)
| AV_CompareAndSet (fence : FenceV1) (expected_value_revision : N) (new_value : bytes)
| AV_Release (fence : FenceV1)
| AV_ReleaseWithValue (fence : FenceV1) (expected_value_revision : N) (final_value : bytes)
| AV_Revoke (resource : ResourceKeyV1) (expected_epoch : option N)
| AV_SetGrant (resource : ResourceKeyV1) (target_node_id : bytes) (rights : N)
    (expected_acl_revision : N)
| AV_SetAdmin (target_node_id : bytes) (enabled : bool) (expected_admin_revision : N)
| AV_ChangeMembership (a : ChangeMembershipActionV1)
| AV_CancelMembership (operation_id : bytes) (expected_phase_code : Z)
| AV_Unknown (case : UnknownCase).

(** [struct ClientCommandV1]. *)
Record ClientCommandV1 `{UnknownCarrier} : Type := mk_ClientCommandV1 {
  ccv_actor_node_id : bytes;
  ccv_client_id : bytes;
  ccv_sequence : N;
  ccv_request_hash : bytes;
  ccv_action : ActionV1;
}.

(** [enum CommandV1]; the four other payload structs are the constructors'
    fields. *)
Inductive CommandV1 `{UnknownCarrier} : Type :=
| CV_Client (c : ClientCommandV1)
| CV_Expire (resource : ResourceKeyV1) (epoch lease_revision : N)
| CV_MembershipProgress (operation_id : bytes) (expected_phase new_phase : Z)
    (observed_membership_log_id : option LogIdV1) (result_code : Z)
| CV_RetireClient (actor_node_id target_node_id target_client_id : bytes)
| CV_Genesis (signed_genesis : bytes)
| CV_Unknown (case : UnknownCase).

(** [struct ResourceSnapshotV1]. *)
Record ResourceSnapshotV1 : Type := mk_ResourceSnapshotV1 {
  rsv_group_id : bytes;
  rsv_resource : ResourceKeyV1;
  rsv_epoch : N;
  rsv_holder : option bytes;
  rsv_held : bool;
  rsv_ttl_ms : N;
  rsv_lease_revision : N;
  rsv_value_revision : N;
  rsv_acl_revision : N;
  rsv_value : option bytes;
  rsv_value_redacted : bool;
}.

(** [struct ClientReplyV1]. *)
Record ClientReplyV1 : Type := mk_ClientReplyV1 {
  crv_disposition_code : Z;
  crv_outcome_code : Z;
  crv_reason_code : Z;
  crv_snapshot : option ResourceSnapshotV1;
  crv_acl_revision : N;
  crv_admin_revision : N;
  crv_operation_id : option bytes;
  crv_membership_log_id : option LogIdV1;
}.

(** [struct SystemReplyV1], [struct RetirementReplyV1]. *)
Record SystemReplyV1 : Type := mk_SystemReplyV1 {
  syv_system_result_code : Z;
  syv_lease_revision : N;
  syv_membership_log_id : option LogIdV1;
}.

Record RetirementReplyV1 : Type := mk_RetirementReplyV1 {
  rtv_outcome_code : Z;
  rtv_reason_code : Z;
}.

(** [enum CommandReplyV1]; [NonCommandReplyV1] has no field. *)
Inductive CommandReplyV1 `{UnknownCarrier} : Type :=
| RV_Client (r : ClientReplyV1)
| RV_System (r : SystemReplyV1)
| RV_Retirement (r : RetirementReplyV1)
| RV_NonCommand
| RV_Unknown (case : UnknownCase).

(** [payload_fory::<T>().serialize(&v)] on the two unions, [None] for an
    encoding error. *)
Class CommandCodec `{UnknownCarrier} : Type := {
  fory_encode_action : ActionV1 -> option bytes;
  fory_encode_command : CommandV1 -> option bytes;
}.

(** [enum NarrowError]. *)
Inductive NarrowError : Type :=
| UnknownVariant
| MalformedField (limit : ShapeLimit).

(** [enum HashError]. *)
Inductive HashError : Type :=
| HE_UnknownVariant
| HE_Encode.

(** [ACTION_DOMAIN]: ["aster-coordination/action/v1\0"]. *)
Definition ACTION_DOMAIN : bytes :=
  String.list_byte_of_string "aster-coordination/action/v1" ++ [Byte.x00].

(** [node_id], [client_id], [hash]. *)
Definition narrow_node_id : bytes -> result NodeId NarrowError :=
  narrow_width 32 (MalformedField SL_NodeIdWidth).
Definition narrow_client_id : bytes -> result ClientId NarrowError :=
  narrow_width 16 (MalformedField SL_ClientIdWidth).
Definition narrow_hash : bytes -> result Hash NarrowError :=
  narrow_width 32 (MalformedField SL_RequestHashWidth).

(** [raw_key]. *)
Definition raw_key_of (k : ResourceKeyV1) : RawResourceKey :=
  mk_RawResourceKey (rkv_namespace k) (rkv_key k).

(** [fence]. *)
Definition narrow_fence (f : FenceV1) : result Fence NarrowError :=
  let? group := narrow_width 32 (MalformedField SL_FenceGroupWidth) (fev_group_id f) in
  let? holder := narrow_node_id (fev_holder f) in
  Ok (mk_Fence group (raw_key_of (fev_resource f)) (fev_epoch f) holder).

(** [log_id]. *)
Definition narrow_log_id (id : LogIdV1) : result LogId NarrowError :=
  match log_id_from_wire id with
  | Ok id => Ok id
  | Err _ => Err (MalformedField SL_NodeIdWidth)
  end.

(** The seed closure of [action_from_wire]. *)
Definition narrow_seed (s : MemberSeedV1) : result MemberSeed NarrowError :=
  let? n := narrow_node_id (msv_node_id s) in
  Ok (mk_MemberSeed n (msv_ticket s) (msv_signed_join_permit s)).

Section boundary.
Context `{Carrier : UnknownCarrier}.

(** [CommandV1::expected_reply_variant], [CommandReplyV1::variant_id]. *)
Definition expected_reply_variant (c : CommandV1) : option N :=
  match c with
  | CV_Client _ => Some 1
  | CV_Expire _ _ _ | CV_MembershipProgress _ _ _ _ _ | CV_Genesis _ => Some 2
  | CV_RetireClient _ _ _ => Some 3
  | CV_Unknown _ => None
  end.

Definition variant_id (r : CommandReplyV1) : option N :=
  match r with
  | RV_Client _ => Some 1
  | RV_System _ => Some 2
  | RV_Retirement _ => Some 3
  | RV_NonCommand => Some 4
  | RV_Unknown _ => None
  end.

(** [action_from_wire]. *)
Definition action_from_wire (action : ActionV1) : result Action NarrowError :=
  match action with
  | AV_Acquire resource ttl => Ok (A_Resource (Acquire (raw_key_of resource) ttl))
  | AV_Renew f => let? f := narrow_fence f in Ok (A_Resource (Renew f))
  | AV_CompareAndSet f revision value =>
      let? f := narrow_fence f in Ok (A_Resource (CompareAndSet f revision value))
  | AV_Release f => let? f := narrow_fence f in Ok (A_Resource (Release f))
  | AV_ReleaseWithValue f revision value =>
      let? f := narrow_fence f in Ok (A_Resource (ReleaseWithValue f revision value))
  | AV_Revoke resource epoch => Ok (A_Resource (Revoke (raw_key_of resource) epoch))
  | AV_SetGrant resource target rights revision =>
      let? subject := narrow_node_id target in
      Ok (A_Grant {| gra_resource := raw_key_of resource; gra_subject := subject;
                     gra_rights := rights; gra_expected_acl_revision := revision |})
  | AV_SetAdmin target enabled revision =>
      let? target := narrow_node_id target in
      Ok (A_Admin {| ada_target := target; ada_enabled := enabled;
                     ada_expected_admin_revision := revision |})
  | AV_ChangeMembership a =>
      let? operation := narrow_client_id (cmv_operation_id a) in
      let? expected := narrow_option narrow_log_id (cmv_expected_membership_log_id a) in
      let? voters := narrow_all (λ n, narrow_node_id (nv_node_id n)) (cmv_desired_voters a) in
      let? learners := narrow_all (λ n, narrow_node_id (nv_node_id n)) (cmv_retained_learners a) in
      let? seeds := narrow_all narrow_seed (cmv_member_seeds a) in
      Ok (A_ChangeMembership
            {| cha_operation_id := operation; cha_expected_membership_log_id := expected;
               cha_plan := mk_MembershipPlan voters learners seeds |})
  | AV_CancelMembership operation phase =>
      let? operation := narrow_client_id operation in
      Ok (A_CancelMembership
            {| caa_operation_id := operation; caa_expected_phase_code := phase |})
  | AV_Unknown _ => Err UnknownVariant
  end.

(** [unknown_variant]. *)
Definition unknown_variant (command : CommandV1) : bool :=
  match command with
  | CV_Unknown _ => true
  | CV_Client c => match ccv_action c with AV_Unknown _ => true | _ => false end
  | _ => false
  end.

(** [wire_resource]. *)
Definition wire_resource (action : ActionV1) : option ResourceKey :=
  match action with
  | AV_Acquire resource _ | AV_Revoke resource _ | AV_SetGrant resource _ _ _ =>
      result_ok (validate (raw_key_of resource))
  | AV_Renew f | AV_CompareAndSet f _ _ | AV_Release f | AV_ReleaseWithValue f _ _ =>
      result_ok (validate (raw_key_of (fev_resource f)))
  | AV_SetAdmin _ _ _ | AV_ChangeMembership _ | AV_CancelMembership _ _ | AV_Unknown _ => None
  end.

(** [wire_operation_code]. *)
Definition wire_operation_code (action : ActionV1) : Z :=
  match action with
  | AV_Acquire _ _ => 1
  | AV_Renew _ => 2
  | AV_CompareAndSet _ _ _ => 3
  | AV_Release _ => 4
  | AV_ReleaseWithValue _ _ _ => 5
  | AV_Revoke _ _ => 6
  | AV_SetGrant _ _ _ _ => 7
  | AV_SetAdmin _ _ _ => 8
  | AV_ChangeMembership _ => 9
  | AV_CancelMembership _ _ => 11
  | AV_Unknown _ => 0
  end%Z.

(** [shape_rejection]. *)
Definition shape_rejection (command : CommandV1) : Command :=
  match command with
  | CV_Client c =>
      match narrow_node_id (ccv_actor_node_id c), narrow_client_id (ccv_client_id c),
            narrow_hash (ccv_request_hash c) with
      | Ok actor, Ok cid, Ok h =>
          C_RejectedClient (mk_ClientRef actor cid (ccv_sequence c) h)
            (wire_operation_code (ccv_action c)) (wire_resource (ccv_action c))
      | actor, _, _ =>
          C_Shapeless {| shc_operation_code := wire_operation_code (ccv_action c);
                         shc_reply_shape := RS_Client;
                         shc_system_result_code := 0;
                         shc_actor := result_ok actor;
                         shc_resource := wire_resource (ccv_action c) |}
      end
  | CV_RetireClient actor _ _ =>
      C_Shapeless {| shc_operation_code := OPERATION_RETIRE_CLIENT;
                     shc_reply_shape := RS_Retirement;
                     shc_system_result_code := 0;
                     shc_actor := result_ok (narrow_node_id actor);
                     shc_resource := None |}
  | CV_Expire _ _ _ =>
      C_Shapeless {| shc_operation_code := OPERATION_EXPIRE;
                     shc_reply_shape := RS_System;
                     shc_system_result_code := SYS_EXPIRE_MALFORMED;
                     shc_actor := None;
                     shc_resource := None |}
  | CV_MembershipProgress _ _ _ _ _ =>
      C_Shapeless {| shc_operation_code := OPERATION_MEMBERSHIP_PROGRESS;
                     shc_reply_shape := RS_System;
                     shc_system_result_code := SYS_MEMBERSHIP_MALFORMED;
                     shc_actor := None;
                     shc_resource := None |}
  | CV_Genesis signed => C_Genesis signed
  | CV_Unknown _ => C_Unknown
  end.

Context `{Ext : Externals} {Codec : CommandCodec}.

(** [canonical_bytes]. *)
Definition canonical_bytes (action : ActionV1) : result bytes HashError :=
  match action with
  | AV_Unknown _ => Err HE_UnknownVariant
  | _ => match fory_encode_action action with Some b => Ok b | None => Err HE_Encode end
  end.

(** [request_hash]. *)
Definition request_hash (action : ActionV1) : result Hash HashError :=
  let? encoded := canonical_bytes action in
  Ok (blake3 (ACTION_DOMAIN ++ encoded)).

(** [command_from_wire]. *)
Definition command_from_wire (command : CommandV1) : result Command NarrowError :=
  match command with
  | CV_Client c =>
      let? actor := narrow_node_id (ccv_actor_node_id c) in
      let? cid := narrow_client_id (ccv_client_id c) in
      let? h := narrow_hash (ccv_request_hash c) in
      let? narrowed := action_from_wire (ccv_action c) in
      match request_hash (ccv_action c) with
      | Err _ => Err (MalformedField SL_RequestHashMismatch)
      | Ok expected =>
          if negb (bool_decide (h = expected)) then Err (MalformedField SL_RequestHashMismatch)
          else Ok (C_Client (mk_ClientRef actor cid (ccv_sequence c) h) narrowed)
      end
  | CV_Expire resource epoch lease_revision =>
      match validate (raw_key_of resource) with
      | Ok key => Ok (C_Expire {| ec_resource := key; ec_epoch := epoch;
                                  ec_lease_revision := lease_revision |})
      | Err limit => Err (MalformedField limit)
      end
  | CV_MembershipProgress operation expected new observed code =>
      let? operation := narrow_client_id operation in
      let? observed := narrow_option narrow_log_id observed in
      Ok (C_MembershipProgress
            {| mpc_operation_id := operation; mpc_expected_phase := expected;
               mpc_new_phase := new; mpc_observed_membership_log_id := observed;
               mpc_result_code := code |})
  | CV_RetireClient actor target client =>
      let? actor := narrow_node_id actor in
      let? target := narrow_node_id target in
      let? client := narrow_client_id client in
      Ok (C_RetireClient {| rc_actor := actor; rc_target_actor := target;
                            rc_target_client_id := client |})
  | CV_Genesis signed => Ok (C_Genesis signed)
  | CV_Unknown _ => Ok C_Unknown
  end.

(** [oversized]: a command that will not encode has length [usize::MAX]. *)
Definition oversized (command : CommandV1) : bool :=
  let encoded_len := from_option len U64_MAX (fory_encode_command command) in
  bool_decide (is_Some (check_encoded_command encoded_len)).

(** [command_for_apply]. *)
Definition command_for_apply (command : CommandV1) : result Command NarrowError :=
  if unknown_variant command then Err UnknownVariant
  else if oversized command then Ok (shape_rejection command)
  else match command_from_wire command with
       | Ok model => Ok model
       | Err UnknownVariant => Err UnknownVariant
       | Err (MalformedField _) => Ok (shape_rejection command)
       end.

(** [enum Provenance]. *)
Inductive Provenance : Type :=
| FirstAttempt
| FromReplay.

(** [project::client_reply]. *)
Definition client_reply (group_id : bytes) (reply : SavedReply) (disposition : Disposition)
    (provenance : Provenance) (value : option bytes) : ClientReplyV1 :=
  let snapshot :=
    (λ saved,
       let '(value, redacted) :=
         match provenance with
         | FirstAttempt => (value, false)
         | FromReplay => (None, true)
         end in
       {| rsv_group_id := group_id;
          rsv_resource := resource_key_to_wire (ss_resource saved);
          rsv_epoch := ss_epoch saved;
          rsv_holder := ss_holder saved;
          rsv_held := ss_held saved;
          rsv_ttl_ms := ss_ttl_ms saved;
          rsv_lease_revision := ss_lease_revision saved;
          rsv_value_revision := ss_value_revision saved;
          rsv_acl_revision := ss_acl_revision saved;
          rsv_value := value;
          rsv_value_redacted := redacted |}) <$> sr_snapshot reply in
  {| crv_disposition_code := disposition_code disposition;
     crv_outcome_code := outcome_code (sr_outcome reply);
     crv_reason_code := reason_code (sr_reason reply);
     crv_snapshot := snapshot;
     crv_acl_revision := sr_acl_revision reply;
     crv_admin_revision := sr_admin_revision reply;
     crv_operation_id := sr_operation_id reply;
     crv_membership_log_id := log_id_to_wire <$> sr_membership_log_id reply |}.

(** [project::system_reply], [project::retirement_reply]. *)
Definition system_reply (code : Z) (lease_revision : N) (membership : option LogId)
    : SystemReplyV1 :=
  mk_SystemReplyV1 code lease_revision (log_id_to_wire <$> membership).

Definition retirement_reply (outcome : Outcome) (reason : Reason) : RetirementReplyV1 :=
  mk_RetirementReplyV1 (outcome_code outcome) (reason_code reason).

(** [client_reply_for]. *)
Definition client_reply_for (state : State) (group_id : bytes) (command : Command)
    (res : ClientResult) : ClientReplyV1 :=
  let provenance := if clr_replayed res then FromReplay else FirstAttempt in
  let actor := match command with
               | C_Client client _ => Some (cr_actor client)
               | _ => None
               end in
  let value :=
    match provenance with
    | FromReplay => None
    | FirstAttempt =>
        key ← sr_resource (clr_reply res);
        actor ← actor;
        if negb (N.land (granted_rights state key actor) RIGHT_READ =? 0)
        then rr_value <$> st_resources state !! key
        else None
    end in
  client_reply group_id (clr_reply res) (clr_disposition res) provenance value.

(** [to_wire]. *)
Definition to_wire (state : State) (group_id : bytes) (command : Command) (reply : CommandReply)
    : CommandReplyV1 :=
  match reply with
  | CR_Client res => RV_Client (client_reply_for state group_id command res)
  | CR_System r =>
      RV_System (system_reply (sys_result_code r) (sys_lease_revision r) (st_membership_log_id state))
  | CR_Retirement r => RV_Retirement (retirement_reply (ret_outcome r) (ret_reason r))
  end.

(** [apply_wire_command_recording]. *)
Definition apply_wire_command_recording (log_id : LogId) (group_id : bytes) (command : CommandV1)
    (tx : Tx) : result CommandReplyV1 Fault * Tx :=
  match command_for_apply command with
  | Err _ => (Err UnknownCommand, tx)
  | Ok model =>
      match apply_command_recording log_id model tx with
      | (Ok reply, tx) => (Ok (to_wire (tx_state tx) group_id model reply), tx)
      | (Err f, tx) => (Err f, tx)
      end
  end.

(** [apply_wire_command]. *)
Definition apply_wire_command (log_id : LogId) (group_id : bytes) (command : CommandV1)
    (state : State) : result CommandReplyV1 Fault * State :=
  let '(r, tx) :=
    apply_wire_command_recording log_id group_id command (mk_Tx state ChangeSet_default) in
  (r, tx_state tx).
End boundary.
