(* ===== verification/Changes.v ===== *)
(** * Change sets are complete, and what a writer leaves alone

    The storage layer writes only the rows an entry's [ChangeSet] names. The
    theorems show that this loses nothing: every row on which the state after
    an applied command differs from the state before is recorded, a change set is
    only ever added to, and rewriting exactly the recorded rows of the old
    tables gives the new tables. *)

From S2P Require Import Prelude Reason Ids Contract Externals Limits State Tables Classify.
From S2P Require Import Authority Shape Genesis Resource Grant Retire Membership Apply.

#[local] Open Scope N_scope.

(** Peel one writer off the right of a goal [tx_recorded tx (writer tx')]. *)
Ltac recorded_step :=
  first [ reflexivity
        | etrans; [|solve [eauto 2 with coord nocore
                          | apply tx_modify_recorded; intros; by split_and!]] ].
Ltac recorded := repeat recorded_step.

Lemma growth_add_recorded n tx : tx_recorded tx (growth_add n tx).
Proof. unfold growth_add. recorded. Qed.
Lemma growth_sub_recorded n tx : tx_recorded tx (growth_sub n tx).
Proof. unfold growth_sub. recorded. Qed.
Lemma charge_resource_row_recorded k n tx : tx_recorded tx (charge_resource_row k n tx).
Proof. unfold charge_resource_row. recorded. Qed.
#[export] Hint Resolve growth_add_recorded growth_sub_recorded charge_resource_row_recorded : coord.

Lemma prune_one_recorded tx : tx_recorded tx (prune_one tx).
Proof. unfold prune_one. destruct (btree_iter _) as [|[k r] t]; recorded. Qed.
#[export] Hint Resolve prune_one_recorded : coord.

Lemma prune_loop_recorded fuel tx : tx_recorded tx (prune_loop fuel tx).
Proof.
  revert tx. induction fuel as [|fuel IH]; intros tx; simpl; [reflexivity|].
  destruct (_ <? _); [|reflexivity]. etrans; [|apply IH]. recorded.
Qed.

Lemma write_audit_row_recorded log_id row tx : tx_recorded tx (write_audit_row log_id row tx).
Proof.
  unfold write_audit_row, prune_audit. etrans; [|apply prune_loop_recorded]. recorded.
Qed.
Lemma store_session_recorded key row tx : tx_recorded tx (store_session key row tx).
Proof. unfold store_session. recorded. Qed.
#[export] Hint Resolve write_audit_row_recorded store_session_recorded : coord.

Lemma foldl_recorded {A} (f : Tx -> A -> Tx) l tx :
  (forall tx a, tx_recorded tx (f tx a)) -> tx_recorded tx (foldl f tx l).
Proof.
  intros Hf. revert tx. induction l as [|a l IH]; intros tx; simpl; [reflexivity|].
  etrans; [apply Hf|apply IH].
Qed.

Section changes.
Context `{Ext : Externals}.

Lemma evict_intent_recorded id tx : tx_recorded tx (evict_intent id tx).
Proof.
  unfold evict_intent. pose proof (remove_intent_recorded id tx) as H.
  destruct (remove_intent id tx) as [[old|] tx']; simpl in H; [|done]. etrans; [exact H|]. recorded.
Qed.
Lemma evict_route_recorded node tx : tx_recorded tx (evict_route node tx).
Proof.
  unfold evict_route. pose proof (remove_route_recorded node tx) as H.
  destruct (remove_route node tx) as [[old|] tx']; simpl in H; [|done]. etrans; [exact H|]. recorded.
Qed.
Lemma store_intent_recorded id i tx : tx_recorded tx (store_intent id i tx).
Proof. unfold store_intent. recorded. Qed.
Lemma store_route_recorded log_id nr tx : tx_recorded tx (store_route log_id nr tx).
Proof. unfold store_route. recorded. Qed.

Lemma write_intent_recorded log_id e tx : tx_recorded tx (write_intent log_id e tx).
Proof.
  unfold write_intent.
  etrans; [|apply foldl_recorded; intros; apply store_route_recorded].
  etrans; [|apply foldl_recorded; intros; apply evict_route_recorded].
  etrans; [|apply store_intent_recorded].
  apply foldl_recorded. intros. apply evict_intent_recorded.
Qed.

Lemma write_grant_recorded e tx : tx_recorded tx (write_grant e tx).
Proof.
  unfold write_grant. destruct (gre_rights e); [destruct (gre_creates_acl_row e); recorded|].
  set (tx1 := put_resource _ _ _). pose proof (remove_grant_recorded (gre_key e, gre_subject e) tx1) as H.
  destruct (remove_grant _ tx1) as [[] tx']; simpl in H; recorded; (etrans; [|exact H]);
    unfold tx1; recorded.
Qed.

Lemma write_admin_recorded e tx : tx_recorded tx (write_admin e tx).
Proof.
  unfold write_admin. etrans; [|apply tx_modify_recorded; intros; by split_and!].
  destruct (ade_enabled e).
  - pose proof (put_admin_recorded (ade_target e) tx) as H.
    destruct (put_admin _ tx) as [[] tx']; simpl in H; [|done]. etrans; [exact H|]. recorded.
  - pose proof (remove_admin_recorded (ade_target e) tx) as H.
    destruct (remove_admin _ tx) as [[] tx']; simpl in H; [|done]. etrans; [exact H|]. recorded.
Qed.

Lemma apply_decided_recorded log_id client action tx :
  tx_recorded tx (apply_decided log_id client action tx).2.
Proof.
  unfold apply_decided. destruct (action_decide _ _ _ _) as [[]|[]|[]|[]]; simpl;
    solve [reflexivity | recorded | apply write_grant_recorded | apply write_admin_recorded
          | apply write_intent_recorded].
Qed.

Lemma apply_client_recorded log_id client action tx :
  tx_recorded tx (apply_client log_id client action tx).2.
Proof.
  unfold apply_client, write_audit. destruct (classify_client _ _); simpl.
  - pose proof (apply_decided_recorded log_id client action tx) as H.
    destruct (apply_decided _ _ _ _) as [r tx']; simpl in *. unfold write_session.
    recorded.
  - recorded.
  - recorded.
Qed.

Lemma apply_genesis_recorded log_id signed tx :
  tx_recorded tx (apply_genesis log_id signed tx).2.
Proof.
  unfold apply_genesis. repeat case_match; simpl; try solve [recorded].
  etrans; [|apply write_audit_row_recorded]. unfold install_admins.
  do 2 (etrans; [|apply tx_modify_recorded; intros; by split_and!]).
  apply foldl_recorded. intros. apply put_admin_recorded.
Qed.

Lemma dispatch_recorded log_id command tx : tx_recorded tx (dispatch log_id command tx).2.
Proof.
  unfold dispatch. destruct command; simpl.
  - reflexivity.
  - pose proof (apply_client_recorded log_id client action tx).
    by destruct (apply_client _ _ _ _).
  - unfold apply_rejected_client, write_session. destruct (classify_client _ _); simpl; recorded.
  - unfold apply_shapeless. simpl. recorded.
  - unfold apply_expire. simpl. destruct (expire_decide _ _); recorded.
  - unfold apply_membership_progress. destruct (decide_progress _ _); simpl; recorded.
    apply write_intent_recorded.
  - unfold apply_retire. destruct (retire_decide _ _); simpl; [|recorded].
    destruct (effect_row _ _ _); recorded.
  - pose proof (apply_genesis_recorded log_id signed_genesis tx).
    by destruct (apply_genesis _ _ _) as [[] tx'].
Qed.

Lemma apply_recorded log_id command tx :
  tx_recorded tx (apply_command_recording log_id command tx).2.
Proof.
  unfold apply_command_recording. destruct (guard_delivery _ _); [|reflexivity].
  pose proof (dispatch_recorded log_id command tx) as H.
  destruct (dispatch _ _ _) as [[] tx']; simpl in *; recorded.
Qed.
End changes.

(** ** What each writer leaves alone

    The writers of the apply path, by the tables they touch: the audit writer
    with its pruning, the session writer, and the writer of membership intents
    and routes. The frame relations let each component's invariant be
    preserved by a lookup instead of by replaying the writers. *)

(** The two states differ in the audit table, its tip and floor and the reserve
    counter at most. *)
Record audit_only (s s' : State) : Prop := {
  ao_resources : st_resources s' = st_resources s;
  ao_acl : st_acl s' = st_acl s;
  ao_admins : st_admins s' = st_admins s;
  ao_sessions : st_sessions s' = st_sessions s;
  ao_intents : st_intents s' = st_intents s;
  ao_routes : st_routes s' = st_routes s;
  ao_growth : st_growth_bytes s' = st_growth_bytes s;
  ao_admin_revision : st_admin_revision s' = st_admin_revision s;
  ao_authority : st_authority s' = st_authority s;
  ao_profile : st_deployment_profile_code s' = st_deployment_profile_code s;
  ao_membership : st_membership s' = st_membership s;
  ao_membership_log_id : st_membership_log_id s' = st_membership_log_id s;
  ao_last_applied : st_last_applied s' = st_last_applied s;
}.

(** The two states differ in the intents, the routes and the growth counter at
    most. *)
Record membership_only (s s' : State) : Prop := {
  mo_resources : st_resources s' = st_resources s;
  mo_acl : st_acl s' = st_acl s;
  mo_admins : st_admins s' = st_admins s;
  mo_sessions : st_sessions s' = st_sessions s;
  mo_audit : st_audit s' = st_audit s;
  mo_audit_tip : st_audit_tip s' = st_audit_tip s;
  mo_audit_floor : st_audit_floor s' = st_audit_floor s;
  mo_reserve : st_reserve_bytes s' = st_reserve_bytes s;
  mo_admin_revision : st_admin_revision s' = st_admin_revision s;
  mo_authority : st_authority s' = st_authority s;
  mo_profile : st_deployment_profile_code s' = st_deployment_profile_code s;
  mo_membership : st_membership s' = st_membership s;
  mo_membership_log_id : st_membership_log_id s' = st_membership_log_id s;
  mo_last_applied : st_last_applied s' = st_last_applied s;
}.

#[export] Instance audit_only_preorder : PreOrder audit_only.
Proof. split; [by split|]. intros ??? [] []. split; congruence. Qed.
#[export] Instance membership_only_preorder : PreOrder membership_only.
Proof. split; [by split|]. intros ??? [] []. split; congruence. Qed.

(** A fold of steps each in a preorder is in it. *)
Lemma foldl_preorder {A} (R : State -> State -> Prop) `{!PreOrder R} (f : Tx -> A -> Tx) l tx :
  (forall tx a, R (tx_state tx) (tx_state (f tx a))) ->
  R (tx_state tx) (tx_state (foldl f tx l)).
Proof.
  intros Hf. revert tx. induction l as [|a l IH]; intros tx; simpl; [reflexivity|].
  etrans; [apply Hf|apply IH].
Qed.

(** ** The audit writer *)

Lemma prune_one_frame tx : audit_only (tx_state tx) (tx_state (prune_one tx)).
Proof. unfold prune_one. destruct (btree_iter _) as [|[k r] t]; by split. Qed.

Lemma prune_loop_frame fuel tx : audit_only (tx_state tx) (tx_state (prune_loop fuel tx)).
Proof.
  revert tx. induction fuel as [|fuel IH]; intros tx; simpl; [reflexivity|].
  destruct (_ <? _); [|reflexivity]. etrans; [apply prune_one_frame|apply IH].
Qed.

Lemma write_audit_row_frame log_id row tx :
  audit_only (tx_state tx) (tx_state (write_audit_row log_id row tx)).
Proof. unfold write_audit_row, prune_audit. etrans; [|apply prune_loop_frame]. by split. Qed.

(** ** The membership writer *)

Section membership_writer.
Context `{Ext : Externals}.

(** The intents after a write: the evicted ones gone, the new one stored. *)
Definition intents_after (log_id : LogId) (e : IntentEffect) (m : gmap OperationId Intent)
    : gmap OperationId Intent :=
  <[ie_operation_id e := stamp_intent log_id (ie_intent e)]>
    (foldl (λ m id, delete id m) m (ie_evict e)).

(** The stamped route [store_route] writes. *)
Definition stamped_route (log_id : LogId) (r : Route) : Route :=
  mk_Route (ro_ticket r) (ro_source_operation_id r)
    (if li_index (ro_introduced_log_id r) =? 0 then log_id else ro_introduced_log_id r).

Definition routes_after (log_id : LogId) (e : IntentEffect) (m : gmap NodeId Route)
    : gmap NodeId Route :=
  foldl (λ m nr, <[nr.1 := stamped_route log_id nr.2]> m)
    (foldl (λ m node, delete node m) m (ie_evict_routes e)) (ie_routes e).

Lemma evict_intent_frame id tx : membership_only (tx_state tx) (tx_state (evict_intent id tx)).
Proof. unfold evict_intent, remove_intent. by destruct (_ !! _). Qed.
Lemma evict_route_frame node tx : membership_only (tx_state tx) (tx_state (evict_route node tx)).
Proof. unfold evict_route, remove_route. by destruct (_ !! _). Qed.

Lemma evict_intent_tables id tx :
  st_intents (tx_state (evict_intent id tx)) = delete id (st_intents (tx_state tx)) /\
  st_routes (tx_state (evict_intent id tx)) = st_routes (tx_state tx).
Proof. unfold evict_intent, remove_intent. by destruct (_ !! _). Qed.
Lemma evict_route_tables node tx :
  st_routes (tx_state (evict_route node tx)) = delete node (st_routes (tx_state tx)) /\
  st_intents (tx_state (evict_route node tx)) = st_intents (tx_state tx).
Proof. unfold evict_route, remove_route. by destruct (_ !! _). Qed.

Lemma evict_intents_tables l tx :
  st_intents (tx_state (foldl (λ tx id, evict_intent id tx) tx l))
    = foldl (λ m id, delete id m) (st_intents (tx_state tx)) l /\
  st_routes (tx_state (foldl (λ tx id, evict_intent id tx) tx l)) = st_routes (tx_state tx).
Proof.
  revert tx. induction l as [|id l IH]; intros tx; simpl; [done|].
  destruct (IH (evict_intent id tx)) as [-> ->]. by destruct (evict_intent_tables id tx) as [-> ->].
Qed.

Lemma evict_routes_tables l tx :
  st_routes (tx_state (foldl (λ tx node, evict_route node tx) tx l))
    = foldl (λ m node, delete node m) (st_routes (tx_state tx)) l /\
  st_intents (tx_state (foldl (λ tx node, evict_route node tx) tx l)) = st_intents (tx_state tx).
Proof.
  revert tx. induction l as [|id l IH]; intros tx; simpl; [done|].
  destruct (IH (evict_route id tx)) as [-> ->]. by destruct (evict_route_tables id tx) as [-> ->].
Qed.

Lemma store_routes_tables log_id l tx :
  st_routes (tx_state (foldl (λ tx nr, store_route log_id nr tx) tx l))
    = foldl (λ m nr, <[nr.1 := stamped_route log_id nr.2]> m) (st_routes (tx_state tx)) l /\
  st_intents (tx_state (foldl (λ tx nr, store_route log_id nr tx) tx l)) = st_intents (tx_state tx).
Proof. revert tx. induction l as [|nr l IH]; intros tx; simpl; [done|]. by destruct (IH (store_route log_id nr tx)) as [-> ->]. Qed.

Lemma write_intent_frame log_id e tx :
  membership_only (tx_state tx) (tx_state (write_intent log_id e tx)).
Proof.
  unfold write_intent.
  etrans; [|apply (foldl_preorder membership_only); intros; by split].
  etrans; [|apply (foldl_preorder membership_only); intros; apply evict_route_frame].
  etrans; [apply (foldl_preorder membership_only (λ tx id, evict_intent id tx));
           intros; apply evict_intent_frame|]. by split.
Qed.

Lemma write_intent_tables log_id e tx :
  st_intents (tx_state (write_intent log_id e tx))
    = intents_after log_id e (st_intents (tx_state tx)) /\
  st_routes (tx_state (write_intent log_id e tx))
    = routes_after log_id e (st_routes (tx_state tx)).
Proof.
  unfold write_intent.
  destruct (evict_intents_tables (ie_evict e) tx) as [I1 R1].
  set (tx1 := foldl _ tx (ie_evict e)) in *.
  set (tx2 := store_intent _ _ tx1).
  destruct (evict_routes_tables (ie_evict_routes e) tx2) as [R3 I3].
  set (tx3 := foldl _ tx2 _) in *.
  destruct (store_routes_tables log_id (ie_routes e) tx3) as [R4 I4].
  rewrite R4, I4, R3, I3. unfold intents_after, routes_after. rewrite <- I1, <- R1. done.
Qed.
End membership_writer.

(** ** Folds over tables *)

Lemma foldl_delete_lookup {K V} `{Countable K} (l : list K) (m : gmap K V) k :
  foldl (λ m k, delete k m) m l !! k = if decide (k ∈ l) then None else m !! k.
Proof.
  revert m. induction l as [|x l IH]; intros m; cbn [foldl].
  - by rewrite decide_False by set_solver.
  - rewrite IH. destruct (decide (k = x)) as [->|Hne].
    + rewrite lookup_delete_eq. rewrite (decide_True (P := x ∈ x :: l)) by set_solver.
      by destruct (decide _).
    + rewrite lookup_delete_ne by done. repeat destruct (decide _); set_solver.
Qed.

Lemma foldl_insert_lookup {K V W} `{Countable K} (f : W -> V) (l : list (K * W)) (m : gmap K V) k v :
  foldl (λ m kw, <[kw.1 := f kw.2]> m) m l !! k = Some v ->
  (exists w, (k, w) ∈ l /\ v = f w) \/ (k ∉ l.*1 /\ m !! k = Some v).
Proof.
  revert m. induction l as [|[x w] l IH]; intros m; simpl; [set_solver|].
  intros [(w' & Hw & ->)|[Hk Hm]]%IH; [left; exists w'; set_solver|].
  destruct (decide (k = x)) as [->|Hne].
  - rewrite lookup_insert_eq in Hm. left. exists w. set_solver.
  - rewrite lookup_insert_ne in Hm by done. right. set_solver.
Qed.
