(* ===== verification/Durable.v ===== *)
(** * The durable-state validator and the apply batch

    Models the parts of [aster/src/coordination/storage/rows.rs] and
    [storage/machine.rs] that decide: the projection of an OpenRaft membership,
    the seventeen invariants a load applies to the stored rows, the row
    selection of [commit], and the batch of [apply] with its blank, membership
    and command entries. The validator is written independently of the
    transition, so it is the abstract specification the transition is
    proved against. What is left out is the byte encoding of rows and the
    database. *)

From S2P Require Import Prelude Reason Ids Contract Externals Limits State Tables Classify.
From S2P Require Import Ticket Authority Shape Genesis Resource Grant Retire.
From S2P Require Import Membership Apply.

#[local] Open Scope N_scope.

(** What the code reads of [openraft::Membership]: the joint configurations and
    the node map. *)
Record RaftMembership : Type := mk_RaftMembership {
  rm_configs : list (gset NodeId);
  rm_nodes : gset NodeId;
}.

(** [membership.voter_ids()]: the union of the configurations. *)
Definition rm_voter_ids (m : RaftMembership) : gset NodeId := ⋃ rm_configs m.

(** [membership_names_root]. *)
Definition membership_names_root (m : RaftMembership) (root : NodeId) : bool :=
  bool_decide (root ∈ rm_voter_ids m) || bool_decide (root ∈ rm_nodes m).

(** [project_membership]. *)
Definition project_membership (m : RaftMembership) : CommittedMembership :=
  {| cm_voters := rm_voter_ids m;
     cm_learners :=
       filter (λ id, negb (existsb (λ set, bool_decide (id ∈ set)) (rm_configs m)) = true) (rm_nodes m);
     cm_joint := Nat.ltb 1 (length (rm_configs m)) |}.

(** [openraft::StoredMembership]: a membership and the entry that committed it. *)
Record StoredMembership : Type := mk_StoredMembership {
  sm_log_id : option LogId;
  sm_membership : RaftMembership;
}.

(** [struct DurableState], without the recovery provenance no transition reads. *)
Record DurableState : Type := mk_DurableState {
  ds_model : State;
  ds_membership : StoredMembership;
}.

(** [iter().all(..)] over a table. *)
Definition table_all {K V : Type} `{Countable K} (p : K -> V -> bool) (m : gmap K V) : bool :=
  forallb (λ kv, p kv.1 kv.2) (map_to_list m).

(** [check_root_not_a_member]. *)
Definition check_root_not_a_member (d : DurableState) : bool :=
  negb (membership_names_root (sm_membership (ds_membership d)) (ga_public_key (st_authority (ds_model d)))).

(** [check_table_caps]. *)
Definition check_table_caps (d : DurableState) : bool :=
  let s := ds_model d in
  (N.of_nat (size (st_resources s)) <=? MAX_RESOURCES_PER_GROUP)
  && (N.of_nat (size (st_acl s)) <=? MAX_ACL_ROWS_PER_GROUP)
  && (N.of_nat (size (st_admins s)) <=? MAX_ADMINS_PER_GROUP)
  && (N.of_nat (size (st_sessions s)) <=? MAX_RETAINED_SESSIONS_PER_GROUP)
  && (N.of_nat (size (st_intents s)) <=? MAX_INTENT_ROWS)
  && (N.of_nat (size (st_routes s)) <=? MAX_RETAINED_ROUTES)
  && (N.of_nat (size (st_audit s)) <=? MAX_AUDIT_ROWS).

(** [check_grants_per_resource]: the count of each resource that has a grant. *)
Definition check_grants_per_resource (d : DurableState) : bool :=
  table_all (λ k _, grants_on (ds_model d) k.1 <=? MAX_GRANTS_PER_RESOURCE) (st_acl (ds_model d)).

(** [check_sessions_per_actor]. *)
Definition check_sessions_per_actor (d : DurableState) : bool :=
  table_all (λ k _, mcount (λ k' _, bool_decide (k'.1 = k.1)) (st_sessions (ds_model d))
                    <=? MAX_RETAINED_SESSIONS_PER_ACTOR) (st_sessions (ds_model d)).

(** [check_active_clients]. *)
Definition check_active_clients (d : DurableState) : bool :=
  let sessions := st_sessions (ds_model d) in
  table_all (λ k _, mcount (λ k' v, bool_decide (k'.1 = k.1) && negb (se_retired v)) sessions
                    <=? MAX_ACTIVE_CLIENTS_PER_ACTOR) sessions
  && (mcount (λ _ v, negb (se_retired v)) sessions <=? MAX_ACTIVE_CLIENTS_PER_GROUP).

(** [iter().max_by_key(|((_, index), _)| *index)]: the last of the greatest. *)
Definition max_by_index (l : list ((N * N) * AuditRow)) : option ((N * N) * AuditRow) :=
  foldl (λ best kv, match best with
                    | None => Some kv
                    | Some b => if kv.1.2 <? b.1.2 then Some b else Some kv
                    end) None l.

(** [rebuild_audit_tip]. *)
Definition rebuild_audit_tip (audit : gmap (N * N) AuditRow) : option LogId :=
  (λ kv, mk_LogId kv.1.1 (ar_leader_node_id kv.2) kv.1.2) <$> max_by_index (btree_iter audit).

(** [check_audit_tip]. *)
Definition check_audit_tip (d : DurableState) : bool :=
  let s := ds_model d in
  let tip := rebuild_audit_tip (st_audit s) in
  bool_decide (st_audit_tip s = tip)
  && match tip, st_last_applied s with
     | Some _, None => false
     | Some tip, Some last =>
         negb (li_index last <? li_index tip)
         && negb ((li_index tip =? li_index last) && negb (bool_decide (tip = last)))
     | None, _ => true
     end.

(** [check_audit_floor]. *)
Definition check_audit_floor (d : DurableState) : bool :=
  let s := ds_model d in
  match st_audit_floor s with
  | None => true
  | Some floor =>
      match btree_iter (st_audit s) with
      | [] => true
      | ((term, index), oldest) :: _ =>
          bool_decide (floor = mk_LogId term (ar_leader_node_id oldest) index)
      end
  end.

(** [check_audit_key_order]. *)
Definition check_audit_key_order (d : DurableState) : bool :=
  windows2_all (λ a b, a.1.2 <? b.1.2) (btree_iter (st_audit (ds_model d))).

(** The body of [check_audit_rows]. *)
Definition audit_row_legal (row : AuditRow) : bool :=
  match audit_results_for (ar_operation_code row) with
  | None => false
  | Some allowed =>
      negb (eqb (is_system_operation (ar_operation_code row)) (audit_result_is_client (ar_result row)))
      && bool_decide (audit_result_code (ar_result row) ∈ allowed)
      && (ar_epoch row <=? MAX_COUNTER) && (ar_value_revision row <=? MAX_COUNTER)
  end.

(** [check_audit_rows]. *)
Definition check_audit_rows (d : DurableState) : bool :=
  table_all (λ _ row, audit_row_legal row) (st_audit (ds_model d)).

(** [ttl_is_legal]. *)
Definition ttl_is_legal (ttl_ms : N) (held : bool) : bool :=
  ((MIN_TTL_MS <=? ttl_ms) && (ttl_ms <=? MAX_TTL_MS)) || (negb held && (ttl_ms =? 0)).

(** The body of [check_resource_rows]. *)
Definition resource_row_legal (row : ResourceRow) : bool :=
  (len (rr_value row) <=? MAX_VALUE)
  && ttl_is_legal (rr_ttl_ms row) (rr_held row)
  && (rr_epoch row <=? MAX_COUNTER) && (rr_lease_revision row <=? MAX_COUNTER)
  && (rr_value_revision row <=? MAX_COUNTER) && (rr_acl_revision row <=? MAX_COUNTER).

(** [check_resource_rows]. *)
Definition check_resource_rows (d : DurableState) : bool :=
  table_all (λ _ row, resource_row_legal row) (st_resources (ds_model d)).

(** [check_grant_rows]. *)
Definition check_grant_rows (d : DurableState) : bool :=
  table_all (λ k rights, negb (rights =? 0) && rights_are_known rights
                         && bool_decide (is_Some (st_resources (ds_model d) !! k.1)))
    (st_acl (ds_model d)).

(** [check_admin_revision]. *)
Definition check_admin_revision (d : DurableState) : bool :=
  let s := ds_model d in
  (st_admin_revision s <=? MAX_COUNTER)
  && eqb (st_admin_revision s =? 0) (bool_decide (st_admins s = ∅))
  && negb (bool_decide (ga_public_key (st_authority s) ∈ st_admins s)).

(** The snapshot part of [check_session_rows]. *)
Definition snapshot_legal (s : SavedSnapshot) : bool :=
  (ss_epoch s <=? MAX_COUNTER) && (ss_lease_revision s <=? MAX_COUNTER)
  && (ss_value_revision s <=? MAX_COUNTER) && (ss_acl_revision s <=? MAX_COUNTER)
  && ttl_is_legal (ss_ttl_ms s) (ss_held s)
  && eqb (ss_held s) (bool_decide (is_Some (ss_holder s))).

(** The body of [check_session_rows]. *)
Definition session_row_legal (session : Session) : bool :=
  (se_last_sequence session <=? MAX_COUNTER)
  && match se_last_result session with
     | None => se_last_sequence session =? 0
     | Some saved =>
         negb (is_reserved (sr_reason saved))
         && (bool_decide (sr_outcome saved = O_Rejected) || bool_decide (sr_reason saved = R_None))
         && (sr_acl_revision saved <=? MAX_COUNTER) && (sr_admin_revision saved <=? MAX_COUNTER)
         && from_option snapshot_legal true (sr_snapshot saved)
     end.

(** [check_session_rows]. *)
Definition check_session_rows (d : DurableState) : bool :=
  table_all (λ _ session, session_row_legal session) (st_sessions (ds_model d)).

(** [within] of [check_stamped_log_ids]. *)
Definition stamp_within (last_applied : option LogId) (id : LogId) : bool :=
  match last_applied with
  | None => false
  | Some last => negb (li_index last <? li_index id)
  end.

(** The intent part of [check_stamped_log_ids]. *)
Definition intent_stamps_legal (last_applied : option LogId) (i : Intent) : bool :=
  stamp_within last_applied (in_accepted_log_id i)
  && from_option
       (λ completed, stamp_within last_applied completed
                     && negb (li_index completed <? li_index (in_accepted_log_id i)))
       true (in_completed_log_id i)
  && from_option (stamp_within last_applied) true (in_observed_membership_log_id i).

(** [check_stamped_log_ids]. *)
Definition check_stamped_log_ids (d : DurableState) : bool :=
  let s := ds_model d in
  table_all (λ _ i, intent_stamps_legal (st_last_applied s) i) (st_intents s)
  && table_all (λ _ r, stamp_within (st_last_applied s) (ro_introduced_log_id r)) (st_routes s).

Section validator.
Context `{Ext : Externals}.

(** [check_aggregate_counters]. *)
Definition check_aggregate_counters (d : DurableState) : bool :=
  (st_growth_bytes (ds_model d) =? recompute_growth (ds_model d))
  && (st_reserve_bytes (ds_model d) =? recompute_reserve (ds_model d)).

(** The seed part of [check_intent_rows]. *)
Definition stored_seed_legal (authority : GroupAuthority) (seed : MemberSeed) : bool :=
  bool_decide (check_member_seed (len (ms_ticket seed)) (len <$> ms_join_permit seed) = None)
  && bool_decide (result_ok (check_seed_ticket (ms_ticket seed) (ms_node_id seed)) = Some ())
  && from_option
       (λ permit, bool_decide (result_ok (verify_join_permit authority permit (ms_node_id seed))
                               = Some ())) true (ms_join_permit seed).

(** The plan part of [check_intent_rows]. *)
Definition stored_plan_legal (s : State) (plan : MembershipPlan) : bool :=
  negb (profile_permits_voters (st_deployment_profile_code s) (len (mp_desired_voters plan)))
  && (len (mp_retained_learners plan) <=? MAX_RETAINED_LEARNERS)
  && sorted_unique (mp_desired_voters plan) && sorted_unique (mp_retained_learners plan)
  && sorted_unique (map ms_node_id (mp_member_seeds plan))
  && forallb (stored_seed_legal (st_authority s)) (mp_member_seeds plan).

(** [check_intent_rows]. *)
Definition check_intent_rows (d : DurableState) : bool :=
  let s := ds_model d in
  let active := mcount (λ _ i, negb (is_terminal_phase (in_status_code i))) (st_intents s) in
  (active <=? 1)
  && (N.of_nat (size (st_intents s)) - active <=? MAX_RETAINED_INTENTS)
  && table_all (λ _ i, stored_plan_legal s (in_plan i)) (st_intents s).

(** [check_route_rows]. *)
Definition check_route_rows (d : DurableState) : bool :=
  table_all (λ node route, bool_decide (result_ok (check_seed_ticket (ro_ticket route) node)
                                        = Some ())) (st_routes (ds_model d)).

(** The names of the rules of [INVARIANTS], in order. *)
Inductive InvariantName : Type :=
| INV_membership
| INV_table_row_caps
| INV_grants_per_resource
| INV_sessions_per_actor
| INV_active_clients
| INV_aggregate_counters
| INV_audit_tip
| INV_audit_floor
| INV_audit_key_order
| INV_audit_row_shape
| INV_resource_row_shape
| INV_grant_row_shape
| INV_admin_revision
| INV_session_row_shape
| INV_intent_row_shape
| INV_route_row_shape
| INV_stamped_log_ids.

(** [INVARIANTS]. *)
Definition INVARIANTS : list (InvariantName * (DurableState -> bool)) :=
  [ (INV_membership, check_root_not_a_member);
    (INV_table_row_caps, check_table_caps);
    (INV_grants_per_resource, check_grants_per_resource);
    (INV_sessions_per_actor, check_sessions_per_actor);
    (INV_active_clients, check_active_clients);
    (INV_aggregate_counters, check_aggregate_counters);
    (INV_audit_tip, check_audit_tip);
    (INV_audit_floor, check_audit_floor);
    (INV_audit_key_order, check_audit_key_order);
    (INV_audit_row_shape, check_audit_rows);
    (INV_resource_row_shape, check_resource_rows);
    (INV_grant_row_shape, check_grant_rows);
    (INV_admin_revision, check_admin_revision);
    (INV_session_row_shape, check_session_rows);
    (INV_intent_row_shape, check_intent_rows);
    (INV_route_row_shape, check_route_rows);
    (INV_stamped_log_ids, check_stamped_log_ids) ].

(** [validate_rows]: the first rule that fails. *)
Fixpoint first_failure {A : Type} (rules : list (A * (DurableState -> bool))) (d : DurableState)
    : option A :=
  match rules with
  | [] => None
  | (name, check) :: rest => if check d then first_failure rest d else Some name
  end.

Definition validate_rows (d : DurableState) : option InvariantName := first_failure INVARIANTS d.

(** [check_authority_domain]: 1 to 128 ASCII bytes. *)
Definition check_authority_domain (domain : bytes) : bool :=
  negb (bool_decide (domain = []))
  && negb (MAX_AUTHORITY_DOMAIN_BYTES <? len domain)
  && is_ascii domain.

(** The constraints of [validate_meta], named in the order they are checked. *)
Inductive MetaRule : Type :=
| MR_authority_public_key
| MR_authority_domain
| MR_aggregate_growth_bytes
| MR_aggregate_reserve_bytes
| MR_deployment_profile_code
| MR_joint_configurations
| MR_configuration_voters
| MR_learner_envelope
| MR_named_without_log_id
| MR_membership_ahead
| MR_projection
| MR_membership_log_id
| MR_audit_floor.

(** [named] of [validate_meta]. *)
Definition membership_named (m : RaftMembership) : bool :=
  negb (bool_decide (rm_configs m = [])) || negb (bool_decide (rm_nodes m = ∅)).

(** A membership log id is an applied entry, and at the last applied index it is
    that entry. *)
Definition membership_applied (last_applied : option LogId) (id : option LogId) : bool :=
  match id with
  | None => true
  | Some id =>
      match last_applied with
      | None => false
      | Some last =>
          negb (li_index last <? li_index id)
          && negb ((li_index id =? li_index last) && negb (bool_decide (id = last)))
      end
  end.

(** [validate_meta]: the rules that read only the metadata. *)
Definition META_RULES : list (MetaRule * (DurableState -> bool)) :=
  [ (MR_authority_public_key,
      λ d, ed25519_key_accepted (ga_public_key (st_authority (ds_model d))));
    (MR_authority_domain, λ d, check_authority_domain (ga_domain (st_authority (ds_model d))));
    (MR_aggregate_growth_bytes, λ d, negb (GROWTH_BUDGET <? st_growth_bytes (ds_model d)));
    (MR_aggregate_reserve_bytes, λ d, negb (RESERVE_BUDGET <? st_reserve_bytes (ds_model d)));
    (MR_deployment_profile_code,
      λ d, bool_decide (st_deployment_profile_code (ds_model d) ∈ PROFILES));
    (MR_joint_configurations,
      λ d, negb (2 <? len (rm_configs (sm_membership (ds_membership d)))));
    (MR_configuration_voters,
      λ d, forallb (λ c, negb (profile_permits_voters (st_deployment_profile_code (ds_model d))
                                 (N.of_nat (size c))))
             (rm_configs (sm_membership (ds_membership d))));
    (MR_learner_envelope,
      λ d, negb (MAX_LEARNER_ENVELOPE
                   <? N.of_nat (size (cm_learners (st_membership (ds_model d))))));
    (MR_named_without_log_id,
      λ d, eqb (membership_named (sm_membership (ds_membership d)))
             (bool_decide (is_Some (sm_log_id (ds_membership d)))));
    (MR_membership_ahead,
      λ d, membership_applied (st_last_applied (ds_model d)) (sm_log_id (ds_membership d)));
    (MR_projection,
      λ d, bool_decide (st_membership (ds_model d)
                        = project_membership (sm_membership (ds_membership d))));
    (MR_membership_log_id,
      λ d, bool_decide (st_membership_log_id (ds_model d) = sm_log_id (ds_membership d)));
    (MR_audit_floor,
      λ d, from_option (stamp_within (st_last_applied (ds_model d))) true
             (st_audit_floor (ds_model d))) ].

Definition validate_meta (d : DurableState) : option MetaRule := first_failure META_RULES d.

(** [validate]. *)
Definition validate_state (d : DurableState) : option (MetaRule + InvariantName) :=
  match validate_meta d with
  | Some rule => Some (inl rule)
  | None => inr <$> validate_rows d
  end.
End validator.

(** ** Committing a batch *)

(** The loop of [commit] over the recorded keys of one table: insert the row the
    working state holds, or remove it. *)
Definition commit_table {K V : Type} `{Countable K} (keys : gset K) (working : gmap K V)
    (stored : gmap K V) : gmap K V :=
  set_fold (λ k t, match working !! k with Some v => <[k:=v]> t | None => delete k t end)
    stored keys.

Definition commit_admins (keys : gset NodeId) (working stored : gset NodeId) : gset NodeId :=
  set_fold (λ k t, if decide (k ∈ working) then {[k]} ∪ t else t ∖ {[k]}) stored keys.

(** [commit], on the seven tables. *)
Record StoredTables : Type := mk_StoredTables {
  tb_resources : gmap ResourceKey ResourceRow;
  tb_acl : gmap GrantKey N;
  tb_admins : gset NodeId;
  tb_sessions : gmap SessionKey Session;
  tb_intents : gmap OperationId Intent;
  tb_routes : gmap NodeId Route;
  tb_audit : gmap (N * N) AuditRow;
}.

Definition tables_of (s : State) : StoredTables :=
  mk_StoredTables (st_resources s) (st_acl s) (st_admins s) (st_sessions s) (st_intents s)
    (st_routes s) (st_audit s).

Definition commit (s : State) (c : ChangeSet) (t : StoredTables) : StoredTables :=
  {| tb_resources := commit_table (cs_resources c) (st_resources s) (tb_resources t);
     tb_acl := commit_table (cs_grants c) (st_acl s) (tb_acl t);
     tb_admins := commit_admins (cs_admins c) (st_admins s) (tb_admins t);
     tb_sessions := commit_table (cs_sessions c) (st_sessions s) (tb_sessions t);
     tb_intents := commit_table (cs_intents c) (st_intents s) (tb_intents t);
     tb_routes := commit_table (cs_routes c) (st_routes s) (tb_routes t);
     tb_audit := commit_table (cs_audit c) (st_audit s) (tb_audit t) |}.

(** ** Loading *)

(** [CoordinationMetaV1] as [meta_to_wire] fills it: what is stored beside the
    tables. *)
Record CoordinationMeta : Type := mk_CoordinationMeta {
  cme_authority : GroupAuthority;
  cme_deployment_profile_code : Z;
  cme_last_applied : option LogId;
  cme_membership : StoredMembership;
  cme_admin_revision : N;
  cme_growth_bytes : N;
  cme_reserve_bytes : N;
  cme_audit_floor : option LogId;
}.

(** [meta_to_wire]. *)
Definition meta_to_wire (d : DurableState) : CoordinationMeta :=
  let s := ds_model d in
  mk_CoordinationMeta (st_authority s) (st_deployment_profile_code s) (st_last_applied s)
    (ds_membership d) (st_admin_revision s) (st_growth_bytes s) (st_reserve_bytes s)
    (st_audit_floor s).

(** The errors of [load]: a key or a mask its row refuses, or a rule. *)
Inductive LoadError : Type :=
| LE_resource_key
| LE_acl_key
| LE_acl_rights
| LE_rule (r : MetaRule + InvariantName).

(** [ResourceKey::new(namespace, raw)] on a stored key. *)
Definition stored_key_legal (k : ResourceKey) : bool :=
  match ResourceKey_new (rk_namespace k) (rk_key k) with
  | Ok _ => true
  | Err _ => false
  end.

(** [meta_from_wire], on metadata whose fields are already narrowed: no rows yet,
    the membership projection derived from the stored membership. *)
Definition meta_from_wire (meta : CoordinationMeta) : DurableState :=
  mk_DurableState
    {| st_resources := ∅; st_acl := ∅; st_admins := ∅; st_sessions := ∅; st_intents := ∅;
       st_routes := ∅; st_audit_tip := None; st_audit := ∅;
       st_growth_bytes := cme_growth_bytes meta; st_reserve_bytes := cme_reserve_bytes meta;
       st_admin_revision := cme_admin_revision meta; st_authority := cme_authority meta;
       st_deployment_profile_code := cme_deployment_profile_code meta;
       st_membership := project_membership (sm_membership (cme_membership meta));
       st_membership_log_id := sm_log_id (cme_membership meta);
       st_audit_floor := cme_audit_floor meta; st_last_applied := cme_last_applied meta |}
    (cme_membership meta).

(** The rows [load] inserts, and the tip it rebuilds from them. *)
Definition insert_rows (t : StoredTables) (s : State) : State :=
  set_audit_tip (rebuild_audit_tip (tb_audit t))
    (set_audit (tb_audit t) (set_routes (tb_routes t) (set_intents (tb_intents t)
      (set_sessions (tb_sessions t) (set_admins (tb_admins t) (set_acl (tb_acl t)
        (set_resources (tb_resources t) s))))))).

Section load.
Context `{Ext : Externals}.

(** [load], over decoded rows. *)
Definition load (meta : CoordinationMeta) (t : StoredTables) : result DurableState LoadError :=
  if negb (table_all (λ k _, stored_key_legal k) (tb_resources t)) then Err LE_resource_key
  else if negb (table_all (λ k _, stored_key_legal k.1) (tb_acl t)) then Err LE_acl_key
  else if negb (table_all (λ _ rights, rights_are_known rights) (tb_acl t)) then Err LE_acl_rights
  else
    let base := meta_from_wire meta in
    let d := mk_DurableState (insert_rows t (ds_model base)) (ds_membership base) in
    match validate_state d with
    | Some r => Err (LE_rule r)
    | None => Ok d
    end.
End load.

(** ** The apply batch of the state machine actor *)

(** [EntryPayload]; a [Normal] command is the model command the wire boundary
    narrows it to. *)
Inductive Payload : Type :=
| P_Blank
| P_Membership (m : RaftMembership)
| P_Normal (c : Command).

(** The replies of a batch: [NonCommandReplyV1] or the command's own. *)
Inductive EntryReply : Type :=
| ER_NonCommand
| ER_Command (r : CommandReply).

(** The storage errors of [apply]. *)
Inductive ApplyError : Type :=
| AE_Fault (f : Fault)
| AE_NamesRoot
| AE_LearnerEnvelope (learners : N).

(** The working value of a batch: the durable state and the change set. *)
Record Working : Type := mk_Working {
  wk_tx : Tx;
  wk_membership : StoredMembership;
}.

Section batch.
Context `{Ext : Externals}.

(** One turn of the loop of [apply]. *)
Definition apply_entry (log_id : LogId) (payload : Payload) (w : Working)
    : result (EntryReply * Working) ApplyError :=
  let st := tx_state (wk_tx w) in
  match payload with
  | P_Blank =>
      match guard_delivery st log_id with
      | Err f => Err (AE_Fault f)
      | Ok _ =>
          Ok (ER_NonCommand,
              mk_Working (tx_modify (set_last_applied (Some log_id)) (wk_tx w)) (wk_membership w))
      end
  | P_Membership m =>
      match guard_delivery st log_id with
      | Err f => Err (AE_Fault f)
      | Ok _ =>
          let projection := project_membership m in
          if membership_names_root m (ga_public_key (st_authority st)) then Err AE_NamesRoot
          else if MAX_LEARNER_ENVELOPE <? N.of_nat (size (cm_learners projection))
          then Err (AE_LearnerEnvelope (N.of_nat (size (cm_learners projection))))
          else
            Ok (ER_NonCommand,
                mk_Working
                  (tx_modify
                     (λ s, mk_State (st_resources s) (st_acl s) (st_admins s) (st_sessions s)
                             (st_intents s) (st_routes s) (st_audit_tip s) (st_audit s)
                             (st_growth_bytes s) (st_reserve_bytes s) (st_admin_revision s)
                             (st_authority s) (st_deployment_profile_code s)
                             projection (Some log_id) (st_audit_floor s) (Some log_id)) (wk_tx w))
                  (mk_StoredMembership (Some log_id) m))
      end
  | P_Normal c =>
      match apply_command_recording log_id c (wk_tx w) with
      | (Ok reply, tx) => Ok (ER_Command reply, mk_Working tx (wk_membership w))
      | (Err f, _) => Err (AE_Fault f)
      end
  end.

(** The loop over a batch: the first error ends it. *)
Fixpoint apply_entries (entries : list (LogId * Payload)) (w : Working)
    : result (list EntryReply * Working) ApplyError :=
  match entries with
  | [] => Ok ([], w)
  | (log_id, payload) :: rest =>
      match apply_entry log_id payload w with
      | Err e => Err e
      | Ok (reply, w) =>
          match apply_entries rest w with
          | Err e => Err e
          | Ok (replies, w) => Ok (reply :: replies, w)
          end
      end
  end.

(** [apply]: the batch from an empty change set, its replies, the state it
    publishes and the tables the one commit writes. *)
Definition apply_batch (entries : list (LogId * Payload)) (d : DurableState) (t : StoredTables)
    : result (list EntryReply * DurableState * StoredTables) ApplyError :=
  match apply_entries entries (mk_Working (mk_Tx (ds_model d) ChangeSet_default) (ds_membership d)) with
  | Err e => Err e
  | Ok (replies, w) =>
      let s := tx_state (wk_tx w) in
      Ok (replies, mk_DurableState s (wk_membership w), commit s (tx_changes (wk_tx w)) t)
  end.
End batch.
