(* ===== verification/Scenario.v ===== *)
(** * A concrete run

    A single-voter group: its first membership, its founding entry, a grant, an acquisition, its exact
    replay, a value, a release and a retirement. The run is evaluated by the
    kernel; the witnesses of the theorems take their states and commands from
    it. *)

From S2P Require Import Prelude Reason Ids Contract Externals Limits State Tables Classify.
From S2P Require Import Ticket Authority Shape Genesis Resource Grant Retire.
From S2P Require Import Membership Apply Durable.

#[local] Open Scope N_scope.

Definition run_membership : RaftMembership := mk_RaftMembership [{[sample_voter]}] {[sample_voter]}.

(** A freshly bound store: no membership has been committed. *)
Definition empty_membership : StoredMembership :=
  mk_StoredMembership None (mk_RaftMembership [] ∅).

Definition run_initial : State :=
  State_initial founding_authority PROFILE_DEV_SINGLE
    (project_membership (sm_membership empty_membership)) None.

Definition at_index (i : N) : LogId := mk_LogId 1 sample_voter i.

Definition run_raw_key : RawResourceKey := mk_RawResourceKey [Byte.x61] [Byte.x6b].
Definition run_key : ResourceKey := mk_ResourceKey [Byte.x61] [Byte.x6b].
Definition run_hash (b : byte) : Hash := replicate 32 b.
Definition run_client (actor : NodeId) (sequence : N) (h : byte) : ClientRef :=
  mk_ClientRef actor (replicate 16 Byte.x02) sequence (run_hash h).
Definition run_fence (epoch : N) : Fence :=
  mk_Fence (replicate 32 Byte.x05) run_raw_key epoch sample_voter.

Definition grant_all : Action := A_Grant (mk_GrantAction run_raw_key sample_voter 63 0).
Definition acquire : Action := A_Resource (Acquire run_raw_key 5000).
Definition set_value : Action := A_Resource (CompareAndSet (run_fence 1) 0 [Byte.x76]).
Definition release : Action := A_Resource (Release (run_fence 1)).
Definition add_admin : Action := A_Admin (mk_AdminAction sample_voter true 1).

Definition run_payloads : list Payload :=
  P_Membership run_membership :: map P_Normal
  [ C_Genesis [];
    C_Client (run_client sample_admin 1 Byte.x10) grant_all;
    C_Client (run_client sample_voter 1 Byte.x11) acquire;
    C_Client (run_client sample_voter 1 Byte.x11) acquire;
    C_Client (run_client sample_voter 2 Byte.x12) set_value;
    C_Client (run_client sample_voter 3 Byte.x13) release;
    C_Client (run_client sample_admin 2 Byte.x14) add_admin;
    C_RetireClient (mk_RetireCommand sample_voter sample_voter (replicate 16 Byte.x02)) ].

(** The entries at consecutive positions, from index 1. *)
Definition run_entries (n : nat) : list (LogId * Payload) :=
  imap (λ i p, (at_index (N.of_nat (S i)), p)) (take n run_payloads).

(** The operation each request hash of the run commits to. *)
Definition run_op (h : Hash) : Z :=
  if bool_decide (h = run_hash Byte.x10) then 7%Z
  else if bool_decide (h = run_hash Byte.x11) then 1%Z
  else if bool_decide (h = run_hash Byte.x12) then 3%Z
  else if bool_decide (h = run_hash Byte.x13) then 4%Z
  else if bool_decide (h = run_hash Byte.x14) then 8%Z
  else 1%Z.

Definition run_store : DurableState := mk_DurableState run_initial empty_membership.

#[local] Instance run_externals : Externals := founding_externals.

(** The store after the first [n] entries. *)
Definition run_batch (n : nat) : result (list EntryReply * DurableState * StoredTables) ApplyError :=
  apply_batch (run_entries n) run_store (tables_of run_initial).

Definition run_state (n : nat) : State :=
  match run_batch n with
  | Ok (_, d, _) => ds_model d
  | Err _ => run_initial
  end.

(** The replies of the run: two grants of the lease to the same request, the
    second a replay. *)
Definition reply_outcome (r : EntryReply) : option (Outcome * bool) :=
  match r with
  | ER_Command (CR_Client c) => Some (sr_outcome (clr_reply c), clr_replayed c)
  | ER_Command (CR_Retirement c) => Some (ret_outcome c, false)
  | _ => None
  end.

Lemma run_replies :
  match run_batch 9 with
  | Ok (replies, _, _) => map reply_outcome replies
  | Err _ => []
  end = [None; None; Some (O_GrantUpdated, false); Some (O_Granted, false); Some (O_Granted, true);
         Some (O_Mutated, false); Some (O_Released, false); Some (O_AdminUpdated, false);
         Some (O_ClientRetired, false)].
Proof. vm_compute. reflexivity. Qed.

(** A membership change of the group to itself, with its voter's ticket, and a
    report on it. *)
Definition run_operation : OperationId := replicate 16 Byte.x03.
Definition change_self : Action :=
  A_ChangeMembership (mk_ChangeMembershipAction run_operation (Some (at_index 1))
    (mk_MembershipPlan [sample_voter] [] [mk_MemberSeed sample_voter sample_seed_ticket None])).
Definition progress_report (observed : option LogId) : Command :=
  C_MembershipProgress (mk_MembershipProgressCommand run_operation PHASE_PENDING
    PHASE_ADDING_LEARNERS observed 0%Z).

(** The store after the first [n] entries of the run and then [extra]. *)
Definition run_then (n : nat) (extra : list Command)
    : result (list EntryReply * DurableState * StoredTables) ApplyError :=
  apply_batch
    (run_entries n ++ imap (λ i c, (at_index (N.of_nat (n + S i)), P_Normal c)) extra)
    run_store (tables_of run_initial).

(** The rest of the run, as a second batch on the store after [n] entries. *)
Definition run_rest (n : nat) : list (LogId * Payload) := drop n (run_entries 9).

Definition run_resume (n : nat) : result (list EntryReply * DurableState * StoredTables) ApplyError :=
  match run_batch n with
  | Ok (_, d, t) => apply_batch (run_rest n) d t
  | Err e => Err e
  end.
