(* ===== verification/Accounting.v ===== *)
(** * Byte accounting

    The two counters of the state are maintained incrementally by every writer
    and recomputed from the rows at every load. This file shows that the two
    agree: each writer moves its counter, modulo [2^64], by exactly the change
    of the sum over the rows, so no sequence of commands lets them drift. The
    moves also carry the exact difference of the sums, which the budget
    theorems use. *)

From S2P Require Import Prelude Reason Ids Contract Externals Limits State Tables Classify.
From S2P Require Import Authority Shape Genesis Resource Grant Retire Membership.
From S2P Require Import Apply Changes.

#[local] Open Scope N_scope.

Section accounting.
Context `{Ext : Externals}.

(** The counter is the sum over the rows, at the machine width. *)
Definition growth_exact (st : State) : Prop :=
  st_growth_bytes st = growth_total st mod U64_MODULUS.
Definition reserve_exact (st : State) : Prop :=
  st_reserve_bytes st = reserve_total st mod U64_MODULUS.

(** A step adds rows charged [added], frees rows charged [freed], and keeps the
    counter exact. *)
Definition growth_move (added freed : N) (tx tx' : Tx) : Prop :=
  growth_total (tx_state tx') + freed = growth_total (tx_state tx) + added /\
  (growth_exact (tx_state tx) -> growth_exact (tx_state tx')).
Definition reserve_move (added freed : N) (tx tx' : Tx) : Prop :=
  reserve_total (tx_state tx') + freed = reserve_total (tx_state tx) + added /\
  (reserve_exact (tx_state tx) -> reserve_exact (tx_state tx')).

Lemma growth_move_refl tx : growth_move 0 0 tx tx.
Proof. by split. Qed.
Lemma reserve_move_refl tx : reserve_move 0 0 tx tx.
Proof. by split. Qed.

Lemma growth_move_trans a f a' f' tx1 tx2 tx3 :
  growth_move a f tx1 tx2 -> growth_move a' f' tx2 tx3 -> growth_move (a + a') (f + f') tx1 tx3.
Proof. intros [H1 E1] [H2 E2]. split; [lia|auto]. Qed.
Lemma reserve_move_trans a f a' f' tx1 tx2 tx3 :
  reserve_move a f tx1 tx2 -> reserve_move a' f' tx2 tx3 -> reserve_move (a + a') (f + f') tx1 tx3.
Proof. intros [H1 E1] [H2 E2]. split; [lia|auto]. Qed.

(** Two states that agree on what a counter sums, and on the counter. *)
Definition growth_same (s s' : State) : Prop :=
  st_resources s' = st_resources s /\ st_acl s' = st_acl s /\ st_admins s' = st_admins s /\
  st_intents s' = st_intents s /\ st_routes s' = st_routes s /\
  st_growth_bytes s' = st_growth_bytes s.
Definition reserve_same (s s' : State) : Prop :=
  st_sessions s' = st_sessions s /\ st_audit s' = st_audit s /\
  st_reserve_bytes s' = st_reserve_bytes s.

Lemma growth_same_move tx tx' : growth_same (tx_state tx) (tx_state tx') -> growth_move 0 0 tx tx'.
Proof.
  intros (H1&H2&H3&H4&H5&H6). unfold growth_move, growth_exact, growth_total.
  by rewrite H1, H2, H3, H4, H5, H6.
Qed.
Lemma reserve_same_move tx tx' : reserve_same (tx_state tx) (tx_state tx') -> reserve_move 0 0 tx tx'.
Proof.
  intros (H1&H2&H3). unfold reserve_move, reserve_exact, reserve_total. by rewrite H1, H2, H3.
Qed.

(** ** The sums under a row write *)

Lemma growth_total_resources st k r :
  growth_total (set_resources (<[k:=r]> (st_resources st)) st)
  + from_option (resource_row_charge k) 0 (st_resources st !! k)
  = growth_total st + resource_row_charge k r.
Proof.
  unfold growth_total. simpl. pose proof (msum_insert resource_row_charge (st_resources st) k r). lia.
Qed.

Lemma growth_total_acl st k r :
  growth_total (set_acl (<[k:=r]> (st_acl st)) st)
  + from_option (acl_row_charge k) 0 (st_acl st !! k) = growth_total st + acl_row_charge k r.
Proof. unfold growth_total. simpl. pose proof (msum_insert acl_row_charge (st_acl st) k r). lia. Qed.

Lemma growth_total_acl_delete st k :
  growth_total (set_acl (delete k (st_acl st)) st)
  + from_option (acl_row_charge k) 0 (st_acl st !! k) = growth_total st.
Proof. unfold growth_total. simpl. pose proof (msum_delete_opt acl_row_charge (st_acl st) k). lia. Qed.

Lemma growth_total_intents st k r :
  growth_total (set_intents (<[k:=r]> (st_intents st)) st)
  + from_option (intent_row_charge k) 0 (st_intents st !! k)
  = growth_total st + intent_row_charge k r.
Proof. unfold growth_total. simpl. pose proof (msum_insert intent_row_charge (st_intents st) k r). lia. Qed.

Lemma growth_total_intents_delete st k :
  growth_total (set_intents (delete k (st_intents st)) st)
  + from_option (intent_row_charge k) 0 (st_intents st !! k) = growth_total st.
Proof. unfold growth_total. simpl. pose proof (msum_delete_opt intent_row_charge (st_intents st) k). lia. Qed.

Lemma growth_total_routes st k r :
  growth_total (set_routes (<[k:=r]> (st_routes st)) st)
  + from_option (route_row_charge k) 0 (st_routes st !! k)
  = growth_total st + route_row_charge k r.
Proof. unfold growth_total. simpl. pose proof (msum_insert route_row_charge (st_routes st) k r). lia. Qed.

Lemma growth_total_routes_delete st k :
  growth_total (set_routes (delete k (st_routes st)) st)
  + from_option (route_row_charge k) 0 (st_routes st !! k) = growth_total st.
Proof. unfold growth_total. simpl. pose proof (msum_delete_opt route_row_charge (st_routes st) k). lia. Qed.

Lemma growth_total_admin_new st t :
  t ∉ st_admins st ->
  growth_total (set_admins ({[t]} ∪ st_admins st) st) = growth_total st + charge_admin.
Proof.
  intros Ht. unfold growth_total. simpl. rewrite size_union by set_solver. rewrite size_singleton.
  unfold charge_admin. lia.
Qed.

Lemma growth_total_admin_gone st t :
  t ∈ st_admins st ->
  growth_total (set_admins (st_admins st ∖ {[t]}) st) + charge_admin = growth_total st.
Proof.
  intros Ht. unfold growth_total. simpl.
  rewrite size_difference by set_solver. rewrite size_singleton.
  assert (size (st_admins st) <> 0%nat).
  { intros H0%size_empty_inv. set_solver. }
  unfold charge_admin. lia.
Qed.

(** ** The writers *)

Lemma write_resource_move key row tx :
  growth_move (resource_row_charge key row)
    (from_option (resource_row_charge key) 0 (st_resources (tx_state tx) !! key)) tx
    (put_resource key row (charge_resource_row key (len (rr_value row)) tx)).
Proof.
  pose proof (growth_total_resources (tx_state tx) key row) as H. split; [exact H|].
  unfold growth_exact. simpl. intros Hc.
  exact (u64_add_sub_mod _ _ _ _ _ Hc H).
Qed.

(** A rewrite of a row that keeps its value needs no charge. *)
Lemma put_resource_move key row old tx :
  st_resources (tx_state tx) !! key = Some old -> rr_value row = rr_value old ->
  growth_move 0 0 tx (put_resource key row tx).
Proof.
  intros Hold Hv. pose proof (growth_total_resources (tx_state tx) key row) as H.
  rewrite Hold in H. simpl in H. unfold resource_row_charge in H. rewrite Hv in H.
  unfold growth_move, growth_exact. simpl. intros. split; [lia|]. intros ->. f_equal. lia.
Qed.

Lemma evict_intent_move id tx :
  growth_move 0 (from_option (intent_row_charge id) 0 (st_intents (tx_state tx) !! id)) tx
    (evict_intent id tx).
Proof.
  pose proof (growth_total_intents_delete (tx_state tx) id) as H.
  unfold evict_intent, growth_move, growth_exact. simpl.
  destruct (st_intents (tx_state tx) !! id) as [old|] eqn:Hi; simpl in *.
  - split; [rewrite N.add_0_r; exact H|]. intros Hc. exact (u64_sub_mod _ _ _ _ Hc H).
  - split; [lia|]. intros ->. f_equal. lia.
Qed.

Lemma store_intent_move id i tx :
  growth_move (intent_row_charge id i)
    (from_option (intent_row_charge id) 0 (st_intents (tx_state tx) !! id)) tx
    (store_intent id i tx).
Proof.
  pose proof (growth_total_intents (tx_state tx) id i) as H. split; [exact H|].
  unfold growth_exact. simpl. intros Hc. exact (u64_add_sub_mod _ _ _ _ _ Hc H).
Qed.

Lemma evict_route_move node tx :
  growth_move 0 (from_option (route_row_charge node) 0 (st_routes (tx_state tx) !! node)) tx
    (evict_route node tx).
Proof.
  pose proof (growth_total_routes_delete (tx_state tx) node) as H.
  unfold evict_route, growth_move, growth_exact. simpl.
  destruct (st_routes (tx_state tx) !! node) as [old|] eqn:Hi; simpl in *.
  - split; [rewrite N.add_0_r; exact H|]. intros Hc. exact (u64_sub_mod _ _ _ _ Hc H).
  - split; [lia|]. intros ->. f_equal. lia.
Qed.

Lemma store_route_move log_id nr tx :
  growth_move (charge_route (len (ro_ticket nr.2)))
    (from_option (route_row_charge nr.1) 0 (st_routes (tx_state tx) !! nr.1)) tx
    (store_route log_id nr tx).
Proof.
  pose proof (growth_total_routes (tx_state tx) nr.1
    (mk_Route (ro_ticket nr.2) (ro_source_operation_id nr.2)
       (if li_index (ro_introduced_log_id nr.2) =? 0 then log_id
        else ro_introduced_log_id nr.2))) as H.
  split; [exact H|]. unfold growth_exact. simpl. intros Hc. exact (u64_add_sub_mod _ _ _ _ _ Hc H).
Qed.

Lemma write_admin_move e tx :
  growth_move
    (if ade_enabled e && bool_decide (ade_target e ∉ st_admins (tx_state tx)) then charge_admin else 0)
    (if negb (ade_enabled e) && bool_decide (ade_target e ∈ st_admins (tx_state tx))
     then charge_admin else 0) tx (write_admin e tx).
Proof.
  unfold write_admin, put_admin, remove_admin, growth_move, growth_exact.
  destruct (ade_enabled e); simpl.
  - case_bool_decide as Hin; simpl.
    + pose proof (growth_total_admin_new (tx_state tx) _ Hin) as H.
      split; [rewrite N.add_0_r; exact H|]. intros Hc.
      rewrite (u64_add_mod _ _ _ Hc). f_equal. symmetry. exact H.
    + replace ({[ade_target e]} ∪ st_admins (tx_state tx)) with (st_admins (tx_state tx)) by set_solver.
      split; [done|]. intros Hc. exact Hc.
  - case_bool_decide as Hin; simpl.
    + pose proof (growth_total_admin_gone (tx_state tx) _ Hin) as H.
      split; [rewrite N.add_0_r; exact H|]. intros Hc. exact (u64_sub_mod _ _ _ _ Hc H).
    + replace (st_admins (tx_state tx) ∖ {[ade_target e]}) with (st_admins (tx_state tx)) by set_solver.
      split; [done|]. intros Hc. exact Hc.
Qed.

(** The ACL half of [write_grant]. *)
Definition write_acl (e : GrantEffect) (tx : Tx) : Tx :=
  let charge := charge_acl (rk_namespace (gre_key e)) (rk_key (gre_key e)) in
  match gre_rights e with
  | Some rights =>
      snd (put_grant (gre_key e, gre_subject e) rights
             (if gre_creates_acl_row e then growth_add charge tx else tx))
  | None =>
      match remove_grant (gre_key e, gre_subject e) tx with
      | (true, tx) => growth_sub charge tx
      | (false, tx) => tx
      end
  end.

Lemma write_grant_split e tx :
  write_grant e tx =
  write_acl e (put_resource (gre_key e) (gre_row e)
                 (charge_resource_row (gre_key e) (len (rr_value (gre_row e))) tx)).
Proof. done. Qed.

Lemma write_acl_move e tx :
  gre_creates_acl_row e =
    bool_decide (st_acl (tx_state tx) !! (gre_key e, gre_subject e) = None)
    && bool_decide (is_Some (gre_rights e)) ->
  (gre_rights e = None -> is_Some (st_acl (tx_state tx) !! (gre_key e, gre_subject e))) ->
  growth_move
    (if gre_creates_acl_row e then acl_row_charge (gre_key e, gre_subject e) 0 else 0)
    (if bool_decide (is_Some (gre_rights e)) then 0
     else acl_row_charge (gre_key e, gre_subject e) 0) tx (write_acl e tx).
Proof.
  intros Hcr Hrm. unfold write_acl, put_grant, remove_grant, growth_move, growth_exact, acl_row_charge.
  destruct (gre_rights e) as [rights|] eqn:Hr.
  - rewrite (bool_decide_eq_true_2 (is_Some (Some rights))) in * by eauto.
    rewrite andb_true_r in Hcr.
    pose proof (growth_total_acl (tx_state tx) (gre_key e, gre_subject e) rights) as H.
    destruct (gre_creates_acl_row e); symmetry in Hcr; boolean_facts;
      [rewrite Hcr in H|]; simpl in H |- *.
    + rewrite N.add_0_r in H |- *. split; [exact H|].
      intros Hc. rewrite (u64_add_mod _ _ _ Hc). f_equal. symmetry. exact H.
    + destruct (st_acl _ !! _) as [old|] eqn:Ho; [|done]. simpl in H.
      unfold acl_row_charge in H. simpl in H. apply N.add_cancel_r in H.
      rewrite !N.add_0_r. split; [exact H|]. intros Hc. rewrite Hc. f_equal. symmetry. exact H.
  - destruct (Hrm eq_refl) as [old Hold].
    rewrite (bool_decide_eq_false_2 (is_Some None)) in * by (by intros [??]).
    rewrite andb_false_r in Hcr. rewrite Hcr. pose proof (growth_total_acl_delete (tx_state tx) (gre_key e, gre_subject e)) as H.
    rewrite bool_decide_eq_true_2 by eauto. rewrite Hold in H. simpl in H |- *.
    rewrite N.add_0_r. split; [exact H|]. intros Hc. exact (u64_sub_mod _ _ _ _ Hc H).
Qed.

(** What a grant adds and frees: its resource row and its ACL row. *)
Lemma write_grant_move st actor a e c :
  grant_decide st actor a = GD_Apply e ->
  growth_move
    (resource_row_charge (gre_key e) (gre_row e)
     + (if gre_creates_acl_row e then acl_row_charge (gre_key e, gre_subject e) 0 else 0))
    (from_option (resource_row_charge (gre_key e)) 0 (st_resources st !! gre_key e)
     + (if bool_decide (is_Some (gre_rights e)) then 0
     else acl_row_charge (gre_key e, gre_subject e) 0))
    (mk_Tx st c) (write_grant e (mk_Tx st c)).
Proof.
  intros Hacc%grant_decide_accepted. destruct Hacc. rewrite write_grant_split.
  eapply growth_move_trans; [apply (write_resource_move _ _ (mk_Tx st c))|].
  by apply write_acl_move.
Qed.

(** ** The membership writer *)

Lemma charge_of_intents_ext s s' ids :
  (forall id, id ∈ ids -> st_intents s' !! id = st_intents s !! id) ->
  charge_of_intents s' ids = charge_of_intents s ids.
Proof.
  induction ids as [|x ids IH]; [done|]. intros Heq. simpl. rewrite Heq by set_solver.
  f_equal. apply IH. set_solver.
Qed.

Lemma charge_of_routes_ext s s' nodes :
  (forall n, n ∈ nodes -> st_routes s' !! n = st_routes s !! n) ->
  charge_of_routes s' nodes = charge_of_routes s nodes.
Proof.
  induction nodes as [|x nodes IH]; [done|]. intros Heq. simpl. rewrite Heq by set_solver.
  f_equal. apply IH. set_solver.
Qed.

Lemma evict_intents_move ids tx :
  NoDup ids ->
  growth_move 0 (charge_of_intents (tx_state tx) ids) tx (foldl (λ tx id, evict_intent id tx) tx ids).
Proof.
  intros Hnd. revert tx. induction Hnd as [|id ids Hid Hnd IH]; intros tx; simpl;
    [apply growth_move_refl|].
  rewrite <- (charge_of_intents_ext (tx_state tx) (tx_state (evict_intent id tx)) ids).
  2:{ intros x Hx. rewrite (proj1 (evict_intent_tables id tx)). apply lookup_delete_ne. by intros ->. }
  exact (growth_move_trans 0 _ 0 _ _ _ _ (evict_intent_move id tx) (IH _)).
Qed.

Lemma evict_routes_move nodes tx :
  NoDup nodes ->
  growth_move 0 (charge_of_routes (tx_state tx) nodes) tx
    (foldl (λ tx node, evict_route node tx) tx nodes).
Proof.
  intros Hnd. revert tx. induction Hnd as [|id ids Hid Hnd IH]; intros tx; simpl;
    [apply growth_move_refl|].
  rewrite <- (charge_of_routes_ext (tx_state tx) (tx_state (evict_route id tx)) ids).
  2:{ intros x Hx. rewrite (proj1 (evict_route_tables id tx)). apply lookup_delete_ne. by intros ->. }
  exact (growth_move_trans 0 _ 0 _ _ _ _ (evict_route_move id tx) (IH _)).
Qed.

Lemma store_routes_move log_id l tx :
  NoDup (map fst l) ->
  growth_move (foldr (λ nr acc, charge_route (len (ro_ticket nr.2)) + acc) 0 l)
    (charge_of_routes (tx_state tx) (map fst l)) tx
    (foldl (λ tx nr, store_route log_id nr tx) tx l).
Proof.
  revert tx. induction l as [|nr l IH]; intros tx Hnd; simpl; [apply growth_move_refl|].
  inversion Hnd as [|?? Hin Hnd']; subst.
  rewrite <- (charge_of_routes_ext (tx_state tx) (tx_state (store_route log_id nr tx)) (map fst l)).
  2:{ intros x Hx. simpl. apply lookup_insert_ne. intros <-. by apply Hin. }
  exact (growth_move_trans _ _ _ _ _ _ _ (store_route_move log_id nr tx) (IH _ Hnd')).
Qed.

(** What a membership effect must be for its writes to be independent: no id is
    evicted twice or both evicted and written. *)
Record effect_apart (e : IntentEffect) : Prop := {
  ea_evict : NoDup (ie_evict e);
  ea_evict_own : ie_operation_id e ∉ ie_evict e;
  ea_routes : NoDup (map fst (ie_routes e));
  ea_evict_routes : NoDup (ie_evict_routes e);
  ea_routes_apart n : n ∈ ie_evict_routes e -> n ∉ map fst (ie_routes e);
}.

(** The two sides [growth_delta] compares. *)
Definition effect_added (e : IntentEffect) : N :=
  charge_intent (intent_charge_len (ie_intent e) (ie_operation_id e))
  + foldr (λ nr acc, charge_route (len (ro_ticket nr.2)) + acc) 0 (ie_routes e).
Definition effect_freed (st : State) (e : IntentEffect) : N :=
  from_option (intent_row_charge (ie_operation_id e)) 0 (st_intents st !! ie_operation_id e)
  + charge_of_intents st (ie_evict e)
  + charge_of_routes st (map fst (ie_routes e))
  + charge_of_routes st (ie_evict_routes e).

(** The write moves the growth by exactly what [growth_delta] predicts. *)
Lemma write_intent_move log_id e tx :
  effect_apart e ->
  growth_move (effect_added e) (effect_freed (tx_state tx) e) tx (write_intent log_id e tx).
Proof.
  intros []. unfold write_intent.
  pose proof (evict_intents_move (ie_evict e) tx ea_evict0) as M1.
  destruct (evict_intents_tables (ie_evict e) tx) as [I1 R1].
  set (tx1 := foldl _ tx (ie_evict e)) in *.
  pose proof (store_intent_move (ie_operation_id e) (stamp_intent log_id (ie_intent e)) tx1) as M2.
  rewrite I1, foldl_delete_lookup, decide_False in M2 by done.
  set (tx2 := store_intent _ _ tx1) in *.
  assert (st_routes (tx_state tx2) = st_routes (tx_state tx)) as R2 by exact R1.
  pose proof (evict_routes_move (ie_evict_routes e) tx2 ea_evict_routes0) as M3.
  destruct (evict_routes_tables (ie_evict_routes e) tx2) as [R3 _].
  set (tx3 := foldl _ tx2 _) in *.
  pose proof (store_routes_move log_id (ie_routes e) tx3 ea_routes0) as M4.
  rewrite (charge_of_routes_ext (tx_state tx) (tx_state tx2)) in M3 by (intros; by rewrite R2).
  rewrite (charge_of_routes_ext (tx_state tx) (tx_state tx3)) in M4.
  2:{ intros n Hn. rewrite R3, foldl_delete_lookup, R2. rewrite decide_False; [done|naive_solver]. }
  pose proof (growth_move_trans _ _ _ _ _ _ _ M1 (growth_move_trans _ _ _ _ _ _ _ M2
    (growth_move_trans _ _ _ _ _ _ _ M3 M4))) as [Ht He].
  split; [|exact He]. unfold effect_added, effect_freed, intent_row_charge in *.
  change (intent_charge_len (stamp_intent log_id (ie_intent e)) (ie_operation_id e))
    with (intent_charge_len (ie_intent e) (ie_operation_id e)) in Ht. lia.
Qed.

(** ** The reserve *)

Lemma reserve_total_sessions st k r :
  reserve_total (set_sessions (<[k:=r]> (st_sessions st)) st)
  + from_option (session_row_charge k) 0 (st_sessions st !! k)
  = reserve_total st + session_row_charge k r.
Proof. unfold reserve_total. simpl. pose proof (msum_insert session_row_charge (st_sessions st) k r). lia. Qed.

Lemma reserve_total_audit st k r :
  st_audit st !! k = None ->
  reserve_total (set_audit (<[k:=r]> (st_audit st)) st) = reserve_total st + audit_row_charge k r.
Proof.
  intros Hk. unfold reserve_total. simpl. rewrite (msum_insert_None _ _ _ _ Hk). lia.
Qed.

Lemma reserve_total_audit_delete st k r :
  st_audit st !! k = Some r ->
  reserve_total (set_audit (delete k (st_audit st)) st) + audit_row_charge k r = reserve_total st.
Proof.
  intros Hk. unfold reserve_total. simpl. rewrite (msum_delete _ _ _ _ Hk). lia.
Qed.

Lemma store_session_move key row tx :
  reserve_move (session_row_charge key row)
    (from_option (session_row_charge key) 0 (st_sessions (tx_state tx) !! key)) tx
    (store_session key row tx).
Proof.
  pose proof (reserve_total_sessions (tx_state tx) key row) as H. split; [exact H|].
  unfold reserve_exact. simpl. intros Hc. exact (u64_add_sub_mod _ _ _ _ _ Hc H).
Qed.

Lemma prune_one_exact tx :
  reserve_exact (tx_state tx) -> reserve_exact (tx_state (prune_one tx)).
Proof.
  unfold prune_one. destruct (btree_iter (st_audit (tx_state tx))) as [|[k r] t] eqn:Hit; [done|].
  apply btree_iter_head in Hit as [Hk _].
  pose proof (reserve_total_audit_delete (tx_state tx) k r Hk) as H.
  unfold reserve_exact. simpl. intros Hc. exact (u64_sub_mod _ _ _ _ Hc H).
Qed.

Lemma prune_loop_exact fuel tx :
  reserve_exact (tx_state tx) -> reserve_exact (tx_state (prune_loop fuel tx)).
Proof.
  revert tx. induction fuel as [|fuel IH]; intros tx Hc; simpl; [done|].
  destruct (_ <? _); [|done]. apply IH. by apply prune_one_exact.
Qed.

Lemma write_audit_row_exact log_id row tx :
  st_audit (tx_state tx) !! (li_term log_id, li_index log_id) = None ->
  reserve_exact (tx_state tx) -> reserve_exact (tx_state (write_audit_row log_id row tx)).
Proof.
  intros Hk Hc. unfold write_audit_row, prune_audit. apply prune_loop_exact.
  pose proof (reserve_total_audit (tx_state tx) _ row Hk) as H.
  unfold reserve_exact in *. simpl. rewrite (u64_add_mod _ _ _ Hc). f_equal. symmetry. exact H.
Qed.
End accounting.
