(* ===== verification/Invariant.v ===== *)
(** * The invariant of the replicated state

    One record per table, then their conjunction. The invariant is stronger
    than the validator of the storage layer: it keeps what the next command
    needs (valid keys, which operation a saved reply answers, that the audit
    keys are the positions of a log) and not only what a load rereads. The
    stamps are bounded by an explicit log position, so that a command's writes
    can be stated before its entry becomes the last applied one. *)

From S2P Require Import Prelude Reason Ids Contract Externals Limits State Tables Classify.
From S2P Require Import Ticket Authority Shape Genesis Resource Grant Retire.
From S2P Require Import Membership Apply Changes Durable Accounting.

#[local] Open Scope N_scope.

Record resources_ok (st : State) : Prop := {
  rs_row k r : st_resources st !! k = Some r -> valid_key k /\ row_ok r;
  rs_cap : N.of_nat (size (st_resources st)) <= MAX_RESOURCES_PER_GROUP;
}.

Record acl_ok (st : State) : Prop := {
  ac_row k rights : st_acl st !! k = Some rights ->
    rights <> 0 /\ rights_are_known rights = true /\ is_Some (st_resources st !! k.1);
  ac_cap : N.of_nat (size (st_acl st)) <= MAX_ACL_ROWS_PER_GROUP;
  ac_per key : grants_on st key <= MAX_GRANTS_PER_RESOURCE;
}.

Record admins_ok (st : State) : Prop := {
  am_cap : N.of_nat (size (st_admins st)) <= MAX_ADMINS_PER_GROUP;
  am_revision : st_admin_revision st <= MAX_COUNTER;
  am_founded : st_admin_revision st = 0 <-> st_admins st = ∅;
  am_root : ga_public_key (st_authority st) ∉ st_admins st;
}.

(** Before the genesis entry nothing that grows exists. *)
Definition unfounded_empty (st : State) : Prop :=
  st_admin_revision st = 0 ->
  st_resources st = ∅ /\ st_acl st = ∅ /\ st_intents st = ∅ /\ st_routes st = ∅.

(** A reply that a command with this operation code may save. *)
Record reply_legal (operation : Z) (r : SavedReply) : Prop := {
  rl_outcome : exists allowed, audit_results_for operation = Some allowed /\
    outcome_code (sr_outcome r) ∈ allowed;
  rl_client : is_system_operation operation = false;
  rl_reserved : is_reserved (sr_reason r) = false;
  rl_reason : sr_outcome r = O_Rejected \/ sr_reason r = R_None;
  rl_acl : sr_acl_revision r <= MAX_COUNTER;
  rl_admin : sr_admin_revision r <= MAX_COUNTER;
  rl_snapshot s : sr_snapshot r = Some s -> snapshot_legal s = true /\ valid_key (ss_resource s);
}.

(** A session row; [op_of_hash] is the operation a request hash commits to. *)
Record session_ok (op_of_hash : Hash -> Z) (s : Session) : Prop := {
  so_sequence : se_last_sequence s <= MAX_COUNTER;
  so_empty : se_last_result s = None -> se_last_sequence s = 0;
  so_reply r : se_last_result s = Some r -> reply_legal (op_of_hash (se_request_hash s)) r;
}.

Record sessions_ok (op_of_hash : Hash -> Z) (st : State) : Prop := {
  ses_row k s : st_sessions st !! k = Some s -> session_ok op_of_hash s;
  ses_cap : N.of_nat (size (st_sessions st)) <= MAX_RETAINED_SESSIONS_PER_GROUP;
  ses_per actor : ca_retained_actor (capacity_for st actor) <= MAX_RETAINED_SESSIONS_PER_ACTOR;
  ses_active actor : ca_active_group (capacity_for st actor) <= MAX_ACTIVE_CLIENTS_PER_GROUP;
  ses_active_per actor :
    ca_active_actor (capacity_for st actor) <= MAX_ACTIVE_CLIENTS_PER_ACTOR;
}.

(** An audit row a command may write. *)
Record audit_row_ok (r : AuditRow) : Prop := {
  aro_legal : audit_row_legal r = true;
  aro_key k : ar_resource r = Some k -> valid_key k;
}.

(** [id] is a position of the log up to [bound]. *)
Definition key_within (bound : option LogId) (k : N * N) : Prop :=
  exists last, bound = Some last /\ k.1 <= li_term last /\ k.2 <= li_index last.

(** The audit trail: rows at the positions of a log, a tip that is its last row
    and a floor that is its first. *)
Record audit_shape (bound : option LogId) (st : State) : Prop := {
  au_row k r : st_audit st !! k = Some r -> audit_row_ok r /\ key_within bound k;
  au_order k k' : is_Some (st_audit st !! k) -> is_Some (st_audit st !! k') ->
    k <> k' -> pair_leb k k' = true -> k.2 < k'.2;
  au_tip : match st_audit_tip st with
    | None => st_audit st = ∅
    | Some t => (exists r, st_audit st !! (li_term t, li_index t) = Some r /\
                   ar_leader_node_id r = li_leader_node_id t) /\
                (forall k, is_Some (st_audit st !! k) -> k.2 <= li_index t) /\
                (exists last, bound = Some last /\ (li_index t < li_index last \/ t = last))
    end;
  au_floor f : st_audit_floor st = Some f ->
    (exists r, st_audit st !! (li_term f, li_index f) = Some r /\
       ar_leader_node_id r = li_leader_node_id f) /\
    (forall k, is_Some (st_audit st !! k) -> pair_leb (li_term f, li_index f) k = true);
}.

Record audit_ok (bound : option LogId) (st : State) : Prop := {
  au_shape : audit_shape bound st;
  au_cap : N.of_nat (size (st_audit st)) <= MAX_AUDIT_ROWS;
}.

Section membership_rows.
Context `{Ext : Externals}.

(** The positions an intent was stamped with; only a finished one has a
    completion. *)
Record intent_stamps_ok (bound : option LogId) (i : Intent) : Prop := {
  iso_legal : intent_stamps_legal bound i = true;
  iso_open : is_terminal_phase (in_status_code i) = false -> in_completed_log_id i = None;
}.

Record intents_ok (bound : option LogId) (st : State) : Prop := {
  io_plan id i : st_intents st !! id = Some i -> stored_plan_legal st (in_plan i) = true;
  io_stamps id i : st_intents st !! id = Some i -> intent_stamps_ok bound i;
  io_active : mcount (λ _ i, negb (is_terminal_phase (in_status_code i))) (st_intents st) <= 1;
  io_terminal : mcount (λ _ i, is_terminal_phase (in_status_code i)) (st_intents st)
    <= MAX_RETAINED_INTENTS;
}.

Record routes_ok (bound : option LogId) (st : State) : Prop := {
  ros_row node r : st_routes st !! node = Some r ->
    check_seed_ticket (ro_ticket r) node = Ok () /\ stamp_within bound (ro_introduced_log_id r) = true;
  ros_cap : N.of_nat (size (st_routes st)) <= MAX_RETAINED_ROUTES;
}.

(** The growth counter is the sum of the charges, within its budget. *)
Record growth_ok (st : State) : Prop := {
  gr_exact : growth_exact st;
  gr_budget : growth_total st <= GROWTH_BUDGET;
}.

(** The largest committed membership the retained routes are sized for. *)
Definition MEMBERS_BOUND : N := 57.

Record inv (op_of_hash : Hash -> Z) (bound : option LogId) (st : State) : Prop := {
  inv_resources : resources_ok st;
  inv_acl : acl_ok st;
  inv_admins : admins_ok st;
  inv_unfounded : unfounded_empty st;
  inv_sessions : sessions_ok op_of_hash st;
  inv_intents : intents_ok bound st;
  inv_routes : routes_ok bound st;
  inv_audit : audit_ok bound st;
  inv_growth : growth_ok st;
  inv_reserve : reserve_exact st;
  inv_members : N.of_nat (size (cm_members (st_membership st))) <= MEMBERS_BOUND;
}.
End membership_rows.

(** ** Which commands a log may hold

    The conditions the wire boundary establishes: keys come from the validating
    constructor, a request hash commits to one operation, the operation code of
    a rejected or shapeless command is one of its kind, and a progress report
    observes a membership that is already in the log. *)

Definition client_operation (operation : Z) : Prop :=
  is_system_operation operation = false /\
  exists allowed, audit_results_for operation = Some allowed /\ outcome_code O_Rejected ∈ allowed.

Definition keys_valid (k : option ResourceKey) : Prop := forall key, k = Some key -> valid_key key.

Definition command_ok (op_of_hash : Hash -> Z) (log_id : LogId) (c : Command) : Prop :=
  match c with
  | C_Unknown | C_RetireClient _ | C_Genesis _ => True
  | C_Client client action => op_of_hash (cr_request_hash client) = operation_code action
  | C_RejectedClient client operation resource =>
      op_of_hash (cr_request_hash client) = operation /\ client_operation operation /\
      keys_valid resource
  | C_Shapeless s =>
      keys_valid (shc_resource s) /\
      match shc_reply_shape s with
      | RS_Client | RS_Retirement => client_operation (shc_operation_code s)
      | RS_System => is_system_operation (shc_operation_code s) = true /\
          exists allowed, audit_results_for (shc_operation_code s) = Some allowed /\
            shc_system_result_code s ∈ allowed
      end
  | C_Expire e => valid_key (ec_resource e)
  | C_MembershipProgress p =>
      forall id, mpc_observed_membership_log_id p = Some id -> li_index id <= li_index log_id
  end.

(** The position of the next entry: above every one before it. *)
Definition log_advances (last : option LogId) (log_id : LogId) : Prop :=
  forall l, last = Some l -> li_index l < li_index log_id /\ li_term l <= li_term log_id.
