(* ===== verification/AuditTrail.v ===== *)
(** * The audit trail keeps its shape

    [write_audit_row] appends at the newest position and prunes from the oldest
    until the cap holds. The theorems show that the loop ends within the fuel
    the model gives it, that the tip stays the last retained row and the floor
    becomes the first, and that the reserve counter follows. *)

From S2P Require Import Prelude Reason Ids Contract Externals Limits State Tables Classify.
From S2P Require Import Ticket Authority Shape Genesis Resource Grant Retire.
From S2P Require Import Membership Apply Changes Durable Accounting Invariant.

#[local] Open Scope N_scope.

(** A position above the bound is not a key of the trail. *)
Lemma audit_fresh bound st log_id :
  audit_shape bound st -> log_advances bound log_id ->
  st_audit st !! (li_term log_id, li_index log_id) = None.
Proof.
  intros Hs Hadv. destruct (st_audit st !! _) eqn:Hk; [|done].
  apply (au_row _ _ Hs) in Hk as (_ & last & Hb & _ & Hi). simpl in Hi.
  destruct (Hadv _ Hb). lia.
Qed.

(** The state between the append and the pruning. *)
Definition appended (log_id : LogId) (row : AuditRow) (st : State) : State :=
  set_audit_tip (Some log_id) (set_audit (<[(li_term log_id, li_index log_id) := row]> (st_audit st)) st).

Lemma appended_shape bound st log_id row :
  audit_shape bound st -> log_advances bound log_id -> audit_row_ok row ->
  ar_leader_node_id row = li_leader_node_id log_id ->
  audit_shape (Some log_id) (appended log_id row st).
Proof.
  intros Hs Hadv Hrow Hlead.
  assert (forall k, is_Some (st_audit st !! k) -> k.1 <= li_term log_id /\ k.2 < li_index log_id) as Hold.
  { intros k [r Hr]. apply (au_row _ _ Hs) in Hr as (_ & last & Hb & Ht & Hi).
    destruct (Hadv _ Hb). lia. }
  assert (forall k, is_Some (st_audit (appended log_id row st) !! k) ->
            k = (li_term log_id, li_index log_id) \/ is_Some (st_audit st !! k)) as Hcase.
  { intros k. simpl. destruct (decide (k = (li_term log_id, li_index log_id))) as [->|]; [by left|].
    rewrite lookup_insert_ne by done. by right. }
  split; simpl.
  - intros k r [[<- <-]|[? Hr]]%lookup_insert_Some.
    + split; [done|]. exists log_id. simpl. split_and!; [done|lia|lia].
    + split; [by eapply au_row|]. exists log_id. destruct (Hold k) as [??]; [by eexists|]. split_and!; [done|lia|lia].
  - intros k k' Hk Hk' Hne Hle.
    destruct (Hcase k Hk) as [->|H1], (Hcase k' Hk') as [->|H2]; [done|..].
    + exfalso. destruct (Hold _ H2). destruct k'. unfold pair_leb in Hle. simpl in *.
      apply orb_true_iff in Hle as [?|?]; boolean_facts; lia.
    + by destruct (Hold _ H1).
    + by eapply au_order.
  - split_and!; [|intros k Hk|eauto].
    + eexists. by rewrite lookup_insert_eq.
    + destruct (Hcase k Hk) as [->|H1]; simpl; [lia|]. destruct (Hold _ H1). lia.
  - intros f Hf. destruct (au_floor _ _ Hs f Hf) as [(r & Hr & Hl) Hmin]. split.
    + exists r. split; [|done]. rewrite lookup_insert_ne; [done|].
      intros Heq. rewrite <- Heq in Hr. rewrite (audit_fresh _ _ _ Hs Hadv) in Hr. done.
    + intros k Hk. destruct (Hcase k Hk) as [->|H1]; [|by apply Hmin].
      destruct (Hold (li_term f, li_index f)) as [H1 H2]; [by eexists|]. simpl in *.
      unfold pair_leb. simpl. apply orb_true_iff.
      rewrite N.ltb_lt, andb_true_iff, N.eqb_eq, N.leb_le. lia.
Qed.

(** One turn of the pruning drops the oldest of at least two rows. *)
Lemma prune_one_shape bound tx :
  audit_shape bound (tx_state tx) -> (2 <= size (st_audit (tx_state tx)))%nat ->
  audit_shape bound (tx_state (prune_one tx)) /\
  size (st_audit (tx_state (prune_one tx))) = pred (size (st_audit (tx_state tx))).
Proof.
  intros Hs Hsz. unfold prune_one.
  destruct (btree_iter (st_audit (tx_state tx))) as [|[k row] t] eqn:Hit.
  { apply btree_iter_nil in Hit. rewrite Hit, map_size_empty in Hsz. lia. }
  apply btree_iter_head in Hit as [Hk Hmin].
  assert (size (delete k (st_audit (tx_state tx))) = pred (size (st_audit (tx_state tx)))) as Hsize
    by (by apply map_size_delete_Some).
  set (rest := btree_iter _).
  destruct rest as [|[k2 oldest] t2] eqn:Hit2; subst rest.
  { simpl in Hit2. apply btree_iter_nil in Hit2. rewrite Hit2, map_size_empty in Hsize. lia. }
  simpl in Hit2. apply btree_iter_head in Hit2 as [Hk2 Hmin2].
  destruct k2 as [t3 i3]. simpl. split; [|done].
  assert (forall k', is_Some (delete k (st_audit (tx_state tx)) !! k') ->
            k' <> k /\ is_Some (st_audit (tx_state tx) !! k')) as Hsub.
  { intros k' [r [Hne Hr]%lookup_delete_Some]. eauto. }
  split; simpl.
  - intros k' r [_ Hr]%lookup_delete_Some. by eapply au_row.
  - intros a b [_ Ha]%Hsub [_ Hb]%Hsub. by eapply au_order.
  - destruct (Hsub (t3, i3)) as [Hne Hin]; [by eexists|].
    pose proof (au_tip _ _ Hs) as Htip. destruct (st_audit_tip (tx_state tx)) as [tip|].
    2:{ by rewrite Htip in Hk. }
    destruct Htip as ((r & Hr & Hl) & Hmax & Hb). split_and!; [|naive_solver|done].
    exists r. split; [|done]. rewrite lookup_delete_ne; [done|]. intros ->.
    destruct Hin as [r3 Hin]. pose proof (Hmin _ _ Hin).
    assert (li_index tip < i3); [|pose proof (Hmax (t3, i3) (mk_is_Some _ _ Hin)); simpl in *; lia].
    apply (au_order _ _ Hs (li_term tip, li_index tip) (t3, i3)); eauto.
  - intros f [= <-]. simpl. split; [by eexists|]. intros k' [r Hr]. by apply (Hmin2 k' r).
Qed.

Lemma prune_loop_shape bound fuel tx :
  audit_shape bound (tx_state tx) ->
  N.of_nat (size (st_audit (tx_state tx))) <= MAX_AUDIT_ROWS + N.of_nat fuel ->
  audit_ok bound (tx_state (prune_loop fuel tx)).
Proof.
  revert tx. induction fuel as [|fuel IH]; intros tx Hs Hle; simpl; [split; [done|lia]|].
  destruct (N.ltb_spec MAX_AUDIT_ROWS (N.of_nat (size (st_audit (tx_state tx))))) as [Hgt|Hok].
  2:{ by split. }
  destruct (prune_one_shape bound tx Hs) as [Hs' Hsz].
  { unfold MAX_AUDIT_ROWS in Hgt. lia. }
  apply IH; [done|]. rewrite Hsz. lia.
Qed.

Lemma write_audit_row_ok bound log_id row tx :
  audit_ok bound (tx_state tx) -> log_advances bound log_id -> audit_row_ok row ->
  ar_leader_node_id row = li_leader_node_id log_id ->
  audit_ok (Some log_id) (tx_state (write_audit_row log_id row tx)).
Proof.
  intros [Hs _] Hadv Hrow Hlead. unfold write_audit_row, prune_audit.
  apply prune_loop_shape; [|lia].
  destruct (appended_shape _ _ _ _ Hs Hadv Hrow Hlead). by split.
Qed.

(** One turn on a non-empty trail removes its oldest row and nothing else. *)
Lemma prune_one_oldest tx :
  (0 < size (st_audit (tx_state tx)))%nat ->
  exists k, is_Some (st_audit (tx_state tx) !! k) /\
    st_audit (tx_state (prune_one tx)) = delete k (st_audit (tx_state tx)) /\
    forall k', is_Some (st_audit (tx_state tx) !! k') -> pair_leb k k' = true.
Proof.
  intros Hsz. unfold prune_one.
  destruct (btree_iter (st_audit (tx_state tx))) as [|[k row] t] eqn:Hit.
  { apply btree_iter_nil in Hit. rewrite Hit, map_size_empty in Hsz. lia. }
  apply btree_iter_head in Hit as [Hk Hmin]. exists k. split_and!; [by eexists|done|].
  intros k' [r Hr]. by eapply Hmin.
Qed.

(** What the loop leaves, for fuel that covers the excess. *)
Lemma prune_loop_keeps fuel tx :
  let before := st_audit (tx_state tx) in
  let kept := st_audit (tx_state (prune_loop fuel tx)) in
  N.of_nat (size before) <= MAX_AUDIT_ROWS + N.of_nat fuel ->
  N.of_nat (size kept) = N.min (N.of_nat (size before)) MAX_AUDIT_ROWS /\ kept ⊆ before /\
  forall k k', is_Some (before !! k) -> kept !! k = None -> is_Some (kept !! k') -> pair_leb k k' = true.
Proof.
  simpl. revert tx. induction fuel as [|fuel IH]; intros tx Hle; simpl.
  { split_and!; [lia|done|]. intros k k' [? Hk] Hn. by rewrite Hk in Hn. }
  destruct (N.ltb_spec MAX_AUDIT_ROWS (N.of_nat (size (st_audit (tx_state tx))))) as [Hgt|Hok].
  2:{ split_and!; [lia|done|]. intros k k' [? Hk] Hn. by rewrite Hk in Hn. }
  destruct (prune_one_oldest tx) as (k0 & [r0 Hk0] & Heq & Hmin); [lia|].
  destruct (IH (prune_one tx)) as (Hsz & Hsub & Hold).
  { rewrite Heq, map_size_delete_Some by (by eexists). lia. }
  rewrite Heq in Hsz, Hsub, Hold. rewrite map_size_delete_Some in Hsz by (by eexists).
  assert (kept_of : forall k, is_Some (st_audit (tx_state (prune_loop fuel (prune_one tx))) !! k) ->
            is_Some (st_audit (tx_state tx) !! k)).
  { intros k [r Hr]. eapply lookup_weaken in Hr; [|exact Hsub].
    apply lookup_delete_Some in Hr as [_ Hr]. by eexists. }
  split_and!; [lia|etrans; [exact Hsub|apply delete_subseteq]|].
  intros k k' Hk Hn Hk'. destruct (decide (k = k0)) as [->|Hne]; [by apply Hmin, kept_of|].
  apply Hold; [|done|done]. by rewrite lookup_delete_ne.
Qed.

Lemma prune_loop_enough fuel extra tx :
  N.of_nat (size (st_audit (tx_state tx))) <= MAX_AUDIT_ROWS + N.of_nat fuel ->
  prune_loop (fuel + extra) tx = prune_loop fuel tx.
Proof.
  revert tx. induction fuel as [|fuel IH]; intros tx Hle; simpl.
  - destruct extra; [done|]. simpl. by destruct (N.ltb_spec MAX_AUDIT_ROWS (N.of_nat (size (st_audit (tx_state tx))))); [lia|].
  - destruct (N.ltb_spec MAX_AUDIT_ROWS (N.of_nat (size (st_audit (tx_state tx))))) as [Hgt|]; [|done].
    apply IH. destruct (prune_one_oldest tx) as (k0 & Hk0 & Heq & _); [lia|].
    rewrite Heq, map_size_delete_Some by done. lia.
Qed.

(** The retention loop terminates on every state, however far over its cap
    the trail is: turns beyond the number of rows change nothing, so the loop
    has stopped of itself, and it stops with exactly the newest
    [MAX_AUDIT_ROWS] rows, or all of them when there are fewer, unchanged. *)
Theorem audit_retention_terminates tx extra :
  let before := st_audit (tx_state tx) in
  let kept := st_audit (tx_state (prune_audit tx)) in
  prune_loop (size before + extra) tx = prune_audit tx /\
  N.of_nat (size kept) = N.min (N.of_nat (size before)) MAX_AUDIT_ROWS /\
  kept ⊆ before /\
  (forall k k', is_Some (before !! k) -> kept !! k = None -> is_Some (kept !! k') -> pair_leb k k' = true).
Proof.
  split; [apply prune_loop_enough; lia|]. apply prune_loop_keeps. lia.
Qed.

(** ** The trail along a history *)

(** How a trail moves: a row stays as it is or is dropped below everything
    that is kept, which sets the floor; a new row is above all that was there. *)
Record trail_moves (s s' : State) : Prop := {
  tm_kept k r : st_audit s !! k = Some r ->
    st_audit s' !! k = Some r \/
    (is_Some (st_audit_floor s') /\ forall k', is_Some (st_audit s' !! k') -> k.2 < k'.2);
  tm_new k r : st_audit s' !! k = Some r ->
    st_audit s !! k = Some r \/ forall k', is_Some (st_audit s !! k') -> k'.2 < k.2;
  tm_lives : (exists k, is_Some (st_audit s !! k)) -> exists k, is_Some (st_audit s' !! k);
  tm_floor : is_Some (st_audit_floor s) -> is_Some (st_audit_floor s');
  tm_authority : st_authority s' = st_authority s;
}.

Lemma trail_moves_same s s' :
  st_audit s' = st_audit s -> st_audit_floor s' = st_audit_floor s -> st_authority s' = st_authority s ->
  trail_moves s s'.
Proof. intros Ha Hf Hg. split; rewrite ?Ha, ?Hf, ?Hg; auto. Qed.

Lemma trail_moves_trans s1 s2 s3 : trail_moves s1 s2 -> trail_moves s2 s3 -> trail_moves s1 s3.
Proof.
  intros A B. split.
  - intros k r Hk. destruct (tm_kept _ _ A k r Hk) as [H2|[Hf Hlt]]; [by apply (tm_kept _ _ B)|right].
    split; [by apply (tm_floor _ _ B)|]. intros k3 [r3 H3].
    destruct (tm_new _ _ B k3 r3 H3) as [H2|Hnew]; [by apply Hlt|].
    destruct (tm_lives _ _ A) as [k2 H2]; [by exists k; eexists|]. specialize (Hlt k2 H2). specialize (Hnew k2 H2). lia.
  - intros k r Hk. destruct (tm_new _ _ B k r Hk) as [H2|Hnew]; [by apply (tm_new _ _ A)|right].
    intros k1 [r1 H1]. destruct (tm_kept _ _ A k1 r1 H1) as [H2|[_ Hlt]]; [apply Hnew; by eexists|].
    destruct (tm_lives _ _ A) as [k2 H2]; [by exists k1; eexists|]. specialize (Hlt k2 H2). specialize (Hnew k2 H2). lia.
  - intros H. by apply (tm_lives _ _ B), (tm_lives _ _ A).
  - intros H. by apply (tm_floor _ _ B), (tm_floor _ _ A).
  - by rewrite (tm_authority _ _ B), (tm_authority _ _ A).
Qed.

#[export] Instance trail_moves_preorder : PreOrder trail_moves.
Proof. split; [intros s; by apply trail_moves_same|exact trail_moves_trans]. Qed.

(** One turn of the pruning moves the trail. *)
Lemma prune_one_moves bound tx :
  audit_shape bound (tx_state tx) -> (2 <= size (st_audit (tx_state tx)))%nat ->
  trail_moves (tx_state tx) (tx_state (prune_one tx)).
Proof.
  intros Hs Hsz. destruct (prune_one_oldest tx) as (k0 & Hk0 & Heq & Hmin); [lia|].
  destruct (prune_one_shape bound tx Hs Hsz) as [Hs' Hsz'].
  assert (is_Some (st_audit_floor (tx_state (prune_one tx))) /\
          st_authority (tx_state (prune_one tx)) = st_authority (tx_state tx)) as [Hf Hauth].
  { unfold prune_one. repeat case_match; simpl; split; try done; try (by eexists).
    match goal with H : btree_iter (st_audit (tx_state tx)) = [] |- _ => apply btree_iter_nil in H; rewrite H in Hsz end.
    rewrite map_size_empty in Hsz. lia. }
  split; [| |intros _|done|done].
  - intros k r Hk. destruct (decide (k = k0)) as [->|Hne].
    + right. split; [done|]. intros k' Hk'. rewrite Heq in Hk'. destruct Hk' as [r' [Hne Hr']%lookup_delete_Some].
      apply (au_order _ _ Hs k0 k'); [done|by eexists|congruence|]. apply Hmin. by eexists.
    + left. by rewrite Heq, lookup_delete_ne.
  - rewrite Heq. intros k r [_ Hk]%lookup_delete_Some. by left.
  - destruct (map_choose (st_audit (tx_state (prune_one tx)))) as (k & r & Hk); [|by exists k; eexists].
    intros He. rewrite He, map_size_empty in Hsz'. lia.
Qed.

Lemma prune_loop_moves bound fuel tx :
  audit_shape bound (tx_state tx) -> trail_moves (tx_state tx) (tx_state (prune_loop fuel tx)).
Proof.
  revert tx. induction fuel as [|fuel IH]; intros tx Hs; simpl; [reflexivity|].
  destruct (N.ltb_spec MAX_AUDIT_ROWS (N.of_nat (size (st_audit (tx_state tx))))) as [Hgt|]; [|reflexivity].
  assert (2 <= size (st_audit (tx_state tx)))%nat as Hsz by (unfold MAX_AUDIT_ROWS in Hgt; lia).
  trans (tx_state (prune_one tx)); [by eapply prune_one_moves|]. apply IH. by apply prune_one_shape.
Qed.

(** An append at the end of the log moves the trail. *)
Lemma appended_moves bound st log_id row :
  audit_shape bound st -> log_advances bound log_id -> trail_moves st (appended log_id row st).
Proof.
  intros Hs Hadv. split; simpl; auto.
  - intros k r Hk. left. rewrite lookup_insert_ne; [done|]. intros <-.
    by rewrite (audit_fresh _ _ _ Hs Hadv) in Hk.
  - intros k r [[<- <-]|[_ Hk]]%lookup_insert_Some; [right|by left].
    intros k' [r' Hr']. apply (au_row _ _ Hs) in Hr' as (_ & last & Hb & _ & Hi). destruct (Hadv _ Hb). simpl. lia.
  - intros _. eexists. by rewrite lookup_insert_eq.
Qed.

Lemma write_audit_row_moves bound log_id row tx :
  audit_shape bound (tx_state tx) -> log_advances bound log_id -> audit_row_ok row ->
  ar_leader_node_id row = li_leader_node_id log_id ->
  trail_moves (tx_state tx) (tx_state (write_audit_row log_id row tx)).
Proof.
  intros Hs Hadv Hrow Hlead. unfold write_audit_row, prune_audit.
  set (tx2 := tx_modify (set_audit_tip _) _).
  assert (audit_shape (Some log_id) (tx_state tx2) /\ trail_moves (tx_state tx) (tx_state tx2)) as [Hs2 Hm].
  { split; [destruct (appended_shape _ _ _ _ Hs Hadv Hrow Hlead); by split|].
    trans (appended log_id row (tx_state tx)); [by eapply appended_moves|by apply trail_moves_same]. }
  etrans; [exact Hm|]. by eapply prune_loop_moves.
Qed.
