(* ===== verification/Steps.v ===== *)
(** * One command as a sequence of writes

    Every successful command is a business write, then at most one session row,
    then one audit row. [business] and [session_step] are the step relations
    with a rule per writer of the apply path, carrying the decision that
    licensed it; [dispatch_steps] decomposes the whole dispatch into them and
    shows that every reply saved and every audit row written is legal. *)

From S2P Require Import Prelude Reason Ids Contract Externals Limits State Tables Classify.
From S2P Require Import Ticket Authority Shape Genesis Resource Grant Retire.
From S2P Require Import Membership Apply Changes Durable Accounting Invariant.

#[local] Open Scope N_scope.

(** ** Legal replies *)

Lemma snapshot_of_legal key row :
  row_ok row -> snapshot_legal (SavedSnapshot_of key row) = true.
Proof.
  intros []. unfold snapshot_legal, ttl_is_legal. simpl.
  rewrite !andb_true_iff, !N.leb_le, orb_true_iff, !andb_true_iff, !N.leb_le, negb_true_iff, N.eqb_eq.
  split_and!; try done. apply eqb_true_iff.
  destruct (rr_held row); symmetry; [apply bool_decide_eq_true_2|apply bool_decide_eq_false_2];
    [by apply rok_held|]. intros Hs. by apply rok_held in Hs.
Qed.

Lemma validate_valid raw key : validate raw = Ok key -> valid_key key.
Proof.
  unfold validate, validate_resource_key. intros H. repeat case_match; simplify_eq/=.
  by match goal with H : ResourceKey_new _ _ = Ok _ |- _ => apply ResourceKey_new_Ok in H as [_ ?] end.
Qed.

Lemma validated_resource_valid a : keys_valid (validated_resource a).
Proof.
  intros key. destruct a; simpl; try done; destruct (validate _) eqn:Hv; simpl; intros [= <-];
    eauto using validate_valid.
Qed.

Lemma client_operation_action a : client_operation (operation_code a).
Proof.
  by destruct a as [[]| | | |]; split; try done; eexists;
    (split; [reflexivity|apply (bool_decide_unpack _); vm_compute; exact I]).
Qed.

Section replies.
Context (st : State) (Hres : resources_ok st) (Hadm : admins_ok st).

Lemma row_default_ok key : row_ok (default ResourceRow_default (st_resources st !! key)).
Proof.
  destruct (st_resources st !! key) eqn:Hk; simpl; [by eapply rs_row|apply row_ok_default].
Qed.

(** A rejection, whatever it is about. *)
Lemma rejection_legal operation resource reason :
  client_operation operation -> keys_valid resource -> is_reserved reason = false ->
  reply_legal operation (rejection st resource reason).
Proof.
  intros [Hc (al & Ha & Hin)] Hk Hr. split; simpl; eauto; try apply Hadm.
  - destruct resource as [key|]; simpl; [apply (row_default_ok key)|lia].
  - intros s. destruct resource as [key|]; simpl; [|done]. intros [= <-].
    split; [|by apply Hk]. apply snapshot_of_legal, row_default_ok.
Qed.

(** A success about one resource row. *)
Lemma success_legal operation outcome key row :
  is_system_operation operation = false ->
  (exists allowed, audit_results_for operation = Some allowed /\ outcome_code outcome ∈ allowed) ->
  valid_key key -> row_ok row ->
  reply_legal operation (clr_reply (consumed_success outcome key row)).
Proof.
  intros Hs Ha Hk Hr. split; simpl; eauto; try apply Hr; try lia.
  intros s [= <-]. split; [by apply snapshot_of_legal|done].
Qed.

(** A success that names no resource. *)
Lemma plain_legal operation outcome acl admin id log :
  is_system_operation operation = false ->
  (exists allowed, audit_results_for operation = Some allowed /\ outcome_code outcome ∈ allowed) ->
  acl <= MAX_COUNTER -> admin <= MAX_COUNTER ->
  reply_legal operation (mk_SavedReply outcome R_None None acl admin id log).
Proof. intros. split; simpl; eauto. done. Qed.
End replies.

(** A legal reply makes a legal audit row. *)
Lemma reply_audit_ok operation r leader actor epoch value_revision :
  reply_legal operation r -> epoch <= MAX_COUNTER -> value_revision <= MAX_COUNTER ->
  audit_row_ok (mk_AuditRow leader actor operation (sr_resource r) (AR_Client (sr_outcome r))
                  epoch value_revision).
Proof.
  intros [(al & Ha & Hin) Hc _ _ _ _ Hs] He Hv. split; simpl.
  - unfold audit_row_legal. simpl. rewrite Ha, Hc, bool_decide_eq_true_2 by done. simpl.
    rewrite andb_true_iff, !N.leb_le. done.
  - unfold sr_resource. destruct (sr_snapshot r) as [s|]; simpl; [|done]. intros k [= <-]. by apply Hs.
Qed.

Lemma snapshot_counters operation r :
  reply_legal operation r ->
  from_option ss_epoch 0 (sr_snapshot r) <= MAX_COUNTER /\
  from_option ss_value_revision 0 (sr_snapshot r) <= MAX_COUNTER.
Proof.
  intros []. destruct (sr_snapshot r) as [s|]; simpl; [|done].
  destruct (rl_snapshot s eq_refl) as [Hs _]. unfold snapshot_legal in Hs. by boolean_facts.
Qed.

(** ** The step relations *)

Section steps.
Context `{Ext : Externals}.

(** The business write of a command, with the decision that licensed it. *)
Inductive business (log_id : LogId) (tx : Tx) : Tx -> Prop :=
| BS_none : business log_id tx tx
| BS_resource actor a e :
    resource_decide (tx_state tx) actor a = RD_Apply e ->
    business log_id tx
      (put_resource (re_key e) (re_row e) (charge_resource_row (re_key e) (len (rr_value (re_row e))) tx))
| BS_grant actor a e :
    grant_decide (tx_state tx) actor a = GD_Apply e -> business log_id tx (write_grant e tx)
| BS_admin actor a e :
    admin_decide (tx_state tx) actor a = AD_Apply e -> business log_id tx (write_admin e tx)
| BS_change actor hash a e :
    decide_change (tx_state tx) actor hash a = MD_Apply e ->
    business log_id tx (write_intent log_id e tx)
| BS_cancel actor a e :
    decide_cancel (tx_state tx) actor a = MD_Apply e ->
    business log_id tx (write_intent log_id e tx)
| BS_progress c e :
    decide_progress (tx_state tx) c = Some e ->
    (forall id, mpc_observed_membership_log_id c = Some id -> li_index id <= li_index log_id) ->
    business log_id tx (write_intent log_id e tx)
| BS_expire c row :
    expire_decide (tx_state tx) c = ED_Apply row ->
    business log_id tx (put_resource (ec_resource c) row tx)
| BS_genesis signed g :
    let st := tx_state tx in
    verify_genesis (ga_public_key (st_authority st)) (ga_domain (st_authority st)) signed = Ok g ->
    st_admin_revision st = 0 ->
    business log_id tx (install_admins (vg_initial_admins g) tx).

(** The session row of a command, licensed by the state before it. *)
Inductive session_step (op_of_hash : Hash -> Z) (st : State) (tx : Tx) : Tx -> Prop :=
| SS_none : session_step op_of_hash st tx tx
| SS_client client reply row creates :
    classify_client st client = Unresolved row creates ->
    reply_legal (op_of_hash (cr_request_hash client)) reply ->
    session_step op_of_hash st tx (write_session client (Some reply) tx)
| SS_retire c e row :
    retire_decide st c = RT_Apply e -> effect_row st c e = Some row ->
    session_step op_of_hash st tx
      (store_session (rc_target_actor c, rc_target_client_id c) row tx).

(** A whole command but for the last applied position. *)
Definition command_steps (op_of_hash : Hash -> Z) (log_id : LogId) (tx tx' : Tx) : Prop :=
  exists tx1 tx2 row,
    tx' = write_audit_row log_id row tx2 /\
    business log_id tx tx1 /\ session_step op_of_hash (tx_state tx) tx1 tx2 /\
    audit_row_ok row /\ ar_leader_node_id row = li_leader_node_id log_id.

Lemma decide_cancel_not_existing st actor a phase : decide_cancel st actor a <> MD_Existing phase.
Proof. unfold decide_cancel. intros H. repeat case_match; discriminate. Qed.

Lemma grant_decide_NoOp st actor a n :
  resources_ok st -> grant_decide st actor a = GD_NoOp n -> n <= MAX_COUNTER.
Proof.
  unfold grant_decide. intros Hres H. repeat (case_match; try discriminate H); simplify_eq/=;
    (destruct (st_resources st !! _) eqn:Hk; simpl; [|lia]); by apply (rs_row _ Hres _ _ Hk).
Qed.

Lemma admin_decide_NoOp st actor a n : admin_decide st actor a = AD_NoOp n -> n = st_admin_revision st.
Proof. unfold admin_decide. intros H. repeat (case_match; try discriminate H); by simplify_eq/=. Qed.

Lemma no_op_grant_legal st resource n :
  resources_ok st -> n <= MAX_COUNTER ->
  reply_legal 7 (no_op_grant_reply st resource n).
Proof.
  intros Hres Hn. split; simpl; try done; [|by right|].
  - eexists. split; [reflexivity|]. apply (bool_decide_unpack _). vm_compute. exact I.
  - destruct resource as [key|]; simpl; [|done]. intros s.
    destruct (st_resources st !! key) as [row|] eqn:Hk; simpl; [|done]. intros [= <-].
    destruct (rs_row _ Hres _ _ Hk). split; [by apply snapshot_of_legal|done].
Qed.

Ltac outcome_listed :=
  eexists; split; [reflexivity|apply (bool_decide_unpack _); vm_compute; exact I].

Lemma resource_outcome_listed a :
  exists allowed, audit_results_for (operation_code (A_Resource a)) = Some allowed /\
    outcome_code (resource_outcome a) ∈ allowed.
Proof. destruct a; outcome_listed. Qed.

(** The outcome a membership decision reports is the one of its operation. *)
Lemma decide_change_outcome st actor hash a e :
  decide_change st actor hash a = MD_Apply e -> ie_outcome e = O_MembershipAccepted.
Proof. unfold decide_change. intros H. repeat (case_match; try discriminate H); by simplify_eq/=. Qed.
Lemma decide_cancel_outcome st actor a e :
  decide_cancel st actor a = MD_Apply e -> ie_outcome e = O_MembershipCancelled.
Proof. unfold decide_cancel. intros H. repeat (case_match; try discriminate H); by simplify_eq/=. Qed.

Section decided.
Context (log_id : LogId) (client : ClientRef) (tx : Tx).
Context (Hres : resources_ok (tx_state tx)) (Hadm : admins_ok (tx_state tx)).

Lemma refusal_legal action reason :
  reply_legal (operation_code action)
    (rejection (tx_state tx) (validated_resource action) (refusal_get reason)).
Proof.
  apply rejection_legal; try done; [apply client_operation_action|apply validated_resource_valid|].
  destruct reason as [r Hr]. by destruct r.
Qed.
Lemma shapeless_legal action :
  reply_legal (operation_code action) (rejection (tx_state tx) (validated_resource action) R_None).
Proof.
  apply rejection_legal; try done; [apply client_operation_action|apply validated_resource_valid].
Qed.

(** [apply_decided] makes one business write and answers with a legal reply. *)
Definition decided_ok (action : Action) : Prop :=
  business log_id tx (apply_decided log_id client action tx).2 /\
  reply_legal (operation_code action) (clr_reply (apply_decided log_id client action tx).1).

Lemma decided_resource a : decided_ok (A_Resource a).
Proof.
  unfold decided_ok, apply_decided. simpl action_decide.
  destruct (resource_decide _ _ a) as [e|r|l] eqn:Hd; simpl.
  - split; [by eapply BS_resource|]. pose proof (resource_decide_accepted _ _ _ _ Hd) as Ha.
    apply (success_legal (operation_code (A_Resource a))).
    + by destruct a.
    + rewrite (rac_outcome _ _ _ _ Ha). apply resource_outcome_listed.
    + eapply validate_valid, (rac_key _ _ _ _ Ha).
    + by apply (resource_decide_row _ _ _ _ Hd), row_default_ok.
  - split; [constructor|apply (refusal_legal (A_Resource a))].
  - split; [constructor|apply (shapeless_legal (A_Resource a))].
Qed.

Lemma decided_grant a : decided_ok (A_Grant a).
Proof.
  unfold decided_ok, apply_decided. simpl action_decide.
  destruct (grant_decide _ _ a) as [e|n|r|l] eqn:Hd; simpl.
  - split; [by eapply BS_grant|]. pose proof (grant_decide_accepted _ _ _ _ Hd) as Ha.
    apply (success_legal 7); [done|outcome_listed|eapply validate_valid, (gac_key _ _ _ _ Ha)|].
    rewrite (gac_row _ _ _ _ Ha). eapply grant_row_ok; [by apply row_default_ok|..];
      [apply (gac_fenced _ _ _ _ Ha)|apply (gac_counters _ _ _ _ Ha)].
  - split; [constructor|]. apply no_op_grant_legal; eauto using grant_decide_NoOp.
  - split; [constructor|apply (refusal_legal (A_Grant a))].
  - split; [constructor|apply (shapeless_legal (A_Grant a))].
Qed.

Lemma decided_admin a : decided_ok (A_Admin a).
Proof.
  unfold decided_ok, apply_decided. simpl action_decide.
  destruct (admin_decide _ _ a) as [e|n|r] eqn:Hd; simpl.
  - split; [by eapply BS_admin|]. apply admin_decide_accepted in Hd as Ha. destruct Ha.
    apply plain_legal; [done|outcome_listed|done|lia].
  - split; [constructor|]. apply admin_decide_NoOp in Hd as ->.
    apply plain_legal; [done|outcome_listed|done|apply Hadm].
  - split; [constructor|apply (refusal_legal (A_Admin a))].
Qed.

Lemma decided_change a : decided_ok (A_ChangeMembership a).
Proof.
  unfold decided_ok, apply_decided. simpl action_decide.
  destruct (decide_change _ _ _ a) as [e|n|r|l] eqn:Hd; simpl.
  - split; [by eapply BS_change|]. rewrite (decide_change_outcome _ _ _ _ _ Hd).
    by apply plain_legal; [|outcome_listed|..].
  - split; [constructor|]. by apply plain_legal; [|outcome_listed|..].
  - split; [constructor|apply (refusal_legal (A_ChangeMembership a))].
  - split; [constructor|apply (shapeless_legal (A_ChangeMembership a))].
Qed.

Lemma decided_cancel a : decided_ok (A_CancelMembership a).
Proof.
  unfold decided_ok, apply_decided. simpl action_decide.
  destruct (decide_cancel _ _ a) as [e|n|r|l] eqn:Hd; simpl.
  - split; [by eapply BS_cancel|]. rewrite (decide_cancel_outcome _ _ _ _ Hd).
    by apply plain_legal; [|outcome_listed|..].
  - by apply decide_cancel_not_existing in Hd.
  - split; [constructor|apply (refusal_legal (A_CancelMembership a))].
  - split; [constructor|apply (shapeless_legal (A_CancelMembership a))].
Qed.

Lemma apply_decided_steps action : decided_ok action.
Proof.
  destruct action; auto using decided_resource, decided_grant, decided_admin, decided_change,
    decided_cancel.
Qed.
End decided.

(** ** The whole dispatch *)

(** A system audit row. *)
Lemma system_audit_ok log_id operation resource code epoch :
  is_system_operation operation = true ->
  (exists allowed, audit_results_for operation = Some allowed /\ code ∈ allowed) ->
  keys_valid resource -> epoch <= MAX_COUNTER ->
  audit_row_ok (system_audit log_id operation resource code epoch).
Proof.
  intros Hs (al & Ha & Hin) Hk He. split; [|exact Hk].
  unfold audit_row_legal. simpl. rewrite Ha, Hs, bool_decide_eq_true_2 by done.
  apply N.leb_le in He. by rewrite He.
Qed.

(** A rejection recorded for a client operation that answers nothing else. *)
Lemma rejected_audit_ok leader actor operation resource :
  client_operation operation -> keys_valid resource ->
  audit_row_ok (mk_AuditRow leader actor operation resource (AR_Client O_Rejected) 0 0).
Proof.
  intros [Hc (al & Ha & Hin)] Hk. split; [|exact Hk].
  unfold audit_row_legal. simpl. by rewrite Ha, Hc, bool_decide_eq_true_2.
Qed.

Lemma not_reserved reason : may_be_not_consumed reason = true -> is_reserved reason = false.
Proof. by destruct reason. Qed.

Section dispatch.
Context (op_of_hash : Hash -> Z) (log_id : LogId) (tx : Tx).
Context (Hres : resources_ok (tx_state tx)) (Hadm : admins_ok (tx_state tx)).
Context (Hses : sessions_ok op_of_hash (tx_state tx)).

(** What the classifier answers without a decision is a legal reply for the
    operation the request hash commits to. *)
Lemma replay_legal client row saved :
  classify_client (tx_state tx) client = Replay row saved ->
  reply_legal (op_of_hash (cr_request_hash client)) saved.
Proof.
  intros (_ & _ & s & Hs & _ & -> & Hr)%classify_replay_iff.
  by apply (so_reply _ _ (ses_row _ _ Hses _ _ Hs)).
Qed.

Lemma refused_legal client operation resource row reason :
  classify_client (tx_state tx) client = Refuse row reason ->
  client_operation operation -> keys_valid resource ->
  reply_legal operation (rejection (tx_state tx) resource reason).
Proof. intros Hc%classify_refuse_reason%not_reserved ??. by apply rejection_legal. Qed.

Lemma apply_client_steps client action :
  op_of_hash (cr_request_hash client) = operation_code action ->
  command_steps op_of_hash log_id tx (apply_client log_id client action tx).2.
Proof.
  intros Hop. unfold apply_client, write_audit.
  destruct (classify_client _ _) as [row creates|row saved|row reason] eqn:Hc.
  - pose proof (apply_decided_steps log_id client tx Hres Hadm action) as [Hb Hl].
    destruct (apply_decided _ _ _ _) as [r tx1]. simpl in *.
    exists tx1, (write_session client (Some (clr_reply r)) tx1). eexists.
    split_and!; [reflexivity|done|by eapply SS_client; rewrite ?Hop| |done].
    apply reply_audit_ok; [done|..]; by eapply snapshot_counters.
  - pose proof (replay_legal _ _ _ Hc) as Hl. rewrite Hop in Hl.
    exists tx, tx. eexists. split_and!; [reflexivity|constructor|constructor| |done].
    apply reply_audit_ok; [done|..]; by eapply snapshot_counters.
  - pose proof (refused_legal _ _ _ _ _ Hc (client_operation_action action)
      (validated_resource_valid action)) as Hl.
    exists tx, tx. eexists. split_and!; [reflexivity|constructor|constructor| |done].
    apply reply_audit_ok; [done|..]; by eapply snapshot_counters.
Qed.

Lemma apply_rejected_client_steps client operation resource :
  command_ok op_of_hash log_id (C_RejectedClient client operation resource) ->
  command_steps op_of_hash log_id tx (apply_rejected_client log_id client operation resource tx).2.
Proof.
  intros (Hop & Hco & Hk). unfold apply_rejected_client.
  destruct (classify_client _ _) as [row creates|row saved|row reason] eqn:Hc; simpl.
  - pose proof (rejection_legal _ Hres Hadm operation resource R_None Hco Hk eq_refl) as Hl.
    exists tx. eexists _, _. split_and!; [reflexivity|constructor|by eapply SS_client; rewrite ?Hop| |done].
    by apply (reply_audit_ok operation (rejection (tx_state tx) resource R_None)).
  - pose proof (replay_legal _ _ _ Hc) as Hl. rewrite Hop in Hl.
    exists tx, tx. eexists. split_and!; [reflexivity|constructor|constructor| |done].
    by apply reply_audit_ok.
  - pose proof (refused_legal _ _ _ _ _ Hc Hco Hk) as Hl.
    exists tx, tx. eexists. split_and!; [reflexivity|constructor|constructor| |done].
    by apply (reply_audit_ok operation (rejection (tx_state tx) resource reason)).
Qed.

Lemma apply_shapeless_steps s :
  command_ok op_of_hash log_id (C_Shapeless s) ->
  command_steps op_of_hash log_id tx (apply_shapeless log_id s tx).2.
Proof.
  intros [Hk Ho]. unfold apply_shapeless. exists tx, tx. eexists.
  split_and!; [reflexivity|constructor|constructor| |done].
  destruct (shc_reply_shape s); try by apply rejected_audit_ok.
  destruct Ho. by apply system_audit_ok.
Qed.

Lemma apply_retire_steps c : command_steps op_of_hash log_id tx (apply_retire log_id c tx).2.
Proof.
  assert (client_operation OPERATION_RETIRE_CLIENT) as Hco by (split; [done|outcome_listed]).
  unfold apply_retire. destruct (retire_decide _ _) as [e|reason] eqn:Hd; simpl.
  - exists tx. eexists _, _. split_and!; [reflexivity|constructor| | |done].
    + destruct (effect_row _ _ _) eqn:He; [by eapply SS_retire|constructor].
    + split; [done|by intros ?].
  - exists tx, tx. eexists. split_and!; [reflexivity|constructor|constructor| |done].
    by apply rejected_audit_ok.
Qed.

Lemma apply_expire_steps c :
  valid_key (ec_resource c) -> command_steps op_of_hash log_id tx (apply_expire log_id c tx).2.
Proof.
  intros Hk. unfold apply_expire.
  destruct (expire_decide _ _) as [row|] eqn:Hd; simpl.
  - eexists _, _, _. split_and!; [reflexivity|by eapply BS_expire|constructor| |done].
    rewrite lookup_insert_eq. simpl. apply system_audit_ok; [done|outcome_listed|by intros ? [= <-]|].
    destruct (expire_row_ok _ _ _ Hd) as (old & Hold & _ & Hok).
    apply Hok. by apply (rs_row _ Hres _ _ Hold).
  - exists tx, tx. eexists. split_and!; [reflexivity|constructor|constructor| |done].
    apply system_audit_ok; [done|outcome_listed|by intros ? [= <-]|].
    destruct (st_resources _ !! _) eqn:Hr; simpl; [|done]. by apply (rs_row _ Hres _ _ Hr).
Qed.

Lemma apply_progress_steps c :
  command_ok op_of_hash log_id (C_MembershipProgress c) ->
  command_steps op_of_hash log_id tx (apply_membership_progress log_id c tx).2.
Proof.
  intros Ho. unfold apply_membership_progress. destruct (decide_progress _ _) eqn:Hd; simpl.
  - eexists _, _, _. split_and!; [reflexivity|by eapply BS_progress|constructor| |done].
    by apply system_audit_ok; [|outcome_listed|..].
  - exists tx, tx. eexists. split_and!; [reflexivity|constructor|constructor| |done].
    by apply system_audit_ok; [|outcome_listed|..].
Qed.

Lemma apply_genesis_steps signed reply :
  (apply_genesis log_id signed tx).1 = Ok reply ->
  command_steps op_of_hash log_id tx (apply_genesis log_id signed tx).2.
Proof.
  unfold apply_genesis. intros H. repeat (case_match; try discriminate H); simpl.
  - exists tx, tx. eexists. split_and!; [reflexivity|constructor|constructor| |done].
    by apply system_audit_ok; [|outcome_listed|..].
  - boolean_facts. eexists _, _, _. split_and!; [reflexivity|eapply BS_genesis; [done|lia]|constructor| |done].
    by apply system_audit_ok; [|outcome_listed|..].
Qed.

(** Every command that is applied is a business write, at most one session row
    and one legal audit row. *)
Lemma dispatch_steps c reply tx' :
  command_ok op_of_hash log_id c -> dispatch log_id c tx = (Ok reply, tx') ->
  command_steps op_of_hash log_id tx tx'.
Proof.
  intros Hok Hd. replace tx' with (dispatch log_id c tx).2 by (by rewrite Hd).
  destruct c as [|client action|client op res|s|e|p|r|signed]; unfold dispatch in *.
  - done.
  - pose proof (apply_client_steps client action Hok). by destruct (apply_client _ _ _ _).
  - pose proof (apply_rejected_client_steps client op res Hok). by destruct (apply_rejected_client _ _ _ _ _).
  - pose proof (apply_shapeless_steps s Hok). by destruct (apply_shapeless _ _ _).
  - pose proof (apply_expire_steps e Hok). by destruct (apply_expire _ _ _).
  - pose proof (apply_progress_steps p Hok). by destruct (apply_membership_progress _ _ _).
  - pose proof (apply_retire_steps r). by destruct (apply_retire _ _ _).
  - pose proof (apply_genesis_steps signed) as Hg.
    destruct (apply_genesis _ _ _) as [[]]; [|done]. by eapply Hg.
Qed.
End dispatch.
End steps.
