(* ===== verification/SessionTable.v ===== *)
(** * The session, resource, grant and administrator tables keep their invariants

    A session row is created only when the four caps have room, is never
    resurrected once retired, and always holds a reply its own operation may
    answer with. *)

From S2P Require Import Prelude Reason Ids Contract Externals Limits State Tables Classify.
From S2P Require Import Ticket Authority Shape Genesis Resource Grant Retire Membership.
From S2P Require Import Apply Changes Durable Accounting Invariant Steps.

#[local] Open Scope N_scope.

(** When a row may be stored at a key: over an existing row without bringing a
    retired client back, or as a new row inside the caps. *)
Definition session_admissible (st : State) (key : SessionKey) (row : Session) : Prop :=
  match st_sessions st !! key with
  | Some old => se_retired old = true -> se_retired row = true
  | None =>
      retained_exhausted (capacity_for st key.1) = false /\
      (se_retired row = false -> active_exhausted (capacity_for st key.1) = false)
  end.

Lemma store_session_ok op_of_hash st st' key row :
  sessions_ok op_of_hash st -> st_sessions st' = <[key:=row]> (st_sessions st) ->
  session_ok op_of_hash row -> session_admissible st key row -> sessions_ok op_of_hash st'.
Proof.
  intros [Hrow Hcap Hper Hact Hactp] Heq Hok Hadm.
  assert (forall actor,
    ca_retained_actor (capacity_for st' actor) <= MAX_RETAINED_SESSIONS_PER_ACTOR /\
    ca_active_group (capacity_for st' actor) <= MAX_ACTIVE_CLIENTS_PER_GROUP /\
    ca_active_actor (capacity_for st' actor) <= MAX_ACTIVE_CLIENTS_PER_ACTOR) as Hcounts.
  { intros actor. specialize (Hper actor); specialize (Hact actor); specialize (Hactp actor).
    simpl in *. rewrite Heq.
    pose proof (mcount_insert (λ k (_ : Session), bool_decide (k.1 = actor)) (st_sessions st) key row) as C1.
    pose proof (mcount_insert (λ (_ : SessionKey) v, negb (se_retired v)) (st_sessions st) key row) as C2.
    pose proof (mcount_insert (λ k v, bool_decide (k.1 = actor) && negb (se_retired v))
                  (st_sessions st) key row) as C3.
    unfold session_admissible, retained_exhausted, active_exhausted in Hadm.
    destruct (st_sessions st !! key) as [old|]; simpl in *.
    - destruct (se_retired old), (se_retired row), (bool_decide (key.1 = actor)); simpl in *;
        try (by discriminate Hadm); try (by specialize (Hadm eq_refl)); lia.
    - destruct Hadm as [Hr Ha]. boolean_facts.
      assert (se_retired row = false -> mcount (λ (_ : SessionKey) v, negb (se_retired v)) (st_sessions st)
        < MAX_ACTIVE_CLIENTS_PER_GROUP /\ mcount (λ k v, bool_decide (k.1 = key.1) && negb (se_retired v))
        (st_sessions st) < MAX_ACTIVE_CLIENTS_PER_ACTOR) as Ha'.
      { intros Hf. specialize (Ha Hf). by boolean_facts. }
      destruct (decide (key.1 = actor)) as [<-|Hne].
      + rewrite bool_decide_eq_true_2 in C1, C3 by done.
        destruct (se_retired row); simpl in *; [|destruct (Ha' eq_refl)]; lia.
      + rewrite bool_decide_eq_false_2 in C1, C3 by done.
        destruct (se_retired row); simpl in *; [|destruct (Ha' eq_refl)]; lia. }
  split; [|rewrite Heq|apply Hcounts..].
  - rewrite Heq. intros k s [[<- <-]|[? Hs]]%lookup_insert_Some; eauto.
  - destruct (st_sessions st !! key) as [old|] eqn:Hold.
    + by rewrite map_size_insert_Some by (by eexists).
    + rewrite map_size_insert_None by done. unfold session_admissible in Hadm. rewrite Hold in Hadm.
      destruct Hadm as [Hr _]. unfold retained_exhausted in Hr. simpl in Hr. boolean_facts. lia.
Qed.

(** What a client's own row is licensed by. *)
Lemma client_session_admissible st client reply row creates :
  classify_client st client = Unresolved row creates ->
  session_admissible st (client_key client)
    (mk_Session (cr_sequence client) (cr_request_hash client) reply
       (from_option se_retired false (st_sessions st !! client_key client))).
Proof.
  intros Hc%classify_unresolved_iff. unfold session_admissible.
  destruct (st_sessions st !! client_key client) as [old|] eqn:Hs; simpl; [done|].
  destruct Hc as [(_ & _ & x & [=] & _)|(_ & _ & _ & _ & Hr & Ha)]. by split.
Qed.

Lemma client_sequence_bound st client row creates :
  classify_client st client = Unresolved row creates -> cr_sequence client <= MAX_COUNTER.
Proof. intros [(_ & _ & x & _ & _ & _ & ?)|(_ & _ & _ & -> & _)]%classify_unresolved_iff; [done|by vm_compute]. Qed.

Section session_steps.
Context `{Ext : Externals}.

(** The sessions of a whole command: the business write leaves them alone. *)
Lemma business_sessions log_id tx tx1 :
  business log_id tx tx1 -> st_sessions (tx_state tx1) = st_sessions (tx_state tx).
Proof.
  destruct 1 as [|? ? e ?|? ? e ?|? ? e ?|? ? ? e ?|? ? e ?|? e ?| |? g]; try done.
  - unfold write_grant, remove_grant. repeat case_match; by simplify_eq/=.
  - unfold write_admin, put_admin, remove_admin. repeat case_match; by simplify_eq/=.
  - apply (mo_sessions _ _ (write_intent_frame log_id e tx)).
  - apply (mo_sessions _ _ (write_intent_frame log_id e tx)).
  - apply (mo_sessions _ _ (write_intent_frame log_id e tx)).
  - unfold install_admins. simpl. generalize (vg_initial_admins g). intros l. clear.
    revert tx. induction l as [|a l IH]; intros tx; simpl; [done|]. by rewrite IH.
Qed.

Lemma session_step_ok op_of_hash log_id tx tx1 tx2 :
  sessions_ok op_of_hash (tx_state tx) -> business log_id tx tx1 ->
  session_step op_of_hash (tx_state tx) tx1 tx2 -> sessions_ok op_of_hash (tx_state tx2).
Proof.
  intros Hok Hb%business_sessions Hs.
  destruct Hs as [|client reply row creates Hc Hl|c e row Hd He].
  - destruct Hok. split; unfold capacity_for in *; simpl in *; by rewrite Hb.
  - eapply (store_session_ok op_of_hash (tx_state tx)); [done|simpl; by rewrite Hb| |].
    + split; simpl; [by eapply client_sequence_bound|done|by intros ? [= <-]].
    + simpl. by eapply client_session_admissible.
  - pose proof (retire_effect_row _ _ _ _ Hd He) as [Hr Hrow].
    eapply (store_session_ok op_of_hash (tx_state tx)); [done|simpl; by rewrite Hb| |];
      unfold session_admissible; destruct (st_sessions (tx_state tx) !! _) as [old|] eqn:Ho.
    + destruct Hrow as (_ & Hq & Hh & Hres). destruct (ses_row _ _ Hok _ _ Ho).
      split; rewrite ?Hq, ?Hh, ?Hres; eauto.
    + destruct Hrow as [-> _]. by split.
    + done.
    + simpl. destruct Hrow as [_ ?]. split; [done|congruence].
Qed.
End session_steps.

(** ** Resources, grants and administrators keep their invariant

    Every business write keeps the resource rows well formed under valid keys,
    the grants known, non-empty and anchored to a resource, the administrator
    set between its bounds and free of the root, and nothing that grows before
    the genesis entry. *)

(** ** The tables after the compound writers *)

(** The fields no business write but [write_intent] touches. *)
Record untouched (s s' : State) : Prop := {
  un_intents : st_intents s' = st_intents s;
  un_routes : st_routes s' = st_routes s;
  un_authority : st_authority s' = st_authority s;
  un_profile : st_deployment_profile_code s' = st_deployment_profile_code s;
  un_membership : st_membership s' = st_membership s;
  un_audit : st_audit s' = st_audit s;
  un_audit_tip : st_audit_tip s' = st_audit_tip s;
  un_audit_floor : st_audit_floor s' = st_audit_floor s;
  un_reserve : st_reserve_bytes s' = st_reserve_bytes s;
  un_last_applied : st_last_applied s' = st_last_applied s;
}.

#[export] Instance untouched_preorder : PreOrder untouched.
Proof. split; [by split|]. intros ??? [] []. split; congruence. Qed.

Section compound.
Context `{Ext : Externals}.

Lemma write_grant_tables e tx :
  st_resources (tx_state (write_grant e tx)) = <[gre_key e := gre_row e]> (st_resources (tx_state tx)) /\
  st_acl (tx_state (write_grant e tx)) =
    match gre_rights e with
    | Some r => <[(gre_key e, gre_subject e) := r]> (st_acl (tx_state tx))
    | None => delete (gre_key e, gre_subject e) (st_acl (tx_state tx))
    end /\
  st_admins (tx_state (write_grant e tx)) = st_admins (tx_state tx) /\
  st_admin_revision (tx_state (write_grant e tx)) = st_admin_revision (tx_state tx) /\
  untouched (tx_state tx) (tx_state (write_grant e tx)).
Proof.
  unfold write_grant, remove_grant, put_grant.
  destruct (gre_rights e); [destruct (gre_creates_acl_row e); done|]. by case_bool_decide.
Qed.

Lemma write_admin_tables e tx :
  st_resources (tx_state (write_admin e tx)) = st_resources (tx_state tx) /\
  st_acl (tx_state (write_admin e tx)) = st_acl (tx_state tx) /\
  st_admins (tx_state (write_admin e tx)) =
    (if ade_enabled e then {[ade_target e]} ∪ st_admins (tx_state tx)
     else st_admins (tx_state tx) ∖ {[ade_target e]}) /\
  st_admin_revision (tx_state (write_admin e tx)) = ade_admin_revision e /\
  untouched (tx_state tx) (tx_state (write_admin e tx)).
Proof. unfold write_admin, put_admin, remove_admin. destruct (ade_enabled e); by case_bool_decide. Qed.

Lemma put_admins_tables l tx :
  let s := tx_state (foldl (λ tx admin, snd (put_admin admin tx)) tx l) in
  st_resources s = st_resources (tx_state tx) /\ st_acl s = st_acl (tx_state tx) /\
  st_admins s = list_to_set l ∪ st_admins (tx_state tx) /\ untouched (tx_state tx) s.
Proof.
  revert tx. induction l as [|a l IH]; intros tx; cbn [foldl].
  - split_and!; [done|done|set_solver|reflexivity].
  - destruct (IH (put_admin a tx).2) as (-> & -> & -> & H). split_and!; [done|done| |by etrans; [|exact H]].
    simpl. set_solver.
Qed.

Lemma install_admins_tables l tx :
  let s := tx_state (install_admins l tx) in
  st_resources s = st_resources (tx_state tx) /\ st_acl s = st_acl (tx_state tx) /\
  st_admins s = list_to_set l ∪ st_admins (tx_state tx) /\ st_admin_revision s = 1 /\
  untouched (tx_state tx) s.
Proof.
  destruct (put_admins_tables l tx) as (H1 & H2 & H3 & []).
  split_and!; [exact H1|exact H2|exact H3|done|by split].
Qed.

(** ** Resources *)

Lemma resources_insert_ok st st' k row :
  resources_ok st -> st_resources st' = <[k:=row]> (st_resources st) -> valid_key k -> row_ok row ->
  (st_resources st !! k = None -> N.of_nat (size (st_resources st)) < MAX_RESOURCES_PER_GROUP) ->
  resources_ok st'.
Proof.
  intros [Hrow Hcap] Heq Hk Hr Hslot. split; rewrite Heq.
  - intros k' r' [[<- <-]|[? H']]%lookup_insert_Some; eauto.
  - destruct (st_resources st !! k) as [old|] eqn:Hold.
    + by rewrite map_size_insert_Some by (by eexists).
    + rewrite map_size_insert_None by done. specialize (Hslot eq_refl). lia.
Qed.

Lemma resources_same_ok st st' : resources_ok st -> st_resources st' = st_resources st -> resources_ok st'.
Proof. intros [] Heq. by split; rewrite Heq. Qed.

Lemma business_resources log_id tx tx' :
  resources_ok (tx_state tx) -> acl_ok (tx_state tx) -> business log_id tx tx' ->
  resources_ok (tx_state tx').
Proof.
  intros Hok Hacl Hb.
  destruct Hb as [|? ? e Hd|? ? e Hd|? ? e Hd|? ? ? e Hd|? ? e Hd|? e Hd|c row Hd|? g]; [done|..].
  - pose proof (resource_decide_accepted _ _ _ _ Hd) as Ha.
    eapply resources_insert_ok; [done|reflexivity|..].
    + eapply validate_valid, Ha.
    + by apply (resource_decide_row _ _ _ _ Hd), row_default_ok.
    + apply Ha.
  - pose proof (grant_decide_accepted _ _ _ _ Hd) as Ha.
    eapply resources_insert_ok; [done|apply write_grant_tables|..].
    + eapply validate_valid, Ha.
    + rewrite (gac_row _ _ _ _ Ha). eapply grant_row_ok; [by apply row_default_ok|..]; apply Ha.
    + intros Hn. apply (gac_slot _ _ _ _ Ha); [|done]. intros Hr.
      destruct (gac_removes _ _ _ _ Ha Hr) as [x Hx]. apply (ac_row _ Hacl) in Hx as (_ & _ & [? Hx]).
      simpl in Hx. congruence.
  - eapply resources_same_ok; [done|apply write_admin_tables].
  - eapply resources_same_ok; [done|apply (mo_resources _ _ (write_intent_frame log_id e tx))].
  - eapply resources_same_ok; [done|apply (mo_resources _ _ (write_intent_frame log_id e tx))].
  - eapply resources_same_ok; [done|apply (mo_resources _ _ (write_intent_frame log_id e tx))].
  - destruct (expire_row_ok _ _ _ Hd) as (old & Hold & _ & Hrow).
    destruct (rs_row _ Hok _ _ Hold). eapply resources_insert_ok; [done|reflexivity|done|by apply Hrow|].
    congruence.
  - eapply resources_same_ok; [done|apply install_admins_tables].
Qed.

(** ** Grants *)

Lemma acl_mono_ok st st' :
  acl_ok st -> st_acl st' = st_acl st ->
  (forall k, is_Some (st_resources st !! k) -> is_Some (st_resources st' !! k)) -> acl_ok st'.
Proof.
  intros [Hrow Hcap Hper] Heq Hres. split; unfold grants_on in *; rewrite Heq; [|done..].
  intros k r Hk. destruct (Hrow _ _ Hk) as (?&?&?). eauto.
Qed.

Lemma grant_acl_ok actor a e st st' :
  acl_ok st -> grant_accepted st actor a e ->
  st_resources st' = <[gre_key e := gre_row e]> (st_resources st) ->
  st_acl st' = match gre_rights e with
               | Some r => <[(gre_key e, gre_subject e) := r]> (st_acl st)
               | None => delete (gre_key e, gre_subject e) (st_acl st)
               end ->
  acl_ok st'.
Proof.
  intros [Hrow Hcap Hper] Ha Hres Hacl. pose proof (gac_rights _ _ _ _ Ha) as Hr.
  pose proof (gac_creates_acl _ _ _ _ Ha) as Hc.
  split; unfold grants_on in *; rewrite Hacl.
  - intros k r Hk. rewrite Hres. assert (is_Some (st_resources st !! k.1) \/ k.1 = gre_key e) as Hs.
    { destruct (gre_rights e); [apply lookup_insert_Some in Hk as [[<- _]|[_ Hk]]; [by right|]|
        apply lookup_delete_Some in Hk as [_ Hk]]; left; by apply (Hrow _ _ Hk). }
    split_and!; [..|destruct Hs as [?| ->]; [by apply insert_is_Some|by rewrite lookup_insert_eq; eexists]].
    all: destruct (gra_rights a =? 0) eqn:Hz; rewrite Hr in Hk;
      [apply lookup_delete_Some in Hk as [_ Hk]; by apply (Hrow _ _ Hk)|].
    all: apply lookup_insert_Some in Hk as [[_ <-]|[_ Hk]]; [|by apply (Hrow _ _ Hk)].
    + by boolean_facts.
    + apply Ha.
  - destruct (gre_rights e) as [r|]; 
      [|pose proof (size_delete_le (st_acl st) (gre_key e, gre_subject e)); lia].
    rewrite map_size_insert. destruct (st_acl st !! (gre_key e, gre_subject e)) eqn:Ho; simpl; [done|].
    rewrite !bool_decide_eq_true_2 in Hc by eauto. destruct (gac_acl_slot _ _ _ _ Ha Hc). lia.
  - intros key. specialize (Hper key). destruct (gre_rights e) as [r|].
    + pose proof (mcount_insert (λ k (_ : N), bool_decide (k.1 = key)) (st_acl st) (gre_key e, gre_subject e) r) as C.
      destruct (st_acl st !! (gre_key e, gre_subject e)) eqn:Ho; simpl in C; [case_bool_decide; lia|].
      rewrite !bool_decide_eq_true_2 in Hc by eauto.
      destruct (gac_acl_slot _ _ _ _ Ha Hc) as [_ Hl]. unfold grants_on in Hl.
      case_bool_decide as Hkey; [subst key|]; lia.
    + etrans; [|exact Hper]. rewrite <- (mcount_delete _ (st_acl st) (gre_key e, gre_subject e)). lia.
Qed.

Lemma business_acl log_id tx tx' :
  acl_ok (tx_state tx) -> business log_id tx tx' -> acl_ok (tx_state tx').
Proof.
  intros Hacl Hb.
  destruct Hb as [|? ? e Hd|? ? e Hd|? ? e Hd|? ? ? e Hd|? ? e Hd|? e Hd|c row Hd|? g]; [done|..].
  - eapply acl_mono_ok; [done|done|]. intros k. apply insert_is_Some.
  - destruct (write_grant_tables e tx) as (H1 & H2 & _).
    eapply grant_acl_ok; [done|by apply grant_decide_accepted|done|done].
  - destruct (write_admin_tables e tx) as (H1 & H2 & _). eapply acl_mono_ok; [done|done|by rewrite H1].
  - destruct (write_intent_frame log_id e tx). eapply acl_mono_ok; [done|done|congruence].
  - destruct (write_intent_frame log_id e tx). eapply acl_mono_ok; [done|done|congruence].
  - destruct (write_intent_frame log_id e tx). eapply acl_mono_ok; [done|done|congruence].
  - eapply acl_mono_ok; [done|done|]. intros k. apply insert_is_Some.
  - destruct (install_admins_tables (vg_initial_admins g) tx) as (H1 & H2 & _).
    eapply acl_mono_ok; [done|done|by rewrite H1].
Qed.

(** ** Administrators *)

Lemma admins_same_ok st st' :
  admins_ok st -> st_admins st' = st_admins st -> st_admin_revision st' = st_admin_revision st ->
  st_authority st' = st_authority st -> admins_ok st'.
Proof. intros [] H1 H2 H3. split; by rewrite ?H1, ?H2, ?H3. Qed.

(** An accepted [set_admin] keeps the set between one and the cap. *)
Lemma admin_effect_ok actor a e st st' :
  admins_ok st -> admin_accepted st actor a e ->
  st_admins st' = (if ade_enabled e then {[ade_target e]} ∪ st_admins st
                   else st_admins st ∖ {[ade_target e]}) ->
  st_admin_revision st' = ade_admin_revision e -> st_authority st' = st_authority st ->
  admins_ok st'.
Proof.
  intros [Hcap Hrev Hf Hroot] [] Hset Hrev' Hauth.
  split; rewrite ?Hset, ?Hrev', ?Hauth, ?adc_next; [|lia|split; [lia|]|].
  - destruct (ade_enabled e).
    + assert (ade_target e ∉ st_admins st) by (intros ?%adc_changes; done).
      rewrite size_union, size_singleton by set_solver. specialize (adc_cap eq_refl). lia.
    + pose proof (subseteq_size (st_admins st ∖ {[ade_target e]}) (st_admins st) ltac:(set_solver)). lia.
  - intros He. exfalso. destruct (ade_enabled e); [clear - He; set_solver|].
    assert (size (st_admins st) <= 1)%nat; [|specialize (adc_last eq_refl); lia].
    rewrite <- (size_singleton (C := gset NodeId) (ade_target e)).
    by apply subseteq_size, empty_difference_subseteq_L.
  - clear - Hroot adc_not_root. destruct (ade_enabled e); set_solver.
Qed.

Lemma list_to_set_size_le (l : list NodeId) : (size (list_to_set l : gset NodeId) <= length l)%nat.
Proof.
  induction l as [|x l IH]; simpl; [done|].
  pose proof (size_union_alt ({[x]} : gset NodeId) (list_to_set l)) as H. rewrite size_singleton in H.
  pose proof (subseteq_size (list_to_set l ∖ {[x]} : gset NodeId) (list_to_set l) ltac:(set_solver)). lia.
Qed.

Lemma genesis_admins_ok key domain g st st' :
  genesis_sealed key domain g -> st_admins st = ∅ -> key = ga_public_key (st_authority st) ->
  st_admins st' = list_to_set (vg_initial_admins g) ∪ st_admins st ->
  st_admin_revision st' = 1 -> st_authority st' = st_authority st -> admins_ok st'.
Proof.
  intros [] He -> Hset Hrev Hauth. rewrite He, (right_id_L ∅ (∪)) in Hset.
  destruct gs_admins as [Hne Hle]. split; rewrite ?Hset, ?Hrev, ?Hauth.
  - etrans; [|exact Hle]. pose proof (list_to_set_size_le (vg_initial_admins g)). unfold len. lia.
  - by vm_compute.
  - split; [done|]. intros H. destruct (vg_initial_admins g) as [|x l]; [done|set_solver].
  - by rewrite elem_of_list_to_set.
Qed.

Lemma business_admins log_id tx tx' :
  admins_ok (tx_state tx) -> business log_id tx tx' -> admins_ok (tx_state tx').
Proof.
  intros Hok Hb.
  destruct Hb as [|? ? e Hd|? ? e Hd|? ? e Hd|? ? ? e Hd|? ? e Hd|? e Hd|c row Hd|? g st Hv H0]; [done|..].
  - by eapply admins_same_ok.
  - destruct (write_grant_tables e tx) as (_ & _ & ? & ? & ?). by eapply admins_same_ok, un_authority.
  - destruct (write_admin_tables e tx) as (_ & _ & ? & ? & ?).
    by eapply admin_effect_ok, un_authority; [|apply admin_decide_accepted|..].
  - destruct (write_intent_frame log_id e tx). by eapply admins_same_ok.
  - destruct (write_intent_frame log_id e tx). by eapply admins_same_ok.
  - destruct (write_intent_frame log_id e tx). by eapply admins_same_ok.
  - by eapply admins_same_ok.
  - destruct (install_admins_tables (vg_initial_admins g) tx) as (_ & _ & ? & ? & ?).
    eapply genesis_admins_ok; [|by apply Hok|done|done|done|by apply un_authority].
    unfold verify_genesis in Hv. repeat (case_match; try discriminate Hv).
    by apply seal_genesis_Ok in Hv as [? _].
Qed.

(** ** Nothing grows before the genesis entry *)

Lemma is_administrator_founded st actor : is_administrator st actor = true -> 0 < st_admin_revision st.
Proof. by intros [? _]%is_administrator_spec. Qed.

Lemma resource_decide_founded st actor a e :
  unfounded_empty st -> resource_decide st actor a = RD_Apply e -> 0 < st_admin_revision st.
Proof.
  intros Hu Hd%resource_decide_accepted. destruct (N.eq_dec (st_admin_revision st) 0) as [H0|]; [|lia].
  destruct (Hu H0) as (_ & Hacl & _). pose proof (rac_rights _ _ _ _ Hd) as Hr.
  unfold granted_rights in Hr. rewrite Hacl, lookup_empty in Hr. by destruct a.
Qed.

Lemma business_founded log_id tx tx' :
  unfounded_empty (tx_state tx) -> business log_id tx tx' ->
  tx' = tx \/ 0 < st_admin_revision (tx_state tx').
Proof.
  intros Hu Hb.
  destruct Hb as [|? ? e Hd|? ? e Hd|? ? e Hd|? ? ? e Hd|? ? e Hd|c e Hd|c row Hd|? g]; [by left|right..].
  - simpl. by eapply resource_decide_founded.
  - destruct (write_grant_tables e tx) as (_ & _ & _ & -> & _).
    eapply is_administrator_founded, (gac_admin _ _ _ _ (grant_decide_accepted _ _ _ _ Hd)).
  - destruct (write_admin_tables e tx) as (_ & _ & _ & -> & _).
    rewrite (adc_next _ _ _ _ (admin_decide_accepted _ _ _ _ Hd)). lia.
  - rewrite (mo_admin_revision _ _ (write_intent_frame log_id e tx)).
    unfold decide_change in Hd. destruct (is_administrator _ _) eqn:Ha; [|done].
    by eapply is_administrator_founded.
  - rewrite (mo_admin_revision _ _ (write_intent_frame log_id e tx)).
    unfold decide_cancel in Hd. destruct (is_administrator _ _) eqn:Ha; [|done].
    by eapply is_administrator_founded.
  - rewrite (mo_admin_revision _ _ (write_intent_frame log_id e tx)).
    destruct (N.eq_dec (st_admin_revision (tx_state tx)) 0) as [H0|]; [|lia].
    destruct (Hu H0) as (_ & _ & Hi & _). unfold decide_progress in Hd. by rewrite Hi, lookup_empty in Hd.
  - simpl. destruct (N.eq_dec (st_admin_revision (tx_state tx)) 0) as [H0|]; [|lia].
    destruct (Hu H0) as (Hi & _). unfold expire_decide in Hd. by rewrite Hi, lookup_empty in Hd.
  - destruct (install_admins_tables (vg_initial_admins g) tx) as (_ & _ & _ & -> & _). done.
Qed.

Lemma business_unfounded log_id tx tx' :
  unfounded_empty (tx_state tx) -> business log_id tx tx' -> unfounded_empty (tx_state tx').
Proof. intros Hu Hb. destruct (business_founded _ _ _ Hu Hb) as [->|Hp]; [done|]. intros H0. lia. Qed.
End compound.
