(* ===== verification/MembershipTable.v ===== *)
(** * Intents and routes keep their invariant

    An accepted change adds one active intent when there is none, a cancel or a
    progress report rewrites the active one and evicts old terminal ones when
    it finishes, and a change introduces its seeds' routes after displacing
    enough stale ones. The counts, the retained plans, the stamps and the
    growth move of each are what the validator and the budget ask. *)

From S2P Require Import Prelude Reason Ids Contract Externals Limits State Tables Classify.
From S2P Require Import Ticket Authority Shape Genesis Resource Grant Retire.
From S2P Require Import Membership Apply Changes Durable Accounting Invariant Steps SessionTable.

#[local] Open Scope N_scope.
#[local] Arguments stamp_within : simpl never.

(** ** Counting rows *)

Lemma mcount_filter {K V} `{Countable K} (p : K -> V -> bool) (m : gmap K V) :
  mcount p m = len (filter (λ kv, p kv.1 kv.2 = true) (map_to_list m)).
Proof.
  induction m as [|k v m Hk IH] using map_ind; [by rewrite map_to_list_empty|].
  pose proof (mcount_insert p m k v) as H1. rewrite Hk in H1. simpl in H1. rewrite N.add_0_r in H1.
  rewrite H1, IH. unfold len. rewrite (map_to_list_insert m k v Hk). rewrite filter_cons. simpl.
  destruct (decide (p k v = true)) as [->|Hf]; simpl; [lia|]. apply not_true_is_false in Hf. rewrite Hf. lia.
Qed.

(** Deleting distinct rows that are all counted lowers the count by their
    number. *)
Lemma mcount_delete_list {K V} `{Countable K} (p : K -> V -> bool) (l : list K) (m : gmap K V) :
  NoDup l -> (forall k, k ∈ l -> exists v, m !! k = Some v /\ p k v = true) ->
  mcount p (foldl (λ m k, delete k m) m l) + len l = mcount p m.
Proof.
  intros Hnd. revert m. induction Hnd as [|k l Hk Hnd IH]; intros m Hin; simpl; [unfold len; simpl; lia|].
  destruct (Hin k) as (v & Hv & Hp); [left|].
  pose proof (mcount_delete p m k) as Hd. rewrite Hv in Hd. simpl in Hd. rewrite Hp in Hd.
  rewrite <- Hd, <- (IH (delete k m)); [unfold len; simpl; lia|].
  intros k' Hk'. destruct (Hin k') as (v' & ? & ?); [by right|]. exists v'.
  rewrite lookup_delete_ne; [done|]. by intros ->.
Qed.

(** Deleting rows that are not counted leaves the count. *)
Lemma mcount_delete_list_other {K V} `{Countable K} (p : K -> V -> bool) (l : list K) (m : gmap K V) :
  (forall k v, k ∈ l -> m !! k = Some v -> p k v = false) ->
  mcount p (foldl (λ m k, delete k m) m l) = mcount p m.
Proof.
  revert m. induction l as [|k l IH]; intros m Hf; simpl; [done|].
  rewrite IH.
  - pose proof (mcount_delete p m k) as Hd. destruct (m !! k) as [v|] eqn:Hk; simpl in Hd; [|lia].
    rewrite (Hf k v) in Hd by (try left; done). lia.
  - intros k' v' Hk' [_ Hv]%lookup_delete_Some. apply (Hf k' v'); [by right|done].
Qed.

Lemma mcount_zero {K V} `{Countable K} (p : K -> V -> bool) (m : gmap K V) :
  (forall k v, m !! k = Some v -> p k v = false) -> mcount p m = 0.
Proof.
  intros Hp. pose proof (msum_le_size (λ k v, if p k v then 1 else 0) m 0) as H0.
  unfold mcount. rewrite N.mul_0_r in H0. apply N.le_0_r, H0. intros k v Hk. by rewrite (Hp k v Hk).
Qed.

(** ** The terminal intents [evictions] drops *)

(** The oldest [n] of a stamped list: distinct members of it, as many as there
    are. *)
Lemma oldest_spec n (l : list ((N * N) * bytes)) :
  NoDup (map snd l) ->
  let v := map snd (take (N.to_nat n) (merge_sort stamped_le l)) in
  NoDup v /\ (forall x, x ∈ v -> x ∈ map snd l) /\ len v = N.min n (len l).
Proof.
  intros Hnd v. pose proof (merge_sort_Permutation stamped_le l) as Hp.
  assert (map snd (merge_sort stamped_le l) ≡ₚ map snd l) as Hpm by (by apply Permutation_map).
  split_and!.
  - rewrite <- Hpm in Hnd. rewrite <- (take_drop (N.to_nat n) (merge_sort stamped_le l)), map_app in Hnd.
    by apply list.NoDup_app in Hnd as [? _].
  - intros x Hx. rewrite <- Hpm. unfold v in Hx.
    rewrite <- (take_drop (N.to_nat n) (merge_sort stamped_le l)), map_app. set_solver.
  - unfold v, len. rewrite length_map, length_take, Hp. lia.
Qed.

Lemma terminal_intents_count st :
  len (terminal_intents st)
  = mcount (λ _ i, is_terminal_phase (in_status_code i)) (st_intents st).
Proof. rewrite mcount_filter. unfold terminal_intents, len. by rewrite length_map. Qed.

Lemma snd_terminal_NoDup st : NoDup (map snd (terminal_intents st)).
Proof.
  unfold terminal_intents. rewrite map_map. simpl.
  apply (NoDup_fmap_fst (filter _ (map_to_list (st_intents st)))).
  - intros k v1 v2 [_ H1]%list_elem_of_filter [_ H2]%list_elem_of_filter.
    apply elem_of_map_to_list in H1, H2. congruence.
  - apply list.NoDup_filter, NoDup_map_to_list.
Qed.

Lemma terminal_intents_elem st id :
  id ∈ map snd (terminal_intents st) ->
  exists i, st_intents st !! id = Some i /\ is_terminal_phase (in_status_code i) = true.
Proof.
  unfold terminal_intents. rewrite map_map. simpl.
  intros ([k i] & <- & [Ht Hin]%list_elem_of_In%list_elem_of_filter)%list_elem_of_In%in_map_iff.
  apply elem_of_map_to_list in Hin. eauto.
Qed.

(** Eviction makes room for exactly the incoming terminal intent. *)
Lemma evictions_spec st :
  let term := λ (_ : OperationId) i, is_terminal_phase (in_status_code i) in
  mcount term (st_intents st) <= MAX_RETAINED_INTENTS ->
  NoDup (evictions st 1) /\
  (forall id, id ∈ evictions st 1 ->
     exists i, st_intents st !! id = Some i /\ is_terminal_phase (in_status_code i) = true) /\
  mcount term (foldl (λ m id, delete id m) (st_intents st) (evictions st 1)) + 1 <= MAX_RETAINED_INTENTS.
Proof.
  intros term Hle. unfold evictions.
  assert (len (merge_sort stamped_le (terminal_intents st)) = mcount term (st_intents st)) as Hlen.
  { unfold len. rewrite (merge_sort_Permutation stamped_le). apply terminal_intents_count. }
  rewrite Hlen. set (over := u64_saturating_sub _ _).
  destruct (oldest_spec over (terminal_intents st) (snd_terminal_NoDup st)) as (Hnd & Hin & Hl).
  set (v := map snd _) in *. split_and!; [done|intros id Hid; by apply terminal_intents_elem, Hin|].
  pose proof (mcount_delete_list term v (st_intents st) Hnd) as Hc.
  rewrite Hl, terminal_intents_count in Hc. fold term in Hc.
  specialize (Hc (λ k Hk, terminal_intents_elem st k (Hin k Hk))).
  unfold over, u64_saturating_sub, MAX_RETAINED_INTENTS in *. lia.
Qed.

(** ** What an accepted membership decision is *)

Section effects.
Context `{Ext : Externals}.

(** A cancel or a progress report: the active intent [old] with a new status. *)
Record rewrites_intent (log_id : LogId) (st : State) (e : IntentEffect) (old : Intent) : Prop := {
  ri_old : st_intents st !! ie_operation_id e = Some old;
  ri_active : is_terminal_phase (in_status_code old) = false;
  ri_plan : in_plan (ie_intent e) = in_plan old;
  ri_expected : in_expected_membership (ie_intent e) = in_expected_membership old;
  ri_accepted : in_accepted_log_id (ie_intent e) = in_accepted_log_id old;
  ri_completed : in_completed_log_id (ie_intent e) = in_completed_log_id old;
  ri_observed id : in_observed_membership_log_id (ie_intent e) = Some id ->
    in_observed_membership_log_id old = Some id \/ li_index id <= li_index log_id;
  ri_evict : ie_evict e =
    if is_terminal_phase (in_status_code (ie_intent e)) then evictions st 1 else [];
  ri_routes : ie_routes e = [] /\ ie_evict_routes e = [];
  ri_actor : in_actor (ie_intent e) = in_actor old;
  ri_hash : in_request_hash (ie_intent e) = in_request_hash old;
}.

Lemma decide_cancel_rewrites log_id st actor a e :
  decide_cancel st actor a = MD_Apply e -> exists old, rewrites_intent log_id st e old.
Proof.
  unfold decide_cancel. destruct (is_administrator st actor); [|done]. simpl.
  destruct (st_intents st !! caa_operation_id a) as [old|] eqn:Hold; [|done].
  destruct (in_status_code old =? caa_expected_phase_code a)%Z; [|done]. simpl.
  destruct (in_status_code old =? PHASE_PENDING)%Z eqn:Hp.
  - intros [= <-]. exists old. boolean_facts. split; simpl; eauto. by rewrite Hp.
  - destruct (in_status_code old =? PHASE_ADDING_LEARNERS)%Z eqn:Ha; [|done].
    intros [= <-]. exists old. boolean_facts. split; simpl; eauto. by rewrite Ha.
Qed.

Lemma decide_progress_rewrites log_id st c e :
  decide_progress st c = Some e ->
  (forall id, mpc_observed_membership_log_id c = Some id -> li_index id <= li_index log_id) ->
  exists old, rewrites_intent log_id st e old.
Proof.
  unfold decide_progress. intros H Hobs. apply bind_Some in H as (old & Hold & H).
  destruct (negb (_ =? _)%Z); [done|].
  destruct (is_legal_transition (in_status_code old) _) eqn:Hl; [|done]. simpl in H.
  destruct (_ && _); [done|]. injection H as <-. exists old. split; simpl; eauto.
  unfold is_legal_transition in Hl. by destruct (is_terminal_phase (in_status_code old)).
Qed.

(** An accepted change. *)
Record change_accepted (st : State) (actor : NodeId) (hash : Hash) (a : ChangeMembershipAction)
    (e : IntentEffect) : Prop := {
  chc_admin : is_administrator st actor = true;
  chc_id : ie_operation_id e = cha_operation_id a;
  chc_new : st_intents st !! ie_operation_id e = None;
  chc_expected : cha_expected_membership_log_id a = st_membership_log_id st;
  chc_plan : plan_accepted (cha_plan a) (st_membership st) (st_authority st)
    (st_deployment_profile_code st);
  chc_idle id i : st_intents st !! id = Some i -> is_terminal_phase (in_status_code i) = true;
  chc_learners : projected_learners (cm_learners (st_membership st)) (cm_members (st_membership st))
    (mp_desired_voters (cha_plan a)) (mp_retained_learners (cha_plan a)) <= MAX_LEARNER_ENVELOPE;
  chc_intent : ie_intent e =
    mk_Intent actor hash (cha_expected_membership_log_id a) (cha_plan a) PHASE_PENDING 0%Z unstamped
      None None;
  chc_evict : ie_evict e = [];
  chc_routes : ie_routes e = routes_from a;
  chc_evict_routes : ie_evict_routes e = route_evictions st (routes_from a);
  chc_growth : u64_saturating_add (st_growth_bytes st) (growth_delta st e) <= GROWTH_BUDGET;
}.

Lemma decide_change_accepted st actor hash a e :
  decide_change st actor hash a = MD_Apply e -> change_accepted st actor hash a e.
Proof.
  unfold decide_change. intros H. destruct (is_administrator st actor) eqn:Hadm; [|done]. simpl in H.
  destruct (st_intents st !! cha_operation_id a) eqn:Hid; [by case_match|].
  destruct (bool_decide (cha_expected_membership_log_id a = _)) eqn:Hexp; [|done]. simpl in H.
  destruct (plan_shape _ _ _ _) eqn:Hplan; [done|].
  destruct (existsb _ _) eqn:Hact; [done|].
  destruct (MAX_LEARNER_ENVELOPE <? _) eqn:Hl; [done|].
  destruct (negb (state_growth_fits _ _)) eqn:Hg; [done|]. injection H as <-.
  boolean_facts. split; simpl; try done.
  - by apply plan_shape_None.
  - intros id i Hi. apply elem_of_map_to_list in Hi.
    pose proof (existsb_false_forall _ _ Hact _ Hi) as Ht. simpl in Ht. by apply negb_false_iff in Ht.
  - unfold state_growth_fits in Hg. by boolean_facts.
Qed.

(** ** The intents *)

Lemma stamp_within_advance bound log_id id :
  log_advances bound log_id -> stamp_within bound id = true -> stamp_within (Some log_id) id = true.
Proof.
  unfold stamp_within. intros Hadv H. destruct bound as [last|]; [|done].
  destruct (Hadv _ eq_refl). rewrite negb_true_iff, N.ltb_ge in *. lia.
Qed.

Lemma stamp_within_here log_id id : li_index id <= li_index log_id -> stamp_within (Some log_id) id = true.
Proof. unfold stamp_within. by rewrite negb_true_iff, N.ltb_ge. Qed.

Lemma intent_stamps_advance bound log_id i :
  log_advances bound log_id -> intent_stamps_ok bound i -> intent_stamps_ok (Some log_id) i.
Proof.
  intros Hadv [Hl Ho]. split; [|done]. unfold intent_stamps_legal in *. boolean_facts.
  rewrite (stamp_within_advance _ _ _ Hadv) by done. simpl.
  rewrite andb_true_iff. split.
  - destruct (in_completed_log_id i) as [c|]; simpl in *; [|done]. boolean_facts.
    rewrite (stamp_within_advance _ _ _ Hadv) by done. simpl. by rewrite negb_true_iff, N.ltb_ge.
  - destruct (in_observed_membership_log_id i) as [o|]; simpl in *; [|done].
    by rewrite (stamp_within_advance _ _ _ Hadv).
Qed.

(** The stamps of a rewritten intent. *)
Lemma rewritten_stamps bound log_id st e old :
  log_advances bound log_id -> rewrites_intent log_id st e old -> intent_stamps_ok bound old ->
  intent_stamps_ok (Some log_id) (stamp_intent log_id (ie_intent e)).
Proof.
  intros Hadv [] Hst. pose proof (iso_open _ _ Hst ri_active0) as Hnone.
  apply (intent_stamps_advance _ log_id) in Hst as [Hl _]; [|done].
  unfold intent_stamps_legal in Hl. boolean_facts.
  assert (stamp_within (Some log_id) (in_accepted_log_id (stamp_intent log_id (ie_intent e))) = true) as Hacc.
  { simpl. destruct (_ =? 0); [apply stamp_within_here; lia|by rewrite ri_accepted0]. }
  split.
  - unfold intent_stamps_legal. rewrite Hacc. simpl. rewrite ri_completed0, Hnone.
    rewrite andb_true_iff. split.
    + rewrite (bool_decide_eq_true_2 (None = None)) by done. rewrite andb_true_r.
      case_match; simpl; [|done]. rewrite (stamp_within_here log_id log_id) by lia. simpl.
      exact Hacc.
    + destruct (in_observed_membership_log_id (ie_intent e)) as [o|] eqn:Ho; simpl; [|done].
      destruct (ri_observed0 o eq_refl) as [Hold|Hle]; [|by apply stamp_within_here].
      match goal with H : from_option _ _ (in_observed_membership_log_id old) = true |- _ =>
        by rewrite Hold in H end.
  - simpl. intros ->. by rewrite ri_completed0, Hnone.
Qed.

(** The plan of an accepted change is the plan a load accepts. *)
Lemma plan_accepted_stored st plan :
  plan_accepted plan (st_membership st) (st_authority st) (st_deployment_profile_code st) ->
  stored_plan_legal st plan = true.
Proof.
  intros []. unfold stored_plan_legal, sorted_unique, MAX_RETAINED_LEARNERS.
  apply windows2_all_ltb_Sorted in pa_voters_sorted, pa_learners_sorted, pa_seeds_sorted.
  rewrite pa_voters, pa_voters_sorted, pa_learners_sorted, pa_seeds_sorted, (proj2 (N.leb_le _ _) pa_learners).
  simpl. apply forallb_forall. intros seed Hs%list_elem_of_In. destruct (pa_seeds seed Hs).
  unfold stored_seed_legal. rewrite sa_ticket, !andb_true_iff. split_and!.
  - apply bool_decide_eq_true_2. unfold check_member_seed.
    rewrite (proj2 (N.ltb_ge _ _) sa_ticket_len).
    destruct (ms_join_permit seed) as [p|]; simpl; [|done].
    by rewrite (proj2 (N.ltb_ge _ _) (sa_permit_len p eq_refl)).
  - by apply bool_decide_eq_true_2.
  - destruct (ms_join_permit seed) as [p|]; simpl; [|done]. rewrite (sa_permit p eq_refl).
    by apply bool_decide_eq_true_2.
Qed.

Lemma stored_plan_legal_ext st st' plan :
  st_authority st' = st_authority st -> st_deployment_profile_code st' = st_deployment_profile_code st ->
  stored_plan_legal st' plan = stored_plan_legal st plan.
Proof. intros H1 H2. unfold stored_plan_legal. by rewrite H1, H2. Qed.

Section intents.
Context (bound : option LogId) (log_id : LogId) (st st' : State).
Context (Hadv : log_advances bound log_id).
Context (Hauth : st_authority st' = st_authority st).
Context (Hprof : st_deployment_profile_code st' = st_deployment_profile_code st).

Lemma intents_same_ok :
  intents_ok bound st -> st_intents st' = st_intents st -> intents_ok (Some log_id) st'.
Proof.
  intros [Hp Hs Ha Ht] Heq. split; rewrite ?Heq; [| |done|done].
  - intros id i. rewrite (stored_plan_legal_ext st st') by done. apply Hp.
  - intros id i. eauto using intent_stamps_advance.
Qed.

(** Rows of a table after the evictions and the store. *)
Lemma intents_after_lookup e id i :
  intents_after log_id e (st_intents st) !! id = Some i ->
  i = stamp_intent log_id (ie_intent e) \/ st_intents st !! id = Some i.
Proof.
  unfold intents_after. intros [[_ <-]|[_ H]]%lookup_insert_Some; [by left|right].
  rewrite foldl_delete_lookup in H. by case_match.
Qed.

Lemma rewritten_intents_ok e old :
  intents_ok bound st -> rewrites_intent log_id st e old ->
  st_intents st' = intents_after log_id e (st_intents st) -> intents_ok (Some log_id) st'.
Proof.
  intros [Hp Hs Ha Ht] Hr Heq. pose proof (ri_old _ _ _ _ Hr) as Hold.
  destruct (evictions_spec st Ht) as (_ & Hev & Hroom).
  assert (forall id, id ∈ ie_evict e -> exists i, st_intents st !! id = Some i /\
            is_terminal_phase (in_status_code i) = true) as Hev'.
  { rewrite (ri_evict _ _ _ _ Hr). case_match; [done|set_solver]. }
  assert (ie_operation_id e ∉ ie_evict e) as Hnotin.
  { intros (i & Hi & Hterm)%Hev'. pose proof (ri_active _ _ _ _ Hr). congruence. }
  split; rewrite ?Heq; unfold intents_after.
  - intros id i Hi. rewrite (stored_plan_legal_ext st st') by done.
    apply intents_after_lookup in Hi as [->|Hi]; [|eauto]. simpl. rewrite (ri_plan _ _ _ _ Hr). eauto.
  - intros id i Hi.
    apply intents_after_lookup in Hi as [->|Hi]; [|eauto using intent_stamps_advance].
    eapply rewritten_stamps; eauto.
  - pose proof (mcount_insert (λ (_ : OperationId) i, negb (is_terminal_phase (in_status_code i)))
      (foldl (λ m id, delete id m) (st_intents st) (ie_evict e)) (ie_operation_id e)
      (stamp_intent log_id (ie_intent e))) as C.
    rewrite foldl_delete_lookup, decide_False, Hold in C by done.
    rewrite mcount_delete_list_other in C.
    2:{ intros k v Hk Hv. destruct (Hev' k Hk) as (i & Hi & Hterm). assert (v = i) as -> by congruence. by rewrite Hterm. }
    simpl in C. rewrite (ri_active _ _ _ _ Hr) in C. simpl in C. case_match; lia.
  - pose proof (mcount_insert (λ (_ : OperationId) i, is_terminal_phase (in_status_code i))
      (foldl (λ m id, delete id m) (st_intents st) (ie_evict e)) (ie_operation_id e)
      (stamp_intent log_id (ie_intent e))) as C.
    rewrite foldl_delete_lookup, decide_False, Hold in C by done.
    simpl in C. rewrite (ri_active _ _ _ _ Hr), (ri_evict _ _ _ _ Hr) in C.
    rewrite (ri_evict _ _ _ _ Hr). destruct (is_terminal_phase (in_status_code (ie_intent e))); simpl in C |- *; lia.
Qed.

Lemma changed_intents_ok actor hash a e :
  intents_ok bound st -> change_accepted st actor hash a e ->
  st_intents st' = intents_after log_id e (st_intents st) -> intents_ok (Some log_id) st'.
Proof.
  intros [Hp Hs Ha Ht] Hc Heq. pose proof (chc_intent _ _ _ _ _ Hc) as Hint.
  pose proof (chc_new _ _ _ _ _ Hc) as Hnew.
  split; rewrite ?Heq; unfold intents_after; rewrite ?(chc_evict _ _ _ _ _ Hc); cbn [foldl].
  - intros id i Hi. rewrite (stored_plan_legal_ext st st') by done.
    apply lookup_insert_Some in Hi as [[_ <-]|[_ Hi]]; [|eauto]. rewrite Hint. simpl.
    apply plan_accepted_stored, Hc.
  - intros id i Hi.
    apply lookup_insert_Some in Hi as [[_ <-]|[_ Hi]]; [|eauto using intent_stamps_advance].
    rewrite Hint. split; [|done]. unfold intent_stamps_legal. simpl.
    by rewrite stamp_within_here by lia.
  - pose proof (mcount_insert (λ (_ : OperationId) i, negb (is_terminal_phase (in_status_code i)))
      (st_intents st) (ie_operation_id e) (stamp_intent log_id (ie_intent e))) as C.
    rewrite Hnew, Hint, (mcount_zero _ (st_intents st)) in C.
    2:{ intros k v Hk. by rewrite (chc_idle _ _ _ _ _ Hc _ _ Hk). }
    rewrite Hint. simpl in C. lia.
  - pose proof (mcount_insert (λ (_ : OperationId) i, is_terminal_phase (in_status_code i))
      (st_intents st) (ie_operation_id e) (stamp_intent log_id (ie_intent e))) as C.
    rewrite Hnew, Hint in C. rewrite Hint. simpl in C. lia.
Qed.
End intents.
End effects.
