(* ===== verification/RouteTable.v ===== *)
(** * The retained routes stay within their cap, and the growth budget holds

    A change introduces at most seven routes and displaces the oldest ones that
    belong to no current member and are not being replaced. The cap holds
    because the routes that may not be displaced, those of members and of
    incoming seeds, fit in it together. *)

From S2P Require Import Prelude Reason Ids Contract Externals Limits State Tables Classify.
From S2P Require Import Ticket Authority Shape Genesis Resource Grant Retire Membership.
From S2P Require Import Apply Changes Durable Accounting Invariant Steps SessionTable.
From S2P Require Import MembershipTable.

#[local] Open Scope N_scope.

#[local] Arguments stamp_within : simpl never.

(** ** The routes of a plan *)

Lemma routes_from_elem a n r :
  (n, r) ∈ routes_from a ->
  exists seed, seed ∈ mp_member_seeds (cha_plan a) /\ n = ms_node_id seed /\
    r = mk_Route (ms_ticket seed) (cha_operation_id a) unstamped.
Proof.
  unfold routes_from. intros (seed & [= <- <-] & Hs)%list_elem_of_In%in_map_iff.
  apply list_elem_of_In, list_elem_of_filter in Hs as [_ Hs]. eauto.
Qed.

Lemma routes_from_NoDup a :
  windows2_all bytes_ltb (map ms_node_id (mp_member_seeds (cha_plan a))) = true ->
  NoDup (map fst (routes_from a)).
Proof.
  intros Hnd%windows2_all_ltb_NoDup. unfold routes_from. rewrite map_map. simpl.
  eapply sublist_NoDup; [exact Hnd|]. apply (fmap_sublist ms_node_id), sublist_filter.
Qed.

Lemma routes_from_len a : len (routes_from a) <= len (mp_member_seeds (cha_plan a)).
Proof. unfold routes_from, len. rewrite length_map. pose proof (length_filter (λ s, ms_ticket s <> []) (mp_member_seeds (cha_plan a))). lia. Qed.

(** ** The displaced routes *)

Lemma route_candidates_NoDup st incoming : NoDup (map snd (route_candidates st incoming)).
Proof.
  unfold route_candidates. rewrite map_map. simpl.
  apply (NoDup_fmap_fst (filter _ (map_to_list (st_routes st)))).
  - intros k v1 v2 [_ H1]%list_elem_of_filter [_ H2]%list_elem_of_filter.
    apply elem_of_map_to_list in H1, H2. congruence.
  - apply list.NoDup_filter, NoDup_map_to_list.
Qed.

(** A route may be displaced exactly when it is stored, of no member, and not
    replaced. *)
Lemma route_candidates_elem st incoming n :
  n ∈ map snd (route_candidates st incoming) <->
  n ∈ dom (st_routes st) /\ n ∉ cm_members (st_membership st) /\ n ∉ map fst incoming.
Proof.
  unfold route_candidates. rewrite map_map. simpl. rewrite list_elem_of_In, in_map_iff, elem_of_dom.
  setoid_rewrite <- list_elem_of_In. setoid_rewrite list_elem_of_filter. split.
  - intros ([k r] & <- & [Hc Hi] & Hin%elem_of_map_to_list). simpl in *. split_and!; [by eexists| |done].
    by rewrite <- cm_contains_spec, Hc.
  - intros ([r Hr] & Hm & Hi). exists (n, r). split_and!; [done| |done|by apply elem_of_map_to_list].
    simpl. destruct (cm_contains _ n) eqn:Hc; [|done]. by apply cm_contains_spec in Hc.
Qed.

Definition new_route_nodes (st : State) (incoming : list (NodeId * Route)) : N :=
  len (filter (λ nr, st_routes st !! nr.1 = None) incoming).

Lemma route_evictions_spec st incoming :
  let e := route_evictions st incoming in
  NoDup e /\
  (forall n, n ∈ e -> n ∈ dom (st_routes st) /\ n ∉ map fst incoming) /\
  (new_route_nodes st incoming <> 0 ->
     len e = N.of_nat (size (st_routes st)) + new_route_nodes st incoming - MAX_RETAINED_ROUTES \/
     forall n, n ∈ dom (st_routes st) -> n ∉ e ->
       n ∈ cm_members (st_membership st) \/ n ∈ map fst incoming).
Proof.
  unfold route_evictions. fold (new_route_nodes st incoming).
  destruct (N.eqb_spec (new_route_nodes st incoming) 0) as [H0|H0].
  { simpl. split_and!; [constructor|set_solver|done]. }
  set (over := u64_saturating_sub _ _).
  destruct (oldest_spec over (route_candidates st incoming) (route_candidates_NoDup _ _)) as (Hnd & Hin & Hl).
  simpl. set (v := map snd _) in *. split_and!; [done| |].
  - intros n Hn%Hin%route_candidates_elem. tauto.
  - intros _. destruct (N.le_gt_cases over (len (route_candidates st incoming))) as [Hle|Hgt].
    { left. rewrite Hl. unfold over, u64_saturating_sub in *. lia. }
    right. intros n Hdom Hn. destruct (decide (n ∈ cm_members (st_membership st))) as [|Hm]; [by left|].
    destruct (decide (n ∈ map fst incoming)) as [|Hi]; [by right|]. exfalso. apply Hn.
    assert (n ∈ map snd (route_candidates st incoming)) as Hc by (by apply route_candidates_elem).
    assert (v ≡ₚ map snd (route_candidates st incoming)) as ->; [|done].
    apply submseteq_length_Permutation.
    + by apply NoDup_submseteq.
    + unfold len in *. rewrite !length_map in *. lia.
Qed.

(** ** The size of the table after a change *)

Lemma dom_foldl_delete {K V} `{Countable K} (l : list K) (m : gmap K V) :
  dom (foldl (λ m k, delete k m) m l) = dom m ∖ list_to_set l.
Proof.
  apply set_eq. intros k. rewrite elem_of_dom, foldl_delete_lookup, elem_of_difference, elem_of_dom,
    elem_of_list_to_set. destruct (decide (k ∈ l)); [|tauto]. split; [by intros [??]|tauto].
Qed.

Lemma dom_foldl_insert {K V W} `{Countable K} (f : W -> V) (l : list (K * W)) (m : gmap K V) :
  dom (foldl (λ m kw, <[kw.1 := f kw.2]> m) m l) = dom m ∪ list_to_set (map fst l).
Proof.
  revert m. induction l as [|[k w] l IH]; intros m; simpl; [set_solver|].
  rewrite IH, dom_insert_L. set_solver.
Qed.

(** Removing [E] and adding [I], apart from each other. *)
Lemma size_replace (D E I : gset NodeId) :
  E ⊆ D -> E ## I -> (size ((D ∖ E) ∪ I) + size E = size D + size (I ∖ D))%nat.
Proof.
  intros Hsub Hdis. rewrite size_union_alt.
  replace (I ∖ (D ∖ E)) with (I ∖ D).
  2:{ apply set_eq. intros x. destruct (decide (x ∈ E)); set_solver. }
  pose proof (size_difference D E Hsub). pose proof (subseteq_size E D Hsub). lia.
Qed.

Lemma new_route_nodes_size st incoming :
  NoDup (map fst incoming) ->
  new_route_nodes st incoming
  = N.of_nat (size (list_to_set (map fst incoming) ∖ dom (st_routes st) : gset NodeId)).
Proof.
  intros Hnd. unfold new_route_nodes, len. f_equal.
  set (l := filter _ incoming).
  assert (list_to_set (map fst incoming) ∖ dom (st_routes st) = (list_to_set (map fst l) : gset NodeId)) as ->.
  { apply set_eq. intros x. rewrite elem_of_difference, !elem_of_list_to_set, not_elem_of_dom.
    rewrite !list_elem_of_In, !in_map_iff. setoid_rewrite <- list_elem_of_In. split.
    - intros [(nr & <- & Hin) Hn]. exists nr. split; [done|]. by apply list_elem_of_filter.
    - intros (nr & <- & [Hn Hin]%list_elem_of_filter). eauto. }
  rewrite size_list_to_set; [by rewrite length_map|].
  eapply sublist_NoDup; [exact Hnd|]. apply (fmap_sublist fst), sublist_filter.
Qed.

Section routes.
Context `{Ext : Externals}.

Lemma routes_after_size log_id e st :
  N.of_nat (size (st_routes st)) <= MAX_RETAINED_ROUTES ->
  N.of_nat (size (cm_members (st_membership st))) <= MEMBERS_BOUND ->
  NoDup (map fst (ie_routes e)) -> len (ie_routes e) <= 7 ->
  ie_evict_routes e = route_evictions st (ie_routes e) ->
  N.of_nat (size (routes_after log_id e (st_routes st))) <= MAX_RETAINED_ROUTES.
Proof.
  intros Hcap Hm Hnd Hlen He.
  destruct (route_evictions_spec st (ie_routes e)) as (Hnde & Hin & Hcase). rewrite <- He in *.
  rewrite <- size_dom. unfold routes_after.
  rewrite (dom_foldl_insert (stamped_route log_id)), dom_foldl_delete.
  set (E := list_to_set (ie_evict_routes e) : gset NodeId).
  set (I := list_to_set (map fst (ie_routes e)) : gset NodeId).
  assert (size I <= 7)%nat as HI.
  { unfold I. rewrite size_list_to_set by done. rewrite length_map. unfold len in Hlen. lia. }
  pose proof (new_route_nodes_size st (ie_routes e) Hnd) as Hnew. fold I in Hnew.
  assert (N.of_nat (size E) = len (ie_evict_routes e)) as HE.
  { unfold E, len. by rewrite size_list_to_set. }
  assert (size ((dom (st_routes st) ∖ E) ∪ I) + size E = size (st_routes st) + size (I ∖ dom (st_routes st)))%nat
    as Hsz.
  { rewrite <- (size_dom (st_routes st)). apply size_replace; intros n; unfold E, I;
      rewrite !elem_of_list_to_set; intros ?%Hin; tauto. }
  destruct (N.eq_dec (new_route_nodes st (ie_routes e)) 0) as [H0|H0]; [lia|].
  destruct (Hcase H0) as [Hl|Hsub]; [unfold MAX_RETAINED_ROUTES in *; lia|].
  assert (size (dom (st_routes st) ∖ E ∪ I) <= size (cm_members (st_membership st) ∪ I))%nat as Hle.
  { apply subseteq_size. intros n [[Hn HnE]%elem_of_difference|Hn]%elem_of_union; [|set_solver].
    destruct (Hsub n Hn) as [|Hi]; [|set_solver|]; [unfold E in HnE; by rewrite elem_of_list_to_set in HnE|].
    apply elem_of_union_r. unfold I. by rewrite elem_of_list_to_set. }
  assert (size (cm_members (st_membership st) ∪ I) <= size (cm_members (st_membership st)) + size I)%nat.
  { rewrite size_union_alt. pose proof (subseteq_size (I ∖ cm_members (st_membership st)) I ltac:(set_solver)). lia. }
  unfold MEMBERS_BOUND, MAX_RETAINED_ROUTES in *. lia.
Qed.

Lemma routes_after_lookup log_id e m n r :
  routes_after log_id e m !! n = Some r ->
  (exists r0, (n, r0) ∈ ie_routes e /\ r = stamped_route log_id r0) \/ m !! n = Some r.
Proof.
  unfold routes_after. intros [?|[_ H]]%(foldl_insert_lookup (stamped_route log_id)); [by left|right].
  rewrite foldl_delete_lookup in H. by case_match.
Qed.

Lemma routes_same_ok bound log_id st st' :
  log_advances bound log_id -> routes_ok bound st -> st_routes st' = st_routes st ->
  routes_ok (Some log_id) st'.
Proof.
  intros Hadv [Hr Hc] Heq. split; rewrite Heq; [|done]. intros n r Hn. destruct (Hr _ _ Hn).
  eauto using stamp_within_advance.
Qed.

Lemma changed_routes_ok bound log_id actor hash a e st st' :
  log_advances bound log_id -> routes_ok bound st ->
  N.of_nat (size (cm_members (st_membership st))) <= MEMBERS_BOUND ->
  change_accepted st actor hash a e ->
  st_routes st' = routes_after log_id e (st_routes st) -> routes_ok (Some log_id) st'.
Proof.
  intros Hadv [Hr Hcap] Hm Hc Heq. pose proof (chc_plan _ _ _ _ _ Hc) as Hplan.
  split; rewrite Heq.
  - intros n r [(r0 & Hin & ->)|Hold]%routes_after_lookup.
    2:{ destruct (Hr _ _ Hold). eauto using stamp_within_advance. }
    rewrite (chc_routes _ _ _ _ _ Hc) in Hin.
    apply routes_from_elem in Hin as (seed & Hs & -> & ->). split; [|by apply stamp_within_here].
    apply (pa_seeds _ _ _ _ Hplan seed Hs).
  - apply routes_after_size; try done.
    + rewrite (chc_routes _ _ _ _ _ Hc). by apply routes_from_NoDup, windows2_all_ltb_Sorted, Hplan.
    + rewrite (chc_routes _ _ _ _ _ Hc). pose proof (routes_from_len a).
      pose proof (plan_seeds_bound _ _ _ _ Hplan). lia.
    + rewrite (chc_routes _ _ _ _ _ Hc). apply Hc.
Qed.

(** ** The writes of a membership effect are independent *)

Lemma change_apart st actor hash a e : change_accepted st actor hash a e -> effect_apart e.
Proof.
  intros Hc. pose proof (chc_plan _ _ _ _ _ Hc) as Hplan.
  destruct (route_evictions_spec st (routes_from a)) as (Hnd & Hin & _).
  split; rewrite ?(chc_evict _ _ _ _ _ Hc), ?(chc_routes _ _ _ _ _ Hc), ?(chc_evict_routes _ _ _ _ _ Hc).
  - constructor.
  - set_solver.
  - by apply routes_from_NoDup, windows2_all_ltb_Sorted, Hplan.
  - done.
  - intros n Hn. by apply Hin.
Qed.

Lemma rewrite_apart bound log_id st e old :
  intents_ok bound st -> rewrites_intent log_id st e old -> effect_apart e.
Proof.
  intros [_ _ _ Ht] Hr. destruct (evictions_spec st Ht) as (Hnd & Hev & _).
  destruct (ri_routes _ _ _ _ Hr) as [Hro Her].
  split; rewrite ?Hro, ?Her, ?(ri_evict _ _ _ _ Hr); try (simpl; constructor); try set_solver.
  - case_match; [done|constructor].
  - case_match; [|set_solver]. intros (i & Hi & Hterm)%Hev.
    pose proof (ri_old _ _ _ _ Hr). pose proof (ri_active _ _ _ _ Hr). congruence.
Qed.
End routes.

(** ** The growth budget holds

    Every check of the form "the counter plus what this adds fits the budget"
    is sound because the counter is the exact sum of the charges; every write
    without such a check does not add. Releases, revocations, expiries,
    cancellations, progress reports and grant removals therefore never need
    room. *)

(** A saturating sum that fits the budget did not saturate. *)
Lemma saturating_fits a b : u64_saturating_add a b <= GROWTH_BUDGET -> a + b <= GROWTH_BUDGET.
Proof. unfold u64_saturating_add, GROWTH_BUDGET, U64_MAX. lia. Qed.

Section budget.
Context `{Ext : Externals}.

(** Within the budget the counter is the sum itself, not a residue of it. *)
Lemma growth_counter st : growth_ok st -> st_growth_bytes st = growth_total st.
Proof.
  intros [He Hb]. rewrite He. apply N.mod_small. unfold GROWTH_BUDGET, U64_MODULUS in *. lia.
Qed.

Lemma growth_move_ok added freed tx tx' :
  growth_ok (tx_state tx) -> growth_move added freed tx tx' ->
  (freed < added -> st_growth_bytes (tx_state tx) + (added - freed) <= GROWTH_BUDGET) ->
  growth_ok (tx_state tx').
Proof.
  intros Hok [Ht He] Hfit. pose proof (growth_counter _ Hok) as Hc. destruct Hok as [He0 Hb].
  split; [auto|]. destruct (N.lt_ge_cases freed added) as [Hlt|Hge]; [specialize (Hfit Hlt)|]; lia.
Qed.

Lemma grant_growth st actor a e :
  acl_ok st -> grant_accepted st actor a e ->
  let added := resource_row_charge (gre_key e) (gre_row e)
    + (if gre_creates_acl_row e then acl_row_charge (gre_key e, gre_subject e) 0 else 0) in
  let freed := from_option (resource_row_charge (gre_key e)) 0 (st_resources st !! gre_key e)
    + (if bool_decide (is_Some (gre_rights e)) then 0
       else acl_row_charge (gre_key e, gre_subject e) 0) in
  freed < added -> st_growth_bytes st + (added - freed) <= GROWTH_BUDGET.
Proof.
  intros Hacl Ha added freed Hlt.
  assert (resource_row_charge (gre_key e) (gre_row e)
    = from_option (resource_row_charge (gre_key e)) (charge_resource (rk_namespace (gre_key e)) (rk_key (gre_key e)) 0)
        (st_resources st !! gre_key e)) as Hrow.
  { rewrite (gac_row _ _ _ _ Ha). unfold resource_row_charge, grant_row. simpl.
    by destruct (st_resources st !! gre_key e). }
  destruct (gre_rights e) as [r|] eqn:Hr.
  - assert (gre_rights e <> None) as Hne by congruence. pose proof (gac_growth _ _ _ _ Ha Hne) as Hg.
    cbv zeta in Hg. apply saturating_fits in Hg.
    + unfold added, freed in *. rewrite Hrow in *. unfold acl_row_charge in *. cbn [fst] in *.
      rewrite (bool_decide_eq_true_2 (is_Some (Some r))) in * by eauto.
      destruct (st_resources st !! gre_key e); cbn [from_option] in *;
        [rewrite bool_decide_eq_false_2 in Hg by done|rewrite bool_decide_eq_true_2 in Hg by done]; lia.
    + unfold added, freed in Hlt. rewrite Hrow in Hlt. unfold acl_row_charge in Hlt. cbn [fst] in *.
      rewrite (bool_decide_eq_true_2 (is_Some (Some r))) in Hlt by eauto.
      destruct (st_resources st !! gre_key e); cbn [from_option] in *;
        [rewrite bool_decide_eq_false_2 by done|rewrite bool_decide_eq_true_2 by done]; lia.
  - exfalso. destruct (gac_removes _ _ _ _ Ha Hr) as [old Hold].
    destruct (ac_row _ Hacl _ _ Hold) as (_ & _ & [row Hres]). simpl in Hres.
    assert (gre_creates_acl_row e = false) as Hcr.
    { rewrite (gac_creates_acl _ _ _ _ Ha), Hr. apply andb_false_iff. right.
      apply bool_decide_eq_false_2. by intros [??]. }
    unfold added, freed in Hlt. rewrite Hrow, Hres, Hcr in Hlt. cbn [from_option] in Hlt. lia.
Qed.

(** A change is admitted against the exact move of its writes. *)
Lemma change_growth st actor hash a e :
  change_accepted st actor hash a e -> effect_freed st e < effect_added e ->
  st_growth_bytes st + (effect_added e - effect_freed st e) <= GROWTH_BUDGET.
Proof. intros Hc _. apply saturating_fits. exact (chc_growth _ _ _ _ _ Hc). Qed.

(** A rewritten intent keeps its charge. *)
Lemma rewrite_growth log_id st e old :
  rewrites_intent log_id st e old -> ~ effect_freed st e < effect_added e.
Proof.
  intros [] H. unfold effect_freed, effect_added in H. destruct ri_routes as [Hr1 Hr2].
  rewrite ri_old, Hr1 in H. unfold intent_row_charge, intent_charge_len in H. simpl in H.
  rewrite ri_plan, ri_expected in H. lia.
Qed.

Lemma genesis_growth admins tx st :
  tx_state tx = st -> st_admin_revision st = 0 -> unfounded_empty st -> admins_ok st ->
  len admins <= MAX_ADMINS_PER_GROUP ->
  growth_ok (tx_state (install_admins admins tx)).
Proof.
  intros <- H0 Hu Hadm Hlen. destruct (Hu H0) as (Hr & Ha & Hi & Hro).
  destruct (install_admins_tables admins tx) as (Er & Ea & Ead & _ & Eu). split.
  - unfold growth_exact.
    change (st_growth_bytes (tx_state (install_admins admins tx)))
      with (recompute_growth (set_admin_revision 1
              (tx_state (foldl (λ tx admin, snd (put_admin admin tx)) tx admins)))).
    rewrite recompute_growth_total. reflexivity.
  - unfold growth_total.
    rewrite Er, Ea, Ead, (un_intents _ _ Eu), (un_routes _ _ Eu), Hr, Ha, Hi, Hro, !msum_empty.
    destruct Hadm as [_ _ [Hf _] _]. rewrite (Hf H0), (right_id_L ∅ (∪)).
    assert (size (list_to_set admins : gset NodeId) <= length admins)%nat by apply list_to_set_size_le.
    unfold len, MAX_ADMINS_PER_GROUP, charge_admin, GROWTH_BUDGET in *. lia.
Qed.
End budget.
