(* ===== verification/Preservation.v ===== *)
(** * The invariant holds along every log

    The component lemmas put together: a business write, a session row and an
    audit row keep the invariant, so a command does, so an entry of any kind
    does, so every state a log reaches satisfies it. *)

From S2P Require Import Prelude Reason Ids Contract Externals Limits State Tables Classify.
From S2P Require Import Ticket Authority Shape Genesis Resource Grant Retire.
From S2P Require Import Membership Apply Changes Durable Accounting Invariant AuditTrail Steps.
From S2P Require Import SessionTable MembershipTable RouteTable.

#[local] Open Scope N_scope.

Section preservation.
Context `{Ext : Externals}.
Context (op_of_hash : Hash -> Z).

(** ** One business write *)

Lemma business_growth log_id tx tx' :
  growth_ok (tx_state tx) -> acl_ok (tx_state tx) -> admins_ok (tx_state tx) ->
  unfounded_empty (tx_state tx) -> (exists bound, intents_ok bound (tx_state tx)) ->
  business log_id tx tx' -> growth_ok (tx_state tx').
Proof.
  intros Hg Hacl Hadm Hu [bound Hi] Hb.
  destruct Hb as [|? ? e Hd|? ? e Hd|? ? e Hd|? ? ? e Hd|? ? e Hd|c e Hd Hobs|c row Hd|? g st Hv H0]; [done|..].
  - eapply growth_move_ok; [done|apply write_resource_move|].
    intros Hlt. apply saturating_fits. by apply (rac_growth _ _ _ _ (resource_decide_accepted _ _ _ _ Hd)).
  - destruct tx as [st c]. eapply growth_move_ok; [done|by eapply write_grant_move|].
    eapply grant_growth; [done|by apply grant_decide_accepted].
  - eapply growth_move_ok; [done|apply write_admin_move|].
    apply admin_decide_accepted in Hd as []. destruct (ade_enabled e); simpl; [|lia].
    intros _. apply saturating_fits. specialize (adc_growth eq_refl).
    etrans; [|exact adc_growth]. unfold u64_saturating_add. case_bool_decide; lia.
  - apply decide_change_accepted in Hd.
    eapply growth_move_ok; [done|by eapply write_intent_move, change_apart|by eapply change_growth].
  - destruct (decide_cancel_rewrites log_id _ _ _ _ Hd) as [old Hr].
    eapply growth_move_ok; [done|by eapply write_intent_move, rewrite_apart|].
    intros Hlt. by destruct (rewrite_growth _ _ _ _ Hr).
  - destruct (decide_progress_rewrites log_id _ _ _ Hd Hobs) as [old Hr].
    eapply growth_move_ok; [done|by eapply write_intent_move, rewrite_apart|].
    intros Hlt. by destruct (rewrite_growth _ _ _ _ Hr).
  - destruct (expire_row_ok _ _ _ Hd) as (old & Hold & Hval & _).
    eapply growth_move_ok; [done|by eapply put_resource_move|lia].
  - eapply genesis_growth; [done|done|done|done|].
    unfold verify_genesis in Hv. repeat (case_match; try discriminate Hv).
    apply seal_genesis_Ok in Hv as [Hs _]. apply Hs.
Qed.

Lemma business_membership bound log_id tx tx' :
  log_advances bound log_id -> intents_ok bound (tx_state tx) -> routes_ok bound (tx_state tx) ->
  N.of_nat (size (cm_members (st_membership (tx_state tx)))) <= MEMBERS_BOUND ->
  business log_id tx tx' ->
  intents_ok (Some log_id) (tx_state tx') /\ routes_ok (Some log_id) (tx_state tx').
Proof.
  intros Hadv Hi Hr Hm Hb.
  destruct Hb as [|? ? e Hd|? ? e Hd|? ? e Hd|? ? ? e Hd|? ? e Hd|c e Hd Hobs|c row Hd|? g st Hv H0].
  - split; [by apply (intents_same_ok bound log_id (tx_state tx))|by apply (routes_same_ok bound log_id (tx_state tx))].
  - split; [by apply (intents_same_ok bound log_id (tx_state tx))|by apply (routes_same_ok bound log_id (tx_state tx))].
  - destruct (write_grant_tables e tx) as (_ & _ & _ & _ & []).
    split; [by apply (intents_same_ok bound log_id (tx_state tx))|by apply (routes_same_ok bound log_id (tx_state tx))].
  - destruct (write_admin_tables e tx) as (_ & _ & _ & _ & []).
    split; [by apply (intents_same_ok bound log_id (tx_state tx))|by apply (routes_same_ok bound log_id (tx_state tx))].
  - destruct (write_intent_tables log_id e tx) as [Ei Er]. destruct (write_intent_frame log_id e tx).
    apply decide_change_accepted in Hd.
    split; [by eapply (changed_intents_ok bound log_id (tx_state tx))|by eapply (changed_routes_ok bound log_id)].
  - destruct (write_intent_tables log_id e tx) as [Ei Er]. destruct (write_intent_frame log_id e tx).
    destruct (decide_cancel_rewrites log_id _ _ _ _ Hd) as [old Hrw].
    split; [by eapply (rewritten_intents_ok bound log_id (tx_state tx))|apply (routes_same_ok bound log_id (tx_state tx)); [done|done|]].
    rewrite Er. unfold routes_after. by destruct (ri_routes _ _ _ _ Hrw) as [-> ->].
  - destruct (write_intent_tables log_id e tx) as [Ei Er]. destruct (write_intent_frame log_id e tx).
    destruct (decide_progress_rewrites log_id _ _ _ Hd Hobs) as [old Hrw].
    split; [by eapply (rewritten_intents_ok bound log_id (tx_state tx))|apply (routes_same_ok bound log_id (tx_state tx)); [done|done|]].
    rewrite Er. unfold routes_after. by destruct (ri_routes _ _ _ _ Hrw) as [-> ->].
  - split; [by apply (intents_same_ok bound log_id (tx_state tx))|by apply (routes_same_ok bound log_id (tx_state tx))].
  - destruct (install_admins_tables (vg_initial_admins g) tx) as (_ & _ & _ & _ & []).
    split; [by apply (intents_same_ok bound log_id (tx_state tx))|by apply (routes_same_ok bound log_id (tx_state tx))].
Qed.

(** The fields a business write never touches. *)
Record business_frame (s s' : State) : Prop := {
  bf_audit : st_audit s' = st_audit s;
  bf_audit_tip : st_audit_tip s' = st_audit_tip s;
  bf_audit_floor : st_audit_floor s' = st_audit_floor s;
  bf_reserve : st_reserve_bytes s' = st_reserve_bytes s;
  bf_sessions : st_sessions s' = st_sessions s;
  bf_membership : st_membership s' = st_membership s;
  bf_authority : st_authority s' = st_authority s;
  bf_last_applied : st_last_applied s' = st_last_applied s;
}.

Lemma business_keeps log_id tx tx' :
  business log_id tx tx' -> business_frame (tx_state tx) (tx_state tx').
Proof.
  intros Hb. pose proof (business_sessions _ _ _ Hb) as Hs.
  destruct Hb as [|? ? e Hd|? ? e Hd|? ? e Hd|? ? ? e Hd|? ? e Hd|c e Hd Hobs|c row Hd|? g st Hv H0];
    try by split.
  - by destruct (write_grant_tables e tx) as (_ & _ & _ & _ & []).
  - by destruct (write_admin_tables e tx) as (_ & _ & _ & _ & []).
  - by destruct (write_intent_frame log_id e tx).
  - by destruct (write_intent_frame log_id e tx).
  - by destruct (write_intent_frame log_id e tx).
  - by destruct (install_admins_tables (vg_initial_admins g) tx) as (_ & _ & _ & _ & []).
Qed.

(** ** The session row *)

(** What the business invariant reads. *)
Record same_business (s s' : State) : Prop := {
  sb_resources : st_resources s' = st_resources s;
  sb_acl : st_acl s' = st_acl s;
  sb_admins : st_admins s' = st_admins s;
  sb_intents : st_intents s' = st_intents s;
  sb_routes : st_routes s' = st_routes s;
  sb_growth : st_growth_bytes s' = st_growth_bytes s;
  sb_admin_revision : st_admin_revision s' = st_admin_revision s;
  sb_authority : st_authority s' = st_authority s;
  sb_profile : st_deployment_profile_code s' = st_deployment_profile_code s;
  sb_membership : st_membership s' = st_membership s;
}.

(** What the audit invariant reads. *)
Record same_audit (s s' : State) : Prop := {
  sa_audit : st_audit s' = st_audit s;
  sa_audit_tip : st_audit_tip s' = st_audit_tip s;
  sa_audit_floor : st_audit_floor s' = st_audit_floor s;
}.

Lemma audit_only_business s s' : audit_only s s' -> same_business s s'.
Proof. by intros []. Qed.

Lemma session_step_frame st tx tx' :
  session_step op_of_hash st tx tx' ->
  same_business (tx_state tx) (tx_state tx') /\ same_audit (tx_state tx) (tx_state tx').
Proof. by destruct 1. Qed.

Lemma same_audit_ok bound s s' : same_audit s s' -> audit_ok bound s -> audit_ok bound s'.
Proof.
  intros [H1 H2 H3] [[] ?]. split; [split|]; by rewrite ?H1, ?H2, ?H3.
Qed.

Lemma session_step_reserve st tx tx' :
  session_step op_of_hash st tx tx' -> reserve_exact (tx_state tx) -> reserve_exact (tx_state tx').
Proof. destruct 1; [done|apply store_session_move..]. Qed.

(** ** One command *)

Lemma growth_same_ok s s' : growth_same s s' -> growth_ok s -> growth_ok s'.
Proof.
  intros (H1 & H2 & H3 & H4 & H5 & H6) [He Hb].
  split; unfold growth_exact, growth_total in *; by rewrite ?H1, ?H2, ?H3, ?H4, ?H5, ?H6.
Qed.

(** The parts of the invariant that read neither sessions, audit nor reserve. *)
Record business_inv (bound : option LogId) (st : State) : Prop := {
  bi_resources : resources_ok st;
  bi_acl : acl_ok st;
  bi_admins : admins_ok st;
  bi_unfounded : unfounded_empty st;
  bi_intents : intents_ok bound st;
  bi_routes : routes_ok bound st;
  bi_growth : growth_ok st;
  bi_members : N.of_nat (size (cm_members (st_membership st))) <= MEMBERS_BOUND;
}.

Lemma business_preserves bound log_id tx tx' :
  business_inv bound (tx_state tx) -> log_advances bound log_id -> business log_id tx tx' ->
  business_inv (Some log_id) (tx_state tx').
Proof.
  intros [] Hadv Hb. destruct (business_membership bound log_id tx tx') as [? ?]; try done.
  split; try done.
  - by eapply business_resources.
  - by eapply business_acl.
  - by eapply business_admins.
  - by eapply business_unfounded.
  - eapply business_growth; eauto.
  - by rewrite (bf_membership _ _ (business_keeps _ _ _ Hb)).
Qed.

Lemma same_business_inv bound s s' : same_business s s' -> business_inv bound s -> business_inv bound s'.
Proof.
  intros [] [Hr Ha Hd Hu Hi Hro Hg Hm]. split.
  - by eapply resources_same_ok.
  - eapply acl_mono_ok; [done|done|congruence].
  - by eapply admins_same_ok.
  - intros H0. rewrite sb_admin_revision0 in H0.
    rewrite sb_resources0, sb_acl0, sb_intents0, sb_routes0. by apply Hu.
  - destruct Hi. split; rewrite sb_intents0; try done.
    intros id i. rewrite (stored_plan_legal_ext s s'); eauto.
  - destruct Hro. by split; rewrite sb_routes0.
  - by eapply growth_same_ok.
  - by rewrite sb_membership0.
Qed.

(** The steps of a command keep the whole invariant, at the new position. *)
Lemma command_steps_inv bound log_id tx tx' :
  inv op_of_hash bound (tx_state tx) -> log_advances bound log_id ->
  command_steps op_of_hash log_id tx tx' -> inv op_of_hash (Some log_id) (tx_state tx').
Proof.
  intros Hinv Hadv (tx1 & tx2 & row & -> & Hb & Hs & Hrow & Hlead).
  assert (business_inv bound (tx_state tx)) as Hbi by (by destruct Hinv).
  pose proof (write_audit_row_frame log_id row tx2) as Hf.
  destruct (session_step_frame _ _ _ Hs) as [Hs1 Hs2]. destruct (business_keeps _ _ _ Hb) as [].
  assert (audit_ok bound (tx_state tx2)) as Haud.
  { apply (same_audit_ok bound (tx_state tx1)); [done|].
    apply (same_audit_ok bound (tx_state tx)); [by split|apply Hinv]. }
  assert (business_inv (Some log_id) (tx_state (write_audit_row log_id row tx2))) as [].
  { eapply same_business_inv; [by apply audit_only_business|]. eapply same_business_inv; [done|].
    by eapply business_preserves. }
  split; try done.
  - destruct (session_step_ok _ _ _ _ _ (inv_sessions _ _ _ Hinv) Hb Hs).
    split; unfold capacity_for in *; simpl in *; by rewrite (ao_sessions _ _ Hf).
  - by eapply write_audit_row_ok.
  - apply write_audit_row_exact; [eapply audit_fresh; [apply Haud|done]|].
    eapply session_step_reserve; [done|]. destruct Hinv.
    unfold reserve_exact, reserve_total in *. congruence.
Qed.

(** Advancing the last applied position alone. *)
Lemma inv_advance bound log_id st :
  inv op_of_hash bound st -> log_advances bound log_id -> inv op_of_hash (Some log_id) st.
Proof.
  intros [] Hadv. split; try done.
  - by apply (intents_same_ok bound log_id st).
  - by apply (routes_same_ok bound log_id st).
  - destruct inv_audit as [[] ?]. split; [split|]; try done.
    + intros k r Hk. destruct (au_row k r Hk) as (? & last & Hb & ? & ?). split; [done|].
      destruct (Hadv _ Hb). exists log_id. split_and!; [done|lia|lia].
    + destruct (st_audit_tip st); [|done]. destruct au_tip as (? & ? & last & Hb & Hl).
      split_and!; [done|done|]. exists log_id. split; [done|]. left. destruct (Hadv _ Hb).
      destruct Hl as [?| ->]; lia.
Qed.
End preservation.
