(* ===== verification/Validation.v ===== *)
(** * The invariant passes the validator

    The seventeen rules a load applies to stored rows, each derived from the
    invariant of the replicated state. *)

From S2P Require Import Prelude Reason Ids Contract Externals Limits State Tables Classify.
From S2P Require Import Ticket Authority Shape Genesis Resource Grant Retire.
From S2P Require Import Membership Apply Changes Durable Accounting Invariant RouteTable.

#[local] Open Scope N_scope.

Lemma table_all_spec {K V} `{Countable K} (p : K -> V -> bool) (m : gmap K V) :
  table_all p m = true <-> forall k v, m !! k = Some v -> p k v = true.
Proof.
  unfold table_all. rewrite forallb_forall. split.
  - intros Hp k v Hk. apply (Hp (k, v)), list_elem_of_In, elem_of_map_to_list, Hk.
  - intros Hp [k v] Hk%list_elem_of_In%elem_of_map_to_list. by apply Hp.
Qed.

(** ** The audit rules *)

Lemma max_by_index_spec l :
  match max_by_index l with
  | None => l = []
  | Some b => b ∈ l /\ forall kv, kv ∈ l -> kv.1.2 <= b.1.2
  end.
Proof.
  unfold max_by_index. rewrite <- (rev_involutive l). generalize (rev l). clear l. intros l.
  induction l as [|x l IH]; simpl; [done|]. rewrite foldl_app. simpl.
  destruct (foldl _ None (rev l)) as [b|] eqn:Hb.
  - destruct IH as [Hin Hmax]. destruct (N.ltb_spec x.1.2 b.1.2).
    + split; [set_solver|]. intros kv [?| ->%list_elem_of_singleton]%elem_of_app; [auto|lia].
    + split; [set_solver|]. intros kv [Hkv| ->%list_elem_of_singleton]%elem_of_app; [|lia].
      specialize (Hmax kv Hkv). lia.
  - rewrite IH. simpl. split; [set_solver|]. intros kv ->%list_elem_of_singleton. lia.
Qed.

Lemma audit_index_inj bound st k k' :
  audit_shape bound st -> is_Some (st_audit st !! k) -> is_Some (st_audit st !! k') -> k.2 = k'.2 -> k = k'.
Proof.
  intros Hs Hk Hk' Heq. destruct (decide (k = k')) as [|Hne]; [done|]. exfalso.
  destruct (pair_leb_total k k') as [Hle|Hle].
  - pose proof (au_order _ _ Hs k k' Hk Hk' Hne Hle). lia.
  - pose proof (au_order _ _ Hs k' k Hk' Hk (not_eq_sym Hne) Hle). lia.
Qed.

Lemma btree_iter_elem {V} (m : gmap (N * N) V) kv : kv ∈ btree_iter m <-> m !! kv.1 = Some kv.2.
Proof. rewrite btree_iter_perm. destruct kv. apply elem_of_map_to_list. Qed.

(** The rebuilt tip is the recorded one. *)
Lemma rebuild_tip bound st : audit_shape bound st -> rebuild_audit_tip (st_audit st) = st_audit_tip st.
Proof.
  intros Hs. unfold rebuild_audit_tip. pose proof (max_by_index_spec (btree_iter (st_audit st))) as Hm.
  pose proof (au_tip _ _ Hs) as Ht. destruct (max_by_index _) as [b|]; simpl.
  - destruct Hm as [Hin%btree_iter_elem Hmax].
    destruct (st_audit_tip st) as [t|]; [|by rewrite Ht in Hin].
    destruct Ht as ((r & Hr & Hl) & Hle & _).
    assert (b.1 = (li_term t, li_index t)) as Hkey.
    { apply (audit_index_inj bound st); [done|by eexists|by eexists|]. simpl.
      pose proof (Hle b.1 ltac:(by eexists)).
      pose proof (Hmax ((li_term t, li_index t), r) ltac:(by apply btree_iter_elem)). simpl in *. lia. }
    rewrite Hkey in *. simpl. rewrite Hr in Hin. injection Hin as <-. rewrite Hl. by destruct t.
  - apply btree_iter_nil in Hm. destruct (st_audit_tip st) as [t|]; [|done].
    destruct Ht as ((r & Hr & _) & _). by rewrite Hm in Hr.
Qed.

Lemma check_audit_tip_ok bound st m :
  audit_ok bound st -> bound = st_last_applied st -> check_audit_tip (mk_DurableState st m) = true.
Proof.
  intros [Hs _] ->. unfold check_audit_tip. simpl. rewrite (rebuild_tip _ _ Hs).
  rewrite bool_decide_eq_true_2 by done. simpl. pose proof (au_tip _ _ Hs) as Ht.
  destruct (st_audit_tip st) as [t|]; [|by destruct (st_last_applied st)].
  destruct Ht as (_ & _ & last & -> & Hl). destruct Hl as [Hlt|<-].
  - rewrite (proj2 (N.ltb_ge _ _)) by lia. by rewrite (proj2 (N.eqb_neq _ _)) by lia.
  - rewrite N.ltb_irrefl, N.eqb_refl, bool_decide_eq_true_2 by done. done.
Qed.

Lemma check_audit_floor_ok bound st m :
  audit_ok bound st -> check_audit_floor (mk_DurableState st m) = true.
Proof.
  intros [Hs _]. unfold check_audit_floor. simpl. destruct (st_audit_floor st) as [f|] eqn:Hf; [|done].
  destruct (au_floor _ _ Hs f Hf) as [(r & Hr & Hl) Hmin].
  destruct (btree_iter _) as [|[[t i] oldest] rest] eqn:Hit; [done|].
  apply btree_iter_head in Hit as [Hk Hmin'].
  assert ((t, i) = (li_term f, li_index f)) as Heq.
  { apply pair_leb_antisym; [by eapply Hmin'|]. apply Hmin. by eexists. }
  injection Heq as -> ->. rewrite Hr in Hk. injection Hk as <-. apply bool_decide_eq_true_2. rewrite Hl. by destruct f.
Qed.

Lemma sorted_windows {V} (f : (N * N) * V -> (N * N) * V -> bool) l :
  StronglySorted (@audit_key_le V) l -> NoDup l.*1 ->
  (forall a b, a ∈ l -> b ∈ l -> a.1 <> b.1 -> pair_leb a.1 b.1 = true -> f a b = true) ->
  windows2_all f l = true.
Proof.
  induction 1 as [|x l Hs IH Hall]; [done|]. intros Hnd Hf. destruct l as [|y l]; [done|].
  change (f x y && windows2_all f (y :: l) = true). inversion Hnd as [|?? Hx Hnd']; subst. rewrite IH; [|done|].
  - rewrite andb_true_r. inversion Hall; subst. apply Hf; [left|right; left| |done]. set_solver.
  - intros a b Ha Hb. apply Hf; by right.
Qed.

Lemma check_audit_key_order_ok bound st m :
  audit_ok bound st -> check_audit_key_order (mk_DurableState st m) = true.
Proof.
  intros [Hs _]. unfold check_audit_key_order. simpl. apply sorted_windows.
  - apply (StronglySorted_merge_sort audit_key_le).
  - rewrite (btree_iter_perm (st_audit st)). apply NoDup_fst_map_to_list.
  - intros a b Ha%btree_iter_elem Hb%btree_iter_elem Hne Hle. apply N.ltb_lt.
    apply (au_order _ _ Hs); [by eexists|by eexists|done|done].
Qed.

Lemma check_audit_rows_ok bound st m :
  audit_ok bound st -> check_audit_rows (mk_DurableState st m) = true.
Proof.
  intros [Hs _]. apply table_all_spec. intros k r Hk. by apply (au_row _ _ Hs) in Hk as [[] _].
Qed.

(** ** The other tables *)

Lemma row_ok_legal r : row_ok r -> resource_row_legal r = true.
Proof.
  intros []. unfold resource_row_legal, ttl_is_legal.
  rewrite !andb_true_iff, !N.leb_le, orb_true_iff, !andb_true_iff, !N.leb_le, negb_true_iff, N.eqb_eq.
  done.
Qed.

Lemma check_grant_rows_ok st m : acl_ok st -> check_grant_rows (mk_DurableState st m) = true.
Proof.
  intros Ha. apply table_all_spec. intros k r Hk. destruct (ac_row _ Ha _ _ Hk) as (H0 & Hkn & Hr).
  rewrite Hkn, bool_decide_eq_true_2 by done. by rewrite (proj2 (N.eqb_neq _ _) H0).
Qed.

Lemma check_admin_revision_ok st m : admins_ok st -> check_admin_revision (mk_DurableState st m) = true.
Proof.
  intros [_ Hrev Hf Hroot]. unfold check_admin_revision. simpl.
  rewrite (proj2 (N.leb_le _ _) Hrev), (bool_decide_eq_false_2 _ Hroot), andb_true_r. simpl.
  apply eqb_true_iff. destruct (N.eqb_spec (st_admin_revision st) 0) as [H0|H0]; symmetry.
  - by apply bool_decide_eq_true_2, Hf.
  - apply bool_decide_eq_false_2. by intros ?%Hf.
Qed.

Lemma session_ok_legal op_of_hash s : session_ok op_of_hash s -> session_row_legal s = true.
Proof.
  intros [Hq Hn Hr]. unfold session_row_legal. rewrite (proj2 (N.leb_le _ _) Hq). simpl.
  destruct (se_last_result s) as [r|]; [|by apply N.eqb_eq, Hn].
  destruct (Hr r eq_refl). rewrite rl_reserved, !andb_true_iff, orb_true_iff, !N.leb_le, !bool_decide_eq_true.
  split_and!; try done. destruct (sr_snapshot r) as [sn|]; simpl; [|done]. by apply rl_snapshot.
Qed.

Section rules.
Context `{Ext : Externals}.
Context (op_of_hash : Hash -> Z) (st : State) (m : StoredMembership).
Context (Hinv : inv op_of_hash (st_last_applied st) st).

Lemma check_table_caps_ok : check_table_caps (mk_DurableState st m) = true.
Proof.
  unfold check_table_caps. simpl. destruct Hinv. rewrite !andb_true_iff, !N.leb_le. split_and!.
  - apply inv_resources.
  - apply inv_acl.
  - apply inv_admins.
  - apply inv_sessions.
  - rewrite <- (mcount_split (λ _ i, is_terminal_phase (in_status_code i)) (st_intents st)).
    destruct inv_intents. unfold MAX_INTENT_ROWS. lia.
  - apply inv_routes.
  - apply inv_audit.
Qed.

Lemma check_counts_ok :
  check_grants_per_resource (mk_DurableState st m) = true /\
  check_sessions_per_actor (mk_DurableState st m) = true /\
  check_active_clients (mk_DurableState st m) = true.
Proof.
  destruct Hinv. split_and!.
  - apply table_all_spec. intros k r _. apply N.leb_le, inv_acl.
  - apply table_all_spec. intros k r _. apply N.leb_le. apply (ses_per _ _ inv_sessions k.1).
  - unfold check_active_clients. rewrite andb_true_iff. split.
    + apply table_all_spec. intros k r _. apply N.leb_le. apply (ses_active_per _ _ inv_sessions k.1).
    + apply N.leb_le. apply (ses_active _ _ inv_sessions []).
Qed.

Lemma check_aggregate_counters_ok : check_aggregate_counters (mk_DurableState st m) = true.
Proof.
  unfold check_aggregate_counters. simpl. rewrite recompute_growth_total, recompute_reserve_total.
  destruct Hinv. rewrite andb_true_iff, !N.eqb_eq. split; [apply inv_growth|apply inv_reserve].
Qed.

Lemma check_membership_tables_ok :
  check_intent_rows (mk_DurableState st m) = true /\ check_route_rows (mk_DurableState st m) = true /\
  check_stamped_log_ids (mk_DurableState st m) = true.
Proof.
  destruct Hinv. split_and!.
  - unfold check_intent_rows. simpl.
    pose proof (mcount_split (λ (_ : OperationId) i, is_terminal_phase (in_status_code i)) (st_intents st)).
    destruct inv_intents. rewrite !andb_true_iff, !N.leb_le. split_and!; [done|lia|].
    by apply table_all_spec.
  - apply table_all_spec. intros n r Hn. destruct (ros_row _ _ inv_routes _ _ Hn) as [-> _].
    by apply bool_decide_eq_true_2.
  - unfold check_stamped_log_ids. simpl. rewrite andb_true_iff, !table_all_spec. split.
    + intros id i Hi. apply (io_stamps _ _ inv_intents _ _ Hi).
    + intros n r Hn. apply (ros_row _ _ inv_routes _ _ Hn).
Qed.

(** Every rule holds. *)
Lemma inv_validates :
  membership_names_root (sm_membership m) (ga_public_key (st_authority st)) = false ->
  validate_rows (mk_DurableState st m) = None.
Proof.
  intros Hroot. unfold validate_rows, INVARIANTS, first_failure.
  destruct check_counts_ok as (-> & -> & ->), check_membership_tables_ok as (-> & -> & ->).
  rewrite check_table_caps_ok, check_aggregate_counters_ok. destruct Hinv.
  rewrite (check_audit_tip_ok (st_last_applied st)), (check_audit_floor_ok (st_last_applied st)),
    (check_audit_key_order_ok (st_last_applied st)), (check_audit_rows_ok (st_last_applied st)),
    check_grant_rows_ok, check_admin_revision_ok by done.
  unfold check_root_not_a_member, check_resource_rows, check_session_rows. simpl. rewrite Hroot. simpl.
  rewrite !(proj2 (table_all_spec _ _)); [done|..].
  - intros k s Hs. by eapply session_ok_legal, ses_row.
  - intros k r Hr. apply row_ok_legal. by apply (rs_row _ inv_resources _ _ Hr).
Qed.
End rules.

(** ** The metadata rules *)

(** What the metadata is bound to: the authority the group was founded under,
    and a stored membership the profile permits, committed by an applied
    entry. *)
Record meta_ok `{Externals} (s : State) (m : StoredMembership) : Prop := {
  mk_root : membership_names_root (sm_membership m) (ga_public_key (st_authority s)) = false;
  mk_key : ed25519_key_accepted (ga_public_key (st_authority s)) = true;
  mk_domain : check_authority_domain (ga_domain (st_authority s)) = true;
  mk_profile : st_deployment_profile_code s ∈ PROFILES;
  mk_joint : len (rm_configs (sm_membership m)) <= 2;
  mk_configs c : c ∈ rm_configs (sm_membership m) ->
    profile_permits_voters (st_deployment_profile_code s) (N.of_nat (size c)) = false;
  mk_learners : N.of_nat (size (cm_learners (st_membership s))) <= MAX_LEARNER_ENVELOPE;
  mk_named : membership_named (sm_membership m) = true <-> is_Some (sm_log_id m);
  mk_applied id : sm_log_id m = Some id ->
    exists last, st_last_applied s = Some last /\ (li_index id < li_index last \/ id = last);
  mk_projection : st_membership s = project_membership (sm_membership m);
  mk_log_id : st_membership_log_id s = sm_log_id m;
}.

Lemma membership_applied_ok last id :
  (forall x, id = Some x -> exists l, last = Some l /\ (li_index x < li_index l \/ x = l)) ->
  membership_applied last id = true.
Proof.
  intros Hid. destruct id as [x|]; [|done]. simpl. destruct (Hid x eq_refl) as (l & -> & Hl).
  destruct Hl as [Hlt|<-].
  - rewrite (proj2 (N.ltb_ge _ _)) by lia. by rewrite (proj2 (N.eqb_neq _ _)) by lia.
  - rewrite N.ltb_irrefl, N.eqb_refl, bool_decide_eq_true_2 by done. done.
Qed.

Lemma floor_within bound st :
  audit_ok bound st -> from_option (stamp_within bound) true (st_audit_floor st) = true.
Proof.
  intros [Hs _]. destruct (st_audit_floor st) as [f|] eqn:Hf; simpl; [|done].
  destruct (au_floor _ _ Hs f Hf) as [(r & Hr & _) _].
  apply (au_row _ _ Hs) in Hr as (_ & last & -> & _ & Hi). simpl in *.
  by rewrite negb_true_iff, N.ltb_ge.
Qed.

Section meta.
Context `{Ext : Externals}.

Lemma meta_validates op_of_hash s m :
  inv op_of_hash (st_last_applied s) s -> meta_ok s m ->
  st_growth_bytes s <= GROWTH_BUDGET -> st_reserve_bytes s <= RESERVE_BUDGET ->
  validate_meta (mk_DurableState s m) = None.
Proof.
  intros Hinv [Hroot Hkey Hdom Hprof Hjoint Hconf Hlearn Hnamed Happ Hproj Hlog] Hg Hr. unfold validate_meta, META_RULES, first_failure. simpl.
  rewrite Hkey, Hdom. rewrite (proj2 (N.ltb_ge _ _) Hg), (proj2 (N.ltb_ge _ _) Hr).
  rewrite (bool_decide_eq_true_2 (st_deployment_profile_code s ∈ PROFILES)) by done.
  rewrite (proj2 (N.ltb_ge _ _) Hjoint), (proj2 (N.ltb_ge _ _) Hlearn).
  rewrite (bool_decide_eq_true_2 (st_membership s = _)), (bool_decide_eq_true_2 (st_membership_log_id s = _)) by done.
  rewrite membership_applied_ok, (floor_within (st_last_applied s) s) by (done || apply Hinv).
  rewrite (proj2 (forallb_forall _ _)); simpl.
  2:{ intros c Hc%list_elem_of_In. by rewrite (Hconf c Hc). }
  destruct (membership_named (sm_membership m)); simpl.
  - by rewrite bool_decide_eq_true_2 by (by apply Hnamed).
  - rewrite bool_decide_eq_false_2; [done|]. by intros ?%Hnamed.
Qed.

(** Every key and mask a load rereads is one the constructors accept. *)
Lemma stored_key_valid k : valid_key k -> stored_key_legal k = true.
Proof.
  intros Hk. unfold stored_key_legal. destruct k as [ns key]. simpl.
  by rewrite (proj2 (ResourceKey_new_Ok ns key (mk_ResourceKey ns key))).
Qed.

Lemma load_valid op_of_hash s m :
  inv op_of_hash (st_last_applied s) s -> meta_ok s m ->
  st_growth_bytes s <= GROWTH_BUDGET -> st_reserve_bytes s <= RESERVE_BUDGET ->
  load (meta_to_wire (mk_DurableState s m)) (tables_of s) = Ok (mk_DurableState s m).
Proof.
  intros Hinv Hm Hg Hr. unfold load. cbv zeta.
  assert (insert_rows (tables_of s) (ds_model (meta_from_wire (meta_to_wire (mk_DurableState s m)))) = s) as ->.
  { unfold insert_rows. simpl. rewrite (rebuild_tip (st_last_applied s)) by apply Hinv.
    rewrite <- (mk_projection _ _ Hm), <- (mk_log_id _ _ Hm). by destruct s. }
  change (ds_membership (meta_from_wire (meta_to_wire (mk_DurableState s m)))) with m.
  pose proof (inv_resources _ _ _ Hinv) as Hres. pose proof (inv_acl _ _ _ Hinv) as Hacl.
  rewrite !(proj2 (table_all_spec _ _)).
  - cbn [negb]. unfold validate_state. rewrite (meta_validates op_of_hash), (inv_validates op_of_hash) by (done || apply Hm).
    done.
  - intros k r Hk. by apply (ac_row _ Hacl) in Hk as (_ & ? & _).
  - intros k r Hk. apply (ac_row _ Hacl) in Hk as (_ & _ & [row Hrow]).
    apply stored_key_valid. by apply (rs_row _ Hres _ _ Hrow).
  - intros k r Hk. apply stored_key_valid. by apply (rs_row _ Hres _ _ Hk).
Qed.
End meta.
