(* ===== verification/Refinement.v ===== *)
(** * The state machine refines the durable validator

    A store starts empty and applies committed batches. Every state it
    publishes passes the validator a later load runs, the tables each commit
    writes are exactly the tables of the published state, and the byte counters
    are the exact sums within their budgets. The hypotheses on the log are the
    ones the wire boundary and the consensus layer establish; the two
    counterexamples at the end show that two of them are needed, because the
    transition does not check what the validator does. *)

From S2P Require Import Prelude Reason Ids Contract Externals Limits State Tables Classify.
From S2P Require Import Ticket Authority Shape Genesis Resource Grant Retire.
From S2P Require Import Membership Apply Changes Durable Scenario Accounting Invariant.
From S2P Require Import AuditTrail Steps SessionTable MembershipTable RouteTable.
From S2P Require Import RouteTable Preservation Validation.

#[local] Open Scope N_scope.

(** ** Logs *)

(** A membership a log may hold: one or two configurations of a size the profile
    permits, as admission and the consensus layer produce. *)
Definition membership_ok (profile : Z) (m : RaftMembership) : Prop :=
  rm_configs m <> [] /\ len (rm_configs m) <= 2 /\
  forall c, c ∈ rm_configs m -> profile_permits_voters profile (N.of_nat (size c)) = false.

Definition payload_ok (op_of_hash : Hash -> Z) (profile : Z) (log_id : LogId) (p : Payload) : Prop :=
  match p with
  | P_Blank => True
  | P_Membership m => membership_ok profile m
  | P_Normal c => command_ok op_of_hash log_id c
  end.

(** Terms never decrease along a log. *)
Fixpoint log_wf (op_of_hash : Hash -> Z) (profile : Z) (last : option LogId)
    (entries : list (LogId * Payload)) : Prop :=
  match entries with
  | [] => True
  | (log_id, p) :: rest =>
      (forall l, last = Some l -> li_term l <= li_term log_id) /\
      payload_ok op_of_hash profile log_id p /\ log_wf op_of_hash profile (Some log_id) rest
  end.

(** ** What a commit writes *)

Section commits.
Context `{Ext : Externals}.

Lemma commit_table_lookup {K V} `{Countable K} (keys : gset K) (working stored : gmap K V) k :
  (k ∈ keys -> commit_table keys working stored !! k = working !! k) /\
  (k ∉ keys -> commit_table keys working stored !! k = stored !! k).
Proof.
  unfold commit_table.
  apply (set_fold_ind_L (λ (t : gmap K V) X,
    (k ∈ X -> t !! k = working !! k) /\ (k ∉ X -> t !! k = stored !! k))); [set_solver|].
  intros x X t Hx [IH1 IH2]. destruct (decide (k = x)) as [->|Hne].
  - split; [intros _|set_solver].
    destruct (working !! x); [apply lookup_insert_eq|apply lookup_delete_eq].
  - assert ((match working !! x with Some v => <[x:=v]> t | None => delete x t end) !! k = t !! k) as ->.
    { destruct (working !! x); [by apply lookup_insert_ne|by apply lookup_delete_ne]. }
    split; intros Hk; [apply IH1|apply IH2]; set_solver.
Qed.

Lemma commit_admins_elem keys working stored k :
  (k ∈ keys -> (k ∈ commit_admins keys working stored <-> k ∈ working)) /\
  (k ∉ keys -> (k ∈ commit_admins keys working stored <-> k ∈ stored)).
Proof.
  unfold commit_admins.
  apply (set_fold_ind_L (λ (t : gset NodeId) X,
    (k ∈ X -> (k ∈ t <-> k ∈ working)) /\ (k ∉ X -> (k ∈ t <-> k ∈ stored)))); [set_solver|].
  intros x X t Hx [IH1 IH2]. destruct (decide (k = x)) as [->|Hne].
  - split; [intros _|set_solver]. destruct (decide (x ∈ working)); set_solver.
  - assert (k ∈ (if decide (x ∈ working) then {[x]} ∪ t else t ∖ {[x]}) <-> k ∈ t) as ->.
    { destruct (decide (x ∈ working)); set_solver. }
    split; intros Hk; [apply IH1|apply IH2]; set_solver.
Qed.

Lemma commit_table_covered {K V} `{Countable K} (keys : gset K) (working stored : gmap K V) :
  (forall k, k ∉ keys -> working !! k = stored !! k) -> commit_table keys working stored = working.
Proof.
  intros Hc. apply map_eq. intros k. destruct (commit_table_lookup keys working stored k) as [H1 H2].
  destruct (decide (k ∈ keys)) as [Hk|Hk]; [by apply H1|]. rewrite H2 by done. symmetry. auto.
Qed.

Lemma commit_admins_covered keys working stored :
  (forall k, k ∉ keys -> (k ∈ working <-> k ∈ stored)) -> commit_admins keys working stored = working.
Proof.
  intros Hc. apply set_eq. intros k. destruct (commit_admins_elem keys working stored k) as [H1 H2].
  destruct (decide (k ∈ keys)) as [Hk|Hk]; [by apply H1|]. rewrite H2 by done. symmetry. auto.
Qed.

(** Writing the recorded rows over the old tables gives the new tables. *)
Lemma commit_covered s0 c s : tables_covered s0 c s -> commit s c (tables_of s0) = tables_of s.
Proof.
  intros []. unfold commit, tables_of. simpl.
  by rewrite !commit_table_covered, commit_admins_covered by auto.
Qed.

Lemma apply_entry_recorded log_id p w reply w' :
  apply_entry log_id p w = Ok (reply, w') -> tx_recorded (wk_tx w) (wk_tx w').
Proof.
  unfold apply_entry. intros H. destruct p as [|m|c].
  - destruct (guard_delivery _ _); [|done]. injection H as <- <-.
    apply tx_modify_recorded. intros. by split_and!.
  - destruct (guard_delivery _ _); [|done]. repeat (case_match; try discriminate H).
    injection H as <- <-. apply tx_modify_recorded. intros. by split_and!.
  - pose proof (apply_recorded log_id c (wk_tx w)) as Hr.
    destruct (apply_command_recording _ _ _) as [[]]; [|done]. by injection H as <- <-.
Qed.

Lemma apply_entries_recorded entries w replies w' :
  apply_entries entries w = Ok (replies, w') -> tx_recorded (wk_tx w) (wk_tx w').
Proof.
  revert w replies. induction entries as [|[id p] rest IH]; intros w replies; cbn [apply_entries].
  - intros [= <- <-]. reflexivity.
  - destruct (apply_entry id p w) as [[r w1]|] eqn:He; [|done].
    destruct (apply_entries rest w1) as [[rs w2]|] eqn:Hr; [|done]. intros [= <- <-].
    etrans; [by eapply apply_entry_recorded|by eapply IH].
Qed.
End commits.

Section refinement.
Context `{Ext : Externals}.
Context (op_of_hash : Hash -> Z).

Record durable_inv (s : State) (m : StoredMembership) : Prop := {
  di_inv : inv op_of_hash (st_last_applied s) s;
  di_meta : meta_ok s m;
}.

Lemma guard_advances st log_id :
  guard_delivery st log_id = Ok () ->
  (forall l, st_last_applied st = Some l -> li_term l <= li_term log_id) ->
  log_advances (st_last_applied st) log_id.
Proof.
  unfold guard_delivery. intros Hg Ht l Hl. split; [|by apply Ht]. rewrite Hl in Hg.
  destruct (N.leb_spec (li_index log_id) (li_index l)); [done|lia].
Qed.

(** The invariant does not read the last applied position but through its
    bound. *)
Lemma inv_set_last bound id st : inv op_of_hash bound st -> inv op_of_hash bound (set_last_applied id st).
Proof.
  intros [[] [] [] ? [] [] [] [[] ?] [] ? ?]. split; try done; split; try done; by split.
Qed.

Lemma voters_bound profile m :
  len (rm_configs m) <= 2 ->
  (forall c, c ∈ rm_configs m -> profile_permits_voters profile (N.of_nat (size c)) = false) ->
  (size (rm_voter_ids m) <= 10)%nat.
Proof.
  unfold rm_voter_ids, len. intros Hl Hc.
  assert (forall c, c ∈ rm_configs m -> size c <= 5)%nat as Hs.
  { intros c Hin%Hc%profile_voters_bound. unfold MAX_VOTERS in Hin. lia. }
  destruct (rm_configs m) as [|a [|b [|? ?]]]; cbn [length union_list foldr] in Hl |- *; [| | |simpl in Hl; lia].
  - change (size (∅ : gset NodeId) <= 10)%nat. rewrite size_empty. lia.
  - pose proof (Hs a ltac:(set_solver)). change (size (a ∪ ∅) <= 10)%nat. rewrite (right_id_L ∅ (∪)). lia.
  - pose proof (Hs a ltac:(set_solver)). pose proof (Hs b ltac:(set_solver)).
    change (size (a ∪ (b ∪ ∅)) <= 10)%nat. rewrite (right_id_L ∅ (∪)), size_union_alt.
    pose proof (subseteq_size (b ∖ a) b ltac:(set_solver)). lia.
Qed.

Lemma members_bound profile m :
  len (rm_configs m) <= 2 ->
  (forall c, c ∈ rm_configs m -> profile_permits_voters profile (N.of_nat (size c)) = false) ->
  N.of_nat (size (cm_learners (project_membership m))) <= MAX_LEARNER_ENVELOPE ->
  N.of_nat (size (cm_members (project_membership m))) <= MEMBERS_BOUND.
Proof.
  intros H2 Hc Hl. pose proof (voters_bound profile m H2 Hc). unfold cm_members. rewrite size_union_alt.
  pose proof (subseteq_size (cm_learners (project_membership m) ∖ cm_voters (project_membership m))
    (cm_learners (project_membership m)) ltac:(set_solver)).
  change (cm_voters (project_membership m)) with (rm_voter_ids m) in *.
  unfold MEMBERS_BOUND, MAX_LEARNER_ENVELOPE, MAX_RETAINED_LEARNERS, MAX_NEW_VOTERS in *. lia.
Qed.

(** What a command leaves of the metadata. *)
Record bound_same (s s' : State) : Prop := {
  bs_authority : st_authority s' = st_authority s;
  bs_profile : st_deployment_profile_code s' = st_deployment_profile_code s;
  bs_membership : st_membership s' = st_membership s;
  bs_membership_log_id : st_membership_log_id s' = st_membership_log_id s;
}.

#[local] Instance bound_same_preorder : PreOrder bound_same.
Proof. split; [by split|]. intros ??? [] []. split; congruence. Qed.

Lemma command_steps_bound log_id tx tx' :
  command_steps op_of_hash log_id tx tx' -> bound_same (tx_state tx) (tx_state tx').
Proof.
  intros (tx1 & tx2 & row & -> & Hb & Hs & _).
  trans (tx_state tx1).
  - destruct Hb as [|? ? e Hd|? ? e Hd|? ? e Hd|? ? ? e Hd|? ? e Hd|c e Hd Hobs|c r Hd|? g st Hv H0];
      try by split.
    + unfold write_grant, remove_grant. by repeat case_match; simplify_eq/=.
    + unfold write_admin, put_admin, remove_admin. by repeat case_match; simplify_eq/=.
    + by destruct (write_intent_frame log_id e tx).
    + by destruct (write_intent_frame log_id e tx).
    + by destruct (write_intent_frame log_id e tx).
    + unfold install_admins. simpl. generalize (vg_initial_admins g). intros l. clear.
      revert tx. induction l as [|a l IH]; intros tx; simpl; [done|]. by destruct (IH (put_admin a tx).2).
  - trans (tx_state tx2); [by destruct Hs|]. by destruct (write_audit_row_frame log_id row tx2).
Qed.

(** The metadata of the next position. *)
Lemma meta_advance s s' m log_id :
  meta_ok s m -> bound_same s s' -> log_advances (st_last_applied s) log_id ->
  st_last_applied s' = Some log_id -> meta_ok s' m.
Proof.
  intros [] [Ha Hp Hm Hl] Hadv Hlast. split; rewrite ?Ha, ?Hp, ?Hm, ?Hl; try done.
  intros id Hid. destruct (mk_applied id Hid) as (last & Hs & Hor). exists log_id. split; [done|]. left.
  destruct (Hadv _ Hs). destruct Hor as [?| ->]; lia.
Qed.

(** A command keeps the invariant and everything it is bound to. *)
Lemma apply_command_inv log_id c tx reply tx' :
  inv op_of_hash (st_last_applied (tx_state tx)) (tx_state tx) ->
  (forall l, st_last_applied (tx_state tx) = Some l -> li_term l <= li_term log_id) ->
  command_ok op_of_hash log_id c ->
  apply_command_recording log_id c tx = (Ok reply, tx') ->
  inv op_of_hash (Some log_id) (tx_state tx') /\ st_last_applied (tx_state tx') = Some log_id /\
  log_advances (st_last_applied (tx_state tx)) log_id /\ bound_same (tx_state tx) (tx_state tx').
Proof.
  intros Hinv Ht Hok. unfold apply_command_recording.
  destruct (guard_delivery _ _) as [[]|] eqn:Hg; [|done].
  destruct (dispatch log_id c tx) as [[r|] tx1] eqn:Hd; [|done]. intros [= <- <-].
  pose proof (dispatch_steps op_of_hash log_id tx (inv_resources _ _ _ Hinv) (inv_admins _ _ _ Hinv)
    (inv_sessions _ _ _ Hinv) c r tx1 Hok Hd) as Hsteps.
  split_and!; [apply inv_set_last|done|by apply guard_advances|].
  - eapply command_steps_inv; [exact Hinv|by apply guard_advances|done].
  - trans (tx_state tx1); [by eapply command_steps_bound|by split].
Qed.

(** ** One entry, and a batch *)

Lemma apply_membership_inv log_id m s stored :
  durable_inv s stored -> log_advances (st_last_applied s) log_id ->
  membership_ok (st_deployment_profile_code s) m ->
  membership_names_root m (ga_public_key (st_authority s)) = false ->
  N.of_nat (size (cm_learners (project_membership m))) <= MAX_LEARNER_ENVELOPE ->
  durable_inv
    (mk_State (st_resources s) (st_acl s) (st_admins s) (st_sessions s) (st_intents s) (st_routes s)
       (st_audit_tip s) (st_audit s) (st_growth_bytes s) (st_reserve_bytes s) (st_admin_revision s)
       (st_authority s) (st_deployment_profile_code s) (project_membership m) (Some log_id)
       (st_audit_floor s) (Some log_id))
    (mk_StoredMembership (Some log_id) m).
Proof.
  intros [Hinv []] Hadv (Hne & H2 & Hc) Hroot Hl. split; simpl.
  - pose proof (inv_advance op_of_hash _ log_id _ Hinv Hadv) as [[] [] [] ? [] [] [] [[] ?] [] ? ?].
    split; try done; try (split; try done; by split). by apply (members_bound (st_deployment_profile_code s)).
  - split; try done; simpl.
    + split; [eauto|]. intros _. unfold membership_named. by rewrite bool_decide_eq_false_2.
    + intros id [= <-]. eauto.
Qed.

Lemma apply_entry_inv log_id p w reply w' :
  durable_inv (tx_state (wk_tx w)) (wk_membership w) ->
  (forall l, st_last_applied (tx_state (wk_tx w)) = Some l -> li_term l <= li_term log_id) ->
  payload_ok op_of_hash (st_deployment_profile_code (tx_state (wk_tx w))) log_id p ->
  apply_entry log_id p w = Ok (reply, w') ->
  durable_inv (tx_state (wk_tx w')) (wk_membership w') /\
  st_last_applied (tx_state (wk_tx w')) = Some log_id /\
  st_deployment_profile_code (tx_state (wk_tx w')) = st_deployment_profile_code (tx_state (wk_tx w)).
Proof.
  intros Hd Ht Hok. destruct Hd as [Hinv Hmeta] eqn:E. unfold apply_entry. destruct p as [|m|c].
  - destruct (guard_delivery _ _) as [[]|] eqn:Hg; [|done]. intros [= <- <-].
    pose proof (guard_advances _ _ Hg Ht) as Hadv. split; [|done]. split.
    + by eapply inv_set_last, inv_advance.
    + by eapply meta_advance.
  - destruct (guard_delivery _ _) as [[]|] eqn:Hg; [|done].
    destruct (membership_names_root m _) eqn:Hn; [done|].
    destruct (MAX_LEARNER_ENVELOPE <? _) eqn:Hl; [done|]. boolean_facts. intros [= <- <-].
    split; [|done]. by eapply apply_membership_inv, Hl; [|apply guard_advances|..].
  - destruct (apply_command_recording _ _ _) as [[r|] tx1] eqn:Hc; [|done]. intros [= <- <-].
    destruct (apply_command_inv _ _ _ _ _ Hinv Ht Hok Hc) as (H1 & H2 & H3 & H4).
    split_and!; [split; simpl; [by rewrite H2|by eapply meta_advance]|done|apply H4].
Qed.

Lemma apply_entries_inv entries w replies w' :
  durable_inv (tx_state (wk_tx w)) (wk_membership w) ->
  log_wf op_of_hash (st_deployment_profile_code (tx_state (wk_tx w)))
    (st_last_applied (tx_state (wk_tx w))) entries ->
  apply_entries entries w = Ok (replies, w') ->
  durable_inv (tx_state (wk_tx w')) (wk_membership w').
Proof.
  revert w replies. induction entries as [|[id p] rest IH]; intros w replies Hd Hw; cbn [apply_entries].
  - by intros [= <- <-].
  - destruct Hw as (Ht & Hok & Hrest).
    destruct (apply_entry id p w) as [[r w1]|] eqn:He; [|done].
    destruct (apply_entry_inv _ _ _ _ _ Hd Ht Hok He) as (Hd1 & Hl & Hp).
    destruct (apply_entries rest w1) as [[rs w2]|] eqn:Hr; [|done]. intros [= <- <-].
    eapply IH; [done|by rewrite Hl, Hp|done].
Qed.

(** ** Reachable stores *)

(** A freshly bound store: empty tables and no membership, under the authority
    and profile of a verified founding document. *)
Definition bound_state (authority : GroupAuthority) (profile : Z) : State :=
  State_initial authority profile (project_membership (mk_RaftMembership [] ∅)) None.
Definition bound_store (authority : GroupAuthority) (profile : Z) : DurableState :=
  mk_DurableState (bound_state authority profile) (mk_StoredMembership None (mk_RaftMembership [] ∅)).

Inductive reachable : DurableState -> StoredTables -> Prop :=
| reach_bind authority profile :
    ed25519_key_accepted (ga_public_key authority) = true ->
    check_authority_domain (ga_domain authority) = true -> profile ∈ PROFILES ->
    reachable (bound_store authority profile) (tables_of (bound_state authority profile))
| reach_batch d t entries replies d' t' :
    reachable d t ->
    log_wf op_of_hash (st_deployment_profile_code (ds_model d)) (st_last_applied (ds_model d)) entries ->
    apply_batch entries d t = Ok (replies, d', t') -> reachable d' t'.

Lemma bound_inv authority profile : inv op_of_hash None (bound_state authority profile).
Proof.
  assert (growth_total (bound_state authority profile) = 0) as Hg.
  { unfold growth_total. simpl. by rewrite !msum_empty. }
  assert (reserve_total (bound_state authority profile) = 0) as Hr.
  { unfold reserve_total. simpl. by rewrite !msum_empty. }
  split.
  - by split.
  - by split.
  - by split; try set_solver.
  - by intros _.
  - by split.
  - by split.
  - by split.
  - split; [|done]. split; simpl; try done. by intros ?? [??].
  - split; [unfold growth_exact|]; by rewrite Hg.
  - unfold reserve_exact. by rewrite Hr.
  - done.
Qed.

Lemma reachable_inv d t :
  reachable d t -> durable_inv (ds_model d) (ds_membership d) /\ t = tables_of (ds_model d).
Proof.
  induction 1 as [authority profile Hk Hdom Hp|d t entries replies d' t' Hreach [Hd Ht] Hw Happ].
  - split; [|done]. split; [apply bound_inv|]. split; simpl; try done; try set_solver.
  - unfold apply_batch in Happ. set (w := mk_Working _ _) in *.
    destruct (apply_entries entries w) as [[rs w']|] eqn:He; [|done]. injection Happ as <- <- <-. simpl.
    split; [by apply (apply_entries_inv entries w rs w')|].
    destruct (apply_entries_recorded _ _ _ _ He) as [Hc _]. rewrite Ht. by apply commit_covered.
Qed.
End refinement.

(** ** The reserve fits *)

Lemma session_charge_bound op_of_hash k s :
  session_ok op_of_hash s -> session_row_charge k s <= MAX_RESERVE_ROW_CHARGE.
Proof.
  intros [_ _ Hr]. unfold session_row_charge, sr_key_parts.
  destruct (se_last_result s) as [r|]; simpl; [|by vm_compute].
  destruct (Hr r eq_refl). apply (charge_session_bound (sr_resource r)).
  unfold sr_resource. destruct (sr_snapshot r) as [sn|]; simpl; [|done]. intros key [= <-].
  by apply rl_snapshot.
Qed.

Lemma audit_charge_bound k r : audit_row_ok r -> audit_row_charge k r <= MAX_RESERVE_ROW_CHARGE.
Proof. intros [_ Hk]. apply (charge_session_bound (ar_resource r)), Hk. Qed.

Section commit_claim.
Context `{Ext : Externals}.

(** A commit loses nothing: for any batch that applies, writing the rows the
    change set names over the tables of the state before gives exactly the
    tables of the state published, with no row stale, missing or left behind. *)
Theorem commit_writes_every_change entries d replies d' t' :
  apply_batch entries d (tables_of (ds_model d)) = Ok (replies, d', t') ->
  t' = tables_of (ds_model d').
Proof.
  unfold apply_batch. set (w := mk_Working _ _).
  destruct (apply_entries entries w) as [[rs w']|] eqn:He; [|done]. intros [= <- <- <-].
  destruct (apply_entries_recorded _ _ _ _ He) as [Hc _]. simpl. by apply commit_covered.
Qed.
End commit_claim.

Section claims.
Context `{Ext : Externals}.
Context (op_of_hash : Hash -> Z).

Lemma reserve_bound st :
  inv op_of_hash (st_last_applied st) st -> reserve_total st <= RESERVE_BUDGET.
Proof.
  intros []. destruct inv_audit as [Hshape Hcap], inv_sessions as [Hrow Hses _ _ _].
  pose proof (msum_le_size session_row_charge (st_sessions st) MAX_RESERVE_ROW_CHARGE) as H1.
  pose proof (msum_le_size audit_row_charge (st_audit st) MAX_RESERVE_ROW_CHARGE) as H2.
  unfold reserve_total. etrans; [|exact RESERVE_FITS]. rewrite N.mul_add_distr_r, N.add_comm.
  apply N.add_le_mono.
  - etrans; [apply H2|by apply N.mul_le_mono_r]. intros k r Hk. apply audit_charge_bound.
    by apply (au_row _ _ Hshape) in Hk as [? _].
  - etrans; [apply H1|by apply N.mul_le_mono_r]. intros k r Hk. eauto using session_charge_bound.
Qed.

(** The two counters are the sums, within their budgets. *)
Lemma inv_counters st :
  inv op_of_hash (st_last_applied st) st ->
  st_growth_bytes st = growth_total st /\ growth_total st <= GROWTH_BUDGET /\
  st_reserve_bytes st = reserve_total st /\ reserve_total st <= RESERVE_BUDGET.
Proof.
  intros Hinv. pose proof (reserve_bound _ Hinv) as Hrb.
  split_and!; [apply growth_counter, Hinv|apply Hinv| |done].
  rewrite (inv_reserve _ _ _ Hinv). apply N.mod_small. unfold RESERVE_BUDGET, U64_MODULUS in *. lia.
Qed.

(** C1: the state machine refines the durable loader: for every store reached
    from its binding through applied batches of a well-formed log, a load of
    the committed metadata and tables passes the thirteen metadata rules and
    the seventeen row rules and returns exactly the state the machine had
    published. A crash after any commit loses nothing and never leaves a store
    that refuses to open. *)
Theorem reload_returns_the_published_state d t :
  reachable op_of_hash d t -> load (meta_to_wire d) t = Ok d.
Proof.
  intros [[Hinv Hmeta] ->]%reachable_inv. destruct d as [s m]. simpl in *.
  destruct (inv_counters _ Hinv) as (Hg & Hgb & Hr & Hrb).
  apply (load_valid op_of_hash); try done; [by rewrite Hg|by rewrite Hr].
Qed.

(** C24: the byte accounting is exact and bounded at every reachable state: the
    growth counter is the sum of the charges of the rows that count against it
    and at most its budget, the reserve counter is the sum over sessions and
    audit rows and at most its own, so the two together stay below the store's
    high water. *)
Theorem reachable_budgets d t :
  reachable op_of_hash d t ->
  let s := ds_model d in
  st_growth_bytes s = growth_total s /\ growth_total s <= GROWTH_BUDGET /\
  st_reserve_bytes s = reserve_total s /\ reserve_total s <= RESERVE_BUDGET /\
  st_growth_bytes s + st_reserve_bytes s < LOCAL_HIGH_WATER.
Proof.
  intros [[Hinv _] _]%reachable_inv. simpl.
  destruct (inv_counters _ Hinv) as (Hg & Hgb & Hr & Hrb). pose proof BUDGETS_FIT_THE_STORE.
  rewrite Hg, Hr. split_and!; try done. lia.
Qed.
End claims.

(** ** The concrete run *)

Lemma run_wf : log_wf run_op PROFILE_DEV_SINGLE None (run_entries 9).
Proof.
  assert (membership_ok PROFILE_DEV_SINGLE run_membership) as Hm.
  { split_and!; [done|done|]. by intros c ->%list_elem_of_singleton. }
  change (run_entries 9) with
    (imap (λ i p, (mk_LogId 1 sample_voter (N.of_nat (S i)), p)) run_payloads). simpl.
  repeat match goal with
  | |- _ /\ _ => split
  | |- True => exact I
  | |- membership_ok _ _ => exact Hm
  | |- forall l, None = Some l -> _ => by intros
  | |- forall l, Some _ = Some l -> _ => by intros l [= <-]
  | |- run_op _ = _ => vm_compute; reflexivity
  end.
Qed.

#[local] Instance run_externals : Externals := founding_externals.

Lemma run_bound : reachable run_op run_store (tables_of run_initial).
Proof.
  apply (reach_bind run_op founding_authority PROFILE_DEV_SINGLE); [by vm_compute|by vm_compute|].
  apply (bool_decide_unpack _). by vm_compute.
Qed.

Lemma run_reachable : 
  match run_batch 9 with
  | Ok (_, d, t) => reachable run_op d t /\ N.of_nat (size (st_audit (ds_model d))) = 8
  | Err _ => False
  end.
Proof.
  assert (match run_batch 9 with Ok (_, d, _) => size (st_audit (ds_model d)) | Err _ => 0%nat end = 8%nat)
    as Hsize by (vm_compute; reflexivity).
  destruct (run_batch 9) as [[[r d] t]|e] eqn:E; [|done]. split; [|by rewrite Hsize].
  eapply reach_batch; [apply run_bound|apply run_wf|exact E].
Qed.

(** A well-formed log stays so when cut. *)
Lemma log_wf_take op_of_hash profile last n entries :
  log_wf op_of_hash profile last entries -> log_wf op_of_hash profile last (take n entries).
Proof.
  revert last entries. induction n as [|n IH]; intros last [|[id p] rest]; [done..|].
  cbn [take log_wf]. intros (? & ? & ?). auto.
Qed.

Lemma run_entries_take n : (n <= 9)%nat -> run_entries n = take n (run_entries 9).
Proof.
  intros Hn. unfold run_entries. rewrite (take_ge run_payloads 9) by (by vm_compute).
  apply list_eq. intros i. rewrite list_lookup_imap.
  destruct (decide (i < n)%nat).
  - by rewrite !lookup_take_lt, list_lookup_imap by done.
  - by rewrite !lookup_take_ge by lia.
Qed.

(** Every prefix of the run is reachable. *)
Lemma run_prefix_reachable n r d t :
  (n <= 9)%nat -> run_batch n = Ok (r, d, t) -> reachable run_op d t.
Proof.
  intros Hn E. eapply reach_batch; [apply run_bound| |exact E].
  rewrite run_entries_take by done. apply log_wf_take, run_wf.
Qed.

(** What is left of the run is well formed for the store it resumes on. *)
Lemma run_rest_wf r d t :
  run_batch 4 = Ok (r, d, t) ->
  log_wf run_op (st_deployment_profile_code (ds_model d)) (st_last_applied (ds_model d)) (run_rest 4).
Proof.
  intros E.
  assert (st_last_applied (run_state 4) = Some (at_index 4)) as Hl by (vm_compute; reflexivity).
  assert (st_deployment_profile_code (run_state 4) = PROFILE_DEV_SINGLE) as Hp by (vm_compute; reflexivity).
  unfold run_state in Hl, Hp. rewrite E in Hl, Hp. rewrite Hl, Hp.
  pose proof run_wf as H. change (run_entries 9) with (take 4 (run_entries 9) ++ run_rest 4) in H.
  by destruct H as (_ & _ & _ & _ & _ & _ & _ & _ & H).
Qed.

Lemma reload_returns_the_published_state_witness :
  match run_batch 9 with
  | Ok (_, d, t) => load (meta_to_wire d) t = Ok d
  | Err _ => False
  end.
Proof.
  pose proof run_reachable as H. destruct (run_batch 9) as [[[r d] t]|e]; [|exact H].
  exact (reload_returns_the_published_state run_op d t (proj1 H)).
Defined.

Lemma reachable_budgets_witness :
  match run_batch 9 with
  | Ok (_, d, _) => growth_total (ds_model d) <= GROWTH_BUDGET
  | Err _ => False
  end.
Proof.
  pose proof run_reachable as H. destruct (run_batch 9) as [[[r d] t]|e]; [|exact H].
  exact (proj1 (proj2 (reachable_budgets run_op d t (proj1 H)))).
Defined.

Lemma commit_writes_every_change_witness :
  match run_batch 9 with
  | Ok (_, d, t) => t = tables_of (ds_model d)
  | Err _ => False
  end.
Proof.
  pose proof run_reachable as H. destruct (run_batch 9) as [[[r d] t]|e] eqn:E; [|exact H].
  exact (commit_writes_every_change (run_entries 9) run_store r d t E).
Defined.

(** ** What the transition does not check *)

Section rejected_replay.
Context `{Ext : Externals}.
Context (op_of_hash : Hash -> Z).

(** The newest row of a trail survives the pruning. *)
Lemma written_row_kept bound log_id row tx :
  audit_shape bound (tx_state tx) -> log_advances bound log_id ->
  st_audit (tx_state (write_audit_row log_id row tx)) !! (li_term log_id, li_index log_id) = Some row.
Proof.
  intros Hs Hadv. unfold write_audit_row. set (tx2 := tx_modify (set_audit_tip _) _).
  assert (st_audit (tx_state tx2) = <[(li_term log_id, li_index log_id) := row]> (st_audit (tx_state tx))) as Ha by done.
  destruct (prune_loop_keeps (size (st_audit (tx_state tx2))) tx2 ltac:(lia)) as (Hsize & Hsub & Hold).
  fold (prune_audit tx2) in Hsize, Hsub, Hold. set (kept := st_audit (tx_state (prune_audit tx2))) in *.
  destruct (kept !! (li_term log_id, li_index log_id)) as [r|] eqn:Hk.
  - pose proof (lookup_weaken _ _ _ _ Hk Hsub) as H. rewrite Ha, lookup_insert_eq in H. by injection H as ->.
  - destruct (map_choose kept) as (k & r & Hr).
    { intros He. rewrite He, map_size_empty, Ha in Hsize.
      assert (size (<[(li_term log_id, li_index log_id):=row]> (st_audit (tx_state tx))) <> 0%nat) as Hz.
      { intros Hz. apply map_size_empty_inv in Hz. by apply insert_non_empty in Hz. }
      unfold MAX_AUDIT_ROWS in Hsize. lia. }
    assert (pair_leb (li_term log_id, li_index log_id) k = true) as Hle.
    { apply Hold; [rewrite Ha, lookup_insert_eq; by eexists|done|by eexists]. }
    pose proof (lookup_weaken _ _ _ _ Hr Hsub) as H. rewrite Ha in H.
    apply lookup_insert_Some in H as [[<- _]|[_ H]]; [by rewrite Hk in Hr|].
    apply (au_row _ _ Hs) in H as (_ & last & Hb & Ht & Hi). destruct (Hadv _ Hb).
    unfold pair_leb in Hle. simpl in Hle. apply orb_true_iff in Hle as [?|?]; boolean_facts; lia.
Qed.

Lemma failing_rule {A} (rules : list (A * (DurableState -> bool))) d name check :
  (name, check) ∈ rules -> check d = false -> first_failure rules d <> None.
Proof.
  induction rules as [|[n c] rules IH]; intros Hin Hc; [by apply elem_of_nil in Hin|]. simpl.
  apply elem_of_cons in Hin as [[= -> ->]|Hin]; [by rewrite Hc|]. destruct (c d); [by apply IH|done].
Qed.

Lemma illegal_audit_row d k row :
  st_audit (ds_model d) !! k = Some row -> audit_row_legal row = false ->
  check_audit_rows d = false /\ validate_rows d <> None.
Proof.
  intros Hk Hrow. assert (check_audit_rows d = false) as Hc.
  { unfold check_audit_rows. apply not_true_iff_false. intros Hall.
    rewrite table_all_spec in Hall. by rewrite (Hall _ _ Hk) in Hrow. }
  split; [done|]. eapply failing_rule; [|exact Hc]. unfold INVARIANTS. repeat (left || right).
Qed.

Lemma reachable_guard d t log_id :
  reachable op_of_hash d t -> log_advances (st_last_applied (ds_model d)) log_id ->
  guard_delivery (ds_model d) log_id = Ok ().
Proof.
  intros [[Hinv _] _]%reachable_inv Hadv. unfold guard_delivery.
  pose proof (au_tip _ _ (au_shape _ _ (inv_audit _ _ _ Hinv))) as Htip.
  destruct (st_last_applied (ds_model d)) as [last|] eqn:Hl.
  - destruct (Hadv last eq_refl) as [Hi _]. rewrite (proj2 (N.leb_gt _ _)) by done.
    destruct (st_audit_tip (ds_model d)) as [tip|]; [|done].
    destruct Htip as (_ & _ & ? & [= <-] & [Hlt| ->]); simpl.
    + by rewrite (proj2 (N.ltb_lt _ _)).
    + by rewrite bool_decide_eq_true_2, orb_true_r.
  - destruct (st_audit_tip (ds_model d)) as [tip|]; [|done]. by destruct Htip as (_ & _ & ? & ? & _).
Qed.

(** C40: a command the boundary rejected for its shape, at a sequence and under a
    hash that were already answered, is audited under its own operation code
    with the saved reply's outcome. At every reachable store, whenever that
    outcome is not one of the operation's results, the entry is applied, its row
    survives the retention of the trail, and the store it leaves fails the row
    rules: no load of what was committed succeeds, on any voter. *)
Theorem rejected_replay_unloadable d t log_id client operation resource row saved :
  reachable op_of_hash d t -> log_advances (st_last_applied (ds_model d)) log_id ->
  classify_client (ds_model d) client = Replay row saved ->
  from_option (λ allowed, outcome_code (sr_outcome saved) ∉ allowed) True (audit_results_for operation) ->
  exists replies d' t',
    apply_batch [(log_id, P_Normal (C_RejectedClient client operation resource))] d t = Ok (replies, d', t') /\
    check_audit_rows d' = false /\ validate_rows d' <> None /\
    forall loaded, load (meta_to_wire d') t' <> Ok loaded.
Proof.
  intros Hr Hadv Hc Hout. pose proof (reachable_guard d t log_id Hr Hadv) as Hg.
  pose proof (reachable_inv _ _ _ Hr) as [[Hinv _] ->].
  set (bad := mk_AuditRow (li_leader_node_id log_id) (Some (cr_actor client)) operation (sr_resource saved)
    (AR_Client (sr_outcome saved)) 0 0).
  set (tx := mk_Tx (ds_model d) ChangeSet_default).
  assert (exists replies d' t',
    apply_batch [(log_id, P_Normal (C_RejectedClient client operation resource))] d (tables_of (ds_model d))
      = Ok (replies, d', t') /\
    st_audit (ds_model d') = st_audit (tx_state (write_audit_row log_id bad tx))) as (replies & d' & t' & Happ & Ha).
  { unfold apply_batch. cbn [apply_entries apply_entry]. unfold apply_command_recording. cbn [wk_tx tx_state].
    rewrite Hg. cbn [dispatch]. unfold apply_rejected_client. cbn [tx_state]. rewrite Hc. cbn [clr_reply].
    eexists _, _, _. split; reflexivity. }
  exists replies, d', t'. split; [exact Happ|].
  pose proof (written_row_kept _ log_id bad tx (au_shape _ _ (inv_audit _ _ _ Hinv)) Hadv) as Hkept.
  rewrite <- Ha in Hkept.
  assert (audit_row_legal bad = false) as Hbad.
  { unfold audit_row_legal. simpl. destruct (audit_results_for operation) as [allowed|]; [|done]. simpl in Hout.
    by rewrite bool_decide_eq_false_2, andb_false_r by done. }
  destruct (illegal_audit_row d' _ _ Hkept Hbad) as [H1 H2]. split; [exact H1|]. split; [exact H2|].
  intros loaded. pose proof (commit_writes_every_change _ _ _ _ _ Happ) as ->. unfold load.
  repeat (destruct (negb _); [discriminate|]). set (back := mk_DurableState _ _).
  destruct (illegal_audit_row back _ _ Hkept Hbad) as [_ H3]. unfold validate_state.
  destruct (validate_meta back); [discriminate|]. destruct (validate_rows back); [discriminate|by destruct H3].
Qed.
End rejected_replay.

(** The holder's granted acquisition, answered at sequence 1; a rejected command
    of a grant at the same sequence and hash. *)
Lemma rejected_replay_unloadable_witness :
  match run_batch 4 with
  | Ok (_, d, t) => exists replies d' t',
      apply_batch [(at_index 5, P_Normal (C_RejectedClient (run_client sample_voter 1 Byte.x11) 7 None))] d t
        = Ok (replies, d', t') /\
      forall loaded, load (meta_to_wire d') t' <> Ok loaded
  | Err _ => False
  end.
Proof.
  assert (match run_batch 4 with
          | Ok (_, d, _) =>
              match classify_client (ds_model d) (run_client sample_voter 1 Byte.x11) with
              | Replay _ saved =>
                  bool_decide (from_option (λ allowed, outcome_code (sr_outcome saved) ∉ allowed) True (audit_results_for 7))
                  && bool_decide (st_last_applied (ds_model d) = Some (at_index 4))
              | _ => false
              end
          | Err _ => false
          end = true) as H by (vm_compute; reflexivity).
  destruct (run_batch 4) as [[[r d] t]|] eqn:E; [|discriminate H].
  destruct (classify_client (ds_model d) (run_client sample_voter 1 Byte.x11)) as [|row saved|] eqn:Hc;
    [discriminate H| |discriminate H].
  apply andb_true_iff in H as [Hout Hlast]. apply bool_decide_eq_true in Hout, Hlast.
  destruct (rejected_replay_unloadable run_op d t (at_index 5) (run_client sample_voter 1 Byte.x11) 7 None row saved
    (run_prefix_reachable 4 r d t ltac:(lia) E)) as (replies & d' & t' & Happ & _ & _ & Hload).
  - rewrite Hlast. intros l [= <-]. vm_compute. split; [reflexivity|discriminate].
  - exact Hc.
  - exact Hout.
  - exists replies, d', t'. split; [exact Happ|exact Hload].
Defined.

(** A progress report that only changes the phase is stored with whatever
    membership position it claims to have observed. A report naming a position
    past its own entry is applied, and the intent it leaves is refused by
    the next load. *)
Theorem future_observation_unloadable :
  exists d t replies,
    run_then 3 [C_Client (run_client sample_admin 2 Byte.x15) change_self;
                progress_report (Some (at_index 99))] = Ok (replies, d, t) /\
    validate_rows d = Some INV_stamped_log_ids.
Proof.
  set (extra := [_; _]).
  assert (match run_then 3 extra with
          | Ok (_, d, _) => validate_rows d | Err _ => None end = Some INV_stamped_log_ids) as H
    by (vm_compute; reflexivity).
  destruct (run_then 3 extra) as [[[r d] t]|e] eqn:E; [|done]. eauto 10.
Qed.
