(* ===== verification/Leases.v ===== *)
(** * Leases along a log

    The safety of a lease is that its fencing token works: epochs and revisions
    only grow, the holder is fixed while the epoch is, and a fence is accepted
    only from the holder at the exact epoch. The theorems carry this from one
    decision to every batch a store applies. *)

From S2P Require Import Prelude Reason Ids Contract Externals Limits State Tables Classify.
From S2P Require Import Ticket Authority Shape Genesis Resource Grant Retire.
From S2P Require Import Membership Apply Changes Durable Scenario Accounting Invariant.
From S2P Require Import AuditTrail Steps SessionTable MembershipTable RouteTable.
From S2P Require Import RouteTable Preservation Validation Refinement.

#[local] Open Scope N_scope.

(** ** Relations along a batch *)

(** Two states with the same tables, administrator revision, authority and audit
    floor. *)
Definition same_tables (s s' : State) : Prop :=
  tables_of s' = tables_of s /\ st_admin_revision s' = st_admin_revision s /\
  st_authority s' = st_authority s /\ st_audit_floor s' = st_audit_floor s.

Section along.
Context `{Ext : Externals}.
Context (op_of_hash : Hash -> Z).
Context (R : State -> State -> Prop) `{!PreOrder R}.
Context (Rsame : forall s s', same_tables s s' -> R s s').
Context (Rsteps : forall log_id tx tx', inv op_of_hash (st_last_applied (tx_state tx)) (tx_state tx) ->
  log_advances (st_last_applied (tx_state tx)) log_id ->
  command_steps op_of_hash log_id tx tx' -> R (tx_state tx) (tx_state tx')).

Lemma apply_entry_rel log_id p w reply w' :
  durable_inv op_of_hash (tx_state (wk_tx w)) (wk_membership w) ->
  (forall l, st_last_applied (tx_state (wk_tx w)) = Some l -> li_term l <= li_term log_id) ->
  payload_ok op_of_hash (st_deployment_profile_code (tx_state (wk_tx w))) log_id p ->
  apply_entry log_id p w = Ok (reply, w') -> R (tx_state (wk_tx w)) (tx_state (wk_tx w')).
Proof.
  intros [Hinv _] Hterm Hok H. unfold apply_entry in H. destruct p as [|m|c].
  - destruct (guard_delivery _ _); [|done]. injection H as <- <-. by apply Rsame.
  - destruct (guard_delivery _ _); [|done]. repeat (case_match; try discriminate H).
    injection H as <- <-. by apply Rsame.
  - unfold apply_command_recording in H. destruct (guard_delivery _ _) as [[]|] eqn:Hg; [|done].
    destruct (dispatch log_id c (wk_tx w)) as [[r|] tx1] eqn:Hd; [|done]. injection H as <- <-.
    trans (tx_state tx1); [|by apply Rsame]. apply (Rsteps log_id); [done|by apply guard_advances|].
    eapply dispatch_steps; eauto; apply Hinv.
Qed.

Lemma apply_entries_rel entries w replies w' :
  durable_inv op_of_hash (tx_state (wk_tx w)) (wk_membership w) ->
  log_wf op_of_hash (st_deployment_profile_code (tx_state (wk_tx w)))
    (st_last_applied (tx_state (wk_tx w))) entries ->
  apply_entries entries w = Ok (replies, w') -> R (tx_state (wk_tx w)) (tx_state (wk_tx w')).
Proof.
  revert w replies. induction entries as [|[id p] rest IH]; intros w replies Hd Hw; cbn [apply_entries].
  - by intros [= <- <-].
  - destruct Hw as (Ht & Hok & Hrest).
    destruct (apply_entry id p w) as [[r w1]|] eqn:He; [|done].
    destruct (apply_entry_inv _ _ _ _ _ _ Hd Ht Hok He) as (Hd1 & Hl & Hp).
    destruct (apply_entries rest w1) as [[rs w2]|] eqn:Hr; [|done]. intros [= <- <-].
    trans (tx_state (wk_tx w1)); [by eapply apply_entry_rel|].
    eapply IH; [done|by rewrite Hl, Hp|done].
Qed.

Lemma apply_batch_rel d t entries replies d' t' :
  reachable op_of_hash d t ->
  log_wf op_of_hash (st_deployment_profile_code (ds_model d)) (st_last_applied (ds_model d)) entries ->
  apply_batch entries d t = Ok (replies, d', t') -> R (ds_model d) (ds_model d').
Proof.
  intros [Hd _]%reachable_inv Hw Happ. unfold apply_batch in Happ. set (w := mk_Working _ _) in *.
  destruct (apply_entries entries w) as [[rs w']|] eqn:He; [|done]. injection Happ as <- <- <-.
  by apply (apply_entries_rel entries w rs w').
Qed.
End along.

(** ** Rows only advance *)

(** Every resource row is kept and advances. *)
Definition rows_advance (s s' : State) : Prop :=
  forall key row, st_resources s !! key = Some row ->
    exists row', st_resources s' !! key = Some row' /\ row_advance row row'.

#[export] Instance rows_advance_preorder : PreOrder rows_advance.
Proof.
  split.
  - intros s key row Hrow. exists row. split; [done|reflexivity].
  - intros a b c H1 H2 key row Hrow. destruct (H1 _ _ Hrow) as (r1 & Hr1 & Ha1).
    destruct (H2 _ _ Hr1) as (r2 & Hr2 & Ha2). exists r2. split; [done|by etrans].
Qed.

Lemma rows_advance_same s s' : st_resources s' = st_resources s -> rows_advance s s'.
Proof. intros Heq key row Hrow. rewrite Heq. exists row. split; [done|reflexivity]. Qed.

Lemma rows_advance_insert s s' k row' :
  st_resources s' = <[k:=row']> (st_resources s) ->
  row_advance (default ResourceRow_default (st_resources s !! k)) row' -> rows_advance s s'.
Proof.
  intros Heq Hadv key row Hrow. rewrite Heq. destruct (decide (k = key)) as [->|Hne].
  - rewrite lookup_insert_eq. rewrite Hrow in Hadv. eauto.
  - rewrite lookup_insert_ne by done. exists row. split; [done|reflexivity].
Qed.

Section leases.
Context `{Ext : Externals}.

Lemma business_rows_advance log_id tx tx' :
  resources_ok (tx_state tx) -> business log_id tx tx' -> rows_advance (tx_state tx) (tx_state tx').
Proof.
  intros Hok Hb.
  destruct Hb as [|? ? e Hd|? ? e Hd|? ? e Hd|? ? ? e Hd|? ? e Hd|c e Hd Hobs|c row Hd|? g st Hv H0];
    [reflexivity|..].
  - eapply rows_advance_insert; [reflexivity|]. by apply (resource_decide_row _ _ _ _ Hd), row_default_ok.
  - pose proof (grant_decide_accepted _ _ _ _ Hd) as Ha.
    eapply rows_advance_insert; [apply write_grant_tables|]. rewrite (gac_row _ _ _ _ Ha).
    eapply grant_row_ok; [by apply row_default_ok|..]; apply Ha.
  - apply rows_advance_same, write_admin_tables.
  - apply rows_advance_same, (mo_resources _ _ (write_intent_frame log_id e tx)).
  - apply rows_advance_same, (mo_resources _ _ (write_intent_frame log_id e tx)).
  - apply rows_advance_same, (mo_resources _ _ (write_intent_frame log_id e tx)).
  - destruct (expire_row_ok _ _ _ Hd) as (old & Hold & _ & Hrow).
    eapply rows_advance_insert; [reflexivity|]. rewrite Hold. apply Hrow. by apply (rs_row _ Hok _ _ Hold).
  - apply rows_advance_same, install_admins_tables.
Qed.

Lemma command_rows_advance op_of_hash log_id tx tx' :
  resources_ok (tx_state tx) -> command_steps op_of_hash log_id tx tx' ->
  rows_advance (tx_state tx) (tx_state tx').
Proof.
  intros Hok (tx1 & tx2 & row & -> & Hb & Hs & _).
  trans (tx_state tx1); [by eapply business_rows_advance|]. apply rows_advance_same.
  rewrite (ao_resources _ _ (write_audit_row_frame log_id row tx2)).
  by destruct (session_step_frame _ _ _ _ Hs) as [[] _].
Qed.

Lemma batch_rows_advance op_of_hash d t entries replies d' t' :
  reachable op_of_hash d t ->
  log_wf op_of_hash (st_deployment_profile_code (ds_model d)) (st_last_applied (ds_model d)) entries ->
  apply_batch entries d t = Ok (replies, d', t') -> rows_advance (ds_model d) (ds_model d').
Proof.
  apply (apply_batch_rel op_of_hash rows_advance).
  - intros s s' [Heq _]. apply rows_advance_same. by injection Heq.
  - intros log_id tx tx' Hinv _. apply command_rows_advance. apply Hinv.
Qed.

(** C10: along any batch a store applies, every resource row stays, its epoch and
    its lease, value and ACL revisions never decrease, and as long as the epoch
    is unchanged the lease is: two observations of one epoch see one holder. *)
Theorem epoch_fixes_the_holder op_of_hash d t entries replies d' t' key row :
  reachable op_of_hash d t ->
  log_wf op_of_hash (st_deployment_profile_code (ds_model d)) (st_last_applied (ds_model d)) entries ->
  apply_batch entries d t = Ok (replies, d', t') ->
  st_resources (ds_model d) !! key = Some row ->
  exists row', st_resources (ds_model d') !! key = Some row' /\
    rr_epoch row <= rr_epoch row' /\ rr_lease_revision row <= rr_lease_revision row' /\
    rr_value_revision row <= rr_value_revision row' /\ rr_acl_revision row <= rr_acl_revision row' /\
    (rr_epoch row' = rr_epoch row -> rr_held row' = rr_held row /\ rr_holder row' = rr_holder row).
Proof.
  intros Hreach Hw Happ Hrow.
  destruct (batch_rows_advance _ _ _ _ _ _ _ Hreach Hw Happ _ _ Hrow) as (row' & Hrow' & []).
  exists row'. done.
Qed.

Lemma fenced_resource a f : action_fence a = Some f -> raw_resource a = fe_resource f.
Proof. by destruct a; simpl; intros [= <-]. Qed.

(** C7: a fence that has gone stale stays dead: once a resource's epoch has passed
    the fence's, no later state of the store accepts a renewal, a write or a
    release under that fence, from anyone. *)
Theorem stale_fence_never_accepted op_of_hash d t entries replies d' t' key row f actor a e :
  reachable op_of_hash d t ->
  log_wf op_of_hash (st_deployment_profile_code (ds_model d)) (st_last_applied (ds_model d)) entries ->
  apply_batch entries d t = Ok (replies, d', t') ->
  validate (fe_resource f) = Ok key -> st_resources (ds_model d) !! key = Some row ->
  fe_epoch f < rr_epoch row -> action_fence a = Some f ->
  resource_decide (ds_model d') actor a <> RD_Apply e.
Proof.
  intros Hreach Hw Happ Hkey Hrow Hlt Hf Hd%resource_decide_accepted.
  destruct (batch_rows_advance _ _ _ _ _ _ _ Hreach Hw Happ _ _ Hrow) as (row' & Hrow' & [He _ _ _ _]).
  destruct (rac_fence _ _ _ _ Hd f Hf) as (_ & r & Hr & _ & _ & _ & Heq).
  pose proof (rac_key _ _ _ _ Hd) as Hk. rewrite (fenced_resource _ _ Hf), Hkey in Hk.
  injection Hk as Hk. rewrite <- Hk, Hrow' in Hr. injection Hr as <-. lia.
Qed.
End leases.

#[local] Instance leases_run : Externals := founding_externals.

Lemma epoch_fixes_the_holder_witness :
  match run_batch 4 with
  | Ok (_, d, t) =>
      match apply_batch (run_rest 4) d t with
      | Ok (_, d', _) => exists row row', st_resources (ds_model d) !! run_key = Some row /\
          st_resources (ds_model d') !! run_key = Some row' /\ rr_epoch row <= rr_epoch row'
      | Err _ => False
      end
  | Err _ => False
  end.
Proof.
  assert (match run_resume 4 with Ok _ => True | Err _ => False end) as Hok by (vm_compute; exact I).
  assert (st_resources (run_state 4) !! run_key =
    Some (mk_ResourceRow 1 true (Some sample_voter) 5000 1 0 [] 1)) as Hrow by (vm_compute; reflexivity).
  unfold run_state in Hrow. unfold run_resume in Hok.
  destruct (run_batch 4) as [[[r d] t]|] eqn:E; [|exact Hok].
  destruct (apply_batch (run_rest 4) d t) as [[[r' d'] t']|] eqn:E'; [|exact Hok].
  destruct (epoch_fixes_the_holder run_op d t (run_rest 4) r' d' t' run_key _
    (run_prefix_reachable 4 r d t ltac:(lia) E) (run_rest_wf r d t E) E' Hrow) as (row' & H1 & H2 & _).
  eexists _, row'. exact (conj Hrow (conj H1 H2)).
Defined.

Lemma stale_fence_never_accepted_witness :
  match run_batch 4 with
  | Ok (_, d, t) =>
      match apply_batch (run_rest 4) d t with
      | Ok (_, d', _) => forall actor e,
          resource_decide (ds_model d') actor (Release (run_fence 0)) <> RD_Apply e
      | Err _ => False
      end
  | Err _ => False
  end.
Proof.
  assert (match run_resume 4 with Ok _ => True | Err _ => False end) as Hok by (vm_compute; exact I).
  assert (st_resources (run_state 4) !! run_key =
    Some (mk_ResourceRow 1 true (Some sample_voter) 5000 1 0 [] 1)) as Hrow by (vm_compute; reflexivity).
  unfold run_state in Hrow. unfold run_resume in Hok.
  destruct (run_batch 4) as [[[r d] t]|] eqn:E; [|exact Hok].
  destruct (apply_batch (run_rest 4) d t) as [[[r' d'] t']|] eqn:E'; [|exact Hok]. intros actor e.
  apply (stale_fence_never_accepted run_op d t (run_rest 4) r' d' t' run_key _ (run_fence 0) actor
    (Release (run_fence 0)) e
    (run_prefix_reachable 4 r d t ltac:(lia) E) (run_rest_wf r d t E) E' eq_refl Hrow
    eq_refl eq_refl).
Defined.

(** ** Exact acceptance *)

(** [acquire] grants a lease exactly when the key is valid and the TTL legal,
    the caller holds the acquire right, nobody holds the lease, a new row has a
    slot and fits the budget, and neither counter is exhausted; the lease it
    grants is the caller's, under the next epoch. *)
Theorem acquire_exact st actor raw ttl e :
  resource_decide st actor (Acquire raw ttl) = RD_Apply e <->
  exists key, validate raw = Ok key /\ check_ttl ttl = None /\
    N.land (granted_rights st key actor) RIGHT_ACQUIRE = RIGHT_ACQUIRE /\
    let row := default ResourceRow_default (st_resources st !! key) in
    rr_held row = false /\
    (st_resources st !! key = None ->
       N.of_nat (size (st_resources st)) < MAX_RESOURCES_PER_GROUP /\
       resource_growth_fits st key None 0 = true) /\
    rr_epoch row < MAX_COUNTER /\ rr_lease_revision row < MAX_COUNTER /\
    e = mk_ResourceEffect key
          (mk_ResourceRow (rr_epoch row + 1) true (Some actor) ttl (rr_lease_revision row + 1)
             (rr_value_revision row) (rr_value row) (rr_acl_revision row))
          O_Granted (bool_decide (st_resources st !! key = None)).
Proof.
  unfold resource_decide, decide_acquire, check_shape. simpl. split.
  - intros H. destruct (validate raw) as [key|]; [|done]. exists key.
    destruct (check_ttl ttl); [done|]. destruct (negb (_ =? _)) eqn:Hr; [done|]. simpl in H.
    destruct (rr_held _) eqn:Hh; [done|].
    destruct (_ && (MAX_RESOURCES_PER_GROUP <=? _)) eqn:H1; [done|].
    destruct (_ && negb (resource_growth_fits _ _ _ _)) eqn:H2; [done|].
    destruct (negb (_ && _)) eqn:H3; [done|]. boolean_facts. injection H as <-.
    rewrite !counter_step by done. split_and!; try done.
    intros Hn. rewrite bool_decide_eq_true_2 in H1, H2 by done. simpl in H1, H2. by boolean_facts.
  - intros (key & -> & Ht & Hr & Hh & Hn & He & Hl & ->). rewrite Ht, Hr. rewrite N.eqb_refl. simpl.
    rewrite Hh, (proj2 (N.ltb_lt _ _) He), (proj2 (N.ltb_lt _ _) Hl), !counter_step by done. simpl.
    destruct (st_resources st !! key) as [r|]; simpl; [done|].
    destruct (Hn eq_refl) as [H1 H2]. by rewrite (proj2 (N.leb_gt _ _) H1), H2.
Qed.

(** [compare_and_set] writes exactly when the value is within bounds, the caller
    holds the mutate right, the fence names this group, this holder and this
    epoch, the caller is that holder of a held lease, the value revision is the
    expected one, the new value fits the budget and the revision is not
    exhausted; it changes the value and its revision and nothing else. *)
Theorem compare_and_set_exact st actor f expected value e :
  resource_decide st actor (CompareAndSet f expected value) = RD_Apply e <->
  exists key row, validate (fe_resource f) = Ok key /\ check_value value = None /\
    N.land (granted_rights st key actor) RIGHT_MUTATE = RIGHT_MUTATE /\
    fe_group f = ga_group_id (st_authority st) /\ fe_holder f = actor /\
    st_resources st !! key = Some row /\ rr_held row = true /\ rr_holder row = Some actor /\
    rr_epoch row = fe_epoch f /\ rr_value_revision row = expected /\
    resource_growth_fits st key (Some (len (rr_value row))) (len value) = true /\
    expected < MAX_COUNTER /\
    e = mk_ResourceEffect key
          (mk_ResourceRow (rr_epoch row) true (Some actor) (rr_ttl_ms row) (rr_lease_revision row)
             (expected + 1) value (rr_acl_revision row)) O_Mutated false.
Proof.
  unfold resource_decide, decide_compare_and_set, check_shape. simpl. split.
  - intros H. destruct (validate _) as [key|]; [|done]. exists key.
    destruct (check_value value); [done|]. destruct (negb (_ =? _)) eqn:Hr; [done|].
    destruct (negb (bool_decide (fe_group f = _))) eqn:Hg; [done|].
    destruct (st_resources st !! key) as [row|]; [|done]. exists row.
    destruct (check_fence actor row f) eqn:Hf; [done|]. apply check_fence_None in Hf as (Hh & Ho & Hfh & He).
    destruct (negb (rr_value_revision row =? _)) eqn:Hv; [done|].
    destruct (negb (resource_growth_fits _ _ _ _)) eqn:Hb; [done|].
    destruct (negb (_ && true)) eqn:Hc; [done|]. boolean_facts. injection H as <-. subst expected.
    rewrite counter_step by done. rewrite Hh, Ho. split_and!; done.
  - intros (key & row & -> & -> & Hr & Hg & Hfh & Hrow & Hh & Ho & He & <- & Hb & Hlt & ->).
    rewrite Hr, N.eqb_refl, bool_decide_eq_true_2, Hrow by done. simpl.
    unfold check_fence. rewrite Hh, Ho, He, N.eqb_refl, !bool_decide_eq_true_2 by done. simpl.
    by rewrite N.eqb_refl, Hb, (proj2 (N.ltb_lt _ _) Hlt), counter_step by done.
Qed.
