(* ===== verification/AccessControl.v ===== *)
(** * Who may change what

    Grants, administrators, membership and resources under the rights of the
    caller: the decisions are the only way in, so a caller without the right
    leaves the table alone whatever it sends. *)

From S2P Require Import Prelude Reason Ids Contract Externals Limits State Tables Classify.
From S2P Require Import Ticket Authority Shape Genesis Resource Grant Retire.
From S2P Require Import Membership Apply Changes Durable Scenario Accounting Invariant.
From S2P Require Import AuditTrail Steps SessionTable MembershipTable RouteTable.
From S2P Require Import RouteTable Preservation Validation Refinement.

#[local] Open Scope N_scope.

(** ** Losing a right *)

Lemma loses_sustaining_right_bits before after :
  loses_sustaining_right before after = true <->
  exists i, N.testbit LEASE_SUSTAINING_RIGHTS i = true /\ N.testbit before i = true /\
    N.testbit after i = false.
Proof.
  unfold loses_sustaining_right. rewrite negb_true_iff, N.eqb_neq. split.
  - intros Hne. pose proof (N.bit_log2 _ Hne) as Hb. eexists.
    rewrite N.ldiff_spec, N.land_spec in Hb.
    apply andb_true_iff in Hb as [[? ?]%andb_true_iff ?%negb_true_iff]. done.
  - intros (i & Hs & Hb & Ha) H0. pose proof (N.bits_0 i) as Hz. rewrite <- H0 in Hz.
    rewrite N.ldiff_spec, N.land_spec, Hs, Hb, Ha in Hz. done.
Qed.

Lemma grant_fences_iff row rights subject new :
  grant_fences row rights subject new = true <->
  exists r before i, row = Some r /\ rights = Some before /\ rr_held r = true /\
    rr_holder r = Some subject /\ N.testbit LEASE_SUSTAINING_RIGHTS i = true /\
    N.testbit before i = true /\ N.testbit new i = false.
Proof.
  unfold grant_fences. split.
  - destruct row as [r|]; [|done]. simpl. rewrite !andb_true_iff, bool_decide_eq_true.
    intros [[Hh Ho] Hl]. destruct rights as [before|]; [|done]. simpl in Hl.
    apply loses_sustaining_right_bits in Hl as (i & ? & ? & ?). by exists r, before, i.
  - intros (r & before & i & -> & -> & Hh & Ho & Hs & Hb & Ha). simpl.
    rewrite Hh, bool_decide_eq_true_2 by done. simpl. apply loses_sustaining_right_bits. eauto.
Qed.

#[local] Arguments grant_fences : simpl never.
#[local] Arguments N.testbit : simpl never.
#[local] Arguments LEASE_SUSTAINING_RIGHTS : simpl never.

Section access.
Context `{Ext : Externals}.

(** An accepted grant changes one ACL row to the requested mask (or removes
    it), advances the resource's ACL revision by one, keeps its value, and
    clears the lease under a new epoch exactly when the subject holds it and
    loses one of the renew, mutate or release rights; in every other case the
    lease is untouched. *)
Theorem grant_fences_the_holder_it_disarms st actor a e c :
  grant_decide st actor a = GD_Apply e ->
  let st' := tx_state (write_grant e (mk_Tx st c)) in
  let key := gre_key e in
  let old := default ResourceRow_default (st_resources st !! key) in
  is_administrator st actor = true /\
  st_acl st' = (if gra_rights a =? 0 then delete (key, gra_subject a) (st_acl st)
                else <[(key, gra_subject a) := gra_rights a]> (st_acl st)) /\
  exists row, st_resources st' = <[key := row]> (st_resources st) /\
    rr_acl_revision row = gra_expected_acl_revision a + 1 /\ rr_value row = rr_value old /\
    rr_value_revision row = rr_value_revision old /\
    ((exists i, rr_held old = true /\ rr_holder old = Some (gra_subject a) /\
        N.testbit LEASE_SUSTAINING_RIGHTS i = true /\
        N.testbit (granted_rights st key (gra_subject a)) i = true /\
        N.testbit (gra_rights a) i = false) ->
     rr_held row = false /\ rr_holder row = None /\ rr_epoch row = rr_epoch old + 1 /\
     rr_lease_revision row = rr_lease_revision old + 1) /\
    (~ (exists i, rr_held old = true /\ rr_holder old = Some (gra_subject a) /\
        N.testbit LEASE_SUSTAINING_RIGHTS i = true /\
        N.testbit (granted_rights st key (gra_subject a)) i = true /\
        N.testbit (gra_rights a) i = false) ->
     rr_held row = rr_held old /\ rr_holder row = rr_holder old /\ rr_epoch row = rr_epoch old /\
     rr_lease_revision row = rr_lease_revision old).
Proof.
  intros Ha%grant_decide_accepted. destruct (write_grant_tables e (mk_Tx st c)) as (Hres & Hacl & _).
  destruct Ha. rewrite gac_rights, gac_subject in *. simpl in *. split_and!; [done| |].
  { rewrite Hacl. by destruct (gra_rights a =? 0). }
  exists (gre_row e). split; [exact Hres|]. rewrite gac_row. cbn [grant_row rr_acl_revision rr_value
    rr_value_revision rr_held rr_holder rr_epoch rr_lease_revision].
  unfold grant_counters in gac_counters. apply Forall_cons_iff in gac_counters as [Hc Hcs].
  rewrite gac_revision, counter_step by done. split_and!; [done|done|done|..].
  - intros (i & Hh & Ho & Hs & Hb & Hn).
    destruct (st_resources st !! gre_key e) as [row|] eqn:Hrow; [|done]. simpl in *.
    unfold granted_rights in Hb. destruct (st_acl st !! _) as [before|] eqn:Hbef; [|by rewrite N.bits_0 in Hb].
    assert (gre_fenced e = true) as Hf by (rewrite gac_fenced; apply grant_fences_iff; by exists row, before, i).
    rewrite Hf in *. simpl in Hcs. apply Forall_cons_iff in Hcs as [H1 Hcs].
    apply Forall_cons_iff in Hcs as [H2 _]. by rewrite !counter_step.
  - intros Hnot. destruct (gre_fenced e) eqn:Hf; [|done]. exfalso. apply Hnot. symmetry in gac_fenced.
    apply grant_fences_iff in gac_fenced as (r & before & i & Hr & Hbef & ? & ? & ? & ? & ?).
    exists i. unfold granted_rights. rewrite Hr, Hbef. done.
Qed.

(** ** Client commands *)

(** The tables an administrator's decisions write. *)
Record authority_same (s s' : State) : Prop := {
  aus_acl : st_acl s' = st_acl s;
  aus_admins : st_admins s' = st_admins s;
  aus_admin_revision : st_admin_revision s' = st_admin_revision s;
  aus_intents : st_intents s' = st_intents s;
  aus_routes : st_routes s' = st_routes s;
}.

Lemma session_audit_business log_id row client reply tx :
  same_business (tx_state tx) (tx_state (write_audit_row log_id row (write_session client reply tx))).
Proof. by destruct (write_audit_row_frame log_id row (write_session client reply tx)). Qed.

(** The state of a client command but for its session and audit rows. *)
Lemma apply_client_business log_id client action tx :
  same_business (tx_state tx) (tx_state (apply_client log_id client action tx).2) \/
  same_business (tx_state (apply_decided log_id client action tx).2)
    (tx_state (apply_client log_id client action tx).2).
Proof.
  unfold apply_client, write_audit. destruct (classify_client _ _) as [row creates|row saved|row reason].
  - right. destruct (apply_decided _ _ _ _) as [r tx1]. simpl.
    apply session_audit_business.
  - left. apply audit_only_business, write_audit_row_frame.
  - left. apply audit_only_business, write_audit_row_frame.
Qed.

(** What a decision writes when the caller is no administrator: at most the one
    resource row its rights cover. *)
Lemma apply_decided_unprivileged log_id client action tx :
  is_administrator (tx_state tx) (cr_actor client) = false ->
  let s := tx_state tx in let s' := tx_state (apply_decided log_id client action tx).2 in
  authority_same s s' /\
  forall key, st_resources s' !! key <> st_resources s !! key ->
    exists a, action = A_Resource a /\ validate (raw_resource a) = Ok key /\
      N.land (granted_rights s key (cr_actor client)) (required_rights a) = required_rights a.
Proof.
  intros Hadm s s'. unfold s', apply_decided, action_decide.
  destruct action as [a|a|a|a|a].
  - destruct (resource_decide _ _ a) as [e|r|l] eqn:Hd; simpl; [|done|done]. split; [by split|].
    intros key Hne. apply resource_decide_accepted in Hd. exists a.
    destruct (decide (re_key e = key)) as [<-|Hk]; [split_and!; [done|apply Hd|apply Hd]|].
    by rewrite lookup_insert_ne in Hne.
  - destruct (grant_decide _ _ a) as [e|n|r|l] eqn:Hd; simpl; [|done..].
    apply grant_decide_accepted in Hd. by rewrite (gac_admin _ _ _ _ Hd) in Hadm.
  - destruct (admin_decide _ _ a) as [e|n|r] eqn:Hd; simpl; [|done..].
    apply admin_decide_accepted in Hd. by rewrite (adc_admin _ _ _ _ Hd) in Hadm.
  - unfold decide_change. by rewrite Hadm.
  - unfold decide_cancel. by rewrite Hadm.
Qed.

(** C22: whatever command a client that is not an administrator commits, it leaves
    the grants, the administrators with their revision, the membership intents
    and the routes as they were, and changes no resource but one on which it was
    granted every right the action requires. *)
Theorem unprivileged_client_confined log_id client action tx :
  is_administrator (tx_state tx) (cr_actor client) = false ->
  let s := tx_state tx in let s' := tx_state (apply_client log_id client action tx).2 in
  authority_same s s' /\
  forall key, st_resources s' !! key <> st_resources s !! key ->
    exists a, action = A_Resource a /\ validate (raw_resource a) = Ok key /\
      N.land (granted_rights s key (cr_actor client)) (required_rights a) = required_rights a.
Proof.
  intros Hadm. pose proof (apply_decided_unprivileged log_id client action tx Hadm) as [Ha Hr]. cbv zeta.
  destruct (apply_client_business log_id client action tx) as [Hb|Hb].
  - destruct Hb as [Hb1 Hb2 Hb3 Hb4 Hb5 Hb6]. split; [by split|]. intros key Hne. by rewrite Hb1 in Hne.
  - destruct Ha, Hb as [Hb1 Hb2 Hb3 Hb4 Hb5 Hb6]. split; [split; congruence|]. intros key. rewrite Hb1. apply Hr.
Qed.
End access.

#[local] Instance access_run : Externals := founding_externals.

(** Taking the holder's rights away: the subject holds the lease at entry 4. *)
Definition disarm : GrantAction := mk_GrantAction run_raw_key sample_voter 0 1.

Lemma grant_fences_the_holder_it_disarms_witness :
  match grant_decide (run_state 4) sample_admin disarm with
  | GD_Apply e =>
      st_acl (tx_state (write_grant e (mk_Tx (run_state 4) ChangeSet_default))) =
        delete (gre_key e, sample_voter) (st_acl (run_state 4))
  | _ => False
  end.
Proof.
  assert (match grant_decide (run_state 4) sample_admin disarm with GD_Apply _ => True | _ => False end)
    as Hok by (vm_compute; exact I).
  destruct (grant_decide (run_state 4) sample_admin disarm) as [e|n|r|l] eqn:E; [|exact Hok..].
  exact (proj1 (proj2 (grant_fences_the_holder_it_disarms (run_state 4) sample_admin disarm e
    ChangeSet_default E))).
Defined.

Lemma unprivileged_client_confined_witness :
  st_admins (tx_state (apply_client (at_index 5) (run_client sample_voter 2 Byte.x12) set_value
    (mk_Tx (run_state 5) ChangeSet_default)).2) = st_admins (run_state 5).
Proof.
  assert (is_administrator (run_state 5) sample_voter = false) as Hadm by (vm_compute; reflexivity).
  exact (aus_admins _ _ (proj1 (unprivileged_client_confined (at_index 5)
    (run_client sample_voter 2 Byte.x12) set_value (mk_Tx (run_state 5) ChangeSet_default) Hadm))).
Defined.
