(* ===== verification/Sessions.v ===== *)
(** * Exactly-once client commands

    A client numbers its commands; the session row keeps the last number, its
    request hash and the reply. The theorems state what a client may rely on:
    a duplicate is answered from the row and changes nothing, numbers are
    consumed one by one, a retired client stays inert, and what a leader
    answers before proposing is what the committed command would answer. *)

From S2P Require Import Prelude Reason Ids Contract Externals Limits State Tables Classify.
From S2P Require Import Ticket Authority Shape Genesis Resource Grant Retire.
From S2P Require Import Membership Apply Changes Durable Scenario Accounting Invariant.
From S2P Require Import AuditTrail Steps SessionTable MembershipTable RouteTable.
From S2P Require Import RouteTable Preservation Validation Refinement Leases AccessControl.

#[local] Open Scope N_scope.

(** The last consumed number of a client; none is 0. *)
Definition last_sequence (st : State) (key : SessionKey) : N :=
  from_option se_last_sequence 0 (st_sessions st !! key).

(** Nothing but the audit trail and its counters moved. *)
Record only_audited (s s' : State) : Prop := {
  oa_business : same_business s s';
  oa_sessions : st_sessions s' = st_sessions s;
}.

Lemma write_audit_row_only log_id row tx :
  only_audited (tx_state tx) (tx_state (write_audit_row log_id row tx)).
Proof.
  pose proof (write_audit_row_frame log_id row tx) as H. split; [by apply audit_only_business|by destruct H].
Qed.

Section sessions.
Context `{Ext : Externals}.

(** A decision leaves the sessions alone; only the caller's row is written. *)
Lemma apply_decided_sessions log_id client action tx :
  st_sessions (tx_state (apply_decided log_id client action tx).2) = st_sessions (tx_state tx).
Proof.
  unfold apply_decided.
  destruct (action_decide _ _ _ _) as [[e|r|l]|[e|n|r|l]|[e|n|r]|[e|n|r|l]]; simpl; try done.
  - unfold write_grant, remove_grant. by repeat case_match; simplify_eq/=.
  - unfold write_admin, put_admin, remove_admin. by repeat case_match; simplify_eq/=.
  - apply (mo_sessions _ _ (write_intent_frame log_id e tx)).
Qed.

(** The reply of a decision is consumed, and fresh. *)
Lemma apply_decided_reply log_id client action tx :
  clr_disposition (apply_decided log_id client action tx).1 = Consumed /\
  clr_replayed (apply_decided log_id client action tx).1 = false.
Proof.
  unfold apply_decided.
  by destruct (action_decide _ _ _ _) as [[e|r|l]|[e|n|r|l]|[e|n|r]|[e|n|r|l]].
Qed.

(** The three ways a client command ends. *)
Lemma apply_client_fresh log_id client action tx row creates :
  classify_client (tx_state tx) client = Unresolved row creates ->
  (apply_client log_id client action tx).1 = (apply_decided log_id client action tx).1 /\
  st_sessions (tx_state (apply_client log_id client action tx).2) =
    <[client_key client := mk_Session (cr_sequence client) (cr_request_hash client)
        (Some (clr_reply (apply_client log_id client action tx).1)) false]> (st_sessions (tx_state tx)).
Proof.
  intros Hc. unfold apply_client, write_audit. rewrite Hc.
  pose proof (apply_decided_sessions log_id client action tx) as Hs.
  destruct (apply_decided _ _ _ _) as [r tx1]. simpl in *. split; [done|].
  rewrite (oa_sessions _ _ (write_audit_row_only log_id _ _)). simpl. rewrite Hs. do 2 f_equal.
  apply classify_unresolved_iff in Hc as [(_ & _ & x & Hx & Hr & _)|(_ & _ & Hx & _)];
    by rewrite Hx.
Qed.

Lemma apply_client_replay log_id client action tx row saved :
  classify_client (tx_state tx) client = Replay row saved ->
  (apply_client log_id client action tx).1 = mk_ClientResult Consumed saved true /\
  only_audited (tx_state tx) (tx_state (apply_client log_id client action tx).2).
Proof.
  intros Hc. unfold apply_client, write_audit. rewrite Hc. split; [done|apply write_audit_row_only].
Qed.

Lemma apply_client_refuse log_id client action tx row reason :
  classify_client (tx_state tx) client = Refuse row reason ->
  (apply_client log_id client action tx).1 =
    mk_ClientResult NotConsumed (rejection (tx_state tx) (validated_resource action) reason) false /\
  only_audited (tx_state tx) (tx_state (apply_client log_id client action tx).2).
Proof.
  intros Hc. unfold apply_client, write_audit. rewrite Hc. split; [done|apply write_audit_row_only].
Qed.

Lemma unresolved_sequence st client row creates :
  classify_client st client = Unresolved row creates ->
  cr_sequence client = last_sequence st (client_key client) + 1.
Proof.
  unfold last_sequence.
  intros [(_ & _ & x & -> & _ & -> & _)|(_ & _ & -> & -> & _)]%classify_unresolved_iff; done.
Qed.

(** C6: a duplicate is answered once and for all: after a client command was
    consumed, any later command of that client with the same number and request
    hash, met while the client's row is still the one written then, gets the
    very reply of the first one back, marked as a replay, and moves nothing but
    the audit trail, whatever action it carries. *)
Theorem duplicate_gets_the_first_reply log1 log2 client action action2 tx tx2 :
  (exists row creates, classify_client (tx_state tx) client = Unresolved row creates) ->
  let first := apply_client log1 client action tx in
  st_sessions (tx_state tx2) !! client_key client = st_sessions (tx_state first.2) !! client_key client ->
  let again := apply_client log2 client action2 tx2 in
  again.1 = mk_ClientResult Consumed (clr_reply first.1) true /\
  only_audited (tx_state tx2) (tx_state again.2).
Proof.
  intros (row & creates & Hc) first Hrow again.
  destruct (apply_client_fresh log1 client action tx row creates Hc) as [_ Hs].
  unfold first in Hrow. rewrite Hs, lookup_insert_eq in Hrow.
  apply (apply_client_replay log2 client action2 tx2 RowReplay). unfold classify_client.
  apply classify_replay_iff. split_and!; [done| |eexists; split_and!; [exact Hrow|done|done|done]].
  rewrite (unresolved_sequence _ _ _ _ Hc). lia.
Qed.

(** The disposition says exactly what happened. A command that was not
    consumed, or was a replay, moved nothing but the audit trail; a refusal
    carries a reason that may go unconsumed. A command consumed afresh carried
    the number after the client's last one, and leaves a row with its number,
    its hash and its reply and no other session changed. *)
Theorem disposition_exact log_id client action tx :
  let res := (apply_client log_id client action tx).1 in
  let s := tx_state tx in let s' := tx_state (apply_client log_id client action tx).2 in
  match clr_disposition res with
  | NotConsumed => only_audited s s' /\ clr_replayed res = false /\
      sr_outcome (clr_reply res) = O_Rejected /\ may_be_not_consumed (sr_reason (clr_reply res)) = true
  | Consumed =>
      if clr_replayed res then
        only_audited s s' /\ exists row, st_sessions s !! client_key client = Some row /\
          se_last_sequence row = cr_sequence client /\ se_request_hash row = cr_request_hash client /\
          se_last_result row = Some (clr_reply res)
      else
        cr_sequence client = last_sequence s (client_key client) + 1 /\
        st_sessions s' = <[client_key client := mk_Session (cr_sequence client)
          (cr_request_hash client) (Some (clr_reply res)) false]> (st_sessions s)
  end.
Proof.
  destruct (classify_client (tx_state tx) client) as [row creates|row saved|row reason] eqn:Hc; cbv zeta.
  - destruct (apply_client_fresh log_id client action tx _ _ Hc) as [H1 H2].
    destruct (apply_decided_reply log_id client action tx) as [H3 H4].
    rewrite <- H1 in H3, H4. rewrite H3, H4. split; [by eapply unresolved_sequence|done].
  - destruct (apply_client_replay log_id client action tx _ _ Hc) as [-> H2]. simpl. split; [done|].
    apply classify_replay_iff in Hc as (_ & _ & x & Hx & -> & -> & Hr). eauto 10.
  - destruct (apply_client_refuse log_id client action tx _ _ Hc) as [-> H2]. simpl.
    split_and!; [done|done|done|by eapply classify_refuse_reason].
Qed.

(** A retired client is inert: whatever it commits under its retired row, no
    table but the audit trail moves, and the answer is either a replay of its
    last reply or an unconsumed rejection. *)
Theorem retired_client_inert log_id client action tx row :
  st_sessions (tx_state tx) !! client_key client = Some row -> se_retired row = true ->
  let out := apply_client log_id client action tx in
  only_audited (tx_state tx) (tx_state out.2) /\
  (clr_replayed out.1 = true /\ Some (clr_reply out.1) = se_last_result row \/
   clr_disposition out.1 = NotConsumed /\
   (sr_reason (clr_reply out.1) = R_ClientRetired \/ cr_sequence client = 0)).
Proof.
  intros Hrow Hret out. unfold out.
  pose proof (classify_retired row (cr_sequence client) (cr_request_hash client)
    (capacity_for (tx_state tx) (cr_actor client)) Hret) as H. rewrite <- Hrow in H.
  destruct H as [[saved Hc]|[Hc|Hc]].
  - destruct (apply_client_replay log_id client action tx _ _ Hc) as [-> Ho]. split; [done|left].
    apply classify_replay_iff in Hc as (_ & _ & x & Hx & _ & _ & Hr). rewrite Hrow in Hx.
    injection Hx as <-. done.
  - destruct (apply_client_refuse log_id client action tx _ _ Hc) as [-> Ho]. auto.
  - destruct (apply_client_refuse log_id client action tx _ _ Hc) as [-> Ho]. split; [done|right].
    split; [done|right]. unfold classify, classify_unanswered in Hc.
    repeat case_match; boolean_facts; simplify_eq/=; done.
Qed.

(** The refusal a decision stands for, if it is one: [Some None] for one with no
    stable reason. *)
Definition refusal_of (d : ActionDecision) : option (option RefusalReason) :=
  match d with
  | DD_Resource (RD_Refuse r) | DD_Grant (GD_Refuse r) | DD_Admin (AD_Refuse r)
  | DD_Membership (MD_Refuse r) => Some (Some r)
  | DD_Resource (RD_RefuseShapeless _) | DD_Grant (GD_RefuseShapeless _)
  | DD_Membership (MD_RefuseShapeless _) => Some None
  | _ => None
  end.

Lemma apply_client_unresolved_business log_id client action tx row creates :
  classify_client (tx_state tx) client = Unresolved row creates ->
  same_business (tx_state (apply_decided log_id client action tx).2)
    (tx_state (apply_client log_id client action tx).2).
Proof.
  intros Hc. unfold apply_client, write_audit. rewrite Hc.
  destruct (apply_decided _ _ _ _) as [r tx1]. simpl. apply session_audit_business.
Qed.

(** A refused decision writes nothing and answers with its reason. *)
Lemma apply_decided_refused log_id client action tx reason :
  refusal_of (action_decide action (tx_state tx) (cr_actor client) (cr_request_hash client)) = Some reason ->
  apply_decided log_id client action tx =
    (mk_ClientResult Consumed (rejection (tx_state tx) (validated_resource action)
       (from_option refusal_get R_None reason)) false, tx).
Proof.
  unfold apply_decided.
  destruct (action_decide _ _ _ _) as [[e|r|l]|[e|n|r|l]|[e|n|r]|[e|n|r|l]]; simpl; by intros [= <-].
Qed.

(** Any other decision answers with a success. *)
Lemma apply_decided_succeeds log_id client action tx :
  refusal_of (action_decide action (tx_state tx) (cr_actor client) (cr_request_hash client)) = None ->
  sr_outcome (clr_reply (apply_decided log_id client action tx).1) <> O_Rejected.
Proof.
  unfold apply_decided. destruct action as [a|a|a|a|a]; simpl.
  - destruct (resource_decide _ _ _) as [e|r|l] eqn:Hd; simpl; [|done..].
    rewrite (rac_outcome _ _ _ _ (resource_decide_accepted _ _ _ _ Hd)). by destruct a.
  - by destruct (grant_decide _ _ _).
  - by destruct (admin_decide _ _ _).
  - destruct (decide_change _ _ _ _) as [e|n|r|l] eqn:Hd; simpl; [|done..].
    by rewrite (decide_change_outcome _ _ _ _ _ Hd).
  - destruct (decide_cancel _ _ _) as [e|n|r|l] eqn:Hd; simpl; [|done..].
    by rewrite (decide_cancel_outcome _ _ _ _ Hd).
Qed.

(** What preflight announces of a decision. *)
Lemma project_cases d :
  match project d with
  | Resolved _ => False
  | Deny r => refusal_of d = Some (Some r) /\ is_admission_denial (refusal_get r) = true
  | Status NotAuthorized => exists r, refusal_of d = Some (Some r) /\ refusal_get r = R_PermissionChanged
  | Status (SD_Shape _) => refusal_of d = Some None
  | Admit => refusal_of d = None \/ exists r, refusal_of d = Some (Some r) /\
      is_admission_denial (refusal_get r) = false /\ refusal_get r <> R_PermissionChanged
  end.
Proof.
  destruct d as [[e|r|l]|[e|n|r|l]|[e|n|r]|[e|n|r|l]]; simpl; try (by left); try done;
    (destruct (bool_decide _) eqn:Hp; boolean_facts; [by eauto|]);
    destruct (is_admission_denial _) eqn:Ha; eauto 10.
Qed.

(** C11: preflight tells the truth about the state it read: a resolved answer is
    the very result the committed command would get there; a denial or a status
    is a refusal the command would be saved with, changing no table but the
    session and audit rows; and an admitted command succeeds or is saved with a
    refusal that preflight never announces. *)
Theorem preflight_agrees_with_apply log_id client action tx :
  let s := tx_state tx in let out := apply_client log_id client action tx in
  match preflight s client action with
  | Resolved r => out.1 = r /\ only_audited s (tx_state out.2)
  | Deny reason => same_business s (tx_state out.2) /\ clr_disposition out.1 = Consumed /\
      clr_reply out.1 = rejection s (validated_resource action) (refusal_get reason) /\
      is_admission_denial (refusal_get reason) = true
  | Status NotAuthorized => same_business s (tx_state out.2) /\
      clr_reply out.1 = rejection s (validated_resource action) R_PermissionChanged
  | Status (SD_Shape _) => same_business s (tx_state out.2) /\ is_forced_shape_rejection out.1 = true
  | Admit => clr_disposition out.1 = Consumed /\ clr_replayed out.1 = false /\
      (sr_outcome (clr_reply out.1) <> O_Rejected \/
       exists reason, clr_reply out.1 = rejection s (validated_resource action) (refusal_get reason) /\
         is_admission_denial (refusal_get reason) = false /\ refusal_get reason <> R_PermissionChanged)
  end.
Proof.
  intros s out. unfold out, s, preflight.
  destruct (classify_client (tx_state tx) client) as [row creates|row saved|row reason] eqn:Hc.
  2:{ destruct (apply_client_replay log_id client action tx _ _ Hc) as [-> ?]. done. }
  2:{ destruct (apply_client_refuse log_id client action tx _ _ Hc) as [-> ?]. done. }
  destruct (apply_client_fresh log_id client action tx _ _ Hc) as [-> _].
  pose proof (apply_client_unresolved_business log_id client action tx _ _ Hc) as Hb.
  destruct (apply_decided_reply log_id client action tx) as [H3 H4].
  pose proof (apply_decided_refused log_id client action tx) as Hr.
  pose proof (apply_decided_succeeds log_id client action tx) as Hs.
  pose proof (project_cases
    (action_decide action (tx_state tx) (cr_actor client) (cr_request_hash client))) as Hp.
  destruct (project _) as [r|reason|[|l]|]; [done|..].
  - destruct Hp as [Hp ?]. by rewrite (Hr _ Hp) in *.
  - destruct Hp as (r & Hp & He). rewrite (Hr _ Hp) in *. simpl in *. by rewrite He in *.
  - by rewrite (Hr _ Hp) in *.
  - split_and!; [done|done|]. destruct Hp as [Hp|(r & Hp & ?)]; [left; by apply Hs|right].
    exists r. by rewrite (Hr _ Hp).
Qed.
End sessions.

(** ** Session rows along a log *)

(** A row's number never falls, at one number the row's hash and reply are
    fixed, and a retired row is final. *)
Record session_advance (s s' : Session) : Prop := {
  sad_sequence : se_last_sequence s <= se_last_sequence s';
  sad_fixed : se_last_sequence s' = se_last_sequence s ->
    se_request_hash s' = se_request_hash s /\ se_last_result s' = se_last_result s;
  sad_retired : se_retired s = true -> s' = s;
}.

#[export] Instance session_advance_preorder : PreOrder session_advance.
Proof.
  split; [by split|]. intros a b c [H1 H2 H3] [H4 H5 H6]. split; [lia| |].
  - intros He. assert (se_last_sequence b = se_last_sequence a) as Hb by lia.
    destruct (H2 Hb), (H5 ltac:(lia)). split; congruence.
  - intros Hr. specialize (H3 Hr). subst b. auto.
Qed.

Definition sessions_advance (s s' : State) : Prop :=
  forall key row, st_sessions s !! key = Some row ->
    exists row', st_sessions s' !! key = Some row' /\ session_advance row row'.

#[export] Instance sessions_advance_preorder : PreOrder sessions_advance.
Proof.
  split.
  - intros s key row Hrow. exists row. split; [done|reflexivity].
  - intros a b c H1 H2 key row Hrow. destruct (H1 _ _ Hrow) as (r1 & Hr1 & Ha1).
    destruct (H2 _ _ Hr1) as (r2 & Hr2 & Ha2). exists r2. split; [done|by etrans].
Qed.

Lemma sessions_advance_same s s' : st_sessions s' = st_sessions s -> sessions_advance s s'.
Proof. intros Heq key row Hrow. rewrite Heq. exists row. split; [done|reflexivity]. Qed.

Lemma sessions_advance_insert s s' k row' :
  st_sessions s' = <[k:=row']> (st_sessions s) ->
  (forall row, st_sessions s !! k = Some row -> session_advance row row') -> sessions_advance s s'.
Proof.
  intros Heq Hadv key row Hrow. rewrite Heq. destruct (decide (k = key)) as [->|Hne].
  - rewrite lookup_insert_eq. eauto.
  - rewrite lookup_insert_ne by done. exists row. split; [done|reflexivity].
Qed.

Section along.
Context `{Ext : Externals}.

Lemma session_step_advance op_of_hash st tx tx' :
  st_sessions (tx_state tx) = st_sessions st ->
  session_step op_of_hash st tx tx' -> sessions_advance st (tx_state tx').
Proof.
  intros Heq Hs. destruct Hs as [|client reply row creates Hc Hl|c e row Hd He].
  - by apply sessions_advance_same.
  - eapply (sessions_advance_insert _ _ (client_key client)); [simpl; by rewrite Heq|].
    intros old Hold. apply classify_unresolved_iff in Hc as [(_ & _ & x & Hx & Hr & Hq & _)|(_ & _ & Hx & _)];
      [|congruence]. rewrite Hold in Hx. injection Hx as <-. simpl. rewrite ?Heq, ?Hold. simpl.
    split; simpl; [lia|lia|congruence].
  - eapply (sessions_advance_insert _ _ (rc_target_actor c, rc_target_client_id c)); [simpl; by rewrite Heq|].
    intros old Hold. destruct (retire_effect_row _ _ _ _ Hd He) as [Hr Hrow]. rewrite Hold in Hrow.
    destruct Hrow as (Hn & Hq & Hh & Hl). split; [lia|done|congruence].
Qed.

Lemma command_sessions_advance op_of_hash log_id tx tx' :
  command_steps op_of_hash log_id tx tx' -> sessions_advance (tx_state tx) (tx_state tx').
Proof.
  intros (tx1 & tx2 & row & -> & Hb%business_sessions & Hs & _).
  trans (tx_state tx2); [by eapply session_step_advance|]. apply sessions_advance_same.
  by destruct (write_audit_row_frame log_id row tx2).
Qed.

Lemma batch_sessions_advance op_of_hash d t entries replies d' t' :
  reachable op_of_hash d t ->
  log_wf op_of_hash (st_deployment_profile_code (ds_model d)) (st_last_applied (ds_model d)) entries ->
  apply_batch entries d t = Ok (replies, d', t') -> sessions_advance (ds_model d) (ds_model d').
Proof.
  apply (apply_batch_rel op_of_hash sessions_advance).
  - intros s s' [Heq _]. apply sessions_advance_same. by injection Heq.
  - intros log_id tx tx' _ _. apply command_sessions_advance.
Qed.

(** Along any batch a store applies, no session is forgotten: its number never
    falls, so a consumed number is never consumed again; while the number stands
    the saved hash and reply stand, so the answer to a duplicate is stable; and
    the row of a retired client never changes. *)
Theorem session_rows_advance op_of_hash d t entries replies d' t' key row :
  reachable op_of_hash d t ->
  log_wf op_of_hash (st_deployment_profile_code (ds_model d)) (st_last_applied (ds_model d)) entries ->
  apply_batch entries d t = Ok (replies, d', t') ->
  st_sessions (ds_model d) !! key = Some row ->
  exists row', st_sessions (ds_model d') !! key = Some row' /\ session_advance row row'.
Proof. intros Hreach Hw Happ. by apply (batch_sessions_advance _ _ _ _ _ _ _ Hreach Hw Happ). Qed.
End along.

#[local] Instance sessions_run : Externals := founding_externals.

Lemma duplicate_gets_the_first_reply_witness :
  (apply_client (at_index 5) (run_client sample_voter 1 Byte.x11) acquire
    (apply_client (at_index 4) (run_client sample_voter 1 Byte.x11) acquire
      (mk_Tx (run_state 3) ChangeSet_default)).2).1 =
  mk_ClientResult Consumed
    (clr_reply (apply_client (at_index 4) (run_client sample_voter 1 Byte.x11) acquire
       (mk_Tx (run_state 3) ChangeSet_default)).1) true.
Proof.
  assert (classify_client (run_state 3) (run_client sample_voter 1 Byte.x11)
    = Unresolved NoSessionFirst true) as Hc by (vm_compute; reflexivity).
  exact (proj1 (duplicate_gets_the_first_reply (at_index 4) (at_index 5)
    (run_client sample_voter 1 Byte.x11) acquire acquire (mk_Tx (run_state 3) ChangeSet_default)
    _ (ex_intro _ _ (ex_intro _ _ Hc)) eq_refl)).
Defined.

Lemma retired_client_inert_witness :
  exists row, st_sessions (run_state 9) !! client_key (run_client sample_voter 4 Byte.x11) = Some row /\
  only_audited (run_state 9)
    (tx_state (apply_client (at_index 10) (run_client sample_voter 4 Byte.x11) acquire
      (mk_Tx (run_state 9) ChangeSet_default)).2).
Proof.
  assert (match st_sessions (run_state 9) !! client_key (run_client sample_voter 4 Byte.x11) with
          | Some row => se_retired row = true | None => False end) as H by (vm_compute; reflexivity).
  destruct (st_sessions (run_state 9) !! client_key (run_client sample_voter 4 Byte.x11)) as [row|] eqn:E;
    [|destruct H].
  exists row. split; [reflexivity|].
  exact (proj1 (retired_client_inert (at_index 10) (run_client sample_voter 4 Byte.x11) acquire
    (mk_Tx (run_state 9) ChangeSet_default) row E H)).
Defined.

Lemma session_rows_advance_witness :
  match run_batch 4 with
  | Ok (_, d, t) =>
      match apply_batch (run_rest 4) d t with
      | Ok (_, d', _) => exists row row',
          st_sessions (ds_model d) !! client_key (run_client sample_voter 1 Byte.x11) = Some row /\
          st_sessions (ds_model d') !! client_key (run_client sample_voter 1 Byte.x11) = Some row' /\
          session_advance row row'
      | Err _ => False
      end
  | Err _ => False
  end.
Proof.
  assert (match run_resume 4 with Ok _ => True | Err _ => False end) as Hok by (vm_compute; exact I).
  assert (match st_sessions (run_state 4) !! client_key (run_client sample_voter 1 Byte.x11) with
          | Some _ => True | None => False end) as Hrow by (vm_compute; exact I).
  unfold run_state in Hrow. unfold run_resume in Hok.
  destruct (run_batch 4) as [[[r d] t]|] eqn:E; [|exact Hok].
  destruct (apply_batch (run_rest 4) d t) as [[[r' d'] t']|] eqn:E'; [|exact Hok].
  destruct (st_sessions (ds_model d) !! _) as [row|] eqn:Hr; [|destruct Hrow].
  destruct (session_rows_advance run_op d t (run_rest 4) r' d' t' _ row
    (run_prefix_reachable 4 r d t ltac:(lia) E) (run_rest_wf r d t E) E' Hr) as (row' & H1 & H2).
  exists row, row'. exact (conj eq_refl (conj H1 H2)).
Defined.
