(* ===== verification/Replication.v ===== *)
(** * Replicas agree

    The order of committed entries is the only input of the machine: how a
    replica cuts the log into batches does not matter, an entry below the last
    applied one is refused, a batch that fails publishes nothing, and on a
    store that was reached from its binding only a named few faults exist. The
    change set is an output no decision reads: transactions are compared up to
    it, and every writer is shown to respect that equivalence. *)

From S2P Require Import Prelude Reason Ids Contract Externals Limits State Tables Classify.
From S2P Require Import Ticket Authority Shape Genesis Resource Grant Retire.
From S2P Require Import Membership Apply Changes Durable Scenario Accounting Invariant.
From S2P Require Import AuditTrail Steps SessionTable MembershipTable RouteTable.
From S2P Require Import RouteTable Preservation Validation Refinement.

#[local] Open Scope N_scope.

(** ** Transactions up to their change set *)

#[export] Instance tx_equiv : Equiv Tx := λ a b, tx_state a = tx_state b.

#[export] Instance tx_equiv_equivalence : Equivalence (≡@{Tx}).
Proof. split; red; unfold equiv, tx_equiv; congruence. Qed.

(** A writer that answers: the answers are equal, the transactions equivalent. *)
Definition answers_equiv {A : Type} (p q : A * Tx) : Prop := p.1 = q.1 /\ p.2 ≡ q.2.

(** Two equivalent transactions are one state with two change sets. *)
Ltac same_state :=
  intros [?st ?ca] [?st2 ?cb] Heq; unfold equiv, tx_equiv in Heq; simpl in Heq; subst.

Section proper.
Context `{Ext : Externals}.

#[export] Instance put_resource_proper k r : Proper ((≡) ==> (≡)) (put_resource k r).
Proof. by same_state. Qed.
#[export] Instance charge_resource_row_proper k n : Proper ((≡) ==> (≡)) (charge_resource_row k n).
Proof. by same_state. Qed.
#[export] Instance write_grant_proper e : Proper ((≡) ==> (≡)) (write_grant e).
Proof.
  same_state. unfold write_grant, remove_grant, equiv, tx_equiv. simpl.
  destruct (gre_rights e); [by destruct (gre_creates_acl_row e)|]. by destruct (bool_decide _).
Qed.
#[export] Instance write_admin_proper e : Proper ((≡) ==> (≡)) (write_admin e).
Proof.
  same_state. unfold write_admin, put_admin, remove_admin, equiv, tx_equiv. simpl.
  by destruct (ade_enabled e), (bool_decide _).
Qed.
#[export] Instance store_session_proper k r : Proper ((≡) ==> (≡)) (store_session k r).
Proof. by same_state. Qed.
#[export] Instance write_session_proper c r : Proper ((≡) ==> (≡)) (write_session c r).
Proof. by same_state. Qed.
#[export] Instance tx_modify_proper f : Proper ((≡) ==> (≡)) (tx_modify f).
Proof. by same_state. Qed.
#[export] Instance evict_intent_proper id : Proper ((≡) ==> (≡)) (evict_intent id).
Proof. same_state. unfold evict_intent, remove_intent, equiv, tx_equiv. simpl. by case_match. Qed.
#[export] Instance evict_route_proper n : Proper ((≡) ==> (≡)) (evict_route n).
Proof. same_state. unfold evict_route, remove_route, equiv, tx_equiv. simpl. by case_match. Qed.
#[export] Instance store_intent_proper id i : Proper ((≡) ==> (≡)) (store_intent id i).
Proof. by same_state. Qed.
#[export] Instance store_route_proper l r : Proper ((≡) ==> (≡)) (store_route l r).
Proof. by same_state. Qed.

(** A loop of writers. *)
Lemma foldl_proper {A} (f : Tx -> A -> Tx) (l : list A) :
  (forall a, Proper ((≡) ==> (≡)) (λ tx, f tx a)) -> Proper ((≡) ==> (≡)) (λ tx, foldl f tx l).
Proof.
  intros Hf. induction l as [|a l IH]; intros tx1 tx2 H; simpl; [done|]. apply IH. by apply (Hf a).
Qed.

#[export] Instance write_intent_proper log_id e : Proper ((≡) ==> (≡)) (write_intent log_id e).
Proof.
  intros tx1 tx2 H. unfold write_intent.
  apply (foldl_proper (λ tx nr, store_route log_id nr tx)); [apply _|].
  apply (foldl_proper (λ tx node, evict_route node tx)); [apply _|]. apply store_intent_proper.
  by apply (foldl_proper (λ tx id, evict_intent id tx)); [apply _|].
Qed.

#[export] Instance prune_one_proper : Proper ((≡) ==> (≡)) prune_one.
Proof.
  same_state. unfold prune_one, equiv, tx_equiv. simpl. by destruct (btree_iter (st_audit _)) as [|[]].
Qed.

Lemma prune_loop_proper fuel : Proper ((≡) ==> (≡)) (prune_loop fuel).
Proof.
  induction fuel as [|fuel IH]; intros tx1 tx2 H; simpl; [done|].
  replace (tx_state tx2) with (tx_state tx1) by exact H. case_match; [|done]. apply IH.
  by apply prune_one_proper.
Qed.

#[export] Instance write_audit_row_proper log_id row : Proper ((≡) ==> (≡)) (write_audit_row log_id row).
Proof.
  same_state. unfold write_audit_row, prune_audit. simpl. by apply prune_loop_proper.
Qed.

#[export] Instance install_admins_proper l : Proper ((≡) ==> (≡)) (install_admins l).
Proof.
  intros tx1 tx2 H. unfold install_admins. do 2 apply tx_modify_proper.
  apply (foldl_proper (λ tx admin, (put_admin admin tx).2)); [|done]. intros a. by same_state.
Qed.

(** ** The handlers *)

#[export] Instance apply_decided_proper log_id client action :
  Proper ((≡) ==> answers_equiv) (apply_decided log_id client action).
Proof.
  intros tx1 tx2 H. unfold apply_decided. replace (tx_state tx2) with (tx_state tx1) by exact H.
  destruct (action_decide _ _ _ _) as [[e|r|l]|[e|n|r|l]|[e|n|r]|[e|n|r|l]]; split; simpl; try done.
  - by rewrite H.
  - by apply write_grant_proper.
  - by apply write_admin_proper.
  - by rewrite (write_intent_proper log_id e tx1 tx2 H : tx_state _ = tx_state _).
  - by apply write_intent_proper.
Qed.

#[export] Instance apply_client_proper log_id client action :
  Proper ((≡) ==> answers_equiv) (apply_client log_id client action).
Proof.
  intros tx1 tx2 H. unfold apply_client. replace (tx_state tx2) with (tx_state tx1) by exact H.
  destruct (classify_client _ _); [|split; [done|by apply write_audit_row_proper]..].
  destruct (apply_decided_proper log_id client action tx1 tx2 H) as [Hr Hs].
  destruct (apply_decided log_id client action tx1), (apply_decided log_id client action tx2).
  simpl in Hr, Hs. subst. split; [done|]. by apply write_audit_row_proper, write_session_proper.
Qed.

#[export] Instance apply_rejected_client_proper log_id client operation resource :
  Proper ((≡) ==> answers_equiv) (apply_rejected_client log_id client operation resource).
Proof.
  intros tx1 tx2 H. unfold apply_rejected_client. replace (tx_state tx2) with (tx_state tx1) by exact H.
  destruct (classify_client _ _); (split; [done|]); apply write_audit_row_proper;
    [by apply write_session_proper|done..].
Qed.

#[export] Instance apply_retire_proper log_id c : Proper ((≡) ==> answers_equiv) (apply_retire log_id c).
Proof.
  intros tx1 tx2 H. unfold apply_retire. replace (tx_state tx2) with (tx_state tx1) by exact H.
  destruct (retire_decide _ _) as [e|]; (split; [done|]); apply write_audit_row_proper; [|done].
  destruct (effect_row _ _ _); [by apply store_session_proper|done].
Qed.

#[export] Instance apply_expire_proper log_id c : Proper ((≡) ==> answers_equiv) (apply_expire log_id c).
Proof.
  same_state. unfold apply_expire. simpl.
  destruct (expire_decide _ _); (split; [done|]); by apply write_audit_row_proper.
Qed.

#[export] Instance apply_membership_progress_proper log_id c :
  Proper ((≡) ==> answers_equiv) (apply_membership_progress log_id c).
Proof.
  intros tx1 tx2 H. unfold apply_membership_progress.
  replace (tx_state tx2) with (tx_state tx1) by exact H.
  destruct (decide_progress _ _); (split; [done|]); apply write_audit_row_proper; [|done].
  by apply write_intent_proper.
Qed.

#[export] Instance apply_genesis_proper log_id signed :
  Proper ((≡) ==> answers_equiv) (apply_genesis log_id signed).
Proof.
  intros tx1 tx2 H. unfold apply_genesis. replace (tx_state tx2) with (tx_state tx1) by exact H.
  repeat (case_match; [|try (by split)]); try (by split);
    (split; [done|]); apply write_audit_row_proper; try done; by apply install_admins_proper.
Qed.

#[export] Instance dispatch_proper log_id c : Proper ((≡) ==> answers_equiv) (dispatch log_id c).
Proof.
  intros tx1 tx2 H. destruct c as [|client action|client op res|s|e|p|r|signed]; unfold dispatch.
  - by split.
  - destruct (apply_client_proper log_id client action tx1 tx2 H).
    destruct (apply_client _ _ _ tx1), (apply_client _ _ _ tx2). simpl in *. by subst.
  - destruct (apply_rejected_client_proper log_id client op res tx1 tx2 H).
    destruct (apply_rejected_client _ _ _ _ tx1), (apply_rejected_client _ _ _ _ tx2). simpl in *. by subst.
  - unfold apply_shapeless. replace (tx_state tx2) with (tx_state tx1) by exact H.
    split; [done|by apply write_audit_row_proper].
  - destruct (apply_expire_proper log_id e tx1 tx2 H).
    destruct (apply_expire _ _ tx1), (apply_expire _ _ tx2). simpl in *. by subst.
  - destruct (apply_membership_progress_proper log_id p tx1 tx2 H).
    destruct (apply_membership_progress _ _ tx1), (apply_membership_progress _ _ tx2). simpl in *. by subst.
  - destruct (apply_retire_proper log_id r tx1 tx2 H).
    destruct (apply_retire _ _ tx1), (apply_retire _ _ tx2). simpl in *. by subst.
  - destruct (apply_genesis_proper log_id signed tx1 tx2 H).
    destruct (apply_genesis _ _ tx1) as [[]], (apply_genesis _ _ tx2) as [[]]; simpl in *; by simplify_eq.
Qed.

#[export] Instance apply_command_recording_proper log_id c :
  Proper ((≡) ==> answers_equiv) (apply_command_recording log_id c).
Proof.
  intros tx1 tx2 H. unfold apply_command_recording. replace (tx_state tx2) with (tx_state tx1) by exact H.
  destruct (guard_delivery _ _); [|by split].
  destruct (dispatch_proper log_id c tx1 tx2 H) as [Hr Hs].
  destruct (dispatch _ _ tx1) as [[]], (dispatch _ _ tx2) as [[]]; simpl in *; simplify_eq; split; try done.
  by apply tx_modify_proper.
Qed.
End proper.

(** ** Batches *)

(** A log cut into batches, each committed before the next. *)
Fixpoint apply_batches `{Ext : Externals} (batches : list (list (LogId * Payload))) (d : DurableState)
    (t : StoredTables) : result (list EntryReply * DurableState * StoredTables) ApplyError :=
  match batches with
  | [] => Ok ([], d, t)
  | entries :: rest =>
      match apply_batch entries d t with
      | Err e => Err e
      | Ok (replies, d1, t1) =>
          match apply_batches rest d1 t1 with
          | Err e => Err e
          | Ok (more, d2, t2) => Ok (replies ++ more, d2, t2)
          end
      end
  end.

Section batches.
Context `{Ext : Externals}.

#[export] Instance working_equiv : Equiv Working := λ a b,
  wk_tx a ≡ wk_tx b /\ wk_membership a = wk_membership b.

(** Two results of the loop: the same error, or the same replies and equivalent
    working values. *)
Definition results_equiv {A : Type} (p q : result (A * Working) ApplyError) : Prop :=
  match p, q with
  | Ok (a, w), Ok (b, v) => a = b /\ w ≡ v
  | Err e, Err f => e = f
  | _, _ => False
  end.

Lemma apply_entry_proper log_id p : Proper ((≡) ==> results_equiv) (apply_entry log_id p).
Proof.
  intros [tx1 m1] [tx2 m2] [H Hm]. simpl in H, Hm. subst m2. unfold apply_entry. simpl.
  replace (tx_state tx2) with (tx_state tx1) by exact H. destruct p as [|m|c].
  - destruct (guard_delivery _ _); [|done]. split; [done|split; [by apply tx_modify_proper|done]].
  - destruct (guard_delivery _ _); [|done]. repeat (case_match; [done|]).
    split; [done|split; [by apply tx_modify_proper|done]].
  - destruct (apply_command_recording_proper log_id c tx1 tx2 H) as [Hr Hs].
    destruct (apply_command_recording _ _ tx1) as [[]], (apply_command_recording _ _ tx2) as [[]];
      simpl in *; by simplify_eq.
Qed.

Lemma apply_entries_proper entries : Proper ((≡) ==> results_equiv) (apply_entries entries).
Proof.
  induction entries as [|[id p] rest IH]; intros w1 w2 H; cbn [apply_entries]; [done|].
  pose proof (apply_entry_proper id p w1 w2 H) as He. unfold results_equiv in He.
  destruct (apply_entry id p w1) as [[r1 v1]|], (apply_entry id p w2) as [[r2 v2]|]; try done.
  destruct He as [-> Hv]. specialize (IH v1 v2 Hv). unfold results_equiv in *.
  destruct (apply_entries rest v1) as [[]|], (apply_entries rest v2) as [[]|]; try done.
  by destruct IH as [-> ?].
Qed.

Lemma apply_entries_app e1 e2 w :
  apply_entries (e1 ++ e2) w =
  match apply_entries e1 w with
  | Err e => Err e
  | Ok (r1, w1) =>
      match apply_entries e2 w1 with
      | Err e => Err e
      | Ok (r2, w2) => Ok (r1 ++ r2, w2)
      end
  end.
Proof.
  revert w. induction e1 as [|[id p] rest IH]; intros w; cbn [app apply_entries].
  - by destruct (apply_entries e2 w) as [[]|].
  - destruct (apply_entry id p w) as [[r w1]|]; [|done]. rewrite IH.
    destruct (apply_entries rest w1) as [[]|]; [|done]. by destruct (apply_entries e2 _) as [[]|].
Qed.

(** One batch after another is the batch of both. *)
Lemma apply_batch_app e1 e2 d :
  apply_batch (e1 ++ e2) d (tables_of (ds_model d)) =
  match apply_batch e1 d (tables_of (ds_model d)) with
  | Err e => Err e
  | Ok (r1, d1, t1) =>
      match apply_batch e2 d1 t1 with
      | Err e => Err e
      | Ok (r2, d2, t2) => Ok (r1 ++ r2, d2, t2)
      end
  end.
Proof.
  unfold apply_batch. set (w := mk_Working _ _). rewrite apply_entries_app.
  destruct (apply_entries e1 w) as [[r1 w1]|] eqn:H1; [|done].
  destruct (apply_entries_recorded _ _ _ _ H1) as [C1 G1].
  set (v := mk_Working (mk_Tx (ds_model _) _) _). cbv zeta.
  assert (w1 ≡ v) as Hwv by (by split).
  pose proof (apply_entries_proper e2 w1 v Hwv) as He. unfold results_equiv in He.
  destruct (apply_entries e2 w1) as [[r2 w2]|] eqn:H2, (apply_entries e2 v) as [[r2' v2]|] eqn:H2'; try done.
  2:{ by subst. }
  destruct He as [<- [Hs Hm]]. destruct (apply_entries_recorded _ _ _ _ H2) as [C2 G2].
  destruct (apply_entries_recorded _ _ _ _ H2') as [C2' _].
  assert (tx_recorded (wk_tx w) (wk_tx w2)) as [C12 _] by (etrans; by split).
  unfold equiv, tx_equiv in Hs. rewrite Hm, <- Hs.
  rewrite <- Hs in C2'. simpl in C1, C12, C2'.
  rewrite (commit_covered _ _ _ C12), (commit_covered _ _ _ C1).
  by rewrite (commit_covered _ _ _ C2').
Qed.

(** C2: how a replica cuts the log into batches is invisible: committing the
    batches one by one gives the replies, the published state, the stored tables
    or the error of applying the whole log as one batch. Replicas that were
    handed the same entries in different batches agree. *)
Theorem batching_is_invisible batches d :
  apply_batches batches d (tables_of (ds_model d)) =
  apply_batch (concat batches) d (tables_of (ds_model d)).
Proof.
  revert d. induction batches as [|entries rest IH]; intros d; simpl.
  - unfold apply_batch. simpl. rewrite commit_covered by (apply tables_covered_refl). by destruct d.
  - rewrite apply_batch_app. unfold apply_batch at 1 2.
    destruct (apply_entries entries _) as [[r w]|] eqn:H1; [|done].
    destruct (apply_entries_recorded _ _ _ _ H1) as [C1 _]. simpl in C1. rewrite (commit_covered _ _ _ C1).
    set (d1 := mk_DurableState _ _). change (tx_state (wk_tx w)) with (ds_model d1). by rewrite IH.
Qed.
End batches.

(** ** Faults *)

Section faults.
Context `{Ext : Externals}.

Lemma apply_genesis_fault log_id signed tx f tx' :
  apply_genesis log_id signed tx = (Err f, tx') -> tx' = tx /\ exists detail, f = GenesisRefused detail.
Proof. unfold apply_genesis. intros H. repeat case_match; simplify_eq/=; eauto. Qed.

(** The faults of a command below the guard. *)
Lemma dispatch_fault log_id c tx f tx' :
  dispatch log_id c tx = (Err f, tx') ->
  tx' = tx /\ (c = C_Unknown /\ f = UnknownCommand \/
               exists signed detail, c = C_Genesis signed /\ f = GenesisRefused detail).
Proof.
  unfold dispatch. intros H. destruct c as [|client action|client op res|s|e|p|r|signed].
  1: { simplify_eq. auto. }
  7: { destruct (apply_genesis log_id signed tx) as [[|g] tx1] eqn:E; [done|]. simplify_eq.
       apply apply_genesis_fault in E as [-> [detail ->]]. eauto 10. }
  all: case_match; done.
Qed.

(** A fault is clean: whatever command faults, at the guard or in its handler,
    the transaction is exactly what it was, rows and recorded changes alike. *)
Theorem fault_leaves_the_transaction log_id c tx f tx' :
  apply_command_recording log_id c tx = (Err f, tx') -> tx' = tx.
Proof.
  unfold apply_command_recording. destruct (guard_delivery _ _); [|by intros [= _ <-]].
  destruct (dispatch log_id c tx) as [[|g] tx1] eqn:E; [done|]. intros [= -> ->].
  by apply dispatch_fault in E as [-> _].
Qed.

(** A store reached from its binding never trips the audit guard. *)
Lemma guard_reachable op_of_hash s log_id :
  inv op_of_hash (st_last_applied s) s ->
  (forall l, st_last_applied s = Some l -> li_index l < li_index log_id) ->
  guard_delivery s log_id = Ok ().
Proof.
  intros Hinv Hlt. unfold guard_delivery.
  pose proof (au_tip _ _ (au_shape _ _ (inv_audit _ _ _ Hinv))) as Htip.
  assert (match st_audit_tip s with
          | Some tip => match st_last_applied s with
                        | None => false
                        | Some last => (li_index tip <? li_index last) || bool_decide (tip = last)
                        end
          | None => true end = true) as Ht.
  { destruct (st_audit_tip s) as [tip|]; [|done]. destruct Htip as (_ & _ & last & -> & Hor).
    apply orb_true_iff. destruct Hor as [?| ->]; [left; by apply N.ltb_lt|right; by apply bool_decide_eq_true_2]. }
  destruct (st_last_applied s) as [l|]; simpl.
  - rewrite (proj2 (N.leb_gt _ _)) by (by apply Hlt). destruct (st_audit_tip s); [by rewrite Ht|done].
  - by destruct (st_audit_tip s).
Qed.

(** on a store reached from its binding an entry above the last applied one is
    applied, with four exceptions, each the code's own refusal: an unknown
    command, a genesis that does not found this group, and a membership that
    names the root authority or exceeds the learner envelope. No other command
    can stop the machine, and the audit guard never trips. *)
Theorem entries_apply_or_name_their_fault op_of_hash d t log_id p :
  reachable op_of_hash d t ->
  (forall l, st_last_applied (ds_model d) = Some l -> li_index l < li_index log_id) ->
  match apply_batch [(log_id, p)] d t with
  | Ok (replies, d', _) => length replies = 1%nat /\ st_last_applied (ds_model d') = Some log_id
  | Err e =>
      match p with
      | P_Blank => False
      | P_Membership m =>
          e = AE_NamesRoot /\
            membership_names_root m (ga_public_key (st_authority (ds_model d))) = true \/
          e = AE_LearnerEnvelope (N.of_nat (size (cm_learners (project_membership m)))) /\
            MAX_LEARNER_ENVELOPE < N.of_nat (size (cm_learners (project_membership m)))
      | P_Normal C_Unknown => e = AE_Fault UnknownCommand
      | P_Normal (C_Genesis _) => exists detail, e = AE_Fault (GenesisRefused detail)
      | P_Normal _ => False
      end
  end.
Proof.
  intros [[Hinv _] _]%reachable_inv Hlt. pose proof (guard_reachable _ _ _ Hinv Hlt) as Hg.
  unfold apply_batch, apply_entries, apply_entry. simpl. destruct p as [|m|c].
  - by rewrite Hg.
  - rewrite Hg. destruct (membership_names_root m _) eqn:Hn; [by left|].
    destruct (MAX_LEARNER_ENVELOPE <? _) eqn:Hl; [right|done]. by boolean_facts.
  - unfold apply_command_recording. simpl. rewrite Hg.
    destruct (dispatch log_id c _) as [[r|f] tx1] eqn:E; [done|].
    apply dispatch_fault in E as [_ [[-> ->]|(signed & detail & -> & ->)]]; [done|by exists detail].
Qed.

(** ** Redelivery *)

Lemma apply_entry_last log_id p w reply w' :
  apply_entry log_id p w = Ok (reply, w') ->
  st_last_applied (tx_state (wk_tx w')) = Some log_id /\
  (forall l, st_last_applied (tx_state (wk_tx w)) = Some l -> li_index l < li_index log_id).
Proof.
  assert (guard_delivery (tx_state (wk_tx w)) log_id = Ok () ->
    forall l, st_last_applied (tx_state (wk_tx w)) = Some l -> li_index l < li_index log_id) as Hg.
  { unfold guard_delivery. intros Hg l Hl. rewrite Hl in Hg.
    destruct (N.leb_spec (li_index log_id) (li_index l)); [done|lia]. }
  unfold apply_entry. intros H. destruct p as [|m|c].
  - destruct (guard_delivery _ _) as [[]|]; [|done]. simplify_eq/=. auto.
  - destruct (guard_delivery _ _) as [[]|]; [|done]. repeat (case_match; [done|]). simplify_eq/=. auto.
  - unfold apply_command_recording in H. destruct (guard_delivery _ _) as [[]|]; [|done].
    destruct (dispatch _ _ _) as [[]]; simplify_eq/=. auto.
Qed.

Lemma apply_entries_last entries w replies w' :
  apply_entries entries w = Ok (replies, w') ->
  (entries = [] /\ w' = w) \/
  exists last, st_last_applied (tx_state (wk_tx w')) = Some last /\
    forall id p, (id, p) ∈ entries -> li_index id <= li_index last.
Proof.
  revert w replies. induction entries as [|[id p] rest IH]; intros w replies; cbn [apply_entries];
    [intros [= _ <-]; auto|].
  destruct (apply_entry id p w) as [[r w1]|] eqn:He; [|done].
  destruct (apply_entries rest w1) as [[rs w2]|] eqn:Hr; [|done]. intros [= <- <-]. right.
  destruct (apply_entry_last _ _ _ _ _ He) as [Hl _].
  destruct (IH _ _ Hr) as [[-> ->]|(last & Hlast & Hle)].
  - exists id. split; [done|]. intros id' p' [[= -> ->]|Hin]%elem_of_cons; [done|by apply elem_of_nil in Hin].
  - exists last. split; [done|]. intros id' p' [[= -> ->]|Hin]%elem_of_cons; [|by eapply Hle].
    destruct rest as [|[id2 p2] rest]; [injection Hr as _ <-; rewrite Hl in Hlast; by injection Hlast as <-|].
    cbn [apply_entries] in Hr. destruct (apply_entry id2 p2 w1) as [[r2 w3]|] eqn:He2; [|done].
    destruct (apply_entry_last _ _ _ _ _ He2) as [_ Hlt]. specialize (Hlt _ Hl).
    pose proof (Hle id2 p2 ltac:(left)). lia.
Qed.

(** Nothing is applied twice: once a batch is applied, a delivery that starts
    at the position of any of its entries, or below it, is refused as not
    advancing, whatever it carries. *)
Theorem redelivery_refused entries d t replies d' t' id p log_id p' rest :
  apply_batch entries d t = Ok (replies, d', t') -> (id, p) ∈ entries -> li_index log_id <= li_index id ->
  exists last, st_last_applied (ds_model d') = Some last /\
    apply_batch ((log_id, p') :: rest) d' t' = Err (AE_Fault (LogIdNotAdvancing log_id last)).
Proof.
  unfold apply_batch. set (w := mk_Working _ _).
  destruct (apply_entries entries w) as [[rs w']|] eqn:He; [|done]. intros [= <- <- <-] Hin Hle.
  destruct (apply_entries_last _ _ _ _ He) as [[-> _]|(last & Hlast & Hall)]; [set_solver|].
  exists last. split; [done|]. specialize (Hall _ _ Hin).
  assert (guard_delivery (tx_state (wk_tx w')) log_id = Err (LogIdNotAdvancing log_id last)) as Hg.
  { unfold guard_delivery. rewrite Hlast, (proj2 (N.leb_le _ _)) by lia. done. }
  cbn [apply_entries]. unfold apply_entry, apply_command_recording. simpl. rewrite Hg. by destruct p'.
Qed.
End faults.

#[local] Instance replication_run : Externals := founding_externals.

Lemma fault_leaves_the_transaction_witness :
  (apply_command_recording (at_index 10) C_Unknown (mk_Tx (run_state 9) ChangeSet_default)).2 =
  mk_Tx (run_state 9) ChangeSet_default.
Proof.
  assert (match (apply_command_recording (at_index 10) C_Unknown
            (mk_Tx (run_state 9) ChangeSet_default)).1 with Err _ => True | Ok _ => False end) as H
    by (vm_compute; exact I).
  destruct (apply_command_recording (at_index 10) C_Unknown (mk_Tx (run_state 9) ChangeSet_default))
    as [[r|f] tx'] eqn:E; [destruct H|].
  exact (fault_leaves_the_transaction (at_index 10) C_Unknown _ f tx' E).
Defined.

Lemma entries_apply_or_name_their_fault_witness :
  match run_batch 9 with
  | Ok (_, d, t) =>
      match apply_batch [(at_index 10, P_Normal C_Unknown)] d t with
      | Ok _ => True
      | Err e => e = AE_Fault UnknownCommand
      end
  | Err _ => False
  end.
Proof.
  pose proof run_reachable as H.
  assert (st_last_applied (run_state 9) = Some (at_index 9)) as Hl by (vm_compute; reflexivity).
  unfold run_state in Hl. destruct (run_batch 9) as [[[r d] t]|e]; [|exact H].
  assert (forall l, st_last_applied (ds_model d) = Some l -> li_index l < li_index (at_index 10)) as Hlt.
  { intros l Hs. rewrite Hl in Hs. injection Hs as <-. reflexivity. }
  pose proof (entries_apply_or_name_their_fault run_op d t (at_index 10) (P_Normal C_Unknown)
    (proj1 H) Hlt) as Ht.
  destruct (apply_batch _ d t) as [[[? ?] ?]|e]; [exact I|exact Ht].
Defined.

Lemma redelivery_refused_witness :
  match run_batch 9 with
  | Ok (_, d, t) => exists e, apply_batch (run_entries 9) d t = Err e
  | Err _ => False
  end.
Proof.
  pose proof run_reachable as H. destruct (run_batch 9) as [[[r d] t]|e] eqn:E; [|exact H].
  destruct (redelivery_refused (run_entries 9) run_store (tables_of run_initial) r d t (at_index 1)
    (P_Membership run_membership) (at_index 1) (P_Membership run_membership) (tail (run_entries 9))
    E (list_elem_of_here _ _) (N.le_refl _)) as (last & _ & Herr).
  exact (ex_intro _ _ Herr).
Defined.
