(* ===== verification/Lifecycle.v ===== *)
(** * The life of a membership intent

    Intents as a state machine over the log: an intent appears pending, moves
    along the legal transitions, is finished once and is forgotten only when
    finished. Routes of committed members are never displaced. *)

From S2P Require Import Prelude Reason Ids Contract Externals Limits State Tables Classify.
From S2P Require Import Ticket Authority Shape Genesis Resource Grant Retire.
From S2P Require Import Membership Apply Changes Durable Scenario Accounting Invariant.
From S2P Require Import AuditTrail Steps SessionTable MembershipTable RouteTable.
From S2P Require Import RouteTable Preservation Validation Refinement Leases.

#[local] Open Scope N_scope.

(** A step between phases: a report's legal transition, or a cancellation. *)
Inductive phase_step : Z -> Z -> Prop :=
| PS_progress a b : is_legal_transition a b = true -> phase_step a b
| PS_cancel_pending : phase_step PHASE_PENDING PHASE_CANCELLED
| PS_cancel_learners : phase_step PHASE_ADDING_LEARNERS PHASE_CANCEL_REQUESTED.

(** The committed membership is final and is the one the plan asks for. *)
Definition plan_committed (m : CommittedMembership) (plan : MembershipPlan) : Prop :=
  cm_joint m = false /\ cm_voters m = list_to_set (mp_desired_voters plan) /\
  cm_learners m = list_to_set (mp_retained_learners plan).

Section lifecycle.
Context `{Ext : Externals}.

(** What one entry at [log_id] may do to one intent slot of [st]. *)
Inductive intent_move (st : State) (log_id : LogId) : option Intent -> option Intent -> Prop :=
| IM_same slot : intent_move st log_id slot slot
| IM_accepted i :
    in_status_code i = PHASE_PENDING -> in_accepted_log_id i = log_id ->
    in_completed_log_id i = None -> is_administrator st (in_actor i) = true ->
    in_expected_membership i = st_membership_log_id st ->
    plan_accepted (in_plan i) (st_membership st) (st_authority st) (st_deployment_profile_code st) ->
    (forall id other, st_intents st !! id = Some other ->
       is_terminal_phase (in_status_code other) = true) ->
    in_result_code i = 0%Z -> intent_move st log_id None (Some i)
| IM_step old i :
    phase_step (in_status_code old) (in_status_code i) ->
    in_actor i = in_actor old -> in_request_hash i = in_request_hash old ->
    in_plan i = in_plan old ->
    (in_status_code i = PHASE_COMPLETED -> plan_committed (st_membership st) (in_plan i)) ->
    (is_terminal_phase (in_status_code i) = true -> is_Some (in_completed_log_id i)) ->
    (is_terminal_phase (in_status_code i) = false -> in_result_code i = in_result_code old) ->
    intent_move st log_id (Some old) (Some i)
| IM_evicted old :
    is_terminal_phase (in_status_code old) = true -> intent_move st log_id (Some old) None.

Lemma completion_observed st i c :
  completion_is_observable st i c = true -> plan_committed (st_membership st) (in_plan i).
Proof.
  unfold completion_is_observable, plan_committed. intros H.
  destruct (negb _); [done|]. destruct (cm_joint _); [done|]. by boolean_facts.
Qed.

Lemma stamped_completed log_id i :
  is_terminal_phase (in_status_code (stamp_intent log_id i)) = true ->
  is_Some (in_completed_log_id (stamp_intent log_id i)).
Proof.
  simpl. intros ->. simpl. destruct (in_completed_log_id i); [|done].
  by rewrite bool_decide_eq_false_2.
Qed.

Lemma decide_cancel_move log_id st actor a e :
  decide_cancel st actor a = MD_Apply e ->
  intent_move st log_id (st_intents st !! ie_operation_id e) (Some (stamp_intent log_id (ie_intent e))).
Proof.
  intros H. assert (forall i, is_terminal_phase (in_status_code (stamp_intent log_id i)) = true ->
    is_Some (in_completed_log_id (stamp_intent log_id i))) as Hc by apply stamped_completed.
  unfold decide_cancel in H. destruct (is_administrator st actor); [|done]. simpl in H.
  destruct (st_intents st !! caa_operation_id a) as [old|] eqn:Hold; [|done].
  destruct (in_status_code old =? caa_expected_phase_code a)%Z; [|done]. simpl in H.
  destruct (Z.eqb_spec (in_status_code old) PHASE_PENDING) as [Hp|_].
  - injection H as <-. simpl ie_operation_id. rewrite Hold.
    apply IM_step; try done; [|apply Hc]. simpl. rewrite Hp. apply PS_cancel_pending.
  - destruct (Z.eqb_spec (in_status_code old) PHASE_ADDING_LEARNERS) as [Hp|]; [|done].
    injection H as <-. simpl ie_operation_id. rewrite Hold.
    apply IM_step; try done. simpl. rewrite Hp. apply PS_cancel_learners.
Qed.

Lemma decide_progress_move log_id st c e :
  decide_progress st c = Some e ->
  intent_move st log_id (st_intents st !! ie_operation_id e) (Some (stamp_intent log_id (ie_intent e))).
Proof.
  unfold decide_progress. intros (old & Hold & H)%bind_Some.
  destruct (negb (_ =? _)%Z); [done|].
  destruct (is_legal_transition (in_status_code old) _) eqn:Hl; [|done]. simpl in H.
  destruct (_ && _) eqn:Hobs; [done|]. injection H as <-. simpl ie_operation_id. rewrite Hold.
  apply IM_step; try done; [by constructor| |apply stamped_completed|simpl; by intros ->]. simpl. intros Hcom.
  rewrite Hcom in Hobs. simpl in Hobs. apply negb_false_iff in Hobs. by eapply completion_observed.
Qed.

(** The slots after a write: the named one moves, the evicted ones empty. *)
Lemma write_intent_moves log_id e tx :
  intent_move (tx_state tx) log_id (st_intents (tx_state tx) !! ie_operation_id e)
    (Some (stamp_intent log_id (ie_intent e))) ->
  (forall id, id ∈ ie_evict e -> exists i, st_intents (tx_state tx) !! id = Some i /\
     is_terminal_phase (in_status_code i) = true) ->
  forall id, intent_move (tx_state tx) log_id (st_intents (tx_state tx) !! id)
    (st_intents (tx_state (write_intent log_id e tx)) !! id).
Proof.
  intros Hm Hev id. rewrite (proj1 (write_intent_tables log_id e tx)). unfold intents_after.
  destruct (decide (ie_operation_id e = id)) as [<-|Hne]; [by rewrite lookup_insert_eq|].
  rewrite lookup_insert_ne, foldl_delete_lookup by done. destruct (decide _) as [Hin|]; [|constructor].
  destruct (Hev _ Hin) as (i & -> & Ht). by constructor.
Qed.

Lemma rewrites_evict_terminal bound log_id st e old id :
  intents_ok bound st -> rewrites_intent log_id st e old -> id ∈ ie_evict e ->
  exists i, st_intents st !! id = Some i /\ is_terminal_phase (in_status_code i) = true.
Proof.
  intros Hok Hr Hin. rewrite (ri_evict _ _ _ _ Hr) in Hin. destruct (is_terminal_phase _); [|set_solver].
  by apply (evictions_spec st (io_terminal _ _ Hok)).
Qed.

Lemma business_intent_moves bound log_id tx tx' :
  intents_ok bound (tx_state tx) -> business log_id tx tx' ->
  forall id, intent_move (tx_state tx) log_id (st_intents (tx_state tx) !! id)
    (st_intents (tx_state tx') !! id).
Proof.
  intros Hok Hb.
  destruct Hb as [|? ? e Hd|? ? e Hd|? ? e Hd|? ? ? e Hd|? ? e Hd|c e Hd Hobs|c row Hd|? g st Hv H0];
    try (intros id; constructor).
  - intros id. destruct (write_grant_tables e tx) as (_ & _ & _ & _ & [-> _]). constructor.
  - intros id. destruct (write_admin_tables e tx) as (_ & _ & _ & _ & [-> _]). constructor.
  - apply decide_change_accepted in Hd. apply write_intent_moves.
    + rewrite (chc_new _ _ _ _ _ Hd), (chc_intent _ _ _ _ _ Hd). constructor; try done; apply Hd.
    + rewrite (chc_evict _ _ _ _ _ Hd). set_solver.
  - destruct (decide_cancel_rewrites log_id _ _ _ _ Hd) as [old Hrw].
    apply write_intent_moves; [by eapply decide_cancel_move|]. eauto using rewrites_evict_terminal.
  - destruct (decide_progress_rewrites log_id _ _ _ Hd Hobs) as [old Hrw].
    apply write_intent_moves; [by eapply decide_progress_move|]. eauto using rewrites_evict_terminal.
  - intros id. destruct (install_admins_tables (vg_initial_admins g) tx) as (_ & _ & _ & _ & [-> _]).
    constructor.
Qed.

(** The routes of the members stay. *)
Lemma business_member_routes log_id tx tx' node :
  business log_id tx tx' -> node ∈ cm_members (st_membership (tx_state tx)) ->
  is_Some (st_routes (tx_state tx) !! node) -> is_Some (st_routes (tx_state tx') !! node).
Proof.
  intros Hb Hm Hs. rewrite <- elem_of_dom in *.
  assert (forall e : IntentEffect, (node ∈ ie_evict_routes e -> node ∈ map fst (ie_routes e)) ->
    node ∈ dom (st_routes (tx_state (write_intent log_id e tx)))) as Hw.
  { intros e He. rewrite (proj2 (write_intent_tables log_id e tx)). unfold routes_after.
    rewrite dom_foldl_insert, dom_foldl_delete.
    apply elem_of_union. destruct (decide (node ∈ map fst (ie_routes e))) as [Hi|Hi]; [right|left].
    - by apply elem_of_list_to_set.
    - apply elem_of_difference. split; [done|]. intros Hx%elem_of_list_to_set. auto. }
  destruct Hb as [|? ? e Hd|? ? e Hd|? ? e Hd|? ? ? e Hd|? ? e Hd|c e Hd Hobs|c row Hd|? g st Hv H0]; try done.
  - by destruct (write_grant_tables e tx) as (_ & _ & _ & _ & [_ -> _]).
  - by destruct (write_admin_tables e tx) as (_ & _ & _ & _ & [_ -> _]).
  - apply decide_change_accepted in Hd. apply Hw. rewrite (chc_evict_routes _ _ _ _ _ Hd).
    unfold route_evictions. destruct (_ =? 0); [set_solver|].
    intros Hin%oldest_spec; [|apply route_candidates_NoDup].
    by apply route_candidates_elem in Hin as (_ & ? & _).
  - destruct (decide_cancel_rewrites log_id _ _ _ _ Hd) as [old Hrw]. apply Hw.
    destruct (ri_routes _ _ _ _ Hrw) as [_ ->]. set_solver.
  - destruct (decide_progress_rewrites log_id _ _ _ Hd Hobs) as [old Hrw]. apply Hw.
    destruct (ri_routes _ _ _ _ Hrw) as [_ ->]. set_solver.
  - by destruct (install_admins_tables (vg_initial_admins g) tx) as (_ & _ & _ & _ & [_ -> _]).
Qed.

(** ** One entry on a reachable store *)

Lemma entry_steps op_of_hash d t log_id p replies d' t' :
  reachable op_of_hash d t ->
  log_wf op_of_hash (st_deployment_profile_code (ds_model d)) (st_last_applied (ds_model d)) [(log_id, p)] ->
  apply_batch [(log_id, p)] d t = Ok (replies, d', t') ->
  same_tables (ds_model d) (ds_model d') \/
  exists tx', command_steps op_of_hash log_id (mk_Tx (ds_model d) ChangeSet_default) tx' /\
    same_tables (tx_state tx') (ds_model d').
Proof.
  intros [[Hinv _] _]%reachable_inv (_ & Hok & _) Happ. unfold apply_batch, apply_entries, apply_entry in Happ.
  simpl in Happ. destruct p as [|m|c].
  - left. destruct (guard_delivery _ _); [|done]. by injection Happ as _ <- _.
  - left. destruct (guard_delivery _ _); [|done]. destruct (membership_names_root _ _); [done|].
    destruct (_ <? _); [done|]. by injection Happ as _ <- _.
  - right. unfold apply_command_recording in Happ. destruct (guard_delivery _ _); [|done].
    destruct (dispatch log_id c _) as [[r|f] tx1] eqn:Hd; [|done]. injection Happ as _ <- _.
    exists tx1. split; [|done]. eapply dispatch_steps; eauto; apply Hinv.
Qed.

(** After a command's business write, its session and audit rows leave intents
    and routes alone. *)
Lemma command_steps_business op_of_hash log_id tx tx' :
  command_steps op_of_hash log_id tx tx' ->
  exists tx1, business log_id tx tx1 /\ st_intents (tx_state tx') = st_intents (tx_state tx1) /\
    st_routes (tx_state tx') = st_routes (tx_state tx1).
Proof.
  intros (tx1 & tx2 & row & -> & Hb & Hs & _). exists tx1. split; [done|].
  destruct (session_step_frame _ _ _ _ Hs) as [[] _].
  pose proof (write_audit_row_frame log_id row tx2) as []. split; congruence.
Qed.

(** C35: the life of an intent, entry by entry: a slot stays as it is; or a new
    intent is accepted, pending and stamped with its entry, from an
    administrator, on the committed membership it expects, under a plan that
    passes every shape rule, and while no other intent is active; or an active
    intent takes a legal step, keeping its author, its request and its plan, gets
    its result code and its stamp only when it finishes; or a finished one is evicted. An intent becomes
    completed only when the committed membership is final and is the plan. *)
Theorem intent_lifecycle op_of_hash d t log_id p replies d' t' :
  reachable op_of_hash d t ->
  log_wf op_of_hash (st_deployment_profile_code (ds_model d)) (st_last_applied (ds_model d)) [(log_id, p)] ->
  apply_batch [(log_id, p)] d t = Ok (replies, d', t') ->
  forall id, intent_move (ds_model d) log_id (st_intents (ds_model d) !! id) (st_intents (ds_model d') !! id).
Proof.
  intros Hreach Hw Happ id. destruct (entry_steps _ _ _ _ _ _ _ _ Hreach Hw Happ) as [[Heq _]|(tx' & Hc & Heq & _)].
  - injection Heq as _ _ _ _ -> _ _. constructor.
  - destruct (command_steps_business _ _ _ _ Hc) as (tx1 & Hb & Hi & _).
    injection Heq as _ _ _ _ -> _ _. rewrite Hi. apply reachable_inv in Hreach as [[Hinv _] _].
    by apply (business_intent_moves (st_last_applied (ds_model d)) log_id
      (mk_Tx (ds_model d) ChangeSet_default) tx1 (inv_intents _ _ _ Hinv) Hb).
Qed.

(** A member stays reachable: no entry removes the stored route of a node of
    the committed membership; only its own new route replaces it. *)
Theorem member_routes_survive op_of_hash d t log_id p replies d' t' node :
  reachable op_of_hash d t ->
  log_wf op_of_hash (st_deployment_profile_code (ds_model d)) (st_last_applied (ds_model d)) [(log_id, p)] ->
  apply_batch [(log_id, p)] d t = Ok (replies, d', t') ->
  cm_contains (st_membership (ds_model d)) node = true ->
  is_Some (st_routes (ds_model d) !! node) -> is_Some (st_routes (ds_model d') !! node).
Proof.
  intros Hreach Hw Happ Hm%cm_contains_spec Hs.
  destruct (entry_steps _ _ _ _ _ _ _ _ Hreach Hw Happ) as [[Heq _]|(tx' & Hc & Heq & _)].
  - by injection Heq as _ _ _ _ _ -> _.
  - destruct (command_steps_business _ _ _ _ Hc) as (tx1 & Hb & _ & Hr).
    injection Heq as _ _ _ _ _ -> _. rewrite Hr. by eapply business_member_routes.
Qed.

(** At every reachable store at most one membership intent is active: two
    unfinished intents are the same one. *)
Theorem one_active_intent op_of_hash d t id1 id2 i1 i2 :
  reachable op_of_hash d t ->
  st_intents (ds_model d) !! id1 = Some i1 -> st_intents (ds_model d) !! id2 = Some i2 ->
  is_terminal_phase (in_status_code i1) = false -> is_terminal_phase (in_status_code i2) = false ->
  id1 = id2.
Proof.
  intros [[Hinv _] _]%reachable_inv H1 H2 T1 T2. pose proof (io_active _ _ (inv_intents _ _ _ Hinv)) as Ha.
  destruct (decide (id1 = id2)) as [|Hne]; [done|exfalso]. rewrite mcount_filter in Ha.
  set (l := filter _ _) in Ha.
  assert ((id1, i1) ∈ l /\ (id2, i2) ∈ l) as [E1 E2].
  { split; apply list_elem_of_filter; simpl; rewrite ?T1, ?T2; split; try done;
      by apply elem_of_map_to_list. }
  destruct l as [|x [|y l]]; [set_solver|set_solver|]. unfold len in Ha. simpl in Ha. lia.
Qed.
End lifecycle.

(** ** The concrete run *)

#[local] Instance lifecycle_run : Externals := founding_externals.

(** A change accepted after the run's first three entries, then the report of
    its first step. *)
Definition change_entry : LogId * Payload :=
  (at_index 4, P_Normal (C_Client (run_client sample_admin 2 Byte.x15) change_self)).
Definition report_entry : LogId * Payload := (at_index 5, P_Normal (progress_report (Some (at_index 1)))).

(** The operation the change's hash commits to is added to the run's. *)
Definition lifecycle_op (h : Hash) : Z :=
  if bool_decide (h = run_hash Byte.x15) then 9%Z else run_op h.

Definition lifecycle_batch : result (list EntryReply * DurableState * StoredTables) ApplyError :=
  apply_batch (run_entries 3 ++ [change_entry]) run_store (tables_of run_initial).

Lemma lifecycle_wf : log_wf lifecycle_op PROFILE_DEV_SINGLE None (run_entries 3 ++ [change_entry]).
Proof.
  assert (membership_ok PROFILE_DEV_SINGLE run_membership) as Hm.
  { split_and!; [done|done|]. by intros c ->%list_elem_of_singleton. }
  simpl. repeat match goal with
  | |- _ /\ _ => split
  | |- True => exact I
  | |- membership_ok _ _ => exact Hm
  | |- forall l, None = Some l -> _ => by intros
  | |- forall l, Some _ = Some l -> _ => by intros l [= <-]
  | |- lifecycle_op _ = _ => vm_compute; reflexivity
  end.
Qed.

(** The store holding the pending intent, and the entry that reports on it. *)
Lemma lifecycle_ready :
  match lifecycle_batch with
  | Ok (_, d, t) =>
      reachable lifecycle_op d t /\
      log_wf lifecycle_op (st_deployment_profile_code (ds_model d)) (st_last_applied (ds_model d))
        [report_entry] /\
      (in_status_code <$> st_intents (ds_model d) !! run_operation) = Some PHASE_PENDING /\
      ro_ticket <$> st_routes (ds_model d) !! sample_voter = Some sample_seed_ticket /\
      cm_contains (st_membership (ds_model d)) sample_voter = true /\
      match apply_batch [report_entry] d t with Ok _ => True | Err _ => False end
  | Err _ => False
  end.
Proof.
  assert (match lifecycle_batch with
          | Ok (_, d, t) =>
              (st_last_applied (ds_model d), st_deployment_profile_code (ds_model d),
               in_status_code <$> st_intents (ds_model d) !! run_operation,
               ro_ticket <$> st_routes (ds_model d) !! sample_voter,
               cm_contains (st_membership (ds_model d)) sample_voter,
               match apply_batch [report_entry] d t with Ok _ => true | Err _ => false end)
          | Err _ => (None, 0%Z, None, None, false, false)
          end = (Some (at_index 4), PROFILE_DEV_SINGLE, Some PHASE_PENDING, Some sample_seed_ticket,
                 true, true)) as H
    by (vm_compute; reflexivity).
  destruct lifecycle_batch as [[[r d] t]|] eqn:E; [|discriminate H].
  injection H as Hl Hp Hi Hr Hm Ha. split_and!.
  - assert (reachable lifecycle_op run_store (tables_of run_initial)) as Hb.
    { apply (reach_bind lifecycle_op founding_authority PROFILE_DEV_SINGLE); [by vm_compute|by vm_compute|].
      apply (bool_decide_unpack _). by vm_compute. }
    eapply reach_batch; [exact Hb|exact lifecycle_wf|exact E].
  - rewrite Hl, Hp. split_and!; [by intros l [= <-]| |exact I]. intros id [= <-]. by vm_compute.
  - exact Hi.
  - exact Hr.
  - exact Hm.
  - by destruct (apply_batch [report_entry] d t).
Qed.

Lemma intent_lifecycle_witness :
  match lifecycle_batch with
  | Ok (_, d, t) =>
      match apply_batch [report_entry] d t with
      | Ok (_, d', _) => intent_move (ds_model d) (at_index 5)
          (st_intents (ds_model d) !! run_operation) (st_intents (ds_model d') !! run_operation)
      | Err _ => False
      end
  | Err _ => False
  end.
Proof.
  pose proof lifecycle_ready as H. destruct lifecycle_batch as [[[r d] t]|]; [|exact H].
  destruct H as (Hreach & Hw & _ & _ & _ & Hok).
  destruct (apply_batch [report_entry] d t) as [[[r' d'] t']|] eqn:E; [|exact Hok].
  exact (intent_lifecycle lifecycle_op d t (at_index 5) _ r' d' t' Hreach Hw E run_operation).
Defined.

Lemma one_active_intent_witness :
  match lifecycle_batch with
  | Ok (_, d, _) => forall id i, st_intents (ds_model d) !! id = Some i ->
      is_terminal_phase (in_status_code i) = false -> id = run_operation
  | Err _ => False
  end.
Proof.
  pose proof lifecycle_ready as H. destruct lifecycle_batch as [[[r d] t]|]; [|exact H].
  destruct H as (Hreach & _ & Hi & _). intros id i Hid Ht.
  destruct (st_intents (ds_model d) !! run_operation) as [i0|] eqn:E; [|discriminate Hi].
  assert (is_terminal_phase (in_status_code i0) = false) as Ht0.
  { injection Hi as ->. reflexivity. }
  exact (one_active_intent lifecycle_op d t id run_operation i i0 Hreach Hid E Ht Ht0).
Defined.

Lemma member_routes_survive_witness :
  match lifecycle_batch with
  | Ok (_, d, t) =>
      match apply_batch [report_entry] d t with
      | Ok (_, d', _) => is_Some (st_routes (ds_model d') !! sample_voter)
      | Err _ => False
      end
  | Err _ => False
  end.
Proof.
  pose proof lifecycle_ready as H. destruct lifecycle_batch as [[[r d] t]|]; [|exact H].
  destruct H as (Hreach & Hw & _ & Hr & Hm & Hok).
  destruct (apply_batch [report_entry] d t) as [[[r' d'] t']|] eqn:E; [|exact Hok].
  apply (member_routes_survive lifecycle_op d t (at_index 5) _ r' d' t' sample_voter Hreach Hw E Hm).
  destruct (st_routes (ds_model d) !! sample_voter); [eexists; reflexivity|discriminate Hr].
Defined.
