(* ===== verification/StoredRows.v ===== *)
(** * Every stored row survives its wire form

    [commit] writes each row through [wire.rs] and a load narrows it back. The
    validator of [Durable] works on narrowed rows; this file closes the gap:
    on a store reached from its binding, widening and narrowing any row of any
    table gives the row back, so no narrowing refusal can follow a commit. *)

From S2P Require Import Prelude Reason Ids Contract Externals Limits State Tables Classify Ticket.
From S2P Require Import Authority Shape Genesis Resource Grant Retire Membership Apply.
From S2P Require Import Wire Changes Durable Scenario Accounting Invariant AuditTrail Steps.
From S2P Require Import SessionTable MembershipTable RouteTable Preservation.
From S2P Require Import Validation Refinement Leases Lifecycle.

#[local] Open Scope N_scope.

(** The widths of the byte arrays the stored values of the five tables carry, and
    of an intent's id, as the source's types fix them: what the row codecs narrow.
    Numbers are bounded by the machine's own invariants, not here. *)
Record state_typed (s : State) : Prop := {
  sty_resources k r : st_resources s !! k = Some r -> width_typed 32 (rr_holder r);
  sty_sessions k r : st_sessions s !! k = Some r -> session_typed r;
  sty_intents k i : st_intents s !! k = Some i -> len k = 16 /\ intent_typed i;
  sty_routes k r : st_routes s !! k = Some r -> route_typed r;
  sty_audit k r : st_audit s !! k = Some r -> audit_typed r;
}.

(** The phases the machine writes, and the completion stamp of a finished one. *)
Definition intents_phased (s : State) : Prop :=
  forall id i, st_intents s !! id = Some i ->
    in_status_code i ∈ PHASES /\
    (is_terminal_phase (in_status_code i) = true -> is_Some (in_completed_log_id i)).

Lemma phase_listed code : bool_decide (code ∈ PHASES) = true -> code ∈ PHASES.
Proof. apply bool_decide_eq_true_1. Qed.

(** A step ends in a declared phase. *)
Lemma phase_step_listed a b : phase_step a b -> b ∈ PHASES.
Proof.
  intros [x y Hl| |]; [|by apply phase_listed..].
  unfold is_legal_transition in Hl. destruct (is_terminal_phase x); [done|].
  rewrite !orb_true_iff, !andb_true_iff, !Z.eqb_eq in Hl.
  destruct Hl as [[[[[_ ->]|[_ ->]]|[_ ->]]|[_ ->]]| ->]; by apply phase_listed.
Qed.

Section stored.
Context `{Ext : Externals}.

(** What every move establishes holds of every intent of a reachable store. *)
Lemma batch_intents (P : Intent -> Prop) op_of_hash d t entries replies d' t' :
  (forall st log_id slot i, intent_move st log_id slot (Some i) -> (forall old, slot = Some old -> P old) -> P i) ->
  reachable op_of_hash d t ->
  log_wf op_of_hash (st_deployment_profile_code (ds_model d)) (st_last_applied (ds_model d)) entries ->
  apply_batch entries d t = Ok (replies, d', t') ->
  map_Forall (λ _, P) (st_intents (ds_model d)) -> map_Forall (λ _, P) (st_intents (ds_model d')).
Proof.
  intros HP. set (all := λ s, map_Forall (λ _, P) (st_intents s)).
  assert (PreOrder (λ s s', all s -> all s')) as Hpre by (split; red; eauto).
  apply (apply_batch_rel op_of_hash (λ s s', all s -> all s')).
  - intros s s' [Heq _]. unfold all. by injection Heq as _ _ _ _ -> _ _.
  - intros log_id tx tx' Hinv _ Hc Hp. destruct (command_steps_business _ _ _ _ Hc) as (tx1 & Hb & Hi & _).
    intros id i Hid. rewrite Hi in Hid. apply (HP (tx_state tx) log_id (st_intents (tx_state tx) !! id)).
    + rewrite <- Hid. eapply business_intent_moves; [apply Hinv|done].
    + intros old Hold. by apply (Hp id).
Qed.

Lemma reachable_intents (P : Intent -> Prop) op_of_hash d t :
  (forall st log_id slot i, intent_move st log_id slot (Some i) -> (forall old, slot = Some old -> P old) -> P i) ->
  reachable op_of_hash d t -> forall id i, st_intents (ds_model d) !! id = Some i -> P i.
Proof.
  intros HP Hr. change (map_Forall (λ _, P) (st_intents (ds_model d))).
  induction Hr as [|d t entries replies d' t' Hreach IH Hw Happ]; [by apply map_Forall_empty|]. by eapply batch_intents.
Qed.

Lemma reachable_phased op_of_hash d t : reachable op_of_hash d t -> intents_phased (ds_model d).
Proof.
  unfold intents_phased. apply (reachable_intents (λ i, in_status_code i ∈ PHASES /\
    (is_terminal_phase (in_status_code i) = true -> is_Some (in_completed_log_id i)))).
  intros st log_id slot i Hm Hp. inversion Hm as [slot' Heq|i' Hs Ha Hc|old i' Hstep _ _ _ _ Hc|]; subst.
  - by apply Hp.
  - rewrite Hs. split; [by apply phase_listed|done].
  - split; [by eapply phase_step_listed|done].
Qed.

(** No result before the end, and no node in both halves of a plan. *)
Lemma reachable_plans op_of_hash d t id i :
  reachable op_of_hash d t -> st_intents (ds_model d) !! id = Some i ->
  (is_terminal_phase (in_status_code i) = false -> in_result_code i = 0%Z) /\
  mp_desired_voters (in_plan i) ## mp_retained_learners (in_plan i).
Proof.
  intros Hr. revert id i. apply (reachable_intents (λ i, (is_terminal_phase (in_status_code i) = false -> in_result_code i = 0%Z) /\
    mp_desired_voters (in_plan i) ## mp_retained_learners (in_plan i)) op_of_hash d t); [|done].
  intros st log_id slot i Hm Hp. inversion Hm as [slot' Heq|i' Hs _ _ _ _ Hplan _ Hres|old i' Hstep _ _ Hplan _ _ Hres|]; subst.
  - by apply Hp.
  - split; [done|]. apply Hplan.
  - destruct (Hp old eq_refl) as [Hold ?]. rewrite Hplan. split; [|done]. intros Ht. rewrite Hres by done. apply Hold.
    by destruct Hstep as [x y Hl|x|x]; [unfold is_legal_transition in Hl; destruct (is_terminal_phase x)|..].
Qed.

(** Finished exactly when stamped. *)
Lemma reachable_completion op_of_hash d t id i :
  reachable op_of_hash d t -> st_intents (ds_model d) !! id = Some i ->
  is_terminal_phase (in_status_code i) = bool_decide (is_Some (in_completed_log_id i)).
Proof.
  intros Hreach Hi. destruct (reachable_phased _ _ _ Hreach id i Hi) as [_ Hc].
  apply reachable_inv in Hreach as [[Hinv _] _].
  pose proof (iso_open _ _ (io_stamps _ _ (inv_intents _ _ _ Hinv) _ _ Hi)) as Ho.
  destruct (is_terminal_phase (in_status_code i)).
  - by rewrite bool_decide_eq_true_2 by auto.
  - rewrite Ho by done. done.
Qed.

Lemma stored_seeds_utf8 st plan seed :
  stored_plan_legal st plan = true -> seed ∈ mp_member_seeds plan -> utf8_valid (ms_ticket seed) = true.
Proof.
  unfold stored_plan_legal. intros H Hin. rewrite !andb_true_iff in H. destruct H as [_ H].
  rewrite forallb_forall in H. specialize (H seed ltac:(by apply list_elem_of_In)).
  unfold stored_seed_legal in H. rewrite !andb_true_iff in H. destruct H as [[_ H] _].
  apply bool_decide_eq_true in H. destruct (check_seed_ticket _ _) as [[]|] eqn:Hc; [|done].
  by apply check_seed_ticket_Ok in Hc as (_ & ? & _).
Qed.

(** C36: every row of a reachable store survives its wire form: a resource, a
    session, an audit row, an intent and a route, widened by [commit] and
    narrowed by the next load, come back as they were. The holder is present
    exactly while the lease is held, a finished intent is stamped and an open
    one is not, its phase is a declared one, and an audit result is of the
    kind of its operation: none of the narrowing refusals applies to a row the
    machine wrote. *)
Theorem stored_rows_roundtrip op_of_hash d t group :
  reachable op_of_hash d t -> state_typed (ds_model d) ->
  let s := ds_model d in
  (forall k r, st_resources s !! k = Some r -> resource_row_from_wire (resource_row_to_wire r) = Ok r) /\
  (forall k r, st_sessions s !! k = Some r -> session_from_wire group (session_to_wire group r) = Ok r) /\
  (forall k r, st_audit s !! k = Some r -> audit_row_from_wire (audit_row_to_wire r) = Ok r) /\
  (forall k i, st_intents s !! k = Some i ->
     exists w, intent_to_wire k i = Ok w /\ intent_from_wire k w = Ok i) /\
  (forall k r, st_routes s !! k = Some r -> route_from_wire (route_to_wire r) = Ok r).
Proof.
  intros Hreach [Tr Ts Ti To Ta] s. pose proof (reachable_inv _ _ _ Hreach) as [[Hinv _] _].
  split_and!; intros k r Hk.
  - apply resource_row_roundtrip; [by eapply Tr|]. by apply (rs_row _ (inv_resources _ _ _ Hinv) _ _ Hk).
  - apply session_roundtrip; [by eapply Ts|]. intros reply sn Hr Hsn.
    pose proof (so_reply _ _ (ses_row _ _ (inv_sessions _ _ _ Hinv) _ _ Hk) _ Hr) as Hl.
    destruct (rl_snapshot _ _ Hl _ Hsn) as [Hsl Hv]. split; [|done].
    unfold snapshot_legal in Hsl. rewrite !andb_true_iff in Hsl. by apply eqb_prop, Hsl.
  - destruct (au_row _ _ (au_shape _ _ (inv_audit _ _ _ Hinv)) _ _ Hk) as [[Hl Hv] _].
    apply audit_row_roundtrip; [by eapply Ta|done|]. unfold audit_row_legal in Hl.
    destruct (audit_results_for _); [|done]. rewrite !andb_true_iff in Hl. destruct Hl as [[[Hl _] _] _].
    by destruct (is_system_operation _), (ar_result r).
  - destruct (Ti _ _ Hk) as [Hlen Hty].
    apply intent_roundtrip; [done|done|by apply (reachable_phased _ _ _ Hreach k)|
      by eapply reachable_completion|].
    intros seed. eapply stored_seeds_utf8, (io_plan _ _ (inv_intents _ _ _ Hinv) _ _ Hk).
  - apply route_roundtrip. by eapply To.
Qed.
End stored.

(** ** Deciding the widths *)

Definition option_all {A : Type} (p : A -> bool) (o : option A) : bool := from_option p true o.
Definition has_width (n : N) (b : bytes) : bool := len b =? n.
Definition log_id_typed_b (id : LogId) : bool := has_width 32 (li_leader_node_id id).
Definition reply_typed_b (r : SavedReply) : bool :=
  option_all (λ s, option_all (has_width 32) (ss_holder s)) (sr_snapshot r)
  && option_all (has_width 16) (sr_operation_id r) && option_all log_id_typed_b (sr_membership_log_id r).
Definition session_typed_b (s : Session) : bool :=
  has_width 32 (se_request_hash s) && option_all reply_typed_b (se_last_result s).
Definition intent_typed_b (i : Intent) : bool :=
  has_width 32 (in_actor i) && has_width 32 (in_request_hash i)
  && forallb (has_width 32) (mp_desired_voters (in_plan i))
  && forallb (has_width 32) (mp_retained_learners (in_plan i))
  && forallb (λ s, has_width 32 (ms_node_id s)) (mp_member_seeds (in_plan i))
  && option_all log_id_typed_b (in_expected_membership i) && log_id_typed_b (in_accepted_log_id i)
  && option_all log_id_typed_b (in_completed_log_id i)
  && option_all log_id_typed_b (in_observed_membership_log_id i).
Definition state_typed_b (s : State) : bool :=
  table_all (λ _ r, option_all (has_width 32) (rr_holder r)) (st_resources s)
  && table_all (λ _ r, session_typed_b r) (st_sessions s)
  && table_all (λ k i, has_width 16 k && intent_typed_b i) (st_intents s)
  && table_all (λ _ r, has_width 16 (ro_source_operation_id r)
                       && log_id_typed_b (ro_introduced_log_id r)) (st_routes s)
  && table_all (λ _ r, has_width 32 (ar_leader_node_id r)
                       && option_all (has_width 32) (ar_actor r)) (st_audit s).

Lemma option_all_spec {A} (p : A -> bool) o : option_all p o = true <-> forall a, o = Some a -> p a = true.
Proof. destruct o as [a|]; simpl; split; [by intros ? ? [= <-]|auto|done|done]. Qed.

Lemma has_width_spec n b : has_width n b = true <-> len b = n.
Proof. apply N.eqb_eq. Qed.

Lemma forallb_elem {A} (p : A -> bool) l : forallb p l = true -> forall a, a ∈ l -> p a = true.
Proof. rewrite forallb_forall. intros H a Ha. apply H. by apply list_elem_of_In. Qed.

(** Turn the boolean widths of the context into the ones of the records. *)
Ltac widths :=
  repeat match goal with
  | H : (_ && _)%bool = true |- _ => apply andb_true_iff in H as [? ?]
  | H : option_all _ _ = true |- _ => rewrite option_all_spec in H
  | H : has_width _ _ = true |- _ => apply has_width_spec in H
  end.

Lemma width_typed_spec n o : (forall a, o = Some a -> has_width n a = true) -> width_typed n o.
Proof. intros H b Hb. by apply has_width_spec, H. Qed.

Lemma log_ids_typed_spec o : (forall a, o = Some a -> log_id_typed_b a = true) -> log_ids_typed o.
Proof. intros H b Hb. by apply has_width_spec, H. Qed.

Lemma reply_typed_spec r : reply_typed_b r = true -> reply_typed r.
Proof.
  unfold reply_typed_b. intros H. widths. split; auto using width_typed_spec, log_ids_typed_spec.
  intros s Hs. apply width_typed_spec, option_all_spec. eauto.
Qed.

Lemma session_typed_spec s : session_typed_b s = true -> session_typed s.
Proof. unfold session_typed_b. intros H. widths. split; eauto using reply_typed_spec. Qed.

Lemma intent_typed_spec i : intent_typed_b i = true -> intent_typed i.
Proof.
  unfold intent_typed_b. intros H. widths. split; auto using log_ids_typed_spec.
  - split; intros x Hx; apply has_width_spec;
      match goal with H : forallb _ _ = true |- _ => exact (forallb_elem _ _ H _ Hx) end.
  - by apply has_width_spec.
Qed.

Lemma state_typed_spec s : state_typed_b s = true -> state_typed s.
Proof.
  unfold state_typed_b. intros H. widths. rewrite !table_all_spec in *.
  split; intros k r Hk.
  - apply width_typed_spec, option_all_spec. eauto.
  - eauto using session_typed_spec.
  - match goal with H : forall k v, st_intents _ !! k = Some v -> _ |- _ => specialize (H _ _ Hk) end.
    widths. auto using intent_typed_spec.
  - match goal with H : forall k v, st_routes _ !! k = Some v -> _ |- _ => specialize (H _ _ Hk) end.
    widths. split; [done|by apply has_width_spec].
  - match goal with H : forall k v, st_audit _ !! k = Some v -> _ |- _ => specialize (H _ _ Hk) end.
    widths. split; auto using width_typed_spec.
Qed.

#[local] Instance stored_run : Externals := founding_externals.

Lemma stored_rows_roundtrip_witness :
  match lifecycle_batch with
  | Ok (_, d, _) => exists i w, st_intents (ds_model d) !! run_operation = Some i /\
      intent_to_wire run_operation i = Ok w /\ intent_from_wire run_operation w = Ok i
  | Err _ => False
  end.
Proof.
  pose proof lifecycle_ready as H.
  assert (match lifecycle_batch with Ok (_, d, _) => state_typed_b (ds_model d) | Err _ => false end = true)
    as Hty by (vm_compute; reflexivity).
  destruct lifecycle_batch as [[[r d] t]|]; [|exact H]. destruct H as (Hreach & _ & Hi & _).
  pose proof (stored_rows_roundtrip lifecycle_op d t [] Hreach (state_typed_spec _ Hty)) as Hall.
  destruct (st_intents (ds_model d) !! run_operation) as [i|] eqn:E; [|discriminate Hi].
  destruct (proj1 (proj2 (proj2 (proj2 Hall))) run_operation i E) as (w & H1 & H2).
  exists i, w. exact (conj eq_refl (conj H1 H2)).
Defined.
