(* ===== verification/Ingress.v ===== *)
(** * What the boundary guarantees

    Theorems about [Boundary]: the three outcomes of narrowing a committed
    client command, which entries are fatal, that an applied command answers
    with its own reply variant, who is handed a register value, and that a
    narrowed command satisfies the conditions the log theorems assume. *)

From S2P Require Import Prelude Reason Ids Contract Externals Limits State Tables Classify Shape.
From S2P Require Import Genesis Resource Grant Retire Membership Apply Wire Boundary.
From S2P Require Import Changes Durable Scenario Accounting Invariant AuditTrail Steps.
From S2P Require Import Sessions Replication.

#[local] Open Scope N_scope.
#[local] Open Scope coordination_scope.

(** A client command's prefix narrows: every identifier has its width. *)
Definition prefix_typed `{UnknownCarrier} (c : ClientCommandV1) : Prop :=
  len (ccv_actor_node_id c) = 32 /\ len (ccv_client_id c) = 16 /\ len (ccv_request_hash c) = 32.

(** The session identity a prefix names. *)
Definition prefix_ref `{UnknownCarrier} (c : ClientCommandV1) : ClientRef :=
  mk_ClientRef (ccv_actor_node_id c) (ccv_client_id c) (ccv_sequence c) (ccv_request_hash c).

Lemma narrow_width_cases {E} n (err : E) b :
  (narrow_width n err b = Ok b /\ len b = n) \/ (narrow_width n err b = Err err /\ len b <> n).
Proof. unfold narrow_width. destruct (N.eqb_spec (len b) n); auto. Qed.

(** Case analysis on every narrowing of a fixed-width field in the goal. *)
Ltac narrow_widths :=
  unfold narrow_node_id, narrow_client_id, narrow_hash in *;
  repeat match goal with
  | |- context [narrow_width ?n ?e ?b] =>
      destruct (narrow_width_cases n e b) as [[-> ?]|[-> ?]]; simpl
  end.

Section ingress.
Context `{Carrier : UnknownCarrier} `{Ext : Externals} {Codec : CommandCodec}.

(** Narrowing fails as unknown only on the carrier. *)
Lemma narrow_all_not_unknown {A B} (f : A -> result B NarrowError) l :
  (forall a, f a <> Err UnknownVariant) -> narrow_all f l <> Err UnknownVariant.
Proof.
  intros Hf. induction l as [|a l IH]; simpl; [done|].
  specialize (Hf a). destruct (f a) as [b|e]; [|by destruct e].
  by destruct (narrow_all f l) as [|[]].
Qed.

Lemma narrow_log_id_not_unknown id : narrow_log_id id <> Err UnknownVariant.
Proof. unfold narrow_log_id. by destruct (log_id_from_wire id). Qed.

Lemma narrow_option_not_unknown {A B} (f : A -> result B NarrowError) o :
  (forall a, f a <> Err UnknownVariant) -> narrow_option f o <> Err UnknownVariant.
Proof. intros Hf. destruct o as [a|]; [|done]. simpl. specialize (Hf a). by destruct (f a) as [|[]]. Qed.

Lemma narrow_node_id_not_unknown b : narrow_node_id b <> Err UnknownVariant.
Proof. narrow_widths; done. Qed.

Lemma action_narrow_unknown a :
  action_from_wire a = Err UnknownVariant -> exists case, a = AV_Unknown case.
Proof.
  destruct a as [| | | | | | | |m| |]; simpl; unfold narrow_fence; narrow_widths; try done; eauto.
  pose proof (narrow_option_not_unknown narrow_log_id (cmv_expected_membership_log_id m)
                narrow_log_id_not_unknown).
  pose proof (narrow_all_not_unknown (λ n, narrow_node_id (nv_node_id n)) (cmv_desired_voters m)
                (λ n, narrow_node_id_not_unknown (nv_node_id n))).
  pose proof (narrow_all_not_unknown (λ n, narrow_node_id (nv_node_id n)) (cmv_retained_learners m)
                (λ n, narrow_node_id_not_unknown (nv_node_id n))).
  pose proof (narrow_all_not_unknown narrow_seed (cmv_member_seeds m)) as Hs.
  unfold narrow_node_id in *.
  destruct (narrow_option _ _) as [|[]]; simpl; try done.
  destruct (narrow_all _ (cmv_desired_voters m)) as [|[]]; simpl; try done.
  destruct (narrow_all _ (cmv_retained_learners m)) as [|[]]; simpl; try done.
  destruct (narrow_all narrow_seed _) as [|[]]; simpl; try done.
  exfalso. apply Hs; [|done]. intros s. unfold narrow_seed. narrow_widths; done.
Qed.

Lemma command_narrow_unknown w :
  command_from_wire w = Err UnknownVariant -> unknown_variant w = true.
Proof.
  destruct w as [c| | | | |]; simpl.
  - narrow_widths; try done. destruct (action_from_wire (ccv_action c)) as [|e] eqn:Ha; simpl.
    + repeat case_match; done.
    + intros [= ->]. by apply action_narrow_unknown in Ha as [case ->].
  - by case_match.
  - narrow_widths; [|done].
    pose proof (narrow_option_not_unknown narrow_log_id observed_membership_log_id
                  narrow_log_id_not_unknown).
    by destruct (narrow_option _ _) as [|[]].
  - narrow_widths; done.
  - done.
  - done.
Qed.

(** An unknown variant is the one input narrowing refuses. *)
Lemma command_for_apply_Err w e : command_for_apply w = Err e <-> unknown_variant w = true /\ e = UnknownVariant.
Proof.
  unfold command_for_apply. destruct (unknown_variant w) eqn:Hu.
  { split; [by intros [= <-]|by intros [_ ->]]. }
  split; [|by intros []]. destruct (oversized w); [done|].
  destruct (command_from_wire w) as [|[]] eqn:Hc; try done.
  apply command_narrow_unknown in Hc. congruence.
Qed.

(** The rejection a client command with a known action becomes. *)
Lemma shape_rejection_client c :
  (prefix_typed c /\ shape_rejection (CV_Client c) =
     C_RejectedClient (prefix_ref c) (wire_operation_code (ccv_action c)) (wire_resource (ccv_action c))) \/
  (~ prefix_typed c /\ exists actor, shape_rejection (CV_Client c) =
     C_Shapeless (mk_ShapelessCommand (wire_operation_code (ccv_action c)) RS_Client 0 actor
                    (wire_resource (ccv_action c))) /\
     actor = if len (ccv_actor_node_id c) =? 32 then Some (ccv_actor_node_id c) else None).
Proof.
  unfold prefix_typed. simpl. unfold narrow_node_id, narrow_client_id, narrow_hash, narrow_width.
  destruct (N.eqb_spec (len (ccv_actor_node_id c)) 32), (N.eqb_spec (len (ccv_client_id c)) 16),
    (N.eqb_spec (len (ccv_request_hash c)) 32); simpl;
    (left; split; [done|reflexivity]) || (right; split; [tauto|eauto]).
Qed.

(** A client command narrows to itself exactly when nothing is wrong with it. *)
Lemma command_from_wire_client c cmd :
  command_from_wire (CV_Client c) = Ok cmd <->
  exists action, cmd = C_Client (prefix_ref c) action /\ prefix_typed c /\
    action_from_wire (ccv_action c) = Ok action /\
    request_hash (ccv_action c) = Ok (ccv_request_hash c).
Proof.
  simpl. unfold prefix_typed, prefix_ref. split.
  - narrow_widths; try done. destruct (action_from_wire (ccv_action c)) as [a|] eqn:Ha; simpl; [|done].
    destruct (request_hash (ccv_action c)) as [h|]; [|done].
    case_bool_decide; [|done]. subst. simpl. intros [= <-]. eauto 10.
  - intros (action & -> & (Ha & Hc & Hh) & Hact & Hhash).
    unfold narrow_node_id, narrow_client_id, narrow_hash. rewrite !narrow_width_same by done. simpl.
    rewrite Hact, Hhash. simpl. by rewrite bool_decide_eq_true_2 by done.
Qed.

Lemma client_narrowing_fails c e :
  command_from_wire (CV_Client c) = Err e -> prefix_typed c ->
  (forall a, action_from_wire (ccv_action c) <> Ok a) \/
  request_hash (ccv_action c) <> Ok (ccv_request_hash c).
Proof.
  intros Hc Hp. destruct (action_from_wire (ccv_action c)) as [a|] eqn:Ha; [|by left]. right. intros Hh.
  assert (command_from_wire (CV_Client c) = Ok (C_Client (prefix_ref c) a)) as Hok
    by (apply command_from_wire_client; eauto). congruence.
Qed.

(** Narrowing a committed client command has exactly three outcomes. It is
    the command itself, under the identity its prefix names, exactly when the
    encoding is within the cap, every prefix field and every field of the
    action has its width and the carried hash is the digest of the carried
    action, so no action is ever applied under another action's hash; with a
    well-formed prefix anything else is a rejection under that same identity,
    which keeps the operation and the resource named; without one it is a
    sessionless rejection, attributed to the actor when at least the actor
    narrows. Only an unknown action is refused outright. *)
Theorem client_narrowing_exact c :
  match command_for_apply (CV_Client c) with
  | Ok (C_Client ref action) =>
      ref = prefix_ref c /\ prefix_typed c /\ oversized (CV_Client c) = false /\
      action_from_wire (ccv_action c) = Ok action /\
      request_hash (ccv_action c) = Ok (ccv_request_hash c)
  | Ok (C_RejectedClient ref operation resource) =>
      ref = prefix_ref c /\ prefix_typed c /\
      operation = wire_operation_code (ccv_action c) /\ resource = wire_resource (ccv_action c) /\
      (oversized (CV_Client c) = true \/ (forall a, action_from_wire (ccv_action c) <> Ok a) \/
       request_hash (ccv_action c) <> Ok (ccv_request_hash c))
  | Ok (C_Shapeless s) =>
      ~ prefix_typed c /\
      s = mk_ShapelessCommand (wire_operation_code (ccv_action c)) RS_Client 0
            (if len (ccv_actor_node_id c) =? 32 then Some (ccv_actor_node_id c) else None)
            (wire_resource (ccv_action c))
  | Err e => e = UnknownVariant /\ exists case, ccv_action c = AV_Unknown case
  | Ok _ => False
  end.
Proof.
  destruct (command_for_apply (CV_Client c)) as [cmd|e] eqn:Hfor.
  2:{ apply command_for_apply_Err in Hfor as [Hu ->]. split; [done|]. simpl in Hu.
      destruct (ccv_action c); try done. eauto. }
  unfold command_for_apply in Hfor. destruct (unknown_variant _); [done|].
  assert (forall P, (prefix_typed c -> P) -> cmd = shape_rejection (CV_Client c) ->
    match cmd with
    | C_RejectedClient ref operation resource =>
        ref = prefix_ref c /\ prefix_typed c /\
        operation = wire_operation_code (ccv_action c) /\ resource = wire_resource (ccv_action c) /\ P
    | C_Shapeless s => ~ prefix_typed c /\
        s = mk_ShapelessCommand (wire_operation_code (ccv_action c)) RS_Client 0
              (if len (ccv_actor_node_id c) =? 32 then Some (ccv_actor_node_id c) else None)
              (wire_resource (ccv_action c))
    | _ => False
    end) as Hshape.
  { intros P HP ->. destruct (shape_rejection_client c) as [[Hp ->]|(Hp & actor & -> & ->)]; auto 6. }
  destruct (oversized (CV_Client c)) eqn:Ho.
  { specialize (Hshape True (λ _, I) ltac:(congruence)). destruct cmd; tauto. }
  destruct (command_from_wire (CV_Client c)) as [cmd'|[]] eqn:Hc; [|done|].
  - injection Hfor as ->. apply command_from_wire_client in Hc as (a & -> & ? & ? & ?). auto.
  - assert (cmd = shape_rejection (CV_Client c)) as Hcmd by congruence.
    pose proof (Hshape _ (client_narrowing_fails _ _ Hc) Hcmd) as H. clear Hshape Hfor Hcmd.
    destruct cmd; try (exfalso; exact H); [|exact H].
    destruct H as (H1 & H2 & H3 & H4 & H5). split_and!; [done..|by right].
Qed.

(** ** Replies *)

(** Which reply a model command produces when it does not fault. *)
Definition reply_variant (c : Command) : option N :=
  match c with
  | C_Unknown => None
  | C_Client _ _ | C_RejectedClient _ _ _ => Some 1
  | C_Shapeless s =>
      match shc_reply_shape s with RS_Client => Some 1 | RS_Retirement => Some 3 | RS_System => Some 2 end
  | C_Expire _ | C_MembershipProgress _ | C_Genesis _ => Some 2
  | C_RetireClient _ => Some 3
  end.

(** Narrowing keeps the kind of a command: its reply variant, and a genesis
    whole. It never yields the model's own unknown command. *)
Definition same_kind (w : CommandV1) (c : Command) : Prop :=
  reply_variant c = expected_reply_variant w /\ c <> C_Unknown /\
  forall signed, c = C_Genesis signed -> w = CV_Genesis signed.

Lemma shape_rejection_kind w : unknown_variant w = false -> same_kind w (shape_rejection w).
Proof.
  unfold same_kind. destruct w as [c'| | | | |]; try done.
  - intros _. destruct (shape_rejection_client c') as [[_ ->]|(_ & ? & -> & _)]; done.
  - intros _. split_and!; [done..|]. by intros ? [= ->].
Qed.

Lemma command_from_wire_kind w c :
  unknown_variant w = false -> command_from_wire w = Ok c -> same_kind w c.
Proof.
  intros Hu Hc. destruct w as [c'| | | | |].
  - by apply command_from_wire_client in Hc as (? & -> & _).
  - simpl in Hc. case_match; [|done]. by injection Hc as <-.
  - simpl in Hc. revert Hc. narrow_widths; [|done]. destruct (narrow_option _ _); simpl; by intros [= <-].
  - simpl in Hc. revert Hc. narrow_widths; try done. by intros [= <-].
  - simpl in Hc. injection Hc as <-. split_and!; [done..|]. by intros ? [= ->].
  - done.
Qed.

Lemma command_for_apply_kind w c :
  command_for_apply w = Ok c -> unknown_variant w = false /\ same_kind w c.
Proof.
  unfold command_for_apply. destruct (unknown_variant w) eqn:Hu; [done|].
  pose proof (shape_rejection_kind w Hu). intros H'. split; [done|].
  destruct (oversized w); [congruence|].
  destruct (command_from_wire w) as [cmd|[]] eqn:Hc; [|done|congruence]. injection H' as ->.
  by apply command_from_wire_kind.
Qed.

Lemma dispatch_variant log_id c tx reply tx' state group :
  dispatch log_id c tx = (Ok reply, tx') -> variant_id (to_wire state group c reply) = reply_variant c.
Proof.
  unfold dispatch. intros H. destruct c as [|client action|client op res|s|e|p|r|signed].
  - done.
  - case_match. by injection H as <- _.
  - case_match. by injection H as <- _.
  - unfold apply_shapeless in H. simpl in *. destruct (shc_reply_shape s); by injection H as <- _.
  - case_match. by injection H as <- _.
  - case_match. by injection H as <- _.
  - case_match. by injection H as <- _.
  - destruct (apply_genesis _ _ _) as [[|] ?]; [|done]. by injection H as <- _.
Qed.

(** Applying a committed wire command is total, and its answer is of its own
    kind. It stops as an unknown command exactly when the command or the action
    inside it is a variant this version does not know, and then leaves the
    transaction as it was, whatever its size or fields; past the delivery
    guard every other command but a refused genesis is answered; and the answer
    is the reply variant the contract assigns to the command. *)
Theorem wire_apply_total log_id group w tx :
  guard_delivery (tx_state tx) log_id = Ok () ->
  let '(r, tx') := apply_wire_command_recording log_id group w tx in
  (r = Err UnknownCommand <-> unknown_variant w = true) /\
  match r with
  | Ok reply => variant_id reply = expected_reply_variant w /\
      st_last_applied (tx_state tx') = Some log_id
  | Err f => tx' = tx /\ (f = UnknownCommand \/
      exists signed detail, w = CV_Genesis signed /\ f = GenesisRefused detail)
  end.
Proof.
  intros Hg. unfold apply_wire_command_recording.
  destruct (command_for_apply w) as [c|e] eqn:Hfor.
  2:{ apply command_for_apply_Err in Hfor as [Hu _]. rewrite Hu. split; [done|]. split; [done|by left]. }
  destruct (command_for_apply_kind _ _ Hfor) as (Hu & Hv & Hk & Hgen). rewrite Hu.
  unfold apply_command_recording. rewrite Hg.
  destruct (dispatch log_id c tx) as [[reply|f] tx1] eqn:Hd.
  - split; [done|]. rewrite (dispatch_variant _ _ _ _ _ _ _ Hd). done.
  - apply dispatch_fault in Hd as [-> [[-> ->]|(signed & detail & -> & ->)]]; [done|].
    split; [done|]. split; [done|]. right. eauto.
Qed.

(** The client a model command is from, when it names one. *)
Definition command_client (c : Command) : option ClientRef :=
  match c with
  | C_Client client _ | C_RejectedClient client _ _ => Some client
  | _ => None
  end.

Lemma apply_client_replayed log_id client action tx :
  clr_replayed (apply_client log_id client action tx).1 = true <->
  exists row saved, classify_client (tx_state tx) client = Replay row saved.
Proof.
  destruct (classify_client (tx_state tx) client) as [row creates|row saved|row reason] eqn:Hc.
  - destruct (apply_client_fresh log_id client action tx _ _ Hc) as [-> _].
    destruct (apply_decided_reply log_id client action tx) as [_ ->]. naive_solver.
  - destruct (apply_client_replay log_id client action tx _ _ Hc) as [-> _]. naive_solver.
  - destruct (apply_client_refuse log_id client action tx _ _ Hc) as [-> _]. naive_solver.
Qed.

Lemma apply_rejected_replayed log_id client op resource tx :
  clr_replayed (apply_rejected_client log_id client op resource tx).1 = true <->
  exists row saved, classify_client (tx_state tx) client = Replay row saved.
Proof. unfold apply_rejected_client. destruct (classify_client (tx_state tx) client); naive_solver. Qed.

(** A client answer is marked replayed exactly when the session answered it. *)
Lemma dispatch_replayed log_id c tx res tx' :
  dispatch log_id c tx = (Ok (CR_Client res), tx') ->
  (clr_replayed res = true <->
   exists client row saved, command_client c = Some client /\
     classify_client (tx_state tx) client = Replay row saved).
Proof.
  unfold dispatch. intros H. destruct c as [|client action|client op rs|s|e|p|r|signed].
  - done.
  - pose proof (apply_client_replayed log_id client action tx) as Hr.
    destruct (apply_client _ _ _ _). injection H as -> _. simpl in *. naive_solver.
  - pose proof (apply_rejected_replayed log_id client op rs tx) as Hr.
    destruct (apply_rejected_client _ _ _ _ _). injection H as -> _. simpl in *. naive_solver.
  - unfold apply_shapeless in H. destruct (shc_reply_shape s); try done. injection H as <- _. naive_solver.
  - by case_match.
  - by case_match.
  - by case_match.
  - by destruct (apply_genesis _ _ _) as [[|] ?].
Qed.

(** The snapshot of a projected reply. *)
Lemma client_reply_snapshot state group c res snap :
  crv_snapshot (client_reply_for state group c res) = Some snap ->
  rsv_value_redacted snap = clr_replayed res /\
  (forall v, rsv_value snap = Some v -> clr_replayed res = false /\
     exists key client action row, c = C_Client client action /\
       rsv_resource snap = resource_key_to_wire key /\
       N.land (granted_rights state key (cr_actor client)) RIGHT_READ <> 0 /\
       st_resources state !! key = Some row /\ v = rr_value row).
Proof.
  unfold client_reply_for, client_reply, sr_resource. simpl.
  destruct (sr_snapshot (clr_reply res)) as [saved|]; [|done]. simpl.
  destruct (clr_replayed res); simpl; intros [= <-]; simpl; [by split|].
  split; [done|]. intros v Hv. split; [done|]. destruct c as [|client action| | | | | |]; try done.
  simpl in Hv. destruct (N.eqb_spec (N.land (granted_rights state (ss_resource saved) (cr_actor client)) RIGHT_READ) 0);
    [done|]. simpl in Hv. apply fmap_Some in Hv as (row & Hrow & ->).
  exists (ss_resource saved), client, action, row. auto.
Qed.

(** A register value leaves the machine only towards a reader. Whenever a
    reply carries one, the command was a narrowed client command answered
    afresh, its actor holds READ on exactly that resource in the state the
    command left, and the bytes are the ones that state holds; a replayed
    answer, and only one, is marked redacted, and carries none. *)
Theorem register_value_needs_read log_id group w tx reply tx' snap :
  apply_wire_command_recording log_id group w tx = (Ok (RV_Client reply), tx') ->
  crv_snapshot reply = Some snap ->
  (forall v, rsv_value snap = Some v ->
     rsv_value_redacted snap = false /\
     exists key client action row, command_for_apply w = Ok (C_Client client action) /\
       rsv_resource snap = resource_key_to_wire key /\
       N.land (granted_rights (tx_state tx') key (cr_actor client)) RIGHT_READ <> 0 /\
       st_resources (tx_state tx') !! key = Some row /\ v = rr_value row) /\
  (rsv_value_redacted snap = true <->
     exists c client row saved, command_for_apply w = Ok c /\ command_client c = Some client /\
       classify_client (tx_state tx) client = Replay row saved).
Proof.
  unfold apply_wire_command_recording, apply_command_recording.
  destruct (command_for_apply w) as [c|e]; [|done].
  destruct (guard_delivery _ _); [|done].
  destruct (dispatch log_id c tx) as [[r|f] tx1] eqn:Hd; [|done].
  destruct r as [res|sys|ret]; simpl; [|done..]. intros [= <- <-] Hsnap.
  apply client_reply_snapshot in Hsnap as [Hred Hval]. rewrite Hred. split.
  - intros v Hv. destruct (Hval v Hv) as (Hr & key & client & action & row & -> & ? & ? & ? & ?).
    split; [done|]. exists key, client, action, row. auto.
  - rewrite (dispatch_replayed _ _ _ _ _ Hd). naive_solver.
Qed.

(** ** The conditions on a log *)

(** A concrete operation lists a concrete result. *)
Ltac listed :=
  eexists; split; [reflexivity|apply (bool_decide_unpack _); vm_compute; exact I].

(** The hash a client signs commits to one operation. *)
Definition hash_names_operation (op_of_hash : Hash -> Z) : Prop :=
  forall a h, request_hash a = Ok h -> op_of_hash h = wire_operation_code a.

Lemma wire_resource_valid a : keys_valid (wire_resource a).
Proof.
  intros key. destruct a; simpl; try done; destruct (validate _) eqn:Hv; simpl; intros [= <-];
    eauto using validate_valid.
Qed.

(** The wire operation code is the model's, and for a known action a client one. *)
Lemma action_operation_code a m : action_from_wire a = Ok m -> operation_code m = wire_operation_code a.
Proof.
  destruct a as [| | | | | | | |m'| |]; simpl; unfold narrow_fence; narrow_widths; try done;
    try (by intros [= <-]).
  repeat (destruct (narrow_option _ _) || destruct (narrow_all _ _); simpl; [|done]). by intros [= <-].
Qed.

Lemma wire_client_operation a : (forall case, a <> AV_Unknown case) -> client_operation (wire_operation_code a).
Proof.
  intros Ha. destruct a; [..|by destruct (Ha case)];
    (split; [done|]; listed).
Qed.

Lemma shape_rejection_ok op_of_hash log_id w :
  unknown_variant w = false ->
  (forall client operation resource, shape_rejection w = C_RejectedClient client operation resource ->
     op_of_hash (cr_request_hash client) = operation) ->
  command_ok op_of_hash log_id (shape_rejection w).
Proof.
  intros Hu Hop. destruct w as [c| | | | |]; try done.
  - assert (client_operation (wire_operation_code (ccv_action c))).
    { apply wire_client_operation. intros case Hc. simpl in Hu. by rewrite Hc in Hu. }
    destruct (shape_rejection_client c) as [[_ Heq]|(_ & ? & Heq & _)]; rewrite Heq in *; simpl.
    + split_and!; [exact (Hop _ _ _ eq_refl)|done|apply wire_resource_valid].
    + split; [apply wire_resource_valid|done].
  - split; [done|]; split; [done|]; listed.
  - split; [done|]; split; [done|]; listed.
  - split; [done|]; split; [done|]; listed.
Qed.

(** What the boundary lets into the log is what the log theorems assume. If
    a request hash commits to one operation, then every command narrowing
    produces is well formed: keys come from the validating constructor, the
    hash of a client command names its own operation, and a rejection carries
    an operation and a result code of its own kind. Two conditions are left to
    the proposer, and both are needed: the hash of a *rejected* client command
    is not checked against its action, and an observed membership position is
    not checked against the log. *)
Theorem narrowed_commands_fit_the_log op_of_hash log_id w c :
  hash_names_operation op_of_hash -> command_for_apply w = Ok c ->
  (forall client operation resource, c = C_RejectedClient client operation resource ->
     op_of_hash (cr_request_hash client) = operation) ->
  (forall p id, c = C_MembershipProgress p -> mpc_observed_membership_log_id p = Some id ->
     li_index id <= li_index log_id) ->
  command_ok op_of_hash log_id c.
Proof.
  intros Hash Hfor Hrej Hobs. unfold command_for_apply in Hfor.
  destruct (unknown_variant w) eqn:Hu; [done|].
  assert (c = shape_rejection w -> command_ok op_of_hash log_id c) as Hs.
  { intros ->. by apply shape_rejection_ok. }
  destruct (oversized w); [apply Hs; congruence|].
  destruct (command_from_wire w) as [cmd|[]] eqn:Hc; [|done|apply Hs; congruence].
  injection Hfor as ->. destruct w as [c'| | | | |].
  - apply command_from_wire_client in Hc as (a & -> & _ & Ha & Hh). simpl.
    rewrite (Hash _ _ Hh). symmetry. by apply action_operation_code.
  - simpl in Hc. destruct (validate _) eqn:Hv; [|done]. injection Hc as <-. by eapply validate_valid.
  - simpl in Hc. revert Hc. narrow_widths; [|done]. destruct (narrow_option _ _); simpl; [|done].
    intros [= <-] id. by apply Hobs.
  - simpl in Hc. revert Hc. narrow_widths; try done. by intros [= <-].
  - simpl in Hc. by injection Hc as <-.
  - simpl in Hc. by injection Hc as <-.
Qed.
End ingress.

(** ** A concrete boundary

    The codec writes an action as its operation code and the digest repeats
    the last byte, so the hash of an action names its operation. *)

#[local] Instance ingress_carrier : UnknownCarrier := unit.

Definition code_byte (code : Z) : byte := default Byte.x00 (Strings.Byte.of_N (Z.to_N code)).

#[local] Instance ingress_codec : CommandCodec :=
  {| fory_encode_action := λ a, Some [code_byte (wire_operation_code a)];
     fory_encode_command := λ _, Some [] |}.

#[local] Instance ingress_externals : Externals :=
  {| fory_encode_change_membership := λ p, Some (cmv_operation_id p);
     fory_encode_genesis := λ _, Some [];
     fory_encode_permit := λ _, Some [];
     fory_decode_signed_document := λ _, None;
     fory_decode_genesis := λ _, None;
     fory_decode_permit := λ _, None;
     ed25519_key_accepted := λ _, true;
     ed25519_signature_accepted := λ _, true;
     ed25519_verify := λ _ _ _, true;
     blake3 := λ b, replicate 32 (List.last b Byte.x00);
     bs58_encode := λ b, b;
     bs58_decode := Some |}.

(** An acquisition of the run's resource under a fresh client identity, after
    the value was written and the first lease released. *)
Definition wire_acquire : CommandV1 :=
  CV_Client {| ccv_actor_node_id := sample_voter;
               ccv_client_id := replicate 16 Byte.x09;
               ccv_sequence := 1;
               ccv_request_hash := replicate 32 Byte.x01;
               ccv_action := AV_Acquire (mk_ResourceKeyV1 [Byte.x61] [Byte.x6b]) 5000 |}.

Definition wire_op (h : Hash) : Z := from_option (λ b, Z.of_N (Strings.Byte.to_N b)) 0%Z (head h).

Definition ingress_tx : Tx := mk_Tx (run_state 7) ChangeSet_default.

Lemma wire_apply_total_witness :
  guard_delivery (tx_state ingress_tx) (at_index 20) = Ok () /\
  unknown_variant wire_acquire = false /\
  (exists reply tx', apply_wire_command_recording (at_index 20) [] wire_acquire ingress_tx = (Ok reply, tx') /\
     variant_id reply = Some 1).
Proof.
  assert (guard_delivery (tx_state ingress_tx) (at_index 20) = Ok ()) as Hg by (vm_compute; reflexivity).
  split; [exact Hg|]. split; [reflexivity|].
  pose proof (wire_apply_total (at_index 20) [] wire_acquire ingress_tx Hg) as H.
  destruct (apply_wire_command_recording (at_index 20) [] wire_acquire ingress_tx) as [[reply|f] tx'].
  - exists reply, tx'. split; [reflexivity|exact (proj1 (proj2 H))].
  - exfalso. destruct H as [H1 [_ [->|(s & e & H2 & _)]]]; [|discriminate H2].
    discriminate (proj1 H1 eq_refl).
Defined.

(** The reply of the acquisition, with the value the reader is handed. *)
Definition reply_value (r : result CommandReplyV1 Fault) : option bytes :=
  match r with
  | Ok (RV_Client c) => crv_snapshot c ≫= rsv_value
  | _ => None
  end.

Lemma register_value_needs_read_witness :
  reply_value (apply_wire_command_recording (at_index 20) [] wire_acquire ingress_tx).1 = Some [Byte.x76] /\
  exists key client action row, command_for_apply wire_acquire = Ok (C_Client client action) /\
    st_resources (tx_state (apply_wire_command_recording (at_index 20) [] wire_acquire ingress_tx).2) !! key
      = Some row /\ [Byte.x76] = rr_value row.
Proof.
  assert (reply_value (apply_wire_command_recording (at_index 20) [] wire_acquire ingress_tx).1
    = Some [Byte.x76]) as Hv by (vm_compute; reflexivity).
  split; [exact Hv|].
  destruct (apply_wire_command_recording (at_index 20) [] wire_acquire ingress_tx) as [r tx'] eqn:E.
  destruct r as [[c| | | |]|]; try discriminate Hv. simpl in Hv.
  destruct (crv_snapshot c) as [snap|] eqn:Hs; [|discriminate Hv].
  destruct (proj1 (register_value_needs_read _ _ _ _ _ _ _ E Hs) _ Hv)
    as (_ & key & client & action & row & H1 & _ & _ & H2 & H3).
  exists key, client, action, row. exact (conj H1 (conj H2 H3)).
Defined.

Lemma wire_op_names : hash_names_operation wire_op.
Proof.
  intros a h H. destruct a; try discriminate H; injection H as <-; reflexivity.
Qed.

Lemma narrowed_commands_fit_the_log_witness :
  exists client action, command_for_apply wire_acquire = Ok (C_Client client action) /\
    command_ok wire_op (at_index 20) (C_Client client action).
Proof.
  eexists _, _. split; [reflexivity|].
  apply (narrowed_commands_fit_the_log wire_op (at_index 20) wire_acquire); [exact wire_op_names|reflexivity| |].
  - intros ? ? ? H. discriminate H.
  - intros ? ? H. discriminate H.
Defined.
