(* ===== verification/Typing.v ===== *)
(** * The widths of the arrays in stored values

    The source gives node ids, digests and operation ids fixed-width array
    types; the model keeps them as byte lists, and [state_typed] states the
    widths. Here every command the boundary admits is well typed, and every
    command keeps the state well typed, so the widths are an invariant of the
    machine and not an assumption about it. *)

From S2P Require Import Prelude Reason Ids Contract Externals Limits State Tables Classify Ticket.
From S2P Require Import Authority Shape Genesis Resource Grant Retire Membership Apply.
From S2P Require Import Wire Boundary Changes Durable Scenario Accounting Invariant AuditTrail.
From S2P Require Import Steps SessionTable MembershipTable RouteTable Preservation.
From S2P Require Import Validation Refinement Leases Sessions Lifecycle StoredRows Ingress.

#[local] Open Scope N_scope.

(** The arrays of a command. *)
Definition client_typed (c : ClientRef) : Prop := len (cr_actor c) = 32 /\ len (cr_request_hash c) = 32.

Definition action_typed (a : Action) : Prop :=
  match a with
  | A_ChangeMembership m =>
      len (cha_operation_id m) = 16 /\ log_ids_typed (cha_expected_membership_log_id m) /\
      plan_typed (cha_plan m)
  | A_CancelMembership m => len (caa_operation_id m) = 16
  | A_Resource _ | A_Grant _ | A_Admin _ => True
  end.

Definition command_typed (c : Command) : Prop :=
  match c with
  | C_Client client action => client_typed client /\ action_typed action
  | C_RejectedClient client _ _ => client_typed client
  | C_Shapeless s => width_typed 32 (shc_actor s)
  | C_MembershipProgress p => log_ids_typed (mpc_observed_membership_log_id p)
  | C_RetireClient r => len (rc_actor r) = 32
  | C_Unknown | C_Expire _ | C_Genesis _ => True
  end.

(** The state with the membership position it answers with. *)
Record machine_typed (s : State) : Prop := {
  mt_state : state_typed s;
  mt_membership : log_ids_typed (st_membership_log_id s);
}.

(** ** The boundary admits typed commands only *)

Lemma narrow_all_elem {A B E} (f : A -> result B E) l l' b :
  narrow_all f l = Ok l' -> b ∈ l' -> exists a, a ∈ l /\ f a = Ok b.
Proof.
  revert l'. induction l as [|a l IH]; intros l'; simpl.
  - intros [= <-] Hb. by apply elem_of_nil in Hb.
  - destruct (f a) eqn:Hf; [|done]. destruct (narrow_all f l) as [bs|]; [|done]. intros [= <-].
    intros [->|Hb]%elem_of_cons; [exists a; split; [left|done]|].
    destruct (IH bs eq_refl Hb) as (x & ? & ?). exists x. split; [by right|done].
Qed.

Lemma narrow_log_ids o o' : narrow_option narrow_log_id o = Ok o' -> log_ids_typed o'.
Proof.
  destruct o as [id|]; simpl; [|by intros [= <-]]. unfold narrow_log_id, log_id_from_wire, wire_node_id.
  destruct (narrow_width 32 _ _) as [n|] eqn:Hn; [|done]. intros [= <-] id' [= <-].
  apply narrow_width_Ok in Hn as [-> ?]. done.
Qed.

Lemma narrow_node_ids l l' n :
  narrow_all (λ v, narrow_node_id (nv_node_id v)) l = Ok l' -> n ∈ l' -> len n = 32.
Proof. intros H Hn. destruct (narrow_all_elem _ _ _ _ H Hn) as (v & _ & Hv). by apply narrow_width_Ok in Hv as [-> ?]. Qed.

Section admitted.
Context `{Carrier : UnknownCarrier} `{Ext : Externals} {Codec : CommandCodec}.

Lemma action_from_wire_typed a m : action_from_wire a = Ok m -> action_typed m.
Proof.
  destruct a as [| | | | | | | |w| |]; simpl; unfold narrow_fence; narrow_widths; try done;
    try (by intros [= <-]).
  destruct (narrow_option narrow_log_id _) eqn:Hl; simpl; [|done].
  destruct (narrow_all _ (cmv_desired_voters w)) eqn:Hv; simpl; [|done].
  destruct (narrow_all _ (cmv_retained_learners w)) eqn:Hr; simpl; [|done].
  destruct (narrow_all narrow_seed _) eqn:Hs; simpl; [|done]. intros [= <-]. simpl.
  split_and!; [done|by eapply narrow_log_ids|]. split; simpl.
  - intros n. by eapply narrow_node_ids.
  - intros n. by eapply narrow_node_ids.
  - intros s Hin. destruct (narrow_all_elem _ _ _ _ Hs Hin) as (w' & _ & Hw). revert Hw.
    unfold narrow_seed. narrow_widths; [|done]. by intros [= <-].
Qed.

Lemma shape_rejection_typed w : command_typed (shape_rejection w).
Proof.
  destruct w as [c| | | | |]; try done.
  - destruct (shape_rejection_client c) as [[(? & ? & ?) ->]|(_ & actor & -> & ->)]; [done|].
    simpl. destruct (N.eqb_spec (len (ccv_actor_node_id c)) 32); by intros ? [= <-].
  - simpl. narrow_widths; by intros ? [= <-].
Qed.

Lemma command_for_apply_typed w c : command_for_apply w = Ok c -> command_typed c.
Proof.
  unfold command_for_apply. destruct (unknown_variant w); [done|]. intros H.
  pose proof (shape_rejection_typed w) as Hs. destruct (oversized w); [congruence|].
  destruct (command_from_wire w) as [cmd|[]] eqn:Hc; [|done|congruence]. injection H as ->.
  destruct w as [c'| | | | |].
  - apply command_from_wire_client in Hc as (a & -> & (? & ? & ?) & Ha & _).
    split; [done|by eapply action_from_wire_typed].
  - simpl in Hc. case_match; [|done]. by injection Hc as <-.
  - simpl in Hc. revert Hc. narrow_widths; [|done]. destruct (narrow_option _ _) eqn:Hl; simpl; [|done].
    intros [= <-]. by eapply narrow_log_ids.
  - simpl in Hc. revert Hc. narrow_widths; try done. by intros [= <-].
  - simpl in Hc. by injection Hc as <-.
  - simpl in Hc. by injection Hc as <-.
Qed.
End admitted.

(** ** Every writer keeps the widths *)

Lemma audit_shrinks_one tx k r :
  st_audit (tx_state (prune_one tx)) !! k = Some r -> st_audit (tx_state tx) !! k = Some r.
Proof.
  unfold prune_one. destruct (btree_iter _) as [|[k' r'] t]; [done|]. simpl.
  intros [_ H]%lookup_delete_Some. done.
Qed.

Lemma audit_shrinks fuel tx k r :
  st_audit (tx_state (prune_loop fuel tx)) !! k = Some r -> st_audit (tx_state tx) !! k = Some r.
Proof.
  revert tx. induction fuel as [|fuel IH]; intros tx; simpl; [done|].
  destruct (_ <? _); [|done]. intros H%IH. by apply audit_shrinks_one.
Qed.

(** A row after the audit writer is the new one or an old one. *)
Lemma write_audit_row_lookup log_id row tx k r :
  st_audit (tx_state (write_audit_row log_id row tx)) !! k = Some r ->
  r = row \/ st_audit (tx_state tx) !! k = Some r.
Proof.
  unfold write_audit_row, prune_audit. intros H%audit_shrinks. simpl in H.
  apply lookup_insert_Some in H as [[_ <-]|[_ H]]; auto.
Qed.

Lemma write_audit_row_typed log_id row tx :
  machine_typed (tx_state tx) -> audit_typed row -> machine_typed (tx_state (write_audit_row log_id row tx)).
Proof.
  intros [[Tr Ts Ti To Ta] Tm] Hrow. destruct (write_audit_row_frame log_id row tx). split; [|by rewrite ao_membership_log_id].
  split; intros k r; [rewrite ao_resources|rewrite ao_sessions|rewrite ao_intents|rewrite ao_routes|]; auto.
  - apply Tr.
  - apply Ts.
  - apply To.
  - intros [->|H]%write_audit_row_lookup; [done|by eapply Ta].
Qed.

Lemma store_session_typed key row tx :
  machine_typed (tx_state tx) -> session_typed row -> machine_typed (tx_state (store_session key row tx)).
Proof.
  intros [[Tr Ts Ti To Ta] Tm] Hrow. split; [|done]. split; [done| |done..]. intros k r. simpl.
  intros [[_ <-]|[_ H]]%lookup_insert_Some; [done|by eapply Ts].
Qed.

Lemma put_resource_typed key row tx :
  machine_typed (tx_state tx) -> width_typed 32 (rr_holder row) ->
  machine_typed (tx_state (put_resource key row tx)).
Proof.
  intros [[Tr Ts Ti To Ta] Tm] Hrow. split; [|done]. split; [|done..]. intros k r. simpl.
  intros [[_ <-]|[_ H]]%lookup_insert_Some; [done|by eapply Tr].
Qed.

(** What no table of arrays sees. *)
Lemma machine_typed_ext s s' :
  st_resources s' = st_resources s -> st_sessions s' = st_sessions s -> st_intents s' = st_intents s ->
  st_routes s' = st_routes s -> st_audit s' = st_audit s ->
  st_membership_log_id s' = st_membership_log_id s -> machine_typed s -> machine_typed s'.
Proof.
  intros E1 E2 E3 E4 E5 E6 [[] Tm]. split; [|by rewrite E6]. split; rewrite ?E1, ?E2, ?E3, ?E4, ?E5; done.
Qed.

Section writers.
Context `{Ext : Externals}.

Lemma stamp_intent_typed log_id i : log_id_typed log_id -> intent_typed i -> intent_typed (stamp_intent log_id i).
Proof.
  intros Hl []. split; simpl; try done.
  - by destruct (_ =? _).
  - destruct (_ && _); [|done]. by intros ? [= <-].
Qed.

Lemma write_intent_typed log_id e tx :
  machine_typed (tx_state tx) -> log_id_typed log_id ->
  len (ie_operation_id e) = 16 -> intent_typed (ie_intent e) ->
  (forall n r, (n, r) ∈ ie_routes e -> route_typed r) ->
  machine_typed (tx_state (write_intent log_id e tx)).
Proof.
  intros [[Tr Ts Ti To Ta] Tm] Hl Hop Hi Hroutes.
  destruct (write_intent_frame log_id e tx). destruct (write_intent_tables log_id e tx) as [HI HR].
  split; [|by rewrite mo_membership_log_id].
  split; intros k r; [rewrite mo_resources|rewrite mo_sessions|rewrite HI|rewrite HR|rewrite mo_audit].
  - apply Tr.
  - apply Ts.
  - unfold intents_after. intros [[<- <-]|[_ H]]%lookup_insert_Some; [auto using stamp_intent_typed|].
    rewrite foldl_delete_lookup in H. case_match; [done|by apply Ti].
  - intros [(r0 & Hin & ->)|H]%routes_after_lookup; [|by eapply To].
    destruct (Hroutes _ _ Hin) as [Ho Hlg]. split; simpl; [done|]. by destruct (_ =? _).
  - apply Ta.
Qed.

(** ** Every decision writes typed rows *)

Lemma resource_decide_holder st actor a e :
  resource_decide st actor a = RD_Apply e ->
  rr_holder (re_row e) = None \/ rr_holder (re_row e) = Some actor \/
  exists row, st_resources st !! re_key e = Some row /\ rr_holder (re_row e) = rr_holder row.
Proof.
  intros H. pose proof (resource_decide_accepted _ _ _ _ H) as Ha.
  unfold resource_decide, decide_acquire, decide_renew, decide_compare_and_set, decide_release,
    decide_release_with_value, decide_revoke, cleared_lease in H.
  repeat (case_match; try discriminate H); injection H as <-; simpl in *; eauto.
Qed.

Section decided.
Context (log_id : LogId) (client : ClientRef) (tx : Tx).
Context (Htx : machine_typed (tx_state tx)) (Hlog : log_id_typed log_id) (Hclient : client_typed client).

Lemma row_typed key : width_typed 32 (rr_holder (default ResourceRow_default (st_resources (tx_state tx) !! key))).
Proof.
  destruct (st_resources (tx_state tx) !! key) eqn:H; simpl; [by eapply (sty_resources _ (mt_state _ Htx))|done].
Qed.

Lemma rejection_typed resource reason : reply_typed (rejection (tx_state tx) resource reason).
Proof. split; [|done..]. destruct resource as [key|]; [|done]. intros s [= <-]. apply row_typed. Qed.

Lemma success_typed outcome key row :
  width_typed 32 (rr_holder row) -> reply_typed (clr_reply (consumed_success outcome key row)).
Proof. split; [|done..]. by intros s [= <-]. Qed.

Lemma membership_reply_typed outcome id log :
  len id = 16 -> log_ids_typed log -> reply_typed (clr_reply (membership_reply outcome id log)).
Proof. intros ? ?. split; [done| |done]. by intros ? [= <-]. Qed.

(** The write and the answer of a decided action. *)
Definition decided_typed (action : Action) : Prop :=
  machine_typed (tx_state (apply_decided log_id client action tx).2) /\
  reply_typed (clr_reply (apply_decided log_id client action tx).1).

Lemma decided_resource_typed a : decided_typed (A_Resource a).
Proof.
  unfold decided_typed, apply_decided. simpl action_decide.
  destruct (resource_decide _ _ a) as [e|r|l] eqn:Hd; cbn [fst snd clr_reply]; auto using rejection_typed.
  assert (width_typed 32 (rr_holder (re_row e))) as Hw.
  { destruct (resource_decide_holder _ _ _ _ Hd) as [->|[->|(row & Hrow & ->)]]; [done| |].
    - intros ? [= <-]. apply Hclient.
    - by eapply (sty_resources _ (mt_state _ Htx)). }
  split; [|by apply success_typed]. apply put_resource_typed; [|done].
  by apply (machine_typed_ext (tx_state tx)).
Qed.

Lemma write_grant_typed e :
  width_typed 32 (rr_holder (gre_row e)) -> machine_typed (tx_state (write_grant e tx)).
Proof.
  intros Hw. pose proof (put_resource_typed (gre_key e) (gre_row e)
    (charge_resource_row (gre_key e) (len (rr_value (gre_row e))) tx)) as Hp.
  specialize (Hp ltac:(by apply (machine_typed_ext (tx_state tx))) Hw). unfold write_grant, remove_grant.
  destruct (gre_rights e) as [rights|]; [destruct (gre_creates_acl_row e)|];
    repeat case_match; simplify_eq/=; revert Hp; by apply machine_typed_ext.
Qed.

Lemma decided_grant_typed a : decided_typed (A_Grant a).
Proof.
  unfold decided_typed, apply_decided. simpl action_decide.
  destruct (grant_decide _ _ a) as [e|n|r|l] eqn:Hd; cbn [fst snd clr_reply]; auto using rejection_typed.
  - assert (width_typed 32 (rr_holder (gre_row e))) as Hw.
    { rewrite (gac_row _ _ _ _ (grant_decide_accepted _ _ _ _ Hd)). simpl.
      destruct (gre_fenced e); [done|apply row_typed]. }
    split; [by apply write_grant_typed|by apply success_typed].
  - split; [done|]. split; [|done..]. simpl. intros s (key & _ & Hs)%bind_Some.
    apply fmap_Some in Hs as (row & Hrow & ->). by eapply (sty_resources _ (mt_state _ Htx)).
Qed.

Lemma decided_admin_typed a : decided_typed (A_Admin a).
Proof.
  unfold decided_typed, apply_decided. simpl action_decide.
  destruct (admin_decide _ _ a) as [e|n|r] eqn:Hd; cbn [fst snd clr_reply]; auto using rejection_typed; [|by split].
  split; [|done]. unfold write_admin, put_admin, remove_admin.
  repeat case_match; simplify_eq/=; by apply (machine_typed_ext (tx_state tx)).
Qed.

(** An intent rewritten in place keeps its arrays. *)
Lemma rewritten_typed e old :
  rewrites_intent log_id (tx_state tx) e old ->
  log_ids_typed (in_observed_membership_log_id (ie_intent e)) ->
  machine_typed (tx_state (write_intent log_id e tx)).
Proof.
  intros [] Hobs. pose proof (sty_intents _ (mt_state _ Htx) _ _ ri_old) as [Hk []].
  apply write_intent_typed; [done..| |].
  - split; rewrite ?ri_actor, ?ri_hash, ?ri_plan, ?ri_expected, ?ri_accepted, ?ri_completed; done.
  - rewrite (proj1 ri_routes). intros n r H. by apply elem_of_nil in H.
Qed.

Lemma decided_change_typed a : action_typed (A_ChangeMembership a) -> decided_typed (A_ChangeMembership a).
Proof.
  intros (Hop & Hexp & Hplan). unfold decided_typed, apply_decided. simpl action_decide.
  destruct (decide_change _ _ _ a) as [e|n|r|l] eqn:Hd; cbn [fst snd clr_reply]; auto using rejection_typed.
  - apply decide_change_accepted in Hd as [? Hid ? ? ? ? ? Hi ? Hr ? ?]. destruct Hclient as [Ha Hh].
    assert (machine_typed (tx_state (write_intent log_id e tx))) as Hw.
    { apply write_intent_typed; [done|done|congruence|by rewrite Hi|].
      rewrite Hr. intros n r (seed & _ & _ & ->)%routes_from_elem. done. }
    split; [done|]. apply membership_reply_typed; [congruence|apply Hw].
  - split; [done|]. apply membership_reply_typed; [done|apply Htx].
Qed.

Lemma decided_cancel_typed a : action_typed (A_CancelMembership a) -> decided_typed (A_CancelMembership a).
Proof.
  intros Hop. unfold decided_typed, apply_decided. simpl action_decide.
  destruct (decide_cancel _ _ a) as [e|n|r|l] eqn:Hd; cbn [fst snd clr_reply]; auto using rejection_typed.
  - destruct (decide_cancel_rewrites log_id _ _ _ _ Hd) as [old Hr].
    pose proof (sty_intents _ (mt_state _ Htx) _ _ (ri_old _ _ _ _ Hr)) as [Hk Hold].
    assert (machine_typed (tx_state (write_intent log_id e tx))) as Hw.
    { apply (rewritten_typed e old); [done|].
      unfold decide_cancel in Hd. repeat (case_match; try discriminate Hd); injection Hd as <-; simpl in *;
        pose proof (ri_old _ _ _ _ Hr) as Ho; simpl in Ho; simplify_eq; apply Hold. }
    split; [done|]. apply membership_reply_typed; [done|apply Hw].
  - by apply decide_cancel_not_existing in Hd.
Qed.

Lemma apply_decided_typed action : action_typed action -> decided_typed action.
Proof.
  destruct action; auto using decided_resource_typed, decided_grant_typed, decided_admin_typed,
    decided_change_typed, decided_cancel_typed.
Qed.

(** What the classifier answers without a decision. *)
Lemma replay_typed row saved :
  classify_client (tx_state tx) client = Replay row saved -> reply_typed saved.
Proof.
  intros (_ & _ & s & Hs & _ & _ & Hr)%classify_replay_iff.
  by apply (set_reply _ (sty_sessions _ (mt_state _ Htx) _ _ Hs)).
Qed.

(** A client's session row and audit row after its answer [r]. *)
Lemma session_row_typed tx1 r :
  machine_typed (tx_state tx1) -> reply_typed r ->
  machine_typed (tx_state (write_session client (Some r) tx1)).
Proof. intros H1 Hr. apply store_session_typed; [done|]. split; [apply Hclient|]. by intros ? [= <-]. Qed.

Lemma client_audit_typed operation resource res epoch revision :
  audit_typed (mk_AuditRow (li_leader_node_id log_id) (Some (cr_actor client)) operation resource res
                 epoch revision).
Proof. split; [done|]. intros ? [= <-]. apply Hclient. Qed.

Lemma apply_client_typed action :
  action_typed action -> machine_typed (tx_state (apply_client log_id client action tx).2).
Proof.
  intros Ha. unfold apply_client. destruct (classify_client _ _) as [row creates|row saved|row reason] eqn:Hc.
  - destruct (apply_decided_typed action Ha) as [H1 H2]. destruct (apply_decided _ _ _ _) as [r tx1].
    apply write_audit_row_typed; [by apply session_row_typed|apply client_audit_typed].
  - apply write_audit_row_typed; [done|apply client_audit_typed].
  - apply write_audit_row_typed; [done|apply client_audit_typed].
Qed.

Lemma apply_rejected_typed operation resource :
  machine_typed (tx_state (apply_rejected_client log_id client operation resource tx).2).
Proof.
  unfold apply_rejected_client. destruct (classify_client _ _) as [row creates|row saved|row reason].
  - apply write_audit_row_typed; [|apply client_audit_typed]. apply session_row_typed; [done|apply rejection_typed].
  - apply write_audit_row_typed; [done|apply client_audit_typed].
  - apply write_audit_row_typed; [done|apply client_audit_typed].
Qed.
End decided.
End writers.

(** ** Whole batches *)

Section batches.
Context `{Carrier : UnknownCarrier} `{Ext : Externals} {Codec : CommandCodec}.

Lemma leader_audit_typed log_id operation resource code epoch :
  log_id_typed log_id -> audit_typed (system_audit log_id operation resource code epoch).
Proof. intros H. split; [done|]. by intros ? [= <-]. Qed.

Lemma apply_retire_typed log_id c tx :
  machine_typed (tx_state tx) -> log_id_typed log_id -> len (rc_actor c) = 32 ->
  machine_typed (tx_state (apply_retire log_id c tx).2).
Proof.
  intros Htx Hl Ha. unfold apply_retire.
  destruct (retire_decide _ _) as [e|reason] eqn:Hd; simpl;
    (apply write_audit_row_typed; [|by split; [|intros ? [= <-]]]); [|done].
  destruct (effect_row _ _ _) as [row|] eqn:He; [|done]. apply store_session_typed; [done|].
  destruct (retire_effect_row _ _ _ _ Hd He) as [_ Hr].
  destruct (st_sessions _ !! _) as [old|] eqn:Hs.
  - destruct Hr as (_ & _ & Hh & Hres). destruct (sty_sessions _ (mt_state _ Htx) _ _ Hs) as [H1 H2].
    split; [by rewrite Hh|]. rewrite Hres. done.
  - destruct Hr as [-> _]. split; [done|by intros ?].
Qed.

Lemma apply_expire_typed log_id c tx :
  machine_typed (tx_state tx) -> log_id_typed log_id -> machine_typed (tx_state (apply_expire log_id c tx).2).
Proof.
  intros Htx Hl. unfold apply_expire. apply write_audit_row_typed; [|by apply leader_audit_typed].
  destruct (expire_decide _ _) as [row|] eqn:Hd; [|done]. apply put_resource_typed; [done|].
  by apply expire_decide_Apply in Hd as (old & _ & _ & _ & _ & _ & _ & ->).
Qed.

Lemma apply_progress_typed log_id c tx :
  machine_typed (tx_state tx) -> log_id_typed log_id -> log_ids_typed (mpc_observed_membership_log_id c) ->
  machine_typed (tx_state (apply_membership_progress log_id c tx).2).
Proof.
  intros Htx Hl Ho. unfold apply_membership_progress.
  destruct (decide_progress _ _) as [e|] eqn:Hd; simpl;
    (apply write_audit_row_typed; [|by apply leader_audit_typed]); [|done].
  pose proof Hd as Heff. unfold decide_progress in Heff. apply bind_Some in Heff as (old & Hold & Heff).
  repeat (case_match; try discriminate Heff); injection Heff as <-;
  destruct (sty_intents _ (mt_state _ Htx) _ _ Hold) as [Hk []]; (apply write_intent_typed; try done);
    by intros ? ? ?%elem_of_nil.
Qed.

Lemma install_admins_typed admins tx :
  machine_typed (tx_state tx) -> machine_typed (tx_state (install_admins admins tx)).
Proof.
  intros Htx. unfold install_admins. simpl.
  assert (machine_typed (tx_state (foldl (λ tx admin, snd (put_admin admin tx)) tx admins))) as H.
  { revert tx Htx. induction admins as [|a l IH]; intros tx Htx; simpl; [done|]. apply IH.
    revert Htx. by apply machine_typed_ext. }
  revert H. by apply machine_typed_ext.
Qed.

Lemma apply_genesis_typed log_id signed tx :
  machine_typed (tx_state tx) -> log_id_typed log_id ->
  machine_typed (tx_state (apply_genesis log_id signed tx).2).
Proof.
  intros Htx Hl. unfold apply_genesis. repeat case_match; simpl; try done;
    (apply write_audit_row_typed; [|by apply leader_audit_typed]); auto using install_admins_typed.
Qed.

Lemma dispatch_typed log_id c tx :
  machine_typed (tx_state tx) -> log_id_typed log_id -> command_typed c ->
  machine_typed (tx_state (dispatch log_id c tx).2).
Proof.
  intros Htx Hl Hc. unfold dispatch. destruct c as [|client action|client op res|s|e|p|r|signed].
  - done.
  - destruct Hc as [H1 H2]. pose proof (apply_client_typed log_id client tx Htx Hl H1 action H2).
    by destruct (apply_client _ _ _ _).
  - pose proof (apply_rejected_typed log_id client tx Htx Hl Hc op res).
    by destruct (apply_rejected_client _ _ _ _ _).
  - apply write_audit_row_typed; [done|]. split; [done|]. simpl.
    destruct (shc_reply_shape s); [done|done|]. by intros ? [= <-].
  - pose proof (apply_expire_typed log_id e tx Htx Hl). by destruct (apply_expire _ _ _).
  - pose proof (apply_progress_typed log_id p tx Htx Hl Hc). by destruct (apply_membership_progress _ _ _).
  - pose proof (apply_retire_typed log_id r tx Htx Hl Hc). by destruct (apply_retire _ _ _).
  - pose proof (apply_genesis_typed log_id signed tx Htx Hl). by destruct (apply_genesis _ _ _) as [[]].
Qed.

(** An entry of the log as Raft and the boundary deliver it. *)
Definition admitted (entry : LogId * Payload) : Prop :=
  log_id_typed entry.1 /\
  match entry.2 with
  | P_Normal c => exists w, command_for_apply w = Ok c
  | P_Blank | P_Membership _ => True
  end.

Lemma apply_entry_typed log_id p w reply w' :
  machine_typed (tx_state (wk_tx w)) -> admitted (log_id, p) ->
  apply_entry log_id p w = Ok (reply, w') -> machine_typed (tx_state (wk_tx w')).
Proof.
  intros Htx [Hl Hp] H. unfold apply_entry in H. simpl in Hl, Hp. destruct p as [|m|c].
  - destruct (guard_delivery _ _); [|done]. injection H as <- <-. revert Htx. by apply machine_typed_ext.
  - destruct (guard_delivery _ _); [|done]. repeat (case_match; try discriminate H). injection H as <- <-.
    destruct Htx as [[] _]. split; [by split|]. by intros ? [= <-].
  - destruct Hp as [wire Hw]. apply command_for_apply_typed in Hw. unfold apply_command_recording in H.
    destruct (guard_delivery _ _); [|done]. pose proof (dispatch_typed log_id c (wk_tx w) Htx Hl Hw) as Hd.
    destruct (dispatch _ _ _) as [[r|] tx1]; [|done]. injection H as <- <-. revert Hd. by apply machine_typed_ext.
Qed.

Lemma apply_entries_typed entries w replies w' :
  machine_typed (tx_state (wk_tx w)) -> (forall e, e ∈ entries -> admitted e) ->
  apply_entries entries w = Ok (replies, w') -> machine_typed (tx_state (wk_tx w')).
Proof.
  revert w replies. induction entries as [|[id p] rest IH]; intros w replies Ht Ha; cbn [apply_entries].
  - by intros [= <- <-].
  - destruct (apply_entry id p w) as [[r w1]|] eqn:He; [|done].
    destruct (apply_entries rest w1) as [[rs w2]|] eqn:Hr; [|done]. intros [= <- <-].
    eapply IH; [|intros e Hin; apply Ha; by right|done].
    eapply apply_entry_typed; [done|apply Ha; left|done].
Qed.

(** The fixed-width arrays [state_typed] lists stay fixed-width: applying any
    batch of entries that came through the boundary, from a well-typed store,
    gives a well-typed one. *)
Theorem admitted_batches_keep_the_widths d t entries replies d' t' :
  machine_typed (ds_model d) -> (forall e, e ∈ entries -> admitted e) ->
  apply_batch entries d t = Ok (replies, d', t') -> machine_typed (ds_model d').
Proof.
  intros Ht Ha Happ. unfold apply_batch in Happ. set (w := mk_Working _ _) in *.
  destruct (apply_entries entries w) as [[rs w']|] eqn:He; [|done]. injection Happ as <- <- <-.
  by apply (apply_entries_typed entries w rs w').
Qed.
End batches.

Lemma bound_typed authority profile : machine_typed (bound_state authority profile).
Proof. split; [|done]. split; done. Qed.

#[local] Existing Instances ingress_carrier ingress_codec ingress_externals.

(** A first membership and the acquisition, from a bound store. *)
Definition typed_entries : list (LogId * Payload) :=
  [(at_index 1, P_Membership run_membership);
   (at_index 2, P_Normal (default C_Unknown (result_ok (command_for_apply wire_acquire))))].

Lemma admitted_batches_keep_the_widths_witness :
  exists replies d' t', apply_batch typed_entries run_store (tables_of run_initial) = Ok (replies, d', t') /\
    machine_typed (ds_model d') /\ size (st_sessions (ds_model d')) = 1%nat.
Proof.
  destruct (apply_batch typed_entries run_store (tables_of run_initial)) as [[[r d'] t']|] eqn:E.
  - exists r, d', t'. split; [reflexivity|]. split.
    + refine (admitted_batches_keep_the_widths _ _ _ _ _ _ _ _ E).
      * apply bound_typed.
      * intros e [->|[->|[]%elem_of_nil]%elem_of_cons]%elem_of_cons;
          (split; [reflexivity|]); [exact I|exists wire_acquire; reflexivity].
    + assert (match apply_batch typed_entries run_store (tables_of run_initial) with
              | Ok (_, d, _) => size (st_sessions (ds_model d)) | Err _ => 0%nat end = 1%nat) as H
        by (vm_compute; reflexivity). rewrite E in H. exact H.
  - assert (match apply_batch typed_entries run_store (tables_of run_initial) with
              | Ok _ => True | Err _ => False end) as H by (vm_compute; exact I).
    rewrite E in H. destruct H.
Defined.
