(* ===== verification/CoreLease.v ===== *)
(** * Single-owner fenced leases

    Models [core/src/lease.rs]: the normative serializer state machine, the
    fence rule, the reference in-memory serializer with its clock and restart
    rule, and the holder engine with its renew loop and self-limit. A
    [Duration] and a [tokio] [Instant] are nanosecond counts; [u64] epochs wrap.
    The holder and the serializer run concurrently, so the engine is the step
    relation [world_step]: a renewal is sent, processed, answered and
    completed in separate steps, with other callers, restarts and the passing
    of time in between. *)

From S2P Require Import Prelude.

#[local] Open Scope N_scope.

(** [struct Fence]. *)
Record LeaseFence : Type := mk_LeaseFence {
  lf_resource : bytes;
  lf_epoch : N;
  lf_holder : bytes;
}.

(** [struct LeaseSnapshot]. *)
Record LeaseSnapshot : Type := mk_LeaseSnapshot {
  lsn_resource : bytes;
  lsn_epoch : N;
  lsn_holder : option bytes;
  lsn_held : bool;
  lsn_remaining : option N;
}.

(** [enum LeaseOp]. *)
Inductive LeaseOp : Type :=
| LO_Acquire (candidate : bytes) (ttl : N)
| LO_Renew (holder : bytes) (epoch : N)
| LO_Release (holder : bytes) (epoch : N)
| LO_Revoke (authority : bytes).

(** [LeaseOp::actor]. *)
Definition lease_actor (op : LeaseOp) : bytes :=
  match op with
  | LO_Acquire candidate _ => candidate
  | LO_Renew holder _ | LO_Release holder _ => holder
  | LO_Revoke authority => authority
  end.

(** [enum DenyReason]. *)
Inductive DenyReason : Type :=
| DR_HeldByOther
| DR_EpochMismatch
| DR_NotHolder
| DR_Expired
| DR_NotHeld
| DR_Unauthorized.

(** [enum TransitionOutcome]. *)
Inductive TransitionOutcome : Type :=
| TO_Granted (fence : LeaseFence)
| TO_Renewed
| TO_Released
| TO_Revoked
| TO_Denied (reason : DenyReason) (snapshot : LeaseSnapshot).

(** [struct RowState], [RowState::initial]. *)
Record RowState : Type := mk_RowState {
  ros_epoch : N;
  ros_holder : option bytes;
  ros_held : bool;
  ros_ttl : N;
}.

Definition RowState_initial : RowState := mk_RowState 0 None false 0.

(** [enum Transition]. *)
Inductive Transition : Type :=
| T_Apply (next : RowState) (outcome : TransitionOutcome) (reset_grant : bool)
| T_Deny (reason : DenyReason).

(** [transition]. *)
Definition lease_transition (row : RowState) (expired : bool) (op : LeaseOp) (resource : bytes)
    : Transition :=
  match op with
  | LO_Acquire candidate ttl =>
      if ros_held row && negb expired then T_Deny DR_HeldByOther
      else
        let next := mk_RowState (u64_add (ros_epoch row) 1) (Some candidate) true ttl in
        T_Apply next (TO_Granted (mk_LeaseFence resource (ros_epoch next) candidate)) true
  | LO_Renew holder epoch =>
      if negb (ros_held row) then T_Deny DR_NotHeld
      else if negb (epoch =? ros_epoch row) then T_Deny DR_EpochMismatch
      else if negb (bool_decide (ros_holder row = Some holder)) then T_Deny DR_NotHolder
      else if expired then T_Deny DR_Expired
      else T_Apply row TO_Renewed true
  | LO_Release holder epoch =>
      if negb (epoch =? ros_epoch row) then T_Deny DR_EpochMismatch
      else if negb (bool_decide (ros_holder row = Some holder)) then T_Deny DR_NotHolder
      else T_Apply (mk_RowState (u64_add (ros_epoch row) 1) None false (ros_ttl row)) TO_Released false
  | LO_Revoke _ =>
      T_Apply (mk_RowState (u64_add (ros_epoch row) 1) None false (ros_ttl row)) TO_Revoked false
  end.

(** [enum FenceRejection]. *)
Inductive FenceRejection : Type :=
| StaleEpoch (carried current : N)
| FR_NotHolder
| FR_NotHeld
| FutureEpoch (carried current : N).

(** [check_fence]. *)
Definition lease_check_fence (row : RowState) (fence : LeaseFence) (writer : bytes)
    : result () FenceRejection :=
  if lf_epoch fence <? ros_epoch row then Err (StaleEpoch (lf_epoch fence) (ros_epoch row))
  else if ros_epoch row <? lf_epoch fence then Err (FutureEpoch (lf_epoch fence) (ros_epoch row))
  else if negb (ros_held row) then Err FR_NotHeld
  else if negb (bool_decide (ros_holder row = Some writer)) then Err FR_NotHolder
  else Ok ().

(** [struct MemRow]. *)
Record MemRow : Type := mk_MemRow {
  mr_state : RowState;
  mr_granted_at : option N;
}.

(** The rows [MemorySerializer] guards with its lock. *)
Abbreviation MemRows := (gmap bytes MemRow).

(** The state of a row that may be absent. *)
Definition row_state (row : option MemRow) : RowState := from_option mr_state RowState_initial row.

(** [MemorySerializer::restart]. *)
Definition restart (now : N) (rows : MemRows) : MemRows :=
  (λ row, mk_MemRow (mr_state row) (if ros_held (mr_state row) then Some now else None)) <$> rows.

(** [MemorySerializer::mutate_fenced], with what the closure returns. *)
Definition mutate_fenced {R : Type} (rows : MemRows) (fence : LeaseFence) (writer : bytes) (f : R)
    : result R FenceRejection :=
  match lease_check_fence (row_state (rows !! lf_resource fence)) fence writer with
  | Err e => Err e
  | Ok _ => Ok f
  end.

(** [MemorySerializer::snapshot_locked]; an [Instant] difference saturates. *)
Definition snapshot_locked (resource : bytes) (row : option MemRow) (now : N) : LeaseSnapshot :=
  let state := row_state row in
  let granted_at := row ≫= mr_granted_at in
  mk_LeaseSnapshot resource (ros_epoch state) (ros_holder state) (ros_held state)
    (if ros_held state then (λ at', u64_saturating_sub (ros_ttl state) (now - at')) <$> granted_at
     else None).

(** Is the row expired by the serializer's clock. *)
Definition is_expired (row : option MemRow) (now : N) : bool :=
  ros_held (row_state row)
  && match row ≫= mr_granted_at with
     | None => true
     | Some at' => ros_ttl (row_state row) <=? now - at'
     end.

(** [MemorySerializer::transition], at the instant the lock is taken. *)
Definition serializer_transition (authorizer : option (LeaseOp -> bool)) (now : N)
    (resource : bytes) (op : LeaseOp) (rows : MemRows) : TransitionOutcome * MemRows :=
  let authorized := match authorizer with Some auth => auth op | None => true end in
  let row := rows !! resource in
  if negb authorized then (TO_Denied DR_Unauthorized (snapshot_locked resource row now), rows)
  else
    match lease_transition (row_state row) (is_expired row now) op resource with
    | T_Apply next outcome reset_grant =>
        (outcome, <[resource := mk_MemRow next (if reset_grant then Some now else None)]> rows)
    | T_Deny reason => (TO_Denied reason (snapshot_locked resource row now), rows)
    end.

(** [MemorySerializer::snapshot]. *)
Definition serializer_snapshot (now : N) (resource : bytes) (rows : MemRows) : LeaseSnapshot :=
  snapshot_locked resource (rows !! resource) now.

(** [struct LeaseOptions]. *)
Record LeaseOptions : Type := mk_LeaseOptions {
  lo_ttl : N;
  lo_renew_interval : N;
  lo_holder_margin : N;
}.

(** [LeaseOptions::validate]: are the options accepted. *)
Definition options_valid (o : LeaseOptions) : bool :=
  negb (lo_ttl o =? 0) && (lo_holder_margin o <? lo_ttl o)
  && (lo_renew_interval o <? lo_ttl o - lo_holder_margin o).

(** [enum LeaseStatus]. *)
Inductive LeaseStatus : Type :=
| LS_Held
| LS_Released
| LS_Fenced
| LS_Lost.

#[export] Instance LeaseStatus_eq_dec : EqDecision LeaseStatus.
Proof. solve_decision. Defined.

(** [struct LeaseHandle], without its task and channel ends, and with the
    options the renew task was given. *)
Record LeaseHandle : Type := mk_LeaseHandle {
  lh_fence : LeaseFence;
  lh_self_limit : N;
  lh_status : LeaseStatus;
  lh_opts : LeaseOptions;
}.

(** [send + opts.ttl - opts.holder_margin]. *)
Definition self_limit_from (o : LeaseOptions) (send : N) : N := send + lo_ttl o - lo_holder_margin o.

(** The outcomes of [LeaseHandle::acquire]: invalid options, a serializer error
    ([None]) or an outcome that is not an acquire's are errors. *)
Inductive AcquireOutcome : Type :=
| AO_Granted (handle : LeaseHandle)
| AO_Denied (reason : DenyReason) (snapshot : LeaseSnapshot)
| AO_Error.

(** [LeaseHandle::acquire], from the serializer's answer to the request sent at
    [send]. *)
Definition handle_acquire (opts : LeaseOptions) (send : N) (outcome : option TransitionOutcome)
    : AcquireOutcome :=
  if negb (options_valid opts) then AO_Error
  else match outcome with
       | Some (TO_Granted fence) =>
           AO_Granted (mk_LeaseHandle fence (self_limit_from opts send) LS_Held opts)
       | Some (TO_Denied reason snap) => AO_Denied reason snap
       | Some _ | None => AO_Error
       end.

(** [LeaseHandle::fence]. *)
Definition handle_fence (now : N) (h : LeaseHandle) : option LeaseFence :=
  if negb (bool_decide (lh_status h = LS_Held)) then None
  else if lh_self_limit h <=? now then None
  else Some (lh_fence h).

Definition set_status (s : LeaseStatus) (h : LeaseHandle) : LeaseHandle :=
  mk_LeaseHandle (lh_fence h) (lh_self_limit h) s (lh_opts h).

(** [LeaseHandle::stop_renewing]: the fence handed back, the handle released. *)
Definition stop_renewing (now : N) (h : LeaseHandle) : option LeaseFence * LeaseHandle :=
  (handle_fence now h, set_status LS_Released h).

(** [LeaseHandle::release]: the handle released and the operation it sends. *)
Definition handle_release (h : LeaseHandle) : LeaseHandle * LeaseOp :=
  (set_status LS_Released h, LO_Release (lf_holder (lh_fence h)) (lf_epoch (lh_fence h))).

(** The operation a turn of [renew_loop] sends. *)
Definition renew_op (h : LeaseHandle) : LeaseOp :=
  LO_Renew (lf_holder (lh_fence h)) (lf_epoch (lh_fence h)).

(** The rest of a turn of [renew_loop]: the result of the request sent at
    [send], [None] for a backend error, seen at [now]. The flag tells whether
    the loop goes on. *)
Definition renew_complete (now send : N) (res : option TransitionOutcome) (h : LeaseHandle)
    : LeaseHandle * bool :=
  let after (h : LeaseHandle) :=
    if lh_self_limit h <=? now then (set_status LS_Lost h, false) else (h, true) in
  match res with
  | Some TO_Renewed =>
      after (mk_LeaseHandle (lh_fence h) (self_limit_from (lh_opts h) send) (lh_status h) (lh_opts h))
  | Some (TO_Denied _ _) => (set_status LS_Fenced h, false)
  | Some _ => (set_status LS_Fenced h, false)
  | None => after h
  end.

(** [renew_loop] against a serializer that renews every time, the answer of each
    turn taking the given time: the handle and the instant after the turns. The
    loop ends early when a turn says so. *)
Fixpoint renew_rounds (now : N) (h : LeaseHandle) (delays : list N) : LeaseHandle * N :=
  match delays with
  | [] => (h, now)
  | d :: rest =>
      let send := now + lo_renew_interval (lh_opts h) in
      let done := send + d in
      let '(h', continue) := renew_complete done send (Some TO_Renewed) h in
      if (continue : bool) then renew_rounds done h' rest else (h', done)
  end.

(** ** The holder and the serializer together *)

(** Where the renew task is. *)
Inductive RenewTask : Type :=
| RT_Sleeping (until : N)
| RT_Sent (send : N)
| RT_Replied (send : N) (res : option TransitionOutcome)
| RT_Stopped.

Record World : Type := mk_World {
  wd_now : N;
  wd_rows : MemRows;
  wd_handle : LeaseHandle;
  wd_task : RenewTask;
}.

Section world.
Context (authorizer : option (LeaseOp -> bool)).

(** What another caller does at the serializer, for the label of a step. *)
Inductive Label : Type :=
| L_Internal
| L_Other (resource : bytes) (op : LeaseOp).

Inductive world_step : World -> Label -> World -> Prop :=
| WS_tick now rows h task dt :
    world_step (mk_World now rows h task) L_Internal (mk_World (now + dt) rows h task)
| WS_wake now rows h until :
    until <= now ->
    world_step (mk_World now rows h (RT_Sleeping until)) L_Internal (mk_World now rows h (RT_Sent now))
| WS_process now rows h send :
    (** The request reaches the serializer and its answer travels back. *)
    world_step (mk_World now rows h (RT_Sent send)) L_Internal
      (let '(outcome, rows') :=
         serializer_transition authorizer now (lf_resource (lh_fence h)) (renew_op h) rows in
       mk_World now rows' h (RT_Replied send (Some outcome)))
| WS_reply_lost now rows h send :
    (** The request reaches the serializer and its answer does not come back. *)
    world_step (mk_World now rows h (RT_Sent send)) L_Internal
      (let '(_, rows') :=
         serializer_transition authorizer now (lf_resource (lh_fence h)) (renew_op h) rows in
       mk_World now rows' h (RT_Replied send None))
| WS_request_lost now rows h send :
    world_step (mk_World now rows h (RT_Sent send)) L_Internal
      (mk_World now rows h (RT_Replied send None))
| WS_complete now rows h send res :
    world_step (mk_World now rows h (RT_Replied send res)) L_Internal
      (let '(h', continue) := renew_complete now send res h in
       mk_World now rows h'
         (if (continue : bool) then RT_Sleeping (now + lo_renew_interval (lh_opts h)) else RT_Stopped))
| WS_stop now rows h task :
    (** [stop_renewing], or the first half of [release]. *)
    world_step (mk_World now rows h task) L_Internal
      (mk_World now rows (snd (stop_renewing now h)) RT_Stopped)
| WS_release now rows h task :
    (** The second half of [release]. *)
    lh_status h = LS_Released ->
    world_step (mk_World now rows h task) L_Internal
      (mk_World now
         (snd (serializer_transition authorizer now (lf_resource (lh_fence h))
                 (snd (handle_release h)) rows)) h task)
| WS_restart now rows h task :
    world_step (mk_World now rows h task) L_Internal (mk_World now (restart now rows) h task)
| WS_other now rows h task resource op :
    world_step (mk_World now rows h task) (L_Other resource op)
      (mk_World now (snd (serializer_transition authorizer now resource op rows)) h task).

(** Executions with their labels. *)
Inductive world_steps : World -> list Label -> World -> Prop :=
| WSS_refl w : world_steps w [] w
| WSS_step w1 l w2 ls w3 :
    world_steps w1 ls w2 -> world_step w2 l w3 -> world_steps w1 (ls ++ [l]) w3.

(** The world right after the serializer granted an acquisition sent at [send]:
    the handle counts from here, which covers every later reply. *)
Definition granted_world (opts : LeaseOptions) (send now : N) (resource holder : bytes)
    (rows : MemRows) : option World :=
  let '(outcome, rows') :=
    serializer_transition authorizer now resource (LO_Acquire holder (lo_ttl opts)) rows in
  match handle_acquire opts send (Some outcome) with
  | AO_Granted h => Some (mk_World now rows' h (RT_Sleeping (now + lo_renew_interval opts)))
  | AO_Denied _ _ | AO_Error => None
  end.
End world.
