(* ===== verification/LeaseSafety.v ===== *)
(** * Safety of the lease engine

    Theorems about [CoreLease]: the fence rule is exact, an epoch belongs to one
    grant, and the self-limit is safe under any interleaving of the holder's
    renewals with other callers, lost messages, serializer restarts and the
    passing of time. *)

From S2P Require Import Prelude CoreLease.

#[local] Open Scope N_scope.

(** ** The fence rule *)

Lemma lease_check_fence_Ok row fence writer :
  lease_check_fence row fence writer = Ok () <->
  lf_epoch fence = ros_epoch row /\ ros_held row = true /\ ros_holder row = Some writer.
Proof.
  unfold lease_check_fence. split.
  - destruct (lf_epoch fence <? ros_epoch row) eqn:H1; [done|].
    destruct (ros_epoch row <? lf_epoch fence) eqn:H2; [done|]. boolean_facts.
    destruct (ros_held row); [|done]. case_bool_decide; [|done]. intros _. split_and!; [lia|done|done].
  - intros (-> & -> & ->). rewrite N.ltb_irrefl. simpl. by rewrite bool_decide_eq_true_2.
Qed.

(** The fence rule is exact. A protected action is accepted if and only if
    the row is held, at the fence's epoch, by the authenticated writer; and the
    rejection names the first condition that fails, with both epochs when they
    differ. The holder named inside the fence plays no part: a fence is not a
    bearer token. *)
Theorem lease_fence_rule_exact row fence writer :
  match lease_check_fence row fence writer with
  | Ok _ => lf_epoch fence = ros_epoch row /\ ros_held row = true /\ ros_holder row = Some writer
  | Err (StaleEpoch carried current) =>
      carried = lf_epoch fence /\ current = ros_epoch row /\ carried < current
  | Err (FutureEpoch carried current) =>
      carried = lf_epoch fence /\ current = ros_epoch row /\ current < carried
  | Err FR_NotHeld => lf_epoch fence = ros_epoch row /\ ros_held row = false
  | Err FR_NotHolder =>
      lf_epoch fence = ros_epoch row /\ ros_held row = true /\ ros_holder row <> Some writer
  end.
Proof.
  unfold lease_check_fence. destruct (lf_epoch fence <? ros_epoch row) eqn:H1; boolean_facts; [done|].
  destruct (ros_epoch row <? lf_epoch fence) eqn:H2; boolean_facts; [done|].
  assert (lf_epoch fence = ros_epoch row) by lia.
  destruct (ros_held row); simpl; [|done]. case_bool_decide; done.
Qed.

(** ** Transitions *)

(** What an applied operation did to the row. *)
Inductive applied (row : RowState) (expired : bool) : LeaseOp -> RowState -> bool -> Prop :=
| AP_renew holder epoch :
    ros_held row = true -> epoch = ros_epoch row -> ros_holder row = Some holder -> expired = false ->
    applied row expired (LO_Renew holder epoch) row true
| AP_acquire candidate ttl :
    ros_held row = false \/ expired = true ->
    applied row expired (LO_Acquire candidate ttl)
      (mk_RowState (u64_add (ros_epoch row) 1) (Some candidate) true ttl) true
| AP_release holder epoch :
    epoch = ros_epoch row -> ros_holder row = Some holder ->
    applied row expired (LO_Release holder epoch)
      (mk_RowState (u64_add (ros_epoch row) 1) None false (ros_ttl row)) false
| AP_revoke authority :
    applied row expired (LO_Revoke authority)
      (mk_RowState (u64_add (ros_epoch row) 1) None false (ros_ttl row)) false.

Lemma lease_transition_applied row expired op resource next outcome reset :
  lease_transition row expired op resource = T_Apply next outcome reset ->
  applied row expired op next reset.
Proof.
  destruct op as [candidate ttl|holder epoch|holder epoch|authority]; simpl.
  - destruct (ros_held row) eqn:Hh, expired; simpl; try done; intros [= <- _ <-]; constructor; auto.
  - destruct (ros_held row) eqn:Hh; simpl; [|done]. destruct (N.eqb_spec epoch (ros_epoch row)); simpl; [|done].
    case_bool_decide; simpl; [|done]. destruct expired; [done|]. intros [= <- _ <-]. by constructor.
  - destruct (N.eqb_spec epoch (ros_epoch row)); simpl; [|done].
    case_bool_decide; simpl; [|done]. intros [= <- _ <-]. by constructor.
  - intros [= <- _ <-]. constructor.
Qed.

Lemma applied_renew row expired holder epoch next reset :
  applied row expired (LO_Renew holder epoch) next reset ->
  next = row /\ reset = true /\ epoch = ros_epoch row.
Proof. by inversion 1. Qed.

(** The serializer either leaves every row alone or applies one operation to
    the row it names. *)
Lemma serializer_transition_cases auth now resource op rows outcome rows' :
  serializer_transition auth now resource op rows = (outcome, rows') ->
  (rows' = rows /\ exists reason snap, outcome = TO_Denied reason snap) \/
  exists next reset, rows' = <[resource := mk_MemRow next (if reset : bool then Some now else None)]> rows /\
    applied (row_state (rows !! resource)) (is_expired (rows !! resource) now) op next reset /\
    lease_transition (row_state (rows !! resource)) (is_expired (rows !! resource) now) op resource
      = T_Apply next outcome reset.
Proof.
  unfold serializer_transition. destruct (negb _); [intros [= <- <-]; left; eauto|].
  destruct (lease_transition _ _ _ _) as [next o reset|reason] eqn:Ht; intros [= <- <-]; [right|left; eauto].
  exists next, reset. split_and!; [done|by eapply lease_transition_applied|done].
Qed.

(** ** The epoch of a row

    A row's history from a grant on: it is the granted row, or its epoch moved
    past the grant's. *)

Definition after_grant (granted : RowState) (n : N) (row : RowState) : Prop :=
  ros_epoch row <= ros_epoch granted + n /\
  (row = granted \/ ros_epoch granted < ros_epoch row).

Lemma after_grant_weaken granted n row : after_grant granted n row -> after_grant granted (n + 1) row.
Proof. intros [? ?]. split; [lia|done]. Qed.

Lemma applied_after_grant granted n row expired op next reset :
  ros_epoch granted + (n + 1) < U64_MODULUS ->
  after_grant granted n row -> applied row expired op next reset -> after_grant granted (n + 1) next.
Proof.
  intros Hb [Hle Hor] Ha.
  assert (u64_add (ros_epoch row) 1 = ros_epoch row + 1) as He by (apply u64_add_small; lia).
  destruct Ha; [by apply after_grant_weaken|..]; split; simpl; rewrite ?He; (destruct Hor as [->|]; [lia|lia]) || right;
    destruct Hor as [->|]; lia.
Qed.

Lemma serializer_after_grant granted n auth now resource op rows rows' outcome r :
  ros_epoch granted + (n + 1) < U64_MODULUS ->
  serializer_transition auth now resource op rows = (outcome, rows') ->
  after_grant granted n (row_state (rows !! r)) -> after_grant granted (n + 1) (row_state (rows' !! r)).
Proof.
  intros Hb Ht Hg.
  destruct (serializer_transition_cases _ _ _ _ _ _ _ Ht) as [[-> _]|(next & reset & -> & Ha & _)].
  - by apply after_grant_weaken.
  - destruct (decide (resource = r)) as [->|Hne].
    + rewrite lookup_insert_eq. simpl. by eapply applied_after_grant.
    + rewrite lookup_insert_ne by done. by apply after_grant_weaken.
Qed.

Lemma restart_row_state now rows r : row_state (restart now rows !! r) = row_state (rows !! r).
Proof. unfold restart. rewrite lookup_fmap. by destruct (rows !! r). Qed.

(** The operations of a run, each at its instant; a restart re-arms the rows. *)
Inductive SerializerEvent : Type :=
| SE_Op (now : N) (resource : bytes) (op : LeaseOp)
| SE_Restart (now : N).

Definition serializer_run (auth : option (LeaseOp -> bool)) (events : list SerializerEvent)
    (rows : MemRows) : MemRows :=
  foldl (λ rows e, match e with
                   | SE_Op now resource op => snd (serializer_transition auth now resource op rows)
                   | SE_Restart now => restart now rows
                   end) rows events.

Lemma serializer_run_after_grant granted auth events rows n r :
  ros_epoch granted + (n + N.of_nat (length events)) < U64_MODULUS ->
  after_grant granted n (row_state (rows !! r)) ->
  after_grant granted (n + N.of_nat (length events)) (row_state (serializer_run auth events rows !! r)).
Proof.
  revert rows n. induction events as [|e events IH]; intros rows n Hb Hg; cbn [length] in *.
  - by rewrite N.add_0_r.
  - rewrite Nat2N.inj_succ in *. replace (n + N.succ _) with (n + 1 + N.of_nat (length events)) by lia. apply IH; [lia|].
    destruct e as [now resource op|now].
    + destruct (serializer_transition auth now resource op rows) as [o rows'] eqn:Ht.
      eapply serializer_after_grant; [lia|done|done].
    + rewrite restart_row_state. by apply after_grant_weaken.
Qed.

(** A fence is good for its holder and for one grant only. Take any grant,
    and any later run of operations by anyone, at any instants, with any
    authorizer and any number of serializer restarts, short of 2^64 of them: if
    a write under that fence is accepted at the end, then the authenticated
    writer is the node the grant was made to, and the durable row is still
    exactly the granted one, so every operation in between was a renewal or
    was refused. *)
Theorem fence_good_for_one_grant auth now resource holder ttl rows fence rows1 events writer (x y : bytes) :
  serializer_transition auth now resource (LO_Acquire holder ttl) rows = (TO_Granted fence, rows1) ->
  lf_epoch fence + N.of_nat (length events) < U64_MODULUS ->
  mutate_fenced (serializer_run auth events rows1) fence writer x = Ok y ->
  writer = holder /\ y = x /\
  row_state (serializer_run auth events rows1 !! resource) = mk_RowState (lf_epoch fence) (Some holder) true ttl.
Proof.
  intros Ht Hb Hm.
  destruct (serializer_transition_cases _ _ _ _ _ _ _ Ht) as [[_ (? & ? & ?)]|(next & reset & -> & Ha & Hl)]; [done|].
  inversion Ha as [|? ? _ Hop Hn Hr| |]; subst.
  set (next := mk_RowState _ _ _ _) in *.
  assert (fence = mk_LeaseFence resource (ros_epoch next) holder) as ->.
  { simpl in Hl. destruct (_ && _); [done|]. by injection Hl as <-. }
  pose proof (serializer_run_after_grant next auth events
    (<[resource:=mk_MemRow next (Some now)]> rows) 0 resource Hb) as Hg.
  rewrite lookup_insert_eq in Hg. specialize (Hg ltac:(split; [simpl; lia|by left])).
  unfold mutate_fenced in Hm. cbn [lf_resource] in Hm.
  set (final := row_state _) in *.
  destruct (lease_check_fence _ _ _) as [[]|] eqn:Hr; [|done]. injection Hm as <-.
  apply lease_check_fence_Ok in Hr as (He & Hh & Hw). cbn [lf_epoch] in He.
  destruct Hg as [_ [Heq|Hlt]]; [|lia]. split_and!; [|done|done].
  rewrite Heq in Hw. simpl in Hw. congruence.
Qed.

(** ** The self-limit *)

(** An operation that ends a grant on purpose: a revocation, or a release in
    the holder's own name at its own epoch. *)
Definition disowns (fence : LeaseFence) (resource : bytes) (op : LeaseOp) : Prop :=
  resource = lf_resource fence /\
  match op with
  | LO_Revoke _ => True
  | LO_Release holder epoch => holder = lf_holder fence /\ epoch = lf_epoch fence
  | LO_Acquire _ _ | LO_Renew _ _ => False
  end.

(** The instants until which the holder acts or will act: its self-limit, and
    the one a renewal's answer on its way back is about to set. *)
Definition claims (w : World) : list N :=
  lh_self_limit (wd_handle w) ::
  match wd_task w with
  | RT_Replied send (Some TO_Renewed) => [self_limit_from (lh_opts (wd_handle w)) send]
  | _ => []
  end.

Definition task_sent (t : RenewTask) : option N :=
  match t with
  | RT_Sent send | RT_Replied send _ => Some send
  | RT_Sleeping _ | RT_Stopped => None
  end.

(** The serializer's row covers the holder up to [c]. *)
Definition covered (granted : RowState) (resource : bytes) (rows : MemRows) (now c : N) : Prop :=
  exists g, rows !! resource = Some (mk_MemRow granted (Some g)) /\ g <= now /\ c <= g + ros_ttl granted.

(** The row has moved past the grant, so the grant's fence is stale. *)
Definition superseded (granted : RowState) (resource : bytes) (rows : MemRows) : Prop :=
  ros_epoch granted < ros_epoch (row_state (rows !! resource)).

(** Somebody ended the grant on purpose, behind the holder's back. *)
Definition disowned (fence : LeaseFence) (ls : list Label) : Prop :=
  exists r op, L_Other r op ∈ ls /\ disowns fence r op.

Section self_limit.
Context (auth : option (LeaseOp -> bool)) (granted : RowState) (fence : LeaseFence).
Context (Hheld : ros_held granted = true) (Hholder : ros_holder granted = Some (lf_holder fence)).
Context (Hepoch : ros_epoch granted = lf_epoch fence).

(** The holder's claim up to [c] is covered, or somebody disowned it. *)
Definition secured (ls : list Label) (rows : MemRows) (now c : N) : Prop :=
  covered granted (lf_resource fence) rows now c \/
  (disowned fence ls /\ superseded granted (lf_resource fence) rows).

Record world_inv (n : N) (ls : list Label) (w : World) : Prop := {
  wi_fence : lh_fence (wd_handle w) = fence;
  wi_opts : options_valid (lh_opts (wd_handle w)) = true /\ lo_ttl (lh_opts (wd_handle w)) = ros_ttl granted;
  wi_sent send : task_sent (wd_task w) = Some send -> send <= wd_now w;
  wi_row : after_grant granted n (row_state (wd_rows w !! lf_resource fence));
  wi_claims c : lh_status (wd_handle w) = LS_Held -> c ∈ claims w -> wd_now w < c ->
    secured ls (wd_rows w) (wd_now w) c;
}.

Lemma covered_not_expired resource rows now c :
  covered granted resource rows now c -> now < c -> is_expired (rows !! resource) now = false.
Proof.
  intros (g & Hrow & Hg & Hc) Hnow. unfold is_expired. rewrite Hrow. simpl. rewrite Hheld. simpl.
  apply N.leb_gt. lia.
Qed.

Lemma covered_restart rows now c :
  covered granted (lf_resource fence) rows now c ->
  covered granted (lf_resource fence) (restart now rows) now c.
Proof.
  intros (g & Hrow & Hg & Hc). exists now. unfold restart. rewrite lookup_fmap, Hrow. simpl.
  rewrite Hheld. split_and!; [done|lia|lia].
Qed.

(** Once the row is past the grant it stays past it, short of wrapping. *)
Lemma superseded_transition n rows now resource op :
  ros_epoch granted + (n + 1) < U64_MODULUS ->
  after_grant granted n (row_state (rows !! lf_resource fence)) ->
  superseded granted (lf_resource fence) rows ->
  superseded granted (lf_resource fence) (serializer_transition auth now resource op rows).2.
Proof.
  unfold superseded. intros Hb [Hle _] Hs.
  destruct (serializer_transition auth now resource op rows) as [o rows'] eqn:Ht. simpl.
  destruct (serializer_transition_cases _ _ _ _ _ _ _ Ht) as [[-> _]|(next & reset & -> & Ha & _)]; [done|].
  destruct (decide (resource = lf_resource fence)) as [->|Hne]; [|by rewrite lookup_insert_ne].
  rewrite lookup_insert_eq. destruct Ha; simpl; [done|..]; rewrite u64_add_small; lia.
Qed.

(** Any operation leaves a covered row covered, or ends the grant. *)
Lemma covered_or_superseded n rows now c resource op :
  ros_epoch granted + (n + 1) < U64_MODULUS -> now < c -> covered granted (lf_resource fence) rows now c ->
  covered granted (lf_resource fence) (serializer_transition auth now resource op rows).2 now c \/
  (disowns fence resource op /\
   superseded granted (lf_resource fence) (serializer_transition auth now resource op rows).2).
Proof.
  intros Hb Hnow Hc. pose proof (covered_not_expired _ _ _ _ Hc Hnow) as Hexp.
  destruct (serializer_transition auth now resource op rows) as [o rows'] eqn:Ht. simpl.
  destruct (serializer_transition_cases _ _ _ _ _ _ _ Ht) as [[-> _]|(next & reset & -> & Ha & _)]; [by left|].
  destruct Hc as (g & Hrow & Hg & Hcov). destruct (decide (resource = lf_resource fence)) as [->|Hne].
  2:{ left. exists g. by rewrite lookup_insert_ne. }
  unfold superseded. rewrite lookup_insert_eq. rewrite Hexp, Hrow in Ha. simpl in Ha.
  inversion Ha as [holder epoch _ He Hh _|? ? [?|?]|holder epoch He Hh|]; subst; [|congruence..| |].
  - left. exists now. rewrite lookup_insert_eq. split_and!; [done|lia|lia].
  - right. rewrite Hholder in Hh. injection Hh as <-. split; [done|]. simpl. rewrite u64_add_small; lia.
  - right. split; [done|]. simpl. rewrite u64_add_small; lia.
Qed.

Lemma disowned_snoc ls l : disowned fence ls -> disowned fence (ls ++ [l]).
Proof. intros (r & op & Hin & Hd). exists r, op. split; [|done]. apply elem_of_app. by left. Qed.

Lemma secured_snoc ls l rows now c : secured ls rows now c -> secured (ls ++ [l]) rows now c.
Proof. intros [H|[H1 H2]]; [by left|right]. split; [by apply disowned_snoc|done]. Qed.

(** Any operation keeps the holder's claim secured: an operation that ends the
    grant is another caller's. *)
Lemma secured_transition n ls l rows now c resource op :
  ros_epoch granted + (n + 1) < U64_MODULUS ->
  after_grant granted n (row_state (rows !! lf_resource fence)) ->
  (disowns fence resource op -> l = L_Other resource op) -> now < c ->
  secured ls rows now c ->
  secured (ls ++ [l]) (serializer_transition auth now resource op rows).2 now c.
Proof.
  intros Hb Hr Hl Hnow [Hc|[Hd Hs]].
  - destruct (covered_or_superseded n rows now c resource op Hb Hnow Hc) as [H|[Hd H]]; [by left|right].
    split; [|done]. exists resource, op. split; [|done]. apply elem_of_app. right. rewrite Hl by done. left.
  - right. split; [by apply disowned_snoc|by eapply superseded_transition].
Qed.

Lemma secured_restart ls rows now c : secured ls rows now c -> secured ls (restart now rows) now c.
Proof.
  intros [H|[H1 H2]]; [left; by apply covered_restart|right].
  split; [done|]. unfold superseded. by rewrite restart_row_state.
Qed.

Lemma renew_not_disowning h l :
  disowns fence (lf_resource fence) (renew_op h) -> l = L_Other (lf_resource fence) (renew_op h).
Proof. intros [_ []]. Qed.

(** A renewal that succeeded re-anchored the granted row. *)
Lemma renewed_covers n rows now h send rows' :
  lh_fence h = fence -> lo_ttl (lh_opts h) = ros_ttl granted ->
  after_grant granted n (row_state (rows !! lf_resource fence)) -> send <= now ->
  serializer_transition auth now (lf_resource fence) (renew_op h) rows = (TO_Renewed, rows') ->
  covered granted (lf_resource fence) rows' now (self_limit_from (lh_opts h) send).
Proof.
  intros Hf Hopt Hrow Hsend Ht.
  destruct (serializer_transition_cases _ _ _ _ _ _ _ Ht) as [[_ (? & ? & ?)]|(next & reset & -> & Ha & _)]; [done|].
  apply applied_renew in Ha as (-> & -> & He). rewrite Hf, <- Hepoch in He.
  destruct Hrow as [_ [Heq|Hlt]]; [|rewrite <- He in Hlt; lia].
  exists now. rewrite lookup_insert_eq, Heq. unfold self_limit_from. split_and!; [done|lia|lia].
Qed.

Lemma serializer_keeps_row n resource op rows now :
  ros_epoch granted + (n + 1) < U64_MODULUS ->
  after_grant granted n (row_state (rows !! lf_resource fence)) ->
  after_grant granted (n + 1)
    (row_state ((serializer_transition auth now resource op rows).2 !! lf_resource fence)).
Proof.
  intros Hb Hrow. destruct (serializer_transition auth now resource op rows) as [o rows'] eqn:Ht.
  by eapply serializer_after_grant.
Qed.

(** Completing a renewal only moves the self-limit to the one its answer sets. *)
Lemma renew_complete_claims now send res h h' continue :
  renew_complete now send res h = (h', continue) ->
  lh_fence h' = lh_fence h /\ lh_opts h' = lh_opts h /\
  (lh_status h' = LS_Held -> lh_status h = LS_Held /\
     lh_self_limit h' ∈ lh_self_limit h ::
       match res with Some TO_Renewed => [self_limit_from (lh_opts h) send] | _ => [] end).
Proof.
  unfold renew_complete. intros H. destruct res as [[]|]; repeat case_match; simplify_eq/=;
    (split_and!; [done|done|]); intros Hh; try discriminate Hh; (split; [done|]); [right; left|left].
Qed.

(** One step keeps the invariant. *)
Lemma world_step_inv n ls w l w' :
  ros_epoch granted + (n + 1) < U64_MODULUS ->
  world_inv n ls w -> world_step auth w l w' -> world_inv (n + 1) (ls ++ [l]) w'.
Proof.
  intros Hb [Hf [Hv Ho] Hs Hr Hc] Hstep.
  pose proof (after_grant_weaken _ _ _ Hr) as Hr'.
  pose proof (λ c Hh Hin Hnow, secured_snoc ls l _ _ _ (Hc c Hh Hin Hnow)) as Hc'.
  destruct Hstep as [now rows h task dt|now rows h until|now rows h send|now rows h send|now rows h send
    |now rows h send res|now rows h task|now rows h task|now rows h task|now rows h task resource op];
    cbn [wd_now wd_rows wd_handle wd_task claims task_sent] in *.
  - split; simpl; try done; [intros s H%Hs; lia|]. intros c Hh Hin Hnow.
    destruct (Hc' c Hh Hin ltac:(lia)) as [(g & ? & ? & ?)|H]; [left|by right].
    exists g. split_and!; [done|lia|done].
  - split; simpl; try done. intros s [= <-]. lia.
  - rewrite Hf. destruct (serializer_transition _ _ _ _ _) as [o rows'] eqn:Ht.
    pose proof (serializer_keeps_row n (lf_resource fence) (renew_op h) rows now Hb Hr) as Hk.
    rewrite Ht in Hk. split; simpl; try done. intros c Hh Hin Hnow.
    apply elem_of_cons in Hin as [->|Hin].
    + pose proof (secured_transition n ls L_Internal rows now _ _ _ Hb Hr (renew_not_disowning h _) Hnow) as H.
      rewrite Ht in H. apply H, Hc; [done|left|done].
    + destruct o; simpl in Hin; try (by apply elem_of_nil in Hin). apply list_elem_of_singleton in Hin as ->.
      left. eapply renewed_covers; [done|done|exact Hr|by apply Hs|done].
  - rewrite Hf. destruct (serializer_transition _ _ _ _ _) as [o rows'] eqn:Ht.
    pose proof (serializer_keeps_row n (lf_resource fence) (renew_op h) rows now Hb Hr) as Hk.
    rewrite Ht in Hk. split; simpl; try done. intros c Hh Hin Hnow.
    pose proof (secured_transition n ls L_Internal rows now c _ _ Hb Hr (renew_not_disowning h _) Hnow) as H.
    rewrite Ht in H. by apply H, Hc.
  - split; simpl; try done.
  - destruct (renew_complete now send res h) as [h' continue] eqn:Hcomp.
    destruct (renew_complete_claims _ _ _ _ _ _ Hcomp) as (Hf' & Ho' & Hst).
    split; simpl; rewrite ?Hf', ?Ho'; try done; [by destruct continue|].
    intros c Hh Hin Hnow. destruct (Hst Hh) as [Hh0 Hlim]. apply Hc'; [done| |done].
    replace (claims _) with [lh_self_limit h'] in Hin by (by destruct continue).
    apply list_elem_of_singleton in Hin as ->. done.
  - split; simpl; try done.
  - split; simpl; try done; [by apply serializer_keeps_row|congruence].
  - split; simpl; rewrite ?restart_row_state; try done. intros c Hh Hin Hnow. by apply secured_restart, Hc'.
  - split; simpl; try done; [by apply serializer_keeps_row|].
    intros c Hh Hin Hnow. by apply (secured_transition n); [..|apply Hc].
Qed.

Lemma world_steps_inv w ls w' :
  ros_epoch granted + N.of_nat (length ls) < U64_MODULUS ->
  world_inv 0 [] w -> world_steps auth w ls w' -> world_inv (N.of_nat (length ls)) ls w'.
Proof.
  intros Hb Hw Hsteps. induction Hsteps as [w|w1 l w2 ls w3 Hsteps IH Hstep]; [done|].
  rewrite length_app in *. cbn [length] in *.
  replace (N.of_nat (length ls + 1)) with (N.of_nat (length ls) + 1) in * by lia.
  eapply world_step_inv; [done|apply IH; [lia|done]|done].
Qed.
End self_limit.

(** The world of a grant: who holds what. *)
Lemma granted_world_inv auth opts send now resource holder rows w :
  send <= now -> granted_world auth opts send now resource holder rows = Some w ->
  let fence := lh_fence (wd_handle w) in
  let granted := mk_RowState (lf_epoch fence) (Some holder) true (lo_ttl opts) in
  lf_resource fence = resource /\ lf_holder fence = holder /\ world_inv granted fence 0 [] w.
Proof.
  intros Hsend. unfold granted_world.
  destruct (serializer_transition _ _ _ _ _) as [o rows'] eqn:Ht. unfold handle_acquire.
  destruct (options_valid opts) eqn:Hv; [|done]. destruct o as [fence| | | |]; try done. intros [= <-]. simpl.
  destruct (serializer_transition_cases _ _ _ _ _ _ _ Ht) as [[_ (? & ? & ?)]|(next & reset & -> & Ha & Hl)]; [done|].
  simpl in Hl. destruct (_ && _); [done|]. injection Hl as <- <- <-. simpl.
  split_and!; [done..|]. split; simpl; try done.
  - rewrite lookup_insert_eq. split; simpl; [lia|by left].
  - intros c _ Hin _. apply list_elem_of_singleton in Hin as ->. left. exists now.
    rewrite lookup_insert_eq. unfold self_limit_from. split_and!; [done|lia|simpl; lia].
Qed.

(** C9: while a holder acts, the lease is its own, or it was taken from it on
    purpose and its writes are refused. From any grant, along any interleaving
    of the holder's renewals with lost requests, lost answers, any operations
    of other callers, serializer restarts and the passing of time (short of
    2^64 steps, after which epochs wrap), whenever [fence()] hands out the
    fence, it is the granted one, and one of two things holds. Either the
    serializer's row is held, by this holder, at this epoch and unexpired by
    the serializer's clock, so a write under the fence is accepted and every
    other acquisition is refused; or some other caller revoked the lease or
    released it in the holder's name and at its epoch, and then no writer's
    mutation under the fence is accepted and the holder's next renewal is
    denied, which fences the handle. The self-limit counts from the *send*, so
    no bound on message delay is needed. *)
Theorem live_fence_is_held auth opts send now resource holder rows w0 ls w fence :
  send <= now -> granted_world auth opts send now resource holder rows = Some w0 ->
  world_steps auth w0 ls w ->
  lf_epoch (lh_fence (wd_handle w0)) + N.of_nat (length ls) < U64_MODULUS ->
  handle_fence (wd_now w) (wd_handle w) = Some fence ->
  fence = lh_fence (wd_handle w0) /\
  ((lease_check_fence (row_state (wd_rows w !! resource)) fence holder = Ok () /\
    is_expired (wd_rows w !! resource) (wd_now w) = false /\
    forall candidate ttl, exists reason snap,
      (serializer_transition auth (wd_now w) resource (LO_Acquire candidate ttl) (wd_rows w)).1
        = TO_Denied reason snap) \/
   ((exists op, L_Other resource op ∈ ls /\ disowns fence resource op) /\
    (forall writer (x : bytes), mutate_fenced (wd_rows w) fence writer x
      = Err (StaleEpoch (lf_epoch fence) (ros_epoch (row_state (wd_rows w !! resource))))) /\
    exists reason snap,
      (serializer_transition auth (wd_now w) resource (renew_op (wd_handle w)) (wd_rows w)).1
        = TO_Denied reason snap)).
Proof.
  intros Hsend Hg Hsteps Hb Hfence.
  destruct (granted_world_inv _ _ _ _ _ _ _ _ Hsend Hg) as (Hr & Hh & Hinv).
  set (f := lh_fence (wd_handle w0)) in *. set (granted := mk_RowState _ _ _ _) in Hinv.
  pose proof (world_steps_inv auth granted f eq_refl (f_equal Some (eq_sym Hh)) eq_refl w0 ls w Hb
                Hinv Hsteps) as [Hf _ _ _ Hc].
  unfold handle_fence in Hfence. destruct (bool_decide _) eqn:Hst; [|done]. simpl in Hfence.
  destruct (_ <=? _) eqn:Hlim; [done|]. injection Hfence as <-. boolean_facts.
  split; [done|]. rewrite <- Hr.
  destruct (Hc _ ltac:(done) ltac:(left) Hlim) as [Hcov|[(r & op & Hin & Hd) Hsup]]; [left|right].
  - assert (is_expired (wd_rows w !! lf_resource f) (wd_now w) = false) as Hexp
      by (by eapply (covered_not_expired granted f); [..|exact Hcov|exact Hlim]).
    destruct Hcov as (g & Hrow & _ & _). split_and!; [|done|].
    + apply lease_check_fence_Ok. rewrite Hrow, Hf. done.
    + intros candidate ttl. unfold serializer_transition. destruct (negb _); [by eauto|].
      rewrite Hexp, Hrow. simpl. by eauto.
  - unfold superseded in Hsup. simpl in Hsup. split_and!.
    + exists op. rewrite Hf. destruct (proj1 Hd). done.
    + intros writer x. unfold mutate_fenced, lease_check_fence. rewrite Hf.
      by rewrite (proj2 (N.ltb_lt _ _)).
    + unfold serializer_transition, renew_op. rewrite Hf. destruct (negb _); [by eauto|]. simpl.
      destruct (ros_held _); simpl; [|by eauto]. rewrite (proj2 (N.eqb_neq _ _)) by lia. simpl. by eauto.
Qed.

(** ** Staying alive *)

(** A handle that will hand out its fence through the next turn. *)
Definition lasts (d : N) (fence : LeaseFence) (h : LeaseHandle) (now : N) : Prop :=
  lh_fence h = fence /\ lh_status h = LS_Held /\
  now + lo_renew_interval (lh_opts h) + d < lh_self_limit h.

Lemma renew_round_lasts d opts fence h now delay :
  lh_opts h = opts -> 2 * d + lo_renew_interval opts < lo_ttl opts - lo_holder_margin opts ->
  delay <= d -> lasts d fence h now ->
  let send := now + lo_renew_interval opts in
  exists h', renew_complete (send + delay) send (Some TO_Renewed) h = (h', true) /\
    lh_opts h' = opts /\ lasts d fence h' (send + delay).
Proof.
  intros <- Hd Hdelay (Hf & Hs & Hl) send. unfold renew_complete. cbn [lh_self_limit].
  rewrite (proj2 (N.leb_gt _ _)) by (unfold self_limit_from; lia).
  eexists. split; [reflexivity|]. split; [done|]. split_and!; [done|done|]. simpl. unfold self_limit_from. lia.
Qed.

Lemma renew_rounds_last d opts fence delays : forall h now,
  lh_opts h = opts -> 2 * d + lo_renew_interval opts < lo_ttl opts - lo_holder_margin opts ->
  (forall x, x ∈ delays -> x <= d) -> lasts d fence h now ->
  let '(h', now') := renew_rounds now h delays in lh_opts h' = opts /\ lasts d fence h' now'.
Proof.
  induction delays as [|x delays IH]; intros h now Ho Hd Hall Hl; cbn [renew_rounds]; [done|]. rewrite Ho.
  destruct (renew_round_lasts d opts fence h now x Ho Hd) as (h' & -> & Ho' & Hl'); [apply Hall; left|done|].
  apply IH; [done|done| |done]. intros y Hy. apply Hall. by right.
Qed.

(** A holder whose renewals are answered in time never stops. If the grant
    and every renewal are answered within [d] of being sent, and two such
    delays and a renew interval fit inside the self-limit, then after any
    number of turns the loop is still running, and the fence is available at
    every instant through the next turn's answer. The default options leave
    room for nine and a half seconds of delay. *)
Theorem prompt_renewals_keep_the_fence opts send d answered fence h delays :
  2 * d + lo_renew_interval opts < lo_ttl opts - lo_holder_margin opts ->
  answered <= send + d ->
  handle_acquire opts send (Some (TO_Granted fence)) = AO_Granted h ->
  (forall x, x ∈ delays -> x <= d) ->
  let '(h', now) := renew_rounds answered h delays in
  forall t, t <= now + lo_renew_interval opts + d -> handle_fence t h' = Some fence.
Proof.
  intros Hd Hans Hacq Hall. unfold handle_acquire in Hacq. destruct (options_valid opts); [|done].
  injection Hacq as <-.
  pose proof (renew_rounds_last d opts fence delays
    (mk_LeaseHandle fence (self_limit_from opts send) LS_Held opts) answered eq_refl Hd Hall) as H.
  destruct (renew_rounds _ _ _) as [h' now]. destruct H as (Ho & Hf & Hs & Hl).
  { split_and!; [done|done|]. simpl. unfold self_limit_from. lia. }
  rewrite Ho in Hl. intros t Ht. unfold handle_fence. rewrite bool_decide_eq_true_2 by done. simpl.
  by rewrite (proj2 (N.leb_gt _ _)), Hf by lia.
Qed.

(** ** A concrete lease *)

Definition lease_options : LeaseOptions := mk_LeaseOptions 30 10 1.
Definition lease_resource : bytes := [Byte.x72].
Definition lease_holder : bytes := [Byte.x68].
Definition lease_rows : MemRows :=
  (serializer_transition None 2 lease_resource (LO_Acquire lease_holder 30) ∅).2.
Definition lease_world : World :=
  mk_World 2 lease_rows
    (mk_LeaseHandle (mk_LeaseFence lease_resource 1 lease_holder) 30 LS_Held lease_options)
    (RT_Sleeping 12).

(** Another node tries, and the holder's own renewal comes after. *)
Definition lease_events : list SerializerEvent :=
  [SE_Op 5 lease_resource (LO_Acquire [Byte.x6f] 30); SE_Restart 6;
   SE_Op 7 lease_resource (LO_Renew lease_holder 1)].

Lemma fence_good_for_one_grant_witness :
  mutate_fenced (serializer_run None lease_events lease_rows)
    (mk_LeaseFence lease_resource 1 lease_holder) lease_holder lease_resource = Ok lease_resource /\
  lease_holder = lease_holder /\ lease_resource = lease_resource /\
  row_state (serializer_run None lease_events lease_rows !! lease_resource)
    = mk_RowState 1 (Some lease_holder) true 30.
Proof.
  assert (mutate_fenced (serializer_run None lease_events lease_rows)
    (mk_LeaseFence lease_resource 1 lease_holder) lease_holder lease_resource = Ok lease_resource) as H
    by (vm_compute; reflexivity).
  split; [exact H|].
  apply (fence_good_for_one_grant None 2 lease_resource lease_holder 30 ∅
           (mk_LeaseFence lease_resource 1 lease_holder) lease_rows lease_events lease_holder
           lease_resource lease_resource).
  - reflexivity.
  - vm_compute. reflexivity.
  - exact H.
Defined.

(** The holder wakes, its renewal is processed, another node's attempt is
    refused, and the answer comes back. *)
Definition lease_handle : LeaseHandle := wd_handle lease_world.
Definition renewed_rows : MemRows :=
  (serializer_transition None 13 lease_resource (renew_op lease_handle) lease_rows).2.
Definition contested_rows : MemRows :=
  (serializer_transition None 13 lease_resource (LO_Acquire [Byte.x6f] 30) renewed_rows).2.
Definition lease_final : World :=
  mk_World 13 contested_rows (renew_complete 13 13 (Some TO_Renewed) lease_handle).1 (RT_Sleeping 23).
Definition lease_labels : list Label :=
  [L_Internal; L_Internal; L_Internal; L_Other lease_resource (LO_Acquire [Byte.x6f] 30); L_Internal].

Lemma lease_run : world_steps None lease_world lease_labels lease_final.
Proof.
  refine (WSS_step None _ L_Internal (mk_World 13 contested_rows lease_handle (RT_Replied 13 (Some TO_Renewed)))
            (take 4 lease_labels) _ _ (WS_complete None _ _ _ _ _)).
  refine (WSS_step None _ _ (mk_World 13 renewed_rows lease_handle (RT_Replied 13 (Some TO_Renewed)))
            (take 3 lease_labels) _ _ (WS_other None _ _ _ _ _ _)).
  refine (WSS_step None _ _ (mk_World 13 lease_rows lease_handle (RT_Sent 13)) (take 2 lease_labels) _ _
            (WS_process None _ _ _ _)).
  refine (WSS_step None _ _ (mk_World 13 lease_rows lease_handle (RT_Sleeping 12)) (take 1 lease_labels) _ _
            (WS_wake None _ _ _ _ _)); [|vm_compute; discriminate].
  exact (WSS_step None _ _ lease_world [] _ (WSS_refl None _) (WS_tick None 2 _ _ _ 11)).
Qed.

(** A revocation behind the holder's back: its handle still looks alive. *)
Definition revoked_rows : MemRows :=
  (serializer_transition None 13 lease_resource (LO_Revoke [Byte.x61]) contested_rows).2.
Definition revoked_final : World :=
  mk_World 13 revoked_rows (wd_handle lease_final) (RT_Sleeping 23).

Lemma revoked_run :
  world_steps None lease_world (lease_labels ++ [L_Other lease_resource (LO_Revoke [Byte.x61])]) revoked_final.
Proof. exact (WSS_step None _ _ lease_final _ _ lease_run (WS_other None _ _ _ _ _ _)). Qed.

(** Both cases occur: the fence of the first run is good, and after the
    revocation the same fence, still handed out, is refused. *)
Lemma live_fence_is_held_witness :
  (handle_fence (wd_now lease_final) (wd_handle lease_final) = Some (lh_fence lease_handle) /\
   lease_check_fence (row_state (wd_rows lease_final !! lease_resource)) (lh_fence lease_handle) lease_holder
     = Ok ()) /\
  (handle_fence (wd_now revoked_final) (wd_handle revoked_final) = Some (lh_fence lease_handle) /\
   mutate_fenced (wd_rows revoked_final) (lh_fence lease_handle) lease_holder lease_holder
     = Err (StaleEpoch 1 2)).
Proof.
  split; (split; [vm_compute; reflexivity|]).
  - pose proof (live_fence_is_held None lease_options 1 2 lease_resource lease_holder ∅ lease_world
      _ _ (lh_fence lease_handle) ltac:(vm_compute; discriminate) eq_refl lease_run
      eq_refl eq_refl) as [_ [[H _]|[(op & Hin & _ & Hd) _]]]; [exact H|].
    apply list_elem_of_In in Hin. cbn in Hin.
    destruct Hin as [H|[H|[H|[H|[H|[]]]]]]; try discriminate H. injection H as <-. destruct Hd.
  - pose proof (live_fence_is_held None lease_options 1 2 lease_resource lease_holder ∅ lease_world
      _ _ (lh_fence lease_handle) ltac:(vm_compute; discriminate) eq_refl revoked_run
      eq_refl eq_refl) as [_ [[H _]|[_ [H _]]]]; [vm_compute in H; discriminate H|].
    exact (H lease_holder lease_holder).
Defined.

Lemma prompt_renewals_keep_the_fence_witness :
  let h := mk_LeaseHandle (mk_LeaseFence lease_resource 1 lease_holder) 30 LS_Held lease_options in
  let '(h', now) := renew_rounds 2 h [3; 0; 5] in
  now = 40 /\ handle_fence 55 h' = Some (mk_LeaseFence lease_resource 1 lease_holder).
Proof.
  intros h.
  pose proof (prompt_renewals_keep_the_fence lease_options 1 5 2
    (mk_LeaseFence lease_resource 1 lease_holder) h [3; 0; 5] eq_refl ltac:(vm_compute; discriminate) eq_refl) as H.
  destruct (renew_rounds 2 h [3; 0; 5]) as [h' now] eqn:E.
  assert (now = 40) as Hn by (vm_compute in E; injection E as <- <-; reflexivity).
  split; [exact Hn|]. apply H.
  - intros x Hx. apply list_elem_of_In in Hx as [<-|[<-|[<-|[]]]]; vm_compute; discriminate.
  - rewrite Hn. vm_compute. discriminate.
Defined.
