(* ===== verification/Adapter.v ===== *)
(** * The lease adapter

    Models [aster/src/coordination/model/adapter.rs]: the [ac1] resource
    encoding with its unpadded base64url codec, and the [CoordinationSerializer]
    that puts a coordination backend behind the lease engine's serializer
    interface. The backend is the trait the source declares; its two calls are
    the fields of a class. *)

From S2P Require Import Prelude Reason Ids CoreLease.

#[local] Open Scope N_scope.
#[local] Open Scope coordination_scope.

(** [PREFIX] and the separator. *)
Definition PREFIX : bytes := String.list_byte_of_string "ac1".
Definition COLON : byte := Byte.x3a.

(** [struct AdapterResource]. *)
Record AdapterResource : Type := mk_AdapterResource {
  ad_group : GroupId;
  ad_key : ResourceKey;
}.

(** [enum AdapterError]. *)
Inductive AdapterError : Type :=
| AE_Shape
| AE_Group
| AE_Encoding
| AE_Key
| AE_WrongGroup.

(** [ALPHABET]. *)
Definition ALPHABET : bytes :=
  String.list_byte_of_string "ABCDEFGHIJKLMNOPQRSTUVWXYZabcdefghijklmnopqrstuvwxyz0123456789-_".
Definition symbol (index : N) : byte := nth (N.to_nat index) ALPHABET Byte.x00.

(** The four indices of a chunk of [base64url_nopad]. *)
Definition quantum_indices (b0 b1 b2 : byte) : list N :=
  let n := N.lor (N.lor (N.shiftl (Strings.Byte.to_N b0) 16) (N.shiftl (Strings.Byte.to_N b1) 8))
             (Strings.Byte.to_N b2) in
  [N.shiftr n 18; N.land (N.shiftr n 12) 63; N.land (N.shiftr n 6) 63; N.land n 63].

(** One chunk: the characters with index [i <= chunk.len()]. *)
Definition encode_chunk (chunk : bytes) : bytes :=
  map symbol (take (S (length chunk))
    (quantum_indices (nth 0 chunk Byte.x00) (nth 1 chunk Byte.x00) (nth 2 chunk Byte.x00))).

(** [base64url_nopad], over [chunks(3)]. *)
Fixpoint base64url_nopad (b : bytes) : bytes :=
  match b with
  | [] => []
  | b0 :: b1 :: b2 :: rest => encode_chunk [b0; b1; b2] ++ base64url_nopad rest
  | chunk => encode_chunk chunk
  end.

(** The nested function [value]. *)
Definition symbol_value (c : byte) : option N :=
  let n := Strings.Byte.to_N c in
  if (65 <=? n) && (n <=? 90) then Some (n - 65)
  else if (97 <=? n) && (n <=? 122) then Some (n - 97 + 26)
  else if (48 <=? n) && (n <=? 57) then Some (n - 48 + 52)
  else if n =? 45 then Some 62
  else if n =? 95 then Some 63
  else None.

(** [x as u8]. *)
Definition as_u8 (n : N) : byte := default Byte.x00 (Strings.Byte.of_N (n mod 256)).

(** The loop over a chunk: [n |= value(c)? << (18 - 6 * i)]. *)
Fixpoint quantum_value (shift : N) (chunk : bytes) : option N :=
  match chunk with
  | [] => Some 0
  | c :: rest =>
      v ← symbol_value c;
      n ← quantum_value (shift - 6) rest;
      Some (N.lor (N.shiftl v shift) n)
  end.

(** One chunk of [decode_base64url_nopad]. *)
Definition decode_chunk (chunk : bytes) : option bytes :=
  if (length chunk =? 1)%nat then None
  else
    n ← quantum_value 18 chunk;
    let spare := match length chunk with
                 | 2%nat => N.land n 65535
                 | 3%nat => N.land n 255
                 | _ => 0
                 end in
    if negb (spare =? 0) then None
    else Some (as_u8 (N.shiftr n 16)
               :: (if (2 <? length chunk)%nat then [as_u8 (N.shiftr n 8)] else [])
               ++ (if (3 <? length chunk)%nat then [as_u8 n] else [])).

(** [decode_base64url_nopad], over [chunks(4)]. *)
Fixpoint decode_base64url_nopad (s : bytes) : option bytes :=
  match s with
  | [] => Some []
  | c0 :: c1 :: c2 :: c3 :: rest =>
      out ← decode_chunk [c0; c1; c2; c3];
      tail ← decode_base64url_nopad rest;
      Some (out ++ tail)
  | chunk => decode_chunk chunk
  end.

(** [s.split(':')]. *)
Fixpoint split_colon (s : bytes) : list bytes :=
  match s with
  | [] => [[]]
  | c :: rest =>
      if bool_decide (c = COLON) then [] :: split_colon rest
      else match split_colon rest with
           | field :: fields => (c :: field) :: fields
           | [] => [[c]]
           end
  end.

(** [encode]. *)
Definition adapter_encode (group : GroupId) (key : ResourceKey) : bytes :=
  PREFIX ++ [COLON] ++ to_hex group ++ [COLON] ++ rk_namespace key ++ [COLON]
  ++ base64url_nopad (rk_key key).

(** [decode]. *)
Definition adapter_decode (s : bytes) (expected_group : GroupId)
    : result AdapterResource AdapterError :=
  match split_colon s with
  | [prefix; group_hex; namespace; key_b64] =>
      if negb (bool_decide (prefix = PREFIX)) then Err AE_Shape
      else match id_parse_hex 32 group_hex with
      | Err _ => Err AE_Group
      | Ok group =>
          if negb (bool_decide (group = expected_group)) then Err AE_WrongGroup
          else match decode_base64url_nopad key_b64 with
          | None => Err AE_Encoding
          | Some key_bytes =>
              match ResourceKey_new namespace key_bytes with
              | Err _ => Err AE_Key
              | Ok key => Ok (mk_AdapterResource group key)
              end
          end
      end
  | _ => Err AE_Shape
  end.

(** [struct ResourceObservation]. *)
Record ResourceObservation : Type := mk_ResourceObservation {
  ob_epoch : N;
  ob_held : bool;
  ob_holder : option NodeId;
}.

(** [struct BackendReply]. *)
Record BackendReply : Type := mk_BackendReply {
  br_outcome : Outcome;
  br_reason : Reason;
  br_fence : option LeaseFence;
  br_observed : ResourceObservation;
}.

(** [trait CoordinationBackend]: a call that fails answers [None]. *)
Class CoordinationBackend (B : Type) : Type := {
  backend_submit : B -> ResourceKey -> LeaseOp -> option BackendReply * B;
  backend_observe : B -> ResourceKey -> option ResourceObservation;
}.

(** [deny_reason_for]. *)
Definition deny_reason_for (reason : Reason) : DenyReason :=
  match reason with
  | R_HeldByOther => DR_HeldByOther
  | R_NotHeld => DR_NotHeld
  | R_NotHolder => DR_NotHolder
  | R_EpochMismatch => DR_EpochMismatch
  | _ => DR_Unauthorized
  end.

(** [snapshot_from]. *)
Definition snapshot_from (resource : bytes) (observed : ResourceObservation) : LeaseSnapshot :=
  mk_LeaseSnapshot resource (ob_epoch observed) (to_hex <$> ob_holder observed) (ob_held observed) None.

(** The errors [CoordinationSerializer] answers with. *)
Inductive SerializerError : Type :=
| CS_Resource (e : AdapterError)
| CS_Backend
| CS_GrantWithoutFence.

(** [struct CoordinationSerializer], without its backend. *)
Record CoordinationSerializer : Type := mk_CoordinationSerializer {
  cos_group : GroupId;
  cos_local_node : NodeId;
}.

Section serializer.
Context {B : Type} `{Backend : CoordinationBackend B}.

(** [resolve], [actor_is_local]. *)
Definition resolve (s : CoordinationSerializer) (resource : bytes) : result ResourceKey AdapterError :=
  match adapter_decode resource (cos_group s) with
  | Ok r => Ok (ad_key r)
  | Err e => Err e
  end.

Definition actor_is_local (s : CoordinationSerializer) (op : LeaseOp) : bool :=
  bool_decide (lease_actor op = to_hex (cos_local_node s)).

(** [LeaseSerializer::transition]. *)
Definition adapter_transition (s : CoordinationSerializer) (resource : bytes) (op : LeaseOp) (b : B)
    : result TransitionOutcome SerializerError * B :=
  match resolve s resource with
  | Err e => (Err (CS_Resource e), b)
  | Ok key =>
      if negb (actor_is_local s op) then
        match backend_observe b key with
        | None => (Err CS_Backend, b)
        | Some observed => (Ok (TO_Denied DR_Unauthorized (snapshot_from resource observed)), b)
        end
      else
        match backend_submit b key op with
        | (None, b) => (Err CS_Backend, b)
        | (Some reply, b) =>
            (match br_outcome reply with
             | O_Granted =>
                 match br_fence reply with
                 | Some fence => Ok (TO_Granted fence)
                 | None => Err CS_GrantWithoutFence
                 end
             | O_Renewed => Ok TO_Renewed
             | O_Released => Ok TO_Released
             | O_Revoked => Ok TO_Revoked
             | _ => Ok (TO_Denied (deny_reason_for (br_reason reply))
                          (snapshot_from resource (br_observed reply)))
             end, b)
        end
  end.

(** [LeaseSerializer::snapshot]. *)
Definition adapter_snapshot (s : CoordinationSerializer) (resource : bytes) (b : B)
    : result LeaseSnapshot SerializerError :=
  match resolve s resource with
  | Err e => Err (CS_Resource e)
  | Ok key =>
      match backend_observe b key with
      | None => Err CS_Backend
      | Some observed => Ok (snapshot_from resource observed)
      end
  end.
End serializer.

(** ** The base64url codec *)

#[local] Ltac Zify.zify_post_hook ::= Z.to_euclidean_division_equations.

(** Disjoint bits add. *)
Lemma lor_shiftl_add a b k : b < 2 ^ k -> N.lor (N.shiftl a k) b = a * 2 ^ k + b.
Proof.
  intros Hb. assert (N.land (N.shiftl a k) b = 0) as Hz.
  { apply N.bits_inj. intros i. rewrite N.land_spec, N.bits_0.
    destruct (N.lt_ge_cases i k) as [Hi|Hi].
    - by rewrite N.shiftl_spec_low.
    - destruct (N.eq_0_gt_0_cases b) as [->|Hpos]; [by rewrite N.bits_0, andb_false_r|].
      rewrite (N.bits_above_log2 b i), andb_false_r; [done|].
      apply N.log2_lt_pow2 in Hb; [|done]. lia. }
  rewrite <- N.lxor_lor, <- N.add_nocarry_lxor by done. by rewrite N.shiftl_mul_pow2.
Qed.

Lemma byte_bound (x : byte) : Strings.Byte.to_N x < 256.
Proof. by destruct x. Qed.

Lemma as_u8_to_N x n : n mod 256 = Strings.Byte.to_N x -> as_u8 n = x.
Proof. intros H. unfold as_u8. by rewrite H, Strings.Byte.of_to_N. Qed.

Lemma to_N_as_u8 n : Strings.Byte.to_N (as_u8 n) = n mod 256.
Proof.
  unfold as_u8. destruct (Strings.Byte.of_N (n mod 256)) as [b|] eqn:E.
  - by apply Strings.Byte.to_of_N in E.
  - apply Strings.Byte.of_N_None_iff in E. pose proof (N.mod_lt n 256 ltac:(done)). lia.
Qed.

Lemma symbol_spec i : i < 64 -> symbol_value (symbol i) = Some i.
Proof.
  intros Hi. assert (forallb (λ k, bool_decide (symbol_value (symbol k) = Some k))
    (map N.of_nat (seq 0 64)) = true) as H by (vm_compute; reflexivity).
  rewrite forallb_forall in H. specialize (H i). apply bool_decide_eq_true_1 in H; [done|].
  apply in_map_iff. exists (N.to_nat i). split; [apply N2Nat.id|]. apply in_seq. lia.
Qed.

Lemma symbol_value_spec c v : symbol_value c = Some v -> v < 64 /\ symbol v = c.
Proof. destruct c; vm_compute; intros H; try discriminate H; injection H as <-; done. Qed.

(** The indices of three bytes, as arithmetic. *)
Lemma quantum_indices_arith b0 b1 b2 :
  let n := Strings.Byte.to_N b0 * 65536 + Strings.Byte.to_N b1 * 256 + Strings.Byte.to_N b2 in
  quantum_indices b0 b1 b2 = [n / 262144; n / 4096 mod 64; n / 64 mod 64; n mod 64].
Proof.
  pose proof (byte_bound b0). pose proof (byte_bound b1). pose proof (byte_bound b2).
  unfold quantum_indices.
  replace (N.lor (N.lor _ _) _) with
    (Strings.Byte.to_N b0 * 65536 + Strings.Byte.to_N b1 * 256 + Strings.Byte.to_N b2).
  - change 63 with (N.ones 6). rewrite !N.shiftr_div_pow2, !N.land_ones. reflexivity.
  - rewrite <- N.lor_assoc, (lor_shiftl_add (Strings.Byte.to_N b1) (Strings.Byte.to_N b2) 8) by done.
    rewrite lor_shiftl_add; [lia|]. change (2 ^ 16) with 65536. lia.
Qed.

Lemma bind_Some_eq {A C} (o : option A) (f : A -> option C) a : o = Some a -> (o ≫= f) = f a.
Proof. by intros ->. Qed.

(** The value of a chunk of symbols. *)
Lemma quantum_value_symbols4 i0 i1 i2 i3 :
  i0 < 64 -> i1 < 64 -> i2 < 64 -> i3 < 64 ->
  quantum_value 18 [symbol i0; symbol i1; symbol i2; symbol i3]
    = Some (i0 * 262144 + i1 * 4096 + i2 * 64 + i3).
Proof.
  intros. cbn [quantum_value]. rewrite !symbol_spec by done. simpl. f_equal.
  change (18 - 6) with 12. change (12 - 6) with 6. change (6 - 6) with 0.
  rewrite (lor_shiftl_add i3 0 0), (lor_shiftl_add i2 _ 6), (lor_shiftl_add i1 _ 12),
    (lor_shiftl_add i0 _ 18); change (2 ^ 0) with 1; change (2 ^ 6) with 64; change (2 ^ 12) with 4096;
    change (2 ^ 18) with 262144; lia.
Qed.

Lemma quantum_value_symbols3 i0 i1 i2 :
  i0 < 64 -> i1 < 64 -> i2 < 64 ->
  quantum_value 18 [symbol i0; symbol i1; symbol i2] = Some (i0 * 262144 + i1 * 4096 + i2 * 64).
Proof.
  intros. cbn [quantum_value]. rewrite !symbol_spec by done. simpl. f_equal.
  change (18 - 6) with 12. change (12 - 6) with 6.
  rewrite (lor_shiftl_add i2 0 6), (lor_shiftl_add i1 _ 12), (lor_shiftl_add i0 _ 18);
    change (2 ^ 6) with 64; change (2 ^ 12) with 4096; change (2 ^ 18) with 262144; lia.
Qed.

Lemma quantum_value_symbols2 i0 i1 :
  i0 < 64 -> i1 < 64 -> quantum_value 18 [symbol i0; symbol i1] = Some (i0 * 262144 + i1 * 4096).
Proof.
  intros. cbn [quantum_value]. rewrite !symbol_spec by done. simpl. f_equal. change (18 - 6) with 12.
  rewrite (lor_shiftl_add i1 0 12), (lor_shiftl_add i0 _ 18);
    change (2 ^ 12) with 4096; change (2 ^ 18) with 262144; lia.
Qed.

(** A decoded chunk, with the bit operations as arithmetic. *)
Lemma decode_chunk_value chunk n :
  length chunk <> 1%nat -> quantum_value 18 chunk = Some n ->
  decode_chunk chunk =
    if negb (match length chunk with 2%nat => n mod 65536 | 3%nat => n mod 256 | _ => 0 end =? 0) then None
    else Some (as_u8 (n / 65536)
               :: (if (2 <? length chunk)%nat then [as_u8 (n / 256)] else [])
               ++ (if (3 <? length chunk)%nat then [as_u8 n] else [])).
Proof.
  intros Hl Hn. unfold decode_chunk. rewrite (proj2 (Nat.eqb_neq _ _) Hl), Hn. simpl.
  rewrite !N.shiftr_div_pow2. change 65535 with (N.ones 16). change 255 with (N.ones 8).
  rewrite !N.land_ones. reflexivity.
Qed.

(** The shape of a list of one, two or three elements more. *)
Lemma decode_encode_chunk chunk :
  (1 <= length chunk <= 3)%nat -> decode_chunk (encode_chunk chunk) = Some chunk.
Proof.
  intros Hlen. destruct chunk as [|b0 [|b1 [|b2 [|]]]]; simpl in Hlen; try lia; clear Hlen;
    unfold encode_chunk; rewrite quantum_indices_arith; cbn [length take map nth].
  - pose proof (byte_bound b0). change (Strings.Byte.to_N Byte.x00) with 0.
    erewrite decode_chunk_value; [|done|apply quantum_value_symbols2; lia]. simpl.
    replace (_ =? 0) with true by (symmetry; apply N.eqb_eq; lia). simpl.
    rewrite (as_u8_to_N b0); [done|lia].
  - pose proof (byte_bound b0). pose proof (byte_bound b1). change (Strings.Byte.to_N Byte.x00) with 0.
    erewrite decode_chunk_value; [|done|apply quantum_value_symbols3; lia]. simpl.
    replace (_ =? 0) with true by (symmetry; apply N.eqb_eq; lia). simpl.
    rewrite (as_u8_to_N b0), (as_u8_to_N b1); [done|lia|lia].
  - pose proof (byte_bound b0). pose proof (byte_bound b1). pose proof (byte_bound b2).
    erewrite decode_chunk_value; [|done|apply quantum_value_symbols4; lia]. simpl.
    rewrite (as_u8_to_N b0), (as_u8_to_N b1), (as_u8_to_N b2); [done|lia..].
Qed.

(** A symbol list that decodes is the image of its indices. *)
Lemma quantum_value_indices shift chunk n :
  quantum_value shift chunk = Some n -> exists vs, chunk = map symbol vs /\ Forall (λ v, v < 64) vs.
Proof.
  revert shift n. induction chunk as [|c chunk IH]; intros shift n; cbn [quantum_value].
  - intros _. exists []. split; [done|constructor].
  - intros (v & Hv & H)%bind_Some. apply bind_Some in H as (m & Hm & _).
    destruct (IH _ _ Hm) as (vs & -> & Hvs). apply symbol_value_spec in Hv as [Hlt <-].
    exists (v :: vs). split; [done|by constructor].
Qed.

Lemma encode_decode_chunk chunk out :
  (length chunk <= 4)%nat -> chunk <> [] -> decode_chunk chunk = Some out ->
  encode_chunk out = chunk /\ length out = pred (length chunk).
Proof.
  intros Hlen Hne Hd.
  assert (length chunk <> 1%nat) as H1 by (intros H1; unfold decode_chunk in Hd; by rewrite H1 in Hd).
  destruct (quantum_value 18 chunk) as [n|] eqn:Hq.
  2:{ unfold decode_chunk in Hd. rewrite Hq in Hd. by case_match. }
  rewrite (decode_chunk_value _ _ H1 Hq) in Hd.
  destruct (quantum_value_indices _ _ _ Hq) as (vs & -> & Hvs). rewrite length_map in *.
  destruct vs as [|i0 [|i1 [|i2 [|i3 [|]]]]]; simpl in Hlen, H1; try lia; [done|..];
    repeat (inversion Hvs as [|?? ? Hvs']; subst; clear Hvs; rename Hvs' into Hvs); simpl map in *.
  - rewrite quantum_value_symbols2 in Hq by done. injection Hq as <-.
    simpl in Hd. destruct (_ =? 0) eqn:Hz; [|done]. injection Hd as <-. boolean_facts. split; [|done].
    unfold encode_chunk. rewrite quantum_indices_arith. cbn [length take map nth].
    change (Strings.Byte.to_N Byte.x00) with 0. rewrite to_N_as_u8.
    do 2 f_equal; [f_equal; lia|]. do 2 f_equal. lia.
  - rewrite quantum_value_symbols3 in Hq by done. injection Hq as <-.
    simpl in Hd. destruct (_ =? 0) eqn:Hz; [|done]. injection Hd as <-. boolean_facts. split; [|done].
    unfold encode_chunk. rewrite quantum_indices_arith. cbn [length take map nth].
    change (Strings.Byte.to_N Byte.x00) with 0. rewrite !to_N_as_u8.
    f_equal; [f_equal; lia|]. f_equal; [f_equal; lia|]. do 2 f_equal. lia.
  - rewrite quantum_value_symbols4 in Hq by done. injection Hq as <-.
    simpl in Hd. injection Hd as <-. split; [|done].
    unfold encode_chunk. rewrite quantum_indices_arith. cbn [length take map nth]. rewrite !to_N_as_u8.
    f_equal; [f_equal; lia|]. f_equal; [f_equal; lia|]. f_equal; [f_equal; lia|]. do 2 f_equal. lia.
Qed.

Lemma base64url_roundtrip b : decode_base64url_nopad (base64url_nopad b) = Some b.
Proof.
  induction b as [b IH] using (induction_ltof1 _ (@length byte)).
  destruct b as [|b0 [|b1 [|b2 rest]]].
  - done.
  - exact (decode_encode_chunk [b0] ltac:(simpl; lia)).
  - exact (decode_encode_chunk [b0; b1] ltac:(simpl; lia)).
  - change (base64url_nopad _) with (encode_chunk [b0; b1; b2] ++ base64url_nopad rest).
    pose proof (decode_encode_chunk [b0; b1; b2] ltac:(simpl; lia)) as Hc.
    unfold encode_chunk in *. cbn [length take map app] in *.
    destruct (quantum_indices _ _ _) as [|i0 [|i1 [|i2 [|i3 [|]]]]] eqn:E; try (unfold quantum_indices in E; done).
    cbn [map take app decode_base64url_nopad] in *. rewrite Hc. simpl.
    rewrite (IH rest); [done|]. unfold ltof. simpl. lia.
Qed.

(** Every string decodes to at most one key, and only its own encoding does. *)
Lemma base64url_canonical s b : decode_base64url_nopad s = Some b -> base64url_nopad b = s.
Proof.
  revert b. induction s as [s IH] using (induction_ltof1 _ (@length byte)). intros b.
  destruct s as [|c0 [|c1 [|c2 [|c3 rest]]]].
  - by intros [= <-].
  - done.
  - intros H. destruct (encode_decode_chunk [c0; c1] b ltac:(simpl; lia) ltac:(done) H) as [He Hl].
    by destruct b as [|b0 [|]].
  - intros H. destruct (encode_decode_chunk [c0; c1; c2] b ltac:(simpl; lia) ltac:(done) H) as [He Hl].
    by destruct b as [|b0 [|b1 [|]]].
  - cbn [decode_base64url_nopad]. intros (out & Ho & H)%bind_Some. apply bind_Some in H as (tail & Ht & [= <-]).
    destruct (encode_decode_chunk [c0; c1; c2; c3] out ltac:(simpl; lia) ltac:(done) Ho) as [He Hl].
    destruct out as [|b0 [|b1 [|b2 [|]]]]; try done.
    change (base64url_nopad _) with (encode_chunk [b0; b1; b2] ++ base64url_nopad tail).
    rewrite He, (IH rest); [done| |done]. unfold ltof. simpl. lia.
Qed.

(** ** The resource string *)

Definition no_colon (s : bytes) : Prop := COLON ∉ s.

Lemma split_colon_field s rest :
  no_colon s -> split_colon (s ++ COLON :: rest) = s :: split_colon rest.
Proof.
  unfold no_colon. induction s as [|c s IH]; intros Hs; simpl.
  - done.
  - rewrite bool_decide_eq_false_2 by set_solver. by rewrite IH by set_solver.
Qed.

Lemma split_colon_last s : no_colon s -> split_colon s = [s].
Proof.
  unfold no_colon. induction s as [|c s IH]; intros Hs; simpl; [done|].
  rewrite bool_decide_eq_false_2 by set_solver. by rewrite IH by set_solver.
Qed.

(** Joining the fields gives the string back. *)
Fixpoint join_colon (fields : list bytes) : bytes :=
  match fields with
  | [] => []
  | [field] => field
  | field :: rest => field ++ COLON :: join_colon rest
  end.

Lemma split_colon_nonempty s : split_colon s <> [].
Proof. destruct s as [|c s]; simpl; [done|]. case_bool_decide; [done|]. by case_match. Qed.

Lemma join_split_colon s : join_colon (split_colon s) = s.
Proof.
  induction s as [|c s IH]; simpl; [done|]. case_bool_decide as Hc.
  - pose proof (split_colon_nonempty s). subst c. destruct (split_colon s) as [|f fs]; [done|].
    change (COLON :: join_colon (f :: fs) = COLON :: s). by rewrite IH.
  - pose proof (split_colon_nonempty s). destruct (split_colon s) as [|f fs]; [done|].
    rewrite <- IH. by destruct fs.
Qed.

Lemma hex_no_colon b : no_colon (to_hex b).
Proof.
  unfold no_colon. induction b as [|x b IH]; [apply not_elem_of_nil|]. rewrite to_hex_cons.
  rewrite !not_elem_of_cons. split_and!; [..|done]; destruct x; vm_compute; discriminate.
Qed.

Lemma namespace_no_colon ns : valid_namespace ns -> no_colon ns.
Proof.
  intros (first & rest & -> & Hf & Hr & _). unfold no_colon. intros [Heq|Hin]%elem_of_cons.
  - subst first. destruct Hf as [H|H]; discriminate H.
  - apply Hr in Hin. discriminate Hin.
Qed.

Lemma symbol_no_colon c v : symbol_value c = Some v -> c <> COLON.
Proof. intros H ->. discriminate H. Qed.

Lemma quantum_no_colon shift chunk n : quantum_value shift chunk = Some n -> no_colon chunk.
Proof.
  unfold no_colon. revert shift n. induction chunk as [|c chunk IH]; intros shift n; cbn [quantum_value].
  - intros _. apply not_elem_of_nil.
  - intros (v & Hv & H)%bind_Some. apply bind_Some in H as (m & Hm & _).
    apply not_elem_of_cons. split; [|by eapply IH]. intros <-. discriminate Hv.
Qed.

Lemma decode_chunk_no_colon chunk out : decode_chunk chunk = Some out -> no_colon chunk.
Proof.
  unfold decode_chunk. case_match; [done|]. intros (n & Hn & _)%bind_Some. by eapply quantum_no_colon.
Qed.

Lemma base64_no_colon s b : decode_base64url_nopad s = Some b -> no_colon s.
Proof.
  revert b. induction s as [s IH] using (induction_ltof1 _ (@length byte)). intros b.
  destruct s as [|c0 [|c1 [|c2 [|c3 rest]]]]; [|by apply decode_chunk_no_colon..|].
  - intros _. apply not_elem_of_nil.
  - cbn [decode_base64url_nopad]. intros (out & Ho%decode_chunk_no_colon & H)%bind_Some.
    apply bind_Some in H as (tail & Ht & _). unfold no_colon in *.
    change (c0 :: c1 :: c2 :: c3 :: rest) with ([c0; c1; c2; c3] ++ rest). rewrite not_elem_of_app. split; [done|].
    eapply IH; [|done]. unfold ltof. simpl. lia.
Qed.

Lemma hex_chunks_no_colon s out :
  Nat.Even (length s) -> decode_hex_chunks s = Ok out -> no_colon s.
Proof.
  revert out. induction s as [s IH] using (induction_ltof1 _ (@length byte)). intros out Hev.
  destruct s as [|hi [|lo rest]].
  - intros _. apply not_elem_of_nil.
  - destruct Hev as [m Hm]. simpl in Hm. lia.
  - cbn [decode_hex_chunks]. destruct (hex_digit hi) eqn:Hh; [|done]. destruct (hex_digit lo) eqn:Hl; [|done].
    destruct (decode_hex_chunks rest) eqn:Hr; [|done]. intros _. unfold no_colon in *.
    rewrite !not_elem_of_cons. split_and!; [intros <-; discriminate Hh|intros <-; discriminate Hl|].
    eapply IH; [unfold ltof; simpl; lia| |done]. destruct Hev as [m Hm]. simpl in Hm. exists (m - 1)%nat. lia.
Qed.

Lemma decode_hex_no_colon n s out : decode_hex n s = Ok out -> no_colon s.
Proof.
  unfold decode_hex. destruct (N.eqb_spec (len s) (n * 2)) as [Hl|]; [|done]. simpl.
  apply hex_chunks_no_colon. exists (N.to_nat n). unfold len in Hl. lia.
Qed.

(** The string with a given spelling of the group. *)
Definition spelled (group_hex : bytes) (key : ResourceKey) : bytes :=
  PREFIX ++ [COLON] ++ group_hex ++ [COLON] ++ rk_namespace key ++ [COLON] ++ base64url_nopad (rk_key key).

Lemma split_spelled group_hex key :
  no_colon group_hex -> valid_namespace (rk_namespace key) ->
  split_colon (spelled group_hex key) = [PREFIX; group_hex; rk_namespace key; base64url_nopad (rk_key key)].
Proof.
  intros Hg Hn. unfold spelled.
  change (split_colon (PREFIX ++ COLON :: (group_hex ++ COLON :: (rk_namespace key
    ++ COLON :: base64url_nopad (rk_key key)))) = [PREFIX; group_hex; rk_namespace key; base64url_nopad (rk_key key)]).
  rewrite !split_colon_field, split_colon_last; [done|..].
  - by eapply base64_no_colon, base64url_roundtrip.
  - by apply namespace_no_colon.
  - done.
  - unfold no_colon, PREFIX. apply (bool_decide_unpack _). vm_compute. exact I.
Qed.

Lemma adapter_decode_Ok s group r :
  adapter_decode s group = Ok r <->
  exists group_hex, s = spelled group_hex (ad_key r) /\ decode_hex 32 group_hex = Ok group /\
    ad_group r = group /\ valid_key (ad_key r).
Proof.
  unfold adapter_decode. split.
  - pose proof (join_split_colon s) as Hj. destruct (split_colon s) as [|p [|g [|ns [|k [|]]]]]; try done.
    case_bool_decide; [|done]. simpl. unfold id_parse_hex. destruct (decode_hex 32 g) as [gid|] eqn:Hg; [|done].
    case_bool_decide; [|done]. simpl. destruct (decode_base64url_nopad k) as [kb|] eqn:Hk; [|done].
    destruct (ResourceKey_new ns kb) as [key|] eqn:Hkey; [|done]. intros [= <-].
    apply ResourceKey_new_Ok in Hkey as [-> Hv]. subst. exists g. split_and!; [|done..]. unfold spelled. simpl.
    by rewrite (base64url_canonical _ _ Hk).
  - intros (g & -> & Hg & Hgr & Hv). destruct r as [gr key]. cbn [ad_group ad_key] in *. subst gr.
    rewrite split_spelled; [|by eapply decode_hex_no_colon|apply Hv].
    rewrite bool_decide_eq_true_2 by done. simpl. unfold id_parse_hex. rewrite Hg.
    rewrite bool_decide_eq_true_2 by done. simpl. rewrite base64url_roundtrip.
    destruct key as [ns kb]. simpl. by rewrite (proj2 (ResourceKey_new_Ok ns kb _) (conj eq_refl Hv)).
Qed.

(** A resource string names one group and one key. Decoding inverts encoding
    for the group it names; for any other group the same string is refused as
    another group's, so a handle held across a recovery cannot be renewed
    against the recovered group; and a string that decodes is the encoding of
    what it decodes to, except that the hexadecimal group may be spelled in
    either case. *)
Theorem adapter_resource_roundtrip group key s r :
  len group = 32 -> valid_key key ->
  adapter_decode (adapter_encode group key) group = Ok (mk_AdapterResource group key) /\
  (forall other, other <> group -> adapter_decode (adapter_encode group key) other = Err AE_WrongGroup) /\
  (adapter_decode s group = Ok r ->
     exists group_hex, decode_hex 32 group_hex = Ok group /\ s = spelled group_hex (ad_key r)).
Proof.
  intros Hl Hv. assert (decode_hex 32 (to_hex group) = Ok group) as Hhex.
  { unfold decode_hex. rewrite len_to_hex, Hl. apply decode_hex_chunks_to_hex. }
  split_and!.
  - apply adapter_decode_Ok. exists (to_hex group). done.
  - intros other Hne. unfold adapter_decode. change (adapter_encode group key) with (spelled (to_hex group) key).
    rewrite split_spelled; [|apply hex_no_colon|apply Hv].
    rewrite bool_decide_eq_true_2 by done. simpl. unfold id_parse_hex. rewrite Hhex.
    by rewrite bool_decide_eq_false_2 by done.
  - intros (g & Hs & Hg & _)%adapter_decode_Ok. eauto.
Qed.

Lemma adapter_resource_roundtrip_witness :
  let group := replicate 32 Byte.xab in
  let key := mk_ResourceKey [Byte.x6e; Byte.x73] [Byte.x00; Byte.xff] in
  adapter_decode (adapter_encode group key) group = Ok (mk_AdapterResource group key).
Proof.
  intros group key.
  refine (proj1 (adapter_resource_roundtrip group key [] (mk_AdapterResource group key) eq_refl _)).
  apply (proj1 (ResourceKey_new_Ok [Byte.x6e; Byte.x73] [Byte.x00; Byte.xff] key)). reflexivity.
Defined.

(** The group's case gives a resource two spellings: the string with the
    group in upper-case hexadecimal is not the canonical one, yet it decodes to
    the same group and the same key. The lease engine compares resources as
    opaque strings, so the two spellings are two lease identities over one
    row. *)
Theorem adapter_accepts_two_spellings :
  let group := replicate 32 Byte.xab in
  let key := mk_ResourceKey [Byte.x6e; Byte.x73] [Byte.x6b] in
  let upper := spelled (concat (replicate 32 [Byte.x41; Byte.x42])) key in
  upper <> adapter_encode group key /\
  adapter_decode upper group = adapter_decode (adapter_encode group key) group /\
  adapter_decode upper group = Ok (mk_AdapterResource group key).
Proof. split_and!; [vm_compute; discriminate|vm_compute; reflexivity|vm_compute; reflexivity]. Qed.
