(* ===== verification/LeaseRefinement.v ===== *)
(** * The coordination group as a lease serializer

    [core::lease::transition] is the normative lease machine; every serializer
    must match it. This file relates the replicated machine to it: what the
    live backend of [client/lease.rs] submits for a lease operation is accepted
    exactly where the lease machine accepts it and moves the row the same way,
    and whatever any command does to a resource row is a transition of the
    lease machine or leaves its lease alone. *)

From S2P Require Import Prelude Reason Ids Contract Externals Limits State Tables Classify Ticket.
From S2P Require Import Authority Shape Genesis Resource Grant Retire Membership Apply.
From S2P Require Import Wire Boundary Changes Durable Scenario Accounting Invariant AuditTrail.
From S2P Require Import Steps SessionTable MembershipTable RouteTable Preservation.
From S2P Require Import Validation Refinement Leases CoreLease LeaseSafety Adapter.

#[local] Open Scope N_scope.

(** [Duration::from_millis], [Duration::as_millis() as u64]. *)
Definition NANOS_PER_MILLI : N := 1000000.
Definition from_millis (ms : N) : N := ms * NANOS_PER_MILLI.
Definition as_millis_u64 (d : N) : N := (d / NANOS_PER_MILLI) mod U64_MODULUS.

(** [ClientBackend::wire_key], [ClientBackend::wire_fence]. *)
Definition wire_fence (group : GroupId) (resource : ResourceKey) (epoch : N) (holder : NodeId) : FenceV1 :=
  mk_FenceV1 group (resource_key_to_wire resource) epoch holder.

(** The action [ClientBackend::submit] proposes for an operation. *)
Definition backend_action `{UnknownCarrier} (group : GroupId) (local : NodeId) (resource : ResourceKey)
    (op : LeaseOp) : ActionV1 :=
  match op with
  | LO_Acquire _ ttl => AV_Acquire (resource_key_to_wire resource) (as_millis_u64 ttl)
  | LO_Renew _ epoch => AV_Renew (wire_fence group resource epoch local)
  | LO_Release _ epoch => AV_Release (wire_fence group resource epoch local)
  | LO_Revoke _ => AV_Revoke (resource_key_to_wire resource) None
  end.

(** The operation [ClientBackend::submit] puts to the group: whoever the
    operation names, the backend acts as the local node, and a TTL travels in
    whole milliseconds. *)
Definition submitted_op (local : NodeId) (op : LeaseOp) : LeaseOp :=
  match op with
  | LO_Acquire _ ttl => LO_Acquire (to_hex local) (from_millis (as_millis_u64 ttl))
  | LO_Renew _ epoch => LO_Renew (to_hex local) epoch
  | LO_Release _ epoch => LO_Release (to_hex local) epoch
  | LO_Revoke _ => LO_Revoke (to_hex local)
  end.

(** The lease a resource row carries. *)
Definition lease_view (row : ResourceRow) : RowState :=
  mk_RowState (rr_epoch row) (to_hex <$> rr_holder row) (rr_held row) (from_millis (rr_ttl_ms row)).

Definition lease_of (st : State) (key : ResourceKey) : RowState :=
  lease_view (default ResourceRow_default (st_resources st !! key)).

(** The outcome a lease caller sees for an applied transition. *)
Definition same_outcome (o : TransitionOutcome) (outcome : Outcome) : Prop :=
  match o with
  | TO_Granted _ => outcome = O_Granted
  | TO_Renewed => outcome = O_Renewed
  | TO_Released => outcome = O_Released
  | TO_Revoked => outcome = O_Revoked
  | TO_Denied _ _ => False
  end.

(** The refusals that are about the lease itself. *)
Definition lease_reason (r : Reason) : bool :=
  match r with
  | R_HeldByOther | R_NotHeld | R_NotHolder | R_EpochMismatch => true
  | _ => false
  end.

Lemma to_hex_inj a b : to_hex a = to_hex b -> a = b.
Proof.
  intros H. pose proof (decode_hex_chunks_to_hex a) as Ha. rewrite H, decode_hex_chunks_to_hex in Ha.
  congruence.
Qed.

Lemma holder_view o a : to_hex <$> o = Some (to_hex a) <-> o = Some a.
Proof.
  split; [|by intros ->]. intros H. apply fmap_Some in H as (x & -> & Hx). by apply to_hex_inj in Hx as ->.
Qed.

(** ** One operation through the backend *)

(** The model action of an operation. *)
Definition model_action (group : GroupId) (local : NodeId) (key : ResourceKey) (op : LeaseOp)
    : ResourceAction :=
  let raw := mk_RawResourceKey (rk_namespace key) (rk_key key) in
  match op with
  | LO_Acquire _ ttl => Acquire raw (as_millis_u64 ttl)
  | LO_Renew _ epoch => Renew (mk_Fence group raw epoch local)
  | LO_Release _ epoch => Release (mk_Fence group raw epoch local)
  | LO_Revoke _ => Revoke raw None
  end.

Lemma backend_action_narrows `{UnknownCarrier} group local key op :
  len group = 32 -> len local = 32 ->
  action_from_wire (backend_action group local key op) = Ok (A_Resource (model_action group local key op)).
Proof.
  intros Hg Hl. destruct op; simpl; unfold narrow_fence, narrow_node_id; simpl;
    rewrite ?narrow_width_same by done; done.
Qed.

Lemma validate_valid_key key :
  valid_key key -> validate (mk_RawResourceKey (rk_namespace key) (rk_key key)) = Ok key.
Proof.
  intros Hv. unfold validate, validate_resource_key. simpl. destruct key as [ns k]. simpl.
  by rewrite (proj2 (ResourceKey_new_Ok ns k _) (conj eq_refl Hv)).
Qed.

(** A fence check against the lease the row carries. *)
Lemma check_fence_view local group raw epoch row :
  check_fence local row (mk_Fence group raw epoch local) = None <->
  rr_held row = true /\ rr_holder row = Some local /\ rr_epoch row = epoch.
Proof.
  unfold check_fence. simpl. rewrite (bool_decide_eq_true_2 (local = local)) by done. simpl.
  destruct (rr_held row); simpl; [|by split; [|intros []]].
  case_bool_decide; simpl; [|naive_solver]. destruct (N.eqb_spec (rr_epoch row) epoch); naive_solver.
Qed.

Lemma check_fence_reason local row fence reason :
  check_fence local row fence = Some reason -> lease_reason (refusal_get reason) = true.
Proof. unfold check_fence. repeat case_match; intros [= <-]; done. Qed.

(** The lease machine's view of a refused fence. *)
Lemma lease_denies_renew row holder epoch resource :
  ~ (rr_held row = true /\ rr_holder row = Some holder /\ rr_epoch row = epoch) ->
  exists d, lease_transition (lease_view row) false (LO_Renew (to_hex holder) epoch) resource = T_Deny d.
Proof.
  intros Hn. simpl. destruct (rr_held row); simpl; [|eauto].
  destruct (N.eqb_spec epoch (rr_epoch row)) as [->|]; simpl; [|eauto].
  case_bool_decide as Hh; simpl; [|eauto]. apply (proj1 (holder_view _ _)) in Hh. by destruct Hn.
Qed.

Lemma lease_denies_release row holder epoch resource :
  (rr_held row = true <-> is_Some (rr_holder row)) ->
  ~ (rr_held row = true /\ rr_holder row = Some holder /\ rr_epoch row = epoch) ->
  exists d, lease_transition (lease_view row) false (LO_Release (to_hex holder) epoch) resource = T_Deny d.
Proof.
  intros Hok Hn. simpl. destruct (N.eqb_spec epoch (rr_epoch row)) as [->|]; simpl; [|eauto].
  case_bool_decide as Hh; simpl; [|eauto]. apply (proj1 (holder_view _ _)) in Hh. destruct Hn.
  split_and!; [apply Hok; rewrite Hh; eauto|done|done].
Qed.

Section backend.
Context (st : State) (group : GroupId) (local : NodeId) (key : ResourceKey) (op : LeaseOp).
Context (Hres : resources_ok st) (Hkey : valid_key key) (Hgroup : group = ga_group_id (st_authority st)).

Lemma lease_row_ok : row_ok (default ResourceRow_default (st_resources st !! key)).
Proof. by apply row_default_ok. Qed.

(** An accepted operation moves the row as the lease machine does. *)
Lemma accepted_is_a_transition e resource :
  resource_decide st local (model_action group local key op) = RD_Apply e ->
  re_key e = key /\ exists o reset,
    lease_transition (lease_of st key) false (submitted_op local op) resource = T_Apply (lease_view (re_row e)) o reset /\
    same_outcome o (re_outcome e).
Proof.
  unfold resource_decide, lease_of. intros H.
  destruct op as [candidate ttl|holder epoch|holder epoch|authority]; subst;
    cbn [model_action raw_resource action_fence fe_resource] in H; rewrite validate_valid_key in H by done;
    destruct (check_shape _); try done; destruct (negb _); try done;
    simpl from_option in H; repeat (destruct (negb (bool_decide _)); [done|]).
  - unfold decide_acquire in H. destruct (rr_held _) eqn:Hh; [done|].
    repeat (case_match; try discriminate H). injection H as <-. split; [done|].
    simpl. rewrite Hh. simpl. eexists (TO_Granted _), _. split; [|done]. done.
  - unfold decide_renew in H. destruct (st_resources st !! key) as [row|]; [|done].
    destruct (check_fence _ _ _) eqn:Hf; [done|]. apply check_fence_view in Hf as (Hh & Hho & He).
    case_match; [done|]. injection H as <-. split; [done|]. unfold lease_view. simpl.
    rewrite Hh, He, N.eqb_refl. simpl. rewrite bool_decide_eq_true_2 by (by rewrite Hho).
    eexists _, _. split; [reflexivity|done].
  - unfold decide_release in H. destruct (st_resources st !! key) as [row|]; [|done].
    destruct (check_fence _ _ _) eqn:Hf; [done|]. apply check_fence_view in Hf as (Hh & Hho & He).
    case_match; [done|]. injection H as <-. split; [done|]. unfold lease_view, cleared_lease. simpl.
    rewrite He, N.eqb_refl. simpl. rewrite bool_decide_eq_true_2 by (by rewrite Hho).
    eexists _, _. split; [reflexivity|done].
  - unfold decide_revoke in H. destruct (st_resources st !! key) as [row|]; [|done].
    simpl in H. case_match; [done|]. injection H as <-. split; [done|].
    eexists _, _. split; [reflexivity|done].
Qed.

(** An operation refused over the lease is one the lease machine refuses; the
    one exception is a revocation of a resource that does not exist, which the
    lease machine would have applied to its initial row. *)
Lemma refused_is_denied reason resource :
  resource_decide st local (model_action group local key op) = RD_Refuse reason ->
  lease_reason (refusal_get reason) = true ->
  match op with
  | LO_Revoke _ => st_resources st !! key = None /\ refusal_get reason = R_NotHeld
  | _ => exists d, lease_transition (lease_of st key) false (submitted_op local op) resource = T_Deny d
  end.
Proof.
  unfold resource_decide, lease_of. intros H Hreason. pose proof (rok_held _ lease_row_ok) as Hok.
  destruct op as [candidate ttl|holder epoch|holder epoch|authority]; subst;
    cbn [model_action raw_resource action_fence fe_resource] in H; rewrite validate_valid_key in H by done;
    destruct (check_shape _); try done; destruct (negb _);
    try (injection H as <-; discriminate Hreason); simpl from_option in H;
    try (rewrite (bool_decide_eq_true_2 (_ = _)) in H by done; simpl negb in H; cbv iota in H).
  - unfold decide_acquire in H. simpl. destruct (rr_held _) eqn:Hh; [by eauto|].
    repeat (case_match; try discriminate H); injection H as <-; discriminate Hreason.
  - unfold decide_renew in H. apply lease_denies_renew. intros (Hh & Hho & He).
    destruct (st_resources st !! key) as [row|]; simpl in *; [|done].
    rewrite (proj2 (check_fence_view local _ _ epoch row)) in H by done.
    case_match; [|done]. injection H as <-. discriminate Hreason.
  - unfold decide_release in H. apply lease_denies_release; [done|]. intros (Hh & Hho & He).
    destruct (st_resources st !! key) as [row|]; simpl in *; [|done].
    rewrite (proj2 (check_fence_view local _ _ epoch row)) in H by done.
    case_match; [|done]. injection H as <-. discriminate Hreason.
  - unfold decide_revoke in H. destruct (st_resources st !! key); [|by injection H as <-]. simpl in H.
    case_match; [|done]. injection H as <-. discriminate Hreason.
Qed.

(** C8: through its live backend the group is a lease serializer, but for
    revoking what was never created. For a valid resource, any lease operation
    and the operation the backend makes of it ([submitted_op]: by the local
    node, which is the only actor the adapter lets through, and with the TTL
    cut to whole milliseconds), the submitted action narrows, and the group's
    decision on it is the one the normative machine takes on the row it
    carries. The group reads no clock, so the machine is taken at a row that
    has not expired: expiry reaches the group as a committed command of its
    own. Accepted, the operation moves epoch, holder, held flag and TTL exactly
    as the machine does and reports the machine's outcome. Refused for a lease
    reason, an acquisition, a renewal or a release is denied by the machine
    too, while a revocation is refused for such a reason only when the
    resource has no row, with [NotHeld], although the machine revokes
    unconditionally. Every other refusal is about rights, capacity, exhausted
    counters or the request's shape. *)
Theorem group_is_a_lease_serializer `{UnknownCarrier} resource :
  len group = 32 -> len local = 32 ->
  action_from_wire (backend_action group local key op) = Ok (A_Resource (model_action group local key op)) /\
  match resource_decide st local (model_action group local key op) with
  | RD_Apply e => re_key e = key /\ exists o reset,
      lease_transition (lease_of st key) false (submitted_op local op) resource
        = T_Apply (lease_view (re_row e)) o reset /\
      same_outcome o (re_outcome e)
  | RD_Refuse reason => lease_reason (refusal_get reason) = true ->
      match op with
      | LO_Revoke _ => st_resources st !! key = None /\ refusal_get reason = R_NotHeld
      | _ => exists d, lease_transition (lease_of st key) false (submitted_op local op) resource = T_Deny d
      end
  | RD_RefuseShapeless _ => True
  end /\
  (forall authority, op = LO_Revoke authority ->
    exists next, lease_transition (lease_of st key) false (submitted_op local op) resource
      = T_Apply next TO_Revoked false) /\
  (lease_actor op = to_hex local ->
    match op with LO_Acquire _ ttl => from_millis (as_millis_u64 ttl) = ttl | _ => True end ->
    submitted_op local op = op).
Proof.
  intros Hg Hl. split_and!; [by apply backend_action_narrows| | |].
  - destruct (resource_decide _ _ _) eqn:Hd; [by apply accepted_is_a_transition|by eapply refused_is_denied|done].
  - intros authority ->. simpl. eauto.
  - intros Hactor Httl. destruct op; simpl in *; by rewrite ?Hactor, ?Httl.
Qed.
End backend.

(** ** Whole histories *)

(** One transition of the lease machine at an unexpired row. *)
Definition lease_step (r r' : RowState) : Prop :=
  exists op resource o reset, lease_transition r false op resource = T_Apply r' o reset.

Definition leases_move (s s' : State) : Prop := forall key, rtc lease_step (lease_of s key) (lease_of s' key).

#[export] Instance leases_move_preorder : PreOrder leases_move.
Proof. split; [by intros s key|]. intros s1 s2 s3 H1 H2 key. etrans; [apply H1|apply H2]. Qed.

Lemma leases_move_same s s' : st_resources s' = st_resources s -> leases_move s s'.
Proof. intros H key. unfold lease_of. by rewrite H. Qed.

Lemma leases_move_insert s s' key row :
  st_resources s' = <[key := row]> (st_resources s) ->
  rtc lease_step (lease_of s key) (lease_view row) -> leases_move s s'.
Proof.
  intros Hs Hrow k. unfold lease_of at 2. rewrite Hs. destruct (decide (key = k)) as [->|Hne].
  - by rewrite lookup_insert_eq.
  - by rewrite lookup_insert_ne.
Qed.

(** Ending a lease, whatever ended it, is the machine's revocation. *)
Lemma cleared_is_a_step row row' :
  rr_epoch row' = u64_add (rr_epoch row) 1 -> rr_held row' = false -> rr_holder row' = None ->
  rr_ttl_ms row' = rr_ttl_ms row -> rtc lease_step (lease_view row) (lease_view row').
Proof.
  intros He Hh Hho Ht. apply rtc_once. exists (LO_Revoke []), [], TO_Revoked, false. unfold lease_view. simpl.
  by rewrite He, Hh, Hho, Ht.
Qed.

Lemma kept_is_a_step row row' :
  rr_epoch row' = rr_epoch row -> rr_held row' = rr_held row -> rr_holder row' = rr_holder row ->
  rr_ttl_ms row' = rr_ttl_ms row -> rtc lease_step (lease_view row) (lease_view row').
Proof. intros He Hh Hho Ht. unfold lease_view. by rewrite He, Hh, Hho, Ht. Qed.

Section histories.
Context `{Ext : Externals}.

Lemma resource_decision_moves st actor a e :
  resource_decide st actor a = RD_Apply e -> rtc lease_step (lease_of st (re_key e)) (lease_view (re_row e)).
Proof.
  intros H. unfold lease_of. unfold resource_decide, decide_acquire, decide_renew, decide_compare_and_set,
    decide_release, decide_release_with_value, decide_revoke in H.
  repeat (case_match; try discriminate H); injection H as <-; cbn [re_key re_row];
    repeat match goal with Hr : st_resources _ !! _ = Some _ |- _ => rewrite Hr end; simpl default;
    try (by apply kept_is_a_step); try (by apply cleared_is_a_step).
  all: apply rtc_once; eexists (LO_Acquire (to_hex actor) _), [], _, true; simpl;
    match goal with Hh : rr_held _ = false |- _ => rewrite Hh end; reflexivity.
Qed.

Lemma business_moves log_id tx tx' : business log_id tx tx' -> leases_move (tx_state tx) (tx_state tx').
Proof.
  intros Hb.
  destruct Hb as [|? ? e Hd|? ? e Hd|? ? e Hd|? ? ? e Hd|? ? e Hd|c e Hd Hobs|c row Hd|? g st Hv H0];
    [reflexivity|..].
  - eapply leases_move_insert; [reflexivity|]. by eapply resource_decision_moves.
  - pose proof (grant_decide_accepted _ _ _ _ Hd) as Ha.
    eapply leases_move_insert; [apply write_grant_tables|]. rewrite (gac_row _ _ _ _ Ha). unfold lease_of.
    destruct (gre_fenced e); [by apply cleared_is_a_step|by apply kept_is_a_step].
  - apply leases_move_same, write_admin_tables.
  - apply leases_move_same, (mo_resources _ _ (write_intent_frame log_id e tx)).
  - apply leases_move_same, (mo_resources _ _ (write_intent_frame log_id e tx)).
  - apply leases_move_same, (mo_resources _ _ (write_intent_frame log_id e tx)).
  - apply expire_decide_Apply in Hd as (old & Hold & _ & _ & _ & _ & _ & ->).
    eapply leases_move_insert; [reflexivity|]. unfold lease_of. rewrite Hold. by apply cleared_is_a_step.
  - apply leases_move_same, install_admins_tables.
Qed.

Lemma command_moves op_of_hash log_id tx tx' :
  command_steps op_of_hash log_id tx tx' -> leases_move (tx_state tx) (tx_state tx').
Proof.
  intros (tx1 & tx2 & row & -> & Hb & Hs & _).
  trans (tx_state tx1); [by eapply business_moves|]. apply leases_move_same.
  rewrite (ao_resources _ _ (write_audit_row_frame log_id row tx2)).
  by destruct (session_step_frame _ _ _ _ Hs) as [[] _].
Qed.

(** Every history of the group is a history of the lease machine. On a
    reachable store, whatever a well-formed batch does to a resource, through
    client commands, grants that take a holder's rights, committed expiries,
    registers written under the lease or anything else, the epoch, holder,
    held flag and TTL of the resource move by transitions of the normative
    lease machine only, and never by one that relies on a clock. *)
Theorem group_histories_are_lease_histories op_of_hash d t entries replies d' t' :
  reachable op_of_hash d t ->
  log_wf op_of_hash (st_deployment_profile_code (ds_model d)) (st_last_applied (ds_model d)) entries ->
  apply_batch entries d t = Ok (replies, d', t') ->
  forall key, rtc lease_step (lease_of (ds_model d) key) (lease_of (ds_model d') key).
Proof.
  apply (apply_batch_rel op_of_hash leases_move).
  - intros s s' [Heq _]. apply leases_move_same. by injection Heq.
  - intros log_id tx tx' _ _ Hc. by eapply command_moves.
Qed.
End histories.

(** ** Witnesses *)

#[local] Instance refinement_carrier : UnknownCarrier := unit.
#[local] Instance refinement_externals : Externals := founding_externals.

(** The holder of the run's lease renews it through its backend. *)
Lemma group_is_a_lease_serializer_witness :
  let st := run_state 4 in
  let group := ga_group_id (st_authority st) in
  let op := LO_Renew (to_hex sample_voter) 1 in
  exists e, resource_decide st sample_voter (model_action group sample_voter run_key op) = RD_Apply e /\
    exists o reset, lease_transition (lease_of st run_key) false op [] = T_Apply (lease_view (re_row e)) o reset.
Proof.
  intros st group op.
  assert (match run_batch 4 with Ok _ => True | Err _ => False end) as Hok by (vm_compute; exact I).
  assert (resources_ok st) as Hres.
  { unfold st, run_state. destruct (run_batch 4) as [[[r d] t]|] eqn:E; [|destruct Hok].
    destruct (reachable_inv _ _ _ (run_prefix_reachable 4 r d t ltac:(lia) E)) as [[Hinv _] _].
    exact (inv_resources _ _ _ Hinv). }
  assert (valid_key run_key) as Hkey
    by (apply (proj1 (ResourceKey_new_Ok [Byte.x61] [Byte.x6b] run_key)); reflexivity).
  pose proof (group_is_a_lease_serializer st group sample_voter run_key op Hres Hkey eq_refl
    [] eq_refl eq_refl) as [_ [H _]].
  destruct (resource_decide st sample_voter (model_action group sample_voter run_key op)) as [e| |] eqn:E.
  - exists e. split; [reflexivity|]. destruct H as (_ & o & reset & Ht & _). exists o, reset. exact Ht.
  - exfalso. clear H. vm_compute in E. discriminate E.
  - exfalso. clear H. vm_compute in E. discriminate E.
Defined.

Lemma group_histories_are_lease_histories_witness :
  match run_batch 4 with
  | Ok (_, d, t) =>
      match apply_batch (run_rest 4) d t with
      | Ok (_, d', _) => rtc lease_step (lease_of (ds_model d) run_key) (lease_of (ds_model d') run_key)
      | Err _ => False
      end
  | Err _ => False
  end.
Proof.
  assert (match run_resume 4 with Ok _ => True | Err _ => False end) as Hok by (vm_compute; exact I).
  unfold run_resume in Hok.
  destruct (run_batch 4) as [[[r d] t]|] eqn:E; [|exact Hok].
  destruct (apply_batch (run_rest 4) d t) as [[[r' d'] t']|] eqn:E'; [|exact Hok].
  exact (group_histories_are_lease_histories run_op d t (run_rest 4) r' d' t'
    (run_prefix_reachable 4 r d t ltac:(lia) E) (run_rest_wf r d t E) E' run_key).
Defined.
