(* ===== verification/Controller.v ===== *)
(** * The membership controller

    Models [aster/src/coordination/runtime/membership.rs]: the classification of
    a failed membership change, the phase table [next_step], and what one pass
    of [run_generation] does about the step it computed. OpenRaft is outside the
    repository: its answers are values the pass is given, its error type is the
    inductive [WriteError] of the variants the source matches on, and what its
    membership calls promise is the class [RaftLaws]. *)

From S2P Require Import Prelude Reason Ids Contract Externals Limits State Tables Classify.
From S2P Require Import Ticket Authority Shape Genesis Membership Apply Changes Durable.
From S2P Require Import Scenario Invariant MembershipTable Validation Refinement Lifecycle.

#[local] Open Scope N_scope.

(** [enum ChangeOutcome], without the operator-facing details. *)
Inductive ChangeOutcome : Type :=
| CO_Retry
| CO_Reconcile
| CO_EndGeneration
| CO_Invariant.

(** The three levels of [RaftError<_, ClientWriteError<_, _>>]. *)
Inductive WriteError : Type :=
| WE_Fatal
| WE_ForwardToLeader
| WE_InProgress
| WE_EmptyMembership
| WE_LearnerNotFound.

(** [classify_change]. *)
Definition classify_change (err : WriteError) : ChangeOutcome :=
  match err with
  | WE_Fatal => CO_Invariant
  | WE_ForwardToLeader => CO_EndGeneration
  | WE_InProgress => CO_Retry
  | WE_EmptyMembership => CO_Invariant
  | WE_LearnerNotFound => CO_Reconcile
  end.

(** The fields of [RaftMetrics] the controller reads. *)
Record Metrics : Type := mk_Metrics {
  met_id : NodeId;
  met_leader : bool;
  met_replication : option (gmap NodeId (option LogId));
}.

(** [missing_learners]. *)
Definition missing_learners (desired_voters retained_learners : list NodeId)
    (current_members : gset NodeId) : gset NodeId :=
  list_to_set (filter (λ node, node ∉ current_members) (desired_voters ++ retained_learners)).

(** [replacement_node_map]: its keys, the values being the unit node. *)
Definition replacement_node_map (desired_voters retained_learners : list NodeId) : gset NodeId :=
  list_to_set (desired_voters ++ retained_learners).

(** [caught_up]. *)
Definition caught_up (metrics : Metrics) (node : NodeId) (barrier : N) : bool :=
  match met_replication metrics ≫= (λ r, mjoin (r !! node)) with
  | Some matched => barrier <=? li_index matched
  | None => false
  end.

(** [membership.learner_ids()]. *)
Definition rm_learner_ids (m : RaftMembership) : gset NodeId := cm_learners (project_membership m).

(** [completion_is_visible]. *)
Definition completion_is_visible (m : RaftMembership) (desired_voters retained_learners : list NodeId)
    : bool :=
  if negb (length (rm_configs m) =? 1)%nat then false
  else if negb (bool_decide (rm_voter_ids m = list_to_set desired_voters)) then false
  else bool_decide (rm_learner_ids m = list_to_set retained_learners).

(** [still_leading]: [current] is the generation the counter holds. *)
Definition still_leading (metrics : Metrics) (local : NodeId) (generation current : N) : bool :=
  (current =? generation) && met_leader metrics && bool_decide (met_id metrics = local).

(** [enum Step]. *)
Inductive Step : Type :=
| S_Idle
| S_AddLearners (missing : gset NodeId)
| S_EstablishCatchUpBarrier
| S_AwaitCatchUp (barrier : N) (outstanding : gset NodeId)
| S_ChangeVoters
| S_ReplaceNodes
| S_ReportComplete
| S_CancelCleanup (introduced : gset NodeId).

(** [next_step]. *)
Definition next_step (intent : Intent) (metrics : Metrics) (committed : RaftMembership)
    (catch_up_barrier : option N) : Step :=
  let desired := mp_desired_voters (in_plan intent) in
  let retained := mp_retained_learners (in_plan intent) in
  let current := rm_nodes committed in
  let phase := in_status_code intent in
  if (phase =? PHASE_PENDING)%Z then S_ChangeVoters
  else if (phase =? PHASE_ADDING_LEARNERS)%Z then
    let missing := missing_learners desired retained current in
    if negb (bool_decide (missing = ∅)) then S_AddLearners missing
    else match catch_up_barrier with
         | None => S_EstablishCatchUpBarrier
         | Some barrier =>
             let outstanding : gset NodeId :=
               list_to_set (filter (λ node, node <> met_id metrics /\ caught_up metrics node barrier = false)
                              desired) in
             if bool_decide (outstanding = ∅) then S_ChangeVoters
             else S_AwaitCatchUp barrier outstanding
         end
  else if (phase =? PHASE_CHANGING_VOTERS)%Z then
    if completion_is_visible committed desired retained then S_ReportComplete
    else if bool_decide (rm_voter_ids committed = list_to_set desired)
            && (length (rm_configs committed) =? 1)%nat
    then S_ReplaceNodes
    else S_ChangeVoters
  else if (phase =? PHASE_CANCEL_REQUESTED)%Z then
    S_CancelCleanup
      (list_to_set (filter (λ node, node ∈ current /\ node ∉ desired)
         (map ms_node_id (mp_member_seeds (in_plan intent)))))
  else S_Idle.

(** The side effects of a pass, in order. *)
Inductive Effect : Type :=
| E_AddLearner (node : NodeId)
| E_TakeBarrier
| E_ChangeVoters (voters : gset NodeId) (retain : bool)
| E_ReplaceAllNodes (nodes : gset NodeId) (retain : bool)
| E_RemoveNode (node : NodeId) (retain : bool)
| E_Report (command : MembershipProgressCommand).

(** [report_progress]'s command, as the state machine narrows it. *)
Definition report (operation_id : OperationId) (expected new : Z) (observed : option LogId) (code : Z)
    : Effect :=
  E_Report (mk_MembershipProgressCommand operation_id expected new observed code).

(** What [run_generation] does for a step of the intent [operation_id], when
    every call succeeds: a failed one ends the list where it failed. A
    [BTreeSet] is iterated in key order. *)
Definition step_effects (operation_id : OperationId) (intent : Intent) (committed : StoredMembership)
    (step : Step) : list Effect :=
  let desired := mp_desired_voters (in_plan intent) in
  let retained := mp_retained_learners (in_plan intent) in
  match step with
  | S_Idle | S_AwaitCatchUp _ _ => []
  | S_AddLearners missing => map E_AddLearner (in_order missing)
  | S_EstablishCatchUpBarrier => [E_TakeBarrier]
  | S_ChangeVoters =>
      if (in_status_code intent =? PHASE_PENDING)%Z then
        [report operation_id PHASE_PENDING PHASE_ADDING_LEARNERS None 0]
      else if (in_status_code intent =? PHASE_ADDING_LEARNERS)%Z then
        [report operation_id PHASE_ADDING_LEARNERS PHASE_CHANGING_VOTERS None 0]
      else [E_ChangeVoters (list_to_set desired) MEMBERSHIP_RETAIN]
  | S_ReplaceNodes => [E_ReplaceAllNodes (replacement_node_map desired retained) MEMBERSHIP_RETAIN]
  | S_ReportComplete =>
      [report operation_id PHASE_CHANGING_VOTERS PHASE_COMPLETED (sm_log_id committed)
         SYS_MEMBERSHIP_ADVANCED]
  | S_CancelCleanup introduced =>
      map (λ node, E_RemoveNode node MEMBERSHIP_RETAIN) (in_order introduced)
      ++ [report operation_id PHASE_CANCEL_REQUESTED PHASE_CANCELLED None 0]
  end.

(** Is leadership re-checked right before the effect: every one but the report
    that ends a cancellation. *)
Definition leadership_checked (e : Effect) : bool :=
  match e with
  | E_Report c => negb (mpc_expected_phase c =? PHASE_CANCEL_REQUESTED)%Z
  | _ => true
  end.

(** The effects of a pass given which calls succeed: the first failure ends the
    step with its outcome, a lost leadership the generation. [lead] and [call]
    answer for the i-th effect. *)
Fixpoint run_effects (lead : nat -> bool) (call : nat -> option WriteError) (i : nat)
    (effects : list Effect) : list Effect * option ChangeOutcome :=
  match effects with
  | [] => ([], None)
  | e :: rest =>
      if leadership_checked e && negb (lead i) then ([], Some CO_EndGeneration)
      else match call i with
           | Some err => ([], Some (classify_change err))
           | None => let '(done, out) := run_effects lead call (S i) rest in (e :: done, out)
           end
  end.

(** What [run_generation] does after the step: a generation that has committed
    its own removal returns; a missing learner drops the barrier; a fatal error
    is latched. *)
Inductive NextPass : Type :=
| NP_Return
| NP_Fatal
| NP_Continue (barrier : option N).

Definition after_pass (local : NodeId) (committed : RaftMembership) (outcome : option ChangeOutcome)
    (barrier : option N) : NextPass :=
  if negb (bool_decide (local ∈ rm_voter_ids committed)) then NP_Return
  else match outcome with
  | None | Some CO_Retry => NP_Continue barrier
  | Some CO_Reconcile => NP_Continue None
  | Some CO_EndGeneration => NP_Return
  | Some CO_Invariant => NP_Fatal
  end.

(** [active_intent]: the first intent in key order that is not finished. *)
Definition intent_le (a b : OperationId * Intent) : Prop := bytes_leb a.1 b.1 = true.
#[export] Instance intent_le_dec : RelDecision intent_le := λ a b, bool_eq_dec _ _.
Definition active_intent (st : State) : option (OperationId * Intent) :=
  List.find (λ kv, negb (is_terminal_phase (in_status_code kv.2)))
    (merge_sort intent_le (map_to_list (st_intents st))).

(** ** What OpenRaft promises

    The documented effect of a membership call that was committed and
    applied: [add_learner] adds the node to the node map, a voter change
    without [retain] makes the voters uniform and drops the departing voters
    from the node map, [ReplaceAllNodes] replaces it and [RemoveNodes] drops one
    of its nodes. *)
Class RaftClient : Type := {
  raft_add_learner : RaftMembership -> NodeId -> RaftMembership;
  raft_change_voters : RaftMembership -> gset NodeId -> RaftMembership;
  raft_replace_all_nodes : RaftMembership -> gset NodeId -> RaftMembership;
  raft_remove_node : RaftMembership -> NodeId -> RaftMembership;
}.

Class RaftLaws `{RaftClient} : Prop := {
  add_learner_configs m n : rm_configs (raft_add_learner m n) = rm_configs m;
  add_learner_nodes m n : rm_nodes (raft_add_learner m n) = {[n]} ∪ rm_nodes m;
  change_voters_configs m v : rm_configs (raft_change_voters m v) = [v];
  change_voters_nodes m v :
    rm_nodes (raft_change_voters m v) = rm_nodes m ∖ (rm_voter_ids m ∖ v);
  replace_configs m s : rm_configs (raft_replace_all_nodes m s) = rm_configs m;
  replace_nodes m s : rm_nodes (raft_replace_all_nodes m s) = s;
  remove_configs m n : rm_configs (raft_remove_node m n) = rm_configs m;
  remove_nodes m n : rm_nodes (raft_remove_node m n) = rm_nodes m ∖ {[n]};
}.

(** ** The membership controller and the state machine

    The controller of [runtime/membership.rs] composed with the model it drives:
    its reports are the ones [decide_progress] accepts, its passes finish the
    intent, and what its cancellation cleans up. *)

(** ** Its reports are accepted *)

(** The model's projection sees completion exactly when the controller does. *)
Lemma completion_views_agree st m intent c :
  st_membership st = project_membership (sm_membership m) ->
  st_membership_log_id st = mpc_observed_membership_log_id c ->
  completion_is_visible (sm_membership m) (mp_desired_voters (in_plan intent))
    (mp_retained_learners (in_plan intent)) = true ->
  completion_is_observable st intent c = true.
Proof.
  unfold completion_is_visible, completion_is_observable, rm_learner_ids. intros -> ->.
  rewrite (bool_decide_eq_true_2 (mpc_observed_membership_log_id c = _)) by done. simpl.
  destruct (Nat.eqb_spec (length (rm_configs (sm_membership m))) 1) as [->|]; [|done].
  simpl. destruct (bool_decide (rm_voter_ids _ = _)); done.
Qed.

Lemma report_accepted st id intent c :
  st_intents st !! id = Some intent -> mpc_operation_id c = id ->
  mpc_expected_phase c = in_status_code intent ->
  is_legal_transition (in_status_code intent) (mpc_new_phase c) = true ->
  (mpc_new_phase c = PHASE_COMPLETED -> completion_is_observable st intent c = true) ->
  exists e, decide_progress st c = Some e /\ ie_operation_id e = id /\
    in_plan (ie_intent e) = in_plan intent /\ in_status_code (ie_intent e) = mpc_new_phase c.
Proof.
  intros Hi Hid He Hl Hc. unfold decide_progress. rewrite Hid, Hi. simpl. rewrite He, Z.eqb_refl, Hl. simpl.
  destruct (Z.eqb_spec (mpc_new_phase c) PHASE_COMPLETED) as [Hn|_]; simpl; [|by eauto].
  rewrite (Hc Hn). simpl. eauto.
Qed.

(** The reports of a step are legal for the intent the step was computed from. *)
Lemma step_report_legal id intent metrics m barrier c :
  E_Report c ∈ step_effects id intent m (next_step intent metrics (sm_membership m) barrier) ->
  mpc_operation_id c = id /\ mpc_expected_phase c = in_status_code intent /\
  is_legal_transition (in_status_code intent) (mpc_new_phase c) = true /\
  (mpc_new_phase c = PHASE_COMPLETED ->
     mpc_observed_membership_log_id c = sm_log_id m /\
     completion_is_visible (sm_membership m) (mp_desired_voters (in_plan intent))
       (mp_retained_learners (in_plan intent)) = true).
Proof.
  intros H. unfold next_step in H.
  repeat match type of H with context [if (in_status_code intent =? ?p)%Z then _ else _] =>
    destruct (Z.eqb_spec (in_status_code intent) p) as [Hph|] end.
  - cbn [step_effects] in H. rewrite Hph in H. simpl in H. apply list_elem_of_singleton in H as [= ->].
    by rewrite Hph.
  - destruct (negb _); [by apply list_elem_of_In, in_map_iff in H as (? & ? & _)|].
    destruct barrier; [|by apply list_elem_of_singleton in H].
    destruct (bool_decide _); [|by apply elem_of_nil in H].
    cbn [step_effects] in H. rewrite Hph in H. simpl in H. apply list_elem_of_singleton in H as [= ->].
    by rewrite Hph.
  - destruct (completion_is_visible _ _ _) eqn:Hv.
    + apply list_elem_of_singleton in H as [= ->]. rewrite Hph. by simpl.
    + destruct (_ && _); [by apply list_elem_of_singleton in H|].
      cbn [step_effects] in H. rewrite Hph in H. by apply list_elem_of_singleton in H.
  - apply elem_of_app in H as [H|H]; [by apply list_elem_of_In, in_map_iff in H as (? & ? & _)|].
    apply list_elem_of_singleton in H as [= ->]. by rewrite Hph.
  - by apply elem_of_nil in H.
Qed.

(** The controller never reports in vain: at every reachable store, each
    progress report the pass makes about a stored intent, whatever the metrics
    and the barrier, is one the state machine accepts, moving that intent to the
    reported phase; a completion in particular is reported only under the
    committed membership the model requires. *)
Theorem controller_reports_accepted `{Ext : Externals} op_of_hash d t id intent metrics barrier c :
  reachable op_of_hash d t -> st_intents (ds_model d) !! id = Some intent ->
  E_Report c ∈ step_effects id intent (ds_membership d)
    (next_step intent metrics (sm_membership (ds_membership d)) barrier) ->
  exists e, decide_progress (ds_model d) c = Some e /\ ie_operation_id e = id /\
    in_plan (ie_intent e) = in_plan intent /\ in_status_code (ie_intent e) = mpc_new_phase c.
Proof.
  intros [[_ Hmeta] _]%reachable_inv Hi (Hid & He & Hl & Hc)%step_report_legal.
  apply (report_accepted _ _ intent); try done. intros Hn. destruct (Hc Hn) as [Hobs Hv].
  apply (completion_views_agree _ (ds_membership d)); [apply Hmeta| |done].
  rewrite Hobs. apply Hmeta.
Qed.

(** ** Cancellation *)

(** What a cancellation cleans up, for the plans the model accepts: exactly
    the seeded members the plan retains as learners. A node introduced to become
    a voter is never removed, and a retained learner that was a member before
    the intent is removed when its seed was refreshed. *)
Theorem cancel_removes_the_retained plan current authority profile `{Externals} intent metrics m barrier :
  plan_accepted plan current authority profile -> in_plan intent = plan ->
  in_status_code intent = PHASE_CANCEL_REQUESTED ->
  exists removed, next_step intent metrics m barrier = S_CancelCleanup removed /\
    forall node, node ∈ removed <->
      node ∈ rm_nodes m /\ node ∈ map ms_node_id (mp_member_seeds plan) /\ node ∈ mp_retained_learners plan.
Proof.
  intros Hp Hplan Hph. unfold next_step. rewrite Hph, Hplan. simpl. eexists. split; [reflexivity|].
  intros node. rewrite elem_of_list_to_set, list_elem_of_filter.
  split; [intros [[Hc Hd] Hs]|intros (Hc & Hs & Hr)].
  - split_and!; [done..|]. apply list_elem_of_In, in_map_iff in Hs as (seed & <- & Hin%list_elem_of_In).
    pose proof (sa_in_plan _ _ _ _ (pa_seeds _ _ _ _ Hp _ Hin)) as [?|?]%elem_of_app; [by destruct Hd|done].
  - split_and!; try done. intros Hd. exact (pa_disjoint _ _ _ _ Hp _ Hd Hr).
Qed.

(** A missing learner during the voter change is not reconciled: the phase table
    answers no other step than the voter change until the voters are the
    plan's. *)
Theorem voter_change_never_adds_learners intent metrics m barrier :
  in_status_code intent = PHASE_CHANGING_VOTERS ->
  rm_voter_ids m <> list_to_set (mp_desired_voters (in_plan intent)) ->
  next_step intent metrics m barrier = S_ChangeVoters.
Proof.
  intros Hs Hv. unfold next_step, completion_is_visible. rewrite Hs. simpl.
  rewrite bool_decide_eq_false_2 by done. simpl. by destruct (negb _).
Qed.

(** ** The passes finish the intent *)

Section convergence.
Context `{Ext : Externals} `{Raft : RaftClient} {Laws : RaftLaws}.

(** The store the controllers drive: the model and the committed membership, the
    barrier the current generation carries, and how many entries were committed. *)
Record Driven : Type := mk_Driven {
  dr_state : State;
  dr_membership : StoredMembership;
  dr_barrier : option (OperationId * N);
  dr_entries : nat;
}.

(** What a pass meets: its node, the metrics of its library, its generation and
    the current one, the index a barrier reads, and for the i-th effect whether
    the node still leads and how the call ends. *)
Record Round : Type := mk_Round {
  ro_local : NodeId;
  ro_metrics : Metrics;
  ro_generation : N;
  ro_current : N;
  ro_cut : N;
  ro_lead : nat -> bool;
  ro_call : nat -> option WriteError;
}.

(** The log id of the n-th entry. *)
Variable log_ids : nat -> LogId.

(** A membership entry committed and applied. *)
Definition commit_membership (m : RaftMembership) (w : Driven) : Driven :=
  let log_id := log_ids (dr_entries w) in
  let s := dr_state w in
  mk_Driven
    (mk_State (st_resources s) (st_acl s) (st_admins s) (st_sessions s) (st_intents s) (st_routes s)
       (st_audit_tip s) (st_audit s) (st_growth_bytes s) (st_reserve_bytes s) (st_admin_revision s)
       (st_authority s) (st_deployment_profile_code s) (project_membership m) (Some log_id)
       (st_audit_floor s) (st_last_applied s))
    (mk_StoredMembership (Some log_id) m) (dr_barrier w) (S (dr_entries w)).

(** One effect of a pass over the intent [operation_id], carried out: OpenRaft
    does not change to voters it does not know, and the state machine decides a
    report. *)
Definition perform (operation_id : OperationId) (cut : N) (w : Driven) (e : Effect) : Driven :=
  let m := sm_membership (dr_membership w) in
  match e with
  | E_AddLearner node => commit_membership (raft_add_learner m node) w
  | E_TakeBarrier => mk_Driven (dr_state w) (dr_membership w) (Some (operation_id, cut)) (dr_entries w)
  | E_ChangeVoters voters _ =>
      if bool_decide (voters ⊆ rm_nodes m) then commit_membership (raft_change_voters m voters) w else w
  | E_ReplaceAllNodes nodes _ => commit_membership (raft_replace_all_nodes m nodes) w
  | E_RemoveNode node _ => commit_membership (raft_remove_node m node) w
  | E_Report c =>
      match decide_progress (dr_state w) c with
      | Some e =>
          mk_Driven
            (tx_state (write_intent (log_ids (dr_entries w)) e (mk_Tx (dr_state w) ChangeSet_default)))
            (dr_membership w) (dr_barrier w) (S (dr_entries w))
      | None => w
      end
  end.

(** The barrier of an earlier intent is dropped. *)
Definition kept_barrier (operation_id : OperationId) (barrier : option (OperationId * N))
    : option (OperationId * N) :=
  if bool_decide (fst <$> barrier = Some operation_id) then barrier else None.

(** Whether the loop only sleeps and starts over. *)
Definition idles (step : Step) : bool :=
  match step with
  | S_Idle => true
  | _ => false
  end.

(** One pass of [run_generation]: a node that does not lead its generation
    returns; over the active intent, the effects of its step as far as leadership
    and calls allow. A generation that returned is succeeded by one that holds
    no barrier. *)
Definition pass (r : Round) (w : Driven) : Driven :=
  if negb (still_leading (ro_metrics r) (ro_local r) (ro_generation r) (ro_current r))
  then mk_Driven (dr_state w) (dr_membership w) None (dr_entries w)
  else match active_intent (dr_state w) with
  | None => w
  | Some (operation_id, intent) =>
      let barrier := kept_barrier operation_id (dr_barrier w) in
      let w := mk_Driven (dr_state w) (dr_membership w) barrier (dr_entries w) in
      let step := next_step intent (ro_metrics r) (sm_membership (dr_membership w)) (snd <$> barrier) in
      if idles step then w
      else
        let '(done, outcome) :=
          run_effects (ro_lead r) (ro_call r) 0 (step_effects operation_id intent (dr_membership w) step) in
        let w' := foldl (perform operation_id (ro_cut r)) w done in
        let kept :=
          match after_pass (ro_local r) (sm_membership (dr_membership w')) outcome
                  (snd <$> dr_barrier w') with
          | NP_Continue (Some b) => Some (operation_id, b)
          | _ => None
          end in
        mk_Driven (dr_state w') (dr_membership w') kept (dr_entries w')
  end.

Variable id : OperationId.
Variable plan : MembershipPlan.
Hypothesis disjoint_plan : mp_desired_voters plan ## mp_retained_learners plan.
Hypothesis some_voter : mp_desired_voters plan <> [].

(** The intent is stored under the plan and no other is active, the model mirrors
    the membership, the group has a voter, and the voters of a change under way
    are known nodes. *)
Record driving (w : Driven) (phase : Z) : Prop := {
  dv_intent : exists intent, st_intents (dr_state w) !! id = Some intent /\ in_plan intent = plan /\
    in_status_code intent = phase;
  dv_only id' i : st_intents (dr_state w) !! id' = Some i -> id' <> id ->
    is_terminal_phase (in_status_code i) = true;
  dv_projection : st_membership (dr_state w) = project_membership (sm_membership (dr_membership w));
  dv_log_id : st_membership_log_id (dr_state w) = sm_log_id (dr_membership w);
  dv_voters : rm_voter_ids (sm_membership (dr_membership w)) <> ∅;
  dv_known : phase = PHASE_CHANGING_VOTERS ->
    list_to_set (mp_desired_voters plan) ⊆ rm_nodes (sm_membership (dr_membership w));
}.

Definition driven_phase (phase : Z) : Prop :=
  phase ∈ [PHASE_PENDING; PHASE_ADDING_LEARNERS; PHASE_CHANGING_VOTERS; PHASE_COMPLETED].

Definition uniform (m : RaftMembership) : Prop :=
  length (rm_configs m) = 1%nat /\ rm_voter_ids m = list_to_set (mp_desired_voters plan).
#[local] Instance uniform_dec m : Decision (uniform m) := and_dec _ _.

(** Everybody of the plan is a node. *)
Definition present (m : RaftMembership) : Prop :=
  missing_learners (mp_desired_voters plan) (mp_retained_learners plan) (rm_nodes m) = ∅.

Definition visible (m : RaftMembership) : Prop :=
  completion_is_visible m (mp_desired_voters plan) (mp_retained_learners plan) = true.

(** The intent is driven, and once it is completed the membership is the plan's. *)
Definition driven (w : Driven) : Prop :=
  exists phase, driven_phase phase /\ driving w phase /\
    (phase = PHASE_COMPLETED -> visible (sm_membership (dr_membership w))).

(** A round in which nothing is in the way: a leader that is a voter and stays
    leader, whose calls succeed. *)
Definition clean (r : Round) (w : Driven) : Prop :=
  still_leading (ro_metrics r) (ro_local r) (ro_generation r) (ro_current r) = true /\
  (forall i, ro_lead r i = true) /\ (forall i, ro_call r i = None) /\
  ro_local r ∈ rm_voter_ids (sm_membership (dr_membership w)).

(** The other desired voters have reached the barrier, if there is one. *)
Definition reached (r : Round) (w : Driven) : Prop :=
  forall b node, dr_barrier w = Some (id, b) -> node ∈ mp_desired_voters plan ->
    node <> met_id (ro_metrics r) -> caught_up (ro_metrics r) node b = true.

(** What happens to the group, labelled by its meaning for the intent. [Useful]: a
    clean pass whose nodes have caught up. [Neutral]: a clean pass that waits for
    a node, or entries that touch neither intents nor membership. [Disturbed]: a
    pass that lost its leadership or a call on the way; or anything else the
    group goes through (another generation, a half-made change of a failed call,
    a membership entry of somebody else) that leaves the intent driven. *)
Inductive RoundKind : Type :=
| Useful
| Neutral
| Disturbed.

Inductive group_step : Driven -> RoundKind -> Driven -> Prop :=
| GS_useful r w : clean r w -> reached r w -> group_step w Useful (pass r w)
| GS_waiting r w b outstanding intent :
    clean r w -> active_intent (dr_state w) = Some (id, intent) -> dr_barrier w = Some (id, b) ->
    next_step intent (ro_metrics r) (sm_membership (dr_membership w)) (Some b) = S_AwaitCatchUp b outstanding ->
    group_step w Neutral (pass r w)
| GS_entries w s :
    st_intents s = st_intents (dr_state w) -> st_membership s = st_membership (dr_state w) ->
    st_membership_log_id s = st_membership_log_id (dr_state w) ->
    group_step w Neutral (mk_Driven s (dr_membership w) (dr_barrier w) (dr_entries w))
| GS_failing r w : group_step w Disturbed (pass r w)
| GS_other w w' : driven w' -> group_step w Disturbed w'.

Inductive group_run : Driven -> list RoundKind -> Driven -> Prop :=
| GR_refl w : group_run w [] w
| GR_step w1 ks w2 k w3 : group_run w1 ks w2 -> group_step w2 k w3 -> group_run w1 (ks ++ [k]) w3.

(** How many useful passes are left at most. *)
Inductive passes_left (w : Driven) : nat -> Prop :=
| L_pending : driving w PHASE_PENDING -> passes_left w 7
| L_learners : driving w PHASE_ADDING_LEARNERS -> passes_left w 6
| L_present :
    driving w PHASE_ADDING_LEARNERS -> present (sm_membership (dr_membership w)) -> passes_left w 5
| L_barrier b :
    driving w PHASE_ADDING_LEARNERS -> dr_barrier w = Some (id, b) ->
    present (sm_membership (dr_membership w)) -> passes_left w 4
| L_voters : driving w PHASE_CHANGING_VOTERS -> passes_left w 3
| L_uniform : driving w PHASE_CHANGING_VOTERS -> uniform (sm_membership (dr_membership w)) -> passes_left w 2
| L_visible : driving w PHASE_CHANGING_VOTERS -> visible (sm_membership (dr_membership w)) -> passes_left w 1
| L_done : driving w PHASE_COMPLETED -> visible (sm_membership (dr_membership w)) -> passes_left w 0.

(** The active intent is the one that is driven. *)
Lemma active_unique st intent :
  st_intents st !! id = Some intent -> is_terminal_phase (in_status_code intent) = false ->
  (forall id' i, st_intents st !! id' = Some i -> id' <> id -> is_terminal_phase (in_status_code i) = true) ->
  active_intent st = Some (id, intent).
Proof.
  intros Hi Ht Honly. unfold active_intent.
  set (l := merge_sort intent_le (map_to_list (st_intents st))).
  assert (forall kv, kv ∈ l <-> st_intents st !! kv.1 = Some kv.2) as Hin.
  { intros [k v]. unfold l. rewrite (merge_sort_Permutation intent_le). by rewrite elem_of_map_to_list. }
  destruct (List.find _ l) as [[k v]|] eqn:Hf.
  - apply List.find_some in Hf as [Hk Hv]. apply list_elem_of_In, Hin in Hk. simpl in *.
    destruct (decide (k = id)) as [->|Hne]; [by rewrite Hi in Hk; injection Hk as ->|].
    by rewrite (Honly k v Hk Hne) in Hv.
  - pose proof (List.find_none _ _ Hf (id, intent)) as Hn. simpl in Hn. rewrite Ht in Hn.
    discriminate Hn. apply list_elem_of_In. by apply Hin.
Qed.

Lemma driving_active w phase :
  driving w phase -> phase <> PHASE_COMPLETED -> driven_phase phase ->
  exists intent, active_intent (dr_state w) = Some (id, intent) /\ in_plan intent = plan /\
    in_status_code intent = phase.
Proof.
  intros [(intent & Hi & Hp & Hs) Honly _ _ _ _] Hne Hph. exists intent. split; [|done].
  apply active_unique; [done| |done]. rewrite Hs. unfold driven_phase in Hph.
  rewrite !elem_of_cons, elem_of_nil in Hph. by destruct Hph as [->|[->|[->|[->|[]]]]].
Qed.

Lemma driving_idle w : driving w PHASE_COMPLETED -> active_intent (dr_state w) = None.
Proof.
  intros [(intent & Hi & Hp & Hs) Honly _ _ _ _]. unfold active_intent.
  destruct (List.find _ _) as [[k v]|] eqn:Hf; [|done].
  apply List.find_some in Hf as [Hk Hv]. apply list_elem_of_In in Hk.
  rewrite (merge_sort_Permutation intent_le), elem_of_map_to_list in Hk. simpl in *.
  destruct (decide (k = id)) as [->|Hne]; [|by rewrite (Honly k v Hk Hne) in Hv].
  rewrite Hi in Hk. injection Hk as ->. by rewrite Hs in Hv.
Qed.

(** The barrier plays no part in it. *)
Lemma driving_barrier w phase b :
  driving w phase -> driving (mk_Driven (dr_state w) (dr_membership w) b (dr_entries w)) phase.
Proof. by intros []. Qed.

(** Membership entries touch neither the intents nor the barrier. *)
Lemma commit_driving m w phase :
  driving w phase -> rm_voter_ids m <> ∅ ->
  (phase = PHASE_CHANGING_VOTERS -> list_to_set (mp_desired_voters plan) ⊆ rm_nodes m) ->
  driving (commit_membership m w) phase.
Proof. intros [Hi Ho _ _ _ _] Hv Hk. by split. Qed.

Lemma add_learners_driving cut l w phase :
  driving w phase ->
  driving (foldl (perform id cut) w (map E_AddLearner l)) phase /\
  rm_nodes (sm_membership (dr_membership (foldl (perform id cut) w (map E_AddLearner l))))
    = list_to_set l ∪ rm_nodes (sm_membership (dr_membership w)) /\
  rm_configs (sm_membership (dr_membership (foldl (perform id cut) w (map E_AddLearner l))))
    = rm_configs (sm_membership (dr_membership w)).
Proof.
  revert w. induction l as [|n l IH]; intros w Hd; cbn [map foldl]; [split_and!; [done|set_solver|done]|].
  destruct (IH (perform id cut w (E_AddLearner n))) as (Hd' & Hn & Hc).
  - apply commit_driving; [done|unfold rm_voter_ids; rewrite add_learner_configs; apply Hd|].
    intros Hp. rewrite add_learner_nodes. pose proof (dv_known _ _ Hd Hp). set_solver.
  - split_and!; [done| |]; [rewrite Hn|rewrite Hc]; simpl; [|by rewrite add_learner_configs].
    rewrite add_learner_nodes. set_solver.
Qed.

(** An accepted report moves the intent and nothing else the passes read. *)
Lemma report_driving cut w phase new observed code :
  driving w phase -> is_legal_transition phase new = true ->
  (new = PHASE_COMPLETED -> observed = sm_log_id (dr_membership w) /\
     visible (sm_membership (dr_membership w))) ->
  (new = PHASE_CHANGING_VOTERS ->
     list_to_set (mp_desired_voters plan) ⊆ rm_nodes (sm_membership (dr_membership w))) ->
  let w' := perform id cut w (report id phase new observed code) in
  driving w' new /\ dr_membership w' = dr_membership w /\ dr_barrier w' = dr_barrier w.
Proof.
  intros [(intent & Hi & Hp & Hs) Ho Hpr Hl Hv _] Hleg Hc Hk. simpl.
  destruct (report_accepted (dr_state w) id intent
    (mk_MembershipProgressCommand id phase new observed code)) as (e & -> & He & Hpl & Hst); try done.
  { by rewrite Hs. }
  { simpl. intros Hn. destruct (Hc Hn) as [-> Hvis].
    apply (completion_views_agree _ (dr_membership w)); [done|done|by rewrite Hp]. }
  set (tx := mk_Tx (dr_state w) ChangeSet_default).
  destruct (write_intent_frame (log_ids (dr_entries w)) e tx).
  split; [|done]. split; cbn [dr_state dr_membership dr_barrier];
    [| |by rewrite mo_membership|by rewrite mo_membership_log_id|done..].
  - exists (stamp_intent (log_ids (dr_entries w)) (ie_intent e)).
    rewrite (proj1 (write_intent_tables _ _ _)). unfold intents_after. rewrite He, lookup_insert_eq.
    cbn [mpc_new_phase] in Hst. split_and!; [done|by rewrite <- Hp|done].
  - intros id' i. rewrite (proj1 (write_intent_tables _ _ _)). unfold intents_after. rewrite He.
    intros [[<- _]|[_ H]]%lookup_insert_Some Hne; [done|]. apply (Ho id'); [|done].
    rewrite foldl_delete_lookup in H. by case_match.
Qed.

Lemma missing_none desired retained nodes :
  missing_learners desired retained nodes = ∅ <-> list_to_set (desired ++ retained) ⊆ nodes.
Proof.
  unfold missing_learners. split.
  - intros He n Hn%elem_of_list_to_set. destruct (decide (n ∈ nodes)) as [|Hx]; [done|].
    assert (n ∈ (∅ : gset NodeId)) as Habs; [|set_solver].
    rewrite <- He. apply elem_of_list_to_set, list_elem_of_filter. done.
  - intros Hs. apply set_eq. intros n. rewrite elem_of_list_to_set, list_elem_of_filter.
    split; [|set_solver]. intros [Hx Hn]. destruct Hx. apply Hs. by apply elem_of_list_to_set.
Qed.

Lemma present_known m : present m -> list_to_set (mp_desired_voters plan) ⊆ rm_nodes m.
Proof. unfold present. rewrite missing_none. set_solver. Qed.

Lemma desired_voters_nonempty : list_to_set (C := gset NodeId) (mp_desired_voters plan) <> ∅.
Proof. destruct (mp_desired_voters plan); [done|]. simpl. set_solver. Qed.

(** The two views of the membership after the last two changes. *)
Lemma changed_voters_uniform m :
  uniform (raft_change_voters m (list_to_set (mp_desired_voters plan))).
Proof.
  unfold uniform, rm_voter_ids. rewrite change_voters_configs. split; [done|]. simpl. set_solver.
Qed.

Lemma replaced_nodes_visible m :
  uniform m ->
  visible (raft_replace_all_nodes m (replacement_node_map (mp_desired_voters plan) (mp_retained_learners plan))).
Proof.
  intros [Hlen Hv]. unfold visible, completion_is_visible, rm_learner_ids, rm_voter_ids. simpl.
  rewrite replace_configs, replace_nodes, Hlen. simpl. fold (rm_voter_ids m). rewrite Hv.
  rewrite bool_decide_eq_true_2 by done. simpl. apply bool_decide_eq_true_2.
  apply set_eq. intros n. rewrite elem_of_filter, elem_of_list_to_set. unfold replacement_node_map.
  rewrite elem_of_list_to_set, elem_of_app, negb_true_iff.
  assert (existsb (λ set, bool_decide (n ∈ set)) (rm_configs m) = bool_decide (n ∈ mp_desired_voters plan))
    as ->.
  { destruct (rm_configs m) as [|c [|? ?]] eqn:Hm; try done. unfold rm_voter_ids in Hv. rewrite Hm in Hv.
    simpl in Hv |- *. rewrite union_empty_r_L in Hv. rewrite Hv, orb_false_r.
    apply bool_decide_ext. apply elem_of_list_to_set. }
  rewrite bool_decide_eq_false. split; [tauto|]. intros Hr. split; [|by right].
  intros Hd. exact (disjoint_plan n Hd Hr).
Qed.

(** The step for the intent that is driven, case by case. *)
Inductive step_case (r : Round) (w : Driven) : Z -> list Effect -> Prop :=
| SC_pending : step_case r w PHASE_PENDING [report id PHASE_PENDING PHASE_ADDING_LEARNERS None 0]
| SC_missing :
    ~ present (sm_membership (dr_membership w)) ->
    step_case r w PHASE_ADDING_LEARNERS
      (map E_AddLearner (in_order (missing_learners (mp_desired_voters plan) (mp_retained_learners plan)
                                     (rm_nodes (sm_membership (dr_membership w))))))
| SC_barrier :
    present (sm_membership (dr_membership w)) -> (forall b, dr_barrier w <> Some (id, b)) ->
    step_case r w PHASE_ADDING_LEARNERS [E_TakeBarrier]
| SC_wait b :
    present (sm_membership (dr_membership w)) -> dr_barrier w = Some (id, b) -> ~ reached r w ->
    step_case r w PHASE_ADDING_LEARNERS []
| SC_promote b :
    present (sm_membership (dr_membership w)) -> dr_barrier w = Some (id, b) ->
    step_case r w PHASE_ADDING_LEARNERS [report id PHASE_ADDING_LEARNERS PHASE_CHANGING_VOTERS None 0]
| SC_complete :
    visible (sm_membership (dr_membership w)) ->
    step_case r w PHASE_CHANGING_VOTERS
      [report id PHASE_CHANGING_VOTERS PHASE_COMPLETED (sm_log_id (dr_membership w)) SYS_MEMBERSHIP_ADVANCED]
| SC_replace :
    uniform (sm_membership (dr_membership w)) -> ~ visible (sm_membership (dr_membership w)) ->
    step_case r w PHASE_CHANGING_VOTERS
      [E_ReplaceAllNodes (replacement_node_map (mp_desired_voters plan) (mp_retained_learners plan))
         MEMBERSHIP_RETAIN]
| SC_change :
    ~ uniform (sm_membership (dr_membership w)) -> ~ visible (sm_membership (dr_membership w)) ->
    step_case r w PHASE_CHANGING_VOTERS
      [E_ChangeVoters (list_to_set (mp_desired_voters plan)) MEMBERSHIP_RETAIN].

Lemma kept_barrier_Some b barrier : kept_barrier id barrier = Some (id, b) <-> barrier = Some (id, b).
Proof.
  unfold kept_barrier. split; [by case_bool_decide|]. intros ->. by rewrite bool_decide_eq_true_2.
Qed.

Lemma kept_barrier_cases barrier :
  (kept_barrier id barrier = None /\ forall b, barrier <> Some (id, b)) \/
  exists b, kept_barrier id barrier = Some (id, b) /\ barrier = Some (id, b).
Proof.
  destruct (kept_barrier id barrier) as [[i b]|] eqn:Hk.
  - right. exists b. unfold kept_barrier in Hk. case_bool_decide as He; [|done]. subst barrier.
    simpl in He. by injection He as ->.
  - left. split; [done|]. intros b Hb. apply kept_barrier_Some in Hb. congruence.
Qed.

(** The effects of the step for the intent that is driven. *)
Definition effects_of (r : Round) (w : Driven) (intent : Intent) : list Effect :=
  step_effects id intent (dr_membership w)
    (next_step intent (ro_metrics r) (sm_membership (dr_membership w)) (snd <$> kept_barrier id (dr_barrier w))).

Lemma learners_case r w intent :
  in_plan intent = plan -> in_status_code intent = PHASE_ADDING_LEARNERS ->
  step_case r w PHASE_ADDING_LEARNERS (effects_of r w intent).
Proof.
  intros Hp Hs. unfold effects_of, next_step. rewrite Hs, Hp. simpl.
  set (missing := missing_learners _ _ _). destruct (decide (missing = ∅)) as [Hm|Hm].
  2:{ rewrite (bool_decide_eq_false_2 (missing = ∅)) by done. by apply SC_missing. }
  rewrite (bool_decide_eq_true_2 (missing = ∅)) by done. simpl.
  destruct (kept_barrier_cases (dr_barrier w)) as [[-> Hb]|(b & -> & Hb)]; simpl; [by apply SC_barrier|].
  set (outstanding := filter _ _). destruct outstanding as [|n l] eqn:Ho.
  - rewrite bool_decide_eq_true_2 by done. cbn [step_effects]. rewrite Hs. by apply (SC_promote r w b).
  - rewrite bool_decide_eq_false_2 by (simpl; set_solver). apply (SC_wait r w b); [done|done|].
    intros Hr. assert (n ∈ outstanding) as Hn by (rewrite Ho; left). unfold outstanding in Hn.
    apply list_elem_of_filter in Hn as [[Hne Hc] Hd]. by rewrite (Hr b n Hb Hd Hne) in Hc.
Qed.

Lemma voters_case r w intent :
  in_plan intent = plan -> in_status_code intent = PHASE_CHANGING_VOTERS ->
  step_case r w PHASE_CHANGING_VOTERS (effects_of r w intent).
Proof.
  intros Hp Hs. unfold effects_of, next_step. rewrite Hs, Hp. simpl.
  set (m := sm_membership (dr_membership w)).
  destruct (completion_is_visible m (mp_desired_voters plan) (mp_retained_learners plan)) eqn:Hvis.
  { by apply SC_complete. }
  assert (~ visible m) as Hnv by (unfold visible; by rewrite Hvis).
  destruct (decide (uniform m)) as [[Hlen Hv]|Hu].
  - rewrite Hlen, bool_decide_eq_true_2 by done. simpl. rewrite Hp. by apply SC_replace.
  - destruct (_ && _) eqn:Hb; [|simpl; rewrite Hs, Hp; by apply SC_change].
    destruct Hu. apply andb_true_iff in Hb as [Hb1 Hb2]. split; [by apply Nat.eqb_eq|].
    by apply bool_decide_eq_true in Hb1.
Qed.

Lemma step_cases r w intent phase :
  in_plan intent = plan -> in_status_code intent = phase -> driven_phase phase -> phase <> PHASE_COMPLETED ->
  step_case r w phase (effects_of r w intent).
Proof.
  intros Hp Hs Hph Hne. unfold driven_phase in Hph. rewrite !elem_of_cons, elem_of_nil in Hph.
  destruct Hph as [->|[->|[->|[->|[]]]]]; [|by apply learners_case|by apply voters_case|done].
  unfold effects_of, next_step. rewrite Hs. simpl. rewrite Hs. apply SC_pending.
Qed.

(** The step of an intent that is driven is never idle. *)
Lemma step_busy r w intent phase :
  in_status_code intent = phase -> driven_phase phase -> phase <> PHASE_COMPLETED ->
  idles (next_step intent (ro_metrics r) (sm_membership (dr_membership w)) (snd <$> kept_barrier id (dr_barrier w)))
    = false.
Proof.
  intros Hs Hph Hne. unfold driven_phase in Hph. rewrite !elem_of_cons, elem_of_nil in Hph.
  unfold next_step. rewrite Hs. destruct Hph as [->|[->|[->|[->|[]]]]]; simpl; try done; repeat case_match; done.
Qed.

(** ** A pass that is cut short *)

Lemma run_effects_prefix lead call i effects :
  fst (run_effects lead call i effects) `prefix_of` effects.
Proof.
  revert i. induction effects as [|e rest IH]; intros i; simpl; [done|].
  destruct (_ && _); [apply prefix_nil|]. destruct (call i); [apply prefix_nil|].
  specialize (IH (S i)). destruct (run_effects lead call (S i) rest) as [done out]. simpl in *.
  by apply prefix_cons.
Qed.

Lemma prefix_map {A B} (g : A -> B) (l : list A) k : k `prefix_of` map g l -> exists n, k = map g (take n l).
Proof.
  intros [rest Heq]. exists (length k). change (map g) with (fmap (M := list) g) in *.
  by rewrite fmap_take, Heq, take_app_length.
Qed.

Lemma driven_intro : driven_phase PHASE_PENDING /\ driven_phase PHASE_ADDING_LEARNERS /\
  driven_phase PHASE_CHANGING_VOTERS /\ driven_phase PHASE_COMPLETED.
Proof. unfold driven_phase. split_and!; repeat (left || right). Qed.

(** The one effect of a step that is not about learners. *)
Lemma single_driving cut w phase e :
  driving w phase ->
  match e with
  | E_TakeBarrier => True
  | E_ReplaceAllNodes nodes _ => nodes = replacement_node_map (mp_desired_voters plan) (mp_retained_learners plan)
  | E_ChangeVoters voters _ => voters = list_to_set (mp_desired_voters plan)
  | _ => False
  end -> driving (perform id cut w e) phase.
Proof.
  intros Hd. destruct e as [|? |voters ?|nodes ?| |]; try done; simpl; intros H.
  - by apply driving_barrier.
  - destruct (bool_decide _) eqn:Hb; [|done]. apply bool_decide_eq_true in Hb. subst voters.
    apply commit_driving; [done| |].
    + rewrite (proj2 (changed_voters_uniform _)). by apply desired_voters_nonempty.
    + intros _. rewrite change_voters_nodes. set_solver.
  - subst nodes. apply commit_driving; [done| |].
    + unfold rm_voter_ids. rewrite replace_configs. apply Hd.
    + intros _. rewrite replace_nodes. unfold replacement_node_map. set_solver.
Qed.

Lemma prefix_single {A} (x : A) l : l `prefix_of` [x] -> l = [] \/ l = [x].
Proof.
  intros [k Hk]. destruct l as [|y l]; [by left|]. simpl in Hk. injection Hk as -> Hl.
  symmetry in Hl. apply app_eq_nil in Hl as [-> _]. by right.
Qed.

(** However far a step gets, the intent is still driven. *)
Lemma case_driving r cut w phase effects done :
  step_case r w phase effects -> driving w phase -> done `prefix_of` effects ->
  driven (foldl (perform id cut) w done).
Proof.
  destruct driven_intro as (D1 & D2 & D3 & D4). intros Hc Hd Hpre.
  assert (Hopen : forall w' p, driven_phase p -> driving w' p -> p <> PHASE_COMPLETED -> driven w')
    by (intros w' p ? ? ?; by exists p).
  destruct Hc as [|_|Hm _|b _ _ _|b Hm _|Hv|Hu Hv|Hu Hv];
    try (apply prefix_single in Hpre as [->| ->]; [by eapply (Hopen w); [|exact Hd|]|]); cbn [foldl].
  - apply (Hopen _ PHASE_ADDING_LEARNERS); [done| |done]. by apply report_driving.
  - apply prefix_map in Hpre as [n ->]. apply (Hopen _ PHASE_ADDING_LEARNERS); [done| |done].
    by apply add_learners_driving.
  - apply (Hopen _ PHASE_ADDING_LEARNERS); [done| |done]. by apply single_driving.
  - apply prefix_nil_inv in Hpre as ->. by apply (Hopen _ PHASE_ADDING_LEARNERS).
  - apply (Hopen _ PHASE_CHANGING_VOTERS); [done| |done]. apply report_driving; try done. intros _. by apply present_known.
  - destruct (report_driving cut w PHASE_CHANGING_VOTERS PHASE_COMPLETED (sm_log_id (dr_membership w))
      SYS_MEMBERSHIP_ADVANCED Hd) as (Hd' & Hm & _); [done..|].
    exists PHASE_COMPLETED. split_and!; [done|done|]. intros _. by rewrite Hm.
  - apply (Hopen _ PHASE_CHANGING_VOTERS); [done| |done]. by apply single_driving.
  - apply (Hopen _ PHASE_CHANGING_VOTERS); [done| |done]. by apply single_driving.
Qed.

Lemma step_case_kept r w phase effects :
  step_case r w phase effects ->
  step_case r (mk_Driven (dr_state w) (dr_membership w) (kept_barrier id (dr_barrier w)) (dr_entries w)) phase effects.
Proof.
  set (w0 := mk_Driven _ _ _ _). destruct 1 as [|Hm|Hm Hb|b Hm Hb Hr|b Hm Hb|Hv|Hu Hv|Hu Hv].
  - apply SC_pending.
  - by apply (SC_missing r w0).
  - apply (SC_barrier r w0); [done|]. intros b Hk. by apply (Hb b), (kept_barrier_Some b (dr_barrier w)).
  - apply (SC_wait r w0 b); [done|by apply (kept_barrier_Some b (dr_barrier w))|]. intros Hk. apply Hr.
    intros b' node Hb' Hn Hne. apply (Hk b' node); [|done|done]. by apply (kept_barrier_Some b' (dr_barrier w)).
  - apply (SC_promote r w0 b); [done|by apply (kept_barrier_Some b (dr_barrier w))].
  - by apply (SC_complete r w0).
  - by apply (SC_replace r w0).
  - by apply (SC_change r w0).
Qed.

Lemma pass_driven r w : driven w -> driven (pass r w).
Proof.
  intros (phase & Hph & Hd & Hvis). unfold pass. destruct (negb _).
  { exists phase. split_and!; [done|by apply driving_barrier|done]. }
  destruct (decide (phase = PHASE_COMPLETED)) as [->|Hne].
  { rewrite driving_idle by done. by exists PHASE_COMPLETED. }
  destruct (driving_active w phase Hd Hne Hph) as (intent & -> & Hp & Hs). cbn zeta.
  cbn [dr_membership]. rewrite (step_busy r w intent phase) by done. fold (effects_of r w intent).
  set (w0 := mk_Driven _ _ _ _). pose proof (run_effects_prefix (ro_lead r) (ro_call r) 0 (effects_of r w intent)) as Hpre.
  destruct (run_effects _ _ _ _) as [done outcome]. simpl in Hpre.
  destruct (case_driving r (ro_cut r) w0 phase (effects_of r w intent) done) as (phase' & Hph' & Hd' & Hv');
    [by apply step_case_kept, step_cases|by apply driving_barrier|done|].
  exists phase'. split_and!; [done| |done]. by apply (driving_barrier (foldl _ w0 done)).
Qed.

(** ** A clean pass *)

Lemma run_effects_clean lead call i effects :
  (forall i, lead i = true) -> (forall i, call i = None) -> run_effects lead call i effects = (effects, None).
Proof.
  intros Hl Hc. revert i. induction effects as [|e rest IH]; intros i; simpl; [done|].
  rewrite Hl, Hc, IH, andb_false_r. done.
Qed.

(** A clean pass, from the effects of its step. *)
Lemma pass_clean r w phase intent :
  clean r w -> active_intent (dr_state w) = Some (id, intent) ->
  in_status_code intent ∈ [PHASE_PENDING; PHASE_ADDING_LEARNERS; PHASE_CHANGING_VOTERS] ->
  let w' := foldl (perform id (ro_cut r))
    (mk_Driven (dr_state w) (dr_membership w) (kept_barrier id (dr_barrier w)) (dr_entries w))
    (effects_of r w intent) in
  driving w' phase ->
  driving (pass r w) phase /\ dr_membership (pass r w) = dr_membership w' /\
  forall b, rm_configs (sm_membership (dr_membership w')) = rm_configs (sm_membership (dr_membership w)) ->
    dr_barrier w' = Some (id, b) -> dr_barrier (pass r w) = Some (id, b).
Proof.
  intros (Hlead & Hl & Hc & Hv) Ha Hs w' Hd. unfold pass. rewrite Hlead, Ha. cbn zeta. cbn [dr_membership negb].
  rewrite (step_busy r w intent (in_status_code intent)); [|done|unfold driven_phase; set_solver|].
  2:{ rewrite !elem_of_cons, elem_of_nil in Hs. by destruct Hs as [->|[->|[->|[]]]]. }
  fold (effects_of r w intent). rewrite run_effects_clean by done. fold w'.
  split_and!; [by apply (driving_barrier w')|done|]. intros b Hconf Hb. cbn [dr_barrier].
  rewrite Hb. unfold after_pass. simpl. rewrite bool_decide_eq_true_2; [done|].
  unfold rm_voter_ids in *. by rewrite Hconf.
Qed.

(** A clean pass over a completed intent does nothing. *)
Lemma pass_done r w : clean r w -> driving w PHASE_COMPLETED -> pass r w = w.
Proof. intros [Hlead _] Hd. unfold pass. by rewrite Hlead, driving_idle. Qed.

Section clean_pass.
Context (r : Round) (w : Driven) (intent : Intent).
Context (Hclean : clean r w) (Hactive : active_intent (dr_state w) = Some (id, intent)).
Context (Hplan : in_plan intent = plan).
Context (Hopen : in_status_code intent ∈ [PHASE_PENDING; PHASE_ADDING_LEARNERS; PHASE_CHANGING_VOTERS]).

#[local] Abbreviation w0 :=
  (mk_Driven (dr_state w) (dr_membership w) (kept_barrier id (dr_barrier w)) (dr_entries w)).

(** A report that is accepted. *)
Lemma report_pass phase new observed code :
  driving w phase -> effects_of r w intent = [report id phase new observed code] ->
  is_legal_transition phase new = true ->
  (new = PHASE_COMPLETED -> observed = sm_log_id (dr_membership w) /\ visible (sm_membership (dr_membership w))) ->
  (new = PHASE_CHANGING_VOTERS ->
     list_to_set (mp_desired_voters plan) ⊆ rm_nodes (sm_membership (dr_membership w))) ->
  driving (pass r w) new /\ dr_membership (pass r w) = dr_membership w.
Proof.
  intros Hd He Hl Hc Hk. pose proof (pass_clean r w new intent Hclean Hactive Hopen) as Hpass. cbn zeta in Hpass.
  rewrite He in Hpass. cbn [foldl] in Hpass.
  destruct (report_driving (ro_cut r) w0 phase new observed code) as (Hd' & Hm & _); try done.
  { by apply driving_barrier. }
  destruct (Hpass Hd') as (H1 & H2 & _). split; [done|]. by rewrite H2, Hm.
Qed.

(** A membership change or a barrier. *)
Lemma effect_pass phase e :
  driving w phase -> effects_of r w intent = [e] ->
  match e with
  | E_TakeBarrier => True
  | E_ReplaceAllNodes nodes _ => nodes = replacement_node_map (mp_desired_voters plan) (mp_retained_learners plan)
  | E_ChangeVoters voters _ => voters = list_to_set (mp_desired_voters plan)
  | _ => False
  end ->
  driving (pass r w) phase /\ dr_membership (pass r w) = dr_membership (perform id (ro_cut r) w0 e) /\
  (e = E_TakeBarrier -> dr_barrier (pass r w) = Some (id, ro_cut r)).
Proof.
  intros Hd He Hok. pose proof (pass_clean r w phase intent Hclean Hactive Hopen) as Hpass. cbn zeta in Hpass.
  rewrite He in Hpass. cbn [foldl] in Hpass.
  destruct Hpass as (H1 & H2 & H3); [apply single_driving; [by apply driving_barrier|done]|].
  split_and!; [done|done|]. intros ->. by apply H3.
Qed.

Lemma learners_pass :
  driving w PHASE_ADDING_LEARNERS -> in_status_code intent = PHASE_ADDING_LEARNERS -> reached r w ->
  exists k, passes_left (pass r w) k /\
    ((k <= 5)%nat /\ (present (sm_membership (dr_membership w)) -> (k <= 4)%nat) /\
     (present (sm_membership (dr_membership w)) -> forall b, dr_barrier w = Some (id, b) -> (k <= 3)%nat)).
Proof.
  intros Hd Hs Hr.
  pose proof (learners_case r w intent Hplan Hs) as Hcase.
  inversion Hcase as [E He|Hm E He|Hm Hb E He|b Hm Hb Hn E He|b Hm Hb E He|Hv E He|Hu Hv E He|Hu Hv E He];
    try discriminate E; clear E; symmetry in He.
  - set (missing := missing_learners _ _ _) in He.
    destruct (add_learners_driving (ro_cut r) (in_order missing) w0 _ (driving_barrier _ _ _ Hd)) as (Hd' & Hn & Hconf).
    pose proof (pass_clean r w PHASE_ADDING_LEARNERS intent Hclean Hactive Hopen) as Hpass. cbn zeta in Hpass.
    rewrite He in Hpass. destruct (Hpass Hd') as (H1 & H2 & H3).
    assert (present (sm_membership (dr_membership (pass r w)))) as Hpres.
    { unfold present. rewrite H2, missing_none, Hn, in_order_set. cbn [dr_membership].
      intros n Hx. destruct (decide (n ∈ rm_nodes (sm_membership (dr_membership w)))); [set_solver|].
      apply elem_of_union_l, elem_of_list_to_set, list_elem_of_filter. split; [done|].
      by apply elem_of_list_to_set in Hx. }
    exists 5%nat. split_and!; [by apply L_present|lia|done|done].
  - destruct (effect_pass _ _ Hd He I) as (H1 & H2 & H3). exists 4%nat.
    split_and!; [|lia|lia|intros _ b Hb'; by destruct (Hb b)].
    apply (L_barrier _ (ro_cut r)); [done|by apply H3|by rewrite H2].
  - by destruct Hn.
  - destruct (report_pass _ _ _ _ Hd He) as [H1 H2]; [done..|intros _; by apply present_known|].
    exists 3%nat. split_and!; [by apply L_voters|lia..].
Qed.

Lemma voters_pass :
  driving w PHASE_CHANGING_VOTERS -> in_status_code intent = PHASE_CHANGING_VOTERS ->
  exists k, passes_left (pass r w) k /\ (k <= 2)%nat /\
    (uniform (sm_membership (dr_membership w)) -> (k <= 1)%nat) /\
    (visible (sm_membership (dr_membership w)) -> (k <= 0)%nat).
Proof.
  intros Hd Hs.
  pose proof (voters_case r w intent Hplan Hs) as Hcase.
  inversion Hcase as [E He|Hm E He|Hm Hb E He|b Hm Hb Hn E He|b Hm Hb E He|Hv E He|Hu Hv E He|Hu Hv E He];
    try discriminate E; clear E; symmetry in He.
  - destruct (report_pass _ _ _ _ Hd He) as [H1 H2]; [done..|].
    exists 0%nat. split_and!; [|lia..]. apply L_done; [done|]. by rewrite H2.
  - destruct (effect_pass _ _ Hd He eq_refl) as (H1 & H2 & _). exists 1%nat.
    split_and!; [|lia|lia|done]. apply L_visible; [done|]. rewrite H2. by apply replaced_nodes_visible.
  - destruct (effect_pass _ _ Hd He eq_refl) as (H1 & H2 & _). exists 2%nat.
    split_and!; [|lia|done|done]. apply L_uniform; [done|]. rewrite H2. simpl.
    rewrite bool_decide_eq_true_2 by exact (dv_known _ _ Hd eq_refl). apply changed_voters_uniform.
Qed.
End clean_pass.

(** Every useful pass makes progress. *)
Lemma useful_progress r w n :
  clean r w -> reached r w -> passes_left w n -> exists k, (k <= pred n)%nat /\ passes_left (pass r w) k.
Proof.
  intros Hc Hr Hl. destruct driven_intro as (D1 & D2 & D3 & _).
  assert (Hact : forall phase, driving w phase -> driven_phase phase -> phase <> PHASE_COMPLETED ->
    exists intent, active_intent (dr_state w) = Some (id, intent) /\ in_plan intent = plan /\
      in_status_code intent = phase /\
      in_status_code intent ∈ [PHASE_PENDING; PHASE_ADDING_LEARNERS; PHASE_CHANGING_VOTERS]).
  { intros phase Hd Hph Hne. destruct (driving_active w phase Hd Hne Hph) as (i & ? & ? & ?). exists i.
    split_and!; [done..|]. unfold driven_phase in Hph. rewrite !elem_of_cons, elem_of_nil in *.
    destruct Hph as [->|[->|[->|[->|[]]]]]; auto. }
  inversion Hl as [Hd|Hd|Hd Hm|b Hd Hb Hm|Hd|Hd Hu|Hd Hv|Hd Hv]; subst n;
    try (destruct (Hact _ Hd ltac:(assumption) ltac:(discriminate)) as (intent & Ha & Hp & Hs & Ho)).
  - destruct (report_pass r w intent Hc Ha Ho PHASE_PENDING PHASE_ADDING_LEARNERS None 0 Hd) as [H1 _];
      [|done..|exists 6%nat; split; [lia|by apply L_learners]].
    unfold effects_of, next_step. rewrite Hs. simpl. by rewrite Hs.
  - destruct (learners_pass r w intent Hc Ha Hp Ho Hd Hs Hr) as (k & ? & ? & _). eauto.
  - destruct (learners_pass r w intent Hc Ha Hp Ho Hd Hs Hr) as (k & ? & _ & ? & _). eauto.
  - destruct (learners_pass r w intent Hc Ha Hp Ho Hd Hs Hr) as (k & ? & _ & _ & ?). eauto.
  - destruct (voters_pass r w intent Hc Ha Hp Ho Hd Hs) as (k & ? & ? & _). eauto.
  - destruct (voters_pass r w intent Hc Ha Hp Ho Hd Hs) as (k & ? & _ & ? & _). eauto.
  - destruct (voters_pass r w intent Hc Ha Hp Ho Hd Hs) as (k & ? & _ & _ & ?). eauto.
  - exists 0%nat. split; [done|]. rewrite pass_done by done. by apply L_done.
Qed.

(** ** Runs *)

Lemma left_driven w n : passes_left w n -> driven w.
Proof.
  destruct driven_intro as (D1 & D2 & D3 & D4).
  destruct 1 as [Hd|Hd|Hd _|b Hd _ _|Hd|Hd _|Hd _|Hd Hv]; eexists; (split_and!; [|exact Hd|]); done.
Qed.

Lemma driven_left w : driven w -> exists n, (n <= 7)%nat /\ passes_left w n.
Proof.
  intros (phase & Hph & Hd & Hv). unfold driven_phase in Hph. rewrite !elem_of_cons, elem_of_nil in Hph.
  destruct Hph as [->|[->|[->|[->|[]]]]].
  - exists 7%nat. split; [lia|by apply L_pending].
  - exists 6%nat. split; [lia|by apply L_learners].
  - exists 3%nat. split; [lia|by apply L_voters].
  - exists 0%nat. split; [lia|]. apply L_done; [done|by apply Hv].
Qed.

(** Entries that touch neither intents nor membership change nothing here. *)
Lemma entries_left w s n :
  st_intents s = st_intents (dr_state w) -> st_membership s = st_membership (dr_state w) ->
  st_membership_log_id s = st_membership_log_id (dr_state w) ->
  passes_left w n -> passes_left (mk_Driven s (dr_membership w) (dr_barrier w) (dr_entries w)) n.
Proof.
  intros Hi Hm Hl Hleft.
  assert (Hsame : forall phase, driving w phase ->
    driving (mk_Driven s (dr_membership w) (dr_barrier w) (dr_entries w)) phase).
  { intros phase []. split; simpl; by rewrite ?Hi, ?Hm, ?Hl. }
  destruct Hleft; econstructor; eauto.
Qed.

(** A pass that waits changes nothing at all. *)
Lemma waiting_pass r w b outstanding intent :
  clean r w -> active_intent (dr_state w) = Some (id, intent) -> dr_barrier w = Some (id, b) ->
  next_step intent (ro_metrics r) (sm_membership (dr_membership w)) (Some b) = S_AwaitCatchUp b outstanding ->
  pass r w = w.
Proof.
  intros (Hlead & _ & _ & Hv) Ha Hb Hn. unfold pass. rewrite Hlead, Ha. cbn zeta. cbn [dr_membership negb].
  rewrite (proj2 (kept_barrier_Some b (dr_barrier w)) Hb). simpl. rewrite Hn. simpl.
  unfold after_pass. rewrite bool_decide_eq_true_2 by done. simpl. destruct w. simpl in *. by rewrite Hb.
Qed.

Lemma neutral_left w w' n : passes_left w n -> group_step w Neutral w' -> passes_left w' n.
Proof.
  intros Hl Hs. inversion Hs; subst; [by erewrite waiting_pass|by apply entries_left].
Qed.

Lemma group_step_driven w k w' : driven w -> group_step w k w' -> driven w'.
Proof.
  intros Hd Hs. destruct Hs as [r w _ _|r w b o i Hc Ha Hb Hn|w s Hi Hm Hl|r w|w w' Hd'];
    [by apply pass_driven|by apply pass_driven| |by apply pass_driven|done].
  destruct (driven_left w Hd) as (n & _ & Hleft). apply (left_driven _ n). by apply entries_left.
Qed.

Lemma group_run_driven w ks w' : driven w -> group_run w ks w' -> driven w'.
Proof. induction 2; eauto using group_step_driven. Qed.

Definition useful (ks : list RoundKind) : nat :=
  length (List.filter (λ k, match k with Useful => true | _ => false end) ks).

(** A run whose last part is undisturbed. *)
Lemma group_run_left w pre suf w' :
  driven w -> group_run w (pre ++ suf) w' -> Disturbed ∉ suf ->
  exists k, (k <= 7 - useful suf)%nat /\ passes_left w' k.
Proof.
  intros Hd Hrun. revert w' Hrun. induction suf as [|k suf IH] using rev_ind; intros w' Hrun Hn.
  - rewrite app_nil_r in Hrun. apply driven_left. by eapply group_run_driven.
  - rewrite app_assoc in Hrun. inversion Hrun as [|w1 ks w2 k2 w3 Hrun' Hstep E1 E2]; [by destruct pre, suf|].
    apply app_inj_tail in E2 as [-> ->].
    destruct (IH w2 Hrun' ltac:(set_solver)) as (j & Hj & Hl). unfold useful in *.
    rewrite List.filter_app, length_app. destruct k; simpl; [| |set_solver].
    + inversion Hstep; subst. destruct (useful_progress r w2 j) as (i & Hi & Hleft); [done..|].
      exists i. split; [lia|done].
    + exists j. split; [lia|]. by eapply neutral_left.
Qed.
End convergence.

Lemma accepted_plan_has_voter `{Externals} plan current authority profile :
  plan_accepted plan current authority profile -> mp_desired_voters plan <> [].
Proof.
  intros Hp Hn. pose proof (pa_voters _ _ _ _ Hp) as Hv. rewrite Hn in Hv.
  unfold profile_permits_voters in Hv. by repeat case_match.
Qed.

(** At most one entry of a map satisfies a predicate counted at most once. *)
Lemma mcount_unique {K V} `{Countable K} (p : K -> V -> bool) (m : gmap K V) k v k' v' :
  mcount p m <= 1 -> m !! k = Some v -> p k v = true -> m !! k' = Some v' -> p k' v' = true -> k' = k.
Proof.
  rewrite mcount_filter. set (l := filter _ _). intros Hl Hk Hp Hk' Hp'.
  assert ((k, v) ∈ l /\ (k', v') ∈ l) as [H1 H2].
  { unfold l. rewrite !list_elem_of_filter, !elem_of_map_to_list. done. }
  unfold len in Hl. destruct l as [|x [|y l]]; simpl in Hl; [by apply elem_of_nil in H1| |lia].
  apply list_elem_of_singleton in H1, H2. congruence.
Qed.

(** An unfinished intent of a reachable store is driven. *)
Lemma controller_driven `{Ext : Externals} op_of_hash d t id intent :
  reachable op_of_hash d t -> st_intents (ds_model d) !! id = Some intent ->
  in_status_code intent ∈ [PHASE_PENDING; PHASE_ADDING_LEARNERS; PHASE_CHANGING_VOTERS] ->
  rm_voter_ids (sm_membership (ds_membership d)) <> ∅ ->
  (in_status_code intent = PHASE_CHANGING_VOTERS ->
     list_to_set (mp_desired_voters (in_plan intent)) ⊆ rm_nodes (sm_membership (ds_membership d))) ->
  driven id (in_plan intent) (mk_Driven (ds_model d) (ds_membership d) None 0).
Proof.
  intros [[Hinv Hmeta] _]%reachable_inv Hi Hph Hv Hk.
  assert (driven_phase (in_status_code intent) /\ in_status_code intent <> PHASE_COMPLETED /\
          is_terminal_phase (in_status_code intent) = false) as (Hdp & Hne & Hterm).
  { unfold driven_phase. rewrite !elem_of_cons, elem_of_nil in *. destruct Hph as [->|[->|[->|[]]]]; split_and!; auto. }
  exists (in_status_code intent). split_and!; [done| |done].
  split; try done; [by exists intent| |apply Hmeta|apply Hmeta]. intros id' i Hi' Hne'.
  destruct (is_terminal_phase (in_status_code i)) eqn:Ht; [done|]. destruct Hne'.
  apply (mcount_unique (λ _ i, negb (is_terminal_phase (in_status_code i))) (st_intents (ds_model d)) id intent id' i);
    [apply (inv_intents _ _ _ Hinv)|done|by rewrite Hterm|done|by rewrite Ht].
Qed.


(** ** Concrete instances *)

#[local] Instance controller_run : Externals := founding_externals.

(** A client whose calls do exactly what is documented. *)
#[local] Instance sample_raft : RaftClient := {
  raft_add_learner m n := mk_RaftMembership (rm_configs m) ({[n]} ∪ rm_nodes m);
  raft_change_voters m v := mk_RaftMembership [v] (rm_nodes m ∖ (rm_voter_ids m ∖ v));
  raft_replace_all_nodes m s := mk_RaftMembership (rm_configs m) s;
  raft_remove_node m n := mk_RaftMembership (rm_configs m) (rm_nodes m ∖ {[n]});
}.
#[local] Instance sample_raft_laws : RaftLaws.
Proof. by split. Qed.

Definition sample_leader (m : RaftMembership) : Metrics :=
  mk_Metrics (from_option (λ n, n) sample_voter (head (elements (rm_voter_ids m)))) true
    (Some (set_to_map (λ n, (n, Some (at_index 100))) (rm_nodes m))).

Lemma sample_leader_votes m : rm_voter_ids m <> ∅ -> met_id (sample_leader m) ∈ rm_voter_ids m.
Proof.
  intros Hv. unfold sample_leader. simpl. destruct (elements (rm_voter_ids m)) as [|n l] eqn:E.
  - by apply elements_empty_inv, leibniz_equiv in E.
  - simpl. apply elem_of_elements. rewrite E. constructor.
Qed.

(** The round of a leader that is a voter, whose calls succeed and whose nodes are
    all at the barrier; and one whose first call meets a change in progress. *)
Definition sample_round (plan : MembershipPlan) (w : Driven) : Round :=
  mk_Round (met_id (sample_leader (sm_membership (dr_membership w))))
    (mk_Metrics (met_id (sample_leader (sm_membership (dr_membership w)))) true
       (Some (set_to_map (λ n, (n, Some (at_index (from_option snd 0 (dr_barrier w)))))
                (list_to_set (mp_desired_voters plan) : gset NodeId))))
    1 1 50 (λ _, true) (λ _, None).
Definition failing_round (plan : MembershipPlan) (w : Driven) : Round :=
  mk_Round (ro_local (sample_round plan w)) (ro_metrics (sample_round plan w)) 1 1 50 (λ _, true)
    (λ _, Some WE_InProgress).

Lemma sample_round_useful log_ids id plan w :
  driven id plan w -> group_step log_ids id plan w Useful (pass log_ids (sample_round plan w) w).
Proof.
  intros (phase & _ & Hd & _). apply GS_useful.
  - split_and!; [|done|done|apply sample_leader_votes, Hd].
    unfold still_leading. simpl. by rewrite bool_decide_eq_true_2.
  - intros b node Hb Hn _. unfold caught_up. simpl. rewrite Hb.
    rewrite (proj2 (lookup_set_to_map (λ n, (n, Some (at_index b)))
      (list_to_set (mp_desired_voters plan) : gset NodeId) node (Some (at_index b)) (λ y y' _ _ E, E))).
    + simpl. apply N.leb_refl.
    + exists node. split; [by apply elem_of_list_to_set|done].
Qed.

(** [k] such rounds in a row. *)
Fixpoint sample_rounds (log_ids : nat -> LogId) (plan : MembershipPlan) (k : nat) (w : Driven) : Driven :=
  match k with
  | O => w
  | S k => let w' := sample_rounds log_ids plan k w in pass log_ids (sample_round plan w') w'
  end.

Lemma sample_rounds_run log_ids id plan w0 ks w k :
  mp_desired_voters plan ## mp_retained_learners plan -> mp_desired_voters plan <> [] ->
  driven id plan w -> group_run log_ids id plan w0 ks w ->
  driven id plan (sample_rounds log_ids plan k w) /\
  group_run log_ids id plan w0 (ks ++ replicate k Useful) (sample_rounds log_ids plan k w).
Proof.
  intros Hdisj Hsome Hd Hrun. induction k as [|k [IHd IHr]]; [by rewrite app_nil_r|]. cbn [sample_rounds].
  split; [by apply pass_driven|]. rewrite replicate_S_end, app_assoc.
  eapply GR_step; [exact IHr|]. by apply sample_round_useful.
Qed.

Lemma controller_reports_accepted_witness :
  match lifecycle_batch with
  | Ok (_, d, t) => exists e,
      decide_progress (ds_model d)
        (mk_MembershipProgressCommand run_operation PHASE_PENDING PHASE_ADDING_LEARNERS None 0) = Some e /\
      in_status_code (ie_intent e) = PHASE_ADDING_LEARNERS
  | Err _ => False
  end.
Proof.
  pose proof lifecycle_ready as H. destruct lifecycle_batch as [[[r d] t]|]; [|exact H].
  destruct H as (Hreach & _ & Hi & _).
  destruct (st_intents (ds_model d) !! run_operation) as [i|] eqn:E; [|discriminate Hi].
  injection Hi as Hs.
  destruct (controller_reports_accepted lifecycle_op d t run_operation i
    (sample_leader (sm_membership (ds_membership d))) None
    (mk_MembershipProgressCommand run_operation PHASE_PENDING PHASE_ADDING_LEARNERS None 0)
    Hreach E) as (e & He & _ & _ & Hst); [|exists e; split; [exact He|exact Hst]].
  unfold next_step. rewrite Hs. simpl. rewrite Hs. simpl. constructor.
Defined.

(** A plan that demotes a voter to a retained learner, refreshing its ticket. *)
Definition demotion : MembershipPlan :=
  mk_MembershipPlan [sample_admin] [sample_voter] [mk_MemberSeed sample_voter sample_seed_ticket None].

Lemma cancel_removes_the_retained_witness :
  exists removed,
    next_step
      (mk_Intent sample_admin (run_hash Byte.x15) None demotion PHASE_CANCEL_REQUESTED 0 (at_index 4) None None)
      (sample_leader run_membership)
      (mk_RaftMembership [{[sample_admin]}] {[sample_admin; sample_voter]}) None = S_CancelCleanup removed /\
    sample_voter ∈ removed.
Proof.
  destruct (cancel_removes_the_retained demotion
    (mk_CommittedMembership {[sample_admin]} {[sample_voter]} false)
    founding_authority PROFILE_DEV_SINGLE
    (mk_Intent sample_admin (run_hash Byte.x15) None demotion PHASE_CANCEL_REQUESTED 0 (at_index 4) None None)
    (sample_leader run_membership)
    (mk_RaftMembership [{[sample_admin]}] {[sample_admin; sample_voter]}) None) as (removed & He & Hin).
  - apply plan_shape_None. vm_compute. reflexivity.
  - reflexivity.
  - reflexivity.
  - exists removed. split; [exact He|]. apply Hin. split_and!.
    + simpl. set_solver.
    + left.
    + left.
Defined.

(** The stored plan passes the shape rules, and the group has a voter. *)
Lemma lifecycle_plan :
  match lifecycle_batch with
  | Ok (_, d, _) =>
      rm_voter_ids (sm_membership (ds_membership d)) <> ∅ /\
      forall i, st_intents (ds_model d) !! run_operation = Some i ->
        plan_shape (in_plan i) (st_membership (ds_model d)) founding_authority PROFILE_DEV_SINGLE = None
  | Err _ => False
  end.
Proof.
  assert (match lifecycle_batch with
          | Ok (_, d, _) =>
              (bool_decide (sample_voter ∈ rm_voter_ids (sm_membership (ds_membership d))),
               (λ i, plan_shape (in_plan i) (st_membership (ds_model d)) founding_authority PROFILE_DEV_SINGLE)
                 <$> st_intents (ds_model d) !! run_operation)
          | Err _ => (false, None)
          end = (true, Some None)) as H by (vm_compute; reflexivity).
  destruct lifecycle_batch as [[[r d] t]|]; [|discriminate H].
  injection H as Hv Hp. split.
  - apply bool_decide_eq_true in Hv. intros He. rewrite He in Hv. by apply elem_of_empty in Hv.
  - intros i Hi. rewrite Hi in Hp. by injection Hp.
Qed.

