(* ===== verification/Expiry.v ===== *)
(** * The leader's expiry loop

    Models [aster/src/coordination/runtime/expiry.rs] and
    [storage/serve.rs::held_rows]: the timers a leader generation keeps, armed
    with a row's full time to live when its identity is first seen, and the
    [Expire] commands it proposes; then how they meet the holder's own limit
    ([core/src/lease.rs]). Instants are nanosecond counts; what the generation
    counter reads and what OpenRaft answers are given to each sweep. *)

From S2P Require Import Prelude Ids Contract Externals Limits State Tables Resource Retire CoreLease.
From S2P Require Import Ticket Authority Shape Genesis Apply Durable Scenario LeaseRefinement.

#[local] Open Scope N_scope.

(** [held_rows]. *)
Record HeldRow : Type := mk_HeldRow {
  hr_key : ResourceKey;
  hr_epoch : N;
  hr_lease_revision : N;
  hr_ttl_ms : N;
}.

(** The derived order of [ResourceKey]. *)
Definition key_leb (a b : ResourceKey) : bool :=
  if bool_decide (rk_namespace a = rk_namespace b) then bytes_leb (rk_key a) (rk_key b)
  else bytes_leb (rk_namespace a) (rk_namespace b).
Definition key_le (a b : ResourceKey) : Prop := key_leb a b = true.
#[export] Instance key_le_dec : RelDecision key_le := λ a b, bool_eq_dec _ _.

Definition row_le (a b : ResourceKey * ResourceRow) : Prop := key_le a.1 b.1.
#[export] Instance row_le_dec : RelDecision row_le := λ a b, key_le_dec _ _.

Definition held_rows (st : State) : list HeldRow :=
  omap (λ kr, if rr_held kr.2
              then Some (mk_HeldRow kr.1 (rr_epoch kr.2) (rr_lease_revision kr.2) (rr_ttl_ms kr.2))
              else None)
    (merge_sort row_le (map_to_list (st_resources st))).

(** [BTreeMap<ResourceKey, (u64, u64, Instant)>]. *)
Abbreviation Timers := (gmap ResourceKey (N * N * N)).

(** The body of the arming loop. *)
Definition arm (now : N) (deadlines : Timers) (row : HeldRow) : Timers :=
  let fresh := (hr_epoch row, hr_lease_revision row, now + from_millis (hr_ttl_ms row)) in
  match deadlines !! hr_key row with
  | Some (armed_epoch, armed_revision, _) =>
      if (armed_epoch =? hr_epoch row) && (armed_revision =? hr_lease_revision row) then deadlines
      else <[hr_key row := fresh]> deadlines
  | None => <[hr_key row := fresh]> deadlines
  end.

(** [deadlines.retain(..)] and the arming loop. *)
Definition rearm (now : N) (held : list HeldRow) (deadlines : Timers) : Timers :=
  foldl (arm now) (filter (λ kd, kd.1 ∈ map hr_key held) deadlines) held.

(** What a proposal is answered. *)
Inductive WriteAnswer : Type :=
| WA_Applied
| WA_Forward
| WA_Failed.

Definition timer_le (a b : ResourceKey * (N * N * N)) : Prop := key_le a.1 b.1.
#[export] Instance timer_le_dec : RelDecision timer_le := λ a b, key_le_dec _ _.

(** The proposing loop over [deadlines.clone()]: the commands proposed and the
    timers left, [None] when the generation returns. *)
Fixpoint propose (now : N) (leading : ResourceKey -> bool) (answer : ResourceKey -> WriteAnswer)
    (snapshot : list (ResourceKey * (N * N * N))) (deadlines : Timers)
    : list ExpireCommand * option Timers :=
  match snapshot with
  | [] => ([], Some deadlines)
  | (key, (epoch, lease_revision, deadline)) :: rest =>
      if now <? deadline then propose now leading answer rest deadlines
      else if negb (leading key) then ([], None)
      else
        let command := mk_ExpireCommand key epoch lease_revision in
        match answer key with
        | WA_Applied =>
            let '(cs, t) := propose now leading answer rest (delete key deadlines) in (command :: cs, t)
        | WA_Forward => ([command], None)
        | WA_Failed => let '(cs, t) := propose now leading answer rest deadlines in (command :: cs, t)
        end
  end.

(** One turn of the loop: what it reads, and what it does. *)
Record Sweep : Type := mk_Sweep {
  sw_now : N;
  sw_state : State;
  sw_current : bool;
  sw_leading : ResourceKey -> bool;
  sw_answer : ResourceKey -> WriteAnswer;
}.

Definition sweep (w : Sweep) (deadlines : Timers) : list ExpireCommand * option Timers :=
  if negb (sw_current w) then ([], None)
  else
    let deadlines := rearm (sw_now w) (held_rows (sw_state w)) deadlines in
    propose (sw_now w) (sw_leading w) (sw_answer w) (merge_sort timer_le (map_to_list deadlines)) deadlines.

(** [run_generation]: the timers after some sweeps, from none, while it runs. *)
Definition timers_after (sweeps : list Sweep) : option Timers :=
  foldl (λ t w, t ≫= λ deadlines, snd (sweep w deadlines)) (Some ∅) sweeps.

(** What the next sweep proposes. *)
Definition proposed_at (sweeps : list Sweep) (w : Sweep) : list ExpireCommand :=
  match timers_after sweeps with
  | Some deadlines => fst (sweep w deadlines)
  | None => []
  end.

(** A sweep saw the row of [key] held under an identity with a time to live. *)
Definition saw (w : Sweep) (key : ResourceKey) (epoch revision ttl : N) : Prop :=
  exists row, st_resources (sw_state w) !! key = Some row /\ rr_held row = true /\
    rr_epoch row = epoch /\ rr_lease_revision row = revision /\ rr_ttl_ms row = ttl.

(** ** Lemmas *)

Lemma held_rows_spec st hr :
  hr ∈ held_rows st <->
  exists row, st_resources st !! hr_key hr = Some row /\ rr_held row = true /\
    hr = mk_HeldRow (hr_key hr) (rr_epoch row) (rr_lease_revision row) (rr_ttl_ms row).
Proof.
  unfold held_rows. rewrite list_elem_of_omap. split.
  - intros ([k row] & Hin & H). rewrite (merge_sort_Permutation row_le) in Hin.
    apply elem_of_map_to_list in Hin. simpl in H. destruct (rr_held row) eqn:Hh; [|done].
    injection H as <-. simpl. eauto.
  - intros (row & Hr & Hh & ->). exists (hr_key hr, row). simpl. rewrite Hh.
    split; [|done]. rewrite (merge_sort_Permutation row_le). by apply elem_of_map_to_list.
Qed.

(** The key names the row. *)
Lemma held_rows_key st a b : a ∈ held_rows st -> b ∈ held_rows st -> hr_key a = hr_key b -> a = b.
Proof.
  intros (ra & Ha & _ & ->)%held_rows_spec (rb & Hb & _ & ->)%held_rows_spec Hk. simpl in *.
  rewrite Hk in *. by simplify_eq.
Qed.

(** What the timer of a held row is after arming. *)
Definition armed (now : N) (timer : option (N * N * N)) (row : HeldRow) : N * N * N :=
  let fresh := (hr_epoch row, hr_lease_revision row, now + from_millis (hr_ttl_ms row)) in
  match timer with
  | Some (e, r, d) => if (e =? hr_epoch row) && (r =? hr_lease_revision row) then (e, r, d) else fresh
  | None => fresh
  end.

Lemma arm_lookup now t row k :
  arm now t row !! k
    = if decide (k = hr_key row) then Some (armed now (t !! hr_key row) row) else t !! k.
Proof.
  unfold arm, armed. destruct (t !! hr_key row) as [[[e r] d]|] eqn:Ht.
  - destruct ((e =? _) && _); case_decide; subst; by rewrite ?lookup_insert_eq, ?lookup_insert_ne by done.
  - case_decide; subst; by rewrite ?lookup_insert_eq, ?lookup_insert_ne by done.
Qed.

Lemma armed_idem now t row : armed now (Some (armed now t row)) row = armed now t row.
Proof.
  unfold armed at 2. destruct t as [[[e r] d]|]; simpl; [|by rewrite !N.eqb_refl].
  destruct ((e =? _) && _) eqn:E; simpl; [by rewrite E|by rewrite !N.eqb_refl].
Qed.

Lemma arms_lookup now held t :
  (forall a b, a ∈ held -> b ∈ held -> hr_key a = hr_key b -> a = b) ->
  (forall hr, hr ∈ held -> foldl (arm now) t held !! hr_key hr = Some (armed now (t !! hr_key hr) hr)) /\
  (forall k, k ∉ map hr_key held -> foldl (arm now) t held !! k = t !! k).
Proof.
  revert t. induction held as [|h held IH]; intros t Hu; [split; [set_solver|done]|].
  destruct (IH (arm now t h)) as [IH1 IH2]; [intros a b Ha Hb; apply Hu; by right|]. simpl. split.
  - intros hr Hin. destruct (decide (hr_key hr ∈ map hr_key held)) as [Hk|Hk].
    + apply list_elem_of_In, in_map_iff in Hk as (x & Hx & Hxin%list_elem_of_In).
      assert (x = hr) as -> by (apply Hu; [by right|done|done]).
      rewrite IH1, arm_lookup by done. case_decide as Hkey; [|done].
      assert (h = hr) as -> by (apply Hu; [by left|done|done]). by rewrite armed_idem.
    + apply elem_of_cons in Hin as [->|Hin]; [|by destruct Hk; apply list_elem_of_fmap_2].
      rewrite IH2, arm_lookup by done. by rewrite decide_True.
  - intros k [Hk Hn]%not_elem_of_cons. rewrite IH2, arm_lookup by done. by rewrite decide_False.
Qed.

(** The timers after arming: one per held row. *)
Lemma rearm_lookup now st t k :
  rearm now (held_rows st) t !! k
    = match st_resources st !! k with
      | Some row =>
          if rr_held row
          then Some (armed now (t !! k) (mk_HeldRow k (rr_epoch row) (rr_lease_revision row) (rr_ttl_ms row)))
          else None
      | None => None
      end.
Proof.
  unfold rearm. set (t0 := filter _ t).
  destruct (arms_lookup now (held_rows st) t0 (held_rows_key st)) as [Hin Hout].
  assert (forall hr, hr ∈ held_rows st -> t0 !! hr_key hr = t !! hr_key hr) as Hkept.
  { intros hr Hhr. unfold t0. rewrite map_lookup_filter. destruct (t !! hr_key hr) as [d|]; simpl; [|done].
    rewrite option_guard_True; [done|]. simpl. by apply list_elem_of_fmap_2. }
  assert (forall row, st_resources st !! k = Some row -> rr_held row = true ->
    mk_HeldRow k (rr_epoch row) (rr_lease_revision row) (rr_ttl_ms row) ∈ held_rows st) as Hmk.
  { intros row Hr Hh. apply held_rows_spec. exists row. by split_and!. }
  assert (foldl (arm now) t0 (held_rows st) !! k = None \/
    exists row, st_resources st !! k = Some row /\ rr_held row = true) as Hcase.
  { destruct (decide (k ∈ map hr_key (held_rows st))) as [Hk|Hk].
    - apply list_elem_of_In, in_map_iff in Hk as (x & <- & Hx%list_elem_of_In).
      apply held_rows_spec in Hx as (row & ? & ? & _). eauto.
    - left. rewrite Hout by done. unfold t0. rewrite map_lookup_filter.
      destruct (t !! k); simpl; [|done]. by rewrite option_guard_False. }
  destruct (st_resources st !! k) as [row|] eqn:Hr; [destruct (rr_held row) eqn:Hh|].
  - specialize (Hin _ (Hmk row eq_refl Hh)). simpl in Hin. rewrite Hin.
    pose proof (Hkept _ (Hmk row eq_refl Hh)) as Hkk. simpl in Hkk. by rewrite Hkk.
  - destruct Hcase as [?|(? & [= <-] & ?)]; [done|congruence].
  - by destruct Hcase as [?|(? & ? & ?)].
Qed.

(** What is proposed was due, and nothing is armed by proposing. *)
Definition due_in (now : N) (l : list (ResourceKey * (N * N * N))) (c : ExpireCommand) : Prop :=
  exists d, (ec_resource c, (ec_epoch c, ec_lease_revision c, d)) ∈ l /\ d <= now.

Lemma due_in_cons now x l cs : Forall (due_in now l) cs -> Forall (due_in now (x :: l)) cs.
Proof. intros H. eapply Forall_impl; [|exact H]. intros c (d & ? & ?). exists d. split; [by right|done]. Qed.

Lemma propose_due now leading answer l t cs t' :
  propose now leading answer l t = (cs, t') ->
  Forall (due_in now l) cs /\ (forall t1, t' = Some t1 -> t1 ⊆ t).
Proof.
  revert t cs t'. induction l as [|[key [[e r] d]] l IH]; intros t cs t' H; simpl in H.
  { injection H as <- <-. split; [done|]. by intros ? [= ->]. }
  destruct (N.ltb_spec now d) as [|Hd].
  { destruct (IH _ _ _ H) as [Hc Ht]. eauto using due_in_cons. }
  assert (due_in now ((key, (e, r, d)) :: l) (mk_ExpireCommand key e r)) as Hhere.
  { exists d. split; [by left|done]. }
  destruct (leading key); [|by injection H as <- <-]. simpl in H. destruct (answer key).
  - destruct (propose _ _ _ l (delete key t)) as [cs0 t0] eqn:E. injection H as <- <-.
    destruct (IH _ _ _ E) as [Hc Ht]. split; [constructor; eauto using due_in_cons|].
    intros t1 ->. etrans; [by apply Ht|]. apply delete_subseteq.
  - injection H as <- <-. split; [by repeat constructor|done].
  - destruct (propose _ _ _ l t) as [cs0 t0] eqn:E. injection H as <- <-.
    destruct (IH _ _ _ E) as [Hc Ht]. split; [constructor; eauto using due_in_cons|done].
Qed.

(** A leader that keeps leading proposes everything due. *)
Lemma propose_all now leading answer l t key e r d :
  (forall k, leading k = true) -> (forall k, answer k <> WA_Forward) ->
  (key, (e, r, d)) ∈ l -> d <= now -> mk_ExpireCommand key e r ∈ fst (propose now leading answer l t).
Proof.
  intros Hl Ha. revert t. induction l as [|[k [[e' r'] d']] l IH]; intros t Hin Hd; [set_solver|].
  simpl. rewrite Hl. simpl. apply elem_of_cons in Hin as [[= <- <- <- <-]|Hin].
  - rewrite (proj2 (N.ltb_ge _ _) Hd). specialize (Ha key). destruct (answer key); [|done|];
      destruct (propose _ _ _ _ _); left.
  - destruct (now <? d'); [auto|]. specialize (Ha k).
    destruct (answer k); [|done|];
      match goal with |- context [propose ?n ?le ?a ?l ?t] =>
        specialize (IH t Hin Hd); destruct (propose n le a l t) end; by right.
Qed.

(** A timer that is not due stays. *)
Lemma propose_keeps now leading answer l t cs t1 key :
  propose now leading answer l t = (cs, Some t1) ->
  (forall x, (key, x) ∈ l -> now < x.2) -> t1 !! key = t !! key.
Proof.
  revert t cs. induction l as [|[k [[e r] d]] l IH]; intros t cs H Hl; simpl in H; [by injection H as _ <-|].
  assert (forall x, (key, x) ∈ l -> now < x.2) as Hl' by (intros x Hx; apply Hl; by right).
  destruct (N.ltb_spec now d) as [|Hd]; [eauto|].
  assert (k <> key) as Hne. { intros ->. specialize (Hl (e, r, d) ltac:(left)). simpl in Hl. lia. }
  destruct (leading k); [|done]. simpl in H. destruct (answer k); [|done|].
  - destruct (propose _ _ _ l (delete k t)) as [cs0 t0] eqn:E. injection H as _ ->.
    rewrite (IH _ _ E Hl'). by apply lookup_delete_ne.
  - destruct (propose _ _ _ l t) as [cs0 t0] eqn:E. injection H as _ ->. eauto.
Qed.

Lemma sorted_timers_elem t k x : (k, x) ∈ merge_sort timer_le (map_to_list t) <-> t !! k = Some x.
Proof. rewrite (merge_sort_Permutation timer_le). apply elem_of_map_to_list. Qed.

(** Every timer was armed by a sweep that saw its row, for its full time. *)
Definition traced (sweeps : list Sweep) (t : Timers) : Prop :=
  forall k e r d, t !! k = Some (e, r, d) ->
    exists u ttl, u ∈ sweeps /\ saw u k e r ttl /\ d = sw_now u + from_millis ttl.

Lemma rearm_traced sweeps w t :
  traced sweeps t ->
  traced (sweeps ++ [w]) (rearm (sw_now w) (held_rows (sw_state w)) t) /\
  (forall k e r d, rearm (sw_now w) (held_rows (sw_state w)) t !! k = Some (e, r, d) ->
     exists ttl, saw w k e r ttl).
Proof.
  intros Ht. assert (forall k e r d, rearm (sw_now w) (held_rows (sw_state w)) t !! k = Some (e, r, d) ->
    (exists ttl, saw w k e r ttl /\ d = sw_now w + from_millis ttl) \/
    (t !! k = Some (e, r, d) /\ exists ttl, saw w k e r ttl)) as Hcases.
  { intros k e r d. rewrite rearm_lookup. destruct (st_resources _ !! k) as [row|] eqn:Hr; [|done].
    destruct (rr_held row) eqn:Hh; [|done]. intros [= H].
    assert (saw w k (rr_epoch row) (rr_lease_revision row) (rr_ttl_ms row)) as Hsaw by (exists row; by split_and!).
    unfold armed in H. simpl in H. destruct (t !! k) as [[[e' r'] d']|] eqn:Hk.
    - destruct ((e' =? _) && _) eqn:Heq; [|injection H as <- <- <-; eauto].
      apply andb_true_iff in Heq as [->%N.eqb_eq ->%N.eqb_eq]. injection H as <- <- <-. eauto.
    - injection H as <- <- <-. eauto. }
  split.
  - intros k e r d [(ttl & Hs & ->)|[Hk _]]%Hcases.
    + exists w, ttl. split_and!; [apply elem_of_app; right; left|done|done].
    + destruct (Ht _ _ _ _ Hk) as (u & ttl & ? & ? & ?). exists u, ttl. split_and!; [apply elem_of_app; by left|done..].
  - intros k e r d [(ttl & ? & _)|[_ ?]]%Hcases; eauto.
Qed.

Lemma timers_after_snoc sweeps w :
  timers_after (sweeps ++ [w]) = timers_after sweeps ≫= λ t, snd (sweep w t).
Proof. unfold timers_after. by rewrite foldl_snoc. Qed.

Lemma timers_traced sweeps t : timers_after sweeps = Some t -> traced sweeps t.
Proof.
  revert t. induction sweeps as [|w sweeps IH] using rev_ind; intros t Ht.
  { injection Ht as <-. intros k e r d H. by rewrite lookup_empty in H. }
  rewrite timers_after_snoc in Ht. apply bind_Some in Ht as (t0 & H0 & Ht).
  destruct (rearm_traced sweeps w t0 (IH _ H0)) as [Htr _]. unfold sweep in Ht.
  destruct (sw_current w); [|done]. simpl in Ht. destruct (propose _ _ _ _ _) as [cs t1] eqn:E.
  simpl in Ht. subst t1. destruct (propose_due _ _ _ _ _ _ _ E) as [_ Hsub].
  intros k e r d Hk. apply Htr. eapply lookup_weaken; [exact Hk|by apply Hsub].
Qed.

Lemma proposed_at_due sweeps w c :
  c ∈ proposed_at sweeps w ->
  (exists u ttl, u ∈ sweeps ++ [w] /\ saw u (ec_resource c) (ec_epoch c) (ec_lease_revision c) ttl /\
     sw_now u + from_millis ttl <= sw_now w) /\
  (exists ttl, saw w (ec_resource c) (ec_epoch c) (ec_lease_revision c) ttl).
Proof.
  unfold proposed_at. destruct (timers_after sweeps) as [t|] eqn:Ht; [|set_solver]. intros Hc.
  destruct (rearm_traced sweeps w t (timers_traced _ _ Ht)) as [Htr Hsaw]. unfold sweep in Hc.
  destruct (sw_current w); [|simpl in Hc; set_solver]. simpl in Hc.
  destruct (propose _ _ _ _ _) as [cs t1] eqn:E.
  apply propose_due in E as [Hdue _]. rewrite List.Forall_forall in Hdue.
  destruct (Hdue c) as (d & Hd%sorted_timers_elem & Hle); [by apply list_elem_of_In|].
  split; [|eauto]. destruct (Htr _ _ _ _ Hd) as (u & ttl & ? & ? & ->). eauto.
Qed.

(** C16: the leader's expiry never overlaps a live holder: a lease is proposed for
    expiry only if this generation saw it held under that very epoch and lease
    revision at least a full time to live earlier and still sees it so; and a
    holder whose handle rests on a request it sent before the group showed that
    identity presents no fence by then, if its margin covers what the row's
    whole milliseconds drop of its time to live. *)
Theorem expiry_waits_out_the_holder sweeps w c :
  c ∈ proposed_at sweeps w ->
  (exists u ttl, u ∈ sweeps ++ [w] /\ saw u (ec_resource c) (ec_epoch c) (ec_lease_revision c) ttl /\
     sw_now u + from_millis ttl <= sw_now w) /\
  (exists ttl, saw w (ec_resource c) (ec_epoch c) (ec_lease_revision c) ttl) /\
  forall handle sent,
    lh_self_limit handle = self_limit_from (lh_opts handle) sent ->
    (forall u ttl, u ∈ sweeps ++ [w] -> saw u (ec_resource c) (ec_epoch c) (ec_lease_revision c) ttl ->
       sent <= sw_now u /\ lo_ttl (lh_opts handle) <= from_millis ttl + lo_holder_margin (lh_opts handle)) ->
    handle_fence (sw_now w) handle = None.
Proof.
  intros Hc. destruct (proposed_at_due _ _ _ Hc) as [(u & ttl & Hu & Hs & Hle) Hnow].
  split_and!; [eauto|done|]. intros handle sent Hl Hall. destruct (Hall _ _ Hu Hs) as [Hsent Httl].
  unfold handle_fence. destruct (negb _); [done|]. rewrite (proj2 (N.leb_le _ _)); [done|].
  rewrite Hl. unfold self_limit_from. lia.
Qed.

Lemma saw_rearmed w t key e r ttl :
  saw w key e r ttl ->
  rearm (sw_now w) (held_rows (sw_state w)) t !! key
    = Some (armed (sw_now w) (t !! key) (mk_HeldRow key e r ttl)).
Proof. intros (row & Hr & Hh & <- & <- & <-). by rewrite rearm_lookup, Hr, Hh. Qed.

Lemma sweep_stands w t cs t' key e r ttl d :
  sweep w t = (cs, Some t') -> saw w key e r ttl ->
  armed (sw_now w) (t !! key) (mk_HeldRow key e r ttl) = (e, r, d) -> sw_now w < d ->
  t' !! key = Some (e, r, d).
Proof.
  unfold sweep. intros H Hs Ha Hd. destruct (sw_current w); [|done]. simpl in H.
  rewrite (propose_keeps _ _ _ _ _ _ _ key H); [by rewrite (saw_rearmed _ _ _ _ _ _ Hs), Ha|].
  intros x Hx%sorted_timers_elem. rewrite (saw_rearmed _ _ _ _ _ _ Hs), Ha in Hx. by injection Hx as <-.
Qed.

(** The timer armed by the first sweep stands while the row keeps its identity. *)
Lemma timer_stands first sweeps t key e r ttl :
  timers_after (first :: sweeps) = Some t ->
  (forall u, u ∈ first :: sweeps -> saw u key e r ttl /\ sw_now u < sw_now first + from_millis ttl) ->
  t !! key = Some (e, r, sw_now first + from_millis ttl).
Proof.
  revert t. induction sweeps as [|w sweeps IH] using rev_ind; intros t Ht Hall.
  - destruct (Hall first ltac:(left)) as [Hs Hlt]. unfold timers_after in Ht. simpl in Ht.
    destruct (sweep first ∅) as [cs t'] eqn:E. simpl in Ht. subst t'.
    eapply sweep_stands; [exact E|exact Hs|by rewrite lookup_empty|done].
  - rewrite app_comm_cons, timers_after_snoc in Ht. apply bind_Some in Ht as (t0 & H0 & Ht).
    destruct (Hall w) as [Hs Hlt]; [set_solver|].
    assert (t0 !! key = Some (e, r, sw_now first + from_millis ttl)) as Hk.
    { apply IH; [done|]. intros u Hu. apply Hall. set_solver. }
    destruct (sweep w t0) as [cs t'] eqn:E. simpl in Ht. subst t'.
    eapply sweep_stands; [exact E|exact Hs| |done]. rewrite Hk. unfold armed. simpl. by rewrite !N.eqb_refl.
Qed.

(** C39: an abandoned lease is expired: when every sweep of a generation sees a
    row held under one identity, the first sweep at or after a full time to live
    from the first one proposes to expire it, as long as the generation still
    leads; and the proposal, applied to the row it was computed from, clears the
    lease and advances its epoch. *)
Theorem abandoned_lease_expires first sweeps t w key e r ttl :
  timers_after (first :: sweeps) = Some t ->
  (forall u, u ∈ first :: sweeps -> saw u key e r ttl /\ sw_now u < sw_now first + from_millis ttl) ->
  saw w key e r ttl -> sw_now first + from_millis ttl <= sw_now w ->
  sw_current w = true -> (forall k, sw_leading w k = true) -> (forall k, sw_answer w k <> WA_Forward) ->
  e < MAX_COUNTER -> r < MAX_COUNTER ->
  mk_ExpireCommand key e r ∈ proposed_at (first :: sweeps) w /\
  exists row', expire_decide (sw_state w) (mk_ExpireCommand key e r) = ED_Apply row' /\
    rr_held row' = false /\ rr_epoch row' = e + 1.
Proof.
  intros Ht Hall Hs Hdue Hcur Hlead Hans He Hr. split.
  - unfold proposed_at. rewrite Ht. unfold sweep. rewrite Hcur. simpl.
    apply (propose_all _ _ _ _ _ _ _ _ (sw_now first + from_millis ttl)); [done|done| |done].
    apply sorted_timers_elem. rewrite (saw_rearmed _ _ _ _ _ _ Hs), (timer_stands _ _ _ _ _ _ _ Ht Hall).
    unfold armed. simpl. by rewrite !N.eqb_refl.
  - destruct Hs as (row & Hrow & Hh & He' & Hr' & _). subst e r. eexists. split.
    + apply expire_decide_Apply. exists row. by split_and!.
    + simpl. split; [done|]. by apply counter_step.
Qed.

(** ** A lease abandoned by its holder *)

Definition abandoned_row : ResourceRow :=
  mk_ResourceRow 3 true (Some sample_voter) 5000 7 0 [] 0.
Definition sweep_options : LeaseOptions := mk_LeaseOptions 5000000300 1000000000 500000000.
Definition sweep_at (ms : N) : Sweep :=
  mk_Sweep (from_millis ms) (set_resources {[run_key := abandoned_row]} run_initial) true (λ _, true) (λ _, WA_Applied).

Lemma sweep_at_saw now : saw (sweep_at now) run_key 3 7 5000.
Proof. exists abandoned_row. split_and!; [apply lookup_singleton_eq|reflexivity..]. Qed.

Lemma sweep_at_row now e r ttl : saw (sweep_at now) run_key e r ttl -> ttl = 5000.
Proof.
  intros (row & Hr & _ & _ & _ & <-).
  change ((({[run_key := abandoned_row]} : gmap ResourceKey ResourceRow) !! run_key) = Some row) in Hr.
  rewrite lookup_singleton_eq in Hr. by injection Hr as <-.
Qed.

Lemma expiry_waits_out_the_holder_witness :
  handle_fence 6000000000
    (mk_LeaseHandle (mk_LeaseFence [] 3 []) (self_limit_from sweep_options 900000000) LS_Held sweep_options)
  = None.
Proof.
  destruct (expiry_waits_out_the_holder [sweep_at 1000; sweep_at 2000] (sweep_at 6000)
    (mk_ExpireCommand run_key 3 7)) as (_ & _ & H).
  - vm_compute. left.
  - apply (H _ 900000000); [reflexivity|]. intros u ttl Hu Hs.
    assert (u = sweep_at 1000 \/ u = sweep_at 2000 \/ u = sweep_at 6000) as [->|[->| ->]]
      by set_solver; apply sweep_at_row in Hs as ->; (split; apply N.leb_le; vm_compute; reflexivity).
Defined.

Lemma sweeps_running : exists t, timers_after [sweep_at 1000; sweep_at 2000] = Some t.
Proof.
  assert (match timers_after [sweep_at 1000; sweep_at 2000] with Some _ => true | None => false end = true)
    as H by (vm_compute; reflexivity).
  destruct (timers_after _) as [t|]; [by exists t|discriminate H].
Qed.

Lemma abandoned_lease_expires_witness :
  mk_ExpireCommand run_key 3 7 ∈ proposed_at [sweep_at 1000; sweep_at 2000] (sweep_at 6000).
Proof.
  destruct sweeps_running as [t Ht].
  destruct (abandoned_lease_expires (sweep_at 1000) [sweep_at 2000] t (sweep_at 6000) run_key 3 7 5000 Ht)
    as [H _]; [..|exact H].
  - intros u Hu. clear Ht. rewrite !elem_of_cons, elem_of_nil in Hu.
    destruct Hu as [->|[->|[]]]; (split; [apply sweep_at_saw|apply N.ltb_lt; vm_compute; reflexivity]).
  - apply sweep_at_saw.
  - apply N.leb_le. vm_compute. reflexivity.
  - reflexivity.
  - reflexivity.
  - discriminate.
  - reflexivity.
  - reflexivity.
Defined.
