(* ===== verification/Journal.v ===== *)
(** * The durable client journal

    Models [aster/src/coordination/client/journal.rs]: the six-state record of
    one actor's mutations in one group, its validation, its checksummed
    envelope, and every transition, each written through one atomic file
    replacement that may fail before or after its commit point. The Fory
    codec and BLAKE3 are parameters, and so is the request-aware reply validator
    of [client/inbound.rs], about which nothing is assumed: what is proved holds
    for any. The lifetime lock, directories and file permissions are left out. *)

From S2P Require Import Prelude Reason Ids Contract Wire Boundary.

#[local] Open Scope N_scope.

Definition JOURNAL_FORMAT_VERSION : N := 1.

(** [enum JournalState]. *)
Inductive JournalState : Type :=
| JS_Ready
| JS_Pending
| JS_ResolvedAwaitingAck
| JS_Closing
| JS_ReplayAfterRetire
| JS_FatalJournal.

#[export] Instance JournalState_eq_dec : EqDecision JournalState.
Proof. solve_decision. Defined.

(** [JournalState::code], [JournalState::from_code]. *)
Definition journal_state_code (s : JournalState) : Z :=
  match s with
  | JS_Ready => 1
  | JS_Pending => 2
  | JS_ResolvedAwaitingAck => 3
  | JS_Closing => 4
  | JS_ReplayAfterRetire => 5
  | JS_FatalJournal => 6
  end%Z.

Definition journal_state_from_code (code : Z) : option JournalState :=
  match code with
  | 1 => Some JS_Ready
  | 2 => Some JS_Pending
  | 3 => Some JS_ResolvedAwaitingAck
  | 4 => Some JS_Closing
  | 5 => Some JS_ReplayAfterRetire
  | 6 => Some JS_FatalJournal
  | _ => None
  end%Z.

(** [struct ClientJournalV1]. *)
Record ClientJournalV1 : Type := mk_ClientJournalV1 {
  cj_format_version : N;
  cj_group_id : bytes;
  cj_actor_node_id : bytes;
  cj_client_id : bytes;
  cj_state_code : Z;
  cj_sequence : N;
  cj_pending_method : bytes;
  cj_pending_request : bytes;
  cj_request_hash : bytes;
  cj_resolved_reply : bytes;
  cj_retirement_confirmed : bool;
  cj_terminal_refusal : bytes;
}.

(** [struct MutationReplyWireV1]. *)
Record MutationReplyWireV1 : Type := mk_MutationReplyWireV1 {
  mrw_protocol_version : Z;
  mrw_group_id : bytes;
  mrw_client_id : bytes;
  mrw_sequence : N;
  mrw_request_hash : bytes;
  mrw_disposition_code : Z;
  mrw_outcome_code : Z;
  mrw_reason_code : Z;
  mrw_snapshot : option ResourceSnapshotV1;
  mrw_acl_revision : N;
  mrw_admin_revision : N;
  mrw_operation_id : option bytes;
  mrw_membership_log_id : option LogIdV1;
}.

(** [struct MutationContext]. *)
Record MutationContext : Type := mk_MutationContext {
  mc_group_id : bytes;
  mc_local_actor : bytes;
  mc_method : bytes;
  mc_request : bytes;
  mc_client_id : bytes;
  mc_sequence : N;
  mc_request_hash : bytes;
}.

(** [struct AckToken]. *)
Record AckToken : Type := mk_AckToken {
  at_client_id : bytes;
  at_sequence : N;
  at_request_hash : bytes;
}.

#[export] Instance AckToken_eq_dec : EqDecision AckToken.
Proof. solve_decision. Defined.

(** The failures, one per message of the source. *)
Inductive RecordRule : Type :=
| RR_StateCode | RR_Group | RR_Actor | RR_Client | RR_EntryHash | RR_EntryRequest | RR_EntryMethod
| RR_ResolvedReply | RR_CorridorOpener | RR_ReadyResidue | RR_PendingResidue | RR_ResolvedResidue
| RR_RetainedOpener | RR_CorridorReply | RR_ReplayUnconfirmed | RR_ClosingConfirmed.

Inductive JournalError : Type :=
| JE_NotEnvelope
| JE_Checksum
| JE_Undecodable
| JE_Format
| JE_OtherGroup
| JE_OtherActor
| JE_Record (rule : RecordRule)
| JE_NotEncodable
| JE_Io
| JE_State
| JE_NotConsecutive
| JE_NotOwned
| JE_StaleToken
| JE_ThroughRetirement.

(** The codec, the digest and the reply validator. *)
Class JournalCodec : Type := {
  jc_encode : ClientJournalV1 -> option bytes;
  jc_decode : bytes -> option ClientJournalV1;
  jc_decode_reply : bytes -> option MutationReplyWireV1;
  jc_blake3 : bytes -> bytes;
  validate_mutation_reply : MutationContext -> MutationReplyWireV1 -> bool;
}.

(** What the codec and the digest promise: decoding inverts encoding, an empty
    payload is no value, and a digest has 32 bytes. *)
Class JournalCodecLaws `{JournalCodec} : Prop := {
  jc_decode_encode r b : jc_encode r = Some b -> jc_decode b = Some r;
  jc_reply_nonempty : jc_decode_reply [] = None;
  jc_blake3_len b : length (jc_blake3 b) = 32%nat;
}.

Section journal.
Context `{Codec : JournalCodec}.

Definition is_empty (b : bytes) : bool := bool_decide (b = []).

(** [reply_owned_by]. *)
Definition reply_owned_by (record : ClientJournalV1) (b : bytes) : option MutationReplyWireV1 :=
  reply ← jc_decode_reply b;
  let cx :=
    {| mc_group_id := cj_group_id record;
       mc_local_actor := cj_actor_node_id record;
       mc_method := cj_pending_method record;
       mc_request := cj_pending_request record;
       mc_client_id := cj_client_id record;
       mc_sequence := cj_sequence record;
       mc_request_hash := cj_request_hash record |} in
  if validate_mutation_reply cx reply then Some reply else None.

(** [opens_corridor]. *)
Definition opens_corridor (record : ClientJournalV1) (b : bytes) : bool :=
  match reply_owned_by record b with
  | Some refusal =>
      (mrw_disposition_code refusal =? 2)%Z
      && match reason_from_code (mrw_reason_code refusal) with
         | Some reason => disposition_is_terminal NotConsumed reason
         | None => false
         end
  | None => false
  end.

Definition has_entry (state : JournalState) : bool :=
  match state with
  | JS_Pending | JS_Closing | JS_ReplayAfterRetire | JS_ResolvedAwaitingAck => true
  | JS_Ready | JS_FatalJournal => false
  end.

(** The widths and the required fields: the first half of [validate_record]. *)
Definition required_fields (state : JournalState) (record : ClientJournalV1) : option RecordRule :=
  if negb (len (cj_group_id record) =? 32) then Some RR_Group
  else if negb (len (cj_actor_node_id record) =? 32) then Some RR_Actor
  else if negb (len (cj_client_id record) =? 16) then Some RR_Client
  else if has_entry state && negb (len (cj_request_hash record) =? 32) then Some RR_EntryHash
  else if has_entry state && is_empty (cj_pending_request record) then Some RR_EntryRequest
  else if has_entry state && is_empty (cj_pending_method record) then Some RR_EntryMethod
  else match state with
  | JS_ResolvedAwaitingAck =>
      if is_empty (cj_resolved_reply record)
         || bool_decide (reply_owned_by record (cj_resolved_reply record) = None)
      then Some RR_ResolvedReply else None
  | JS_Closing | JS_ReplayAfterRetire =>
      if is_empty (cj_terminal_refusal record)
         || negb (opens_corridor record (cj_terminal_refusal record))
      then Some RR_CorridorOpener else None
  | _ => None
  end.

(** The forbidden fields: the second half of [validate_record]. *)
Definition forbidden_fields (state : JournalState) (record : ClientJournalV1) : option RecordRule :=
  match state with
  | JS_Ready =>
      if negb (is_empty (cj_pending_method record)) || negb (is_empty (cj_pending_request record))
         || negb (is_empty (cj_request_hash record)) || negb (is_empty (cj_resolved_reply record))
         || negb (is_empty (cj_terminal_refusal record)) || cj_retirement_confirmed record
      then Some RR_ReadyResidue else None
  | JS_Pending =>
      if negb (is_empty (cj_resolved_reply record)) || negb (is_empty (cj_terminal_refusal record))
         || cj_retirement_confirmed record
      then Some RR_PendingResidue else None
  | JS_ResolvedAwaitingAck =>
      if negb (cj_retirement_confirmed record) then
        if negb (is_empty (cj_terminal_refusal record)) then Some RR_ResolvedResidue else None
      else if negb (opens_corridor record (cj_terminal_refusal record)) then Some RR_RetainedOpener
      else None
  | JS_Closing =>
      if negb (is_empty (cj_resolved_reply record)) then Some RR_CorridorReply
      else if cj_retirement_confirmed record then Some RR_ClosingConfirmed else None
  | JS_ReplayAfterRetire =>
      if negb (is_empty (cj_resolved_reply record)) then Some RR_CorridorReply
      else if negb (cj_retirement_confirmed record) then Some RR_ReplayUnconfirmed else None
  | JS_FatalJournal => None
  end.

(** [validate_record]. *)
Definition validate_record (record : ClientJournalV1) : option RecordRule :=
  match journal_state_from_code (cj_state_code record) with
  | None => Some RR_StateCode
  | Some state =>
      match required_fields state record with
      | Some rule => Some rule
      | None => forbidden_fields state record
      end
  end.

(** [ENVELOPE_MAGIC], [envelope], [open_envelope]. *)
Definition ENVELOPE_MAGIC : bytes :=
  [Byte.x41; Byte.x4a; Byte.x52; Byte.x4e; Byte.x4c; Byte.x31; Byte.x00; Byte.x00].

Definition envelope (b : bytes) : bytes := ENVELOPE_MAGIC ++ jc_blake3 b ++ b.

Definition open_envelope (file : bytes) : result bytes JournalError :=
  if (len file <? 40) || negb (bool_decide (take 8 file = ENVELOPE_MAGIC)) then Err JE_NotEnvelope
  else
    let claimed := take 32 (drop 8 file) in
    let payload := drop 32 (drop 8 file) in
    if negb (bool_decide (jc_blake3 payload = claimed)) then Err JE_Checksum else Ok payload.

(** [struct Journal]: the file [journal.v1] in the directory, and what the
    process holds. *)
Record Journal : Type := mk_Journal {
  jo_disk : option bytes;
  jo_record : ClientJournalV1;
  jo_self_acknowledging : option AckToken;
}.

(** Where a replacement of the file fails, if it does: before the rename the
    old record stands, after it the new one does. *)
Inductive WriteFault : Type :=
| F_None
| F_BeforeRename
| F_AfterRename.

(** [persist]. *)
Definition persist (fault : WriteFault) (record : ClientJournalV1) (j : Journal)
    : result unit JournalError * Journal :=
  match jc_encode record with
  | None => (Err JE_NotEncodable, j)
  | Some b =>
      match fault with
      | F_BeforeRename => (Err JE_Io, j)
      | F_AfterRename =>
          (Err JE_Io, mk_Journal (Some (envelope b)) (jo_record j) (jo_self_acknowledging j))
      | F_None => (Ok (), mk_Journal (Some (envelope b)) record (jo_self_acknowledging j))
      end
  end.

(** The record of a first use. *)
Definition fresh_record (actor group fresh_client_id : bytes) : ClientJournalV1 :=
  mk_ClientJournalV1 JOURNAL_FORMAT_VERSION group actor fresh_client_id (journal_state_code JS_Ready) 0
    [] [] [] [] false [].

(** The reading half of [Journal::open]. *)
Definition read_record (actor group file : bytes) : result ClientJournalV1 JournalError :=
  match open_envelope file with
  | Err e => Err e
  | Ok payload =>
      match jc_decode payload with
      | None => Err JE_Undecodable
      | Some record =>
          if negb (cj_format_version record =? JOURNAL_FORMAT_VERSION) then Err JE_Format
          else if negb (bool_decide (cj_group_id record = group)) then Err JE_OtherGroup
          else if negb (bool_decide (cj_actor_node_id record = actor)) then Err JE_OtherActor
          else match validate_record record with
          | Some rule => Err (JE_Record rule)
          | None => Ok record
          end
      end
  end.

(** [Journal::open], with [persist_record] for a first use: the journal, or the
    error and the file left behind. *)
Definition open (fault : WriteFault) (actor group fresh_client_id : bytes) (disk : option bytes)
    : Journal + (JournalError * option bytes) :=
  match disk with
  | Some file =>
      match read_record actor group file with
      | Ok record => inl (mk_Journal disk record None)
      | Err e => inr (e, disk)
      end
  | None =>
      let record := fresh_record actor group fresh_client_id in
      match jc_encode record with
      | None => inr (JE_NotEncodable, None)
      | Some b =>
          match fault with
          | F_None => inl (mk_Journal (Some (envelope b)) record None)
          | F_BeforeRename => inr (JE_Io, None)
          | F_AfterRename => inr (JE_Io, Some (envelope b))
          end
      end
  end.

(** [Journal::state]: the code was validated at every write. *)
Definition journal_state (j : Journal) : option JournalState :=
  journal_state_from_code (cj_state_code (jo_record j)).
Definition in_state (s : JournalState) (j : Journal) : bool := bool_decide (journal_state j = Some s).

(** [token_of_current]. *)
Definition token_of (r : ClientJournalV1) : AckToken :=
  mk_AckToken (cj_client_id r) (cj_sequence r) (cj_request_hash r).

(** The records the transitions write. *)
Definition begun (sequence : N) (method request request_hash : bytes) (r : ClientJournalV1) : ClientJournalV1 :=
  mk_ClientJournalV1 (cj_format_version r) (cj_group_id r) (cj_actor_node_id r) (cj_client_id r)
    (journal_state_code JS_Pending) sequence method request request_hash [] false (cj_terminal_refusal r).
Definition resolved (reply : bytes) (r : ClientJournalV1) : ClientJournalV1 :=
  mk_ClientJournalV1 (cj_format_version r) (cj_group_id r) (cj_actor_node_id r) (cj_client_id r)
    (journal_state_code JS_ResolvedAwaitingAck) (cj_sequence r) (cj_pending_method r)
    (cj_pending_request r) (cj_request_hash r) reply (cj_retirement_confirmed r) (cj_terminal_refusal r).
Definition acknowledged (r : ClientJournalV1) : ClientJournalV1 :=
  mk_ClientJournalV1 (cj_format_version r) (cj_group_id r) (cj_actor_node_id r) (cj_client_id r)
    (journal_state_code JS_Ready) (cj_sequence r) [] [] [] [] (cj_retirement_confirmed r)
    (cj_terminal_refusal r).
Definition closing (refusal : bytes) (r : ClientJournalV1) : ClientJournalV1 :=
  mk_ClientJournalV1 (cj_format_version r) (cj_group_id r) (cj_actor_node_id r) (cj_client_id r)
    (journal_state_code JS_Closing) (cj_sequence r) (cj_pending_method r) (cj_pending_request r)
    (cj_request_hash r) (cj_resolved_reply r) false refusal.
Definition retired (r : ClientJournalV1) : ClientJournalV1 :=
  mk_ClientJournalV1 (cj_format_version r) (cj_group_id r) (cj_actor_node_id r) (cj_client_id r)
    (journal_state_code JS_ReplayAfterRetire) (cj_sequence r) (cj_pending_method r)
    (cj_pending_request r) (cj_request_hash r) (cj_resolved_reply r) true (cj_terminal_refusal r).
Definition failed (r : ClientJournalV1) : ClientJournalV1 :=
  mk_ClientJournalV1 (cj_format_version r) (cj_group_id r) (cj_actor_node_id r) (cj_client_id r)
    (journal_state_code JS_FatalJournal) (cj_sequence r) (cj_pending_method r) (cj_pending_request r)
    (cj_request_hash r) (cj_resolved_reply r) (cj_retirement_confirmed r) (cj_terminal_refusal r).
Definition rotated (fresh_client_id : bytes) (r : ClientJournalV1) : ClientJournalV1 :=
  mk_ClientJournalV1 (cj_format_version r) (cj_group_id r) (cj_actor_node_id r) fresh_client_id
    (journal_state_code JS_Ready) 0 [] [] [] [] false [].

(** [Journal::begin]. *)
Definition begin (fault : WriteFault) (sequence : N) (method request request_hash : bytes) (j : Journal)
    : result unit JournalError * Journal :=
  if negb (in_state JS_Ready j) then (Err JE_State, j)
  else if negb (sequence =? u64_add (cj_sequence (jo_record j)) 1) then (Err JE_NotConsecutive, j)
  else persist fault (begun sequence method request request_hash (jo_record j)) j.

(** [Journal::resolve]. *)
Definition resolve_entry (fault : WriteFault) (encoded_reply : bytes) (j : Journal)
    : result AckToken JournalError * Journal :=
  if negb (in_state JS_Pending j) && negb (in_state JS_ReplayAfterRetire j) then (Err JE_State, j)
  else if bool_decide (reply_owned_by (jo_record j) encoded_reply = None) then (Err JE_NotOwned, j)
  else match persist fault (resolved encoded_reply (jo_record j)) j with
       | (Ok _, j') => (Ok (token_of (jo_record j')), j')
       | (Err e, j') => (Err e, j')
       end.

(** [Journal::unacknowledged]. *)
Definition unacknowledged (j : Journal) : option (bytes * AckToken) :=
  if in_state JS_ResolvedAwaitingAck j
  then Some (cj_resolved_reply (jo_record j), token_of (jo_record j)) else None.

(** [mark_self_acknowledging], [current_is_self_acknowledging]. *)
Definition mark_self_acknowledging (j : Journal) : Journal :=
  mk_Journal (jo_disk j) (jo_record j) (Some (token_of (jo_record j))).
Definition current_is_self_acknowledging (j : Journal) : bool :=
  negb (in_state JS_Ready j)
  && bool_decide (jo_self_acknowledging j = Some (token_of (jo_record j))).

(** [Journal::acknowledge]. *)
Definition acknowledge (fault : WriteFault) (token : AckToken) (j : Journal)
    : result unit JournalError * Journal :=
  if negb (in_state JS_ResolvedAwaitingAck j) then (Err JE_State, j)
  else if negb (bool_decide (token_of (jo_record j) = token)) then (Err JE_StaleToken, j)
  else if cj_retirement_confirmed (jo_record j) then (Err JE_ThroughRetirement, j)
  else persist fault (acknowledged (jo_record j)) j.

(** [Journal::close_for_retirement]. *)
Definition close_for_retirement (fault : WriteFault) (terminal_refusal : bytes) (j : Journal)
    : result unit JournalError * Journal :=
  if negb (in_state JS_Pending j) then (Err JE_State, j)
  else if negb (opens_corridor (jo_record j) terminal_refusal) then (Err JE_NotOwned, j)
  else persist fault (closing terminal_refusal (jo_record j)) j.

(** [Journal::retirement_confirmed]. *)
Definition confirm_retirement (fault : WriteFault) (j : Journal) : result unit JournalError * Journal :=
  if negb (in_state JS_Closing j) then (Err JE_State, j)
  else persist fault (retired (jo_record j)) j.

(** [Journal::fatal]. *)
Definition fatal (fault : WriteFault) (j : Journal) : result unit JournalError * Journal :=
  persist fault (failed (jo_record j)) j.

(** [Journal::rotate]. *)
Definition rotate (fault : WriteFault) (token : AckToken) (fresh_client_id : bytes) (j : Journal)
    : result unit JournalError * Journal :=
  if negb (in_state JS_ResolvedAwaitingAck j) || negb (cj_retirement_confirmed (jo_record j))
  then (Err JE_State, j)
  else if negb (bool_decide (token_of (jo_record j) = token)) then (Err JE_StaleToken, j)
  else persist fault (rotated fresh_client_id (jo_record j)) j.

(** ** The envelope *)

Context {Laws : JournalCodecLaws}.

Lemma open_envelope_exact file b : open_envelope file = Ok b <-> file = envelope b.
Proof.
  unfold open_envelope, envelope. split.
  - intros H. destruct (_ || _) eqn:E; [done|]. apply orb_false_iff in E as [_ Hm].
    apply negb_false_iff, bool_decide_eq_true in Hm. destruct (negb _) eqn:Hc; [done|].
    apply negb_false_iff, bool_decide_eq_true in Hc. injection H as <-.
    rewrite Hc, take_drop, <- Hm. by rewrite take_drop.
  - intros ->. pose proof (jc_blake3_len b) as Hl.
    assert (len (ENVELOPE_MAGIC ++ jc_blake3 b ++ b) <? 40 = false) as ->.
    { apply N.ltb_ge. unfold len. rewrite !length_app, Hl. simpl. lia. }
    rewrite (take_app_length' ENVELOPE_MAGIC _ 8), (drop_app_length' ENVELOPE_MAGIC _ 8) by done.
    rewrite bool_decide_eq_true_2 by done. simpl.
    rewrite (take_app_length' (jc_blake3 b) _ 32), (drop_app_length' (jc_blake3 b) _ 32) by done.
    by rewrite bool_decide_eq_true_2.
Qed.
End journal.
