(* ===== verification/JournalSafety.v ===== *)
(** * What the journal guarantees

    The journal as a transition system with failing writes and restarts at any
    point: its file can always be opened again, one sequence number of one client
    id only ever carries one request, and an acknowledgement settles the very
    result it was delivered for. *)

From S2P Require Import Prelude Reason Ids Contract Wire Boundary Journal.

#[local] Open Scope N_scope.

(** What an observer of the journal sees: entries begun, requests sent, results
    delivered, client ids minted. *)
Inductive JournalEvent : Type :=
| EV_Begin (sequence : N)
| EV_Send (client_id : bytes) (sequence : N) (method request request_hash : bytes)
| EV_Deliver (token : AckToken) (reply : bytes)
| EV_Mint (client_id : bytes).

Definition minted (evs : list JournalEvent) : list bytes :=
  omap (λ e, match e with EV_Mint id => Some id | _ => None end) evs.

Section safety.
Context `{Codec : JournalCodec} {Laws : JournalCodecLaws}.
Variable actor group : bytes.

Definition state_of (r : ClientJournalV1) : option JournalState := journal_state_from_code (cj_state_code r).

(** The request of a record, as it is sent. *)
Definition entry_event (r : ClientJournalV1) : JournalEvent :=
  EV_Send (cj_client_id r) (cj_sequence r) (cj_pending_method r) (cj_pending_request r) (cj_request_hash r).

(** One step: a call with whatever fault its write meets, a send of the saved
    bytes, a redelivery, or the death of the process and a new open. *)
Inductive journal_step (j : Journal) : list JournalEvent -> Journal -> Prop :=
| ST_begin fault sequence method request hash :
    method <> [] -> request <> [] -> len hash = 32 ->
    journal_step j [EV_Begin sequence] (begin fault sequence method request hash j).2
| ST_send :
    in_state JS_Pending j || in_state JS_ReplayAfterRetire j = true ->
    journal_step j [entry_event (jo_record j)] j
| ST_resolve fault reply :
    journal_step j
      (match (resolve_entry fault reply j).1 with Ok token => [EV_Deliver token reply] | Err _ => [] end)
      (resolve_entry fault reply j).2
| ST_redeliver reply token :
    unacknowledged j = Some (reply, token) -> journal_step j [EV_Deliver token reply] j
| ST_acknowledge fault token :
    journal_step j [] (acknowledge fault token j).2
| ST_close fault refusal : journal_step j [] (close_for_retirement fault refusal j).2
| ST_confirm fault : journal_step j [] (confirm_retirement fault j).2
| ST_fatal fault : journal_step j [] (fatal fault j).2
| ST_rotate fault token fresh :
    len fresh = 16 ->
    journal_step j [EV_Mint fresh] (rotate fault token fresh j).2
| ST_mark : journal_step j [] (mark_self_acknowledging j)
| ST_restart fault fresh j' :
    open fault actor group fresh (jo_disk j) = inl j' -> journal_step j [] j'.

Inductive journal_run (j0 : Journal) : list JournalEvent -> Journal -> Prop :=
| JR_start : journal_run j0 [] j0
| JR_step evs j es j' :
    journal_run j0 evs j -> journal_step j es j' -> journal_run j0 (evs ++ es) j'.

(** ** What a write may write *)

Inductive writes (r : ClientJournalV1) : ClientJournalV1 -> Prop :=
| W_begin method request hash :
    state_of r = Some JS_Ready -> method <> [] -> request <> [] -> len hash = 32 ->
    writes r (begun (u64_add (cj_sequence r) 1) method request hash r)
| W_resolve reply :
    state_of r = Some JS_Pending \/ state_of r = Some JS_ReplayAfterRetire ->
    reply_owned_by r reply <> None -> writes r (resolved reply r)
| W_acknowledge :
    state_of r = Some JS_ResolvedAwaitingAck -> cj_retirement_confirmed r = false ->
    writes r (acknowledged r)
| W_close refusal :
    state_of r = Some JS_Pending -> opens_corridor r refusal = true -> writes r (closing refusal r)
| W_retire : state_of r = Some JS_Closing -> writes r (retired r)
| W_fatal : writes r (failed r)
| W_rotate fresh :
    state_of r = Some JS_ResolvedAwaitingAck -> len fresh = 16 -> fresh <> cj_client_id r ->
    writes r (rotated fresh r).

Definition moved (es : list JournalEvent) (j j' : Journal) : Prop :=
  (jo_record j' = jo_record j /\ jo_disk j' = jo_disk j) \/
  exists next b, writes (jo_record j) next /\ cj_sequence next <= cj_sequence (jo_record j) + len es /\
    (cj_client_id next = cj_client_id (jo_record j) \/ EV_Mint (cj_client_id next) ∈ es) /\
    jc_encode next = Some b /\
    jo_disk j' = Some (envelope b) /\ (jo_record j' = jo_record j \/ jo_record j' = next).

Lemma persist_moved es fault next j :
  writes (jo_record j) next -> cj_sequence next <= cj_sequence (jo_record j) + len es ->
  cj_client_id next = cj_client_id (jo_record j) \/ EV_Mint (cj_client_id next) ∈ es ->
  moved es j (persist fault next j).2.
Proof.
  intros Hw Hn Hid. unfold persist. destruct (jc_encode next) as [b|] eqn:Hb; [|by left].
  destruct fault; simpl; [right|by left|right]; exists next, b; split_and!; auto.
Qed.

Lemma in_state_spec s j : in_state s j = true <-> state_of (jo_record j) = Some s.
Proof. unfold in_state, journal_state. apply bool_decide_eq_true. Qed.

(** Every call leaves the journal as it was, or writes one of those records. *)
Lemma step_moved j es j' :
  journal_step j es j' -> (forall id, EV_Mint id ∈ es -> id <> cj_client_id (jo_record j)) ->
  moved es j j' \/ exists fault fresh, open fault actor group fresh (jo_disk j) = inl j'.
Proof.
  assert (forall es, moved es j j) as Hsame by by left.
  intros [] Hmint; [left..|right; eauto]; try done.
  - unfold begin. destruct (in_state _ j) eqn:Hs; [|done]. simpl.
    destruct (N.eqb_spec sequence (u64_add (cj_sequence (jo_record j)) 1)) as [->|]; [|done].
    apply persist_moved; [constructor; try done; by apply in_state_spec| |by left].
    unfold u64_add. etrans; [by apply N.Div0.mod_le|]. unfold len. simpl. lia.
  - unfold resolve_entry. destruct (_ && _) eqn:Hs; [done|]. case_bool_decide as Ho; [done|].
    assert (writes (jo_record j) (resolved reply (jo_record j))) as Hw.
    { constructor; [|done]. apply andb_false_iff in Hs as [Hs|Hs]; apply negb_false_iff, in_state_spec in Hs; auto. }
    match goal with |- moved ?n _ _ => pose proof (persist_moved n fault _ j Hw ltac:(simpl; lia) ltac:(by left)) as Hm end.
    by destruct (persist _ _ j) as [[] ?].
  - unfold acknowledge. destruct (in_state _ j) eqn:Hs; [|done]. simpl.
    case_bool_decide; [|done]. destruct (cj_retirement_confirmed _) eqn:Hr; [done|].
    apply persist_moved; [|simpl; lia|by left]. constructor; [by apply in_state_spec|done].
  - unfold close_for_retirement. destruct (in_state _ j) eqn:Hs; [|done]. simpl.
    destruct (opens_corridor _ _) eqn:Ho; [|done].
    apply persist_moved; [|simpl; lia|by left]. constructor; [by apply in_state_spec|done].
  - unfold confirm_retirement. destruct (in_state _ j) eqn:Hs; [|done].
    apply persist_moved; [|simpl; lia|by left]. constructor. by apply in_state_spec.
  - apply persist_moved; [constructor|simpl; lia|by left].
  - unfold rotate. destruct (in_state _ j) eqn:Hs; [|done]. destruct (cj_retirement_confirmed _); [|done].
    simpl. case_bool_decide; [|done]. apply persist_moved; [|simpl; lia|right; left].
    constructor; [by apply in_state_spec|done|]. apply Hmint. left.
  - by left.
Qed.

(** ** Records stay valid *)

Definition holds_entry (r : ClientJournalV1) : Prop :=
  len (cj_request_hash r) = 32 /\ cj_pending_request r <> [] /\ cj_pending_method r <> [].

(** The fields each state requires and forbids. *)
Definition state_fields (s : JournalState) (r : ClientJournalV1) : Prop :=
  match s with
  | JS_Ready => cj_pending_method r = [] /\ cj_pending_request r = [] /\ cj_request_hash r = [] /\
      cj_resolved_reply r = [] /\ cj_terminal_refusal r = [] /\ cj_retirement_confirmed r = false
  | JS_Pending => holds_entry r /\ cj_resolved_reply r = [] /\ cj_terminal_refusal r = [] /\
      cj_retirement_confirmed r = false
  | JS_ResolvedAwaitingAck => holds_entry r /\ reply_owned_by r (cj_resolved_reply r) <> None /\
      if cj_retirement_confirmed r then opens_corridor r (cj_terminal_refusal r) = true
      else cj_terminal_refusal r = []
  | JS_Closing => holds_entry r /\ cj_resolved_reply r = [] /\
      opens_corridor r (cj_terminal_refusal r) = true /\ cj_retirement_confirmed r = false
  | JS_ReplayAfterRetire => holds_entry r /\ cj_resolved_reply r = [] /\
      opens_corridor r (cj_terminal_refusal r) = true /\ cj_retirement_confirmed r = true
  | JS_FatalJournal => True
  end.

Definition valid_record (r : ClientJournalV1) : Prop :=
  len (cj_group_id r) = 32 /\ len (cj_actor_node_id r) = 32 /\ len (cj_client_id r) = 16 /\
  exists s, state_of r = Some s /\ state_fields s r.

Lemma owned_nonempty r b : reply_owned_by r b <> None -> is_empty b = false.
Proof.
  intros H. apply bool_decide_eq_false. intros ->. apply H. unfold reply_owned_by. by rewrite jc_reply_nonempty.
Qed.

Lemma opener_nonempty r b : opens_corridor r b = true -> is_empty b = false.
Proof.
  intros H. apply (owned_nonempty r). intros Hn. unfold opens_corridor in H. by rewrite Hn in H.
Qed.

(** The two halves of the validator are that table. *)
Lemma validate_record_spec r : validate_record r = None <-> valid_record r.
Proof.
  assert (forall b, is_empty b = true <-> b = []) as He by (intros; apply bool_decide_eq_true).
  assert (forall b, is_empty b = false <-> b <> []) as Hne by (intros; apply bool_decide_eq_false).
  unfold validate_record, valid_record, state_of. destruct (journal_state_from_code _) as [s|].
  2:{ split; [done|]. by intros (_ & _ & _ & s & ? & _). }
  split.
  - intros H. destruct (required_fields s r) eqn:Hr; [done|]. unfold required_fields in Hr.
    destruct (negb (len (cj_group_id r) =? 32)) eqn:Hg; [done|].
    destruct (negb (len (cj_actor_node_id r) =? 32)) eqn:Ha; [done|].
    destruct (negb (len (cj_client_id r) =? 16)) eqn:Hc; [done|]. boolean_facts.
    split_and!; try done. exists s. split; [done|].
    destruct s; simpl in Hr, H |- *; unfold holds_entry; repeat case_match; try done; boolean_facts;
      rewrite ?He, ?Hne in *; auto 10.
  - intros (Hg & Ha & Hc & s' & [= <-] & Hf). unfold required_fields. rewrite Hg, Ha, Hc. simpl.
    destruct s; simpl in Hf |- *; [|destruct Hf as [(Hh & Hq & Hm) Hf]; rewrite Hh, (proj2 (Hne _) Hq), (proj2 (Hne _) Hm); simpl..|done].
    + destruct Hf as (-> & -> & -> & -> & -> & ->). done.
    + destruct Hf as (-> & -> & ->). done.
    + destruct Hf as [Ho Ht]. rewrite (owned_nonempty _ _ Ho). simpl. rewrite bool_decide_eq_false_2 by done.
      destruct (cj_retirement_confirmed r); simpl; [by rewrite Ht|by rewrite Ht].
    + destruct Hf as (-> & Ho & ->). by rewrite (opener_nonempty _ _ Ho), Ho.
    + destruct Hf as (-> & Ho & ->). by rewrite (opener_nonempty _ _ Ho), Ho.
Qed.

Lemma valid_state r s : valid_record r -> state_of r = Some s -> state_fields s r.
Proof. intros (_ & _ & _ & s' & Hs & Hf) Hs'. congruence. Qed.

(** Every write of a valid record is valid. *)
Lemma writes_valid r next : valid_record r -> writes r next -> valid_record next.
Proof.
  intros Hv Hw. pose proof (valid_state r) as Hst. destruct Hv as (Hg & Ha & Hc & s & Hs & Hf).
  assert (forall st, state_of r = Some st -> state_fields st r) as Hst' by (intros; apply Hst; [|done]; by split_and!; eauto).
  destruct Hw as [m q h Hr Hm Hq Hh|reply Hr Ho|Hr Hconf|refusal Hr Ho|Hr| |fresh Hr Hlen Hne];
    (split_and!; [done..|]).
  - destruct (Hst' _ Hr) as (_ & _ & _ & _ & Ht & _). exists JS_Pending. split; [done|]. by split_and!.
  - exists JS_ResolvedAwaitingAck. split; [done|].
    destruct Hr as [Hr|Hr]; destruct (Hst' _ Hr) as (He & _ & Ht & Hcf); simpl.
    + split_and!; [done|done|]. by rewrite Hcf.
    + split_and!; [done|done|]. by rewrite Hcf.
  - destruct (Hst' _ Hr) as (_ & _ & Ht). rewrite Hconf in Ht. exists JS_Ready. split; [done|]. by split_and!.
  - destruct (Hst' _ Hr) as (He & Hrep & _). exists JS_Closing. split; [done|]. by split_and!.
  - destruct (Hst' _ Hr) as (He & Hrep & Ho & _). exists JS_ReplayAfterRetire. split; [done|]. by split_and!.
  - exists JS_FatalJournal. done.
  - exists JS_Ready. split; [done|]. by split_and!.
Qed.

(** ** What a record says about the past *)

(** A record is up to date with what was observed: under its client id no
    request or result is of a later sequence; the request sent under its own
    sequence is its entry; and the result delivered for it is the one it
    holds, or it is over. *)
Record knows (evs : list JournalEvent) (r : ClientJournalV1) : Prop := {
  kn_sent s m q h : EV_Send (cj_client_id r) s m q h ∈ evs ->
    s <= cj_sequence r /\
    (s = cj_sequence r -> forall st, state_of r = Some st -> has_entry st = true ->
       EV_Send (cj_client_id r) s m q h = entry_event r);
  kn_delivered token reply : EV_Deliver token reply ∈ evs -> at_client_id token = cj_client_id r ->
    at_sequence token <= cj_sequence r /\
    (at_sequence token = cj_sequence r -> forall st, state_of r = Some st ->
       st = JS_Ready \/ st = JS_FatalJournal \/
       (st = JS_ResolvedAwaitingAck /\ reply = cj_resolved_reply r));
}.

(** No event names a client id. *)
Definition unseen (evs : list JournalEvent) (id : bytes) : Prop :=
  (forall s m q h, EV_Send id s m q h ∉ evs) /\
  (forall token reply, EV_Deliver token reply ∈ evs -> at_client_id token <> id).

Lemma unseen_knows evs r : unseen evs (cj_client_id r) -> knows evs r.
Proof. intros [Hs Hd]. split; [intros ???? H; by destruct (Hs _ _ _ _ H)|intros ?? H ?; by destruct (Hd _ _ H)]. Qed.

Lemma writes_knows evs r next :
  knows evs r -> writes r next -> cj_sequence r + 1 < U64_MODULUS ->
  (cj_client_id next <> cj_client_id r -> unseen evs (cj_client_id next)) -> knows evs next.
Proof.
  intros [Hs Hd] Hw Hlt Hfresh.
  destruct Hw as [m q h Hr Hm Hq Hh|reply Hr Ho|Hr Hconf|refusal Hr Ho|Hr| |fresh Hr Hlen Hne].
  - split; simpl; rewrite u64_add_small by done.
    + intros s ??? H%Hs. destruct H. split; [lia|]. intros ->. lia.
    + intros tk rep Hin Hid. destruct (Hd _ _ Hin Hid). split; [lia|]. intros Heq. lia.
  - assert (forall tk rep, EV_Deliver tk rep ∈ evs -> at_client_id tk = cj_client_id r ->
      at_sequence tk = cj_sequence r -> False) as Hnone.
    { intros tk rep Hin Hid Heq. destruct (Hd _ _ Hin Hid) as [_ H].
      destruct Hr as [Hr|Hr]; destruct (H Heq _ Hr) as [?|[?|[? _]]]; done. }
    split; simpl.
    + intros s ??? H. destruct (Hs _ _ _ _ H) as [Hle He]. split; [done|]. intros -> _ _ _.
      destruct Hr as [Hr|Hr]; exact (He eq_refl _ Hr eq_refl).
    + intros tk rep Hin Hid. destruct (Hd _ _ Hin Hid). split; [done|]. intros Heq. by destruct (Hnone _ _ Hin Hid Heq).
  - split; simpl.
    + intros s ??? H. destruct (Hs _ _ _ _ H) as [Hle _]. split; [done|]. by intros _ st [= <-].
    + intros tk rep Hin Hid. destruct (Hd _ _ Hin Hid). split; [done|]. intros _ st [= <-]. by left.
  - split; simpl.
    + intros s ??? H. destruct (Hs _ _ _ _ H) as [Hle He]. split; [done|]. intros -> _ _ _.
      exact (He eq_refl _ Hr eq_refl).
    + intros tk rep Hin Hid. destruct (Hd _ _ Hin Hid) as [Hle H]. split; [done|]. intros Heq st _.
      destruct (H Heq _ Hr) as [?|[?|[? _]]]; done.
  - split; simpl.
    + intros s ??? H. destruct (Hs _ _ _ _ H) as [Hle He]. split; [done|]. intros -> _ _ _.
      exact (He eq_refl _ Hr eq_refl).
    + intros tk rep Hin Hid. destruct (Hd _ _ Hin Hid) as [Hle H]. split; [done|]. intros Heq st _.
      destruct (H Heq _ Hr) as [?|[?|[? _]]]; done.
  - split; simpl.
    + intros s ??? H. destruct (Hs _ _ _ _ H) as [Hle _]. split; [done|]. by intros _ st [= <-].
    + intros tk rep Hin Hid. destruct (Hd _ _ Hin Hid). split; [done|]. intros _ st [= <-]. by right; left.
  - by apply unseen_knows, Hfresh.
Qed.

(** Sending and delivering, seen from the record in memory and from the file,
    which is that record or one write ahead. *)
Lemma knows_quiet evs es r :
  (forall c s m q h, EV_Send c s m q h ∉ es) -> (forall tk rep, EV_Deliver tk rep ∉ es) ->
  knows evs r -> knows (evs ++ es) r.
Proof.
  intros Hs Hd [Ks Kd]. split.
  - intros s m q h [H|H]%elem_of_app; [by apply Ks|by destruct (Hs _ _ _ _ _ H)].
  - intros tk rep [H|H]%elem_of_app; [by apply Kd|by destruct (Hd _ _ H)].
Qed.

Lemma send_knows evs r d :
  state_of r = Some JS_Pending \/ state_of r = Some JS_ReplayAfterRetire ->
  d = r \/ writes r d -> knows evs d -> knows (evs ++ [entry_event r]) d.
Proof.
  intros Hst Hd [Ks Kd].
  assert (cj_client_id d = cj_client_id r /\ entry_event d = entry_event r) as [Hc He].
  { destruct Hd as [->|[| | | | | |]]; try done; destruct Hst; congruence. }
  split.
  - intros s m q h [H|H%list_elem_of_singleton]%elem_of_app; [by apply Ks|].
    rewrite <- He in H. unfold entry_event in H. injection H as -> -> -> ->. done.
  - intros tk rep [H|H%list_elem_of_singleton]%elem_of_app; [by apply Kd|done].
Qed.

Lemma deliver_knows evs r d :
  state_of r = Some JS_ResolvedAwaitingAck -> d = r \/ writes r d -> knows evs d ->
  knows (evs ++ [EV_Deliver (token_of r) (cj_resolved_reply r)]) d.
Proof.
  intros Hst Hd [Ks Kd]. split.
  - intros s m q h [H|H%list_elem_of_singleton]%elem_of_app; [by apply Ks|done].
  - intros tk rep [H|H%list_elem_of_singleton]%elem_of_app; [by apply Kd|]. injection H as -> ->. simpl.
    destruct Hd as [->|[? ? ? Hr|? [Hr|Hr]|Hr|? Hr|Hr| |? Hr ? Hne]]; try congruence; simpl.
    + intros _. split; [done|]. intros _ st Hs. rewrite Hst in Hs. injection Hs as <-. auto.
    + intros _. split; [done|]. intros _ st [= <-]. auto.
    + intros _. split; [done|]. intros _ st [= <-]. auto.
    + intros Hx. by destruct Hne.
Qed.

(** ** The invariant of a run *)

Definition bound_record (r : ClientJournalV1) : Prop :=
  cj_format_version r = JOURNAL_FORMAT_VERSION /\ cj_group_id r = group /\ cj_actor_node_id r = actor.

Record good_record (evs : list JournalEvent) (ids : list bytes) (r : ClientJournalV1) : Prop := {
  gr_valid : valid_record r;
  gr_bound : bound_record r;
  gr_knows : knows evs r;
  gr_id : cj_client_id r ∈ ids;
  gr_sequence : cj_sequence r <= len evs;
}.

Record journal_ok (evs : list JournalEvent) (ids : list bytes) (j : Journal) : Prop := {
  jk_memory : good_record evs ids (jo_record j);
  jk_disk : exists d b, jc_encode d = Some b /\ jo_disk j = Some (envelope b) /\
    (d = jo_record j \/ writes (jo_record j) d) /\ good_record evs ids d;
  jk_seen id : id ∉ ids -> unseen evs id;
}.

Lemma writes_bound r d : bound_record r -> writes r d -> bound_record d.
Proof. intros Hb []; exact Hb. Qed.

Lemma writes_id r d : writes r d -> cj_client_id d = cj_client_id r \/ d = rotated (cj_client_id d) r.
Proof. intros []; auto. Qed.

(** The file opens, and gives the record it was written from. *)
Lemma reads_back d b :
  valid_record d -> bound_record d -> jc_encode d = Some b -> read_record actor group (envelope b) = Ok d.
Proof.
  intros Hv (Hf & Hg & Ha) Hb. unfold read_record.
  rewrite (proj2 (open_envelope_exact _ b) eq_refl), (jc_decode_encode _ _ Hb), Hf, Hg, Ha. simpl.
  rewrite !bool_decide_eq_true_2 by done. simpl. by rewrite (proj2 (validate_record_spec d) Hv).
Qed.

Lemma ok_opens evs ids j fault fresh :
  journal_ok evs ids j ->
  exists d b, jc_encode d = Some b /\ jo_disk j = Some (envelope b) /\ good_record evs ids d /\
    open fault actor group fresh (jo_disk j) = inl (mk_Journal (Some (envelope b)) d None).
Proof.
  intros [_ (d & b & Hb & Hdisk & _ & Hg) _]. exists d, b. split_and!; try done. rewrite Hdisk. unfold open.
  by rewrite (reads_back d b (gr_valid _ _ _ Hg) (gr_bound _ _ _ Hg) Hb).
Qed.

Lemma good_quiet evs ids es r :
  (forall c s m q h, EV_Send c s m q h ∉ es) -> (forall tk rep, EV_Deliver tk rep ∉ es) ->
  good_record evs ids r -> good_record (evs ++ es) (ids ++ minted es) r.
Proof.
  intros Hs Hd [Hv Hb Hk Hi Hn]. split; try done; [by apply knows_quiet|apply elem_of_app; by left|].
  unfold len in *. rewrite length_app. lia.
Qed.

Lemma minted_elem evs id : id ∈ minted evs <-> EV_Mint id ∈ evs.
Proof.
  unfold minted. rewrite list_elem_of_omap. split.
  - intros ([] & H & [= ->]). done.
  - intros H. by exists (EV_Mint id).
Qed.

(** A write with quiet events keeps the invariant. *)
Lemma move_ok evs ids es j j' :
  journal_ok evs ids j -> moved es j j' ->
  (forall c s m q h, EV_Send c s m q h ∉ es) -> (forall tk rep, EV_Deliver tk rep ∉ es) ->
  (forall id, EV_Mint id ∈ es -> id ∉ ids) -> len evs + 1 < U64_MODULUS ->
  journal_ok (evs ++ es) (ids ++ minted es) j'.
Proof.
  intros [Hm (d & b & Hb & Hdisk & Hfol & Hd) Hseen] Hmv Hs Hdv Hmint Hlt.
  assert (forall id, id ∉ ids ++ minted es -> unseen (evs ++ es) id) as Hseen'.
  { intros id Hid. destruct (Hseen id) as [U1 U2]; [intros H; apply Hid, elem_of_app; by left|]. split.
    - intros s m q h [H|H]%elem_of_app; [by destruct (U1 _ _ _ _ H)|by destruct (Hs _ _ _ _ _ H)].
    - intros tk rep [H|H]%elem_of_app; [eauto|by destruct (Hdv _ _ H)]. }
  destruct Hmv as [[Hrec Hdk]|(next & nb & Hw & Hsq & Hid & Hnb & Hdk & Hrec)].
  { split; [rewrite Hrec; by apply good_quiet| |done]. exists d, b. rewrite Hrec, Hdk.
    split_and!; try done. by apply good_quiet. }
  pose proof (gr_sequence _ _ _ Hm) as Hseq.
  assert (good_record (evs ++ es) (ids ++ minted es) next) as Hnext.
  { split.
    - eapply writes_valid; [apply Hm|done].
    - eapply writes_bound; [apply Hm|done].
    - apply knows_quiet; [done..|]. eapply writes_knows; [apply Hm|done|lia|].
      intros Hne. destruct Hid as [?|Hid]; [done|]. apply Hseen. by apply Hmint.
    - apply elem_of_app. destruct Hid as [->|Hid]; [left; apply Hm|right; by apply minted_elem].
    - unfold len in *. rewrite length_app. lia. }
  destruct Hrec as [Hrec|Hrec]; split; try done; rewrite Hrec; try done; try (by apply good_quiet);
    exists next, nb; split_and!; auto.
Qed.

(** An event about the current entry keeps it. *)
Lemma event_ok evs ids e j :
  journal_ok evs ids j ->
  (forall d, d = jo_record j \/ writes (jo_record j) d -> knows evs d -> knows (evs ++ [e]) d) ->
  (forall id, unseen evs id -> id <> cj_client_id (jo_record j) -> unseen (evs ++ [e]) id) ->
  minted [e] = [] -> journal_ok (evs ++ [e]) (ids ++ minted [e]) j.
Proof.
  intros [Hm (d & b & Hb & Hdisk & Hfol & Hd) Hseen] Hk Hu ->. rewrite app_nil_r.
  assert (forall r, r = jo_record j \/ writes (jo_record j) r -> good_record evs ids r ->
    good_record (evs ++ [e]) ids r) as Hg.
  { intros r Hr [Hv Hbd Hkn Hi Hn]. split; try done; [by apply Hk|]. unfold len in *. rewrite length_app. lia. }
  split; [apply Hg; [by left|done]| |].
  - exists d, b. split_and!; auto.
  - intros id Hid. apply Hu; [by apply Hseen|]. intros ->. apply Hid. apply Hm.
Qed.

Lemma token_event_unseen evs r reply id :
  unseen evs id -> id <> cj_client_id r -> unseen (evs ++ [EV_Deliver (token_of r) reply]) id.
Proof.
  intros [U1 U2] Hne. split.
  - intros s m q h [H|H%list_elem_of_singleton]%elem_of_app; [by destruct (U1 _ _ _ _ H)|done].
  - intros tk rep [H|H%list_elem_of_singleton]%elem_of_app; [eauto|]. injection H as -> ->. simpl. congruence.
Qed.

Lemma deliver_ok evs ids j :
  journal_ok evs ids j -> state_of (jo_record j) = Some JS_ResolvedAwaitingAck ->
  let e := EV_Deliver (token_of (jo_record j)) (cj_resolved_reply (jo_record j)) in
  journal_ok (evs ++ [e]) (ids ++ minted [e]) j.
Proof.
  intros Hok Hst e. apply event_ok; [done| |by intros; apply token_event_unseen|done].
  intros d Hd. by apply deliver_knows.
Qed.

Lemma send_ok evs ids j :
  journal_ok evs ids j ->
  in_state JS_Pending j || in_state JS_ReplayAfterRetire j = true ->
  journal_ok (evs ++ [entry_event (jo_record j)]) (ids ++ minted [entry_event (jo_record j)]) j.
Proof.
  intros Hok Hst. rewrite orb_true_iff, !in_state_spec in Hst. apply event_ok; [done| | |done].
  - intros d Hd. by apply send_knows.
  - intros id [U1 U2] Hne. split.
    + intros s m q h [H|H%list_elem_of_singleton]%elem_of_app; [by destruct (U1 _ _ _ _ H)|].
      injection H as -> _ _ _ _. done.
    + intros tk rep [H|H%list_elem_of_singleton]%elem_of_app; [eauto|done].
Qed.

Ltac quiet :=
  repeat intro;
  match goal with
  | H : _ ∈ [] |- _ => by apply elem_of_nil in H
  | H : _ ∈ [_] |- _ => by apply list_elem_of_singleton in H
  end.

(** A resolution that returns has moved the journal to the resolved record. *)
Lemma resolve_Ok fault reply j token j' :
  resolve_entry fault reply j = (Ok token, j') ->
  moved [] j j' /\ state_of (jo_record j') = Some JS_ResolvedAwaitingAck /\
  token = token_of (jo_record j') /\ reply = cj_resolved_reply (jo_record j').
Proof.
  unfold resolve_entry. intros H. destruct (_ && _) eqn:Hs; [done|]. case_bool_decide as Ho; [done|].
  assert (writes (jo_record j) (resolved reply (jo_record j))) as Hw.
  { constructor; [|done].
    apply andb_false_iff in Hs as [Hs|Hs]; apply negb_false_iff, in_state_spec in Hs; auto. }
  pose proof (persist_moved [] fault _ j Hw ltac:(simpl; lia) ltac:(by left)) as Hm.
  unfold persist in H, Hm. destruct (jc_encode _); [|done]. destruct fault; [|done..].
  injection H as <- <-. done.
Qed.

Lemma step_ok evs ids j es j' :
  journal_ok evs ids j -> journal_step j es j' ->
  (forall id, EV_Mint id ∈ es -> id ∉ ids) -> len evs + 1 < U64_MODULUS ->
  journal_ok (evs ++ es) (ids ++ minted es) j'.
Proof.
  intros Hok Hstep Hmint Hlt.
  assert (forall id, EV_Mint id ∈ es -> id <> cj_client_id (jo_record j)) as Hne.
  { intros id Hid ->. apply (Hmint _ Hid), (gr_id _ _ _ (jk_memory _ _ _ Hok)). }
  pose proof (step_moved j es j' Hstep Hne) as Hmv.
  assert (forall fault fresh, open fault actor group fresh (jo_disk j) = inl j' ->
    (forall c s m q h, EV_Send c s m q h ∉ es) -> (forall tk rep, EV_Deliver tk rep ∉ es) ->
    journal_ok (evs ++ es) (ids ++ minted es) j') as Hopen.
  { intros fault fresh Ho Hs Hd. destruct (ok_opens evs ids j fault fresh Hok) as (d & b & Hb & Hdisk & Hg & Ho').
    rewrite Ho in Ho'. injection Ho' as ->. pose proof (good_quiet _ _ es d Hs Hd Hg) as Hg'.
    assert (moved es j j) as Hsame by by left.
    destruct (move_ok _ _ _ _ _ Hok Hsame Hs Hd Hmint Hlt) as [_ _ Hseen].
    split; [done| |done]. exists d, b. split_and!; auto. }
  assert ((forall c s m q h, EV_Send c s m q h ∉ es) -> (forall tk rep, EV_Deliver tk rep ∉ es) ->
    journal_ok (evs ++ es) (ids ++ minted es) j') as Hquiet.
  { intros Hs Hd. destruct Hmv as [Hmv|(fault & fresh & Ho)]; [by eapply move_ok|eauto]. }
  destruct Hstep as [| | fault reply|reply token Hu|fault token| | | |fault token fresh Hf| |];
    try (apply Hquiet; quiet).
  - by apply send_ok.
  - destruct (resolve_entry fault reply j) as [[token|e] j'] eqn:Hr; simpl in *;
      [|apply Hquiet; quiet].
    destruct (resolve_Ok _ _ _ _ _ Hr) as (Hm & Hst & -> & ->).
    assert (journal_ok evs ids j') as Hok'.
    { rewrite <- (app_nil_r evs), <- (app_nil_r ids).
      apply (move_ok evs ids [] j j' Hok Hm); [quiet..|done]. }
    by apply deliver_ok.
  - unfold unacknowledged in Hu. destruct (in_state _ j) eqn:Hst; [|done]. injection Hu as <- <-.
    apply deliver_ok; [done|by apply in_state_spec].
Qed.

(** What a step sends is the saved entry of a state that holds one. *)
Lemma step_sends j es j' c s m q h :
  journal_step j es j' -> EV_Send c s m q h ∈ es ->
  (exists st, state_of (jo_record j) = Some st /\ has_entry st = true) /\
  EV_Send c s m q h = entry_event (jo_record j).
Proof.
  intros Hstep Hin. destruct Hstep as [| Hst| fault reply| | | | | | | |];
    try (by apply list_elem_of_singleton in Hin); try (by apply elem_of_nil in Hin).
  - apply list_elem_of_singleton in Hin. split; [|done].
    rewrite orb_true_iff, !in_state_spec in Hst. destruct Hst; eauto.
  - destruct (resolve_entry fault reply j).1; [by apply list_elem_of_singleton in Hin|by apply elem_of_nil in Hin].
Qed.

(** ** Runs from a first use *)

Section runs.
Variable first_id : bytes.
Hypothesis group_width : len group = 32.
Hypothesis actor_width : len actor = 32.
Hypothesis first_width : len first_id = 16.

Lemma first_use_ok j0 :
  open F_None actor group first_id None = inl j0 -> journal_ok [] [first_id] j0.
Proof.
  unfold open. destruct (jc_encode _) as [b|] eqn:Hb; [|done]. intros [= <-].
  assert (forall id, unseen [] id) as Hu.
  { intros id. split; [intros ????; apply not_elem_of_nil|]. intros ?? H. by apply elem_of_nil in H. }
  assert (good_record [] [first_id] (fresh_record actor group first_id)) as Hg.
  { split; [|done|by apply unseen_knows|left|by apply N.le_0_l]. split_and!; try done.
    exists JS_Ready. split; [done|]. by split_and!. }
  split; [done| |done]. exists (fresh_record actor group first_id), b. split_and!; auto.
Qed.

Lemma run_ok j0 evs j :
  open F_None actor group first_id None = inl j0 -> journal_run j0 evs j ->
  base.NoDup (first_id :: minted evs) -> len evs + 1 < U64_MODULUS ->
  journal_ok evs (first_id :: minted evs) j.
Proof.
  intros H0 Hrun. induction Hrun as [|evs j es j' Hrun IH Hstep]; intros Hnd Hlt; [by apply first_use_ok|].
  unfold minted in Hnd |- *. rewrite omap_app in Hnd |- *. fold (minted evs) (minted es) in *.
  rewrite app_comm_cons in Hnd |- *. apply list.NoDup_app in Hnd as (Hnd & Hdisj & _).
  unfold len in Hlt. rewrite length_app in Hlt. apply (step_ok _ _ _ _ _ (IH Hnd ltac:(unfold len; lia)) Hstep).
  - intros id Hid Hin. apply (Hdisj _ Hin). by apply minted_elem.
  - unfold len. lia.
Qed.
End runs.
End safety.

(** C38: the journal never locks itself out: after any run of calls, each write
    failing before or after its commit point or not at all, with the process
    dying and reopening at any moment, the file opens again under the same
    group and actor, and gives the record in memory or the one an interrupted
    write was writing from it, which passes every rule of the validator. *)
Theorem journal_always_reopens `{JournalCodec} {Laws : JournalCodecLaws} actor group first_id j0 evs j
    fault fresh :
  len group = 32 -> len actor = 32 -> len first_id = 16 ->
  open F_None actor group first_id None = inl j0 -> journal_run actor group j0 evs j ->
  base.NoDup (first_id :: minted evs) -> len evs + 1 < U64_MODULUS ->
  exists j', open fault actor group fresh (jo_disk j) = inl j' /\
    (jo_record j' = jo_record j \/ writes (jo_record j) (jo_record j')) /\
    validate_record (jo_record j') = None.
Proof.
  intros Hg Ha Hf H0 Hrun Hnd Hlt.
  destruct (run_ok actor group first_id Hg Ha Hf j0 evs j H0 Hrun Hnd Hlt) as [_ (d & b & Hb & Hdisk & Hfol & Hgood) _].
  exists (mk_Journal (jo_disk j) d None). rewrite Hdisk. unfold open.
  rewrite (reads_back actor group d b (gr_valid _ _ _ _ _ Hgood) (gr_bound _ _ _ _ _ Hgood) Hb). simpl.
  split_and!; [done|done|]. apply validate_record_spec, Hgood.
Qed.

(** One sequence number is one request: in any run, with failing writes and
    restarts anywhere, whatever is sent under one client id and one sequence is
    the same method, the same bytes and the same hash, provided minted client ids
    are fresh. *)
Lemma one_request_per_sequence `{JournalCodec} {Laws : JournalCodecLaws} actor group first_id j0 evs j
    client_id sequence m q h m' q' h' :
  len group = 32 -> len actor = 32 -> len first_id = 16 ->
  open F_None actor group first_id None = inl j0 -> journal_run actor group j0 evs j ->
  base.NoDup (first_id :: minted evs) -> len evs + 1 < U64_MODULUS ->
  EV_Send client_id sequence m q h ∈ evs -> EV_Send client_id sequence m' q' h' ∈ evs ->
  m = m' /\ q = q' /\ h = h'.
Proof.
  intros Hg Ha Hf H0 Hrun. induction Hrun as [|evs j es j' Hrun IH Hstep]; intros Hnd Hlt S1 S2;
    [by apply elem_of_nil in S1|].
  assert (base.NoDup (first_id :: minted evs) /\ len evs + 1 < U64_MODULUS) as [Hnd' Hlt'].
  { unfold minted in Hnd. rewrite omap_app, app_comm_cons in Hnd.
    apply list.NoDup_app in Hnd as (Hnd & _). unfold len in *. rewrite length_app in Hlt. split; [done|lia]. }
  pose proof (run_ok actor group first_id Hg Ha Hf j0 evs j H0 Hrun Hnd' Hlt') as Hok.
  pose proof (λ c s x y z, step_sends actor group j es j' c s x y z Hstep) as Hsend.
  apply elem_of_app in S1 as [S1|S1], S2 as [S2|S2].
  - by apply IH.
  - destruct (Hsend _ _ _ _ _ S2) as [Hst E2]. injection E2 as -> -> -> -> ->.
    destruct (kn_sent _ _ (gr_knows _ _ _ _ _ (jk_memory _ _ _ _ _ Hok)) _ _ _ _ S1) as [_ He].
    destruct Hst as (st & Hst & Hent). specialize (He eq_refl st Hst Hent). by injection He as -> -> ->.
  - destruct (Hsend _ _ _ _ _ S1) as [Hst E1]. injection E1 as -> -> -> -> ->.
    destruct (kn_sent _ _ (gr_knows _ _ _ _ _ (jk_memory _ _ _ _ _ Hok)) _ _ _ _ S2) as [_ He].
    destruct Hst as (st & Hst & Hent). specialize (He eq_refl st Hst Hent). by injection He as -> -> ->.
  - destruct (Hsend _ _ _ _ _ S1) as [_ E1], (Hsend _ _ _ _ _ S2) as [_ E2].
    injection E1 as _ _ -> -> ->. by injection E2 as _ _ -> -> ->.
Qed.

(** An acknowledgement settles the result it was given: when [acknowledge] or
    [rotate] accepts a token, every result delivered under that token, in this
    process or before a restart, is the one the journal holds, and the journal
    was awaiting exactly that acknowledgement. *)
Theorem acknowledgement_settles_its_result `{JournalCodec} {Laws : JournalCodecLaws} actor group first_id
    j0 evs j fault token fresh j' reply :
  len group = 32 -> len actor = 32 -> len first_id = 16 ->
  open F_None actor group first_id None = inl j0 -> journal_run actor group j0 evs j ->
  base.NoDup (first_id :: minted evs) -> len evs + 1 < U64_MODULUS ->
  acknowledge fault token j = (Ok (), j') \/ rotate fault token fresh j = (Ok (), j') ->
  EV_Deliver token reply ∈ evs ->
  unacknowledged j = Some (reply, token) /\ journal_state j' = Some JS_Ready.
Proof.
  intros Hg Ha Hf H0 Hrun Hnd Hlt Hack Hdel.
  pose proof (run_ok actor group first_id Hg Ha Hf j0 evs j H0 Hrun Hnd Hlt) as Hok.
  assert (in_state JS_ResolvedAwaitingAck j = true /\ token_of (jo_record j) = token /\
    journal_state j' = Some JS_Ready) as (Hst & <- & Hr).
  { unfold acknowledge, rotate, persist in Hack.
    destruct Hack as [Hack|Hack]; (destruct (in_state JS_ResolvedAwaitingAck j) eqn:Hin; [|done]);
      simpl in Hack; repeat case_match; simplify_eq; boolean_facts; done. }
  split; [|done]. unfold unacknowledged. rewrite Hst. apply in_state_spec in Hst.
  destruct (kn_delivered _ _ (gr_knows _ _ _ _ _ (jk_memory _ _ _ _ _ Hok)) _ _ Hdel eq_refl) as [_ He].
  destruct (He eq_refl _ Hst) as [?|[?|[_ ->]]]; done.
Qed.

(** ** A run through a failed write and a restart *)

#[local] Instance ClientJournalV1_eq_dec : EqDecision ClientJournalV1.
Proof. solve_decision. Defined.

Definition sample_actor : bytes := replicate 32 Byte.x07.
Definition sample_group : bytes := replicate 32 Byte.x05.
Definition sample_client : bytes := replicate 16 Byte.x02.
Definition sample_hash : bytes := replicate 32 Byte.x11.
Definition record0 : ClientJournalV1 := fresh_record sample_actor sample_group sample_client.
Definition record1 : ClientJournalV1 := begun 1 [Byte.x6d] [Byte.x72] sample_hash record0.
Definition record2 : ClientJournalV1 := resolved [Byte.x79] record1.
Definition record3 : ClientJournalV1 := acknowledged record2.
Definition sample_reply : MutationReplyWireV1 :=
  mk_MutationReplyWireV1 1 sample_group sample_client 1 sample_hash 1 0 0 None 0 0 None None.

(** A codec for the records of the run. *)
#[local] Instance sample_codec : JournalCodec := {
  jc_encode r :=
    if decide (r = record0) then Some [Byte.x00] else if decide (r = record1) then Some [Byte.x01]
    else if decide (r = record2) then Some [Byte.x02] else if decide (r = record3) then Some [Byte.x03]
    else None;
  jc_decode b :=
    match b with
    | [Byte.x00] => Some record0 | [Byte.x01] => Some record1
    | [Byte.x02] => Some record2 | [Byte.x03] => Some record3 | _ => None
    end;
  jc_decode_reply b := match b with [] => None | _ => Some sample_reply end;
  jc_blake3 _ := replicate 32 Byte.x05;
  validate_mutation_reply _ _ := true;
}.
#[local] Instance sample_codec_laws : JournalCodecLaws.
Proof.
  split; [|done|done]. intros r b. unfold jc_encode, jc_decode, sample_codec.
  repeat (destruct (decide _) as [->|_]; [by intros [= <-]|]). done.
Qed.

(** The run: the entry is begun and sent, the write of its result fails after
    its rename, the request is sent again, the process restarts and redelivers
    the result. *)
Definition file_of (n : byte) : option bytes := Some (envelope [n]).
Definition journal0 : Journal := mk_Journal (file_of Byte.x00) record0 None.
Definition journal1 : Journal := mk_Journal (file_of Byte.x01) record1 None.
Definition journal1' : Journal := mk_Journal (file_of Byte.x02) record1 None.
Definition journal2 : Journal := mk_Journal (file_of Byte.x02) record2 None.
Definition sample_events : list JournalEvent :=
  [EV_Begin 1; entry_event record1; entry_event record1; EV_Deliver (token_of record2) [Byte.x79]].

Lemma sample_opens : open F_None sample_actor sample_group sample_client None = inl journal0.
Proof. vm_compute. reflexivity. Qed.

Lemma sample_run : journal_run sample_actor sample_group journal0 sample_events journal2.
Proof.
  assert (journal_run sample_actor sample_group journal0 [EV_Begin 1] journal1) as R1.
  { apply (JR_step _ _ _ [] journal0 [EV_Begin 1]); [constructor|].
    change journal1 with (begin F_None 1 [Byte.x6d] [Byte.x72] sample_hash journal0).2. by constructor. }
  assert (journal_run sample_actor sample_group journal0 [EV_Begin 1; entry_event record1] journal1) as R2.
  { apply (JR_step _ _ _ [EV_Begin 1] journal1 [entry_event record1]); [done|].
    change record1 with (jo_record journal1). by constructor. }
  assert (journal_run sample_actor sample_group journal0 [EV_Begin 1; entry_event record1] journal1') as R3.
  { apply (JR_step _ _ _ [EV_Begin 1; entry_event record1] journal1 []); [done|].
    exact (ST_resolve sample_actor sample_group journal1 F_AfterRename [Byte.x79]). }
  assert (journal_run sample_actor sample_group journal0
    [EV_Begin 1; entry_event record1; entry_event record1] journal1') as R4.
  { apply (JR_step _ _ _ [EV_Begin 1; entry_event record1] journal1' [entry_event record1]); [done|].
    change record1 with (jo_record journal1'). by constructor. }
  assert (journal_run sample_actor sample_group journal0
    [EV_Begin 1; entry_event record1; entry_event record1] journal2) as R5.
  { apply (JR_step _ _ _ [EV_Begin 1; entry_event record1; entry_event record1] journal1' []); [done|].
    apply (ST_restart _ _ _ F_None sample_client). vm_compute. reflexivity. }
  apply (JR_step _ _ _ [EV_Begin 1; entry_event record1; entry_event record1] journal2
    [EV_Deliver (token_of record2) [Byte.x79]]); [done|]. by constructor.
Qed.

Lemma journal_always_reopens_witness :
  exists j', open F_None sample_actor sample_group sample_client (jo_disk journal2) = inl j' /\
    validate_record (jo_record j') = None.
Proof.
  destruct (journal_always_reopens sample_actor sample_group sample_client journal0 sample_events journal2
    F_None sample_client eq_refl eq_refl eq_refl sample_opens sample_run) as (j' & Ho & _ & Hv).
  - constructor; [apply not_elem_of_nil|constructor].
  - vm_compute. reflexivity.
  - exists j'. split; [exact Ho|exact Hv].
Defined.

Lemma acknowledgement_settles_its_result_witness :
  unacknowledged journal2 = Some ([Byte.x79], token_of record2) /\
  journal_state (mk_Journal (file_of Byte.x03) record3 None) = Some JS_Ready.
Proof.
  apply (acknowledgement_settles_its_result sample_actor sample_group sample_client journal0 sample_events
    journal2 F_None (token_of record2) sample_client (mk_Journal (file_of Byte.x03) record3 None) [Byte.x79]
    eq_refl eq_refl eq_refl sample_opens sample_run).
  - constructor; [apply not_elem_of_nil|constructor].
  - vm_compute. reflexivity.
  - left. vm_compute. reflexivity.
  - right. right. right. left.
Defined.
