(* ===== verification/Delivery.v ===== *)
(** * A mutation is applied once

    The client's journal and the server's sessions together: whatever the journal
    resends, after failed writes and restarts on the client and through any log
    on the server, an entry consumed once is never applied again, and its resend
    is answered with the first reply. *)

From S2P Require Import Prelude Reason Ids Contract Externals Limits State Tables Classify.
From S2P Require Import Ticket Authority Shape Genesis Resource Grant Retire.
From S2P Require Import Membership Apply Wire Boundary Changes Durable Scenario Invariant.
From S2P Require Import Steps Refinement Leases Sessions Journal JournalSafety.

#[local] Open Scope N_scope.

Section delivery.
Context `{Ext : Externals}.

(** An entry holding one client command. *)
Definition client_entry (log_id : LogId) (client : ClientRef) (action : Action) : list (LogId * Payload) :=
  [(log_id, P_Normal (C_Client client action))].

(** What applying it does is what [apply_client] does. *)
Lemma client_entry_applied log_id client action d t replies d' t' :
  apply_batch (client_entry log_id client action) d t = Ok (replies, d', t') ->
  let out := apply_client log_id client action (mk_Tx (ds_model d) ChangeSet_default) in
  replies = [ER_Command (CR_Client out.1)] /\
  ds_model d' = set_last_applied (Some log_id) (tx_state out.2).
Proof.
  unfold client_entry, apply_batch, apply_entries, apply_entry, apply_command_recording. simpl.
  destruct (guard_delivery _ _); [|done].
  destruct (apply_client log_id client action _) as [r tx]. by intros [= <- <- _].
Qed.

Lemma set_last_applied_only log_id s s' :
  only_audited s s' -> only_audited s (set_last_applied (Some log_id) s').
Proof. intros [[] Hs]. split; [by split|exact Hs]. Qed.

(** A consumed number is behind its client for good. *)
Lemma consumed_row log_id client action tx :
  let out := apply_client log_id client action tx in
  clr_disposition out.1 = Consumed -> clr_replayed out.1 = false ->
  cr_sequence client <> 0 /\
  st_sessions (tx_state out.2) !! client_key client
    = Some (mk_Session (cr_sequence client) (cr_request_hash client) (Some (clr_reply out.1)) false).
Proof.
  intros out Hd Hr. unfold out in *.
  destruct (classify_client (tx_state tx) client) as [row creates|row saved|row reason] eqn:Hc.
  - destruct (apply_client_fresh log_id client action tx _ _ Hc) as [_ Hs]. rewrite Hs, lookup_insert_eq.
    split; [|done]. rewrite (unresolved_sequence _ _ _ _ Hc). lia.
  - rewrite (proj1 (apply_client_replay log_id client action tx _ _ Hc)) in Hr. done.
  - rewrite (proj1 (apply_client_refuse log_id client action tx _ _ Hc)) in Hd. done.
Qed.

(** A command at an answered number, met at any later row of its client. *)
Lemma resend_answered log_id client action tx row reply :
  st_sessions (tx_state tx) !! client_key client = Some row -> cr_sequence client <> 0 ->
  session_advance (mk_Session (cr_sequence client) (cr_request_hash client) (Some reply) false) row ->
  let out := apply_client log_id client action tx in
  only_audited (tx_state tx) (tx_state out.2) /\
  (out.1 = mk_ClientResult Consumed reply true \/
   clr_disposition out.1 = NotConsumed /\ cr_sequence client < se_last_sequence row).
Proof.
  intros Hrow Hz [Hle Hfix _] out. simpl in Hle, Hfix. unfold out.
  destruct (classify_client (tx_state tx) client) as [crow creates|crow saved|crow reason] eqn:Hc.
  - exfalso. unfold classify_client in Hc. rewrite Hrow in Hc.
    apply classify_unresolved_iff in Hc as [(_ & _ & x & [= <-] & _ & Hq & _)|(_ & _ & Hx & _)]; [lia|done].
  - destruct (apply_client_replay log_id client action tx _ _ Hc) as [-> Ha]. split; [done|]. left.
    unfold classify_client in Hc. rewrite Hrow in Hc.
    apply classify_replay_iff in Hc as (_ & _ & x & [= <-] & Hq & _ & Hsaved).
    destruct (Hfix (eq_sym Hq)) as [_ Hres]. rewrite Hres in Hsaved. by injection Hsaved as ->.
  - destruct (apply_client_refuse log_id client action tx _ _ Hc) as [-> Ha]. split; [done|]. right. simpl.
    split; [done|]. destruct (decide (se_last_sequence row = cr_sequence client)) as [Heq|]; [exfalso|lia].
    destruct (Hfix Heq) as [Hh Hres]. unfold classify_client in Hc. rewrite Hrow in Hc.
    rewrite (proj2 (classify_replay_iff _ _ _ _ reply RowReplay)) in Hc; [done|]. split_and!; [done|done|].
    exists row. split_and!; congruence.
Qed.
End delivery.

(** C3: a journaled mutation is applied at most once and its resends get its reply.
    Take two requests the journal sent under one client id and one sequence, at
    any points of any run with failed writes and restarts; let the group consume
    the first afresh, apply any further batch, and then apply the second: the
    second changes no table but the audit trail, and is answered with the very
    reply of the first, or, once the client's session has gone past that
    sequence, with a refusal that consumes nothing. *)
Theorem journaled_mutation_applied_once `{Ext : Externals} `{JournalCodec} {Laws : JournalCodecLaws}
    actor group first_id j0 evs j client_id sequence m q h m' q' h'
    op_of_hash d t l1 a1 first d1 t1 mid replies d2 t2 l2 a2 again d3 t3 :
  len group = 32 -> len actor = 32 -> len first_id = 16 ->
  open F_None actor group first_id None = inl j0 -> journal_run actor group j0 evs j ->
  base.NoDup (first_id :: minted evs) -> len evs + 1 < U64_MODULUS ->
  EV_Send client_id sequence m q h ∈ evs -> EV_Send client_id sequence m' q' h' ∈ evs ->
  reachable op_of_hash d t ->
  log_wf op_of_hash (st_deployment_profile_code (ds_model d)) (st_last_applied (ds_model d))
    (client_entry l1 (mk_ClientRef actor client_id sequence h) a1) ->
  apply_batch (client_entry l1 (mk_ClientRef actor client_id sequence h) a1) d t
    = Ok ([ER_Command (CR_Client first)], d1, t1) ->
  clr_disposition first = Consumed -> clr_replayed first = false ->
  log_wf op_of_hash (st_deployment_profile_code (ds_model d1)) (st_last_applied (ds_model d1)) mid ->
  apply_batch mid d1 t1 = Ok (replies, d2, t2) ->
  apply_batch (client_entry l2 (mk_ClientRef actor client_id sequence h') a2) d2 t2
    = Ok ([ER_Command (CR_Client again)], d3, t3) ->
  only_audited (ds_model d2) (ds_model d3) /\
  (again = mk_ClientResult Consumed (clr_reply first) true \/
   clr_disposition again = NotConsumed /\
   exists row, st_sessions (ds_model d2) !! (actor, client_id) = Some row /\
     sequence < se_last_sequence row).
Proof.
  intros Hg Ha Hf H0 Hrun Hnd Hlt S1 S2 Hreach Hw1 A1 Hcons Hnew Hwm Am A2.
  assert (h = h') as <- by (eapply (one_request_per_sequence actor group first_id j0 evs j); eauto).
  pose proof (reach_batch _ _ _ _ _ _ _ Hreach Hw1 A1) as Hreach1.
  pose proof (batch_sessions_advance _ _ _ _ _ _ _ Hreach1 Hwm Am) as Hadv.
  destruct (client_entry_applied _ _ _ _ _ _ _ _ A1) as [E1 D1]. injection E1 as ->.
  destruct (client_entry_applied _ _ _ _ _ _ _ _ A2) as [E2 D2]. injection E2 as ->.
  destruct (consumed_row _ _ _ _ Hcons Hnew) as [Hz Hrow].
  destruct (Hadv (actor, client_id) _ ltac:(rewrite D1; exact Hrow)) as (row & Hrow2 & Hsa).
  destruct (resend_answered l2 (mk_ClientRef actor client_id sequence h) a2
    (mk_Tx (ds_model d2) ChangeSet_default) row _ Hrow2 Hz Hsa) as [Ho Hans].
  rewrite D2. split; [by apply set_last_applied_only|]. destruct Hans as [Hans|[Hn Hlt']]; [by left|right; eauto].
Qed.

(** ** A resend through a restart *)

#[local] Existing Instances sample_codec sample_codec_laws.
#[local] Instance delivery_run : Externals := founding_externals.

Definition resend_client : ClientRef := mk_ClientRef sample_actor sample_client 1 sample_hash.
Definition first_batch (d : DurableState) (t : StoredTables) :=
  apply_batch (client_entry (at_index 4) resend_client acquire) d t.
Definition blank_batch (d : DurableState) (t : StoredTables) := apply_batch [(at_index 5, P_Blank)] d t.
Definition resend_batch (d : DurableState) (t : StoredTables) :=
  apply_batch (client_entry (at_index 6) resend_client acquire) d t.

Lemma delivery_ready :
  match run_batch 3 with
  | Ok (_, d, t) =>
      (st_last_applied (ds_model d), st_deployment_profile_code (ds_model d)) = (Some (at_index 3), PROFILE_DEV_SINGLE) /\
      match first_batch d t with
      | Ok ([ER_Command (CR_Client first)], d1, t1) =>
          (clr_disposition first, clr_replayed first, st_last_applied (ds_model d1),
           st_deployment_profile_code (ds_model d1)) = (Consumed, false, Some (at_index 4), PROFILE_DEV_SINGLE) /\
          match blank_batch d1 t1 with
          | Ok (_, d2, t2) =>
              match resend_batch d2 t2 with
              | Ok ([ER_Command (CR_Client again)], _, _) => clr_disposition again = Consumed
              | _ => False
              end
          | Err _ => False
          end
      | _ => False
      end
  | Err _ => False
  end.
Proof. vm_compute. split; [reflexivity|]. split; reflexivity. Qed.

Lemma journaled_mutation_applied_once_witness :
  match run_batch 3 with
  | Ok (_, d, t) =>
      match first_batch d t with
      | Ok ([ER_Command (CR_Client first)], d1, t1) =>
          match blank_batch d1 t1 with
          | Ok (_, d2, t2) =>
              match resend_batch d2 t2 with
              | Ok ([ER_Command (CR_Client again)], _, _) => again = mk_ClientResult Consumed (clr_reply first) true
              | _ => False
              end
          | Err _ => False
          end
      | _ => False
      end
  | Err _ => False
  end.
Proof.
  pose proof delivery_ready as H. destruct (run_batch 3) as [[[r d] t]|] eqn:E0; [|exact H].
  destruct H as [Hd H]. injection Hd as Hl Hp.
  destruct (first_batch d t) as [[[[|[|[first| |]] [|]] d1] t1]|] eqn:E1; try exact H.
  destruct H as [H1 H]. injection H1 as Hc Hr Hl1 Hp1.
  destruct (blank_batch d1 t1) as [[[r2 d2] t2]|] eqn:E2; [|exact H].
  destruct (resend_batch d2 t2) as [[[[|[|[again| |]] [|]] d3] t3]|] eqn:E3; try exact H.
  assert (reachable run_op d t) as Hreach by (apply (run_prefix_reachable 3 r d t); [lia|exact E0]).
  destruct (journaled_mutation_applied_once sample_actor sample_group sample_client journal0 sample_events
    journal2 sample_client 1 [Byte.x6d] [Byte.x72] sample_hash [Byte.x6d] [Byte.x72] sample_hash
    run_op d t (at_index 4) acquire first d1 t1 [(at_index 5, P_Blank)] r2 d2 t2 (at_index 6) acquire again d3 t3
    eq_refl eq_refl eq_refl sample_opens sample_run) as [_ [Ha|[Hn _]]].
  - constructor; [apply not_elem_of_nil|constructor].
  - vm_compute. reflexivity.
  - right. left.
  - right. right. left.
  - exact Hreach.
  - rewrite Hl, Hp. split_and!; [by intros l [= <-]|vm_compute; reflexivity|exact I].
  - exact E1.
  - exact Hc.
  - exact Hr.
  - rewrite Hl1, Hp1. split_and!; [by intros l [= <-]|exact I|exact I].
  - exact E2.
  - exact E3.
  - exact Ha.
  - rewrite Hn in H. discriminate H.
Defined.
