(* ===== verification/Mirror.v ===== *)
(** * The mirrors of the consensus library's values

    Models [aster/src/coordination/convert.rs] with the declarations of
    [raft.rs] it converts: log ids, votes, memberships, snapshot metadata, log
    entries and the vote and append messages, each widened to its wire mirror
    and narrowed back with a named failure. A value of the consensus library is
    a record of what the code reads of it; its [Membership::new] is given every
    node the configurations name, so it adds none. *)

From S2P Require Import Prelude Ids Contract Externals Limits State Tables Classify.
From S2P Require Import Ticket Authority Shape Genesis Resource Grant Retire.
From S2P Require Import Membership Apply Wire Boundary Durable.

#[local] Open Scope N_scope.
#[local] Open Scope coordination_scope.

(** ** The values of the consensus library *)

(** [openraft::Vote]. *)
Record Vote : Type := mk_Vote {
  vo_term : N;
  vo_node_id : NodeId;
  vo_committed : bool;
}.

(** [openraft::SnapshotMeta]. *)
Record SnapshotMeta : Type := mk_SnapshotMeta {
  sme_last_log_id : option LogId;
  sme_last_membership : StoredMembership;
  sme_snapshot_id : bytes;
}.

Section values.
Context `{UnknownCarrier}.

(** [openraft::EntryPayload], [openraft::Entry], over the wire command. *)
Inductive EntryPayload : Type :=
| EP_Blank
| EP_Normal (c : CommandV1)
| EP_Membership (m : RaftMembership).

Record Entry : Type := mk_Entry {
  en_log_id : LogId;
  en_payload : EntryPayload;
}.

(** [openraft::raft::VoteRequest], [VoteResponse], [AppendEntriesRequest],
    [AppendEntriesResponse]. *)
Record VoteRequest : Type := mk_VoteRequest {
  vq_vote : Vote;
  vq_last_log_id : option LogId;
}.

Record VoteResponse : Type := mk_VoteResponse {
  vr_vote : Vote;
  vr_vote_granted : bool;
  vr_last_log_id : option LogId;
}.

Record AppendEntriesRequest : Type := mk_AppendEntriesRequest {
  aq_vote : Vote;
  aq_prev_log_id : option LogId;
  aq_entries : list Entry;
  aq_leader_commit : option LogId;
}.

Inductive AppendEntriesResponse : Type :=
| AR_Success
| AR_PartialSuccess (matching : option LogId)
| AR_Conflict
| AR_HigherVote (vote : Vote).

(** ** The wire mirrors *)

(** [struct VoteV1]. *)
Record VoteV1 : Type := mk_VoteV1 {
  vv_term : N;
  vv_leader_node_id : bytes;
  vv_committed : bool;
}.

(** [struct NodeIdSetV1], [struct NodeEntryV1], [struct MembershipV1]. *)
Record NodeIdSetV1 : Type := mk_NodeIdSetV1 { nsv_ids : list NodeIdV1 }.

Record NodeEntryV1 : Type := mk_NodeEntryV1 {
  nev_node_id : bytes;
  nev_format_version : N;
}.

Record MembershipV1 : Type := mk_MembershipV1 {
  mv_configs : list NodeIdSetV1;
  mv_nodes : list NodeEntryV1;
}.

(** [struct StoredMembershipV1], [struct SnapshotMetaV1]. *)
Record StoredMembershipV1 : Type := mk_StoredMembershipV1 {
  smv_log_id : option LogIdV1;
  smv_membership : MembershipV1;
}.

Record SnapshotMetaV1 : Type := mk_SnapshotMetaV1 {
  smev_last_log_id : option LogIdV1;
  smev_last_membership : StoredMembershipV1;
  smev_snapshot_id : bytes;
}.

(** [enum EntryPayloadV1], [struct RaftEntryV1]. *)
Inductive EntryPayloadV1 : Type :=
| EPV_Blank
| EPV_Normal (c : CommandV1)
| EPV_Membership (m : MembershipV1)
| EPV_Unknown (case : UnknownCase).

Record RaftEntryV1 : Type := mk_RaftEntryV1 {
  rev_log_id : LogIdV1;
  rev_payload : EntryPayloadV1;
}.

(** [struct VoteRequestV1], [struct VoteResponseV1], [struct AppendRequestV1]. *)
Record VoteRequestV1 : Type := mk_VoteRequestV1 {
  vqv_vote : VoteV1;
  vqv_last_log_id : option LogIdV1;
}.

Record VoteResponseV1 : Type := mk_VoteResponseV1 {
  vrv_vote : VoteV1;
  vrv_vote_granted : bool;
  vrv_last_log_id : option LogIdV1;
}.

Record AppendRequestV1 : Type := mk_AppendRequestV1 {
  aqv_vote : VoteV1;
  aqv_prev_log_id : option LogIdV1;
  aqv_entries : list RaftEntryV1;
  aqv_leader_commit : option LogIdV1;
}.

(** [enum RaftMessageV1]; the wrappers' fields are the constructors'. *)
Inductive RaftMessageV1 : Type :=
| RM_VoteRequest (r : VoteRequestV1)
| RM_VoteResponse (r : VoteResponseV1)
| RM_AppendRequest (r : AppendRequestV1)
| RM_AppendSuccess
| RM_AppendPartialSuccess (matching : option LogIdV1)
| RM_AppendConflict
| RM_AppendHigherVote (vote : VoteV1)
| RM_SnapshotResponse (vote : VoteV1)
| RM_Unknown (case : UnknownCase).

(** ** The conversions *)

(** [enum MirrorError]; a field name is what tells the id errors apart. *)
Inductive MirrorField : Type :=
| MF_LogIdLeader
| MF_VoteLeader
| MF_MembershipConfig
| MF_MembershipNode.

Inductive MirrorError : Type :=
| ME_NodeIdLength (field : MirrorField) (len : N)
| ME_EmptyMembership
| ME_UnknownNodeFormat (version : N)
| ME_UnknownPayloadVariant.

Definition NODE_FORMAT_VERSION : N := 1.

(** [node_id]. *)
Definition mirror_node_id (field : MirrorField) (b : bytes) : result NodeId MirrorError :=
  match id_from_slice 32 b with
  | Ok id => Ok id
  | Err _ => Err (ME_NodeIdLength field (len b))
  end.

(** [From<LogId> for LogIdV1] is [log_id_to_wire]; its [TryFrom]. *)
Definition mirror_log_id (w : LogIdV1) : result LogId MirrorError :=
  let? node := mirror_node_id MF_LogIdLeader (lv_leader_node_id w) in
  Ok (mk_LogId (lv_term w) node (lv_index w)).

(** [.as_ref().map(LogId::try_from).transpose()]. *)
Definition mirror_log_ids : option LogIdV1 -> result (option LogId) MirrorError :=
  narrow_option mirror_log_id.

(** [From<&Vote> for VoteV1], [TryFrom<&VoteV1> for Vote]. *)
Definition vote_to_mirror (v : Vote) : VoteV1 :=
  mk_VoteV1 (vo_term v) (vo_node_id v) (vo_committed v).

Definition mirror_vote (w : VoteV1) : result Vote MirrorError :=
  let? node := mirror_node_id MF_VoteLeader (vv_leader_node_id w) in
  Ok (mk_Vote (vv_term w) node (vv_committed w)).

(** [From<&Membership> for MembershipV1]. *)
Definition membership_to_mirror (m : RaftMembership) : MembershipV1 :=
  {| mv_configs := map (λ set, mk_NodeIdSetV1 (map mk_NodeIdV1 (in_order set))) (rm_configs m);
     mv_nodes := map (λ id, mk_NodeEntryV1 id NODE_FORMAT_VERSION) (in_order (rm_nodes m)) |}.

(** The loop over the ids of one configuration, into a set. *)
Fixpoint mirror_config (ids : list NodeIdV1) (acc : gset NodeId) : result (gset NodeId) MirrorError :=
  match ids with
  | [] => Ok acc
  | id :: rest =>
      let? node := mirror_node_id MF_MembershipConfig (nv_node_id id) in
      mirror_config rest ({[node]} ∪ acc)
  end.

(** The loop over the configurations. *)
Fixpoint mirror_configs (sets : list NodeIdSetV1) : result (list (gset NodeId)) MirrorError :=
  match sets with
  | [] => Ok []
  | set :: rest =>
      let? ids := mirror_config (nsv_ids set) ∅ in
      let? configs := mirror_configs rest in
      Ok (ids :: configs)
  end.

(** The loop over the node entries, into the node map. *)
Fixpoint mirror_nodes (entries : list NodeEntryV1) (acc : gset NodeId)
    : result (gset NodeId) MirrorError :=
  match entries with
  | [] => Ok acc
  | entry :: rest =>
      if negb (nev_format_version entry =? NODE_FORMAT_VERSION)
      then Err (ME_UnknownNodeFormat (nev_format_version entry))
      else
        let? node := mirror_node_id MF_MembershipNode (nev_node_id entry) in
        mirror_nodes rest ({[node]} ∪ acc)
  end.

(** [TryFrom<&MembershipV1> for Membership]. *)
Definition mirror_membership (w : MembershipV1) : result RaftMembership MirrorError :=
  match mv_configs w with
  | [] => Err ME_EmptyMembership
  | sets =>
      let? configs := mirror_configs sets in
      let? nodes := mirror_nodes (mv_nodes w) ∅ in
      Ok (mk_RaftMembership configs (foldl (λ acc set, acc ∪ set) nodes configs))
  end.

(** [From<&StoredMembership> for StoredMembershipV1] and its [TryFrom]. *)
Definition stored_membership_to_mirror (s : StoredMembership) : StoredMembershipV1 :=
  mk_StoredMembershipV1 (log_id_to_wire <$> sm_log_id s) (membership_to_mirror (sm_membership s)).

Definition mirror_stored_membership (w : StoredMembershipV1) : result StoredMembership MirrorError :=
  let? log_id := mirror_log_ids (smv_log_id w) in
  let? membership := mirror_membership (smv_membership w) in
  Ok (mk_StoredMembership log_id membership).

(** [From<&SnapshotMeta> for SnapshotMetaV1] and its [TryFrom]. *)
Definition snapshot_meta_to_mirror (m : SnapshotMeta) : SnapshotMetaV1 :=
  mk_SnapshotMetaV1 (log_id_to_wire <$> sme_last_log_id m)
    (stored_membership_to_mirror (sme_last_membership m)) (sme_snapshot_id m).

Definition mirror_snapshot_meta (w : SnapshotMetaV1) : result SnapshotMeta MirrorError :=
  let? last := mirror_log_ids (smev_last_log_id w) in
  let? membership := mirror_stored_membership (smev_last_membership w) in
  Ok (mk_SnapshotMeta last membership (smev_snapshot_id w)).

(** [From<&Entry> for RaftEntryV1] and its [TryFrom]. *)
Definition entry_to_mirror (e : Entry) : RaftEntryV1 :=
  mk_RaftEntryV1 (log_id_to_wire (en_log_id e))
    match en_payload e with
    | EP_Blank => EPV_Blank
    | EP_Normal c => EPV_Normal c
    | EP_Membership m => EPV_Membership (membership_to_mirror m)
    end.

Definition mirror_entry (w : RaftEntryV1) : result Entry MirrorError :=
  let? log_id := mirror_log_id (rev_log_id w) in
  match rev_payload w with
  | EPV_Blank => Ok (mk_Entry log_id EP_Blank)
  | EPV_Normal c => Ok (mk_Entry log_id (EP_Normal c))
  | EPV_Membership m =>
      let? m := mirror_membership m in
      Ok (mk_Entry log_id (EP_Membership m))
  | EPV_Unknown _ => Err ME_UnknownPayloadVariant
  end.

(** [From<&VoteRequest> for VoteRequestV1], [From<&VoteResponse> for
    VoteResponseV1] and their [TryFrom]s. *)
Definition vote_request_to_mirror (r : VoteRequest) : VoteRequestV1 :=
  mk_VoteRequestV1 (vote_to_mirror (vq_vote r)) (log_id_to_wire <$> vq_last_log_id r).

Definition mirror_vote_request (w : VoteRequestV1) : result VoteRequest MirrorError :=
  let? vote := mirror_vote (vqv_vote w) in
  let? last := mirror_log_ids (vqv_last_log_id w) in
  Ok (mk_VoteRequest vote last).

Definition vote_response_to_mirror (r : VoteResponse) : VoteResponseV1 :=
  mk_VoteResponseV1 (vote_to_mirror (vr_vote r)) (vr_vote_granted r)
    (log_id_to_wire <$> vr_last_log_id r).

Definition mirror_vote_response (w : VoteResponseV1) : result VoteResponse MirrorError :=
  let? vote := mirror_vote (vrv_vote w) in
  let? last := mirror_log_ids (vrv_last_log_id w) in
  Ok (mk_VoteResponse vote (vrv_vote_granted w) last).

(** [From<&AppendEntriesRequest> for AppendRequestV1] and its [TryFrom]: the
    entries are narrowed first. *)
Definition append_request_to_mirror (r : AppendEntriesRequest) : AppendRequestV1 :=
  mk_AppendRequestV1 (vote_to_mirror (aq_vote r)) (log_id_to_wire <$> aq_prev_log_id r)
    (map entry_to_mirror (aq_entries r)) (log_id_to_wire <$> aq_leader_commit r).

Fixpoint mirror_entries (ws : list RaftEntryV1) : result (list Entry) MirrorError :=
  match ws with
  | [] => Ok []
  | w :: rest =>
      let? e := mirror_entry w in
      let? es := mirror_entries rest in
      Ok (e :: es)
  end.

Definition mirror_append_request (w : AppendRequestV1) : result AppendEntriesRequest MirrorError :=
  let? entries := mirror_entries (aqv_entries w) in
  let? vote := mirror_vote (aqv_vote w) in
  let? prev := mirror_log_ids (aqv_prev_log_id w) in
  let? commit := mirror_log_ids (aqv_leader_commit w) in
  Ok (mk_AppendEntriesRequest vote prev entries commit).

(** [From<&AppendEntriesResponse> for RaftMessageV1] and its [TryFrom]. *)
Definition append_response_to_mirror (r : AppendEntriesResponse) : RaftMessageV1 :=
  match r with
  | AR_Success => RM_AppendSuccess
  | AR_PartialSuccess matching => RM_AppendPartialSuccess (log_id_to_wire <$> matching)
  | AR_Conflict => RM_AppendConflict
  | AR_HigherVote vote => RM_AppendHigherVote (vote_to_mirror vote)
  end.

Definition mirror_append_response (w : RaftMessageV1) : result AppendEntriesResponse MirrorError :=
  match w with
  | RM_AppendSuccess => Ok AR_Success
  | RM_AppendPartialSuccess matching =>
      let? matching := mirror_log_ids matching in
      Ok (AR_PartialSuccess matching)
  | RM_AppendConflict => Ok AR_Conflict
  | RM_AppendHigherVote vote =>
      let? vote := mirror_vote vote in
      Ok (AR_HigherVote vote)
  | _ => Err ME_UnknownPayloadVariant
  end.
End values.

(** ** Typed values *)

(** A vote and a membership the mirrors can carry: identifiers have their width,
    there is a configuration, and the node map names every voter (the consensus
    library's own invariant). *)
Definition vote_typed (v : Vote) : Prop := len (vo_node_id v) = 32.

Record membership_typed (m : RaftMembership) : Prop := {
  mt_configured : rm_configs m <> [];
  mt_named set : set ∈ rm_configs m -> set ⊆ rm_nodes m;
  mt_width n : n ∈ rm_nodes m -> len n = 32;
}.

Record stored_membership_typed (s : StoredMembership) : Prop := {
  smt_log : log_ids_typed (sm_log_id s);
  smt_membership : membership_typed (sm_membership s);
}.

Record snapshot_meta_typed (m : SnapshotMeta) : Prop := {
  smet_log : log_ids_typed (sme_last_log_id m);
  smet_membership : stored_membership_typed (sme_last_membership m);
}.

Section mirrors.
Context `{UnknownCarrier}.

Definition payload_typed (p : EntryPayload) : Prop :=
  match p with EP_Membership m => membership_typed m | _ => True end.

Definition entry_typed (e : Entry) : Prop :=
  log_id_typed (en_log_id e) /\ payload_typed (en_payload e).

Definition append_response_typed (r : AppendEntriesResponse) : Prop :=
  match r with
  | AR_PartialSuccess matching => log_ids_typed matching
  | AR_HigherVote vote => vote_typed vote
  | _ => True
  end.

Record append_request_typed (r : AppendEntriesRequest) : Prop := {
  aqt_vote : vote_typed (aq_vote r);
  aqt_prev : log_ids_typed (aq_prev_log_id r);
  aqt_entries : Forall entry_typed (aq_entries r);
  aqt_commit : log_ids_typed (aq_leader_commit r);
}.

(** ** Typed values survive their mirrors *)

Lemma mirror_node_id_Ok f b n : mirror_node_id f b = Ok n <-> n = b /\ len b = 32.
Proof.
  unfold mirror_node_id, id_from_slice. destruct (N.eqb_spec (len b) 32); simpl; split; try done.
  - by intros [= ->].
  - by intros [-> _].
  - by intros [_ ?].
Qed.

Lemma mirror_log_id_roundtrip id : log_id_typed id -> mirror_log_id (log_id_to_wire id) = Ok id.
Proof.
  intros Ht. unfold mirror_log_id. simpl.
  rewrite (proj2 (mirror_node_id_Ok _ _ _) (conj eq_refl Ht)). by destruct id.
Qed.

Lemma mirror_log_ids_roundtrip o : log_ids_typed o -> mirror_log_ids (log_id_to_wire <$> o) = Ok o.
Proof. intros Ht. apply narrow_option_roundtrip. eauto using mirror_log_id_roundtrip. Qed.

Lemma mirror_vote_roundtrip v : vote_typed v -> mirror_vote (vote_to_mirror v) = Ok v.
Proof.
  intros Ht. unfold mirror_vote. simpl.
  rewrite (proj2 (mirror_node_id_Ok _ _ _) (conj eq_refl Ht)). by destruct v.
Qed.

Lemma mirror_config_roundtrip ids acc :
  Forall (λ n, len n = 32) ids ->
  mirror_config (map mk_NodeIdV1 ids) acc = Ok (list_to_set ids ∪ acc).
Proof.
  intros Ht. revert acc. induction Ht as [|n ids Hn Ht IH]; intros acc; simpl.
  - f_equal. set_solver.
  - rewrite (proj2 (mirror_node_id_Ok _ _ _) (conj eq_refl Hn)), IH. f_equal. set_solver.
Qed.

Lemma mirror_nodes_roundtrip ids acc :
  Forall (λ n, len n = 32) ids ->
  mirror_nodes (map (λ id, mk_NodeEntryV1 id NODE_FORMAT_VERSION) ids) acc = Ok (list_to_set ids ∪ acc).
Proof.
  intros Ht. revert acc. induction Ht as [|n ids Hn Ht IH]; intros acc; simpl.
  - f_equal. set_solver.
  - rewrite (proj2 (mirror_node_id_Ok _ _ _) (conj eq_refl Hn)), IH. f_equal. set_solver.
Qed.

Lemma in_order_typed (s : gset NodeId) :
  (forall n, n ∈ s -> len n = 32) -> Forall (λ n, len n = 32) (in_order s).
Proof. intros Ht. apply Forall_forall. intros n Hn%list_elem_of_In%elem_of_in_order. auto. Qed.

Lemma mirror_configs_roundtrip (sets : list (gset NodeId)) :
  (forall s n, s ∈ sets -> n ∈ s -> len n = 32) ->
  mirror_configs (map (λ set, mk_NodeIdSetV1 (map mk_NodeIdV1 (in_order set))) sets) = Ok sets.
Proof.
  induction sets as [|s sets IH]; intros Ht; [done|]. simpl.
  rewrite mirror_config_roundtrip by (apply in_order_typed; intros n; apply Ht; left).
  rewrite in_order_set, union_empty_r_L, IH; [done|]. intros s' n Hs. apply Ht. by right.
Qed.

Lemma named_union (nodes : gset NodeId) sets :
  (forall s, s ∈ sets -> s ⊆ nodes) -> foldl (λ acc set : gset NodeId, acc ∪ set) nodes sets = nodes.
Proof.
  induction sets as [|s sets IH]; intros Hs; [done|]. simpl.
  rewrite (union_comm_L nodes), subseteq_union_1_L by (apply Hs; left).
  apply IH. intros s' ?. apply Hs. by right.
Qed.

Lemma mirror_membership_roundtrip m :
  membership_typed m -> mirror_membership (membership_to_mirror m) = Ok m.
Proof.
  intros [Hc Hn Hw]. unfold mirror_membership, membership_to_mirror. cbn [mv_configs mv_nodes].
  pose proof (mirror_configs_roundtrip (rm_configs m)) as Hr.
  destruct (map _ (rm_configs m)) eqn:E; [by destruct (rm_configs m)|].
  rewrite Hr by (intros s x Hs Hin; apply Hw, (Hn s Hs x Hin)).
  rewrite mirror_nodes_roundtrip by by apply in_order_typed.
  rewrite in_order_set, union_empty_r_L, named_union by done. by destruct m.
Qed.

Lemma mirror_stored_membership_roundtrip s :
  stored_membership_typed s -> mirror_stored_membership (stored_membership_to_mirror s) = Ok s.
Proof.
  intros [Hl Hm]. unfold mirror_stored_membership. simpl.
  rewrite mirror_log_ids_roundtrip, mirror_membership_roundtrip by done. by destruct s.
Qed.

Lemma mirror_snapshot_meta_roundtrip m :
  snapshot_meta_typed m -> mirror_snapshot_meta (snapshot_meta_to_mirror m) = Ok m.
Proof.
  intros [Hl Hm]. unfold mirror_snapshot_meta. simpl.
  rewrite mirror_log_ids_roundtrip, mirror_stored_membership_roundtrip by done. by destruct m.
Qed.

Lemma mirror_entry_roundtrip e : entry_typed e -> mirror_entry (entry_to_mirror e) = Ok e.
Proof.
  destruct e as [id p]. intros [Hl Hp]. unfold mirror_entry. simpl in *.
  rewrite mirror_log_id_roundtrip by done. destruct p; [done..|]. simpl in Hp.
  by rewrite mirror_membership_roundtrip.
Qed.

Lemma mirror_entries_roundtrip es :
  Forall entry_typed es -> mirror_entries (map entry_to_mirror es) = Ok es.
Proof. induction 1 as [|e es He _ IH]; [done|]. simpl. by rewrite mirror_entry_roundtrip, IH. Qed.

Lemma mirror_append_request_roundtrip r :
  append_request_typed r -> mirror_append_request (append_request_to_mirror r) = Ok r.
Proof.
  intros [Hv Hp He Hc]. unfold mirror_append_request. simpl.
  rewrite mirror_entries_roundtrip, mirror_vote_roundtrip, !mirror_log_ids_roundtrip by done.
  by destruct r.
Qed.

Lemma mirror_append_response_roundtrip r :
  append_response_typed r -> mirror_append_response (append_response_to_mirror r) = Ok r.
Proof.
  destruct r; simpl; intros Ht; [done| |done|].
  - by rewrite mirror_log_ids_roundtrip.
  - by rewrite mirror_vote_roundtrip.
Qed.

(** ** What is narrowed is typed *)

Lemma mirror_log_id_typed w id : mirror_log_id w = Ok id -> log_id_typed id.
Proof.
  unfold mirror_log_id. destruct (mirror_node_id _ _) eqn:E; [|done].
  apply mirror_node_id_Ok in E as [-> ?]. by intros [= <-].
Qed.

Lemma mirror_log_ids_typed w o : mirror_log_ids w = Ok o -> log_ids_typed o.
Proof.
  unfold mirror_log_ids, narrow_option. intros E id ->. destruct w as [w|]; [|done].
  destruct (mirror_log_id w) eqn:Ew; simplify_eq. by eapply mirror_log_id_typed.
Qed.

Lemma mirror_vote_typed w v : mirror_vote w = Ok v -> vote_typed v.
Proof.
  unfold mirror_vote. destruct (mirror_node_id _ _) eqn:E; [|done].
  apply mirror_node_id_Ok in E as [-> ?]. by intros [= <-].
Qed.

Lemma mirror_config_typed ids acc s :
  mirror_config ids acc = Ok s -> (forall n, n ∈ acc -> len n = 32) -> forall n, n ∈ s -> len n = 32.
Proof.
  revert acc. induction ids as [|id ids IH]; intros acc; simpl; [by intros [= <-]|].
  destruct (mirror_node_id _ _) eqn:E; [|done]. apply mirror_node_id_Ok in E as [-> ?].
  intros Hm Ha. apply (IH _ Hm). set_solver.
Qed.

Lemma mirror_nodes_typed es acc s :
  mirror_nodes es acc = Ok s -> (forall n, n ∈ acc -> len n = 32) -> forall n, n ∈ s -> len n = 32.
Proof.
  revert acc. induction es as [|e es IH]; intros acc; simpl; [by intros [= <-]|].
  case_match; [done|]. destruct (mirror_node_id _ _) eqn:E; [|done].
  apply mirror_node_id_Ok in E as [-> ?]. intros Hm Ha. apply (IH _ Hm). set_solver.
Qed.

Lemma mirror_configs_typed sets configs :
  mirror_configs sets = Ok configs ->
  length configs = length sets /\ forall s n, s ∈ configs -> n ∈ s -> len n = 32.
Proof.
  revert configs. induction sets as [|set sets IH]; intros configs; simpl.
  - intros [= <-]. split; [done|]. by intros ?? ?%elem_of_nil.
  - destruct (mirror_config _ _) as [ids|] eqn:E; [|done].
    destruct (mirror_configs sets) as [rest|]; [|done]. intros [= <-].
    destruct (IH _ eq_refl) as [Hl Ht]. split; [by simpl; rewrite Hl|].
    intros s n [->|Hs]%elem_of_cons; [|by apply Ht].
    apply (mirror_config_typed _ _ _ E). set_solver.
Qed.

Lemma union_all_elem (nodes : gset NodeId) sets n :
  n ∈ foldl (λ acc set : gset NodeId, acc ∪ set) nodes sets
  <-> n ∈ nodes \/ exists s, s ∈ sets /\ n ∈ s.
Proof.
  revert nodes. induction sets as [|s sets IH]; intros nodes; simpl.
  - split; [by left|]. intros [?|(s & []%elem_of_nil & _)]; done.
  - rewrite IH, elem_of_union. split.
    + intros [[?|?]|(s' & ? & ?)]; [by left|right; exists s; by split; [left|]|].
      right. exists s'. by split; [right|].
    + intros [?|(s' & [->|?]%elem_of_cons & ?)]; [by left; left|by left; right|].
      right. by exists s'.
Qed.

Lemma mirror_membership_typed w m : mirror_membership w = Ok m -> membership_typed m.
Proof.
  unfold mirror_membership. destruct (mv_configs w) as [|set sets]; [done|].
  destruct (mirror_configs (set :: sets)) as [configs|] eqn:Ec; [|done].
  destruct (mirror_nodes _ _) as [nodes|] eqn:En; [|done]. intros [= <-].
  destruct (mirror_configs_typed _ _ Ec) as [Hl Ht]. split; simpl.
  - by destruct configs.
  - intros s Hs n Hn. apply union_all_elem. right. by exists s.
  - intros n [Hn|(s & Hs & Hn)]%union_all_elem; [|by eapply Ht].
    apply (mirror_nodes_typed _ _ _ En); [set_solver|done].
Qed.

Lemma mirror_entry_typed w e : mirror_entry w = Ok e -> entry_typed e.
Proof.
  unfold mirror_entry. destruct (mirror_log_id _) as [id|] eqn:El; [|done].
  apply mirror_log_id_typed in El. destruct (rev_payload w) as [| |m|]; simpl.
  - by intros [= <-].
  - by intros [= <-].
  - destruct (mirror_membership m) eqn:Em; [|done]. intros [= <-].
    split; [done|]. by eapply mirror_membership_typed.
  - done.
Qed.

Lemma mirror_entries_typed ws es : mirror_entries ws = Ok es -> Forall entry_typed es.
Proof.
  revert es. induction ws as [|w ws IH]; intros es; simpl; [by intros [= <-]|].
  destruct (mirror_entry w) eqn:Ew; [|done]. destruct (mirror_entries ws); [|done].
  intros [= <-]. constructor; [by eapply mirror_entry_typed|auto].
Qed.

Lemma mirror_append_request_typed w r : mirror_append_request w = Ok r -> append_request_typed r.
Proof.
  unfold mirror_append_request. destruct (mirror_entries _) eqn:Ee; [|done].
  destruct (mirror_vote _) eqn:Ev; [|done]. destruct (mirror_log_ids _) eqn:Ep; [|done].
  destruct (mirror_log_ids (aqv_leader_commit w)) eqn:Ec; [|done]. intros [= <-]. split; simpl.
  - by eapply mirror_vote_typed.
  - by eapply mirror_log_ids_typed.
  - by eapply mirror_entries_typed.
  - by eapply mirror_log_ids_typed.
Qed.
End mirrors.
