(* ===== verification/LogStore.v ===== *)
(** * The consensus log store

    Models [aster/src/coordination/storage/log.rs] with [storage/error.rs] and
    the bounded codecs of [storage/codec.rs]: the two tables of [raft.redb], the
    reads and writes of the single-writer actor, its fatal latch and the drain
    behind it, and the validation a restart runs before any actor exists. The
    Fory codec is a parameter. A table redb does not have yet is an empty map;
    a write is one durable commit that may fail on either side of its commit
    point; the threads, channels and files are left out. *)

From S2P Require Import Prelude Ids Contract Externals Limits State Tables Classify.
From S2P Require Import Ticket Authority Shape Genesis Resource Grant Retire.
From S2P Require Import Membership Apply Wire Boundary Durable Mirror.

#[local] Open Scope N_scope.
#[local] Open Scope coordination_scope.

(** ** Failures *)

(** The three ways [append] names a hole. *)
Inductive GapDetail : Type :=
| GD_NotContiguous
| GD_AfterLast
| GD_BelowSurvivors.

(** [enum StorageError], without its paths and messages. *)
Inductive StorageError : Type :=
| SE_LockContended
| SE_LockIo
| SE_Io
| SE_SymlinkedPath
| SE_BroadPermissions
| SE_FreshDatabaseUnclean
| SE_TransactionInProgress
| SE_Integrity
| SE_UnknownTable
| SE_MissingTable
| SE_TableTypeMismatch
| SE_UnknownMetaKey
| SE_MissingMetaKey
| SE_SchemaVersion
| SE_CodecVersion
| SE_IdentityMismatch
| SE_PartialInitialization
| SE_LogGap (expected found : N) (detail : GapDetail)
| SE_SnapshotTooLarge
| SE_SnapshotRejected
| SE_SnapshotBehind
| SE_ActorStopped
| SE_Fatal
| SE_StoredCorruption
| SE_ActorSpawn
| SE_EncodeFailed
| SE_Redb
| SE_RecoveryImportRefused.

(** [StorageError::puts_durability_in_question]. *)
Definition puts_durability_in_question (e : StorageError) : bool :=
  match e with
  | SE_LogGap _ _ _ | SE_EncodeFailed | SE_SnapshotRejected => false
  | _ => true
  end.

(** ** Bounded codecs *)

Definition MAX_ENTRY_BYTES : N := 8 * 1024 * 1024.
Definition MAX_META_BYTES : N := 4 * 1024.

(** [check_stored_len]. *)
Definition check_stored_len (b : bytes) (max_bytes : N) : result unit StorageError :=
  if max_bytes <? len b then Err SE_StoredCorruption else Ok ().

(** [decode_persisted], [decode_persisted_bounded], [encode_owned],
    [encode_bounded], over the codec of one root type. *)
Definition decode_persisted {T : Type} (deserialize : bytes -> option T) (b : bytes)
    : result T StorageError :=
  match deserialize b with
  | Some v => Ok v
  | None => Err SE_StoredCorruption
  end.

Definition decode_persisted_bounded {T : Type} (deserialize : bytes -> option T) (b : bytes)
    (max_bytes : N) : result T StorageError :=
  match check_stored_len b max_bytes with
  | Ok _ => decode_persisted deserialize b
  | Err e => Err e
  end.

Definition encode_owned {T : Type} (serialize : T -> option bytes) (v : T)
    : result bytes StorageError :=
  match serialize v with
  | Some b => Ok b
  | None => Err SE_EncodeFailed
  end.

Definition encode_bounded {T : Type} (serialize : T -> option bytes) (v : T) (max_bytes : N)
    : result bytes StorageError :=
  let? b := encode_owned serialize v in
  if max_bytes <? len b then Err SE_EncodeFailed else Ok b.

(** The mirror conversion of a stored value: a failure is corruption. *)
Definition stored {T E : Type} (r : result T E) : result T StorageError :=
  match r with
  | Ok v => Ok v
  | Err _ => Err SE_StoredCorruption
  end.

(** The Fory runtimes of the three persisted roots. *)
Class RaftCodec `{UnknownCarrier} : Type := {
  rc_encode_entry : RaftEntryV1 -> option bytes;
  rc_decode_entry : bytes -> option RaftEntryV1;
  rc_encode_vote : VoteV1 -> option bytes;
  rc_decode_vote : bytes -> option VoteV1;
  rc_encode_log_id : LogIdV1 -> option bytes;
  rc_decode_log_id : bytes -> option LogIdV1;
}.

(** Decoding inverts encoding. *)
Class RaftCodecLaws `{RaftCodec} : Prop := {
  rc_entry_roundtrip w b : rc_encode_entry w = Some b -> rc_decode_entry b = Some w;
  rc_vote_roundtrip w b : rc_encode_vote w = Some b -> rc_decode_vote b = Some w;
  rc_log_id_roundtrip w b : rc_encode_log_id w = Some b -> rc_decode_log_id b = Some w;
}.

(** ** The database *)

(** [KEY_VOTE], [KEY_COMMITTED], [KEY_LAST_PURGED]. *)
Inductive MetaKey : Type :=
| KEY_VOTE
| KEY_COMMITTED
| KEY_LAST_PURGED.

#[export] Instance MetaKey_eq_dec : EqDecision MetaKey.
Proof. solve_decision. Defined.

Definition meta_key_tag (k : MetaKey) : N :=
  match k with
  | KEY_VOTE => 0
  | KEY_COMMITTED => 1
  | KEY_LAST_PURGED => 2
  end.

Definition meta_key_of_tag (n : N) : MetaKey :=
  match n with
  | 0 => KEY_VOTE
  | 1 => KEY_COMMITTED
  | _ => KEY_LAST_PURGED
  end.

#[export] Instance MetaKey_countable : Countable MetaKey.
Proof. refine (inj_countable' meta_key_tag meta_key_of_tag _). by intros []. Defined.

(** The tables [raft_meta] and [raft_log]. *)
Record RaftDb : Type := mk_RaftDb {
  rd_meta : gmap MetaKey bytes;
  rd_log : gmap N bytes;
}.

(** The keys and the rows of a table in the order redb iterates them. *)
Definition index_le (a b : N) : Prop := a <= b.
#[export] Instance index_le_dec : RelDecision index_le := λ a b, N.le_dec a b.

Definition indexes {V : Type} (m : gmap N V) : list N := merge_sort index_le (elements (dom m)).

Definition rows_in_order {V : Type} (m : gmap N V) : list (N * V) :=
  omap (λ k, pair k <$> m !! k) (indexes m).

(** [std::ops::Bound], and a key within a range. *)
Inductive Bound : Type :=
| Included (n : N)
| Excluded (n : N)
| Unbounded.

Definition within (lower upper : Bound) (k : N) : bool :=
  match lower with Included n => n <=? k | Excluded n => n <? k | Unbounded => true end
  && match upper with Included n => k <=? n | Excluded n => k <? n | Unbounded => true end.

(** [u64::checked_add(1)]. *)
Definition checked_succ (n : N) : option N := if n =? U64_MAX then None else Some (n + 1).

(** Where the input and output of a command fails, if it does: at its first
    transaction, before the commit point, or after it. *)
Inductive IoFate : Type :=
| IO_Done
| IO_NoRead
| IO_BeforeCommit
| IO_AfterCommit.

(** [durable_commit]. *)
Definition durable_commit (fate : IoFate) (old new : RaftDb) : result unit StorageError * RaftDb :=
  match fate with
  | IO_Done => (Ok (), new)
  | IO_NoRead | IO_BeforeCommit => (Err SE_Redb, old)
  | IO_AfterCommit => (Err SE_Redb, new)
  end.

Section store.
Context `{Codec : RaftCodec}.

(** [encode_entry], [decode_entry] and the pairs for votes and log ids. *)
Definition encode_entry (e : Entry) : result bytes StorageError :=
  encode_bounded rc_encode_entry (entry_to_mirror e) MAX_ENTRY_BYTES.

Definition decode_entry (b : bytes) : result Entry StorageError :=
  let? mirror := decode_persisted_bounded rc_decode_entry b MAX_ENTRY_BYTES in
  stored (mirror_entry mirror).

Definition encode_vote (v : Vote) : result bytes StorageError :=
  encode_bounded rc_encode_vote (vote_to_mirror v) MAX_META_BYTES.

Definition decode_vote (b : bytes) : result Vote StorageError :=
  let? mirror := decode_persisted_bounded rc_decode_vote b MAX_META_BYTES in
  stored (mirror_vote mirror).

Definition encode_log_id (id : LogId) : result bytes StorageError :=
  encode_bounded rc_encode_log_id (log_id_to_wire id) MAX_META_BYTES.

Definition decode_log_id (b : bytes) : result LogId StorageError :=
  let? mirror := decode_persisted_bounded rc_decode_log_id b MAX_META_BYTES in
  stored (mirror_log_id mirror).

(** ** Reads *)

(** [marker]. *)
Definition marker (db : RaftDb) (key : MetaKey) : result (option LogId) StorageError :=
  match rd_meta db !! key with
  | Some v => let? id := decode_log_id v in Ok (Some id)
  | None => Ok None
  end.

(** [last_entry_log_id], [last_entry_index]. *)
Definition last_entry_log_id (db : RaftDb) : result (option LogId) StorageError :=
  match list.last (rows_in_order (rd_log db)) with
  | Some (_, value) => let? e := decode_entry value in Ok (Some (en_log_id e))
  | None => Ok None
  end.

Definition last_entry_index (db : RaftDb) : option N := list.last (indexes (rd_log db)).

(** [first_index_above]. *)
Definition first_index_above (db : RaftDb) (index : N) : option N :=
  head (filter (λ k, within (Excluded index) Unbounded k = true) (indexes (rd_log db))).

(** [openraft::LogState]. *)
Record LogState : Type := mk_LogState {
  ls_last_purged_log_id : option LogId;
  ls_last_log_id : option LogId;
}.

(** [log_state]. *)
Definition log_state (db : RaftDb) : result LogState StorageError :=
  let? last_purged := marker db KEY_LAST_PURGED in
  let? last_retained := last_entry_log_id db in
  Ok (mk_LogState last_purged
        (match last_retained with Some id => Some id | None => last_purged end)).

(** [read_vote], [read_committed]. *)
Definition read_vote (db : RaftDb) : result (option Vote) StorageError :=
  match rd_meta db !! KEY_VOTE with
  | Some v => let? vote := decode_vote v in Ok (Some vote)
  | None => Ok None
  end.

Definition read_committed (db : RaftDb) : result (option LogId) StorageError :=
  marker db KEY_COMMITTED.

(** The loop of [read], and [read]. *)
Fixpoint decode_rows (rows : list (N * bytes)) : result (list Entry) StorageError :=
  match rows with
  | [] => Ok []
  | (_, value) :: rest =>
      let? e := decode_entry value in
      let? es := decode_rows rest in
      Ok (e :: es)
  end.

Definition read (lower upper : Bound) (db : RaftDb) : result (list Entry) StorageError :=
  decode_rows (filter (λ kv, within lower upper kv.1 = true) (rows_in_order (rd_log db))).

(** ** Writes *)

(** [put_meta], [remove_meta]. *)
Definition put_meta (fate : IoFate) (key : MetaKey) (value : bytes) (db : RaftDb)
    : result unit StorageError * RaftDb :=
  durable_commit fate db (mk_RaftDb (<[key := value]> (rd_meta db)) (rd_log db)).

Definition remove_meta (fate : IoFate) (key : MetaKey) (db : RaftDb)
    : result unit StorageError * RaftDb :=
  durable_commit fate db (mk_RaftDb (delete key (rd_meta db)) (rd_log db)).

(** [save_vote], [save_committed]. *)
Definition save_vote (fate : IoFate) (vote : Vote) (db : RaftDb)
    : result unit StorageError * RaftDb :=
  match encode_vote vote with
  | Err e => (Err e, db)
  | Ok encoded => put_meta fate KEY_VOTE encoded db
  end.

Definition save_committed (fate : IoFate) (committed : option LogId) (db : RaftDb)
    : result unit StorageError * RaftDb :=
  match committed with
  | Some log_id =>
      match encode_log_id log_id with
      | Err e => (Err e, db)
      | Ok encoded => put_meta fate KEY_COMMITTED encoded db
      end
  | None => remove_meta fate KEY_COMMITTED db
  end.

(** The index of an entry. *)
Definition entry_index (e : Entry) : N := li_index (en_log_id e).

(** The loop of [append] over [entries.windows(2)]: the first pair that is not
    consecutive. *)
Fixpoint window_gap (entries : list Entry) : option StorageError :=
  match entries with
  | previous :: ((next :: _) as rest) =>
      if negb (bool_decide (checked_succ (entry_index previous) = Some (entry_index next)))
      then Some (SE_LogGap (u64_add (entry_index previous) 1) (entry_index next) GD_NotContiguous)
      else window_gap rest
  | _ => None
  end.

(** The entries above the purge marker. *)
Definition writable (purged : option LogId) (entries : list Entry) : list Entry :=
  match purged with
  | Some m => filter (λ e, li_index m < entry_index e) entries
  | None => entries
  end.

(** The hole check of [append] below the batch, above it, and both. *)
Definition frontier_gap (purged : option LogId) (first : N) (db : RaftDb) : option StorageError :=
  f ← match last_entry_index db with
      | Some retained => checked_succ retained
      | None => p ← purged; checked_succ (li_index p)
      end;
  if f <? first then Some (SE_LogGap f first GD_AfterLast) else None.

Definition survivor_gap (last : N) (db : RaftDb) : option StorageError :=
  next_retained ← first_index_above db last;
  if negb (bool_decide (checked_succ last = Some next_retained))
  then Some (SE_LogGap (default U64_MAX (checked_succ last)) next_retained GD_BelowSurvivors)
  else None.

Definition hole_check (purged : option LogId) (first last : N) (db : RaftDb) : option StorageError :=
  match frontier_gap purged first db with
  | Some gap => Some gap
  | None => survivor_gap last db
  end.

(** The encoding of the batch before its transaction. *)
Fixpoint encode_entries (entries : list Entry) : result (list (N * bytes)) StorageError :=
  match entries with
  | [] => Ok []
  | e :: rest =>
      let? b := encode_entry e in
      let? bs := encode_entries rest in
      Ok ((entry_index e, b) :: bs)
  end.

(** The loop of inserts. *)
Definition insert_rows_at (rows : list (N * bytes)) (m : gmap N bytes) : gmap N bytes :=
  foldl (λ m kv, <[kv.1 := kv.2]> m) m rows.

(** The second half of [append]: the entries above the marker. *)
Definition append_writable (fate : IoFate) (purged : option LogId) (ws : list Entry) (db : RaftDb)
    : result unit StorageError * RaftDb :=
  match head ws, list.last ws with
  | Some first, Some last =>
      match hole_check purged (entry_index first) (entry_index last) db with
      | Some gap => (Err gap, db)
      | None =>
          match encode_entries ws with
          | Err e => (Err e, db)
          | Ok encoded =>
              durable_commit fate db (mk_RaftDb (rd_meta db) (insert_rows_at encoded (rd_log db)))
          end
      end
  | _, _ => (Ok (), db)
  end.

(** [append]. *)
Definition append (fate : IoFate) (entries : list Entry) (db : RaftDb)
    : result unit StorageError * RaftDb :=
  if match entries with [] => true | _ => false end then (Ok (), db)
  else match window_gap entries, fate, marker db KEY_LAST_PURGED with
  | Some gap, _, _ => (Err gap, db)
  | None, IO_NoRead, _ => (Err SE_Redb, db)
  | None, _, Err e => (Err e, db)
  | None, _, Ok purged => append_writable fate purged (writable purged entries) db
  end.

(** [truncate]: [retain_in(log_id.index.., |_, _| false)]. *)
Definition truncate (fate : IoFate) (log_id : LogId) (db : RaftDb)
    : result unit StorageError * RaftDb :=
  durable_commit fate db
    (mk_RaftDb (rd_meta db) (filter (λ kv, kv.1 < li_index log_id) (rd_log db))).

(** [purge]. *)
Definition purge (fate : IoFate) (log_id : LogId) (db : RaftDb)
    : result unit StorageError * RaftDb :=
  match fate, marker db KEY_LAST_PURGED with
  | IO_NoRead, _ => (Err SE_Redb, db)
  | _, Err e => (Err e, db)
  | _, Ok existing =>
      if from_option (λ m, li_index log_id <=? li_index m) false existing then (Ok (), db)
      else match encode_log_id log_id with
      | Err e => (Err e, db)
      | Ok encoded =>
          durable_commit fate db
            (mk_RaftDb (<[KEY_LAST_PURGED := encoded]> (rd_meta db))
               (filter (λ kv, li_index log_id < kv.1) (rd_log db)))
      end
  end.

(** ** The actor *)

(** [enum LogCommand], without its reply channels and test seams. *)
Inductive LogCommand : Type :=
| LC_LogState
| LC_SaveVote (vote : Vote)
| LC_ReadVote
| LC_SaveCommitted (committed : option LogId)
| LC_ReadCommitted
| LC_Append (entries : list Entry)
| LC_Truncate (log_id : LogId)
| LC_Purge (log_id : LogId)
| LC_Read (lower upper : Bound)
| LC_Shutdown.

(** What a reply channel carries. *)
Inductive LogAnswer : Type :=
| LA_LogState (s : LogState)
| LA_Done
| LA_Vote (v : option Vote)
| LA_LogId (id : option LogId)
| LA_Entries (es : list Entry).

(** A read, whose transaction may fail to begin. *)
Definition answer_read {A : Type} (fate : IoFate) (f : A -> LogAnswer) (r : result A StorageError)
    (db : RaftDb) : result LogAnswer StorageError * RaftDb :=
  match fate, r with
  | IO_NoRead, _ => (Err SE_Redb, db)
  | _, Ok a => (Ok (f a), db)
  | _, Err e => (Err e, db)
  end.

Definition answer_write (r : result unit StorageError * RaftDb)
    : result LogAnswer StorageError * RaftDb :=
  (match r.1 with Ok _ => Ok LA_Done | Err e => Err e end, r.2).

(** The dispatch of [run]. *)
Definition serve_command (fate : IoFate) (c : LogCommand) (db : RaftDb)
    : result LogAnswer StorageError * RaftDb :=
  match c with
  | LC_LogState => answer_read fate LA_LogState (log_state db) db
  | LC_SaveVote vote => answer_write (save_vote fate vote db)
  | LC_ReadVote => answer_read fate LA_Vote (read_vote db) db
  | LC_SaveCommitted committed => answer_write (save_committed fate committed db)
  | LC_ReadCommitted => answer_read fate LA_LogId (read_committed db) db
  | LC_Append entries => answer_write (append fate entries db)
  | LC_Truncate log_id => answer_write (truncate fate log_id db)
  | LC_Purge log_id => answer_write (purge fate log_id db)
  | LC_Read lower upper => answer_read fate LA_Entries (read lower upper db) db
  | LC_Shutdown => (Err SE_ActorStopped, db)
  end.

(** [serve]: is the failure one that latches. *)
Definition latches (r : result LogAnswer StorageError) : bool :=
  match r with
  | Err e => puts_durability_in_question e
  | Ok _ => false
  end.

(** [drain_fatal]. *)
Definition drain_fatal (queue : list (LogCommand * IoFate)) : list (result LogAnswer StorageError) :=
  omap (λ c, match c.1 with LC_Shutdown => None | _ => Some (Err SE_Fatal) end) queue.

(** [run], over the commands in the order the queue hands them out: their
    replies and the database left. A command behind a shutdown finds its reply
    channel closed, as one sent after it does. *)
Fixpoint actor_run (queue : list (LogCommand * IoFate)) (db : RaftDb)
    : list (result LogAnswer StorageError) * RaftDb :=
  match queue with
  | [] => ([], db)
  | (LC_Shutdown, _) :: rest =>
      (omap (λ c, match c.1 with LC_Shutdown => None | _ => Some (Err SE_ActorStopped) end) rest, db)
  | (c, fate) :: rest =>
      let served := serve_command fate c db in
      if latches served.1 then (served.1 :: drain_fatal rest, served.2)
      else let others := actor_run rest served.2 in (served.1 :: others.1, others.2)
  end.

(** ** Startup *)

(** The loop of [validate_persisted_log] over the rows. *)
Fixpoint validate_log_rows (last_purged : option LogId) (previous : option N)
    (rows : list (N * bytes)) : result unit StorageError :=
  match rows with
  | [] => Ok ()
  | (index, value) :: rest =>
      let? e := decode_entry value in
      if negb (entry_index e =? index) then Err SE_StoredCorruption
      else if from_option (λ m, index <=? li_index m) false last_purged then Err SE_StoredCorruption
      else if match previous with
              | Some prev => negb (bool_decide (checked_succ prev = Some index))
              | None =>
                  from_option (λ m, negb (bool_decide (checked_succ (li_index m) = Some index)))
                    false last_purged
              end
      then Err SE_StoredCorruption
      else validate_log_rows last_purged (Some index) rest
  end.

(** [validate_persisted_log]. *)
Definition validate_persisted_log (db : RaftDb) : result unit StorageError :=
  let? _ := read_vote db in
  let? _ := marker db KEY_COMMITTED in
  let? last_purged := marker db KEY_LAST_PURGED in
  validate_log_rows last_purged None (rows_in_order (rd_log db)).
End store.

(** [raft.redb] as it is created. *)
Definition fresh_db : RaftDb := mk_RaftDb ∅ ∅.
