(* ===== verification/LogSafety.v ===== *)
(** * The log store keeps what it acknowledged

    The contract of a consensus log as a partial map from indexes to entries,
    and the proof that the store of [LogStore] implements it: every command is
    answered as the contract says or refused with nothing changed, the first
    failure that puts durability in question is the last thing answered, what
    was acknowledged before it is what the database holds, and a restart
    accepts that database. *)

From S2P Require Import Prelude Ids Contract Externals Limits State Tables Classify.
From S2P Require Import Ticket Authority Shape Genesis Resource Grant Retire.
From S2P Require Import Membership Apply Wire Boundary Durable Mirror LogStore.

#[local] Open Scope N_scope.

(** ** Ordered tables *)

#[export] Instance index_le_trans : Transitive index_le.
Proof. unfold index_le. intros ???. lia. Qed.
#[export] Instance index_le_total : Total index_le.
Proof. unfold index_le. intros a b. lia. Qed.

Lemma within_above n k : within (Excluded n) Unbounded k = true <-> n < k.
Proof. unfold within. by rewrite andb_true_r, N.ltb_lt. Qed.

Section tables.
Context {V : Type}.
Implicit Types (m : gmap N V).

Lemma elem_of_indexes m k : k ∈ indexes m <-> is_Some (m !! k).
Proof.
  unfold indexes. rewrite (merge_sort_Permutation index_le), elem_of_elements. apply elem_of_dom.
Qed.

Lemma indexes_sorted m : StronglySorted (<) (indexes m).
Proof.
  assert (NoDup (indexes m)) as Hn.
  { unfold indexes. rewrite (merge_sort_Permutation index_le). apply NoDup_elements. }
  pose proof (StronglySorted_merge_sort index_le (elements (dom m))) as Hs.
  change (StronglySorted index_le (indexes m)) in Hs.
  induction Hs as [|k l Hs IH Hall]; constructor; inversion Hn; subst; [auto|].
  rewrite Forall_forall in *. intros k' Hk'. specialize (Hall k' Hk'). unfold index_le in Hall.
  destruct (N.eq_dec k k'); [subst; by apply list_elem_of_In in Hk'|lia].
Qed.

Lemma indexes_last m k :
  list.last (indexes m) = Some k -> is_Some (m !! k) /\ forall j, is_Some (m !! j) -> j <= k.
Proof.
  intros Hl. apply last_Some in Hl as [l Hl]. split.
  - apply elem_of_indexes. rewrite Hl. set_solver.
  - intros j Hj. apply elem_of_indexes in Hj. pose proof (indexes_sorted m) as Hs.
    rewrite Hl in Hs, Hj. apply elem_of_app in Hj as [Hj|Hj]; [|set_solver].
    apply N.lt_le_incl. eapply StronglySorted_app_1_elem_of; [done|done|set_solver].
Qed.

Lemma indexes_last_None m : list.last (indexes m) = None -> m = ∅.
Proof.
  intros Hl%last_None. apply map_empty. intros k. destruct (m !! k) as [v|] eqn:Hk; [|done].
  assert (k ∈ indexes m) as Hin by (apply elem_of_indexes; eauto). rewrite Hl in Hin. set_solver.
Qed.

(** The first key above a bound. *)
Lemma first_above_Some m n k :
  head (filter (λ k, within (Excluded n) Unbounded k = true) (indexes m)) = Some k ->
  is_Some (m !! k) /\ n < k /\ forall j, is_Some (m !! j) -> n < j -> k <= j.
Proof.
  intros Hh. destruct (head_filter_Some _ _ _ Hh) as (l1 & l2 & Hl & Hl1).
  assert (within (Excluded n) Unbounded k = true /\ k ∈ indexes m) as [Hw Hk].
  { apply (list_elem_of_filter (λ k, within (Excluded n) Unbounded k = true)).
    destruct (filter _ _); [done|]. simplify_eq/=. left. }
  apply within_above in Hw.
  split_and!; [by apply elem_of_indexes|done|]. intros j Hj Hlt. apply elem_of_indexes in Hj.
  pose proof (indexes_sorted m) as Hs. rewrite Hl in Hs, Hj.
  apply elem_of_app in Hj as [Hj|[->|Hj]%elem_of_cons]; [|done|].
  - rewrite Forall_forall in Hl1. destruct (Hl1 j); [by apply list_elem_of_In|].
    by apply within_above.
  - apply StronglySorted_app in Hs as (_ & _ & Hs). inversion Hs as [|?? _ Hall]; subst.
    rewrite Forall_forall in Hall. by apply N.lt_le_incl, Hall, list_elem_of_In.
Qed.

Lemma first_above_None m n :
  head (filter (λ k, within (Excluded n) Unbounded k = true) (indexes m)) = None ->
  forall j, is_Some (m !! j) -> j <= n.
Proof.
  intros Hh j Hj. apply N.le_ngt. intros Hlt.
  assert (j ∈ filter (λ k, within (Excluded n) Unbounded k = true) (indexes m)) as Hin.
  { apply list_elem_of_filter. rewrite elem_of_indexes. split; [|done].
    by apply within_above. }
  destruct (filter _ _); [by apply elem_of_nil in Hin|done].
Qed.

Lemma rows_in_order_fst m : (rows_in_order m).*1 = indexes m.
Proof.
  unfold rows_in_order. assert (Forall (λ k, is_Some (m !! k)) (indexes m)) as Hall.
  { apply Forall_forall. intros k Hk. by apply elem_of_indexes, list_elem_of_In. }
  induction Hall as [|k l [v Hv] _ IH]; [done|]. simpl. rewrite Hv. simpl. by f_equal.
Qed.

Lemma rows_in_order_lookup m k v : (k, v) ∈ rows_in_order m -> m !! k = Some v.
Proof.
  unfold rows_in_order. rewrite list_elem_of_omap. intros (k' & _ & Hk).
  destruct (m !! k') eqn:E; simpl in Hk; by simplify_eq.
Qed.

Lemma rows_in_order_last m : fst <$> list.last (rows_in_order m) = list.last (indexes m).
Proof. rewrite <- rows_in_order_fst. by rewrite fmap_last. Qed.
End tables.

(** ** The contract *)

Section contract.
Context `{Codec : RaftCodec}.

(** A consensus log: the vote, the committed and purged positions, and the
    entries it retains by index. *)
Record RaftLog : Type := mk_RaftLog {
  rl_vote : option Vote;
  rl_committed : option LogId;
  rl_purged : option LogId;
  rl_entries : gmap N Entry;
}.

Definition log_entries (L : RaftLog) : list Entry := (rows_in_order (rl_entries L)).*2.

(** Entries laid over a log. *)
Definition overlay (es : list Entry) (m : gmap N Entry) : gmap N Entry :=
  foldl (λ m e, <[entry_index e := e]> m) m es.

(** A table without a hole inside it. *)
Definition convex {V : Type} (m : gmap N V) : Prop :=
  forall i j k, i <= j <= k -> is_Some (m !! i) -> is_Some (m !! k) -> is_Some (m !! j).

Definition consecutive (es : list Entry) : Prop :=
  forall i a b, es !! i = Some a -> es !! S i = Some b -> entry_index b = entry_index a + 1.

(** A batch continues a log: it is consecutive, leaves no hole among the
    retained entries, and on a log purged whole it starts right above the
    marker. *)
Definition continues (L : RaftLog) (es : list Entry) : Prop :=
  consecutive es /\
  let ws := writable (rl_purged L) es in
  convex (overlay ws (rl_entries L)) /\
  (rl_entries L = ∅ -> forall p e, rl_purged L = Some p -> head ws = Some e ->
     entry_index e = li_index p + 1).

(** What an accepted command does to the log, what it is answered, and whether
    it is accepted. *)
Definition log_effect (c : LogCommand) (L : RaftLog) : RaftLog :=
  match c with
  | LC_SaveVote vote => mk_RaftLog (Some vote) (rl_committed L) (rl_purged L) (rl_entries L)
  | LC_SaveCommitted committed => mk_RaftLog (rl_vote L) committed (rl_purged L) (rl_entries L)
  | LC_Append es =>
      mk_RaftLog (rl_vote L) (rl_committed L) (rl_purged L)
        (overlay (writable (rl_purged L) es) (rl_entries L))
  | LC_Truncate id =>
      mk_RaftLog (rl_vote L) (rl_committed L) (rl_purged L)
        (filter (λ kv, kv.1 < li_index id) (rl_entries L))
  | LC_Purge id =>
      if from_option (λ m, li_index id <=? li_index m) false (rl_purged L) then L
      else mk_RaftLog (rl_vote L) (rl_committed L) (Some id)
             (filter (λ kv, li_index id < kv.1) (rl_entries L))
  | _ => L
  end.

Definition log_answer (c : LogCommand) (L : RaftLog) : LogAnswer :=
  match c with
  | LC_LogState =>
      LA_LogState (mk_LogState (rl_purged L)
        (match list.last (log_entries L) with
         | Some e => Some (en_log_id e)
         | None => rl_purged L
         end))
  | LC_ReadVote => LA_Vote (rl_vote L)
  | LC_ReadCommitted => LA_LogId (rl_committed L)
  | LC_Read lower upper =>
      LA_Entries (filter (λ e, within lower upper (entry_index e) = true) (log_entries L))
  | _ => LA_Done
  end.

Definition log_accepts (c : LogCommand) (L : RaftLog) : Prop :=
  match c with
  | LC_Append es => continues L es
  | _ => True
  end.

(** The commands that carry a value to encode. *)
Definition carries_value (c : LogCommand) : bool :=
  match c with
  | LC_SaveVote _ | LC_SaveCommitted _ | LC_Append _ | LC_Purge _ => true
  | _ => false
  end.

(** A run of commands as the contract answers it: accepted, or refused with
    nothing changed because the batch leaves a hole or a value is too large to
    encode. *)
Inductive served : RaftLog -> list LogCommand -> list (result LogAnswer StorageError) -> RaftLog -> Prop :=
| served_nil L : served L [] [] L
| served_accepted L c cs answers L' :
    log_accepts c L -> served (log_effect c L) cs answers L' ->
    served L (c :: cs) (Ok (log_answer c L) :: answers) L'
| served_gap L c expected found detail cs answers L' :
    ~ log_accepts c L -> served L cs answers L' ->
    served L (c :: cs) (Err (SE_LogGap expected found detail) :: answers) L'
| served_oversized L c cs answers L' :
    carries_value c = true -> served L cs answers L' ->
    served L (c :: cs) (Err SE_EncodeFailed :: answers) L'.

(** ** Representation *)

Definition entries_match (rows : gmap N bytes) (m : gmap N Entry) : Prop :=
  forall i, option_Forall2 (λ b e, decode_entry b = Ok e) (rows !! i) (m !! i).

Record represents (db : RaftDb) (L : RaftLog) : Prop := {
  rp_vote : read_vote db = Ok (rl_vote L);
  rp_committed : marker db KEY_COMMITTED = Ok (rl_committed L);
  rp_purged : marker db KEY_LAST_PURGED = Ok (rl_purged L);
  rp_entries : entries_match (rd_log db) (rl_entries L);
}.

(** The shape every log keeps: an entry is filed at its index, which is a [u64]
    above the purge marker, and there is no hole among the entries. *)
Record log_inv (L : RaftLog) : Prop := {
  lo_filed i e : rl_entries L !! i = Some e -> entry_index e = i /\ i <= U64_MAX;
  lo_above i p : rl_purged L = Some p -> is_Some (rl_entries L !! i) -> li_index p < i;
  lo_convex : convex (rl_entries L);
}.

(** No hole either between the purge marker and the first entry. *)
Definition gapless (L : RaftLog) : Prop :=
  forall p, rl_purged L = Some p -> rl_entries L = ∅ \/ is_Some (rl_entries L !! (li_index p + 1)).

(** The widths Rust's types give a command. *)
Definition position_typed (id : LogId) : Prop := log_id_typed id /\ li_index id <= U64_MAX.

Definition log_command_typed (c : LogCommand) : Prop :=
  match c with
  | LC_SaveVote vote => vote_typed vote
  | LC_SaveCommitted committed => forall id, committed = Some id -> position_typed id
  | LC_Append es => Forall (λ e, entry_typed e /\ entry_index e <= U64_MAX) es
  | LC_Truncate id | LC_Purge id => position_typed id
  | _ => True
  end.
End contract.

(** ** Batches *)

Section batches.
Context `{UnknownCarrier}.
Implicit Types (es : list Entry) (m : gmap N Entry).

Lemma consecutive_cons e es :
  consecutive (e :: es) <->
  (forall b, head es = Some b -> entry_index b = entry_index e + 1) /\ consecutive es.
Proof.
  unfold consecutive. split.
  - intros Hc. split.
    + intros b Hb. apply (Hc 0%nat); [done|]. by destruct es.
    + intros i a b Ha Hb. by apply (Hc (S i)).
  - intros [He Hc] [|i] a b Ha Hb; simpl in *; [|by eapply Hc].
    simplify_eq. apply He. by destruct es.
Qed.

(** The indexes of a consecutive batch are an interval. *)
Lemma consecutive_interval es first last :
  consecutive es -> head es = Some first -> list.last es = Some last ->
  entry_index first <= entry_index last /\
  forall i, (exists e, e ∈ es /\ entry_index e = i) <-> entry_index first <= i <= entry_index last.
Proof.
  revert first. induction es as [|e es IH]; intros first Hc Hf Hl; [done|].
  simpl in Hf. simplify_eq. apply consecutive_cons in Hc as [He Hc].
  destruct es as [|b es].
  - simpl in Hl. simplify_eq. split; [lia|]. intros i. split.
    + intros (e & ->%list_elem_of_singleton & <-). lia.
    + intros Hi. exists last. split; [by left|]. lia.
  - rewrite last_cons_cons in Hl. specialize (He b eq_refl).
    destruct (IH b Hc eq_refl Hl) as [Hle Hin]. split; [lia|]. intros i. split.
    + intros (e & [->|He']%elem_of_cons & <-); [lia|].
      assert (entry_index b <= entry_index e <= entry_index last) by (apply Hin; eauto). lia.
    + intros Hi. destruct (N.eq_dec i (entry_index first)) as [->|Hne].
      * exists first. by split; [left|].
      * destruct (proj2 (Hin i)) as (e & Hes & <-); [lia|]. exists e. by split; [right|].
Qed.

Lemma consecutive_above p es :
  consecutive es -> consecutive (filter (λ e, p < entry_index e) es).
Proof.
  induction es as [|e es IH]; intros Hc; [done|]. rewrite filter_cons.
  apply consecutive_cons in Hc as [He Hc]. case_decide as Hp; [|auto].
  apply consecutive_cons. split; [|auto]. intros b Hb. apply He.
  destruct es as [|c es]; [done|]. rewrite filter_cons_True in Hb; [done|].
  specialize (He c eq_refl). lia.
Qed.

Lemma consecutive_writable purged es : consecutive es -> consecutive (writable purged es).
Proof. destruct purged; [apply consecutive_above|done]. Qed.

Lemma window_gap_None es :
  Forall (λ e, entry_index e <= U64_MAX) es -> window_gap es = None <-> consecutive es.
Proof.
  induction 1 as [|a es Ha Hes IH]; [split; [by intros _ [] ?? ?|done]|].
  rewrite consecutive_cons. destruct es as [|b es]; [split; [|done]|].
  { intros _. split; [done|]. by intros [] ?? ?. }
  simpl. rewrite <- IH. unfold checked_succ. inversion Hes; subst. split.
  - case_bool_decide as Hb; [|done]. intros Hw. split; [|done]. intros ? [= <-].
    destruct (N.eqb_spec (entry_index a) U64_MAX); simplify_eq. lia.
  - intros [Hb Hw]. specialize (Hb b eq_refl).
    destruct (N.eqb_spec (entry_index a) U64_MAX); [lia|].
    by rewrite bool_decide_eq_true_2 by (f_equal; lia).
Qed.

Lemma window_gap_gap es e : window_gap es = Some e -> exists x f d, e = SE_LogGap x f d.
Proof.
  induction es as [|a [|b es] IH]; [done..|]. simpl. case_match; [|auto].
  intros [= <-]. by eexists _, _, _.
Qed.

Lemma overlay_Some es m i :
  is_Some (overlay es m !! i) <-> is_Some (m !! i) \/ exists e, e ∈ es /\ entry_index e = i.
Proof.
  revert m. induction es as [|e es IH]; intros m; simpl.
  - split; [by left|]. intros [?|(e & []%elem_of_nil & _)]; done.
  - rewrite IH. destruct (decide (entry_index e = i)) as [<-|Hne].
    + rewrite lookup_insert_eq. split; [|by left; eauto]. intros _. right. exists e.
      by split; [left|].
    + rewrite lookup_insert_ne by done. split.
      * intros [?|(e' & ? & ?)]; [by left|right; exists e'; by split; [right|]].
      * intros [?|(e' & [->|?]%elem_of_cons & ?)]; [by left|done|right; by exists e'].
Qed.

Lemma overlay_lookup es m i e :
  overlay es m !! i = Some e -> m !! i = Some e \/ (e ∈ es /\ entry_index e = i).
Proof.
  revert m. induction es as [|a es IH]; intros m; simpl; [by left|]. intros Hl.
  destruct (IH _ Hl) as [Hi|[He Hi]].
  - apply lookup_insert_Some in Hi as [[<- <-]|[_ Hi]]; [right|by left]. split; [left|done].
  - right. split; [by right|done].
Qed.

Lemma checked_succ_Some n k : n <= U64_MAX -> checked_succ n = Some k -> k = n + 1 /\ n < U64_MAX.
Proof. unfold checked_succ. destruct (N.eqb_spec n U64_MAX); [done|]. intros ? [= <-]. lia. Qed.

(** An interval laid over a convex table is convex exactly when it reaches the
    entries on both of its sides. *)
Lemma overlay_convex es m first last :
  consecutive es -> head es = Some first -> list.last es = Some last -> convex m ->
  convex (overlay es m) <->
  (forall r, is_Some (m !! r) -> (forall j, is_Some (m !! j) -> j <= r) ->
     entry_index first <= r + 1) /\
  (forall n, is_Some (m !! n) -> entry_index last < n ->
     (forall j, is_Some (m !! j) -> entry_index last < j -> n <= j) ->
     n = entry_index last + 1).
Proof.
  intros Hes Hf Hl Hm. destruct (consecutive_interval _ _ _ Hes Hf Hl) as [Hle Hin]. split.
  - intros Hc. split.
    + intros r Hr Hmax. destruct (N.le_gt_cases (entry_index first) (r + 1)) as [|Hgt]; [done|].
      destruct (Hc r (r + 1) (entry_index first)) as [e He].
      * lia.
      * apply overlay_Some. by left.
      * apply overlay_Some. right. apply Hin. lia.
      * assert (is_Some (overlay es m !! (r + 1))) as Hs%overlay_Some by eauto.
        destruct Hs as [Hs|Hs%Hin]; [specialize (Hmax _ Hs)|]; lia.
    + intros n Hn Hgt Hmin. destruct (N.le_gt_cases n (entry_index last + 1)) as [|Hlt]; [lia|].
      destruct (Hc (entry_index last) (entry_index last + 1) n) as [e He].
      * lia.
      * apply overlay_Some. right. apply Hin. lia.
      * apply overlay_Some. by left.
      * assert (is_Some (overlay es m !! (entry_index last + 1))) as Hs%overlay_Some by eauto.
        destruct Hs as [Hs|Hs%Hin]; [specialize (Hmin _ Hs)|]; lia.
  - intros [Hlow Hhigh] i j k Hijk Hi%overlay_Some Hk%overlay_Some. apply overlay_Some.
    rewrite Hin in Hi, Hk |- *.
    destruct (N.lt_ge_cases j (entry_index first)) as [Hj|Hj];
      [left|destruct (N.le_gt_cases j (entry_index last)) as [|Hj']; [by right|left]].
    + destruct Hi as [Hi|]; [|lia]. destruct Hk as [Hk|Hk]; [by apply (Hm i j k)|].
      destruct (list.last (indexes m)) as [r|] eqn:Hr.
      * apply indexes_last in Hr as [Hr Hmax]. specialize (Hlow r Hr Hmax).
        apply (Hm i j r); [lia|done..].
      * apply indexes_last_None in Hr. subst m. destruct Hi as [? Hi]. by rewrite lookup_empty in Hi.
    + destruct Hk as [Hk|]; [|lia]. destruct Hi as [Hi|Hi]; [by apply (Hm i j k)|].
      destruct (head (filter (λ k, within (Excluded (entry_index last)) Unbounded k = true)
                        (indexes m))) as [n|] eqn:Hn.
      * apply first_above_Some in Hn as (Hn & Hgt & Hmin).
        rewrite (Hhigh n Hn Hgt Hmin) in Hn. apply (Hm (entry_index last + 1) j k); [lia|done..].
      * apply (first_above_None _ _ Hn) in Hk. lia.
Qed.
End batches.

(** ** The store implements the contract *)

Section refinement.
Context `{Laws : RaftCodecLaws}.

Lemma encode_bounded_Ok {T} (f : T -> option bytes) v max b :
  encode_bounded f v max = Ok b -> f v = Some b /\ len b <= max.
Proof.
  unfold encode_bounded, encode_owned. destruct (f v); [|done]. case_match; [done|].
  intros [= <-]. boolean_facts. by split.
Qed.

Lemma encode_bounded_Err {T} (f : T -> option bytes) v max e :
  encode_bounded f v max = Err e -> e = SE_EncodeFailed.
Proof. unfold encode_bounded, encode_owned. destruct (f v); [case_match|]; by intros [= <-]. Qed.

Lemma decode_bounded {T} (g : bytes -> option T) b v max :
  g b = Some v -> len b <= max -> decode_persisted_bounded g b max = Ok v.
Proof.
  intros Hg Hl. unfold decode_persisted_bounded, check_stored_len, decode_persisted.
  destruct (N.ltb_spec max (len b)); [lia|]. by rewrite Hg.
Qed.

Lemma entry_survives e b : entry_typed e -> encode_entry e = Ok b -> decode_entry b = Ok e.
Proof.
  intros Ht [He Hl]%encode_bounded_Ok. unfold decode_entry.
  rewrite (decode_bounded _ _ _ _ (rc_entry_roundtrip _ _ He) Hl). simpl.
  by rewrite mirror_entry_roundtrip.
Qed.

Lemma vote_survives v b : vote_typed v -> encode_vote v = Ok b -> decode_vote b = Ok v.
Proof.
  intros Ht [He Hl]%encode_bounded_Ok. unfold decode_vote.
  rewrite (decode_bounded _ _ _ _ (rc_vote_roundtrip _ _ He) Hl). simpl.
  by rewrite mirror_vote_roundtrip.
Qed.

Lemma log_id_survives id b : log_id_typed id -> encode_log_id id = Ok b -> decode_log_id b = Ok id.
Proof.
  intros Ht [He Hl]%encode_bounded_Ok. unfold decode_log_id.
  rewrite (decode_bounded _ _ _ _ (rc_log_id_roundtrip _ _ He) Hl). simpl.
  by rewrite mirror_log_id_roundtrip.
Qed.

(** *** Rows and entries *)

Lemma entries_match_Some rows m i : entries_match rows m -> is_Some (rows !! i) <-> is_Some (m !! i).
Proof. intros Hm. specialize (Hm i). inversion Hm; split; eauto; intros [? ?]; done. Qed.

Lemma entries_match_indexes rows m : entries_match rows m -> indexes rows = indexes m.
Proof.
  intros Hm. unfold indexes. f_equal. f_equal. apply set_eq. intros i.
  rewrite !elem_of_dom. by apply entries_match_Some.
Qed.

Lemma entries_match_rows rows m :
  entries_match rows m ->
  Forall2 (λ kb ke, kb.1 = ke.1 /\ decode_entry kb.2 = Ok ke.2) (rows_in_order rows) (rows_in_order m).
Proof.
  intros Hm. unfold rows_in_order. rewrite (entries_match_indexes _ _ Hm).
  induction (indexes m) as [|k l IH]; [constructor|]. simpl.
  specialize (Hm k). inversion Hm; simpl; [by constructor|done].
Qed.

Lemma decode_matching (P : N -> Prop) `{!forall k, Decision (P k)} rows m :
  Forall2 (λ kb ke, kb.1 = ke.1 /\ decode_entry kb.2 = Ok ke.2) rows m ->
  decode_rows (filter (λ kb, P kb.1) rows) = Ok ((filter (λ ke, P ke.1) m).*2).
Proof.
  induction 1 as [|[k b] [k' e] rows m [Hk Hd] _ IH]; [done|]. simpl in Hk, Hd. subst k'.
  rewrite !filter_cons. simpl. case_decide; [|done]. simpl. by rewrite Hd, IH.
Qed.

Lemma filter_filed (P : N -> Prop) `{!forall k, Decision (P k)} L :
  log_inv L ->
  (filter (λ ke, P ke.1) (rows_in_order (rl_entries L))).*2
  = filter (λ e, P (entry_index e)) (log_entries L).
Proof.
  intros HL. unfold log_entries.
  assert (Forall (λ ke, entry_index ke.2 = ke.1) (rows_in_order (rl_entries L))) as Hall.
  { apply Forall_forall. intros [k e] Hin%list_elem_of_In%rows_in_order_lookup.
    by apply (lo_filed L HL). }
  induction Hall as [|[k e] l Hk _ IH]; [done|]. simpl in Hk. rewrite fmap_cons, !filter_cons.
  cbn [fst snd]. rewrite Hk. case_decide; [|done]. rewrite fmap_cons. by f_equal.
Qed.

Lemma entries_match_insert rows m i b e :
  entries_match rows m -> decode_entry b = Ok e -> entries_match (<[i := b]> rows) (<[i := e]> m).
Proof.
  intros Hm Hd j. destruct (decide (i = j)) as [<-|]; [rewrite !lookup_insert_eq; by constructor|].
  rewrite !lookup_insert_ne by done. apply Hm.
Qed.

Lemma encoded_overlay es encoded rows m :
  Forall entry_typed es -> encode_entries es = Ok encoded -> entries_match rows m ->
  entries_match (insert_rows_at encoded rows) (overlay es m).
Proof.
  intros Ht. revert encoded rows m. induction Ht as [|e es He _ IH]; intros encoded rows m; simpl.
  - by intros [= <-].
  - destruct (encode_entry e) as [b|] eqn:Hb; [|done].
    destruct (encode_entries es) as [bs|]; [|done]. intros [= <-] Hm. simpl.
    apply IH; [done|]. apply entries_match_insert; [done|]. by apply entry_survives.
Qed.

Lemma encode_entries_Err es e : encode_entries es = Err e -> e = SE_EncodeFailed.
Proof.
  induction es as [|a es IH]; simpl; [done|]. destruct (encode_entry a) eqn:Ha.
  - destruct (encode_entries es); [done|]. intros [= ->]. by apply IH.
  - intros [= ->]. by eapply encode_bounded_Err.
Qed.

Lemma entries_match_filter rows m (P : N -> Prop) `{!forall k, Decision (P k)} :
  entries_match rows m ->
  entries_match (filter (λ kv, P kv.1) rows) (filter (λ kv, P kv.1) m).
Proof.
  intros Hm i. specialize (Hm i). rewrite !map_lookup_filter.
  inversion Hm as [b e Hd Hb He|Hb He]; simpl; [|constructor].
  case_guard; simpl; by constructor.
Qed.

(** *** Appending *)

Lemma writable_typed purged es :
  Forall (λ e, entry_typed e /\ entry_index e <= U64_MAX) es ->
  Forall (λ e, entry_typed e /\ entry_index e <= U64_MAX) (writable purged es).
Proof.
  intros Ht. destruct purged; [|done]. simpl. rewrite Forall_forall in *.
  intros e [_ He]%list_elem_of_In%list_elem_of_filter. by apply Ht, list_elem_of_In.
Qed.

Lemma writable_above p es e : e ∈ writable (Some p) es -> li_index p < entry_index e.
Proof. by intros [? _]%list_elem_of_filter. Qed.

Lemma head_elem {A} (l : list A) x : head l = Some x -> x ∈ l.
Proof. destruct l; [done|]. intros [= ->]. left. Qed.

Lemma last_elem {A} (l : list A) x : list.last l = Some x -> x ∈ l.
Proof. intros [l' ->]%last_Some. set_solver. Qed.

Lemma hole_check_gap purged first last db e :
  hole_check purged first last db = Some e -> exists x f d, e = SE_LogGap x f d.
Proof.
  unfold hole_check, frontier_gap, survivor_gap. intros Hc.
  destruct (match last_entry_index db with Some _ => _ | None => _ end) as [f|]; simpl in Hc.
  - destruct (f <? first); [simplify_eq/=; by eexists _, _, _|].
    destruct (first_index_above db last); [|done]. simpl in Hc. case_match; simplify_eq.
    by eexists _, _, _.
  - destruct (first_index_above db last); [|done]. simpl in Hc. case_match; simplify_eq.
    by eexists _, _, _.
Qed.

Lemma log_inv_bound L i : log_inv L -> is_Some (rl_entries L !! i) -> i <= U64_MAX.
Proof. intros HL [e He]. by apply (lo_filed L HL) in He as [_ ?]. Qed.

Lemma frontier_gap_exact L db first :
  log_inv L -> entries_match (rd_log db) (rl_entries L) ->
  (forall p, rl_purged L = Some p -> li_index p < first <= U64_MAX) -> first <= U64_MAX ->
  frontier_gap (rl_purged L) first db = None <->
  (forall r, is_Some (rl_entries L !! r) -> (forall j, is_Some (rl_entries L !! j) -> j <= r) ->
     first <= r + 1) /\
  (rl_entries L = ∅ -> forall p, rl_purged L = Some p -> first = li_index p + 1).
Proof.
  intros HL Hm Habove Hfm. unfold frontier_gap, last_entry_index, checked_succ.
  rewrite (entries_match_indexes _ _ Hm).
  destruct (list.last (indexes (rl_entries L))) as [r|] eqn:Hr.
  - apply indexes_last in Hr as [Hr Hmaxr]. pose proof (log_inv_bound L r HL Hr). split.
    + intros Hn. split.
      * intros r' Hr' Hmax'. assert (r' = r) as -> by (apply N.le_antisymm; auto).
        destruct (N.eqb_spec r U64_MAX); [lia|]. simpl in Hn.
        destruct (N.ltb_spec (r + 1) first); [done|lia].
      * intros Hempty. rewrite Hempty in Hr. destruct Hr as [? Hr]. by rewrite lookup_empty in Hr.
    + intros [Hlow _]. specialize (Hlow r Hr Hmaxr). destruct (N.eqb_spec r U64_MAX); [done|].
      simpl. destruct (N.ltb_spec (r + 1) first); [lia|done].
  - apply indexes_last_None in Hr. rewrite Hr. split.
    + intros Hn. split; [intros r [? Hr']; by rewrite lookup_empty in Hr'|].
      intros _ p Hp. specialize (Habove p Hp). rewrite Hp in Hn. simpl in Hn.
      destruct (N.eqb_spec (li_index p) U64_MAX); [lia|]. simpl in Hn.
      destruct (N.ltb_spec (li_index p + 1) first); [done|lia].
    + intros [_ He]. destruct (rl_purged L) as [p|]; [|done]. simpl.
      destruct (N.eqb_spec (li_index p) U64_MAX); [done|]. simpl.
      by rewrite (He eq_refl p eq_refl), N.ltb_irrefl.
Qed.

Lemma survivor_gap_exact L db last :
  log_inv L -> entries_match (rd_log db) (rl_entries L) ->
  survivor_gap last db = None <->
  (forall n, is_Some (rl_entries L !! n) -> last < n ->
     (forall j, is_Some (rl_entries L !! j) -> last < j -> n <= j) -> n = last + 1).
Proof.
  intros HL Hm. unfold survivor_gap, first_index_above. rewrite (entries_match_indexes _ _ Hm).
  destruct (head _) as [n|] eqn:Hn.
  - apply first_above_Some in Hn as (Hn & Hgt & Hmin). pose proof (log_inv_bound L n HL Hn).
    simpl. unfold checked_succ. destruct (N.eqb_spec last U64_MAX); [lia|].
    case_bool_decide as Heq; simpl; split; try done.
    + intros _ n' Hn' Hgt' Hmin'. simplify_eq. apply N.le_antisymm; auto.
    + intros Hall. destruct Heq. f_equal. symmetry. auto.
  - split; [|done]. intros _ n Hs Hgt. apply (first_above_None _ _ Hn) in Hs. lia.
Qed.

(** The two hole checks refuse exactly the batches that leave a hole. *)
Lemma hole_check_exact L db ws first last :
  log_inv L -> entries_match (rd_log db) (rl_entries L) -> consecutive ws ->
  head ws = Some first -> list.last ws = Some last ->
  (forall e, e ∈ ws -> entry_index e <= U64_MAX) ->
  (forall p e, rl_purged L = Some p -> e ∈ ws -> li_index p < entry_index e) ->
  hole_check (rl_purged L) (entry_index first) (entry_index last) db = None <->
  convex (overlay ws (rl_entries L)) /\
  (rl_entries L = ∅ -> forall p e, rl_purged L = Some p -> head ws = Some e ->
     entry_index e = li_index p + 1).
Proof.
  intros HL Hm Hc Hf Hl Hmax Habove.
  rewrite (overlay_convex ws _ first last Hc Hf Hl (lo_convex L HL)).
  pose proof (Hmax first (head_elem _ _ Hf)) as Hfm.
  rewrite <- (survivor_gap_exact L db (entry_index last) HL Hm). unfold hole_check.
  destruct (frontier_gap_exact L db (entry_index first) HL Hm) as [H1 H2]; [|done|].
  { intros p Hp. split; [|done]. eauto using head_elem. }
  destruct (frontier_gap _ _ _).
  - split; [done|]. intros [[Ha _] Hb]. apply H2. split; [done|]. intros He p Hp. by eapply Hb.
  - destruct (H1 eq_refl) as [Ha Hb]. split; [|by intros [[_ ?] _]].
    intros Hs. split; [done|]. intros He p e Hp Hh. simplify_eq. by apply Hb.
Qed.

(** *** One command *)

(** How a command ends: as the contract says, refused with nothing changed, or
    in a failure that leaves either the old log or the new one. *)
Inductive outcome (c : LogCommand) (fate : IoFate) (db : RaftDb) (L : RaftLog)
    : result LogAnswer StorageError -> RaftDb -> Prop :=
| out_accepted db' :
    log_accepts c L -> represents db' (log_effect c L) -> outcome c fate db L (Ok (log_answer c L)) db'
| out_gap x f d : ~ log_accepts c L -> outcome c fate db L (Err (SE_LogGap x f d)) db
| out_oversized : carries_value c = true -> outcome c fate db L (Err SE_EncodeFailed) db
| out_unknown db' :
    fate <> IO_Done -> (db' = db \/ (log_accepts c L /\ represents db' (log_effect c L))) ->
    outcome c fate db L (Err SE_Redb) db'.

Lemma commit_outcome c fate db L new :
  log_accepts c L -> represents new (log_effect c L) -> log_answer c L = LA_Done ->
  let r := answer_write (durable_commit fate db new) in outcome c fate db L r.1 r.2.
Proof.
  intros Ha Hr Hd. destruct fate; simpl; [rewrite <- Hd; by constructor|..];
    constructor; try done; auto.
Qed.

Lemma read_outcome {A} c fate db L (f : A -> LogAnswer) a :
  represents db L -> log_accepts c L -> log_effect c L = L -> log_answer c L = f a ->
  let r := answer_read fate f (Ok a) db in outcome c fate db L r.1 r.2.
Proof.
  intros Hr Ha He Hd. destruct fate; simpl; [|by constructor; auto|..];
    rewrite <- Hd; constructor; try done; by rewrite He.
Qed.

Lemma read_vote_log db log : read_vote (mk_RaftDb (rd_meta db) log) = read_vote db.
Proof. done. Qed.
Lemma marker_log db log k : marker (mk_RaftDb (rd_meta db) log) k = marker db k.
Proof. done. Qed.

Lemma marker_put db k k' b log :
  k <> k' -> marker (mk_RaftDb (<[k := b]> (rd_meta db)) log) k' = marker db k'.
Proof. intros Hk. unfold marker. simpl. by rewrite lookup_insert_ne. Qed.

Lemma marker_put_eq db k b log id :
  decode_log_id b = Ok id -> marker (mk_RaftDb (<[k := b]> (rd_meta db)) log) k = Ok (Some id).
Proof. intros Hd. unfold marker. simpl. by rewrite lookup_insert_eq, Hd. Qed.

Lemma read_vote_put db k b log :
  k <> KEY_VOTE -> read_vote (mk_RaftDb (<[k := b]> (rd_meta db)) log) = read_vote db.
Proof. intros Hk. unfold read_vote. simpl. by rewrite lookup_insert_ne. Qed.

Lemma log_state_represented db L :
  represents db L -> exists s, log_state db = Ok s /\ log_answer LC_LogState L = LA_LogState s.
Proof.
  intros Hr. unfold log_state. rewrite (rp_purged _ _ Hr). unfold last_entry_log_id.
  pose proof (entries_match_rows _ _ (rp_entries _ _ Hr)) as Hrows.
  simpl. unfold log_entries. rewrite fmap_last.
  destruct (list.last (rows_in_order (rd_log db))) as [[k b]|] eqn:Hl.
  - apply last_Some in Hl as [l Hl]. rewrite Hl in Hrows.
    apply Forall2_app_inv_l in Hrows as (l1 & l2 & _ & H2 & ->).
    apply Forall2_cons_inv_l in H2 as ([k' e] & l3 & [_ Hd] & H3 & ->).
    apply Forall2_nil_inv_l in H3 as ->. rewrite last_snoc. simpl in Hd |- *. rewrite Hd.
    by eexists.
  - apply last_None in Hl. rewrite Hl in Hrows. apply Forall2_nil_inv_l in Hrows as ->.
    by eexists.
Qed.

Lemma read_represented lower upper db L :
  represents db L -> log_inv L ->
  read lower upper db
  = Ok (filter (λ e, within lower upper (entry_index e) = true) (log_entries L)).
Proof.
  intros Hr HL. unfold read.
  etrans; [exact (decode_matching (λ k, within lower upper k = true) _ _
                    (entries_match_rows _ _ (rp_entries _ _ Hr)))|].
  f_equal. exact (filter_filed (λ k, within lower upper k = true) L HL).
Qed.

(** A batch wholly below the marker is accepted and changes nothing. *)
Lemma nothing_to_append es fate db L :
  represents db L -> log_inv L -> consecutive es -> writable (rl_purged L) es = [] ->
  outcome (LC_Append es) fate db L (Ok LA_Done) db.
Proof.
  intros Hr HL Hc Hw. apply (out_accepted (LC_Append es)).
  - split; [done|]. cbn zeta. rewrite Hw. split; [apply (lo_convex L HL)|done].
  - simpl. rewrite Hw. by destruct L.
Qed.

Lemma append_writable_outcome es fate db L :
  represents db L -> log_inv L -> log_command_typed (LC_Append es) -> consecutive es ->
  let r := answer_write (append_writable fate (rl_purged L) (writable (rl_purged L) es) db) in
  outcome (LC_Append es) fate db L r.1 r.2.
Proof.
  intros Hr HL Ht Hc. apply (writable_typed (rl_purged L)) in Ht. rewrite Forall_forall in Ht.
  pose proof (consecutive_writable (rl_purged L) es Hc) as Hws. unfold append_writable.
  destruct (head (writable _ es)) as [first|] eqn:Hf.
  2: { apply nothing_to_append; [done..|]. by destruct (writable _ es). }
  destruct (list.last (writable _ es)) as [last|] eqn:Hl.
  2: { apply last_None in Hl. by rewrite Hl in Hf. }
  pose proof (hole_check_exact L db _ first last HL (rp_entries _ _ Hr) Hws Hf Hl) as Hexact.
  destruct Hexact as [Hin Hout].
  { intros e He. by apply Ht, list_elem_of_In. }
  { intros p e Hp He. rewrite Hp in He. by eapply writable_above. }
  destruct (hole_check _ _ _ _) as [gap|] eqn:Hh.
  - destruct (hole_check_gap _ _ _ _ _ Hh) as (x & f & d & ->). constructor. by intros [_ ?%Hout].
  - destruct (encode_entries _) as [encoded|e] eqn:He.
    2: { rewrite (encode_entries_Err _ _ He). by constructor. }
    apply commit_outcome; [split; auto|split; simpl; try apply Hr|done].
    eapply encoded_overlay; [|done|apply Hr]. apply Forall_forall. intros e He'. by apply Ht.
Qed.

Lemma append_outcome es fate db L :
  represents db L -> log_inv L -> log_command_typed (LC_Append es) ->
  let r := answer_write (append fate es db) in outcome (LC_Append es) fate db L r.1 r.2.
Proof.
  intros Hr HL Ht. unfold append.
  assert (Forall (λ e, entry_index e <= U64_MAX) es) as Hmax
    by (eapply Forall_impl; [|exact Ht]; by intros ? []).
  case_match eqn:Hnil.
  { destruct es; [|done]. apply nothing_to_append; [done..|by intros [] ?? ?|by destruct (rl_purged L)]. }
  destruct (window_gap es) as [gap|] eqn:Hw.
  { destruct (window_gap_gap _ _ Hw) as (x & f & d & ->). constructor. intros [Hc _].
    apply (window_gap_None es Hmax) in Hc. congruence. }
  apply (window_gap_None es Hmax) in Hw. rewrite (rp_purged _ _ Hr).
  pose proof (append_writable_outcome es fate db L Hr HL Ht Hw) as Ho.
  destruct fate; [exact Ho|by constructor; auto|exact Ho..].
Qed.

Lemma purge_outcome id fate db L :
  represents db L -> position_typed id ->
  let r := answer_write (purge fate id db) in outcome (LC_Purge id) fate db L r.1 r.2.
Proof.
  intros Hr [Ht _]. unfold purge. rewrite (rp_purged _ _ Hr).
  destruct (from_option (λ m, li_index id <=? li_index m) false (rl_purged L)) eqn:Hp.
  - assert (log_effect (LC_Purge id) L = L) as Heff by (simpl; by rewrite Hp).
    destruct fate; simpl; [|by constructor; auto|..]; apply (out_accepted (LC_Purge id)); try done;
      by rewrite Heff.
  - assert (forall b, encode_log_id id = Ok b ->
      represents (mk_RaftDb (<[KEY_LAST_PURGED := b]> (rd_meta db))
                    (filter (λ kv, li_index id < kv.1) (rd_log db))) (log_effect (LC_Purge id) L)) as Hn.
    { intros b Hb. simpl. rewrite Hp. split; simpl.
      - rewrite read_vote_put by done. apply Hr.
      - rewrite marker_put by done. apply Hr.
      - apply marker_put_eq. by apply log_id_survives.
      - apply (entries_match_filter _ _ (λ k, li_index id < k)), Hr. }
    destruct (encode_log_id id) as [b|e] eqn:Hb.
    + pose proof (commit_outcome (LC_Purge id) fate db L _ I (Hn b eq_refl) eq_refl) as Hc.
      by destruct fate; [exact Hc|simpl; constructor; auto|exact Hc..].
    + apply encode_bounded_Err in Hb as ->. destruct fate; simpl; constructor; auto.
Qed.

Lemma serve_outcome c fate db L :
  represents db L -> log_inv L -> log_command_typed c -> c <> LC_Shutdown ->
  outcome c fate db L (serve_command fate c db).1 (serve_command fate c db).2.
Proof.
  intros Hr HL Ht Hs. destruct c as [|vote| |committed| |es|id|id|lower upper|]; cbn [serve_command].
  - destruct (log_state_represented db L Hr) as (s & -> & Ha). by apply read_outcome.
  - unfold save_vote. destruct (encode_vote vote) as [b|e] eqn:Hb.
    + apply commit_outcome; [done| |done]. split; simpl.
      * unfold read_vote. simpl. by rewrite lookup_insert_eq, (vote_survives vote b).
      * rewrite marker_put by done. apply Hr.
      * rewrite marker_put by done. apply Hr.
      * apply Hr.
    + apply encode_bounded_Err in Hb as ->. by constructor.
  - rewrite (rp_vote _ _ Hr). by apply read_outcome.
  - destruct committed as [id|]; unfold save_committed.
    + destruct (Ht id eq_refl) as [Hid _]. destruct (encode_log_id id) as [b|e] eqn:Hb.
      * apply commit_outcome; [done| |done]. split; simpl.
        -- rewrite read_vote_put by done. apply Hr.
        -- apply marker_put_eq. by apply log_id_survives.
        -- rewrite marker_put by done. apply Hr.
        -- apply Hr.
      * apply encode_bounded_Err in Hb as ->. by constructor.
    + apply commit_outcome; [done| |done]. split; simpl.
      * unfold read_vote. simpl. rewrite lookup_delete_ne by done. apply Hr.
      * unfold marker. simpl. by rewrite lookup_delete_eq.
      * unfold marker. simpl. rewrite lookup_delete_ne by done. apply Hr.
      * apply Hr.
  - unfold read_committed. rewrite (rp_committed _ _ Hr). by apply read_outcome.
  - by apply append_outcome.
  - apply commit_outcome; [done| |done]. split; simpl; try apply Hr.
    exact (entries_match_filter _ _ (λ k, k < li_index id) (rp_entries _ _ Hr)).
  - by apply purge_outcome.
  - rewrite (read_represented _ _ _ _ Hr HL). by apply read_outcome.
  - done.
Qed.

(** *** The shape of the log *)

Lemma below_Some {V} (m : gmap N V) n i :
  is_Some (filter (λ kv, kv.1 < n) m !! i) <-> is_Some (m !! i) /\ i < n.
Proof.
  unfold is_Some. setoid_rewrite map_lookup_filter_Some. naive_solver.
Qed.

Lemma above_Some {V} (m : gmap N V) n i :
  is_Some (filter (λ kv, n < kv.1) m !! i) <-> is_Some (m !! i) /\ n < i.
Proof.
  unfold is_Some. setoid_rewrite map_lookup_filter_Some. naive_solver.
Qed.

Lemma append_inv es L :
  log_inv L -> log_command_typed (LC_Append es) -> continues L es ->
  log_inv (log_effect (LC_Append es) L).
Proof.
  intros HL Ht (_ & Hc & _). split; simpl; [| |done].
  - intros i e [He|[He <-]]%overlay_lookup; [by apply (lo_filed L HL)|]. split; [done|].
    apply (writable_typed (rl_purged L)) in Ht. rewrite Forall_forall in Ht.
    by apply Ht, list_elem_of_In.
  - intros i p Hp [He|(e & He & <-)]%overlay_Some; [by apply (lo_above L HL)|].
    rewrite Hp in He. by eapply writable_above.
Qed.

Lemma effect_inv c L :
  log_inv L -> log_command_typed c -> log_accepts c L -> log_inv (log_effect c L).
Proof.
  intros HL Ht Ha. destruct c as [|vote| |committed| |es|id|id|lower upper|]; try exact HL.
  - split; apply HL.
  - split; apply HL.
  - by apply append_inv.
  - split; simpl.
    + intros i e [He _]%map_lookup_filter_Some. by apply (lo_filed L HL).
    + intros i p Hp [Hi _]%below_Some. by apply (lo_above L HL).
    + intros i j k Hijk [Hi _]%below_Some [Hk ?]%below_Some. apply below_Some.
      split; [by apply (lo_convex L HL i j k)|lia].
  - simpl. destruct (from_option _ _ _); [done|]. split; simpl.
    + intros i e [He _]%map_lookup_filter_Some. by apply (lo_filed L HL).
    + intros i p [= <-] [_ Hi]%above_Some. done.
    + intros i j k Hijk [Hi ?]%above_Some [Hk _]%above_Some. apply above_Some.
      split; [by apply (lo_convex L HL i j k)|lia].
Qed.

(** A hole never opens between the marker and the first entry, except by a purge
    below the first entry. *)
Definition fits (c : LogCommand) (L : RaftLog) : Prop :=
  forall id, c = LC_Purge id ->
  forall i, is_Some (rl_entries L !! i) -> exists j, is_Some (rl_entries L !! j) /\ j <= li_index id + 1.

Lemma effect_gapless c L :
  log_inv L -> gapless L -> log_accepts c L -> fits c L -> gapless (log_effect c L).
Proof.
  intros HL Hg Ha Hf. destruct c as [|vote| |committed| |es|id|id|lower upper|]; try exact Hg.
  - intros p Hp. simpl in *. destruct Ha as (_ & _ & He). destruct (Hg p Hp) as [Hempty|Hs].
    + destruct (head (writable (rl_purged L) es)) as [e|] eqn:Hh.
      * right. apply overlay_Some. right. exists e. split; [by apply head_elem|]. by eapply He.
      * left. destruct (writable _ es); [done|done].
    + right. apply overlay_Some. by left.
  - intros p Hp. simpl in *. destruct (Hg p Hp) as [Hempty|Hs].
    + left. rewrite Hempty. apply map_filter_empty.
    + destruct (N.lt_ge_cases (li_index p + 1) (li_index id)) as [Hlt|Hge].
      * right. by apply below_Some.
      * left. apply map_empty. intros i. destruct (filter _ _ !! i) eqn:Hi; [|done].
        assert (is_Some (filter (λ kv, kv.1 < li_index id) (rl_entries L) !! i)) as Hs' by eauto.
        apply below_Some in Hs' as [Hi' ?].
        pose proof (lo_above L HL i p Hp Hi'). lia.
  - simpl. destruct (from_option _ _ _) eqn:Hp; [done|]. intros p [= <-].
    simpl. destruct (decide (filter (λ kv, li_index id < kv.1) (rl_entries L) = ∅)) as [|Hne]; [by left|].
    right. apply map_choose in Hne as (i & e & Hi).
    assert (is_Some (filter (λ kv, li_index id < kv.1) (rl_entries L) !! i)) as Hs by eauto.
    apply above_Some in Hs as [Hs Hlt].
    apply above_Some. split; [|lia].
    destruct (Hf id eq_refl i Hs) as (j & Hj & Hle). apply (lo_convex L HL j _ i); [lia|done..].
Qed.

(** *** Startup accepts exactly the logs without a hole *)

Fixpoint adjacent (l : list N) : Prop :=
  match l with
  | a :: ((b :: _) as t) => b = a + 1 /\ adjacent t
  | _ => True
  end.

Lemma indexes_adjacent {V} (m : gmap N V) : convex m -> adjacent (indexes m).
Proof.
  intros Hm. cut (forall l1 l2, indexes m = l1 ++ l2 -> adjacent l2); [by intros Hc; apply (Hc [])|].
  intros l1 l2. revert l1. induction l2 as [|a l2 IH]; intros l1 Hl; [done|].
  destruct l2 as [|b l2]; [done|]. split; [|apply (IH (l1 ++ [a])); by rewrite <- app_assoc].
  pose proof (indexes_sorted m) as Hs. rewrite Hl in Hs. apply StronglySorted_app in Hs as (Hlt & _ & Hs).
  apply StronglySorted_inv in Hs as [Hs Ha]. apply StronglySorted_inv in Hs as [_ Hb].
  rewrite Forall_forall in Ha, Hb. pose proof (Ha b (or_introl eq_refl)) as Hab.
  destruct (N.eq_dec b (a + 1)) as [|Hne]; [done|]. exfalso.
  assert (is_Some (m !! (a + 1))) as Hin.
  { apply (Hm a _ b); [lia|apply elem_of_indexes; rewrite Hl; set_solver..]. }
  apply elem_of_indexes in Hin. rewrite Hl in Hin.
  apply elem_of_app in Hin as [Hin|[?|[?|Hin]%elem_of_cons]%elem_of_cons]; [|lia..|].
  - specialize (Hlt _ a Hin ltac:(left)). lia.
  - specialize (Hb (a + 1) (proj1 (list_elem_of_In _ _) Hin)). lia.
Qed.

Lemma validate_rows_exact purged previous rows :
  Forall (λ kb, exists e, decode_entry kb.2 = Ok e /\ entry_index e = kb.1 /\ kb.1 <= U64_MAX /\
                forall p, purged = Some p -> li_index p < kb.1) rows ->
  adjacent (rows.*1) ->
  validate_log_rows purged previous rows = Ok () <->
  (forall k, head (rows.*1) = Some k ->
     match previous with
     | Some q => k = q + 1
     | None => forall p, purged = Some p -> k = li_index p + 1
     end).
Proof.
  intros Hall. revert previous. induction Hall as [|[k b] rows (e & Hd & He & Hk & Hp) Hall IH];
    intros previous Hadj; [done|]. simpl in *. rewrite Hd, He, N.eqb_refl. simpl.
  replace (from_option (λ m, k <=? li_index m) false purged) with false.
  2: { destruct purged as [p|]; [|done]. specialize (Hp p eq_refl). symmetry. by apply N.leb_gt. }
  assert (validate_log_rows purged (Some k) rows = Ok ()) as Hrest.
  { apply IH; [by destruct rows as [|[]]; [|apply Hadj]|]. intros k' Hk'.
    destruct rows as [|[] ?]; [done|]. simplify_eq/=. by destruct Hadj. }
  assert (forall q, q <= k -> negb (bool_decide (checked_succ q = Some k)) = false <-> k = q + 1) as Hsucc.
  { intros q Hq. rewrite negb_false_iff, bool_decide_eq_true. unfold checked_succ.
    destruct (N.eqb_spec q U64_MAX); [split; [done|lia]|]. split; [by intros [= <-]|by intros ->]. }
  destruct previous as [q|]; simpl.
  - split.
    + destruct (negb _) eqn:Hn; [done|]. intros _ ? [= <-]. rewrite negb_false_iff, bool_decide_eq_true in Hn.
      unfold checked_succ in Hn. destruct (N.eqb_spec q U64_MAX); by simplify_eq.
    + intros Hq. specialize (Hq k eq_refl). by rewrite (proj2 (Hsucc q ltac:(lia)) Hq).
  - destruct purged as [p|]; simpl; [|done]. specialize (Hp p eq_refl). split.
    + destruct (negb _) eqn:Hn; [done|]. intros _ ? [= <-] ? [= <-]. apply Hsucc; [lia|done].
    + intros Hq. by rewrite (proj2 (Hsucc (li_index p) ltac:(lia)) (Hq k eq_refl p eq_refl)).
Qed.

Lemma validate_exact db L :
  represents db L -> log_inv L -> validate_persisted_log db = Ok () <-> gapless L.
Proof.
  intros Hr HL. unfold validate_persisted_log.
  rewrite (rp_vote _ _ Hr), (rp_committed _ _ Hr), (rp_purged _ _ Hr).
  pose proof (entries_match_rows _ _ (rp_entries _ _ Hr)) as Hrows.
  rewrite validate_rows_exact.
  - rewrite rows_in_order_fst, (entries_match_indexes _ _ (rp_entries _ _ Hr)). unfold gapless. split.
    + intros Hh p Hp. destruct (indexes (rl_entries L)) as [|k l] eqn:Hi.
      * left. apply indexes_last_None. by rewrite Hi.
      * right. rewrite <- (Hh k eq_refl p Hp). apply elem_of_indexes. rewrite Hi. left.
    + intros Hg k Hk p Hp. pose proof (head_elem _ _ Hk) as Hs%elem_of_indexes.
      pose proof (lo_above L HL k p Hp Hs). destruct (Hg p Hp) as [Hempty|Hs'].
      * rewrite Hempty in Hs. destruct Hs as [? Hs]. by rewrite lookup_empty in Hs.
      * apply elem_of_indexes in Hs'. pose proof (indexes_sorted (rl_entries L)) as Hsort.
        destruct (indexes (rl_entries L)) as [|k' l]; [done|]. simplify_eq/=.
        apply StronglySorted_inv in Hsort as [_ Hall]. rewrite Forall_forall in Hall.
        apply elem_of_cons in Hs' as [?|Hin]; [lia|].
        specialize (Hall _ (proj1 (list_elem_of_In _ _) Hin)). lia.
  - apply Forall_forall. intros [k b] Hin%list_elem_of_In%rows_in_order_lookup. simpl.
    pose proof (rp_entries _ _ Hr k) as Hm. rewrite Hin in Hm. inversion Hm as [b0 e Hd Hb0 He|]; subst.
    symmetry in He. destruct (lo_filed L HL k e He) as [Hidx Hb]. exists e. split_and!; [done..|].
    intros p Hp. apply (lo_above L HL); [done|by eexists].
  - rewrite rows_in_order_fst, (entries_match_indexes _ _ (rp_entries _ _ Hr)).
    apply indexes_adjacent, HL.
Qed.
End refinement.

(** ** Runs *)

Section runs.
Context `{Laws : RaftCodecLaws}.

Lemma drained_fatal queue : Forall (λ a, a = Err SE_Fatal) (drain_fatal queue).
Proof. induction queue as [|[[] ?] queue IH]; simpl; repeat constructor; exact IH. Qed.

Lemma drained_stopped (queue : list (LogCommand * IoFate)) :
  Forall (λ a : result LogAnswer StorageError, a = Err SE_ActorStopped)
    (omap (λ c, match c.1 with LC_Shutdown => None | _ => Some (Err SE_ActorStopped) end) queue).
Proof. induction queue as [|[[] ?] queue IH]; simpl; repeat constructor; exact IH. Qed.

#[local] Instance shutdown_dec (c : LogCommand) : Decision (c = LC_Shutdown).
Proof. destruct c; first [by left|by right]. Defined.

(** How a run ends: with its last command, at a shutdown, or at the first
    failure, after which every answer says so. *)
Inductive run_end (L : RaftLog)
    : list (LogCommand * IoFate) -> list (result LogAnswer StorageError) -> RaftLog -> Prop :=
| end_complete : run_end L [] [] L
| end_shutdown fate rest tail :
    Forall (λ a, a = Err SE_ActorStopped) tail ->
    run_end L ((LC_Shutdown, fate) :: rest) tail L
| end_failed c fate rest tail L' :
    fate <> IO_Done -> L' = L \/ (log_accepts c L /\ L' = log_effect c L) ->
    Forall (λ a, a = Err SE_Fatal) tail ->
    run_end L ((c, fate) :: rest) (Err SE_Redb :: tail) L'.

(** C5: A consensus log keeps what it acknowledged. Whatever commands are
    queued, and wherever reads and commits fail, the answers are those of the
    contract up to the first failure that puts durability in question: each
    command was performed, or refused with nothing changed because its batch
    leaves a hole or a value is too large. After that failure everything is
    answered as fatal. The database then holds exactly the log the
    acknowledged commands made, or that log with the one failed command
    performed, and a restart accepts it exactly when it has no hole above its
    purge marker. *)
Theorem acknowledged_log_survives queue db L :
  represents db L -> log_inv L -> Forall (λ c, log_command_typed c.1) queue ->
  exists done rest answered tail L1 L',
    queue = done ++ rest /\ (actor_run queue db).1 = answered ++ tail /\
    served L done.*1 answered L1 /\
    run_end L1 rest tail L' /\
    represents (actor_run queue db).2 L' /\
    (validate_persisted_log (actor_run queue db).2 = Ok () <-> gapless L').
Proof.
  intros Hr HL Ht. revert db L Hr HL. induction Ht as [|[c fate] queue Hc Ht IH]; intros db L Hr HL.
  { exists [], [], [], [], L, L. split_and!; try done; [constructor..|by apply validate_exact]. }
  destruct (decide (c = LC_Shutdown)) as [->|Hs].
  { exists [], ((LC_Shutdown, fate) :: queue), [], (actor_run ((LC_Shutdown, fate) :: queue) db).1, L, L.
    split_and!; try done; [constructor..|by apply validate_exact]. apply drained_stopped. }
  assert (actor_run ((c, fate) :: queue) db
          = let s := serve_command fate c db in
            if latches s.1 then (s.1 :: drain_fatal queue, s.2)
            else ((s.1 :: (actor_run queue s.2).1), (actor_run queue s.2).2)) as -> by by destruct c.
  cbn zeta. pose proof (serve_outcome c fate db L Hr HL Hc Hs) as Ho.
  destruct (serve_command fate c db) as [a db1]. simpl in Ho |- *.
  destruct Ho as [db1 Ha Hr1|x f d Hna|Hv|db1 Hf Hdb]; simpl.
  - destruct (IH db1 _ Hr1 (effect_inv c L HL Hc Ha))
      as (done & rest & answered & tail & L1 & L' & -> & -> & Hs1 & He & Hr' & Hvl).
    exists ((c, fate) :: done), rest, (Ok (log_answer c L) :: answered), tail, L1, L'.
    split_and!; try done. by constructor.
  - destruct (IH db L Hr HL) as (done & rest & answered & tail & L1 & L' & -> & -> & Hs1 & He & Hr' & Hvl).
    exists ((c, fate) :: done), rest, (Err (SE_LogGap x f d) :: answered), tail, L1, L'.
    split_and!; try done. by constructor.
  - destruct (IH db L Hr HL) as (done & rest & answered & tail & L1 & L' & -> & -> & Hs1 & He & Hr' & Hvl).
    exists ((c, fate) :: done), rest, (Err SE_EncodeFailed :: answered), tail, L1, L'.
    split_and!; try done. by constructor.
  - pose proof (drained_fatal queue).
    destruct Hdb as [->|[Ha Hr1]]; eexists [], ((c, fate) :: queue), [], _, L, _;
      (split_and!; [done|done|constructor| |done|]).
    + constructor; [done|by left|done].
    + by apply validate_exact.
    + constructor; [done|by right|done].
    + by apply validate_exact, effect_inv.
Qed.

(** The stores reached from a fresh one by any commands, their commits failing
    anywhere, with restarts between them: a restart reads the same database. A
    purge is at or above the entry before the first one retained. *)
Definition purge_fits (db : RaftDb) (id : LogId) : Prop :=
  forall k, head (indexes (rd_log db)) = Some k -> k <= li_index id + 1.

Inductive log_reachable : RaftDb -> Prop :=
| lr_fresh : log_reachable fresh_db
| lr_command db c fate :
    log_reachable db -> log_command_typed c ->
    (forall id, c = LC_Purge id -> purge_fits db id) ->
    log_reachable (serve_command fate c db).2.

Definition empty_log : RaftLog := mk_RaftLog None None None ∅.

Lemma fresh_represents : represents fresh_db empty_log.
Proof.
  split; try done. intros i. cbn [rd_log fresh_db rl_entries empty_log].
  rewrite !lookup_empty. constructor.
Qed.

Lemma empty_log_inv : log_inv empty_log.
Proof.
  split; cbn [rl_entries rl_purged empty_log]; [|done|].
  - intros i e. by rewrite lookup_empty.
  - intros i j k _ [e He]. by rewrite lookup_empty in He.
Qed.

Lemma reachable_represents db :
  log_reachable db -> exists L, represents db L /\ log_inv L /\ gapless L.
Proof.
  induction 1 as [|db c fate _ (L & Hr & HL & Hg) Ht Hp].
  { exists empty_log. split_and!; [apply fresh_represents|apply empty_log_inv|by intros ?]. }
  destruct (decide (c = LC_Shutdown)) as [->|Hs]; [by exists L|].
  assert (fits c L) as Hf.
  { intros id -> i Hi. specialize (Hp id eq_refl). unfold purge_fits in Hp.
    rewrite (entries_match_indexes _ _ (rp_entries _ _ Hr)) in Hp.
    apply elem_of_indexes in Hi. destruct (indexes (rl_entries L)) as [|k l] eqn:Hl;
      [by apply elem_of_nil in Hi|]. exists k. split; [|by apply Hp].
    apply elem_of_indexes. rewrite Hl. left. }
  pose proof (serve_outcome c fate db L Hr HL Ht Hs) as Ho.
  destruct (serve_command fate c db) as [a db1]. simpl in Ho |- *.
  assert (log_accepts c L -> log_inv (log_effect c L) /\ gapless (log_effect c L)) as Heff
    by (intros Ha; split; [by apply effect_inv|by apply effect_gapless]).
  destruct Ho as [db1 Ha Hr1|x f d Hna|Hv|db1 Hf' [->|[Ha Hr1]]]; try by exists L.
  - exists (log_effect c L). by split; [|apply Heff].
  - exists (log_effect c L). by split; [|apply Heff].
Qed.

(** A voter's log always opens again: after any commands, whatever commits
    failed on either side of their commit point and wherever the process
    stopped, startup validation accepts the database. *)
Theorem log_store_always_reopens db :
  log_reachable db -> validate_persisted_log db = Ok ().
Proof.
  intros (L & Hr & HL & Hg)%reachable_represents. by apply (validate_exact db L).
Qed.
End runs.

(** ** A run *)

(** A codec to run the definitions with, for blank entries. *)
Definition log_id_bits (w : LogIdV1) : bytes :=
  bits_of (countable.encode (lv_term w, lv_leader_node_id w, lv_index w)).
Definition log_id_of_bits (b : bytes) : option LogIdV1 :=
  (λ t, mk_LogIdV1 t.1.1 t.1.2 t.2) <$> countable.decode (of_bits b).
Definition vote_bits (w : VoteV1) : bytes :=
  bits_of (countable.encode (vv_term w, vv_leader_node_id w, vv_committed w)).
Definition vote_of_bits (b : bytes) : option VoteV1 :=
  (λ t, mk_VoteV1 t.1.1 t.1.2 t.2) <$> countable.decode (of_bits b).

#[local] Instance log_run_carrier : UnknownCarrier := unit.

#[local] Instance log_run_codec : RaftCodec := {
  rc_encode_entry w :=
    match rev_payload w with EPV_Blank => Some (log_id_bits (rev_log_id w)) | _ => None end;
  rc_decode_entry b := (λ id, mk_RaftEntryV1 id EPV_Blank) <$> log_id_of_bits b;
  rc_encode_vote w := Some (vote_bits w);
  rc_decode_vote := vote_of_bits;
  rc_encode_log_id w := Some (log_id_bits w);
  rc_decode_log_id := log_id_of_bits;
}.

Lemma log_id_bits_roundtrip w : log_id_of_bits (log_id_bits w) = Some w.
Proof. unfold log_id_of_bits, log_id_bits. rewrite of_bits_of, countable.decode_encode. by destruct w. Qed.

#[local] Instance log_run_laws : RaftCodecLaws.
Proof.
  split.
  - intros [id []] b; simpl; try done. intros [= <-]. by rewrite log_id_bits_roundtrip.
  - intros w b [= <-]. simpl. unfold vote_of_bits, vote_bits. rewrite of_bits_of, countable.decode_encode.
    by destruct w.
  - intros w b [= <-]. apply log_id_bits_roundtrip.
Qed.

Definition sample_position (term index : N) : LogId := mk_LogId term (replicate 32 Byte.x04) index.
Definition blank (term index : N) : Entry := mk_Entry (sample_position term index) EP_Blank.

(** A vote, three entries, a conflicting tail, a purge whose commit fails, and
    a read behind it. *)
Definition sample_queue : list (LogCommand * IoFate) :=
  [ (LC_SaveVote (mk_Vote 3 (replicate 32 Byte.x04) true), IO_Done);
    (LC_Append [blank 1 0; blank 1 1; blank 1 2], IO_Done);
    (LC_Append [blank 2 5], IO_Done);
    (LC_Truncate (sample_position 1 2), IO_Done);
    (LC_Append [blank 2 2; blank 2 3], IO_Done);
    (LC_Purge (sample_position 1 1), IO_AfterCommit);
    (LC_Read Unbounded Unbounded, IO_Done) ].

Lemma sample_queue_typed : Forall (λ c, log_command_typed c.1) sample_queue.
Proof. repeat constructor; try done; intros ??. Qed.

Lemma acknowledged_log_survives_witness :
  (exists done rest answered tail L1 L',
    sample_queue = done ++ rest /\ (actor_run sample_queue fresh_db).1 = answered ++ tail /\
    served empty_log done.*1 answered L1 /\
    run_end L1 rest tail L' /\
    represents (actor_run sample_queue fresh_db).2 L' /\
    (validate_persisted_log (actor_run sample_queue fresh_db).2 = Ok () <-> gapless L')) /\
  (actor_run sample_queue fresh_db).1
  = [Ok LA_Done; Ok LA_Done; Err (SE_LogGap 3 5 GD_AfterLast); Ok LA_Done; Ok LA_Done; Err SE_Redb;
     Err SE_Fatal].
Proof.
  split; [|by vm_compute].
  exact (acknowledged_log_survives sample_queue fresh_db empty_log fresh_represents empty_log_inv
           sample_queue_typed).
Defined.

(** The store after the three appends and a crash during the purge. *)
Definition sample_store : RaftDb :=
  (serve_command IO_AfterCommit (LC_Purge (sample_position 1 1))
     (serve_command IO_Done (LC_Append [blank 1 0; blank 1 1; blank 1 2]) fresh_db).2).2.

Lemma sample_store_reachable : log_reachable sample_store.
Proof.
  apply lr_command; [apply lr_command; [apply lr_fresh| |done]| |].
  - repeat constructor; done.
  - by split.
  - intros id [= <-] k Hk. vm_compute in Hk. by simplify_eq.
Qed.

Lemma log_store_always_reopens_witness :
  validate_persisted_log sample_store = Ok () /\ indexes (rd_log sample_store) = [2].
Proof.
  split; [|by vm_compute]. exact (log_store_always_reopens sample_store sample_store_reachable).
Defined.

(** A purge below the first entry of a log that was never purged is accepted,
    and startup refuses the store it leaves. *)
Lemma purge_below_the_first_entry :
  let db := (serve_command IO_Done (LC_Append [blank 1 5; blank 1 6]) fresh_db).2 in
  (serve_command IO_Done (LC_Purge (sample_position 1 2)) db).1 = Ok LA_Done /\
  validate_persisted_log (serve_command IO_Done (LC_Purge (sample_position 1 2)) db).2
  = Err SE_StoredCorruption.
Proof. by vm_compute. Qed.
