(* ===== verification/Store.v ===== *)
(** * The Store service: methods, requests and the mutation pipeline

    Models [aster/src/coordination/store/methods.rs], the mutation requests,
    replies and bounds of [store/wire.rs], and the mutation and retirement paths
    of [store/host.rs] with the preflight queries of [storage/machine.rs]: the
    method table, the decoding of a frame into the action that is hashed,
    proposed and journaled, the leader barrier and its witness, and the staged
    pipeline from a frame to a status or a typed reply. The codec of a request
    type and the consensus library's answers are parameters. *)

From S2P Require Import Prelude Reason Ids Contract Externals Limits State Tables Classify.
From S2P Require Import Shape Resource Grant Retire Membership Apply Wire Boundary Journal.

#[local] Open Scope N_scope.
#[local] Open Scope coordination_scope.

(** ** The method table *)

(** [enum Class]. *)
Inductive Class_ : Type :=
| SequencedMutation
| SessionlessMutation
| LinearizableRead
| StatusCut
| Stream.

(** [enum Permission]. *)
Inductive Permission : Type :=
| P_Resource (rights : N)
| P_HolderPlus (rights : N)
| P_Administrator
| P_ActorOrAdministrator.

(** [enum MutationKind]. *)
Inductive MutationKind : Type :=
| MK_Acquire
| MK_Renew
| MK_CompareAndSet
| MK_Release
| MK_ReleaseWithValue
| MK_Revoke
| MK_SetGrant
| MK_SetAdmin
| MK_ChangeMembership
| MK_CancelMembership.

#[export] Instance Class__eq_dec : EqDecision Class_.
Proof. solve_decision. Defined.
#[export] Instance Permission_eq_dec : EqDecision Permission.
Proof. solve_decision. Defined.
#[export] Instance MutationKind_eq_dec : EqDecision MutationKind.
Proof. solve_decision. Defined.

(** [MutationKind::success_outcome_code]. *)
Definition success_outcome_code (k : MutationKind) : Z :=
  match k with
  | MK_Acquire => 1
  | MK_Renew => 2
  | MK_CompareAndSet => 3
  | MK_Release | MK_ReleaseWithValue => 4
  | MK_Revoke => 5
  | MK_SetGrant => 6
  | MK_SetAdmin => 7
  | MK_ChangeMembership => 8
  | MK_CancelMembership => 10
  end%Z.

(** [struct MethodSpec]. *)
Record MethodSpec : Type := mk_MethodSpec {
  ms_name : bytes;
  ms_code : Z;
  ms_class : Class_;
  ms_permission : Permission;
  ms_mutation : option MutationKind;
}.

Abbreviation name s := (String.list_byte_of_string s).

(** [METHODS]. *)
Definition METHODS : list MethodSpec :=
  [ mk_MethodSpec (name "acquire") 1 SequencedMutation (P_Resource RIGHT_ACQUIRE) (Some MK_Acquire);
    mk_MethodSpec (name "renew") 2 SequencedMutation (P_HolderPlus RIGHT_RENEW) (Some MK_Renew);
    mk_MethodSpec (name "read_linearizable") 0 LinearizableRead (P_Resource RIGHT_READ) None;
    mk_MethodSpec (name "compare_and_set") 3 SequencedMutation (P_HolderPlus RIGHT_MUTATE)
      (Some MK_CompareAndSet);
    mk_MethodSpec (name "release") 4 SequencedMutation (P_HolderPlus RIGHT_RELEASE) (Some MK_Release);
    mk_MethodSpec (name "release_with_value") 5 SequencedMutation
      (P_HolderPlus (N.lor RIGHT_RELEASE RIGHT_MUTATE)) (Some MK_ReleaseWithValue);
    mk_MethodSpec (name "revoke") 6 SequencedMutation (P_Resource RIGHT_REVOKE) (Some MK_Revoke);
    mk_MethodSpec (name "set_grant") 7 SequencedMutation P_Administrator (Some MK_SetGrant);
    mk_MethodSpec (name "set_admin") 8 SequencedMutation P_Administrator (Some MK_SetAdmin);
    mk_MethodSpec (name "change_membership") 9 SequencedMutation P_Administrator
      (Some MK_ChangeMembership);
    mk_MethodSpec (name "cancel_membership") 11 SequencedMutation P_Administrator
      (Some MK_CancelMembership);
    mk_MethodSpec (name "membership_status") 0 LinearizableRead P_Administrator None;
    mk_MethodSpec (name "inspect_acl") 0 LinearizableRead P_Administrator None;
    mk_MethodSpec (name "inspect_admins") 0 LinearizableRead P_Administrator None;
    mk_MethodSpec (name "retire_client") 10 SessionlessMutation P_ActorOrAdministrator None;
    mk_MethodSpec (name "probe_client") 0 LinearizableRead P_ActorOrAdministrator None;
    mk_MethodSpec (name "group_status") 0 StatusCut P_Administrator None;
    mk_MethodSpec (name "audit_stream") 0 Stream P_Administrator None;
    mk_MethodSpec (name "recovery_export") 0 Stream P_Administrator None ]%Z.

(** [spec]. *)
Definition spec (method : bytes) : option MethodSpec :=
  List.find (λ m, bool_decide (ms_name m = method)) METHODS.

(** ** Requests *)

#[export] Instance ResourceKeyV1_eq_dec : EqDecision ResourceKeyV1.
Proof. solve_decision. Defined.

(** The ten request structs; each repeats the mutation prefix. *)
Record AcquireRequestV1 : Type := mk_AcquireRequestV1 {
  aqr_protocol_version : Z;
  aqr_group_id : bytes;
  aqr_client_id : bytes;
  aqr_sequence : N;
  aqr_resource : ResourceKeyV1;
  aqr_ttl_ms : N;
}.

Record RenewRequestV1 : Type := mk_RenewRequestV1 {
  rnr_protocol_version : Z;
  rnr_group_id : bytes;
  rnr_client_id : bytes;
  rnr_sequence : N;
  rnr_fence : FenceV1;
}.

Record CompareAndSetRequestV1 : Type := mk_CompareAndSetRequestV1 {
  csr_protocol_version : Z;
  csr_group_id : bytes;
  csr_client_id : bytes;
  csr_sequence : N;
  csr_fence : FenceV1;
  csr_expected_value_revision : N;
  csr_new_value : bytes;
}.

Record ReleaseRequestV1 : Type := mk_ReleaseRequestV1 {
  rlr_protocol_version : Z;
  rlr_group_id : bytes;
  rlr_client_id : bytes;
  rlr_sequence : N;
  rlr_fence : FenceV1;
}.

Record ReleaseWithValueRequestV1 : Type := mk_ReleaseWithValueRequestV1 {
  rwr_protocol_version : Z;
  rwr_group_id : bytes;
  rwr_client_id : bytes;
  rwr_sequence : N;
  rwr_fence : FenceV1;
  rwr_expected_value_revision : N;
  rwr_final_value : bytes;
}.

Record RevokeRequestV1 : Type := mk_RevokeRequestV1 {
  rvr_protocol_version : Z;
  rvr_group_id : bytes;
  rvr_client_id : bytes;
  rvr_sequence : N;
  rvr_resource : ResourceKeyV1;
  rvr_expected_epoch : option N;
}.

Record SetGrantRequestV1 : Type := mk_SetGrantRequestV1 {
  sgr_protocol_version : Z;
  sgr_group_id : bytes;
  sgr_client_id : bytes;
  sgr_sequence : N;
  sgr_resource : ResourceKeyV1;
  sgr_target_node_id : bytes;
  sgr_rights : N;
  sgr_expected_acl_revision : N;
}.

Record SetAdminRequestV1 : Type := mk_SetAdminRequestV1 {
  sar_protocol_version : Z;
  sar_group_id : bytes;
  sar_client_id : bytes;
  sar_sequence : N;
  sar_target_node_id : bytes;
  sar_enabled : bool;
  sar_expected_admin_revision : N;
}.

Record ChangeMembershipRequestV1 : Type := mk_ChangeMembershipRequestV1 {
  cmr_protocol_version : Z;
  cmr_group_id : bytes;
  cmr_client_id : bytes;
  cmr_sequence : N;
  cmr_operation_id : bytes;
  cmr_expected_membership_log_id : option LogIdV1;
  cmr_desired_voters : list NodeIdV1;
  cmr_retained_learners : list NodeIdV1;
  cmr_member_seeds : list MemberSeedV1;
}.

Record CancelMembershipRequestV1 : Type := mk_CancelMembershipRequestV1 {
  cnr_protocol_version : Z;
  cnr_group_id : bytes;
  cnr_client_id : bytes;
  cnr_sequence : N;
  cnr_operation_id : bytes;
  cnr_expected_phase_code : Z;
}.

(** [struct RetireClientRequestV1], [struct RetireClientReplyWireV1]. *)
Record RetireClientRequestV1 : Type := mk_RetireClientRequestV1 {
  rtr_protocol_version : Z;
  rtr_group_id : bytes;
  rtr_target_node_id : bytes;
  rtr_target_client_id : bytes;
}.

Record RetireClientReplyWireV1 : Type := mk_RetireClientReplyWireV1 {
  rtw_protocol_version : Z;
  rtw_group_id : bytes;
  rtw_outcome_code : Z;
  rtw_reason_code : Z;
}.

(** [payload_fory::<T>().deserialize] of each request type. *)
Class StoreCodec : Type := {
  decode_acquire : bytes -> option AcquireRequestV1;
  decode_renew : bytes -> option RenewRequestV1;
  decode_compare_and_set : bytes -> option CompareAndSetRequestV1;
  decode_release : bytes -> option ReleaseRequestV1;
  decode_release_with_value : bytes -> option ReleaseWithValueRequestV1;
  decode_revoke : bytes -> option RevokeRequestV1;
  decode_set_grant : bytes -> option SetGrantRequestV1;
  decode_set_admin : bytes -> option SetAdminRequestV1;
  decode_change_membership : bytes -> option ChangeMembershipRequestV1;
  decode_cancel_membership : bytes -> option CancelMembershipRequestV1;
  decode_retire_client : bytes -> option RetireClientRequestV1;
}.

(** ** Bounds *)

Definition STORE_PROTOCOL_VERSION : Z := 1.
Definition MAX_AUDIT_STREAM_LIMIT : N := 10000.

(** [enum WireInvalid], without the field names it prints. *)
Inductive WireInvalid : Type :=
| WI_NodeIdWidth
| WI_GroupIdWidth
| WI_Id16Width
| WI_HashWidth
| WI_ProtocolVersion
| WI_Namespace
| WI_Key
| WI_Value
| WI_Ttl
| WI_Rights
| WI_Ticket
| WI_JoinPermit
| WI_AuditLimit.

#[export] Instance WireInvalid_eq_dec : EqDecision WireInvalid.
Proof. solve_decision. Defined.

(** [if b { return Err(e) }]. *)
Definition refuse_if {E : Type} (b : bool) (e : E) : result () E := if b then Err e else Ok ().

(** [struct MutationPrefix]. *)
Record MutationPrefix : Type := mk_MutationPrefix {
  px_group_id : bytes;
  px_client_id : bytes;
  px_sequence : N;
}.

(** [wire::prefix]. *)
Definition prefix (protocol_version : Z) (group_id client_id : bytes) (sequence : N)
    : result MutationPrefix WireInvalid :=
  let? _ := refuse_if (negb (protocol_version =? STORE_PROTOCOL_VERSION)%Z) WI_ProtocolVersion in
  let? group := narrow_width 32 WI_GroupIdWidth group_id in
  let? client := narrow_width 16 WI_Id16Width client_id in
  Ok (mk_MutationPrefix group client sequence).

(** [wire::node_id], [wire::id16]. *)
Definition store_node_id : bytes -> result bytes WireInvalid := narrow_width 32 WI_NodeIdWidth.
Definition store_id16 : bytes -> result bytes WireInvalid := narrow_width 16 WI_Id16Width.

(** [resource_bounds], [ttl_bounds], [value_bounds], [rights_bounds]. *)
Definition resource_bounds (resource : ResourceKeyV1) : result () WireInvalid :=
  let? _ := refuse_if (bool_decide (rkv_namespace resource = [])
                       || (MAX_NAMESPACE <? len (rkv_namespace resource))) WI_Namespace in
  refuse_if (bool_decide (rkv_key resource = []) || (MAX_KEY <? len (rkv_key resource))) WI_Key.

Definition ttl_bounds (ttl_ms : N) : result () WireInvalid :=
  refuse_if (negb ((MIN_TTL_MS <=? ttl_ms) && (ttl_ms <=? MAX_TTL_MS))) WI_Ttl.

Definition value_bounds (value : bytes) : result () WireInvalid :=
  refuse_if (MAX_VALUE <? len value) WI_Value.

Definition rights_bounds (rights : N) : result () WireInvalid :=
  refuse_if (negb (rights_are_known rights)) WI_Rights.

(** [member_seed_bounds]. *)
Definition member_seed_bounds (seed : MemberSeedV1) : result () WireInvalid :=
  let? _ := store_node_id (msv_node_id seed) in
  let? _ := refuse_if (MAX_WIRE_STRING <? len (msv_ticket seed)) WI_Ticket in
  match msv_signed_join_permit seed with
  | Some permit => refuse_if (MAX_JOIN_PERMIT <? len permit) WI_JoinPermit
  | None => Ok ()
  end.

(** [audit_limit_bounds]. *)
Definition audit_limit_bounds (limit : N) : result () WireInvalid :=
  refuse_if ((limit =? 0) || (MAX_AUDIT_STREAM_LIMIT <? limit)) WI_AuditLimit.

(** ** Statuses *)

(** The statuses the handlers finish a call with, one constructor per message. *)
Inductive RpcStatus : Type :=
| ST_Invalid (w : WireInvalid)
| ST_DecodeFailure
| ST_WrongGroup
| ST_Internal
| ST_NotLeader (hint : option (NodeId * N))
| ST_NoLeader
| ST_QuorumUnreachable
| ST_ShuttingDown
| ST_Behind
| ST_Diverged
| ST_NotAuthorized
| ST_Shape (limit : ShapeLimit)
| ST_HardPressure
| ST_GrowthPressure
| ST_MutateBudget
| ST_MembershipRules
| ST_NotCommitted
| ST_RetireNotAuthorized
| ST_NotAdministrator
| ST_NotReader
| ST_BadResource
| ST_AuditFloor (floor : option LogId).

(** [enum StatusCode], the codes the Store answers with, and the code of each
    status. *)
Inductive StatusCode : Type :=
| InvalidArgument
| FailedPrecondition
| PermissionDenied
| ResourceExhausted
| OutOfRange
| Internal
| Unavailable
| DataLoss.

Definition status_code (s : RpcStatus) : StatusCode :=
  match s with
  | ST_Invalid _ | ST_DecodeFailure | ST_WrongGroup | ST_Shape _ | ST_BadResource => InvalidArgument
  | ST_Internal => Internal
  | ST_NotLeader _ | ST_NoLeader | ST_QuorumUnreachable | ST_ShuttingDown | ST_Behind
  | ST_NotCommitted => Unavailable
  | ST_Diverged => DataLoss
  | ST_NotAuthorized | ST_RetireNotAuthorized | ST_NotAdministrator | ST_NotReader =>
      PermissionDenied
  | ST_HardPressure | ST_GrowthPressure | ST_MutateBudget => ResourceExhausted
  | ST_MembershipRules => FailedPrecondition
  | ST_AuditFloor _ => OutOfRange
  end.

(** What a handler does besides answering, in order. *)
Inductive StoreEffect `{UnknownCarrier} : Type :=
| E_NoteDenied
| E_MarkFatal
| E_TakeMutate
| E_Propose (c : CommandV1).

(** ** The leader barrier *)

(** [openraft::ServerState] and the metrics a handler samples. *)
Inductive ServerState : Type :=
| SV_Leader
| SV_Follower
| SV_Candidate
| SV_Learner
| SV_Shutdown.

Record RaftMetrics : Type := mk_RaftMetrics {
  rme_state : ServerState;
  rme_current_leader : option NodeId;
  rme_term : N;
  rme_millis_since_quorum_ack : option N;
}.

(** What [ensure_linearizable] comes back with inside its budget. *)
Inductive Leadership : Type :=
| LD_Confirmed (read_log_id : option LogId)
| LD_TimedOut
| LD_ForwardToLeader
| LD_QuorumNotEnough
| LD_Stopped.

Definition ELECTION_TIMEOUT_MAX_MS : N := 3000.

(** [known_unservable]. *)
Definition known_unservable (m : RaftMetrics) : option RpcStatus :=
  match rme_state m with
  | SV_Leader =>
      ms ← rme_millis_since_quorum_ack m;
      if ELECTION_TIMEOUT_MAX_MS <? ms then Some ST_QuorumUnreachable else None
  | SV_Follower =>
      match rme_current_leader m with
      | Some _ => None
      | None => Some ST_NoLeader
      end
  | SV_Candidate => Some ST_NoLeader
  | SV_Learner | SV_Shutdown => None
  end.

(** [not_leader]. *)
Definition not_leader (m : RaftMetrics) : RpcStatus :=
  ST_NotLeader ((λ leader, (leader, rme_term m)) <$> rme_current_leader m).

(** [barrier]. *)
Definition barrier (m : RaftMetrics) (leadership : Leadership) : result (option LogId) RpcStatus :=
  match known_unservable m with
  | Some status => Err status
  | None =>
      match leadership with
      | LD_TimedOut => Err ST_QuorumUnreachable
      | LD_Confirmed id => Ok id
      | LD_ForwardToLeader => Err (not_leader m)
      | LD_QuorumNotEnough => Err ST_QuorumUnreachable
      | LD_Stopped => Err ST_ShuttingDown
      end
  end.

(** [enum BarrierFit]. *)
Inductive BarrierFit : Type :=
| BF_Satisfied
| BF_Behind
| BF_Diverged.

(** [witness], which [PinnedVersion::against] repeats for a read. *)
Definition witness (applied barrier : option LogId) : BarrierFit :=
  match barrier with
  | None => BF_Satisfied
  | Some barrier =>
      match applied with
      | None => BF_Behind
      | Some applied =>
          match N.compare (li_index applied) (li_index barrier) with
          | Lt => BF_Behind
          | Gt => BF_Satisfied
          | Eq => if bool_decide (applied = barrier) then BF_Satisfied else BF_Diverged
          end
      end
  end.

(** ** The pipeline *)

(** [enum PreflightAnswer]. *)
Inductive PreflightAnswer : Type :=
| PA_Admission (a : Admission)
| PA_ShapelessUnresolved.

(** What [Raft::client_write] comes back with. *)
Inductive ClientWrite `{UnknownCarrier} : Type :=
| CW_Applied (reply : CommandReplyV1)
| CW_ForwardToLeader
| CW_ChangeMembership
| CW_Fatal.

(** [struct DecodedMutation]. *)
Record DecodedMutation `{UnknownCarrier} : Type := mk_DecodedMutation {
  dm_prefix : MutationPrefix;
  dm_wire_action : ActionV1;
}.

(** [struct AttachedStore], as one call finds it: the state actor's state, or
    none once it stopped, and the answers of the consensus library, the
    pressure monitor and the actor's token bucket. *)
Record AttachedStore `{UnknownCarrier} : Type := mk_AttachedStore {
  as_group : GroupId;
  as_metrics : RaftMetrics;
  as_leadership : Leadership;
  as_state : option State;
  as_growth_hit : bool;
  as_hard_hit : bool;
  as_take_mutate : bool;
  as_client_write : CommandV1 -> ClientWrite;
}.

Section store.
Context `{Carrier : UnknownCarrier} `{Ext : Externals} {Codec : CommandCodec} {Requests : StoreCodec}.

(** [is_growth_mutation]. *)
Definition is_growth_mutation (action : ActionV1) : bool :=
  match action with
  | AV_Acquire _ _ | AV_CompareAndSet _ _ _ | AV_ReleaseWithValue _ _ _ => true
  | AV_ChangeMembership change => negb (bool_decide (cmv_member_seeds change = []))
  | AV_SetGrant _ _ rights _ => negb (rights =? 0)
  | AV_SetAdmin _ enabled _ => enabled
  | AV_Release _ | AV_Revoke _ _ | AV_CancelMembership _ _ => false
  | AV_Renew _ => false
  | AV_Unknown _ => false
  end.

(** The body of the [narrow!] macro after its [decode]. *)
Definition narrowed (version : Z) (group client : bytes) (sequence : N) (action : ActionV1)
    : result DecodedMutation RpcStatus :=
  match prefix version group client sequence with
  | Ok p => Ok {| dm_prefix := p; dm_wire_action := action |}
  | Err w => Err (ST_Invalid w)
  end.

(** The action each request asks for. *)
Definition acquire_action (r : AcquireRequestV1) : ActionV1 := AV_Acquire (aqr_resource r) (aqr_ttl_ms r).
Definition renew_action (r : RenewRequestV1) : ActionV1 := AV_Renew (rnr_fence r).
Definition compare_and_set_action (r : CompareAndSetRequestV1) : ActionV1 :=
  AV_CompareAndSet (csr_fence r) (csr_expected_value_revision r) (csr_new_value r).
Definition release_action (r : ReleaseRequestV1) : ActionV1 := AV_Release (rlr_fence r).
Definition release_with_value_action (r : ReleaseWithValueRequestV1) : ActionV1 :=
  AV_ReleaseWithValue (rwr_fence r) (rwr_expected_value_revision r) (rwr_final_value r).
Definition revoke_action (r : RevokeRequestV1) : ActionV1 :=
  AV_Revoke (rvr_resource r) (rvr_expected_epoch r).
Definition set_grant_action (r : SetGrantRequestV1) : ActionV1 :=
  AV_SetGrant (sgr_resource r) (sgr_target_node_id r) (sgr_rights r) (sgr_expected_acl_revision r).
Definition set_admin_action (r : SetAdminRequestV1) : ActionV1 :=
  AV_SetAdmin (sar_target_node_id r) (sar_enabled r) (sar_expected_admin_revision r).
Definition change_membership_action (r : ChangeMembershipRequestV1) : ActionV1 :=
  AV_ChangeMembership
    (mk_ChangeMembershipActionV1 (cmr_operation_id r) (cmr_expected_membership_log_id r)
       (cmr_desired_voters r) (cmr_retained_learners r) (cmr_member_seeds r)).
Definition cancel_membership_action (r : CancelMembershipRequestV1) : ActionV1 :=
  AV_CancelMembership (cnr_operation_id r) (cnr_expected_phase_code r).

(** [decode]: a frame that does not decode is a status. *)
Definition decoded {T : Type} (o : option T) : result T RpcStatus := ok_or o ST_DecodeFailure.

(** [decode_mutation]. *)
Definition decode_mutation (method frame : bytes) : result DecodedMutation RpcStatus :=
  if bool_decide (method = name "acquire") then
    let? r := decoded (decode_acquire frame) in
    narrowed (aqr_protocol_version r) (aqr_group_id r) (aqr_client_id r) (aqr_sequence r)
      (acquire_action r)
  else if bool_decide (method = name "renew") then
    let? r := decoded (decode_renew frame) in
    narrowed (rnr_protocol_version r) (rnr_group_id r) (rnr_client_id r) (rnr_sequence r)
      (renew_action r)
  else if bool_decide (method = name "compare_and_set") then
    let? r := decoded (decode_compare_and_set frame) in
    narrowed (csr_protocol_version r) (csr_group_id r) (csr_client_id r) (csr_sequence r)
      (compare_and_set_action r)
  else if bool_decide (method = name "release") then
    let? r := decoded (decode_release frame) in
    narrowed (rlr_protocol_version r) (rlr_group_id r) (rlr_client_id r) (rlr_sequence r)
      (release_action r)
  else if bool_decide (method = name "release_with_value") then
    let? r := decoded (decode_release_with_value frame) in
    narrowed (rwr_protocol_version r) (rwr_group_id r) (rwr_client_id r) (rwr_sequence r)
      (release_with_value_action r)
  else if bool_decide (method = name "revoke") then
    let? r := decoded (decode_revoke frame) in
    narrowed (rvr_protocol_version r) (rvr_group_id r) (rvr_client_id r) (rvr_sequence r)
      (revoke_action r)
  else if bool_decide (method = name "set_grant") then
    let? r := decoded (decode_set_grant frame) in
    narrowed (sgr_protocol_version r) (sgr_group_id r) (sgr_client_id r) (sgr_sequence r)
      (set_grant_action r)
  else if bool_decide (method = name "set_admin") then
    let? r := decoded (decode_set_admin frame) in
    narrowed (sar_protocol_version r) (sar_group_id r) (sar_client_id r) (sar_sequence r)
      (set_admin_action r)
  else if bool_decide (method = name "change_membership") then
    let? r := decoded (decode_change_membership frame) in
    narrowed (cmr_protocol_version r) (cmr_group_id r) (cmr_client_id r) (cmr_sequence r)
      (change_membership_action r)
  else if bool_decide (method = name "cancel_membership") then
    let? r := decoded (decode_cancel_membership frame) in
    narrowed (cnr_protocol_version r) (cnr_group_id r) (cnr_client_id r) (cnr_sequence r)
      (cancel_membership_action r)
  else Err ST_Internal.

(** The [preflight] query of the state actor. *)
Definition actor_preflight (state : option State) (client : ClientRef) (action : option Action)
    : option (PreflightAnswer * option LogId * bool) :=
  st ← state;
  let creates_session :=
    match classify_client st client with
    | Unresolved _ creates => creates
    | _ => false
    end in
  let answer :=
    match action with
    | Some action => PA_Admission (preflight st client action)
    | None =>
        match preflight_shapeless st client with
        | Some admission => PA_Admission admission
        | None => PA_ShapelessUnresolved
        end
    end in
  Some (answer, st_last_applied st, creates_session).

(** The [retire_preflight] query of the state actor. *)
Definition actor_retire_preflight (state : option State) (command : RetireCommand)
    : option (RetireDecision * option LogId) :=
  st ← state; Some (retire_decide st command, st_last_applied st).

(** [mutation_reply]. *)
Definition mutation_reply (group : GroupId) (p : MutationPrefix) (request_hash : Hash)
    (reply : ClientReplyV1) : MutationReplyWireV1 :=
  {| mrw_protocol_version := STORE_PROTOCOL_VERSION;
     mrw_group_id := group;
     mrw_client_id := px_client_id p;
     mrw_sequence := px_sequence p;
     mrw_request_hash := request_hash;
     mrw_disposition_code := crv_disposition_code reply;
     mrw_outcome_code := crv_outcome_code reply;
     mrw_reason_code := crv_reason_code reply;
     mrw_snapshot := crv_snapshot reply;
     mrw_acl_revision := crv_acl_revision reply;
     mrw_admin_revision := crv_admin_revision reply;
     mrw_operation_id := crv_operation_id reply;
     mrw_membership_log_id := crv_membership_log_id reply |}.

(** [propose_and_reply]. *)
Definition propose_and_reply {T : Type} (rt : AttachedStore) (command : CommandV1)
    (project : CommandReplyV1 -> result T RpcStatus) : result T RpcStatus :=
  match as_client_write rt command with
  | CW_Applied reply => project reply
  | CW_ForwardToLeader => Err (not_leader (as_metrics rt))
  | CW_ChangeMembership => Err ST_MembershipRules
  | CW_Fatal => Err ST_NotCommitted
  end.

(** The reply of an [Admission::Deny]. *)
Definition denial_reply (reason : RefusalReason) : ClientReplyV1 :=
  {| crv_disposition_code := 2;
     crv_outcome_code := outcome_code O_Rejected;
     crv_reason_code := reason_code (refusal_get reason);
     crv_snapshot := None;
     crv_acl_revision := 0;
     crv_admin_revision := 0;
     crv_operation_id := None;
     crv_membership_log_id := None |}.

(** The command an admitted mutation proposes. *)
Definition proposed_command (dm : DecodedMutation) (client : ClientRef) : CommandV1 :=
  CV_Client
    {| ccv_actor_node_id := cr_actor client;
       ccv_client_id := cr_client_id client;
       ccv_sequence := cr_sequence client;
       ccv_request_hash := cr_request_hash client;
       ccv_action := dm_wire_action dm |}.

(** The [match admission] of [mutation]. *)
Definition mutation_admission (rt : AttachedStore) (dm : DecodedMutation) (client : ClientRef)
    (admission : Admission) (creates_session : bool)
    : list StoreEffect * result MutationReplyWireV1 RpcStatus :=
  let reply := mutation_reply (as_group rt) (dm_prefix dm) (cr_request_hash client) in
  match admission with
  | Resolved res =>
      let provenance := if clr_replayed res then FromReplay else FirstAttempt in
      ([], Ok (reply (client_reply (as_group rt) (clr_reply res) (clr_disposition res) provenance None)))
  | Deny refusal => ([], Ok (reply (denial_reply refusal)))
  | Status denial =>
      ([E_NoteDenied],
       Err match denial with
           | NotAuthorized => ST_NotAuthorized
           | SD_Shape limit => ST_Shape limit
           end)
  | Admit =>
      if as_hard_hit rt then ([], Err ST_HardPressure)
      else if as_growth_hit rt && (is_growth_mutation (dm_wire_action dm) || creates_session)
      then ([], Err ST_GrowthPressure)
      else if negb (as_take_mutate rt) then ([E_TakeMutate], Err ST_MutateBudget)
      else
        let command := proposed_command dm client in
        ([E_TakeMutate; E_Propose command],
         propose_and_reply rt command
           (λ r, match r with
                 | RV_Client client_reply => Ok (reply client_reply)
                 | _ => Err ST_Internal
                 end))
  end.

(** [mutation]. *)
Definition mutation (rt : AttachedStore) (method : bytes) (actor : NodeId) (frame : bytes)
    : list StoreEffect * result MutationReplyWireV1 RpcStatus :=
  match decode_mutation method frame with
  | Err status => ([], Err status)
  | Ok dm =>
      if negb (bool_decide (px_group_id (dm_prefix dm) = as_group rt)) then ([], Err ST_WrongGroup)
      else match request_hash (dm_wire_action dm) with
      | Err _ => ([], Err ST_Internal)
      | Ok h =>
          match barrier (as_metrics rt) (as_leadership rt) with
          | Err status => ([], Err status)
          | Ok barrier_id =>
              let client := mk_ClientRef actor (px_client_id (dm_prefix dm))
                              (px_sequence (dm_prefix dm)) h in
              match actor_preflight (as_state rt) client
                      (result_ok (action_from_wire (dm_wire_action dm))) with
              | None => ([], Err ST_Internal)
              | Some (answer, applied, creates_session) =>
                  match witness applied barrier_id with
                  | BF_Behind => ([], Err ST_Behind)
                  | BF_Diverged => ([E_MarkFatal], Err ST_Diverged)
                  | BF_Satisfied =>
                      match answer with
                      | PA_ShapelessUnresolved => ([], Err ST_DecodeFailure)
                      | PA_Admission admission =>
                          mutation_admission rt dm client admission creates_session
                      end
                  end
              end
          end
      end
  end.

(** [retire_client]. *)
Definition retire_client (rt : AttachedStore) (actor : NodeId) (frame : bytes)
    : list StoreEffect * result RetireClientReplyWireV1 RpcStatus :=
  match decode_retire_client frame with
  | None => ([], Err ST_DecodeFailure)
  | Some request =>
      if negb (rtr_protocol_version request =? STORE_PROTOCOL_VERSION)%Z
      then ([], Err (ST_Invalid WI_ProtocolVersion))
      else if negb (bool_decide (rtr_group_id request = as_group rt)) then ([], Err ST_WrongGroup)
      else match store_node_id (rtr_target_node_id request), store_id16 (rtr_target_client_id request) with
      | Err w, _ => ([], Err (ST_Invalid w))
      | _, Err w => ([], Err (ST_Invalid w))
      | Ok target, Ok target_client =>
          match barrier (as_metrics rt) (as_leadership rt) with
          | Err status => ([], Err status)
          | Ok barrier_id =>
              match actor_retire_preflight (as_state rt) (mk_RetireCommand actor target target_client) with
              | None => ([], Err ST_Internal)
              | Some (decision, applied) =>
                  match witness applied barrier_id with
                  | BF_Behind => ([], Err ST_Behind)
                  | BF_Diverged => ([E_MarkFatal], Err ST_Diverged)
                  | BF_Satisfied =>
                      match decision with
                      | RT_Refuse reason =>
                          if bool_decide (refusal_get reason = R_PermissionChanged)
                          then ([E_NoteDenied], Err ST_RetireNotAuthorized)
                          else ([], Ok (mk_RetireClientReplyWireV1 STORE_PROTOCOL_VERSION (as_group rt)
                                          (outcome_code O_Rejected) (reason_code (refusal_get reason))))
                      | RT_Apply _ =>
                          if as_hard_hit rt then ([], Err ST_HardPressure)
                          else if negb (as_take_mutate rt) then ([E_TakeMutate], Err ST_MutateBudget)
                          else
                            let command := CV_RetireClient actor target target_client in
                            ([E_TakeMutate; E_Propose command],
                             propose_and_reply rt command
                               (λ r, match r with
                                     | RV_Retirement retirement =>
                                         Ok (mk_RetireClientReplyWireV1 STORE_PROTOCOL_VERSION
                                               (as_group rt) (rtv_outcome_code retirement)
                                               (rtv_reason_code retirement))
                                     | _ => Err ST_Internal
                                     end))
                      end
                  end
              end
          end
      end
  end.
End store.
