(* ===== verification/Inbound.v ===== *)
(** * The client's reply validator

    Models [aster/src/coordination/client/inbound.rs]: the facts of a pending
    request, the shape rules a request must pass before it is journaled, and the
    request-aware verdict on a mutation or retirement reply, which live delivery,
    the journal's transitions and its reopening share. *)

From S2P Require Import Prelude Reason Ids Contract Externals Limits State Ticket Shape Membership.
From S2P Require Import Apply Wire Boundary Journal Store.

#[local] Open Scope N_scope.
#[local] Open Scope coordination_scope.

(** The refusals, one constructor per message. *)
Inductive InboundError : Type :=
| IE_Undecodable
| IE_NotAMutation
| IE_CounterCeiling
| IE_Shape (limit : ShapeLimit)
| IE_Bounds (w : WireInvalid)
| IE_FenceGroup
| IE_FenceHolder
| IE_ValueSize
| IE_TargetWidth
| IE_Rights
| IE_OperationIdWidth
| IE_Phase
| IE_PlanNodeId
| IE_PlanVoterCount
| IE_PlanLearnerCount
| IE_PlanOrder
| IE_PlanOverlap
| IE_SeedNodeId
| IE_SeedOrder
| IE_SeedUnknownNode
| IE_LogIdLeader
| IE_ProtocolVersion
| IE_Group
| IE_Ownership
| IE_Disposition
| IE_Outcome
| IE_Reason
| IE_SuccessReason
| IE_SuccessDisposition
| IE_NeverSaved
| IE_NeverNotConsumed
| IE_MethodOutcome
| IE_SnapshotMissing
| IE_SnapshotUnexpected
| IE_SnapshotGroup
| IE_SnapshotResource
| IE_SnapshotHolderWidth
| IE_SnapshotHeld
| IE_SnapshotRedacted
| IE_SnapshotValue
| IE_SnapshotTtl
| IE_SnapshotCounter
| IE_NotHolding
| IE_NotFree
| IE_GrantTtl
| IE_GrantCounters
| IE_EpochMoved
| IE_WrittenValue
| IE_ValueRevision
| IE_EpochNotAdvanced
| IE_OperationIdUnexpected
| IE_OperationIdEcho
| IE_OperationIdMissing
| IE_MembershipLogIdUnexpected
| IE_AclCeiling
| IE_AdminCeiling
| IE_AdminMethod
| IE_AdminRevision
| IE_AdminUnexpected
| IE_AclContradiction
| IE_AclUnexpected
| IE_GrantMethod
| IE_GrantRevision
| IE_Retirement.

(** [enum RequestFacts]. *)
Inductive RequestFacts : Type :=
| RF_Acquire (resource : ResourceKeyV1) (ttl_ms : N)
| RF_Renew (fence : FenceV1)
| RF_CompareAndSet (fence : FenceV1) (expected_value_revision : N) (new_value : bytes)
| RF_Release (fence : FenceV1)
| RF_ReleaseWithValue (fence : FenceV1) (expected_value_revision : N) (final_value : bytes)
| RF_Revoke (resource : ResourceKeyV1) (expected_epoch : option N)
| RF_SetGrant (resource : ResourceKeyV1) (target_node_id : bytes) (rights expected_acl_revision : N)
| RF_SetAdmin (target_node_id : bytes) (expected_admin_revision : N)
| RF_ChangeMembership (operation_id : bytes) (expected_membership_log_id : option LogIdV1)
    (desired_voters retained_learners : list bytes) (member_seeds : list MemberSeedV1)
| RF_CancelMembership (operation_id : bytes) (expected_phase_code : Z).

(** [RequestFacts::kind], [resource], [fence], [operation_id]. *)
Definition facts_kind (f : RequestFacts) : MutationKind :=
  match f with
  | RF_Acquire _ _ => MK_Acquire
  | RF_Renew _ => MK_Renew
  | RF_CompareAndSet _ _ _ => MK_CompareAndSet
  | RF_Release _ => MK_Release
  | RF_ReleaseWithValue _ _ _ => MK_ReleaseWithValue
  | RF_Revoke _ _ => MK_Revoke
  | RF_SetGrant _ _ _ _ => MK_SetGrant
  | RF_SetAdmin _ _ => MK_SetAdmin
  | RF_ChangeMembership _ _ _ _ _ => MK_ChangeMembership
  | RF_CancelMembership _ _ => MK_CancelMembership
  end.

Definition facts_fence (f : RequestFacts) : option FenceV1 :=
  match f with
  | RF_Renew fence | RF_CompareAndSet fence _ _ | RF_Release fence | RF_ReleaseWithValue fence _ _ =>
      Some fence
  | _ => None
  end.

Definition facts_resource (f : RequestFacts) : option ResourceKeyV1 :=
  match f with
  | RF_Acquire resource _ | RF_Revoke resource _ | RF_SetGrant resource _ _ _ => Some resource
  | RF_Renew fence | RF_CompareAndSet fence _ _ | RF_Release fence | RF_ReleaseWithValue fence _ _ =>
      Some (fev_resource fence)
  | RF_SetAdmin _ _ | RF_ChangeMembership _ _ _ _ _ | RF_CancelMembership _ _ => None
  end.

Definition facts_operation_id (f : RequestFacts) : option bytes :=
  match f with
  | RF_ChangeMembership operation _ _ _ _ | RF_CancelMembership operation _ => Some operation
  | _ => None
  end.

(** [RESULT.map_err(|invalid| invalid.describe())] of a bound, and of a shape. *)
Definition bounded (r : result () WireInvalid) : result () InboundError :=
  match r with Ok _ => Ok () | Err w => Err (IE_Bounds w) end.
Definition shaped {A : Type} (r : result A ShapeLimit) : result () InboundError :=
  match r with Ok _ => Ok () | Err limit => Err (IE_Shape limit) end.

(** [u64::checked_add]. *)
Definition checked_add (a b : N) : option N := if a + b <=? U64_MAX then Some (a + b) else None.

(** [domains::PHASE]. *)
Definition DOMAIN_PHASE (code : Z) : bool := (1 <=? code)%Z && (code <=? 7)%Z.

(** A loop whose body may refuse. *)
Fixpoint check_each {A E : Type} (f : A -> result () E) (l : list A) : result () E :=
  match l with
  | [] => Ok ()
  | x :: rest => let? _ := f x in check_each f rest
  end.

(** [check_log_id]. *)
Definition check_log_id (id : LogIdV1) : result () InboundError :=
  refuse_if (negb (len (lv_leader_node_id id) =? 32)) IE_LogIdLeader.

Definition check_log_id_opt (id : option LogIdV1) : result () InboundError :=
  match id with Some id => check_log_id id | None => Ok () end.

(** The [counter] closure of [validate_request]. *)
Definition counter (value : N) : result () InboundError :=
  refuse_if (MAX_COUNTER <? value) IE_CounterCeiling.

(** ** The reply to a mutation *)

(** [check_written_value]. *)
Definition check_written_value (s : ResourceSnapshotV1) (written : bytes) : result () InboundError :=
  match rsv_value s with
  | Some value => refuse_if (negb (bool_decide (value = written))) IE_WrittenValue
  | None => Ok ()
  end.

(** [check_snapshot_bounds]. *)
Definition check_snapshot_bounds (s : ResourceSnapshotV1) : result () InboundError :=
  let? _ := bounded (resource_bounds (rsv_resource s)) in
  let? _ := refuse_if (from_option (λ h, negb (len h =? 32)) false (rsv_holder s))
              IE_SnapshotHolderWidth in
  let? _ := refuse_if (negb (eqb (rsv_held s) (bool_decide (is_Some (rsv_holder s))))) IE_SnapshotHeld in
  let? _ := refuse_if (rsv_value_redacted s && bool_decide (is_Some (rsv_value s))) IE_SnapshotRedacted in
  let? _ := refuse_if (from_option (λ v, MAX_VALUE <? len v) false (rsv_value s)) IE_SnapshotValue in
  let? _ :=
    (if rsv_held s then bounded (ttl_bounds (rsv_ttl_ms s))
     else refuse_if (negb (rsv_ttl_ms s =? 0)
                     && match ttl_bounds (rsv_ttl_ms s) with Ok _ => false | Err _ => true end)
            IE_SnapshotTtl) in
  refuse_if (existsb (λ c, MAX_COUNTER <? c)
               [rsv_epoch s; rsv_lease_revision s; rsv_value_revision s; rsv_acl_revision s])
    IE_SnapshotCounter.

(** The postconditions of [validate_snapshot], per request. *)
Definition snapshot_postcondition (f : RequestFacts) (s : ResourceSnapshotV1) : result () InboundError :=
  match f with
  | RF_Acquire _ ttl =>
      let? _ := refuse_if (negb (rsv_ttl_ms s =? ttl)) IE_GrantTtl in
      refuse_if ((rsv_epoch s =? 0) || (rsv_lease_revision s =? 0)) IE_GrantCounters
  | RF_Renew fence => refuse_if (negb (rsv_epoch s =? fev_epoch fence)) IE_EpochMoved
  | RF_CompareAndSet fence expected value =>
      let? _ := refuse_if (negb (rsv_epoch s =? fev_epoch fence)) IE_EpochMoved in
      let? _ := check_written_value s value in
      refuse_if (negb (bool_decide (Some (rsv_value_revision s) = checked_add expected 1))) IE_ValueRevision
  | RF_Release fence =>
      refuse_if (negb (bool_decide (Some (rsv_epoch s) = checked_add (fev_epoch fence) 1)))
        IE_EpochNotAdvanced
  | RF_ReleaseWithValue fence expected value =>
      let? _ := refuse_if (negb (bool_decide (Some (rsv_epoch s) = checked_add (fev_epoch fence) 1)))
                  IE_EpochNotAdvanced in
      let? _ := check_written_value s value in
      refuse_if (negb (bool_decide (Some (rsv_value_revision s) = checked_add expected 1))) IE_ValueRevision
  | RF_Revoke _ (Some expected) =>
      refuse_if (negb (bool_decide (Some (rsv_epoch s) = checked_add expected 1))) IE_EpochNotAdvanced
  | RF_Revoke _ None => refuse_if (rsv_epoch s =? 0) IE_EpochNotAdvanced
  | RF_SetGrant _ _ _ _ | RF_SetAdmin _ _ | RF_ChangeMembership _ _ _ _ _
  | RF_CancelMembership _ _ => Ok ()
  end.

(** [validate_snapshot]. *)
Definition validate_snapshot (cx : MutationContext) (f : RequestFacts) (outcome : Outcome)
    (s : ResourceSnapshotV1) : result () InboundError :=
  let? _ := refuse_if (negb (bool_decide (rsv_group_id s = mc_group_id cx))) IE_SnapshotGroup in
  let? _ := refuse_if (from_option (λ r, negb (bool_decide (rsv_resource s = r))) false (facts_resource f))
              IE_SnapshotResource in
  let? _ := check_snapshot_bounds s in
  let? _ :=
    match outcome with
    | O_Granted | O_Renewed | O_Mutated =>
        refuse_if (negb (bool_decide (rsv_holder s = Some (mc_local_actor cx)))) IE_NotHolding
    | O_Released | O_Revoked => refuse_if (rsv_held s) IE_NotFree
    | _ => Ok ()
    end in
  if (outcome_code outcome =? success_outcome_code (facts_kind f))%Z then snapshot_postcondition f s
  else Ok ().

(** The ownership checks of [validate_mutation_reply]. *)
Definition check_ownership (cx : MutationContext) (reply : MutationReplyWireV1) : result () InboundError :=
  let? _ := refuse_if (negb (mrw_protocol_version reply =? STORE_PROTOCOL_VERSION)%Z) IE_ProtocolVersion in
  let? _ := refuse_if (negb (bool_decide (mrw_group_id reply = mc_group_id cx))) IE_Group in
  refuse_if (negb (bool_decide (mrw_client_id reply = mc_client_id cx))
             || negb (mrw_sequence reply =? mc_sequence cx)
             || negb (bool_decide (mrw_request_hash reply = mc_request_hash cx))) IE_Ownership.

(** The pairing of disposition, outcome and reason. *)
Definition check_pairing (disposition : Z) (outcome : Outcome) (reason : Reason) : result () InboundError :=
  if negb (bool_decide (outcome = O_Rejected)) then
    let? _ := refuse_if (negb (bool_decide (reason = R_None))) IE_SuccessReason in
    refuse_if (negb (disposition =? 1)%Z) IE_SuccessDisposition
  else if (disposition =? 1)%Z then
    refuse_if (negb (bool_decide (reason = R_None) || may_be_saved_rejection reason)) IE_NeverSaved
  else refuse_if (negb (may_be_not_consumed reason)) IE_NeverNotConsumed.

Definition register_success (o : Outcome) : bool :=
  match o with O_Granted | O_Renewed | O_Mutated | O_Released | O_Revoked => true | _ => false end.
Definition never_carries (o : Outcome) : bool :=
  match o with O_AdminUpdated | O_MembershipAccepted | O_MembershipCancelled => true | _ => false end.
Definition membership_success (o : Outcome) : bool :=
  match o with O_MembershipAccepted | O_MembershipCancelled => true | _ => false end.

(** Which outcomes carry a snapshot, and the snapshot itself. *)
Definition check_snapshot (cx : MutationContext) (f : RequestFacts) (outcome : Outcome)
    (reply : MutationReplyWireV1) : result () InboundError :=
  let? _ := refuse_if (register_success outcome && bool_decide (mrw_snapshot reply = None))
              IE_SnapshotMissing in
  let? _ := refuse_if (never_carries outcome && bool_decide (is_Some (mrw_snapshot reply)))
              IE_SnapshotUnexpected in
  match mrw_snapshot reply with
  | Some s => validate_snapshot cx f outcome s
  | None => Ok ()
  end.

(** The operation id and the membership position. *)
Definition check_membership_fields (f : RequestFacts) (outcome : Outcome) (reply : MutationReplyWireV1)
    : result () InboundError :=
  let? _ :=
    match mrw_operation_id reply with
    | Some op =>
        let? _ := refuse_if (negb (membership_success outcome)) IE_OperationIdUnexpected in
        match facts_operation_id f with
        | None => Err IE_OperationIdEcho
        | Some expected => refuse_if (negb (bool_decide (op = expected))) IE_OperationIdEcho
        end
    | None => refuse_if (membership_success outcome) IE_OperationIdMissing
    end in
  let? _ := refuse_if (bool_decide (is_Some (mrw_membership_log_id reply)) && negb (membership_success outcome))
              IE_MembershipLogIdUnexpected in
  check_log_id_opt (mrw_membership_log_id reply).

(** [expected.checked_add(1).filter(|next| *next <= MAX_COUNTER)]. *)
Definition advanced (expected : N) : option N :=
  next ← checked_add expected 1; if next <=? MAX_COUNTER then Some next else None.

(** A revision that follows from the request's fence: unchanged or advanced. *)
Definition follows (expected revision : N) : bool :=
  (revision =? expected) || bool_decide (Some revision = advanced expected).

(** The administrator revision. *)
Definition check_admin_field (f : RequestFacts) (outcome : Outcome) (reply : MutationReplyWireV1)
    : result () InboundError :=
  match outcome with
  | O_AdminUpdated =>
      match f with
      | RF_SetAdmin _ expected =>
          refuse_if (negb (follows expected (mrw_admin_revision reply))) IE_AdminRevision
      | _ => Err IE_AdminMethod
      end
  | O_Rejected => Ok ()
  | _ => refuse_if (negb (mrw_admin_revision reply =? 0)) IE_AdminUnexpected
  end.

(** The ACL revision. *)
Definition check_acl_field (f : RequestFacts) (outcome : Outcome) (reply : MutationReplyWireV1)
    : result () InboundError :=
  let? _ :=
    match mrw_snapshot reply, outcome with
    | Some s, _ => refuse_if (negb (mrw_acl_revision reply =? rsv_acl_revision s)) IE_AclContradiction
    | None, O_GrantUpdated | None, O_Rejected => Ok ()
    | None, _ => refuse_if (negb (mrw_acl_revision reply =? 0)) IE_AclUnexpected
    end in
  match outcome with
  | O_GrantUpdated =>
      match f with
      | RF_SetGrant _ _ _ expected =>
          refuse_if (negb (follows expected (mrw_acl_revision reply))) IE_GrantRevision
      | _ => Err IE_GrantMethod
      end
  | _ => Ok ()
  end.

(** Everything past the decoding of the request. *)
Definition check_facts (cx : MutationContext) (f : RequestFacts) (outcome : Outcome)
    (reply : MutationReplyWireV1) : result () InboundError :=
  let? _ := refuse_if (negb (mrw_outcome_code reply =? success_outcome_code (facts_kind f))%Z
                       && negb (bool_decide (outcome = O_Rejected))) IE_MethodOutcome in
  let? _ := check_snapshot cx f outcome reply in
  let? _ := check_membership_fields f outcome reply in
  let? _ := refuse_if (MAX_COUNTER <? mrw_acl_revision reply) IE_AclCeiling in
  let? _ := refuse_if (MAX_COUNTER <? mrw_admin_revision reply) IE_AdminCeiling in
  let? _ := check_admin_field f outcome reply in
  check_acl_field f outcome reply.

(** ** What may be sent *)

Section outbound.
Context `{Ext : Externals}.

(** The [narrow] closures of [validate_membership_plan]. *)
Definition narrow_plan_ids (e : InboundError) (ids : list bytes) : result (list NodeId) InboundError :=
  narrow_all (narrow_width 32 e) ids.

(** One iteration of the loop over the seeds. *)
Definition check_seed (voters learners : list NodeId) (seed_id : MemberSeedV1 * NodeId) : result () InboundError :=
  let '(seed, id) := seed_id in
  let? _ := bounded (member_seed_bounds seed) in
  let? _ := refuse_if (negb (bool_decide (id ∈ voters)) && negb (bool_decide (id ∈ learners))) IE_SeedUnknownNode in
  shaped (check_seed_ticket (msv_ticket seed) id).

(** [validate_membership_plan]. *)
Definition validate_membership_plan (desired_voters retained_learners : list bytes)
    (member_seeds : list MemberSeedV1) : result () InboundError :=
  let? voters := narrow_plan_ids IE_PlanNodeId desired_voters in
  let? learners := narrow_plan_ids IE_PlanNodeId retained_learners in
  let? _ := refuse_if (negb ((len voters =? 1) || (len voters =? 2) || (len voters =? 3) || (len voters =? 5)))
              IE_PlanVoterCount in
  let? _ := refuse_if (2 <? len learners) IE_PlanLearnerCount in
  let? _ := refuse_if (negb (sorted_unique voters) || negb (sorted_unique learners)) IE_PlanOrder in
  let? _ := refuse_if (existsb (λ v, bool_decide (v ∈ learners)) voters) IE_PlanOverlap in
  let? seed_ids := narrow_plan_ids IE_SeedNodeId (map msv_node_id member_seeds) in
  let? _ := refuse_if (negb (sorted_unique seed_ids)) IE_SeedOrder in
  check_each (check_seed voters learners) (zip member_seeds seed_ids).

(** The per-method rules of [validate_request]. *)
Definition check_method_facts (f : RequestFacts) : result () InboundError :=
  match f with
  | RF_Acquire _ ttl => bounded (ttl_bounds ttl)
  | RF_CompareAndSet _ expected value | RF_ReleaseWithValue _ expected value =>
      let? _ := refuse_if (MAX_VALUE <? len value) IE_ValueSize in
      counter expected
  | RF_Revoke _ expected => match expected with Some expected => counter expected | None => Ok () end
  | RF_SetGrant _ target rights expected =>
      let? _ := refuse_if (negb (len target =? 32)) IE_TargetWidth in
      let? _ := refuse_if (negb (rights_are_known rights)) IE_Rights in
      counter expected
  | RF_SetAdmin target expected =>
      let? _ := refuse_if (negb (len target =? 32)) IE_TargetWidth in
      counter expected
  | RF_ChangeMembership operation expected voters learners seeds =>
      let? _ := refuse_if (negb (len operation =? 16)) IE_OperationIdWidth in
      let? _ := check_log_id_opt expected in
      validate_membership_plan voters learners seeds
  | RF_CancelMembership operation phase =>
      let? _ := refuse_if (negb (len operation =? 16)) IE_OperationIdWidth in
      refuse_if (negb (DOMAIN_PHASE phase)) IE_Phase
  | RF_Renew _ | RF_Release _ => Ok ()
  end.

(** [validate_request]. *)
Definition validate_request (group_id local_actor : bytes) (f : RequestFacts) : result () InboundError :=
  let? _ :=
    match facts_resource f with
    | Some resource => shaped (validate_resource_key (rkv_namespace resource) (rkv_key resource))
    | None => Ok ()
    end in
  let? _ :=
    match facts_fence f with
    | Some fence =>
        let? _ := refuse_if (negb (bool_decide (fev_group_id fence = group_id))) IE_FenceGroup in
        let? _ := refuse_if (negb (bool_decide (fev_holder fence = local_actor))) IE_FenceHolder in
        counter (fev_epoch fence)
    | None => Ok ()
    end in
  check_method_facts f.
End outbound.

Section inbound.
Context {Requests : StoreCodec}.

(** [decode_facts]. *)
Definition decode_facts (method request : bytes) : result RequestFacts InboundError :=
  match spec method ≫= ms_mutation with
  | None => Err IE_NotAMutation
  | Some kind =>
      ok_or
        match kind with
        | MK_Acquire => (λ r, RF_Acquire (aqr_resource r) (aqr_ttl_ms r)) <$> decode_acquire request
        | MK_Renew => (λ r, RF_Renew (rnr_fence r)) <$> decode_renew request
        | MK_CompareAndSet =>
            (λ r, RF_CompareAndSet (csr_fence r) (csr_expected_value_revision r) (csr_new_value r))
              <$> decode_compare_and_set request
        | MK_Release => (λ r, RF_Release (rlr_fence r)) <$> decode_release request
        | MK_ReleaseWithValue =>
            (λ r, RF_ReleaseWithValue (rwr_fence r) (rwr_expected_value_revision r) (rwr_final_value r))
              <$> decode_release_with_value request
        | MK_Revoke => (λ r, RF_Revoke (rvr_resource r) (rvr_expected_epoch r)) <$> decode_revoke request
        | MK_SetGrant =>
            (λ r, RF_SetGrant (sgr_resource r) (sgr_target_node_id r) (sgr_rights r)
                    (sgr_expected_acl_revision r)) <$> decode_set_grant request
        | MK_SetAdmin =>
            (λ r, RF_SetAdmin (sar_target_node_id r) (sar_expected_admin_revision r))
              <$> decode_set_admin request
        | MK_ChangeMembership =>
            (λ r, RF_ChangeMembership (cmr_operation_id r) (cmr_expected_membership_log_id r)
                    (map nv_node_id (cmr_desired_voters r)) (map nv_node_id (cmr_retained_learners r))
                    (cmr_member_seeds r)) <$> decode_change_membership request
        | MK_CancelMembership =>
            (λ r, RF_CancelMembership (cnr_operation_id r) (cnr_expected_phase_code r))
              <$> decode_cancel_membership request
        end IE_Undecodable
  end.

(** [validate_mutation_reply]. *)
Definition validate_reply (cx : MutationContext) (reply : MutationReplyWireV1) : result () InboundError :=
  let? _ := check_ownership cx reply in
  let? _ := refuse_if (negb (mrw_disposition_code reply =? 1)%Z && negb (mrw_disposition_code reply =? 2)%Z)
              IE_Disposition in
  let? outcome := ok_or (outcome_from_code (mrw_outcome_code reply)) IE_Outcome in
  let? reason := ok_or (reason_from_code (mrw_reason_code reply)) IE_Reason in
  let? _ := check_pairing (mrw_disposition_code reply) outcome reason in
  let? f := decode_facts (mc_method cx) (mc_request cx) in
  check_facts cx f outcome reply.

(** [validate_retire_reply]. *)
Definition validate_retire_reply (group_id : bytes) (reply : RetireClientReplyWireV1)
    : result () InboundError :=
  let? _ := refuse_if (negb (rtw_protocol_version reply =? STORE_PROTOCOL_VERSION)%Z) IE_ProtocolVersion in
  let? _ := refuse_if (negb (bool_decide (rtw_group_id reply = group_id))) IE_Group in
  refuse_if
    (negb (((rtw_outcome_code reply =? 9)%Z && (rtw_reason_code reply =? 0)%Z)
           || ((rtw_outcome_code reply =? 100)%Z
               && (rtw_reason_code reply =? reason_code R_RetainedSessionCapReached)%Z)))
    IE_Retirement.
End inbound.
