(* ===== verification/Honesty.v ===== *)
(** * The client accepts what the group answers

    The voter and the client check the same protocol from both ends: the store
    service builds replies from committed state, and the client's validator
    refuses any reply its request cannot have earned, which would leave the
    journaled request resent forever. Here every typed reply the service can
    give, fresh, refused or replayed from a session row, is one the validator
    accepts for the request that asked. *)

From S2P Require Import Prelude Reason Ids Contract Externals Limits State Tables Classify Ticket.
From S2P Require Import Authority Shape Genesis Resource Grant Retire Membership Apply.
From S2P Require Import Wire Boundary Changes Durable Scenario Accounting Invariant AuditTrail.
From S2P Require Import Steps SessionTable MembershipTable RouteTable Preservation.
From S2P Require Import Validation Refinement Leases AccessControl Sessions Lifecycle StoredRows Ingress.
From S2P Require Import Typing Journal Store Inbound.

#[local] Open Scope N_scope.

(** ** Checks *)

Lemma checks_ok {E} (x y : result () E) : x = Ok () -> y = Ok () ->
  match x with Ok _ => y | Err e => Err e end = Ok ().
Proof. by intros -> ->. Qed.

Lemma refuse_ok {E} b (e : E) : b = false -> refuse_if b e = Ok ().
Proof. by intros ->. Qed.

Lemma negb_decide_false (P : Prop) `{Decision P} : P -> negb (bool_decide P) = false.
Proof. intros. by rewrite bool_decide_eq_true_2. Qed.

Ltac checks :=
  repeat match goal with
  | |- match _ with Ok _ => _ | Err _ => _ end = Ok () => apply checks_ok
  | |- refuse_if _ _ = Ok () => apply refuse_ok
  end.

(** ** What the two ends read in one frame *)

(** The facts a wire action shows the client. *)
Definition facts_of `{UnknownCarrier} (a : ActionV1) : option RequestFacts :=
  match a with
  | AV_Acquire resource ttl => Some (RF_Acquire resource ttl)
  | AV_Renew f => Some (RF_Renew f)
  | AV_CompareAndSet f revision value => Some (RF_CompareAndSet f revision value)
  | AV_Release f => Some (RF_Release f)
  | AV_ReleaseWithValue f revision value => Some (RF_ReleaseWithValue f revision value)
  | AV_Revoke resource epoch => Some (RF_Revoke resource epoch)
  | AV_SetGrant resource target rights revision => Some (RF_SetGrant resource target rights revision)
  | AV_SetAdmin target _ revision => Some (RF_SetAdmin target revision)
  | AV_ChangeMembership a =>
      Some (RF_ChangeMembership (cmv_operation_id a) (cmv_expected_membership_log_id a)
              (map nv_node_id (cmv_desired_voters a)) (map nv_node_id (cmv_retained_learners a))
              (cmv_member_seeds a))
  | AV_CancelMembership operation phase => Some (RF_CancelMembership operation phase)
  | AV_Unknown _ => None
  end.

Section frames.
Context `{Carrier : UnknownCarrier} {Requests : StoreCodec}.

Lemma narrowed_action version group client sequence a dm :
  narrowed version group client sequence a = Ok dm -> dm_wire_action dm = a.
Proof. unfold narrowed. destruct (prefix _ _ _ _); [|done]. by intros [= <-]. Qed.

(** The voter's decoding and the client's agree about a frame. *)
Lemma decode_agrees method frame dm :
  decode_mutation method frame = Ok dm ->
  exists f, facts_of (dm_wire_action dm) = Some f /\ decode_facts method frame = Ok f.
Proof.
  unfold decode_mutation. intros H.
  repeat match type of H with
  | (if bool_decide (method = ?n) then _ else _) = _ =>
      destruct (bool_decide_reflect (method = n)) as [->|_]
  end; [..|done];
  match type of H with (match decoded ?o with _ => _ end) = _ => destruct o as [r|] eqn:Hr; [|done] end;
  simpl in H; apply narrowed_action in H as ->; eexists; (split; [reflexivity|]);
  unfold decode_facts; cbv [spec METHODS]; simpl; rewrite Hr; reflexivity.
Qed.
End frames.

(** ** Verdicts on projected replies *)

Lemma checks_iff {E} (x y : result () E) :
  match x with Ok _ => y | Err e => Err e end = Ok () <-> x = Ok () /\ y = Ok ().
Proof. destruct x as [[]|]; naive_solver. Qed.

Lemma refuse_iff {E} b (e : E) : refuse_if b e = Ok () <-> b = false.
Proof. by destruct b. Qed.

(** A saved snapshot on the wire. *)
Definition snapshot_wire (group : bytes) (s : SavedSnapshot) (value : option bytes) (redacted : bool)
    : ResourceSnapshotV1 :=
  {| rsv_group_id := group;
     rsv_resource := resource_key_to_wire (ss_resource s);
     rsv_epoch := ss_epoch s;
     rsv_holder := ss_holder s;
     rsv_held := ss_held s;
     rsv_ttl_ms := ss_ttl_ms s;
     rsv_lease_revision := ss_lease_revision s;
     rsv_value_revision := ss_value_revision s;
     rsv_acl_revision := ss_acl_revision s;
     rsv_value := value;
     rsv_value_redacted := redacted |}.

(** The reply a saved one is projected to, for a replay or a first answer. *)
Definition reply_of (group : bytes) (c : ClientReplyV1) : MutationReplyWireV1 :=
  mutation_reply group (mk_MutationPrefix [] [] 0) [] c.

Definition redacted (group : bytes) (r : SavedReply) : ClientReplyV1 :=
  client_reply group r Consumed FromReplay None.

(** The value a success of this request wrote. *)
Definition facts_written (f : RequestFacts) : option bytes :=
  match f with
  | RF_CompareAndSet _ _ value | RF_ReleaseWithValue _ _ value => Some value
  | _ => None
  end.

(** A readable value: within its bound and, after a write, the one written. *)
Definition value_shown (f : RequestFacts) (outcome : Outcome) (value : option bytes) : Prop :=
  forall v, value = Some v -> len v <= MAX_VALUE /\
    forall w, facts_written f = Some w -> outcome <> O_Rejected -> v = w.

Lemma postcondition_value f group s value :
  (forall v w, value = Some v -> facts_written f = Some w -> v = w) ->
  snapshot_postcondition f (snapshot_wire group s None true) = Ok () ->
  snapshot_postcondition f (snapshot_wire group s value false) = Ok ().
Proof.
  intros Hw. destruct f as [| |fe e w| |fe e w|? []| | | |]; try done; simpl; unfold check_written_value; simpl;
    (destruct value as [v|]; [|done]); rewrite (Hw v w eq_refl eq_refl), (bool_decide_eq_true_2 (w = w)) by done; done.
Qed.

Section verdicts.
Context (cx : MutationContext) (f : RequestFacts).

(** The verdict past the ownership, the codes and the decoding. *)
Definition fits (c : ClientReplyV1) : Prop :=
  exists outcome reason,
    crv_outcome_code c = outcome_code outcome /\ crv_reason_code c = reason_code reason /\
    (crv_disposition_code c = 1 \/ crv_disposition_code c = 2)%Z /\
    check_pairing (crv_disposition_code c) outcome reason = Ok () /\
    check_facts cx f outcome (reply_of (mc_group_id cx) c) = Ok ().

(** A saved reply answers the request: its replay passes. *)
Definition answers (r : SavedReply) : Prop :=
  check_pairing 1 (sr_outcome r) (sr_reason r) = Ok () /\
  check_facts cx f (sr_outcome r) (reply_of (mc_group_id cx) (redacted (mc_group_id cx) r)) = Ok ().

Lemma answers_fits r : answers r -> fits (redacted (mc_group_id cx) r).
Proof. intros [H1 H2]. exists (sr_outcome r), (sr_reason r). split_and!; auto. Qed.

(** A valid key and a legal saved snapshot are within the bounds. *)
Lemma valid_key_bounds k : valid_key k -> resource_bounds (resource_key_to_wire k) = Ok ().
Proof.
  intros [(b & rest & Hns & _ & _ & Hnl) Hkl]. unfold resource_bounds. checks; simpl; apply orb_false_iff; split.
  - by rewrite Hns.
  - apply N.ltb_ge. exact Hnl.
  - apply bool_decide_eq_false_2. intros E. rewrite E in Hkl. unfold len in Hkl. simpl in Hkl. lia.
  - apply N.ltb_ge. unfold MAX_KEY, MAX_KEY_BYTES in *. lia.
Qed.

Lemma legal_snapshot_bounds group s value redacted :
  snapshot_legal s = true -> valid_key (ss_resource s) -> width_typed 32 (ss_holder s) ->
  (redacted = true -> value = None) -> (forall v, value = Some v -> len v <= MAX_VALUE) ->
  check_snapshot_bounds (snapshot_wire group s value redacted) = Ok ().
Proof.
  intros Hl Hk Hh Hr Hv. unfold snapshot_legal, ttl_is_legal in Hl. boolean_facts.
  unfold check_snapshot_bounds, bounded, ttl_bounds. simpl. rewrite valid_key_bounds by done. checks; simpl.
  - destruct (ss_holder s) as [h|] eqn:E; simpl; [|done]. by rewrite (Hh h eq_refl).
  - by apply negb_false_iff.
  - destruct redacted; [|done]. by rewrite Hr.
  - destruct value as [v|]; simpl; [|done]. apply N.ltb_ge. by apply Hv.
  - destruct (ss_held s); simpl in *.
    + rewrite orb_false_r in *. by match goal with H : _ && _ = true |- _ => rewrite H end.
    + checks. destruct (_ && _); simpl in *; [by rewrite andb_false_r|].
      match goal with H : (_ =? 0) = true |- _ => by rewrite H end.
  - rewrite !orb_false_iff, !N.ltb_ge. auto.
Qed.

(** Showing the value does not change the verdict. *)
Lemma check_facts_value r disposition value :
  value_shown f (sr_outcome r) value ->
  check_facts cx f (sr_outcome r) (reply_of (mc_group_id cx) (redacted (mc_group_id cx) r)) = Ok () ->
  check_facts cx f (sr_outcome r) (reply_of (mc_group_id cx)
    (client_reply (mc_group_id cx) r disposition FirstAttempt value)) = Ok ().
Proof.
  intros Hv. unfold check_facts. rewrite !checks_iff. intros (H1 & H2 & H3 & H4 & H5 & H6 & H7).
  split_and!; try done.
  - revert H2. unfold check_snapshot. rewrite !checks_iff. intros (Ha & Hb & Hc).
    change (mrw_snapshot (reply_of _ (redacted _ r)))
      with ((λ s, snapshot_wire (mc_group_id cx) s None true) <$> sr_snapshot r) in *.
    change (mrw_snapshot (reply_of _ (client_reply _ r disposition FirstAttempt value)))
      with ((λ s, snapshot_wire (mc_group_id cx) s value false) <$> sr_snapshot r).
    destruct (sr_snapshot r) as [s|] eqn:Hs; simpl in *; [|done]. split_and!; try done.
    revert Hc. unfold validate_snapshot. rewrite !checks_iff. intros (Hd & He & Hf & Hg & Hh).
    split_and!; try done.
    + revert Hf. unfold check_snapshot_bounds. rewrite !checks_iff, !refuse_iff. simpl.
      intros (? & ? & ? & ? & ? & ? & ?). split_and!; try done.
      destruct value as [v|]; simpl; [|done]. apply N.ltb_ge. by apply (Hv v).
    + destruct (_ =? _)%Z eqn:Hk; [|done]. apply postcondition_value; [|done].
      intros v w -> Hw. apply (Hv v eq_refl); [done|]. intros Ho. rewrite Ho in Hk.
      revert Hk. by destruct (facts_kind f).
  - revert H7. unfold check_acl_field, reply_of, mutation_reply, redacted, client_reply. simpl.
    by destruct (sr_snapshot r).
Qed.

(** The facts check alone, on the reply's replay. *)
Definition states (r : SavedReply) : Prop :=
  check_facts cx f (sr_outcome r) (reply_of (mc_group_id cx) (redacted (mc_group_id cx) r)) = Ok ().

Lemma states_fits r disposition value :
  check_pairing (disposition_code disposition) (sr_outcome r) (sr_reason r) = Ok () -> states r ->
  value_shown f (sr_outcome r) value -> fits (client_reply (mc_group_id cx) r disposition FirstAttempt value).
Proof.
  intros Hp Hs Hv. exists (sr_outcome r), (sr_reason r). split_and!; [done|done| |done|].
  - destruct disposition; simpl; auto.
  - by apply check_facts_value.
Qed.

(** The snapshot part of the facts check. *)
Lemma snapshot_states group outcome s :
  mc_group_id cx = group ->
  snapshot_legal s = true -> valid_key (ss_resource s) -> width_typed 32 (ss_holder s) ->
  (forall k, facts_resource f = Some k -> k = resource_key_to_wire (ss_resource s)) ->
  match outcome with
  | O_Granted | O_Renewed | O_Mutated => ss_holder s = Some (mc_local_actor cx)
  | O_Released | O_Revoked => ss_held s = false
  | _ => True
  end ->
  (outcome_code outcome = success_outcome_code (facts_kind f) ->
   snapshot_postcondition f (snapshot_wire group s None true) = Ok ()) ->
  validate_snapshot cx f outcome (snapshot_wire group s None true) = Ok ().
Proof.
  intros Hg Hl Hk Hw Hr Ho Hp. unfold validate_snapshot. checks; simpl.
  - by apply negb_decide_false.
  - destruct (facts_resource f) as [k|]; simpl; [|done]. rewrite (Hr k eq_refl). by apply negb_decide_false.
  - by apply legal_snapshot_bounds.
  - destruct outcome; try done; apply refuse_ok; try done; by apply negb_decide_false.
  - destruct (Z.eqb_spec (outcome_code outcome) (success_outcome_code (facts_kind f))); auto.
Qed.

Lemma check_snapshot_some r s :
  sr_snapshot r = Some s -> never_carries (sr_outcome r) = false ->
  validate_snapshot cx f (sr_outcome r) (snapshot_wire (mc_group_id cx) s None true) = Ok () ->
  check_snapshot cx f (sr_outcome r) (reply_of (mc_group_id cx) (redacted (mc_group_id cx) r)) = Ok ().
Proof.
  intros Hs Hn Hv. unfold check_snapshot, reply_of, mutation_reply, redacted, client_reply. simpl.
  rewrite Hs. simpl. rewrite Hn. checks; [by rewrite andb_false_r|done|exact Hv].
Qed.

Lemma check_snapshot_none r :
  sr_snapshot r = None -> register_success (sr_outcome r) = false ->
  check_snapshot cx f (sr_outcome r) (reply_of (mc_group_id cx) (redacted (mc_group_id cx) r)) = Ok ().
Proof.
  intros Hs Hn. unfold check_snapshot, reply_of, mutation_reply, redacted, client_reply. simpl.
  rewrite Hs, Hn. simpl. by rewrite andb_false_r.
Qed.

(** A rejection that names the requested resource or none. *)
Lemma rejection_states st resource reason :
  resources_ok st -> admins_ok st -> machine_typed st ->
  (forall key, resource = Some key -> valid_key key /\
     forall k, facts_resource f = Some k -> k = resource_key_to_wire key) ->
  states (rejection st resource reason).
Proof.
  intros Hres Hadm Hty Hk. unfold states, check_facts. checks.
  - simpl. by rewrite andb_false_r.
  - destruct resource as [key|]; [|by apply check_snapshot_none]. destruct (Hk key eq_refl) as [Hv Hr].
    apply (check_snapshot_some _ (SavedSnapshot_of key (default ResourceRow_default (st_resources st !! key)))); [done..|].
    apply snapshot_states; try done.
    + by apply snapshot_of_legal, row_default_ok.
    + by apply (row_typed (mk_Tx st ChangeSet_default) Hty).
    + by destruct (facts_kind f).
  - done.
  - destruct resource as [key|]; simpl; [|done]. apply N.ltb_ge, (row_default_ok _ Hres key).
  - apply N.ltb_ge, Hadm.
  - done.
  - unfold check_acl_field. destruct resource as [key|]; simpl; [|done]. by rewrite N.eqb_refl.
Qed.

(** A success about one resource row. *)
Lemma register_states outcome key row :
  valid_key key -> row_ok row -> width_typed 32 (rr_holder row) ->
  facts_resource f = Some (resource_key_to_wire key) -> register_success outcome = true ->
  outcome_code outcome = success_outcome_code (facts_kind f) ->
  match outcome with
  | O_Granted | O_Renewed | O_Mutated => rr_holder row = Some (mc_local_actor cx)
  | _ => rr_held row = false
  end ->
  snapshot_postcondition f (snapshot_wire (mc_group_id cx) (SavedSnapshot_of key row) None true) = Ok () ->
  states (clr_reply (consumed_success outcome key row)).
Proof.
  intros Hk Hok Hw Hr Hreg Hm Hh Hp. unfold states, check_facts. checks.
  - simpl. by rewrite Hm, Z.eqb_refl.
  - apply (check_snapshot_some _ (SavedSnapshot_of key row)); [done|by destruct outcome|].
    apply snapshot_states; try done; [by apply snapshot_of_legal|by intros k; rewrite Hr; intros [= <-]|].
    by destruct outcome.
  - by destruct outcome.
  - simpl. apply N.ltb_ge, Hok.
  - done.
  - by destruct outcome.
  - unfold check_acl_field. simpl. rewrite N.eqb_refl. by destruct outcome.
Qed.

Lemma follows_same n : follows n n = true.
Proof. unfold follows. by rewrite N.eqb_refl. Qed.

Lemma follows_next n : n < MAX_COUNTER -> follows n (n + 1) = true.
Proof.
  intros Hn. unfold follows, advanced, checked_add. apply orb_true_iff. right. apply bool_decide_eq_true_2.
  assert ((n + 1 <=? U64_MAX) = true) as -> by (apply N.leb_le; unfold U64_MAX, MAX_COUNTER in *; lia). simpl.
  by assert ((n + 1 <=? MAX_COUNTER) = true) as -> by (apply N.leb_le; lia).
Qed.

(** A grant, applied or already in place. *)
Lemma grant_states resource target rights expected key (s : option SavedSnapshot) revision :
  f = RF_SetGrant resource target rights expected -> resource = resource_key_to_wire key ->
  (forall s', s = Some s' -> snapshot_legal s' = true /\ width_typed 32 (ss_holder s') /\
     ss_resource s' = key /\ ss_acl_revision s' = revision) ->
  valid_key key -> revision <= MAX_COUNTER -> follows expected revision = true ->
  states (mk_SavedReply O_GrantUpdated R_None s revision 0 None None).
Proof.
  intros Hf Hr Hs Hk Hn Hfol. unfold states, check_facts. rewrite Hf. checks.
  - done.
  - rewrite <- Hf. destruct s as [s|]; [|by apply check_snapshot_none].
    destruct (Hs s eq_refl) as (Hl & Hw & He & _).
    apply (check_snapshot_some _ s); [done..|]. apply snapshot_states; try done; [by rewrite He|..]; rewrite Hf; [|done].
    intros k [= <-]. by rewrite He.
  - done.
  - by apply N.ltb_ge.
  - done.
  - done.
  - unfold check_acl_field. simpl. rewrite Hfol. checks; [|done].
    destruct s as [s|]; simpl; [|done]. destruct (Hs s eq_refl) as (_ & _ & _ & ->). by rewrite N.eqb_refl.
Qed.

(** An administrator change, applied or already in place. *)
Lemma admin_states target expected revision :
  f = RF_SetAdmin target expected -> revision <= MAX_COUNTER -> follows expected revision = true ->
  states (admin_reply revision).
Proof.
  intros Hf Hn Hfol. unfold states, check_facts. rewrite Hf. checks; try done.
  - by apply N.ltb_ge.
  - unfold check_admin_field. simpl. by rewrite Hfol.
Qed.

(** A membership change or cancellation. *)
Lemma membership_states outcome id log :
  membership_success outcome = true -> outcome_code outcome = success_outcome_code (facts_kind f) ->
  facts_operation_id f = Some id -> log_ids_typed log ->
  states (clr_reply (membership_reply outcome id log)).
Proof.
  intros Ho Hm Hid Hl. unfold states, check_facts. checks.
  - simpl. by rewrite Hm, Z.eqb_refl.
  - by apply check_snapshot_none; destruct outcome.
  - unfold check_membership_fields. simpl. rewrite Ho, Hid. checks; [done|by apply negb_decide_false| |].
    + by rewrite andb_false_r.
    + destruct log as [l|]; [|done]. unfold check_log_id_opt, check_log_id. simpl.
      by rewrite (Hl l eq_refl).
  - done.
  - done.
  - by destruct outcome.
  - by destruct outcome.
Qed.
End verdicts.

(** ** What the group writes is what it reports *)

(** The row an accepted action leaves, as the client may expect it. *)
Definition row_expected (actor : NodeId) (a : ResourceAction) (row : ResourceRow) : Prop :=
  match a with
  | Acquire _ ttl =>
      rr_holder row = Some actor /\ rr_ttl_ms row = ttl /\ rr_epoch row <> 0 /\ rr_lease_revision row <> 0
  | Renew fence => rr_holder row = Some actor /\ rr_epoch row = fe_epoch fence
  | CompareAndSet fence expected value =>
      rr_holder row = Some actor /\ rr_epoch row = fe_epoch fence /\ rr_value row = value /\
      rr_value_revision row = expected + 1 /\ expected < MAX_COUNTER
  | Release fence => rr_held row = false /\ rr_epoch row = fe_epoch fence + 1 /\ fe_epoch fence < MAX_COUNTER
  | ReleaseWithValue fence expected value =>
      rr_held row = false /\ rr_epoch row = fe_epoch fence + 1 /\ fe_epoch fence < MAX_COUNTER /\
      rr_value row = value /\ rr_value_revision row = expected + 1 /\ expected < MAX_COUNTER
  | Revoke _ (Some expected) => rr_held row = false /\ rr_epoch row = expected + 1 /\ expected < MAX_COUNTER
  | Revoke _ None => rr_held row = false /\ rr_epoch row <> 0
  end.

Lemma room_1 a : counters_have_room [a] = true -> a < MAX_COUNTER.
Proof. rewrite counters_have_room_spec. by intros [? _]%Forall_cons_iff. Qed.
Lemma room_2 a b : counters_have_room [a; b] = true -> a < MAX_COUNTER /\ b < MAX_COUNTER.
Proof. rewrite counters_have_room_spec. by intros [? [? _]%Forall_cons_iff]%Forall_cons_iff. Qed.
Lemma room_3 a b c :
  counters_have_room [a; b; c] = true -> a < MAX_COUNTER /\ b < MAX_COUNTER /\ c < MAX_COUNTER.
Proof. rewrite counters_have_room_spec. by intros [? [? [? _]%Forall_cons_iff]%Forall_cons_iff]%Forall_cons_iff. Qed.

Lemma resource_decide_expected st actor a e :
  resource_decide st actor a = RD_Apply e -> row_expected actor a (re_row e).
Proof.
  unfold resource_decide, decide_acquire, decide_renew, decide_compare_and_set, decide_release,
    decide_release_with_value, decide_revoke, cleared_lease. intros H.
  destruct (validate _); [|done]. destruct (check_shape a); [done|].
  destruct (negb (_ =? required_rights a)); [done|]. destruct (from_option _ _ (action_fence a)); [done|].
  destruct a as [raw ttl|fe|fe x v|fe|fe x v|raw [x|]];
    repeat (case_match; try discriminate H); injection H as <-; boolean_facts; simpl in *;
    repeat match goal with
    | H : check_fence _ _ _ = None |- _ => apply check_fence_None in H as (? & ? & ? & ?)
    | H : counters_have_room [_] = true |- _ => apply room_1 in H
    | H : counters_have_room [_; _] = true |- _ => apply room_2 in H as [??]
    | H : counters_have_room [_; _; _] = true |- _ => apply room_3 in H as (? & ? & ?)
    end; boolean_facts; rewrite ?counter_step by done; split_and!; try done; try lia; congruence.
Qed.

Lemma validate_wire k key : validate (raw_key_of k) = Ok key -> resource_key_to_wire key = k /\ valid_key key.
Proof.
  intros H. split; [|by eapply validate_valid]. unfold validate, validate_resource_key in H.
  destruct (ResourceKey_new _ _) eqn:E; [|done]. injection H as ->. apply ResourceKey_new_Ok in E as [-> _].
  by destruct k.
Qed.

Lemma checked_add_room a : a < MAX_COUNTER -> checked_add a 1 = Some (a + 1).
Proof.
  intros H. unfold checked_add.
  by assert ((a + 1 <=? U64_MAX) = true) as -> by (apply N.leb_le; unfold U64_MAX, MAX_COUNTER in *; lia).
Qed.

(** A request of one resource, as the client and the model see it. *)
Definition resource_request (f : RequestFacts) (a : ResourceAction) : Prop :=
  match f, a with
  | RF_Acquire k ttl, Acquire raw ttl' => raw = raw_key_of k /\ ttl' = ttl
  | RF_Renew fe, Renew fe' => narrow_fence fe = Ok fe'
  | RF_CompareAndSet fe x v, CompareAndSet fe' x' v' => narrow_fence fe = Ok fe' /\ x' = x /\ v' = v
  | RF_Release fe, Release fe' => narrow_fence fe = Ok fe'
  | RF_ReleaseWithValue fe x v, ReleaseWithValue fe' x' v' => narrow_fence fe = Ok fe' /\ x' = x /\ v' = v
  | RF_Revoke k x, Revoke raw x' => raw = raw_key_of k /\ x' = x
  | _, _ => False
  end.

Lemma narrow_fence_Ok fe fe' :
  narrow_fence fe = Ok fe' -> fe_epoch fe' = fev_epoch fe /\ fe_resource fe' = raw_key_of (fev_resource fe).
Proof. unfold narrow_fence, narrow_node_id. narrow_widths; try done. by intros [= <-]. Qed.

Lemma resource_request_key f a :
  resource_request f a -> exists k, facts_resource f = Some k /\ raw_resource a = raw_key_of k.
Proof.
  destruct f, a; simpl; try done; intros H; repeat match goal with H : _ /\ _ |- _ => destruct H end; subst;
    repeat match goal with H : narrow_fence _ = Ok _ |- _ => apply narrow_fence_Ok in H as [? ?] end; eauto.
Qed.

Lemma resource_request_post f a actor group key row :
  resource_request f a -> row_expected actor a row ->
  snapshot_postcondition f (snapshot_wire group (SavedSnapshot_of key row) None true) = Ok ().
Proof.
  destruct f as [| |fe x v| |fe x v|k [x|]| | | |],
    a as [raw ttl|fe'|fe' x' v'|fe'|fe' x' v'|raw [x'|]]; simpl; try done; intros H;
    repeat match goal with H : _ /\ _ |- _ => destruct H end; simplify_eq/=;
    repeat match goal with H : narrow_fence _ = Ok _ |- _ => apply narrow_fence_Ok in H as [<- _] end;
    intros E; repeat match goal with H : _ /\ _ |- _ => destruct H end; unfold check_written_value; simpl;
    checks; rewrite ?checked_add_room by done; try done.
  all: try (apply negb_false_iff; first [apply N.eqb_eq|apply bool_decide_eq_true_2]; congruence).
  all: try (apply orb_false_iff; split); by apply N.eqb_neq.
Qed.

Section decided.
Context `{Carrier : UnknownCarrier} `{Ext : Externals}.

(** The wire action behind a request and the action it narrows to. *)
Definition asks (f : RequestFacts) (a : Action) : Prop :=
  exists w, facts_of w = Some f /\ action_from_wire w = Ok a.

Lemma asks_cases f a :
  asks f a ->
  match a with
  | A_Resource r => resource_request f r
  | A_Grant g => exists k target, f = RF_SetGrant k target (gra_rights g) (gra_expected_acl_revision g) /\
      gra_resource g = raw_key_of k
  | A_Admin x => exists target, f = RF_SetAdmin target (ada_expected_admin_revision x)
  | A_ChangeMembership m => facts_kind f = MK_ChangeMembership /\ facts_operation_id f = Some (cha_operation_id m)
  | A_CancelMembership m => facts_kind f = MK_CancelMembership /\ facts_operation_id f = Some (caa_operation_id m)
  end.
Proof.
  intros (w & Hf & Ha). destruct w as [| | | | | | | |w| |]; simpl in Ha, Hf; try discriminate Hf;
    injection Hf as <-;
    try (match type of Ha with context [narrow_fence ?x] => destruct (narrow_fence x) eqn:Hn; [|discriminate Ha] end);
    try (injection Ha as <-; done);
    try (revert Ha; narrow_widths; [|done]; intros [= <-]; eauto; fail).
  revert Ha. narrow_widths; [|done]. intros Ha.
  destruct (narrow_option narrow_log_id _); [|done]. destruct (narrow_all _ (cmv_desired_voters w)); [|done].
  destruct (narrow_all _ (cmv_retained_learners w)); [|done]. destruct (narrow_all narrow_seed _); [|done].
  by injection Ha as <-.
Qed.

(** The resource a refusal names is the one requested. *)
Lemma asks_resource f a key :
  asks f a -> validated_resource a = Some key ->
  valid_key key /\ forall k, facts_resource f = Some k -> k = resource_key_to_wire key.
Proof.
  intros Ha%asks_cases Hv. split; [by eapply validated_resource_valid|]. intros k Hk. destruct a as [r|g|x|m|m]; simpl in Hv; try done.
  - destruct (resource_request_key f r Ha) as (k' & Hk' & Hr). rewrite Hk in Hk'. injection Hk' as <-.
    destruct (validate _) eqn:E; [|done]. injection Hv as ->. rewrite Hr in E. by apply validate_wire in E as [-> _].
  - destruct Ha as (k' & target & -> & Hr). simpl in Hk. injection Hk as <-.
    destruct (validate _) eqn:E; [|done]. injection Hv as ->. rewrite Hr in E. by apply validate_wire in E as [-> _].
Qed.

(** Every refusal a decision gives may be saved. *)
Lemma refusal_saved a st actor h reason :
  refusal_of (action_decide a st actor h) = Some (Some reason) -> may_be_saved_rejection (refusal_get reason) = true.
Proof.
  destruct a as [r|g|x|m|m]; simpl.
  - destruct (resource_decide _ _ _) eqn:H; simpl; try done. intros [= <-].
    unfold resource_decide, decide_acquire, decide_renew, decide_compare_and_set, decide_release,
      decide_release_with_value, decide_revoke, check_fence in H.
    repeat (case_match; try discriminate H); by simplify_eq/=.
  - destruct (grant_decide _ _ _) eqn:H; simpl; try done. intros [= <-]. unfold grant_decide in H.
    repeat (case_match; try discriminate H); by simplify_eq/=.
  - destruct (admin_decide _ _ _) eqn:H; simpl; try done. intros [= <-]. unfold admin_decide in H.
    repeat (case_match; try discriminate H); by simplify_eq/=.
  - destruct (decide_change _ _ _ _) eqn:H; simpl; try done. intros [= <-]. unfold decide_change in H.
    repeat (case_match; try discriminate H); by simplify_eq/=.
  - destruct (decide_cancel _ _ _) eqn:H; simpl; try done. intros [= <-]. unfold decide_cancel in H.
    repeat (case_match; try discriminate H); by simplify_eq/=.
Qed.

Lemma grant_noop_revision st actor g n :
  grant_decide st actor g = GD_NoOp n ->
  exists key, validate (gra_resource g) = Ok key /\ n = from_option rr_acl_revision 0 (st_resources st !! key) /\
    gra_expected_acl_revision g = n.
Proof.
  unfold grant_decide. destruct (validate (gra_resource g)) as [key|]; [|done]. intros H. exists key.
  split; [done|]. repeat (case_match; try discriminate H); injection H as <-; by boolean_facts.
Qed.

Lemma admin_noop_revision st actor a n :
  admin_decide st actor a = AD_NoOp n -> n = st_admin_revision st /\ ada_expected_admin_revision a = st_admin_revision st.
Proof.
  unfold admin_decide. intros H. repeat (case_match; try discriminate H); injection H as <-; by boolean_facts.
Qed.

Lemma decide_change_id st actor h m e : decide_change st actor h m = MD_Apply e -> ie_operation_id e = cha_operation_id m.
Proof. unfold decide_change. intros H. repeat (case_match; try discriminate H); by injection H as <-. Qed.
Lemma decide_cancel_id st actor m e : decide_cancel st actor m = MD_Apply e -> ie_operation_id e = caa_operation_id m.
Proof. unfold decide_cancel. intros H. repeat (case_match; try discriminate H); by injection H as <-. Qed.

Section fresh.
Context (cx : MutationContext) (f : RequestFacts) (log_id : LogId) (client : ClientRef) (tx : Tx).
Context (Hres : resources_ok (tx_state tx)) (Hadm : admins_ok (tx_state tx)).
Context (Hty : machine_typed (tx_state tx)) (Hactor : len (cr_actor client) = 32).
Context (Hlocal : mc_local_actor cx = cr_actor client).

Lemma resource_answers a e :
  resource_request f a -> resource_decide (tx_state tx) (cr_actor client) a = RD_Apply e ->
  answers cx f (clr_reply (consumed_success (re_outcome e) (re_key e) (re_row e))).
Proof.
  intros Hr Hd. pose proof (resource_decide_accepted _ _ _ _ Hd) as Ha.
  pose proof (resource_decide_expected _ _ _ _ Hd) as Hx. rewrite (rac_outcome _ _ _ _ Ha).
  destruct (resource_request_key f a Hr) as (k & Hk & Hraw). pose proof (rac_key _ _ _ _ Ha) as Hkey.
  rewrite Hraw in Hkey. apply validate_wire in Hkey as [Hw Hv].
  split; [by destruct a|]. apply register_states; try done.
  - by apply (resource_decide_row _ _ _ _ Hd), row_default_ok.
  - destruct (resource_decide_holder _ _ _ _ Hd) as [-> |[-> |(row & Hrow & ->)]]; [done|by intros ? [= <-]|].
    by eapply (sty_resources _ (mt_state _ Hty)).
  - by rewrite Hw.
  - by destruct a.
  - by destruct f, a.
  - rewrite Hlocal. destruct a as [| | | | |? []]; simpl in *; tauto.
  - by eapply resource_request_post.
Qed.

Lemma grant_answers g e k target :
  f = RF_SetGrant k target (gra_rights g) (gra_expected_acl_revision g) -> gra_resource g = raw_key_of k ->
  grant_decide (tx_state tx) (cr_actor client) g = GD_Apply e ->
  answers cx f (clr_reply (consumed_success O_GrantUpdated (gre_key e) (gre_row e))).
Proof.
  intros Hf Hk Hd. pose proof (grant_decide_accepted _ _ _ _ Hd) as Ha.
  pose proof (gac_key _ _ _ _ Ha) as Hkey. rewrite Hk in Hkey. apply validate_wire in Hkey as [Hw Hv].
  assert (row_ok (gre_row e)) as Hok.
  { rewrite (gac_row _ _ _ _ Ha). eapply grant_row_ok; [by apply row_default_ok|..];
      [apply (gac_fenced _ _ _ _ Ha)|apply (gac_counters _ _ _ _ Ha)]. }
  assert (rr_acl_revision (gre_row e) = gra_expected_acl_revision g + 1 /\ gra_expected_acl_revision g < MAX_COUNTER)
    as [Hn Hroom].
  { pose proof (gac_counters _ _ _ _ Ha) as Hc. unfold grant_counters in Hc. apply Forall_cons_iff in Hc as [Hc _].
    rewrite (gac_row _ _ _ _ Ha), (gac_revision _ _ _ _ Ha). simpl. by rewrite counter_step. }
  split; [done|]. eapply (grant_states cx f); [exact Hf|by rewrite Hw| |done|apply Hok|].
  - intros s [= <-]. split_and!; [by apply snapshot_of_legal| |done..].
    rewrite (gac_row _ _ _ _ Ha). unfold grant_row. simpl. destruct (gre_fenced e); [done|].
    by apply (row_typed tx Hty).
  - rewrite Hn. by apply follows_next.
Qed.

Lemma grant_noop_answers g n k target :
  f = RF_SetGrant k target (gra_rights g) (gra_expected_acl_revision g) -> gra_resource g = raw_key_of k ->
  grant_decide (tx_state tx) (cr_actor client) g = GD_NoOp n ->
  answers cx f (no_op_grant_reply (tx_state tx) (validated_resource (A_Grant g)) n).
Proof.
  intros Hf Hk Hd. pose proof (grant_decide_NoOp _ _ _ _ Hres Hd) as Hn.
  destruct (grant_noop_revision _ _ _ _ Hd) as (key & Hkey & Hrev & Hexp). rewrite Hk in Hkey.
  pose proof (validate_wire _ _ Hkey) as [Hw Hv]. split; [done|]. unfold no_op_grant_reply. simpl. rewrite Hk, Hkey. simpl.
  eapply (grant_states cx f); [exact Hf|by rewrite Hw| |exact Hv|done|].
  - intros s Hs. destruct (st_resources (tx_state tx) !! key) as [row|] eqn:Hrow; [|done].
    simpl in Hs, Hrev. injection Hs as <-. split_and!; [| |done|done].
    + by apply snapshot_of_legal, (rs_row _ Hres _ _ Hrow).
    + by eapply (sty_resources _ (mt_state _ Hty)).
  - rewrite Hexp. apply follows_same.
Qed.

Lemma refused_answers action reason :
  asks f action ->
  refusal_of (action_decide action (tx_state tx) (cr_actor client) (cr_request_hash client)) = Some reason ->
  answers cx f (rejection (tx_state tx) (validated_resource action) (from_option refusal_get R_None reason)).
Proof.
  intros Ha Hr. split.
  - unfold check_pairing. simpl. checks. destruct reason as [r|]; simpl; [|done].
    by rewrite (refusal_saved _ _ _ _ _ Hr), orb_true_r.
  - apply rejection_states; try done. intros key Hk. by eapply asks_resource.
Qed.

(** A decision's reply answers the request it was made for. *)
Lemma decided_answers action :
  asks f action -> answers cx f (clr_reply (apply_decided log_id client action tx).1).
Proof.
  intros Hask. pose proof (asks_cases f action Hask) as Hc.
  pose proof (apply_decided_refused log_id client action tx) as Hr.
  pose proof (refused_answers action) as Hra. unfold apply_decided in *.
  destruct action as [r|g|x|m|m]; simpl action_decide in *.
  - destruct (resource_decide _ _ _) as [e| |] eqn:Hd; simpl; [by eapply resource_answers|by eapply (Hra (Some _))|by apply (Hra None)].
  - destruct Hc as (k & target & Hf & Hk).
    destruct (grant_decide _ _ _) as [e|n| |] eqn:Hd; simpl; [by eapply grant_answers|by eapply grant_noop_answers|by eapply (Hra (Some _))|by apply (Hra None)].
  - destruct Hc as (target & Hf).
    destruct (admin_decide _ _ _) as [e|n|] eqn:Hd; simpl; [..|by eapply (Hra (Some _))]; (split; [done|]).
    + apply admin_decide_accepted in Hd as []. eapply admin_states; [exact Hf|lia|].
      rewrite adc_next, <- adc_revision. apply follows_next. by rewrite adc_revision.
    + destruct (admin_noop_revision _ _ _ _ Hd) as [-> Hexp]. eapply admin_states; [exact Hf|apply Hadm|].
      rewrite Hexp. apply follows_same.
  - destruct Hc as [Hk Hid].
    destruct (decide_change _ _ _ _) as [e|n| |] eqn:Hd; simpl; [| |by eapply (Hra (Some _))|by apply (Hra None)];
      (split; [first [done|by rewrite (decide_change_outcome _ _ _ _ _ Hd)]|]).
    + rewrite (decide_change_outcome _ _ _ _ _ Hd). apply membership_states; try done; [by rewrite Hk|..].
      * by rewrite Hid, (decide_change_id _ _ _ _ _ Hd).
      * rewrite (mo_membership_log_id _ _ (write_intent_frame log_id e tx)). apply Hty.
    + apply membership_states; try done; [by rewrite Hk|]. apply Hty.
  - destruct Hc as [Hk Hid].
    destruct (decide_cancel _ _ _) as [e|n| |] eqn:Hd; simpl; [| |by eapply (Hra (Some _))|by apply (Hra None)].
    + split; [by rewrite (decide_cancel_outcome _ _ _ _ Hd)|].
      rewrite (decide_cancel_outcome _ _ _ _ Hd). apply membership_states; try done; [by rewrite Hk|..].
      * by rewrite Hid, (decide_cancel_id _ _ _ _ Hd).
      * rewrite (mo_membership_log_id _ _ (write_intent_frame log_id e tx)). apply Hty.
    + by apply decide_cancel_not_existing in Hd.
Qed.
End fresh.
End decided.

(** ** Saved replies answer what was asked

    [committed] is the action a request hash commits to: the proposers compute
    the hash from the action's canonical bytes. *)

Section saved.
Context `{Carrier : UnknownCarrier} `{Ext : Externals} {Codec : CommandCodec}.
Context (committed : Hash -> option ActionV1).

(** A command that a store service proposes. *)
Definition proposed (w : CommandV1) : Prop :=
  match w with
  | CV_Client c => committed (ccv_request_hash c) = Some (ccv_action c)
  | _ => True
  end.

(** What the command's own fields say once it is narrowed. *)
Definition command_committed (c : Command) : Prop :=
  match c with
  | C_Client client action =>
      exists w f, committed (cr_request_hash client) = Some w /\ facts_of w = Some f /\
        action_from_wire w = Ok action
  | C_RejectedClient client _ resource =>
      exists w f, committed (cr_request_hash client) = Some w /\ facts_of w = Some f /\
        resource = wire_resource w
  | _ => True
  end.

Lemma known_facts w : (forall case, w <> AV_Unknown case) -> exists f, facts_of w = Some f.
Proof. destruct w; eauto. intros H. by destruct (H case). Qed.

Lemma proposed_committed w c : proposed w -> command_for_apply w = Ok c -> command_committed c.
Proof.
  intros Hp Hc. unfold command_for_apply in Hc. destruct (unknown_variant w) eqn:Hu; [done|].
  destruct w as [cc| | | | |]; simpl in Hp.
  2-6: revert Hc; destruct (oversized _); [|destruct (command_from_wire _) as [cmd|[]] eqn:Hw]; intros [= <-];
    try exact I; simpl in Hw; repeat (case_match; try discriminate Hw); by simplify_eq/=.
  destruct (known_facts (ccv_action cc)) as [f Hf].
  { intros case Heq. simpl in Hu. by rewrite Heq in Hu. }
  assert (command_committed (shape_rejection (CV_Client cc))) as Hs.
  { destruct (shape_rejection_client cc) as [[_ ->]|(_ & ? & -> & _)]; [|exact I]. simpl. eauto. }
  revert Hc. destruct (oversized _); [by intros [= <-]|].
  destruct (command_from_wire _) as [cmd|[]] eqn:Hw; intros [= <-]; [|done].
  apply command_from_wire_client in Hw as (a & -> & _ & Ha & _). simpl. eauto.
Qed.

(** Every saved reply answers the action its hash commits to. *)
Definition saved_ok (st : State) : Prop :=
  forall key s r, st_sessions st !! key = Some s -> se_last_result s = Some r ->
    exists w f, committed (se_request_hash s) = Some w /\ facts_of w = Some f /\
      forall cx, mc_local_actor cx = key.1 -> answers cx f r.

Lemma saved_ok_same s s' : st_sessions s' = st_sessions s -> saved_ok s -> saved_ok s'.
Proof. unfold saved_ok. by intros ->. Qed.

Lemma saved_ok_insert s s' key row :
  st_sessions s' = <[key := row]> (st_sessions s) ->
  (forall r, se_last_result row = Some r ->
     exists w f, committed (se_request_hash row) = Some w /\ facts_of w = Some f /\
       forall cx, mc_local_actor cx = key.1 -> answers cx f r) ->
  saved_ok s -> saved_ok s'.
Proof.
  intros Heq Hrow Hs k x r Hk Hr. rewrite Heq in Hk. apply lookup_insert_Some in Hk as [[<- <-]|[_ Hk]]; eauto.
Qed.

Section command.
Context (log_id : LogId) (tx : Tx) (Hsaved : saved_ok (tx_state tx)).
Context (Hres : resources_ok (tx_state tx)) (Hadm : admins_ok (tx_state tx)) (Hty : machine_typed (tx_state tx)).

Lemma apply_client_saved client action :
  len (cr_actor client) = 32 -> command_committed (C_Client client action) ->
  saved_ok (tx_state (apply_client log_id client action tx).2).
Proof.
  intros Hl (w & f & Hw & Hf & Ha).
  destruct (classify_client (tx_state tx) client) as [row creates|row saved|row reason] eqn:Hc.
  - destruct (apply_client_fresh log_id client action tx _ _ Hc) as [Hr Hs].
    eapply saved_ok_insert; [exact Hs| |done]. simpl. intros r [= <-]. exists w, f. split_and!; [done|done|].
    intros cx Hcx. rewrite Hr. apply decided_answers; try done. by exists w.
  - destruct (apply_client_replay log_id client action tx _ _ Hc) as [_ []]. by eapply saved_ok_same.
  - destruct (apply_client_refuse log_id client action tx _ _ Hc) as [_ []]. by eapply saved_ok_same.
Qed.

Lemma wire_resource_facts w f key :
  facts_of w = Some f -> wire_resource w = Some key ->
  valid_key key /\ forall k, facts_resource f = Some k -> k = resource_key_to_wire key.
Proof.
  intros Hf Hw. split; [by eapply wire_resource_valid|]. intros k Hk.
  destruct w; simpl in Hf, Hw; try done; injection Hf as <-; simpl in Hk; injection Hk as <-;
    (destruct (validate _) eqn:E; [|done]); injection Hw as ->; by apply validate_wire in E as [-> _].
Qed.

Lemma apply_rejected_saved client operation resource :
  command_committed (C_RejectedClient client operation resource) ->
  saved_ok (tx_state (apply_rejected_client log_id client operation resource tx).2).
Proof.
  intros (w & f & Hw & Hf & ->). unfold apply_rejected_client.
  destruct (classify_client (tx_state tx) client) as [row creates|row saved|row reason] eqn:Hc; simpl;
    (eapply saved_ok_same; [apply (oa_sessions _ _ (write_audit_row_only log_id _ _))|]); [|done..].
  eapply saved_ok_insert; [reflexivity| |done]. simpl. intros r [= <-]. exists w, f. split_and!; [done..|].
  intros cx _. split; [done|]. apply rejection_states; try done. intros key. by apply wire_resource_facts.
Qed.

Lemma apply_retire_saved c : saved_ok (tx_state (apply_retire log_id c tx).2).
Proof.
  unfold apply_retire. destruct (retire_decide _ c) as [e|] eqn:Hd; simpl;
    (eapply saved_ok_same; [apply (oa_sessions _ _ (write_audit_row_only log_id _ _))|]); [|done].
  destruct (effect_row _ c e) as [row|] eqn:He; [|done].
  eapply saved_ok_insert; [reflexivity| |done]. intros r Hr.
  destruct (retire_effect_row _ _ _ _ Hd He) as [_ Hrow].
  destruct (st_sessions (tx_state tx) !! _) as [old|] eqn:Hold; [|by destruct Hrow as [-> _]].
  destruct Hrow as (_ & _ & Hh & Hl). rewrite Hh. apply (Hsaved _ _ _ Hold). congruence.
Qed.

Lemma business_saved tx1 row : business log_id tx tx1 -> saved_ok (tx_state (write_audit_row log_id row tx1)).
Proof.
  intros Hb%business_sessions. eapply saved_ok_same; [|done].
  by rewrite (oa_sessions _ _ (write_audit_row_only log_id row tx1)).
Qed.
End command.
End saved.
