(* ===== verification/Served.v ===== *)
(** * Every typed answer is accepted

    The composition of the store service, the replicated store and the client's
    validator: along any history of proposals, whatever a leader answers a
    mutation or a retirement with, before proposing or after applying, the client
    accepts it. *)

From S2P Require Import Prelude Reason Ids Contract Externals Limits State Tables Classify Ticket.
From S2P Require Import Authority Shape Genesis Resource Grant Retire Membership Apply.
From S2P Require Import Wire Boundary Changes Durable Scenario Accounting Invariant AuditTrail.
From S2P Require Import Steps SessionTable MembershipTable RouteTable Preservation.
From S2P Require Import Validation Refinement Leases AccessControl Sessions Lifecycle StoredRows Ingress.
From S2P Require Import Typing Journal Store Inbound Honesty.

#[local] Open Scope N_scope.

Section served.
Context `{Carrier : UnknownCarrier} `{Ext : Externals} {Codec : CommandCodec}.
Context (committed : Hash -> option ActionV1).

(** ** Along a log *)

Lemma apply_genesis_saved log_id signed tx :
  saved_ok committed (tx_state tx) -> saved_ok committed (tx_state (apply_genesis log_id signed tx).2).
Proof.
  intros Hs. unfold apply_genesis. repeat case_match; simpl; try done;
    apply business_saved with (tx := tx); try done; [constructor|].
  boolean_facts. eapply BS_genesis; [done|lia].
Qed.

Lemma dispatch_saved log_id c tx reply tx' :
  saved_ok committed (tx_state tx) -> resources_ok (tx_state tx) -> admins_ok (tx_state tx) ->
  machine_typed (tx_state tx) -> command_typed c -> command_committed committed c ->
  dispatch log_id c tx = (Ok reply, tx') -> saved_ok committed (tx_state tx').
Proof.
  intros Hs Hres Hadm Hty Hct Hcc Hd.
  replace tx' with (dispatch log_id c tx).2 by (by rewrite Hd). clear Hd.
  destruct c as [|client action|client op res|s|e|p|r|signed]; unfold dispatch.
  - done.
  - destruct Hct as [[Hl _] _].
    pose proof (apply_client_saved committed log_id tx Hs Hres Hadm Hty client action Hl Hcc). by destruct (apply_client _ _ _ _).
  - pose proof (apply_rejected_saved committed log_id tx Hs Hres Hadm Hty client op res Hcc).
    by destruct (apply_rejected_client _ _ _ _ _).
  - unfold apply_shapeless. simpl. apply business_saved with (tx := tx); [done|constructor].
  - unfold apply_expire. simpl.
    destruct (expire_decide _ _) eqn:He; apply business_saved with (tx := tx); try done; [by eapply BS_expire|constructor].
  - unfold apply_membership_progress. destruct (decide_progress _ _) as [e|]; simpl;
      (eapply saved_ok_same; [apply (oa_sessions _ _ (write_audit_row_only log_id _ _))|]); [|done].
    eapply saved_ok_same; [apply (mo_sessions _ _ (write_intent_frame log_id e tx))|done].
  - pose proof (apply_retire_saved committed log_id tx Hs r). by destruct (apply_retire _ _ _).
  - pose proof (apply_genesis_saved log_id signed tx Hs). by destruct (apply_genesis _ _ _) as [[]].
Qed.

(** An entry as a store service proposed it and the boundary admitted it. *)
Definition entry_proposed (entry : LogId * Payload) : Prop :=
  log_id_typed entry.1 /\
  match entry.2 with
  | P_Normal c => exists w, command_for_apply w = Ok c /\ proposed committed w
  | P_Blank | P_Membership _ => True
  end.

Lemma entry_proposed_admitted e : entry_proposed e -> admitted e.
Proof. intros [Hl H]. split; [done|]. destruct e as [? []]; simpl in *; try done. destruct H as (w & ? & _). eauto. Qed.

(** The operation a hash commits to. *)
Definition committed_op (h : Hash) : Z := from_option wire_operation_code 0%Z (committed h).

(** A state every reply of which the client would accept. *)
Record answerable (st : State) : Prop := {
  asw_resources : resources_ok st;
  asw_acl : acl_ok st;
  asw_admins : admins_ok st;
  asw_typed : machine_typed st;
  asw_saved : saved_ok committed st;
}.

Lemma apply_entry_saved log_id p w reply w' :
  durable_inv committed_op (tx_state (wk_tx w)) (wk_membership w) ->
  machine_typed (tx_state (wk_tx w)) -> saved_ok committed (tx_state (wk_tx w)) -> entry_proposed (log_id, p) ->
  apply_entry log_id p w = Ok (reply, w') -> saved_ok committed (tx_state (wk_tx w')).
Proof.
  intros [Hinv _] Hty Hs [_ Hp] H. simpl in Hp. unfold apply_entry in H. destruct p as [|m|c].
  - destruct (guard_delivery _ _); [|done]. injection H as <- <-. by eapply saved_ok_same.
  - destruct (guard_delivery _ _); [|done]. repeat (case_match; try discriminate H). injection H as <- <-.
    by eapply saved_ok_same.
  - destruct Hp as (wire & Hw & Hpr). unfold apply_command_recording in H.
    destruct (guard_delivery _ _); [|done]. destruct (dispatch log_id c (wk_tx w)) as [[r|] tx1] eqn:Hd; [|done].
    injection H as <- <-. apply (saved_ok_same committed (tx_state tx1)); [reflexivity|].
    eapply dispatch_saved; [exact Hs|apply Hinv|apply Hinv|done|by eapply command_for_apply_typed|
      by eapply proposed_committed|exact Hd].
Qed.

Lemma apply_entries_saved entries w replies w' :
  durable_inv committed_op (tx_state (wk_tx w)) (wk_membership w) ->
  log_wf committed_op (st_deployment_profile_code (tx_state (wk_tx w)))
    (st_last_applied (tx_state (wk_tx w))) entries ->
  machine_typed (tx_state (wk_tx w)) -> saved_ok committed (tx_state (wk_tx w)) ->
  (forall e, e ∈ entries -> entry_proposed e) ->
  apply_entries entries w = Ok (replies, w') -> saved_ok committed (tx_state (wk_tx w')).
Proof.
  revert w replies. induction entries as [|[id p] rest IH]; intros w replies Hd Hw Hty Hs Hp; cbn [apply_entries].
  - by intros [= <- <-].
  - destruct Hw as (Ht & Hok & Hrest).
    destruct (apply_entry id p w) as [[r w1]|] eqn:He; [|done].
    destruct (apply_entry_inv _ _ _ _ _ _ Hd Ht Hok He) as (Hd1 & Hl & Hpr).
    destruct (apply_entries rest w1) as [[rs w2]|] eqn:Hr; [|done]. intros [= <- <-].
    assert (entry_proposed (id, p)) as H1 by (apply Hp; left).
    eapply IH; [exact Hd1|by rewrite Hl, Hpr| | |intros e Hin; apply Hp; by right|exact Hr].
    + eapply apply_entry_typed; [exact Hty|by apply entry_proposed_admitted|exact He].
    + eapply apply_entry_saved; [exact Hd|exact Hty|exact Hs|exact H1|exact He].
Qed.

(** Stores reached through batches of proposed entries. *)
Inductive served : DurableState -> StoredTables -> Prop :=
| served_bind authority profile :
    ed25519_key_accepted (ga_public_key authority) = true ->
    check_authority_domain (ga_domain authority) = true -> profile ∈ PROFILES ->
    served (bound_store authority profile) (tables_of (bound_state authority profile))
| served_batch d t entries replies d' t' :
    served d t ->
    log_wf committed_op (st_deployment_profile_code (ds_model d)) (st_last_applied (ds_model d)) entries ->
    (forall e, e ∈ entries -> entry_proposed e) ->
    apply_batch entries d t = Ok (replies, d', t') -> served d' t'.

Lemma served_reachable d t : served d t -> reachable committed_op d t.
Proof. induction 1; [by apply reach_bind|by eapply reach_batch]. Qed.

Lemma served_answerable d t : served d t -> answerable (ds_model d).
Proof.
  intros Hs. assert (durable_inv committed_op (ds_model d) (ds_membership d)) as Hd
    by (by apply (reachable_inv committed_op d t), served_reachable).
  assert (machine_typed (ds_model d) /\ saved_ok committed (ds_model d)) as [Ht Hk].
  { clear Hd. induction Hs as [|d t entries replies d' t' Hs [IHt IHs] Hw Hp Happ]; [split; [apply bound_typed|done]|].
    assert (durable_inv committed_op (ds_model d) (ds_membership d)) as Hd
      by (by apply (reachable_inv committed_op d t), served_reachable).
    unfold apply_batch in Happ. set (w := mk_Working _ _) in *.
    destruct (apply_entries entries w) as [[rs w']|] eqn:He; [|done]. injection Happ as <- <- <-. simpl. split.
    - apply (apply_entries_typed entries w rs w' IHt); [|done]. intros e Hin. by apply entry_proposed_admitted, Hp.
    - by apply (apply_entries_saved entries w rs w' Hd Hw IHt IHs Hp). }
  split; [apply Hd|apply Hd|apply Hd|done|done].
Qed.


(** ** What a leader answers *)

(** The value a fresh write shows is the one written. *)
Lemma decided_value f log_id client action tx key row w :
  asks f action -> facts_written f = Some w ->
  sr_outcome (clr_reply (apply_decided log_id client action tx).1) <> O_Rejected ->
  sr_resource (clr_reply (apply_decided log_id client action tx).1) = Some key ->
  st_resources (tx_state (apply_decided log_id client action tx).2) !! key = Some row ->
  rr_value row = w.
Proof.
  intros Ha%asks_cases Hw. destruct action as [r|g|x|m|m]; simpl in Ha.
  2: by destruct Ha as (? & ? & -> & _).
  2: destruct Ha as (? & ->); done.
  2-3: by destruct f, Ha.
  unfold apply_decided. simpl. destruct (resource_decide _ _ r) as [e|reason|limit] eqn:Hd; simpl; [|done..].
  intros _ [= <-]. rewrite lookup_insert_eq. intros [= <-]. apply resource_decide_expected in Hd.
  destruct f, r; simpl in *; try done; destruct_and?; congruence.
Qed.

Section applied.
Context (log_id : LogId) (tx : Tx) (Hok : answerable (tx_state tx)) (cx : MutationContext) (f : RequestFacts).

Lemma fresh_value_shown client action res tx' :
  asks f action -> apply_client log_id client action tx = (res, tx') -> clr_replayed res = false ->
  value_shown f (sr_outcome (clr_reply res))
    (key ← sr_resource (clr_reply res);
     if negb (N.land (granted_rights (tx_state tx') key (cr_actor client)) RIGHT_READ =? 0)
     then rr_value <$> st_resources (tx_state tx') !! key else None).
Proof.
  intros Ha Happ Hrep v Hv. destruct (sr_resource (clr_reply res)) as [key|] eqn:Hkey; [|done]. simpl in Hv.
  destruct (negb _); [|done]. apply fmap_Some in Hv as (row & Hrow & ->).
  destruct (classify_client (tx_state tx) client) as [r creates|r saved|r reason] eqn:Hc.
  - pose proof (apply_client_unresolved_business log_id client action tx _ _ Hc) as Hb.
    destruct (apply_client_fresh log_id client action tx _ _ Hc) as [Hr _]. rewrite Happ in Hb, Hr. simpl in Hb, Hr.
    rewrite (sb_resources _ _ Hb) in Hrow. destruct Hok. split.
    + assert (resources_ok (tx_state (apply_decided log_id client action tx).2)) as Hres
        by (apply (business_resources log_id tx); [done..|by apply apply_decided_steps]).
      by apply (rs_row _ Hres _ _ Hrow).
    + intros w Hw Ho. rewrite Hr in Ho, Hkey. by eapply decided_value.
  - destruct (apply_client_replay log_id client action tx _ _ Hc) as [Hr _]. rewrite Happ in Hr. simpl in Hr.
    by rewrite Hr in Hrep.
  - destruct (apply_client_refuse log_id client action tx _ _ Hc) as [Hr Hb]. rewrite Happ in Hr, Hb. simpl in Hr, Hb.
    rewrite (sb_resources _ _ (oa_business _ _ Hb)) in Hrow. split; [by apply (rs_row _ (asw_resources _ Hok) _ _ Hrow)|].
    intros w _ Ho. by rewrite Hr in Ho.
Qed.

Lemma refused_fits st resource reason disposition value :
  answerable st ->
  check_pairing (disposition_code disposition) O_Rejected reason = Ok () ->
  (forall key, resource = Some key -> valid_key key /\
     forall k, facts_resource f = Some k -> k = resource_key_to_wire key) ->
  value_shown f O_Rejected value ->
  fits cx f (client_reply (mc_group_id cx) (rejection st resource reason) disposition FirstAttempt value).
Proof. intros [] Hp Hk Hv. by apply states_fits; [|apply rejection_states|]. Qed.

Lemma not_consumed_pairing reason :
  may_be_not_consumed reason = true -> check_pairing (disposition_code NotConsumed) O_Rejected reason = Ok ().
Proof. intros H. unfold check_pairing. simpl. by rewrite H. Qed.

(** A replayed row was saved for the very request that asks again. *)
Lemma replay_fits client w row saved :
  mc_local_actor cx = cr_actor client -> committed (cr_request_hash client) = Some w -> facts_of w = Some f ->
  classify_client (tx_state tx) client = Replay row saved ->
  fits cx f (redacted (mc_group_id cx) saved).
Proof.
  intros Hl Hw Hf (_ & _ & s & Hs & _ & Hh & Hr)%classify_replay_iff.
  apply answers_fits. destruct (asw_saved _ Hok _ _ _ Hs Hr) as (w' & f' & Hw' & Hf' & Ha).
  rewrite <- Hh, Hw in Hw'. injection Hw' as <-. rewrite Hf in Hf'. injection Hf' as <-. by apply Ha.
Qed.

(** The reply of a committed command fits the request it was proposed for. *)
Lemma applied_fits w client action res tx' :
  mc_local_actor cx = cr_actor client -> len (cr_actor client) = 32 ->
  committed (cr_request_hash client) = Some w -> facts_of w = Some f -> action_from_wire w = Ok action ->
  apply_client log_id client action tx = (res, tx') ->
  fits cx f (client_reply_for (tx_state tx') (mc_group_id cx) (C_Client client action) res).
Proof.
  intros Hl Hlen Hw Hf Ha Happ. assert (asks f action) as Hask by (by exists w).
  pose proof (fresh_value_shown client action res tx' Hask Happ) as Hv. unfold client_reply_for.
  destruct (classify_client (tx_state tx) client) as [r creates|r saved|r reason] eqn:Hc.
  - destruct (apply_client_fresh log_id client action tx _ _ Hc) as [Hr _]. rewrite Happ in Hr. simpl in Hr.
    destruct (apply_decided_reply log_id client action tx) as [Hd Hrep]. rewrite <- Hr in Hd, Hrep.
    rewrite Hrep, Hd. destruct (decided_answers cx f log_id client tx (asw_resources _ Hok)
      (asw_admins _ Hok) (asw_typed _ Hok) Hlen Hl action Hask) as [Hp Hs]. rewrite <- Hr in Hp, Hs.
    by apply states_fits; [done| |apply Hv].
  - destruct (apply_client_replay log_id client action tx _ _ Hc) as [Hr _]. rewrite Happ in Hr. simpl in Hr.
    rewrite Hr. by eapply replay_fits.
  - destruct (apply_client_refuse log_id client action tx _ _ Hc) as [Hr _]. rewrite Happ in Hr. simpl in Hr.
    rewrite Hr in *. apply refused_fits; [done| | |by apply Hv].
    + by eapply not_consumed_pairing, classify_refuse_reason.
    + intros key. by apply asks_resource.
Qed.

Lemma rejected_fits w client operation res tx' :
  mc_local_actor cx = cr_actor client ->
  committed (cr_request_hash client) = Some w -> facts_of w = Some f ->
  apply_rejected_client log_id client operation (wire_resource w) tx = (res, tx') ->
  fits cx f (client_reply_for (tx_state tx') (mc_group_id cx)
               (C_RejectedClient client operation (wire_resource w)) res).
Proof.
  intros Hl Hw Hf Happ. unfold apply_rejected_client in Happ. unfold client_reply_for.
  destruct (classify_client (tx_state tx) client) as [r creates|r saved|r reason] eqn:Hc; injection Happ as <- <-; simpl.
  - apply refused_fits; [done..|intros key; by apply wire_resource_facts|].
    by destruct (sr_resource _).
  - by eapply replay_fits.
  - apply refused_fits; [done|by eapply not_consumed_pairing, classify_refuse_reason|intros key; by apply wire_resource_facts|].
    by destruct (sr_resource _).
Qed.
End applied.

Lemma validate_fits `{Requests : StoreCodec} cx f p c :
  fits cx f c -> decode_facts (mc_method cx) (mc_request cx) = Ok f ->
  px_client_id p = mc_client_id cx -> px_sequence p = mc_sequence cx ->
  validate_reply cx (mutation_reply (mc_group_id cx) p (mc_request_hash cx) c) = Ok ().
Proof.
  intros (outcome & reason & Ho & Hr & Hd & Hp & Hc) Hf Hid Hseq. unfold validate_reply. checks.
  - unfold check_ownership. checks; [done|by apply negb_decide_false|]. simpl.
    by rewrite Hid, Hseq, N.eqb_refl, !bool_decide_eq_true_2 by done.
  - simpl. destruct Hd as [-> | ->]; done.
  - simpl. rewrite Ho, Hr, outcome_code_from_code, reason_code_from_code. simpl. rewrite Hp, Hf. exact Hc.
Qed.

Section store_calls.
Context {Requests : StoreCodec}.

(** A store service over a served store: its state is one the group reached, and
    a write it hears back from was applied to one. *)
Record store_ok (rt : AttachedStore) : Prop := {
  so_state st : as_state rt = Some st -> exists d t, served d t /\ st = ds_model d;
  so_write c r : as_client_write rt c = CW_Applied r ->
    exists d t log_id tx tx', served d t /\ tx_state tx = ds_model d /\
      apply_wire_command_recording log_id (as_group rt) c tx = (Ok r, tx');
}.

Section call.
Context (rt : AttachedStore) (Hrt : store_ok rt) (dm : DecodedMutation) (client : ClientRef) (cx : MutationContext).
Context (f : RequestFacts) (Hf : facts_of (dm_wire_action dm) = Some f).
Context (Hactor : len (cr_actor client) = 32) (Hid : len (cr_client_id client) = 16).
Context (Hhash : len (cr_request_hash client) = 32).
Context (Hcommit : committed (cr_request_hash client) = Some (dm_wire_action dm)).
Context (Hlocal : mc_local_actor cx = cr_actor client) (Hgroup : mc_group_id cx = as_group rt).

(** The committed answer. *)
Lemma proposed_fits reply :
  as_client_write rt (proposed_command dm client) = CW_Applied (RV_Client reply) -> fits cx f reply.
Proof.
  intros (d & t & log_id & tx & tx' & Hs & Htx & Happ)%(so_write rt Hrt).
  assert (answerable (tx_state tx)) as Hok by (rewrite Htx; by eapply served_answerable).
  unfold apply_wire_command_recording, apply_command_recording in Happ. rewrite <- Hgroup in Happ.
  destruct (command_for_apply _) as [model|] eqn:Hm; [|done].
  destruct (guard_delivery _ _); [|done]. unfold proposed_command in Hm. set (cc := CV_Client _) in Hm.
  assert (prefix_ref {| ccv_actor_node_id := cr_actor client; ccv_client_id := cr_client_id client;
    ccv_sequence := cr_sequence client; ccv_request_hash := cr_request_hash client;
    ccv_action := dm_wire_action dm |} = client) as Href by (by destruct client).
  assert (model = shape_rejection cc -> fits cx f reply) as Hshape.
  { intros ->. unfold cc in Happ.
    destruct (shape_rejection_client {| ccv_actor_node_id := cr_actor client; ccv_client_id := cr_client_id client;
      ccv_sequence := cr_sequence client; ccv_request_hash := cr_request_hash client;
      ccv_action := dm_wire_action dm |}) as [[_ Heq]|[Hno _]]; [|by destruct Hno].
    rewrite Heq, Href in Happ. simpl in Happ. destruct (apply_rejected_client _ _ _ _ _) as [res tx1] eqn:Ha.
    injection Happ as <- _. by eapply rejected_fits. }
  unfold command_for_apply in Hm. destruct (unknown_variant cc); [done|].
  destruct (oversized cc); [apply Hshape; congruence|].
  destruct (command_from_wire cc) as [m|[]] eqn:Hw; [|done|apply Hshape; congruence].
  injection Hm as ->. apply command_from_wire_client in Hw as (action & -> & _ & Ha & _). rewrite Href in Happ.
  simpl in Happ, Ha. destruct (apply_client _ _ _ _) as [res tx1] eqn:Hap. injection Happ as <- _.
  by eapply applied_fits.
Qed.

(** A denial before the proposal. *)
Lemma denial_fits reason : is_admission_denial (refusal_get reason) = true -> fits cx f (denial_reply reason).
Proof.
  intros Hd. rewrite admission_denial_both_paths, andb_true_iff in Hd. destruct Hd as [Hn _].
  exists O_Rejected, (refusal_get reason). split_and!; [done|done|by right|by apply not_consumed_pairing|].
  unfold check_facts, reply_of. by checks; simpl; [rewrite andb_false_r|..].
Qed.

Lemma project_deny d reason : project d = Deny reason -> is_admission_denial (refusal_get reason) = true.
Proof.
  destruct d as [[]|[]|[]|[]]; simpl; try done; repeat case_match; by intros [= <-].
Qed.

Definition resolved_reply (res : ClientResult) : ClientReplyV1 :=
  client_reply (as_group rt) (clr_reply res) (clr_disposition res)
    (if clr_replayed res then FromReplay else FirstAttempt) None.

Lemma no_value_shown outcome : value_shown f outcome None.
Proof. done. Qed.

(** A preflight's answer, resolved or denied. *)
Lemma preflight_fits st answer applied creates admission :
  as_state rt = Some st ->
  actor_preflight (Some st) client (result_ok (action_from_wire (dm_wire_action dm))) = Some (answer, applied, creates) ->
  answer = PA_Admission admission ->
  (forall res, admission = Resolved res -> fits cx f (resolved_reply res)) /\
  (forall reason, admission = Deny reason -> fits cx f (denial_reply reason)).
Proof.
  intros (d & t & Hs & ->)%(so_state rt Hrt). pose proof (served_answerable d t Hs) as Hok.
  assert (exists tx, tx_state tx = ds_model d) as [tx Htx] by (by exists (mk_Tx (ds_model d) ChangeSet_default)).
  rewrite <- Htx in *.
  assert (forall row saved, classify_client (tx_state tx) client = Replay row saved ->
    fits cx f (resolved_reply (mk_ClientResult Consumed saved true))) as Hreplay.
  { intros row saved Hc. unfold resolved_reply. rewrite <- Hgroup. by eapply replay_fits. }
  assert (forall row reason resource, classify_client (tx_state tx) client = Refuse row reason ->
    (forall key, resource = Some key -> valid_key key /\
       forall k, facts_resource f = Some k -> k = resource_key_to_wire key) ->
    fits cx f (resolved_reply (mk_ClientResult NotConsumed (rejection (tx_state tx) resource reason) false)))
    as Hrefuse.
  { intros row reason resource Hc Hk. unfold resolved_reply. rewrite <- Hgroup.
    apply refused_fits; [done|by eapply not_consumed_pairing, classify_refuse_reason|done|apply no_value_shown]. }
  unfold actor_preflight. simpl. intros [= <- <- <-].
  destruct (action_from_wire (dm_wire_action dm)) as [action|] eqn:Ha; simpl.
  - intros [= <-]. unfold preflight. destruct (classify_client (tx_state tx) client) as [r c|r saved|r reason] eqn:Hc.
    + split; [by intros res Hp; destruct (action_decide _ _ _ _) as [[]|[]|[]|[]]; simpl in Hp; repeat case_match|].
      intros reason Hp. by eapply denial_fits, project_deny.
    + split; [|done]. intros res [= <-]. eauto.
    + split; [|done]. intros res [= <-]. eapply Hrefuse; [done|]. intros key. apply asks_resource. by exists (dm_wire_action dm).
  - unfold preflight_shapeless. destruct (classify_client (tx_state tx) client) as [r c|r saved|r reason] eqn:Hc; intros [= <-].
    + split; [|done]. intros res [= <-]. eauto.
    + split; [|done]. intros res [= <-]. by eapply Hrefuse.
Qed.
End call.

Lemma narrowed_prefix version group client sequence a dm :
  narrowed version group client sequence a = Ok dm -> len (px_client_id (dm_prefix dm)) = 16.
Proof.
  unfold narrowed, prefix. destruct (refuse_if _ _); [|done]. simpl. narrow_widths; try done. by intros [= <-].
Qed.

Lemma decode_prefix method frame dm : decode_mutation method frame = Ok dm -> len (px_client_id (dm_prefix dm)) = 16.
Proof.
  unfold decode_mutation. intros H.
  repeat (case_match; try discriminate H); by apply narrowed_prefix in H.
Qed.

(** The request as the client keeps it while it waits. *)
Definition pending_context (rt : AttachedStore) (method : bytes) (actor : NodeId) (frame : bytes)
    (p : MutationPrefix) (h : Hash) : MutationContext :=
  mk_MutationContext (as_group rt) actor method frame (px_client_id p) (px_sequence p) h.

Lemma reply_accepted rt method actor frame dm h effects reply :
  store_ok rt -> len actor = 32 ->
  decode_mutation method frame = Ok dm -> request_hash (dm_wire_action dm) = Ok h -> len h = 32 ->
  committed h = Some (dm_wire_action dm) ->
  mutation rt method actor frame = (effects, Ok reply) ->
  validate_reply (pending_context rt method actor frame (dm_prefix dm) h) reply = Ok ().
Proof.
  intros Hrt Hactor Hdm Hh Hhl Hc Hm. destruct (decode_agrees _ _ _ Hdm) as (f & Hf & Hdf).
  pose proof (decode_prefix _ _ _ Hdm) as Hid. set (cx := pending_context _ _ _ _ _ _).
  set (client := mk_ClientRef actor (px_client_id (dm_prefix dm)) (px_sequence (dm_prefix dm)) h).
  assert (forall c, fits cx f c -> validate_reply cx (mutation_reply (as_group rt) (dm_prefix dm) h c) = Ok ()) as Hv.
  { intros c Hfit. by apply (validate_fits cx f (dm_prefix dm) c). }
  unfold mutation in Hm. rewrite Hdm, Hh in Hm. destruct (negb _); [done|].
  destruct (barrier _ _) as [id|]; [|done]. destruct (as_state rt) as [st|] eqn:Hst; [|done].
  destruct (actor_preflight _ _ _) as [[[answer applied] creates]|] eqn:Hp; [|done].
  destruct (witness applied id); [|done..]. destruct answer as [admission|]; [|done].
  destruct (preflight_fits rt Hrt dm client cx f Hf Hc eq_refl eq_refl st _ _ _ admission Hst Hp eq_refl) as [Hres Hden].
  unfold mutation_admission in Hm. destruct admission as [res|reason|denial|];
    [injection Hm as _ <-; apply Hv; by eauto..|done|].
  repeat (case_match; try discriminate Hm). injection Hm as _ Hm. unfold propose_and_reply in Hm.
  destruct (as_client_write _ _) as [r| | |] eqn:Hw; [|done..]. destruct r as [c| | | |]; try done.
  injection Hm as <-. apply Hv. by eapply (proposed_fits rt Hrt dm client cx f Hf).
Qed.

(** C4: a leader's answer is never taken for garbage. Along any history of proposals,
    whatever a leader answers a mutation with, a saved reply replayed, a refusal of
    the session or of admission, or the reply of the command it proposed, applied
    fresh, refused or rejected for its shape, the client's validator accepts it as
    an answer to the request it journaled. *)
Theorem honest_reply_accepted rt method actor frame dm h effects reply :
  store_ok rt -> len actor = 32 ->
  decode_mutation method frame = Ok dm -> request_hash (dm_wire_action dm) = Ok h -> len h = 32 ->
  committed h = Some (dm_wire_action dm) ->
  mutation rt method actor frame = (effects, Ok reply) ->
  validate_reply (pending_context rt method actor frame (dm_prefix dm) h) reply = Ok ().
Proof. apply reply_accepted. Qed.

(** ** Retirement of oneself *)

Lemma self_retire_refused st actor client reason :
  retire_decide st (mk_RetireCommand actor actor client) = RT_Refuse reason ->
  refusal_get reason = R_RetainedSessionCapReached.
Proof.
  unfold retire_decide. simpl. rewrite bool_decide_eq_true_2 by done. simpl. intros H.
  repeat (case_match; try discriminate H). by injection H as <-.
Qed.

Lemma retire_pair_valid group outcome reason :
  (outcome = O_ClientRetired /\ reason = R_None) \/
  (outcome = O_Rejected /\ reason = R_RetainedSessionCapReached) ->
  validate_retire_reply group
    (mk_RetireClientReplyWireV1 STORE_PROTOCOL_VERSION group (outcome_code outcome) (reason_code reason)) = Ok ().
Proof.
  intros Hp. unfold validate_retire_reply. checks; [done|by apply negb_decide_false|].
  by destruct Hp as [[-> ->]|[-> ->]].
Qed.

Lemma apply_retire_pair log_id actor client tx :
  let res := (apply_retire log_id (mk_RetireCommand actor actor client) tx).1 in
  (ret_outcome res = O_ClientRetired /\ ret_reason res = R_None) \/
  (ret_outcome res = O_Rejected /\ ret_reason res = R_RetainedSessionCapReached).
Proof.
  unfold apply_retire. destruct (retire_decide _ _) as [e|reason] eqn:Hd; simpl; [by left|right].
  split; [done|]. by eapply self_retire_refused.
Qed.

(** A client that retires its own id accepts what the leader answers, as long as
    the command, of three fixed-width fields, encodes within the limit. *)
Lemma retirement_accepted rt actor frame request effects reply :
  store_ok rt -> len actor = 32 -> decode_retire_client frame = Some request -> rtr_target_node_id request = actor ->
  (forall client, len client = 16 -> oversized (CV_RetireClient actor actor client) = false) ->
  retire_client rt actor frame = (effects, Ok reply) -> validate_retire_reply (as_group rt) reply = Ok ().
Proof.
  intros Hrt Hactor Hreq Htarget Hsize Hcall. unfold retire_client in Hcall. rewrite Hreq, Htarget in Hcall.
  destruct (negb _); [done|]. destruct (negb _); [done|]. revert Hcall. unfold store_node_id, store_id16.
  rewrite narrow_width_same by done. narrow_widths; [|done]. intros Hcall.
  destruct (barrier _ _) as [id|]; [|done]. destruct (actor_retire_preflight _ _) as [[decision applied]|] eqn:Hp; [|done].
  destruct (witness applied id); [|done..]. unfold actor_retire_preflight in Hp.
  destruct (as_state rt) as [st|]; [|done]. simpl in Hp. injection Hp as Hd <-.
  destruct decision as [e|reason].
  - repeat (case_match; try discriminate Hcall). injection Hcall as _ Hcall. unfold propose_and_reply in Hcall.
    destruct (as_client_write _ _) as [r| | |] eqn:Hw; [|done..]. destruct r as [| |ret| |]; try done. injection Hcall as <-.
    apply (so_write rt Hrt) in Hw as (d & t & log_id & tx & tx' & _ & _ & Happ).
    unfold apply_wire_command_recording, command_for_apply in Happ. rewrite Hsize in Happ by done. simpl in Happ.
    unfold narrow_node_id, narrow_client_id in Happ. rewrite !narrow_width_same in Happ by done. simpl in Happ.
    unfold apply_command_recording in Happ. destruct (guard_delivery _ _); [|done]. simpl in Happ.
    pose proof (apply_retire_pair log_id actor (rtr_target_client_id request) tx) as Hpair.
    destruct (apply_retire _ _ _) as [res tx1]. injection Happ as <- _. by apply retire_pair_valid.
  - apply self_retire_refused in Hd. rewrite bool_decide_eq_false_2 in Hcall by (by rewrite Hd).
    injection Hcall as _ <-. apply (retire_pair_valid _ O_Rejected). by right.
Qed.
End store_calls.
End served.

(** ** A concrete service

    The founding of a single-voter group and a grant, in a log whose request
    hashes repeat the operation code; then a call that acquires the resource. *)

#[local] Existing Instances ingress_carrier ingress_codec.

#[local] Instance served_externals : Externals :=
  {| fory_encode_change_membership := @fory_encode_change_membership founding_externals;
     fory_encode_genesis := @fory_encode_genesis founding_externals;
     fory_encode_permit := @fory_encode_permit founding_externals;
     fory_decode_signed_document := @fory_decode_signed_document founding_externals;
     fory_decode_genesis := @fory_decode_genesis founding_externals;
     fory_decode_permit := @fory_decode_permit founding_externals;
     ed25519_key_accepted := @ed25519_key_accepted founding_externals;
     ed25519_signature_accepted := @ed25519_signature_accepted founding_externals;
     ed25519_verify := @ed25519_verify founding_externals;
     blake3 := λ b, if bool_decide (take (length ACTION_DOMAIN) b = ACTION_DOMAIN)
                    then replicate 32 (List.last b Byte.x00) else replicate 32 Byte.x01;
     bs58_encode := @bs58_encode founding_externals;
     bs58_decode := @bs58_decode founding_externals |}.

Definition served_key : ResourceKeyV1 := mk_ResourceKeyV1 [Byte.x61] [Byte.x6b].
Definition served_grant : ActionV1 := AV_SetGrant served_key sample_voter 63 0.
Definition served_acquire : ActionV1 := AV_Acquire served_key 5000.
Definition served_group : bytes := replicate 32 Byte.x05.

Definition served_request : AcquireRequestV1 :=
  mk_AcquireRequestV1 1 served_group (replicate 16 Byte.x02) 1 served_key 5000.

#[local] Instance served_requests : StoreCodec :=
  {| decode_acquire := λ frame, if bool_decide (frame = [Byte.x01]) then Some served_request else None;
     decode_renew := λ _, None;
     decode_compare_and_set := λ _, None;
     decode_release := λ _, None;
     decode_release_with_value := λ _, None;
     decode_revoke := λ _, None;
     decode_set_grant := λ _, None;
     decode_set_admin := λ _, None;
     decode_change_membership := λ _, None;
     decode_cancel_membership := λ _, None;
     decode_retire_client := λ _, None |}.

Definition served_committed (h : Hash) : option ActionV1 :=
  if bool_decide (h = replicate 32 Byte.x07) then Some served_grant
  else if bool_decide (h = replicate 32 Byte.x01) then Some served_acquire else None.

Definition served_entries : list (LogId * Payload) :=
  [(at_index 1, P_Membership run_membership);
   (at_index 2, P_Normal (C_Genesis []));
   (at_index 3, P_Normal (C_Client (run_client sample_admin 1 Byte.x07) grant_all))].

Definition served_granted : CommandV1 :=
  CV_Client {| ccv_actor_node_id := sample_admin; ccv_client_id := replicate 16 Byte.x02; ccv_sequence := 1;
               ccv_request_hash := replicate 32 Byte.x07; ccv_action := served_grant |}.

Lemma served_log_wf : log_wf (committed_op served_committed) PROFILE_DEV_SINGLE None served_entries.
Proof.
  cbn [log_wf served_entries payload_ok command_ok]. split_and!;
    [by intros| |by intros l [= <-]|exact I|by intros l [= <-]|vm_compute; reflexivity|exact I].
  split_and!; [done|done|]. by intros c ->%list_elem_of_singleton.
Qed.

Lemma served_entries_proposed e : e ∈ served_entries -> entry_proposed served_committed e.
Proof.
  intros [-> |[-> |[-> |[]%elem_of_nil]%elem_of_cons]%elem_of_cons]%elem_of_cons; (split; [reflexivity|]).
  - exact I.
  - exists (CV_Genesis []). split; [vm_compute; reflexivity|exact I].
  - exists served_granted. split; [vm_compute; reflexivity|reflexivity].
Qed.

Definition served_store : DurableState :=
  match apply_batch served_entries run_store (tables_of run_initial) with
  | Ok (_, d, _) => d
  | Err _ => run_store
  end.

Lemma served_store_served : exists t, served served_committed served_store t.
Proof.
  unfold served_store.
  assert (served served_committed run_store (tables_of run_initial)) as Hb.
  { apply (served_bind _ founding_authority PROFILE_DEV_SINGLE); [by vm_compute|by vm_compute|].
    apply (bool_decide_unpack _). by vm_compute. }
  destruct (apply_batch served_entries run_store (tables_of run_initial)) as [[[r d] t]|] eqn:E; [|eauto].
  exists t. eapply served_batch; [exact Hb| | |exact E].
  - exact served_log_wf.
  - exact served_entries_proposed.
Qed.

(** A leader over a store, which applies what it proposes at the next position. *)
Definition leader_over (d : DurableState) (confirmed next : LogId) : AttachedStore :=
  {| as_group := served_group;
     as_metrics := mk_RaftMetrics SV_Leader (Some sample_voter) 1 (Some 10);
     as_leadership := LD_Confirmed (Some confirmed);
     as_state := Some (ds_model d);
     as_growth_hit := false;
     as_hard_hit := false;
     as_take_mutate := true;
     as_client_write := λ c,
       match (apply_wire_command_recording next served_group c (mk_Tx (ds_model d) ChangeSet_default)).1 with
       | Ok r => CW_Applied r
       | Err _ => CW_Fatal
       end |}.

Lemma leader_over_ok committed d t confirmed next :
  served committed d t -> store_ok committed (leader_over d confirmed next).
Proof.
  intros Ht. split.
  - intros st [= <-]. by exists d, t.
  - intros c r Hw. simpl in Hw. set (tx := mk_Tx (ds_model d) ChangeSet_default) in *.
    destruct (apply_wire_command_recording next served_group c tx) as [[r'|] tx'] eqn:E; [|done].
    injection Hw as <-. by exists d, t, next, tx, tx'.
Qed.

Definition served_runtime : AttachedStore := leader_over served_store (at_index 3) (at_index 4).

Lemma served_runtime_ok : store_ok served_committed served_runtime.
Proof. destruct served_store_served as [t Ht]. exact (leader_over_ok _ _ _ _ _ Ht). Qed.

Definition served_call : list StoreEffect * result MutationReplyWireV1 RpcStatus :=
  mutation served_runtime (name "acquire") sample_voter [Byte.x01].

Definition served_dm : DecodedMutation :=
  {| dm_prefix := mk_MutationPrefix served_group (replicate 16 Byte.x02) 1; dm_wire_action := served_acquire |}.

Lemma honest_reply_accepted_witness :
  exists reply, served_call.2 = Ok reply /\ mrw_outcome_code reply = outcome_code O_Granted /\
    validate_reply (pending_context served_runtime (name "acquire") sample_voter [Byte.x01]
                      (dm_prefix served_dm) (replicate 32 Byte.x01)) reply = Ok ().
Proof.
  assert (match served_call.2 with Ok reply => mrw_outcome_code reply | Err _ => 0%Z end = outcome_code O_Granted)
    as Ho by (vm_compute; reflexivity).
  destruct served_call as [effects [reply|status]] eqn:E; [|discriminate Ho]. exists reply.
  split; [reflexivity|]. split; [exact Ho|].
  apply (honest_reply_accepted served_committed served_runtime (name "acquire") sample_voter [Byte.x01] served_dm
           (replicate 32 Byte.x01) effects reply served_runtime_ok); [vm_compute; reflexivity..|exact E].
Defined.
