(* ===== verification/Engine.v ===== *)
(** * The redirecting call engine

    Models [aster/src/coordination/client/engine.rs]: the known members, the held
    connection and the members that just failed a dial; the routing walk of one
    unary call over them, with its redirects and its cap. The network is a
    parameter: a world whose dials and exchanges answer anything.

    The theorem is that the walk is fair: a known member that serves is reached,
    whatever the other members do short of sending the caller after each other. *)

From S2P Require Import Prelude Ids Store.

#[local] Open Scope N_scope.

Definition ATTEMPT_DEADLINE : N := 20000.
Definition DETAIL_LEADER_NODE_ID : bytes := String.list_byte_of_string "aster.coordination.leader-node-id".
Definition NOT_YET_SERVING : bytes := String.list_byte_of_string "not yet serving".

(** [enum CallOutcome] and [enum CallFailure], the messages of the failures left out. *)
Inductive Call : Type :=
| C_Reply (payload : bytes)
| C_Denied (code : Z) (message : bytes)
| C_Ambiguous
| C_Unavailable.

(** What one exchange on a connection comes back with. *)
Inductive Exchange : Type :=
| X_Payload (payload : bytes)
| X_Status (code : Z) (message : bytes) (details : list (bytes * bytes))
| X_Transport
| X_Timeout.

(** The endpoint, its clock in milliseconds, and [hex::decode]. *)
Class Network (W : Type) : Type := {
  net_now : W -> N;
  net_dial : NodeId -> W -> bool * W;
  net_exchange : NodeId -> bytes -> bytes -> W -> Exchange * W;
  net_hex_decode : bytes -> option bytes;
}.

(** [struct Engine]. *)
Record Engine : Type := mk_Engine {
  en_members : gset NodeId;
  en_current : option NodeId;
  en_unreachable : gmap NodeId N;
}.

(** [str::contains]. *)
Fixpoint contains (needle hay : bytes) : bool :=
  bool_decide (take (length needle) hay = needle)
  || match hay with
     | [] => false
     | _ :: rest => contains needle rest
     end.

(** The locals of the loop in [Engine::unary]. *)
Record Walk (W : Type) : Type := mk_Walk {
  wa_engine : Engine;
  wa_world : W;
  wa_tried : gset NodeId;
  wa_target : option NodeId;
  wa_ambiguous : bool;
  wa_reached : bool;
}.
Arguments mk_Walk {W}.
Arguments wa_engine {W}.
Arguments wa_world {W}.
Arguments wa_tried {W}.
Arguments wa_target {W}.
Arguments wa_ambiguous {W}.
Arguments wa_reached {W}.

Section engine.
Context {W : Type} {Net : Network W}.

(** [Engine::recently_unreachable]. *)
Definition recently_unreachable (e : Engine) (w : W) (member : NodeId) : bool :=
  from_option (λ at_, net_now w - at_ <? ATTEMPT_DEADLINE) false (en_unreachable e !! member).

(** [Engine::candidates], [Engine::next_candidate]. *)
Definition candidates (e : Engine) : list NodeId := in_order (en_members e).

Definition next_candidate (e : Engine) (w : W) (tried : gset NodeId) (reached : bool) : option NodeId :=
  let untried := filter (λ m, m ∉ tried) (candidates e) in
  match List.find (λ m, negb (recently_unreachable e w m)) untried with
  | Some m => Some m
  | None => if reached then None else head untried
  end.

(** [Engine::connect]. *)
Definition connect (member : NodeId) (e : Engine) (w : W) : bool * Engine * W :=
  let '(ok, w) := net_dial member w in
  (ok,
   mk_Engine (en_members e) (en_current e)
     (if ok then delete member (en_unreachable e) else <[member := net_now w]> (en_unreachable e)),
   w).

(** The leader hint of a status, when it decodes to 32 bytes. *)
Definition hinted (details : list (bytes * bytes)) : option NodeId :=
  detail ← List.find (λ d, bool_decide (d.1 = DETAIL_LEADER_NODE_ID)) details;
  id ← net_hex_decode detail.2;
  if len id =? 32 then Some id else None.

(** What the walk reports when it stops without an answer. *)
Definition out_of_hops (k : Walk W) : Call := if wa_ambiguous k then C_Ambiguous else C_Unavailable.

Definition with_current (current : option NodeId) (e : Engine) : Engine :=
  mk_Engine (en_members e) current (en_unreachable e).

(** The answer of one exchange: the call's outcome, or the walk goes on. *)
Definition answered (k : Walk W) (member : NodeId) (e : Engine) (x : Exchange) (w : W)
    : (Call * Engine * W) + Walk W :=
  let goes_on e target ambiguous :=
    inr (mk_Walk e w (wa_tried k) target ambiguous true) in
  match x with
  | X_Payload payload => inl (C_Reply payload, with_current (Some member) e, w)
  | X_Status code message details =>
      if (code =? 14)%Z then
        match hinted details with
        | Some id =>
            goes_on (mk_Engine ({[id]} ∪ en_members e) (en_current e) (en_unreachable e))
              (if negb (bool_decide (id = member)) then Some id else None) (wa_ambiguous k)
        | None => goes_on e None (wa_ambiguous k)
        end
      else if (code =? 9)%Z && contains NOT_YET_SERVING message then goes_on e None (wa_ambiguous k)
      else inl (C_Denied code message, e, w)
  | X_Transport => goes_on (with_current None e) None true
  | X_Timeout =>
      goes_on (mk_Engine (en_members e) None (<[member := net_now w]> (en_unreachable e))) None true
  end.

(** The body of the loop in [Engine::unary], past the cap. *)
Definition walk_step (method request : bytes) (k : Walk W) : (Call * Engine * W) + Walk W :=
  let e := wa_engine k in
  let w := wa_world k in
  let chosen := match wa_target k with
                | Some member => Some member
                | None => next_candidate e w (wa_tried k) (wa_reached k)
                end in
  match chosen with
  | None => inl (out_of_hops k, e, w)
  | Some member =>
      let k := mk_Walk e w ({[member]} ∪ wa_tried k) None (wa_ambiguous k) (wa_reached k) in
      if wa_reached k && recently_unreachable e w member then inr k
      else
        let '(connected, e, w) :=
          if bool_decide (en_current e = Some member) then (true, e, w) else connect member e w in
        if negb connected then inr (mk_Walk e w (wa_tried k) None (wa_ambiguous k) (wa_reached k))
        else
          let '(x, w) := net_exchange member method request w in
          answered k member e x w
  end.

(** The loop, [hops_left] hops from the cap. *)
Fixpoint walk (hops_left : nat) (method request : bytes) (k : Walk W) : Call * Engine * W :=
  match hops_left with
  | O => (out_of_hops k, wa_engine k, wa_world k)
  | S hops_left =>
      match walk_step method request k with
      | inl done => done
      | inr k => walk hops_left method request k
      end
  end.

(** [Engine::unary]. *)
Definition unary (method request : bytes) (e : Engine) (w : W) : Call * Engine * W :=
  walk (length (candidates e) + 2) method request (mk_Walk e w ∅ (en_current e) false false).

(** ** Fairness *)

(** One call's network, seen from a member that serves it: that member is dialled
    and answers; the others may be dead, silent, broken, or refuse, and send the
    caller nowhere but to the serving member or to themselves. *)
Record serving (leader : NodeId) (method request : bytes) (I : W -> Prop) : Prop := {
  sv_dial m w : I w -> I (net_dial m w).2;
  sv_exchange m w : I w -> I (net_exchange m method request w).2;
  sv_leader_dial w : I w -> (net_dial leader w).1 = true;
  sv_leader w : I w -> exists payload, (net_exchange leader method request w).1 = X_Payload payload;
  sv_other m w : I w ->
    match (net_exchange m method request w).1 with
    | X_Payload _ | X_Transport | X_Timeout => True
    | X_Status code message details =>
        (code = 14%Z /\ (hinted details = None \/ hinted details = Some m \/ hinted details = Some leader)) \/
        (code = 9%Z /\ contains NOT_YET_SERVING message = true)
    end;
}.

Section fairness.
Context (leader : NodeId) (method request : bytes) (I : W -> Prop) (Hsv : serving leader method request I).

(** The walk so far: the serving member is known, in favour and not yet asked,
    and any member it was sent to is the serving one or a fresh one. *)
Record on_course (k : Walk W) : Prop := {
  oc_world : I (wa_world k);
  oc_known : leader ∈ en_members (wa_engine k);
  oc_reachable : en_unreachable (wa_engine k) !! leader = None;
  oc_untried : leader ∉ wa_tried k;
  oc_target m : wa_target k = Some m -> m ∈ en_members (wa_engine k) /\ m ∉ wa_tried k;
}.

Definition left_to_try (k : Walk W) : nat := size (en_members (wa_engine k) ∖ wa_tried k).

Lemma next_candidate_some e w tried reached :
  leader ∈ en_members e -> leader ∉ tried -> en_unreachable e !! leader = None ->
  exists m, next_candidate e w tried reached = Some m /\ m ∈ en_members e /\ m ∉ tried.
Proof.
  intros Hm Ht Hu. unfold next_candidate.
  assert (leader ∈ filter (λ m, m ∉ tried) (candidates e)) as Hin.
  { apply list_elem_of_filter. split; [done|]. by apply elem_of_in_order. }
  destruct (List.find _ _) as [m|] eqn:Hf.
  - apply find_some in Hf as [Hf _]. exists m. split; [done|].
    apply list_elem_of_In, list_elem_of_filter in Hf as [? ?]. by rewrite <- elem_of_in_order.
  - apply list_elem_of_In in Hin. pose proof (find_none _ _ Hf _ Hin) as Hn.
    unfold recently_unreachable in Hn. by rewrite Hu in Hn.
Qed.

Lemma tried_shrinks (members tried : gset NodeId) m :
  m ∈ members -> m ∉ tried -> (size (members ∖ ({[m]} ∪ tried)) < size (members ∖ tried))%nat.
Proof. intros Hm Ht. apply subset_size. set_solver. Qed.

(** A walk over the same members that has asked one more. *)
Lemma course_goes_on k m e w target ambiguous reached :
  on_course k -> m ∈ en_members (wa_engine k) -> m ∉ wa_tried k -> m <> leader -> I w ->
  en_members e = en_members (wa_engine k) -> en_unreachable e !! leader = None ->
  (target = None \/ target = Some leader) ->
  let k' := mk_Walk e w ({[m]} ∪ wa_tried k) target ambiguous reached in
  on_course k' /\ (left_to_try k' < left_to_try k)%nat.
Proof.
  intros [] Hm Ht Hne Hw He Hu Htg. unfold left_to_try. simpl. rewrite He.
  assert (leader ∉ {[m]} ∪ wa_tried k) by (by apply not_elem_of_union; rewrite not_elem_of_singleton).
  split; [|by apply tried_shrinks]. split; simpl; rewrite ?He; try done.
  intros m'. by destruct Htg as [-> | ->]; [|intros [= <-]].
Qed.

(** What another member answers leaves the walk on course. *)
Lemma other_answers k m e w :
  on_course k -> m ∈ en_members (wa_engine k) -> m ∉ wa_tried k -> m <> leader -> I w ->
  en_members e = en_members (wa_engine k) -> en_unreachable e !! leader = None ->
  let k1 := mk_Walk (wa_engine k) (wa_world k) ({[m]} ∪ wa_tried k) None (wa_ambiguous k) (wa_reached k) in
  let out := let '(x, w2) := net_exchange m method request w in answered k1 m e x w2 in
  (exists payload e' w', out = inl (C_Reply payload, e', w')) \/
  exists k', out = inr k' /\ on_course k' /\ (left_to_try k' < left_to_try k)%nat.
Proof.
  intros Hk Hm Ht Hne Hw He Hu. simpl.
  pose proof (sv_exchange _ _ _ _ Hsv m _ Hw) as Hw2. pose proof (sv_other _ _ _ _ Hsv m _ Hw) as Hx.
  destruct (net_exchange m method request w) as [x w2]. simpl in Hw2, Hx.
  destruct x as [payload|code message details| |]; simpl; [by eauto| |right; eexists; (split; [done|])..].
  - destruct Hx as [[-> Hh]|[-> ->]]; simpl; right.
    2: eexists; (split; [done|]); apply course_goes_on; auto.
    destruct (hinted details) as [id|]; [|eexists; (split; [done|]); apply course_goes_on; auto].
    assert (id = m \/ id = leader) as Hid by (destruct Hh as [|[]]; [done|left|right]; congruence).
    eexists. split; [done|]. apply course_goes_on; try done; simpl.
    + rewrite He. apply set_eq. pose proof (oc_known _ Hk). destruct Hid as [-> | ->]; set_solver.
    + destruct Hid as [-> | ->]; [by rewrite bool_decide_eq_true_2; auto|]. destruct (negb _); auto.
  - apply course_goes_on; auto.
  - apply course_goes_on; auto. simpl. by rewrite lookup_insert_ne.
Qed.

Lemma connect_other k m :
  on_course k -> m <> leader ->
  exists ok e w, (if bool_decide (en_current (wa_engine k) = Some m) then (true, wa_engine k, wa_world k)
    else connect m (wa_engine k) (wa_world k)) = (ok, e, w) /\
    I w /\ en_members e = en_members (wa_engine k) /\ en_unreachable e !! leader = None.
Proof.
  intros [Hw _ Hu _ _] Hne. destruct (bool_decide _); [by eauto 10|].
  unfold connect. pose proof (sv_dial _ _ _ _ Hsv m _ Hw) as Hdw. destruct (net_dial m _) as [ok w1]. simpl in Hdw.
  do 3 eexists. split_and!; try done. simpl. destruct ok; [by rewrite lookup_delete_ne|by rewrite lookup_insert_ne].
Qed.

(** The serving member takes the call and answers it. *)
Lemma leader_answers k :
  on_course k ->
  exists e w payload w',
    (if bool_decide (en_current (wa_engine k) = Some leader) then (true, wa_engine k, wa_world k)
     else connect leader (wa_engine k) (wa_world k)) = (true, e, w) /\
    net_exchange leader method request w = (X_Payload payload, w').
Proof.
  intros [Hw _ _ _ _]. pose proof (sv_leader_dial _ _ _ _ Hsv _ Hw) as Hd.
  pose proof (sv_dial _ _ _ _ Hsv leader _ Hw) as Hdw. unfold connect.
  destruct (net_dial leader (wa_world k)) as [ok w1]. simpl in Hd, Hdw. subst ok.
  assert (forall w, I w -> exists payload w', net_exchange leader method request w = (X_Payload payload, w')) as Hx.
  { intros w Hiw. destruct (sv_leader _ _ _ _ Hsv _ Hiw) as [payload Hp].
    destruct (net_exchange _ _ _ _) as [x w2]. simpl in Hp. subst x. eauto. }
  destruct (Hx _ Hw) as (? & ? & ?), (Hx _ Hdw) as (? & ? & ?). destruct (bool_decide _); eauto 10.
Qed.

Lemma walk_step_course k :
  on_course k ->
  (exists payload e w, walk_step method request k = inl (C_Reply payload, e, w)) \/
  exists k', walk_step method request k = inr k' /\ on_course k' /\ (left_to_try k' < left_to_try k)%nat.
Proof.
  intros Hk. unfold walk_step.
  assert (exists m, match wa_target k with Some m => Some m
    | None => next_candidate (wa_engine k) (wa_world k) (wa_tried k) (wa_reached k) end = Some m /\
    m ∈ en_members (wa_engine k) /\ m ∉ wa_tried k) as (m & -> & Hm & Hmt).
  { destruct (wa_target k) as [m|] eqn:Htg; [|by apply next_candidate_some; apply Hk].
    exists m. split; [done|]. by apply Hk. }
  cbn [wa_reached wa_tried wa_ambiguous]. destruct (decide (m = leader)) as [-> |Hne].
  - left. assert (recently_unreachable (wa_engine k) (wa_world k) leader = false) as ->
      by (unfold recently_unreachable; by rewrite (oc_reachable _ Hk)).
    rewrite andb_false_r. destruct (leader_answers k Hk) as (e & w & payload & w' & -> & Hx). simpl. rewrite Hx. eauto.
  - destruct (_ && _); [right; eexists; split; [done|]; apply course_goes_on; auto; apply Hk|].
    destruct (connect_other k m Hk Hne) as (ok & e & w & -> & Hw1 & He & Hu1).
    destruct ok; simpl; [by apply other_answers|]. right. eexists. split; [done|]. apply course_goes_on; auto.
Qed.

Lemma walk_reaches hops k :
  on_course k -> (left_to_try k <= hops)%nat ->
  exists payload e w, walk hops method request k = (C_Reply payload, e, w).
Proof.
  revert k. induction hops as [|hops IH]; intros k Hk Hle.
  - exfalso. assert (leader ∈ en_members (wa_engine k) ∖ wa_tried k) as Hin
      by (apply elem_of_difference; split; apply Hk).
    unfold left_to_try in Hle. assert (size (en_members (wa_engine k) ∖ wa_tried k) = 0%nat) as H0 by lia.
    apply size_empty_inv in H0. set_solver.
  - simpl. destruct (walk_step_course k Hk) as [(payload & e & w & ->)|(k' & -> & Hk' & Hlt)]; [by eauto|].
    apply IH; [done|lia].
Qed.
End fairness.

Lemma candidates_length e : length (candidates e) = size (en_members e).
Proof. unfold candidates, in_order. by rewrite (merge_sort_Permutation node_le). Qed.

(** the walk is fair. When a known member that did not just fail a dial serves
    the call, the call ends with a reply, within its cap of hops: dead, silent or
    broken members, members that refuse, and members that name themselves leader
    cannot use it up. *)
Theorem serving_member_reached leader method request I e w :
  serving leader method request I -> I w ->
  leader ∈ en_members e -> en_unreachable e !! leader = None ->
  (forall m, en_current e = Some m -> m ∈ en_members e) ->
  exists payload e' w', unary method request e w = (C_Reply payload, e', w').
Proof.
  intros Hsv Hw Hl Hu Hc. unfold unary. apply (walk_reaches leader method request I Hsv).
  - split; try done. intros m Hm. split; [by apply Hc|set_solver].
  - unfold left_to_try. simpl. rewrite candidates_length, difference_empty_L. lia.
Qed.
End engine.

(** ** A concrete walk: a voter that still names itself leader, a dead one, and
    the one that serves. *)

Definition walk_stale : NodeId := replicate 32 Byte.x01.
Definition walk_dead : NodeId := replicate 32 Byte.x02.
Definition walk_leader : NodeId := replicate 32 Byte.x03.

#[local] Instance walk_network : Network N :=
  {| net_now := λ w, w;
     net_dial := λ m w, (negb (bool_decide (m = walk_dead)), w + 1);
     net_exchange := λ m _ _ w,
       (if bool_decide (m = walk_leader) then X_Payload [Byte.x2a]
        else X_Status 14 [] [(DETAIL_LEADER_NODE_ID, m)], w + 1);
     net_hex_decode := Some |}.

Definition walk_start : Engine := mk_Engine {[walk_stale; walk_dead; walk_leader]} None ∅.

Lemma walk_serving : serving walk_leader (name "acquire") [] (λ _, True).
Proof.
  split; try done.
  - intros w _. by exists [Byte.x2a].
  - intros m w _. simpl. case_bool_decide; [done|]. left. split; [done|].
    unfold hinted. simpl. destruct (len m =? 32); auto.
Qed.

Lemma serving_member_reached_witness :
  (exists payload e' w', unary (name "acquire") [] walk_start 0 = (C_Reply payload, e', w')) /\
  (unary (name "acquire") [] walk_start 0).1.1 = C_Reply [Byte.x2a].
Proof.
  split.
  - refine (serving_member_reached walk_leader (name "acquire") [] (λ _, True) walk_start 0 walk_serving I _ _ _).
    + apply (bool_decide_unpack _). vm_compute. exact I.
    + reflexivity.
    + intros m H. discriminate H.
  - vm_compute. reflexivity.
Defined.
