(* ===== verification/Driver.v ===== *)
(** * The mutation driver

    Models [aster/src/coordination/client/driver.rs]: the algorithm that takes a
    pending journal entry to its resolution, over the journal and the engine. It
    sends the saved bytes and nothing else, resolves by disposition and reason,
    and closes a finished client id in three steps: retire, replay, rotate.

    The driver runs in a monad of errors over the journal and the world, which
    also keeps the events a journal's observer sees. The second half holds what
    it guarantees. *)

From S2P Require Import Prelude Reason Ids Contract Externals Limits State Tables Classify.
From S2P Require Import Apply Wire Boundary Journal JournalSafety Store Inbound Engine.

#[local] Open Scope N_scope.

Definition DRIVE_ATTEMPTS : nat := 8.

(** [struct Delivery]. *)
Record Delivery : Type := mk_Delivery {
  dl_reply : MutationReplyWireV1;
  dl_via_retirement : bool;
  dl_token : AckToken;
}.

(** The errors of a drive; [DE_Loop] is no error of the source, but a round of
    the loop past the bound shown enough. *)
Inductive DriveError : Type :=
| DE_Journal (e : JournalError)
| DE_Rpc (code : Z)
| DE_Unavailable
| DE_JournalFatal
| DE_Encode
| DE_Decode
| DE_State
| DE_Loop.

(** The engine as the driver calls it, the faults its writes meet, and the codec
    of the retirement call. *)
Class Caller (W : Type) : Type := {
  call_unary : bytes -> bytes -> W -> Call * W;
  call_fault : W -> WriteFault * W;
  call_encode_retire : RetireClientRequestV1 -> option bytes;
  call_decode_retire : bytes -> option RetireClientReplyWireV1;
}.

(** ** The monad *)

Section monad.
Context {W : Type}.

Definition Drive (A : Type) : Type := Journal * W -> result A DriveError * (Journal * W) * list JournalEvent.

Definition done {A} (a : A) : Drive A := λ s, (Ok a, s, []).
Definition fails {A} (e : DriveError) : Drive A := λ s, (Err e, s, []).

Definition andthen {A B} (m : Drive A) (k : A -> Drive B) : Drive B := λ s,
  match m s with
  | (Ok a, s1, es1) => let '(r, s2, es2) := k a s1 in (r, s2, es1 ++ es2)
  | (Err e, s1, es1) => (Err e, s1, es1)
  end.

Definition the_journal : Drive Journal := λ s, (Ok s.1, s, []).
End monad.
Arguments Drive : clear implicits.

#[local] Notation "'let!' x := m 'in' k" := (andthen m (λ x, k))
  (at level 10, x pattern, m at level 100, k at level 200).

Section driver.
Context `{Codec : JournalCodec} {W : Type} {Calls : Caller W}.
Context (group local_id : bytes).

(** [engine.unary] with the entry's bytes; the event names the entry. *)
Definition send (method request : bytes) : Drive W Call := λ s,
  let '(call, w) := call_unary method request s.2 in
  let r := jo_record s.1 in
  (Ok call, (s.1, w), [EV_Send (cj_client_id r) (cj_sequence r) method request (cj_request_hash r)]).

(** [engine.unary] for a retirement, which is no journal entry. *)
Definition send_retirement (request : bytes) : Drive W Call := λ s,
  let '(call, w) := call_unary (name "retire_client") request s.2 in (Ok call, (s.1, w), []).

(** A journal transition followed by [?], with the events of its success. *)
Definition write {A} (op : WriteFault -> Journal -> result A JournalError * Journal)
    (events : A -> list JournalEvent) : Drive W A := λ s,
  let '(fault, w) := call_fault s.2 in
  match op fault s.1 with
  | (Ok a, j) => (Ok a, (j, w), events a)
  | (Err e, j) => (Err (DE_Journal e), (j, w), [])
  end.

Definition do_resolve (payload : bytes) : Drive W AckToken :=
  write (λ fault, resolve_entry fault payload) (λ token, [EV_Deliver token payload]).
Definition do_close (payload : bytes) : Drive W unit :=
  write (λ fault, close_for_retirement fault payload) (λ _, []).
Definition do_confirm : Drive W unit := write confirm_retirement (λ _, []).
Definition do_fatal : Drive W unit := write fatal (λ _, []).

(** [for attempt in 0..n]: a body that answers ends the loop, else it goes round. *)
Fixpoint attempts {A : Type} (n : nat) (body : Drive W (option A)) : Drive W A :=
  match n with
  | O => fails DE_Unavailable
  | S n =>
      let! x := body in
      match x with
      | Some a => done a
      | None => attempts n body
      end
  end.

(** [is_terminal_refusal]. *)
Definition is_terminal_refusal (reply : MutationReplyWireV1) : bool :=
  (mrw_disposition_code reply =? 2)%Z
  && match reason_from_code (mrw_reason_code reply) with
     | Some reason => disposition_is_terminal NotConsumed reason
     | None => false
     end.

(** [decode_and_check]: the validator the journal itself runs. *)
Definition decode_and_check (j : Journal) (payload : bytes) : option MutationReplyWireV1 :=
  reply_owned_by (jo_record j) payload.

(** What [drive_pending] does with a typed reply. *)
Definition pending_reply (payload : bytes) (reply : MutationReplyWireV1) : Drive W (option (option Delivery)) :=
  if (mrw_disposition_code reply =? 1)%Z then
    let! token := do_resolve payload in
    done (Some (Some (mk_Delivery reply false token)))
  else if is_terminal_refusal reply then
    let! _ := do_close payload in done (Some None)
  else done None.

(** The body of the loop in [drive_pending]. *)
Definition pending_attempt (method request : bytes) : Drive W (option (option Delivery)) :=
  let! call := send method request in
  match call with
  | C_Reply payload =>
      let! j := the_journal in
      match decode_and_check j payload with
      | None => done None
      | Some reply => pending_reply payload reply
      end
  | C_Denied code _ => fails (DE_Rpc code)
  | C_Ambiguous | C_Unavailable => done None
  end.

(** [drive_pending]. *)
Definition drive_pending : Drive W (option Delivery) :=
  let! j := the_journal in
  attempts DRIVE_ATTEMPTS
    (pending_attempt (cj_pending_method (jo_record j)) (cj_pending_request (jo_record j))).

(** The body of the loop in [retire_until_confirmed]. *)
Definition retire_attempt (request : bytes) : Drive W (option unit) :=
  let! call := send_retirement request in
  match call with
  | C_Reply payload =>
      match call_decode_retire payload with
      | None => done None
      | Some reply =>
          match validate_retire_reply group reply with
          | Err _ => done None
          | Ok _ =>
              if (rtw_outcome_code reply =? 9)%Z then let! _ := do_confirm in done (Some tt)
              else let! _ := do_fatal in fails DE_JournalFatal
          end
      end
  | C_Denied code _ => fails (DE_Rpc code)
  | C_Ambiguous | C_Unavailable => done None
  end.

(** [retire_until_confirmed]. *)
Definition retire_until_confirmed : Drive W unit :=
  let! j := the_journal in
  match call_encode_retire (mk_RetireClientRequestV1 STORE_PROTOCOL_VERSION group local_id
                              (cj_client_id (jo_record j))) with
  | None => fails DE_Encode
  | Some request => attempts DRIVE_ATTEMPTS (retire_attempt request)
  end.

(** What [replay_on_tombstone] does with a typed reply. *)
Definition tombstone_reply (refusal payload : bytes) (reply : MutationReplyWireV1) : Drive W (option Delivery) :=
  if (mrw_disposition_code reply =? 1)%Z then
    let! token := do_resolve payload in done (Some (mk_Delivery reply true token))
  else if (mrw_disposition_code reply =? 2)%Z
          && (mrw_reason_code reply =? reason_code R_ClientRetired)%Z then
    match jc_decode_reply refusal with
    | None => fails DE_Decode
    | Some delivered =>
        let! token := do_resolve refusal in done (Some (mk_Delivery delivered true token))
    end
  else done None.

(** The body of the loop in [replay_on_tombstone]. *)
Definition replay_attempt (method request : bytes) : Drive W (option Delivery) :=
  let! call := send method request in
  match call with
  | C_Reply payload =>
      let! j := the_journal in
      match decode_and_check j payload with
      | None => done None
      | Some reply => tombstone_reply (cj_terminal_refusal (jo_record j)) payload reply
      end
  | C_Denied code _ => fails (DE_Rpc code)
  | C_Ambiguous | C_Unavailable => done None
  end.

(** [replay_on_tombstone]. *)
Definition replay_on_tombstone : Drive W Delivery :=
  let! j := the_journal in
  attempts DRIVE_ATTEMPTS
    (replay_attempt (cj_pending_method (jo_record j)) (cj_pending_request (jo_record j))).

(** The loop of [drive], for so many rounds. *)
Fixpoint drive_rounds (n : nat) : Drive W Delivery :=
  match n with
  | O => fails DE_Loop
  | S n =>
      let! j := the_journal in
      match journal_state j with
      | Some JS_Pending =>
          let! resolved := drive_pending in
          match resolved with
          | Some delivery => done delivery
          | None => drive_rounds n
          end
      | Some JS_Closing => let! _ := retire_until_confirmed in drive_rounds n
      | Some JS_ReplayAfterRetire => replay_on_tombstone
      | _ => fails DE_State
      end
  end.

(** [drive]: three rounds are enough ([drive_leaves_its_loop]). *)
Definition drive : Drive W Delivery := drive_rounds 3.
End driver.

(** ** What the driver guarantees

    A small program logic over the driver's monad: a specification of a piece of
    the driver says what the journal is like after it, and that its events are
    steps of the journal's transition system. On it: a drive is a run of the
    journal, leaves its loop, delivers only answers to the pending request, and
    loses no answer of an honest leader. *)

Section logic.
Context `{Codec : JournalCodec} {Laws : JournalCodecLaws} {W : Type} {Calls : Caller W}.
Context (actor group : bytes).

Definition continues (j : Journal) (es : list JournalEvent) (j' : Journal) : Prop :=
  forall j0 evs, journal_run actor group j0 evs j -> journal_run actor group j0 (evs ++ es) j'.

Lemma continues_refl j : continues j [] j.
Proof. intros j0 evs. by rewrite app_nil_r. Qed.

Lemma continues_trans j es1 j1 es2 j2 : continues j es1 j1 -> continues j1 es2 j2 -> continues j (es1 ++ es2) j2.
Proof. intros H1 H2 j0 evs Hr. rewrite app_assoc. auto. Qed.

Lemma continues_step j es j' : journal_step actor group j es j' -> continues j es j'.
Proof. intros Hs j0 evs Hr. by eapply JR_step. Qed.

(** From a journal in [P], a piece of the driver runs the journal on, and ends
    in [Q] or with an error in [E]. *)
Definition triple {A} (P : Journal -> Prop) (m : Drive W A) (Q : A -> Journal -> Prop) (E : DriveError -> Prop)
    : Prop :=
  forall s, P s.1 ->
    let '(r, s', es) := m s in
    continues s.1 es s'.1 /\ match r with Ok a => Q a s'.1 | Err e => E e end.

Lemma triple_done {A} (P : Journal -> Prop) (a : A) (Q : A -> Journal -> Prop) E :
  (forall j, P j -> Q a j) -> triple P (done a) Q E.
Proof. intros H s Hp. split; [apply continues_refl|auto]. Qed.

Lemma triple_fails {A} (P : Journal -> Prop) e (Q : A -> Journal -> Prop) (E : DriveError -> Prop) :
  E e -> triple P (fails e) Q E.
Proof. intros H s Hp. split; [apply continues_refl|done]. Qed.

Lemma triple_journal (P : Journal -> Prop) E : triple P the_journal (λ j j', j = j' /\ P j') E.
Proof. intros s Hp. split; [apply continues_refl|done]. Qed.

Lemma triple_andthen {A B} P (m : Drive W A) (k : A -> Drive W B) R Q E :
  triple P m R E -> (forall a, triple (R a) (k a) Q E) -> triple P (andthen m k) Q E.
Proof.
  intros Hm Hk s Hp. unfold andthen. specialize (Hm s Hp). destruct (m s) as [[[a|e] s1] es1]; [|done].
  destruct Hm as [Hc1 Hr]. specialize (Hk a s1 Hr). destruct (k a s1) as [[r s2] es2]. destruct Hk as [Hc2 Hq].
  split; [by eapply continues_trans|done].
Qed.

(** Reading the journal. *)
Lemma triple_read {B} (P : Journal -> Prop) (k : Journal -> Drive W B) Q E :
  (forall j, P j -> triple (eq j) (k j) Q E) -> triple P (andthen the_journal k) Q E.
Proof.
  intros Hk. eapply triple_andthen; [apply triple_journal|]. intros j s [-> Hp]. by apply (Hk s.1 Hp s).
Qed.

Lemma triple_weaken {A} (P P' : Journal -> Prop) (m : Drive W A) Q E :
  triple P' m Q E -> (forall j, P j -> P' j) -> triple P m Q E.
Proof. intros Hm Hp s Hs. apply Hm. auto. Qed.

Lemma triple_attempts {A} n P (body : Drive W (option A)) Q (E : DriveError -> Prop) :
  triple P body (λ x j, match x with Some a => Q a j | None => P j end) E -> E DE_Unavailable ->
  triple P (attempts n body) Q E.
Proof.
  intros Hb He. induction n as [|n IH]; simpl; [by apply triple_fails|].
  eapply triple_andthen; [exact Hb|]. intros [a|]; [by apply triple_done|done].
Qed.

(** The driver's own steps. *)
Lemma triple_send j method request E :
  in_state JS_Pending j || in_state JS_ReplayAfterRetire j = true ->
  method = cj_pending_method (jo_record j) -> request = cj_pending_request (jo_record j) ->
  triple (eq j) (send method request) (λ _, eq j) E.
Proof.
  intros Hst -> -> s Hj. subst j. unfold send. destruct (call_unary _ _ s.2) as [call w]. simpl. split; [|done].
  apply continues_step. by apply ST_send.
Qed.

Lemma triple_send_retirement j request E : triple (eq j) (send_retirement request) (λ _, eq j) E.
Proof. intros s Hj. subst j. unfold send_retirement. destruct (call_unary _ _ s.2). simpl. split; [apply continues_refl|done]. Qed.

Lemma triple_write {A} j (op : WriteFault -> Journal -> result A JournalError * Journal) events
    (Q : A -> Journal -> Prop) (E : DriveError -> Prop) :
  (forall fault, journal_step actor group j
     (match (op fault j).1 with Ok a => events a | Err _ => [] end) (op fault j).2) ->
  (forall fault a j', op fault j = (Ok a, j') -> Q a j') -> (forall e, E (DE_Journal e)) ->
  triple (eq j) (write op events) Q E.
Proof.
  intros Hstep Hq He s Hj. subst j. unfold write. destruct (call_fault s.2) as [fault w].
  specialize (Hstep fault). specialize (Hq fault).
  destruct (op fault s.1) as [[a|e] j']; simpl; (split; [by apply continues_step|auto]).
Qed.

(** ** Transitions that succeed *)

Lemma persist_ok fault next j j' : persist fault next j = (Ok (), j') -> jo_record j' = next.
Proof. unfold persist. destruct (jc_encode next), fault; try done. by intros [= <-]. Qed.

(** What a delivery leaves: the result waits for its acknowledgement under the
    delivered token, it is an answer to the entry, and it is the group's own
    answer, or the refusal that opened the corridor it came through. *)
Definition delivered (d : Delivery) (j : Journal) : Prop :=
  valid_record (jo_record j) /\
  exists payload, unacknowledged j = Some (payload, dl_token d) /\
    reply_owned_by (jo_record j) payload = Some (dl_reply d) /\
    cj_retirement_confirmed (jo_record j) = dl_via_retirement d /\
    (mrw_disposition_code (dl_reply d) = 1%Z \/ (dl_via_retirement d = true /\ is_terminal_refusal (dl_reply d) = true)).

Lemma resolve_delivered fault payload j token j' reply :
  valid_record (jo_record j) -> resolve_entry fault payload j = (Ok token, j') ->
  reply_owned_by (jo_record j) payload = Some reply ->
  (mrw_disposition_code reply = 1%Z \/
   (cj_retirement_confirmed (jo_record j) = true /\ is_terminal_refusal reply = true)) ->
  delivered (mk_Delivery reply (cj_retirement_confirmed (jo_record j)) token) j'.
Proof.
  intros Hv Hr Ho Hd. unfold resolve_entry in Hr. destruct (_ && _) eqn:Hst; [done|].
  case_bool_decide; [done|]. destruct (persist _ _ j) as [[[]|e] j1] eqn:Hp; [|done]. injection Hr as <- <-.
  apply persist_ok in Hp. split.
  - rewrite Hp. eapply writes_valid; [exact Hv|]. constructor; [|done].
    apply andb_false_iff in Hst as [Hs|Hs]; apply negb_false_iff, in_state_spec in Hs; auto.
  - exists payload. unfold unacknowledged, in_state, journal_state. rewrite Hp. by split_and!.
Qed.

Lemma close_closing fault payload j j' :
  valid_record (jo_record j) -> close_for_retirement fault payload j = (Ok (), j') ->
  valid_record (jo_record j') /\ journal_state j' = Some JS_Closing.
Proof.
  intros Hv Hc. unfold close_for_retirement in Hc. destruct (in_state JS_Pending j) eqn:Hs; [|done]. simpl in Hc.
  destruct (opens_corridor _ _) eqn:Ho; [|done]. apply persist_ok in Hc. unfold journal_state. rewrite Hc. split; [|done].
  eapply writes_valid; [exact Hv|]. constructor; [by apply in_state_spec|done].
Qed.

Lemma confirm_replays fault j j' :
  valid_record (jo_record j) -> confirm_retirement fault j = (Ok (), j') ->
  valid_record (jo_record j') /\ journal_state j' = Some JS_ReplayAfterRetire.
Proof.
  intros Hv Hc. unfold confirm_retirement in Hc. destruct (in_state JS_Closing j) eqn:Hs; [|done]. simpl in Hc.
  apply persist_ok in Hc. unfold journal_state. rewrite Hc. split; [|done].
  eapply writes_valid; [exact Hv|]. constructor. by apply in_state_spec.
Qed.

(** ** The rounds *)

Definition waits (s : JournalState) (j : Journal) : Prop :=
  valid_record (jo_record j) /\ journal_state j = Some s.

Definition not_lost (e : DriveError) : Prop := e <> DE_Loop.

Lemma drive_pending_spec :
  triple (waits JS_Pending) drive_pending
    (λ x j, match x with Some d => delivered d j | None => waits JS_Closing j end) not_lost.
Proof.
  apply triple_read. intros j [Hv Hs].
  assert (in_state JS_Pending j = true) as Hin by (by apply bool_decide_eq_true_2).
  destruct (valid_state _ _ Hv Hs) as (_ & _ & _ & Hconf).
  apply triple_attempts; [|done]. unfold pending_attempt.
  eapply triple_andthen; [apply triple_send; [by rewrite Hin|done|done]|]. intros [payload|code message| |];
    [|by apply triple_fails|by apply triple_done; intros ? <-..].
  apply triple_read. intros ? <-. destruct (decode_and_check j payload) as [reply|] eqn:Ho; [|by apply triple_done; intros ? <-].
  unfold pending_reply. destruct (Z.eqb_spec (mrw_disposition_code reply) 1) as [Hd|_].
  - eapply triple_andthen; [apply (triple_write _ _ _ (λ token j', delivered (mk_Delivery reply false token) j'))|].
    + intros fault. constructor.
    + intros fault token j' Hr. rewrite <- Hconf. eapply resolve_delivered; eauto.
    + done.
    + intros token. by apply triple_done.
  - destruct (is_terminal_refusal reply); [|by apply triple_done; intros ? <-].
    eapply triple_andthen; [apply (triple_write _ _ _ (λ _, waits JS_Closing))|].
    + intros fault. pose proof (ST_close actor group j fault payload) as Hst.
      by destruct (close_for_retirement fault payload j) as [[]].
    + intros fault [] j' Hr. by eapply close_closing.
    + done.
    + intros []. by apply triple_done.
Qed.

Lemma retire_spec local_id :
  triple (waits JS_Closing) (retire_until_confirmed group local_id) (λ _, waits JS_ReplayAfterRetire) not_lost.
Proof.
  apply triple_read. intros j [Hv Hs]. destruct (call_encode_retire _) as [request|]; [|by apply triple_fails].
  apply triple_attempts; [|done]. unfold retire_attempt.
  eapply triple_andthen; [apply triple_send_retirement|]. intros [payload|code message| |];
    [|by apply triple_fails|by apply triple_done; intros ? <-..].
  destruct (call_decode_retire payload) as [reply|]; [|by apply triple_done; intros ? <-].
  destruct (validate_retire_reply group reply); [|by apply triple_done; intros ? <-].
  destruct (_ =? _)%Z.
  - eapply triple_andthen; [apply (triple_write _ _ _ (λ _, waits JS_ReplayAfterRetire))|].
    + intros fault. pose proof (ST_confirm actor group j fault) as Hst. by destruct (confirm_retirement fault j) as [[]].
    + intros fault [] j' Hr. by eapply confirm_replays.
    + done.
    + intros []. by apply triple_done.
  - eapply triple_andthen; [apply (triple_write _ _ _ (λ _ _, True))|intros ?; by apply triple_fails]; try done.
    intros fault. pose proof (ST_fatal actor group j fault) as Hst. by destruct (fatal fault j) as [[]].
Qed.

Lemma corridor_refusal j payload reply :
  opens_corridor (jo_record j) payload = true -> jc_decode_reply payload = Some reply ->
  reply_owned_by (jo_record j) payload = Some reply /\ is_terminal_refusal reply = true.
Proof.
  unfold opens_corridor. destruct (reply_owned_by _ _) as [r|] eqn:Ho; [|done]. intros Ht Hd.
  assert (r = reply) as ->; [|done].
  unfold reply_owned_by in Ho. rewrite Hd in Ho. simpl in Ho. destruct (validate_mutation_reply _ _); [|done].
  by injection Ho as ->.
Qed.

Lemma replay_spec : triple (waits JS_ReplayAfterRetire) replay_on_tombstone delivered not_lost.
Proof.
  apply triple_read. intros j [Hv Hs].
  assert (in_state JS_ReplayAfterRetire j = true) as Hin by (by apply bool_decide_eq_true_2).
  destruct (valid_state _ _ Hv Hs) as (_ & _ & Hopen & Hconf).
  assert (forall payload reply, reply_owned_by (jo_record j) payload = Some reply ->
    (mrw_disposition_code reply = 1%Z \/ is_terminal_refusal reply = true) ->
    triple (eq j) (andthen (do_resolve payload) (λ token, done (Some (mk_Delivery reply true token))))
      (λ x j', match x with Some d => delivered d j' | None => j = j' end) not_lost) as Hresolve.
  { intros payload reply Ho Hd.
    eapply triple_andthen; [apply (triple_write _ _ _ (λ token j', delivered (mk_Delivery reply true token) j'))|].
    - intros fault. constructor.
    - intros fault token j' Hr. rewrite <- Hconf. eapply resolve_delivered; [exact Hv|exact Hr|exact Ho|].
      destruct Hd; auto.
    - done.
    - intros token. by apply triple_done. }
  apply triple_attempts; [|done]. unfold replay_attempt.
  eapply triple_andthen; [apply triple_send; [by rewrite Hin, orb_true_r|done|done]|]. intros [payload|code message| |];
    [|by apply triple_fails|by apply triple_done; intros ? <-..].
  apply triple_read. intros ? <-. destruct (decode_and_check j payload) as [reply|] eqn:Ho; [|by apply triple_done; intros ? <-].
  unfold tombstone_reply.
  destruct (Z.eqb_spec (mrw_disposition_code reply) 1) as [Hd|_]; [by apply Hresolve; auto|].
  destruct (_ && _); [|by apply triple_done; intros ? <-].
  destruct (jc_decode_reply _) as [refusal|] eqn:Hdec; [|by apply triple_fails].
  destruct (corridor_refusal j _ _ Hopen Hdec) as [Hown Hterm]. by apply Hresolve; auto.
Qed.

Lemma drive_spec local_id : triple (λ j, valid_record (jo_record j)) (drive group local_id) delivered not_lost.
Proof.
  assert (forall n, triple (waits JS_ReplayAfterRetire) (drive_rounds group local_id (S n)) delivered not_lost) as H1.
  { intros n. apply triple_read. intros j [Hv Hs]. rewrite Hs. eapply triple_weaken; [apply replay_spec|]. by intros ? <-. }
  assert (forall n, triple (waits JS_Closing) (drive_rounds group local_id (S (S n))) delivered not_lost) as H2.
  { intros n. apply triple_read. intros j [Hv Hs]. rewrite Hs.
    eapply triple_andthen; [eapply triple_weaken; [apply retire_spec|by intros ? <-]|]. intros []. exact (H1 n). }
  apply triple_read. intros j Hv.
  destruct (journal_state j) as [[]|] eqn:Hs; try (by apply triple_fails).
  - eapply triple_andthen; [eapply triple_weaken; [apply drive_pending_spec|by intros ? <-]|].
    intros [d|]; [by apply triple_done|exact (H2 0%nat)].
  - eapply triple_andthen; [eapply triple_weaken; [apply retire_spec|by intros ? <-]|]. intros []. exact (H1 1%nat).
  - eapply triple_weaken; [apply replay_spec|by intros ? <-].
Qed.
End logic.

(** ** The loop *)

Lemma andthen_ext {W A B} (m : Drive W A) (k k' : A -> Drive W B) s :
  (forall a s1 es1, m s = (Ok a, s1, es1) -> k' a s1 = k a s1) -> andthen m k' s = andthen m k s.
Proof. intros H. unfold andthen. destruct (m s) as [[[a|e] s1] es1] eqn:E; [|done]. by rewrite (H a s1 es1 eq_refl). Qed.

Section rounds.
Context `{Codec : JournalCodec} {W : Type} {Calls : Caller W} (group local_id : bytes).

(** A drive that did not run out of rounds does not use more. *)
Lemma drive_rounds_more n s :
  (drive_rounds group local_id n s).1.1 <> Err DE_Loop ->
  drive_rounds group local_id (S n) s = drive_rounds group local_id n s.
Proof.
  revert s. induction n as [|n IH]; intros s; [done|]. intros Hn.
  change (drive_rounds group local_id (S (S n)) s) with
    (andthen the_journal (λ j, match journal_state j with
      | Some JS_Pending => andthen drive_pending (λ resolved, match resolved with
          | Some delivery => done delivery | None => drive_rounds group local_id (S n) end)
      | Some JS_Closing => andthen (retire_until_confirmed group local_id) (λ _, drive_rounds group local_id (S n))
      | Some JS_ReplayAfterRetire => replay_on_tombstone
      | _ => fails DE_State end) s).
  cbn [drive_rounds] in Hn |- *. apply andthen_ext. intros j s1 es1 E. unfold andthen in Hn. rewrite E in Hn.
  destruct (journal_state j) as [[]|]; try done; apply andthen_ext; intros x s2 es2 E2; unfold andthen in Hn; rewrite E2 in Hn.
  - destruct x as [d|]; [done|]. apply IH. by destruct (drive_rounds group local_id n s2) as [[] ?].
  - apply IH. by destruct (drive_rounds group local_id n s2) as [[] ?].
Qed.
End rounds.

(** C15: a drive is a run of the journal. Whatever the network answers and whichever
    writes fail, what a drive does is steps of the journal's transition system,
    every request it sends the pending entry; and when it returns a delivery, the
    journal holds that result for acknowledgement under its token, the result is a
    valid answer to the entry, the group's own or the refusal that opened the
    corridor, and the journal awaits a rotation exactly when the delivery says so. *)
Theorem drive_refines_the_journal `{JournalCodec} {Laws : JournalCodecLaws} {W : Type} {Calls : Caller W}
    actor group first_id local_id j0 evs j (w : W) r s' es :
  len group = 32 -> len actor = 32 -> len first_id = 16 ->
  open F_None actor group first_id None = inl j0 -> journal_run actor group j0 evs j ->
  base.NoDup (first_id :: minted evs) -> len evs + 1 < U64_MODULUS ->
  drive group local_id (j, w) = (r, s', es) ->
  journal_run actor group j0 (evs ++ es) s'.1 /\
  forall d, r = Ok d ->
    exists payload, unacknowledged s'.1 = Some (payload, dl_token d) /\
      reply_owned_by (jo_record s'.1) payload = Some (dl_reply d) /\
      cj_retirement_confirmed (jo_record s'.1) = dl_via_retirement d /\
      (mrw_disposition_code (dl_reply d) = 1%Z \/
       (dl_via_retirement d = true /\ is_terminal_refusal (dl_reply d) = true)).
Proof.
  intros Hg Ha Hf H0 Hrun Hnd Hlt Hd.
  pose proof (run_ok actor group first_id Hg Ha Hf j0 evs j H0 Hrun Hnd Hlt) as Hok.
  pose proof (drive_spec actor group local_id (j, w) (gr_valid _ _ _ _ _ (jk_memory _ _ _ _ _ Hok))) as Hs.
  rewrite Hd in Hs. destruct Hs as [Hc Hr]. split; [by apply Hc|]. intros d ->. apply Hr.
Qed.

(** The driver's loop ends. On any journal with a valid record, whatever the
    network answers and whichever writes fail, three rounds are enough: more change
    nothing, and the loop is never left for want of rounds. *)
Theorem drive_leaves_its_loop `{JournalCodec} {Laws : JournalCodecLaws} {W : Type} {Calls : Caller W}
    group local_id j (w : W) n :
  validate_record (jo_record j) = None -> (3 <= n)%nat ->
  drive_rounds group local_id n (j, w) = drive group local_id (j, w) /\
  (drive group local_id (j, w)).1.1 <> Err DE_Loop.
Proof.
  intros Hv Hn. apply validate_record_spec in Hv.
  assert ((drive group local_id (j, w)).1.1 <> Err DE_Loop) as Hl.
  { pose proof (drive_spec [] group local_id (j, w) Hv) as Hs. destruct (drive _ _ _) as [[[d|e] s'] es]; [done|].
    intros [= ->]. by apply Hs. }
  split; [|done]. induction Hn as [|n Hn IH]; [done|]. rewrite <- IH. apply drive_rounds_more. by rewrite IH.
Qed.

(** ** A drive through a lost reply *)

#[local] Existing Instances sample_codec sample_codec_laws.

#[local] Instance sample_caller : Caller N :=
  {| call_unary := λ _ _ w, (if w =? 0 then C_Ambiguous else C_Reply [Byte.x79], w + 1);
     call_fault := λ w, (F_None, w);
     call_encode_retire := λ _, None;
     call_decode_retire := λ _, None |}.

Lemma sample_pending : journal_run sample_actor sample_group journal0 [EV_Begin 1] journal1.
Proof.
  apply (JR_step _ _ _ [] journal0 [EV_Begin 1]); [constructor|].
  change journal1 with (begin F_None 1 [Byte.x6d] [Byte.x72] sample_hash journal0).2. by constructor.
Qed.

Lemma drive_refines_the_journal_witness :
  exists d s' es, drive sample_group sample_actor (journal1, 0) = (Ok d, s', es) /\
    journal_run sample_actor sample_group journal0 ([EV_Begin 1] ++ es) s'.1 /\
    es = [entry_event record1; entry_event record1; EV_Deliver (token_of record1) [Byte.x79]] /\
    exists payload, unacknowledged s'.1 = Some (payload, dl_token d).
Proof.
  assert (match drive sample_group sample_actor (journal1, 0) with
          | (Ok _, _, es) => es = [entry_event record1; entry_event record1; EV_Deliver (token_of record1) [Byte.x79]]
          | _ => False end) as He by (vm_compute; reflexivity).
  destruct (drive sample_group sample_actor (journal1, 0)) as [[[d|e] s'] es] eqn:E; [|destruct He].
  destruct (drive_refines_the_journal sample_actor sample_group sample_client sample_actor journal0 [EV_Begin 1]
    journal1 0 _ _ _ eq_refl eq_refl eq_refl sample_opens sample_pending
    ltac:(constructor; [apply not_elem_of_nil|constructor]) ltac:(vm_compute; reflexivity) E) as [Hrun Hd].
  destruct (Hd d eq_refl) as (payload & Hu & _).
  exists d, s', es. split; [reflexivity|]. split; [exact Hrun|]. split; [exact He|]. exists payload. exact Hu.
Defined.

Lemma drive_leaves_its_loop_witness :
  drive_rounds sample_group sample_actor 7 (journal1, 0) = drive sample_group sample_actor (journal1, 0) /\
  (drive sample_group sample_actor (journal1, 0)).1.1 <> Err DE_Loop.
Proof.
  apply (drive_leaves_its_loop sample_group sample_actor journal1 0 7); [vm_compute; reflexivity|lia].
Defined.
