(* ===== verification/Settled.v ===== *)
(** * An honest leader settles every call

    The composition of the store service over the replicated state with the
    client's validator, journal and driver. Whatever a leader over a reached state
    answers a call of the driver with, the driver takes for what it is: a consumed
    mutation is delivered at once, a terminal refusal opens the closing corridor,
    a retirement moves it on, and the replay on the tombstone ends it. *)

From S2P Require Import Prelude Reason Ids Contract Externals Limits State Tables Classify Ticket.
From S2P Require Import Authority Shape Genesis Resource Grant Retire Membership Apply.
From S2P Require Import Wire Boundary Durable Scenario Invariant Refinement Ingress.
From S2P Require Import Journal JournalSafety Store Inbound Honesty Served Engine Driver.

#[local] Open Scope N_scope.

Section settled.
Context `{Carrier : UnknownCarrier} `{Ext : Externals} {Codec : CommandCodec} {Requests : StoreCodec}.
Context {JCodec : JournalCodec} {Laws : JournalCodecLaws} {W : Type} {Calls : Caller W}.
Context (committed : Hash -> option ActionV1).

(** The journal judges replies with [inbound]'s validator. *)
Definition journal_validates : Prop :=
  forall cx reply, validate_mutation_reply cx reply = match validate_reply cx reply with Ok _ => true | Err _ => false end.

(** The journal's records encode and its writes succeed. *)
Definition disk_works : Prop :=
  (forall r, is_Some (jc_encode r)) /\ forall w : W, (call_fault w).1 = F_None.

(** A journal entry for a mutation of the leader's group, its hash computed from
    the action its bytes ask for. *)
Record entry_for (rt : AttachedStore) (r : ClientJournalV1) (dm : DecodedMutation) : Prop := {
  ef_decode : decode_mutation (cj_pending_method r) (cj_pending_request r) = Ok dm;
  ef_hash : request_hash (dm_wire_action dm) = Ok (cj_request_hash r);
  ef_committed : committed (cj_request_hash r) = Some (dm_wire_action dm);
  ef_group : cj_group_id r = as_group rt;
  ef_client : cj_client_id r = px_client_id (dm_prefix dm);
  ef_sequence : cj_sequence r = px_sequence (dm_prefix dm);
}.

(** The payload is what the leader answered the entry with. *)
Definition answers_entry (rt : AttachedStore) (r : ClientJournalV1) (payload : bytes) (reply : MutationReplyWireV1) : Prop :=
  (mutation rt (cj_pending_method r) (cj_actor_node_id r) (cj_pending_request r)).2 = Ok reply /\
  jc_decode_reply payload = Some reply.

Lemma answer_owned rt r dm payload reply :
  journal_validates -> store_ok committed rt -> len (cj_actor_node_id r) = 32 -> len (cj_request_hash r) = 32 ->
  entry_for rt r dm -> answers_entry rt r payload reply -> reply_owned_by r payload = Some reply.
Proof.
  intros Hval Hrt Ha Hh [Hd Hhash Hc Hg Hid Hseq] [Hm Hp].
  destruct (mutation rt _ _ _) as [effects out] eqn:E. simpl in Hm. subst out.
  pose proof (reply_accepted committed rt _ _ _ dm _ effects reply Hrt Ha Hd Hhash Hh Hc E) as Hv.
  unfold pending_context in Hv. unfold reply_owned_by. rewrite Hp. simpl.
  rewrite Hval, Hg, Hid, Hseq, Hv. done.
Qed.

Lemma persist_works fault next j :
  is_Some (jc_encode next) -> fault = F_None -> exists j', persist fault next j = (Ok (), j').
Proof. intros [b Hb] ->. unfold persist. rewrite Hb. eauto. Qed.

Lemma do_resolve_works payload j (w : W) :
  disk_works -> in_state JS_Pending j || in_state JS_ReplayAfterRetire j = true ->
  reply_owned_by (jo_record j) payload <> None ->
  exists s', do_resolve payload (j, w) =
    (Ok (token_of (jo_record j)), s', [EV_Deliver (token_of (jo_record j)) payload]).
Proof.
  intros [He Hf] Hs Ho. unfold do_resolve, write. simpl. specialize (Hf w). destruct (call_fault w) as [fault w']. simpl in Hf.
  unfold resolve_entry. rewrite <- negb_orb, Hs, bool_decide_eq_false_2 by done. simpl.
  destruct (persist_works fault (resolved payload (jo_record j)) j (He _) Hf) as [j' Hp]. rewrite Hp.
  apply persist_ok in Hp. rewrite Hp. eauto.
Qed.

Lemma do_close_works payload j (w : W) :
  disk_works -> in_state JS_Pending j = true -> opens_corridor (jo_record j) payload = true ->
  exists s', do_close payload (j, w) = (Ok (), s', []) /\ journal_state s'.1 = Some JS_Closing.
Proof.
  intros [He Hf] Hs Ho. unfold do_close, write. simpl. specialize (Hf w). destruct (call_fault w) as [fault w']. simpl in Hf.
  unfold close_for_retirement. rewrite Hs, Ho. simpl.
  destruct (persist_works fault (closing payload (jo_record j)) j (He _) Hf) as [j' Hp]. rewrite Hp.
  apply persist_ok in Hp. eexists. split; [done|]. unfold journal_state. simpl. by rewrite Hp.
Qed.

Lemma andthen_Ok {A B} (m : Drive W A) (k : A -> Drive W B) s a s1 es1 :
  m s = (Ok a, s1, es1) -> andthen m k s = let '(r, s2, es2) := k a s1 in (r, s2, es1 ++ es2).
Proof. intros Hm. unfold andthen. by rewrite Hm. Qed.

Lemma send_answered method request j w payload w1 :
  call_unary method request w = (C_Reply payload, w1) ->
  exists es, send method request (j, w) = (Ok (C_Reply payload), (j, w1), es).
Proof. intros Hc. unfold send. simpl. rewrite Hc. eauto. Qed.

(** A body that answers ends its loop. *)
Lemma attempts_answer {A} n (body : Drive W (option A)) s a s' es :
  body s = (Ok (Some a), s', es) -> attempts (S n) body s = (Ok a, s', es ++ []).
Proof. intros Hb. simpl. unfold andthen. by rewrite Hb. Qed.

Lemma attempts_error {A} n (body : Drive W (option A)) s e s' es :
  body s = (Err e, s', es) -> attempts (S n) body s = (Err e, s', es).
Proof. intros Hb. simpl. unfold andthen. by rewrite Hb. Qed.

(** A tombstoned session answers a sent sequence with its saved reply or with
    the fact that it is retired, and nothing else. *)
Lemma tombstone_answer rt method actor frame dm h st s reply :
  decode_mutation method frame = Ok dm -> request_hash (dm_wire_action dm) = Ok h ->
  as_state rt = Some st -> st_sessions st !! (actor, px_client_id (dm_prefix dm)) = Some s -> se_retired s = true ->
  px_sequence (dm_prefix dm) <> 0 -> (mutation rt method actor frame).2 = Ok reply ->
  mrw_disposition_code reply = 1%Z \/
  (mrw_disposition_code reply = 2%Z /\ mrw_reason_code reply = reason_code R_ClientRetired).
Proof.
  intros Hd Hh Hst Hs Hr Hq. unfold mutation. rewrite Hd, Hh, Hst. destruct (negb _); [done|].
  destruct (barrier _ _) as [id|]; [|done]. set (client := mk_ClientRef _ _ _ _).
  assert ((exists row saved, classify_client st client = Replay row saved) \/
    exists row, classify_client st client = Refuse row R_ClientRetired) as Hc.
  { unfold classify_client, client_key. simpl. rewrite Hs.
    destruct (classify_retired s (px_sequence (dm_prefix dm)) h (capacity_for st actor) Hr) as [[saved ->]|[-> |Hz]]; eauto.
    exfalso. revert Hz. unfold classify, classify_unanswered. rewrite (proj2 (N.eqb_neq _ _) Hq), Hr. by repeat case_match. }
  unfold actor_preflight. simpl. destruct (action_from_wire (dm_wire_action dm)) as [action|]; simpl;
    unfold preflight, preflight_shapeless; destruct (witness _ id); simpl; try done;
    destruct Hc as [(row & saved & ->)|[row ->]]; simpl; intros [= <-]; simpl; auto.
Qed.

Section call.
Context (Hval : journal_validates) (Hdisk : disk_works).
Context (rt : AttachedStore) (Hrt : store_ok committed rt).
Context (j : Journal) (Hv : valid_record (jo_record j)).
Context (dm : DecodedMutation) (Hentry : entry_for rt (jo_record j) dm).
Context (w : W) (payload : bytes) (reply : MutationReplyWireV1) (Hans : answers_entry rt (jo_record j) payload reply).
Context (Hcall : (call_unary (cj_pending_method (jo_record j)) (cj_pending_request (jo_record j)) w).1 = C_Reply payload).

Lemma owned_answer s : state_of (jo_record j) = Some s -> has_entry s = true -> reply_owned_by (jo_record j) payload = Some reply.
Proof.
  intros Hs He. pose proof (valid_state _ _ Hv Hs) as Hf. destruct Hv as (_ & Ha & _).
  eapply answer_owned; try done. destruct s; try done; apply Hf.
Qed.

Lemma pending_answer :
  journal_state j = Some JS_Pending ->
  (mrw_disposition_code reply = 1%Z ->
   exists s' es, drive_pending (j, w) = (Ok (Some (mk_Delivery reply false (token_of (jo_record j)))), s', es)) /\
  (is_terminal_refusal reply = true ->
   exists s' es, drive_pending (j, w) = (Ok None, s', es) /\ journal_state s'.1 = Some JS_Closing).
Proof.
  intros Hs. assert (in_state JS_Pending j = true) as Hin by (by apply bool_decide_eq_true_2).
  pose proof (owned_answer _ Hs eq_refl) as Ho.
  destruct (call_unary _ _ w) as [call w1] eqn:Hcu. simpl in Hcall. subst call.
  destruct (send_answered _ _ j w payload w1 Hcu) as [es1 Hsend].
  assert (forall x s' es, pending_reply payload reply (j, w1) = (Ok (Some x), s', es) ->
    exists es', drive_pending (j, w) = (Ok x, s', es')) as Hbody.
  { intros x s' es Hb. unfold drive_pending, DRIVE_ATTEMPTS. rewrite (andthen_Ok _ _ _ j (j, w) []) by done.
    eexists. erewrite attempts_answer; [reflexivity|]. unfold pending_attempt.
    rewrite (andthen_Ok _ _ _ _ _ _ Hsend). cbv iota beta. rewrite (andthen_Ok _ _ _ j (j, w1) []) by done.
    unfold decode_and_check. rewrite Ho, Hb. reflexivity. }
  unfold pending_reply in Hbody. split.
  - intros Hd. rewrite Hd in Hbody.
    destruct (do_resolve_works payload j w1 Hdisk) as [s' Hr]; [by rewrite Hin|by rewrite Ho|].
    edestruct (Hbody (Some (mk_Delivery reply false (token_of (jo_record j)))) s') as [es' Hp]; [|by eauto].
    cbn -[do_resolve andthen]. by rewrite (andthen_Ok _ _ _ _ _ _ Hr).
  - intros Ht. rewrite Ht in Hbody. assert ((mrw_disposition_code reply =? 1)%Z = false) as Hd.
    { unfold is_terminal_refusal in Ht. apply andb_true_iff in Ht as [Ht%Z.eqb_eq _]. by rewrite Ht. }
    rewrite Hd in Hbody.
    destruct (do_close_works payload j w1 Hdisk) as (s' & Hr & Hst); [done|unfold opens_corridor; by rewrite Ho|].
    edestruct (Hbody None s') as [es' Hp]; [by rewrite (andthen_Ok _ _ _ _ _ _ Hr)|]. eauto.
Qed.

Lemma replay_body x s' es w1 :
  journal_state j = Some JS_ReplayAfterRetire ->
  call_unary (cj_pending_method (jo_record j)) (cj_pending_request (jo_record j)) w = (C_Reply payload, w1) ->
  tombstone_reply (cj_terminal_refusal (jo_record j)) payload reply (j, w1) = (Ok (Some x), s', es) ->
  exists es', replay_on_tombstone (j, w) = (Ok x, s', es').
Proof.
  intros Hs Hcu Hb. pose proof (owned_answer _ Hs eq_refl) as Ho. destruct (send_answered _ _ j w payload w1 Hcu) as [es1 Hsend].
  unfold replay_on_tombstone, DRIVE_ATTEMPTS. rewrite (andthen_Ok _ _ _ j (j, w) []) by done.
  eexists. erewrite attempts_answer; [reflexivity|]. unfold replay_attempt.
  rewrite (andthen_Ok _ _ _ _ _ _ Hsend). cbv iota beta. rewrite (andthen_Ok _ _ _ j (j, w1) []) by done.
  unfold decode_and_check. rewrite Ho, Hb. reflexivity.
Qed.

Lemma replay_answer st s :
  journal_state j = Some JS_ReplayAfterRetire ->
  as_state rt = Some st -> st_sessions st !! (cj_actor_node_id (jo_record j), cj_client_id (jo_record j)) = Some s ->
  se_retired s = true -> cj_sequence (jo_record j) <> 0 ->
  exists delivered s' es,
    replay_on_tombstone (j, w) = (Ok (mk_Delivery delivered true (token_of (jo_record j))), s', es) /\
    if (mrw_disposition_code reply =? 1)%Z then delivered = reply
    else jc_decode_reply (cj_terminal_refusal (jo_record j)) = Some delivered.
Proof.
  intros Hs Hst Hses Hret Hq. assert (in_state JS_ReplayAfterRetire j = true) as Hin by (by apply bool_decide_eq_true_2).
  pose proof (owned_answer _ Hs eq_refl) as Ho. destruct (valid_state _ _ Hv Hs) as (_ & _ & Hopen & _).
  destruct Hentry as [Hd Hhash _ _ Hid Hseq].
  assert (mrw_disposition_code reply = 1%Z \/
    (mrw_disposition_code reply = 2%Z /\ mrw_reason_code reply = reason_code R_ClientRetired)) as Hdisp.
  { eapply (tombstone_answer rt _ _ _ dm); try done; [by rewrite <- Hid|by rewrite <- Hseq|apply Hans]. }
  assert (exists refusal, jc_decode_reply (cj_terminal_refusal (jo_record j)) = Some refusal /\
    reply_owned_by (jo_record j) (cj_terminal_refusal (jo_record j)) <> None) as (refusal & Href & Hown).
  { unfold opens_corridor, reply_owned_by in Hopen |- *. destruct (jc_decode_reply _) as [r|]; [|done]. simpl in *.
    exists r. split; [done|]. by destruct (validate_mutation_reply _ _). }
  destruct (call_unary _ _ w) as [call w1] eqn:Hcu. simpl in Hcall. subst call.
  assert (forall saved, reply_owned_by (jo_record j) saved <> None -> exists s',
    do_resolve saved (j, w1) = (Ok (token_of (jo_record j)), s', [EV_Deliver (token_of (jo_record j)) saved])) as Hres.
  { intros saved Hsv. apply do_resolve_works; [done|by rewrite Hin, orb_true_r|done]. }
  pose proof (λ x s' es, replay_body x s' es w1 Hs Hcu) as Hbody. unfold tombstone_reply in Hbody.
  destruct Hdisp as [Hone|[Htwo Hreason]].
  - destruct (Hres payload ltac:(by rewrite Ho)) as [s' Hr]. rewrite Hone in *. exists reply.
    edestruct (Hbody (mk_Delivery reply true (token_of (jo_record j))) s') as [es' Hp]; [|by exists s', es'].
    cbn -[do_resolve andthen]. by rewrite (andthen_Ok _ _ _ _ _ _ Hr).
  - destruct (Hres _ Hown) as [s' Hr]. rewrite Htwo, Hreason, Z.eqb_refl, Href in *. exists refusal.
    edestruct (Hbody (mk_Delivery refusal true (token_of (jo_record j))) s') as [es' Hp]; [|by exists s', es'].
    cbn -[do_resolve andthen]. by rewrite (andthen_Ok _ _ _ _ _ _ Hr).
Qed.
End call.

(** A write on a working disk. *)
Lemma write_works {A} (op : WriteFault -> Journal -> result A JournalError * Journal) events j (w : W) a :
  disk_works -> (exists j', op F_None j = (Ok a, j')) ->
  exists w', write op events (j, w) = (Ok a, ((op F_None j).2, w'), events a).
Proof.
  intros [_ Hf] [j' Hop]. unfold write. simpl. specialize (Hf w). destruct (call_fault w) as [fault w']. simpl in Hf.
  subst fault. rewrite Hop. eauto.
Qed.

(** What the leader answers the retirement of the journal's id with moves the
    corridor on, or proves that nothing can. *)
Lemma retire_answer rt j (w : W) request frame payload reply :
  disk_works -> store_ok committed rt -> valid_record (jo_record j) -> journal_state j = Some JS_Closing ->
  request = mk_RetireClientRequestV1 STORE_PROTOCOL_VERSION (as_group rt) (cj_actor_node_id (jo_record j))
              (cj_client_id (jo_record j)) ->
  call_encode_retire request = Some frame -> decode_retire_client frame = Some request ->
  (forall client, len client = 16 ->
     oversized (CV_RetireClient (cj_actor_node_id (jo_record j)) (cj_actor_node_id (jo_record j)) client) = false) ->
  (call_unary (name "retire_client") frame w).1 = C_Reply payload -> call_decode_retire payload = Some reply ->
  (retire_client rt (cj_actor_node_id (jo_record j)) frame).2 = Ok reply ->
  exists s', (retire_until_confirmed (as_group rt) (cj_actor_node_id (jo_record j)) (j, w) = (Ok tt, s', []) /\
              journal_state s'.1 = Some JS_ReplayAfterRetire) \/
             (retire_until_confirmed (as_group rt) (cj_actor_node_id (jo_record j)) (j, w) = (Err DE_JournalFatal, s', []) /\
              journal_state s'.1 = Some JS_FatalJournal).
Proof.
  intros Hdisk Hrt Hv Hs Hreq Henc Hdec Hsize Hcall Hpay Hret.
  destruct (retire_client rt _ frame) as [effects out] eqn:Er. simpl in Hret. subst out.
  pose proof (retirement_accepted committed rt _ _ _ _ _ Hrt (proj1 (proj2 Hv)) Hdec ltac:(by rewrite Hreq) Hsize Er) as Hval.
  unfold retire_until_confirmed. rewrite (andthen_Ok _ _ _ j (j, w) []) by done. rewrite <- Hreq, Henc. unfold DRIVE_ATTEMPTS.
  destruct (call_unary (name "retire_client") frame w) as [call w1] eqn:Hcu. simpl in Hcall. subst call.
  assert (send_retirement frame (j, w) = (Ok (C_Reply payload), (j, w1), [])) as Hsend
    by (unfold send_retirement; simpl; by rewrite Hcu).
  assert (in_state JS_Closing j = true) as Hin by (by apply bool_decide_eq_true_2).
  assert (retire_attempt (as_group rt) frame (j, w) =
    (if (rtw_outcome_code reply =? 9)%Z then andthen do_confirm (λ _, done (Some tt))
     else andthen do_fatal (λ _, fails DE_JournalFatal)) (j, w1)) as Hatt.
  { unfold retire_attempt. rewrite (andthen_Ok _ _ _ _ _ _ Hsend). cbv iota beta. rewrite Hpay, Hval.
    destruct (_ =? 9)%Z; [by destruct (andthen do_confirm _ _) as [[]]|by destruct (andthen do_fatal _ _) as [[]]]. }
  destruct (rtw_outcome_code reply =? 9)%Z.
  - destruct (write_works confirm_retirement (λ _, []) j w1 () Hdisk) as [w2 Hw].
    { unfold confirm_retirement. rewrite Hin. apply persist_works; [apply Hdisk|done]. }
    eexists. left. rewrite (andthen_Ok _ _ _ _ _ _ Hw) in Hatt. erewrite attempts_answer by exact Hatt. split; [reflexivity|].
    simpl. unfold confirm_retirement. rewrite Hin. simpl. destruct (persist_works F_None (retired (jo_record j)) j) as [j' Hp]; [apply Hdisk|done|].
    rewrite Hp. apply persist_ok in Hp. unfold journal_state. simpl. by rewrite Hp.
  - destruct (write_works fatal (λ _, []) j w1 () Hdisk) as [w2 Hw].
    { unfold fatal. apply persist_works; [apply Hdisk|done]. }
    eexists. right. rewrite (andthen_Ok _ _ _ _ _ _ Hw) in Hatt. erewrite attempts_error by exact Hatt. split; [reflexivity|].
    simpl. unfold fatal. destruct (persist_works F_None (failed (jo_record j)) j) as [j' Hp]; [apply Hdisk|done|].
    rewrite Hp. apply persist_ok in Hp. unfold journal_state. simpl. by rewrite Hp.
Qed.

(** C13: no answer of a leader is lost on the driver. When a leader over a reached
    state answers a pending entry, a consumed mutation is delivered by that very
    attempt, with the leader's reply, and a terminal refusal moves the journal to
    the closing corridor; neither is resent. *)
Theorem honest_reply_settles rt j dm (w : W) payload reply local_id :
  journal_validates -> disk_works -> store_ok committed rt ->
  validate_record (jo_record j) = None -> journal_state j = Some JS_Pending ->
  entry_for rt (jo_record j) dm -> answers_entry rt (jo_record j) payload reply ->
  (call_unary (cj_pending_method (jo_record j)) (cj_pending_request (jo_record j)) w).1 = C_Reply payload ->
  (mrw_disposition_code reply = 1%Z ->
   exists s' es, drive (as_group rt) local_id (j, w)
     = (Ok (mk_Delivery reply false (token_of (jo_record j))), s', es)) /\
  (is_terminal_refusal reply = true ->
   exists s' es, drive_pending (j, w) = (Ok None, s', es) /\ journal_state s'.1 = Some JS_Closing).
Proof.
  intros Hval Hdisk Hrt Hv Hs He Ha Hc. apply validate_record_spec in Hv.
  destruct (pending_answer Hval Hdisk rt Hrt j Hv dm He w payload reply Ha Hc Hs) as [H1 H2]. split; [|done].
  intros (s' & es & Hp)%H1. unfold drive. cbn [drive_rounds]. rewrite (andthen_Ok _ _ _ j (j, w) []) by done.
  rewrite Hs, (andthen_Ok _ _ _ _ _ _ Hp). simpl. eauto.
Qed.

(** C14: the closing corridor ends. Once the client id is retired on the state a leader
    answers from, its answer to the replayed entry ends the drive at once: with the
    saved reply when the original was consumed, else with the refusal that opened
    the corridor. *)
Theorem tombstone_ends_the_corridor rt j dm (w : W) payload reply local_id st s :
  journal_validates -> disk_works -> store_ok committed rt ->
  validate_record (jo_record j) = None -> journal_state j = Some JS_ReplayAfterRetire ->
  entry_for rt (jo_record j) dm -> answers_entry rt (jo_record j) payload reply ->
  (call_unary (cj_pending_method (jo_record j)) (cj_pending_request (jo_record j)) w).1 = C_Reply payload ->
  as_state rt = Some st -> st_sessions st !! (cj_actor_node_id (jo_record j), cj_client_id (jo_record j)) = Some s ->
  se_retired s = true -> cj_sequence (jo_record j) <> 0 ->
  exists delivered s' es,
    drive (as_group rt) local_id (j, w) = (Ok (mk_Delivery delivered true (token_of (jo_record j))), s', es) /\
    if (mrw_disposition_code reply =? 1)%Z then delivered = reply
    else jc_decode_reply (cj_terminal_refusal (jo_record j)) = Some delivered.
Proof.
  intros Hval Hdisk Hrt Hv Hs He Ha Hc Hst Hses Hret Hq. apply validate_record_spec in Hv.
  destruct (replay_answer Hval Hdisk rt Hrt j Hv dm He w payload reply Ha Hc st s Hs Hst Hses Hret Hq)
    as (d & s' & es & Hp & Hd). exists d, s', es. split; [|done].
  unfold drive. cbn [drive_rounds]. rewrite (andthen_Ok _ _ _ j (j, w) []) by done. by rewrite Hs, Hp.
Qed.
End settled.

(** ** A concrete conversation

    The acquisition of [Served]'s leader, driven from the journal; and the same
    entry replayed after its client id was retired. *)

#[local] Existing Instances ingress_carrier ingress_codec served_externals served_requests.

(** A total codec of journal records. *)
#[local] Instance ClientJournalV1_eq_dec : EqDecision ClientJournalV1.
Proof. solve_decision. Defined.

#[local] Program Instance ClientJournalV1_countable : Countable ClientJournalV1 :=
  inj_countable'
    (λ r, (cj_format_version r, cj_group_id r, cj_actor_node_id r, cj_client_id r, cj_state_code r, cj_sequence r,
           cj_pending_method r, cj_pending_request r, cj_request_hash r, cj_resolved_reply r,
           cj_retirement_confirmed r, cj_terminal_refusal r))
    (λ '(a, b, c, d, e, f, g, h, i, j, k, l), mk_ClientJournalV1 a b c d e f g h i j k l) _.
Next Obligation. by intros []. Qed.

Definition retired_entries : list (LogId * Payload) :=
  served_entries ++
  [(at_index 4, P_Normal (C_RetireClient (mk_RetireCommand sample_voter sample_voter (replicate 16 Byte.x02))))].

Definition retired_store : DurableState :=
  match apply_batch retired_entries run_store (tables_of run_initial) with
  | Ok (_, d, _) => d
  | Err _ => run_store
  end.

Definition retired_runtime : AttachedStore := leader_over retired_store (at_index 4) (at_index 5).

Definition retired_call : list StoreEffect * result MutationReplyWireV1 RpcStatus :=
  mutation retired_runtime (name "acquire") sample_voter [Byte.x01].

#[local] Instance settled_codec : JournalCodec := {
  jc_encode r := Some (bits_of (countable.encode r));
  jc_decode b := countable.decode (of_bits b);
  jc_decode_reply b :=
    if bool_decide (b = [Byte.x2a]) then result_ok served_call.2
    else if bool_decide (b = [Byte.x2b]) then result_ok retired_call.2 else None;
  jc_blake3 _ := replicate 32 Byte.x05;
  validate_mutation_reply cx reply := match validate_reply cx reply with Ok _ => true | Err _ => false end;
}.

#[local] Instance settled_codec_laws : JournalCodecLaws.
Proof.
  split; [|done|done]. intros r b. unfold jc_encode, jc_decode, settled_codec. intros [= <-].
  rewrite of_bits_of. apply countable.decode_encode.
Qed.

#[local] Instance settled_caller : Caller unit :=
  {| call_unary := λ _ _ w, (C_Reply [Byte.x2a], w);
     call_fault := λ w, (F_None, w);
     call_encode_retire := λ _, None;
     call_decode_retire := λ _, None |}.

Lemma settled_works : disk_works (W := unit).
Proof. split; [|done]. intros r. by eexists. Qed.

Definition settled_record : ClientJournalV1 :=
  begun 1 (name "acquire") [Byte.x01] (replicate 32 Byte.x01)
    (fresh_record sample_voter served_group (replicate 16 Byte.x02)).

Lemma settled_entry rt : as_group rt = served_group -> entry_for served_committed rt settled_record served_dm.
Proof. intros Hg. split; [vm_compute; reflexivity..|by rewrite Hg|reflexivity|reflexivity]. Qed.

Lemma honest_reply_settles_witness :
  exists reply s' es, served_call.2 = Ok reply /\
    drive served_group sample_voter (mk_Journal None settled_record None, tt)
      = (Ok (mk_Delivery reply false (token_of settled_record)), s', es).
Proof.
  assert (match served_call.2 with Ok reply => mrw_disposition_code reply | Err _ => 0%Z end = 1%Z)
    as Ho by (vm_compute; reflexivity).
  destruct served_call.2 as [reply|status] eqn:E; [|discriminate Ho].
  destruct (honest_reply_settles served_committed served_runtime (mk_Journal None settled_record None) served_dm tt
    [Byte.x2a] reply sample_voter) as [H1 _].
  - intros cx r. reflexivity.
  - exact settled_works.
  - exact served_runtime_ok.
  - vm_compute. reflexivity.
  - reflexivity.
  - apply settled_entry. reflexivity.
  - split; [exact E|]. unfold jc_decode_reply, settled_codec. rewrite E. reflexivity.
  - reflexivity.
  - destruct (H1 Ho) as (s' & es & H). exists reply, s', es. split; [reflexivity|exact H].
Defined.

(** The corridor, opened by the refusal of a retired id. *)
#[local] Instance corridor_caller : Caller unit :=
  {| call_unary := λ _ _ w, (C_Reply [Byte.x2b], w);
     call_fault := λ w, (F_None, w);
     call_encode_retire := λ _, None;
     call_decode_retire := λ _, None |}.

Lemma retired_store_served : exists t, served served_committed retired_store t.
Proof.
  unfold retired_store.
  assert (served served_committed run_store (tables_of run_initial)) as Hb.
  { apply (served_bind _ founding_authority PROFILE_DEV_SINGLE); [by vm_compute|by vm_compute|].
    apply (bool_decide_unpack _). by vm_compute. }
  destruct (apply_batch retired_entries run_store (tables_of run_initial)) as [[[r d] t]|] eqn:E; [|eauto].
  exists t. eapply served_batch; [exact Hb| | |exact E].
  - pose proof served_log_wf as Hw. cbn [log_wf served_entries payload_ok command_ok] in Hw.
    destruct Hw as (H1 & H2 & H3 & H4 & H5 & H6 & _).
    cbn [log_wf retired_entries served_entries app payload_ok command_ok].
    split_and!; try assumption. by intros l [= <-].
  - intros e [He| ->%list_elem_of_singleton]%elem_of_app; [by apply served_entries_proposed|]. split; [reflexivity|].
    exists (CV_RetireClient sample_voter sample_voter (replicate 16 Byte.x02)). split; [vm_compute; reflexivity|exact I].
Qed.

Lemma retired_runtime_ok : store_ok served_committed retired_runtime.
Proof. destruct retired_store_served as [t Ht]. exact (leader_over_ok _ _ _ _ _ Ht). Qed.

Definition corridor_record : ClientJournalV1 := retired (closing [Byte.x2b] settled_record).

Lemma tombstone_ends_the_corridor_witness :
  exists reply s' es, retired_call.2 = Ok reply /\ mrw_reason_code reply = reason_code R_ClientRetired /\
    drive served_group sample_voter (mk_Journal None corridor_record None, tt)
      = (Ok (mk_Delivery reply true (token_of corridor_record)), s', es).
Proof.
  assert (match retired_call.2 with Ok reply => (mrw_disposition_code reply, mrw_reason_code reply) | Err _ => (0, 0)%Z end
    = (2%Z, reason_code R_ClientRetired)) as Ho by (vm_compute; reflexivity).
  assert (from_option se_retired false
    (st_sessions (ds_model retired_store) !! (sample_voter, replicate 16 Byte.x02)) = true) as Hs by (vm_compute; reflexivity).
  destruct (st_sessions (ds_model retired_store) !! (sample_voter, replicate 16 Byte.x02)) as [s|] eqn:Es; [|discriminate Hs].
  destruct retired_call.2 as [reply|status] eqn:E; [|discriminate Ho]. injection Ho as H2 Hr.
  assert (jc_decode_reply [Byte.x2b] = Some reply) as Hd by (unfold jc_decode_reply, settled_codec; rewrite E; reflexivity).
  destruct (tombstone_ends_the_corridor served_committed retired_runtime (mk_Journal None corridor_record None) served_dm tt
    [Byte.x2b] reply sample_voter (ds_model retired_store) s) as (d & s' & es & H & Hdel).
  - intros cx r. reflexivity.
  - split; [|done]. intros r. by eexists.
  - exact retired_runtime_ok.
  - vm_compute. reflexivity.
  - reflexivity.
  - split; [vm_compute; reflexivity..|reflexivity|reflexivity|reflexivity].
  - split; [exact E|exact Hd].
  - reflexivity.
  - reflexivity.
  - exact Es.
  - exact Hs.
  - discriminate.
  - rewrite H2 in Hdel. change (jc_decode_reply [Byte.x2b] = Some d) in Hdel. rewrite Hd in Hdel. injection Hdel as <-.
    exists reply, s', es. split; [reflexivity|]. split; [exact Hr|exact H].
Defined.
