(* ===== verification/Sendable.v ===== *)
(** * A request the client may send is never refused for its shape

    A request is judged once before it is journaled, by [inbound]'s
    [validate_request], and again by every leader it reaches. A journaled request
    that could only be refused for its shape would be resent for ever: its sequence
    may carry nothing else. Here the first judgement implies the second, but for
    the rules of a membership plan that depend on the group's state. *)

From S2P Require Import Prelude Reason Ids Contract Externals Limits State Tables Classify Ticket.
From S2P Require Import Authority Shape Genesis Resource Grant Retire Membership Apply.
From S2P Require Import Wire Boundary Durable Scenario Ingress Journal Store Inbound Honesty Served.

#[local] Open Scope N_scope.

(** The limits that a plan meets or not by the state it is judged on. *)
Definition STATE_LIMITS : list ShapeLimit :=
  [SL_MembershipPlanSize; SL_MembershipPlanRoot; SL_MembershipNewVoters; SL_MemberSeedPermit; SL_MemberSeedUnknownNode].

Lemma shaped_Ok {A} (r : result A ShapeLimit) : shaped r = Ok () -> exists a, r = Ok a.
Proof. destruct r; [by eauto|done]. Qed.

Lemma bounded_Ok r : bounded r = Ok () -> r = Ok ().
Proof. by destruct r as [[]|]. Qed.

Lemma check_each_Ok {A E} (f : A -> result () E) l : check_each f l = Ok () -> forall x, x ∈ l -> f x = Ok ().
Proof.
  induction l as [|y l IH]; simpl; [by intros _ x ?%elem_of_nil|]. rewrite checks_iff. intros [Hy Hl] x [-> |Hx]%elem_of_cons; auto.
Qed.

Lemma narrow_all_same {A E} (f : A -> result bytes E) (g : A -> bytes) l ids :
  (forall a b, f a = Ok b -> b = g a) -> narrow_all f l = Ok ids -> ids = map g l.
Proof.
  intros Hf. revert ids. induction l as [|a l IH]; intros ids; simpl; [by intros [= <-]|].
  destruct (f a) as [b|] eqn:E0; [|done]. destruct (narrow_all f l) as [bs|]; [|done]. intros [= <-].
  by rewrite (Hf _ _ E0), (IH bs eq_refl).
Qed.

Lemma narrow_all_succeeds {A B E E'} (f : A -> result B E) (f' : A -> result B E') l ids :
  (forall a b, f' a = Ok b -> f a = Ok b) -> narrow_all f' l = Ok ids -> narrow_all f l = Ok ids.
Proof.
  intros Hf. revert ids. induction l as [|a l IH]; intros ids; simpl; [by intros [= <-]|].
  destruct (f' a) as [b|] eqn:E0; [|done]. destruct (narrow_all f' l) as [bs|]; [|done]. intros [= <-].
  by rewrite (Hf _ _ E0), (IH bs eq_refl).
Qed.

Lemma narrow_width_other {E E'} n (e : E) (e' : E') b b' : narrow_width n e b = Ok b' -> narrow_width n e' b = Ok b'.
Proof. unfold narrow_width. destruct (_ =? _); [|done]. by intros [= <-]. Qed.

Lemma narrow_all_map {A B C E} (f : B -> result C E) (g : A -> B) l : narrow_all f (map g l) = narrow_all (λ a, f (g a)) l.
Proof. induction l as [|a l IH]; simpl; [done|]. by rewrite IH. Qed.

Lemma find_limit_Some {A} (f : A -> option ShapeLimit) l limit :
  find_limit f l = Some limit -> exists x, x ∈ l /\ f x = Some limit.
Proof.
  induction l as [|x l IH]; simpl; [done|]. destruct (f x) as [l'|] eqn:Hx.
  - intros [= ->]. exists x. split; [left|done].
  - intros (y & Hy & ?)%IH. exists y. split; [by right|done].
Qed.

Section plans.
Context `{Carrier : UnknownCarrier} `{Ext : Externals}.

(** The plan a validated request narrows to. *)
Record plan_sendable (voters learners : list NodeIdV1) (seeds : list MemberSeedV1) : Prop := {
  ps_voters : narrow_all (λ n, narrow_node_id (nv_node_id n)) voters = Ok (map nv_node_id voters);
  ps_learners : narrow_all (λ n, narrow_node_id (nv_node_id n)) learners = Ok (map nv_node_id learners);
  ps_seeds : narrow_all narrow_seed seeds =
    Ok (map (λ s, mk_MemberSeed (msv_node_id s) (msv_ticket s) (msv_signed_join_permit s)) seeds);
  ps_sorted : sorted_unique (map nv_node_id voters) = true /\ sorted_unique (map nv_node_id learners) = true /\
    sorted_unique (map msv_node_id seeds) = true;
  ps_disjoint : existsb (λ v, bool_decide (v ∈ map nv_node_id learners)) (map nv_node_id voters) = false;
  ps_each s : s ∈ seeds -> check_seed (map nv_node_id voters) (map nv_node_id learners) (s, msv_node_id s) = Ok ();
}.

Lemma narrow_plan_ids_same e ids out : narrow_plan_ids e ids = Ok out -> out = ids.
Proof.
  intros H. apply (narrow_all_same _ id) in H; [by rewrite map_id in H|]. intros a b. by intros [-> _]%narrow_width_Ok.
Qed.

Lemma narrow_nodes e (l : list NodeIdV1) ids :
  narrow_plan_ids e (map nv_node_id l) = Ok ids -> narrow_all (λ n, narrow_node_id (nv_node_id n)) l = Ok ids.
Proof.
  unfold narrow_plan_ids. rewrite narrow_all_map. apply narrow_all_succeeds. intros a b. apply narrow_width_other.
Qed.

Lemma narrow_seeds e (l : list MemberSeedV1) ids :
  narrow_plan_ids e (map msv_node_id l) = Ok ids ->
  narrow_all narrow_seed l = Ok (map (λ s, mk_MemberSeed (msv_node_id s) (msv_ticket s) (msv_signed_join_permit s)) l).
Proof.
  unfold narrow_plan_ids. revert ids. induction l as [|s l IH]; intros ids; simpl; [done|].
  destruct (narrow_width 32 e (msv_node_id s)) as [b|] eqn:Hb; [|done].
  destruct (narrow_all _ (map msv_node_id l)) as [bs|] eqn:Hl; [|done]. intros _. rewrite (IH bs eq_refl).
  unfold narrow_seed. apply narrow_width_Ok in Hb as [_ Hb]. unfold narrow_node_id. by rewrite narrow_width_same.
Qed.

Lemma zip_self {A} (g : A -> bytes) l x : x ∈ l -> (x, g x) ∈ zip l (map g l).
Proof. induction l as [|y l IH]; simpl; [by intros ?%elem_of_nil|]. intros [-> |?]%elem_of_cons; [left|right; auto]. Qed.

Lemma validated_plan voters learners seeds :
  validate_membership_plan (map nv_node_id voters) (map nv_node_id learners) seeds = Ok () ->
  plan_sendable voters learners seeds.
Proof.
  unfold validate_membership_plan. intros H.
  destruct (narrow_plan_ids IE_PlanNodeId (map nv_node_id voters)) as [vs|] eqn:Hvs; [|done].
  destruct (narrow_plan_ids IE_PlanNodeId (map nv_node_id learners)) as [ls|] eqn:Hls; [|done].
  pose proof (narrow_plan_ids_same _ _ _ Hvs) as ->. pose proof (narrow_plan_ids_same _ _ _ Hls) as ->.
  rewrite !checks_iff, !refuse_iff in H. destruct H as (_ & _ & Hord & Hov & H).
  destruct (narrow_plan_ids IE_SeedNodeId (map msv_node_id seeds)) as [ids|] eqn:Hids; [|done].
  pose proof (narrow_plan_ids_same _ _ _ Hids) as ->. rewrite checks_iff, refuse_iff in H. destruct H as [Hso Heach].
  apply orb_false_iff in Hord as [Hv Hl]. apply negb_false_iff in Hv, Hl, Hso.
  split; [by eapply narrow_nodes|by eapply narrow_nodes|by eapply narrow_seeds|done|done|].
  intros s Hs. eapply check_each_Ok; [exact Heach|]. by apply zip_self.
Qed.

Lemma sendable_seed_shape voters learners seeds s members authority limit :
  plan_sendable voters learners seeds -> s ∈ seeds ->
  seed_shape (mk_MembershipPlan (map nv_node_id voters) (map nv_node_id learners)
                (map (λ s, mk_MemberSeed (msv_node_id s) (msv_ticket s) (msv_signed_join_permit s)) seeds))
    members authority (mk_MemberSeed (msv_node_id s) (msv_ticket s) (msv_signed_join_permit s)) = Some limit ->
  limit = SL_MemberSeedPermit.
Proof.
  intros Hp Hs. pose proof (ps_each _ _ _ Hp s Hs) as Hc. unfold check_seed in Hc. rewrite !checks_iff, refuse_iff in Hc.
  destruct Hc as (Hb & Hin & Ht). apply bounded_Ok in Hb. apply shaped_Ok in Ht as [[] Ht].
  unfold member_seed_bounds in Hb. destruct (store_node_id _) as [n|]; [|done]. rewrite checks_iff, refuse_iff in Hb.
  destruct Hb as [Htl Hpl]. unfold seed_shape, check_member_seed. simpl. change MAX_TICKET with MAX_WIRE_STRING. rewrite Htl.
  assert (from_option (λ n, MAX_JOIN_PERMIT <? n) false (len <$> msv_signed_join_permit s) = false) as ->.
  { destruct (msv_signed_join_permit s) as [permit|]; simpl; [|done]. by apply refuse_iff in Hpl. }
  rewrite negb_orb, Hin, Ht. repeat case_match; by intros [= <-].
Qed.

(** What is left of the shape of a plan is up to the state. *)
Lemma sendable_plan_shape voters learners seeds current authority profile limit :
  plan_sendable voters learners seeds ->
  plan_shape (mk_MembershipPlan (map nv_node_id voters) (map nv_node_id learners)
                (map (λ s, mk_MemberSeed (msv_node_id s) (msv_ticket s) (msv_signed_join_permit s)) seeds))
    current authority profile = Some limit ->
  limit ∈ STATE_LIMITS.
Proof.
  intros Hp. destruct (ps_sorted _ _ _ Hp) as (Hv & Hl & Hs). pose proof (ps_disjoint _ _ _ Hp) as Hd.
  unfold plan_shape. simpl. rewrite Hv, Hl, Hd, map_map. simpl.
  change (map (λ x, msv_node_id x) seeds) with (map msv_node_id seeds). rewrite Hs. simpl.
  destruct (check_membership_plan _ _ _) eqn:Hc.
  { intros [= ->]. unfold check_membership_plan, then_some in Hc. repeat case_match; simplify_eq; left. }
  destruct (existsb _ (_ ++ _)); [intros [= <-]; right; left|]. destruct (_ <? _); [intros [= <-]; do 2 right; left|].
  destruct (find_limit _ (map _ seeds)) as [l|] eqn:Hf.
  - intros [= <-]. apply find_limit_Some in Hf as (x & Hx & Hf). apply list_elem_of_fmap in Hx as (s & -> & Hs').
    apply (sendable_seed_shape voters learners seeds s) in Hf as ->; [do 3 right; left|done|done].
  - intros (x & _ & Hx)%find_limit_Some. unfold then_some in Hx. destruct (_ && _); [|done]. injection Hx as <-.
    do 4 right. left.
Qed.
End plans.

Section sendable.
Context `{Carrier : UnknownCarrier} `{Ext : Externals}.

(** The limit a decision refuses without a shape. *)
Definition shapeless_of (d : ActionDecision) : option ShapeLimit :=
  match d with
  | DD_Resource (RD_RefuseShapeless l) | DD_Grant (GD_RefuseShapeless l) | DD_Membership (MD_RefuseShapeless l) => Some l
  | _ => None
  end.

Lemma project_shape d limit : project d = Status (SD_Shape limit) -> shapeless_of d = Some limit.
Proof. destruct d as [[]|[]|[]|[]]; simpl; try done; repeat case_match; by intros [= <-]. Qed.

(** What a validated request says of its fields. *)
Record sendable (group actor : bytes) (f : RequestFacts) : Prop := {
  sn_resource k : facts_resource f = Some k -> exists key, validate (raw_key_of k) = Ok key;
  sn_fence fe : facts_fence f = Some fe -> fev_group_id fe = group /\ fev_holder fe = actor;
  sn_method : check_method_facts f = Ok ();
}.

Lemma validated_request group actor f : validate_request group actor f = Ok () -> sendable group actor f.
Proof.
  unfold validate_request. rewrite !checks_iff. intros (Hr & Hf & Hm). split; [| |done].
  - intros k Hk. rewrite Hk in Hr. by apply shaped_Ok in Hr.
  - intros fe Hfe. rewrite Hfe, !checks_iff, !refuse_iff in Hf. destruct Hf as (Hg & Hh & _).
    apply negb_false_iff, bool_decide_eq_true in Hg, Hh. done.
Qed.

Lemma sendable_fence group actor f fe :
  sendable group actor f -> facts_fence f = Some fe -> len group = 32 -> len actor = 32 ->
  narrow_fence fe = Ok (mk_Fence group (raw_key_of (fev_resource fe)) (fev_epoch fe) actor).
Proof.
  intros Hs Hf Hg Ha. destruct (sn_fence _ _ _ Hs fe Hf) as [<- <-]. unfold narrow_fence, narrow_node_id.
  by rewrite !narrow_width_same by done.
Qed.

(** A resource action of a validated request is well shaped. *)
Lemma resource_decide_shape st who a limit :
  resource_decide st who a = RD_RefuseShapeless limit ->
  (exists e, validate (raw_resource a) = Err e) \/ is_Some (check_shape a).
Proof.
  unfold resource_decide. destruct (validate (raw_resource a)) as [key|e]; [|by eauto].
  destruct (check_shape a) eqn:Hc; [by eauto|]. intros H. exfalso.
  unfold decide_acquire, decide_renew, decide_compare_and_set, decide_release, decide_release_with_value, decide_revoke in H.
  repeat case_match; discriminate H.
Qed.

Lemma resource_well_shaped group actor f a st who limit :
  sendable group actor f -> resource_request f a -> resource_decide st who a <> RD_RefuseShapeless limit.
Proof.
  intros Hs Hr Hd. destruct (resource_request_key f a Hr) as (k & Hk & Hraw).
  destruct (sn_resource _ _ _ Hs k Hk) as [key Hkey].
  apply resource_decide_shape in Hd as [[e He]|[l Hl]]; [by rewrite Hraw, Hkey in He|].
  pose proof (sn_method _ _ _ Hs) as Hm. unfold check_shape, check_value, check_ttl, then_some in Hl.
  destruct f, a; simpl in *; try done; destruct_and?; simplify_eq.
  - apply bounded_Ok, refuse_iff in Hm. by rewrite Hm in Hl.
  - rewrite checks_iff, refuse_iff in Hm. destruct Hm as [Hm _]. by rewrite Hm in Hl.
  - rewrite checks_iff, refuse_iff in Hm. destruct Hm as [Hm _]. by rewrite Hm in Hl.
Qed.

Lemma grant_well_shaped group actor k target g st who limit :
  sendable group actor (RF_SetGrant k target (gra_rights g) (gra_expected_acl_revision g)) ->
  gra_resource g = raw_key_of k -> grant_decide st who g <> GD_RefuseShapeless limit.
Proof.
  intros Hs Hk Hd. destruct (sn_resource _ _ _ Hs k eq_refl) as [key Hkey].
  pose proof (sn_method _ _ _ Hs) as Hm. simpl in Hm. rewrite !checks_iff, !refuse_iff in Hm. destruct Hm as (_ & Hr & _).
  unfold grant_decide, check_rights, then_some in Hd. rewrite Hk, Hkey, Hr in Hd. repeat case_match; discriminate Hd.
Qed.

Lemma narrow_node_id_same b : len b = 32 -> narrow_node_id b = Ok b.
Proof. apply narrow_width_same. Qed.
Lemma narrow_client_id_same b : len b = 16 -> narrow_client_id b = Ok b.
Proof. apply narrow_width_same. Qed.

Lemma log_id_narrows id : check_log_id_opt id = Ok () -> exists out, narrow_option narrow_log_id id = Ok out.
Proof.
  destruct id as [id|]; simpl; [|by eauto]. unfold check_log_id. rewrite refuse_iff, negb_false_iff, N.eqb_eq. intros Hl.
  unfold narrow_log_id, log_id_from_wire, wire_node_id. rewrite narrow_width_same by done. simpl. eauto.
Qed.

(** A validated request narrows, and what it narrows to is refused for its
    shape only as a membership plan that does not fit the state. *)
Lemma sendable_judged group actor w f :
  len group = 32 -> len actor = 32 -> facts_of w = Some f -> validate_request group actor f = Ok () ->
  exists a, action_from_wire w = Ok a /\
    forall st who h limit, shapeless_of (action_decide a st who h) = Some limit ->
      facts_kind f = MK_ChangeMembership /\ limit ∈ STATE_LIMITS.
Proof.
  intros Hg Ha Hf Hv%validated_request.
  assert (exists a, action_from_wire w = Ok a) as [a Hw].
  { pose proof (sn_method _ _ _ Hv) as Hm. pose proof (λ fe H, sendable_fence group actor f fe Hv H Hg Ha) as Hfe.
    destruct w as [| | | | | |k target rights rev|target b rev|m|op phase|]; simpl in Hf; try discriminate Hf;
      injection Hf as <-; simpl in *; try (by eauto);
      try (rewrite (Hfe _ eq_refl); by eauto);
      rewrite ?checks_iff, ?refuse_iff, ?negb_false_iff, ?N.eqb_eq in Hm; destruct Hm as [Hlen Hm];
      first [rewrite narrow_node_id_same by done|rewrite narrow_client_id_same by done]; [by eauto..| |by eauto].
    destruct Hm as [(out & ->)%log_id_narrows Hp%validated_plan].
    by rewrite (ps_voters _ _ _ Hp), (ps_learners _ _ _ Hp), (ps_seeds _ _ _ Hp); eauto. }
  exists a. split; [done|]. intros st who h limit. pose proof (asks_cases f a ltac:(by exists w)) as Hc.
  destruct a as [r|g|x|m|m]; simpl in *.
  - destruct (resource_decide st who r) eqn:Hd; try done. by apply (resource_well_shaped group actor f r) in Hd.
  - destruct Hc as (k & target & -> & Hk). destruct (grant_decide st who g) eqn:Hd; try done.
    by eapply grant_well_shaped in Hd.
  - done.
  - destruct Hc as [Hk _]. destruct (decide_change st who h m) eqn:Hd; try done. intros [= <-]. split; [done|].
    destruct w as [| | | | | | | |m'| |]; simpl in Hf, Hw; try discriminate Hf; injection Hf as <-; try discriminate Hk;
      try (match type of Hw with context [narrow_fence ?x] => destruct (narrow_fence x); discriminate Hw end);
      try discriminate Hw.
    pose proof (sn_method _ _ _ Hv) as Hm. simpl in Hm. rewrite !checks_iff in Hm. destruct Hm as (_ & _ & Hp%validated_plan).
    rewrite (ps_voters _ _ _ Hp), (ps_learners _ _ _ Hp), (ps_seeds _ _ _ Hp) in Hw.
    destruct (narrow_client_id _); [|done]. destruct (narrow_option _ _); [|done]. injection Hw as <-.
    unfold decide_change in Hd. simpl in Hd. repeat (case_match; try discriminate Hd). simplify_eq.
    by eapply sendable_plan_shape.
  - unfold decide_cancel. by repeat case_match.
Qed.
End sendable.

(** What the leader barrier refuses with. *)
Lemma barrier_status m l status :
  barrier m l = Err status -> status <> ST_DecodeFailure /\ forall limit, status <> ST_Shape limit.
Proof.
  unfold barrier, known_unservable, not_leader. destruct (rme_state m), (rme_current_leader m), (rme_millis_since_quorum_ack m), l;
    simpl; repeat case_match; intros [= <-]; simplify_eq; by split.
Qed.

(** C23: a request the client validated is never refused as undecodable, nor for its
    shape, by any leader on any state; but for a membership plan, which may fail the
    five rules that depend on the group's state. *)
Theorem sendable_request_never_shapeless `{Carrier : UnknownCarrier} `{Ext : Externals} {Codec : CommandCodec}
    {Requests : StoreCodec} rt method actor frame dm f :
  len (as_group rt) = 32 -> len actor = 32 ->
  decode_mutation method frame = Ok dm -> decode_facts method frame = Ok f ->
  validate_request (as_group rt) actor f = Ok () ->
  (mutation rt method actor frame).2 <> Err ST_DecodeFailure /\
  forall limit, (mutation rt method actor frame).2 = Err (ST_Shape limit) ->
    facts_kind f = MK_ChangeMembership /\ limit ∈ STATE_LIMITS.
Proof.
  intros Hg Ha Hd Hdf Hv. destruct (decode_agrees _ _ _ Hd) as (f' & Hf & Hdf'). rewrite Hdf in Hdf'. injection Hdf' as <-.
  destruct (sendable_judged _ _ _ _ Hg Ha Hf Hv) as (a & Hw & Hj). unfold mutation. rewrite Hd.
  destruct (negb _); [done|]. destruct (request_hash _) as [h|]; [|done].
  destruct (barrier _ _) as [id|status] eqn:Hb; 
    [|apply barrier_status in Hb as [? Hs]; simpl; split; [by intros [= ->]|by intros limit [= ->]; destruct (Hs limit)]].
  rewrite Hw. unfold actor_preflight. simpl. destruct (as_state rt) as [st|]; [|done]. simpl.
  destruct (witness _ id); [|done..]. unfold mutation_admission.
  destruct (preflight st _ a) as [res|reason|denial|] eqn:Hp; [done|done| |].
  - split; [by destruct denial|]. intros limit. destruct denial as [|l]; simpl; [done|]. intros [= ->].
    unfold preflight in Hp. destruct (classify_client st _); [|done..]. apply project_shape in Hp. by eapply Hj.
  - destruct (as_hard_hit rt); [done|]. destruct (_ && _); [done|]. destruct (negb _); [done|]. simpl.
    unfold propose_and_reply, not_leader. split; repeat case_match; done.
Qed.

(** An acquisition the client validated, answered on its merits. *)

#[local] Existing Instances ingress_carrier ingress_codec served_externals served_requests.

Lemma sendable_request_never_shapeless_witness :
  (mutation served_runtime (name "acquire") sample_voter [Byte.x01]).2 <> Err ST_DecodeFailure /\
  forall limit, (mutation served_runtime (name "acquire") sample_voter [Byte.x01]).2 = Err (ST_Shape limit) ->
    facts_kind (RF_Acquire served_key 5000) = MK_ChangeMembership /\ limit ∈ STATE_LIMITS.
Proof.
  apply (sendable_request_never_shapeless served_runtime (name "acquire") sample_voter [Byte.x01] served_dm
           (RF_Acquire served_key 5000)); vm_compute; reflexivity.
Defined.
