(* ===== verification/Reads.v ===== *)
(** * The Store service: reads

    Models the read and status methods of [aster/src/coordination/store/host.rs]
    over [storage/serve.rs]: each one checks its request, confirms leadership,
    pins one committed version at or past the barrier, authorizes the actor in
    that version and answers from it. A committed version is the stored metadata
    and tables of [Durable]; the Fory codec of the requests is a parameter. The
    recovery export and the recovery provenance are left out. *)

From S2P Require Import Prelude Reason Ids Contract Externals Limits State Membership Wire Boundary Durable Store.

#[local] Open Scope N_scope.
#[local] Open Scope coordination_scope.

(** ** Requests and replies *)

(** [struct ReadRequestV1]. *)
Record ReadRequestV1 : Type := mk_ReadRequestV1 {
  rdr_protocol_version : Z;
  rdr_group_id : bytes;
  rdr_resource : ResourceKeyV1;
}.

(** [struct ReadReplyWireV1]. *)
Record ReadReplyWireV1 : Type := mk_ReadReplyWireV1 {
  rdw_protocol_version : Z;
  rdw_group_id : bytes;
  rdw_snapshot : ResourceSnapshotV1;
}.

(** [struct AclStatusRequestV1]. *)
Record AclStatusRequestV1 : Type := mk_AclStatusRequestV1 {
  acr_protocol_version : Z;
  acr_group_id : bytes;
  acr_resource : ResourceKeyV1;
}.

(** [struct AclGrantWireV1], [struct AclSnapshotWireV1] and
    [struct AclStatusReplyWireV1]. *)
Record AclGrantWireV1 : Type := mk_AclGrantWireV1 {
  agw_subject_node_id : bytes;
  agw_rights : N;
}.

Record AclSnapshotWireV1 : Type := mk_AclSnapshotWireV1 {
  asw_resource : ResourceKeyV1;
  asw_acl_revision : N;
  asw_grants : list AclGrantWireV1;
}.

Record AclStatusReplyWireV1 : Type := mk_AclStatusReplyWireV1 {
  acw_protocol_version : Z;
  acw_group_id : bytes;
  acw_acl_snapshot : AclSnapshotWireV1;
}.

(** [struct AdminStatusRequestV1]. *)
Record AdminStatusRequestV1 : Type := mk_AdminStatusRequestV1 {
  adr_protocol_version : Z;
  adr_group_id : bytes;
}.

(** [struct AdminSnapshotWireV1] and [struct AdminStatusReplyWireV1]. *)
Record AdminSnapshotWireV1 : Type := mk_AdminSnapshotWireV1 {
  adw_admin_revision : N;
  adw_administrators : list NodeIdV1;
}.

Record AdminStatusReplyWireV1 : Type := mk_AdminStatusReplyWireV1 {
  ads_protocol_version : Z;
  ads_group_id : bytes;
  ads_admin_snapshot : AdminSnapshotWireV1;
}.

(** [struct MembershipStatusRequestV1]. *)
Record MembershipStatusRequestV1 : Type := mk_MembershipStatusRequestV1 {
  msr_protocol_version : Z;
  msr_group_id : bytes;
  msr_operation_id : option bytes;
}.

(** [struct MembershipStatusReplyWireV1]. *)
Record MembershipStatusReplyWireV1 : Type := mk_MembershipStatusReplyWireV1 {
  msw_protocol_version : Z;
  msw_group_id : bytes;
  msw_operation_id : option bytes;
  msw_status_code : Z;
  msw_expected_membership_log_id : option LogIdV1;
  msw_observed_membership_log_id : option LogIdV1;
  msw_desired_voters : list NodeIdV1;
  msw_retained_learners : list NodeIdV1;
  msw_error_code : Z;
}.

(** [struct ProbeClientRequestV1]. *)
Record ProbeClientRequestV1 : Type := mk_ProbeClientRequestV1 {
  pbr_protocol_version : Z;
  pbr_group_id : bytes;
  pbr_target_node_id : bytes;
  pbr_target_client_id : bytes;
}.

(** [struct ProbeClientReplyWireV1]. *)
Record ProbeClientReplyWireV1 : Type := mk_ProbeClientReplyWireV1 {
  pbw_protocol_version : Z;
  pbw_group_id : bytes;
  pbw_target_node_id : bytes;
  pbw_target_client_id : bytes;
  pbw_exists : bool;
  pbw_last_sequence : N;
  pbw_request_hash : bytes;
  pbw_disposition_code : Z;
  pbw_retired : bool;
}.

(** [struct GroupStatusRequestV1]. *)
Record GroupStatusRequestV1 : Type := mk_GroupStatusRequestV1 {
  gsr_protocol_version : Z;
  gsr_group_id : bytes;
}.

(** [struct GroupStatusReplyWireV1], without [recovered_from]. *)
Record GroupStatusReplyWireV1 : Type := mk_GroupStatusReplyWireV1 {
  gsw_protocol_version : Z;
  gsw_group_id : bytes;
  gsw_lifecycle_code : Z;
  gsw_local_node_id : bytes;
  gsw_local_role_code : Z;
  gsw_leader_node_id : option bytes;
  gsw_term : N;
  gsw_last_log_id : option LogIdV1;
  gsw_committed_log_id : option LogIdV1;
  gsw_applied_log_id : option LogIdV1;
  gsw_deployment_profile_code : Z;
  gsw_membership_log_id : option LogIdV1;
  gsw_membership_joint : bool;
  gsw_voters : list NodeIdV1;
  gsw_learners : list NodeIdV1;
  gsw_pending_operation_id : option bytes;
  gsw_quorum_available : option bool;
  gsw_fatal_code : Z;
  gsw_audit_floor : option LogIdV1;
  gsw_genesis_hash : bytes;
  gsw_authority_public_key : bytes;
  gsw_authority_domain : bytes;
}.

(** [struct AuditStreamRequestV1]. *)
Record AuditStreamRequestV1 : Type := mk_AuditStreamRequestV1 {
  atr_protocol_version : Z;
  atr_group_id : bytes;
  atr_after_log_id : option LogIdV1;
  atr_limit : N;
}.

(** [struct AuditRecordWireV1]. *)
Record AuditRecordWireV1 : Type := mk_AuditRecordWireV1 {
  arw_protocol_version : Z;
  arw_group_id : bytes;
  arw_log_id : LogIdV1;
  arw_actor_node_id : option bytes;
  arw_operation_code : Z;
  arw_resource : option ResourceKeyV1;
  arw_result_code : Z;
  arw_epoch : N;
  arw_value_revision : N;
}.

(** The codec of the requests. *)
Class ReadCodec : Type := {
  decode_read : bytes -> option ReadRequestV1;
  decode_acl_status : bytes -> option AclStatusRequestV1;
  decode_admin_status : bytes -> option AdminStatusRequestV1;
  decode_membership_status : bytes -> option MembershipStatusRequestV1;
  decode_probe_client : bytes -> option ProbeClientRequestV1;
  decode_group_status : bytes -> option GroupStatusRequestV1;
  decode_audit_stream : bytes -> option AuditStreamRequestV1;
}.

(** ** Versions *)

(** One committed version, as a read transaction pins it. *)
Record Version : Type := mk_Version {
  ve_meta : CoordinationMeta;
  ve_tables : StoredTables;
}.

(** [struct AdminView], [AdminView::is_administrator]. *)
Record AdminView : Type := mk_AdminView {
  av_revision : N;
  av_root : NodeId;
  av_delegates : gset NodeId;
}.

Definition view_is_administrator (v : AdminView) (actor : NodeId) : bool :=
  (0 <? av_revision v) && (bool_decide (av_root v = actor) || bool_decide (actor ∈ av_delegates v)).

(** [admin_view_of]. *)
Definition admin_view_of (d : DurableState) : AdminView :=
  mk_AdminView (st_admin_revision (ds_model d)) (ga_public_key (st_authority (ds_model d))) (st_admins (ds_model d)).

(** The runtime as a read finds it: the version its transaction pins, or none
    when the state machine is not serviceable, and this node's advisory facts. *)
Record ReadRuntime : Type := mk_ReadRuntime {
  ru_group : GroupId;
  ru_local : NodeId;
  ru_metrics : RaftMetrics;
  ru_leadership : Leadership;
  ru_admin_view : AdminView;
  ru_version : option Version;
  ru_lifecycle_code : Z;
  ru_local_role_code : Z;
  ru_quorum_available : option bool;
  ru_fatal_code : Z;
  ru_last_log : option LogId;
  ru_committed : option LogId;
}.

(** ** Targeted reads ([serve.rs]) *)

(** [serve::is_administrator]. *)
Definition serve_is_administrator (v : Version) (actor : NodeId) : bool :=
  if cme_admin_revision (ve_meta v) =? 0 then false
  else if bool_decide (ga_public_key (cme_authority (ve_meta v)) = actor) then true
  else bool_decide (actor ∈ tb_admins (ve_tables v)).

(** [serve::administrators]. *)
Definition serve_administrators (v : Version) : list NodeId := in_order (tb_admins (ve_tables v)).

(** [serve::resource]. *)
Definition serve_resource (v : Version) (key : ResourceKey) : option ResourceRow :=
  tb_resources (ve_tables v) !! key.

(** [serve::rights_of]: a stored mask with an unknown bit is corrupt. *)
Definition serve_rights_of (v : Version) (key : ResourceKey) (subject : NodeId) : result (option N) RpcStatus :=
  match tb_acl (ve_tables v) !! (key, subject) with
  | None => Ok None
  | Some rights => if negb (rights_are_known rights) then Err ST_Internal else Ok (Some rights)
  end.

(** [serve::grants_of]: the grants of one resource in subject order. *)
Definition serve_grants_of (v : Version) (key : ResourceKey) : result (list (NodeId * N)) RpcStatus :=
  let subjects := in_order (set_map snd (filter (λ k : GrantKey, k.1 = key) (dom (tb_acl (ve_tables v))))) in
  let grants := omap (λ s, (λ rights, (s, rights)) <$> tb_acl (ve_tables v) !! (key, s)) subjects in
  if existsb (λ g, negb (rights_are_known g.2)) grants then Err ST_Internal else Ok grants.

(** [serve::session]. *)
Definition serve_session (v : Version) (actor : NodeId) (client_id : ClientId) : option Session :=
  tb_sessions (ve_tables v) !! (actor, client_id).

(** [serve::intent]. *)
Definition serve_intent (v : Version) (operation_id : OperationId) : option Intent :=
  tb_intents (ve_tables v) !! operation_id.

(** [serve::active_intent]: the first in key order that is not terminal. *)
Definition serve_active_intent (v : Version) : option (OperationId * Intent) :=
  let rows := omap (λ id, (λ i, (id, i)) <$> tb_intents (ve_tables v) !! id) (in_order (dom (tb_intents (ve_tables v)))) in
  List.find (λ r, negb (is_terminal_phase (in_status_code r.2))) rows.

(** [serve::audit_after]: the rows are visited in key order and only the lowest
    [limit] indexes are kept, in a map by index. *)
Definition row_index_le (a b : N * ((N * N) * AuditRow)) : Prop := a.1 <= b.1.
#[export] Instance row_index_le_dec : RelDecision row_index_le := λ a b, decide (a.1 <= b.1).

Definition by_index (rows : gmap N ((N * N) * AuditRow)) : list (N * ((N * N) * AuditRow)) :=
  merge_sort row_index_le (map_to_list rows).

(** [rows.pop_last()]. *)
Definition pop_last (rows : gmap N ((N * N) * AuditRow)) : gmap N ((N * N) * AuditRow) :=
  match list.last (by_index rows) with
  | Some (index, _) => delete index rows
  | None => rows
  end.

(** [while rows.len() > limit]; the fuel is the number of rows. *)
Fixpoint pop_while (fuel : nat) (limit : N) (rows : gmap N ((N * N) * AuditRow)) : gmap N ((N * N) * AuditRow) :=
  match fuel with
  | O => rows
  | S fuel => if limit <? N.of_nat (size rows) then pop_while fuel limit (pop_last rows) else rows
  end.

Definition audit_step (floor : option N) (limit : N) (rows : gmap N ((N * N) * AuditRow)) (entry : (N * N) * AuditRow)
    : gmap N ((N * N) * AuditRow) :=
  let '((term, index), row) := entry in
  if from_option (λ floor, index <=? floor) false floor then rows
  else
    let rows := <[index := ((term, index), row)]> rows in
    pop_while (size rows) limit rows.

Definition serve_audit_after (v : Version) (after : option LogId) (limit : N) : list ((N * N) * AuditRow) :=
  let rows := foldl (audit_step (li_index <$> after) limit) ∅ (btree_iter (tb_audit (ve_tables v))) in
  map snd (by_index rows).

(** ** Handlers *)

(** [narrow_resource]. *)
Definition narrow_resource (resource : ResourceKeyV1) : result ResourceKey RpcStatus :=
  match resource_bounds resource with
  | Err w => Err (ST_Invalid w)
  | Ok _ =>
      match ResourceKey_new (rkv_namespace resource) (rkv_key resource) with
      | Ok key => Ok key
      | Err _ => Err ST_BadResource
      end
  end.

Section handlers.
Context `{Carrier : UnknownCarrier} {Requests : ReadCodec}.

(** What a handler answers with its effects. *)
Abbreviation Answer T := (list StoreEffect * result T RpcStatus)%type.

(** [fail] and [deny]: a denial is charged to the actor's bucket. *)
Definition fail {T : Type} (status : RpcStatus) : Answer T := ([], Err status).
Definition deny {T : Type} (status : RpcStatus) : Answer T := ([E_NoteDenied], Err status).

Section runtime.
Context (rt : ReadRuntime).

(** [read_cut], continued with the pinned version. *)
Definition read_cut {T : Type} (k : Version -> Answer T) : Answer T :=
  match barrier (ru_metrics rt) (ru_leadership rt) with
  | Err status => fail status
  | Ok barrier_id =>
      match ru_version rt with
      | None => fail ST_Internal
      | Some v =>
          match witness (cme_last_applied (ve_meta v)) barrier_id with
          | BF_Satisfied => k v
          | BF_Behind => fail ST_Behind
          | BF_Diverged => ([E_MarkFatal], Err ST_Diverged)
          end
      end
  end.

(** [check_group], continued. *)
Definition check_group {T : Type} (request_group : bytes) (k : Answer T) : Answer T :=
  if bool_decide (ru_group rt = request_group) then k else deny ST_WrongGroup.

(** [cheap_administrator_gate], continued. *)
Definition cheap_administrator_gate {T : Type} (actor : NodeId) (k : Answer T) : Answer T :=
  if negb (bool_decide (rme_current_leader (ru_metrics rt) = Some (ru_local rt))) then k
  else if view_is_administrator (ru_admin_view rt) actor then k
  else deny ST_NotAdministrator.

(** [require_administrator], continued. *)
Definition require_administrator {T : Type} (v : Version) (actor : NodeId) (k : Answer T) : Answer T :=
  if serve_is_administrator v actor then k else deny ST_NotAdministrator.

(** [request.protocol_version != STORE_PROTOCOL_VERSION], continued. *)
Definition check_version {T : Type} (protocol_version : Z) (k : Answer T) : Answer T :=
  if negb (protocol_version =? STORE_PROTOCOL_VERSION)%Z then fail (ST_Invalid WI_ProtocolVersion) else k.

(** A step that may refuse without a charge. *)
Definition or_fail {A T : Type} (r : result A RpcStatus) (k : A -> Answer T) : Answer T :=
  match r with Ok a => k a | Err status => fail status end.

Definition decoded_request {A T : Type} (o : option A) (k : A -> Answer T) : Answer T :=
  match o with Some a => k a | None => fail ST_DecodeFailure end.

(** The guards an administrator's read shares: group, gate, version, authority. *)
Definition administrator_cut {T : Type} (actor : NodeId) (request_group : bytes) (k : Version -> Answer T) : Answer T :=
  check_group request_group
    (cheap_administrator_gate actor (read_cut (λ v, require_administrator v actor (k v)))).

Definition version_group (v : Version) : bytes := ga_group_id (cme_authority (ve_meta v)).

(** [read_linearizable]. *)
Definition read_linearizable (actor : NodeId) (frame : bytes) : Answer ReadReplyWireV1 :=
  decoded_request (decode_read frame) (λ request,
  check_version (rdr_protocol_version request) (
  or_fail (narrow_resource (rdr_resource request)) (λ key,
  check_group (rdr_group_id request) (
  read_cut (λ v,
  or_fail (serve_rights_of v key actor) (λ rights,
  if N.land (default 0 rights) RIGHT_READ =? 0 then deny ST_NotReader
  else
    let row := default ResourceRow_default (serve_resource v key) in
    ([], Ok {| rdw_protocol_version := STORE_PROTOCOL_VERSION;
               rdw_group_id := version_group v;
               rdw_snapshot :=
                 {| rsv_group_id := version_group v;
                    rsv_resource := rdr_resource request;
                    rsv_epoch := rr_epoch row;
                    rsv_holder := rr_holder row;
                    rsv_held := rr_held row;
                    rsv_ttl_ms := rr_ttl_ms row;
                    rsv_lease_revision := rr_lease_revision row;
                    rsv_value_revision := rr_value_revision row;
                    rsv_acl_revision := rr_acl_revision row;
                    rsv_value := Some (rr_value row);
                    rsv_value_redacted := false |} |}))))))).

(** [inspect_acl]. *)
Definition inspect_acl (actor : NodeId) (frame : bytes) : Answer AclStatusReplyWireV1 :=
  decoded_request (decode_acl_status frame) (λ request,
  check_version (acr_protocol_version request) (
  or_fail (narrow_resource (acr_resource request)) (λ key,
  administrator_cut actor (acr_group_id request) (λ v,
  or_fail (serve_grants_of v key) (λ grants,
  ([], Ok {| acw_protocol_version := STORE_PROTOCOL_VERSION;
             acw_group_id := version_group v;
             acw_acl_snapshot :=
               {| asw_resource := acr_resource request;
                  asw_acl_revision := from_option rr_acl_revision 0 (serve_resource v key);
                  asw_grants := map (λ g, mk_AclGrantWireV1 g.1 g.2) grants |} |})))))).

(** [inspect_admins]. *)
Definition inspect_admins (actor : NodeId) (frame : bytes) : Answer AdminStatusReplyWireV1 :=
  decoded_request (decode_admin_status frame) (λ request,
  check_version (adr_protocol_version request) (
  administrator_cut actor (adr_group_id request) (λ v,
  ([], Ok {| ads_protocol_version := STORE_PROTOCOL_VERSION;
             ads_group_id := version_group v;
             ads_admin_snapshot :=
               mk_AdminSnapshotWireV1 (cme_admin_revision (ve_meta v))
                 (map mk_NodeIdV1 (serve_administrators v)) |})))).

(** [membership_status]. *)
Definition membership_status (actor : NodeId) (frame : bytes) : Answer MembershipStatusReplyWireV1 :=
  decoded_request (decode_membership_status frame) (λ request,
  check_version (msr_protocol_version request) (
  or_fail (match msr_operation_id request with
           | None => Ok None
           | Some b => match store_id16 b with Ok id => Ok (Some id) | Err w => Err (ST_Invalid w) end
           end) (λ asked,
  administrator_cut actor (msr_group_id request) (λ v,
  let found :=
    match asked with
    | Some id => (λ intent, (id, intent)) <$> serve_intent v id
    | None => serve_active_intent v
    end in
  let observed := log_id_to_wire <$> sm_log_id (cme_membership (ve_meta v)) in
  ([], Ok match found with
          | None =>
              {| msw_protocol_version := STORE_PROTOCOL_VERSION;
                 msw_group_id := version_group v;
                 msw_operation_id := None;
                 msw_status_code := 0;
                 msw_expected_membership_log_id := None;
                 msw_observed_membership_log_id := observed;
                 msw_desired_voters := [];
                 msw_retained_learners := [];
                 msw_error_code := 0 |}
          | Some (id, intent) =>
              {| msw_protocol_version := STORE_PROTOCOL_VERSION;
                 msw_group_id := version_group v;
                 msw_operation_id := Some id;
                 msw_status_code := in_status_code intent;
                 msw_expected_membership_log_id := log_id_to_wire <$> in_expected_membership intent;
                 msw_observed_membership_log_id := observed;
                 msw_desired_voters := map mk_NodeIdV1 (mp_desired_voters (in_plan intent));
                 msw_retained_learners := map mk_NodeIdV1 (mp_retained_learners (in_plan intent));
                 msw_error_code := in_result_code intent |}
          end))))).

(** [probe_client]. *)
Definition probe_client (actor : NodeId) (frame : bytes) : Answer ProbeClientReplyWireV1 :=
  decoded_request (decode_probe_client frame) (λ request,
  check_version (pbr_protocol_version request) (
  or_fail (match store_node_id (pbr_target_node_id request) with Ok n => Ok n | Err w => Err (ST_Invalid w) end)
    (λ target,
  or_fail (match store_id16 (pbr_target_client_id request) with Ok n => Ok n | Err w => Err (ST_Invalid w) end)
    (λ target_client,
  let answer v :=
    ([], Ok match serve_session v target target_client with
            | None =>
                {| pbw_protocol_version := STORE_PROTOCOL_VERSION; pbw_group_id := version_group v;
                   pbw_target_node_id := target; pbw_target_client_id := target_client;
                   pbw_exists := false; pbw_last_sequence := 0; pbw_request_hash := [];
                   pbw_disposition_code := 0; pbw_retired := false |}
            | Some session =>
                {| pbw_protocol_version := STORE_PROTOCOL_VERSION; pbw_group_id := version_group v;
                   pbw_target_node_id := target; pbw_target_client_id := target_client;
                   pbw_exists := true; pbw_last_sequence := se_last_sequence session;
                   pbw_request_hash := se_request_hash session;
                   pbw_disposition_code := if bool_decide (is_Some (se_last_result session)) then 1 else 0;
                   pbw_retired := se_retired session |}
            end) in
  if bool_decide (target = actor) then check_group (pbr_group_id request) (read_cut answer)
  else administrator_cut actor (pbr_group_id request) answer)))).

(** [group_status]: the replicated facts of one version, and this node's own. *)
Definition group_status (actor : NodeId) (frame : bytes) : Answer GroupStatusReplyWireV1 :=
  decoded_request (decode_group_status frame) (λ request,
  check_version (gsr_protocol_version request) (
  administrator_cut actor (gsr_group_id request) (λ v,
  let meta := ve_meta v in
  let membership := sm_membership (cme_membership meta) in
  let voter_set := rm_voter_ids membership in
  let learner_set := filter (λ n, n ∉ voter_set) (rm_nodes membership) in
  ([], Ok {| gsw_protocol_version := STORE_PROTOCOL_VERSION;
             gsw_group_id := version_group v;
             gsw_lifecycle_code := ru_lifecycle_code rt;
             gsw_local_node_id := ru_local rt;
             gsw_local_role_code := ru_local_role_code rt;
             gsw_leader_node_id := rme_current_leader (ru_metrics rt);
             gsw_term := rme_term (ru_metrics rt);
             gsw_last_log_id := log_id_to_wire <$> ru_last_log rt;
             gsw_committed_log_id := log_id_to_wire <$> ru_committed rt;
             gsw_applied_log_id := log_id_to_wire <$> cme_last_applied meta;
             gsw_deployment_profile_code := cme_deployment_profile_code meta;
             gsw_membership_log_id := log_id_to_wire <$> sm_log_id (cme_membership meta);
             gsw_membership_joint := (1 <? length (rm_configs membership))%nat;
             gsw_voters := map mk_NodeIdV1 (in_order voter_set);
             gsw_learners := map mk_NodeIdV1 (in_order learner_set);
             gsw_pending_operation_id := fst <$> serve_active_intent v;
             gsw_quorum_available := ru_quorum_available rt;
             gsw_fatal_code := ru_fatal_code rt;
             gsw_audit_floor := log_id_to_wire <$> cme_audit_floor meta;
             gsw_genesis_hash := ga_genesis_hash (cme_authority meta);
             gsw_authority_public_key := ga_public_key (cme_authority meta);
             gsw_authority_domain := ga_domain (cme_authority meta) |})))).

(** The record of one audit row. *)
Definition audit_record (v : Version) (entry : (N * N) * AuditRow) : AuditRecordWireV1 :=
  let '((term, index), row) := entry in
  {| arw_protocol_version := STORE_PROTOCOL_VERSION;
     arw_group_id := version_group v;
     arw_log_id := mk_LogIdV1 term (ar_leader_node_id row) index;
     arw_actor_node_id := ar_actor row;
     arw_operation_code := ar_operation_code row;
     arw_resource := (λ k, mk_ResourceKeyV1 (rk_namespace k) (rk_key k)) <$> ar_resource row;
     arw_result_code := audit_result_code (ar_result row);
     arw_epoch := ar_epoch row;
     arw_value_revision := ar_value_revision row |}.

(** The records of a stream from one version, or the refusal of a position below
    the retained floor. *)
Definition audit_answer (v : Version) (after : option LogId) (limit : N) : result (list AuditRecordWireV1) RpcStatus :=
  if match after, cme_audit_floor (ve_meta v) with
     | Some after, Some floor => li_index after <? li_index floor
     | _, _ => false
     end
  then Err (ST_AuditFloor (cme_audit_floor (ve_meta v)))
  else Ok (map (audit_record v) (serve_audit_after v after limit)).

(** [audit_stream]: the records it sends, unless the call is cancelled or a send
    fails. *)
Definition audit_stream (actor : NodeId) (frame : bytes) : Answer (list AuditRecordWireV1) :=
  decoded_request (decode_audit_stream frame) (λ request,
  check_version (atr_protocol_version request) (
  or_fail (match audit_limit_bounds (atr_limit request) with Ok _ => Ok () | Err w => Err (ST_Invalid w) end) (λ _,
  or_fail (match atr_after_log_id request with
           | None => Ok None
           | Some id => match log_id_from_wire id with
                        | Ok id => Ok (Some id)
                        | Err _ => Err (ST_Invalid WI_NodeIdWidth)
                        end
           end) (λ after,
  administrator_cut actor (atr_group_id request) (λ v, ([], audit_answer v after (atr_limit request))))))).
End runtime.
End handlers.
