(* ===== verification/ReadSafety.v ===== *)
(** * What the reads answer

    A linearizable read is answered from the state of a prefix of the log that
    contains every entry at or below the barrier, and only to a reader in that
    state; the audit rows of a stream are the next retained ones in log order,
    and a reader that resumes from its last record while the group goes on
    misses none as long as it is not refused. *)

From S2P Require Import Prelude Reason Ids Contract Externals Limits State Tables Classify Ticket.
From S2P Require Import Authority Shape Genesis Resource Grant Retire Membership Apply.
From S2P Require Import Wire Boundary Changes Durable Scenario Accounting Invariant AuditTrail.
From S2P Require Import Steps SessionTable MembershipTable RouteTable Preservation.
From S2P Require Import Validation Refinement Leases Replication Store Reads.

#[local] Open Scope N_scope.

(** The version a transaction pins after a commit. *)
Definition version_of (d : DurableState) (t : StoredTables) : Version := mk_Version (meta_to_wire d) t.

(** ** Barriers *)

Section barriers.
Context `{Ext : Externals}.

Lemma apply_entries_above entries w replies w' last :
  apply_entries entries w = Ok (replies, w') -> st_last_applied (tx_state (wk_tx w)) = Some last ->
  forall id p, (id, p) ∈ entries -> li_index last < li_index id.
Proof.
  revert w replies w' last. induction entries as [|[id p] rest IH]; intros w replies w' last; cbn [apply_entries].
  { intros _ _ id p []%not_elem_of_nil. }
  destruct (apply_entry id p w) as [[r w1]|] eqn:He; [|done].
  destruct (apply_entries rest w1) as [[rs w2]|] eqn:Hr; [|done]. intros _ Hl.
  destruct (apply_entry_last _ _ _ _ _ He) as [Hl1 Hlt]. specialize (Hlt _ Hl).
  intros id' p' [[= -> ->]|Hin]%elem_of_cons; [done|]. pose proof (IH _ _ _ _ Hr Hl1 _ _ Hin). lia.
Qed.

(** A version that satisfies a barrier has applied everything at or below it. *)
Lemma satisfied_applied entries rest d0 t0 replies d t out b :
  apply_batch entries d0 t0 = Ok (replies, d, t) -> apply_batch (entries ++ rest) d0 t0 = Ok out ->
  witness (st_last_applied (ds_model d)) (Some b) = BF_Satisfied ->
  forall id p, (id, p) ∈ entries ++ rest -> li_index id <= li_index b -> (id, p) ∈ entries.
Proof.
  unfold apply_batch. set (w := mk_Working _ _). rewrite apply_entries_app.
  destruct (apply_entries entries w) as [[rs w1]|] eqn:He; [|done]. intros [= <- <- <-].
  destruct (apply_entries rest w1) as [[rs2 w2]|] eqn:Hr; [|done]. intros _. simpl.
  destruct (st_last_applied (tx_state (wk_tx w1))) as [a|] eqn:Ha; [|done]. intros Hw id p Hin Hle.
  apply elem_of_app in Hin as [?|Hin]; [done|]. exfalso.
  pose proof (apply_entries_above _ _ _ _ _ Hr Ha _ _ Hin) as Hlt. destruct (N.compare_spec (li_index a) (li_index b)); [lia|done|lia].
Qed.
End barriers.

(** What a reader is shown of a resource in a state. *)
Definition reading (st : State) (resource : ResourceKeyV1) (key : ResourceKey) : ResourceSnapshotV1 :=
  let row := default ResourceRow_default (st_resources st !! key) in
  {| rsv_group_id := ga_group_id (st_authority st); rsv_resource := resource; rsv_epoch := rr_epoch row;
     rsv_holder := rr_holder row; rsv_held := rr_held row; rsv_ttl_ms := rr_ttl_ms row;
     rsv_lease_revision := rr_lease_revision row; rsv_value_revision := rr_value_revision row;
     rsv_acl_revision := rr_acl_revision row; rsv_value := Some (rr_value row); rsv_value_redacted := false |}.

Section reads.
Context `{Carrier : UnknownCarrier} `{Ext : Externals} {Requests : ReadCodec}.
Context (op_of_hash : Hash -> Z).

(** An answer after [read_cut] comes from a version at or past the barrier. *)
Lemma read_cut_Ok {T} rt (k : Version -> list StoreEffect * result T RpcStatus) effects reply :
  read_cut rt k = (effects, Ok reply) ->
  exists b v, barrier (ru_metrics rt) (ru_leadership rt) = Ok b /\ ru_version rt = Some v /\
    witness (cme_last_applied (ve_meta v)) b = BF_Satisfied /\ k v = (effects, Ok reply).
Proof.
  unfold read_cut. destruct (barrier _ _) as [b|]; [|done]. destruct (ru_version rt) as [v|]; [|done].
  destruct (witness _ b) eqn:Hw; [|done..]. intros Hk. by exists b, v.
Qed.

(** An answer after [administrator_cut] comes from a version the actor
    administers. *)
Lemma administrator_cut_Ok {T} rt actor group (k : Version -> list StoreEffect * result T RpcStatus) effects reply :
  administrator_cut rt actor group k = (effects, Ok reply) ->
  exists v, ru_version rt = Some v /\ serve_is_administrator v actor = true /\ k v = (effects, Ok reply).
Proof.
  unfold administrator_cut, check_group, cheap_administrator_gate. case_bool_decide; [|done]. intros Hc.
  assert (read_cut rt (λ v, require_administrator v actor (k v)) = (effects, Ok reply)) as H' by (repeat case_match; done).
  apply read_cut_Ok in H' as (b & v & _ & Hv & _ & Hk). unfold require_administrator in Hk. case_match; [|done]. eauto.
Qed.

Lemma served_administrator d actor :
  serve_is_administrator (version_of d (tables_of (ds_model d))) actor = is_administrator (ds_model d) actor.
Proof.
  unfold serve_is_administrator, is_administrator, is_root. simpl. destruct (N.eqb_spec (st_admin_revision (ds_model d)) 0) as [-> |].
  - done.
  - rewrite (proj2 (N.ltb_lt _ _)) by lia. simpl. repeat case_bool_decide; done.
Qed.

Lemma no_active_intent v :
  serve_active_intent v = None ->
  forall id i, tb_intents (ve_tables v) !! id = Some i -> is_terminal_phase (in_status_code i) = true.
Proof.
  unfold serve_active_intent. intros Hf id i Hi. apply negb_false_iff. apply (find_none _ _ Hf (id, i)).
  apply list_elem_of_In, list_elem_of_omap. exists id. rewrite elem_of_in_order, Hi. split; [|done].
  apply elem_of_dom. eauto.
Qed.

Lemma learners_of m : filter (λ n, n ∉ rm_voter_ids m) (rm_nodes m) = cm_learners (project_membership m).
Proof.
  apply set_eq. intros n. unfold rm_voter_ids. simpl. rewrite !elem_of_filter, negb_true_iff, <- not_true_iff_false, existsb_exists.
  rewrite elem_of_union_list. setoid_rewrite <- list_elem_of_In. setoid_rewrite bool_decide_eq_true. done.
Qed.

(** C17: A linearizable read that is answered is answered from the state after a
    prefix of the committed log that contains every entry at or below the barrier
    the leader confirmed, so that no acknowledged write is missed; its actor holds
    READ on the resource in that very state, and the snapshot is the resource's
    row there. *)
Theorem linearizable_read d0 t0 entries rest replies d t out rt actor frame effects reply :
  reachable op_of_hash d0 t0 ->
  log_wf op_of_hash (st_deployment_profile_code (ds_model d0)) (st_last_applied (ds_model d0)) entries ->
  apply_batch entries d0 t0 = Ok (replies, d, t) -> apply_batch (entries ++ rest) d0 t0 = Ok out ->
  ru_version rt = Some (version_of d t) ->
  read_linearizable rt actor frame = (effects, Ok reply) ->
  exists request key barrier_id,
    decode_read frame = Some request /\
    ResourceKey_new (rkv_namespace (rdr_resource request)) (rkv_key (rdr_resource request)) = Ok key /\
    barrier (ru_metrics rt) (ru_leadership rt) = Ok barrier_id /\
    (forall b id p, barrier_id = Some b -> (id, p) ∈ entries ++ rest -> li_index id <= li_index b -> (id, p) ∈ entries) /\
    N.land (granted_rights (ds_model d) key actor) RIGHT_READ <> 0 /\
    rdw_snapshot reply = reading (ds_model d) (rdr_resource request) key.
Proof.
  intros Hreach Hwf Happ Hall Hv. pose proof (reach_batch _ _ _ _ _ _ _ Hreach Hwf Happ) as Hd.
  apply reachable_inv in Hd as [_ Ht]. unfold read_linearizable, decoded_request, check_version, or_fail, check_group.
  destruct (decode_read frame) as [request|] eqn:Hreq; [|done]. case_match; [done|].
  unfold narrow_resource. destruct (resource_bounds _); [|done].
  destruct (ResourceKey_new _ _) as [key|] eqn:Hkey; [|done]. case_bool_decide; [|done].
  intros (b & v & Hb & Hv' & Hw & Hk)%read_cut_Ok. rewrite Hv in Hv'. injection Hv' as <-.
  exists request, key, b. split_and!; [done..| | |].
  - intros b' id p ->. by eapply satisfied_applied.
  - revert Hk. unfold serve_rights_of, version_of, granted_rights. simpl. rewrite Ht. simpl.
    destruct (st_acl (ds_model d) !! (key, actor)) as [rights|]; simpl; [|by intros [=]].
    destruct (rights_are_known rights); [simpl|done]. destruct (N.eqb_spec (N.land rights RIGHT_READ) 0); done.
  - revert Hk. case_match; [|done]. case_match; [done|]. intros [= _ <-]. unfold reading, serve_resource, version_of. simpl.
    by rewrite Ht.
Qed.
End reads.

(** ** The audit stream *)

Abbreviation Audited := ((N * N) * AuditRow)%type.

(** Rows in the order of their positions. *)
Definition ascending (l : list Audited) : Prop := StronglySorted (λ a b, a.1.2 < b.1.2) l.

Definition keyed (e : Audited) : N * Audited := (e.1.2, e).

Definition above (floor : option N) (e : Audited) : Prop := from_option (λ floor, floor < e.1.2) True floor.
#[export] Instance above_dec floor e : Decision (above floor e).
Proof. destruct floor; simpl; apply _. Defined.

Lemma ascending_app l1 l2 :
  ascending (l1 ++ l2) <-> ascending l1 /\ ascending l2 /\ forall a b, a ∈ l1 -> b ∈ l2 -> a.1.2 < b.1.2.
Proof. unfold ascending. rewrite StronglySorted_app. naive_solver. Qed.

Lemma ascending_sublist k l : sublist k l -> ascending l -> ascending k.
Proof. apply sublist_sorted. Qed.

Lemma ascending_keys l : ascending l -> NoDup (map keyed l).*1.
Proof.
  unfold ascending. induction 1 as [|e l _ IH Hall]; [constructor|]. rewrite Forall_forall in Hall.
  apply list.NoDup_cons. split; [|done]. intros Hin. apply list_elem_of_fmap in Hin as ([i x] & Hi & Hx).
  apply list_elem_of_fmap in Hx as (y & [= -> ->] & Hy). apply list_elem_of_In, Hall in Hy. simpl in Hi. lia.
Qed.

(** The map by index of an ascending list, read back in order. *)
Definition rows_of (l : list Audited) : gmap N Audited := list_to_map (map keyed l).

#[export] Instance row_index_le_trans : Transitive row_index_le.
Proof. intros a b c. unfold row_index_le. lia. Qed.
#[export] Instance row_index_le_total : Total row_index_le.
Proof. intros a b. unfold row_index_le. lia. Qed.

Lemma by_index_rows l : ascending l -> by_index (rows_of l) = map keyed l.
Proof.
  intros Hl. pose proof (ascending_keys l Hl) as Hk.
  assert (by_index (rows_of l) ≡ₚ map keyed l) as Hp.
  { unfold by_index, rows_of. rewrite (merge_sort_Permutation row_index_le). by apply map_to_list_to_map. }
  apply (StronglySorted_unique_strong row_index_le); [|apply (StronglySorted_merge_sort row_index_le)| |done].
  - intros [i a] [j b] Ha Hb Hij Hji. rewrite Hp in Ha. apply list_elem_of_fmap in Ha as (x & [= -> ->] & Hx).
    apply list_elem_of_fmap in Hb as (y & [= -> ->] & Hy). unfold row_index_le in *. simpl in *.
    assert (x.1.2 = y.1.2) as He by lia. unfold keyed. f_equal; [done|].
    apply list_elem_of_lookup in Hx as [n Hn], Hy as [m Hm].
    assert (n = m) as -> ; [|congruence]. eapply NoDup_lookup; [exact Hk| |].
    + rewrite !list_lookup_fmap, Hn. done.
    + rewrite !list_lookup_fmap, Hm. simpl. by rewrite He.
  - clear -Hl. induction Hl as [|e l _ IH Hall]; simpl; constructor; [done|].
    rewrite Forall_map. eapply List.Forall_impl; [|exact Hall]. intros x Hx. unfold row_index_le. simpl in *. lia.
Qed.

Lemma size_rows l : ascending l -> size (rows_of l) = length l.
Proof.
  intros Hl. unfold rows_of. rewrite <- length_map_to_list, map_to_list_to_map by (by apply ascending_keys).
  apply length_map.
Qed.

Lemma rows_fresh l e : ascending (l ++ [e]) -> rows_of l !! e.1.2 = None.
Proof.
  intros Ha. apply not_elem_of_list_to_map. intros Hin. apply list_elem_of_fmap in Hin as ([i x] & Hi & Hx).
  apply list_elem_of_fmap in Hx as (y & [= -> ->] & Hy). simpl in Hi.
  apply ascending_app in Ha as (_ & _ & Hlt). specialize (Hlt y e Hy ltac:(left)). lia.
Qed.

Lemma rows_snoc l e : ascending (l ++ [e]) -> <[e.1.2 := e]> (rows_of l) = rows_of (l ++ [e]).
Proof.
  intros Ha. unfold rows_of. rewrite map_app, list_to_map_app. simpl. rewrite <- insert_union_r.
  - by rewrite map_union_empty.
  - by apply rows_fresh.
Qed.

Lemma pop_last_rows l e : ascending (l ++ [e]) -> pop_last (rows_of (l ++ [e])) = rows_of l.
Proof.
  intros Ha. unfold pop_last. rewrite by_index_rows by done. rewrite map_app. simpl. rewrite last_snoc.
  rewrite <- rows_snoc by done. apply delete_insert_id. by apply rows_fresh.
Qed.

(** The scan keeps the first rows above the floor. *)
Lemma audit_scan floor limit l :
  ascending l ->
  foldl (audit_step floor limit) ∅ l = rows_of (take (N.to_nat limit) (filter (above floor) l)).
Proof.
  induction l as [|e l IH] using rev_ind; [by rewrite filter_nil, take_nil|]. intros Ha.
  rewrite foldl_snoc, list.filter_app, filter_cons, filter_nil.
  rewrite IH by (by apply ascending_app in Ha as [? _]). set (kept := filter (above floor) l).
  assert (ascending (take (N.to_nat limit) kept ++ [e]) /\ ascending (kept ++ [e])) as [Hte Hke].
  { assert (forall k, sublist k l -> ascending (k ++ [e])) as Hsub.
    { intros k Hk. apply ascending_app in Ha as (Hl & He & Hlt). apply ascending_app. split_and!; [|done|].
      - by eapply ascending_sublist.
      - intros a b Hin. apply Hlt. by eapply elem_of_sublist. }
    split; apply Hsub; [|apply sublist_filter]. etrans; [apply sublist_take|apply sublist_filter]. }
  destruct e as [[term index] row]. unfold audit_step. simpl.
  destruct (decide (above floor ((term, index), row))) as [Hab|Hab].
  - assert (from_option (λ floor, index <=? floor) false floor = false) as ->.
    { destruct floor; simpl in *; [|done]. apply N.leb_gt. done. }
    pose proof (rows_snoc _ _ Hte) as Hsnoc. simpl in Hsnoc. rewrite Hsnoc. clear Hsnoc.
    rewrite size_rows by done. rewrite length_app, length_take. simpl.
    destruct (decide (length kept < N.to_nat limit)%nat) as [Hlt|Hge].
    + rewrite !take_ge by (rewrite ?length_app; simpl; lia). rewrite Nat.add_1_r. simpl.
      rewrite size_rows, length_app by done. simpl.
      destruct (N.ltb_spec limit (N.of_nat (length kept + 1))); [lia|done].
    + rewrite take_app_le by lia. rewrite Nat.add_1_r. simpl.
      rewrite size_rows, length_app, length_take by done. simpl.
      destruct (N.ltb_spec limit (N.of_nat (N.to_nat limit `min` length kept + 1))); [|lia].
      rewrite pop_last_rows by done. apply ascending_app in Hte as [Hte _].
      destruct (N.to_nat limit `min` length kept)%nat; [done|]. simpl. rewrite size_rows, length_take by done.
      destruct (N.ltb_spec limit (N.of_nat (N.to_nat limit `min` length kept))); [lia|done].
  - assert (from_option (λ floor, index <=? floor) false floor = true) as ->.
    { destruct floor; simpl in *; [|done]. apply N.leb_le. lia. }
    by rewrite app_nil_r.
Qed.

(** ** Following the stream *)

(** The position of a record, where the next page starts. *)
Definition record_position (r : AuditRecordWireV1) : LogId :=
  mk_LogId (lv_term (arw_log_id r)) (lv_leader_node_id (arw_log_id r)) (lv_index (arw_log_id r)).

Lemma filter_none {A} (P : A -> Prop) `{forall x, Decision (P x)} (l : list A) :
  (forall x, x ∈ l -> ~ P x) -> filter P l = [].
Proof.
  induction l as [|x l IH]; intros Hn; [done|]. rewrite filter_cons, decide_False by (apply Hn; left).
  apply IH. intros y Hy. apply Hn. by right.
Qed.

Lemma filter_every {A} (P : A -> Prop) `{forall x, Decision (P x)} (l : list A) :
  (forall x, x ∈ l -> P x) -> filter P l = l.
Proof.
  induction l as [|x l IH]; intros Hn; [done|]. rewrite filter_cons, decide_True by (apply Hn; left).
  f_equal. apply IH. intros y Hy. apply Hn. by right.
Qed.

(** The rows past the last of a page are those it left out. *)
Lemma filter_past (l : list Audited) n pre e :
  ascending l -> take n l = pre ++ [e] -> filter (above (Some e.1.2)) l = drop n l.
Proof.
  intros Hl Ht. rewrite <- (take_drop n l) at 1. rewrite list.filter_app. rewrite <- (take_drop n l) in Hl.
  apply ascending_app in Hl as (H1 & _ & Hlt). rewrite Ht in H1, Hlt |- *.
  rewrite filter_none, filter_every; [done| |].
  - intros x Hx. apply Hlt; [|done]. apply elem_of_app. right. left.
  - intros x Hx. simpl. apply ascending_app in H1 as (_ & _ & Hpre).
    apply elem_of_app in Hx as [Hx| ->%list_elem_of_singleton]; [|lia]. specialize (Hpre x e Hx ltac:(left)). lia.
Qed.

Section follow.
Context `{Carrier : UnknownCarrier} `{Ext : Externals}.
Context (op_of_hash : Hash -> Z).

Lemma audit_ascending bound st : audit_shape bound st -> ascending (btree_iter (st_audit st)).
Proof.
  intros Hs. assert (NoDup (btree_iter (st_audit st)).*1) as Hnd.
  { rewrite (btree_iter_perm (st_audit st)). apply NoDup_fst_map_to_list. }
  assert (forall a b, a ∈ btree_iter (st_audit st) -> b ∈ btree_iter (st_audit st) -> a.1 <> b.1 ->
            pair_leb a.1 b.1 = true -> a.1.2 < b.1.2) as Hlt.
  { intros a b Ha%btree_iter_elem Hb%btree_iter_elem. apply (au_order _ _ Hs); by eexists. }
  pose proof (StronglySorted_merge_sort audit_key_le (map_to_list (st_audit st))) as Hsort.
  change (StronglySorted audit_key_le (btree_iter (st_audit st))) in Hsort. unfold ascending.
  induction Hsort as [|x l _ IH Hall]; [constructor|]. simpl in Hnd. apply list.NoDup_cons in Hnd as [Hx Hnd].
  constructor; [apply IH; [done|]; intros a b Ha Hb; apply Hlt; by right|].
  rewrite Forall_forall in *. intros y Hy. specialize (Hall y Hy). apply list_elem_of_In in Hy.
  apply Hlt; [left|by right| |done]. intros He. apply Hx. rewrite He. by apply list_elem_of_fmap_2.
Qed.

Lemma audit_page d t after limit :
  reachable op_of_hash d t ->
  serve_audit_after (version_of d t) after limit =
  take (N.to_nat limit) (filter (above (li_index <$> after)) (btree_iter (st_audit (ds_model d)))).
Proof.
  intros Hr. apply reachable_inv in Hr as [[Hinv _] ->]. unfold serve_audit_after. simpl.
  pose proof (audit_ascending _ _ (au_shape _ _ (inv_audit _ _ _ Hinv))) as Ha. rewrite audit_scan by done.
  rewrite by_index_rows.
  - rewrite map_map. apply map_id.
  - eapply ascending_sublist; [|exact Ha]. etrans; [apply sublist_take|apply sublist_filter].
Qed.

Lemma last_page {A} n (l : list A) e : list.last (take n l) = Some e -> exists pre, take n l = pre ++ [e].
Proof. intros (pre & He)%last_Some. by exists pre. Qed.

Lemma floor_below bound st f e :
  audit_shape bound st -> st_audit_floor st = Some f -> e ∈ btree_iter (st_audit st) -> li_index f <= e.1.2.
Proof.
  intros Hs Hf He%btree_iter_elem. destruct (au_floor _ _ Hs f Hf) as [(r & Hr & _) Hle].
  specialize (Hle e.1 ltac:(by eexists)). destruct (decide ((li_term f, li_index f) = e.1)) as [<- |Hne]; [done|].
  assert (li_index f < e.1.2); [|lia]. apply (au_order _ _ Hs (li_term f, li_index f) e.1); [by eexists|by eexists|done..].
Qed.

(** A page: refused below the floor, else the next retained rows in log order. *)
Lemma audit_answer_page d t after limit :
  reachable op_of_hash d t ->
  audit_answer (version_of d t) after limit =
  if match after, st_audit_floor (ds_model d) with
     | Some after, Some floor => li_index after <? li_index floor
     | _, _ => false
     end
  then Err (ST_AuditFloor (st_audit_floor (ds_model d)))
  else Ok (map (audit_record (version_of d t)) (take (N.to_nat limit)
             (filter (above (li_index <$> after)) (btree_iter (st_audit (ds_model d)))))).
Proof. intros Hr. unfold audit_answer. by rewrite audit_page. Qed.

(** What a batch does to the trail. *)
Lemma batch_trail_moves d t entries replies d' t' :
  reachable op_of_hash d t ->
  log_wf op_of_hash (st_deployment_profile_code (ds_model d)) (st_last_applied (ds_model d)) entries ->
  apply_batch entries d t = Ok (replies, d', t') -> trail_moves (ds_model d) (ds_model d').
Proof.
  apply (apply_batch_rel op_of_hash trail_moves).
  - intros s s' (Heq & _ & Ha & Hf). apply trail_moves_same; [by injection Heq|done|done].
  - intros log_id tx tx' Hinv Hadv (tx1 & tx2 & row & -> & Hb & Hs & Hrow & Hlead).
    destruct (business_keeps _ _ _ Hb) as [Ha _ Hf _ _ _ Hg _].
    destruct (session_step_frame _ _ _ _ Hs) as [[] Hsa]. destruct (Hsa) as [Ha2 _ Hf2].
    trans (tx_state tx2); [apply trail_moves_same; congruence|].
    eapply write_audit_row_moves; [|exact Hadv|done|done].
    apply (same_audit_ok _ (tx_state tx1)); [done|].
    apply (same_audit_ok _ (tx_state tx)); [|apply Hinv]. destruct (business_keeps _ _ _ Hb). by split.
Qed.

(** ** Following a live group *)

(** A reader of a group at work: the store as it stands, the position the reader
    resumes from, and the records it has. *)
Record AuditReader : Type := mk_AuditReader {
  ad_state : DurableState;
  ad_tables : StoredTables;
  ad_cursor : LogId;
  ad_records : list AuditRecordWireV1;
}.

Definition ad_version (x : AuditReader) : Version := version_of (ad_state x) (ad_tables x).
Definition ad_audit (x : AuditReader) : gmap (N * N) AuditRow := st_audit (ds_model (ad_state x)).

(** The group applies a batch, or a stream from the cursor is answered, with any
    limit, and the reader goes on from its last record. *)
Inductive reader_step : AuditReader -> AuditReader -> Prop :=
| AS_batch d t a got entries replies d' t' :
    log_wf op_of_hash (st_deployment_profile_code (ds_model d)) (st_last_applied (ds_model d)) entries ->
    apply_batch entries d t = Ok (replies, d', t') ->
    reader_step (mk_AuditReader d t a got) (mk_AuditReader d' t' a got)
| AS_page d t a got limit page :
    audit_answer (version_of d t) (Some a) limit = Ok page ->
    reader_step (mk_AuditReader d t a got)
      (mk_AuditReader d t (from_option record_position a (list.last page)) (got ++ page)).

Definition ad_reachable (x : AuditReader) : Prop := reachable op_of_hash (ad_state x) (ad_tables x).

Lemma reader_step_reachable x y : reader_step x y -> ad_reachable x -> ad_reachable y.
Proof. destruct 1; intros Hr; [by eapply reach_batch|done]. Qed.

Lemma reader_steps_reachable x y : rtc reader_step x y -> ad_reachable x -> ad_reachable y.
Proof. induction 1; [done|]. eauto using reader_step_reachable. Qed.

Lemma reader_steps_moves x y :
  rtc reader_step x y -> ad_reachable x -> trail_moves (ds_model (ad_state x)) (ds_model (ad_state y)).
Proof.
  induction 1 as [|x y z Hxy _ IH]; intros Hr; [reflexivity|].
  trans (ds_model (ad_state y)); [|apply IH; by eapply reader_step_reachable].
  destruct Hxy; [by eapply batch_trail_moves|reflexivity].
Qed.

(** The record of a row, whichever version of the group tells it. *)
Lemma audit_record_same x y e :
  st_authority (ds_model (ad_state y)) = st_authority (ds_model (ad_state x)) ->
  audit_record (ad_version y) e = audit_record (ad_version x) e.
Proof. intros H. destruct e as [[??]?]. unfold audit_record, version_group. simpl. by rewrite H. Qed.

(** The rows an answered page holds: those past the cursor up to its last. *)
Lemma page_rows d t a limit page :
  reachable op_of_hash d t -> audit_answer (version_of d t) (Some a) limit = Ok page ->
  exists rows, page = map (audit_record (version_of d t)) rows /\ ascending rows /\
    Forall (λ e, st_audit (ds_model d) !! e.1 = Some e.2 /\ li_index a < e.1.2) rows /\
    (forall f, st_audit_floor (ds_model d) = Some f -> li_index f <= li_index a) /\
    forall k r, st_audit (ds_model d) !! k = Some r -> li_index a < k.2 ->
      k.2 <= li_index (from_option record_position a (list.last page)) -> (k, r) ∈ rows.
Proof.
  intros Hr Hpage. rewrite audit_answer_page in Hpage by done.
  destruct (match st_audit_floor (ds_model d) with Some _ => _ | None => _ end) eqn:Hrefused; [done|].
  injection Hpage as <-. simpl fmap. set (F := filter _ _). set (n := N.to_nat limit).
  pose proof (proj1 (reachable_inv _ _ _ Hr)) as [Hinv _].
  assert (ascending F) as HF.
  { eapply ascending_sublist; [apply sublist_filter|]. exact (audit_ascending _ _ (au_shape _ _ (inv_audit _ _ _ Hinv))). }
  exists (take n F). split_and!; [done|eapply ascending_sublist; [apply sublist_take|done]| | |].
  - apply list.Forall_forall. intros e He. apply (elem_of_sublist _ F) in He; [|apply sublist_take].
    apply list_elem_of_filter in He as [Hab He]. apply btree_iter_elem in He. by split.
  - intros f Hf. rewrite Hf in Hrefused. by apply N.ltb_ge in Hrefused.
  - intros k r Hk Ha Hle.
    assert ((k, r) ∈ F) as HkF by (apply list_elem_of_filter; split; [done|by apply btree_iter_elem]).
    rewrite fmap_last in Hle. destruct (list.last (take n F)) as [e|] eqn:He; simpl in Hle; [|lia].
    apply last_page in He as [pre Hpre]. pose proof (filter_past F n pre e HF Hpre) as Hpast.
    rewrite <- (take_drop n F) in HkF. apply elem_of_app in HkF as [?|Hd]; [done|exfalso].
    rewrite <- Hpast in Hd. apply list_elem_of_filter in Hd as [Hd _]. simpl in Hd.
    destruct e as [[??]?]. simpl in *. lia.
Qed.

(** The positions of the records a reader has. *)
Definition positions (got : list AuditRecordWireV1) : list N := (λ r, li_index (record_position r)) <$> got.

Lemma page_positions v rows : positions (map (audit_record v) rows) = (λ e, e.1.2) <$> rows.
Proof. unfold positions. rewrite <- list_fmap_compose. apply list_fmap_ext. by intros ? [[??]?] _. Qed.

Lemma page_end v a rows :
  ascending rows -> Forall (λ e, li_index a < e.1.2) rows ->
  let c := li_index (from_option record_position a (list.last (map (audit_record v) rows))) in
  (rows = [] /\ c = li_index a \/ exists e, e ∈ rows /\ c = e.1.2 /\ li_index a < c) /\
  Forall (λ e, e.1.2 <= c) rows.
Proof.
  intros Hasc Hall c. subst c. rewrite fmap_last. destruct (list.last rows) as [e|] eqn:He; simpl.
  - apply last_Some in He as [pre ->]. apply Forall_app in Hall as [_ Hall].
    apply list.Forall_cons in Hall as [Ha _]. destruct e as [[tm ix] row]. simpl in *. split.
    + right. exists ((tm, ix), row). split_and!; [|done|done]. apply elem_of_app. right. left.
    + apply ascending_app in Hasc as (_ & _ & Hlt). apply list.Forall_forall.
      intros x [Hx|Hx%list_elem_of_singleton]%elem_of_app; [|by subst].
      specialize (Hlt x _ Hx ltac:(left)). simpl in Hlt. lia.
  - apply last_None in He as ->. split; [by left|constructor].
Qed.

(** What a reader that started at [x0] without records has. *)
Record reader_ok (x0 x : AuditReader) : Prop := {
  rd_cursor : ad_cursor x = ad_cursor x0 \/
    exists k, is_Some (ad_audit x !! k) /\ li_index (ad_cursor x) <= k.2;
  rd_advances : li_index (ad_cursor x0) <= li_index (ad_cursor x);
  rd_sorted : StronglySorted N.lt (positions (ad_records x));
  rd_bounds : Forall (λ i, li_index (ad_cursor x0) < i /\ i <= li_index (ad_cursor x)) (positions (ad_records x));
  rd_complete k r : ad_audit x !! k = Some r -> li_index (ad_cursor x0) < k.2 ->
    k.2 <= li_index (ad_cursor x) -> audit_record (ad_version x) (k, r) ∈ ad_records x;
}.

Lemma ascending_positions (rows : list Audited) : ascending rows -> StronglySorted N.lt ((λ e, e.1.2) <$> rows).
Proof.
  unfold ascending. induction 1 as [|e rows _ IH Hall]; simpl; constructor; [done|].
  rewrite List.Forall_map. exact Hall.
Qed.

Lemma StronglySorted_app_lt (l1 l2 : list N) :
  StronglySorted N.lt l1 -> StronglySorted N.lt l2 -> (forall x y, x ∈ l1 -> y ∈ l2 -> x < y) ->
  StronglySorted N.lt (l1 ++ l2).
Proof.
  intros H1 H2 Hlt. induction H1 as [|x l1 _ IH Hall]; simpl; [done|]. constructor.
  - apply IH. intros a b Ha. apply Hlt. by right.
  - apply List.Forall_app. split; [done|]. apply List.Forall_forall. intros y Hy.
    apply Hlt; [left|by apply list_elem_of_In].
Qed.

Lemma reader_batch x0 x d' t' :
  reader_ok x0 x -> ad_reachable x -> trail_moves (ds_model (ad_state x)) (ds_model d') ->
  reader_ok x0 (mk_AuditReader d' t' (ad_cursor x) (ad_records x)).
Proof.
  intros [Hc Ha Hs Hb Hcom] Hr Hm. split; cbn [ad_cursor ad_records]; try done.
  - destruct Hc as [?|(k & [r Hk] & Hle)]; [by left|right].
    destruct (tm_kept _ _ Hm k r Hk) as [Hk'|[_ Hlt]]; [exists k; split; [by eexists|done]|].
    destruct (tm_lives _ _ Hm) as [k' Hk']; [by exists k; eexists|]. exists k'. split; [done|].
    specialize (Hlt k' Hk'). lia.
  - intros k r Hk Hlo Hhi.
    rewrite (audit_record_same x (mk_AuditReader d' t' (ad_cursor x) (ad_records x)) (k, r) (tm_authority _ _ Hm)).
    destruct (tm_new _ _ Hm k r Hk) as [Hk'|Hnew]; [by apply Hcom|].
    destruct Hc as [Hc|(k' & Hk' & Hle)]; [rewrite Hc in Hhi; lia|]. specialize (Hnew k' Hk'). lia.
Qed.

Lemma reader_page x0 d t a got limit page :
  reader_ok x0 (mk_AuditReader d t a got) -> reachable op_of_hash d t ->
  audit_answer (version_of d t) (Some a) limit = Ok page ->
  reader_ok x0 (mk_AuditReader d t (from_option record_position a (list.last page)) (got ++ page)).
Proof.
  intros [Hc Ha Hs Hb Hcom] Hr Hpage. simpl in *.
  destruct (page_rows d t a limit page Hr Hpage) as (rows & -> & Hasc & Hall & _ & Hin).
  assert (Forall (λ e : Audited, li_index a < e.1.2) rows) as Hpast
    by (eapply list.Forall_impl; [exact Hall|]; by intros e [_ ?]).
  destruct (page_end (version_of d t) a rows Hasc Hpast) as [Hend Hlast].
  set (c := from_option record_position a _) in *.
  assert (li_index a <= li_index c) as Hac by (destruct Hend as [[_ ->]|(e & _ & _ & ?)]; lia).
  split; simpl.
  - destruct Hend as [[-> _]|(e & He & Hce & _)]; [done|right]. exists e.1. split; [|lia].
    destruct (proj1 (list.Forall_forall _ _) Hall e He) as [H _]. by eexists.
  - lia.
  - unfold positions. rewrite fmap_app. fold (positions got). fold (positions (map (audit_record (version_of d t)) rows)).
    rewrite page_positions. apply StronglySorted_app_lt; [done|by apply ascending_positions|].
    intros i j Hi (e & -> & He)%list_elem_of_fmap.
    pose proof (proj1 (list.Forall_forall _ _) Hb i Hi). pose proof (proj1 (list.Forall_forall _ _) Hpast e He). simpl in *. lia.
  - unfold positions. rewrite fmap_app. fold (positions got). fold (positions (map (audit_record (version_of d t)) rows)).
    rewrite page_positions. apply Forall_app. split.
    + eapply list.Forall_impl; [exact Hb|]. simpl. intros i ?. lia.
    + apply Forall_fmap, list.Forall_forall. intros e He. simpl.
      pose proof (proj1 (list.Forall_forall _ _) Hpast e He). pose proof (proj1 (list.Forall_forall _ _) Hlast e He). simpl in *. lia.
  - intros k r Hk Hlo Hhi. apply elem_of_app.
    destruct (decide (k.2 <= li_index a)) as [Hle|Hgt]; [left; by apply Hcom|right].
    apply list_elem_of_fmap. exists (k, r). split; [done|]. apply Hin; [done|lia|done].
Qed.

Lemma reader_steps x0 x :
  ad_reachable x0 -> ad_records x0 = [] -> rtc reader_step x0 x -> reader_ok x0 x.
Proof.
  intros Hr H0. revert x. refine (rtc_ind_r _ x0 _ _).
  - split; rewrite ?H0; [by left|done|constructor|constructor|]. intros k r _. lia.
  - intros x y Hxy Hstep Hok. pose proof (reader_steps_reachable _ _ Hxy Hr) as Hrx.
    destruct Hstep as [d t a got entries replies d' t' Hw Happ|d t a got limit page Hpage].
    + apply (reader_batch x0 (mk_AuditReader d t a got)); [done|done|]. by eapply batch_trail_moves.
    + by eapply reader_page.
Qed.

(** A row that was retained is received once the cursor has passed it. *)
Lemma reader_received x0 x1 x k r :
  ad_reachable x0 -> ad_records x0 = [] -> rtc reader_step x0 x1 -> rtc reader_step x1 x ->
  ad_audit x1 !! k = Some r -> li_index (ad_cursor x0) < k.2 -> k.2 <= li_index (ad_cursor x) ->
  audit_record (ad_version x) (k, r) ∈ ad_records x.
Proof.
  intros Hr H0 H01 H1x Hk Hlo. pose proof (reader_steps_reachable _ _ H01 Hr) as Hr1.
  revert x H1x. refine (rtc_ind_r _ x1 _ _); [by apply (rd_complete _ _ (reader_steps _ _ Hr H0 H01))|].
  intros x y H1x Hstep IH Hhi. pose proof (reader_steps_reachable _ _ H1x Hr1) as Hrx.
  pose proof (reader_steps_moves _ _ H1x Hr1) as Hm.
  destruct Hstep as [d t a got entries replies d' t' Hw Happ|d t a got limit page Hpage]; cbn [ad_cursor ad_records] in *.
  - pose proof (audit_record_same (mk_AuditReader d t a got) (mk_AuditReader d' t' a got) (k, r)
      (tm_authority _ _ (batch_trail_moves _ _ _ _ _ _ Hrx Hw Happ))) as Heq.
    rewrite Heq. by apply IH.
  - apply elem_of_app. destruct (decide (k.2 <= li_index a)) as [Hle|Hgt]; [left; by apply IH|right].
    destruct (page_rows d t a limit page Hrx Hpage) as (rows & -> & _ & _ & Hfl & Hin).
    apply list_elem_of_fmap. exists (k, r). split; [done|]. apply Hin; [|lia|done].
    destruct (tm_kept _ _ Hm k r Hk) as [?|[[f Hf] Hlt]]; [done|exfalso]. simpl in *.
    pose proof (proj1 (reachable_inv _ _ _ Hrx)) as [Hinv _].
    destruct (au_floor _ _ (au_shape _ _ (inv_audit _ _ _ Hinv)) f Hf) as [(rf & Hrf & _) _].
    specialize (Hlt (li_term f, li_index f) ltac:(by eexists)). specialize (Hfl f Hf). simpl in *. lia.
Qed.

(** C34: the audit stream of a group at work. Whatever batches the group applies
    and whenever the pages are asked for, with any limits, each from the last
    record received: a page is refused exactly when its position is below the
    floor of the version that answers it, with that floor; otherwise it holds
    the next retained rows past the position in log order, as many as the limit
    allows. The records received are in strictly ascending positions, so none
    comes twice. And none is skipped: every row that was retained at any moment
    since the reader began, past where it began and up to where it is, has been
    received, although the trail is pruned under it, because a page is never
    answered across a gap. A request without a position is never refused and
    begins at the oldest row still retained; what was pruned before it is lost. *)
Theorem audit_stream_complete x0 x :
  ad_reachable x0 -> ad_records x0 = [] -> rtc reader_step x0 x ->
  (forall after limit, audit_answer (ad_version x) after limit =
    if match after, st_audit_floor (ds_model (ad_state x)) with
       | Some after, Some floor => li_index after <? li_index floor
       | _, _ => false
       end
    then Err (ST_AuditFloor (st_audit_floor (ds_model (ad_state x))))
    else Ok (map (audit_record (ad_version x)) (take (N.to_nat limit)
               (filter (above (li_index <$> after)) (btree_iter (ad_audit x)))))) /\
  StronglySorted N.lt (positions (ad_records x)) /\
  Forall (λ i, li_index (ad_cursor x0) < i /\ i <= li_index (ad_cursor x)) (positions (ad_records x)) /\
  forall x1 k r, rtc reader_step x0 x1 -> rtc reader_step x1 x -> ad_audit x1 !! k = Some r ->
    li_index (ad_cursor x0) < k.2 -> k.2 <= li_index (ad_cursor x) ->
    audit_record (ad_version x) (k, r) ∈ ad_records x.
Proof.
  intros Hr H0 H0x. destruct (reader_steps _ _ Hr H0 H0x) as [_ _ Hs Hb _]. split_and!; [|done|done|].
  - intros after limit. apply audit_answer_page. by apply (reader_steps_reachable _ _ H0x).
  - intros x1 k r H01 H1x. by apply (reader_received x0 x1).
Qed.
End follow.

(** ** A read *)

#[local] Existing Instance founding_externals.
#[local] Instance read_carrier : UnknownCarrier := unit.

Definition read_resource : ResourceKeyV1 := mk_ResourceKeyV1 [Byte.x61] [Byte.x6b].

#[local] Instance read_requests : ReadCodec := {
  decode_read _ := Some (mk_ReadRequestV1 1 (replicate 32 Byte.x05) read_resource);
  decode_acl_status _ := None;
  decode_admin_status _ := None;
  decode_membership_status _ := None;
  decode_probe_client _ := None;
  decode_group_status _ := None;
  decode_audit_stream _ := None;
}.

(** A leader whose barrier is the write at index 6. *)
Definition read_runtime (d : DurableState) (t : StoredTables) : ReadRuntime :=
  {| ru_group := replicate 32 Byte.x05; ru_local := sample_voter;
     ru_metrics := mk_RaftMetrics SV_Leader (Some sample_voter) 1 (Some 10);
     ru_leadership := LD_Confirmed (Some (at_index 6)); ru_admin_view := admin_view_of d;
     ru_version := Some (version_of d t); ru_lifecycle_code := 0; ru_local_role_code := 2;
     ru_quorum_available := Some true; ru_fatal_code := 0; ru_last_log := None; ru_committed := None |}.

Lemma linearizable_read_witness :
  match run_batch 6 with
  | Ok (_, d, t) => exists reply, read_linearizable (read_runtime d t) sample_voter [] = ([], Ok reply) /\
      rsv_value (rdw_snapshot reply) = Some [Byte.x76] /\
      rdw_snapshot reply = reading (ds_model d) read_resource run_key
  | Err _ => False
  end.
Proof.
  assert (match run_batch 6 with
          | Ok (_, d, t) => match read_linearizable (read_runtime d t) sample_voter [] with
                            | ([], Ok reply) => rsv_value (rdw_snapshot reply) = Some [Byte.x76]
                            | _ => False
                            end
          | Err _ => False
          end) as Hread by (vm_compute; reflexivity).
  assert (match run_batch 9 with Ok _ => True | Err _ => False end) as Hall by (vm_compute; exact I).
  destruct (run_batch 6) as [[[r d] t]|e] eqn:E; [|exact Hread].
  destruct (run_batch 9) as [out|] eqn:E9; [|destruct Hall].
  destruct (read_linearizable (read_runtime d t) sample_voter []) as [[|? ?] [reply|?]] eqn:Hr;
    [|contradiction Hread|contradiction Hread|contradiction Hread].
  exists reply. split; [reflexivity|]. split; [exact Hread|].
  destruct (linearizable_read run_op run_store (tables_of run_initial) (run_entries 6) (drop 6 (run_entries 9))
    r d t out (read_runtime d t) sample_voter [] [] reply run_bound (log_wf_take _ _ _ 6 _ run_wf) E E9 eq_refl Hr)
    as (request & key & b & Hreq & Hkey & _ & _ & _ & Hs).
  injection Hreq as <-. vm_compute in Hkey. injection Hkey as <-. exact Hs.
Defined.

(** A reader that starts after the second entry and takes a page of one row; the
    group applies the rest of the run; the reader goes on from its last record. *)
Definition first_page (d : DurableState) (t : StoredTables) : result (list AuditRecordWireV1) RpcStatus :=
  audit_answer (version_of d t) (Some (at_index 2)) 1.
Definition second_page (page : list AuditRecordWireV1) (d : DurableState) (t : StoredTables)
    : result (list AuditRecordWireV1) RpcStatus :=
  audit_answer (version_of d t) (Some (from_option record_position (at_index 2) (list.last page))) 100.
Definition reader_run : option (AuditReader * AuditReader) :=
  '(_, d, t) ← result_ok (run_batch 4);
  page ← result_ok (first_page d t);
  '(_, d', t') ← result_ok (apply_batch (run_rest 4) d t);
  page' ← result_ok (second_page page d' t');
  Some (mk_AuditReader d t (at_index 2) [],
        mk_AuditReader d' t'
          (from_option record_position (from_option record_position (at_index 2) (list.last page)) (list.last page'))
          (page ++ page')).

Lemma audit_stream_complete_witness :
  match reader_run with
  | Some (x0, x) =>
      rtc (reader_step run_op) x0 x /\ positions (ad_records x) = [3; 4; 5; 6; 7; 8; 9] /\
      forall k r, ad_audit x0 !! k = Some r -> 2 < k.2 -> k.2 <= li_index (ad_cursor x) ->
        audit_record (ad_version x) (k, r) ∈ ad_records x
  | None => False
  end.
Proof.
  assert ((λ p, positions (ad_records p.2)) <$> reader_run = Some [3; 4; 5; 6; 7; 8; 9]) as Hpos
    by (vm_compute; reflexivity).
  unfold reader_run in *. destruct (run_batch 4) as [[[rs d] t]|] eqn:E; [|discriminate Hpos].
  cbn [result_ok mbind option_bind] in *.
  destruct (first_page d t) as [page|] eqn:E1; [|discriminate Hpos]. cbn [result_ok mbind option_bind] in *.
  destruct (apply_batch (run_rest 4) d t) as [[[rs' d'] t']|] eqn:E2; [|discriminate Hpos].
  cbn [result_ok mbind option_bind] in *.
  destruct (second_page page d' t') as [page'|] eqn:E3; [|discriminate Hpos].
  cbn [result_ok mbind option_bind fmap option_fmap option_map snd] in *.
  set (x0 := mk_AuditReader d t (at_index 2) []). set (x := mk_AuditReader d' t' _ _) in *.
  assert (rtc (reader_step run_op) x0 x) as Hrun.
  { eapply rtc_l; [exact (AS_page run_op d t (at_index 2) [] 1 page E1)|].
    eapply rtc_l; [exact (AS_batch run_op d t _ _ (run_rest 4) rs' d' t' (run_rest_wf rs d t E) E2)|].
    apply rtc_once. exact (AS_page run_op d' t' _ _ 100 page' E3). }
  split; [exact Hrun|]. split; [by injection Hpos|]. intros k r.
  apply (proj2 (proj2 (proj2 (audit_stream_complete run_op x0 x
    (run_prefix_reachable 4 rs d t ltac:(lia) E) eq_refl Hrun))) x0 k r (rtc_refl _ _) Hrun).
Defined.
