(* ===== verification/ReadReplies.v ===== *)
(** * The client's verdicts on read replies

    Models the second half of [aster/src/coordination/client/inbound.rs], the trait
    [ValidReply] and its implementations, and of [client/mod.rs] the envelope check
    and the loop that consumes the audit stream. The trait is the class
    [ValidReply], one instance per reply. The recovery manifest and the recovery
    provenance of a status are left out. *)

From S2P Require Import Prelude Ids Contract Limits Shape Boundary Store Inbound Reads.

#[local] Open Scope N_scope.
#[local] Open Scope coordination_scope.

(** Why a reply is refused. *)
Inductive ReadFault : Type :=
| RE_ProtocolVersion
| RE_OtherGroup
| RE_Inbound (e : InboundError)
| RE_SnapshotGroup
| RE_OtherResource
| RE_Redacted
| RE_NoValue
| RE_IdWidth
| RE_IdOrder
| RE_Rights
| RE_NoAdministrator
| RE_MatchlessStatus
| RE_MatchlessExpected
| RE_MatchlessPlan
| RE_MatchlessError
| RE_OperationWidth
| RE_OtherOperation
| RE_Phase
| RE_EarlyResult
| RE_Overlap
| RE_OtherSession
| RE_SessionHash
| RE_SessionDisposition
| RE_SessionResidue
| RE_LocalId
| RE_LeaderId
| RE_GenesisHash
| RE_AuthorityKey
| RE_AuthorityDomain
| RE_PendingOperation
| RE_Lifecycle
| RE_Role
| RE_Fatal
| RE_FatalContradiction
| RE_Profile
| RE_AuditActor
| RE_AuditOperation
| RE_AuditResult
| RE_StreamLimit
| RE_StreamOverrun
| RE_StreamOrder.

(** A check shared with the mutation replies. *)
Definition inbound_check (r : result () InboundError) : result () ReadFault :=
  match r with Ok _ => Ok () | Err e => Err (RE_Inbound e) end.

(** [mod domains]. *)
Definition in_range (lo hi code : Z) : bool := (lo <=? code)%Z && (code <=? hi)%Z.
Definition DOMAIN_LIFECYCLE : Z -> bool := in_range 1 6.
Definition DOMAIN_LIFECYCLE_FATAL : Z := 6.
Definition DOMAIN_ROLE : Z -> bool := in_range 0 2.
Definition DOMAIN_FATAL : Z -> bool := in_range 0 4.
Definition DOMAIN_PROFILE : list Z := [1; 2; 3]%Z.
Definition DOMAIN_PHASE_TERMINAL : list Z := [4; 5; 7]%Z.

(** [check_sorted_unique_32]. *)
Definition check_sorted_unique_32 (ids : list bytes) : result () ReadFault :=
  let? _ := refuse_if (existsb (λ id, negb (len id =? 32)) ids) RE_IdWidth in
  refuse_if (negb (windows2_all bytes_ltb ids)) RE_IdOrder.

(** [learners.iter().any(|l| voters.contains(l))]. *)
Definition overlap (voters learners : list bytes) : bool := existsb (λ l, bool_decide (l ∈ voters)) learners.

(** [check_read_snapshot]. *)
Definition check_read_snapshot (group_id : bytes) (s : ResourceSnapshotV1) : result () ReadFault :=
  let? _ := refuse_if (negb (bool_decide (rsv_group_id s = group_id))) RE_SnapshotGroup in
  inbound_check (check_snapshot_bounds s).

(** [trait ValidReply] with [trait ReplyEnvelope]: the request a reply answers, its
    envelope, and its verdict. *)
Class ValidReply (T Request : Type) : Type := {
  reply_envelope : T -> Z * bytes;
  valid_reply : bytes -> Request -> T -> result () ReadFault;
}.

(** [impl ValidReply for ReadReplyWireV1]. *)
Definition valid_read_reply (group_id : bytes) (request : ReadRequestV1) (reply : ReadReplyWireV1) : result () ReadFault :=
  let s := rdw_snapshot reply in
  let? _ := check_read_snapshot group_id s in
  let? _ := refuse_if (negb (bool_decide (rsv_resource s = rdr_resource request))) RE_OtherResource in
  let? _ := refuse_if (rsv_value_redacted s) RE_Redacted in
  refuse_if (negb (bool_decide (is_Some (rsv_value s)))) RE_NoValue.

(** [impl ValidReply for AclStatusReplyWireV1]. *)
Definition valid_acl_reply (group_id : bytes) (request : AclStatusRequestV1) (reply : AclStatusReplyWireV1)
    : result () ReadFault :=
  let acl := acw_acl_snapshot reply in
  let? _ := refuse_if (negb (bool_decide (asw_resource acl = acr_resource request))) RE_OtherResource in
  let? _ := check_sorted_unique_32 (map agw_subject_node_id (asw_grants acl)) in
  refuse_if (existsb (λ g, negb (rights_are_known (agw_rights g))) (asw_grants acl)) RE_Rights.

(** [impl ValidReply for AdminStatusReplyWireV1]. *)
Definition valid_admin_reply (group_id : bytes) (request : AdminStatusRequestV1) (reply : AdminStatusReplyWireV1)
    : result () ReadFault :=
  let ids := map nv_node_id (adw_administrators (ads_admin_snapshot reply)) in
  let? _ := check_sorted_unique_32 ids in
  refuse_if (bool_decide (ids = [])) RE_NoAdministrator.

(** [impl ValidReply for MembershipStatusReplyWireV1]. *)
Definition valid_membership_reply (group_id : bytes) (request : MembershipStatusRequestV1)
    (reply : MembershipStatusReplyWireV1) : result () ReadFault :=
  let? _ := inbound_check (check_log_id_opt (msw_expected_membership_log_id reply)) in
  let? _ := inbound_check (check_log_id_opt (msw_observed_membership_log_id reply)) in
  match msw_operation_id reply with
  | None =>
      let? _ := refuse_if (negb (msw_status_code reply =? 0)%Z) RE_MatchlessStatus in
      let? _ := refuse_if (bool_decide (is_Some (msw_expected_membership_log_id reply))) RE_MatchlessExpected in
      let? _ := refuse_if (negb (bool_decide (msw_desired_voters reply = []))
                           || negb (bool_decide (msw_retained_learners reply = []))) RE_MatchlessPlan in
      refuse_if (negb (msw_error_code reply =? 0)%Z) RE_MatchlessError
  | Some op =>
      let? _ := refuse_if (negb (len op =? 16)) RE_OperationWidth in
      let? _ := refuse_if (match msr_operation_id request with
                           | Some asked => negb (bool_decide (op = asked))
                           | None => false
                           end) RE_OtherOperation in
      let? _ := refuse_if (negb (DOMAIN_PHASE (msw_status_code reply))) RE_Phase in
      let? _ := refuse_if (negb (msw_error_code reply =? 0)%Z
                           && negb (bool_decide (msw_status_code reply ∈ DOMAIN_PHASE_TERMINAL))) RE_EarlyResult in
      let voters := map nv_node_id (msw_desired_voters reply) in
      let learners := map nv_node_id (msw_retained_learners reply) in
      let? _ := check_sorted_unique_32 voters in
      let? _ := check_sorted_unique_32 learners in
      refuse_if (overlap voters learners) RE_Overlap
  end.

(** [impl ValidReply for ProbeClientReplyWireV1]. *)
Definition valid_probe_reply (group_id : bytes) (request : ProbeClientRequestV1) (reply : ProbeClientReplyWireV1)
    : result () ReadFault :=
  let? _ := refuse_if (negb (bool_decide (pbw_target_node_id reply = pbr_target_node_id request))
                       || negb (bool_decide (pbw_target_client_id reply = pbr_target_client_id request)))
              RE_OtherSession in
  if pbw_exists reply then
    let? _ := refuse_if (negb (len (pbw_request_hash reply) =? 32)) RE_SessionHash in
    refuse_if (negb (pbw_disposition_code reply =? 0)%Z && negb (pbw_disposition_code reply =? 1)%Z)
      RE_SessionDisposition
  else
    refuse_if (negb (pbw_last_sequence reply =? 0) || negb (bool_decide (pbw_request_hash reply = []))
               || negb (pbw_disposition_code reply =? 0)%Z || pbw_retired reply) RE_SessionResidue.

(** The checks of a status on the group's facts, in order, and then on this
    node's own codes. *)
Definition valid_group_facts (reply : GroupStatusReplyWireV1) : result () ReadFault :=
  let? _ := refuse_if (negb (len (gsw_local_node_id reply) =? 32)) RE_LocalId in
  let? _ := refuse_if (from_option (λ leader, negb (len leader =? 32)) false (gsw_leader_node_id reply)) RE_LeaderId in
  let voters := map nv_node_id (gsw_voters reply) in
  let learners := map nv_node_id (gsw_learners reply) in
  let? _ := check_sorted_unique_32 voters in
  let? _ := check_sorted_unique_32 learners in
  let? _ := refuse_if (overlap voters learners) RE_Overlap in
  let? _ := inbound_check (check_each check_log_id_opt
              [gsw_last_log_id reply; gsw_committed_log_id reply; gsw_applied_log_id reply;
               gsw_membership_log_id reply; gsw_audit_floor reply]) in
  let? _ := refuse_if (negb (len (gsw_genesis_hash reply) =? 32)) RE_GenesisHash in
  let? _ := refuse_if (negb (len (gsw_authority_public_key reply) =? 32)) RE_AuthorityKey in
  let? _ := refuse_if (bool_decide (gsw_authority_domain reply = [])) RE_AuthorityDomain in
  refuse_if (from_option (λ op, negb (len op =? 16)) false (gsw_pending_operation_id reply)) RE_PendingOperation.

Definition valid_group_codes (reply : GroupStatusReplyWireV1) : result () ReadFault :=
  let? _ := refuse_if (negb (DOMAIN_LIFECYCLE (gsw_lifecycle_code reply))) RE_Lifecycle in
  let? _ := refuse_if (negb (DOMAIN_ROLE (gsw_local_role_code reply))) RE_Role in
  let? _ := refuse_if (negb (DOMAIN_FATAL (gsw_fatal_code reply))) RE_Fatal in
  let? _ := refuse_if (negb (eqb (gsw_lifecycle_code reply =? DOMAIN_LIFECYCLE_FATAL)%Z
                               (negb (gsw_fatal_code reply =? 0)%Z))) RE_FatalContradiction in
  refuse_if (negb (bool_decide (gsw_deployment_profile_code reply ∈ DOMAIN_PROFILE))) RE_Profile.

(** [impl ValidReply for GroupStatusReplyWireV1]. *)
Definition valid_group_reply (group_id : bytes) (request : GroupStatusRequestV1) (reply : GroupStatusReplyWireV1)
    : result () ReadFault :=
  let? _ := valid_group_facts reply in
  valid_group_codes reply.

(** [validate_audit_record]. *)
Definition validate_audit_record (record : AuditRecordWireV1) : result () ReadFault :=
  let? _ := inbound_check (check_log_id (arw_log_id record)) in
  let? _ := refuse_if (from_option (λ actor, negb (len actor =? 32)) false (arw_actor_node_id record)) RE_AuditActor in
  match audit_results_for (arw_operation_code record) with
  | None => Err RE_AuditOperation
  | Some allowed =>
      let? _ := refuse_if (negb (bool_decide (arw_result_code record ∈ allowed))) RE_AuditResult in
      match arw_resource record with
      | Some resource => inbound_check (bounded (resource_bounds resource))
      | None => Ok ()
      end
  end.

#[export] Instance ReadReply_valid : ValidReply ReadReplyWireV1 ReadRequestV1 :=
  {| reply_envelope r := (rdw_protocol_version r, rdw_group_id r); valid_reply := valid_read_reply |}.
#[export] Instance AclReply_valid : ValidReply AclStatusReplyWireV1 AclStatusRequestV1 :=
  {| reply_envelope r := (acw_protocol_version r, acw_group_id r); valid_reply := valid_acl_reply |}.
#[export] Instance AdminReply_valid : ValidReply AdminStatusReplyWireV1 AdminStatusRequestV1 :=
  {| reply_envelope r := (ads_protocol_version r, ads_group_id r); valid_reply := valid_admin_reply |}.
#[export] Instance MembershipReply_valid : ValidReply MembershipStatusReplyWireV1 MembershipStatusRequestV1 :=
  {| reply_envelope r := (msw_protocol_version r, msw_group_id r); valid_reply := valid_membership_reply |}.
#[export] Instance ProbeReply_valid : ValidReply ProbeClientReplyWireV1 ProbeClientRequestV1 :=
  {| reply_envelope r := (pbw_protocol_version r, pbw_group_id r); valid_reply := valid_probe_reply |}.
#[export] Instance GroupReply_valid : ValidReply GroupStatusReplyWireV1 GroupStatusRequestV1 :=
  {| reply_envelope r := (gsw_protocol_version r, gsw_group_id r); valid_reply := valid_group_reply |}.
#[export] Instance AuditRecord_valid : ValidReply AuditRecordWireV1 () :=
  {| reply_envelope r := (arw_protocol_version r, arw_group_id r);
     valid_reply _ _ := validate_audit_record |}.

(** [check_envelope]. *)
Definition check_envelope {T Request : Type} `{ValidReply T Request} (group : bytes) (request : Request) (reply : T)
    : result () ReadFault :=
  let '(protocol_version, group_id) := reply_envelope reply in
  let? _ := refuse_if (negb (protocol_version =? STORE_PROTOCOL_VERSION)%Z) RE_ProtocolVersion in
  let? _ := refuse_if (negb (bool_decide (group_id = group))) RE_OtherGroup in
  valid_reply group request reply.

(** The loop of [audit_stream] over the records that arrive; [taken] counts those
    accepted and [floor] is the index the next must pass. *)
Fixpoint accept_records (group : bytes) (limit taken : N) (floor : option N) (records : list AuditRecordWireV1)
    : result (list AuditRecordWireV1) ReadFault :=
  match records with
  | [] => Ok []
  | record :: records =>
      if limit <=? taken then Err RE_StreamOverrun
      else
        let? _ := check_envelope group () record in
        if from_option (λ floor, lv_index (arw_log_id record) <=? floor) false floor then Err RE_StreamOrder
        else
          let? accepted := accept_records group limit (taken + 1) (Some (lv_index (arw_log_id record))) records in
          Ok (record :: accepted)
  end.

(** [CoordinationReadClient::audit_stream], on the records a server sends. *)
Definition accept_stream (group : bytes) (after : option LogIdV1) (limit : N) (records : list AuditRecordWireV1)
    : result (list AuditRecordWireV1) ReadFault :=
  match audit_limit_bounds limit with
  | Err _ => Err RE_StreamLimit
  | Ok _ => accept_records group limit 0 (lv_index <$> after) records
  end.
