(* ===== verification/ReadHonesty.v ===== *)
(** * Every honest read reply is accepted

    The reads of a replica over a reached state pass the client's verdicts: a
    caller is never told that a healthy group misbehaves. *)

From S2P Require Import Prelude Reason Ids Contract Externals Limits State Tables Shape Resource Membership Apply.
From S2P Require Import Wire Boundary Durable Invariant Validation Refinement Scenario StoredRows Typing.
From S2P Require Import Store Inbound Honesty Genesis Reads ReadSafety ReadReplies.

#[local] Open Scope N_scope.
#[local] Open Scope coordination_scope.

(** The widths the types of the code give to the identifiers of a state. *)
Record cut_typed (s : State) : Prop := {
  ct_machine : machine_typed s;
  ct_subjects key subject rights : st_acl s !! (key, subject) = Some rights -> len subject = 32;
  ct_admins n : n ∈ st_admins s -> len n = 32;
  ct_members n : n ∈ cm_members (st_membership s) -> len n = 32;
  ct_applied : log_ids_typed (st_last_applied s);
  ct_key : len (ga_public_key (st_authority s)) = 32;
  ct_genesis : len (ga_genesis_hash (st_authority s)) = 32;
}.

(** What a replica says of itself: it serves the group of its state, and its codes
    are the declared ones, fatal exactly with a cause. *)
Record runtime_honest (rt : ReadRuntime) (s : State) : Prop := {
  rh_group : ru_group rt = ga_group_id (st_authority s);
  rh_local : len (ru_local rt) = 32;
  rh_leader : width_typed 32 (rme_current_leader (ru_metrics rt));
  rh_last : log_ids_typed (ru_last_log rt);
  rh_committed : log_ids_typed (ru_committed rt);
  rh_lifecycle : (1 <= ru_lifecycle_code rt <= 6)%Z;
  rh_role : (0 <= ru_local_role_code rt <= 2)%Z;
  rh_fatal : (0 <= ru_fatal_code rt <= 4)%Z;
  rh_cause : ru_lifecycle_code rt = 6%Z <-> ru_fatal_code rt <> 0%Z;
}.

(** ** Lists of identifiers *)

Lemma ids_accepted ids :
  (forall n, n ∈ ids -> len n = 32) -> StronglySorted (λ a b, bytes_ltb a b = true) ids ->
  check_sorted_unique_32 ids = Ok ().
Proof.
  intros Hw Hs. unfold check_sorted_unique_32. rewrite checks_iff, !refuse_iff. split.
  - apply not_true_iff_false. rewrite existsb_exists. intros (n & Hn%list_elem_of_In & He).
    by rewrite (Hw n Hn) in He.
  - by rewrite negb_false_iff, windows2_all_ltb_Sorted.
Qed.

Lemma set_accepted (s : gset NodeId) : (forall n, n ∈ s -> len n = 32) -> check_sorted_unique_32 (in_order s) = Ok ().
Proof. intros Hw. apply ids_accepted; [|apply in_order_sorted]. intros n. rewrite elem_of_in_order. apply Hw. Qed.

Lemma ids_of_nodes ids : map nv_node_id (map mk_NodeIdV1 ids) = ids.
Proof. rewrite map_map. apply map_id. Qed.

Lemma no_overlap voters learners : voters ## learners -> overlap voters learners = false.
Proof.
  intros Hd. apply not_true_iff_false. unfold overlap. rewrite existsb_exists.
  intros (n & Hn%list_elem_of_In & Hv%bool_decide_eq_true). by apply (Hd n).
Qed.

Lemma log_id_accepted id : log_id_typed id -> check_log_id (log_id_to_wire id) = Ok ().
Proof. intros Hw. unfold check_log_id. rewrite refuse_iff. simpl. by rewrite Hw. Qed.

Lemma log_ids_accepted o : log_ids_typed o -> check_log_id_opt (log_id_to_wire <$> o) = Ok ().
Proof. intros Hw. destruct o as [id|]; [|done]. by apply log_id_accepted, Hw. Qed.

Lemma omap_keys {V} (f : NodeId -> option V) l : sublist (map fst (omap (λ n, (λ v, (n, v)) <$> f n) l)) l.
Proof. induction l as [|n l IH]; simpl; [constructor|]. destruct (f n); simpl; by constructor. Qed.

(** ** The envelope *)

Section accepted.
Context `{Carrier : UnknownCarrier} `{Ext : Externals} {Requests : ReadCodec}.
Context (op_of_hash : Hash -> Z) (d : DurableState) (t : StoredTables) (rt : ReadRuntime).
Context (Hreach : reachable op_of_hash d t) (Hversion : ru_version rt = Some (version_of d t)).
Context (Htyped : cut_typed (ds_model d)) (Hhonest : runtime_honest rt (ds_model d)).

Let s := ds_model d.

Lemma cut_invariant : inv op_of_hash (st_last_applied s) s /\ meta_ok s (ds_membership d) /\ t = tables_of s.
Proof using Hreach. apply reachable_inv in Hreach as [[? ?] ?]. done. Qed.

Lemma envelope_accepted {T Request} `{ValidReply T Request} (request : Request) (reply : T) :
  reply_envelope reply = (STORE_PROTOCOL_VERSION, version_group (version_of d t)) ->
  valid_reply (ru_group rt) request reply = Ok () -> check_envelope (ru_group rt) request reply = Ok ().
Proof using Hhonest.
  intros He Hv. unfold check_envelope. rewrite He. rewrite !checks_iff, !refuse_iff. split_and!; [done| |done].
  rewrite bool_decide_true; [done|]. by rewrite (rh_group _ _ Hhonest).
Qed.

(** The version behind an administrator's read. *)
Lemma cut_Ok {T} actor group (k : Version -> list StoreEffect * result T RpcStatus) effects reply :
  administrator_cut rt actor group k = (effects, Ok reply) ->
  is_administrator s actor = true /\ k (version_of d t) = (effects, Ok reply).
Proof using Hreach Hversion.
  intros (v & Hv & Hadm & Hk)%administrator_cut_Ok. rewrite Hversion in Hv. injection Hv as <-.
  destruct cut_invariant as (_ & _ & Ht). rewrite Ht, served_administrator in Hadm. by split.
Qed.

(** ** Reads of a resource *)

Lemma shown_row key :
  let row := default ResourceRow_default (st_resources s !! key) in row_ok row /\ width_typed 32 (rr_holder row).
Proof using Hreach Htyped.
  destruct cut_invariant as (Hinv & _ & _). destruct (st_resources s !! key) as [row|] eqn:Hr; simpl.
  - split; [apply (rs_row _ (inv_resources _ _ _ Hinv) _ _ Hr)|]. by eapply (sty_resources _ (mt_state _ (ct_machine _ Htyped))).
  - split; [apply row_ok_default|done].
Qed.

Lemma ttl_legal held ttl :
  MIN_TTL_MS <= ttl <= MAX_TTL_MS \/ (held = false /\ ttl = 0) ->
  (if held then bounded (ttl_bounds ttl)
   else refuse_if (negb (ttl =? 0) && match ttl_bounds ttl with Ok _ => false | Err _ => true end) IE_SnapshotTtl) = Ok ().
Proof using.
  intros [[Hlo Hhi]|[-> ->]]; [|done]. unfold ttl_bounds.
  rewrite (proj2 (N.leb_le _ _) Hlo), (proj2 (N.leb_le _ _) Hhi). simpl. destruct held; [done|]. by rewrite andb_false_r.
Qed.

Lemma reading_bounds resource key :
  resource_bounds resource = Ok () -> check_snapshot_bounds (reading s resource key) = Ok ().
Proof using Hreach Htyped.
  intros Hb. destruct (shown_row key) as [[Hheld Httl He Hl Hv Ha Hlen] Hw]. unfold check_snapshot_bounds, reading.
  set (row := default _ _) in *. simpl. rewrite !checks_iff, !refuse_iff, Hb. split_and!; [done| | | |by apply ttl_legal|].
  - destruct (rr_holder row) as [h|]; [|done]. simpl. by rewrite (Hw h eq_refl).
  - rewrite <- (bool_decide_ext _ _ Hheld). by destruct (rr_held row).
  - simpl. by apply N.ltb_ge.
  - simpl. rewrite !orb_false_iff, !N.ltb_ge. done.
Qed.

Lemma read_accepted actor frame request effects reply :
  decode_read frame = Some request -> read_linearizable rt actor frame = (effects, Ok reply) ->
  check_envelope (ru_group rt) request reply = Ok ().
Proof using Hreach Hversion Htyped Hhonest.
  intros Hreq. unfold read_linearizable, decoded_request, check_version, or_fail, check_group. rewrite Hreq.
  case_match; [done|]. unfold narrow_resource. destruct (resource_bounds _) as [[]|] eqn:Hb; [|done].
  destruct (ResourceKey_new _ _) as [key|]; [|done]. case_bool_decide; [|done].
  intros (b & v & _ & Hv & _ & Hk)%read_cut_Ok. rewrite Hversion in Hv. injection Hv as <-.
  destruct (serve_rights_of _ _ _); [|done]. case_match; [done|]. injection Hk as _ Hr. destruct cut_invariant as (_ & _ & Ht).
  assert (rdw_snapshot reply = reading s (rdr_resource request) key) as Hs.
  { rewrite <- Hr. unfold reading, serve_resource, version_of. simpl. by rewrite Ht. }
  apply envelope_accepted; [by rewrite <- Hr|]. simpl. unfold valid_read_reply, check_read_snapshot.
  rewrite Hs, reading_bounds by done. simpl. repeat (rewrite bool_decide_true; [|by eauto || by rewrite (rh_group _ _ Hhonest)]). done.
Qed.

(** ** Administrators' reads *)

Lemma acl_accepted actor frame request effects reply :
  decode_acl_status frame = Some request -> inspect_acl rt actor frame = (effects, Ok reply) ->
  check_envelope (ru_group rt) request reply = Ok ().
Proof using Hreach Hversion Htyped Hhonest.
  intros Hreq. unfold inspect_acl, decoded_request, check_version, or_fail. rewrite Hreq. case_match; [done|].
  destruct (narrow_resource _) as [key|]; [|done]. intros [_ Hk]%cut_Ok. unfold serve_grants_of in Hk.
  set (subjects := in_order _) in Hk. set (grants := omap _ subjects) in Hk.
  destruct (existsb _ grants) eqn:Hknown; [done|]. injection Hk as _ <-.
  apply envelope_accepted; [done|]. simpl. unfold valid_acl_reply. simpl. rewrite bool_decide_true by done. simpl.
  destruct cut_invariant as (_ & _ & Ht).
  rewrite checks_iff. split.
  - rewrite map_map. simpl. apply ids_accepted.
    + intros n Hn. apply list_elem_of_fmap in Hn as ([n' r] & -> & Hin). apply list_elem_of_omap in Hin as (m & _ & Hm).
      apply fmap_Some in Hm as (r' & Hr' & [= -> ->]). rewrite Ht in Hr'. by eapply (ct_subjects _ Htyped).
    + eapply sublist_sorted; [apply omap_keys|apply in_order_sorted].
  - rewrite refuse_iff. rewrite <- Hknown. clear. induction grants as [|g l IH]; simpl; [done|]. by rewrite IH.
Qed.

Lemma admins_accepted actor frame request effects reply :
  decode_admin_status frame = Some request -> inspect_admins rt actor frame = (effects, Ok reply) ->
  check_envelope (ru_group rt) request reply = Ok ().
Proof using Hreach Hversion Htyped Hhonest.
  intros Hreq. unfold inspect_admins, decoded_request, check_version. rewrite Hreq. case_match; [done|].
  intros [Hadm Hk]%cut_Ok. injection Hk as _ <-. destruct cut_invariant as (Hinv & _ & Ht).
  apply envelope_accepted; [done|]. simpl. unfold valid_admin_reply. simpl. rewrite ids_of_nodes. unfold serve_administrators.
  rewrite Ht. simpl. rewrite set_accepted by apply Htyped. simpl. rewrite bool_decide_false; [done|]. intros Hnil.
  apply andb_true_iff in Hadm as [Hrev%N.ltb_lt _]. assert (st_admins s = ∅) as He.
  { apply set_eq. intros n. rewrite <- elem_of_in_order, Hnil. set_solver. }
  apply (am_founded _ (inv_admins _ _ _ Hinv)) in He. unfold s in *. lia.
Qed.

(** An intent of the store, as a status shows it. *)
Lemma intent_shown id i : st_intents s !! id = Some i -> 
  len id = 16 /\ DOMAIN_PHASE (in_status_code i) = true /\
  (negb (in_result_code i =? 0)%Z && negb (bool_decide (in_status_code i ∈ DOMAIN_PHASE_TERMINAL))) = false /\
  check_sorted_unique_32 (mp_desired_voters (in_plan i)) = Ok () /\
  check_sorted_unique_32 (mp_retained_learners (in_plan i)) = Ok () /\
  overlap (mp_desired_voters (in_plan i)) (mp_retained_learners (in_plan i)) = false /\
  check_log_id_opt (log_id_to_wire <$> in_expected_membership i) = Ok ().
Proof using Hreach Htyped.
  intros Hi. destruct (sty_intents _ (mt_state _ (ct_machine _ Htyped)) _ _ Hi) as [Hid Hit].
  destruct cut_invariant as (Hinv & _ & _). pose proof (io_plan _ _ (inv_intents _ _ _ Hinv) _ _ Hi) as Hlegal.
  unfold stored_plan_legal, sorted_unique in Hlegal. rewrite !andb_true_iff, !windows2_all_ltb_Sorted in Hlegal.
  destruct Hlegal as (((((_ & _) & Hsv) & Hsl) & _) & _).
  destruct (reachable_phased _ _ _ Hreach _ _ Hi) as [Hph _], (reachable_plans _ _ _ _ _ Hreach Hi) as [Hres Hdis].
  split_and!; [done| | |apply ids_accepted; [apply (it_plan _ Hit)|done]|apply ids_accepted; [apply (it_plan _ Hit)|done]
    |by apply no_overlap|by apply log_ids_accepted, Hit].
  - repeat (apply elem_of_cons in Hph as [-> |Hph]; [done|]). by apply not_elem_of_nil in Hph.
  - destruct (is_terminal_phase (in_status_code i)) eqn:Hterm; [|by rewrite (Hres eq_refl)].
    rewrite bool_decide_true, andb_false_r; [done|]. unfold is_terminal_phase in Hterm.
    rewrite !orb_true_iff, !Z.eqb_eq in Hterm. by destruct Hterm as [[-> | ->]| ->]; apply (bool_decide_unpack _).
Qed.

Lemma active_elem v id i : serve_active_intent v = Some (id, i) -> tb_intents (ve_tables v) !! id = Some i.
Proof using.
  unfold serve_active_intent. intros [Hin _]%find_some. apply list_elem_of_In, list_elem_of_omap in Hin as (m & _ & Hm).
  by apply fmap_Some in Hm as (j & Hj & [= -> ->]).
Qed.

Lemma membership_accepted actor frame request effects reply :
  decode_membership_status frame = Some request -> membership_status rt actor frame = (effects, Ok reply) ->
  check_envelope (ru_group rt) request reply = Ok ().
Proof using Hreach Hversion Htyped Hhonest.
  intros Hreq. unfold membership_status, decoded_request, check_version. rewrite Hreq. case_match; [done|].
  destruct (match msr_operation_id request with Some _ => _ | None => _ end) as [asked|] eqn:Hasked; [|done]. simpl.
  intros [_ Hk]%cut_Ok. destruct cut_invariant as (_ & Hmeta & Ht).
  assert (msr_operation_id request = asked) as Hask.
  { destruct (msr_operation_id request) as [b|]; [|by injection Hasked].
    destruct (store_id16 b) eqn:Hb; [|done]. injection Hasked as <-. by apply narrow_width_Ok in Hb as [-> _]. }
  assert (check_log_id_opt (log_id_to_wire <$> sm_log_id (ds_membership d)) = Ok ()) as Hobs.
  { apply log_ids_accepted. rewrite <- (mk_log_id _ _ Hmeta). apply (mt_membership _ (ct_machine _ Htyped)). }
  set (found := match asked with Some _ => _ | None => _ end) in Hk.
  assert (forall id i, found = Some (id, i) -> st_intents s !! id = Some i /\ forall a, asked = Some a -> id = a) as Hfound.
  { intros id i. unfold found. destruct asked as [a|].
    - intros (j & Hj & [= -> ->])%fmap_Some. unfold serve_intent in Hj. rewrite Ht in Hj. split; [done|]. by intros a' [= ->].
    - intros Ha%active_elem. by rewrite Ht in Ha. }
  destruct found as [[id i]|].
  - destruct (Hfound id i eq_refl) as [Hi Hid]. injection Hk as _ <-. apply envelope_accepted; [done|].
    destruct (intent_shown id i Hi) as (Hw & Hph & Hres & Hv & Hl & Hov & Hexp).
    simpl. unfold valid_membership_reply. simpl. rewrite Hexp, Hobs, !ids_of_nodes, Hv, Hl, Hw, Hph, Hres, Hov, Hask. simpl.
    destruct asked as [a|]; [|done]. by rewrite (Hid a eq_refl), bool_decide_true.
  - injection Hk as _ <-. apply envelope_accepted; [done|]. simpl. unfold valid_membership_reply. simpl. by rewrite Hobs.
Qed.

Lemma probe_accepted actor frame request effects reply :
  decode_probe_client frame = Some request -> probe_client rt actor frame = (effects, Ok reply) ->
  check_envelope (ru_group rt) request reply = Ok ().
Proof using Hreach Hversion Htyped Hhonest.
  intros Hreq. unfold probe_client, decoded_request, check_version, or_fail. rewrite Hreq. case_match; [done|].
  destruct (store_node_id _) as [target|] eqn:Htarget; [|done]. destruct (store_id16 _) as [client|] eqn:Hclient; [|done].
  set (answer := λ v, _). intros Hk. destruct cut_invariant as (_ & _ & Ht).
  assert (answer (version_of d t) = (effects, Ok reply)) as Ha.
  { revert Hk. case_bool_decide; [|by intros [_ ?]%cut_Ok]. unfold check_group. case_bool_decide; [|done].
    intros (b & v & _ & Hv & _ & Hk)%read_cut_Ok. rewrite Hversion in Hv. by injection Hv as <-. }
  unfold answer in Ha. injection Ha as _ <-. unfold store_node_id, store_id16 in Htarget, Hclient.
  apply narrow_width_Ok in Htarget as [-> _], Hclient as [-> _].
  destruct (serve_session _ _ _) as [session|] eqn:Hs; (apply envelope_accepted; [done|]); simpl; unfold valid_probe_reply; simpl;
    rewrite !bool_decide_true by done; simpl; [|done].
  unfold serve_session in Hs. rewrite Ht in Hs.
  rewrite (set_hash _ (sty_sessions _ (mt_state _ (ct_machine _ Htyped)) _ _ Hs)). simpl. by destruct (se_last_result session).
Qed.

Lemma members_typed :
  (forall n, n ∈ cm_voters (st_membership s) -> len n = 32) /\ (forall n, n ∈ cm_learners (st_membership s) -> len n = 32).
Proof using Htyped. split; intros n Hn; apply (ct_members _ Htyped), elem_of_union; auto. Qed.

Lemma floor_typed : log_ids_typed (st_audit_floor s).
Proof using Hreach Htyped.
  destruct cut_invariant as (Hinv & _ & _). intros f Hf.
  destruct (au_floor _ _ (au_shape _ _ (inv_audit _ _ _ Hinv)) f Hf) as [(r & Hr & Hl) _].
  unfold log_id_typed. rewrite <- Hl. by eapply aut_leader, (sty_audit _ (mt_state _ (ct_machine _ Htyped))).
Qed.

Lemma group_accepted actor frame request effects reply :
  decode_group_status frame = Some request -> group_status rt actor frame = (effects, Ok reply) ->
  check_envelope (ru_group rt) request reply = Ok ().
Proof using Hreach Hversion Htyped Hhonest.
  intros Hreq. unfold group_status, decoded_request, check_version. rewrite Hreq. case_match; [done|].
  intros [_ Hk]%cut_Ok. destruct cut_invariant as (_ & Hmeta & Ht), members_typed as [Hv Hl].
  injection Hk as _ <-. apply envelope_accepted; [done|]. simpl. unfold valid_group_reply. rewrite checks_iff. split.
  - unfold valid_group_facts. simpl. rewrite !ids_of_nodes, learners_of. rewrite (mk_projection _ _ Hmeta) in Hv, Hl.
    rewrite !checks_iff, !refuse_iff. split_and!.
    + by rewrite (rh_local _ _ Hhonest).
    + destruct (rme_current_leader (ru_metrics rt)) as [l|] eqn:He; [|done]. simpl. by rewrite (rh_leader _ _ Hhonest l He).
    + by apply set_accepted.
    + by apply set_accepted.
    + apply no_overlap. intros n. rewrite !elem_of_in_order. simpl. unfold rm_voter_ids. intros Hn [Hno _]%elem_of_filter.
      apply negb_true_iff, not_true_iff_false in Hno. apply Hno, existsb_exists. apply elem_of_union_list in Hn as (c & Hc & Hn).
      exists c. rewrite <- list_elem_of_In. split; [done|]. by apply bool_decide_eq_true.
    + rewrite !log_ids_accepted; [done| | | | |].
      * apply floor_typed.
      * rewrite <- (mk_log_id _ _ Hmeta). apply (mt_membership _ (ct_machine _ Htyped)).
      * apply Htyped.
      * apply (rh_committed _ _ Hhonest).
      * apply (rh_last _ _ Hhonest).
    + by rewrite (ct_genesis _ Htyped).
    + by rewrite (ct_key _ Htyped).
    + apply bool_decide_eq_false. intros He. pose proof (mk_domain _ _ Hmeta) as Hdom. unfold check_authority_domain in Hdom.
      unfold s in Hdom. by rewrite He in Hdom.
    + destruct (serve_active_intent (version_of d t)) as [[id i]|] eqn:Ha; [|done]. simpl. apply active_elem in Ha.
      rewrite Ht in Ha. by rewrite (proj1 (sty_intents _ (mt_state _ (ct_machine _ Htyped)) _ _ Ha)).
  - unfold valid_group_codes, DOMAIN_LIFECYCLE, DOMAIN_ROLE, DOMAIN_FATAL, in_range. simpl.
    pose proof (rh_lifecycle _ _ Hhonest). pose proof (rh_role _ _ Hhonest). pose proof (rh_fatal _ _ Hhonest).
    rewrite !checks_iff, !refuse_iff, !negb_false_iff, !andb_true_iff, !Z.leb_le, bool_decide_eq_true. split_and!; try lia.
    + apply eqb_true_iff. pose proof (rh_cause _ _ Hhonest). unfold DOMAIN_LIFECYCLE_FATAL.
      destruct (Z.eqb_spec (ru_lifecycle_code rt) 6), (Z.eqb_spec (ru_fatal_code rt) 0); simpl; tauto.
    + pose proof (mk_profile _ _ Hmeta) as Hp. exact Hp.
Qed.

(** ** The audit stream *)

Lemma record_accepted e :
  e ∈ btree_iter (st_audit s) -> check_envelope (ru_group rt) () (audit_record (version_of d t) e) = Ok ().
Proof using Hreach Htyped Hhonest.
  intros He%btree_iter_elem. destruct e as [[term index] row]. simpl in He. destruct cut_invariant as (Hinv & _ & _).
  destruct (au_row _ _ (au_shape _ _ (inv_audit _ _ _ Hinv)) _ _ He) as [[Hlegal Hkey] _].
  destruct (sty_audit _ (mt_state _ (ct_machine _ Htyped)) _ _ He) as [Hleader Hactor].
  apply envelope_accepted; [done|]. simpl. unfold validate_audit_record. simpl. unfold check_log_id. simpl. rewrite Hleader. simpl.
  unfold audit_row_legal in Hlegal. destruct (audit_results_for _) as [allowed|]; [|done].
  rewrite !andb_true_iff in Hlegal. destruct Hlegal as (((_ & Hin) & _) & _). rewrite Hin. simpl.
  assert (from_option (λ actor, negb (len actor =? 32)) false (ar_actor row) = false) as ->.
  { destruct (ar_actor row) as [a|]; [|done]. simpl. by rewrite (Hactor a eq_refl). }
  simpl. destruct (ar_resource row) as [k|]; simpl; [|done]. fold (resource_key_to_wire k).
  by rewrite (valid_key_bounds k (Hkey k eq_refl)).
Qed.

Lemma records_accepted limit taken floor l :
  ascending l -> (forall e, e ∈ l -> e ∈ btree_iter (st_audit s) /\ above floor e) ->
  taken + N.of_nat (length l) <= limit ->
  accept_records (ru_group rt) limit taken floor (map (audit_record (version_of d t)) l) =
  Ok (map (audit_record (version_of d t)) l).
Proof using Hreach Htyped Hhonest.
  revert taken floor. induction l as [|e l IH]; intros taken floor Hasc Hall Hlen; [done|]. cbn [map accept_records].
  destruct (Hall e) as [He Hf]; [by left|]. simpl in Hlen. rewrite (proj2 (N.leb_gt _ _)) by lia. rewrite record_accepted by done. simpl.
  assert (lv_index (arw_log_id (audit_record (version_of d t) e)) = e.1.2) as Hidx by (by destruct e as [[? ?] ?]).
  rewrite Hidx. replace (from_option _ _ floor) with false.
  2:{ destruct floor as [f|]; [|done]. simpl in *. symmetry. by apply N.leb_gt. }
  apply StronglySorted_inv in Hasc as [Hasc Hlt]. rewrite List.Forall_forall in Hlt. rewrite IH; [done|done| |lia].
  intros e' He'. split; [apply Hall; by right|]. simpl. by apply Hlt, list_elem_of_In.
Qed.

Lemma stream_accepted actor frame request effects records :
  decode_audit_stream frame = Some request -> audit_stream rt actor frame = (effects, Ok records) ->
  accept_stream (ru_group rt) (atr_after_log_id request) (atr_limit request) records = Ok records.
Proof using Hreach Hversion Htyped Hhonest.
  intros Hreq. unfold audit_stream, decoded_request, check_version, or_fail. rewrite Hreq. case_match; [done|].
  unfold accept_stream. destruct (audit_limit_bounds _); [|done].
  destruct (match atr_after_log_id request with Some _ => _ | None => _ end) as [after|] eqn:Hafter; [|done].
  intros [_ Hk]%cut_Ok. unfold audit_answer in Hk. destruct (match after with Some _ => _ | None => _ end); [done|].
  injection Hk as _ <-. rewrite (audit_page op_of_hash) by done.
  assert (lv_index <$> atr_after_log_id request = li_index <$> after) as ->.
  { destruct (atr_after_log_id request) as [id|]; [|by injection Hafter as <-].
    unfold log_id_from_wire in Hafter. destruct (wire_node_id _); [|done]. by injection Hafter as <-. }
  destruct cut_invariant as (Hinv & _ & _).
  pose proof (audit_ascending _ _ (au_shape _ _ (inv_audit _ _ _ Hinv))) as Ha.
  assert (sublist (take (N.to_nat (atr_limit request)) (filter (above (li_index <$> after)) (btree_iter (st_audit s))))
            (filter (above (li_index <$> after)) (btree_iter (st_audit s)))) as Hsub by apply sublist_take.
  apply records_accepted.
  - eapply ascending_sublist; [|exact Ha]. etrans; [exact Hsub|apply sublist_filter].
  - intros e He. eapply elem_of_sublist in He; [|exact Hsub]. apply list_elem_of_filter in He. tauto.
  - rewrite length_take. lia.
Qed.

(** C18: The reads of a replica over a reached state pass the client's verdicts:
    whatever is asked and whoever asks, a typed reply names the group, answers the
    request that was made, and satisfies every rule the client holds such a reply
    to, and so does every record of an audit stream with the stream's order and
    limit. A caller is never told that a healthy group misbehaves. *)
Theorem honest_reads_accepted actor frame effects :
  (forall request reply, decode_read frame = Some request ->
     read_linearizable rt actor frame = (effects, Ok reply) -> check_envelope (ru_group rt) request reply = Ok ()) /\
  (forall request reply, decode_acl_status frame = Some request ->
     inspect_acl rt actor frame = (effects, Ok reply) -> check_envelope (ru_group rt) request reply = Ok ()) /\
  (forall request reply, decode_admin_status frame = Some request ->
     inspect_admins rt actor frame = (effects, Ok reply) -> check_envelope (ru_group rt) request reply = Ok ()) /\
  (forall request reply, decode_membership_status frame = Some request ->
     membership_status rt actor frame = (effects, Ok reply) -> check_envelope (ru_group rt) request reply = Ok ()) /\
  (forall request reply, decode_probe_client frame = Some request ->
     probe_client rt actor frame = (effects, Ok reply) -> check_envelope (ru_group rt) request reply = Ok ()) /\
  (forall request reply, decode_group_status frame = Some request ->
     group_status rt actor frame = (effects, Ok reply) -> check_envelope (ru_group rt) request reply = Ok ()) /\
  (forall request records, decode_audit_stream frame = Some request ->
     audit_stream rt actor frame = (effects, Ok records) ->
     accept_stream (ru_group rt) (atr_after_log_id request) (atr_limit request) records = Ok records).
Proof using Hreach Hversion Htyped Hhonest.
  split_and!; eauto using read_accepted, acl_accepted, admins_accepted, membership_accepted, probe_accepted,
    group_accepted, stream_accepted.
Qed.
End accepted.

(** ** A founded group's reads *)

#[local] Instance honest_externals : Externals := founding_externals.
#[local] Instance honest_carrier : UnknownCarrier := unit.
#[local] Instance honest_requests : ReadCodec := {
  decode_read _ := None;
  decode_acl_status _ := None;
  decode_admin_status _ := Some (mk_AdminStatusRequestV1 1 (replicate 32 Byte.x05));
  decode_membership_status _ := None;
  decode_probe_client _ := None;
  decode_group_status _ := Some (mk_GroupStatusRequestV1 1 (replicate 32 Byte.x05));
  decode_audit_stream _ := Some (mk_AuditStreamRequestV1 1 (replicate 32 Byte.x05) None 5);
}.

Definition honest_runtime (d : DurableState) (t : StoredTables) : ReadRuntime :=
  {| ru_group := replicate 32 Byte.x05; ru_local := sample_voter;
     ru_metrics := mk_RaftMetrics SV_Leader (Some sample_voter) 1 (Some 10);
     ru_leadership := LD_Confirmed (Some (at_index 2)); ru_admin_view := admin_view_of d;
     ru_version := Some (version_of d t); ru_lifecycle_code := 3; ru_local_role_code := 2;
     ru_quorum_available := Some true; ru_fatal_code := 0; ru_last_log := None; ru_committed := None |}.

(** The widths of a state that holds no more than a membership, administrators and
    audit rows. *)
Definition widths_ok (s : State) : bool :=
  bool_decide (st_resources s = ∅) && bool_decide (st_acl s = ∅) && bool_decide (st_sessions s = ∅)
  && bool_decide (st_intents s = ∅) && bool_decide (st_routes s = ∅)
  && forallb (λ kr, (len (ar_leader_node_id kr.2) =? 32) && from_option (λ a, len a =? 32) true (ar_actor kr.2))
       (map_to_list (st_audit s))
  && forallb (λ n, len n =? 32) (elements (st_admins s ∪ cm_members (st_membership s)))
  && from_option (λ id, len (li_leader_node_id id) =? 32) true (st_membership_log_id s)
  && from_option (λ id, len (li_leader_node_id id) =? 32) true (st_last_applied s)
  && (len (ga_public_key (st_authority s)) =? 32) && (len (ga_genesis_hash (st_authority s)) =? 32).

Lemma widths_typed s : widths_ok s = true -> cut_typed s.
Proof.
  unfold widths_ok. rewrite !andb_true_iff, !bool_decide_eq_true, !N.eqb_eq, !forallb_forall.
  intros ((((((((((Hr & Ha) & Hs) & Hi) & Hro) & Hau) & Hn) & Hm) & Hl) & Hk) & Hg).
  assert (forall n, n ∈ st_admins s ∪ cm_members (st_membership s) -> len n = 32) as Hn'.
  { intros n Hin. by apply N.eqb_eq, Hn, list_elem_of_In, elem_of_elements. }
  split; try done.
  - split; [split|].
    + intros k r. by rewrite Hr, lookup_empty.
    + intros k r. by rewrite Hs, lookup_empty.
    + intros k r. by rewrite Hi, lookup_empty.
    + intros k r. by rewrite Hro, lookup_empty.
    + intros k r Hk'. specialize (Hau (k, r)). rewrite <- list_elem_of_In, elem_of_map_to_list in Hau.
      specialize (Hau Hk'). apply andb_true_iff in Hau as [H1%N.eqb_eq H2]. split; [done|]. intros a Hact.
      simpl in H2. rewrite Hact in H2. by apply N.eqb_eq.
    + intros id Hid. rewrite Hid in Hm. by apply N.eqb_eq.
  - intros key n r. by rewrite Ha, lookup_empty.
  - intros n Hin. apply Hn'. set_solver.
  - intros n Hin. apply Hn'. set_solver.
  - intros id Hid. rewrite Hid in Hl. by apply N.eqb_eq.
Qed.

Lemma honest_reads_accepted_witness :
  match run_batch 2 with
  | Ok (_, d, t) =>
      exists status records,
        group_status (honest_runtime d t) sample_admin [] = ([], Ok status) /\
        audit_stream (honest_runtime d t) sample_admin [] = ([], Ok records) /\ length records = 1%nat /\
        check_envelope (replicate 32 Byte.x05) (mk_GroupStatusRequestV1 1 (replicate 32 Byte.x05)) status = Ok () /\
        accept_stream (replicate 32 Byte.x05) None 5 records = Ok records
  | Err _ => False
  end.
Proof.
  assert (match run_batch 2 with
          | Ok (_, d, t) =>
              match group_status (honest_runtime d t) sample_admin [], audit_stream (honest_runtime d t) sample_admin [] with
              | ([], Ok _), ([], Ok records) =>
                  widths_ok (ds_model d) && (length records =? 1)%nat
                  && bool_decide (ga_group_id (st_authority (ds_model d)) = replicate 32 Byte.x05)
              | _, _ => false
              end
          | Err _ => false
          end = true) as Hrun by (vm_compute; reflexivity).
  destruct (run_batch 2) as [[[r d] t]|] eqn:E; [|discriminate Hrun].
  destruct (group_status (honest_runtime d t) sample_admin []) as [[|? ?] [status|?]] eqn:Hg; [|discriminate Hrun..].
  destruct (audit_stream (honest_runtime d t) sample_admin []) as [[|? ?] [records|?]] eqn:Ha; [|discriminate Hrun..].
  rewrite !andb_true_iff, bool_decide_eq_true, Nat.eqb_eq in Hrun. destruct Hrun as [[Hw Hlen] Hgroup].
  destruct (honest_reads_accepted run_op d t (honest_runtime d t)
    (reach_batch _ _ _ _ _ _ _ run_bound (log_wf_take _ _ _ 2 _ run_wf) E) eq_refl (widths_typed _ Hw)) with
    (actor := sample_admin) (frame := @nil byte) (effects := @nil StoreEffect) as (_ & _ & _ & _ & _ & Hgs & Hst).
  - clear -Hgroup. split; simpl; try (intros b; discriminate); try lia; [by symmetry|reflexivity|by intros b [= <-]].
  - exists status, records. split; [reflexivity|]. split; [reflexivity|]. split; [exact Hlen|].
    split; [exact (Hgs _ _ eq_refl Hg)|exact (Hst _ _ eq_refl Ha)].
Defined.
