(* ===== verification/Topology.v ===== *)
(** * The shared topology view

    Models [core/src/topology/records.rs] and [core/src/topology/cluster.rs]: the
    keys and records of the shared topology namespace, a reader's validation of
    its entries, and the derivation of clusters from them: corroborated edges,
    union-find over the vertices, bridges and witnesses, and the separation
    verdict. The snapshot of [aster/src/topology.rs] is the view with its queries.
    The codec of the records and the [hex] crate are parameters. A panic (an index
    out of range, an [expect]) is [None]. *)

From S2P Require Import Prelude Ids Contract Externals Ticket.

#[local] Open Scope N_scope.

(** ** Machine integers of the records *)

Definition i64_wrap (z : Z) : Z := ((z + 2 ^ 63) mod 2 ^ 64 - 2 ^ 63)%Z.
Definition i64_sub (a b : Z) : Z := i64_wrap (a - b).
(** [n as i64], for an unsigned [n] of 64 bits or more. *)
Definition as_i64 (n : N) : Z := i64_wrap (Z.of_N n).

(** ** Records ([records.rs]) *)

Definition TOPO_KEY_PREFIX : bytes := String.list_byte_of_string "topo/v1/".

(** [struct NetworkPosition]. *)
Record NetworkPosition : Type := mk_NetworkPosition {
  np_node_id : bytes;
  np_observed_public : bytes;
  np_asn : Z;
  np_home_relay : bytes;
  np_prefix_hashes : bytes;
  np_updated_unix_ms : Z;
}.

(** [struct RttEdge]. *)
Record RttEdge : Type := mk_RttEdge {
  re_rtt_us : Z;
  re_samples : Z;
  re_held_since_unix_ms : Z;
  re_measured_unix_ms : Z;
}.

(** The Fory codec of the two records, and the [hex] crate. *)
Class TopoCodec : Type := {
  fory_decode_position : bytes -> option NetworkPosition;
  fory_decode_rtt_edge : bytes -> option RttEdge;
  hex_encode : bytes -> bytes;
  hex_decode : bytes -> option bytes;
}.

Definition is_node_hex_byte (b : byte) : bool :=
  let c := Strings.Byte.to_N b in ((48 <=? c) && (c <=? 57)) || ((97 <=? c) && (c <=? 102)).

(** [is_node_hex]. *)
Definition is_node_hex (s : bytes) : bool := (len s =? 64) && forallb is_node_hex_byte s.

(** Documented behaviour of the [hex] crate: a string of hex digits of even
    length decodes. *)
Class TopoCodecLaws {Codec : TopoCodec} : Prop := {
  hex_decode_digits s : is_node_hex s = true -> is_Some (hex_decode s);
}.

(** [enum TopoKey]. *)
Inductive TopoKey : Type :=
| TK_Position (node : bytes)
| TK_Rtt (node peer : bytes)
| TK_Lan (node peer : bytes)
| TK_Locality (node : bytes).

(** [TopoKey::node]. *)
Definition tk_node (k : TopoKey) : bytes :=
  match k with
  | TK_Position node | TK_Rtt node _ | TK_Lan node _ | TK_Locality node => node
  end.

Definition SLASH : byte := Byte.x2f.

(** [position_key], [locality_key], [rtt_key], [lan_key]. *)
Definition position_key (node_hex : bytes) : bytes :=
  TOPO_KEY_PREFIX ++ node_hex ++ String.list_byte_of_string "/position".
Definition locality_key (node_hex : bytes) : bytes :=
  TOPO_KEY_PREFIX ++ node_hex ++ String.list_byte_of_string "/locality".
Definition rtt_key (node_hex peer_hex : bytes) : bytes :=
  TOPO_KEY_PREFIX ++ node_hex ++ String.list_byte_of_string "/rtt/" ++ peer_hex.
Definition lan_key (node_hex peer_hex : bytes) : bytes :=
  TOPO_KEY_PREFIX ++ node_hex ++ String.list_byte_of_string "/lan/" ++ peer_hex.

(** [str::split('/')], never empty: the first part and the others. *)
Fixpoint split_slash (s : bytes) : bytes * list bytes :=
  match s with
  | [] => ([], [])
  | b :: s =>
      let '(part, parts) := split_slash s in
      if bool_decide (b = SLASH) then ([], part :: parts) else (b :: part, parts)
  end.

(** [parse_key]. *)
Definition parse_key (key : bytes) : option TopoKey :=
  if negb (utf8_valid key) then None
  else
    rest ← strip_prefix TOPO_KEY_PREFIX key;
    let '(node, parts) := split_slash rest in
    if negb (is_node_hex node) then None
    else match parts with
    | [] => None
    | kind :: parts =>
        '(result, parts) ←
          (if bool_decide (kind = String.list_byte_of_string "position")
           then Some (TK_Position node, parts)
           else if bool_decide (kind = String.list_byte_of_string "locality")
           then Some (TK_Locality node, parts)
           else if bool_decide (kind = String.list_byte_of_string "rtt")
                   || bool_decide (kind = String.list_byte_of_string "lan")
           then match parts with
                | [] => None
                | peer :: parts =>
                    if negb (is_node_hex peer) then None
                    else Some ((if bool_decide (kind = String.list_byte_of_string "rtt")
                                then TK_Rtt node peer else TK_Lan node peer), parts)
                end
           else None);
        match parts with
        | [] => Some result
        | _ :: _ => None
        end
    end.

(** ** Validated records ([cluster.rs]) *)

(** [struct TopoRecords]. *)
Record TopoRecords : Type := mk_TopoRecords {
  tr_positions : gmap bytes NetworkPosition;
  tr_edges : gmap (bytes * bytes) RttEdge;
  tr_dropped : N;
}.

(** [TopoRecords::default]. *)
Definition no_records : TopoRecords := mk_TopoRecords ∅ ∅ 0.

Definition drop_entry (r : TopoRecords) : TopoRecords :=
  mk_TopoRecords (tr_positions r) (tr_edges r) (u64_add (tr_dropped r) 1).

Section records.
Context {Codec : TopoCodec}.

(** [decode_position], [decode_rtt_edge]. *)
Definition decode_position (b : bytes) : option NetworkPosition :=
  p ← fory_decode_position b;
  if negb (len (np_node_id p) =? 32) then None else Some p.
Definition decode_rtt_edge (b : bytes) : option RttEdge := fory_decode_rtt_edge b.

(** [TopoRecords::insert_entry], with [max_skew] in milliseconds. *)
Definition insert_entry (r : TopoRecords) (author_hex key value : bytes) (now_ms max_skew : N)
    : TopoRecords :=
  match parse_key key with
  | None => r
  | Some topo_key =>
      if negb (bool_decide (tk_node topo_key = author_hex)) then drop_entry r
      else
        let horizon := as_i64 (u64_saturating_add now_ms (max_skew mod U64_MODULUS)) in
        match topo_key with
        | TK_Position node =>
            match decode_position value with
            | Some p =>
                if negb (bool_decide (hex_encode (np_node_id p) = node)) || (horizon <? np_updated_unix_ms p)%Z
                then drop_entry r
                else mk_TopoRecords (<[node := p]> (tr_positions r)) (tr_edges r) (tr_dropped r)
            | None => drop_entry r
            end
        | TK_Rtt node peer =>
            match decode_rtt_edge value with
            | Some e =>
                if (horizon <? re_measured_unix_ms e)%Z || (horizon <? re_held_since_unix_ms e)%Z
                then drop_entry r
                else mk_TopoRecords (tr_positions r) (<[(node, peer) := e]> (tr_edges r)) (tr_dropped r)
            | None => drop_entry r
            end
        | TK_Lan _ _ | TK_Locality _ => r
        end
  end.
End records.

(** ** Clusters *)

Definition CLUSTER_RTT_EXIT_US : Z := 18000.

(** [struct TopoConfig], its durations in milliseconds. *)
Record TopoConfig : Type := mk_TopoConfig {
  tc_min_hold : N;
  tc_liveness_ttl : N;
  tc_edge_ttl : N;
  tc_max_skew : N;
  tc_separation_coverage : N;
  tc_witness_r : N;
}.

(** [TopoConfig::default]. *)
Definition default_config : TopoConfig := mk_TopoConfig 120000 300000 900000 30000 2 3.

(** [enum CoreSeparationVerdict]. *)
Inductive CoreSeparationVerdict : Type := V_Unknown | V_Connected | V_Separated.

#[export] Instance CoreSeparationVerdict_eq_dec : EqDecision CoreSeparationVerdict.
Proof. solve_decision. Defined.

(** [struct CoreClusterView]. *)
Record CoreClusterView : Type := mk_CoreClusterView {
  cv_members : list bytes;
  cv_bridge : bytes;
  cv_witnesses : list bytes;
}.

(** [struct SharedView]. *)
Record SharedView : Type := mk_SharedView {
  sv_clusters : list CoreClusterView;
  sv_dropped : N;
  sv_cluster_of : gmap bytes nat;
  sv_far_pairs : gset (bytes * bytes);
  sv_separation_coverage : N;
}.

(** [ordered]. *)
Definition ordered (a b : bytes) : bytes * bytes := if bytes_leb a b then (a, b) else (b, a).

(** The index of members that [derive] and [from_parts] build, from cluster [idx]
    on. *)
Fixpoint member_index (idx : nat) (clusters : list CoreClusterView) (index : gmap bytes nat) : gmap bytes nat :=
  match clusters with
  | [] => index
  | c :: clusters =>
      member_index (S idx) clusters (foldl (λ index m, <[m := idx]> index) index (cv_members c))
  end.

(** [SharedView::from_parts]. *)
Definition from_parts (clusters : list CoreClusterView) (far_pairs : list (bytes * bytes))
    (separation_coverage : N) : SharedView :=
  {| sv_clusters := clusters;
     sv_dropped := 0;
     sv_cluster_of := member_index 0 clusters ∅;
     sv_far_pairs := list_to_set (map (λ p, ordered p.1 p.2) far_pairs);
     sv_separation_coverage := separation_coverage |}.

(** The two loops of [separated] over the pairs between two clusters, with the
    early return. *)
Fixpoint enough_far (far_pairs : gset (bytes * bytes)) (need have : N) (pairs : list (bytes * bytes)) : bool :=
  match pairs with
  | [] => false
  | (x, y) :: pairs =>
      if bool_decide (ordered x y ∈ far_pairs)
      then if need <=? have + 1 then true else enough_far far_pairs need (have + 1) pairs
      else enough_far far_pairs need have pairs
  end.

(** [for x in xs { for y in ys { .. } }]. *)
Definition pairs_between (xs ys : list bytes) : list (bytes * bytes) :=
  concat (map (λ x, map (λ y, (x, y)) ys) xs).

(** [SharedView::separated]; [None] when the index names no cluster. *)
Definition separated (view : SharedView) (a b : bytes) : option CoreSeparationVerdict :=
  match sv_cluster_of view !! a, sv_cluster_of view !! b with
  | Some ca, Some cb =>
      if bool_decide (ca = cb) then Some V_Connected
      else
        x ← sv_clusters view !! ca;
        y ← sv_clusters view !! cb;
        let '(xs, ys) := (cv_members x, cv_members y) in
        let need := N.min (sv_separation_coverage view) (len xs * len ys) in
        Some (if enough_far (sv_far_pairs view) need 0 (pairs_between xs ys) then V_Separated else V_Unknown)
  | _, _ => Some V_Unknown
  end.

(** [TopologySnapshot::cluster_index_of_hex], [contains_hex]. *)
Definition cluster_index_of_hex (view : SharedView) (node_hex : bytes) : option nat :=
  fst <$> list_find (λ c, existsb (λ m, bool_decide (m = node_hex)) (cv_members c) = true) (sv_clusters view).
Definition contains_hex (view : SharedView) (node_hex : bytes) : bool :=
  bool_decide (is_Some (cluster_index_of_hex view node_hex)).

(** *** Union-find over the vertex indices *)

(** [find], with path halving; the fuel is the number of vertices. *)
Fixpoint find (fuel : nat) (parent : list nat) (i : nat) : option (list nat * nat) :=
  match fuel with
  | O => None
  | S fuel =>
      p ← parent !! i;
      if (p =? i)%nat then Some (parent, i)
      else
        g ← parent !! p;
        find fuel (<[i := g]> parent) g
  end.

Section derive.
Context `{Ext : Externals} {Codec : TopoCodec}.

(** [bridge_score]. *)
Definition bridge_score (namespace_id node_hex : bytes) : option bytes :=
  node_id ← hex_decode node_hex;
  Some (blake3 (namespace_id ++ String.list_byte_of_string "aster.topo.bridge.v1" ++ node_id)).

(** The ranking: score descending, then node ascending. *)
Definition rank_leb (a b : bytes * bytes) : bool :=
  bytes_ltb b.2 a.2 || (bool_decide (b.2 = a.2) && bytes_leb a.1 b.1).
Definition rank_le (a b : bytes * bytes) : Prop := rank_leb a b = true.
#[export] Instance rank_le_dec : RelDecision rank_le := λ a b, bool_eq_dec _ _.

(** The view of one component. *)
Definition cluster_view (namespace_id : bytes) (witness_r : N) (members : list bytes) : option CoreClusterView :=
  let members := merge_sort node_le members in
  ranked ← mapM (λ m, score ← bridge_score namespace_id m; Some (m, score)) members;
  let ranked := merge_sort rank_le ranked in
  bridge ← head ranked;
  Some {| cv_members := members;
          cv_bridge := bridge.1;
          cv_witnesses := map fst (take (N.to_nat (N.min witness_r (len ranked))) ranked) |}.

Section inputs.
Context (records : TopoRecords) (admitted : bytes -> bool) (now_ms : N) (cfg : TopoConfig).

Definition now : Z := as_i64 now_ms.

Definition position_live (p : NetworkPosition) : bool :=
  (i64_sub now (np_updated_unix_ms p) <=? as_i64 (tc_liveness_ttl cfg))%Z.

(** The keys of the [vertices] map, in order. *)
Definition vertices : list bytes :=
  in_order (dom (filter (λ np, position_live np.2 && admitted np.1 = true) (tr_positions records))).

Definition is_vertex (n : bytes) : bool := bool_decide (n ∈ vertices).

Definition half_fresh (e : RttEdge) : bool :=
  (i64_sub now (re_measured_unix_ms e) <=? as_i64 (tc_edge_ttl cfg))%Z.

Definition half_near (e : RttEdge) : bool :=
  half_fresh e
  && negb (re_held_since_unix_ms e =? 0)%Z
  && (as_i64 (tc_min_hold cfg) <=? i64_sub now (re_held_since_unix_ms e))%Z
  && (re_rtt_us e <=? CLUSTER_RTT_EXIT_US)%Z.

Definition half_far (e : RttEdge) : bool := half_fresh e && (CLUSTER_RTT_EXIT_US <=? re_rtt_us e)%Z.

(** The body of the loop over the edges: a near pair, a far pair, or neither. *)
Definition edge_pair (edge : (bytes * bytes) * RttEdge) : option bool :=
  let '((a, b), e_ab) := edge in
  if bytes_leb b a then None
  else if negb (is_vertex a) || negb (is_vertex b) then None
  else match tr_edges records !! (b, a) with
  | None => None
  | Some e_ba =>
      if half_near e_ab && half_near e_ba then Some true
      else if half_far e_ab && half_far e_ba then Some false
      else None
  end.

Definition edge_step (pairs : list (bytes * bytes) * gset (bytes * bytes)) (edge : (bytes * bytes) * RttEdge)
    : list (bytes * bytes) * gset (bytes * bytes) :=
  let '(near_pairs, far_pairs) := pairs in
  match edge_pair edge with
  | Some true => (near_pairs ++ [edge.1], far_pairs)
  | Some false => (near_pairs, {[edge.1]} ∪ far_pairs)
  | None => (near_pairs, far_pairs)
  end.

(** The [index] map: a vertex's position. *)
Definition vertex_index : gmap bytes nat := list_to_map (imap (λ i n, (n, i)) vertices).

Definition union_step (parent : list nat) (near : bytes * bytes) : option (list nat) :=
  i ← vertex_index !! near.1;
  '(parent, ra) ← find (length vertices) parent i;
  j ← vertex_index !! near.2;
  '(parent, rb) ← find (length vertices) parent j;
  Some (if (ra =? rb)%nat then parent else <[Nat.max ra rb := Nat.min ra rb]> parent).

Fixpoint unions (parent : list nat) (near_pairs : list (bytes * bytes)) : option (list nat) :=
  match near_pairs with
  | [] => Some parent
  | near :: near_pairs => parent ← union_step parent near; unions parent near_pairs
  end.

(** [components.entry(root).or_default().push(node)] for every vertex. *)
Fixpoint collect (parent : list nat) (components : gmap nat (list bytes)) (nodes : list bytes)
    : option (gmap nat (list bytes)) :=
  match nodes with
  | [] => Some components
  | node :: nodes =>
      i ← vertex_index !! node;
      '(parent, root) ← find (length vertices) parent i;
      collect parent (<[root := default [] (components !! root) ++ [node]]> components) nodes
  end.
End inputs.

(** A [BTreeMap<usize, _>] in key order. *)
Definition root_le (a b : nat * list bytes) : Prop := (a.1 <= b.1)%nat.
#[export] Instance root_le_dec : RelDecision root_le := λ a b, decide (a.1 <= b.1)%nat.
Definition by_root (components : gmap nat (list bytes)) : list (nat * list bytes) :=
  merge_sort root_le (map_to_list components).

(** [derive], visiting the edges in the order [edges] of the hash map. *)
Definition derive (edges : list ((bytes * bytes) * RttEdge)) (records : TopoRecords)
    (admitted : bytes -> bool) (namespace_id : bytes) (now_ms : N) (cfg : TopoConfig) : option SharedView :=
  let nodes := vertices records admitted now_ms cfg in
  let '(near_pairs, far_pairs) := foldl (edge_step records admitted now_ms cfg) ([], ∅) edges in
  parent ← unions records admitted now_ms cfg (seq 0 (length nodes)) near_pairs;
  components ← collect records admitted now_ms cfg parent ∅ nodes;
  clusters ← mapM (cluster_view namespace_id (tc_witness_r cfg)) (map snd (by_root components));
  Some {| sv_clusters := clusters;
          sv_dropped := tr_dropped records;
          sv_cluster_of := member_index 0 clusters ∅;
          sv_far_pairs := far_pairs;
          sv_separation_coverage := tc_separation_coverage cfg |}.
End derive.
