(* ===== verification/Clusters.v ===== *)
(** * What the shared view shows

    The union-find of [derive] against its specification: the derivation never
    panics, its clusters are the connected components of the corroborated near
    edges, and the view does not depend on the order in which the hash map of
    edges is visited, so that every reader of the same records agrees. A node's
    records are its own entries; the separation verdict is the coverage rule. *)

From S2P Require Import Prelude Ids Contract Externals Ticket Topology.

#[local] Open Scope nat_scope.

(** ** Union-find

    A forest is described by the label of each index, the root it leads to. *)

Definition forest (n : nat) (lab : nat -> nat) (parent : list nat) : Prop :=
  length parent = n /\
  forall i j, parent !! i = Some j -> j <= i /\ lab j = lab i /\ (j = i -> lab i = i).

Lemma forest_lookup n lab parent i : forest n lab parent -> i < n -> exists j, parent !! i = Some j.
Proof. intros [<- _] Hi. by apply lookup_lt_is_Some. Qed.

Lemma forest_halved n lab parent i j k :
  forest n lab parent -> parent !! i = Some j -> j <> i -> parent !! j = Some k ->
  forest n lab (<[i := k]> parent).
Proof.
  intros [Hn Hf] Hi Hne Hj. split; [by rewrite length_insert|]. intros a b.
  destruct (Hf _ _ Hi) as (? & Hij & _), (Hf _ _ Hj) as (? & Hjk & _).
  rewrite list_lookup_insert_Some. intros [(-> & -> & _)|[_ Hab]]; [|by apply Hf].
  split_and!; [lia|congruence|lia].
Qed.

(** The label is a root, at or below every index it labels. *)
Definition rooted (lab : nat -> nat) (i : nat) : Prop := lab i <= i /\ lab (lab i) = lab i.

Lemma find_spec n lab fuel parent i :
  forest n lab parent -> i < n -> i < fuel ->
  exists parent', find fuel parent i = Some (parent', lab i) /\ forest n lab parent' /\ rooted lab i.
Proof.
  revert parent i. induction fuel as [|fuel IH]; intros parent i Hf Hi Hfuel; [lia|]. simpl.
  destruct (forest_lookup _ _ _ _ Hf Hi) as [j Hj]. rewrite Hj. simpl.
  destruct (proj2 Hf _ _ Hj) as (Hle & Hlab & Hroot). destruct (Nat.eqb_spec j i) as [-> |Hne].
  { exists parent. unfold rooted. rewrite !Hroot by done. split_and!; [done..|lia|done]. }
  destruct (forest_lookup _ _ _ j Hf) as [k Hk]; [lia|]. rewrite Hk. simpl.
  destruct (proj2 Hf _ _ Hk) as (? & Hk' & _).
  destruct (IH (<[i := k]> parent) k) as (parent' & -> & Hf' & Hr); [by eapply forest_halved|lia..|].
  exists parent'. unfold rooted in *. replace (lab k) with (lab i) in * by congruence.
  split_and!; [done..|lia|tauto].
Qed.

(** Joining the trees of two roots under the lower one. *)
Definition relabel (lab : nat -> nat) (ra rb : nat) (i : nat) : nat :=
  if lab i =? Nat.max ra rb then Nat.min ra rb else lab i.

Lemma joined_roots lab ra rb :
  lab ra = ra -> lab rb = rb -> lab (ra `max` rb) = ra `max` rb /\ lab (ra `min` rb) = ra `min` rb.
Proof.
  intros Ha Hb. destruct (Nat.max_spec ra rb) as [[? ->]|[? ->]], (Nat.min_spec ra rb) as [[? ->]|[? ->]]; auto.
Qed.

Lemma forest_joined n lab parent ra rb :
  forest n lab parent -> ra <> rb -> lab ra = ra -> lab rb = rb ->
  forest n (relabel lab ra rb) (<[Nat.max ra rb := Nat.min ra rb]> parent).
Proof.
  intros [Hn Hf] Hne Ha Hb. split; [by rewrite length_insert|]. intros i j.
  rewrite list_lookup_insert_Some. unfold relabel. intros [(<- & <- & _)|[Hi Hij]].
  - destruct (joined_roots lab ra rb Ha Hb) as [-> ->].
    rewrite Nat.eqb_refl. split_and!; [lia| |lia]. by destruct (Nat.eqb_spec (ra `min` rb) (ra `max` rb)); [lia|].
  - destruct (Hf _ _ Hij) as (? & -> & Hr). split_and!; [done..|]. intros ->. rewrite Hr by done.
    by destruct (Nat.eqb_spec i (ra `max` rb)).
Qed.

(** ** The relation the labels decide *)

Definition decides (lab : nat -> nat) (R : nat -> nat -> Prop) : Prop :=
  forall i j, lab i = lab j <-> rtsc R i j.

Lemma decides_more lab R (R' : nat -> nat -> Prop) a b :
  decides lab R -> (forall i j, R' i j <-> R i j \/ (i = a /\ j = b)) ->
  decides (if lab a =? lab b then lab else relabel lab (lab a) (lab b)) R'.
Proof.
  intros Hd HR. set (lab' := if lab a =? lab b then lab else relabel lab (lab a) (lab b)).
  assert (forall i j, lab i = lab j -> rtsc R' i j) as Hold.
  { intros i j Hij%Hd. revert Hij. apply (rtsc_congruence id). intros x y Hxy. apply HR. by left. }
  assert (rtsc R' a b) as Hab by (apply rtsc_lr, HR; by right).
  assert (forall i j, lab i = lab j -> lab' i = lab' j) as Hkeep.
  { intros i j Hij. unfold lab', relabel. case_match; [done|]. by rewrite Hij. }
  assert (lab' a = lab' b) as Hjoin.
  { unfold lab', relabel. destruct (Nat.eqb_spec (lab a) (lab b)) as [|Hne]; [done|].
    destruct (Nat.eqb_spec (lab a) (lab a `max` lab b)), (Nat.eqb_spec (lab b) (lab a `max` lab b)); lia. }
  intros i j. split.
  - unfold lab', relabel. destruct (Nat.eqb_spec (lab a) (lab b)) as [|Hne]; [apply Hold|].
    assert (forall x y, lab x = lab a \/ lab x = lab b -> lab y = lab a \/ lab y = lab b -> rtsc R' x y) as Hclass.
    { assert (forall x, lab x = lab a \/ lab x = lab b -> rtsc R' x a) as Hx.
      { intros x [H|H]; apply Hold in H; [done|]. etrans; [exact H|]. by symmetry. }
      intros x y H1%Hx H2%Hx. etrans; [exact H1|]. by symmetry. }
    destruct (Nat.eqb_spec (lab i) (lab a `max` lab b)), (Nat.eqb_spec (lab j) (lab a `max` lab b));
      intros ?; [apply Hclass..|by apply Hold]; lia.
  - induction 1 as [i|i k j [Hs|Hs] _ IH]; [done|..]; apply HR in Hs as [Hs|[-> ->]].
    + rewrite <- IH. apply Hkeep, Hd. by apply rtsc_lr.
    + by rewrite <- IH.
    + rewrite <- IH. apply Hkeep, Hd. by apply rtsc_rl.
    + by rewrite <- IH.
Qed.

Definition low (lab : nat -> nat) : Prop := forall i, rooted lab i.

Lemma low_joined lab a b : low lab -> low (relabel lab (lab a) (lab b)).
Proof.
  intros Hl i. unfold rooted, relabel. destruct (Hl i) as [? Hi], (Hl a) as [_ Ha], (Hl b) as [_ Hb].
  destruct (Nat.eqb_spec (lab i) (lab a `max` lab b)).
  - split; [lia|]. destruct (joined_roots lab (lab a) (lab b) Ha Hb) as [_ ->].
    by destruct (Nat.eqb_spec (lab a `min` lab b) (lab a `max` lab b)).
  - split; [lia|]. rewrite Hi. by destruct (Nat.eqb_spec (lab i) (lab a `max` lab b)).
Qed.

(** Labels that decide a relation and are roots are the least of each class, so
    the relation determines them. *)
Lemma labels_unique lab lab' R i : decides lab R -> decides lab' R -> low lab -> low lab' -> lab i = lab' i.
Proof.
  intros Hd Hd' Hl Hl'.
  assert (forall l l' : nat -> nat, decides l R -> decides l' R -> low l -> low l' -> l i <= l' i) as H.
  { intros l l' H1 H2 H3 H4. assert (l (l' i) = l i) as <-; [|apply H3].
    apply H1, H2. apply H4. }
  apply Nat.le_antisymm; by apply H.
Qed.

(** ** Grouping by label *)

Section grouping.
Context (lab_of : bytes -> nat).

Definition group_push (components : gmap nat (list bytes)) (node : bytes) : gmap nat (list bytes) :=
  <[lab_of node := default [] (components !! lab_of node) ++ [node]]> components.

Definition group (nodes : list bytes) : gmap nat (list bytes) := foldl group_push ∅ nodes.

Lemma group_lookup nodes root :
  default [] (group nodes !! root) = filter (λ n, lab_of n = root) nodes /\
  (group nodes !! root <> Some []).
Proof.
  unfold group. induction nodes as [|node nodes IH] using rev_ind; [done|].
  rewrite foldl_snoc, list.filter_app. unfold group_push at 1 3. destruct (decide (lab_of node = root)) as [<- |Hne].
  - rewrite lookup_insert_eq. simpl. rewrite filter_cons_True, filter_nil by done. split; [by rewrite (proj1 IH)|].
    intros [= H]. by apply app_eq_nil in H as [_ ?].
  - rewrite lookup_insert_ne by done. by rewrite filter_cons_False, filter_nil, app_nil_r by done.
Qed.

Lemma group_Some nodes root members :
  group nodes !! root = Some members -> members = filter (λ n, lab_of n = root) nodes /\ members <> [].
Proof.
  intros H. destruct (group_lookup nodes root) as [Hd Hn]. rewrite H in Hd, Hn. simpl in Hd.
  split; [done|]. by intros ->.
Qed.

Lemma group_total nodes node :
  node ∈ nodes -> group nodes !! lab_of node = Some (filter (λ n, lab_of n = lab_of node) nodes).
Proof.
  intros Hn. destruct (group_lookup nodes (lab_of node)) as [Hd _].
  destruct (group nodes !! lab_of node) as [ms|]; simpl in Hd; [by f_equal|].
  assert (node ∈ filter (λ n, lab_of n = lab_of node) nodes) as H by (by apply list_elem_of_filter).
  rewrite <- Hd in H. by apply not_elem_of_nil in H.
Qed.
End grouping.

Lemma by_root_perm components : by_root components ≡ₚ map_to_list components.
Proof. apply merge_sort_Permutation. Qed.

(** ** The index of members *)

Definition disjoint_clusters (clusters : list CoreClusterView) : Prop :=
  forall i j c d m, clusters !! i = Some c -> clusters !! j = Some d -> m ∈ cv_members c -> m ∈ cv_members d -> i = j.

Lemma number_lookup (idx : nat) (members : list bytes) (index : gmap bytes nat) m :
  foldl (λ index m, <[m := idx]> index) index members !! m =
  if bool_decide (m ∈ members) then Some idx else index !! m.
Proof.
  revert index. induction members as [|x members IH]; intros index; simpl; [done|]. rewrite IH.
  destruct (decide (x = m)) as [-> |Hne].
  - rewrite lookup_insert_eq. rewrite (bool_decide_true (m ∈ m :: members)) by left. by case_bool_decide.
  - rewrite lookup_insert_ne by done. assert (m ∈ x :: members <-> m ∈ members) as Hiff
      by (rewrite elem_of_cons; naive_solver).
    by rewrite (bool_decide_ext _ _ Hiff).
Qed.

Lemma member_index_lookup idx clusters index m :
  disjoint_clusters clusters ->
  member_index idx clusters index !! m =
  match list_find (λ c, m ∈ cv_members c) clusters with
  | Some (k, _) => Some (idx + k)
  | None => index !! m
  end.
Proof.
  revert idx index. induction clusters as [|c clusters IH]; intros idx index Hd; simpl; [done|].
  rewrite IH by (intros i j a b x Hi Hj Ha Hb; specialize (Hd (S i) (S j) a b x Hi Hj Ha Hb); lia).
  rewrite number_lookup. destruct (decide (m ∈ cv_members c)) as [Hm|Hm].
  - destruct (list_find _ clusters) as [[k d]|] eqn:Hk; simpl.
    + apply list_find_Some in Hk as (Hk & Hmd & _). by specialize (Hd 0 (S k) c d m eq_refl Hk Hm Hmd).
    + rewrite bool_decide_true by done. f_equal. lia.
  - rewrite bool_decide_false by done. destruct (list_find _ clusters) as [[k d]|]; simpl; [f_equal; lia|done].
Qed.

(** A member's index is the position of its cluster. *)
Lemma member_index_spec clusters m k :
  disjoint_clusters clusters ->
  member_index 0 clusters ∅ !! m = Some k <-> exists c, clusters !! k = Some c /\ m ∈ cv_members c.
Proof.
  intros Hd. rewrite member_index_lookup by done. destruct (list_find _ clusters) as [[i c]|] eqn:Hf; simpl.
  - apply list_find_Some in Hf as (Hi & Hm & _). split; [intros [= <-]; by exists c|].
    intros (d & Hk & Hmd). f_equal. by eapply Hd.
  - rewrite lookup_empty. split; [done|]. intros (d & Hk & Hmd). apply list_find_None in Hf.
    rewrite Forall_lookup in Hf. by apply Hf in Hk.
Qed.

(** The snapshot's scan and the view's index give the same answer. *)
Lemma cluster_index_same view m :
  disjoint_clusters (sv_clusters view) -> sv_cluster_of view = member_index 0 (sv_clusters view) ∅ ->
  cluster_index_of_hex view m = sv_cluster_of view !! m.
Proof.
  intros Hd Hi. rewrite Hi, member_index_lookup by done. unfold cluster_index_of_hex.
  erewrite (list_find_ext _ (λ c, m ∈ cv_members c)).
  - destruct (list_find _ _) as [[k c]|]; [done|]. by rewrite lookup_empty.
  - intros c. simpl. rewrite existsb_exists. setoid_rewrite bool_decide_eq_true.
    setoid_rewrite <- list_elem_of_In. split; [intros (x & Hx & <-); done|eauto].
Qed.

(** ** The derivation *)

Lemma group_ext (f g : bytes -> nat) nodes : (forall n, f n = g n) -> group f nodes = group g nodes.
Proof.
  intros H. unfold group. induction nodes as [|n nodes IH] using rev_ind; [done|].
  rewrite !foldl_snoc, IH. unfold group_push. by rewrite H.
Qed.

Section derivation.
Context `{Ext : Externals} {Codec : TopoCodec}.
Context (records : TopoRecords) (admitted : bytes -> bool) (now_ms : N) (cfg : TopoConfig).

Abbreviation nodes := (vertices records admitted now_ms cfg).
Abbreviation index := (vertex_index records admitted now_ms cfg).

(** Two live admitted nodes are near when each holds a fresh, settled half of a
    short edge to the other, and far when both halves are fresh and long. *)
Definition near (a b : bytes) : Prop :=
  a ∈ nodes /\ b ∈ nodes /\
  exists e e', tr_edges records !! (a, b) = Some e /\ tr_edges records !! (b, a) = Some e' /\
    half_near now_ms cfg e = true /\ half_near now_ms cfg e' = true.

Lemma vertices_spec n :
  n ∈ nodes <-> exists p, tr_positions records !! n = Some p /\ position_live now_ms cfg p = true /\ admitted n = true.
Proof.
  unfold vertices. rewrite elem_of_in_order, elem_of_dom. unfold is_Some.
  setoid_rewrite map_lookup_filter_Some. simpl. setoid_rewrite andb_true_iff. naive_solver.
Qed.

Lemma vertex_index_spec a i : index !! a = Some i <-> nodes !! i = Some a.
Proof.
  unfold vertex_index. rewrite <- elem_of_list_to_map.
  - rewrite elem_of_lookup_imap. naive_solver.
  - rewrite fmap_imap. unfold compose. simpl.
    replace (imap (λ _ x, x) nodes) with nodes; [apply in_order_NoDup|].
    apply list_eq. intros k. rewrite list_lookup_imap. by destruct (nodes !! k).
Qed.

Lemma vertex_index_total a : a ∈ nodes -> exists i, index !! a = Some i /\ nodes !! i = Some a /\ i < length nodes.
Proof.
  intros [i Hi]%list_elem_of_lookup. exists i. rewrite vertex_index_spec. split_and!; [done..|].
  by eapply lookup_lt_Some.
Qed.

(** *** The loop over the edges *)

Definition near_of (edges : list ((bytes * bytes) * RttEdge)) : list (bytes * bytes) :=
  map fst (filter (λ e, edge_pair records admitted now_ms cfg e = Some true) edges).
Definition far_of (edges : list ((bytes * bytes) * RttEdge)) : list (bytes * bytes) :=
  map fst (filter (λ e, edge_pair records admitted now_ms cfg e = Some false) edges).

Lemma edge_loop edges near_pairs far_pairs :
  foldl (edge_step records admitted now_ms cfg) (near_pairs, far_pairs) edges =
  (near_pairs ++ near_of edges, list_to_set (far_of edges) ∪ far_pairs).
Proof.
  revert near_pairs far_pairs. induction edges as [|e edges IH]; intros np fp.
  { simpl. rewrite app_nil_r. f_equal. by rewrite (left_id_L ∅ (∪)). }
  simpl. unfold near_of, far_of. rewrite !filter_cons.
  destruct (edge_pair _ _ _ _ e) as [[]|] eqn:He; rewrite IH; repeat case_decide; try congruence; simpl.
  - by rewrite <- app_assoc.
  - f_equal. by rewrite (assoc_L (∪)), (comm_L (∪) (list_to_set _)).
  - done.
Qed.

Lemma edge_pair_near a b e :
  tr_edges records !! (a, b) = Some e ->
  edge_pair records admitted now_ms cfg ((a, b), e) = Some true <-> bytes_leb b a = false /\ near a b.
Proof.
  intros He. unfold edge_pair, near, is_vertex.
  destruct (bytes_leb b a); [by split; [|intros [? _]]|].
  case_bool_decide as Ha; [|by split; [|intros (_ & ? & _)]].
  case_bool_decide as Hb; [simpl|by split; [|intros (_ & _ & ? & _)]].
  destruct (tr_edges records !! (b, a)) as [e'|]; [|by split; [|intros (_ & _ & _ & ? & ? & _ & ? & _)]].
  destruct (half_near now_ms cfg e && half_near now_ms cfg e')%bool eqn:Hn.
  - apply andb_true_iff in Hn as [? ?]. split; [|done]. intros _. split_and!; [done..|]. by exists e, e'.
  - apply andb_false_iff in Hn. split; [by case_match|]. intros (_ & _ & _ & x & x' & Hx & [= <-] & ? & ?).
    rewrite He in Hx. injection Hx as <-. destruct Hn; congruence.
Qed.

Lemma near_pairs_spec edges a b :
  edges ≡ₚ map_to_list (tr_edges records) -> (a, b) ∈ near_of edges <-> bytes_leb b a = false /\ near a b.
Proof.
  intros Hp. unfold near_of. rewrite list_elem_of_fmap. setoid_rewrite list_elem_of_filter. setoid_rewrite Hp.
  split.
  - intros ([[x y] e] & [= -> ->] & Hn & He%elem_of_map_to_list). by apply (edge_pair_near _ _ _ He).
  - intros [Hl Hn]. destruct (Hn) as (_ & _ & e & _ & He & _). exists ((a, b), e). split; [done|].
    by rewrite edge_pair_near, elem_of_map_to_list.
Qed.

Lemma near_sym a b : near a b -> near b a.
Proof. unfold near. naive_solver. Qed.

(** The near pairs connect what the symmetric relation connects. *)
Lemma near_connected edges a b :
  edges ≡ₚ map_to_list (tr_edges records) ->
  rtsc (λ x y, (x, y) ∈ near_of edges) a b <-> rtsc near a b.
Proof.
  intros Hp. split.
  - apply (rtsc_congruence id). intros x y Hxy. by apply (near_pairs_spec _ _ _ Hp) in Hxy as [_ ?].
  - induction 1 as [x|x y z Hs _ IH]; [done|]. etrans; [|exact IH].
    assert (near x y) as Hn by (destruct Hs as [?|?]; auto using near_sym). clear Hs.
    destruct (decide (x = y)) as [-> |Hne]; [done|].
    destruct (bytes_leb y x) eqn:Hl.
    + apply rtsc_rl, (near_pairs_spec _ _ _ Hp). split; [|by apply near_sym].
      unfold bytes_leb in *. apply negb_false_iff. destruct (bytes_ltb_total x y) as [?|[?|?]]; auto. by rewrite H in Hl.
    + by apply rtsc_lr, (near_pairs_spec _ _ _ Hp).
Qed.

(** *** The unions *)

(** The pairs between indices that a list of near pairs stands for. *)
Definition index_pair (pairs : list (bytes * bytes)) (i j : nat) : Prop :=
  exists a b, (a, b) ∈ pairs /\ nodes !! i = Some a /\ nodes !! j = Some b.

Lemma union_step_spec lab R parent p :
  forest (length nodes) lab parent -> low lab -> decides lab R -> p.1 ∈ nodes -> p.2 ∈ nodes ->
  exists parent' lab', union_step records admitted now_ms cfg parent p = Some parent' /\
    forest (length nodes) lab' parent' /\ low lab' /\ decides lab' (λ i j, R i j \/ index_pair [p] i j).
Proof.
  intros Hf Hl Hd (i & Hi & Hni & Hilt)%vertex_index_total (j & Hj & Hnj & Hjlt)%vertex_index_total.
  unfold union_step. rewrite Hi. simpl.
  destruct (find_spec _ _ (length nodes) _ _ Hf Hilt Hilt) as (parent1 & -> & Hf1 & _). simpl. rewrite Hj. simpl.
  destruct (find_spec _ _ (length nodes) _ _ Hf1 Hjlt Hjlt) as (parent2 & -> & Hf2 & _). simpl.
  assert (decides (if lab i =? lab j then lab else relabel lab (lab i) (lab j))
            (λ x y, R x y \/ index_pair [p] x y)) as Hd'.
  { apply decides_more with (R := R); [done|]. intros x y. unfold index_pair. destruct p as [a b]. simpl in *.
    setoid_rewrite list_elem_of_singleton. split; (intros [?|Hp]; [by left|right]).
    - destruct Hp as (? & ? & [= -> ->] & Hx & Hy). rewrite <- vertex_index_spec in Hx, Hy. split; congruence.
    - destruct Hp as [-> ->]. eauto. }
  destruct (Nat.eqb_spec (lab i) (lab j)) as [|Hne]; [by exists parent2, lab|].
  eexists _, (relabel lab (lab i) (lab j)). split_and!; [done| |by apply low_joined|done].
  apply forest_joined; [done..| |]; apply Hl.
Qed.

Lemma decides_ext lab (R R' : nat -> nat -> Prop) : (forall i j, R i j <-> R' i j) -> decides lab R -> decides lab R'.
Proof.
  intros HR Hd i j. rewrite (Hd i j). split; apply (rtsc_congruence id); intros x y; apply HR.
Qed.

Lemma unions_spec pairs lab R parent :
  forest (length nodes) lab parent -> low lab -> decides lab R ->
  (forall p, p ∈ pairs -> p.1 ∈ nodes /\ p.2 ∈ nodes) ->
  exists parent' lab', unions records admitted now_ms cfg parent pairs = Some parent' /\
    forest (length nodes) lab' parent' /\ low lab' /\ decides lab' (λ i j, R i j \/ index_pair pairs i j).
Proof.
  revert lab R parent. induction pairs as [|p pairs IH]; intros lab R parent Hf Hl Hd Hin; simpl.
  { exists parent, lab. split_and!; [done..|]. revert Hd. apply decides_ext. intros i j.
    split; [by left|]. intros [?|(? & ? & []%not_elem_of_nil & _)]. done. }
  destruct (Hin p) as [H1 H2]; [left|].
  destruct (union_step_spec lab R parent p) as (parent1 & lab1 & -> & Hf1 & Hl1 & Hd1); [done..|]. simpl.
  destruct (IH lab1 _ parent1 Hf1 Hl1 Hd1) as (parent' & lab' & -> & Hf' & Hl' & Hd').
  { intros q Hq. apply Hin. by right. }
  exists parent', lab'. split_and!; [done..|]. revert Hd'. apply decides_ext. intros i j. unfold index_pair.
  setoid_rewrite list_elem_of_singleton. setoid_rewrite elem_of_cons. split.
  - intros [[?|(a & b & Hp & ?)]|(a & b & Hp & ?)]; [by left|right; exists a, b; eauto..].
  - intros [?|(a & b & [Hp|Hp] & ?)]; [by left; left|left; right; exists a, b; eauto|right; exists a, b; eauto].
Qed.

Lemma forest_initial : forest (length nodes) id (seq 0 (length nodes)).
Proof. split; [by rewrite length_seq|]. intros i j [-> _]%lookup_seq. simpl. auto. Qed.

Lemma decides_initial : decides id (λ _ _, False).
Proof. intros i j. unfold id. split; [by intros ->|]. by induction 1 as [|x y z [[]|[]]]. Qed.

Definition label (lab : nat -> nat) (node : bytes) : nat := lab (default 0 (index !! node)).

Lemma collect_spec lab parent components ns :
  forest (length nodes) lab parent -> (forall n, n ∈ ns -> n ∈ nodes) ->
  collect records admitted now_ms cfg parent components ns = Some (foldl (group_push (label lab)) components ns).
Proof.
  revert parent components. induction ns as [|n ns IH]; intros parent components Hf Hin; simpl; [done|].
  destruct (vertex_index_total n) as (i & Hi & _ & Hlt); [apply Hin; left|]. rewrite Hi. simpl.
  destruct (find_spec _ _ (length nodes) _ _ Hf Hlt Hlt) as (parent1 & -> & Hf1 & _). simpl.
  rewrite IH; [|done|intros m Hm; apply Hin; by right]. unfold group_push at 3, label. by rewrite Hi.
Qed.

(** Two nodes have one label exactly when near edges connect them. *)
Definition labels_components (lab : nat -> nat) : Prop :=
  forall a b, a ∈ nodes -> b ∈ nodes -> label lab a = label lab b <-> rtsc near a b.

Lemma labels_spec edges lab :
  edges ≡ₚ map_to_list (tr_edges records) -> decides lab (index_pair (near_of edges)) -> labels_components lab.
Proof.
  intros Hp Hd a b (i & Hi & Hni & _)%vertex_index_total (j & Hj & Hnj & _)%vertex_index_total.
  unfold label. rewrite Hi, Hj. simpl. rewrite (Hd i j), <- (near_connected edges) by done. split.
  - intros Hr. replace a with (nodes !!! i) by (by apply list_lookup_total_correct).
    replace b with (nodes !!! j) by (by apply list_lookup_total_correct). revert Hr.
    apply (rtsc_congruence (λ i, nodes !!! i)). intros x y (c & d & Hcd & Hx & Hy).
    by rewrite (list_lookup_total_correct _ _ _ Hx), (list_lookup_total_correct _ _ _ Hy).
  - intros Hr. replace i with (default 0 (index !! a)) by (by rewrite Hi).
    replace j with (default 0 (index !! b)) by (by rewrite Hj). revert Hr.
    apply (rtsc_congruence (λ n, default 0 (index !! n))). intros x y Hxy.
    destruct (proj1 (near_pairs_spec edges x y Hp) Hxy) as (_ & Hx & Hy & _).
    apply vertex_index_total in Hx as (k & Hk & Hnk & _). apply vertex_index_total in Hy as (l & Hl & Hnl & _).
    rewrite Hk, Hl. by exists x, y.
Qed.

Lemma derive_labels edges namespace_id :
  edges ≡ₚ map_to_list (tr_edges records) ->
  exists lab, low lab /\ decides lab (index_pair (near_of edges)) /\
    derive edges records admitted namespace_id now_ms cfg =
    (clusters ← mapM (cluster_view namespace_id (tc_witness_r cfg)) (map snd (by_root (group (label lab) nodes)));
     Some {| sv_clusters := clusters;
             sv_dropped := tr_dropped records;
             sv_cluster_of := member_index 0 clusters ∅;
             sv_far_pairs := list_to_set (far_of edges);
             sv_separation_coverage := tc_separation_coverage cfg |}).
Proof.
  intros Hp. unfold derive. rewrite edge_loop. simpl. rewrite (right_id_L ∅ (∪)).
  destruct (unions_spec (near_of edges) id (λ _ _, False) (seq 0 (length nodes))) as (parent & lab & -> & Hf & Hl & Hd).
  { apply forest_initial. }
  { by intros i. }
  { apply decides_initial. }
  { intros [a b] (_ & ? & ? & _)%near_pairs_spec; done. }
  exists lab. split_and!; [done| |].
  - revert Hd. apply decides_ext. intros i j. naive_solver.
  - simpl. by rewrite (collect_spec lab).
Qed.

(** *** The clusters *)

Context {Laws : TopoCodecLaws}.

Lemma cluster_view_some namespace_id witness_r members :
  members <> [] -> (forall m, m ∈ members -> is_node_hex m = true) ->
  exists c, cluster_view namespace_id witness_r members = Some c /\ cv_members c ≡ₚ members.
Proof.
  intros Hne Hhex. unfold cluster_view. set (sorted := merge_sort node_le members).
  assert (sorted ≡ₚ members) as Hs by apply merge_sort_Permutation.
  destruct (mapM (λ m, score ← bridge_score namespace_id m; Some (m, score)) sorted) as [ranked|] eqn:Hr.
  - simpl. destruct (head (merge_sort rank_le ranked)) as [bridge|] eqn:Hh; simpl; [by eexists|].
    apply head_None in Hh. assert (ranked = []) as -> .
    { apply Permutation_nil. by rewrite <- Hh, (merge_sort_Permutation rank_le). }
    apply mapM_Some_1, Forall2_nil_inv_r in Hr. exfalso. apply Hne, Permutation_nil. by rewrite <- Hr.
  - exfalso. apply mapM_None_1, Exists_exists in Hr as (m & Hm%list_elem_of_In & Hnone). rewrite Hs in Hm.
    destruct (hex_decode_digits m (Hhex m Hm)) as [id Hid]. unfold bridge_score in Hnone. by rewrite Hid in Hnone.
Qed.

Definition hex_records : Prop := forall n p, tr_positions records !! n = Some p -> is_node_hex n = true.

(** The clusters of a labelling: one per root, its members the nodes under it. *)
Lemma clusters_of_labels lab namespace_id :
  hex_records ->
  exists clusters,
    mapM (cluster_view namespace_id (tc_witness_r cfg)) (map snd (by_root (group (label lab) nodes))) = Some clusters /\
    Forall2 (λ g c, cv_members c ≡ₚ filter (λ n, label lab n = g.1) nodes /\ g.2 = filter (λ n, label lab n = g.1) nodes)
      (by_root (group (label lab) nodes)) clusters.
Proof.
  intros Hhex. assert (forall r ms, (r, ms) ∈ by_root (group (label lab) nodes) ->
    ms = filter (λ n, label lab n = r) nodes /\ ms <> []) as Hg.
  { intros r ms. rewrite by_root_perm, elem_of_map_to_list. apply group_Some. }
  revert Hg. induction (by_root _) as [|[r ms] gs IH]; intros Hg; simpl; [by exists []|].
  destruct (Hg r ms) as [Hms Hne]; [left|].
  destruct (cluster_view_some namespace_id (tc_witness_r cfg) ms) as (c & -> & Hc); [done| |].
  { intros m Hm. rewrite Hms in Hm. apply list_elem_of_filter in Hm as [_ (p & Hp & _)%vertices_spec]. by eapply Hhex. }
  destruct IH as (clusters & -> & Hall); [intros r' ms' H'; apply Hg; by right|].
  exists (c :: clusters). split; [done|]. constructor; [|done]. simpl. by rewrite <- Hms.
Qed.

Lemma by_root_NoDup components : NoDup (map fst (by_root components)).
Proof. rewrite by_root_perm. apply NoDup_fst_map_to_list. Qed.

Lemma clusters_spec lab namespace_id :
  hex_records ->
  exists clusters,
    mapM (cluster_view namespace_id (tc_witness_r cfg)) (map snd (by_root (group (label lab) nodes))) = Some clusters /\
    disjoint_clusters clusters /\
    (forall n, (exists k c, clusters !! k = Some c /\ n ∈ cv_members c) <-> n ∈ nodes) /\
    (forall i j c d a b, clusters !! i = Some c -> clusters !! j = Some d -> a ∈ cv_members c -> b ∈ cv_members d ->
       i = j <-> label lab a = label lab b).
Proof.
  intros (clusters & Hm & Hall)%(clusters_of_labels lab namespace_id). exists clusters.
  assert (forall i c m, clusters !! i = Some c -> m ∈ cv_members c ->
            m ∈ nodes /\ (by_root (group (label lab) nodes)).*1 !! i = Some (label lab m)) as Hin.
  { intros i c m Hc Hmc. destruct (Forall2_lookup_r _ _ _ _ _ Hall Hc) as ([r ms] & Hi & Hp & _).
    simpl in Hp. rewrite Hp in Hmc. apply list_elem_of_filter in Hmc as [<- ?]. split; [done|].
    rewrite list_lookup_fmap, Hi. done. }
  assert (forall i j c d a b, clusters !! i = Some c -> clusters !! j = Some d -> a ∈ cv_members c ->
            b ∈ cv_members d -> i = j <-> label lab a = label lab b) as Hsame.
  { intros i j c d a b Hi Hj Ha Hb. destruct (Hin _ _ _ Hi Ha) as [_ Hla], (Hin _ _ _ Hj Hb) as [_ Hlb]. split.
    - intros ->. congruence.
    - intros Hab. rewrite Hab in Hla. eapply NoDup_lookup; [apply by_root_NoDup|exact Hla|exact Hlb]. }
  split_and!; [done| |intros n; split|done].
  - intros i j c d m Hi Hj Hc Hd. by apply (Hsame i j c d m m).
  - intros (k & c & Hk & Hc). by eapply Hin.
  - intros Hn. assert ((label lab n, filter (λ m, label lab m = label lab n) nodes) ∈ by_root (group (label lab) nodes)) as He.
    { rewrite by_root_perm. by apply elem_of_map_to_list, group_total. }
    apply list_elem_of_lookup in He as [k Hk]. destruct (Forall2_lookup_l _ _ _ _ _ Hall Hk) as (c & Hc & Hp & _).
    exists k, c. split; [done|]. rewrite Hp. by apply list_elem_of_filter.
Qed.

(** The derivation yields a view whose clusters are the connected components. *)
Lemma derive_spec edges namespace_id :
  hex_records -> edges ≡ₚ map_to_list (tr_edges records) ->
  exists view, derive edges records admitted namespace_id now_ms cfg = Some view /\
    disjoint_clusters (sv_clusters view) /\
    sv_cluster_of view = member_index 0 (sv_clusters view) ∅ /\
    sv_far_pairs view = list_to_set (far_of edges) /\
    (forall n, cluster_index_of_hex view n = sv_cluster_of view !! n) /\
    (forall n, is_Some (cluster_index_of_hex view n) <-> n ∈ nodes) /\
    (forall a b, a ∈ nodes -> b ∈ nodes ->
       cluster_index_of_hex view a = cluster_index_of_hex view b <-> rtsc near a b).
Proof.
  intros Hhex Hp. destruct (derive_labels edges namespace_id Hp) as (lab & _ & Hd & ->).
  destruct (clusters_spec lab namespace_id Hhex) as (clusters & -> & Hdis & Hin & Hsame).
  eexists. split; [done|]. simpl. match goal with |- context [cluster_index_of_hex ?v] => set (view := v) end.
  assert (forall n, cluster_index_of_hex view n = member_index 0 clusters ∅ !! n) as Hidx.
  { intros n. by apply cluster_index_same. }
  assert (forall n, is_Some (cluster_index_of_hex view n) <-> n ∈ nodes) as Hlive.
  { intros n. rewrite Hidx, <- Hin. unfold is_Some. by setoid_rewrite member_index_spec. }
  split_and!; [done..|]. intros a b Ha Hb. rewrite <- (labels_spec edges lab Hp Hd a b Ha Hb).
  apply Hlive in Ha as [i Hi], Hb as [j Hj]. rewrite Hi, Hj. rewrite Hidx in Hi, Hj.
  apply member_index_spec in Hi as (c & Hc & Hac), Hj as (d & Hd' & Hbd); [|done..].
  rewrite <- (Hsame i j c d a b) by done. split; [by intros [= ->]|by intros ->].
Qed.

(** Two nodes are far when both hold a fresh long measurement of the other. *)
Definition far (a b : bytes) : Prop :=
  a ∈ nodes /\ b ∈ nodes /\
  exists e e', tr_edges records !! (a, b) = Some e /\ tr_edges records !! (b, a) = Some e' /\
    half_far now_ms cfg e = true /\ half_far now_ms cfg e' = true.

Lemma far_sym a b : far a b -> far b a.
Proof. intros (? & ? & e & e' & ? & ? & ? & ?). split_and!; [done..|]. by exists e', e. Qed.

Lemma far_pairs_spec edges a b :
  edges ≡ₚ map_to_list (tr_edges records) -> (a, b) ∈ far_of edges -> far a b.
Proof.
  intros Hp. unfold far_of. rewrite list_elem_of_fmap. setoid_rewrite list_elem_of_filter. setoid_rewrite Hp.
  intros ([[x y] e] & [= -> ->] & Hn & He%elem_of_map_to_list). revert Hn. unfold edge_pair, is_vertex.
  case_match; [done|]. case_bool_decide as Ha; [|done]. case_bool_decide as Hb; [simpl|done].
  destruct (tr_edges records !! (y, x)) as [e'|] eqn:He'; [|done]. case_match; [done|].
  destruct (half_far now_ms cfg e && half_far now_ms cfg e')%bool eqn:Hf; [|done].
  apply andb_true_iff in Hf as [? ?]. intros _. split_and!; [done..|]. by exists e, e'.
Qed.

(** Members of one cluster are connected. *)
Lemma members_connected edges namespace_id view i c a b :
  hex_records -> edges ≡ₚ map_to_list (tr_edges records) ->
  derive edges records admitted namespace_id now_ms cfg = Some view ->
  sv_clusters view !! i = Some c -> a ∈ cv_members c -> b ∈ cv_members c -> rtsc near a b.
Proof.
  intros Hhex Hp Hv Hc Ha Hb.
  destruct (derive_spec edges namespace_id Hhex Hp) as (view' & Hv' & Hdis & Hix & _ & Hidx & Hlive & Hsame).
  rewrite Hv in Hv'. injection Hv' as <-.
  assert (forall m, m ∈ cv_members c -> cluster_index_of_hex view m = Some i) as Hi.
  { intros m Hm. rewrite Hidx, Hix. apply member_index_spec; [done|]. by exists c. }
  apply Hsame; [apply Hlive; rewrite Hi by done; done..|]. by rewrite !Hi.
Qed.

Lemma far_of_perm edges edges' : edges ≡ₚ edges' -> far_of edges ≡ₚ far_of edges'.
Proof. intros Hp. unfold far_of. by rewrite Hp. Qed.

(** The view does not depend on the order of the edges. *)
Lemma derive_order edges edges' namespace_id :
  edges ≡ₚ map_to_list (tr_edges records) -> edges' ≡ₚ map_to_list (tr_edges records) ->
  derive edges records admitted namespace_id now_ms cfg = derive edges' records admitted namespace_id now_ms cfg.
Proof.
  intros Hp Hp'. assert (edges ≡ₚ edges') as Hpp by (by rewrite Hp, Hp').
  destruct (derive_labels edges namespace_id Hp) as (lab & Hl & Hd & ->).
  destruct (derive_labels edges' namespace_id Hp') as (lab' & Hl' & Hd' & ->).
  rewrite (group_ext (label lab) (label lab')).
  - by rewrite (list_to_set_perm_L _ _ (far_of_perm _ _ Hpp)).
  - intros n. unfold label. eapply labels_unique; [exact Hd| |done..]. revert Hd'. apply decides_ext.
    intros i j. unfold index_pair, near_of. by setoid_rewrite Hpp.
Qed.
End derivation.

(** ** Records *)

(** One entry of the shared document, as a reader applies it. *)
Record TopoEntry : Type := mk_TopoEntry {
  te_author : bytes;
  te_key : bytes;
  te_value : bytes;
  te_now_ms : N;
  te_max_skew : N;
}.

Section reading.
Context {Codec : TopoCodec}.

Definition read_entry (r : TopoRecords) (e : TopoEntry) : TopoRecords :=
  insert_entry r (te_author e) (te_key e) (te_value e) (te_now_ms e) (te_max_skew e).

Definition read_entries (entries : list TopoEntry) : TopoRecords := foldl read_entry no_records entries.

Lemma parse_key_node key k : parse_key key = Some k -> is_node_hex (tk_node k) = true.
Proof.
  unfold parse_key. case_match; [done|]. destruct (strip_prefix _ key) as [rest|]; [simpl|done].
  destruct (split_slash rest) as [node parts]. destruct (is_node_hex node) eqn:Hn; [simpl|done].
  repeat (case_match; simpl; try done); intros [= <-]; done.
Qed.

(** What one entry does to any records: store its author's own position or edge,
    or nothing. *)
Definition entry_effect (e : TopoEntry) (position : option NetworkPosition) (edge : option (bytes * RttEdge)) : Prop :=
  (forall p, position = Some p -> hex_encode (np_node_id p) = te_author e /\ is_node_hex (te_author e) = true) /\
  forall r,
    tr_positions (read_entry r e) = from_option (λ p, <[te_author e := p]> (tr_positions r)) (tr_positions r) position /\
    tr_edges (read_entry r e) = from_option (λ x, <[(te_author e, x.1) := x.2]> (tr_edges r)) (tr_edges r) edge.

Lemma read_entry_effect e : exists position edge, entry_effect e position edge.
Proof.
  assert (forall f : TopoRecords -> TopoRecords,
    (forall r, tr_positions (f r) = tr_positions r /\ tr_edges (f r) = tr_edges r) -> (forall r, read_entry r e = f r) ->
    exists position edge, entry_effect e position edge) as Hnone.
  { intros f Hf Hr. exists None, None. split; [done|]. intros r. rewrite Hr. apply Hf. }
  unfold entry_effect, read_entry, insert_entry in *. destruct (parse_key _) as [k|] eqn:Hk; [|by apply (Hnone id)].
  apply parse_key_node in Hk. case_bool_decide as Ha; [|by apply (Hnone drop_entry)]. rewrite <- Ha in *.
  destruct k as [node|node peer|node peer|node]; simpl in *; [..|by apply (Hnone id)|by apply (Hnone id)].
  - destruct (decode_position _) as [p|]; [|by apply (Hnone drop_entry)].
    case_bool_decide as Hp; simpl in *; [|by apply (Hnone drop_entry)].
    case_match; [by apply (Hnone drop_entry)|]. exists (Some p), None. split; [by intros ? [= <-]|done].
  - destruct (decode_rtt_edge _) as [x|]; [|by apply (Hnone drop_entry)].
    case_match; [by apply (Hnone drop_entry)|]. by exists None, (Some (peer, x)).
Qed.

Lemma entries_snoc entries e : read_entries (entries ++ [e]) = read_entry (read_entries entries) e.
Proof. unfold read_entries. by rewrite foldl_snoc. Qed.

Lemma read_hex entries : hex_records (read_entries entries).
Proof.
  unfold hex_records. induction entries as [|e entries IH] using rev_ind; intros n p; [done|].
  rewrite entries_snoc. destruct (read_entry_effect e) as (position & edge & Hown & He).
  destruct (He (read_entries entries)) as [-> _]. destruct position as [q|]; simpl; [|apply IH].
  rewrite lookup_insert_Some. intros [[<- _]|[_ ?]]; [by apply (Hown q)|by eapply IH].
Qed.

(** A node's position and edges are what its own entries report. *)
Lemma read_own entries n :
  let own := filter (λ e, te_author e = n) entries in
  tr_positions (read_entries entries) !! n = tr_positions (read_entries own) !! n /\
  (forall peer, tr_edges (read_entries entries) !! (n, peer) = tr_edges (read_entries own) !! (n, peer)) /\
  (forall p, tr_positions (read_entries entries) !! n = Some p -> hex_encode (np_node_id p) = n).
Proof.
  induction entries as [|e entries (Hp & He & Hid)] using rev_ind; [done|]. simpl.
  rewrite list.filter_app, filter_cons, entries_snoc.
  destruct (read_entry_effect e) as (position & edge & Hown & Heff).
  destruct (Heff (read_entries entries)) as [-> ->]. case_decide as Ha.
  - rewrite filter_nil, entries_snoc. destruct (Heff (read_entries (filter (λ e, te_author e = n) entries))) as [-> ->].
    rewrite Ha. split_and!.
    + destruct position; simpl; [by rewrite !lookup_insert_eq|done].
    + intros peer. destruct edge as [[peer' x]|]; simpl; [|done].
      destruct (decide (peer' = peer)) as [-> |]; [by rewrite !lookup_insert_eq|].
      by rewrite !lookup_insert_ne by congruence.
    + intros p. destruct position as [q|]; simpl; [|apply Hid]. rewrite lookup_insert_eq. intros [= <-].
      rewrite <- Ha. by apply Hown.
  - rewrite filter_nil, app_nil_r. split_and!.
    + destruct position; simpl; [by rewrite lookup_insert_ne|done].
    + intros peer. destruct edge as [[peer' x]|]; simpl; [|done]. by rewrite lookup_insert_ne by congruence.
    + intros p. destruct position as [q|]; simpl; [|apply Hid]. rewrite lookup_insert_ne by done. apply Hid.
Qed.
End reading.

(** ** Separation *)

Lemma ordered_comm a b : ordered a b = ordered b a.
Proof.
  unfold ordered, bytes_leb. destruct (bytes_ltb b a) eqn:E1, (bytes_ltb a b) eqn:E2; simpl; try done.
  - pose proof (bytes_ltb_trans _ _ _ E1 E2) as H. by rewrite bytes_ltb_irrefl in H.
  - destruct (bytes_ltb_total a b) as [H|[-> |H]]; congruence.
Qed.

Definition far_count (far_pairs : gset (bytes * bytes)) (pairs : list (bytes * bytes)) : N :=
  len (filter (λ p, ordered p.1 p.2 ∈ far_pairs) pairs).

(** The early return decides whether enough pairs are far, at least one of them. *)
Lemma covered_count far_pairs need have pairs :
  enough_far far_pairs need have pairs =
  ((0 <? far_count far_pairs pairs) && (need <=? have + far_count far_pairs pairs))%N.
Proof.
  revert have. induction pairs as [|[x y] pairs IH]; intros have; simpl; [done|].
  unfold far_count. rewrite filter_cons. change (ordered (x, y).1 (x, y).2) with (ordered x y).
  case_decide as Hf; [|by rewrite bool_decide_false, IH by done]. rewrite bool_decide_true by done.
  unfold len. rewrite length_cons, Nat2N.inj_succ. change (N.of_nat (length (filter _ pairs))) with (far_count far_pairs pairs).
  destruct (N.leb_spec need (have + 1)).
  - symmetry. rewrite andb_true_iff, N.ltb_lt, N.leb_le. lia.
  - rewrite IH. destruct (N.ltb_spec 0 (far_count far_pairs pairs)), (N.ltb_spec 0 (N.succ (far_count far_pairs pairs)));
      simpl; [|lia| |lia].
    + f_equal. lia.
    + symmetry. apply N.leb_gt. lia.
Qed.

Lemma pairs_between_cons xs y ys : pairs_between xs (y :: ys) ≡ₚ map (λ x, (x, y)) xs ++ pairs_between xs ys.
Proof.
  unfold pairs_between. induction xs as [|x xs IH]; simpl; [done|]. f_equiv. rewrite IH, !app_assoc.
  f_equiv. apply Permutation_app_comm.
Qed.

Lemma pairs_between_swap xs ys : pairs_between ys xs ≡ₚ map (λ p, (p.2, p.1)) (pairs_between xs ys).
Proof.
  induction ys as [|y ys IH]; simpl.
  - unfold pairs_between. simpl. by induction xs.
  - rewrite pairs_between_cons, map_app, map_map. simpl. rewrite <- IH. done.
Qed.

Lemma far_count_swap far_pairs xs ys : far_count far_pairs (pairs_between xs ys) = far_count far_pairs (pairs_between ys xs).
Proof.
  unfold far_count, len. rewrite (pairs_between_swap xs ys). f_equal. induction (pairs_between xs ys) as [|[x y] l IH]; [done|].
  rewrite map_cons, !filter_cons. simpl. rewrite (ordered_comm y x). case_decide; simpl; by rewrite IH.
Qed.

(** The verdict is symmetric. *)
Lemma separated_sym view a b : separated view a b = separated view b a.
Proof.
  unfold separated. destruct (sv_cluster_of view !! a) as [ca|], (sv_cluster_of view !! b) as [cb|]; [|done..].
  rewrite (bool_decide_ext (ca = cb) (cb = ca)) by done. case_bool_decide; [done|].
  destruct (sv_clusters view !! ca) as [x|], (sv_clusters view !! cb) as [y|]; [simpl|done..].
  by rewrite !covered_count, far_count_swap, N.mul_comm.
Qed.

Lemma elem_of_pairs_between x y xs ys : (x, y) ∈ pairs_between xs ys <-> x ∈ xs /\ y ∈ ys.
Proof.
  unfold pairs_between. rewrite list_elem_of_In, in_concat. setoid_rewrite in_map_iff.
  setoid_rewrite <- list_elem_of_In. split.
  - intros (l & (u & <- & Hu) & Hl). apply list_elem_of_fmap in Hl as (v & [= -> ->] & Hv). done.
  - intros [Hx Hy]. exists (map (λ v, (x, v)) ys). split; [by exists x|]. apply list_elem_of_fmap. by exists y.
Qed.

(** ** The claims *)

Section claims.
Context `{Ext : Externals} {Codec : TopoCodec} {Laws : TopoCodecLaws}.

(** Coverage rests on a far pair between the two clusters. *)
Lemma covered_far records admitted now_ms cfg edges need xs ys :
  edges ≡ₚ map_to_list (tr_edges records) ->
  enough_far (list_to_set (far_of records admitted now_ms cfg edges)) need 0 (pairs_between xs ys) = true ->
  exists x y, x ∈ xs /\ y ∈ ys /\ far records admitted now_ms cfg x y.
Proof.
  intros Hp. rewrite covered_count. intros [Hpos%N.ltb_lt _]%andb_true_iff. unfold far_count, len in Hpos.
  destruct (filter _ (pairs_between xs ys)) as [|[x y] l] eqn:Hl; [done|].
  assert ((x, y) ∈ (x, y) :: l) as Hxy by left. rewrite <- Hl in Hxy.
  apply list_elem_of_filter in Hxy as [Ho [Hx Hy]%elem_of_pairs_between]. exists x, y. split_and!; [done..|].
  apply elem_of_list_to_set in Ho. simpl in Ho. unfold ordered in Ho.
  destruct (bytes_leb x y); [|apply far_sym]; by eapply far_pairs_spec.
Qed.

(** C20: From the records of any entries, whatever they contain and in whatever order
    the hash map of edges is visited, the derivation returns a view; the nodes it
    places are the live admitted ones, and two of them are in one cluster exactly
    when a chain of near edges, each reported by both its ends, connects them. *)
Theorem clusters_are_components entries edges admitted namespace_id now_ms cfg :
  let records := read_entries entries in
  edges ≡ₚ map_to_list (tr_edges records) ->
  exists view, derive edges records admitted namespace_id now_ms cfg = Some view /\
    (forall n, is_Some (cluster_index_of_hex view n) <-> n ∈ vertices records admitted now_ms cfg) /\
    (forall a b, a ∈ vertices records admitted now_ms cfg -> b ∈ vertices records admitted now_ms cfg ->
       cluster_index_of_hex view a = cluster_index_of_hex view b <-> rtsc (near records admitted now_ms cfg) a b).
Proof.
  intros records Hp.
  destruct (derive_spec records admitted now_ms cfg edges namespace_id (read_hex entries) Hp)
    as (view & Hv & _ & _ & _ & _ & Hlive & Hsame).
  by exists view.
Qed.

(** Readers agree without consensus: the whole view, clusters, bridges and
    evidence, is the same whatever the order in which two readers visit the edges. *)
Theorem readers_agree entries edges edges' admitted namespace_id now_ms cfg :
  let records := read_entries entries in
  edges ≡ₚ map_to_list (tr_edges records) -> edges' ≡ₚ map_to_list (tr_edges records) ->
  derive edges records admitted namespace_id now_ms cfg = derive edges' records admitted namespace_id now_ms cfg.
Proof. intros records Hp Hp'. by apply derive_order. Qed.

(** The separation verdict is symmetric and never panics; it is [Connected]
    exactly for nodes that near edges connect, and [Separated] only when they do
    not and some node connected to the one and some node connected to the other
    both measured each other far: a missing measurement is never evidence. *)
Theorem separation_needs_evidence entries edges admitted namespace_id now_ms cfg view :
  let records := read_entries entries in
  edges ≡ₚ map_to_list (tr_edges records) ->
  derive edges records admitted namespace_id now_ms cfg = Some view ->
  forall a b,
    separated view a b = separated view b a /\
    is_Some (separated view a b) /\
    (separated view a b = Some V_Connected <->
     a ∈ vertices records admitted now_ms cfg /\ b ∈ vertices records admitted now_ms cfg /\
     rtsc (near records admitted now_ms cfg) a b) /\
    (separated view a b = Some V_Separated ->
     ~ rtsc (near records admitted now_ms cfg) a b /\
     exists x y, rtsc (near records admitted now_ms cfg) a x /\ rtsc (near records admitted now_ms cfg) b y /\
       far records admitted now_ms cfg x y).
Proof.
  intros records Hp Hv a b. pose proof (read_hex entries) as Hhex.
  destruct (derive_spec records admitted now_ms cfg edges namespace_id Hhex Hp)
    as (view' & Hv' & Hdis & Hix & Hfar & Hidx & Hlive & Hsame).
  rewrite Hv in Hv'. injection Hv' as <-. split; [apply separated_sym|].
  setoid_rewrite <- Hlive. setoid_rewrite Hidx in Hlive. rewrite !Hidx. setoid_rewrite Hidx in Hsame.
  unfold separated. destruct (sv_cluster_of view !! a) as [ca|] eqn:Ha, (sv_cluster_of view !! b) as [cb|] eqn:Hb;
    try (split_and!; [by eexists|by split; [|intros ([] & [] & _)]|done]).
  assert (ca = cb <-> rtsc (near records admitted now_ms cfg) a b) as Hc.
  { rewrite <- Hsame by (apply Hlive; eauto). rewrite Ha, Hb. naive_solver. }
  case_bool_decide as Hcc.
  { split_and!; [by eexists| |done]. split; [|done]. intros _. split_and!; [by eexists..|]. by apply Hc. }
  rewrite Hix in Ha, Hb. apply member_index_spec in Ha as (x & Hx & Hax), Hb as (y & Hy & Hby); [|done..].
  rewrite Hx, Hy. simpl. split_and!; [by eexists|split; [by case_match|intros (_ & _ & Hr); by apply Hc in Hr]|].
  destruct (enough_far _ _ _ _) eqn:Hcov; [|done]. intros _. split; [by rewrite <- Hc|]. rewrite Hfar in Hcov.
  destruct (covered_far _ _ _ _ _ _ _ _ Hp Hcov) as (u & v & Hu & Hw & Huv).
  exists u, v. split_and!; [|by eapply (members_connected _ _ _ _ _ _ _ cb y)|done].
  by eapply (members_connected _ _ _ _ _ _ _ ca x).
Qed.
End claims.

(** ** A stamp that never ages

    The age of a record is a wrapping subtraction, and a reader bounds stamps only
    from above: the lowest stamp is in the future of every clock. *)

(** A position stamped with the lowest integer is live at every clock before 2^63
    milliseconds, whatever the liveness bound: its author never leaves the view. *)
Lemma lowest_stamp_is_live now_ms cfg p :
  (now_ms < 2 ^ 63)%N -> (tc_liveness_ttl cfg < 2 ^ 63)%N -> np_updated_unix_ms p = (- 2 ^ 63)%Z ->
  position_live now_ms cfg p = true.
Proof.
  intros Hn Hl Hp. unfold position_live, now, i64_sub. rewrite Hp. apply Z.leb_le.
  assert (forall n, (n < 2 ^ 63)%N -> as_i64 n = Z.of_N n) as Hsmall.
  { intros n H. unfold as_i64, i64_wrap. rewrite Z.mod_small; lia. }
  rewrite !Hsmall by done. unfold i64_wrap.
  replace (Z.of_N now_ms - - 2 ^ 63 + 2 ^ 63)%Z with (Z.of_N now_ms + 1 * 2 ^ 64)%Z by lia.
  rewrite Z.mod_add by lia. rewrite Z.mod_small by lia. lia.
Qed.

(** ** A view *)

(** A codec to run the definitions with: a position names its node by one byte, an
    edge is near or far. *)
#[local] Instance view_codec : TopoCodec := {
  fory_decode_position b := b0 ← head b; Some (mk_NetworkPosition (replicate 32 b0) [] 0 [] [] 999000);
  fory_decode_rtt_edge b :=
    b0 ← head b;
    Some (if bool_decide (b0 = Byte.x01) then mk_RttEdge 2000 100 400000 990000 else mk_RttEdge 70000 100 0 990000);
  hex_encode := to_hex;
  hex_decode s := result_ok (decode_hex_chunks s);
}.

Lemma hex_digit_lower b : is_node_hex_byte b = true -> is_Some (hex_digit b).
Proof. destruct b; vm_compute; try discriminate; eauto. Qed.

Lemma digits_decode n s : length s = 2 * n -> forallb is_node_hex_byte s = true -> is_Some (result_ok (decode_hex_chunks s)).
Proof.
  revert s. induction n as [|n IH]; intros s Hl Hs.
  { destruct s; [by eexists|done]. }
  destruct s as [|hi [|lo s]]; simpl in Hl; try lia. simpl in Hs.
  apply andb_true_iff in Hs as [[h Hh]%hex_digit_lower [[l Hlo]%hex_digit_lower Hs]%andb_true_iff].
  simpl. rewrite Hh, Hlo. destruct (IH s) as [out Hout]; [lia|done|].
  destruct (decode_hex_chunks s); [by eexists|done].
Qed.

#[local] Instance view_codec_laws : TopoCodecLaws.
Proof.
  constructor. intros s [Hl Hs]%andb_true_iff. apply N.eqb_eq in Hl. apply (digits_decode 32); [|done].
  unfold len in Hl. lia.
Qed.

Definition view_node (b : byte) : bytes := to_hex (replicate 32 b).
Definition view_position (b : byte) : TopoEntry :=
  mk_TopoEntry (view_node b) (position_key (view_node b)) [b] 1000000 30000.
Definition view_edge (kind a b : byte) : list TopoEntry :=
  [mk_TopoEntry (view_node a) (rtt_key (view_node a) (view_node b)) [kind] 1000000 30000;
   mk_TopoEntry (view_node b) (rtt_key (view_node b) (view_node a)) [kind] 1000000 30000].

(** Two pairs of neighbours, far from each other, and an entry under another's key. *)
Definition view_entries : list TopoEntry :=
  map view_position [Byte.xa1; Byte.xa2; Byte.xb1; Byte.xb2]
  ++ view_edge Byte.x01 Byte.xa1 Byte.xa2 ++ view_edge Byte.x01 Byte.xb1 Byte.xb2
  ++ view_edge Byte.x02 Byte.xa1 Byte.xb1 ++ view_edge Byte.x02 Byte.xa2 Byte.xb2
  ++ [mk_TopoEntry (view_node Byte.xb1) (position_key (view_node Byte.xa1)) [Byte.xb1] 1000000 30000].

Definition view_edges : list ((bytes * bytes) * RttEdge) := map_to_list (tr_edges (read_entries view_entries)).

#[local] Existing Instance plain_externals.

Definition sample_view : option SharedView :=
  derive view_edges (read_entries view_entries) (λ _, true) [] 1000000 default_config.

Definition empty_view : SharedView := mk_SharedView [] 0 ∅ ∅ 0.

Lemma sample_view_some : sample_view = Some (default empty_view sample_view).
Proof.
  assert (match sample_view with Some _ => true | None => false end = true) as H by (vm_compute; reflexivity).
  by destruct sample_view.
Qed.

Lemma clusters_are_components_witness :
  exists view, sample_view = Some view /\ length (sv_clusters view) = 2 /\
    (cluster_index_of_hex view (view_node Byte.xa1) = cluster_index_of_hex view (view_node Byte.xa2) <->
     rtsc (near (read_entries view_entries) (λ _, true) 1000000 default_config) (view_node Byte.xa1) (view_node Byte.xa2)).
Proof.
  destruct (clusters_are_components view_entries view_edges (λ _, true) [] 1000000 default_config) as (view & Hv & _ & H);
    [reflexivity|].
  exists view. split; [exact Hv|]. split.
  - assert (length <$> (sv_clusters <$> sample_view) = Some 2) as Hl by (vm_compute; reflexivity).
    unfold sample_view in Hl. rewrite Hv in Hl. by injection Hl.
  - apply H; eapply bool_decide_eq_true_1; vm_compute; reflexivity.
Defined.

Lemma readers_agree_witness :
  derive (reverse view_edges) (read_entries view_entries) (λ _, true) [] 1000000 default_config = sample_view.
Proof.
  exact (readers_agree view_entries (reverse view_edges) view_edges (λ _, true) [] 1000000 default_config
           (reverse_Permutation view_edges) (Permutation_refl view_edges)).
Defined.

Lemma separation_needs_evidence_witness :
  let view := default empty_view sample_view in
  separated view (view_node Byte.xa1) (view_node Byte.xb2) = Some V_Separated /\
  ~ rtsc (near (read_entries view_entries) (λ _, true) 1000000 default_config) (view_node Byte.xa1) (view_node Byte.xb2).
Proof.
  intros view. assert (separated view (view_node Byte.xa1) (view_node Byte.xb2) = Some V_Separated) as Hs
    by (vm_compute; reflexivity).
  split; [exact Hs|].
  destruct (separation_needs_evidence view_entries view_edges (λ _, true) [] 1000000 default_config view)
    with (a := view_node Byte.xa1) (b := view_node Byte.xb2) as (_ & _ & _ & H);
    [reflexivity|apply sample_view_some|]. by apply H.
Defined.
