(* ===== verification/Placement.v ===== *)
(** * The voter placement planner

    Models [aster/src/coordination/client/placement.rs]: the application's policy
    and its validation, the scoring and enumeration of voter sets, the choice of
    learners, and the recommendation. The topology snapshot is the shared view of
    [Topology]. The texts of the refusals are constructors. *)

From S2P Require Import Prelude Ids Contract Externals Limits State Ticket Authority Shape Topology.

#[local] Open Scope N_scope.
#[local] Open Scope coordination_scope.

Definition TIE_BREAK_DOMAIN : bytes :=
  String.list_byte_of_string "aster.coordination.placement.v1" ++ [Byte.x00].

(** [struct PlacementCandidate]. *)
Record PlacementCandidate : Type := mk_PlacementCandidate {
  pc_node_id : NodeId;
  pc_member_seed : option MemberSeedV1;
}.

(** [struct PlacementPolicy]. *)
Record PlacementPolicy : Type := mk_PlacementPolicy {
  pp_revision : N;
  pp_digest : Hash;
  pp_authority_public_key : bytes;
  pp_authority_domain : bytes;
  pp_target_voters : N;
  pp_target_retained_learners : N;
  pp_eligible : gmap NodeId PlacementCandidate;
  pp_pinned_voters : gset NodeId;
  pp_excluded : gset NodeId;
  pp_minimum_separated_voter_pairs : N;
  pp_replacement_grace : N;
  pp_allow_healthy_rebalance : bool;
}.

(** [struct PlacementInput]. *)
Record PlacementInput : Type := mk_PlacementInput {
  pi_group_id : GroupId;
  pi_genesis_hash : Hash;
  pi_deployment_profile_code : Z;
  pi_membership_log_id : option LogIdV1;
  pi_current_voters : gset NodeId;
  pi_current_learners : gset NodeId;
  pi_active_membership_intent : bool;
  pi_grace_crossed_members : gset NodeId;
  pi_policy : PlacementPolicy;
  pi_topology : SharedView;
}.

(** [struct SeparationSummary]. *)
Record SeparationSummary : Type := mk_SeparationSummary {
  ss_separated_pairs : N;
  ss_connected_pairs : N;
  ss_unknown_pairs : N;
  ss_total_pairs : N;
  ss_represented_clusters : N;
  ss_diversity_proved : bool;
}.

(** [struct PlacementPlan]. *)
Record PlacementPlan : Type := mk_PlacementPlan {
  pl_desired_voters : list NodeId;
  pl_retained_learners : list NodeId;
  pl_member_seeds : list MemberSeedV1;
  pl_expected_membership_log_id : option LogIdV1;
  pl_separation : SeparationSummary;
}.

(** Why a policy is refused. *)
Inductive PolicyFault : Type :=
| PF_TargetVoters
| PF_TargetLearners
| PF_MinimumPairs
| PF_TooManyPins
| PF_PinNotEligible (pin : NodeId)
| PF_PinExcluded (pin : NodeId)
| PF_PinGraceCrossed (pin : NodeId)
| PF_EntryNamesOther (key : NodeId)
| PF_SeedNamesOther (key : NodeId)
| PF_SeedTicket (key : NodeId)
| PF_SeedPermit (key : NodeId) (why : PermitError).

(** Why there is too little evidence, and what is degraded. *)
Inductive MissingEvidence : Type :=
| ME_PinUnavailable (pin : NodeId)
| ME_TooFewCandidates (candidates : N)
| ME_NoFeasibleSet
| ME_SeparatedPairs (best : N)
| ME_LearnerSlots (filled : N).

Inductive DegradedWhy : Type :=
| DW_HealthyVoter
| DW_GraceRetained (members : N).

(** [enum PlacementRecommendation]. *)
Inductive PlacementRecommendation : Type :=
| PR_Stable (separation : SeparationSummary)
| PR_Degraded (why : DegradedWhy) (separation : SeparationSummary)
| PR_Converging
| PR_NeedsProvisioning (candidates : gset NodeId) (desired_voters retained_learners : list NodeId)
| PR_InsufficientEvidence (missing : MissingEvidence)
| PR_InvalidPolicy (why : PolicyFault)
| PR_Plan (plan : PlacementPlan).

(** [struct SelectionEvidence]. *)
Record SelectionEvidence : Type := mk_SelectionEvidence {
  sel_present : list (NodeId * bool);
  sel_co_clustered : list (NodeId * NodeId * bool);
  sel_separation : list (NodeId * NodeId * N);
}.

Definition u8_add (a b : N) : N := (a + b) mod 256.

(** Every pair [(a, b)] with [b] after [a]: [for (i, a) in l { for b in &l[i + 1..] }]. *)
Fixpoint later_pairs {A : Type} (l : list A) : list (A * A) :=
  match l with
  | [] => []
  | a :: l => map (λ b, (a, b)) l ++ later_pairs l
  end.

(** [Vec::dedup]. *)
Fixpoint dedup (l : list NodeId) : list NodeId :=
  match l with
  | x :: ((y :: _) as t) => if bool_decide (x = y) then dedup t else x :: dedup t
  | _ => l
  end.

(** The snapshot's verdict; a view never lacks a cluster its index names. *)
Definition separated_hex (view : SharedView) (a b : bytes) : CoreSeparationVerdict :=
  default V_Unknown (separated view a b).

(** [selection_evidence]. *)
Definition selection_evidence (input : PlacementInput) (voters learners : list NodeId) : SelectionEvidence :=
  let members := dedup (merge_sort node_le (voters ++ learners)) in
  {| sel_present := map (λ n, (n, contains_hex (pi_topology input) (to_hex n))) members;
     sel_co_clustered :=
       map (λ p, (p, match cluster_index_of_hex (pi_topology input) (to_hex p.1),
                           cluster_index_of_hex (pi_topology input) (to_hex p.2) with
                     | Some ca, Some cb => bool_decide (ca = cb)
                     | _, _ => false
                     end)) (later_pairs members);
     sel_separation :=
       map (λ p, (p, match separated_hex (pi_topology input) (to_hex p.1) (to_hex p.2) with
                     | V_Separated => 1
                     | V_Connected => 2
                     | V_Unknown => 0
                     end)) (later_pairs (merge_sort node_le voters)) |}.

(** One pair counted into [separated], [connected] and [unknown]. *)
Definition count_pair (view : SharedView) (counts : N * N * N) (p : bytes * bytes) : N * N * N :=
  let '(separated, connected, unknown) := counts in
  match separated_hex view p.1 p.2 with
  | V_Separated => (u8_add separated 1, connected, unknown)
  | V_Connected => (separated, u8_add connected 1, unknown)
  | V_Unknown => (separated, connected, u8_add unknown 1)
  end.

(** [summarize]. *)
Definition summarize (input : PlacementInput) (voters : gset NodeId) : SeparationSummary :=
  let hexes := map to_hex (in_order voters) in
  let '(separated, connected, unknown) :=
    foldl (count_pair (pi_topology input)) (0, 0, 0) (later_pairs hexes) in
  let clusters : gset nat := list_to_set (omap (cluster_index_of_hex (pi_topology input)) hexes) in
  let total := u8_add (u8_add separated connected) unknown in
  {| ss_separated_pairs := separated;
     ss_connected_pairs := connected;
     ss_unknown_pairs := unknown;
     ss_total_pairs := total;
     ss_represented_clusters := N.min (N.of_nat (size clusters)) 255;
     ss_diversity_proved := (0 <? total) && (separated =? total) |}.

(** ** Validation *)

(** The first fault of a loop. *)
Fixpoint first_fault {A : Type} (f : A -> option PolicyFault) (l : list A) : option PolicyFault :=
  match l with
  | [] => None
  | x :: l => match f x with Some fault => Some fault | None => first_fault f l end
  end.

(** ** Scores *)

(** [struct Scored]. *)
Record Scored : Type := mk_Scored {
  sc_voters : gset NodeId;
  sc_meets_minimum : bool;
  sc_grace_retained : N;
  sc_retained : N;
  sc_summary : SeparationSummary;
  sc_tie : list bytes;
}.

(** One component of a tuple comparison. *)
Definition lex {A K : Type} `{EqDecision K} (key : A -> K) (gt : K -> K -> bool) (next : A -> A -> bool)
    (a b : A) : bool :=
  if bool_decide (key a = key b) then next a b else gt (key a) (key b).

(** The derived order of [Vec<[u8; 32]>]. *)
Fixpoint tags_ltb (a b : list bytes) : bool :=
  match a, b with
  | _, [] => false
  | [], _ :: _ => true
  | x :: a, y :: b => if bool_decide (x = y) then tags_ltb a b else bytes_ltb x y
  end.

(** [Scored::beats]. *)
Definition beats : Scored -> Scored -> bool :=
  lex sc_meets_minimum (λ x y, x && negb y)
    (lex sc_grace_retained N.ltb
       (lex sc_retained (λ x y, y <? x)
          (lex (λ s, ss_separated_pairs (sc_summary s)) (λ x y, y <? x)
             (lex (λ s, ss_represented_clusters (sc_summary s)) (λ x y, y <? x)
                (λ a b, tags_ltb (sc_tie a) (sc_tie b)))))).

Section planner.
Context `{Ext : Externals}.

(** [tie_break_tag]. *)
Definition tie_break_tag (group : GroupId) (node : NodeId) : bytes := blake3 (group ++ TIE_BREAK_DOMAIN ++ node).

Definition tag_le (group : GroupId) (a b : NodeId) : Prop :=
  bytes_leb (tie_break_tag group a) (tie_break_tag group b) = true.
#[export] Instance tag_le_dec group : RelDecision (tag_le group) := λ a b, bool_eq_dec _ _.

Section input.
Context (input : PlacementInput).

Definition check_pin (pin : NodeId) : option PolicyFault :=
  if negb (bool_decide (pin ∈ dom (pp_eligible (pi_policy input)))) then Some (PF_PinNotEligible pin)
  else if bool_decide (pin ∈ pp_excluded (pi_policy input)) then Some (PF_PinExcluded pin)
  else if bool_decide (pin ∈ pi_grace_crossed_members input) then Some (PF_PinGraceCrossed pin)
  else None.

(** The authority a permit is verified under. *)
Definition policy_authority : GroupAuthority :=
  mk_GroupAuthority (pp_authority_public_key (pi_policy input)) (pp_authority_domain (pi_policy input))
    (pi_group_id input) (pi_genesis_hash input).

Definition check_entry (key : NodeId) : option PolicyFault :=
  candidate ← pp_eligible (pi_policy input) !! key;
  if negb (bool_decide (pc_node_id candidate = key)) then Some (PF_EntryNamesOther key)
  else
    seed ← pc_member_seed candidate;
    if negb (bool_decide (msv_node_id seed = key)) then Some (PF_SeedNamesOther key)
    else match check_seed_ticket (msv_ticket seed) key with
    | Err _ => Some (PF_SeedTicket key)
    | Ok _ =>
        permit ← msv_signed_join_permit seed;
        match verify_join_permit policy_authority permit key with
        | Err why => Some (PF_SeedPermit key why)
        | Ok _ => None
        end
    end.

(** [validate_policy]. *)
Definition validate_policy : option PolicyFault :=
  let policy := pi_policy input in
  let target := pp_target_voters policy in
  if profile_permits_voters (pi_deployment_profile_code input) target then Some PF_TargetVoters
  else if MAX_RETAINED_LEARNERS <? pp_target_retained_learners policy then Some PF_TargetLearners
  else if target * (target - 1) / 2 <? pp_minimum_separated_voter_pairs policy then Some PF_MinimumPairs
  else if target <? N.of_nat (size (pp_pinned_voters policy)) then Some PF_TooManyPins
  else match first_fault check_pin (in_order (pp_pinned_voters policy)) with
  | Some fault => Some fault
  | None => first_fault check_entry (in_order (dom (pp_eligible policy)))
  end.

(** ** Enumeration *)

Context (required : gset NodeId) (max_new : N).

(** The score of one voter set. *)
Definition score (voters : gset NodeId) : Scored :=
  let summary := summarize input voters in
  {| sc_voters := voters;
     sc_meets_minimum := pp_minimum_separated_voter_pairs (pi_policy input) <=? ss_separated_pairs summary;
     sc_grace_retained := N.of_nat (size (voters ∩ pi_grace_crossed_members input));
     sc_retained := N.of_nat (size (voters ∩ pi_current_voters input));
     sc_summary := summary;
     sc_tie := merge_sort node_le (map (tie_break_tag (pi_group_id input)) (in_order voters)) |}.

(** The leaf of [recurse]: a chosen set, scored against the best so far. *)
Definition consider (chosen : list NodeId) (best : option Scored) : option Scored :=
  let voters : gset NodeId := list_to_set chosen in
  if negb (bool_decide (required ⊆ voters)) then best
  else if max_new <? N.of_nat (size (voters ∖ pi_current_voters input)) then best
  else
    let scored := score voters in
    match best with
    | None => Some scored
    | Some held => if beats scored held then Some scored else best
    end.

(** The loop of [recurse] over [universe[start..]], with the elements chosen so
    far instead of their indices; the recursive call is a leaf or the loop. *)
Fixpoint each_index (rest chosen : list NodeId) (best : option Scored) : option Scored :=
  match rest with
  | [] => best
  | x :: tail =>
      let target := N.to_nat (pp_target_voters (pi_policy input)) in
      if (length rest <? target - length chosen)%nat then best
      else
        let chosen' := chosen ++ [x] in
        let best :=
          if (length chosen' =? target)%nat then consider chosen' best
          else each_index tail chosen' best in
        each_index tail chosen best
  end.

(** [best_voter_set]. *)
Definition best_voter_set (universe : list NodeId) : option Scored :=
  if (0 =? N.to_nat (pp_target_voters (pi_policy input)))%nat then consider [] None
  else each_index universe [] None.
End input.

(** ** The recommendation *)

Section plan.
Context (input : PlacementInput).
Let policy := pi_policy input.

Definition retainable (node : NodeId) : bool :=
  bool_decide (node ∈ dom (pp_eligible policy)) && negb (bool_decide (node ∈ pp_excluded policy)).
Definition live (node : NodeId) : bool := contains_hex (pi_topology input) (to_hex node).

Definition universe : gset NodeId :=
  filter (λ v, retainable v = true) (pi_current_voters input)
  ∪ filter (λ n, negb (bool_decide (n ∈ pp_excluded policy))
                 && negb (bool_decide (n ∈ pi_current_voters input)) && live n = true)
      (dom (pp_eligible policy)).

(** [ordered.sort_by_key(tie_break_tag)]. *)
Definition ordered_universe : list NodeId := merge_sort (tag_le (pi_group_id input)) (in_order universe).

Definition explicit : bool :=
  pp_allow_healthy_rebalance policy
  || negb (pp_target_voters policy =? N.of_nat (size (pi_current_voters input))).

Definition protected : gset NodeId :=
  filter (λ v, retainable v && negb (bool_decide (v ∈ pi_grace_crossed_members input)) = true)
    (pi_current_voters input).

Definition required_voters : gset NodeId :=
  if explicit then pp_pinned_voters policy
  else
    let with_protected := pp_pinned_voters policy ∪ protected in
    if N.of_nat (size with_protected) <=? pp_target_voters policy then with_protected
    else pp_pinned_voters policy.

Definition new_voter_cap : N := if explicit then MAX_NEW_VOTERS else 1.

(** [max_by_key(tie_break_tag)]: the last of the greatest. *)
Definition greatest_tag (nodes : list NodeId) : option NodeId :=
  foldl (λ best n, match best with
                   | Some b => if bytes_leb (tie_break_tag (pi_group_id input) b) (tie_break_tag (pi_group_id input) n)
                               then Some n else Some b
                   | None => Some n
                   end) None nodes.

(** The loop that trims the learners; the fuel is their number. *)
Fixpoint trim_learners (fuel : nat) (learners : gset NodeId) : gset NodeId :=
  match fuel with
  | O => learners
  | S fuel =>
      if pp_target_retained_learners policy <? N.of_nat (size learners) then
        match greatest_tag (in_order learners) with
        | Some drop => trim_learners fuel (learners ∖ {[drop]})
        | None => learners
        end
      else learners
  end.

Definition kept_learners (voters : gset NodeId) : gset NodeId :=
  let learners :=
    filter (λ l, retainable l && negb (bool_decide (l ∈ pi_grace_crossed_members input))
                 && negb (bool_decide (l ∈ voters)) = true)
      (pi_current_learners input) in
  trim_learners (size learners) learners.

(** The key of the order of fillers: a cluster the voters already represent comes
    last. *)
Definition already_represented (voters : gset NodeId) (n : NodeId) : bool :=
  let voter_clusters := omap (λ v, cluster_index_of_hex (pi_topology input) (to_hex v)) (in_order voters) in
  match cluster_index_of_hex (pi_topology input) (to_hex n) with
  | None => true
  | Some c => bool_decide (c ∈ voter_clusters)
  end.

Definition filler_leb (voters : gset NodeId) (a b : NodeId) : bool :=
  if bool_decide (already_represented voters a = already_represented voters b)
  then bytes_leb (tie_break_tag (pi_group_id input) a) (tie_break_tag (pi_group_id input) b)
  else already_represented voters b.
Definition filler_le (voters : gset NodeId) (a b : NodeId) : Prop := filler_leb voters a b = true.
#[export] Instance filler_le_dec voters : RelDecision (filler_le voters) := λ a b, bool_eq_dec _ _.

Definition fillers (voters learners : gset NodeId) : list NodeId :=
  merge_sort (filler_le voters)
    (filter (λ n, negb (bool_decide (n ∈ voters)) && negb (bool_decide (n ∈ learners))
                  && negb (bool_decide (n ∈ pi_current_voters input)) && live n = true)
       ordered_universe).

Fixpoint fill (learners : gset NodeId) (fillers : list NodeId) : gset NodeId :=
  match fillers with
  | [] => learners
  | filler :: fillers =>
      if pp_target_retained_learners policy <=? N.of_nat (size learners) then learners
      else fill ({[filler]} ∪ learners) fillers
  end.

Definition chosen_learners (voters : gset NodeId) : gset NodeId :=
  fill (kept_learners voters) (fillers voters (kept_learners voters)).

(** The loop over the plan's members that collects seeds. *)
Definition seed_step (current : gset NodeId) (acc : list MemberSeedV1 * gset NodeId) (member : NodeId)
    : list MemberSeedV1 * gset NodeId :=
  let '(seeds, unprovisioned) := acc in
  if bool_decide (member ∈ current) then acc
  else match (pp_eligible policy !! member) ≫= pc_member_seed with
  | Some seed =>
      if bool_decide (is_Some (msv_signed_join_permit seed)) then (seeds ++ [seed], unprovisioned)
      else (seeds, {[member]} ∪ unprovisioned)
  | None => (seeds, {[member]} ∪ unprovisioned)
  end.

Definition seed_node_le (a b : MemberSeedV1) : Prop := bytes_leb (msv_node_id a) (msv_node_id b) = true.
#[export] Instance seed_node_le_dec : RelDecision seed_node_le := λ a b, bool_eq_dec _ _.

(** The end of [plan], for a chosen voter set and its learners. *)
Definition recommend (best : Scored) (learners : gset NodeId) : PlacementRecommendation :=
  if bool_decide (sc_voters best = pi_current_voters input)
     && bool_decide (learners = pi_current_learners input)
  then
    if 0 <? sc_grace_retained best then PR_Degraded (DW_GraceRetained (sc_grace_retained best)) (sc_summary best)
    else PR_Stable (sc_summary best)
  else
    let current := pi_current_voters input ∪ pi_current_learners input in
    let '(member_seeds, unprovisioned) :=
      foldl (seed_step current) ([], ∅) (in_order (sc_voters best ∪ learners)) in
    let desired_voters := in_order (sc_voters best) in
    let retained_learners := in_order learners in
    if negb (bool_decide (unprovisioned = ∅))
    then PR_NeedsProvisioning unprovisioned desired_voters retained_learners
    else PR_Plan {| pl_desired_voters := desired_voters;
                    pl_retained_learners := retained_learners;
                    pl_member_seeds := merge_sort seed_node_le member_seeds;
                    pl_expected_membership_log_id := pi_membership_log_id input;
                    pl_separation := sc_summary best |}.

(** [plan]. *)
Definition plan : PlacementRecommendation :=
  match validate_policy input with
  | Some why => PR_InvalidPolicy why
  | None =>
      if pi_active_membership_intent input then PR_Converging
      else match List.find (λ pin, negb (bool_decide (pin ∈ universe))) (in_order (pp_pinned_voters policy)) with
      | Some pin => PR_InsufficientEvidence (ME_PinUnavailable pin)
      | None =>
          if N.of_nat (size universe) <? pp_target_voters policy
          then PR_InsufficientEvidence (ME_TooFewCandidates (N.of_nat (size universe)))
          else match best_voter_set input required_voters new_voter_cap ordered_universe with
          | None => PR_InsufficientEvidence ME_NoFeasibleSet
          | Some best =>
              if (0 <? pp_minimum_separated_voter_pairs policy) && negb (sc_meets_minimum best)
              then
                if from_option sc_meets_minimum false
                     (best_voter_set input (pp_pinned_voters policy) MAX_NEW_VOTERS ordered_universe)
                then PR_Degraded DW_HealthyVoter (sc_summary best)
                else PR_InsufficientEvidence (ME_SeparatedPairs (ss_separated_pairs (sc_summary best)))
              else
                let learners := chosen_learners (sc_voters best) in
                if N.of_nat (size learners) <? pp_target_retained_learners policy
                then PR_InsufficientEvidence (ME_LearnerSlots (N.of_nat (size learners)))
                else recommend best learners
          end
      end
  end.
End plan.
End planner.
