(* ===== verification/Admission.v ===== *)
(** * Admission to the Store service

    Models the admission half of [aster/src/coordination/store/host.rs]: the
    token buckets and the table of actors, the endpoint with its attachment and
    its count of calls, the guards of a call, the router up to the handler, and
    the drain; and [runtime/pressure.rs], the monitor that publishes the two
    pressure tiers. An instant is a number of nanoseconds, [f64] is the binary64
    format of the Standard Library's [SpecFloat], and the interleaving of calls is
    the step relation [endpoint_step]. *)

From S2P Require Import Prelude Reason Ids Contract Limits Store.
From Stdlib Require Import Floats.SpecFloat.

#[local] Open Scope N_scope.
#[local] Open Scope coordination_scope.

(** ** [f64] and clocks *)

Abbreviation f64 := spec_float.

Definition f64_of_N (n : N) : f64 := binary_normalize 53 1024 (Z.of_N n) 0 false.
Definition f64_add : f64 -> f64 -> f64 := SFadd 53 1024.
Definition f64_sub : f64 -> f64 -> f64 := SFsub 53 1024.
Definition f64_mul : f64 -> f64 -> f64 := SFmul 53 1024.
Definition f64_div : f64 -> f64 -> f64 := SFdiv 53 1024.

(** [f64::min]: a NaN gives the other argument. *)
Definition f64_min (a b : f64) : f64 :=
  match a with
  | S754_nan => b
  | _ => if SFltb b a then b else a
  end.

Abbreviation Instant := N (only parsing).

(** [Instant::duration_since], which saturates to zero, and
    [Duration::as_secs_f64]. *)
Definition duration_since (now earlier : Instant) : N := now - earlier.
Definition as_secs_f64 (nanos : N) : f64 :=
  f64_add (f64_of_N (nanos / 1000000000))
    (f64_div (f64_of_N (nanos mod 1000000000)) (f64_of_N 1000000000)).

(** ** Token buckets *)

(** [struct TokenBucket]. *)
Record TokenBucket : Type := mk_TokenBucket {
  tb_tokens : f64;
  tb_last : Instant;
}.

(** [TokenBucket::new], at [now]. *)
Definition TokenBucket_new (burst : f64) (now : Instant) : TokenBucket := mk_TokenBucket burst now.

(** The refill both [take] and [would_take] begin with. *)
Definition refill (b : TokenBucket) (rate burst : f64) (now : Instant) : TokenBucket :=
  mk_TokenBucket
    (f64_min (f64_add (tb_tokens b) (f64_mul (as_secs_f64 (duration_since now (tb_last b))) rate)) burst)
    now.

(** [TokenBucket::take]. *)
Definition take (b : TokenBucket) (rate burst : f64) (now : Instant) : bool * TokenBucket :=
  let b := refill b rate burst now in
  if SFleb (f64_of_N 1) (tb_tokens b)
  then (true, mk_TokenBucket (f64_sub (tb_tokens b) (f64_of_N 1)) (tb_last b))
  else (false, b).

(** [TokenBucket::would_take]. *)
Definition would_take (b : TokenBucket) (rate burst : f64) (now : Instant) : bool * TokenBucket :=
  let b := refill b rate burst now in
  (SFleb (f64_of_N 1) (tb_tokens b), b).

(** ** The table of actors *)

(** [struct ActorAdmission]. *)
Record ActorAdmission : Type := mk_ActorAdmission {
  aa_in_flight : N;
  aa_mutate : TokenBucket;
  aa_denied : TokenBucket;
  aa_touched : Instant;
}.

(** The constants of §12.2. *)
Definition MAX_TRACKED_ACTORS : N := 1024.
Definition MAX_IN_FLIGHT_PER_ACTOR : N := 32.
Definition MAX_IN_FLIGHT_PER_GROUP : N := 256.
Definition MUTATE_RATE : f64 := f64_of_N 20.
Definition MUTATE_BURST : f64 := f64_of_N 40.
Definition DENIED_RATE : f64 := f64_of_N 10.
Definition DENIED_BURST : f64 := f64_of_N 20.

(** [struct Buckets]. *)
Abbreviation Buckets := (gmap bytes ActorAdmission).

(** The readings of the clock one call of [with] makes, in its order. *)
Record Readings : Type := mk_Readings {
  rd_mutate : Instant;
  rd_denied : Instant;
  rd_created : Instant;
  rd_touched : Instant;
  rd_run : Instant;
}.

(** [min_by_key] on [touched]: the first of the least. *)
Definition older (x y : bytes * ActorAdmission) : bytes * ActorAdmission :=
  if aa_touched y.2 <? aa_touched x.2 then y else x.
Definition min_by_touched (l : list (bytes * ActorAdmission)) : option (bytes * ActorAdmission) :=
  match l with
  | [] => None
  | x :: l => Some (fold_left older l x)
  end.

(** [oldest_idle], over the table in the order its iterator gives. *)
Definition idle (x : bytes * ActorAdmission) : bool := aa_in_flight x.2 =? 0.
Definition oldest_idle (entries : list (bytes * ActorAdmission)) : option bytes :=
  fst <$> min_by_touched (List.filter idle entries).

(** [Buckets::with] before the entry is looked up: the table with room for
    [actor], or nothing where every tracked actor is active. *)
Definition make_room (entries : list (bytes * ActorAdmission)) (actors : Buckets) (actor : bytes)
    : option Buckets :=
  if negb (bool_decide (is_Some (actors !! actor)))
     && (MAX_TRACKED_ACTORS <=? N.of_nat (size actors))
  then (λ oldest, delete oldest actors) <$> oldest_idle entries
  else Some actors.

(** The entry [or_insert_with] creates. *)
Definition fresh_admission (rd : Readings) : ActorAdmission :=
  mk_ActorAdmission 0 (TokenBucket_new MUTATE_BURST (rd_mutate rd))
    (TokenBucket_new DENIED_BURST (rd_denied rd)) (rd_created rd).

(** [Buckets::with]. *)
Definition with_actor {T : Type} (entries : list (bytes * ActorAdmission)) (rd : Readings)
    (actors : Buckets) (actor : bytes) (run : ActorAdmission -> T * ActorAdmission)
    : option T * Buckets :=
  match make_room entries actors actor with
  | None => (None, actors)
  | Some actors =>
      let entry := default (fresh_admission rd) (actors !! actor) in
      let entry := mk_ActorAdmission (aa_in_flight entry) (aa_mutate entry) (aa_denied entry)
                     (rd_touched rd) in
      let '(value, entry) := run entry in
      (Some value, <[actor := entry]> actors)
  end.

Definition set_in_flight (a : ActorAdmission) (n : N) : ActorAdmission :=
  mk_ActorAdmission n (aa_mutate a) (aa_denied a) (aa_touched a).

(** [Buckets::enter]. *)
Definition run_enter (a : ActorAdmission) : bool * ActorAdmission :=
  if MAX_IN_FLIGHT_PER_ACTOR <=? aa_in_flight a then (false, a)
  else (true, set_in_flight a (aa_in_flight a + 1)).
Definition buckets_enter (entries : list (bytes * ActorAdmission)) (rd : Readings) (actors : Buckets)
    (actor : bytes) : bool * Buckets :=
  let '(r, actors) := with_actor entries rd actors actor run_enter in (default false r, actors).

(** [Buckets::leave]. *)
Definition run_leave (a : ActorAdmission) : unit * ActorAdmission :=
  (tt, set_in_flight a (aa_in_flight a - 1)).
Definition buckets_leave (entries : list (bytes * ActorAdmission)) (rd : Readings) (actors : Buckets)
    (actor : bytes) : Buckets :=
  (with_actor entries rd actors actor run_leave).2.

(** [Buckets::take_mutate]. *)
Definition run_take_mutate (rd : Readings) (a : ActorAdmission) : bool * ActorAdmission :=
  let '(ok, b) := take (aa_mutate a) MUTATE_RATE MUTATE_BURST (rd_run rd) in
  (ok, mk_ActorAdmission (aa_in_flight a) b (aa_denied a) (aa_touched a)).
Definition take_mutate (entries : list (bytes * ActorAdmission)) (rd : Readings) (actors : Buckets)
    (actor : bytes) : bool * Buckets :=
  let '(r, actors) := with_actor entries rd actors actor (run_take_mutate rd) in
  (default false r, actors).

(** [Buckets::note_denied]. *)
Definition run_note_denied (rd : Readings) (a : ActorAdmission) : unit * ActorAdmission :=
  (tt, mk_ActorAdmission (aa_in_flight a) (aa_mutate a)
         (take (aa_denied a) DENIED_RATE DENIED_BURST (rd_run rd)).2 (aa_touched a)).
Definition note_denied (entries : list (bytes * ActorAdmission)) (rd : Readings) (actors : Buckets)
    (actor : bytes) : Buckets :=
  (with_actor entries rd actors actor (run_note_denied rd)).2.

(** [Buckets::denied_exhausted]. *)
Definition run_denied_exhausted (rd : Readings) (a : ActorAdmission) : bool * ActorAdmission :=
  let '(ok, b) := would_take (aa_denied a) DENIED_RATE DENIED_BURST (rd_run rd) in
  (negb ok, mk_ActorAdmission (aa_in_flight a) (aa_mutate a) b (aa_touched a)).
Definition denied_exhausted (entries : list (bytes * ActorAdmission)) (rd : Readings)
    (actors : Buckets) (actor : bytes) : bool * Buckets :=
  let '(r, actors) := with_actor entries rd actors actor (run_denied_exhausted rd) in
  (default true r, actors).

(** ** The pressure monitor *)

(** [struct PressureState]. *)
Record PressureState : Type := mk_PressureState {
  pr_growth : bool;
  pr_hard : bool;
  pr_force_growth : bool;
  pr_force_hard : bool;
  pr_state_db_bytes : N;
  pr_raft_db_bytes : N;
  pr_snapshot_bytes : N;
  pr_free_space_bytes : N;
}.

(** [growth_hit] and [hard_hit]. *)
Definition growth_hit (p : PressureState) : bool := pr_growth p || pr_force_growth p.
Definition hard_hit (p : PressureState) : bool := pr_hard p || pr_force_hard p.

Definition HARD_FLOOR_MIN : N := 1024 * 1024 * 1024.

(** [hard_floor]. *)
Definition hard_floor (latest_snapshot : N) : N :=
  N.max HARD_FLOOR_MIN (N.min (latest_snapshot * 2) U64_MAX).

(** What a pass reads of the disk: the metadata of the two databases, the files
    of the snapshot directory, and the free space. *)
Record Disk : Type := mk_Disk {
  dk_state_db : option N;
  dk_raft_db : option N;
  dk_snapshots : option (list (option (bool * N)));
  dk_free_space : option N;
}.

(** [largest_snapshot]: the length of the longest regular file. *)
Definition regular_len (entry : option (bool * N)) : option N :=
  match entry with
  | Some (true, n) => Some n
  | _ => None
  end.
Definition largest_snapshot (snapshots : option (list (option (bool * N)))) : N :=
  match snapshots with
  | None => 0
  | Some entries => fold_right N.max 0 (omap regular_len entries)
  end.

(** [growth_pressure_at]. *)
Definition growth_pressure_at (state_db : option N) (high_water : N) : bool :=
  match state_db with
  | Some n => high_water <=? n
  | None => false
  end.

(** [sample]. *)
Definition sample (disk : Disk) (p : PressureState) : bool * PressureState :=
  let growth := growth_pressure_at (dk_state_db disk) LOCAL_HIGH_WATER in
  let snapshot_len := largest_snapshot (dk_snapshots disk) in
  let floor := hard_floor snapshot_len in
  let free := dk_free_space disk in
  let hard := pr_hard p || pr_force_hard p
              || match free with Some free => free <? floor | None => false end in
  (hard, mk_PressureState growth hard (pr_force_growth p) (pr_force_hard p)
           (default 0 (dk_state_db disk)) (default 0 (dk_raft_db disk)) snapshot_len
           (default 0 free)).

(** [run]: samples until the hard tier is hit; then the shutdown sequence runs
    and the monitor returns. [None] is a monitor that still samples. *)
Fixpoint monitor (disks : list Disk) (p : PressureState) : option (list Disk) * PressureState :=
  match disks with
  | [] => (None, p)
  | disk :: disks =>
      let '(hard, p) := sample disk p in
      if hard then (Some disks, p) else monitor disks p
  end.

(** ** The router *)

(** The handlers [serve_call] chooses between. *)
Inductive Handler : Type :=
| H_mutation
| H_retire_client
| H_read_linearizable
| H_inspect_acl
| H_inspect_admins
| H_membership_status
| H_probe_client
| H_group_status
| H_audit_stream
| H_recovery_export
| H_no_handler.

#[export] Instance Handler_eq_dec : EqDecision Handler.
Proof. solve_decision. Defined.

(** The [match (spec.class, method)] of [serve_call]. *)
Definition route (class : Class_) (method : bytes) : Handler :=
  match class with
  | SequencedMutation => H_mutation
  | SessionlessMutation => H_retire_client
  | LinearizableRead =>
      if bool_decide (method = name "read_linearizable") then H_read_linearizable
      else if bool_decide (method = name "inspect_acl") then H_inspect_acl
      else if bool_decide (method = name "inspect_admins") then H_inspect_admins
      else if bool_decide (method = name "membership_status") then H_membership_status
      else if bool_decide (method = name "probe_client") then H_probe_client
      else H_no_handler
  | StatusCut => H_group_status
  | Stream => if bool_decide (method = name "audit_stream") then H_audit_stream else H_recovery_export
  end.

(** [mutating] of [serve_call]. *)
Definition mutating (class : Class_) : bool :=
  match class with
  | SequencedMutation | SessionlessMutation => true
  | _ => false
  end.

(** [actor_of]: the peer of the transport. *)
Definition actor_of (peer : bytes) : option bytes :=
  match id_parse_hex 32 peer with
  | Ok actor => Some actor
  | Err _ => None
  end.

(** ** The endpoint and its calls *)

(** How a call ended, where it did not reach a handler. *)
Inductive Refusal : Type :=
| RF_GroupCeiling
| RF_NotYetServing
| RF_Unauthenticated
| RF_Unimplemented
| RF_ActorCeiling
| RF_DeniedBudget
| RF_NoFrame
| RF_Cancelled.

(** Where a call is in [dispatch] and [serve_call], with the runtime it cloned:
    counted by [InFlight], past the ceiling of the group, with a runtime, in its
    actor's slot, past the denied-request check, inside a handler, about to drop
    its slot, and about to drop its count. *)
Inductive Stage : Type :=
| S_Counted
| S_Passed
| S_Attached (runtime : nat)
| S_Slotted (runtime : nat) (actor : bytes)
| S_Receiving (runtime : nat) (actor : bytes)
| S_Serving (runtime : nat) (actor : bytes) (handler : Handler)
| S_Leaving (runtime : nat) (actor : bytes)
| S_Finishing.

(** A call, with its status once it is refused. *)
Record CallState : Type := mk_CallState {
  cs_peer : bytes;
  cs_method : bytes;
  cs_stage : Stage;
  cs_refusal : option Refusal;
}.

(** [StoreEndpoint], with the buckets of every runtime that was ever attached
    (a call keeps those of the runtime it cloned) and the calls in progress. *)
Record Endpoint : Type := mk_Endpoint {
  ep_inner : option nat;
  ep_in_flight : N;
  ep_runtimes : gmap nat Buckets;
  ep_calls : gmap nat CallState;
}.

(** [StoreEndpoint::new]. *)
Definition Endpoint_new : Endpoint := mk_Endpoint None 0 ∅ ∅.

Definition set_stage (c : CallState) (s : Stage) : CallState :=
  mk_CallState (cs_peer c) (cs_method c) s (cs_refusal c).
Definition refuse (c : CallState) (s : Stage) (r : Refusal) : CallState :=
  mk_CallState (cs_peer c) (cs_method c) s (Some r).

Definition put_call (e : Endpoint) (id : nat) (c : CallState) : Endpoint :=
  mk_Endpoint (ep_inner e) (ep_in_flight e) (ep_runtimes e) (<[id := c]> (ep_calls e)).
Definition put_runtime (e : Endpoint) (g : nat) (b : Buckets) : Endpoint :=
  mk_Endpoint (ep_inner e) (ep_in_flight e) (<[g := b]> (ep_runtimes e)) (ep_calls e).

(** [attach] of a runtime built by [owner.rs], whose buckets are new, and
    [detach]. *)
Definition attach (e : Endpoint) (g : nat) : Endpoint :=
  mk_Endpoint (Some g) (ep_in_flight e) (<[g := ∅]> (ep_runtimes e)) (ep_calls e).
Definition detach (e : Endpoint) : Endpoint :=
  mk_Endpoint None (ep_in_flight e) (ep_runtimes e) (ep_calls e).

(** [InFlight::enter]: a call arrives and is counted. *)
Definition arrive (e : Endpoint) (id : nat) (peer method : bytes) : Endpoint :=
  mk_Endpoint (ep_inner e) (u64_add (ep_in_flight e) 1) (ep_runtimes e)
    (<[id := mk_CallState peer method S_Counted None]> (ep_calls e)).

(** The drop of [InFlight]. *)
Definition depart (e : Endpoint) (id : nat) : Endpoint :=
  mk_Endpoint (ep_inner e) (u64_sub (ep_in_flight e) 1) (ep_runtimes e) (delete id (ep_calls e)).

(** The check of [dispatch] against the ceiling of the group. *)
Definition check_ceiling (e : Endpoint) (c : CallState) : CallState :=
  if MAX_IN_FLIGHT_PER_GROUP <? ep_in_flight e then refuse c S_Finishing RF_GroupCeiling
  else set_stage c S_Passed.

(** [attached]. *)
Definition read_attached (e : Endpoint) (c : CallState) : CallState :=
  match ep_inner e with
  | None => refuse c S_Finishing RF_NotYetServing
  | Some g => set_stage c (S_Attached g)
  end.

(** [serve_call] up to [ActorInFlight::enter]. *)
Definition enter_slot (entries : list (bytes * ActorAdmission)) (rd : Readings) (actors : Buckets)
    (g : nat) (c : CallState) : CallState * Buckets :=
  match actor_of (cs_peer c) with
  | None => (refuse c S_Finishing RF_Unauthenticated, actors)
  | Some actor =>
      match spec (cs_method c) with
      | None => (refuse c S_Finishing RF_Unimplemented, actors)
      | Some _ =>
          match buckets_enter entries rd actors actor with
          | (true, actors) => (set_stage c (S_Slotted g actor), actors)
          | (false, actors) => (refuse c S_Finishing RF_ActorCeiling, actors)
          end
      end
  end.

(** The denied-request check, which a mutation skips. *)
Definition check_denied (entries : list (bytes * ActorAdmission)) (rd : Readings) (actors : Buckets)
    (g : nat) (actor : bytes) (m : MethodSpec) (c : CallState) : CallState * Buckets :=
  if mutating (ms_class m) then (set_stage c (S_Receiving g actor), actors)
  else
    match denied_exhausted entries rd actors actor with
    | (true, actors) => (refuse c (S_Leaving g actor) RF_DeniedBudget, actors)
    | (false, actors) => (set_stage c (S_Receiving g actor), actors)
    end.

(** [recv_request] and the router. *)
Definition receive (frame : bool) (g : nat) (actor : bytes) (m : MethodSpec) (c : CallState)
    : CallState :=
  if frame then set_stage c (S_Serving g actor (route (ms_class m) (cs_method c)))
  else refuse c (S_Leaving g actor) RF_NoFrame.

(** The stage a call goes to when it returns, or when its future is dropped. *)
Definition unwind (s : Stage) : option Stage :=
  match s with
  | S_Counted | S_Passed | S_Attached _ => Some S_Finishing
  | S_Slotted g a | S_Receiving g a | S_Serving g a _ => Some (S_Leaving g a)
  | S_Leaving _ _ | S_Finishing => None
  end.

(** One step of the endpoint: the runtime attaches or detaches, a call arrives,
    or a call in progress does its next thing. The mutex makes every use of the
    table one step; the iterator's order is any order of the table's entries. No
    machine holds [2^64] calls at a time. *)
Inductive endpoint_step : Endpoint -> Endpoint -> Prop :=
| step_attach e g :
    ep_runtimes e !! g = None -> endpoint_step e (attach e g)
| step_detach e : endpoint_step e (detach e)
| step_arrive e id peer method :
    ep_calls e !! id = None -> N.of_nat (size (ep_calls e)) < U64_MAX ->
    endpoint_step e (arrive e id peer method)
| step_check e id c :
    ep_calls e !! id = Some c -> cs_stage c = S_Counted ->
    endpoint_step e (put_call e id (check_ceiling e c))
| step_attached e id c :
    ep_calls e !! id = Some c -> cs_stage c = S_Passed ->
    endpoint_step e (put_call e id (read_attached e c))
| step_enter e id c g actors entries rd :
    ep_calls e !! id = Some c -> cs_stage c = S_Attached g ->
    ep_runtimes e !! g = Some actors -> entries ≡ₚ map_to_list actors ->
    endpoint_step e
      (let '(c, actors) := enter_slot entries rd actors g c in put_runtime (put_call e id c) g actors)
| step_denied e id c g actor m actors entries rd :
    ep_calls e !! id = Some c -> cs_stage c = S_Slotted g actor -> spec (cs_method c) = Some m ->
    ep_runtimes e !! g = Some actors -> entries ≡ₚ map_to_list actors ->
    endpoint_step e
      (let '(c, actors) := check_denied entries rd actors g actor m c in
       put_runtime (put_call e id c) g actors)
| step_receive e id c g actor m frame :
    ep_calls e !! id = Some c -> cs_stage c = S_Receiving g actor -> spec (cs_method c) = Some m ->
    endpoint_step e (put_call e id (receive frame g actor m c))
| step_take_mutate e id c g actor h actors entries rd :
    ep_calls e !! id = Some c -> cs_stage c = S_Serving g actor h ->
    ep_runtimes e !! g = Some actors -> entries ≡ₚ map_to_list actors ->
    endpoint_step e (put_runtime e g (take_mutate entries rd actors actor).2)
| step_note_denied e id c g actor h actors entries rd :
    ep_calls e !! id = Some c -> cs_stage c = S_Serving g actor h ->
    ep_runtimes e !! g = Some actors -> entries ≡ₚ map_to_list actors ->
    endpoint_step e (put_runtime e g (note_denied entries rd actors actor))
| step_unwind e id c s r :
    ep_calls e !! id = Some c -> unwind (cs_stage c) = Some s ->
    endpoint_step e (put_call e id (mk_CallState (cs_peer c) (cs_method c) s r))
| step_leave e id c g actor actors entries rd :
    ep_calls e !! id = Some c -> cs_stage c = S_Leaving g actor ->
    ep_runtimes e !! g = Some actors -> entries ≡ₚ map_to_list actors ->
    endpoint_step e
      (put_runtime (put_call e id (set_stage c S_Finishing)) g
         (buckets_leave entries rd actors actor))
| step_depart e id c :
    ep_calls e !! id = Some c -> cs_stage c = S_Finishing ->
    endpoint_step e (depart e id).

(** [drain]: it returns once it loads a zero, or at its deadline, five seconds
    after it began. Each round reads the counter, then the clock. *)
Definition DRAIN_FOR : N := 5000000000.
Fixpoint drain (deadline : Instant) (rounds : list (N * Instant)) : option bool :=
  match rounds with
  | [] => None
  | (in_flight, now) :: rounds =>
      if negb (0 <? in_flight) then Some true
      else if negb (now <? deadline) then Some false
      else drain deadline rounds
  end.
