(* ===== verification/AdmissionSafety.v ===== *)
(** * What admission guarantees

    The invariant of the endpoint's step relation: its counter is the number of
    calls in progress, every runtime's table counts the slots its calls hold, and
    both stay within their ceilings. From it: the ceilings, that an actor is
    admitted exactly while it holds fewer than its 32 slots whoever else calls,
    that a drain which saw zero leaves no call with the runtime, and that the hard
    tier of the pressure monitor is a latch. *)

From S2P Require Import Prelude Reason Ids Contract Limits Store Admission.

#[local] Open Scope N_scope.
#[local] Open Scope coordination_scope.

(** ** Counting calls *)

(** How many entries of a map satisfy [p]. *)
Definition count_where {A : Type} (p : A -> bool) (m : gmap nat A) : nat :=
  length (List.filter (λ x, p x.2) (map_to_list m)).

Lemma filter_perm {A : Type} (p : A -> bool) (l k : list A) :
  l ≡ₚ k -> List.filter p l ≡ₚ List.filter p k.
Proof.
  induction 1 as [|x l k _ IH|x y l|l k q _ IH1 _ IH2]; simpl; auto.
  - destruct (p x); auto.
  - destruct (p x), (p y); auto. constructor.
  - by rewrite IH1.
Qed.

Section count.
Context {A : Type} (p : A -> bool).

Lemma count_where_insert (m : gmap nat A) (i : nat) (x : A) :
  m !! i = None -> count_where p (<[i := x]> m) = (Nat.b2n (p x) + count_where p m)%nat.
Proof.
  intros Hi. unfold count_where.
  rewrite (Permutation_length (filter_perm _ _ _ (map_to_list_insert m i x Hi))).
  simpl. by destruct (p x).
Qed.

Lemma count_where_delete (m : gmap nat A) (i : nat) (x : A) :
  m !! i = Some x -> count_where p m = (Nat.b2n (p x) + count_where p (delete i m))%nat.
Proof.
  intros Hi. rewrite <- (insert_delete_id m i x Hi) at 1.
  apply count_where_insert, lookup_delete_eq.
Qed.

Lemma count_where_replace (m : gmap nat A) (i : nat) (x y : A) :
  m !! i = Some x ->
  (count_where p (<[i := y]> m) + Nat.b2n (p x) = count_where p m + Nat.b2n (p y))%nat.
Proof.
  intros Hi. rewrite (count_where_delete m i x Hi), <- (insert_delete_eq m i y).
  rewrite count_where_insert by apply lookup_delete_eq. lia.
Qed.

Lemma count_where_size (m : gmap nat A) : (count_where p m <= size m)%nat.
Proof.
  unfold count_where. rewrite <- length_map_to_list. apply List.filter_length_le.
Qed.

Lemma count_where_pos (m : gmap nat A) :
  (0 < count_where p m)%nat -> ∃ i x, m !! i = Some x ∧ p x = true.
Proof.
  unfold count_where. intros H. destruct (List.filter _ _) as [|[i x] l] eqn:Hf; [simpl in H; lia|].
  exists i, x. assert (Hin : In (i, x) (List.filter (λ x, p x.2) (map_to_list m))) by (rewrite Hf; by left).
  apply List.filter_In in Hin as [Hin Hp]. split; [|done].
  by apply elem_of_map_to_list, list_elem_of_In.
Qed.

Lemma count_where_le (q : A -> bool) (m : gmap nat A) :
  (∀ x, p x = true -> q x = true) -> (count_where p m <= count_where q m)%nat.
Proof.
  intros Hpq. unfold count_where. induction (map_to_list m) as [|[i x] l IH]; simpl; [lia|].
  destruct (p x) eqn:Hp; [rewrite (Hpq _ Hp); simpl; lia|]. destruct (q x); simpl; lia.
Qed.

End count.

(** ** What a call holds *)

(** The slot of an actor a call holds in a runtime's table. *)
Definition slot_of (s : Stage) : option (nat * bytes) :=
  match s with
  | S_Slotted g a | S_Receiving g a | S_Serving g a _ | S_Leaving g a => Some (g, a)
  | _ => None
  end.

(** The runtime a call has cloned. *)
Definition runtime_of (s : Stage) : option nat :=
  match s with
  | S_Attached g => Some g
  | _ => fst <$> slot_of s
  end.

(** Whether a call is past the ceiling of the group. *)
Definition past_gate (c : CallState) : bool :=
  match cs_stage c with
  | S_Counted | S_Finishing => false
  | _ => true
  end.

Definition holds (g : nat) (a : bytes) (c : CallState) : bool :=
  bool_decide (slot_of (cs_stage c) = Some (g, a)).

Definition slots (e : Endpoint) (g : nat) (a : bytes) : N :=
  N.of_nat (count_where (holds g a) (ep_calls e)).

Definition in_flight_of (t : Buckets) (a : bytes) : N := from_option aa_in_flight 0 (t !! a).

(** A table that counts the slots [held]. *)
Record table_ok (held : bytes -> N) (t : Buckets) : Prop := mk_table_ok {
  to_size : N.of_nat (size t) <= MAX_TRACKED_ACTORS;
  to_exact : ∀ a, in_flight_of t a = held a;
  to_ceiling : ∀ a, held a <= MAX_IN_FLIGHT_PER_ACTOR;
}.

Record endpoint_ok (e : Endpoint) : Prop := mk_endpoint_ok {
  eo_count : ep_in_flight e = N.of_nat (size (ep_calls e));
  eo_width : ep_in_flight e <= U64_MAX;
  eo_gate : N.of_nat (count_where past_gate (ep_calls e)) <= MAX_IN_FLIGHT_PER_GROUP;
  eo_inner : ∀ g, ep_inner e = Some g -> is_Some (ep_runtimes e !! g);
  eo_runtime : ∀ id c g, ep_calls e !! id = Some c -> runtime_of (cs_stage c) = Some g ->
    is_Some (ep_runtimes e !! g);
  eo_tables : ∀ g t, ep_runtimes e !! g = Some t -> table_ok (slots e g) t;
}.

Lemma holds_past_gate g a c : holds g a c = true -> past_gate c = true.
Proof.
  unfold holds, past_gate. intros H%bool_decide_eq_true. by destruct (cs_stage c).
Qed.

(** ** The table *)

Lemma min_by_touched_in (l : list (bytes * ActorAdmission)) (x : bytes * ActorAdmission) :
  x ∈ l -> ∃ y, min_by_touched l = Some y ∧ y ∈ l.
Proof.
  destruct l as [|z l]; [by intros ?%not_elem_of_nil|]. intros _. exists (fold_left older l z).
  split; [done|]. clear x. revert z. induction l as [|y l IH]; intros z; simpl; [by left|].
  specialize (IH (older z y)). unfold older in *. destruct (_ <? _); set_solver.
Qed.

(** Where some entry is idle, one that is gives way. *)
Lemma oldest_idle_some (entries : list (bytes * ActorAdmission)) (t : Buckets) a x :
  entries ≡ₚ map_to_list t -> t !! a = Some x -> aa_in_flight x = 0 ->
  ∃ b y, oldest_idle entries = Some b ∧ t !! b = Some y ∧ aa_in_flight y = 0.
Proof.
  intros Hp Ha Hx. assert (Hin : (a, x) ∈ List.filter idle entries).
  { apply list_elem_of_In, List.filter_In. split; [|by apply N.eqb_eq].
    apply list_elem_of_In. rewrite Hp. by apply elem_of_map_to_list. }
  apply min_by_touched_in in Hin as ([b y] & Hmin & Hy).
  apply list_elem_of_In, List.filter_In in Hy as [Hy Hidle%N.eqb_eq].
  exists b, y. unfold oldest_idle. rewrite Hmin. split; [done|]. split; [|done].
  apply list_elem_of_In in Hy. rewrite Hp in Hy. by apply elem_of_map_to_list.
Qed.

(** Whether the table has room, or an entry that can give way. *)
Definition roomy (t : Buckets) : Prop :=
  N.of_nat (size t) < MAX_TRACKED_ACTORS ∨ ∃ a x, t !! a = Some x ∧ aa_in_flight x = 0.

Lemma make_room_ok (held : bytes -> N) entries t a :
  table_ok held t -> roomy t -> entries ≡ₚ map_to_list t ->
  ∃ t', make_room entries t a = Some t' ∧
    (N.of_nat (size t') < MAX_TRACKED_ACTORS ∨
     N.of_nat (size t') <= MAX_TRACKED_ACTORS ∧ is_Some (t' !! a)) ∧
    (∀ b, in_flight_of t' b = in_flight_of t b).
Proof.
  intros Hok Hroom Hp. unfold make_room. pose proof (to_size _ _ Hok) as Hsize.
  case_bool_decide as Hin; simpl; [exists t; eauto|].
  destruct (N.leb_spec MAX_TRACKED_ACTORS (N.of_nat (size t))) as [Hfull|Hless]; [|eauto].
  destruct Hroom as [Hroom|(b & x & Hb & Hx)]; [lia|].
  destruct (oldest_idle_some entries t b x Hp Hb Hx) as (o & y & -> & Ho & Hy).
  exists (delete o t). split; [done|]. split.
  - left. rewrite map_size_delete_Some by eauto. unfold MAX_TRACKED_ACTORS in *. lia.
  - intros d. unfold in_flight_of. destruct (decide (o = d)) as [<-|Hne].
    + by rewrite lookup_delete_eq, Ho.
    + by rewrite lookup_delete_ne.
Qed.

(** [with] finds or creates the entry of its actor, with the count the actor
    holds, and changes no other count. *)
Lemma with_actor_ok {T : Type} (held : bytes -> N) entries rd t a
    (run : ActorAdmission -> T * ActorAdmission) :
  table_ok held t -> roomy t -> entries ≡ₚ map_to_list t ->
  ∃ x t', with_actor entries rd t a run = (Some (run x).1, t') ∧ aa_in_flight x = held a ∧
    N.of_nat (size t') <= MAX_TRACKED_ACTORS ∧ in_flight_of t' a = aa_in_flight (run x).2 ∧
    ∀ b, b ≠ a -> in_flight_of t' b = held b.
Proof.
  intros Hok Hroom Hp. destruct (make_room_ok held entries t a Hok Hroom Hp) as (t1 & Hm & Hs & Hf).
  unfold with_actor. rewrite Hm.
  set (x := mk_ActorAdmission _ _ _ _). exists x, (<[a := (run x).2]> t1).
  split; [by destruct (run x)|]. split.
  - subst x. simpl. rewrite <- (to_exact _ _ Hok), <- Hf. unfold in_flight_of. by destruct (t1 !! a).
  - split; [|split].
    + destruct Hs as [Hs|[Hs Hin]]; [|by rewrite map_size_insert_Some].
      destruct (t1 !! a) eqn:Ha; [rewrite map_size_insert_Some by eauto; lia|].
      rewrite map_size_insert_None by done. lia.
    + unfold in_flight_of. by rewrite lookup_insert_eq.
    + intros b Hb. rewrite <- (to_exact _ _ Hok), <- Hf. unfold in_flight_of.
      by rewrite lookup_insert_ne.
Qed.

(** A use of the table that keeps its actor's count keeps the table right. *)
Lemma with_actor_keeps {T : Type} (held : bytes -> N) entries rd t a
    (run : ActorAdmission -> T * ActorAdmission) :
  (∀ x, aa_in_flight (run x).2 = aa_in_flight x) ->
  table_ok held t -> roomy t -> entries ≡ₚ map_to_list t ->
  table_ok held (with_actor entries rd t a run).2.
Proof.
  intros Hrun Hok Hroom Hp.
  destruct (with_actor_ok held entries rd t a run Hok Hroom Hp) as (x & t' & -> & Hx & Hs & Ha & Hb).
  constructor; [done| |apply Hok]. intros b. simpl. destruct (decide (b = a)) as [->|Hne]; [|auto].
  by rewrite Ha, Hrun.
Qed.

Lemma enter_ok (held : bytes -> N) entries rd t a :
  table_ok held t -> roomy t -> entries ≡ₚ map_to_list t ->
  ∃ t', buckets_enter entries rd t a = (held a <? MAX_IN_FLIGHT_PER_ACTOR, t') ∧
    table_ok (λ b, if bool_decide (b = a) && (held a <? MAX_IN_FLIGHT_PER_ACTOR)
                   then held b + 1 else held b) t'.
Proof.
  intros Hok Hroom Hp. unfold buckets_enter.
  destruct (with_actor_ok held entries rd t a run_enter Hok Hroom Hp)
    as (x & t' & -> & Hx & Hs & Ha & Hb).
  exists t'. unfold run_enter in *. rewrite Hx in *. pose proof (to_ceiling _ _ Hok) as Hc.
  rewrite N.leb_antisym in *. destruct (N.ltb_spec (held a) MAX_IN_FLIGHT_PER_ACTOR) as [Hlt|Hge];
    simpl in *; split; try done; (constructor; [done| |]); intros b; case_bool_decide as Hba;
    simpl; subst; rewrite ?Hb by done; try done; try apply Hc; lia.
Qed.

Lemma leave_ok (held : bytes -> N) entries rd t a :
  table_ok held t -> roomy t -> entries ≡ₚ map_to_list t ->
  table_ok (λ b, if bool_decide (b = a) then held b - 1 else held b) (buckets_leave entries rd t a).
Proof.
  intros Hok Hroom Hp. unfold buckets_leave.
  destruct (with_actor_ok held entries rd t a run_leave Hok Hroom Hp)
    as (x & t' & -> & Hx & Hs & Ha & Hb).
  pose proof (to_ceiling _ _ Hok) as Hc.
  constructor; [done| |]; simpl in *; intros b; case_bool_decide as Hba; subst;
    rewrite ?Hb by done; try done; [by rewrite Ha, Hx|]. specialize (Hc a). lia.
Qed.

(** ** The endpoint *)

Lemma table_ok_ext (held held' : bytes -> N) t :
  (∀ a, held a = held' a) -> table_ok held t -> table_ok held' t.
Proof. intros He [Hs Hx Hc]. constructor; [done|..]; intros a; rewrite <- He; auto. Qed.

(** The actors of the calls that hold a slot. *)
Definition slot_actors (calls : gmap nat CallState) : list bytes :=
  omap (λ x, snd <$> slot_of (cs_stage x.2)) (map_to_list calls).

Lemma slot_actors_length (calls : gmap nat CallState) :
  (length (slot_actors calls) <= count_where past_gate calls)%nat.
Proof.
  unfold slot_actors, count_where. induction (map_to_list calls) as [|[i c] l IH]; [done|].
  unfold past_gate in *. simpl in *. change (@list_omap) with (@omap list _) in *.
  destruct (cs_stage c); simpl; unfold omap in *; lia.
Qed.

(** The ceiling of the group keeps a table from being full of active actors. *)
Lemma tables_roomy e g t : endpoint_ok e -> ep_runtimes e !! g = Some t -> roomy t.
Proof.
  intros Hok Ht. destruct (N.lt_ge_cases (N.of_nat (size t)) MAX_TRACKED_ACTORS) as [?|Hfull]; [by left|].
  right. destruct (decide (map_Forall (λ _ x, aa_in_flight x ≠ 0) t)) as [Hall|Hnot].
  - exfalso. assert (Hsub : (map_to_list t).*1 ⊆+ slot_actors (ep_calls e)).
    { apply NoDup_submseteq; [apply NoDup_fst_map_to_list|].
      intros a Ha. apply list_elem_of_fmap in Ha as ([a' x] & -> & Hx%elem_of_map_to_list). simpl.
      pose proof (to_exact _ _ (eo_tables _ Hok g t Ht) a') as He.
      unfold in_flight_of in He. rewrite Hx in He. simpl in He. specialize (Hall _ _ Hx). simpl in Hall.
      destruct (count_where_pos (holds g a') (ep_calls e)) as (i & c & Hc & Hh);
        [unfold slots in He; lia|].
      apply list_elem_of_omap. exists (i, c). split; [by apply elem_of_map_to_list|].
      apply bool_decide_eq_true in Hh. simpl. by rewrite Hh. }
    apply submseteq_length in Hsub. rewrite length_fmap, length_map_to_list in Hsub.
    pose proof (slot_actors_length (ep_calls e)). pose proof (eo_gate _ Hok).
    unfold MAX_TRACKED_ACTORS, MAX_IN_FLIGHT_PER_GROUP in *. lia.
  - apply map_not_Forall in Hnot as (a & x & Hx & Hz); [|apply _]. exists a, x.
    split; [done|]. destruct (decide (aa_in_flight x = 0)); [done|contradiction].
Qed.

Lemma slots_put e id c c' g a :
  ep_calls e !! id = Some c ->
  slots (put_call e id c') g a + N.of_nat (Nat.b2n (holds g a c)) =
  slots e g a + N.of_nat (Nat.b2n (holds g a c')).
Proof.
  intros Hc. unfold slots. simpl.
  pose proof (count_where_replace (holds g a) (ep_calls e) id c c' Hc). lia.
Qed.

Lemma slots_put_same e id c c' g a :
  ep_calls e !! id = Some c -> holds g a c' = holds g a c ->
  slots (put_call e id c') g a = slots e g a.
Proof. intros Hc He. pose proof (slots_put e id c c' g a Hc). rewrite He in *. lia. Qed.

Lemma holds_same g a c c' : slot_of (cs_stage c') = slot_of (cs_stage c) -> holds g a c' = holds g a c.
Proof. unfold holds. by intros ->. Qed.

(** A call moves on, with the tables it leaves. *)
Lemma put_ok e id c c' rs :
  endpoint_ok e -> ep_calls e !! id = Some c ->
  (past_gate c' = true -> past_gate c = true ∨ ep_in_flight e <= MAX_IN_FLIGHT_PER_GROUP) ->
  (∀ g, is_Some (ep_runtimes e !! g) -> is_Some (rs !! g)) ->
  (∀ g, runtime_of (cs_stage c') = Some g -> is_Some (rs !! g)) ->
  (∀ g t, rs !! g = Some t -> table_ok (slots (put_call e id c') g) t) ->
  endpoint_ok (mk_Endpoint (ep_inner e) (ep_in_flight e) rs (<[id := c']> (ep_calls e))).
Proof.
  intros Hok Hc Hgate Hrs Hrt Ht. constructor; simpl; try apply Hok.
  - rewrite map_size_insert_Some by eauto. apply Hok.
  - pose proof (count_where_replace past_gate _ id c c' Hc) as Hn. pose proof (eo_gate _ Hok).
    pose proof (eo_count _ Hok). pose proof (count_where_size past_gate (<[id := c']> (ep_calls e))) as Hs.
    rewrite map_size_insert_Some in Hs by eauto. destruct (past_gate c'), (past_gate c); simpl in *; lia.
  - intros g Hg. apply Hrs. by apply Hok.
  - intros i d g Hd Hg. destruct (decide (i = id)) as [->|Hne].
    + rewrite lookup_insert_eq in Hd. simplify_eq. auto.
    + rewrite lookup_insert_ne in Hd by done. apply Hrs. by eapply (eo_runtime _ Hok).
  - done.
Qed.

(** A call moves on and keeps what it holds. *)
Lemma put_call_ok e id c c' :
  endpoint_ok e -> ep_calls e !! id = Some c ->
  slot_of (cs_stage c') = slot_of (cs_stage c) ->
  (past_gate c' = true -> past_gate c = true ∨ ep_in_flight e <= MAX_IN_FLIGHT_PER_GROUP) ->
  (∀ g, runtime_of (cs_stage c') = Some g -> is_Some (ep_runtimes e !! g)) ->
  endpoint_ok (put_call e id c').
Proof.
  intros Hok Hc Hs Hgate Hrt. apply (put_ok e id c); try done.
  intros g t Ht. eapply table_ok_ext; [|by apply (eo_tables _ Hok)].
  intros a. symmetry. apply (slots_put_same e id c); [done|]. by apply holds_same.
Qed.

Lemma put_runtime_ok e g t :
  endpoint_ok e -> table_ok (slots e g) t -> endpoint_ok (put_runtime e g t).
Proof.
  intros Hok Ht. constructor; simpl; try apply Hok.
  - intros g' Hg. apply lookup_insert_is_Some'. right. by apply Hok.
  - intros i c g' Hc Hg. apply lookup_insert_is_Some'. right. by eapply (eo_runtime _ Hok).
  - intros g' t'. rewrite lookup_insert_Some. intros [[<- <-]|[Hne H]]; [done|by apply (eo_tables _ Hok)].
Qed.

(** A call moves on, and the table of its runtime with it. *)
Lemma put_slot_ok e id c c' g t t' :
  endpoint_ok e -> ep_calls e !! id = Some c -> ep_runtimes e !! g = Some t ->
  (past_gate c' = true -> past_gate c = true) ->
  (∀ g', runtime_of (cs_stage c') = Some g' -> g' = g) ->
  (∀ g' a, g' ≠ g -> holds g' a c' = holds g' a c) ->
  table_ok (slots (put_call e id c') g) t' ->
  endpoint_ok (put_runtime (put_call e id c') g t').
Proof.
  intros Hok Hc Ht Hgate Hrt Hh Ht'. apply (put_ok e id c); try done; [auto|..].
  - intros g' Hg. apply lookup_insert_is_Some'. by right.
  - intros g' ->%Hrt. apply lookup_insert_is_Some'. by left.
  - intros g' u. rewrite lookup_insert_Some. intros [[<- <-]|[Hne H]]; [done|].
    eapply table_ok_ext; [|by apply (eo_tables _ Hok)].
    intros a. symmetry. apply (slots_put_same e id c); auto.
Qed.

(** ** Every step keeps the invariant *)

Lemma past_gate_stage c : past_gate c = match cs_stage c with S_Counted | S_Finishing => false | _ => true end.
Proof. done. Qed.

Lemma attach_ok e g : endpoint_ok e -> ep_runtimes e !! g = None -> endpoint_ok (attach e g).
Proof.
  intros Hok Hg. assert (Hnone : ∀ a, slots e g a = 0).
  { intros a. unfold slots. destruct (count_where (holds g a) (ep_calls e)) eqn:Hn; [done|].
    destruct (count_where_pos (holds g a) (ep_calls e)) as (i & c & Hc & Hh); [lia|].
    apply bool_decide_eq_true in Hh. destruct (eo_runtime _ Hok i c g Hc) as [? ?]; [|congruence].
    unfold runtime_of. by destruct (cs_stage c); simpl in *; simplify_eq. }
  assert (Hnew : endpoint_ok (put_runtime e g ∅)).
  { apply put_runtime_ok; [done|]. constructor; [done| |]; intros a; rewrite Hnone; done. }
  constructor; simpl; try apply Hnew. intros g' [= ->]. apply lookup_insert_is_Some'. by left.
Qed.

Lemma detach_ok e : endpoint_ok e -> endpoint_ok (detach e).
Proof. intros Hok. constructor; simpl; try apply Hok. done. Qed.

Lemma arrive_ok e id peer method :
  endpoint_ok e -> ep_calls e !! id = None -> N.of_nat (size (ep_calls e)) < U64_MAX ->
  endpoint_ok (arrive e id peer method).
Proof.
  intros Hok Hid Hmax. pose proof (eo_count _ Hok) as Hn.
  assert (Hadd : u64_add (ep_in_flight e) 1 = ep_in_flight e + 1).
  { apply u64_add_small. unfold U64_MAX, U64_MODULUS in *. lia. }
  constructor; simpl; rewrite ?Hadd; try apply Hok.
  - rewrite map_size_insert_None by done. lia.
  - lia.
  - rewrite count_where_insert by done. apply Hok.
  - intros i c g. rewrite lookup_insert_Some. intros [[<- <-]|[_ H]]; [done|by eapply (eo_runtime _ Hok)].
  - intros g t Ht. eapply table_ok_ext; [|by apply (eo_tables _ Hok)].
    intros a. unfold slots. simpl. by rewrite count_where_insert.
Qed.

Lemma depart_ok e id c :
  endpoint_ok e -> ep_calls e !! id = Some c -> cs_stage c = S_Finishing -> endpoint_ok (depart e id).
Proof.
  intros Hok Hc Hs. pose proof (eo_count _ Hok) as Hn. pose proof (eo_width _ Hok) as Hw.
  assert (Hpos : (size (ep_calls e) ≠ 0)%nat).
  { intros H%map_size_empty_inv. by rewrite H, lookup_empty in Hc. }
  assert (Hsub : u64_sub (ep_in_flight e) 1 = ep_in_flight e - 1).
  { unfold u64_sub. change (1 mod U64_MODULUS) with 1.
    replace (ep_in_flight e + (U64_MODULUS - 1)) with ((ep_in_flight e - 1) + 1 * U64_MODULUS)
      by (unfold U64_MODULUS; lia).
    rewrite N.Div0.mod_add. apply N.mod_small. unfold U64_MAX, U64_MODULUS in *. lia. }
  constructor; simpl; rewrite ?Hsub; try apply Hok.
  - rewrite map_size_delete_Some by eauto. lia.
  - lia.
  - pose proof (count_where_delete past_gate _ _ _ Hc). pose proof (eo_gate _ Hok). lia.
  - intros i d g [_ H]%lookup_delete_Some. by eapply (eo_runtime _ Hok).
  - intros g t Ht. eapply table_ok_ext; [|by apply (eo_tables _ Hok)].
    intros a. unfold slots. simpl. rewrite (count_where_delete _ _ _ _ Hc).
    unfold holds at 1. by rewrite Hs.
Qed.

(** A use of the table for a call that keeps its slot. *)
Lemma use_ok {T : Type} e g t a entries rd (run : ActorAdmission -> T * ActorAdmission) :
  (∀ x, aa_in_flight (run x).2 = aa_in_flight x) ->
  endpoint_ok e -> ep_runtimes e !! g = Some t -> entries ≡ₚ map_to_list t ->
  endpoint_ok (put_runtime e g (with_actor entries rd t a run).2).
Proof.
  intros Hrun Hok Ht Hp. apply put_runtime_ok; [done|].
  apply with_actor_keeps; [done|by apply (eo_tables _ Hok)|by eapply tables_roomy|done].
Qed.

Lemma run_take_mutate_keeps rd x : aa_in_flight (run_take_mutate rd x).2 = aa_in_flight x.
Proof. unfold run_take_mutate. by destruct (take _ _ _ _). Qed.

Lemma enter_step_ok e id c g t entries rd :
  endpoint_ok e -> ep_calls e !! id = Some c -> cs_stage c = S_Attached g ->
  ep_runtimes e !! g = Some t -> entries ≡ₚ map_to_list t ->
  endpoint_ok (let '(c, t) := enter_slot entries rd t g c in put_runtime (put_call e id c) g t).
Proof.
  intros Hok Hc Hs Ht Hp. pose proof (tables_roomy _ _ _ Hok Ht) as Hroom.
  pose proof (eo_tables _ Hok g t Ht) as Htab.
  assert (Hnone : ∀ g' a, holds g' a c = false).
  { intros g' a. unfold holds. by rewrite Hs. }
  assert (Hrefuse : ∀ r t', table_ok (slots e g) t' ->
    endpoint_ok (put_runtime (put_call e id (refuse c S_Finishing r)) g t')).
  { intros r t' Ht'. apply (put_slot_ok e id c _ g t); try done.
    eapply table_ok_ext; [|done]. intros a. symmetry. apply (slots_put_same e id c); [done|].
    by rewrite Hnone. }
  unfold enter_slot. destruct (actor_of (cs_peer c)) as [a|]; [|by apply Hrefuse].
  destruct (spec (cs_method c)); [|by apply Hrefuse].
  destruct (enter_ok _ entries rd t a Htab Hroom Hp) as (t' & -> & Ht').
  destruct (slots e g a <? MAX_IN_FLIGHT_PER_ACTOR).
  - apply (put_slot_ok e id c _ g t); try done.
    + by rewrite (past_gate_stage c), Hs.
    + by intros g' [= <-].
    + intros g' b Hne. rewrite Hnone. unfold holds. simpl. apply bool_decide_eq_false. congruence.
    + eapply table_ok_ext; [|done]. intros b. cbn beta. rewrite andb_true_r.
      pose proof (slots_put e id c (set_stage c (S_Slotted g a)) g b Hc) as Hsl.
      rewrite Hnone in Hsl. unfold holds in Hsl. simpl in Hsl.
      repeat case_bool_decide; simplify_eq; simpl in *; lia.
  - apply Hrefuse. eapply table_ok_ext; [|done]. intros b. cbn beta. by rewrite andb_false_r.
Qed.

Lemma leave_step_ok e id c g a t entries rd :
  endpoint_ok e -> ep_calls e !! id = Some c -> cs_stage c = S_Leaving g a ->
  ep_runtimes e !! g = Some t -> entries ≡ₚ map_to_list t ->
  endpoint_ok (put_runtime (put_call e id (set_stage c S_Finishing)) g (buckets_leave entries rd t a)).
Proof.
  intros Hok Hc Hs Ht Hp. apply (put_slot_ok e id c _ g t); try done.
  - intros g' b Hne. unfold holds. rewrite Hs. simpl. symmetry. apply bool_decide_eq_false. congruence.
  - eapply table_ok_ext; [|apply (leave_ok (slots e g)); [by apply (eo_tables _ Hok)|by eapply tables_roomy|done]].
    intros b. simpl. pose proof (slots_put e id c (set_stage c S_Finishing) g b Hc) as Hsl.
    unfold holds in Hsl. rewrite Hs in Hsl. simpl in Hsl.
    repeat case_bool_decide; simplify_eq; simpl in *; lia.
Qed.

Lemma denied_step_ok e id c g a m t entries rd :
  endpoint_ok e -> ep_calls e !! id = Some c -> cs_stage c = S_Slotted g a ->
  ep_runtimes e !! g = Some t -> entries ≡ₚ map_to_list t ->
  endpoint_ok (let '(c, t) := check_denied entries rd t g a m c in put_runtime (put_call e id c) g t).
Proof.
  intros Hok Hc Hs Ht Hp.
  assert (Hput : ∀ c', slot_of (cs_stage c') = Some (g, a) -> runtime_of (cs_stage c') = Some g ->
    endpoint_ok (put_call e id c')).
  { intros c' Hs' Hr. apply (put_call_ok e id c); [done..| | |].
    - by rewrite Hs, Hs'.
    - left. by rewrite (past_gate_stage c), Hs.
    - intros g' Hg. rewrite Hr in Hg. simplify_eq. eauto. }
  unfold check_denied, denied_exhausted. destruct (mutating (ms_class m)).
  { apply put_runtime_ok; [by apply Hput|]. by apply (eo_tables _ (Hput (set_stage c (S_Receiving g a)) eq_refl eq_refl)). }
  assert (Huse : ∀ c', slot_of (cs_stage c') = Some (g, a) -> runtime_of (cs_stage c') = Some g ->
    endpoint_ok (put_runtime (put_call e id c') g
      (with_actor entries rd t a (run_denied_exhausted rd)).2)).
  { intros c' Hs' Hr. apply use_ok; [done|by apply Hput|done|done]. }
  destruct (with_actor entries rd t a (run_denied_exhausted rd)) as [r t'] eqn:Hw. simpl in Huse.
  destruct (default true r); by apply Huse.
Qed.

Lemma endpoint_step_ok e e' : endpoint_step e e' -> endpoint_ok e -> endpoint_ok e'.
Proof.
  destruct 1 as [e g Hg|e|e id peer method Hid Hmax|e id c Hc Hs|e id c Hc Hs
    |e id c g t entries rd Hc Hs Ht Hp|e id c g a m t entries rd Hc Hs Hm Ht Hp
    |e id c g a m frame Hc Hs Hm|e id c g a h t entries rd Hc Hs Ht Hp
    |e id c g a h t entries rd Hc Hs Ht Hp|e id c s r Hc Hs
    |e id c g a t entries rd Hc Hs Ht Hp|e id c Hc Hs]; intros Hok.
  - by apply attach_ok.
  - by apply detach_ok.
  - by apply arrive_ok.
  - apply (put_call_ok e id c); unfold check_ceiling; try done.
    all: destruct (N.ltb_spec MAX_IN_FLIGHT_PER_GROUP (ep_in_flight e)); rewrite ?Hs; simpl; auto.
    all: done.
  - apply (put_call_ok e id c); unfold read_attached; try done.
    all: pose proof (eo_inner _ Hok); destruct (ep_inner e); rewrite ?Hs, ?(past_gate_stage c), ?Hs;
      simpl; auto; try done.
  - by apply enter_step_ok.
  - by apply denied_step_ok.
  - apply (put_call_ok e id c); unfold receive; try done.
    all: rewrite ?(past_gate_stage c), ?Hs; destruct frame; simpl; auto.
    all: intros g' [= <-]; eapply (eo_runtime _ Hok); [done|by rewrite Hs].
  - unfold take_mutate. destruct (with_actor _ _ _ _ _) as [r t'] eqn:Hw.
    pose proof (use_ok e g t a entries rd (run_take_mutate rd) (run_take_mutate_keeps rd) Hok Ht Hp) as Hu.
    by rewrite Hw in Hu.
  - by apply use_ok.
  - pose proof (eo_runtime _ Hok id c) as Hrt.
    apply (put_call_ok e id c); try done; rewrite ?(past_gate_stage c), ?(past_gate_stage (mk_CallState _ _ _ _));
      destruct (cs_stage c); simpl in *; simplify_eq; simpl; auto; try done.
    all: intros g' [= <-]; by apply Hrt.
  - by apply leave_step_ok.
  - by apply (depart_ok e id c).
Qed.

Lemma Endpoint_new_ok : endpoint_ok Endpoint_new.
Proof. constructor; simpl; try done; intros *; rewrite lookup_empty; discriminate. Qed.

Lemma endpoint_steps_ok e e' : rtc endpoint_step e e' -> endpoint_ok e -> endpoint_ok e'.
Proof. induction 1; [done|]. eauto using endpoint_step_ok. Qed.

Lemma reachable_endpoint_ok e : rtc endpoint_step Endpoint_new e -> endpoint_ok e.
Proof. intros H. exact (endpoint_steps_ok _ _ H Endpoint_new_ok). Qed.

(** ** Draining *)

(** A step that leaves the endpoint detached. *)
Definition detached_step (e e' : Endpoint) : Prop := endpoint_step e e' ∧ ep_inner e' = None.

(** What a drain polls: endpoints reached one after the other without an
    attachment. *)
Fixpoint polls (e : Endpoint) (polled : list Endpoint) : Prop :=
  match polled with
  | [] => True
  | e' :: polled => rtc detached_step e e' ∧ polls e' polled
  end.

(** No call has a runtime, and no runtime is attached. *)
Definition quiet (e : Endpoint) : Prop :=
  ep_inner e = None ∧ ∀ id c, ep_calls e !! id = Some c -> runtime_of (cs_stage c) = None.

Lemma quiet_put e id c c' :
  quiet e -> ep_calls e !! id = Some c -> runtime_of (cs_stage c') = None -> quiet (put_call e id c').
Proof.
  intros [Hi Hq] Hc Hr. split; [done|]. intros i d. simpl. rewrite lookup_insert_Some.
  intros [[<- <-]|[_ H]]; [done|by eapply Hq].
Qed.

Lemma quiet_step e e' : detached_step e e' -> quiet e -> quiet e'.
Proof.
  intros [Hstep Hin] [Hi Hq].
  destruct Hstep as [e g Hg|e|e id peer method Hid Hmax|e id c Hc Hs|e id c Hc Hs
    |e id c g t entries rd Hc Hs Ht Hp|e id c g a m t entries rd Hc Hs Hm Ht Hp
    |e id c g a m frame Hc Hs Hm|e id c g a h t entries rd Hc Hs Ht Hp
    |e id c g a h t entries rd Hc Hs Ht Hp|e id c s r Hc Hs
    |e id c g a t entries rd Hc Hs Ht Hp|e id c Hc Hs]; try discriminate Hin;
    try (by specialize (Hq _ _ Hc); rewrite Hs in Hq).
  - by split.
  - split; [done|]. intros i d. simpl. rewrite lookup_insert_Some.
    intros [[<- <-]|[_ H]]; [done|by eapply Hq].
  - apply (quiet_put e id c); [done..|]. unfold check_ceiling. by destruct (_ <? _).
  - apply (quiet_put e id c); [done..|]. unfold read_attached. by rewrite Hi.
  - apply (quiet_put e id c); [done..|]. simpl. pose proof (Hq _ _ Hc) as Hr.
    destruct (cs_stage c); simpl in *; simplify_eq; done.
  - split; [done|]. intros i d. simpl. intros [_ H]%lookup_delete_Some. by eapply Hq.
Qed.

Lemma quiet_steps e e' : rtc detached_step e e' -> quiet e -> quiet e'.
Proof. induction 1; [done|]. eauto using quiet_step. Qed.

Lemma detached_steps_ok e e' : rtc detached_step e e' -> endpoint_ok e -> endpoint_ok e'.
Proof. induction 1 as [|x y z [H _] _ IH]; [done|]. eauto using endpoint_step_ok. Qed.

Lemma detached_steps_inner e e' :
  rtc detached_step e e' -> ep_inner e = None -> ep_inner e' = None.
Proof. induction 1 as [|x y z [_ H] _ IH]; [done|]. auto. Qed.

(** A detached endpoint whose counter is zero has no call at all. *)
Lemma zero_is_quiet e : endpoint_ok e -> ep_inner e = None -> ep_in_flight e = 0 -> quiet e.
Proof.
  intros Hok Hi Hz. split; [done|]. intros id c Hc. pose proof (eo_count _ Hok) as Hn.
  rewrite Hz in Hn. assert (Hs : size (ep_calls e) = 0%nat) by lia.
  apply map_size_empty_inv in Hs. by rewrite Hs, lookup_empty in Hc.
Qed.

Lemma quiet_polls e polled e' :
  polls e polled -> rtc detached_step (default e (list.last polled)) e' -> quiet e -> quiet e'.
Proof.
  revert e. induction polled as [|x polled IH]; intros e Hp Hl Hq; [by eapply quiet_steps|].
  destruct Hp as [Hx Hp]. apply (IH x); [done| |by eapply quiet_steps].
  rewrite last_cons in Hl. by destruct (list.last polled).
Qed.

Lemma drained_quiet deadline e polled nows e' :
  endpoint_ok e -> ep_inner e = None -> polls e polled ->
  drain deadline (zip (ep_in_flight <$> polled) nows) = Some true ->
  rtc detached_step (default e (list.last polled)) e' -> quiet e'.
Proof.
  revert e nows. induction polled as [|x polled IH]; intros e nows Hok Hi Hp Hd Hl; [discriminate Hd|].
  destruct nows as [|now nows]; [discriminate Hd|]. destruct Hp as [Hx Hp]. simpl in Hd.
  pose proof (detached_steps_ok _ _ Hx Hok) as Hokx. pose proof (detached_steps_inner _ _ Hx Hi) as Hix.
  assert (Hl' : rtc detached_step (default x (list.last polled)) e').
  { rewrite last_cons in Hl. by destruct (list.last polled). }
  destruct (N.ltb_spec 0 (ep_in_flight x)) as [Hpos|Hz]; simpl in Hd.
  - destruct (now <? deadline); [|discriminate Hd]. exact (IH x nows Hokx Hix Hp Hd Hl').
  - eapply quiet_polls; [done..|]. apply zero_is_quiet; [done..|]. lia.
Qed.

Lemma drain_returns deadline rounds :
  Exists (λ r, deadline <= r.2) rounds -> is_Some (drain deadline rounds).
Proof.
  induction 1 as [[n now] l H|[n now] l _ IH]; simpl in *; destruct (0 <? n); simpl; eauto.
  - assert (now <? deadline = false) as -> by (apply N.ltb_ge; lia). eauto.
  - destruct (now <? deadline); eauto.
Qed.

(** ** The hard tier *)

(** A disk that is short of space. *)
Definition short_of_space (disk : Disk) : bool :=
  match dk_free_space disk with
  | Some free => free <? hard_floor (largest_snapshot (dk_snapshots disk))
  | None => false
  end.

(** The monitor returns at the first pass that finds the tier hit, and leaves it
    hit; while it samples, no pass found it. *)
Lemma monitor_latches disks p :
  match monitor disks p with
  | (Some rest, p') => hard_hit p' = true ∧
      (hard_hit p = true ∨ ∃ before disk, disks = before ++ disk :: rest ∧
         short_of_space disk = true ∧ Forall (λ d, short_of_space d = false) before)
  | (None, p') => Forall (λ d, short_of_space d = false) disks ∧ (disks ≠ [] -> hard_hit p' = false)
  end.
Proof.
  revert p. induction disks as [|d disks IH]; intros p; [by split|].
  simpl. destruct (pr_hard p || pr_force_hard p) eqn:Hhit; simpl.
  { split; [by unfold hard_hit|by left]. }
  fold (short_of_space d). destruct (short_of_space d) eqn:Hd.
  { split; [done|]. right. by exists [], d. }
  specialize (IH (sample d p).2). unfold sample in IH. simpl in IH.
  fold (short_of_space d) in IH. rewrite Hhit, Hd in IH. simpl in IH.
  destruct (monitor disks _) as [[rest|] p'] eqn:Hm.
  - destruct IH as [Hp' [Hf|(before & x & -> & Hx & Hb)]]; (split; [done|]).
    + unfold hard_hit in *. simpl in Hf. apply orb_false_elim in Hhit as [_ Hff].
      rewrite Hff in Hf. discriminate Hf.
    + right. exists (d :: before), x. split; [done|]. by split; [|constructor].
  - destruct IH as [Hall Hn]. split; [by constructor|]. intros _. destruct disks; [|by apply Hn].
    simpl in Hm. simplify_eq. unfold hard_hit. simpl. by apply orb_false_elim in Hhit as [_ ->].
Qed.

(** ** Facts of the tables *)

(** Every method the service declares has a handler. *)
Lemma methods_routed : Forall (λ m, route (ms_class m) (ms_name m) ≠ H_no_handler) METHODS.
Proof. unfold METHODS. repeat constructor; vm_compute; discriminate. Qed.

(** A full bucket gives its burst, and no more, at one instant. *)
Fixpoint takes (n : nat) (b : TokenBucket) (rate burst : f64) (now : N) : list bool :=
  match n with
  | O => []
  | S n => let '(ok, b) := take b rate burst now in ok :: takes n b rate burst now
  end.

(** The same with the clock left out. *)
Fixpoint takes_at (n : nat) (tokens rate burst : f64) : list bool :=
  match n with
  | O => []
  | S n =>
      let tokens := f64_min (f64_add tokens (f64_mul (as_secs_f64 0) rate)) burst in
      if SpecFloat.SFleb (f64_of_N 1) tokens
      then true :: takes_at n (f64_sub tokens (f64_of_N 1)) rate burst
      else false :: takes_at n tokens rate burst
  end.

Lemma takes_now n tokens rate burst now :
  takes n (mk_TokenBucket tokens now) rate burst now = takes_at n tokens rate burst.
Proof.
  revert tokens. induction n as [|n IH]; intros tokens; [done|]. cbn [takes takes_at].
  unfold take, refill, duration_since. cbn [tb_tokens tb_last]. rewrite N.sub_diag.
  by destruct (SpecFloat.SFleb _ _); rewrite IH.
Qed.

Lemma bursts now :
  takes 41 (TokenBucket_new MUTATE_BURST now) MUTATE_RATE MUTATE_BURST now
    = replicate 40 true ++ [false] ∧
  takes 21 (TokenBucket_new DENIED_BURST now) DENIED_RATE DENIED_BURST now
    = replicate 20 true ++ [false].
Proof. unfold TokenBucket_new. rewrite !takes_now. vm_compute. by split. Qed.

(** ** The guarantees *)

(** C26: However calls arrive, are checked, admitted, served, cancelled and
    dropped, over whatever attachments and orders of iteration: at most 256 calls
    are past the group's gate at a time; every runtime's table tracks at most
    1,024 actors and counts for each exactly the slots its calls hold, at most 32;
    and a further call of an actor is given a slot exactly when the actor holds
    fewer than 32, so that no other caller can take its slots away nor reset its
    count. *)
Theorem admission_ceilings e :
  rtc endpoint_step Endpoint_new e ->
  ep_in_flight e = N.of_nat (size (ep_calls e)) ∧
  N.of_nat (count_where past_gate (ep_calls e)) <= MAX_IN_FLIGHT_PER_GROUP ∧
  ∀ g t, ep_runtimes e !! g = Some t ->
    N.of_nat (size t) <= MAX_TRACKED_ACTORS ∧
    ∀ a, in_flight_of t a = slots e g a ∧ slots e g a <= MAX_IN_FLIGHT_PER_ACTOR ∧
      ∀ entries rd, entries ≡ₚ map_to_list t ->
        (buckets_enter entries rd t a).1 = bool_decide (slots e g a < MAX_IN_FLIGHT_PER_ACTOR).
Proof.
  intros Hok%reachable_endpoint_ok. split; [apply Hok|]. split; [apply Hok|].
  intros g t Ht. pose proof (eo_tables _ Hok g t Ht) as Htab. split; [apply Htab|].
  intros a. split; [apply Htab|]. split; [apply Htab|]. intros entries rd Hp.
  destruct (enter_ok _ entries rd t a Htab (tables_roomy _ _ _ Hok Ht) Hp) as (t' & -> & _).
  simpl. case_bool_decide; [by apply N.ltb_lt|by apply N.ltb_ge, N.nlt_ge].
Qed.

(** After the endpoint was detached, a drain that loaded a zero means that no
    call has the runtime, and that none will until the next attachment, even one
    that was already on its way in; and the drain returns at the latest at the
    first round past its deadline. *)
Theorem drain_leaves_no_call e polled nows began e' :
  rtc endpoint_step Endpoint_new e -> ep_inner e = None -> polls e polled ->
  rtc detached_step (default e (list.last polled)) e' ->
  let rounds := zip (ep_in_flight <$> polled) nows in
  (drain (began + DRAIN_FOR) rounds = Some true ->
     ∀ id c, ep_calls e' !! id = Some c -> runtime_of (cs_stage c) = None) ∧
  (Exists (λ r, began + DRAIN_FOR <= r.2) rounds -> is_Some (drain (began + DRAIN_FOR) rounds)).
Proof.
  intros Hok%reachable_endpoint_ok Hi Hp Hl rounds. split; [|apply drain_returns].
  intros Hd. exact (proj2 (drained_quiet _ e polled nows e' Hok Hi Hp Hd Hl)).
Qed.

(** ** A concrete call *)

Definition demo_actor : bytes := replicate 32 Byte.x07.
Definition demo_call : CallState := mk_CallState (to_hex demo_actor) (name "acquire") S_Counted None.
Definition demo_readings : Readings := mk_Readings 1 2 3 4 5.
Definition demo_arrived : Endpoint :=
  arrive (attach Endpoint_new 0) 0 (cs_peer demo_call) (cs_method demo_call).
Definition demo_passed : Endpoint := put_call demo_arrived 0 (check_ceiling demo_arrived demo_call).
Definition demo_attached : Endpoint :=
  put_call demo_passed 0 (read_attached demo_passed (set_stage demo_call S_Passed)).
Definition demo_slotted : Endpoint :=
  let '(c, t) := enter_slot [] demo_readings ∅ 0 (set_stage demo_call (S_Attached 0)) in
  put_runtime (put_call demo_attached 0 c) 0 t.

Lemma demo_run : rtc endpoint_step Endpoint_new demo_slotted.
Proof.
  apply (rtc_l _ _ (attach Endpoint_new 0)); [by constructor|].
  apply (rtc_l _ _ demo_arrived); [by constructor|].
  apply (rtc_l _ _ demo_passed); [by constructor|].
  apply (rtc_l _ _ demo_attached); [by constructor|].
  apply rtc_once. by apply (step_enter demo_attached 0 _ 0 ∅ []).
Qed.

Lemma admission_ceilings_witness :
  rtc endpoint_step Endpoint_new demo_slotted ∧ slots demo_slotted 0 demo_actor = 1 ∧
  N.of_nat (count_where past_gate (ep_calls demo_slotted)) <= MAX_IN_FLIGHT_PER_GROUP.
Proof.
  split; [exact demo_run|]. split; [vm_compute; reflexivity|].
  exact (proj1 (proj2 (admission_ceilings demo_slotted demo_run))).
Defined.
