(* ===== verification/NodeRuntime.v ===== *)
(** * The runtime of a voter: lifecycle, readiness, controllers and shutdown

    Models [aster/src/coordination/runtime/lifecycle.rs] (the classification of a
    node), [runtime/readiness.rs] (the published view, the wait for readiness and
    the startup clock), [runtime/owner.rs] (the facts the runtime keeps, the
    lifecycle loop, the registry of controller tasks and the shutdown sequence),
    [runtime/config.rs] (the pinned consensus configuration and its checks) and
    the allowlist of [network/admit.rs] the loop graduates. The consensus
    library's metrics and the clock are arguments; durations are in
    milliseconds. *)

From S2P Require Import Prelude Reason Ids Contract Limits State Tables Apply Durable Store Admission.

#[local] Open Scope N_scope.
#[local] Open Scope coordination_scope.

(** ** The lifecycle of a node *)

(** [enum LifecycleCode]. *)
Inductive LifecycleCode : Type :=
| Bootstrapping
| Joining
| Ready
| NoQuorum
| Draining
| Fatal.

(** [LifecycleCode::code]. *)
Definition lifecycle_code (c : LifecycleCode) : Z :=
  match c with
  | Bootstrapping => 1
  | Joining => 2
  | Ready => 3
  | NoQuorum => 4
  | Draining => 5
  | Fatal => 6
  end%Z.

(** [enum LocalRole] and [LocalRole::code]. *)
Inductive LocalRole : Type :=
| Role_None
| Role_Learner
| Role_Voter.
Definition role_code (r : LocalRole) : Z :=
  match r with
  | Role_None => 0
  | Role_Learner => 1
  | Role_Voter => 2
  end%Z.

(** [enum Corridor]. *)
Inductive Corridor : Type :=
| C_Bootstrapping
| C_Joining
| C_Running.

(** [enum FatalCause] and [FatalCause::code]. *)
Inductive FatalCause : Type :=
| FC_Storage (detail : bytes)
| FC_Raft (detail : bytes)
| FC_ProfileViolation (profile : Z) (voters : N)
| FC_IdentityMismatch (detail : bytes).
Definition fatal_code (c : FatalCause) : Z :=
  match c with
  | FC_Storage _ => 1
  | FC_Raft _ => 2
  | FC_ProfileViolation _ _ => 3
  | FC_IdentityMismatch _ => 4
  end%Z.

#[export] Instance LifecycleCode_eq_dec : EqDecision LifecycleCode.
Proof. solve_decision. Defined.
#[export] Instance LocalRole_eq_dec : EqDecision LocalRole.
Proof. solve_decision. Defined.
#[export] Instance Corridor_eq_dec : EqDecision Corridor.
Proof. solve_decision. Defined.
#[export] Instance FatalCause_eq_dec : EqDecision FatalCause.
Proof. solve_decision. Defined.

(** What is read of [openraft::RaftMetrics]; a running state that is an error
    carries its text. *)
Record NodeMetrics : Type := mk_NodeMetrics {
  mt_running_state : result unit bytes;
  mt_id : NodeId;
  mt_current_term : N;
  mt_last_applied : option LogId;
  mt_state : ServerState;
  mt_current_leader : option NodeId;
  mt_millis_since_quorum_ack : option N;
}.

(** [struct LocalFacts]. *)
Record LocalFacts : Type := mk_LocalFacts {
  lf_corridor : Corridor;
  lf_draining : bool;
  lf_fatal : option FatalCause;
  lf_follower_contact_age : option N;
  lf_leader_liveness_timeout : N;
  lf_genesis_installed : bool;
  lf_committed : StoredMembership;
}.

(** [struct LifecycleView]. *)
Record LifecycleView : Type := mk_LifecycleView {
  lv_code : LifecycleCode;
  lv_local_role : LocalRole;
  lv_quorum_available : option bool;
  lv_fatal : option FatalCause;
}.

Definition is_some_and {A : Type} (o : option A) (p : A -> bool) : bool :=
  match o with Some x => p x | None => false end.

(** [role_of]. *)
Definition role_of (metrics : NodeMetrics) (local : LocalFacts) : LocalRole :=
  let membership := sm_membership (lf_committed local) in
  if bool_decide (mt_id metrics ∈ rm_voter_ids membership) then Role_Voter
  else if bool_decide (mt_id metrics ∈ rm_nodes membership) then Role_Learner
  else Role_None.

(** [quorum_evidence]. *)
Definition quorum_evidence (metrics : NodeMetrics) (local : LocalFacts) : option bool :=
  match mt_state metrics with
  | SV_Leader =>
      Some (is_some_and (mt_millis_since_quorum_ack metrics)
              (λ ms, ms <=? lf_leader_liveness_timeout local))
  | _ => None
  end.

(** [leader_observation_is_fresh]. *)
Definition leader_observation_is_fresh (metrics : NodeMetrics) (local : LocalFacts) : bool :=
  match mt_state metrics with
  | SV_Leader =>
      is_some_and (mt_millis_since_quorum_ack metrics) (λ ms, ms <=? lf_leader_liveness_timeout local)
  | SV_Follower =>
      is_some_and (lf_follower_contact_age local) (λ age, age <=? lf_leader_liveness_timeout local)
  | SV_Candidate | SV_Learner | SV_Shutdown => false
  end.

(** [applied_through_the_leaders_blank_entry]. *)
Definition applied_through_the_leaders_blank_entry (metrics : NodeMetrics) : bool :=
  is_some_and (mt_last_applied metrics) (λ id, li_term id =? mt_current_term metrics).

(** [view]. *)
Definition view (code : LifecycleCode) (role : LocalRole) (quorum : option bool) : LifecycleView :=
  mk_LifecycleView code role quorum None.

(** [classify]. *)
Definition classify_node (metrics : NodeMetrics) (local : LocalFacts) : LifecycleView :=
  let local_role := role_of metrics local in
  let quorum_available := quorum_evidence metrics local in
  let fatal :=
    match lf_fatal local with
    | Some cause => Some cause
    | None => match mt_running_state metrics with Err e => Some (FC_Raft e) | Ok _ => None end
    end in
  match fatal with
  | Some cause => mk_LifecycleView Fatal local_role quorum_available (Some cause)
  | None =>
      if lf_draining local then view Draining local_role quorum_available
      else
        match lf_corridor local with
        | C_Joining => view Joining local_role quorum_available
        | C_Bootstrapping => view Bootstrapping local_role quorum_available
        | C_Running =>
            let ready :=
              bool_decide (local_role = Role_Voter)
              && leader_observation_is_fresh metrics local
              && applied_through_the_leaders_blank_entry metrics
              && lf_genesis_installed local in
            view (if ready then Ready else NoQuorum) local_role quorum_available
        end
  end.

(** ** The startup clock and the published view *)

(** [struct StartupClock], whose clock is in microseconds; a counter is a [u64]
    with a value for what was not measured. *)
Definition UNMEASURED : N := U64_MAX.
Record StartupClock : Type := mk_StartupClock {
  sc_began : N;
  sc_storage_open_micros : N;
  sc_ready_micros : N;
}.

(** [StartupClock::started]. *)
Definition started (now : N) : StartupClock := mk_StartupClock now UNMEASURED UNMEASURED.

(** [compare_exchange] from [UNMEASURED]: the first writer wins. *)
Definition measure (held micros : N) : N :=
  if held =? UNMEASURED then N.min micros (U64_MAX - 1) else held.

(** [record_storage_open] and [record_ready], with the time in microseconds. *)
Definition record_storage_open (c : StartupClock) (took : N) : StartupClock :=
  mk_StartupClock (sc_began c) (measure (sc_storage_open_micros c) took) (sc_ready_micros c).
Definition record_ready (c : StartupClock) (now : N) : StartupClock :=
  mk_StartupClock (sc_began c) (sc_storage_open_micros c)
    (measure (sc_ready_micros c) (now - sc_began c)).

(** [storage_open_micros] and [start_to_ready_micros]. *)
Definition measured (micros : N) : option N := if micros =? UNMEASURED then None else Some micros.
Definition storage_open_micros (c : StartupClock) : option N := measured (sc_storage_open_micros c).
Definition start_to_ready_micros (c : StartupClock) : option N := measured (sc_ready_micros c).

(** [LifecyclePublisher::publish], at [now]: the new value of the channel. *)
Definition publish (c : StartupClock) (now : N) (v : LifecycleView) : StartupClock * LifecycleView :=
  (if bool_decide (lv_code v = Ready) then record_ready c now else c, v).

(** [enum NotReady]. *)
Inductive NotReady : Type :=
| NR_Fatal (cause : FatalCause)
| NR_ShutDown.

(** [Readiness::wait_ready]: each round borrows the latest view and waits for a
    change. The views are those the rounds borrow; after the last the publisher
    is dropped, or the call still waits. *)
Fixpoint wait_ready (views : list LifecycleView) (dropped : bool) : option (result unit NotReady) :=
  match views with
  | [] => if dropped then Some (Err NR_ShutDown) else None
  | v :: views =>
      match lv_code v with
      | Ready => Some (Ok tt)
      | Fatal => Some (Err (NR_Fatal (default (FC_Raft (name "fatal with no recorded cause")) (lv_fatal v))))
      | _ => wait_ready views dropped
      end
  end.

(** ** The allowlist of senders *)

(** [struct SenderAllowlist]. *)
Record SenderAllowlist : Type := mk_SenderAllowlist {
  sa_seeds : gset NodeId;
  sa_graduated : bool;
}.

(** [seeded] and [from_membership]. *)
Definition seeded (seeds : gset NodeId) : SenderAllowlist := mk_SenderAllowlist seeds false.
Definition from_membership : SenderAllowlist := mk_SenderAllowlist ∅ true.

(** [SenderAllowlist::observe]. *)
Definition observe_members (a : SenderAllowlist) (local : NodeId) (members : gset NodeId)
    : SenderAllowlist :=
  if bool_decide (local ∈ members) then mk_SenderAllowlist (sa_seeds a) true else a.

(** [SenderAllowlist::permits]. *)
Definition permits (a : SenderAllowlist) (sender : NodeId) (members : gset NodeId) : bool :=
  if sa_graduated a then bool_decide (sender ∈ members) else bool_decide (sender ∈ sa_seeds a).

(** ** The facts the runtime keeps *)

(** [struct RuntimeFacts]: the corridor as its code, and the last contact of the
    leader as an offset from the origin. *)
Record RuntimeFacts : Type := mk_RuntimeFacts {
  rf_corridor : N;
  rf_draining : bool;
  rf_last_leader_contact_ms : N;
  rf_origin : N;
  rf_fatal : option FatalCause;
  rf_genesis_installed : bool;
}.

(** [corridor_code] and [corridor_of]. *)
Definition corridor_code (c : Corridor) : N :=
  match c with
  | C_Running => 0
  | C_Bootstrapping => 1
  | C_Joining => 2
  end.
Definition corridor_of (code : N) : Corridor :=
  match code with
  | 1 => C_Bootstrapping
  | 2 => C_Joining
  | _ => C_Running
  end.

(** [RuntimeFacts::new]. *)
Definition RuntimeFacts_new (c : Corridor) (now : N) : RuntimeFacts :=
  mk_RuntimeFacts (corridor_code c) false U64_MAX now None false.

(** [note_leader_contact]. *)
Definition note_leader_contact (f : RuntimeFacts) (now : N) : RuntimeFacts :=
  mk_RuntimeFacts (rf_corridor f) (rf_draining f) (N.min (now - rf_origin f) U64_MAX) (rf_origin f)
    (rf_fatal f) (rf_genesis_installed f).

(** [enter] and [corridor]. *)
Definition enter_corridor (f : RuntimeFacts) (c : Corridor) : RuntimeFacts :=
  mk_RuntimeFacts (corridor_code c) (rf_draining f) (rf_last_leader_contact_ms f) (rf_origin f)
    (rf_fatal f) (rf_genesis_installed f).
Definition corridor (f : RuntimeFacts) : Corridor := corridor_of (rf_corridor f).

(** [begin_draining]. *)
Definition begin_draining (f : RuntimeFacts) : RuntimeFacts :=
  mk_RuntimeFacts (rf_corridor f) true (rf_last_leader_contact_ms f) (rf_origin f) (rf_fatal f)
    (rf_genesis_installed f).

(** [note_genesis_installed]. *)
Definition note_genesis_installed (f : RuntimeFacts) : RuntimeFacts :=
  mk_RuntimeFacts (rf_corridor f) (rf_draining f) (rf_last_leader_contact_ms f) (rf_origin f)
    (rf_fatal f) true.

(** [latch_fatal]: the first cause wins. *)
Definition latch_fatal (f : RuntimeFacts) (cause : FatalCause) : RuntimeFacts :=
  match rf_fatal f with
  | Some _ => f
  | None =>
      mk_RuntimeFacts (rf_corridor f) (rf_draining f) (rf_last_leader_contact_ms f) (rf_origin f)
        (Some cause) (rf_genesis_installed f)
  end.

(** [snapshot] reads the shared facts one at a time, each with its own load or
    lock and nothing held across them: the last contact, the corridor, the
    draining flag, the fatal latch, the clock the contact's age is taken from,
    and the genesis. What it has read so far. *)
Inductive SnapshotPc : Type :=
| SN_Start
| SN_Contact (contact : N)
| SN_Corridor (contact : N) (c : Corridor)
| SN_Draining (contact : N) (c : Corridor) (draining : bool)
| SN_Fatal (contact : N) (c : Corridor) (draining : bool) (fatal : option FatalCause)
| SN_Age (c : Corridor) (draining : bool) (fatal : option FatalCause) (age : option N).

(** The next read of [snapshot], at [now]; after the last the facts are complete. *)
Definition snapshot_read (f : RuntimeFacts) (timeout now : N) (committed : StoredMembership)
    (s : SnapshotPc) : SnapshotPc + LocalFacts :=
  match s with
  | SN_Start => inl (SN_Contact (rf_last_leader_contact_ms f))
  | SN_Contact contact => inl (SN_Corridor contact (corridor f))
  | SN_Corridor contact c => inl (SN_Draining contact c (rf_draining f))
  | SN_Draining contact c draining => inl (SN_Fatal contact c draining (rf_fatal f))
  | SN_Fatal contact c draining fatal =>
      inl (SN_Age c draining fatal
             (if contact =? U64_MAX then None else Some (N.min (now - rf_origin f) U64_MAX - contact)))
  | SN_Age c draining fatal age =>
      inr (mk_LocalFacts c draining fatal age timeout (rf_genesis_installed f) committed)
  end.

(** ** The registry of controller tasks *)

(** What a task runs: a controller of a generation, or the genesis proposal. *)
Inductive TaskKind : Type :=
| T_Membership (generation : N)
| T_Expiry (generation : N)
| T_Proposing.

(** Who is inside the registry's lock: a replacement or a stop, with the tasks it
    has aborted and still has to await, and for a stop whether the proposal is
    among them yet. *)
Inductive LockHolder : Type :=
| LK_Replace (awaiting : list nat) (generation : option N)
| LK_Stop (awaiting : list nat) (proposal_taken : bool).

(** [struct ControllerSlots] behind its lock, with the tasks that still run and
    whether a stop has returned. *)
Record ControllerTasks : Type := mk_ControllerTasks {
  ct_stopping : bool;
  ct_membership : option nat;
  ct_expiry : option nat;
  ct_proposing : option nat;
  ct_lock : option LockHolder;
  ct_running : gmap nat TaskKind;
  ct_stopped : bool;
}.

(** [ControllerTasks::default]. *)
Definition no_tasks : ControllerTasks := mk_ControllerTasks false None None None None ∅ false.

(** [[self.membership.take(), self.expiry.take()].into_iter().flatten()]. *)
Definition generation_tasks (t : ControllerTasks) : list nat :=
  option_list (ct_membership t) ++ option_list (ct_expiry t).

(** The start of [replace_generation] and of [stop_all]: under the lock, the
    generation's handles are taken and aborted. *)
Definition begin_replace (t : ControllerTasks) (generation : option N) : ControllerTasks :=
  mk_ControllerTasks (ct_stopping t) None None (ct_proposing t)
    (Some (LK_Replace (generation_tasks t) generation)) (ct_running t) (ct_stopped t).
Definition begin_stop (t : ControllerTasks) : ControllerTasks :=
  mk_ControllerTasks true None None (ct_proposing t)
    (Some (LK_Stop (generation_tasks t) false)) (ct_running t) (ct_stopped t).

(** [replace_generation] after the old generation has ended: it creates the new
    tasks unless the registry is stopping. *)
Definition finish_replace (t : ControllerTasks) (generation : option N) (m x : nat) : ControllerTasks :=
  if ct_stopping t then
    mk_ControllerTasks (ct_stopping t) (ct_membership t) (ct_expiry t) (ct_proposing t) None
      (ct_running t) (ct_stopped t)
  else
    match generation with
    | Some n =>
        mk_ControllerTasks (ct_stopping t) (Some m) (Some x) (ct_proposing t) None
          (<[x := T_Expiry n]> (<[m := T_Membership n]> (ct_running t))) (ct_stopped t)
    | None =>
        mk_ControllerTasks (ct_stopping t) None None (ct_proposing t) None (ct_running t) (ct_stopped t)
    end.

(** The rest of [stop_all]: the proposal is taken, and the lock is released. *)
Definition take_proposal (t : ControllerTasks) : ControllerTasks :=
  mk_ControllerTasks (ct_stopping t) (ct_membership t) (ct_expiry t) None
    (Some (LK_Stop (option_list (ct_proposing t)) true)) (ct_running t) (ct_stopped t).
Definition finish_stop (t : ControllerTasks) : ControllerTasks :=
  mk_ControllerTasks (ct_stopping t) (ct_membership t) (ct_expiry t) (ct_proposing t) None
    (ct_running t) true.

(** [propose_if_idle], which never awaits inside the lock. *)
Definition propose_if_idle (t : ControllerTasks) (p : nat) : ControllerTasks :=
  if ct_stopping t then t
  else
    let idle := match ct_proposing t with
                | None => true
                | Some task => bool_decide (ct_running t !! task = None)
                end in
    if idle then
      mk_ControllerTasks (ct_stopping t) (ct_membership t) (ct_expiry t) (Some p) (ct_lock t)
        (<[p := T_Proposing]> (ct_running t)) (ct_stopped t)
    else t.

Definition set_lock (t : ControllerTasks) (l : LockHolder) : ControllerTasks :=
  mk_ControllerTasks (ct_stopping t) (ct_membership t) (ct_expiry t) (ct_proposing t) (Some l)
    (ct_running t) (ct_stopped t).
Definition end_task (t : ControllerTasks) (i : nat) : ControllerTasks :=
  mk_ControllerTasks (ct_stopping t) (ct_membership t) (ct_expiry t) (ct_proposing t) (ct_lock t)
    (delete i (ct_running t)) (ct_stopped t).

(** The steps of the registry and its tasks: a task ends, by itself or because
    its abort landed; an operation takes the lock, awaits the tasks it aborted
    one by one, and finishes. New tasks have ids of their own. *)
Inductive tasks_step : ControllerTasks -> ControllerTasks -> Prop :=
| ts_end t i : tasks_step t (end_task t i)
| ts_replace t g : ct_lock t = None -> tasks_step t (begin_replace t g)
| ts_replace_await t i l g :
    ct_lock t = Some (LK_Replace (i :: l) g) -> ct_running t !! i = None ->
    tasks_step t (set_lock t (LK_Replace l g))
| ts_replaced t g m x :
    ct_lock t = Some (LK_Replace [] g) -> m ≠ x ->
    ct_running t !! m = None -> ct_running t !! x = None ->
    ct_proposing t ≠ Some m -> ct_proposing t ≠ Some x ->
    tasks_step t (finish_replace t g m x)
| ts_propose t p :
    ct_lock t = None -> ct_running t !! p = None ->
    ct_membership t ≠ Some p -> ct_expiry t ≠ Some p ->
    tasks_step t (propose_if_idle t p)
| ts_stop t : ct_lock t = None -> tasks_step t (begin_stop t)
| ts_stop_await t i l b :
    ct_lock t = Some (LK_Stop (i :: l) b) -> ct_running t !! i = None ->
    tasks_step t (set_lock t (LK_Stop l b))
| ts_stop_proposal t : ct_lock t = Some (LK_Stop [] false) -> tasks_step t (take_proposal t)
| ts_stopped t : ct_lock t = Some (LK_Stop [] true) -> tasks_step t (finish_stop t).

(** ** The lifecycle loop *)

(** The variables of [run_lifecycle], with the two counters it bumps. *)
Record LoopVars : Type := mk_LoopVars {
  lo_last_leader : option NodeId;
  lo_last_quorum : option bool;
  lo_leading : bool;
  lo_leader_changes : N;
  lo_quorum_losses : N;
}.

(** The genesis observation: a failed read latches a storage fault. *)
Definition observe_genesis (f : RuntimeFacts) (read : result bool bytes) : RuntimeFacts :=
  if rf_genesis_installed f then f
  else
    match read with
    | Ok true => note_genesis_installed f
    | Ok false => f
    | Err e => latch_fatal f (FC_Storage (name "the genesis state could not be read: " ++ e))
    end.

(** A corridor ends on a committed membership: any for a bootstrap, one that
    contains the node for a join. *)
Definition leave_corridor (f : RuntimeFacts) (local : NodeId) (members : gset NodeId) : RuntimeFacts :=
  match corridor f with
  | C_Bootstrapping => if bool_decide (members = ∅) then f else enter_corridor f C_Running
  | C_Joining => if bool_decide (local ∈ members) then enter_corridor f C_Running else f
  | C_Running => f
  end.

(** The leader-change counter. *)
Definition note_leader (l : LoopVars) (current : NodeMetrics) : LoopVars :=
  mk_LoopVars (mt_current_leader current) (lo_last_quorum l) (lo_leading l)
    (if bool_decide (is_Some (mt_current_leader current))
        && negb (bool_decide (mt_current_leader current = lo_last_leader l))
     then u64_add (lo_leader_changes l) 1 else lo_leader_changes l)
    (lo_quorum_losses l).

(** [is_leader]. *)
Definition is_leader (current : NodeMetrics) (local : NodeId) : bool :=
  match mt_state current with
  | SV_Leader => bool_decide (mt_id current = local)
  | _ => false
  end.

Definition set_leading (l : LoopVars) (b : bool) : LoopVars :=
  mk_LoopVars (lo_last_leader l) (lo_last_quorum l) b (lo_leader_changes l) (lo_quorum_losses l).

(** The quorum-loss counter. *)
Definition note_quorum (l : LoopVars) (v : LifecycleView) : LoopVars :=
  mk_LoopVars (lo_last_leader l)
    (match lv_quorum_available v with Some q => Some q | None => lo_last_quorum l end)
    (lo_leading l) (lo_leader_changes l)
    (if bool_decide (lo_last_quorum l = Some true) && bool_decide (lv_quorum_available v = Some false)
     then u64_add (lo_quorum_losses l) 1 else lo_quorum_losses l).

(** ** A voter at run time *)

(** Where the lifecycle loop is: at the top, with the metrics and the membership
    it read, inside [replace_generation], before the proposal, amid the
    snapshot of the facts, before the publication, waiting for a change, inside its own [stop_all], ended. *)
Inductive LoopPc : Type :=
| LP_Top
| LP_Read (current : NodeMetrics) (committed : StoredMembership)
| LP_Replacing (current : NodeMetrics) (committed : StoredMembership)
| LP_Propose (current : NodeMetrics) (committed : StoredMembership)
| LP_Snapshot (current : NodeMetrics) (committed : StoredMembership) (s : SnapshotPc)
| LP_Publish (current : NodeMetrics) (local : LocalFacts)
| LP_Wait
| LP_Stopping
| LP_Ended.

(** Where the shutdown sequence is, with the deadline of its drain and whether
    that saw the last call leave. *)
Inductive ShutdownPc : Type :=
| SD_Idle
| SD_Marked
| SD_Draining_ (deadline : N)
| SD_Drained (quiet : bool)
| SD_Superseded (quiet : bool)
| SD_Stopping (quiet : bool)
| SD_Stopped (quiet : bool)
| SD_Deregistered (quiet : bool)
| SD_Done (quiet : bool).

(** What the loop published, with what it read for it. *)
Record Published : Type := mk_Published {
  pb_current : NodeMetrics;
  pb_local : LocalFacts;
  pb_view : LifecycleView;
}.

(** [CoordinationRuntime] with the state its tasks share; the published views
    are kept, newest first. *)
Record Voter : Type := mk_Voter {
  vo_local : NodeId;
  vo_timeout : N;
  vo_genesis : option bytes;
  vo_facts : RuntimeFacts;
  vo_allowlist : SenderAllowlist;
  vo_loop : LoopVars;
  vo_pc : LoopPc;
  vo_generation : N;
  vo_tasks : ControllerTasks;
  vo_startup : StartupClock;
  vo_published : list Published;
  vo_shutdown : ShutdownPc;
  vo_endpoint : Endpoint;
  vo_raft_attached : bool;
  vo_raft_running : bool;
}.

(** [CoordinationRuntime::attach]: everything starts from nothing, the Store
    endpoint attached. *)
Definition voter_attach (local : NodeId) (timeout : N) (genesis : option bytes) (f : RuntimeFacts)
    (a : SenderAllowlist) (c : StartupClock) (e : Endpoint) (g : nat) : Voter :=
  mk_Voter local timeout genesis f a (mk_LoopVars None None false 0 0) LP_Top 0 no_tasks c []
    SD_Idle (attach e g) true true.

(** The initial view of the channel. *)
Definition initial_view (f : RuntimeFacts) : LifecycleView :=
  mk_LifecycleView
    (match corridor f with
     | C_Bootstrapping => Bootstrapping
     | C_Joining => Joining
     | C_Running => NoQuorum
     end) Role_None None None.

Definition set_facts (v : Voter) (f : RuntimeFacts) : Voter :=
  mk_Voter (vo_local v) (vo_timeout v) (vo_genesis v) f (vo_allowlist v) (vo_loop v) (vo_pc v)
    (vo_generation v) (vo_tasks v) (vo_startup v) (vo_published v) (vo_shutdown v) (vo_endpoint v)
    (vo_raft_attached v) (vo_raft_running v).
Definition set_pc (v : Voter) (p : LoopPc) : Voter :=
  mk_Voter (vo_local v) (vo_timeout v) (vo_genesis v) (vo_facts v) (vo_allowlist v) (vo_loop v) p
    (vo_generation v) (vo_tasks v) (vo_startup v) (vo_published v) (vo_shutdown v) (vo_endpoint v)
    (vo_raft_attached v) (vo_raft_running v).
Definition set_loop (v : Voter) (l : LoopVars) : Voter :=
  mk_Voter (vo_local v) (vo_timeout v) (vo_genesis v) (vo_facts v) (vo_allowlist v) l (vo_pc v)
    (vo_generation v) (vo_tasks v) (vo_startup v) (vo_published v) (vo_shutdown v) (vo_endpoint v)
    (vo_raft_attached v) (vo_raft_running v).
Definition set_tasks (v : Voter) (t : ControllerTasks) : Voter :=
  mk_Voter (vo_local v) (vo_timeout v) (vo_genesis v) (vo_facts v) (vo_allowlist v) (vo_loop v)
    (vo_pc v) (vo_generation v) t (vo_startup v) (vo_published v) (vo_shutdown v) (vo_endpoint v)
    (vo_raft_attached v) (vo_raft_running v).
Definition set_endpoint (v : Voter) (e : Endpoint) : Voter :=
  mk_Voter (vo_local v) (vo_timeout v) (vo_genesis v) (vo_facts v) (vo_allowlist v) (vo_loop v)
    (vo_pc v) (vo_generation v) (vo_tasks v) (vo_startup v) (vo_published v) (vo_shutdown v) e
    (vo_raft_attached v) (vo_raft_running v).
Definition set_shutdown (v : Voter) (s : ShutdownPc) : Voter :=
  mk_Voter (vo_local v) (vo_timeout v) (vo_genesis v) (vo_facts v) (vo_allowlist v) (vo_loop v)
    (vo_pc v) (vo_generation v) (vo_tasks v) (vo_startup v) (vo_published v) s (vo_endpoint v)
    (vo_raft_attached v) (vo_raft_running v).

(** [fetch_add] on the generation. *)
Definition next_generation (v : Voter) : Voter :=
  mk_Voter (vo_local v) (vo_timeout v) (vo_genesis v) (vo_facts v) (vo_allowlist v) (vo_loop v)
    (vo_pc v) (u64_add (vo_generation v) 1) (vo_tasks v) (vo_startup v) (vo_published v)
    (vo_shutdown v) (vo_endpoint v) (vo_raft_attached v) (vo_raft_running v).

(** The loop from its top to the membership it read. *)
Definition loop_read (v : Voter) (read : result bool bytes) (current : NodeMetrics)
    (committed : StoredMembership) : Voter :=
  let members := rm_nodes (sm_membership committed) in
  let f := leave_corridor (observe_genesis (vo_facts v) read) (vo_local v) members in
  mk_Voter (vo_local v) (vo_timeout v) (vo_genesis v) f
    (observe_members (vo_allowlist v) (vo_local v) members) (note_leader (vo_loop v) current)
    (LP_Read current committed) (vo_generation v) (vo_tasks v) (vo_startup v) (vo_published v)
    (vo_shutdown v) (vo_endpoint v) (vo_raft_attached v) (vo_raft_running v).

(** One read of the snapshot a pass classifies, at [now] milliseconds. *)
Definition loop_read_fact (v : Voter) (now : N) (current : NodeMetrics) (committed : StoredMembership)
    (s : SnapshotPc) : Voter :=
  set_pc v
    match snapshot_read (vo_facts v) (vo_timeout v) now committed s with
    | inl s' => LP_Snapshot current committed s'
    | inr local => LP_Publish current local
    end.

(** The classification of what was read and its publication, which end a pass,
    at [micros] microseconds. *)
Definition loop_publish (v : Voter) (micros : N) (current : NodeMetrics) (local : LocalFacts) : Voter :=
  let w := classify_node current local in
  mk_Voter (vo_local v) (vo_timeout v) (vo_genesis v) (vo_facts v) (vo_allowlist v)
    (note_quorum (vo_loop v) w) LP_Wait (vo_generation v) (vo_tasks v)
    (publish (vo_startup v) micros w).1 (mk_Published current local w :: vo_published v)
    (vo_shutdown v) (vo_endpoint v) (vo_raft_attached v) (vo_raft_running v).

(** [endpoint.detach] and [raft.shutdown] of the shutdown sequence. *)
Definition deregister (v : Voter) (quiet : bool) : Voter :=
  mk_Voter (vo_local v) (vo_timeout v) (vo_genesis v) (vo_facts v) (vo_allowlist v) (vo_loop v)
    (vo_pc v) (vo_generation v) (vo_tasks v) (vo_startup v) (vo_published v) (SD_Deregistered quiet)
    (vo_endpoint v) false (vo_raft_running v).
Definition raft_shutdown (v : Voter) (quiet : bool) : Voter :=
  mk_Voter (vo_local v) (vo_timeout v) (vo_genesis v) (vo_facts v) (vo_allowlist v) (vo_loop v)
    (vo_pc v) (vo_generation v) (vo_tasks v) (vo_startup v) (vo_published v) (SD_Done quiet)
    (vo_endpoint v) (vo_raft_attached v) false.

(** The proposal of the genesis: a leader that holds the document and has not
    seen it applied. *)
Definition wants_genesis (v : Voter) (current : NodeMetrics) : bool :=
  is_leader current (vo_local v) && negb (rf_genesis_installed (vo_facts v))
  && bool_decide (is_Some (vo_genesis v)).

(** The steps of a voter: its Store calls and its controller tasks go on, the
    Raft service notes a contact of the leader, a controller latches a fault, the
    lifecycle loop does its next thing, or the shutdown sequence does. *)
Inductive voter_step : Voter -> Voter -> Prop :=
| vs_call v e :
    endpoint_step (vo_endpoint v) e -> ep_inner e = ep_inner (vo_endpoint v) ->
    voter_step v (set_endpoint v e)
| vs_task_ends v i : voter_step v (set_tasks v (end_task (vo_tasks v) i))
| vs_contact v now : voter_step v (set_facts v (note_leader_contact (vo_facts v) now))
| vs_latch v cause : voter_step v (set_facts v (latch_fatal (vo_facts v) cause))
| vs_read v read current committed :
    vo_pc v = LP_Top -> voter_step v (loop_read v read current committed)
| vs_same v current committed :
    vo_pc v = LP_Read current committed -> is_leader current (vo_local v) = lo_leading (vo_loop v) ->
    voter_step v (set_pc v (LP_Propose current committed))
| vs_replace v current committed :
    vo_pc v = LP_Read current committed -> is_leader current (vo_local v) ≠ lo_leading (vo_loop v) ->
    ct_lock (vo_tasks v) = None ->
    voter_step v
      (let v := next_generation v in
       set_pc (set_tasks v (begin_replace (vo_tasks v)
                 (if is_leader current (vo_local v) then Some (vo_generation v) else None)))
         (LP_Replacing current committed))
| vs_replace_await v current committed i l g :
    vo_pc v = LP_Replacing current committed ->
    ct_lock (vo_tasks v) = Some (LK_Replace (i :: l) g) -> ct_running (vo_tasks v) !! i = None ->
    voter_step v (set_tasks v (set_lock (vo_tasks v) (LK_Replace l g)))
| vs_replaced v current committed g m x :
    vo_pc v = LP_Replacing current committed -> ct_lock (vo_tasks v) = Some (LK_Replace [] g) ->
    m ≠ x -> ct_running (vo_tasks v) !! m = None -> ct_running (vo_tasks v) !! x = None ->
    ct_proposing (vo_tasks v) ≠ Some m -> ct_proposing (vo_tasks v) ≠ Some x ->
    voter_step v
      (set_pc (set_loop (set_tasks v (finish_replace (vo_tasks v) g m x))
                 (set_leading (vo_loop v) (is_leader current (vo_local v))))
         (LP_Propose current committed))
| vs_propose v current committed p :
    vo_pc v = LP_Propose current committed -> wants_genesis v current = true ->
    ct_lock (vo_tasks v) = None -> ct_running (vo_tasks v) !! p = None ->
    ct_membership (vo_tasks v) ≠ Some p -> ct_expiry (vo_tasks v) ≠ Some p ->
    voter_step v
      (set_pc (set_tasks v (propose_if_idle (vo_tasks v) p)) (LP_Snapshot current committed SN_Start))
| vs_no_proposal v current committed :
    vo_pc v = LP_Propose current committed -> wants_genesis v current = false ->
    voter_step v (set_pc v (LP_Snapshot current committed SN_Start))
| vs_read_fact v now current committed s :
    vo_pc v = LP_Snapshot current committed s ->
    voter_step v (loop_read_fact v now current committed s)
| vs_publish v micros current local :
    vo_pc v = LP_Publish current local ->
    voter_step v (loop_publish v micros current local)
| vs_changed v : vo_pc v = LP_Wait -> vo_raft_running v = true -> voter_step v (set_pc v LP_Top)
| vs_closed v :
    vo_pc v = LP_Wait -> vo_raft_running v = false -> ct_lock (vo_tasks v) = None ->
    voter_step v (set_pc (set_tasks v (begin_stop (vo_tasks v))) LP_Stopping)
| vs_stop_await v i l b :
    vo_pc v = LP_Stopping ∨ (∃ q, vo_shutdown v = SD_Stopping q) ->
    ct_lock (vo_tasks v) = Some (LK_Stop (i :: l) b) -> ct_running (vo_tasks v) !! i = None ->
    voter_step v (set_tasks v (set_lock (vo_tasks v) (LK_Stop l b)))
| vs_stop_proposal v :
    vo_pc v = LP_Stopping ∨ (∃ q, vo_shutdown v = SD_Stopping q) ->
    ct_lock (vo_tasks v) = Some (LK_Stop [] false) ->
    voter_step v (set_tasks v (take_proposal (vo_tasks v)))
| vs_loop_ends v :
    vo_pc v = LP_Stopping -> ct_lock (vo_tasks v) = Some (LK_Stop [] true) ->
    voter_step v (set_pc (set_tasks v (finish_stop (vo_tasks v))) LP_Ended)
| vs_shutdown v :
    vo_shutdown v = SD_Idle ->
    voter_step v (set_shutdown (set_facts v (begin_draining (vo_facts v))) SD_Marked)
| vs_detach v now :
    vo_shutdown v = SD_Marked ->
    voter_step v
      (set_shutdown (set_endpoint v (detach (vo_endpoint v))) (SD_Draining_ (now + DRAIN_FOR)))
| vs_drain v deadline now quiet :
    vo_shutdown v = SD_Draining_ deadline ->
    drain deadline [(ep_in_flight (vo_endpoint v), now)] = Some quiet ->
    voter_step v (set_shutdown v (SD_Drained quiet))
| vs_supersede v quiet :
    vo_shutdown v = SD_Drained quiet ->
    voter_step v (set_shutdown (next_generation v) (SD_Superseded quiet))
| vs_stop v quiet :
    vo_shutdown v = SD_Superseded quiet -> ct_lock (vo_tasks v) = None ->
    voter_step v (set_shutdown (set_tasks v (begin_stop (vo_tasks v))) (SD_Stopping quiet))
| vs_stopped v quiet :
    vo_shutdown v = SD_Stopping quiet -> ct_lock (vo_tasks v) = Some (LK_Stop [] true) ->
    voter_step v (set_shutdown (set_tasks v (finish_stop (vo_tasks v))) (SD_Stopped quiet))
| vs_deregister v quiet :
    vo_shutdown v = SD_Stopped quiet -> voter_step v (deregister v quiet)
| vs_raft_shutdown v quiet :
    vo_shutdown v = SD_Deregistered quiet -> voter_step v (raft_shutdown v quiet).

(** ** The pinned consensus configuration *)

Definition HEARTBEAT_INTERVAL_MS : N := 250.
Definition ELECTION_TIMEOUT_MIN_MS : N := 1500.
Definition INSTALL_SNAPSHOT_TIMEOUT_MS : N := 30000.
Definition MAX_PAYLOAD_ENTRIES : N := 28.
Definition REPLICATION_LAG_THRESHOLD : N := 20000.
Definition SNAPSHOT_LOGS_SINCE_LAST : N := 10000.
Definition SNAPSHOT_MAX_CHUNK_SIZE : N := 1024 * 1024.
Definition MAX_IN_SNAPSHOT_LOG_TO_KEEP : N := 1000.
Definition PURGE_BATCH_SIZE : N := 500.
Definition FRAME_OVERHEAD : N := 5.
Definition STORE_PREFIX_MAX : N := 256.
Definition ENTRY_OVERHEAD_MAX : N := 512.
Definition RAFT_ENVELOPE_OVERHEAD_MAX : N := 1024.
Definition CHUNK_HEADER_MAX : N := 256.
Definition STORE_FRAME_MAX : N := 2 * 1024 * 1024.
Definition RAFT_UNARY_FRAME_MAX : N := 8 * 1024 * 1024.
Definition SNAPSHOT_CHUNK_FRAME_MAX : N := 2 * 1024 * 1024.

(** The fields of [openraft::Config] the code sets; a policy that is not a count
    of logs is [None]. *)
Record Config : Type := mk_Config {
  cf_cluster_name : bytes;
  cf_heartbeat_interval : N;
  cf_election_timeout_min : N;
  cf_election_timeout_max : N;
  cf_install_snapshot_timeout : N;
  cf_max_payload_entries : N;
  cf_replication_lag_threshold : N;
  cf_snapshot_policy : option N;
  cf_snapshot_max_chunk_size : N;
  cf_max_in_snapshot_log_to_keep : N;
  cf_purge_batch_size : N;
}.

(** [enum RaftConfigError]; the three frame invariants. *)
Inductive FrameInvariant : Type :=
| FI_Store
| FI_Batch
| FI_Chunk.
Inductive RaftConfigError : Type :=
| RE_Upstream (detail : bytes)
| RE_Frame (invariant : FrameInvariant) (computed cap : N)
| RE_LagBelowSnapshotTrigger (lag snapshot_after : N).

(** [fits]. *)
Definition frame_fits (invariant : FrameInvariant) (computed cap : N) : result unit RaftConfigError :=
  if cap <? computed then Err (RE_Frame invariant computed cap) else Ok tt.

(** [check_frame_invariants]. *)
Definition check_frame_invariants (c : Config) : result unit RaftConfigError :=
  let command := MAX_ENCODED_COMMAND in
  let store := command + STORE_PREFIX_MAX + FRAME_OVERHEAD in
  let? _ := frame_fits FI_Store store STORE_FRAME_MAX in
  let batch := u64_add (u64_add (N.min ((command + ENTRY_OVERHEAD_MAX) * cf_max_payload_entries c) U64_MAX)
                          RAFT_ENVELOPE_OVERHEAD_MAX) FRAME_OVERHEAD in
  let? _ := frame_fits FI_Batch batch RAFT_UNARY_FRAME_MAX in
  let chunk := u64_add (u64_add (cf_snapshot_max_chunk_size c) CHUNK_HEADER_MAX) FRAME_OVERHEAD in
  let? _ := frame_fits FI_Chunk chunk SNAPSHOT_CHUNK_FRAME_MAX in
  Ok tt.

(** [check_lag_threshold]. *)
Definition check_lag_threshold (c : Config) : result unit RaftConfigError :=
  match cf_snapshot_policy c with
  | None => Ok tt
  | Some snapshot_after =>
      if cf_replication_lag_threshold c <=? snapshot_after
      then Err (RE_LagBelowSnapshotTrigger (cf_replication_lag_threshold c) snapshot_after)
      else Ok tt
  end.

(** The values [validated] pins. *)
Definition pinned_config (group : GroupId) : Config :=
  mk_Config (name "aster-coordination/" ++ to_hex group) HEARTBEAT_INTERVAL_MS
    ELECTION_TIMEOUT_MIN_MS ELECTION_TIMEOUT_MAX_MS INSTALL_SNAPSHOT_TIMEOUT_MS MAX_PAYLOAD_ENTRIES
    REPLICATION_LAG_THRESHOLD (Some SNAPSHOT_LOGS_SINCE_LAST) SNAPSHOT_MAX_CHUNK_SIZE
    MAX_IN_SNAPSHOT_LOG_TO_KEEP PURGE_BATCH_SIZE.

(** [validated], over the consensus library's own [Config::validate]. *)
Definition validated (upstream : Config -> result Config bytes) (group : GroupId)
    : result Config RaftConfigError :=
  match upstream (pinned_config group) with
  | Err e => Err (RE_Upstream e)
  | Ok c =>
      let? _ := check_frame_invariants c in
      let? _ := check_lag_threshold c in
      Ok c
  end.

(** [leader_liveness_timeout]. *)
Definition leader_liveness_timeout (c : Config) : N := cf_election_timeout_max c.
