(* ===== verification/NodeRuntimeSafety.v ===== *)
(** * What the runtime of a voter guarantees

    The registry never runs two controllers of a kind, and none once a stop has
    returned; the facts of the runtime are latches; what the lifecycle loop
    publishes is ready exactly for a voter that can serve, and of passes begun once
    the node drains or is fatal never again; and the shutdown sequence takes the voter down in its
    order. *)

From S2P Require Import Prelude Reason Ids Contract Limits State Tables Apply Durable Store Admission.
From S2P Require Import AdmissionSafety NodeRuntime.

#[local] Open Scope N_scope.
#[local] Open Scope coordination_scope.

(** ** The registry *)

(** Whether two tasks are of one kind, whatever their generations. *)
Definition same_kind (x y : TaskKind) : bool :=
  match x, y with
  | T_Membership _, T_Membership _ | T_Expiry _, T_Expiry _ | T_Proposing, T_Proposing => true
  | _, _ => false
  end.

(** The generation a controller runs for. *)
Definition generation_of (k : TaskKind) : option N :=
  match k with
  | T_Membership n | T_Expiry n => Some n
  | T_Proposing => None
  end.

(** The aborted tasks the holder of the lock still awaits. *)
Definition awaiting (t : ControllerTasks) : list nat :=
  match ct_lock t with
  | Some (LK_Replace l _) | Some (LK_Stop l _) => l
  | None => []
  end.

(** The slot of a kind. *)
Definition slot (t : ControllerTasks) (k : TaskKind) : option nat :=
  match k with
  | T_Membership _ => ct_membership t
  | T_Expiry _ => ct_expiry t
  | T_Proposing => ct_proposing t
  end.

Record tasks_ok (t : ControllerTasks) : Prop := mk_tasks_ok {
  tk_held : ∀ i k, ct_running t !! i = Some k -> slot t k = Some i ∨ i ∈ awaiting t;
  tk_unique : ∀ i j k l, ct_running t !! i = Some k -> ct_running t !! j = Some l ->
    same_kind k l = true -> i = j;
  tk_generation : ∀ i j k l n o, ct_running t !! i = Some k -> ct_running t !! j = Some l ->
    generation_of k = Some n -> generation_of l = Some o -> n = o;
  tk_lock : is_Some (ct_lock t) -> ct_membership t = None ∧ ct_expiry t = None;
  tk_stop : ∀ l b, ct_lock t = Some (LK_Stop l b) ->
    ct_stopping t = true ∧ (b = true -> ct_proposing t = None);
  tk_stopped : ct_stopped t = true ->
    ct_stopping t = true ∧ ct_running t = ∅ ∧
    ct_membership t = None ∧ ct_expiry t = None ∧ ct_proposing t = None;
}.

Lemma no_tasks_ok : tasks_ok no_tasks.
Proof. constructor; try done; intros; by destruct H. Qed.

(** Where the lock is held and nothing is awaited, no controller runs. *)
Lemma tasks_idle t i k :
  tasks_ok t -> is_Some (ct_lock t) -> awaiting t = [] -> ct_running t !! i = Some k ->
  k = T_Proposing ∧ ct_proposing t = Some i.
Proof.
  intros Hok Hl Ha Hi. destruct (tk_lock _ Hok Hl) as [Hm Hx].
  destruct (tk_held _ Hok i k Hi) as [Hs|Hs]; [|by rewrite Ha in Hs; apply not_elem_of_nil in Hs].
  by destruct k; simpl in Hs; simplify_eq.
Qed.

Lemma end_task_ok t i : tasks_ok t -> tasks_ok (end_task t i).
Proof.
  intros Hok. constructor; simpl; try apply Hok.
  - intros j k [_ Hj]%lookup_delete_Some. by apply (tk_held _ Hok) in Hj.
  - intros j j' k l [_ Hj]%lookup_delete_Some [_ Hj']%lookup_delete_Some. by apply (tk_unique _ Hok).
  - intros j j' k l n o [_ Hj]%lookup_delete_Some [_ Hj']%lookup_delete_Some. by apply (tk_generation _ Hok j j').
  - intros Hs. destruct (tk_stopped _ Hok Hs) as (? & -> & ?). by rewrite delete_empty.
Qed.

(** The controllers of a free registry are in its slots. *)
Lemma held_in_generation t i k :
  tasks_ok t -> ct_lock t = None -> ct_running t !! i = Some k ->
  i ∈ generation_tasks t ∨ k = T_Proposing ∧ ct_proposing t = Some i.
Proof.
  intros Hok Hl Hi. destruct (tk_held _ Hok i k Hi) as [Hs|Hs].
  - unfold generation_tasks. destruct k; simpl in Hs; rewrite ?Hs; simpl; set_solver.
  - unfold awaiting in Hs. rewrite Hl in Hs. by apply not_elem_of_nil in Hs.
Qed.

Lemma begin_replace_ok t g : tasks_ok t -> ct_lock t = None -> tasks_ok (begin_replace t g).
Proof.
  intros Hok Hl. constructor; simpl; try apply Hok; try done.
  - intros i k Hi. unfold awaiting. simpl.
    destruct (held_in_generation t i k Hok Hl Hi) as [?|[-> Hp]]; [by right|by left].
  - intros Hs. by destruct (tk_stopped _ Hok Hs) as (? & ? & ? & ? & ?).
Qed.

Lemma begin_stop_ok t : tasks_ok t -> ct_lock t = None -> tasks_ok (begin_stop t).
Proof.
  intros Hok Hl. constructor; simpl; try apply Hok; try done.
  - intros i k Hi. unfold awaiting. simpl.
    destruct (held_in_generation t i k Hok Hl Hi) as [?|[-> Hp]]; [by right|by left].
  - by intros l b [= <- <-].
  - intros Hs. by destruct (tk_stopped _ Hok Hs) as (? & ? & ? & ? & ?).
Qed.

(** An awaited task that has ended is let go. *)
Lemma set_lock_ok t l i r :
  tasks_ok t -> awaiting t = i :: r -> ct_running t !! i = None ->
  awaiting (set_lock t l) = r ->
  (∀ x b, l = LK_Stop x b -> ∃ y, ct_lock t = Some (LK_Stop y b)) ->
  tasks_ok (set_lock t l).
Proof.
  intros Hok Ha Hi Hr Hstop. assert (Hlock : is_Some (ct_lock t)).
  { unfold awaiting in Ha. by destruct (ct_lock t). }
  constructor; simpl; try apply Hok.
  - intros j k Hj. destruct (tk_held _ Hok j k Hj) as [?|Hin]; [by left|]. right.
    rewrite Ha in Hin. apply elem_of_cons in Hin as [->|Hin]; [congruence|]. by rewrite Hr.
  - intros _. by apply (tk_lock _ Hok).
  - intros x b [= ->]. destruct (Hstop x b eq_refl) as [y Hy]. by apply (tk_stop _ Hok y).
Qed.

Lemma propose_if_idle_ok t p :
  tasks_ok t -> ct_lock t = None -> tasks_ok (propose_if_idle t p).
Proof.
  intros Hok Hl. unfold propose_if_idle. destruct (ct_stopping t) eqn:Hst; [done|].
  destruct (match ct_proposing t with None => true | Some _ => _ end) eqn:Hidle; [|done].
  assert (Hnone : ∀ i, ct_running t !! i ≠ Some T_Proposing).
  { intros i Hi. destruct (held_in_generation t i _ Hok Hl Hi) as [Hin|[_ Hp]].
    - destruct (tk_held _ Hok i _ Hi) as [Hp|Hp]; simpl in Hp.
      + rewrite Hp in Hidle. apply bool_decide_eq_true in Hidle. congruence.
      + unfold awaiting in Hp. rewrite Hl in Hp. by apply not_elem_of_nil in Hp.
    - rewrite Hp in Hidle. apply bool_decide_eq_true in Hidle. congruence. }
  constructor; simpl; try apply Hok.
  - intros i k. rewrite lookup_insert_Some. intros [[<- <-]|[Hne Hi]]; [by left|].
    unfold awaiting. simpl. destruct (tk_held _ Hok i k Hi) as [Hs|Hs]; [|by right]. left.
    destruct k; simpl in *; [done..|]. by apply Hnone in Hi.
  - intros i j k l. rewrite !lookup_insert_Some.
    intros [[<- <-]|[_ Hi]] [[<- <-]|[_ Hj]]; simpl; try done.
    + destruct l; try done. by apply Hnone in Hj.
    + destruct k; try done. by apply Hnone in Hi.
    + by apply (tk_unique _ Hok).
  - intros i j k l n o. rewrite !lookup_insert_Some.
    intros [[<- <-]|[_ Hi]] [[<- <-]|[_ Hj]]; simpl; try done. by apply (tk_generation _ Hok i j).
  - intros l b. by rewrite Hl.
  - intros Hs. destruct (tk_stopped _ Hok Hs). congruence.
Qed.

Lemma finish_replace_ok t g m x :
  tasks_ok t -> ct_lock t = Some (LK_Replace [] g) -> m ≠ x ->
  ct_proposing t ≠ Some m -> ct_proposing t ≠ Some x ->
  tasks_ok (finish_replace t g m x).
Proof.
  intros Hok Hl Hmx Hpm Hpx.
  assert (Hidle : ∀ i k, ct_running t !! i = Some k -> k = T_Proposing ∧ ct_proposing t = Some i).
  { intros i k. apply tasks_idle; [done|by rewrite Hl|]. unfold awaiting. by rewrite Hl. }
  assert (Hfree : tasks_ok (mk_ControllerTasks (ct_stopping t) (ct_membership t) (ct_expiry t)
    (ct_proposing t) None (ct_running t) (ct_stopped t))).
  { constructor; simpl; try apply Hok; try done.
    - intros i k Hi. destruct (Hidle i k Hi) as [-> ?]. by left.
    }
  destruct (tk_lock _ Hok) as [Hm Hx]; [by rewrite Hl|].
  unfold finish_replace. destruct (ct_stopping t) eqn:Hst; [done|].
  assert (Hns : ct_stopped t = false).
  { destruct (ct_stopped t) eqn:Hs; [|done]. destruct (tk_stopped _ Hok Hs). congruence. }
  destruct g as [n|]; [|by rewrite Hm, Hx in Hfree]. rewrite Hns in *.
  constructor; simpl; try done.
  - intros i k. rewrite !lookup_insert_Some. intros [[<- <-]|[_ [[<- <-]|[_ Hi]]]]; try by left.
    destruct (Hidle i k Hi) as [-> ?]. by left.
  - intros i j k l. rewrite !lookup_insert_Some.
    intros [[<- <-]|[_ [[<- <-]|[_ Hi]]]] [[<- <-]|[_ [[<- <-]|[_ Hj]]]] Hk; try done;
      try (destruct (Hidle _ _ Hi) as [-> Hi2]); try (destruct (Hidle _ _ Hj) as [-> Hj2]); try done.
    congruence.
  - intros i j k l o q. rewrite !lookup_insert_Some.
    intros [[<- <-]|[_ [[<- <-]|[_ Hi]]]] [[<- <-]|[_ [[<- <-]|[_ Hj]]]] Hk Hk2;
      try (destruct (Hidle _ _ Hi) as [-> Hi2]); try (destruct (Hidle _ _ Hj) as [-> Hj2]);
      simpl in *; congruence.
Qed.

Lemma take_proposal_ok t :
  tasks_ok t -> ct_lock t = Some (LK_Stop [] false) -> tasks_ok (take_proposal t).
Proof.
  intros Hok Hl. destruct (tk_stop _ Hok _ _ Hl) as [Hst _].
  destruct (tk_lock _ Hok) as [Hm Hx]; [by rewrite Hl|].
  constructor; simpl; try apply Hok; try done.
  - intros i k Hi. destruct (tasks_idle t i k Hok) as [-> Hp]; [by rewrite Hl| |done|].
    + unfold awaiting. by rewrite Hl.
    + right. unfold awaiting. simpl. rewrite Hp. by left.
  - intros Hs. by destruct (tk_stopped _ Hok Hs) as (? & ? & ? & ? & ?).
Qed.

Lemma finish_stop_ok t :
  tasks_ok t -> ct_lock t = Some (LK_Stop [] true) -> tasks_ok (finish_stop t).
Proof.
  intros Hok Hl. destruct (tk_stop _ Hok _ _ Hl) as [Hst Hp]. specialize (Hp eq_refl).
  destruct (tk_lock _ Hok) as [Hm Hx]; [by rewrite Hl|].
  assert (Hnone : ct_running t = ∅).
  { apply map_empty. intros i. destruct (ct_running t !! i) as [k|] eqn:Hi; [|done].
    destruct (tasks_idle t i k Hok) as [_ Hp']; [by rewrite Hl| |done|congruence].
    unfold awaiting. by rewrite Hl. }
  constructor; simpl; rewrite ?Hnone; done.
Qed.

Lemma tasks_step_ok t t' : tasks_step t t' -> tasks_ok t -> tasks_ok t'.
Proof.
  destruct 1 as [t i|t g Hl|t i l g Hl Hi|t g m x Hl Hmx Hm Hx Hpm Hpx|t p Hl Hp Hm Hx|t Hl
    |t i l b Hl Hi|t Hl|t Hl]; intros Hok.
  - by apply end_task_ok.
  - by apply begin_replace_ok.
  - apply (set_lock_ok _ _ i l); try done. unfold awaiting. by rewrite Hl.
  - by apply finish_replace_ok.
  - by apply propose_if_idle_ok.
  - by apply begin_stop_ok.
  - apply (set_lock_ok _ _ i l); try done; [unfold awaiting; by rewrite Hl|].
    intros x c [= <- <-]. eauto.
  - by apply take_proposal_ok.
  - by apply finish_stop_ok.
Qed.

Lemma stopped_stays t t' : tasks_step t t' -> ct_stopped t = true -> ct_stopped t' = true.
Proof.
  destruct 1; simpl; try done; unfold finish_replace, propose_if_idle.
  - destruct (ct_stopping t), g; done.
  - destruct (ct_stopping t); [done|]. by destruct (match ct_proposing t with None => true | _ => _ end).
Qed.

Lemma tasks_steps_ok t t' : rtc tasks_step t t' -> tasks_ok t -> tasks_ok t'.
Proof. induction 1; [done|]. eauto using tasks_step_ok. Qed.

Lemma stopped_steps t t' : rtc tasks_step t t' -> ct_stopped t = true -> ct_stopped t' = true.
Proof. induction 1; [done|]. eauto using stopped_stays. Qed.

Lemma fresh_id (s : gset nat) : ∃ i, i ∉ s.
Proof. exists (fresh s). apply is_fresh. Qed.

Lemma fresh_task (r : gmap nat TaskKind) (s : gset nat) : ∃ i, r !! i = None ∧ i ∉ s.
Proof.
  destruct (fresh_id (dom r ∪ s)) as [i Hi]. exists i. split; [|set_solver].
  apply not_elem_of_dom. set_solver.
Qed.

(** The holder of the lock finishes once the tasks it aborted have ended. *)
Lemma replace_finishes t l g :
  ct_lock t = Some (LK_Replace l g) -> ∃ t', rtc tasks_step t t' ∧ ct_lock t' = None.
Proof.
  revert t. induction l as [|i l IH]; intros t Hl.
  - destruct (fresh_task (ct_running t) (list_to_set (option_list (ct_proposing t)))) as (m & Hm & Hpm).
    destruct (fresh_task (ct_running t) (list_to_set (m :: option_list (ct_proposing t)))) as (x & Hx & Hpx).
    exists (finish_replace t g m x). split.
    + apply rtc_once. apply ts_replaced; try done; [set_solver|..];
        intros Hp; rewrite Hp in *; simpl in *; set_solver.
    + unfold finish_replace. by destruct (ct_stopping t), g.
  - destruct (IH (set_lock (end_task t i) (LK_Replace l g)) eq_refl) as (t' & Hs & Hf).
    exists t'. split; [|done]. eapply rtc_l; [apply (ts_end t i)|].
    eapply rtc_l; [|exact Hs]. apply (ts_replace_await _ i); [done|]. simpl. by rewrite lookup_delete_eq.
Qed.

Lemma stop_finishes t l b :
  ct_lock t = Some (LK_Stop l b) -> ∃ t', rtc tasks_step t t' ∧ ct_lock t' = None ∧ ct_stopped t' = true.
Proof.
  assert (Hlast : ∀ l t, ct_lock t = Some (LK_Stop l true) ->
    ∃ t', rtc tasks_step t t' ∧ ct_lock t' = None ∧ ct_stopped t' = true).
  { clear. intros l. induction l as [|i l IH]; intros t Hl.
    - exists (finish_stop t). split; [|done]. by apply rtc_once, ts_stopped.
    - destruct (IH (set_lock (end_task t i) (LK_Stop l true)) eq_refl) as (t' & Hs & Hf).
      exists t'. split; [|done]. eapply rtc_l; [apply (ts_end t i)|].
      eapply rtc_l; [|exact Hs]. apply (ts_stop_await _ i); [done|]. simpl. by rewrite lookup_delete_eq. }
  destruct b; [apply Hlast|]. revert t. induction l as [|i l IH]; intros t Hl.
  - destruct (Hlast _ (take_proposal t) eq_refl) as (t' & Hs & Hf). exists t'. split; [|done].
    eapply rtc_l; [by apply ts_stop_proposal|exact Hs].
  - destruct (IH (set_lock (end_task t i) (LK_Stop l false)) eq_refl) as (t' & Hs & Hf).
    exists t'. split; [|done]. eapply rtc_l; [apply (ts_end t i)|].
    eapply rtc_l; [|exact Hs]. apply (ts_stop_await _ i); [done|]. simpl. by rewrite lookup_delete_eq.
Qed.

(** C27: In whatever order generations are replaced, the genesis is proposed, the
    registry is stopped and tasks end: at most one membership controller, one
    expiry controller and one proposal run at a time, the two controllers for the
    same generation; whoever holds the lock can finish, a stop with its latch set;
    and once a stop has returned no task runs and none ever will. *)
Theorem controllers_never_overlap t :
  rtc tasks_step no_tasks t ->
  (∀ i j k l, ct_running t !! i = Some k -> ct_running t !! j = Some l ->
     same_kind k l = true -> i = j) ∧
  (∀ i j k l n o, ct_running t !! i = Some k -> ct_running t !! j = Some l ->
     generation_of k = Some n -> generation_of l = Some o -> n = o) ∧
  (∃ t', rtc tasks_step t t' ∧ ct_lock t' = None ∧
     (∀ l b, ct_lock t = Some (LK_Stop l b) -> ct_stopped t' = true)) ∧
  (ct_stopped t = true -> ∀ t', rtc tasks_step t t' -> ct_running t' = ∅).
Proof.
  intros Hr. pose proof (tasks_steps_ok _ _ Hr no_tasks_ok) as Hok.
  split; [apply Hok|]. split; [apply Hok|]. split.
  - destruct (ct_lock t) as [[l g|l b]|] eqn:Hl.
    + destruct (replace_finishes t l g Hl) as (t' & Hs & Hf). by exists t'.
    + destruct (stop_finishes t l b Hl) as (t' & Hs & Hf & Hd). by exists t'.
    + by exists t.
  - intros Hs t' Ht. pose proof (tasks_steps_ok _ _ Ht Hok) as Hok'.
    by destruct (tk_stopped _ Hok' (stopped_steps _ _ Ht Hs)) as (_ & ? & _).
Qed.

(** ** The facts are latches *)

Record facts_le (f f' : RuntimeFacts) : Prop := mk_facts_le {
  fl_draining : rf_draining f = true -> rf_draining f' = true;
  fl_genesis : rf_genesis_installed f = true -> rf_genesis_installed f' = true;
  fl_fatal : ∀ c, rf_fatal f = Some c -> rf_fatal f' = Some c;
  fl_corridor : corridor f = C_Running -> corridor f' = C_Running;
}.

#[export] Instance facts_le_preorder : PreOrder facts_le.
Proof. split; [done|]. intros f g h [] []. constructor; auto. Qed.

Lemma latch_fatal_le f c : facts_le f (latch_fatal f c).
Proof. unfold latch_fatal. destruct (rf_fatal f) eqn:Hf; constructor; simpl; try done. by rewrite Hf. Qed.

Lemma loop_read_facts f read local members :
  facts_le f (leave_corridor (observe_genesis f read) local members).
Proof.
  etrans.
  - assert (H : facts_le f (observe_genesis f read)); [|exact H].
    unfold observe_genesis. destruct (rf_genesis_installed f) eqn:Hg; [done|].
    destruct read as [[]|e]; [by constructor|done|apply latch_fatal_le].
  - unfold leave_corridor. destruct (corridor _) eqn:Hc; [..|done]; case_bool_decide; try done;
      constructor; simpl; try done.
Qed.

Lemma voter_step_facts v v' : voter_step v v' -> facts_le (vo_facts v) (vo_facts v').
Proof.
  destruct 1; try done; simpl.
  - apply latch_fatal_le.
  - apply loop_read_facts.
Qed.

(** ** What the loop publishes *)

(** What a ready view rests on: nothing latched, the corridor over, the genesis
    applied, a committed membership that names the node a voter, a consensus
    library that runs, an entry of the current term applied, and a leader heard
    of in time: the leader's own quorum, or a follower's contact. *)
Record ready_grounds (m : NodeMetrics) (f : LocalFacts) : Prop := mk_ready_grounds {
  rg_fatal : lf_fatal f = None;
  rg_draining : lf_draining f = false;
  rg_corridor : lf_corridor f = C_Running;
  rg_genesis : lf_genesis_installed f = true;
  rg_voter : mt_id m ∈ rm_voter_ids (sm_membership (lf_committed f));
  rg_running : mt_running_state m = Ok tt;
  rg_applied : ∃ id, mt_last_applied m = Some id ∧ li_term id = mt_current_term m;
  rg_fresh :
    (mt_state m = SV_Leader ∧
       ∃ ms, mt_millis_since_quorum_ack m = Some ms ∧ ms <= lf_leader_liveness_timeout f) ∨
    (mt_state m = SV_Follower ∧
       ∃ age, lf_follower_contact_age f = Some age ∧ age <= lf_leader_liveness_timeout f);
}.

(** The classification, read from its result. *)
Lemma classify_ready m f :
  lv_code (classify_node m f) = Ready ->
  lf_fatal f = None ∧ lf_draining f = false ∧ lf_corridor f = C_Running ∧
  lf_genesis_installed f = true ∧ mt_running_state m = Ok tt ∧
  mt_id m ∈ rm_voter_ids (sm_membership (lf_committed f)) ∧
  leader_observation_is_fresh m f = true ∧ applied_through_the_leaders_blank_entry m = true.
Proof.
  unfold classify_node. destruct (lf_fatal f); [done|].
  destruct (mt_running_state m) as [[]|]; [|done]. destruct (lf_draining f); [done|].
  destruct (lf_corridor f); [done..|].
  destruct (_ && _ && _ && _) eqn:Hr; [|done]. intros _.
  rewrite !andb_true_iff in Hr. destruct Hr as [[[Hv Hf] Ha] Hg].
  apply bool_decide_eq_true in Hv. unfold role_of in Hv.
  case_bool_decide; [done|]. by case_bool_decide.
Qed.

Lemma classify_fatal m f c :
  lf_fatal f = Some c -> lv_code (classify_node m f) = Fatal ∧ lv_fatal (classify_node m f) = Some c.
Proof. unfold classify_node. by intros ->. Qed.

Lemma classify_draining m f :
  lf_draining f = true -> lv_code (classify_node m f) = Draining ∨ lv_code (classify_node m f) = Fatal.
Proof.
  unfold classify_node. intros ->.
  destruct (match lf_fatal f with None => _ | Some _ => _ end); auto.
Qed.

(** A view names a cause exactly when it is fatal, and its codes are the
    declared ones. *)
Lemma classify_cause m f :
  lv_code (classify_node m f) = Fatal <-> is_Some (lv_fatal (classify_node m f)).
Proof.
  unfold classify_node.
  destruct (match lf_fatal f with None => _ | Some _ => _ end); simpl; [by split; eauto|].
  destruct (lf_draining f); [|destruct (lf_corridor f)];
    [..|destruct (bool_decide _ && _ && _ && _)]; simpl; (split; [done|by intros [? ?]]).
Qed.

Lemma is_some_and_le (o : option N) bound :
  is_some_and o (λ x, x <=? bound) = true <-> ∃ x, o = Some x ∧ x <= bound.
Proof.
  destruct o as [x|]; simpl; [|split; [done|by intros (? & ? & _)]]. rewrite N.leb_le.
  split; [by exists x|]. by intros (? & [= <-] & ?).
Qed.

Lemma fresh_iff m f :
  leader_observation_is_fresh m f = true <->
  (mt_state m = SV_Leader ∧
     ∃ ms, mt_millis_since_quorum_ack m = Some ms ∧ ms <= lf_leader_liveness_timeout f) ∨
  (mt_state m = SV_Follower ∧
     ∃ age, lf_follower_contact_age f = Some age ∧ age <= lf_leader_liveness_timeout f).
Proof.
  unfold leader_observation_is_fresh. destruct (mt_state m); rewrite ?is_some_and_le;
    (split; [auto; try discriminate|by intros [[? ?]|[? ?]]]).
Qed.

Lemma applied_iff m :
  applied_through_the_leaders_blank_entry m = true <->
  ∃ id, mt_last_applied m = Some id ∧ li_term id = mt_current_term m.
Proof.
  unfold applied_through_the_leaders_blank_entry. destruct (mt_last_applied m) as [id|]; simpl.
  - rewrite N.eqb_eq. split; [by exists id|]. by intros (? & [= <-] & ?).
  - split; [done|]. by intros (? & ? & _).
Qed.

(** A view is ready exactly on its grounds. *)
Lemma classify_grounds m f : lv_code (classify_node m f) = Ready <-> ready_grounds m f.
Proof.
  split.
  - intros Hr. destruct (classify_ready m f Hr) as (? & ? & ? & ? & ? & ? & Hf & Ha).
    constructor; try done; [by apply applied_iff|by apply fresh_iff].
  - intros [Hfa Hd Hc Hg Hv Hr Ha Hf].
    assert (Hrole : role_of m f = Role_Voter) by (unfold role_of; by rewrite bool_decide_eq_true_2).
    unfold classify_node. rewrite Hfa, Hr, Hd, Hc, Hg, Hrole. simpl.
    by rewrite (proj2 (fresh_iff m f)), (proj2 (applied_iff m)).
Qed.

Lemma ready_quorum m f :
  ready_grounds m f -> mt_state m = SV_Leader -> lv_quorum_available (classify_node m f) = Some true.
Proof.
  intros [Hfa Hd Hc _ _ Hr _ Hf] Hl. unfold classify_node, quorum_evidence. rewrite Hfa, Hr, Hd, Hc, Hl. simpl.
  f_equal. apply is_some_and_le. destruct Hf as [[_ ?]|[? _]]; [done|congruence].
Qed.

Lemma voter_steps_facts v v' : rtc voter_step v v' -> facts_le (vo_facts v) (vo_facts v').
Proof. induction 1; [done|]. etrans; [by apply voter_step_facts|done]. Qed.

(** A wait over views none of which is ready does not report readiness. *)
Lemma wait_not_ready views dropped :
  Forall (λ w, lv_code w ≠ Ready) views -> wait_ready views dropped ≠ Some (Ok tt).
Proof. induction 1 as [|w views Hw _ IH]; simpl; [by destruct dropped|]. by destruct (lv_code w). Qed.

(** ** The shutdown sequence *)

(** How far the sequence is, as predicates that once true stay so. *)
Definition sd_detached (s : ShutdownPc) : bool :=
  match s with SD_Idle | SD_Marked => false | _ => true end.
Definition sd_quiet (s : ShutdownPc) : bool :=
  match s with
  | SD_Idle | SD_Marked | SD_Draining_ _ => false
  | SD_Drained q | SD_Superseded q | SD_Stopping q | SD_Stopped q | SD_Deregistered q | SD_Done q => q
  end.
Definition sd_stopped (s : ShutdownPc) : bool :=
  match s with SD_Stopped _ | SD_Deregistered _ | SD_Done _ => true | _ => false end.
Definition sd_deregistered (s : ShutdownPc) : bool :=
  match s with SD_Deregistered _ | SD_Done _ => true | _ => false end.
Definition sd_done (s : ShutdownPc) : bool := match s with SD_Done _ => true | _ => false end.

Record voter_ok (v : Voter) : Prop := mk_voter_ok {
  vk_tasks : tasks_ok (vo_tasks v);
  vk_endpoint : endpoint_ok (vo_endpoint v);
  vk_draining : vo_shutdown v ≠ SD_Idle -> rf_draining (vo_facts v) = true;
  vk_detached : sd_detached (vo_shutdown v) = true -> ep_inner (vo_endpoint v) = None;
  vk_quiet : sd_quiet (vo_shutdown v) = true -> quiet (vo_endpoint v);
  vk_stopped : sd_stopped (vo_shutdown v) = true -> ct_stopped (vo_tasks v) = true;
  vk_deregistered : sd_deregistered (vo_shutdown v) = true -> vo_raft_attached v = false;
  vk_raft : vo_raft_running v = false -> sd_done (vo_shutdown v) = true;
}.

(** A step is a step of the registry or leaves it alone. *)
Lemma voter_step_tasks v v' :
  voter_step v v' -> vo_tasks v' = vo_tasks v ∨ tasks_step (vo_tasks v) (vo_tasks v').
Proof. destruct 1; try (by left); right; by econstructor. Qed.

(** A step is a step of the endpoint, its detachment, or leaves it alone. *)
Lemma voter_step_endpoint v v' :
  voter_step v v' ->
  vo_endpoint v' = vo_endpoint v ∨
  endpoint_step (vo_endpoint v) (vo_endpoint v') ∧
    (ep_inner (vo_endpoint v') = ep_inner (vo_endpoint v) ∨ ep_inner (vo_endpoint v') = None).
Proof.
  destruct 1; try (by left); right; simpl; split; auto. constructor.
Qed.

Lemma voter_step_shutdown v v' :
  voter_step v v' ->
  vo_shutdown v' = vo_shutdown v ∧ vo_raft_attached v' = vo_raft_attached v ∧
    vo_raft_running v' = vo_raft_running v ∨
  vo_shutdown v' ≠ vo_shutdown v.
Proof.
  destruct 1; try (by left); right; simpl;
    match goal with H : vo_shutdown _ = _ |- _ => rewrite H; discriminate end.
Qed.

Lemma voter_step_detached v v' :
  voter_step v v' -> ep_inner (vo_endpoint v) = None -> ep_inner (vo_endpoint v') = None.
Proof. intros H Hn. destruct (voter_step_endpoint v v' H) as [->|[_ [->|?]]]; done. Qed.

Lemma voter_step_quiet v v' : voter_step v v' -> quiet (vo_endpoint v) -> quiet (vo_endpoint v').
Proof.
  intros H Hq. destruct (voter_step_endpoint v v' H) as [->|[Hs Hi]]; [done|].
  apply (quiet_step (vo_endpoint v)); [|done]. split; [done|].
  destruct Hq as [Hn _]. rewrite Hn in Hi. by destruct Hi.
Qed.

Lemma voter_step_stopped v v' :
  voter_step v v' -> ct_stopped (vo_tasks v) = true -> ct_stopped (vo_tasks v') = true.
Proof. intros H. destruct (voter_step_tasks v v' H) as [->|Hs]; [done|by apply stopped_stays]. Qed.

Lemma voter_step_ok v v' : voter_step v v' -> voter_ok v -> voter_ok v'.
Proof.
  intros Hstep Hok. pose proof (voter_step_facts _ _ Hstep) as Hf.
  assert (Ht : tasks_ok (vo_tasks v')).
  { destruct (voter_step_tasks _ _ Hstep) as [->|?]; [apply Hok|]. eapply tasks_step_ok; [done|apply Hok]. }
  assert (He : endpoint_ok (vo_endpoint v')).
  { destruct (voter_step_endpoint _ _ Hstep) as [->|[? _]]; [apply Hok|].
    eapply endpoint_step_ok; [done|apply Hok]. }
  destruct (voter_step_shutdown _ _ Hstep) as [(Hsd & Hra & Hrr)|Hch].
  - constructor; rewrite ?Hsd, ?Hra, ?Hrr; try done; try apply Hok.
    + intros Hs. apply Hf, Hok, Hs.
    + intros Hs. eapply voter_step_detached; [done|by apply Hok].
    + intros Hs. eapply voter_step_quiet; [done|by apply Hok].
    + intros Hs. eapply voter_step_stopped; [done|by apply Hok].
  - destruct Hok as [_ Hend Hdr Hde Hq Hst Hreg Hraft].
    destruct Hstep; simpl in Hch; try done;
      match goal with H : vo_shutdown _ = _ |- _ => rewrite H in * end; simpl in *;
      (constructor; simpl; try done; intros Hs).
    all: try (by apply Hdr).
    match goal with H : (if _ then _ else _) = Some _ |- _ => rename H into Hdrain end. subst.
    apply zero_is_quiet; [done|by apply Hde|].
    destruct (N.ltb_spec 0 (ep_in_flight (vo_endpoint v))); [|lia].
    simpl in Hdrain. by destruct (now <? deadline).
Qed.

Lemma voter_steps_ok v v' : rtc voter_step v v' -> voter_ok v -> voter_ok v'.
Proof. induction 1; [done|]. eauto using voter_step_ok. Qed.

(** A voter that attaches to an endpoint. *)
Lemma voter_attach_ok local timeout genesis f a c e g :
  rtc endpoint_step Endpoint_new e -> ep_runtimes e !! g = None ->
  voter_ok (voter_attach local timeout genesis f a c e g).
Proof.
  intros He Hg. constructor; simpl; try done.
  apply attach_ok; [by apply reachable_endpoint_ok|done].
Qed.

(** C37: In any run of a voter, with its Store calls, its controllers, its lifecycle
    loop and its shutdown interleaved: once the shutdown has begun the node reports
    draining; once the Store endpoint is detached it stays so; where the drain saw
    the last call leave, no call has the runtime; once the controllers are stopped
    none runs; and the consensus library is shut down last, after all of that and
    after the Raft service was deregistered. *)
Theorem shutdown_in_order local timeout genesis f a c e g v :
  rtc endpoint_step Endpoint_new e -> ep_runtimes e !! g = None ->
  rtc voter_step (voter_attach local timeout genesis f a c e g) v ->
  (vo_shutdown v ≠ SD_Idle -> rf_draining (vo_facts v) = true) ∧
  (sd_detached (vo_shutdown v) = true -> ep_inner (vo_endpoint v) = None) ∧
  (sd_quiet (vo_shutdown v) = true ->
     ∀ id d, ep_calls (vo_endpoint v) !! id = Some d -> runtime_of (cs_stage d) = None) ∧
  (sd_stopped (vo_shutdown v) = true -> ct_running (vo_tasks v) = ∅) ∧
  (vo_raft_running v = false ->
     ct_running (vo_tasks v) = ∅ ∧ ep_inner (vo_endpoint v) = None ∧ vo_raft_attached v = false).
Proof.
  intros He Hg Hr. pose proof (voter_steps_ok _ _ Hr (voter_attach_ok _ _ _ _ _ _ _ _ He Hg)) as Hok.
  assert (Hstop : sd_stopped (vo_shutdown v) = true -> ct_running (vo_tasks v) = ∅).
  { intros Hs. by destruct (tk_stopped _ (vk_tasks _ Hok) (vk_stopped _ Hok Hs)) as (_ & ? & _). }
  split; [apply Hok|]. split; [apply Hok|]. split; [intros Hq; exact (proj2 (vk_quiet _ Hok Hq))|].
  split; [done|]. intros Hraft. pose proof (vk_raft _ Hok Hraft) as Hdone.
  destruct (vo_shutdown v) eqn:Hsd; try discriminate Hdone.
  split; [by apply Hstop|]. split; [apply (vk_detached _ Hok)|apply (vk_deregistered _ Hok)]; by rewrite Hsd.
Qed.

(** ** What the passes of the loop read *)

(** What has been read is still so, the latches being what they are. *)
Definition reads_hold (f : RuntimeFacts) (timeout : N) (p : LoopPc) : Prop :=
  match p with
  | LP_Snapshot _ _ (SN_Corridor _ c) | LP_Snapshot _ _ (SN_Draining _ c _)
  | LP_Snapshot _ _ (SN_Fatal _ c _ _) | LP_Snapshot _ _ (SN_Age c _ _ _) =>
      c = C_Running -> corridor f = C_Running
  | LP_Publish _ local =>
      (lf_corridor local = C_Running -> corridor f = C_Running) ∧
      (lf_genesis_installed local = true -> rf_genesis_installed f = true) ∧
      lf_leader_liveness_timeout local = timeout
  | _ => True
  end.

Lemma reads_hold_le f f' timeout p : facts_le f f' -> reads_hold f timeout p -> reads_hold f' timeout p.
Proof.
  intros [_ Hg _ Hc]. destruct p as [| | | |current committed s|current local| | |]; try done.
  - destruct s; simpl; auto.
  - intros (? & ? & ?). split_and!; auto.
Qed.

(** A published view is the classification of what its pass read. *)
Definition view_holds (f : RuntimeFacts) (timeout : N) (p : Published) : Prop :=
  pb_view p = classify_node (pb_current p) (pb_local p) ∧
  reads_hold f timeout (LP_Publish (pb_current p) (pb_local p)).

Record views_ok (v : Voter) : Prop := mk_views_ok {
  vw_pc : reads_hold (vo_facts v) (vo_timeout v) (vo_pc v);
  vw_published : Forall (view_holds (vo_facts v) (vo_timeout v)) (vo_published v);
}.

Lemma view_holds_le f f' timeout l :
  facts_le f f' -> Forall (view_holds f timeout) l -> Forall (view_holds f' timeout) l.
Proof. intros Hle Hl. eapply list.Forall_impl; [exact Hl|]. intros p [H1 H2]. split; [done|by eapply reads_hold_le]. Qed.

Lemma voter_step_timeout v v' : voter_step v v' -> vo_timeout v' = vo_timeout v.
Proof. by destruct 1. Qed.

(** What a step does to the loop's place and to the views. *)
Lemma voter_step_pass v v' :
  voter_step v v' ->
  (vo_published v' = vo_published v ∧
     (vo_pc v' = vo_pc v ∨
      (∃ current committed s now, vo_pc v = LP_Snapshot current committed s ∧
         vo_pc v' = match snapshot_read (vo_facts v) (vo_timeout v) now committed s with
                    | inl s' => LP_Snapshot current committed s'
                    | inr local => LP_Publish current local
                    end) ∨
      match vo_pc v' with
      | LP_Publish _ _ => False
      | LP_Snapshot _ _ s => s = SN_Start
      | _ => True
      end ∧ match vo_pc v with LP_Snapshot _ _ _ | LP_Publish _ _ => False | _ => True end)) ∨
  ∃ current local, vo_pc v = LP_Publish current local ∧ vo_pc v' = LP_Wait ∧
    vo_published v' = mk_Published current local (classify_node current local) :: vo_published v.
Proof.
  destruct 1; try (left; split; [done|]; simpl);
    try (by left); try (by right; left; eauto 10);
    try (by right; right; match goal with H : vo_pc _ = _ |- _ => rewrite H end).
  right. simpl. eauto.
Qed.

Lemma voter_step_views v v' : voter_step v v' -> views_ok v -> views_ok v'.
Proof.
  intros Hstep [Hpc Hall]. pose proof (voter_step_facts _ _ Hstep) as Hle.
  pose proof (view_holds_le _ _ _ _ Hle Hall) as Hall'. pose proof (reads_hold_le _ _ _ _ Hle Hpc) as Hpc'.
  rewrite <- (voter_step_timeout _ _ Hstep) in *.
  destruct (voter_step_pass _ _ Hstep) as [[Hp Hcase]|(current & local & Hv & Hw & Hp)];
    constructor; rewrite ?Hp; try done.
  - destruct Hcase as [->|[(current & committed & s & now & Hv & ->)|[Hw _]]]; [done| |].
    + rewrite Hv in Hpc'. destruct s; simpl in *; try done; try (by intros Hc; apply Hle).
      split_and!; [done|intros ?; by apply Hle|]. symmetry. by apply voter_step_timeout.
    + destruct (vo_pc v') as [| | | |current committed s|current local| | |]; try done. by subst s.
  - by rewrite Hw.
  - rewrite Hv in Hpc'. constructor; [|done]. by split.
Qed.

Lemma voter_steps_views v v' : rtc voter_step v v' -> views_ok v -> views_ok v'.
Proof. induction 1; [done|]. eauto using voter_step_views. Qed.

(** ** Passes begun after a latch *)

(** Whether the pass in progress has begun to read the facts. *)
Definition facts_being_read (p : LoopPc) : bool :=
  match p with
  | LP_Snapshot _ _ SN_Start => false
  | LP_Snapshot _ _ _ | LP_Publish _ _ => true
  | _ => false
  end.

(** How many views may still come of facts read before this state. *)
Definition stale_passes (v : Voter) : nat := if facts_being_read (vo_pc v) then 1 else 0.

(** Facts read after [f]: its latches are among them. *)
Definition read_after (f : RuntimeFacts) (local : LocalFacts) : Prop :=
  (rf_draining f = true -> lf_draining local = true) ∧ (∀ c, rf_fatal f = Some c -> lf_fatal local = Some c).

Definition reading_after (f : RuntimeFacts) (p : LoopPc) : Prop :=
  match p with
  | LP_Snapshot _ _ (SN_Draining _ _ d) => rf_draining f = true -> d = true
  | LP_Snapshot _ _ (SN_Fatal _ _ d c) | LP_Snapshot _ _ (SN_Age _ d c _) =>
      (rf_draining f = true -> d = true) ∧ (∀ x, rf_fatal f = Some x -> c = Some x)
  | LP_Publish _ local => read_after f local
  | _ => True
  end.

(** The views since [u]: those read after it, and before them at most the one
    whose pass was reading at [u]. *)
Definition passes_since (u v : Voter) : Prop :=
  ∃ recent early, vo_published v = recent ++ early ++ vo_published u ∧
    Forall (λ p, read_after (vo_facts u) (pb_local p)) recent ∧
    ((reading_after (vo_facts u) (vo_pc v) ∧ (length early <= stale_passes u)%nat) ∨
     (recent = [] ∧ early = [] ∧ stale_passes u = 1%nat ∧ facts_being_read (vo_pc v) = true)).

Lemma snapshot_read_after f f' timeout now current committed s :
  facts_le f f' -> reading_after f (LP_Snapshot current committed s) ->
  reading_after f
    match snapshot_read f' timeout now committed s with
    | inl s' => LP_Snapshot current committed s'
    | inr local => LP_Publish current local
    end.
Proof. intros [Hd _ Hf _]. destruct s; simpl; auto. Qed.

Lemma snapshot_goes_on f timeout now current committed s :
  facts_being_read
    match snapshot_read f timeout now committed s with
    | inl s' => LP_Snapshot current committed s'
    | inr local => LP_Publish current local
    end = true.
Proof. by destruct s. Qed.

Lemma passes_since_step u v v' :
  facts_le (vo_facts u) (vo_facts v) -> passes_since u v -> voter_step v v' -> passes_since u v'.
Proof.
  intros Hle (recent & early & Hpub & Hrec & Hcase) Hstep.
  destruct (voter_step_pass _ _ Hstep) as [[Hp Hpc]|(current & local & Hv & Hw & Hp)].
  - exists recent, early. rewrite Hp. split_and!; [done|done|].
    destruct Hpc as [->|[(current & committed & s & now & Hv & ->)|[Hw Hv]]]; [done| |].
    + destruct Hcase as [[Hr ?]|(? & ? & ? & _)]; [left|right].
      * split; [|done]. rewrite Hv in Hr. by apply snapshot_read_after.
      * split_and!; [done..|]. apply snapshot_goes_on.
    + destruct Hcase as [[Hr ?]|(_ & _ & _ & Hb)]; [left|by destruct (vo_pc v)].
      split; [|done]. destruct (vo_pc v') as [| | | |current committed s|current local| | |]; try done. by subst s.
  - destruct Hcase as [[Hr Hlen]|(-> & -> & Hst & _)].
    + exists (mk_Published current local (classify_node current local) :: recent), early.
      rewrite Hp, Hpub. split_and!; [done| |left; by rewrite Hw].
      constructor; [|done]. by rewrite Hv in Hr.
    + exists [], [mk_Published current local (classify_node current local)].
      rewrite Hp, Hpub. split_and!; [done|done|left]. rewrite Hw, Hst. split; simpl; [done|lia].
Qed.

Lemma passes_since_steps u v : rtc voter_step u v -> passes_since u v.
Proof.
  revert v. refine (rtc_ind_r _ u _ _).
  - exists [], []. split_and!; [done|done|]. unfold stale_passes.
    destruct (facts_being_read (vo_pc u)) eqn:Hb; [by right|left]. split; [|done].
    destruct (vo_pc u) as [| | | |current committed s|current local| | |]; try done. by destruct s.
  - intros v v' Huv Hstep H. eapply passes_since_step; [|done|done]. by apply voter_steps_facts.
Qed.

(** The views published since [u] but the stale one. *)
Lemma views_since u v new :
  rtc voter_step u v -> vo_published v = new ++ vo_published u ->
  ∃ recent early, new = recent ++ early ∧ (length early <= stale_passes u)%nat ∧
    Forall (λ p, read_after (vo_facts u) (pb_local p)) recent.
Proof.
  intros Hr Hnew. destruct (passes_since_steps u v Hr) as (recent & early & Hpub & Hrec & Hcase).
  exists recent, early. rewrite Hnew, app_assoc in Hpub. apply app_inv_tail in Hpub.
  split_and!; [done| |done]. destruct Hcase as [[_ ?]|(_ & -> & _ & _)]; [done|simpl; lia].
Qed.

(** Of a latched cause nothing read afterwards is ready. *)
Lemma read_after_not_ready f m local :
  read_after f local -> rf_draining f = true ∨ is_Some (rf_fatal f) -> lv_code (classify_node m local) ≠ Ready.
Proof.
  intros [Hd Hf] Hor Hr. apply classify_grounds in Hr as [Hfa Hdr _ _ _ _ _ _].
  destruct Hor as [H|[c H]]; [apply Hd in H|apply Hf in H]; congruence.
Qed.

(** The part of [recent ++ early] a wait begun late sees. *)
Lemma late_views {A : Type} (recent early after before : list A) :
  after ++ before = recent ++ early -> (length early < length before)%nat ->
  after ++ firstn 1 before ⊆ recent.
Proof.
  intros H Hlen x Hx.
  assert (Hpre : after ++ firstn 1 before = firstn (length after + 1) (recent ++ early)).
  { rewrite <- H, take_app, (take_ge after) by lia. do 2 f_equal. lia. }
  rewrite Hpre in Hx. rewrite take_app_le in Hx.
  - apply (subseteq_take _ _ _ Hx).
  - apply (f_equal length) in H. rewrite !length_app in H. lia.
Qed.

(** C28: readiness is earned. Take any voter from its attachment on, any state
    [u] it reaches, and any two later ones, with its Store calls, contacts,
    faults, controllers and shutdown interleaved with the single reads of the
    lifecycle loop. Every view published since [u] is ready exactly when what
    its pass read gives the grounds: nothing latched, the corridor over, the
    genesis applied, the node a voter of the committed membership, a running
    consensus library, an entry of the current term applied, and within the
    voter's liveness timeout the quorum's acknowledgement on a leader or the
    leader's contact on a follower; a ready leader's view reports its quorum;
    and the genesis and the end of the corridor still hold at the end. If the
    node was draining or faulted at [u], every view whose reads began after [u]
    is draining or fatal, fatal with that cause once one was latched; only the
    one view whose pass had begun to read before [u] can escape that. So a wait
    begun once a view read after [u] is the latest never reports readiness,
    while a wait begun earlier may still return on the last ready view. *)
Theorem readiness_is_earned local timeout genesis f a c e g u v v' before after :
  rtc voter_step (voter_attach local timeout genesis f a c e g) u ->
  rtc voter_step u v -> rtc voter_step v v' ->
  vo_published v = before ++ vo_published u -> vo_published v' = after ++ vo_published v ->
  Forall (λ p,
    (lv_code (pb_view p) = Ready <-> ready_grounds (pb_current p) (pb_local p)) ∧
    lf_leader_liveness_timeout (pb_local p) = timeout ∧
    (lv_code (pb_view p) = Ready ->
       (mt_state (pb_current p) = SV_Leader -> lv_quorum_available (pb_view p) = Some true) ∧
       rf_genesis_installed (vo_facts v') = true ∧ corridor (vo_facts v') = C_Running))
    (after ++ before) ∧
  (∃ recent early, after ++ before = recent ++ early ∧ (length early <= stale_passes u)%nat ∧
    (rf_draining (vo_facts u) = true ->
       Forall (λ p, lv_code (pb_view p) = Draining ∨ lv_code (pb_view p) = Fatal) recent) ∧
    (∀ cause, rf_fatal (vo_facts u) = Some cause ->
       Forall (λ p, lv_code (pb_view p) = Fatal ∧ lv_fatal (pb_view p) = Some cause) recent)) ∧
  (rf_draining (vo_facts u) = true ∨ is_Some (rf_fatal (vo_facts u)) ->
   (stale_passes u < length before)%nat ->
   ∀ views dropped, views ⊆ pb_view <$> after ++ firstn 1 before -> wait_ready views dropped ≠ Some (Ok tt)).
Proof.
  intros H0 Huv Hvv' Hbefore Hafter.
  assert (Hviews : views_ok v').
  { eapply (voter_steps_views (voter_attach local timeout genesis f a c e g)).
    - etrans; [exact H0|]. by etrans.
    - split; simpl; [done|constructor]. }
  assert (Htime : vo_timeout v' = timeout).
  { assert (Ht : ∀ x y, rtc voter_step x y -> vo_timeout y = vo_timeout x).
    { induction 1 as [|x y z Hs _ IH]; [done|]. rewrite IH. by apply voter_step_timeout. }
    by rewrite (Ht _ _ Hvv'), (Ht _ _ Huv), (Ht _ _ H0). }
  destruct Hviews as [_ Hall]. rewrite Hafter, Hbefore, app_assoc in Hall.
  apply Forall_app in Hall as [Hall _].
  assert (Hnew : vo_published v' = (after ++ before) ++ vo_published u)
    by (by rewrite Hafter, Hbefore, app_assoc).
  destruct (views_since u v' _ ltac:(by etrans) Hnew) as (recent & early & Hsplit & Hlen & Hrec).
  assert (Hboth : Forall (λ p, read_after (vo_facts u) (pb_local p) ∧
    pb_view p = classify_node (pb_current p) (pb_local p)) recent).
  { apply list.Forall_and. split; [done|]. rewrite Hsplit in Hall. apply Forall_app in Hall as [Hall _].
    eapply list.Forall_impl; [exact Hall|]. by intros p [? _]. }
  split_and!.
  - eapply list.Forall_impl; [exact Hall|]. intros p [Hp (Hc & Hg & Ht)]. rewrite Hp, Htime in *.
    split_and!; [apply classify_grounds|done|]. intros Hr. apply classify_grounds in Hr.
    split_and!; [by apply ready_quorum|apply Hg, Hr|apply Hc, Hr].
  - exists recent, early. split_and!; [done|done| |].
    + intros Hd. eapply list.Forall_impl; [exact Hboth|]. intros p [[Hx _] ->]. apply classify_draining, Hx, Hd.
    + intros cause Hc. eapply list.Forall_impl; [exact Hboth|]. intros p [[_ Hx] ->]. apply classify_fatal, Hx, Hc.
  - intros Hor Hb views dropped Hsub. apply wait_not_ready. apply list.Forall_forall. intros w Hw.
    apply Hsub, list_elem_of_fmap in Hw as (p & -> & Hp).
    apply (late_views recent early after before) in Hp; [|done|lia].
    destruct (proj1 (list.Forall_forall _ _) Hboth p Hp) as [Hx ->]. by eapply read_after_not_ready.
Qed.

(** The codes of a classified view are the declared ones, and the fatal code is
    nonzero exactly for a fatal view. *)
Lemma classify_codes m f :
  let w := classify_node m f in
  (1 <= lifecycle_code (lv_code w) <= 6)%Z ∧ (0 <= role_code (lv_local_role w) <= 2)%Z ∧
  (0 <= from_option fatal_code 0 (lv_fatal w) <= 4)%Z ∧
  (lifecycle_code (lv_code w) = 6%Z <-> from_option fatal_code 0%Z (lv_fatal w) ≠ 0%Z).
Proof.
  intros w. pose proof (classify_cause m f) as Hc. fold w in Hc.
  split; [by destruct (lv_code w)|]. split; [by destruct (lv_local_role w)|].
  split; [by destruct (lv_fatal w) as [[]|]|].
  destruct (lv_fatal w) as [c|] eqn:Hf; simpl.
  - rewrite (proj2 Hc) by eauto. split; [|done]. intros _. by destruct c.
  - split; [|done]. intros H. destruct (proj1 Hc) as [? ?]; [|done]. by destruct (lv_code w).
Qed.

(** ** Concrete runs *)

(** A generation that is created, then stopped for good. *)
Definition demo_tasks : ControllerTasks := finish_replace (begin_replace no_tasks (Some 1)) (Some 1) 0 1.
Definition demo_stop : ControllerTasks := begin_stop demo_tasks.

Lemma demo_tasks_run : rtc tasks_step no_tasks demo_stop.
Proof.
  eapply rtc_l; [by apply (ts_replace no_tasks (Some 1))|].
  eapply rtc_l; [by apply (ts_replaced _ (Some 1) 0 1)|]. apply rtc_once. by apply ts_stop.
Qed.

Lemma controllers_never_overlap_witness :
  ct_running demo_stop !! 0%nat = Some (T_Membership 1) ∧
  ∃ t', rtc tasks_step demo_stop t' ∧ ct_lock t' = None ∧
    (∀ l b, ct_lock demo_stop = Some (LK_Stop l b) -> ct_stopped t' = true).
Proof.
  split; [reflexivity|].
  exact (proj1 (proj2 (proj2 (controllers_never_overlap demo_stop demo_tasks_run)))).
Defined.

(** A voter whose shutdown runs to its end. *)
Definition demo_node : NodeId := replicate 32 Byte.x01.
Definition demo_voter : Voter :=
  voter_attach demo_node 3000 None (RuntimeFacts_new C_Running 0) from_membership (started 0)
    Endpoint_new 0.
Definition demo_marked : Voter :=
  set_shutdown (set_facts demo_voter (begin_draining (vo_facts demo_voter))) SD_Marked.
Definition demo_draining : Voter :=
  set_shutdown (set_endpoint demo_marked (detach (vo_endpoint demo_marked))) (SD_Draining_ (1 + DRAIN_FOR)).
Definition demo_superseded : Voter :=
  set_shutdown (next_generation (set_shutdown demo_draining (SD_Drained true))) (SD_Superseded true).
Definition demo_stopping : Voter :=
  set_shutdown (set_tasks demo_superseded (begin_stop (vo_tasks demo_superseded))) (SD_Stopping true).
Definition demo_proposal : Voter := set_tasks demo_stopping (take_proposal (vo_tasks demo_stopping)).
Definition demo_stopped : Voter :=
  set_shutdown (set_tasks demo_proposal (finish_stop (vo_tasks demo_proposal))) (SD_Stopped true).
Definition demo_done : Voter := raft_shutdown (deregister demo_stopped true) true.

Lemma demo_shutdown_run : rtc voter_step demo_voter demo_done.
Proof.
  eapply rtc_l; [by apply (vs_shutdown demo_voter)|].
  eapply rtc_l; [by apply (vs_detach demo_marked 1)|].
  eapply rtc_l; [by apply (vs_drain demo_draining (1 + DRAIN_FOR) 2 true)|].
  eapply rtc_l; [by apply (vs_supersede _ true)|].
  eapply rtc_l; [by apply (vs_stop demo_superseded true)|].
  eapply rtc_l; [apply (vs_stop_proposal demo_stopping); [by right; exists true|done]|].
  eapply rtc_l; [by apply (vs_stopped demo_proposal true)|].
  eapply rtc_l; [by apply (vs_deregister demo_stopped true)|].
  apply rtc_once. by apply vs_raft_shutdown.
Qed.

Lemma shutdown_in_order_witness :
  vo_raft_running demo_done = false ∧
  ct_running (vo_tasks demo_done) = ∅ ∧ ep_inner (vo_endpoint demo_done) = None ∧
  vo_raft_attached demo_done = false.
Proof.
  split; [reflexivity|].
  refine (proj2 (proj2 (proj2 (proj2 (shutdown_in_order demo_node 3000 None (RuntimeFacts_new C_Running 0)
    from_membership (started 0) Endpoint_new 0 demo_done (rtc_refl _ _) _ demo_shutdown_run)))) _);
    reflexivity.
Defined.

(** A leader of a group of one that becomes ready. *)
Definition demo_metrics : NodeMetrics :=
  mk_NodeMetrics (Ok tt) demo_node 3 (Some (mk_LogId 3 demo_node 7)) SV_Leader (Some demo_node) (Some 20).
Definition demo_committed : StoredMembership :=
  mk_StoredMembership None (mk_RaftMembership [{[demo_node]}] {[demo_node]}).
Definition demo_read : Voter := loop_read demo_voter (Ok true) demo_metrics demo_committed.
Definition demo_replacing : Voter :=
  let v := next_generation demo_read in
  set_pc (set_tasks v (begin_replace (vo_tasks v) (Some (vo_generation v))))
    (LP_Replacing demo_metrics demo_committed).
Definition demo_replaced : Voter :=
  set_pc (set_loop (set_tasks demo_replacing (finish_replace (vo_tasks demo_replacing) (Some 1) 0 1))
            (set_leading (vo_loop demo_replacing) true))
    (LP_Propose demo_metrics demo_committed).
Definition demo_snapshot (s : SnapshotPc) : Voter := set_pc demo_replaced (LP_Snapshot demo_metrics demo_committed s).
Definition demo_local : LocalFacts := mk_LocalFacts C_Running false None None 3000 true demo_committed.
Definition demo_publish : Voter := set_pc demo_replaced (LP_Publish demo_metrics demo_local).
Definition demo_ready : Voter := loop_publish demo_publish 9000 demo_metrics demo_local.

Lemma demo_publish_run : rtc voter_step demo_voter demo_publish.
Proof.
  eapply rtc_l; [by apply (vs_read demo_voter (Ok true) demo_metrics demo_committed)|].
  eapply rtc_l; [by apply (vs_replace demo_read demo_metrics demo_committed)|].
  eapply rtc_l; [by apply (vs_replaced demo_replacing demo_metrics demo_committed (Some 1) 0 1)|].
  eapply rtc_l; [by apply (vs_no_proposal demo_replaced demo_metrics demo_committed)|].
  eapply rtc_l; [by apply (vs_read_fact (demo_snapshot SN_Start) 9)|].
  eapply rtc_l; [by apply (vs_read_fact (demo_snapshot (SN_Contact U64_MAX)) 9)|].
  eapply rtc_l; [by apply (vs_read_fact (demo_snapshot (SN_Corridor U64_MAX C_Running)) 9)|].
  eapply rtc_l; [by apply (vs_read_fact (demo_snapshot (SN_Draining U64_MAX C_Running false)) 9)|].
  eapply rtc_l; [by apply (vs_read_fact (demo_snapshot (SN_Fatal U64_MAX C_Running false None)) 9)|].
  apply rtc_once. exact (vs_read_fact (demo_snapshot (SN_Age C_Running false None None)) 9 demo_metrics demo_committed
    (SN_Age C_Running false None None) eq_refl).
Qed.

(** The shutdown begins between the last read and the publication: the stale
    view is ready. The next pass publishes a draining one. *)
Definition demo_late : Voter :=
  set_shutdown (set_facts demo_publish (begin_draining (vo_facts demo_publish))) SD_Marked.
Definition demo_stale : Voter := loop_publish demo_late 9000 demo_metrics demo_local.
Definition demo_again : Voter := loop_read (set_pc demo_stale LP_Top) (Ok true) demo_metrics demo_committed.
Definition demo_again_at (s : SnapshotPc) : Voter :=
  set_pc demo_again (LP_Snapshot demo_metrics demo_committed s).
Definition demo_draining_local : LocalFacts := mk_LocalFacts C_Running true None None 3000 true demo_committed.
Definition demo_drained : Voter :=
  loop_publish (set_pc demo_again (LP_Publish demo_metrics demo_draining_local)) 9500 demo_metrics
    demo_draining_local.

Lemma demo_late_run : rtc voter_step demo_voter demo_late.
Proof. eapply rtc_r; [apply demo_publish_run|]. by apply (vs_shutdown demo_publish). Qed.

Lemma demo_drained_run : rtc voter_step demo_late demo_drained.
Proof.
  eapply rtc_l; [by apply (vs_publish demo_late)|].
  eapply rtc_l; [by apply (vs_changed demo_stale)|].
  eapply rtc_l; [by apply (vs_read _ (Ok true) demo_metrics demo_committed)|].
  eapply rtc_l; [by apply (vs_same demo_again demo_metrics demo_committed)|].
  eapply rtc_l; [by apply (vs_no_proposal _ demo_metrics demo_committed)|].
  eapply rtc_l; [by apply (vs_read_fact (demo_again_at SN_Start) 10)|].
  eapply rtc_l; [by apply (vs_read_fact (demo_again_at (SN_Contact U64_MAX)) 10)|].
  eapply rtc_l; [by apply (vs_read_fact (demo_again_at (SN_Corridor U64_MAX C_Running)) 10)|].
  eapply rtc_l; [by apply (vs_read_fact (demo_again_at (SN_Draining U64_MAX C_Running true)) 10)|].
  eapply rtc_l; [by apply (vs_read_fact (demo_again_at (SN_Fatal U64_MAX C_Running true None)) 10)|].
  eapply rtc_l; [by apply (vs_read_fact (demo_again_at (SN_Age C_Running true None None)) 10)|].
  apply rtc_once. by apply (vs_publish (set_pc demo_again (LP_Publish demo_metrics demo_draining_local))).
Qed.

(** The stale view is ready and a wait that still sees it returns; a wait begun
    at the end does not. *)
Lemma readiness_is_earned_witness :
  lv_code <$> (pb_view <$> vo_published demo_drained) = [Draining; Ready] ∧
  wait_ready [classify_node demo_metrics demo_local] false = Some (Ok tt) ∧
  ready_grounds demo_metrics demo_local ∧
  wait_ready [classify_node demo_metrics demo_draining_local] true ≠ Some (Ok tt).
Proof.
  split; [vm_compute; reflexivity|]. split; [vm_compute; reflexivity|].
  pose proof (readiness_is_earned demo_node 3000 None (RuntimeFacts_new C_Running 0) from_membership (started 0)
    Endpoint_new 0 demo_late demo_drained demo_drained
    [mk_Published demo_metrics demo_draining_local (classify_node demo_metrics demo_draining_local);
     mk_Published demo_metrics demo_local (classify_node demo_metrics demo_local)] []
    demo_late_run demo_drained_run (rtc_refl _ _) eq_refl eq_refl) as (Hall & _ & Hwait).
  split.
  - apply Forall_app in Hall as [_ Hall]. apply list.Forall_cons in Hall as [_ Hall].
    apply list.Forall_cons in Hall as [[H _] _]. apply H. vm_compute. reflexivity.
  - apply Hwait; [left; reflexivity|vm_compute; lia|]. intros x Hx. exact Hx.
Defined.
