(* ===== verification/Network.v ===== *)
(** * The Raft service between voters

    Models [aster/src/coordination/admission.rs] (the verified admission source
    and the built-in signed set), [network/admit.rs] (the ordered checks of an
    incoming request), [network/errors.rs] (the classification of failures),
    the unary half of [network/client.rs] and [network/service.rs], and the status
    codes of [core/src/envelope.rs]. The binary codec, signatures and digests are
    parameters, and so are the handlers of the consensus library. *)

From S2P Require Import Prelude Ids Contract Externals Limits State Tables Classify.
From S2P Require Import Ticket Authority Shape Genesis Resource Grant Retire.
From S2P Require Import Membership Apply Wire Boundary Durable Mirror Store Admission NodeRuntime.

#[local] Open Scope N_scope.
#[local] Open Scope coordination_scope.

(** ** Status codes *)

(** [enum StatusCode], with [as_i32] and [from_i32]. *)
Inductive WireStatus : Type :=
| WS_Ok | WS_Cancelled | WS_Unknown | WS_InvalidArgument | WS_DeadlineExceeded | WS_NotFound
| WS_AlreadyExists | WS_PermissionDenied | WS_ResourceExhausted | WS_FailedPrecondition
| WS_Aborted | WS_OutOfRange | WS_Unimplemented | WS_Internal | WS_Unavailable | WS_DataLoss
| WS_Unauthenticated | WS_ContractViolation.

#[export] Instance WireStatus_eq_dec : EqDecision WireStatus.
Proof. solve_decision. Defined.

Definition as_i32 (c : WireStatus) : Z :=
  match c with
  | WS_Ok => 0
  | WS_Cancelled => 1
  | WS_Unknown => 2
  | WS_InvalidArgument => 3
  | WS_DeadlineExceeded => 4
  | WS_NotFound => 5
  | WS_AlreadyExists => 6
  | WS_PermissionDenied => 7
  | WS_ResourceExhausted => 8
  | WS_FailedPrecondition => 9
  | WS_Aborted => 10
  | WS_OutOfRange => 11
  | WS_Unimplemented => 12
  | WS_Internal => 13
  | WS_Unavailable => 14
  | WS_DataLoss => 15
  | WS_Unauthenticated => 16
  | WS_ContractViolation => 101
  end%Z.
Definition from_i32 (code : Z) : WireStatus :=
  match code with
  | 0 => WS_Ok
  | 1 => WS_Cancelled
  | 2 => WS_Unknown
  | 3 => WS_InvalidArgument
  | 4 => WS_DeadlineExceeded
  | 5 => WS_NotFound
  | 6 => WS_AlreadyExists
  | 7 => WS_PermissionDenied
  | 8 => WS_ResourceExhausted
  | 9 => WS_FailedPrecondition
  | 10 => WS_Aborted
  | 11 => WS_OutOfRange
  | 12 => WS_Unimplemented
  | 13 => WS_Internal
  | 14 => WS_Unavailable
  | 15 => WS_DataLoss
  | 16 => WS_Unauthenticated
  | 101 => WS_ContractViolation
  | _ => WS_Unknown
  end%Z.

(** ** Failures of a call *)

(** [enum FaultClass], in its order, and [is_latched]. *)
Inductive FaultClass : Type :=
| FT_Transient
| FT_PeerLoad
| FT_PeerFault
| FT_PeerRefusal
| FT_PermanentUntilRepaired
| FT_PermanentProtocol
| FT_LocalInvariant.

#[export] Instance FaultClass_eq_dec : EqDecision FaultClass.
Proof. solve_decision. Defined.

Definition severity (c : FaultClass) : N :=
  match c with
  | FT_Transient => 0
  | FT_PeerLoad => 1
  | FT_PeerFault => 2
  | FT_PeerRefusal => 3
  | FT_PermanentUntilRepaired => 4
  | FT_PermanentProtocol => 5
  | FT_LocalInvariant => 6
  end.
Definition is_latched (c : FaultClass) : bool :=
  match c with
  | FT_Transient | FT_PeerLoad => false
  | _ => true
  end.

(** [enum Retry], [struct Classified], [enum Transport]. *)
Inductive Retry : Type :=
| RT_Unreachable
| RT_Network
| RT_Timeout.
Record Classified : Type := mk_Classified {
  cl_retry : Retry;
  cl_fault : FaultClass;
}.
Inductive Transport : Type :=
| TR_NotDialable
| TR_ConnectionLost
| TR_LocalIo
| TR_Deadline
| TR_Status (code : WireStatus)
| TR_VersionMismatch
| TR_WrongGroup
| TR_Undecodable
| TR_InboundOversized
| TR_OutboundOversized.

(** [classify_status]. *)
Definition classify_status (code : WireStatus) : Classified :=
  match code with
  | WS_Ok => mk_Classified RT_Unreachable FT_PermanentProtocol
  | WS_Cancelled => mk_Classified RT_Unreachable FT_Transient
  | WS_Unknown => mk_Classified RT_Unreachable FT_PermanentProtocol
  | WS_InvalidArgument => mk_Classified RT_Unreachable FT_PermanentProtocol
  | WS_DeadlineExceeded => mk_Classified RT_Timeout FT_Transient
  | WS_NotFound => mk_Classified RT_Unreachable FT_Transient
  | WS_AlreadyExists => mk_Classified RT_Unreachable FT_PermanentProtocol
  | WS_PermissionDenied => mk_Classified RT_Unreachable FT_PermanentUntilRepaired
  | WS_ResourceExhausted => mk_Classified RT_Unreachable FT_PeerLoad
  | WS_FailedPrecondition => mk_Classified RT_Unreachable FT_Transient
  | WS_Aborted => mk_Classified RT_Unreachable FT_PermanentProtocol
  | WS_OutOfRange => mk_Classified RT_Unreachable FT_PermanentProtocol
  | WS_Unimplemented => mk_Classified RT_Unreachable FT_Transient
  | WS_Internal => mk_Classified RT_Unreachable FT_PeerFault
  | WS_Unavailable => mk_Classified RT_Unreachable FT_Transient
  | WS_DataLoss => mk_Classified RT_Unreachable FT_PeerRefusal
  | WS_Unauthenticated => mk_Classified RT_Unreachable FT_PermanentProtocol
  | WS_ContractViolation => mk_Classified RT_Unreachable FT_PermanentProtocol
  end.

(** [classify] of errors.rs. *)
Definition classify_transport (failure : Transport) : Classified :=
  match failure with
  | TR_NotDialable => mk_Classified RT_Unreachable FT_Transient
  | TR_ConnectionLost => mk_Classified RT_Unreachable FT_Transient
  | TR_LocalIo => mk_Classified RT_Network FT_Transient
  | TR_Deadline => mk_Classified RT_Timeout FT_Transient
  | TR_Status code => classify_status code
  | TR_VersionMismatch => mk_Classified RT_Unreachable FT_PermanentProtocol
  | TR_WrongGroup => mk_Classified RT_Unreachable FT_PermanentProtocol
  | TR_Undecodable => mk_Classified RT_Unreachable FT_PermanentProtocol
  | TR_InboundOversized => mk_Classified RT_Unreachable FT_PermanentProtocol
  | TR_OutboundOversized => mk_Classified RT_Unreachable FT_LocalInvariant
  end.

(** [openraft::network::RPCTypes] and [oversized_request]. *)
Inductive RPCTypes : Type :=
| RPC_AppendEntries
| RPC_Vote
| RPC_InstallSnapshot.
Definition oversized_request (method : RPCTypes) : option Classified :=
  match method with
  | RPC_AppendEntries => None
  | RPC_Vote | RPC_InstallSnapshot => Some (mk_Classified RT_Unreachable FT_LocalInvariant)
  end.

(** [openraft::error::RPCError], as far as it is built here, and
    [to_rpc_error]. *)
Inductive RPCError : Type :=
| RPC_Unreachable
| RPC_NetworkError
| RPC_PayloadTooLarge (entries_hint : N).
Definition to_rpc_error (c : Classified) : RPCError :=
  match cl_retry c with
  | RT_Unreachable | RT_Timeout => RPC_Unreachable
  | RT_Network => RPC_NetworkError
  end.

(** [struct FaultLatch]: [record], [get] and [clear]. *)
Abbreviation FaultLatch := (gmap NodeId FaultClass).
Definition latch_record (l : FaultLatch) (peer : NodeId) (class : FaultClass) : FaultLatch :=
  if negb (is_latched class) then l
  else
    match l !! peer with
    | Some held => if severity held <? severity class then <[peer := class]> l else l
    | None => <[peer := class]> l
    end.
Definition latch_clear (l : FaultLatch) (peer : NodeId) : FaultLatch := delete peer l.

(** ** Verified admission *)

(** [enum VerifiedAdmissionClass], [struct VerifiedAdmission],
    [enum AdmissionLookupError]. *)
Inductive VerifiedAdmissionClass : Type :=
| VA_Producer
| VA_Consumer.
Record VerifiedAdmission : Type := mk_VerifiedAdmission {
  va_subject : NodeId;
  va_class : VerifiedAdmissionClass;
  va_authority_fingerprint : bytes;
  va_evidence_digest : bytes;
  va_revision : N;
}.
Inductive AdmissionLookupError : Type :=
| AL_Unavailable (detail : bytes)
| AL_Malformed (detail : bytes).

(** [trait VerifiedAdmissionSource]. *)
Class VerifiedAdmissionSource (A : Type) : Type :=
  source_get : A -> NodeId -> result (option VerifiedAdmission) AdmissionLookupError.

(** [enum AdmissionDenial]. *)
Inductive AdmissionDenial : Type :=
| AD_Missing (node : NodeId)
| AD_Unavailable (detail : bytes)
| AD_Malformed (detail : bytes)
| AD_WrongSubject (asked returned : NodeId)
| AD_NotProducer (node : NodeId).

(** [decide]. *)
Definition decide_admission {A : Type} `{VerifiedAdmissionSource A} (source : A) (node : NodeId)
    : result VerifiedAdmission AdmissionDenial :=
  match source_get source node with
  | Ok (Some record) =>
      if negb (bool_decide (va_subject record = node))
      then Err (AD_WrongSubject node (va_subject record))
      else
        match va_class record with
        | VA_Producer => Ok record
        | VA_Consumer => Err (AD_NotProducer node)
        end
  | Ok None => Err (AD_Missing node)
  | Err (AL_Unavailable detail) => Err (AD_Unavailable detail)
  | Err (AL_Malformed detail) => Err (AD_Malformed detail)
  end.

(** [admission_status]. *)
Definition admission_status (denial : AdmissionDenial) : WireStatus :=
  match denial with
  | AD_Unavailable _ => WS_Unavailable
  | _ => WS_PermissionDenied
  end.

(** ** The built-in signed source *)

(** [struct AdmissionEntryV1] and [struct AdmissionSetV1]. *)
Record AdmissionEntryV1 : Type := mk_AdmissionEntryV1 {
  aev_node_id : bytes;
  aev_class_code : Z;
}.
Record AdmissionSetV1 : Type := mk_AdmissionSetV1 {
  asv_format_version : N;
  asv_authority_domain : bytes;
  asv_revision : N;
  asv_entries : list AdmissionEntryV1;
}.

Definition ADMISSION_DOMAIN : bytes := name "aster-coordination/admission/v1" ++ [Byte.x00].
Definition ADMISSION_FORMAT_VERSION : N := 1.
Definition MAX_ADMISSION_ENTRIES : N := 1024.
Definition ADMISSION_CLASS_PRODUCER : Z := 1.
Definition ADMISSION_CLASS_CONSUMER : Z := 2.

(** [enum AdmissionSetError]. *)
Inductive AdmissionSetError : Type :=
| AS_Malformed
| AS_UnknownFormat (version : N)
| AS_NonCanonical
| AS_WrongAuthorityKey
| AS_BadSignature
| AS_WrongDomain
| AS_FieldWidth
| AS_Entries
| AS_UnknownClass (code : Z).

(** [struct RaftEnvelopeV1] and [struct RaftResponseEnvelopeV1]. *)
Record RaftEnvelopeV1 : Type := mk_RaftEnvelopeV1 {
  rev_protocol_version : Z;
  rev_raft_codec_version : Z;
  rev_group_id : bytes;
  rev_sender_node_id : bytes;
  rev_payload : bytes;
}.
Record RaftResponseEnvelopeV1 : Type := mk_RaftResponseEnvelopeV1 {
  rrv_protocol_version : Z;
  rrv_raft_codec_version : Z;
  rrv_group_id : bytes;
  rrv_responder_node_id : bytes;
  rrv_payload : bytes;
}.

(** The binary codec of the network's types. *)
Class NetworkCodec `{UnknownCarrier} : Type := {
  encode_envelope : RaftEnvelopeV1 -> option bytes;
  decode_envelope : bytes -> option RaftEnvelopeV1;
  encode_response : RaftResponseEnvelopeV1 -> option bytes;
  decode_response : bytes -> option RaftResponseEnvelopeV1;
  encode_message : RaftMessageV1 -> option bytes;
  decode_message : bytes -> option RaftMessageV1;
  encode_admission_set : AdmissionSetV1 -> option bytes;
  decode_admission_set : bytes -> option AdmissionSetV1;
}.

(** Documented behaviour of the codec: decoding inverts encoding, and an
    encoding is no shorter than a byte field it carries. *)
Class NetworkCodecLaws `{NetworkCodec} : Prop := {
  envelope_decodes e b : encode_envelope e = Some b -> decode_envelope b = Some e;
  response_decodes e b : encode_response e = Some b -> decode_response b = Some e;
  message_decodes m b : encode_message m = Some b -> decode_message b = Some m;
  envelope_holds_payload e b : encode_envelope e = Some b -> len (rev_payload e) <= len b;
}.

Section admission_set.
Context `{Externals} `{NetworkCodec}.

(** [admission_signing_bytes], [admission_set_digest], [authority_fingerprint]. *)
Definition admission_signing_bytes (document : bytes) : bytes := ADMISSION_DOMAIN ++ document.
Definition admission_set_digest (document : bytes) : bytes := blake3 (admission_signing_bytes document).
Definition authority_fingerprint (key : bytes) : bytes := blake3 key.

(** The class of an entry. *)
Definition entry_class (code : Z) : result VerifiedAdmissionClass AdmissionSetError :=
  if (code =? ADMISSION_CLASS_PRODUCER)%Z then Ok VA_Producer
  else if (code =? ADMISSION_CLASS_CONSUMER)%Z then Ok VA_Consumer
  else Err (AS_UnknownClass code).

(** The loop that collects the records. *)
Fixpoint collect_entries (fingerprint digest : bytes) (revision : N) (entries : list AdmissionEntryV1)
    (acc : gmap NodeId VerifiedAdmission) : result (gmap NodeId VerifiedAdmission) AdmissionSetError :=
  match entries with
  | [] => Ok acc
  | entry :: entries =>
      match id_from_slice 32 (aev_node_id entry) with
      | Err _ => Err AS_FieldWidth
      | Ok subject =>
          let? class := entry_class (aev_class_code entry) in
          collect_entries fingerprint digest revision entries
            (<[subject := mk_VerifiedAdmission subject class fingerprint digest revision]> acc)
      end
  end.

(** The rules of the set itself. *)
Definition check_admission_set (domain : bytes) (set : AdmissionSetV1) : result unit AdmissionSetError :=
  if negb (asv_format_version set =? ADMISSION_FORMAT_VERSION)
  then Err (AS_UnknownFormat (asv_format_version set))
  else if (len (asv_authority_domain set) =? 0)
          || (MAX_AUTHORITY_DOMAIN_BYTES <? len (asv_authority_domain set))
          || negb (is_ascii (asv_authority_domain set))
  then Err AS_FieldWidth
  else if negb (bool_decide (asv_authority_domain set = domain)) then Err AS_WrongDomain
  else if (len (asv_entries set) =? 0) || (MAX_ADMISSION_ENTRIES <? len (asv_entries set))
  then Err AS_Entries
  else if negb (windows2_all bytes_ltb (map aev_node_id (asv_entries set))) then Err AS_Entries
  else Ok tt.

(** [SignedAdmissionSet::verify]. *)
Definition verify_admission_set (key domain signed : bytes)
    : result (gmap NodeId VerifiedAdmission) AdmissionSetError :=
  match fory_decode_signed_document signed with
  | None => Err AS_Malformed
  | Some envelope =>
      if negb (sd_format_version envelope =? ADMISSION_FORMAT_VERSION)
      then Err (AS_UnknownFormat (sd_format_version envelope))
      else if negb (len (sd_authority_public_key envelope) =? 32)
              || negb (len (sd_signature envelope) =? 64)
      then Err AS_FieldWidth
      else if negb (bool_decide (sd_authority_public_key envelope = key)) then Err AS_WrongAuthorityKey
      else if negb (ed25519_key_accepted key) then Err AS_Malformed
      else if negb (ed25519_signature_accepted (sd_signature envelope)) then Err AS_Malformed
      else if negb (ed25519_verify key (admission_signing_bytes (sd_document_bytes envelope))
                      (sd_signature envelope))
      then Err AS_BadSignature
      else
        match decode_admission_set (sd_document_bytes envelope) with
        | None => Err AS_Malformed
        | Some set =>
            match encode_admission_set set with
            | None => Err AS_Malformed
            | Some reencoded =>
                if negb (bool_decide (reencoded = sd_document_bytes envelope)) then Err AS_NonCanonical
                else
                  let? _ := check_admission_set domain set in
                  collect_entries (authority_fingerprint key)
                    (admission_set_digest (sd_document_bytes envelope)) (asv_revision set)
                    (asv_entries set) ∅
            end
        end
  end.

End admission_set.

(** [VerifiedAdmissionSource for SignedAdmissionSet]. *)
#[export] Instance signed_admission_set : VerifiedAdmissionSource (gmap NodeId VerifiedAdmission) :=
  λ entries node, Ok (entries !! node).

(** ** The checks of an incoming request *)

Definition PROTOCOL_VERSION : Z := 1.
Definition RAFT_CODEC_VERSION : Z := 1.
Definition MAX_RAFT_PAYLOAD : N := MAX_ENCODED_COMMAND * 32.

(** [enum PeerProvenance]. *)
Inductive PeerProvenance : Type :=
| IrohAuthenticated
| OtherTransport.

(** [struct Refusal] of admit.rs, without its text. *)
Record RaftRefusal : Type := mk_RaftRefusal {
  rr_step : N;
  rr_status : WireStatus;
}.

(** [struct ClaimedIdentity]. *)
Record ClaimedIdentity : Type := mk_ClaimedIdentity {
  ci_protocol_version : Z;
  ci_raft_codec_version : Z;
  ci_group_id : bytes;
  ci_sender_node_id : bytes;
}.

(** [transport_identity]: step 1. *)
Definition transport_identity (provenance : PeerProvenance) (peer : bytes) : result NodeId RaftRefusal :=
  match provenance with
  | OtherTransport => Err (mk_RaftRefusal 1 WS_Unauthenticated)
  | IrohAuthenticated =>
      match id_parse_hex 32 peer with
      | Ok id => Ok id
      | Err _ => Err (mk_RaftRefusal 1 WS_Unauthenticated)
      end
  end.

Section raft_service.
Context `{Carrier : UnknownCarrier} {Codec : NetworkCodec} {A : Type} {Source : VerifiedAdmissionSource A}.

(** [struct AdmissionContext]. *)
Record AdmissionContext : Type := mk_AdmissionContext {
  ax_group : GroupId;
  ax_admission : A;
  ax_allowlist : SenderAllowlist;
  ax_members : gset NodeId;
}.

(** [check_claim]: step 2 on the claims, 3 and 4. *)
Definition check_claim (ctx : AdmissionContext) (sender : NodeId) (claimed : ClaimedIdentity)
    : result unit RaftRefusal :=
  if negb (ci_protocol_version claimed =? PROTOCOL_VERSION)%Z
     || negb (ci_raft_codec_version claimed =? RAFT_CODEC_VERSION)%Z
  then Err (mk_RaftRefusal 2 WS_InvalidArgument)
  else if negb (bool_decide (ci_group_id claimed = ax_group ctx))
  then Err (mk_RaftRefusal 2 WS_PermissionDenied)
  else
    match id_from_slice 32 (ci_sender_node_id claimed) with
    | Err _ => Err (mk_RaftRefusal 2 WS_InvalidArgument)
    | Ok stated =>
        if negb (bool_decide (stated = sender)) then Err (mk_RaftRefusal 2 WS_PermissionDenied)
        else
          match decide_admission (ax_admission ctx) sender with
          | Err denial => Err (mk_RaftRefusal 3 (admission_status denial))
          | Ok _ =>
              if negb (permits (ax_allowlist ctx) sender (ax_members ctx))
              then Err (mk_RaftRefusal 4 WS_PermissionDenied)
              else Ok tt
          end
    end.

(** [admit_identity]: steps 1 to 4 for any frame that carries the claims. *)
Definition admit_identity (ctx : AdmissionContext) (provenance : PeerProvenance) (peer : bytes)
    (claimed : ClaimedIdentity) : result NodeId RaftRefusal :=
  let? sender := transport_identity provenance peer in
  let? _ := check_claim ctx sender claimed in
  Ok sender.

(** [pairs_with]. *)
Definition pairs_with (method : bytes) (message : RaftMessageV1) : bool :=
  match message with
  | RM_VoteRequest _ => bool_decide (method = name "vote")
  | RM_AppendRequest _ => bool_decide (method = name "append_entries")
  | _ => false
  end.

(** The claims of an envelope. *)
Definition envelope_claim (e : RaftEnvelopeV1) : ClaimedIdentity :=
  mk_ClaimedIdentity (rev_protocol_version e) (rev_raft_codec_version e) (rev_group_id e)
    (rev_sender_node_id e).

(** Step 2 on the frame: the envelope, which must be its own encoding. *)
Definition open_raft_envelope (frame : bytes) : result RaftEnvelopeV1 RaftRefusal :=
  match decode_envelope frame with
  | None => Err (mk_RaftRefusal 2 WS_InvalidArgument)
  | Some envelope =>
      match encode_envelope envelope with
      | None => Err (mk_RaftRefusal 2 WS_InvalidArgument)
      | Some reencoded =>
          if negb (bool_decide (reencoded = frame)) then Err (mk_RaftRefusal 2 WS_InvalidArgument)
          else Ok envelope
      end
  end.

(** Step 5: the payload, its canonicality and its pairing with the method. *)
Definition open_payload (method : bytes) (payload : bytes) : result RaftMessageV1 RaftRefusal :=
  if MAX_RAFT_PAYLOAD <? len payload then Err (mk_RaftRefusal 5 WS_InvalidArgument)
  else
    match decode_message payload with
    | None => Err (mk_RaftRefusal 5 WS_InvalidArgument)
    | Some message =>
        match encode_message message with
        | None => Err (mk_RaftRefusal 5 WS_InvalidArgument)
        | Some reencoded =>
            if negb (bool_decide (reencoded = payload)) then Err (mk_RaftRefusal 5 WS_InvalidArgument)
            else if negb (pairs_with method message) then Err (mk_RaftRefusal 5 WS_InvalidArgument)
            else Ok message
        end
    end.

(** [admit]: the sender and the message. *)
Definition admit_request (ctx : AdmissionContext) (method : bytes) (provenance : PeerProvenance)
    (peer frame : bytes) : result (NodeId * RaftMessageV1) RaftRefusal :=
  let? sender := transport_identity provenance peer in
  let? envelope := open_raft_envelope frame in
  let? _ := check_claim ctx sender (envelope_claim envelope) in
  let? message := open_payload method (rev_payload envelope) in
  Ok (sender, message).

(** ** The service *)

(** The handlers of the consensus library, which may have stopped. *)
Record RaftHandlers : Type := mk_RaftHandlers {
  rh_vote : VoteRequest -> option VoteResponse;
  rh_append_entries : AppendEntriesRequest -> option AppendEntriesResponse;
}.

(** What the service reads of [struct AttachedRuntime]: the two memberships are
    the committed and the effective one. *)
Record AttachedRuntime : Type := mk_AttachedRuntime {
  ar_raft : RaftHandlers;
  ar_committed : RaftMembership;
  ar_effective : RaftMembership;
  ar_group : GroupId;
  ar_local : NodeId;
  ar_admission : A;
  ar_allowlist : SenderAllowlist;
}.

(** [admissible_members]. *)
Definition admissible_members (rt : AttachedRuntime) : gset NodeId :=
  (rm_voter_ids (ar_committed rt) ∪ rm_nodes (ar_committed rt)) ∪
  (rm_voter_ids (ar_effective rt) ∪ rm_nodes (ar_effective rt)).

(** [CoordinationRaftService::envelope]. *)
Definition response_envelope (rt : AttachedRuntime) (message : RaftMessageV1) : option bytes :=
  match encode_message message with
  | None => None
  | Some payload =>
      encode_response (mk_RaftResponseEnvelopeV1 PROTOCOL_VERSION RAFT_CODEC_VERSION (ar_group rt)
                         (ar_local rt) payload)
  end.

(** What a call does besides its answer: it reaches a handler of the consensus
    library, and it notes a contact of the leader. *)
Inductive RaftEffect : Type :=
| RX_Vote (sender : NodeId) (request : VoteRequest)
| RX_Append (sender : NodeId) (request : AppendEntriesRequest)
| RX_NoteLeaderContact.

(** Whether an append response proves a contact. *)
Definition is_contact (response : AppendEntriesResponse) : bool :=
  match response with
  | AR_Success | AR_PartialSuccess _ => true
  | _ => false
  end.

(** The [match admitted.message] of [unary]. *)
Definition serve_message (rt : AttachedRuntime) (sender : NodeId) (message : RaftMessageV1)
    : list RaftEffect * result RaftMessageV1 WireStatus :=
  match message with
  | RM_VoteRequest w =>
      match mirror_vote_request w with
      | Err _ => ([], Err WS_InvalidArgument)
      | Ok request =>
          ([RX_Vote sender request],
           match rh_vote (ar_raft rt) request with
           | Some response => Ok (RM_VoteResponse (vote_response_to_mirror response))
           | None => Err WS_Internal
           end)
      end
  | RM_AppendRequest w =>
      match mirror_append_request w with
      | Err _ => ([], Err WS_InvalidArgument)
      | Ok request =>
          match rh_append_entries (ar_raft rt) request with
          | Some response =>
              (RX_Append sender request ::
                 (if is_contact response then [RX_NoteLeaderContact] else []),
               Ok (append_response_to_mirror response))
          | None => ([RX_Append sender request], Err WS_Internal)
          end
      end
  | _ => ([], Err WS_InvalidArgument)
  end.

(** [unary] of service.rs: a call of [vote] or [append_entries], with its one
    request frame if it has one. *)
Definition serve_unary (rt : AttachedRuntime) (method : bytes) (provenance : PeerProvenance)
    (peer : bytes) (frame : option bytes) : list RaftEffect * result bytes WireStatus :=
  match frame with
  | None => ([], Err WS_InvalidArgument)
  | Some frame =>
      let ctx := mk_AdmissionContext (ar_group rt) (ar_admission rt) (ar_allowlist rt)
                   (admissible_members rt) in
      match admit_request ctx method provenance peer frame with
      | Err refusal => ([], Err (rr_status refusal))
      | Ok (sender, message) =>
          let '(effects, reply) := serve_message rt sender message in
          (effects,
           match reply with
           | Err status => Err status
           | Ok message =>
               match response_envelope rt message with
               | Some bytes => Ok bytes
               | None => Err WS_Internal
               end
           end)
      end
  end.

(** [dispatch] of service.rs for the unary methods: nothing attached is a
    precondition that does not hold yet. *)
Definition dispatch_raft (attached : option AttachedRuntime) (method : bytes)
    (provenance : PeerProvenance) (peer : bytes) (frame : option bytes)
    : list RaftEffect * result bytes WireStatus :=
  match attached with
  | None => ([], Err WS_FailedPrecondition)
  | Some rt =>
      if bool_decide (method = name "vote") || bool_decide (method = name "append_entries")
      then serve_unary rt method provenance peer frame
      else ([], Err WS_Unimplemented)
  end.

(** ** The client *)

(** What a client knows of itself and its target. *)
Record CoordinationNetwork : Type := mk_CoordinationNetwork {
  cn_group : GroupId;
  cn_local : NodeId;
  cn_target : NodeId;
}.

(** [CoordinationNetwork::envelope]. *)
Definition request_envelope (cn : CoordinationNetwork) (message : RaftMessageV1) : result bytes Transport :=
  match encode_message message with
  | None => Err TR_Undecodable
  | Some payload =>
      match encode_envelope (mk_RaftEnvelopeV1 PROTOCOL_VERSION RAFT_CODEC_VERSION (cn_group cn)
                               (cn_local cn) payload) with
      | None => Err TR_Undecodable
      | Some frame => Ok frame
      end
  end.

(** [open_response_from]. *)
Definition open_response (cn : CoordinationNetwork) (reply : bytes) : result RaftMessageV1 Transport :=
  match decode_response reply with
  | None => Err TR_Undecodable
  | Some envelope =>
      if negb (rrv_protocol_version envelope =? PROTOCOL_VERSION)%Z
         || negb (rrv_raft_codec_version envelope =? RAFT_CODEC_VERSION)%Z
      then Err TR_VersionMismatch
      else if negb (bool_decide (rrv_group_id envelope = cn_group cn)) then Err TR_WrongGroup
      else if negb (bool_decide (rrv_responder_node_id envelope = cn_target cn)) then Err TR_WrongGroup
      else
        match decode_message (rrv_payload envelope) with
        | None => Err TR_Undecodable
        | Some message =>
            match encode_message message with
            | None => Err TR_Undecodable
            | Some reencoded =>
                if negb (bool_decide (reencoded = rrv_payload envelope)) then Err TR_Undecodable
                else Ok message
            end
        end
  end.

(** [unary_once], over what the connection answers to a frame: the reply and the
    faults after it. *)
Definition unary_once (cn : CoordinationNetwork) (faults : FaultLatch)
    (exchange : bytes -> result bytes Transport) (message : RaftMessageV1)
    : result RaftMessageV1 Transport * FaultLatch :=
  match request_envelope cn message with
  | Err e => (Err e, faults)
  | Ok frame =>
      if RAFT_UNARY_FRAME_MAX <? len frame then (Err TR_OutboundOversized, faults)
      else
        match exchange frame with
        | Err e => (Err e, faults)
        | Ok reply => (open_response cn reply, latch_clear faults (cn_target cn))
        end
  end.

(** [fail]: a failure is classified and latched. *)
Definition fail_call {T : Type} (cn : CoordinationNetwork) (faults : FaultLatch) (failure : Transport)
    : result T RPCError * FaultLatch :=
  let c := classify_transport failure in
  (Err (to_rpc_error c), latch_record faults (cn_target cn) (cl_fault c)).

(** [vote] of client.rs. *)
Definition client_vote (cn : CoordinationNetwork) (faults : FaultLatch)
    (exchange : bytes -> result bytes Transport) (rpc : VoteRequest)
    : result VoteResponse RPCError * FaultLatch :=
  let '(answer, faults) := unary_once cn faults exchange (RM_VoteRequest (vote_request_to_mirror rpc)) in
  match answer with
  | Ok (RM_VoteResponse w) =>
      match mirror_vote_response w with
      | Ok response => (Ok response, faults)
      | Err _ => fail_call cn faults TR_Undecodable
      end
  | Ok _ => fail_call cn faults TR_Undecodable
  | Err TR_OutboundOversized =>
      match oversized_request RPC_Vote with
      | Some c => (Err (to_rpc_error c), latch_record faults (cn_target cn) (cl_fault c))
      | None => fail_call cn faults TR_OutboundOversized
      end
  | Err failure => fail_call cn faults failure
  end.

(** [append_entries] of client.rs: an oversized batch of several entries is
    halved. *)
Definition client_append_entries (cn : CoordinationNetwork) (faults : FaultLatch)
    (exchange : bytes -> result bytes Transport) (rpc : AppendEntriesRequest)
    : result AppendEntriesResponse RPCError * FaultLatch :=
  let entries := len (aq_entries rpc) in
  let '(answer, faults) :=
    unary_once cn faults exchange (RM_AppendRequest (append_request_to_mirror rpc)) in
  match answer with
  | Ok reply =>
      match mirror_append_response reply with
      | Ok response => (Ok response, faults)
      | Err _ => fail_call cn faults TR_Undecodable
      end
  | Err TR_OutboundOversized =>
      if 1 <? entries
      then (Err (RPC_PayloadTooLarge (N.max (entries / 2) 1)),
            latch_record faults (cn_target cn) FT_LocalInvariant)
      else fail_call cn faults TR_OutboundOversized
  | Err failure => fail_call cn faults failure
  end.

End raft_service.

Arguments AdmissionContext : clear implicits.
Arguments AttachedRuntime {Carrier} A : rename.
