(* ===== verification/NetworkSafety.v ===== *)
(** * What the Raft service guarantees

    A request reaches the consensus library only from an authenticated, admitted
    and listed sender, with the checks made in their order; between two voters
    that admit each other a call delivers the request and the response as they
    are; and a signed set admits exactly the producers it names. *)

From S2P Require Import Prelude Ids Contract Externals Limits State Tables Classify.
From S2P Require Import Ticket Authority Shape Genesis Resource Grant Retire.
From S2P Require Import Membership Apply Wire Boundary Durable Mirror Store Admission NodeRuntime Network.

#[local] Open Scope N_scope.
#[local] Open Scope coordination_scope.

(** ** Tables *)

(** Every status survives its wire code. *)
Lemma status_roundtrip c : from_i32 (as_i32 c) = c.
Proof. by destruct c. Qed.

(** No failure but a local I/O error is retried at once. *)
Lemma only_local_io_hot_loops f : to_rpc_error (classify_transport f) = RPC_NetworkError -> f = TR_LocalIo.
Proof. destruct f as [| | | |c| | | | |]; try done. by destruct c. Qed.

(** The latch keeps the most serious class it was given since it was cleared. *)
Lemma latch_record_serious l p c d :
  latch_record l p c !! p = Some d -> is_latched c = true ->
  severity c <= severity d ∧ (∀ e, l !! p = Some e -> severity e <= severity d).
Proof.
  unfold latch_record. intros H Hc. rewrite Hc in H. simpl in H. destruct (l !! p) as [held|] eqn:Hl.
  - destruct (N.ltb_spec (severity held) (severity c)).
    + rewrite lookup_insert_eq in H. simplify_eq. split; [lia|]. intros e [= ->]. lia.
    + simplify_eq. split; [lia|]. intros e Hd. simplify_eq. lia.
  - rewrite lookup_insert_eq in H. simplify_eq. split; [lia|]. done.
Qed.

(** ** The admission source *)

(** A strictly increasing list has no duplicate. *)
Lemma increasing_NoDup (l : list bytes) :
  StronglySorted (λ a b, bytes_ltb a b = true) l -> NoDup l.
Proof.
  induction 1 as [|x l _ IH Hx]; constructor; [|done]. intros Hin.
  apply (proj1 (list.Forall_forall _ _) Hx) in Hin. by rewrite bytes_ltb_irrefl in Hin.
Qed.

(** Where keys are unique, the search for a key finds the entry that has it. *)
Lemma find_unique {A : Type} (f : A -> bytes) (l : list A) (x : A) :
  NoDup (map f l) -> x ∈ l -> List.find (λ y, bool_decide (f y = f x)) l = Some x.
Proof.
  induction l as [|y l IH]; intros Hnd Hx; [by apply not_elem_of_nil in Hx|].
  apply list.NoDup_cons in Hnd as [Hni Hnd]. simpl. apply elem_of_cons in Hx as [->|Hx].
  - by rewrite bool_decide_eq_true_2.
  - rewrite bool_decide_eq_false_2; [by apply IH|]. intros He. apply Hni. rewrite He.
    by apply list_elem_of_In, in_map, list_elem_of_In.
Qed.

Lemma decide_admission_Ok {A : Type} `{VerifiedAdmissionSource A} (source : A) node r :
  decide_admission source node = Ok r <->
  source_get source node = Ok (Some r) ∧ va_subject r = node ∧ va_class r = VA_Producer.
Proof.
  unfold decide_admission. split.
  - destruct (source_get source node) as [[rec|]|[]] eqn:Hg; try done.
    case_bool_decide as Hs; simpl; [|done]. destruct (va_class rec) eqn:Hc; [|done]. by intros [= ->].
  - intros (-> & <- & Hc). rewrite bool_decide_eq_true_2 by done. simpl. by rewrite Hc.
Qed.

Section set.
Context `{Externals} `{NetworkCodec}.

(** What the collecting loop leaves: the last entry of an id, else what was
    there. *)
Lemma collect_entries_spec fp dg rev entries acc m :
  NoDup (map aev_node_id entries) -> collect_entries fp dg rev entries acc = Ok m ->
  ∀ n, m !! n =
    match List.find (λ e, bool_decide (aev_node_id e = n)) entries with
    | Some e => match entry_class (aev_class_code e) with
                | Ok class => Some (mk_VerifiedAdmission n class fp dg rev)
                | Err _ => None
                end
    | None => acc !! n
    end.
Proof.
  revert acc. induction entries as [|e entries IH]; intros acc Hnd Hc n; simpl in *; [by simplify_eq|].
  apply list.NoDup_cons in Hnd as [Hni Hnd]. unfold id_from_slice in Hc.
  destruct (negb _); [done|]. destruct (entry_class (aev_class_code e)) as [class|] eqn:Hcl; [|done].
  rewrite (IH _ Hnd Hc n). case_bool_decide as Hn; subst.
  - destruct (List.find _ entries) as [e'|] eqn:Hf.
    + apply List.find_some in Hf as [Hin Heq]. apply bool_decide_eq_true in Heq. exfalso. apply Hni.
      rewrite <- Heq. by apply list_elem_of_In, in_map.
    + by rewrite Hcl, lookup_insert_eq.
  - destruct (List.find _ entries); [done|]. by rewrite lookup_insert_ne.
Qed.

Lemma entry_class_producer code : entry_class code = Ok VA_Producer -> code = ADMISSION_CLASS_PRODUCER.
Proof.
  unfold entry_class. destruct (Z.eqb_spec code ADMISSION_CLASS_PRODUCER) as [->|]; [done|].
  by destruct (code =? ADMISSION_CLASS_CONSUMER)%Z.
Qed.

(** A verified set was signed by the pinned authority for the pinned domain, and
    admits exactly the nodes it names as producers. *)
Lemma signed_set_admits_exactly key domain signed m :
  verify_admission_set key domain signed = Ok m ->
  ∃ envelope set, fory_decode_signed_document signed = Some envelope ∧
    sd_authority_public_key envelope = key ∧
    ed25519_verify key (ADMISSION_DOMAIN ++ sd_document_bytes envelope) (sd_signature envelope) = true ∧
    decode_admission_set (sd_document_bytes envelope) = Some set ∧ asv_authority_domain set = domain ∧
    ∀ n, (∃ r, decide_admission m n = Ok r) <->
         mk_AdmissionEntryV1 n ADMISSION_CLASS_PRODUCER ∈ asv_entries set.
Proof.
  unfold verify_admission_set. destruct (fory_decode_signed_document signed) as [env|]; [|done].
  destruct (negb (sd_format_version env =? _)); [done|]. destruct (_ || _); [done|].
  case_bool_decide as Hkey; simpl; [|done]. destruct (ed25519_key_accepted key); simpl; [|done].
  destruct (ed25519_signature_accepted _); simpl; [|done].
  destruct (ed25519_verify _ _ _) eqn:Hver; simpl; [|done].
  destruct (decode_admission_set _) as [set|] eqn:Hdec; [|done].
  destruct (encode_admission_set set) as [re|]; [|done]. case_bool_decide; simpl; [|done].
  destruct (check_admission_set domain set) as [[]|] eqn:Hck; [|done]. intros Hcol.
  exists env, set. split; [done|]. split; [done|]. split; [done|]. split; [done|].
  unfold check_admission_set in Hck.
  destruct (negb (asv_format_version set =? _)); [done|]. destruct (_ || _ || _); [done|].
  case_bool_decide as Hdom; simpl in Hck; [|done]. split; [done|].
  destruct (_ || _); [done|]. destruct (windows2_all _ _) eqn:Hw; simpl in Hck; [|done].
  apply windows2_all_ltb_Sorted, increasing_NoDup in Hw.
  pose proof (collect_entries_spec _ _ _ _ _ _ Hw Hcol) as Hspec. intros n. split.
  - intros (r & (Hget & _ & Hcls)%decide_admission_Ok).
    unfold source_get, signed_admission_set in Hget. rewrite Hspec, lookup_empty in Hget.
    destruct (List.find _ _) as [e|] eqn:Hf; [|done].
    apply List.find_some in Hf as [Hin Hn]. apply bool_decide_eq_true in Hn.
    destruct (entry_class (aev_class_code e)) as [class|] eqn:Hc; [|done]. simplify_eq.
    simpl in Hcls. subst. apply entry_class_producer in Hc. destruct e; simpl in *. subst.
    by apply list_elem_of_In.
  - intros Hin. eexists. apply decide_admission_Ok. unfold source_get, signed_admission_set.
    pose proof (find_unique aev_node_id _ _ Hw Hin) as Hf. simpl in Hf. rewrite Hspec, Hf. by split.
Qed.
End set.

(** ** What admission requires *)

Section service.
Context `{Carrier : UnknownCarrier} {Codec : NetworkCodec} {A : Type} {Source : VerifiedAdmissionSource A}.

(** Whether the claims of a frame are those of the sender, in this group. *)
Definition claims_hold (ctx : AdmissionContext A) (sender : NodeId) (e : RaftEnvelopeV1) : Prop :=
  rev_protocol_version e = PROTOCOL_VERSION ∧ rev_raft_codec_version e = RAFT_CODEC_VERSION ∧
  rev_group_id e = ax_group ctx ∧ rev_sender_node_id e = sender ∧ len sender = 32.

(** What each of the steps 1 to 5 asks, given that the earlier ones hold. *)
Definition step_passes (ctx : AdmissionContext A) (method : bytes) (provenance : PeerProvenance)
    (peer frame : bytes) (step : N) : Prop :=
  ∃ sender, provenance = IrohAuthenticated ∧ id_parse_hex 32 peer = Ok sender ∧
  (2 <= step -> ∃ e, decode_envelope frame = Some e ∧ encode_envelope e = Some frame ∧
     claims_hold ctx sender e ∧
     (5 <= step -> ∃ m, decode_message (rev_payload e) = Some m ∧
        encode_message m = Some (rev_payload e) ∧ len (rev_payload e) <= MAX_RAFT_PAYLOAD ∧
        pairs_with method m = true)) ∧
  (3 <= step -> ∃ r, decide_admission (ax_admission ctx) sender = Ok r) ∧
  (4 <= step -> permits (ax_allowlist ctx) sender (ax_members ctx) = true).

Lemma transport_identity_spec provenance peer :
  match transport_identity provenance peer with
  | Ok sender => provenance = IrohAuthenticated ∧ id_parse_hex 32 peer = Ok sender
  | Err r => rr_step r = 1 ∧ ∀ sender, provenance = IrohAuthenticated -> id_parse_hex 32 peer ≠ Ok sender
  end.
Proof. unfold transport_identity. by destruct provenance, (id_parse_hex 32 peer). Qed.

Lemma open_envelope_spec frame :
  match open_raft_envelope frame with
  | Ok e => decode_envelope frame = Some e ∧ encode_envelope e = Some frame
  | Err r => rr_step r = 2 ∧ ∀ e, decode_envelope frame = Some e -> encode_envelope e ≠ Some frame
  end.
Proof.
  unfold open_raft_envelope. destruct (decode_envelope frame) as [e|]; [|done].
  destruct (encode_envelope e) as [b|] eqn:He; simpl.
  - case_bool_decide as Hb; simpl; [by subst|]. split; [done|]. intros e' [= <-]. rewrite He. congruence.
  - split; [done|]. intros e' [= <-]. by rewrite He.
Qed.

Lemma open_payload_spec method payload :
  match open_payload method payload with
  | Ok m => decode_message payload = Some m ∧ encode_message m = Some payload ∧
      len payload <= MAX_RAFT_PAYLOAD ∧ pairs_with method m = true
  | Err r => rr_step r = 5 ∧ ∀ m, decode_message payload = Some m -> encode_message m = Some payload ->
      len payload <= MAX_RAFT_PAYLOAD -> pairs_with method m = true -> False
  end.
Proof.
  unfold open_payload. destruct (N.ltb_spec MAX_RAFT_PAYLOAD (len payload)); simpl.
  { split; [done|]. intros. lia. }
  destruct (decode_message payload) as [m|]; [|done].
  destruct (encode_message m) as [b|] eqn:He; simpl; [|by split; [done|]; intros m' [= <-]; congruence].
  case_bool_decide as Hb; simpl; [|by split; [done|]; intros m' [= <-]; congruence]. subst.
  destruct (pairs_with method m) eqn:Hpair; simpl; [done|].
  split; [done|]. intros m' [= <-]. congruence.
Qed.

Lemma check_claim_spec (ctx : AdmissionContext A) sender e :
  len sender = 32 ->
  match check_claim ctx sender (envelope_claim e) with
  | Ok _ => claims_hold ctx sender e ∧ (∃ r, decide_admission (ax_admission ctx) sender = Ok r) ∧
      permits (ax_allowlist ctx) sender (ax_members ctx) = true
  | Err r =>
      rr_step r = 2 ∧ ¬ claims_hold ctx sender e ∨
      rr_step r = 3 ∧ claims_hold ctx sender e ∧ (∀ r, decide_admission (ax_admission ctx) sender ≠ Ok r) ∨
      rr_step r = 4 ∧ claims_hold ctx sender e ∧ (∃ r, decide_admission (ax_admission ctx) sender = Ok r) ∧
        permits (ax_allowlist ctx) sender (ax_members ctx) = false
  end.
Proof.
  intros Hlen. unfold check_claim, claims_hold, envelope_claim. simpl.
  destruct (Z.eqb_spec (rev_protocol_version e) PROTOCOL_VERSION) as [Hp|Hp]; simpl; [|left; tauto].
  destruct (Z.eqb_spec (rev_raft_codec_version e) RAFT_CODEC_VERSION) as [Hc|Hc]; simpl; [|left; tauto].
  case_bool_decide as Hg; simpl; [|left; tauto]. unfold id_from_slice.
  destruct (N.eqb_spec (len (rev_sender_node_id e)) 32) as [Hw|Hw]; simpl;
    [|left; split; [done|]; intros (_ & _ & _ & He & _); by rewrite He in Hw].
  case_bool_decide as Hs; simpl; [|left; tauto]. subst.
  destruct (decide_admission (ax_admission ctx) (rev_sender_node_id e)) as [r|d] eqn:Hd; simpl.
  - destruct (permits (ax_allowlist ctx) (rev_sender_node_id e) (ax_members ctx)) eqn:Hpm; simpl.
    + split; [tauto|]. by split; [exists r|].
    + right. right. split; [done|]. split; [tauto|]. by split; [exists r|].
  - right. left. split; [done|]. split; [tauto|]. congruence.
Qed.

Lemma decode_hex_chunks_length n s out :
  (length s <= n)%nat -> decode_hex_chunks s = Ok out -> (length out = length s / 2)%nat.
Proof.
  revert s out. induction n as [|n IH]; intros s out Hn Hd.
  { destruct s; [|simpl in Hn; lia]. simpl in Hd. by simplify_eq. }
  destruct s as [|x [|y s]]; simpl in Hd; [by simplify_eq..|].
  destruct (hex_digit x), (hex_digit y); try done.
  destruct (decode_hex_chunks s) as [rest|] eqn:Hr; [|done]. simplify_eq.
  simpl in Hn. cbn [length]. rewrite (IH s rest ltac:(lia) Hr).
  replace (S (S (length s))) with (length s + 1 * 2)%nat by lia. rewrite Nat.div_add by lia. lia.
Qed.

Lemma decode_hex_len s out : id_parse_hex 32 s = Ok out -> len out = 32.
Proof.
  unfold id_parse_hex, decode_hex. destruct (N.eqb_spec (len s) (32 * 2)) as [Hl|]; simpl; [|done].
  intros Hd. unfold len in *. rewrite (decode_hex_chunks_length _ s out (le_n _) Hd).
  assert (length s = 64)%nat as -> by lia. done.
Qed.

(** The request passes every step, or is refused at the first it does not. *)
Lemma admit_request_spec (ctx : AdmissionContext A) method provenance peer frame :
  match admit_request ctx method provenance peer frame with
  | Ok (sender, m) =>
      provenance = IrohAuthenticated ∧ id_parse_hex 32 peer = Ok sender ∧
      (∃ e, decode_envelope frame = Some e ∧ encode_envelope e = Some frame ∧ claims_hold ctx sender e ∧
         encode_message m = Some (rev_payload e)) ∧
      (∃ r, decide_admission (ax_admission ctx) sender = Ok r) ∧
      permits (ax_allowlist ctx) sender (ax_members ctx) = true ∧ pairs_with method m = true
  | Err r =>
      1 <= rr_step r <= 5 ∧ ¬ step_passes ctx method provenance peer frame (rr_step r) ∧
      (1 < rr_step r -> step_passes ctx method provenance peer frame (rr_step r - 1))
  end.
Proof.
  unfold admit_request. pose proof (transport_identity_spec provenance peer) as Ht.
  destruct (transport_identity provenance peer) as [sender|r] eqn:Hti; simpl.
  2: { destruct Ht as [Hr Hno]. rewrite Hr. split; [lia|]. split; [|lia].
       intros (s & -> & Hs & _). by apply (Hno s). }
  destruct Ht as [-> Hpeer]. pose proof (decode_hex_len _ _ Hpeer) as Hlen.
  pose proof (open_envelope_spec frame) as He. destruct (open_raft_envelope frame) as [e|r] eqn:Hoe; simpl.
  2: { destruct He as [Hr Hno]. rewrite Hr. split; [lia|]. split.
       - intros (s & _ & _ & H2 & _). destruct H2 as (e & Hd & Hen & _); [lia|]. by apply (Hno e).
       - intros _. exists sender. split; [done|]. split; [done|]. split; [|split]; intros; lia. }
  destruct He as [Hdec Henc]. pose proof (check_claim_spec ctx sender e Hlen) as Hc.
  destruct (check_claim ctx sender (envelope_claim e)) as [u|r] eqn:Hcc; simpl.
  2: { destruct Hc as [[Hr Hn]|[(Hr & Hcl & Hn)|(Hr & Hcl & Hd & Hn)]]; rewrite Hr; (split; [lia|]); split.
       - intros (s & _ & Hs & H2 & _). destruct H2 as (e' & Hd & _ & Hcl & _); [lia|].
         rewrite Hpeer in Hs. simplify_eq. by apply Hn.
       - intros _. exists sender. split; [done|]. split; [done|]. split; [|split]; intros; lia.
       - intros (s & _ & Hs & _ & H3 & _). destruct H3 as [r' Hr']; [lia|].
         rewrite Hpeer in Hs. simplify_eq. by apply (Hn r').
       - intros _. exists sender. split; [done|]. split; [done|]. split; [|split; intros; lia].
         intros _. exists e. split; [done|]. split; [done|]. split; [done|]. intros; lia.
       - intros (s & _ & Hs & _ & _ & H4). rewrite Hpeer in Hs. simplify_eq. rewrite Hn in H4. by specialize (H4 ltac:(lia)).
       - intros _. exists sender. split; [done|]. split; [done|]. split; [|split; [done|intros; lia]].
         intros _. exists e. split; [done|]. split; [done|]. split; [done|]. intros; lia. }
  destruct Hc as (Hcl & Hd & Hpm). pose proof (open_payload_spec method (rev_payload e)) as Hp.
  destruct (open_payload method (rev_payload e)) as [m|r] eqn:Hop; simpl.
  - destruct Hp as (Hdm & Hem & Hle & Hpair). split; [done|]. split; [done|]. split; [by exists e|]. done.
  - destruct Hp as [Hr Hno]. rewrite Hr. split; [lia|]. split.
    + intros (s & _ & Hs & H2 & _). destruct H2 as (e' & Hd' & _ & _ & H5); [lia|]. simplify_eq.
      destruct H5 as (m & ? & ? & ? & ?); [lia|]. by apply (Hno m).
    + intros _. exists sender. split; [done|]. split; [done|]. split; [|done].
      intros _. exists e. split; [done|]. split; [done|]. split; [done|]. intros; lia.
Qed.

(** The context the service checks a request in. *)
Definition context_of (rt : AttachedRuntime A) : AdmissionContext A :=
  mk_AdmissionContext (ar_group rt) (ar_admission rt) (ar_allowlist rt) (admissible_members rt).

(** What a message hands to the consensus library. *)
Lemma serve_message_effects (rt : AttachedRuntime A) sender m x :
  x ∈ (serve_message rt sender m).1 ->
  (∃ w q, m = RM_VoteRequest w ∧ mirror_vote_request w = Ok q ∧ x = RX_Vote sender q) ∨
  (∃ w q, m = RM_AppendRequest w ∧ mirror_append_request w = Ok q ∧
     (x = RX_Append sender q ∨ x = RX_NoteLeaderContact)).
Proof.
  destruct m as [w| |w| | | | | |]; simpl; try (by intros ?%not_elem_of_nil).
  - destruct (mirror_vote_request w) as [q|] eqn:Hq; simpl; [|by intros ?%not_elem_of_nil].
    intros ->%list_elem_of_singleton. left. eauto.
  - destruct (mirror_append_request w) as [q|] eqn:Hq; simpl; [|by intros ?%not_elem_of_nil].
    destruct (rh_append_entries (ar_raft rt) q) as [response|]; simpl.
    + intros [->|Hx]%elem_of_cons; right; exists w, q; [by eauto|].
      destruct (is_contact response); [|by apply not_elem_of_nil in Hx].
      apply list_elem_of_singleton in Hx. eauto.
    + intros ->%list_elem_of_singleton. right. exists w, q. eauto.
Qed.

(** C29: Whatever bytes arrive: an effect on the consensus library or on the
    leader's contact happens only for an authenticated peer whose id is the sender,
    that the admission source names a producer now, that the allowlist permits,
    whose frame is the canonical encoding of an envelope of this group and this
    sender, and whose message is canonical, pairs with the method and narrows to
    the request that is handed over. A request that is refused has no effect, is
    refused at the first of the five steps it fails, and had passed the others. *)
Theorem raft_traffic_is_admitted (rt : AttachedRuntime A) method provenance peer frame :
  let ctx := context_of rt in
  let answer := serve_unary rt method provenance peer (Some frame) in
  (∀ x, x ∈ answer.1 -> ∃ sender e m,
     provenance = IrohAuthenticated ∧ id_parse_hex 32 peer = Ok sender ∧
     (∃ r, source_get (ar_admission rt) sender = Ok (Some r) ∧ va_subject r = sender ∧
        va_class r = VA_Producer) ∧
     permits (ar_allowlist rt) sender (admissible_members rt) = true ∧
     encode_envelope e = Some frame ∧ claims_hold ctx sender e ∧
     encode_message m = Some (rev_payload e) ∧ pairs_with method m = true ∧
     ((∃ w q, m = RM_VoteRequest w ∧ mirror_vote_request w = Ok q ∧ x = RX_Vote sender q) ∨
      (∃ w q, m = RM_AppendRequest w ∧ mirror_append_request w = Ok q ∧
         (x = RX_Append sender q ∨ x = RX_NoteLeaderContact)))) ∧
  (∀ r, admit_request ctx method provenance peer frame = Err r ->
     answer = ([], Err (rr_status r)) ∧ 1 <= rr_step r <= 5 ∧
     ¬ step_passes ctx method provenance peer frame (rr_step r) ∧
     (1 < rr_step r -> step_passes ctx method provenance peer frame (rr_step r - 1))).
Proof.
  intros ctx answer. pose proof (admit_request_spec ctx method provenance peer frame) as Hspec.
  unfold answer, serve_unary. fold (context_of rt). fold ctx.
  destruct (admit_request ctx method provenance peer frame) as [[sender m]|r].
  - split; [|done]. destruct Hspec as (Hprov & Hpeer & (e & _ & Henc & Hcl & Hm) & [r Hd] & Hperm & Hpair).
    destruct (serve_message rt sender m) as [effects reply] eqn:Hsm. simpl. intros x Hx.
    exists sender, e, m. split; [done|]. split; [done|].
    split; [exists r; by apply decide_admission_Ok|]. do 5 (split; [done|]).
    apply (serve_message_effects rt sender m x). by rewrite Hsm.
  - split; [by intros x ?%not_elem_of_nil|]. intros r' [= <-]. by split.
Qed.

(** ** A call between two voters *)

(** What the connection of an authenticated peer answers. *)
Definition connection (rt : AttachedRuntime A) (method : bytes) (local : NodeId) (frame : bytes)
    : result bytes Transport :=
  match (dispatch_raft (Some rt) method IrohAuthenticated (to_hex local) (Some frame)).2 with
  | Ok reply => Ok reply
  | Err status => Err (TR_Status status)
  end.

(** A client and a voter that admits it. *)
Record peers_agree (cn : CoordinationNetwork) (rt : AttachedRuntime A) : Prop := mk_peers_agree {
  pa_group : ar_group rt = cn_group cn;
  pa_target : ar_local rt = cn_target cn;
  pa_width : len (cn_local cn) = 32;
  pa_admitted : ∃ r, decide_admission (ar_admission rt) (cn_local cn) = Ok r;
  pa_permitted : permits (ar_allowlist rt) (cn_local cn) (admissible_members rt) = true;
}.

Lemma parse_own_hex id : len id = 32 -> id_parse_hex 32 (to_hex id) = Ok id.
Proof.
  intros Hl. unfold id_parse_hex, decode_hex. rewrite len_to_hex, Hl. simpl.
  apply decode_hex_chunks_to_hex.
Qed.

Context {Laws : NetworkCodecLaws}.

(** What the client sends, the service admits as it was. *)
Lemma request_admitted cn (rt : AttachedRuntime A) method m frame :
  peers_agree cn rt -> request_envelope cn m = Ok frame -> len frame <= RAFT_UNARY_FRAME_MAX ->
  pairs_with method m = true ->
  admit_request (context_of rt) method IrohAuthenticated (to_hex (cn_local cn)) frame = Ok (cn_local cn, m).
Proof.
  intros [Hg Ht Hw [r Hd] Hp] Hreq Hlen Hpair. unfold request_envelope in Hreq.
  destruct (encode_message m) as [payload|] eqn:Hm; [|done].
  destruct (encode_envelope _) as [f|] eqn:He; [|done]. simplify_eq.
  pose proof (envelope_holds_payload _ _ He) as Hpl. simpl in Hpl.
  unfold admit_request, transport_identity. rewrite parse_own_hex by done. simpl.
  unfold open_raft_envelope. rewrite (envelope_decodes _ _ He), He, bool_decide_eq_true_2 by done. simpl.
  unfold check_claim. simpl. rewrite Hg, bool_decide_eq_true_2 by done. simpl.
  unfold id_from_slice. rewrite Hw. simpl. rewrite bool_decide_eq_true_2 by done. simpl.
  rewrite Hd, Hp. simpl. unfold open_payload.
  destruct (N.ltb_spec MAX_RAFT_PAYLOAD (len payload)) as [Hbig|_].
  { unfold MAX_RAFT_PAYLOAD, MAX_ENCODED_COMMAND, RAFT_UNARY_FRAME_MAX in *. lia. }
  rewrite (message_decodes _ _ Hm), Hm, bool_decide_eq_true_2 by done. simpl. by rewrite Hpair.
Qed.

(** What the service answers, the client reads as it was. *)
Lemma response_opened cn (rt : AttachedRuntime A) m reply :
  peers_agree cn rt -> response_envelope rt m = Some reply -> open_response cn reply = Ok m.
Proof.
  intros [Hg Ht Hw _ _] Hr. unfold response_envelope in Hr.
  destruct (encode_message m) as [payload|] eqn:Hm; [|done].
  unfold open_response. rewrite (response_decodes _ _ Hr). simpl.
  rewrite Hg, Ht, !bool_decide_eq_true_2 by done. simpl.
  by rewrite (message_decodes _ _ Hm), Hm, bool_decide_eq_true_2.
Qed.

Lemma exchange_ok cn (rt : AttachedRuntime A) faults method m frame effects out reply :
  bool_decide (method = name "vote") || bool_decide (method = name "append_entries") = true ->
  peers_agree cn rt -> request_envelope cn m = Ok frame -> len frame <= RAFT_UNARY_FRAME_MAX ->
  pairs_with method m = true -> serve_message rt (cn_local cn) m = (effects, Ok out) ->
  response_envelope rt out = Some reply ->
  dispatch_raft (Some rt) method IrohAuthenticated (to_hex (cn_local cn)) (Some frame) = (effects, Ok reply) ∧
  unary_once cn faults (connection rt method (cn_local cn)) m = (Ok out, delete (cn_target cn) faults).
Proof.
  intros Hmeth Hpa Hreq Hlen Hpair Hserve Hreply.
  assert (Hd : dispatch_raft (Some rt) method IrohAuthenticated (to_hex (cn_local cn)) (Some frame)
    = (effects, Ok reply)).
  { unfold dispatch_raft. rewrite Hmeth. unfold serve_unary. fold (context_of rt).
    by rewrite (request_admitted cn rt method m frame Hpa Hreq Hlen Hpair), Hserve, Hreply. }
  split; [done|]. unfold unary_once. rewrite Hreq.
  destruct (N.ltb_spec RAFT_UNARY_FRAME_MAX (len frame)) as [?|_]; [lia|].
  unfold connection. rewrite Hd. simpl. by rewrite (response_opened cn rt out reply Hpa Hreply).
Qed.

Lemma mirror_vote_request_roundtrip q :
  vote_typed (vq_vote q) -> log_ids_typed (vq_last_log_id q) ->
  mirror_vote_request (vote_request_to_mirror q) = Ok q.
Proof.
  intros Hv Hl. unfold mirror_vote_request, vote_request_to_mirror. simpl.
  rewrite mirror_vote_roundtrip, mirror_log_ids_roundtrip by done. by destruct q.
Qed.

Lemma mirror_vote_response_roundtrip q :
  vote_typed (vr_vote q) -> log_ids_typed (vr_last_log_id q) ->
  mirror_vote_response (vote_response_to_mirror q) = Ok q.
Proof.
  intros Hv Hl. unfold mirror_vote_response, vote_response_to_mirror. simpl.
  rewrite mirror_vote_roundtrip, mirror_log_ids_roundtrip by done. by destruct q.
Qed.

(** C30: Between a client and a voter that admits it, over frames within the cap: a
    vote or append call hands the consensus library on the other side exactly the
    request that was made, once, notes the leader's contact exactly when the append
    succeeded, returns to the caller exactly the response that was given, and
    clears the fault latched for the peer. Where the client asks for a smaller
    batch instead, the hint is positive and strictly smaller than the batch. *)
Theorem raft_calls_are_faithful cn (rt : AttachedRuntime A) faults :
  peers_agree cn rt ->
  (∀ q response frame reply,
     vote_typed (vq_vote q) -> log_ids_typed (vq_last_log_id q) ->
     vote_typed (vr_vote response) -> log_ids_typed (vr_last_log_id response) ->
     rh_vote (ar_raft rt) q = Some response ->
     request_envelope cn (RM_VoteRequest (vote_request_to_mirror q)) = Ok frame ->
     len frame <= RAFT_UNARY_FRAME_MAX ->
     response_envelope rt (RM_VoteResponse (vote_response_to_mirror response)) = Some reply ->
     (dispatch_raft (Some rt) (name "vote") IrohAuthenticated (to_hex (cn_local cn)) (Some frame)).1
       = [RX_Vote (cn_local cn) q] ∧
     client_vote cn faults (connection rt (name "vote") (cn_local cn)) q
       = (Ok response, delete (cn_target cn) faults)) ∧
  (∀ q response frame reply,
     append_request_typed q -> append_response_typed response ->
     rh_append_entries (ar_raft rt) q = Some response ->
     request_envelope cn (RM_AppendRequest (append_request_to_mirror q)) = Ok frame ->
     len frame <= RAFT_UNARY_FRAME_MAX ->
     response_envelope rt (append_response_to_mirror response) = Some reply ->
     (dispatch_raft (Some rt) (name "append_entries") IrohAuthenticated (to_hex (cn_local cn))
        (Some frame)).1
       = RX_Append (cn_local cn) q :: (if is_contact response then [RX_NoteLeaderContact] else []) ∧
     client_append_entries cn faults (connection rt (name "append_entries") (cn_local cn)) q
       = (Ok response, delete (cn_target cn) faults)) ∧
  (∀ q exchange hint faults',
     client_append_entries cn faults exchange q = (Err (RPC_PayloadTooLarge hint), faults') ->
     1 <= hint < len (aq_entries q)).
Proof.
  intros Hpa. split; [|split].
  - intros q response frame reply Hv Hl Hv' Hl' Hraft Hreq Hlen Hreply.
    destruct (exchange_ok cn rt faults (name "vote") _ frame [RX_Vote (cn_local cn) q]
      (RM_VoteResponse (vote_response_to_mirror response)) reply eq_refl Hpa Hreq Hlen eq_refl) as [Hd Hu]; [|exact Hreply|].
    { unfold serve_message. by rewrite mirror_vote_request_roundtrip, Hraft. }
    rewrite Hd. split; [done|]. unfold client_vote. by rewrite Hu, mirror_vote_response_roundtrip.
  - intros q response frame reply Hq Hr Hraft Hreq Hlen Hreply.
    destruct (exchange_ok cn rt faults (name "append_entries") _ frame
      (RX_Append (cn_local cn) q :: (if is_contact response then [RX_NoteLeaderContact] else []))
      (append_response_to_mirror response) reply eq_refl Hpa Hreq Hlen eq_refl) as [Hd Hu]; [|exact Hreply|].
    { unfold serve_message. by rewrite mirror_append_request_roundtrip, Hraft. }
    rewrite Hd. split; [done|]. unfold client_append_entries. by rewrite Hu, mirror_append_response_roundtrip.
  - intros q exchange hint faults' Hc. unfold client_append_entries, fail_call in Hc.
    destruct (unary_once _ _ _ _) as [[reply|[]] f]; [destruct (mirror_append_response reply)|..]; try done.
    + by destruct code.
    + destruct (N.ltb_spec 1 (len (aq_entries q))) as [Hl|]; [|done]. simplify_eq.
      pose proof (N.div_lt (len (aq_entries q)) 2). lia.
Qed.

End service.

(** ** A concrete pair of voters *)

(** A codec of the envelopes of one client and one server, and of one vote and
    its answer. *)
Definition demo_client : NodeId := replicate 32 Byte.x01.
Definition demo_server : NodeId := replicate 32 Byte.x02.
Definition demo_group : GroupId := replicate 32 Byte.x0a.
#[local] Instance demo_carrier : UnknownCarrier := unit.
Definition demo_vote : Vote := mk_Vote 3 demo_client false.
Definition demo_request : VoteRequest := mk_VoteRequest demo_vote None.
Definition demo_answer : VoteResponse := mk_VoteResponse demo_vote true None.

#[local] Instance VoteV1_eq_dec : EqDecision VoteV1.
Proof. solve_decision. Defined.
#[local] Instance VoteRequestV1_eq_dec : EqDecision VoteRequestV1.
Proof. solve_decision. Defined.
#[local] Instance VoteResponseV1_eq_dec : EqDecision VoteResponseV1.
Proof. solve_decision. Defined.
#[local] Instance RaftEnvelopeV1_eq_dec : EqDecision RaftEnvelopeV1.
Proof. solve_decision. Defined.
#[local] Instance RaftResponseEnvelopeV1_eq_dec : EqDecision RaftResponseEnvelopeV1.
Proof. solve_decision. Defined.

#[local] Instance demo_codec : NetworkCodec := {
  encode_envelope e :=
    if bool_decide (e = mk_RaftEnvelopeV1 1 1 demo_group demo_client (rev_payload e))
    then Some (Byte.x00 :: rev_payload e) else None;
  decode_envelope b :=
    match b with _ :: p => Some (mk_RaftEnvelopeV1 1 1 demo_group demo_client p) | [] => None end;
  encode_response e :=
    if bool_decide (e = mk_RaftResponseEnvelopeV1 1 1 demo_group demo_server (rrv_payload e))
    then Some (Byte.x00 :: rrv_payload e) else None;
  decode_response b :=
    match b with _ :: p => Some (mk_RaftResponseEnvelopeV1 1 1 demo_group demo_server p) | [] => None end;
  encode_message m :=
    match m with
    | RM_VoteRequest w =>
        if bool_decide (w = vote_request_to_mirror demo_request) then Some [Byte.x01] else None
    | RM_VoteResponse w =>
        if bool_decide (w = vote_response_to_mirror demo_answer) then Some [Byte.x02] else None
    | _ => None
    end;
  decode_message b :=
    match b with
    | [Byte.x01] => Some (RM_VoteRequest (vote_request_to_mirror demo_request))
    | [Byte.x02] => Some (RM_VoteResponse (vote_response_to_mirror demo_answer))
    | _ => None
    end;
  encode_admission_set _ := None;
  decode_admission_set _ := None;
}.

#[local] Instance demo_codec_laws : NetworkCodecLaws.
Proof.
  split; simpl.
  - intros e b. case_bool_decide as He; [|done]. intros [= <-]. by rewrite <- He.
  - intros e b. case_bool_decide as He; [|done]. intros [= <-]. by rewrite <- He.
  - intros m b. destruct m; try done; (case_bool_decide as Hm; [|done]); intros [= <-]; by rewrite Hm.
  - intros e b. case_bool_decide as He; [|done]. intros [= <-]. unfold len. simpl. lia.
Qed.

Definition demo_network : CoordinationNetwork := mk_CoordinationNetwork demo_group demo_client demo_server.
Definition demo_runtime : AttachedRuntime (gmap NodeId VerifiedAdmission) :=
  mk_AttachedRuntime (mk_RaftHandlers (λ _, Some demo_answer) (λ _, None))
    (mk_RaftMembership [{[demo_client; demo_server]}] {[demo_client; demo_server]})
    (mk_RaftMembership [{[demo_client; demo_server]}] {[demo_client; demo_server]})
    demo_group demo_server
    {[demo_client := mk_VerifiedAdmission demo_client VA_Producer [] [] 1]} from_membership.

Lemma demo_peers_agree : peers_agree demo_network demo_runtime.
Proof.
  constructor; try done.
  exists (mk_VerifiedAdmission demo_client VA_Producer [] [] 1). vm_compute. reflexivity.
Qed.

Lemma raft_calls_are_faithful_witness :
  client_vote demo_network ∅ (connection demo_runtime (name "vote") demo_client) demo_request
    = (Ok demo_answer, delete demo_server ∅).
Proof.
  refine (proj2 (proj1 (raft_calls_are_faithful demo_network demo_runtime ∅ demo_peers_agree)
    demo_request demo_answer [Byte.x00; Byte.x01] [Byte.x00; Byte.x02] _ _ _ _ _ _ _ _)); try done.
Defined.

Lemma raft_traffic_is_admitted_witness :
  ∃ sender, id_parse_hex 32 (to_hex demo_client) = Ok sender ∧
    permits (ar_allowlist demo_runtime) sender (admissible_members demo_runtime) = true.
Proof.
  destruct (proj1 (raft_traffic_is_admitted demo_runtime (name "vote") IrohAuthenticated
    (to_hex demo_client) [Byte.x00; Byte.x01]) (RX_Vote demo_client demo_request))
    as (sender & e & m & _ & Hp & _ & Hperm & _).
  - vm_compute. left.
  - exists sender. by split.
Defined.
