(* ===== verification/PlacementSafety.v ===== *)
(** * What the planner recommends

    The enumeration of voter sets is exhaustive and its choice optimal; a plan
    keeps the healthy voters that the policy protects; and a plan computed from a
    replica's own state is one that replica accepts, whatever the topology. *)

From S2P Require Import Prelude Reason Ids Contract Externals Limits State Tables Ticket Authority Shape.
From S2P Require Import Membership Apply Wire Boundary Topology Clusters Placement.

#[local] Open Scope N_scope.

(** ** The order of scores *)

(** A strict order, as a comparison. *)
Definition strict {A} (gt : A -> A -> bool) : Prop :=
  (forall a, gt a a = false) /\ (forall a b c, gt a b = true -> gt b c = true -> gt a c = true).

Lemma lex_strict {A K} `{EqDecision K} (key : A -> K) gt next : strict gt -> strict next -> strict (lex key gt next).
Proof.
  intros [Hgi Hgt] [Hni Hnt]. split; unfold lex.
  - intros a. by rewrite bool_decide_true.
  - intros a b c. destruct (decide (key a = key b)) as [Hab|Hab], (decide (key b = key c)) as [Hbc|Hbc];
      rewrite ?(bool_decide_true (key a = key b)), ?(bool_decide_false (key a = key b)),
        ?(bool_decide_true (key b = key c)), ?(bool_decide_false (key b = key c)) by done; intros H1 H2.
    + rewrite bool_decide_true by congruence. eauto.
    + rewrite bool_decide_false, Hab by congruence. done.
    + rewrite bool_decide_false, <- Hbc by congruence. done.
    + rewrite bool_decide_false; [eauto|]. intros Hac. rewrite <- Hac in H2.
      specialize (Hgi (key a)). by rewrite (Hgt _ _ _ H1 H2) in Hgi.
Qed.

Lemma ltb_strict : strict N.ltb.
Proof. split; [apply N.ltb_irrefl|]. intros a b c. rewrite !N.ltb_lt. lia. Qed.

Lemma gtb_strict : strict (λ x y : N, y <? x).
Proof. split; [apply N.ltb_irrefl|]. intros a b c. rewrite !N.ltb_lt. lia. Qed.

Lemma andb_strict : strict (λ x y : bool, x && negb y).
Proof. split; [by intros []|]. by intros [] [] []. Qed.

Lemma tags_strict : strict tags_ltb.
Proof.
  split.
  - intros a. induction a as [|x a IH]; simpl; [done|]. by rewrite bool_decide_true.
  - intros a. induction a as [|x a IH]; intros [|y b] [|z c]; simpl; try done.
    destruct (decide (x = y)) as [-> |Hxy], (decide (y = z)) as [-> |Hyz];
      rewrite ?(bool_decide_true (z = z)), ?(bool_decide_true (y = y)), ?(bool_decide_true (x = y)),
        ?(bool_decide_false (x = y)), ?(bool_decide_false (y = z)), ?(bool_decide_false (x = z)) by done; [apply IH|done..|].
    intros H1 H2. rewrite bool_decide_false; [by eapply bytes_ltb_trans|]. intros ->.
    pose proof (bytes_ltb_trans _ _ _ H1 H2) as H. by rewrite bytes_ltb_irrefl in H.
Qed.

Lemma beats_strict : strict beats.
Proof.
  unfold beats. repeat apply lex_strict; auto using ltb_strict, gtb_strict, andb_strict.
  destruct tags_strict as [Hi Ht]. split; eauto.
Qed.

(** ** Enumeration *)

(** All ways to choose [k] elements of a list, in its order. *)
Fixpoint combos (k : nat) (l : list NodeId) : list (list NodeId) :=
  match k, l with
  | O, _ => [[]]
  | S _, [] => []
  | S k', x :: l' => map (cons x) (combos k' l') ++ combos k l'
  end.

Lemma combos_short k l : (length l < k)%nat -> combos k l = [].
Proof.
  revert k. induction l as [|x l IH]; intros [|k] Hk; simpl in *; [lia|done|lia|].
  rewrite (IH k), (IH (S k)) by lia. done.
Qed.

Lemma combos_spec k l c : c ∈ combos k l <-> sublist c l /\ length c = k.
Proof.
  revert k c. induction l as [|x l IH]; intros [|k] c; simpl.
  - rewrite list_elem_of_singleton. split; [intros ->; split; [constructor|done]|]. intros [_ ?]. by apply nil_length_inv.
  - split; [intros []%not_elem_of_nil|]. intros [->%sublist_nil_r Hl]. done.
  - rewrite list_elem_of_singleton. split; [intros ->; split; [apply sublist_nil_l|done]|]. intros [_ ?]. by apply nil_length_inv.
  - rewrite elem_of_app, list_elem_of_fmap. setoid_rewrite IH. split.
    + intros [(d & -> & Hd & <-)|[Hs Hl]]; split; try done; by constructor.
    + intros [Hs Hl]. apply sublist_cons_r in Hs as [Hs|(d & -> & Hs)]; [by right|]. left. exists d.
      injection Hl as <-. done.
Qed.

Lemma foldl_same {A B} (f g : A -> B -> A) a l : (forall a b, f a b = g a b) -> foldl f a l = foldl g a l.
Proof. intros H. revert a. induction l as [|b l IH]; intros a; simpl; [done|]. by rewrite H, IH. Qed.

Section enumeration.
Context `{Ext : Externals}.
Context (input : PlacementInput) (required : gset NodeId) (max_new : N).

Abbreviation target := (N.to_nat (pp_target_voters (pi_policy input))).

(** The nested loops consider every choice once. *)
Lemma each_index_combos rest chosen best :
  (length chosen < target)%nat ->
  each_index input required max_new rest chosen best =
  foldl (λ best c, consider input required max_new (chosen ++ c) best) best (combos (target - length chosen) rest).
Proof.
  revert chosen best. induction rest as [|x rest IH]; intros chosen best Hlt.
  { simpl. destruct (target - length chosen)%nat eqn:Hk; [lia|done]. }
  cbn [each_index]. destruct (Nat.ltb_spec (length (x :: rest)) (target - length chosen)).
  { by rewrite combos_short. }
  destruct (target - length chosen)%nat as [|k] eqn:Hk; [lia|]. cbn [combos]. rewrite foldl_app.
  rewrite IH by done. rewrite Hk. f_equal. change (map (cons x) (combos k rest)) with (cons x <$> combos k rest).
  rewrite foldl_fmap.
  assert (length (chosen ++ [x]) = S (length chosen)) as Hlen by (rewrite length_app; simpl; lia).
  destruct (Nat.eqb_spec (length (chosen ++ [x])) target) as [He|He].
  - assert (k = 0%nat) as -> by lia. by destruct rest.
  - rewrite IH by lia. replace (target - length (chosen ++ [x]))%nat with k by lia.
    apply foldl_same. intros b c. by rewrite <- app_assoc.
Qed.

(** What a considered choice must satisfy. *)
Definition admissible (voters : gset NodeId) : Prop :=
  required ⊆ voters /\ N.of_nat (size (voters ∖ pi_current_voters input)) <= max_new.

Lemma consider_cases chosen best :
  consider input required max_new chosen best =
  if bool_decide (admissible (list_to_set chosen)) then
    let scored := score input (list_to_set chosen) in
    match best with
    | None => Some scored
    | Some held => if beats scored held then Some scored else best
    end
  else best.
Proof.
  unfold consider, admissible. destruct (decide (required ⊆ list_to_set chosen)) as [Hr|Hr].
  - rewrite (bool_decide_true (required ⊆ _)) by done. simpl.
    destruct (N.ltb_spec max_new (N.of_nat (size (list_to_set chosen ∖ pi_current_voters input)))).
    + rewrite bool_decide_false; [done|]. intros [_ ?]. lia.
    + by rewrite bool_decide_true.
  - rewrite bool_decide_false by done. simpl. rewrite bool_decide_false; [done|]. by intros [? _].
Qed.

(** The best of a list of choices. *)
Lemma considered_best cs :
  match foldl (λ best c, consider input required max_new c best) None cs with
  | Some best =>
      (exists c, c ∈ cs /\ admissible (list_to_set c) /\ best = score input (list_to_set c)) /\
      (forall c, c ∈ cs -> admissible (list_to_set c) -> beats (score input (list_to_set c)) best = false)
  | None => forall c, c ∈ cs -> ~ admissible (list_to_set c)
  end.
Proof.
  induction cs as [|c cs IH] using rev_ind; [by intros c Hc%not_elem_of_nil|].
  rewrite foldl_snoc, consider_cases.
  assert (forall d, d ∈ cs ++ [c] <-> d ∈ cs \/ d = c) as Hin.
  { intros d. by rewrite elem_of_app, list_elem_of_singleton. }
  case_bool_decide as Hc; simpl; destruct (foldl _ None cs) as [held|].
  - destruct IH as [(h & Hh & Hha & ->) Hbest], beats_strict as [Hirr Htrans].
    destruct (beats (score input (list_to_set c)) (score input (list_to_set h))) eqn:Hb.
    + setoid_rewrite Hin. split; [by exists c; auto|]. intros d [Hd| ->] Had; [|apply Hirr].
      destruct (beats (score input (list_to_set d)) _) eqn:Hd'; [|done].
      specialize (Hbest d Hd Had). by rewrite (Htrans _ _ _ Hd' Hb) in Hbest.
    + setoid_rewrite Hin. split; [by exists h; auto|]. intros d [Hd| ->] Had; [by apply Hbest|done].
  - setoid_rewrite Hin. split; [by exists c; auto|]. intros d [Hd| ->] Had; [by destruct (IH d Hd)|apply beats_strict].
  - destruct IH as [(h & Hh & Hha & ->) Hbest]. setoid_rewrite Hin. split; [by exists h; auto|].
    intros d [Hd| ->] Had; [by apply Hbest|done].
  - setoid_rewrite Hin. intros d [Hd| ->]; [by apply IH|done].
Qed.

(** A voter set the planner may recommend. *)
Definition feasible (universe : list NodeId) (voters : gset NodeId) : Prop :=
  voters ⊆ list_to_set universe /\ N.of_nat (size voters) = pp_target_voters (pi_policy input) /\ admissible voters.

(** Every set of the right size is one of the choices. *)
Lemma chosen_set (universe : list NodeId) (voters : gset NodeId) :
  NoDup universe -> voters ⊆ list_to_set universe ->
  exists c, c ∈ combos (size voters) universe /\ list_to_set c = voters.
Proof.
  intros Hnd Hsub. exists (filter (λ n, n ∈ voters) universe).
  assert (list_to_set (filter (λ n, n ∈ voters) universe) = voters) as Hset.
  { apply set_eq. intros n. rewrite elem_of_list_to_set, list_elem_of_filter. set_solver. }
  split; [|done]. apply combos_spec. split; [apply sublist_filter|].
  rewrite <- (f_equal size Hset), size_list_to_set; [done|]. by apply list.NoDup_filter.
Qed.

Lemma chosen_feasible (universe : list NodeId) c :
  NoDup universe -> c ∈ combos target universe ->
  list_to_set c ⊆@{gset NodeId} list_to_set universe /\
  N.of_nat (size (list_to_set c : gset NodeId)) = pp_target_voters (pi_policy input).
Proof.
  intros Hnd [Hs Hl]%combos_spec. split.
  - intros n. rewrite !elem_of_list_to_set. intros Hn. by eapply elem_of_sublist.
  - rewrite size_list_to_set, Hl by (by eapply sublist_NoDup). lia.
Qed.

Lemma best_voter_set_spec (universe : list NodeId) :
  NoDup universe ->
  match best_voter_set input required max_new universe with
  | Some best =>
      feasible universe (sc_voters best) /\ best = score input (sc_voters best) /\
      (forall voters, feasible universe voters -> beats (score input voters) best = false)
  | None => forall voters, ~ feasible universe voters
  end.
Proof.
  intros Hnd.
  assert (best_voter_set input required max_new universe =
          foldl (λ best c, consider input required max_new c best) None (combos target universe)) as ->.
  { unfold best_voter_set. destruct (Nat.eqb_spec 0 target) as [<- |Hne]; [by destruct universe|].
    rewrite each_index_combos by (simpl; lia). simpl. by rewrite Nat.sub_0_r. }
  pose proof (considered_best (combos target universe)) as Hbest.
  assert (forall voters, feasible universe voters ->
            exists c, c ∈ combos target universe /\ list_to_set c = voters) as Hall.
  { intros voters (Hsub & Hsize & _). rewrite <- Hsize. rewrite Nat2N.id. by apply chosen_set. }
  destruct (foldl _ None _) as [best|].
  - destruct Hbest as [(c & Hc & Had & ->) Hbest]. destruct (chosen_feasible universe c Hnd Hc) as [? ?].
    split_and!; [done..|]. intros voters Hv. destruct (Hall voters Hv) as (d & Hd & <-). apply Hbest; [done|]. apply Hv.
  - intros voters Hv. destruct (Hall voters Hv) as (d & Hd & <-). by apply (Hbest d Hd), Hv.
Qed.
End enumeration.

(** ** Learners *)

Section learners.
Context `{Ext : Externals}.
Context (input : PlacementInput).
Let policy := pi_policy input.

Lemma greatest_tag_elem nodes n : greatest_tag input nodes = Some n -> n ∈ nodes.
Proof.
  unfold greatest_tag. revert n. induction nodes as [|x nodes IH] using rev_ind; intros n; [done|].
  rewrite foldl_snoc, elem_of_app, list_elem_of_singleton. destruct (foldl _ None nodes) as [b|].
  - case_match; intros [= <-]; auto.
  - intros [= <-]. auto.
Qed.

Lemma greatest_tag_some nodes : nodes <> [] -> is_Some (greatest_tag input nodes).
Proof.
  unfold greatest_tag. destruct nodes as [|x nodes _] using rev_ind; [done|]. intros _. rewrite foldl_snoc.
  repeat case_match; eauto.
Qed.

(** Trimming drops learners until the target is met; its fuel suffices. *)
Lemma trim_learners_spec fuel learners :
  (size learners <= fuel)%nat ->
  trim_learners input fuel learners ⊆ learners /\
  N.of_nat (size (trim_learners input fuel learners)) <= pp_target_retained_learners policy.
Proof.
  revert learners. induction fuel as [|fuel IH]; intros learners Hf; cbn [trim_learners].
  { split; [done|]. lia. }
  destruct (N.ltb_spec (pp_target_retained_learners (pi_policy input)) (N.of_nat (size learners))) as [Hlt|Hle];
    [|done].
  destruct (greatest_tag_some (in_order learners)) as [d Hd].
  { intros Hnil. pose proof (size_in_order learners) as Hs. rewrite Hnil in Hs. simpl in Hs. lia. }
  rewrite Hd. apply greatest_tag_elem in Hd. rewrite elem_of_in_order in Hd.
  assert (size (learners ∖ {[d]}) = (size learners - 1)%nat) as Hs.
  { rewrite size_difference by set_solver. by rewrite size_singleton. }
  destruct (IH (learners ∖ {[d]})) as [Hsub Hsize]; [lia|]. split; [set_solver|done].
Qed.

Lemma fill_spec learners fs :
  N.of_nat (size learners) <= pp_target_retained_learners policy ->
  N.of_nat (size (fill input learners fs)) <= pp_target_retained_learners policy /\
  (forall n, n ∈ fill input learners fs -> n ∈ learners \/ n ∈ fs).
Proof.
  revert learners. induction fs as [|f fs IH]; intros learners Hle; cbn [fill]; [auto|].
  destruct (N.leb_spec (pp_target_retained_learners (pi_policy input)) (N.of_nat (size learners))); [by auto|].
  destruct (IH ({[f]} ∪ learners)) as [Hs Hn].
  - destruct (decide (f ∈ learners)) as [Hf|Hf].
    + replace ({[f]} ∪ learners) with learners by set_solver. done.
    + rewrite size_union by set_solver. rewrite size_singleton. unfold policy in *. lia.
  - split; [done|]. intros n [[->%elem_of_singleton|?]%elem_of_union|?]%Hn; set_solver.
Qed.

Lemma kept_learners_spec voters :
  N.of_nat (size (kept_learners input voters)) <= pp_target_retained_learners policy /\
  (forall n, n ∈ kept_learners input voters ->
     n ∈ pi_current_learners input /\ retainable input n = true /\ n ∉ pi_grace_crossed_members input /\ n ∉ voters).
Proof.
  unfold kept_learners. set (ls := filter _ _). destruct (trim_learners_spec (size ls) ls) as [Hsub Hsize]; [done|].
  split; [done|]. intros n Hn. apply Hsub in Hn. unfold ls in Hn. apply elem_of_filter in Hn as [Hn ?].
  rewrite !andb_true_iff, !negb_true_iff, !bool_decide_eq_false in Hn. tauto.
Qed.

Lemma ordered_universe_elem n : n ∈ ordered_universe input <-> n ∈ universe input.
Proof.
  unfold ordered_universe. rewrite (merge_sort_Permutation (tag_le (pi_group_id input))). apply elem_of_in_order.
Qed.

Lemma ordered_universe_NoDup : NoDup (ordered_universe input).
Proof. unfold ordered_universe. rewrite (merge_sort_Permutation (tag_le (pi_group_id input))). apply in_order_NoDup. Qed.

Lemma chosen_learners_spec voters :
  N.of_nat (size (chosen_learners input voters)) <= pp_target_retained_learners policy /\
  (forall n, n ∈ chosen_learners input voters -> retainable input n = true /\ n ∉ voters).
Proof.
  destruct (kept_learners_spec voters) as [Hk Hkept]. unfold chosen_learners.
  destruct (fill_spec (kept_learners input voters) (fillers input voters (kept_learners input voters)) Hk) as [Hs Hn].
  split; [done|]. intros n [Hl|Hl]%Hn; [by destruct (Hkept n Hl) as (_ & ? & _ & ?)|].
  unfold fillers in Hl. rewrite (merge_sort_Permutation (filler_le input voters)) in Hl.
  apply list_elem_of_filter in Hl as [Hp Hu]. rewrite !andb_true_iff, !negb_true_iff, !bool_decide_eq_false in Hp.
  destruct Hp as (((Hv & _) & Hc) & _). split; [|done]. apply ordered_universe_elem in Hu. unfold universe in Hu.
  apply elem_of_union in Hu as [[_ ?]%elem_of_filter|[Hu Hd]%elem_of_filter]; [done|].
  rewrite !andb_true_iff, !negb_true_iff, !bool_decide_eq_false in Hu. unfold retainable.
  rewrite bool_decide_true by done. rewrite bool_decide_false by tauto. done.
Qed.
End learners.

(** ** Validated policies *)

Section validated.
Context `{Ext : Externals}.
Context (input : PlacementInput).
Let policy := pi_policy input.

Lemma first_fault_None {A} (f : A -> option PolicyFault) l :
  first_fault f l = None <-> forall x, x ∈ l -> f x = None.
Proof.
  induction l as [|x l IH]; simpl.
  - split; [intros _ x Hx%not_elem_of_nil|]; done.
  - destruct (f x) as [fault|] eqn:Hx.
    + split; [done|]. intros H. by rewrite H in Hx by left.
    + rewrite IH. setoid_rewrite elem_of_cons. split; [intros H y [-> |?]; auto|auto].
Qed.

Record policy_valid : Prop := {
  pv_target : profile_permits_voters (pi_deployment_profile_code input) (pp_target_voters policy) = false;
  pv_learners : pp_target_retained_learners policy <= MAX_RETAINED_LEARNERS;
  pv_pins pin : pin ∈ pp_pinned_voters policy ->
    pin ∈ dom (pp_eligible policy) /\ pin ∉ pp_excluded policy /\ pin ∉ pi_grace_crossed_members input;
  pv_seeds node candidate seed :
    pp_eligible policy !! node = Some candidate -> pc_member_seed candidate = Some seed ->
    msv_node_id seed = node /\ check_seed_ticket (msv_ticket seed) node = Ok () /\
    forall permit, msv_signed_join_permit seed = Some permit ->
      verify_join_permit (policy_authority input) permit node = Ok ();
}.

Lemma validate_policy_None : validate_policy input = None -> policy_valid.
Proof.
  unfold validate_policy. fold policy. destruct (profile_permits_voters _ _) eqn:Hprofile; [done|].
  destruct (N.ltb_spec MAX_RETAINED_LEARNERS (pp_target_retained_learners policy)); [done|].
  destruct (_ <? pp_minimum_separated_voter_pairs policy); [done|].
  destruct (_ <? N.of_nat (size (pp_pinned_voters policy))); [done|].
  destruct (first_fault (check_pin input) _) as [|] eqn:Hpins; [done|]. rewrite !first_fault_None in *.
  intros Hentries. split; [done..| |].
  - intros pin Hpin. specialize (Hpins pin). rewrite elem_of_in_order in Hpins. specialize (Hpins Hpin).
    unfold check_pin in Hpins. repeat (case_bool_decide; simpl in Hpins; try done).
  - intros node candidate seed Hn Hs. specialize (Hentries node). rewrite elem_of_in_order, elem_of_dom in Hentries.
    unfold check_entry in Hentries. fold policy in Hentries. rewrite Hn in Hentries. simpl in Hentries.
    specialize (Hentries ltac:(eauto)). case_bool_decide; simpl in Hentries; [|done]. rewrite Hs in Hentries. simpl in Hentries.
    case_bool_decide as Hid; simpl in Hentries; [|done].
    destruct (check_seed_ticket (msv_ticket seed) node) as [[]|]; [|done]. split_and!; [done..|].
    intros permit Hp. rewrite Hp in Hentries. simpl in Hentries.
    by destruct (verify_join_permit _ permit node) as [[]|].
Qed.

(** What a plan was chosen from. *)
Lemma plan_chosen p :
  plan input = PR_Plan p ->
  policy_valid /\ pp_pinned_voters policy ⊆ universe input /\ pi_active_membership_intent input = false /\
  exists best, best_voter_set input (required_voters input) (new_voter_cap input) (ordered_universe input) = Some best /\
    (0 < pp_minimum_separated_voter_pairs policy -> sc_meets_minimum best = true) /\
    N.of_nat (size (chosen_learners input (sc_voters best))) = pp_target_retained_learners policy /\
    recommend input best (chosen_learners input (sc_voters best)) = PR_Plan p.
Proof.
  unfold plan. destruct (validate_policy input) eqn:Hv; [done|]. apply validate_policy_None in Hv.
  destruct (pi_active_membership_intent input); [done|].
  destruct (List.find _ _) as [|] eqn:Hpins; [done|]. case_match; [done|].
  destruct (best_voter_set _ _ _ _) as [best|] eqn:Hbest; [|done].
  destruct ((0 <? _) && _)%bool eqn:Hmin; [by case_match|]. case_match eqn:Hl; [done|]. intros Hr.
  split_and!; [done| |done|].
  - intros pin Hpin. pose proof (find_none _ _ Hpins pin) as H'. rewrite <- list_elem_of_In, elem_of_in_order in H'.
    specialize (H' Hpin). by apply negb_false_iff, bool_decide_eq_true in H'.
  - exists best. split_and!; [done| | |done].
    + intros Hpos. apply andb_false_iff in Hmin as [H0%N.ltb_ge|H0%negb_false_iff]; [unfold policy in *; lia|done].
    + apply N.ltb_ge in Hl. destruct (chosen_learners_spec input (sc_voters best)) as [? _]. unfold policy in *. lia.
Qed.

(** The seeds collected for the new members, when none lacks material. *)
Lemma seeds_collected current members seeds :
  foldl (seed_step input current) ([], ∅) members = (seeds, ∅) ->
  Forall2 (λ m s, (pp_eligible policy !! m) ≫= pc_member_seed = Some s /\ is_Some (msv_signed_join_permit s))
    (filter (λ m, m ∉ current) members) seeds.
Proof.
  revert seeds. induction members as [|m members IH] using rev_ind; intros seeds.
  { simpl. intros [= <-]. constructor. }
  rewrite foldl_snoc, list.filter_app, filter_cons, filter_nil.
  destruct (foldl _ _ members) as [seeds0 unp]. unfold seed_step. fold policy.
  case_bool_decide as Hc; case_decide; try done.
  - intros [= -> ->]. rewrite app_nil_r. by apply IH.
  - destruct ((pp_eligible policy !! m) ≫= pc_member_seed) as [s|] eqn:Hs.
    + case_bool_decide as Hp; intros [= <- Hu].
      * subst. apply Forall2_app; [by apply IH|]. by constructor.
      * exfalso. set_solver.
    + intros [= <- Hu]. exfalso. set_solver.
Qed.
End validated.

(** ** Plans *)

Definition plan_seed (s : MemberSeedV1) : MemberSeed :=
  mk_MemberSeed (msv_node_id s) (msv_ticket s) (msv_signed_join_permit s).

Definition membership_plan_of (p : PlacementPlan) : MembershipPlan :=
  mk_MembershipPlan (pl_desired_voters p) (pl_retained_learners p) (map plan_seed (pl_member_seeds p)).

#[export] Instance seed_node_le_trans : Transitive seed_node_le.
Proof. intros a b c. apply bytes_leb_trans. Qed.
#[export] Instance seed_node_le_total : Total seed_node_le.
Proof. intros a b. apply bytes_leb_total. Qed.

(** What a policy must leave to the planner: ids of the right width, no seed too
    long for the wire, and the deployment root not a candidate. *)
Definition seed_fits (seed : MemberSeedV1) : Prop :=
  len (msv_ticket seed) <= MAX_TICKET /\
  forall permit, msv_signed_join_permit seed = Some permit -> len permit <= MAX_JOIN_PERMIT.

Record policy_fits (policy : PlacementPolicy) : Prop := {
  pf_width n : n ∈ dom (pp_eligible policy) -> len n = 32;
  pf_root : pp_authority_public_key policy ∉ dom (pp_eligible policy);
  pf_seed n candidate seed :
    pp_eligible policy !! n = Some candidate -> pc_member_seed candidate = Some seed -> seed_fits seed;
}.

Section plans.
Context `{Ext : Externals}.
Context (input : PlacementInput).
Let policy := pi_policy input.
Let current := pi_current_voters input ∪ pi_current_learners input.

(** A plan names the chosen voters and learners, in order, with the seeds of
    exactly the new ones. *)
Record plan_of (voters learners : gset NodeId) (p : PlacementPlan) : Prop := {
  po_voters : pl_desired_voters p = in_order voters;
  po_learners : pl_retained_learners p = in_order learners;
  po_expected : pl_expected_membership_log_id p = pi_membership_log_id input;
  po_seed_ids : map msv_node_id (pl_member_seeds p) ≡ₚ filter (λ m, m ∉ current) (in_order (voters ∪ learners));
  po_seeds_sorted : StronglySorted node_le (map msv_node_id (pl_member_seeds p));
  po_seeds s : s ∈ pl_member_seeds p ->
    (pp_eligible policy !! msv_node_id s) ≫= pc_member_seed = Some s /\ is_Some (msv_signed_join_permit s);
}.

Lemma sorted_ids (l : list MemberSeedV1) : StronglySorted seed_node_le l -> StronglySorted node_le (map msv_node_id l).
Proof.
  induction 1 as [|s l _ IH Hall]; simpl; constructor; [done|]. rewrite Forall_map. done.
Qed.

Lemma recommend_plan best learners p :
  policy_valid input -> recommend input best learners = PR_Plan p -> plan_of (sc_voters best) learners p.
Proof.
  intros Hv. unfold recommend. destruct (_ && _)%bool; [by case_match|]. fold current.
  destruct (foldl _ _ _) as [seeds unp] eqn:Hf. case_bool_decide as Hu; [|done]. simpl. intros [= <-]. subst unp.
  apply seeds_collected in Hf. split; simpl; [done..| | |].
  - rewrite (merge_sort_Permutation seed_node_le). apply reflexive_eq. revert Hf. fold current.
    induction 1 as [|m s ms ss [Hs _] _ IH]; [done|]. simpl. rewrite IH. f_equal.
    apply bind_Some in Hs as (candidate & Hc & Hs). by apply (pv_seeds _ Hv _ _ _ Hc Hs).
  - apply sorted_ids, (StronglySorted_merge_sort seed_node_le).
  - intros s. rewrite (merge_sort_Permutation seed_node_le). intros Hs.
    apply list_elem_of_lookup in Hs as [i Hi]. destruct (Forall2_lookup_r _ _ _ _ _ Hf Hi) as (m & _ & Hm & Hp).
    split; [|done].
    apply bind_Some in Hm as (candidate & Hc & Hcs). destruct (pv_seeds _ Hv _ _ _ Hc Hcs) as [-> _].
    apply bind_Some. eauto.
Qed.

(** The input is the replica's own status. *)
Record observes (state : State) : Prop := {
  ob_authority : policy_authority input = st_authority state;
  ob_profile : pi_deployment_profile_code input = st_deployment_profile_code state;
  ob_voters : pi_current_voters input = cm_voters (st_membership state);
  ob_learners : pi_current_learners input = cm_learners (st_membership state);
  ob_log_id : narrow_option narrow_log_id (pi_membership_log_id input) = Ok (st_membership_log_id state);
  ob_idle id intent : st_intents state !! id = Some intent -> is_terminal_phase (in_status_code intent) = true;
}.

Lemma universe_eligible n : n ∈ universe input -> n ∈ dom (pp_eligible policy) /\ n ∉ pp_excluded policy.
Proof.
  unfold universe, retainable. fold policy. rewrite elem_of_union, !elem_of_filter, !andb_true_iff, !negb_true_iff.
  rewrite !bool_decide_eq_false, bool_decide_eq_true. tauto.
Qed.

(** The set chosen for a plan. *)
Lemma plan_best p :
  plan input = PR_Plan p ->
  exists best, policy_valid input /\ plan_of (sc_voters best) (chosen_learners input (sc_voters best)) p /\
    feasible input (required_voters input) (new_voter_cap input) (ordered_universe input) (sc_voters best).
Proof.
  intros (Hv & _ & _ & best & Hb & _ & _ & Hr)%plan_chosen. exists best. split_and!; [done|by apply recommend_plan|].
  pose proof (best_voter_set_spec input (required_voters input) (new_voter_cap input) _ (ordered_universe_NoDup input)) as H.
  rewrite Hb in H. apply H.
Qed.

Lemma cap_bound : new_voter_cap input <= MAX_NEW_VOTERS.
Proof. unfold new_voter_cap. by case_match. Qed.

Lemma new_voters_bound voters members :
  pi_current_voters input ⊆ members ->
  new_voters (in_order voters) members <= N.of_nat (size (voters ∖ pi_current_voters input)).
Proof.
  intros Hsub. unfold new_voters, len.
  assert (list_to_set (filter (λ v, v ∉ members) (in_order voters)) ⊆ voters ∖ pi_current_voters input) as Hs.
  { intros n. rewrite elem_of_list_to_set, list_elem_of_filter, elem_of_in_order. set_solver. }
  apply subseteq_size in Hs. rewrite size_list_to_set in Hs by (apply list.NoDup_filter, in_order_NoDup). lia.
Qed.

(** The seeds of a plan pass the replica's rules. *)
Lemma planned_seed_accepted state voters learners p s :
  policy_fits policy -> observes state -> policy_valid input -> plan_of voters learners p -> s ∈ pl_member_seeds p ->
  seed_accepted (membership_plan_of p) (cm_members (st_membership state)) (st_authority state) (plan_seed s).
Proof.
  intros Hfit Hob Hv Hp Hs. destruct (po_seeds _ _ _ Hp s Hs) as [(c & Hc & Hcs)%bind_Some [permit Hpermit]].
  destruct (pv_seeds _ Hv _ _ _ Hc Hcs) as (_ & Hticket & Hver), (pf_seed _ Hfit _ _ _ Hc Hcs) as [Htl Hpl].
  assert (msv_node_id s ∈ filter (λ m, m ∉ current) (in_order (voters ∪ learners))) as Hin.
  { rewrite <- (po_seed_ids _ _ _ Hp). by apply list_elem_of_fmap_2. }
  apply list_elem_of_filter in Hin as [Hnew Hin]. rewrite elem_of_in_order in Hin. split; simpl; [done|done| | | |].
  - rewrite elem_of_app, (po_voters _ _ _ Hp), (po_learners _ _ _ Hp), !elem_of_in_order. set_solver.
  - unfold current in Hnew. rewrite (ob_voters _ Hob), (ob_learners _ Hob) in Hnew. split; [done|]. eauto.
  - intros q Hq. by apply Hpl.
  - intros q Hq. rewrite <- (ob_authority _ Hob). by apply Hver.
Qed.

(** ** The replica accepts the plan *)

Lemma planned_shape state p :
  policy_fits policy -> observes state -> plan input = PR_Plan p ->
  plan_accepted (membership_plan_of p) (st_membership state) (st_authority state) (st_deployment_profile_code state).
Proof.
  intros Hfit Hob (best & Hv & Hp & Hsub & Hsize & Had)%plan_best.
  destruct (chosen_learners_spec input (sc_voters best)) as [Hl Hlearn]. set (learners := chosen_learners _ _) in *.
  assert (forall n, n ∈ pl_desired_voters p ++ pl_retained_learners p -> n ∈ sc_voters best ∪ learners) as Hmem.
  { intros n. rewrite elem_of_app, (po_voters _ _ _ Hp), (po_learners _ _ _ Hp), !elem_of_in_order. set_solver. }
  assert (forall n, n ∈ sc_voters best -> n ∈ universe input) as Huni.
  { intros n Hn%Hsub. by apply elem_of_list_to_set, ordered_universe_elem in Hn. }
  assert (forall n, n ∈ sc_voters best ∪ learners -> n ∈ dom (pp_eligible policy)) as Hel.
  { intros n [Hn%Huni%universe_eligible|Hn]%elem_of_union; [tauto|].
    destruct (Hlearn n Hn) as [Hr _]. unfold retainable in Hr. by apply andb_true_iff in Hr as [?%bool_decide_eq_true _]. }
  split; simpl.
  - rewrite (po_voters _ _ _ Hp). unfold len. rewrite size_in_order, Hsize, <- (ob_profile _ Hob). apply Hv.
  - rewrite (po_learners _ _ _ Hp). unfold len. rewrite size_in_order. pose proof (pv_learners _ Hv) as Hmax.
    unfold MAX_RETAINED_LEARNERS in Hmax. unfold policy in *. lia.
  - rewrite (po_voters _ _ _ Hp). apply in_order_sorted.
  - rewrite (po_learners _ _ _ Hp). apply in_order_sorted.
  - rewrite map_map. simpl. apply sorted_strictly; [apply Hp|]. rewrite (po_seed_ids _ _ _ Hp).
    apply list.NoDup_filter, in_order_NoDup.
  - rewrite (po_voters _ _ _ Hp), (po_learners _ _ _ Hp). intros n. rewrite !elem_of_in_order. intros ? Hn%Hlearn. tauto.
  - rewrite <- (ob_authority _ Hob). simpl. intros Hr%Hmem%Hel. by apply (pf_root _ Hfit).
  - rewrite (po_voters _ _ _ Hp). etrans; [apply new_voters_bound|].
    + unfold cm_members. rewrite (ob_voters _ Hob). set_solver.
    + destruct Had as [_ Hnew]. pose proof cap_bound as Hc. unfold MAX_NEW_VOTERS in Hc. lia.
  - intros s Hs. apply list_elem_of_fmap in Hs as (w & -> & Hw). by eapply planned_seed_accepted.
  - intros n Hn%Hmem Hnew. rewrite map_map. simpl.
    change (n ∈ map msv_node_id (pl_member_seeds p)). rewrite (po_seed_ids _ _ _ Hp).
    apply list_elem_of_filter. rewrite elem_of_in_order. split; [|done]. unfold current.
    by rewrite (ob_voters _ Hob), (ob_learners _ Hob).
Qed.
End plans.

(** ** The choice *)

Section choice.
Context `{Ext : Externals}.
Context (input : PlacementInput).

(** C25: The search for a voter set is exhaustive and its answer the best: among
    the sets of the target size drawn from the universe that contain every required
    voter and add at most the allowed number of new ones, it returns one no other
    outscores, and it returns none exactly when there is no such set. *)
Theorem best_voter_set_optimal required max_new :
  match best_voter_set input required max_new (ordered_universe input) with
  | Some best =>
      feasible input required max_new (ordered_universe input) (sc_voters best) /\
      best = score input (sc_voters best) /\
      (forall voters, feasible input required max_new (ordered_universe input) voters ->
         beats (score input voters) best = false)
  | None => forall voters, ~ feasible input required max_new (ordered_universe input) voters
  end.
Proof. apply best_voter_set_spec, ordered_universe_NoDup. Qed.

Lemma size_swap (a b : gset NodeId) : size a = size b -> size (a ∖ b) = size (b ∖ a).
Proof.
  intros H. pose proof (size_union_alt a b) as H1. pose proof (size_union_alt b a) as H2.
  rewrite (union_comm_L b a) in H2. lia.
Qed.

(** A plan the policy did not ask for explicitly replaces at most one voter,
    and when the pins leave room for them, the voter it drops is one the policy no
    longer lists, one it excludes, or one absent for the whole grace. *)
Lemma automatic_plan_replaces_one p :
  plan input = PR_Plan p -> explicit input = false ->
  let desired : gset NodeId := list_to_set (pl_desired_voters p) in
  (size (desired ∖ pi_current_voters input) <= 1)%nat /\
  (size (pi_current_voters input ∖ desired) <= 1)%nat /\
  (N.of_nat (size (pp_pinned_voters (pi_policy input) ∪ protected input)) <= pp_target_voters (pi_policy input) ->
   forall v, v ∈ pi_current_voters input ∖ desired ->
     v ∉ dom (pp_eligible (pi_policy input)) \/ v ∈ pp_excluded (pi_policy input) \/ v ∈ pi_grace_crossed_members input).
Proof.
  intros Hp Hx. apply plan_best in Hp as (best & _ & Hp & _ & Hsize & Hreq & Hnew). simpl.
  assert (list_to_set (pl_desired_voters p) = sc_voters best) as ->.
  { apply set_eq. intros n. by rewrite (po_voters _ _ _ _ Hp), elem_of_list_to_set, elem_of_in_order. }
  unfold new_voter_cap in Hnew. unfold required_voters in Hreq. rewrite Hx in Hnew, Hreq.
  unfold explicit in Hx. apply orb_false_iff in Hx as [_ Ht%negb_false_iff%N.eqb_eq].
  rewrite (size_swap (pi_current_voters input) (sc_voters best)) by lia. split_and!; [lia..|].
  intros Hroom v [Hv Hout]%elem_of_difference. apply N.leb_le in Hroom. rewrite Hroom in Hreq.
  assert (v ∉ protected input) as Hnp by set_solver. unfold protected, retainable in Hnp.
  rewrite elem_of_filter, !andb_true_iff, !negb_true_iff, !bool_decide_eq_false, bool_decide_eq_true in Hnp.
  destruct (decide (v ∈ dom (pp_eligible (pi_policy input)))); [|by left].
  destruct (decide (v ∈ pp_excluded (pi_policy input))); [by auto|].
  destruct (decide (v ∈ pi_grace_crossed_members input)); [by auto|]. tauto.
Qed.
End choice.
