(* ===== verification/Manager.v ===== *)
(** * The placement manager

    Models [aster/src/coordination/client/manager.rs] and, of
    [client/mod.rs], the check a client runs on a membership plan before it is
    journaled. What the calls of one reconciliation return (the resumed request, the
    status cut, the policy, the topology snapshot, the clock, the provisioner and
    the delivery of the request) is the argument of the model; instants and the
    grace are numbers of one unit. The texts of reports are constructors. *)

From S2P Require Import Prelude Ids Contract Externals Limits State Shape Wire Boundary Reads Topology Placement.

#[local] Open Scope N_scope.
#[local] Open Scope coordination_scope.

#[export] Instance SelectionEvidence_eq_dec : EqDecision SelectionEvidence.
Proof. solve_decision. Defined.

(** [struct ProvisionRequest]. *)
Record ProvisionRequest : Type := mk_ProvisionRequest {
  prq_group_id : GroupId;
  prq_policy_digest : Hash;
  prq_membership_log_id : option LogIdV1;
  prq_node_id : NodeId;
}.

(** How a call of the client fails: UNAVAILABLE, the transport, or otherwise. *)
Inductive CallFailure : Type :=
| CF_Unavailable
| CF_Transport
| CF_Other.

(** The errors the manager itself adds. *)
Inductive ManagerError : Type :=
| MGE_Call
| MGE_MemberWidth
| MGE_GenesisHashWidth
| MGE_ProvisionedOther (node : NodeId)
| MGE_Entropy.

(** Why a reconciliation reports what it does. *)
Inductive ReportReason : Type :=
| RR_ResumeResolved (outcome : Z)
| RR_ResumeUnavailable
| RR_ResumeUnreachable
| RR_StatusUnavailable
| RR_StatusUnreachable
| RR_Converging
| RR_TupleChanged
| RR_FactsChanged
| RR_Superseded (why : PlacementRecommendation)
| RR_Recommendation (why : PlacementRecommendation)
| RR_Accepted
| RR_LostRace (outcome reason : Z).

(** [struct PlacementReport]. *)
Record PlacementReport : Type := mk_PlacementReport {
  rp_policy_revision : N;
  rp_policy_digest : Hash;
  rp_membership_log_id : option LogIdV1;
  rp_current_voters : list NodeId;
  rp_current_learners : list NodeId;
  rp_selected_voters : list NodeId;
  rp_selected_learners : list NodeId;
  rp_grace_crossed_members : list NodeId;
  rp_separation : option SeparationSummary;
  rp_pending_operation_id : option bytes;
  rp_reason : ReportReason;
}.

(** [enum Observed]. *)
Inductive Observed : Type :=
| OB_Stop (report : PlacementReport)
| OB_Ready (input : PlacementInput) (status : GroupStatusReplyWireV1).

(** [struct ObservationFingerprint]. *)
Record ObservationFingerprint : Type := mk_ObservationFingerprint {
  fp_policy_revision : N;
  fp_policy_digest : Hash;
  fp_membership_log_id : option LogIdV1;
}.

#[export] Instance ObservationFingerprint_eq_dec : EqDecision ObservationFingerprint.
Proof. solve_decision. Defined.

(** [ObservationFingerprint::of]. *)
Definition fingerprint_of (input : PlacementInput) : ObservationFingerprint :=
  mk_ObservationFingerprint (pp_revision (pi_policy input)) (pp_digest (pi_policy input)) (pi_membership_log_id input).

(** [struct PlannedPass]. *)
Record PlannedPass : Type := mk_PlannedPass {
  pn_observation : ObservationFingerprint;
  pn_desired_voters : list NodeId;
  pn_retained_learners : list NodeId;
  pn_evidence : SelectionEvidence;
}.

(** What one observation finds when it asks. *)
Record Sight : Type := mk_Sight {
  si_status : result GroupStatusReplyWireV1 CallFailure;
  si_policy : option PlacementPolicy;
  si_snapshot : option SharedView;
  si_now : N;
}.

(** What one reconciliation finds: the resumed request's outcome, the two
    observations, the provisioner, the operation id drawn, and the client's
    [change_membership] with its acknowledgement. *)
Record Pass : Type := mk_Pass {
  ps_resume : result (option Z) CallFailure;
  ps_resume_acknowledged : bool;
  ps_first : Sight;
  ps_provision : ProvisionRequest -> option MemberSeedV1;
  ps_second : Sight;
  ps_operation_id : option bytes;
  ps_change_membership : ChangeMembershipActionV1 -> option (Z * Z);
}.

(** ** Reports *)

(** [stub_report]. *)
Definition stub_report (reason : ReportReason) : PlacementReport :=
  mk_PlacementReport 0 (replicate 32 Byte.x00) None [] [] [] [] [] None None reason.

(** [report_of]. *)
Definition report_of (policy : PlacementPolicy) (status : GroupStatusReplyWireV1) (grace_crossed : gset NodeId)
    (pending : option bytes) (reason : ReportReason) (separation : option SeparationSummary) : PlacementReport :=
  let as_ids := filter (λ n, len n = 32) ∘ map nv_node_id in
  {| rp_policy_revision := pp_revision policy;
     rp_policy_digest := pp_digest policy;
     rp_membership_log_id := gsw_membership_log_id status;
     rp_current_voters := as_ids (gsw_voters status);
     rp_current_learners := as_ids (gsw_learners status);
     rp_selected_voters := [];
     rp_selected_learners := [];
     rp_grace_crossed_members := in_order grace_crossed;
     rp_separation := separation;
     rp_pending_operation_id := pending;
     rp_reason := reason |}.

(** [separation_of]. *)
Definition separation_of (r : PlacementRecommendation) : option SeparationSummary :=
  match r with
  | PR_Stable separation | PR_Degraded _ separation => Some separation
  | PR_Plan plan => Some (pl_separation plan)
  | _ => None
  end.

(** [node_set]. *)
Definition node_set (nodes : list NodeIdV1) : result (gset NodeId) ManagerError :=
  let? ids := narrow_all (λ n, narrow_width 32 MGE_MemberWidth (nv_node_id n)) nodes in
  Ok (list_to_set ids).

(** ** Observation *)

(** One member's timer: cleared when it is in the snapshot, started when it is
    not and has none. *)
Definition note_member (snapshot : SharedView) (now : N) (absence : gmap NodeId N) (member : NodeId) : gmap NodeId N :=
  if contains_hex snapshot (to_hex member) then delete member absence
  else match absence !! member with
  | Some _ => absence
  | None => <[member := now]> absence
  end.

(** The timers after a snapshot. *)
Definition note_absence (members : gset NodeId) (snapshot : SharedView) (now : N) (absence : gmap NodeId N)
    : gmap NodeId N :=
  foldl (note_member snapshot now) (filter (λ kv, kv.1 ∈ members) absence) (in_order members).

Definition grace_crossed (absence : gmap NodeId N) (now grace : N) : gset NodeId :=
  dom (filter (λ kv, grace <= now - kv.2) absence).

(** [observe]. *)
Definition observe (group : GroupId) (absence : gmap NodeId N) (s : Sight)
    : gmap NodeId N * result Observed ManagerError :=
  match si_status s with
  | Err CF_Unavailable => (absence, Ok (OB_Stop (stub_report RR_StatusUnavailable)))
  | Err CF_Transport => (absence, Ok (OB_Stop (stub_report RR_StatusUnreachable)))
  | Err CF_Other => (absence, Err MGE_Call)
  | Ok status =>
      match node_set (gsw_voters status), node_set (gsw_learners status), si_policy s with
      | Ok voters, Ok learners, Some policy =>
          if gsw_membership_joint status || bool_decide (is_Some (gsw_pending_operation_id status)) then
            let pending :=
              id ← gsw_pending_operation_id status; if len id =? 16 then Some id else None in
            (absence, Ok (OB_Stop (report_of policy status ∅ pending RR_Converging None)))
          else match si_snapshot s with
          | None => (absence, Err MGE_Call)
          | Some snapshot =>
              let absence := note_absence (voters ∪ learners) snapshot (si_now s) absence in
              (absence,
               if len (gsw_genesis_hash status) =? 32 then
                 Ok (OB_Ready
                       {| pi_group_id := group;
                          pi_genesis_hash := gsw_genesis_hash status;
                          pi_deployment_profile_code := gsw_deployment_profile_code status;
                          pi_membership_log_id := gsw_membership_log_id status;
                          pi_current_voters := voters;
                          pi_current_learners := learners;
                          pi_active_membership_intent := false;
                          pi_grace_crossed_members :=
                            grace_crossed absence (si_now s) (pp_replacement_grace policy);
                          pi_policy := policy;
                          pi_topology := snapshot |} status)
               else Err MGE_GenesisHashWidth)
          end
      | Ok _, Ok _, None => (absence, Err MGE_Call)
      | _, _, _ => (absence, Err MGE_MemberWidth)
      end
  end.

(** ** Reconciliation *)

(** The seeds of the candidates, in order, until the provisioner fails or answers
    for another node. *)
Fixpoint provision_all (group : GroupId) (input : PlacementInput) (provision : ProvisionRequest -> option MemberSeedV1)
    (candidates : list NodeId) (provisioned : gmap NodeId MemberSeedV1) : result (gmap NodeId MemberSeedV1) ManagerError :=
  match candidates with
  | [] => Ok provisioned
  | node :: candidates =>
      match provision (mk_ProvisionRequest group (pp_digest (pi_policy input)) (pi_membership_log_id input) node) with
      | None => Err MGE_Call
      | Some seed =>
          if negb (bool_decide (msv_node_id seed = node)) then Err (MGE_ProvisionedOther node)
          else provision_all group input provision candidates (<[node := seed]> provisioned)
      end
  end.

(** One provisioned seed joins the candidates that still lack one. *)
Definition join_seed (eligible : gmap NodeId PlacementCandidate) (node_seed : NodeId * MemberSeedV1)
    : gmap NodeId PlacementCandidate :=
  match eligible !! node_seed.1 with
  | Some candidate =>
      match pc_member_seed candidate with
      | None => <[node_seed.1 := mk_PlacementCandidate (pc_node_id candidate) (Some node_seed.2)]> eligible
      | Some _ => eligible
      end
  | None => eligible
  end.

Definition with_seeds (input : PlacementInput) (provisioned : gmap NodeId MemberSeedV1) : PlacementInput :=
  let p := pi_policy input in
  let seeds := omap (λ n, (λ seed, (n, seed)) <$> provisioned !! n) (in_order (dom provisioned)) in
  {| pi_group_id := pi_group_id input; pi_genesis_hash := pi_genesis_hash input;
     pi_deployment_profile_code := pi_deployment_profile_code input;
     pi_membership_log_id := pi_membership_log_id input;
     pi_current_voters := pi_current_voters input; pi_current_learners := pi_current_learners input;
     pi_active_membership_intent := pi_active_membership_intent input;
     pi_grace_crossed_members := pi_grace_crossed_members input;
     pi_policy :=
       {| pp_revision := pp_revision p; pp_digest := pp_digest p;
          pp_authority_public_key := pp_authority_public_key p; pp_authority_domain := pp_authority_domain p;
          pp_target_voters := pp_target_voters p;
          pp_target_retained_learners := pp_target_retained_learners p;
          pp_eligible := foldl join_seed (pp_eligible p) seeds;
          pp_pinned_voters := pp_pinned_voters p; pp_excluded := pp_excluded p;
          pp_minimum_separated_voter_pairs := pp_minimum_separated_voter_pairs p;
          pp_replacement_grace := pp_replacement_grace p;
          pp_allow_healthy_rebalance := pp_allow_healthy_rebalance p |};
     pi_topology := pi_topology input |}.

(** The request [submit] hands to the client. *)
Definition submission (operation_id : bytes) (p : PlacementPlan) : ChangeMembershipActionV1 :=
  {| cmv_operation_id := operation_id;
     cmv_expected_membership_log_id := pl_expected_membership_log_id p;
     cmv_desired_voters := map mk_NodeIdV1 (pl_desired_voters p);
     cmv_retained_learners := map mk_NodeIdV1 (pl_retained_learners p);
     cmv_member_seeds := pl_member_seeds p |}.

Section manager.
Context `{Carrier : UnknownCarrier} `{Ext : Externals}.

(** [submit]: the request handed to the client, and the report. *)
Definition submit (pass : Pass) (policy : PlacementPolicy) (status : GroupStatusReplyWireV1) (grace : gset NodeId)
    (p : PlacementPlan) : option ChangeMembershipActionV1 * result PlacementReport ManagerError :=
  match ps_operation_id pass with
  | None => (None, Err MGE_Entropy)
  | Some operation_id =>
      let request := submission operation_id p in
      (Some request,
       match ps_change_membership pass request with
       | None => Err MGE_Call
       | Some (outcome, reason) =>
           let '(pending, why) :=
             if (outcome =? 8)%Z then (Some operation_id, RR_Accepted) else (None, RR_LostRace outcome reason) in
           let report := report_of policy status grace pending why (Some (pl_separation p)) in
           Ok {| rp_policy_revision := rp_policy_revision report; rp_policy_digest := rp_policy_digest report;
                 rp_membership_log_id := rp_membership_log_id report;
                 rp_current_voters := rp_current_voters report; rp_current_learners := rp_current_learners report;
                 rp_selected_voters := pl_desired_voters p; rp_selected_learners := pl_retained_learners p;
                 rp_grace_crossed_members := rp_grace_crossed_members report;
                 rp_separation := rp_separation report;
                 rp_pending_operation_id := rp_pending_operation_id report; rp_reason := rp_reason report |}
       end)
  end.

(** What a pass leaves: the timers, the request it handed over if any, the report. *)
Abbreviation Outcome := (gmap NodeId N * (option ChangeMembershipActionV1 * result PlacementReport ManagerError))%type.

(** [recheck_and_submit]. *)
Definition recheck_and_submit (pass : Pass) (group : GroupId) (absence : gmap NodeId N) (planned : PlannedPass)
    (provisioned : gmap NodeId MemberSeedV1) : Outcome :=
  let '(absence, observed) := observe group absence (ps_second pass) in
  (absence,
   match observed with
   | Err e => (None, Err e)
   | Ok (OB_Stop report) => (None, Ok report)
   | Ok (OB_Ready input status) =>
       let report := report_of (pi_policy input) status (pi_grace_crossed_members input) None in
       if negb (bool_decide (fingerprint_of input = pn_observation planned))
       then (None, Ok (report RR_TupleChanged None))
       else
         let input := with_seeds input provisioned in
         let report := report_of (pi_policy input) status (pi_grace_crossed_members input) None in
         match plan input with
         | PR_Plan p =>
             if bool_decide (pl_desired_voters p = pn_desired_voters planned)
                && bool_decide (pl_retained_learners p = pn_retained_learners planned)
                && bool_decide (selection_evidence input (pn_desired_voters planned) (pn_retained_learners planned)
                                = pn_evidence planned)
             then submit pass (pi_policy input) status (pi_grace_crossed_members input) p
             else (None, Ok (report RR_FactsChanged None))
         | other => (None, Ok (report (RR_Superseded other) (separation_of other)))
         end
   end).

Definition planned_pass (input : PlacementInput) (voters learners : list NodeId) : PlannedPass :=
  mk_PlannedPass (fingerprint_of input) voters learners (selection_evidence input voters learners).

(** [reconcile]. *)
Definition reconcile (group : GroupId) (absence : gmap NodeId N) (pass : Pass) : Outcome :=
  match ps_resume pass with
  | Ok (Some outcome) =>
      (absence, (None, if ps_resume_acknowledged pass then Ok (stub_report (RR_ResumeResolved outcome)) else Err MGE_Call))
  | Err CF_Unavailable => (absence, (None, Ok (stub_report RR_ResumeUnavailable)))
  | Err CF_Transport => (absence, (None, Ok (stub_report RR_ResumeUnreachable)))
  | Err CF_Other => (absence, (None, Err MGE_Call))
  | Ok None =>
      let '(absence, observed) := observe group absence (ps_first pass) in
      match observed with
      | Err e => (absence, (None, Err e))
      | Ok (OB_Stop report) => (absence, (None, Ok report))
      | Ok (OB_Ready input status) =>
          match plan input with
          | PR_NeedsProvisioning candidates voters learners =>
              match provision_all group input (ps_provision pass) (in_order candidates) ∅ with
              | Err e => (absence, (None, Err e))
              | Ok provisioned => recheck_and_submit pass group absence (planned_pass input voters learners) provisioned
              end
          | PR_Plan p =>
              recheck_and_submit pass group absence
                (planned_pass input (pl_desired_voters p) (pl_retained_learners p)) ∅
          | other =>
              (absence, (None, Ok (report_of (pi_policy input) status (pi_grace_crossed_members input) None
                                     (RR_Recommendation other) (separation_of other))))
          end
      end
  end.

(** ** The client's check *)

(** Why a client refuses to journal a plan. *)
Inductive PlanRefusal : Type :=
| CR_Fence
| CR_NodeIdWidth
| CR_AuthorityKey
| CR_GenesisHash
| CR_Shape (limit : ShapeLimit).

(** [narrow_plan]. *)
Definition narrow_plan (voters learners : list NodeIdV1) (seeds : list MemberSeedV1)
    : result MembershipPlan PlanRefusal :=
  let? voters := narrow_all (λ n, narrow_width 32 CR_NodeIdWidth (nv_node_id n)) voters in
  let? learners := narrow_all (λ n, narrow_width 32 CR_NodeIdWidth (nv_node_id n)) learners in
  let? seeds :=
    narrow_all (λ s, let? n := narrow_width 32 CR_NodeIdWidth (msv_node_id s) in
                     Ok (mk_MemberSeed n (msv_ticket s) (msv_signed_join_permit s))) seeds in
  Ok (mk_MembershipPlan voters learners seeds).

(** [change_membership], up to the action it journals: [status] is the cut it
    reads first. *)
Definition checked_change (group : GroupId) (status : GroupStatusReplyWireV1) (request : ChangeMembershipActionV1)
    : result ActionV1 PlanRefusal :=
  if negb (bool_decide (cmv_expected_membership_log_id request = gsw_membership_log_id status)) then Err CR_Fence
  else
    let? p := narrow_plan (cmv_desired_voters request) (cmv_retained_learners request) (cmv_member_seeds request) in
    let members nodes : gset NodeId := list_to_set (filter (λ n, len n = 32) (map nv_node_id nodes)) in
    let committed :=
      mk_CommittedMembership (members (gsw_voters status)) (members (gsw_learners status)) (gsw_membership_joint status) in
    let? key := narrow_width 32 CR_AuthorityKey (gsw_authority_public_key status) in
    let? genesis := narrow_width 32 CR_GenesisHash (gsw_genesis_hash status) in
    let authority := mk_GroupAuthority key (gsw_authority_domain status) group genesis in
    match plan_shape p committed authority (gsw_deployment_profile_code status) with
    | Some limit => Err (CR_Shape limit)
    | None => Ok (AV_ChangeMembership request)
    end.
End manager.
