(* ===== verification/ManagerSafety.v ===== *)
(** * What the manager submits

    A member counts as absent for the grace only after every snapshot taken across
    it missed the member; a pass submits only what two observations agree on; and
    what it submits, the replica it observed accepts. *)

From S2P Require Import Prelude Reason Ids Contract Externals Limits State Tables Ticket Authority Shape.
From S2P Require Import Genesis Membership Apply Wire Boundary Durable Invariant Validation Refinement Scenario.
From S2P Require Import Mirror Store Reads ReadSafety Topology Clusters Placement PlacementSafety Manager.

#[local] Open Scope N_scope.
#[local] Open Scope coordination_scope.

(** ** Absence *)

(** What an observation that takes a snapshot sees: the members and the snapshot. *)
Definition sighted (s : Sight) : option (gset NodeId * SharedView) :=
  match si_status s with
  | Err _ => None
  | Ok status =>
      match node_set (gsw_voters status), node_set (gsw_learners status), si_policy s, si_snapshot s with
      | Ok voters, Ok learners, Some _, Some snapshot =>
          if gsw_membership_joint status || bool_decide (is_Some (gsw_pending_operation_id status)) then None
          else Some (voters ∪ learners, snapshot)
      | _, _, _, _ => None
      end
  end.

Lemma observe_absence group absence s :
  (observe group absence s).1 =
  match sighted s with
  | Some (members, snapshot) => note_absence members snapshot (si_now s) absence
  | None => absence
  end.
Proof. unfold observe, sighted. repeat case_match; simplify_eq/=; done. Qed.

(** What an observation that lets the planner run hands it. *)
Lemma observe_ready group absence s absence' input status :
  observe group absence s = (absence', Ok (OB_Ready input status)) ->
  si_status s = Ok status /\ si_policy s = Some (pi_policy input) /\
  sighted s = Some (pi_current_voters input ∪ pi_current_learners input, pi_topology input) /\
  node_set (gsw_voters status) = Ok (pi_current_voters input) /\
  node_set (gsw_learners status) = Ok (pi_current_learners input) /\
  gsw_membership_joint status = false /\ gsw_pending_operation_id status = None /\
  len (gsw_genesis_hash status) = 32 /\ pi_genesis_hash input = gsw_genesis_hash status /\
  pi_group_id input = group /\ pi_deployment_profile_code input = gsw_deployment_profile_code status /\
  pi_membership_log_id input = gsw_membership_log_id status /\
  pi_grace_crossed_members input = grace_crossed absence' (si_now s) (pp_replacement_grace (pi_policy input)).
Proof.
  unfold observe, sighted. destruct (si_status s) as [st|[]]; [|done..].
  destruct (node_set (gsw_voters st)) as [vs|] eqn:Hvs; [|done].
  destruct (node_set (gsw_learners st)) as [ls|] eqn:Hls; [|done].
  destruct (si_policy s) as [policy|]; [|done].
  destruct (gsw_membership_joint st || _)%bool eqn:Hjoint; [done|].
  destruct (si_snapshot s); [|done]. destruct (N.eqb_spec (len (gsw_genesis_hash st)) 32); [|done]. intros [= <- <- <-].
  apply orb_false_iff in Hjoint as [? Hp%bool_decide_eq_false]. simpl. split_and!; try done.
  by apply eq_None_not_Some.
Qed.

(** The manager's timers after a history of observations, from none. *)
Inductive watched (group : GroupId) : gmap NodeId N -> list Sight -> Prop :=
| watched_new : watched group ∅ []
| watched_observe absence history s :
    watched group absence history -> watched group (observe group absence s).1 (history ++ [s]).

(** [node] was a member outside the snapshot at every sight of [history]. *)
Definition missed (node : NodeId) (history : list Sight) : Prop :=
  forall s members snapshot, s ∈ history -> sighted s = Some (members, snapshot) ->
    node ∈ members /\ contains_hex snapshot (to_hex node) = false.

Lemma note_members snapshot now absence members node :
  NoDup members ->
  foldl (note_member snapshot now) absence members !! node =
  if bool_decide (node ∈ members) then
    if contains_hex snapshot (to_hex node) then None
    else Some (default now (absence !! node))
  else absence !! node.
Proof.
  induction members as [|m members IH] using rev_ind; intros Hnd; [done|].
  apply list.NoDup_app in Hnd as (Hnd & Hm & _). specialize (IH Hnd). rewrite foldl_snoc. unfold note_member at 1.
  destruct (decide (node = m)) as [-> |Hne].
  - rewrite (bool_decide_true (m ∈ members ++ [m])) by (apply elem_of_app; right; by left).
    rewrite bool_decide_false in IH by (intros H; apply (Hm m H); by left).
    destruct (contains_hex snapshot (to_hex m)); [by rewrite lookup_delete_eq|].
    destruct (foldl _ _ _ !! m) as [t|] eqn:Hf; rewrite <- ?IH; [done|by rewrite lookup_insert_eq].
  - assert (foldl (note_member snapshot now) absence members !! node =
            (if contains_hex snapshot (to_hex m) then delete m (foldl (note_member snapshot now) absence members)
             else match foldl (note_member snapshot now) absence members !! m with
                  | Some _ => foldl (note_member snapshot now) absence members
                  | None => <[m := now]> (foldl (note_member snapshot now) absence members)
                  end) !! node) as <-.
    { repeat case_match; rewrite ?lookup_delete_ne, ?lookup_insert_ne by done; done. }
    rewrite IH. replace (bool_decide (node ∈ members ++ [m])) with (bool_decide (node ∈ members)); [done|].
    apply bool_decide_ext. rewrite elem_of_app, list_elem_of_singleton. naive_solver.
Qed.

Lemma note_absence_lookup members snapshot now absence node since :
  note_absence members snapshot now absence !! node = Some since <->
  node ∈ members /\ contains_hex snapshot (to_hex node) = false /\ since = default now (absence !! node).
Proof.
  unfold note_absence. rewrite note_members by apply in_order_NoDup. rewrite map_lookup_filter.
  destruct (decide (node ∈ members)) as [Hm|Hm].
  - rewrite bool_decide_true by (by rewrite elem_of_in_order).
    destruct (contains_hex snapshot (to_hex node)); [naive_solver|].
    destruct (absence !! node) as [t|]; simpl; rewrite ?option_guard_True by done; simpl; naive_solver.
  - rewrite bool_decide_false by (by rewrite elem_of_in_order).
    destruct (absence !! node); simpl; rewrite ?option_guard_False by done; naive_solver.
Qed.

(** A running timer started at a sight of the node's absence, and nothing since
    saw the node. *)
Lemma watched_since group absence history node since :
  watched group absence history -> absence !! node = Some since ->
  exists before s rest, history = before ++ s :: rest /\ is_Some (sighted s) /\ si_now s = since /\
    missed node (s :: rest).
Proof.
  intros Hw. revert since. induction Hw as [|absence history s Hw IH]; intros since; [done|].
  rewrite observe_absence. destruct (sighted s) as [[members snapshot]|] eqn:Hs.
  - intros (Hm & Hc & ->)%note_absence_lookup. destruct (absence !! node) as [t|] eqn:Ha; simpl.
    + destruct (IH t eq_refl) as (before & s0 & rest & -> & Hs0 & <- & Hmiss).
      exists before, s0, (rest ++ [s]). split_and!; [by rewrite <- app_assoc|done..|].
      intros s' ms v Hin Hv. rewrite app_comm_cons, elem_of_app, list_elem_of_singleton in Hin.
      destruct Hin as [Hin| ->]; [by eapply Hmiss|]. rewrite Hs in Hv. by injection Hv as <- <-.
    + exists history, s, []. split_and!; [done|by rewrite Hs|done|].
      intros s' ms v ->%list_elem_of_singleton Hv. rewrite Hs in Hv. by injection Hv as <- <-.
  - intros Ha. destruct (IH since Ha) as (before & s0 & rest & -> & Hs0 & Hn & Hmiss).
    exists before, s0, (rest ++ [s]). split_and!; [by rewrite <- app_assoc|done..|].
    intros s' ms v Hin Hv. rewrite app_comm_cons, elem_of_app, list_elem_of_singleton in Hin.
    destruct Hin as [Hin| ->]; [by eapply Hmiss|]. by rewrite Hs in Hv.
Qed.

Lemma grace_crossed_since absence now grace node :
  node ∈ grace_crossed absence now grace -> exists since, absence !! node = Some since /\ grace <= now - since.
Proof.
  unfold grace_crossed. rewrite elem_of_dom. intros [since [? ?]%map_lookup_filter_Some]. eauto.
Qed.

(** ** Submissions *)

Section submissions.
Context `{Ext : Externals}.

(** What a pass that submits agreed on with itself: it observed twice, the second
    observation carried the first one's policy and membership, and the plan
    computed from it selects what the first one selected, on the same evidence. *)
Record submitted (group : GroupId) (absence : gmap NodeId N) (pass : Pass) (absence' : gmap NodeId N)
    (request : ChangeMembershipActionV1) (first second : PlacementInput) (status : GroupStatusReplyWireV1)
    (provisioned : gmap NodeId MemberSeedV1) (p : PlacementPlan) : Prop := {
  su_first : exists status0, observe group absence (ps_first pass) =
    ((observe group absence (ps_first pass)).1, Ok (OB_Ready first status0));
  su_second : observe group (observe group absence (ps_first pass)).1 (ps_second pass) =
    (absence', Ok (OB_Ready second status));
  su_same : fingerprint_of second = fingerprint_of first;
  su_evidence : selection_evidence (with_seeds second provisioned) (pl_desired_voters p) (pl_retained_learners p) =
    selection_evidence first (pl_desired_voters p) (pl_retained_learners p);
  su_seeds node seed : provisioned !! node = Some seed ->
    msv_node_id seed = node /\ exists asked, ps_provision pass asked = Some seed;
  su_plan : plan (with_seeds second provisioned) = PR_Plan p;
  su_request : exists operation_id, ps_operation_id pass = Some operation_id /\ request = submission operation_id p;
}.

Lemma provision_all_Ok group input provision candidates acc provisioned node seed :
  provision_all group input provision candidates acc = Ok provisioned -> provisioned !! node = Some seed ->
  acc !! node = Some seed \/ (msv_node_id seed = node /\ exists asked, provision asked = Some seed).
Proof.
  revert acc. induction candidates as [|c candidates IH]; intros acc; cbn [provision_all]; [intros [= ->]; auto|].
  destruct (provision _) as [s|] eqn:Hs; [|done]. case_bool_decide as Hid; [|done]. simpl. intros Hok Hn.
  destruct (IH _ Hok Hn) as [Hi|?]; [|by right]. apply lookup_insert_Some in Hi as [[<- <-]|[_ ?]]; [|by left]. eauto.
Qed.

Lemma recheck_submits pass group absence planned provisioned absence' request r :
  recheck_and_submit pass group absence planned provisioned = (absence', (Some request, r)) ->
  exists input status p, observe group absence (ps_second pass) = (absence', Ok (OB_Ready input status)) /\
    fingerprint_of input = pn_observation planned /\ plan (with_seeds input provisioned) = PR_Plan p /\
    pl_desired_voters p = pn_desired_voters planned /\ pl_retained_learners p = pn_retained_learners planned /\
    selection_evidence (with_seeds input provisioned) (pn_desired_voters planned) (pn_retained_learners planned) =
      pn_evidence planned /\
    exists operation_id, ps_operation_id pass = Some operation_id /\ request = submission operation_id p.
Proof.
  unfold recheck_and_submit. destruct (observe _ _ _) as [a [[report|input status]|e]]; [done| |done].
  case_bool_decide as Hf; [|done]. simpl. destruct (plan (with_seeds input provisioned)) as [| | | | | |p] eqn:Hp; try done.
  destruct (_ && _)%bool eqn:Hsame; [|done]. rewrite !andb_true_iff, !bool_decide_eq_true in Hsame.
  destruct Hsame as [[Hv Hl] He]. unfold submit. destruct (ps_operation_id pass) as [op|]; [|done].
  intros [= -> <- _]. exists input, status, p. split_and!; eauto.
Qed.

Lemma reconcile_submits group absence pass absence' request r :
  reconcile group absence pass = (absence', (Some request, r)) ->
  exists first second status provisioned p,
    submitted group absence pass absence' request first second status provisioned p.
Proof.
  unfold reconcile. destruct (ps_resume pass) as [[]|[]]; try done.
  destruct (observe group absence (ps_first pass)) as [a [[report|first status0]|e]] eqn:Ho; [done| |done].
  assert (a = (observe group absence (ps_first pass)).1) as Ha by (by rewrite Ho).
  destruct (plan first) as [| | |cs vs ls| | |q] eqn:Hq; try done.
  - destruct (provision_all _ _ _ _ _) as [prov|] eqn:Hprov; [|done].
    intros (second & status & p & H2 & Hf & Hp & Hv & Hl & He & Hr)%recheck_submits.
    exists first, second, status, prov, p. simpl in *. split; rewrite ?Ho, ?Hv, ?Hl; eauto.
    intros node seed Hn. destruct (provision_all_Ok _ _ _ _ _ _ _ _ Hprov Hn) as [?|?]; done.
  - intros (second & status & p & H2 & Hf & Hp & Hv & Hl & He & Hr)%recheck_submits.
    exists first, second, status, ∅, p. simpl in *. split; rewrite ?Ho, ?Hv, ?Hl; eauto. done.
Qed.

(** Seeds do not change what the policy lists. *)
Lemma join_seed_dom eligible seeds : dom (foldl join_seed eligible seeds) = dom eligible.
Proof.
  revert eligible. induction seeds as [|[n s] seeds IH]; intros eligible; simpl; [done|]. rewrite IH. unfold join_seed. simpl.
  destruct (eligible !! n) as [c|] eqn:Hc; [|done]. case_match; [done|]. apply dom_insert_lookup_L. eauto.
Qed.

Lemma join_seed_lookup eligible seeds n candidate seed :
  foldl join_seed eligible seeds !! n = Some candidate -> pc_member_seed candidate = Some seed ->
  (exists old, eligible !! n = Some old /\ pc_member_seed old = Some seed) \/ (n, seed) ∈ seeds.
Proof.
  revert eligible. induction seeds as [|[m s] seeds IH]; intros eligible; cbn [foldl]; [eauto|]. intros Hc Hs.
  destruct (IH _ Hc Hs) as [(old & Ho & Hos)|Hin]; [|right; by right]. unfold join_seed in Ho. simpl in Ho.
  destruct (eligible !! m) as [c|] eqn:Hm; [|eauto]. destruct (pc_member_seed c) eqn:Hcs; [eauto|].
  apply lookup_insert_Some in Ho as [[<- <-]|[_ ?]]; [|eauto]. injection Hos as ->. right. by left.
Qed.

Lemma with_seeds_fits input provisioned :
  policy_fits (pi_policy input) -> (forall n seed, provisioned !! n = Some seed -> seed_fits seed) ->
  policy_fits (pi_policy (with_seeds input provisioned)).
Proof.
  intros [Hw Hr Hs] Hp. split; simpl; rewrite ?join_seed_dom; [done..|].
  intros n c seed Hc Hcs. destruct (join_seed_lookup _ _ _ _ _ Hc Hcs) as [(old & ? & ?)|Hin]; [by eapply Hs|].
  apply list_elem_of_omap in Hin as (m & _ & Hm). apply fmap_Some in Hm as (s & Hs' & [= -> ->]). by eapply Hp.
Qed.
End submissions.

(** ** What an automatic submission drops *)

Section drops.
Context `{Ext : Externals}.

(** [v] was missed by every snapshot taken over the last [grace] of [history]. *)
Definition missed_for (grace : N) (history : list Sight) (v : NodeId) : Prop :=
  exists before first rest last,
    history = before ++ first :: rest /\ list.last history = Some last /\ is_Some (sighted first) /\
    grace <= si_now last - si_now first /\ missed v (first :: rest).

Lemma watched_grace group absence history s absence' input status v :
  watched group absence history -> observe group absence s = (absence', Ok (OB_Ready input status)) ->
  v ∈ pi_grace_crossed_members input ->
  missed_for (pp_replacement_grace (pi_policy input)) (history ++ [s]) v.
Proof.
  intros Hw Ho. pose proof (watched_observe _ _ _ s Hw) as Hw'. rewrite Ho in Hw'. simpl in Hw'.
  apply observe_ready in Ho as (_ & _ & _ & _ & _ & _ & _ & _ & _ & _ & _ & _ & ->).
  intros (since & Hs & Hg)%grace_crossed_since.
  destruct (watched_since _ _ _ _ _ Hw' Hs) as (before & first & rest & Hh & Hsi & <- & Hm).
  exists before, first, rest, s. split_and!; [done|by rewrite last_snoc|done..].
Qed.

(** C21: What an automatic pass submits replaces at most one voter. When the pins
    leave room for the voters the policy protects, the one it drops is a node the
    policy no longer lists, one it excludes, or one that every snapshot this manager
    took over the whole replacement grace missed while it was a member, whatever
    the manager reconciled before and however it failed. *)
Theorem dropped_voter_was_absent group absence history pass absence' request r :
  watched group absence history -> reconcile group absence pass = (absence', (Some request, r)) ->
  exists input status operation_id p,
    observe group (observe group absence (ps_first pass)).1 (ps_second pass) = (absence', Ok (OB_Ready input status)) /\
    request = submission operation_id p /\
    let desired : gset NodeId := list_to_set (map nv_node_id (cmv_desired_voters request)) in
    let current := pi_current_voters input in
    let policy := pi_policy input in
    (explicit input = false ->
     (size (desired ∖ current) <= 1)%nat /\ (size (current ∖ desired) <= 1)%nat /\
     (N.of_nat (size (pp_pinned_voters policy ∪ protected input)) <= pp_target_voters policy ->
      forall v, v ∈ current ∖ desired ->
        v ∉ dom (pp_eligible policy) \/ v ∈ pp_excluded policy \/
        missed_for (pp_replacement_grace policy) (history ++ [ps_first pass; ps_second pass]) v)).
Proof.
  intros Hw (first & input & status & prov & p & Hsu)%reconcile_submits.
  destruct (su_request _ _ _ _ _ _ _ _ _ _ Hsu) as (op & _ & ->). pose proof (su_second _ _ _ _ _ _ _ _ _ _ Hsu) as Ho.
  exists input, status, op, p. split_and!; [done..|]. cbv zeta. intros Hx. simpl. rewrite map_map. simpl. rewrite map_id.
  destruct (automatic_plan_replaces_one (with_seeds input prov) p (su_plan _ _ _ _ _ _ _ _ _ _ Hsu) Hx)
    as (Hnew & Hout & Hdrop).
  split_and!; [done..|]. simpl in Hdrop. rewrite join_seed_dom in Hdrop.
  replace (protected (with_seeds input prov)) with (protected input) in Hdrop
    by (unfold protected, retainable; simpl; by rewrite join_seed_dom).
  intros Hroom v Hv. destruct (Hdrop Hroom v Hv) as [?|[?|Hg]]; [by auto..|]. right; right.
  pose proof (watched_observe _ _ _ (ps_first pass) Hw) as Hw1.
  pose proof (watched_grace _ _ _ _ _ _ _ v Hw1 Ho Hg) as Hm. by rewrite <- app_assoc in Hm.
Qed.
End drops.

(** ** Narrowing *)

Section narrow.
Context `{Carrier : UnknownCarrier} `{Ext : Externals}.

Lemma seeds_roundtrip {E} (f : MemberSeedV1 -> result MemberSeed E) seeds :
  (forall s, s ∈ seeds -> f s = Ok (plan_seed s)) -> narrow_all f seeds = Ok (map plan_seed seeds).
Proof.
  induction seeds as [|s seeds IH]; intros Hf; simpl; [done|]. rewrite Hf by left. rewrite IH; [done|].
  intros s' Hs'. apply Hf. by right.
Qed.

(** Every node a plan names is one the policy lists. *)
Lemma plan_listed input p n :
  plan input = PR_Plan p ->
  n ∈ pl_desired_voters p ++ pl_retained_learners p ++ map msv_node_id (pl_member_seeds p) ->
  n ∈ dom (pp_eligible (pi_policy input)).
Proof.
  intros (best & Hv & Hp & Hsub & _)%plan_best. destruct (chosen_learners_spec input (sc_voters best)) as [_ Hl].
  assert (forall n, n ∈ sc_voters best ∪ chosen_learners input (sc_voters best) -> n ∈ dom (pp_eligible (pi_policy input))) as Hall.
  { intros m [Hm|Hm]%elem_of_union.
    - specialize (Hsub m Hm). apply elem_of_list_to_set, ordered_universe_elem, universe_eligible in Hsub. apply Hsub.
    - destruct (Hl m Hm) as [Hr _]. unfold retainable in Hr. by apply andb_true_iff in Hr as [?%bool_decide_eq_true _]. }
  rewrite !elem_of_app, (po_voters _ _ _ _ Hp), (po_learners _ _ _ _ Hp), (po_seed_ids _ _ _ _ Hp).
  rewrite list_elem_of_filter, !elem_of_in_order. intros Hn. apply Hall. set_solver.
Qed.

Section narrowing.
Context (input : PlacementInput) (p : PlacementPlan).
Context (Hplan : plan input = PR_Plan p) (Hfit : policy_fits (pi_policy input)).

Lemma listed_width n :
  n ∈ pl_desired_voters p ++ pl_retained_learners p ++ map msv_node_id (pl_member_seeds p) -> len n = 32.
Proof using Hplan Hfit. intros Hn. apply (pf_width _ Hfit). by eapply plan_listed. Qed.

Lemma named_narrow {E} (e : E) nodes :
  nodes ⊆ pl_desired_voters p ++ pl_retained_learners p ++ map msv_node_id (pl_member_seeds p) ->
  narrow_all (λ n, narrow_width 32 e (nv_node_id n)) (map mk_NodeIdV1 nodes) = Ok nodes.
Proof using Hplan Hfit.
  intros Hsub. apply narrow_all_roundtrip. intros n Hn. simpl. by rewrite narrow_width_same by (by apply listed_width, Hsub).
Qed.

Lemma seeds_narrow {E} (e : E) :
  narrow_all (λ s, let? n := narrow_width 32 e (msv_node_id s) in
                   Ok (mk_MemberSeed n (msv_ticket s) (msv_signed_join_permit s))) (pl_member_seeds p) =
  Ok (map plan_seed (pl_member_seeds p)).
Proof using Hplan Hfit.
  apply seeds_roundtrip. intros s Hs. rewrite narrow_width_same; [done|]. apply listed_width.
  rewrite !elem_of_app. right; right. by apply list_elem_of_fmap_2.
Qed.

Lemma submission_narrows operation_id expected :
  len operation_id = 16 -> narrow_option narrow_log_id (pl_expected_membership_log_id p) = Ok expected ->
  action_from_wire (AV_ChangeMembership (submission operation_id p)) =
  Ok (A_ChangeMembership (mk_ChangeMembershipAction operation_id expected (membership_plan_of p))).
Proof using Hplan Hfit.
  intros Hop Hexp. simpl. unfold narrow_client_id. rewrite narrow_width_same by done. simpl. rewrite Hexp. simpl.
  unfold narrow_node_id. rewrite !named_narrow by set_solver. simpl. unfold narrow_seed, narrow_node_id.
  by rewrite seeds_narrow.
Qed.

Lemma plan_narrows :
  narrow_plan (map mk_NodeIdV1 (pl_desired_voters p)) (map mk_NodeIdV1 (pl_retained_learners p)) (pl_member_seeds p) =
  Ok (membership_plan_of p).
Proof using Hplan Hfit.
  unfold narrow_plan. rewrite !named_narrow by set_solver. simpl. by rewrite seeds_narrow.
Qed.
End narrowing.
End narrow.

(** ** What the replica answers *)

Section answers.
Context `{Carrier : UnknownCarrier} `{Ext : Externals} {Requests : ReadCodec}.
Context (op_of_hash : Hash -> Z).

Lemma node_set_same nodes ids :
  node_set nodes = Ok ids -> ids = list_to_set (map nv_node_id nodes) /\ forall n, n ∈ map nv_node_id nodes -> len n = 32.
Proof.
  unfold node_set. destruct (narrow_all _ nodes) as [l|] eqn:Hl; [|done]. intros [= <-].
  enough (l = map nv_node_id nodes /\ forall n, n ∈ map nv_node_id nodes -> len n = 32) as [-> ?] by done.
  revert l Hl. induction nodes as [|n nodes IH]; intros l; simpl; [intros [= <-]; split; [done|intros ? []%not_elem_of_nil]|].
  unfold narrow_width at 1. destruct (N.eqb_spec (len (nv_node_id n)) 32) as [Hw|]; simpl; [|done].
  destruct (narrow_all _ nodes) as [l'|]; simpl; [|done]. intros [= <-]. destruct (IH l' eq_refl) as [-> Hall].
  split; [done|]. intros m [-> |?]%elem_of_cons; auto.
Qed.

(** An answered status is the state's own, to an administrator of it. *)
Lemma group_status_facts d t rt actor frame effects status :
  reachable op_of_hash d t -> ru_version rt = Some (version_of d t) ->
  group_status rt actor frame = (effects, Ok status) ->
  let s := ds_model d in
  is_administrator s actor = true /\
  gsw_deployment_profile_code status = st_deployment_profile_code s /\
  gsw_membership_log_id status = log_id_to_wire <$> st_membership_log_id s /\
  gsw_voters status = map mk_NodeIdV1 (in_order (cm_voters (st_membership s))) /\
  gsw_learners status = map mk_NodeIdV1 (in_order (cm_learners (st_membership s))) /\
  gsw_membership_joint status = cm_joint (st_membership s) /\
  (gsw_pending_operation_id status = None ->
   forall id i, st_intents s !! id = Some i -> is_terminal_phase (in_status_code i) = true) /\
  gsw_genesis_hash status = ga_genesis_hash (st_authority s) /\
  gsw_authority_public_key status = ga_public_key (st_authority s) /\
  gsw_authority_domain status = ga_domain (st_authority s).
Proof.
  intros [[_ Hmeta] Ht]%reachable_inv Hv. unfold group_status, decoded_request, check_version.
  destruct (decode_group_status frame); [|done]. case_match; [done|].
  intros (v & Hv' & Hadm & Hk)%administrator_cut_Ok. rewrite Hv in Hv'. injection Hv' as <-. injection Hk as <- <-.
  cbv zeta. rewrite Ht, served_administrator in Hadm. simpl.
  rewrite (mk_projection _ _ Hmeta), (mk_log_id _ _ Hmeta), learners_of. split_and!; try done.
  intros Hp%fmap_None id i Hi. eapply no_active_intent; [done|]. simpl. by rewrite Ht.
Qed.
(** The second observation of a submitting pass is the replica's own state. *)
Lemma submitted_observes d t rt actor frame effects group absence s absence' input status provisioned :
  reachable op_of_hash d t -> ru_version rt = Some (version_of d t) ->
  group_status rt actor frame = (effects, Ok status) ->
  observe group absence s = (absence', Ok (OB_Ready input status)) ->
  group = ga_group_id (st_authority (ds_model d)) ->
  pp_authority_public_key (pi_policy input) = ga_public_key (st_authority (ds_model d)) ->
  pp_authority_domain (pi_policy input) = ga_domain (st_authority (ds_model d)) ->
  log_ids_typed (st_membership_log_id (ds_model d)) ->
  observes (with_seeds input provisioned) (ds_model d).
Proof.
  intros Hr Hv Hg Ho Hgroup Hkey Hdom Hids.
  destruct (group_status_facts _ _ _ _ _ _ _ Hr Hv Hg) as (_ & Hprof & Hlog & Hvs & Hls & _ & Hidle & Hgen & _ & _).
  apply observe_ready in Ho as (_ & _ & _ & Hnv & Hnl & _ & Hnone & _ & Hig & Hid & Hip & Hil & _).
  apply node_set_same in Hnv as [Hnv _], Hnl as [Hnl _].
  rewrite Hvs, map_map in Hnv. rewrite Hls, map_map in Hnl. simpl in Hnv, Hnl. rewrite map_id in Hnv, Hnl.
  split; simpl; [|congruence| | | |by apply Hidle].
  - unfold policy_authority. simpl. rewrite Hkey, Hdom, Hid, Hig, Hgen, Hgroup. by destruct (st_authority (ds_model d)).
  - rewrite Hnv. apply set_eq. intros n. by rewrite elem_of_list_to_set, elem_of_in_order.
  - rewrite Hnl. apply set_eq. intros n. by rewrite elem_of_list_to_set, elem_of_in_order.
  - rewrite Hil, Hlog. destruct (st_membership_log_id (ds_model d)) as [[term leader index]|]; [|done].
    assert (len leader = 32) as Hw by (by apply (Hids _ eq_refl)). unfold narrow_log_id, log_id_from_wire, wire_node_id. simpl.
    by rewrite narrow_width_same.
Qed.

(** A plan adds at most two voters and two learners to the learners there are. *)
Lemma planned_envelope input p s :
  plan input = PR_Plan p -> observes input s ->
  projected_learners (cm_learners (st_membership s)) (cm_members (st_membership s))
    (pl_desired_voters p) (pl_retained_learners p) <= N.of_nat (size (cm_learners (st_membership s))) + 4.
Proof.
  intros (best & Hv & Hp & _ & _ & _ & Hnew)%plan_best Hob. unfold projected_learners.
  destruct (chosen_learners_spec input (sc_voters best)) as [Hl _]. pose proof (pv_learners _ Hv) as Hmax.
  pose proof (cap_bound input) as Hcap. unfold MAX_NEW_VOTERS in Hcap. unfold MAX_RETAINED_LEARNERS in Hmax.
  set (learners := chosen_learners _ _) in *.
  assert (cm_learners (st_membership s) ∪ list_to_set (filter (λ n, n ∉ cm_members (st_membership s))
            (pl_desired_voters p ++ pl_retained_learners p)) ⊆
          cm_learners (st_membership s) ∪ (sc_voters best ∖ pi_current_voters input) ∪ learners) as Hsub.
  { intros n. rewrite (po_voters _ _ _ _ Hp), (po_learners _ _ _ _ Hp), (ob_voters _ _ Hob).
    rewrite !elem_of_union, elem_of_list_to_set, list_elem_of_filter, elem_of_app, !elem_of_in_order. unfold cm_members. set_solver. }
  apply subseteq_size in Hsub. pose proof (size_union_alt (cm_learners (st_membership s) ∪ (sc_voters best ∖ pi_current_voters input)) learners) as H1.
  pose proof (size_union_alt (cm_learners (st_membership s)) (sc_voters best ∖ pi_current_voters input)) as H2.
  assert (forall a b : gset NodeId, size (a ∖ b) <= size a)%nat as Hd by (intros; apply subseteq_size; set_solver).
  pose proof (Hd learners (cm_learners (st_membership s) ∪ (sc_voters best ∖ pi_current_voters input))).
  pose proof (Hd (sc_voters best ∖ pi_current_voters input) (cm_learners (st_membership s))). lia.
Qed.

(** The client's check passes on a submission planned from the status it reads. *)
Lemma planned_checked input p s group status operation_id :
  plan input = PR_Plan p -> policy_fits (pi_policy input) -> observes input s ->
  pl_expected_membership_log_id p = gsw_membership_log_id status ->
  node_set (gsw_voters status) = Ok (cm_voters (st_membership s)) ->
  node_set (gsw_learners status) = Ok (cm_learners (st_membership s)) ->
  gsw_membership_joint status = cm_joint (st_membership s) ->
  gsw_deployment_profile_code status = st_deployment_profile_code s ->
  gsw_authority_public_key status = ga_public_key (st_authority s) -> len (ga_public_key (st_authority s)) = 32 ->
  gsw_authority_domain status = ga_domain (st_authority s) ->
  gsw_genesis_hash status = ga_genesis_hash (st_authority s) -> len (gsw_genesis_hash status) = 32 ->
  group = ga_group_id (st_authority s) ->
  checked_change group status (submission operation_id p) = Ok (AV_ChangeMembership (submission operation_id p)).
Proof.
  intros Hp Hfit Hob Hexp Hvs Hls Hj Hprof Hk Hk32 Hdom Hgen Hg32 Hgroup. unfold checked_change. simpl.
  rewrite bool_decide_true by done. simpl. rewrite (plan_narrows _ _ Hp Hfit). simpl.
  rewrite Hk, !narrow_width_same by done. simpl.
  assert (forall nodes ids, node_set nodes = Ok ids -> list_to_set (filter (λ n, len n = 32) (map nv_node_id nodes)) = ids) as Hset.
  { intros nodes ids [-> Hw]%node_set_same. by rewrite filter_every. }
  rewrite (Hset _ _ Hvs), (Hset _ _ Hls), Hj, Hprof, Hdom, Hgroup, Hgen.
  replace (mk_CommittedMembership _ _ _) with (st_membership s) by (by destruct (st_membership s)).
  replace (mk_GroupAuthority _ _ _ _) with (st_authority s) by (by destruct (st_authority s)).
  by rewrite (plan_accepted_shape _ _ _ _ (planned_shape _ _ _ Hfit Hob Hp)).
Qed.

(** What the replica decides on a plan from its own state. *)
Lemma planned_decision input p s actor hash operation_id :
  plan input = PR_Plan p -> policy_fits (pi_policy input) -> observes input s -> is_administrator s actor = true ->
  st_intents s !! operation_id = None ->
  match decide_change s actor hash (mk_ChangeMembershipAction operation_id (st_membership_log_id s) (membership_plan_of p)) with
  | MD_Apply _ => True
  | MD_Refuse reason =>
      reason = StateBudgetExhausted \/
      reason = MembershipLearnerEnvelope /\ 2 < N.of_nat (size (cm_learners (st_membership s)))
  | _ => False
  end.
Proof.
  intros Hp Hfit Hob Hadm Hfresh. unfold decide_change. rewrite Hadm. simpl. rewrite Hfresh, bool_decide_true by done. simpl.
  rewrite (plan_accepted_shape _ _ _ _ (planned_shape _ _ _ Hfit Hob Hp)).
  destruct (existsb _ _) eqn:Hx.
  { apply existsb_exists in Hx as ([id i] & Hi%list_elem_of_In & Ht). apply elem_of_map_to_list in Hi.
    simpl in Ht. by rewrite (ob_idle _ _ Hob id i Hi) in Ht. }
  pose proof (planned_envelope _ _ _ Hp Hob) as He. destruct (N.ltb_spec MAX_LEARNER_ENVELOPE
    (projected_learners (cm_learners (st_membership s)) (cm_members (st_membership s)) (pl_desired_voters p) (pl_retained_learners p))) as [Hl|Hl].
  - right. split; [done|]. change MAX_LEARNER_ENVELOPE with 6 in Hl. lia.
  - destruct (negb (state_growth_fits _ _)); [by left|done].
Qed.

(** C19: A pass that submits, having observed the group through one of its
    replicas, submits a change that replica accepts, under these conditions on what
    the application supplies: the policy carries the authority key and domain of the
    group itself, as its fields ask for; its eligible nodes have the width of an id
    and the authority's own key is not among them; the seeds it lists and those the
    provisioner returns are within the wire's sizes; and the operation id is one the
    group has not stored. Then the request narrows; the client's own check against
    the same status passes; and in the state the status was read from, the change is
    applied unless the state is out of room for its row, or the group already has
    more learners than a settled one retains and the envelope is full. The topology,
    the timers and the rest of the policy are arbitrary. The planner itself does not
    compare the policy's authority with the group's nor refuse an eligible authority
    key: such a plan is stopped by the client's check or by the group. *)
Theorem submitted_change_accepted d t rt actor frame effects status group absence pass absence' request r policy
    operation_id hash :
  reachable op_of_hash d t -> ru_version rt = Some (version_of d t) ->
  log_ids_typed (st_membership_log_id (ds_model d)) -> len (ga_public_key (st_authority (ds_model d))) = 32 ->
  group = ga_group_id (st_authority (ds_model d)) ->
  group_status rt actor frame = (effects, Ok status) -> si_status (ps_second pass) = Ok status ->
  si_policy (ps_second pass) = Some policy -> policy_fits policy ->
  pp_authority_public_key policy = ga_public_key (st_authority (ds_model d)) ->
  pp_authority_domain policy = ga_domain (st_authority (ds_model d)) ->
  (forall asked seed, ps_provision pass asked = Some seed -> seed_fits seed) ->
  ps_operation_id pass = Some operation_id -> len operation_id = 16 ->
  st_intents (ds_model d) !! operation_id = None ->
  reconcile group absence pass = (absence', (Some request, r)) ->
  exists change,
    action_from_wire (AV_ChangeMembership request) = Ok (A_ChangeMembership change) /\
    checked_change group status request = Ok (AV_ChangeMembership request) /\
    match decide_change (ds_model d) actor hash change with
    | MD_Apply _ => True
    | MD_Refuse reason =>
        reason = StateBudgetExhausted \/
        reason = MembershipLearnerEnvelope /\ 2 < N.of_nat (size (cm_learners (st_membership (ds_model d))))
    | _ => False
    end.
Proof.
  intros Hr Hv Hids Hk32 Hgroup Hg Hst Hpol Hfit Hkey Hdom Hprov Hop Hop16 Hfresh.
  intros (first & input & status' & prov & p & Hsu)%reconcile_submits.
  destruct (su_request _ _ _ _ _ _ _ _ _ _ Hsu) as (op & Hop' & ->). rewrite Hop in Hop'. injection Hop' as <-.
  pose proof (su_second _ _ _ _ _ _ _ _ _ _ Hsu) as Ho. pose proof (su_plan _ _ _ _ _ _ _ _ _ _ Hsu) as Hp.
  pose proof (observe_ready _ _ _ _ _ _ Ho) as (Hst' & Hpol' & _ & Hnv & Hnl & Hj & _ & Hgw & Hig & _ & Hip & Hil & _).
  rewrite Hst in Hst'. injection Hst' as <-. rewrite Hpol in Hpol'. injection Hpol' as ->.
  assert (policy_fits (pi_policy (with_seeds input prov))) as Hfit'.
  { apply with_seeds_fits; [done|]. intros n seed (_ & asked & ?)%(su_seeds _ _ _ _ _ _ _ _ _ _ Hsu). by eapply Hprov. }
  pose proof (submitted_observes _ _ _ _ _ _ _ _ _ _ _ _ prov Hr Hv Hg Ho Hgroup Hkey Hdom Hids) as Hob.
  pose proof (planned_shape _ _ _ Hfit' Hob Hp) as Hshape.
  assert (pl_expected_membership_log_id p = gsw_membership_log_id status) as Hexp.
  { destruct (plan_best _ _ Hp) as (best & _ & Hpo & _). rewrite (po_expected _ _ _ _ Hpo). simpl. done. }
  destruct (group_status_facts _ _ _ _ _ _ _ Hr Hv Hg) as (Hadm & Hprof & _ & Hvs & Hls & Hjs & _ & Hgen & Hpk & Hpd).
  exists (mk_ChangeMembershipAction operation_id (st_membership_log_id (ds_model d)) (membership_plan_of p)). split_and!.
  - apply (submission_narrows (with_seeds input prov)); [done..|]. rewrite Hexp, <- Hil. apply (ob_log_id _ _ Hob).
  - apply (planned_checked (with_seeds input prov) p (ds_model d)); try done.
    + rewrite Hnv. f_equal. apply (ob_voters _ _ Hob).
    + rewrite Hnl. f_equal. apply (ob_learners _ _ Hob).
  - by apply (planned_decision (with_seeds input prov)).
Qed.
End answers.

(** ** A replacement *)

#[local] Instance manager_externals : Externals := founding_externals.
#[local] Instance manager_carrier : UnknownCarrier := unit.
#[local] Instance manager_requests : ReadCodec := {
  decode_read _ := None;
  decode_acl_status _ := None;
  decode_admin_status _ := None;
  decode_membership_status _ := None;
  decode_probe_client _ := None;
  decode_group_status _ := Some (mk_GroupStatusRequestV1 1 (replicate 32 Byte.x05));
  decode_audit_stream _ := None;
}.

(** The only voter has been absent for the grace; a provisioned candidate is in view. *)
Definition replacement_policy : PlacementPolicy :=
  {| pp_revision := 1; pp_digest := []; pp_authority_public_key := sample_root; pp_authority_domain := [Byte.x64];
     pp_target_voters := 1; pp_target_retained_learners := 0;
     pp_eligible := <[sample_admin := mk_PlacementCandidate sample_admin None]>
       {[sample_voter := mk_PlacementCandidate sample_voter
           (Some (mk_MemberSeedV1 sample_voter sample_seed_ticket (Some [])))]};
     pp_pinned_voters := ∅; pp_excluded := ∅; pp_minimum_separated_voter_pairs := 0;
     pp_replacement_grace := 60; pp_allow_healthy_rebalance := false |}.

Definition replacement_view : SharedView :=
  from_parts [mk_CoreClusterView [to_hex sample_voter] (to_hex sample_voter) []] [] 0.

(** A founded group whose only voter is now [sample_admin], and its status. *)
Definition manager_entries : list (LogId * Payload) :=
  run_entries 2 ++ [(at_index 3, P_Membership (mk_RaftMembership [{[sample_admin]}] {[sample_admin]}))].

Definition manager_batch : result (list EntryReply * DurableState * StoredTables) ApplyError :=
  apply_batch manager_entries run_store (tables_of run_initial).

Definition manager_runtime (d : DurableState) (t : StoredTables) : ReadRuntime :=
  {| ru_group := replicate 32 Byte.x05; ru_local := sample_voter;
     ru_metrics := mk_RaftMetrics SV_Leader (Some sample_voter) 1 (Some 10);
     ru_leadership := LD_Confirmed (Some (at_index 2)); ru_admin_view := admin_view_of d;
     ru_version := Some (version_of d t); ru_lifecycle_code := 0; ru_local_role_code := 2;
     ru_quorum_available := Some true; ru_fatal_code := 0; ru_last_log := None; ru_committed := None |}.

Definition manager_status : result GroupStatusReplyWireV1 CallFailure :=
  match manager_batch with
  | Ok (_, d, t) =>
      match group_status (manager_runtime d t) sample_admin [] with
      | (_, Ok status) => Ok status
      | (_, Err _) => Err CF_Other
      end
  | Err _ => Err CF_Other
  end.

Definition manager_group : GroupId := replicate 32 Byte.x05.
Definition manager_sight (now : N) : Sight := mk_Sight manager_status (Some replacement_policy) (Some replacement_view) now.

(** The pass after the grace, and the timers of a sight before it. *)
Definition manager_pass : Pass :=
  {| ps_resume := Ok None; ps_resume_acknowledged := true; ps_first := manager_sight 100;
     ps_provision := λ _, None; ps_second := manager_sight 101; ps_operation_id := Some (replicate 16 Byte.x03);
     ps_change_membership := λ _, Some (8%Z, 0%Z) |}.
Definition manager_absence : gmap NodeId N := (observe manager_group ∅ (manager_sight 0)).1.

Lemma dropped_voter_was_absent_witness :
  exists request, (reconcile manager_group manager_absence manager_pass).2.1 = Some request /\
    cmv_desired_voters request = [mk_NodeIdV1 sample_voter] /\
    missed_for 60 [manager_sight 0; manager_sight 100; manager_sight 101] sample_admin.
Proof.
  assert (match reconcile manager_group manager_absence manager_pass with
          | (_, (Some request, _)) => cmv_desired_voters request = [mk_NodeIdV1 sample_voter]
          | _ => False
          end) as Hrun by (vm_compute; reflexivity).
  destruct (reconcile manager_group manager_absence manager_pass) as [a [[request|] r]] eqn:E; [|contradiction Hrun].
  exists request. split; [reflexivity|]. split; [exact Hrun|].
  destruct (dropped_voter_was_absent manager_group manager_absence [manager_sight 0] manager_pass a request r
    (watched_observe manager_group ∅ [] (manager_sight 0) (watched_new manager_group)) E)
    as (input & status & op & p & Ho & -> & Hdrop).
  assert (match (observe manager_group (observe manager_group manager_absence (ps_first manager_pass)).1
                   (ps_second manager_pass)).2 with
          | Ok (OB_Ready input _) =>
              negb (explicit input) && bool_decide (pi_current_voters input = {[sample_admin]})
              && bool_decide (protected input = ∅)
          | _ => false
          end = true) as Hin by (vm_compute; reflexivity).
  rewrite Ho in Hin. simpl in Hin. rewrite !andb_true_iff, negb_true_iff, !bool_decide_eq_true in Hin.
  destruct Hin as [[Hx Hcur] Hprot].
  assert (pi_policy input = replacement_policy) as Hpol.
  { apply observe_ready in Ho as (_ & Hpol & _). by injection Hpol. }
  destruct (Hdrop Hx) as (_ & _ & Hd). rewrite Hrun, Hcur, Hpol, Hprot in Hd.
  destruct (Hd ltac:(vm_compute; discriminate) sample_admin) as [Hno|[Hno|Hm]].
  - apply (bool_decide_eq_true_1 _). vm_compute. reflexivity.
  - destruct Hno. apply (bool_decide_eq_true_1 _). vm_compute. reflexivity.
  - exfalso. revert Hno. apply (bool_decide_eq_false_1 _). vm_compute. reflexivity.
  - exact Hm.
Defined.

Lemma manager_wf : log_wf run_op PROFILE_DEV_SINGLE None manager_entries.
Proof.
  assert (membership_ok PROFILE_DEV_SINGLE run_membership /\
          membership_ok PROFILE_DEV_SINGLE (mk_RaftMembership [{[sample_admin]}] {[sample_admin]})) as [H1 H2].
  { split; (split_and!; [done|done|]; by intros c ->%list_elem_of_singleton). }
  unfold manager_entries, run_entries. simpl. split_and!; try done; by intros l [= <-].
Qed.

Lemma replacement_fits : policy_fits replacement_policy.
Proof.
  split.
  - intros n Hn. unfold replacement_policy in Hn. simpl in Hn. rewrite dom_insert_L, dom_singleton_L in Hn.
    apply elem_of_union in Hn as [->%elem_of_singleton| ->%elem_of_singleton]; reflexivity.
  - apply (bool_decide_unpack _). by vm_compute.
  - intros n c seed Hc Hs. unfold replacement_policy in Hc. simpl in Hc.
    apply lookup_insert_Some in Hc as [[<- <-]|[_ [<- <-]%lookup_singleton_Some]]; [done|].
    injection Hs as <-. split; [by vm_compute|]. intros permit [= <-]. by vm_compute.
Qed.

#[local] Instance GroupAuthority_eq_dec : EqDecision GroupAuthority.
Proof. solve_decision. Defined.

Lemma submitted_change_accepted_witness :
  match manager_batch with
  | Ok (_, d, t) =>
      exists status request change,
        group_status (manager_runtime d t) sample_admin [] = ([], Ok status) /\
        (reconcile manager_group manager_absence manager_pass).2.1 = Some request /\
        action_from_wire (AV_ChangeMembership request) = Ok (A_ChangeMembership change) /\
        checked_change manager_group status request = Ok (AV_ChangeMembership request)
  | Err _ => False
  end.
Proof.
  assert (match manager_batch with
          | Ok (_, d, t) =>
              match group_status (manager_runtime d t) sample_admin [], reconcile manager_group manager_absence manager_pass with
              | ([], Ok _), (_, (Some _, _)) =>
                  bool_decide (st_membership_log_id (ds_model d) = Some (at_index 3))
                  && bool_decide (st_authority (ds_model d) = founding_authority)
                  && bool_decide (st_intents (ds_model d) !! replicate 16 Byte.x03 = None)
              | _, _ => false
              end
          | Err _ => false
          end = true) as Hrun by (vm_compute; reflexivity).
  destruct manager_batch as [[[r d] t]|] eqn:E; [|discriminate Hrun].
  destruct (group_status (manager_runtime d t) sample_admin []) as [[|? ?] [status|?]] eqn:Hg;
    [|discriminate Hrun..].
  destruct (reconcile manager_group manager_absence manager_pass) as [a [[request|] r']] eqn:Hrec; [|discriminate Hrun].
  rewrite !andb_true_iff, !bool_decide_eq_true in Hrun. destruct Hrun as [[Hid Hauth] Hfresh].
  assert (si_status (ps_second manager_pass) = Ok status) as Hst.
  { simpl. unfold manager_status. rewrite E, Hg. reflexivity. }
  destruct (submitted_change_accepted run_op d t (manager_runtime d t) sample_admin [] [] status manager_group
    manager_absence manager_pass a request r' replacement_policy (replicate 16 Byte.x03) []) as (change & Hc & Hch & _).
  - exact (reach_batch _ _ _ _ _ _ _ run_bound manager_wf E).
  - reflexivity.
  - rewrite Hid. intros id [= <-]. reflexivity.
  - rewrite Hauth. reflexivity.
  - rewrite Hauth. reflexivity.
  - exact Hg.
  - exact Hst.
  - reflexivity.
  - exact replacement_fits.
  - rewrite Hauth. reflexivity.
  - rewrite Hauth. reflexivity.
  - intros asked seed [=].
  - reflexivity.
  - reflexivity.
  - exact Hfresh.
  - exact Hrec.
  - exists status, request, change. split; [reflexivity|]. split; [reflexivity|]. split; [exact Hc|exact Hch].
Defined.
