(* ===== verification/Canonical.v ===== *)
(** * The canonical byte primitives

    Models [core/src/canonical.rs]: the [write_*] helpers that append one field to
    a buffer and the [read_*] helpers that take one field off a slice at a cursor.
    A writer is the bytes it appends; a reader takes the whole slice and the
    cursor, as the source does, and its outcome separates the two ways a call can
    fail: an error value ([Failed]) and a panic ([Panicked], an index or a range
    outside the slice). [usize] is 64 bits and its sums wrap, as in a release
    build. A [String] is its UTF-8 bytes, a [f64] its 64-bit pattern.

    The interface [Reader] says what a reader promises to the decoders built on
    it: it gives back what the writer wrote, wherever in a slice that stands, it
    leaves the cursor inside the slice, and it does not panic. [Codec] adds that
    the writer's bytes are the only ones accepted. *)

From S2P Require Import Prelude Contract Ticket Topology.

#[local] Open Scope N_scope.

(** ** Outcomes *)

Inductive run (E A : Type) : Type :=
| Done (a : A)
| Failed (e : E)
| Panicked.
Arguments Done {E A} _.
Arguments Failed {E A} _.
Arguments Panicked {E A}.

Declare Scope run_scope.
Delimit Scope run_scope with run.

(** [let* x := r in k]: the [?] operator, a panic passing through it. *)
Notation "'let*' x := r 'in' k" :=
  (match r with Done x => k | Failed e => Failed e | Panicked => Panicked end)
  (at level 10, x pattern, r at level 100, k at level 200) : run_scope.

#[local] Open Scope run_scope.

(** [Result::map_err]. *)
Definition map_err {E F A : Type} (f : E -> F) (r : run E A) : run F A :=
  match r with
  | Done a => Done a
  | Failed e => Failed (f e)
  | Panicked => Panicked
  end.

(** The errors of the readers, a constructor per [bail!]. *)
Inductive CanonicalError : Type :=
| UnexpectedEof (need offset have : N)
| VarintTooLong
| ZigzagOutOfRange (raw : N)
| StringEncodingBits (header : N)
| InvalidUtf8
| InvalidBool (byte : N)
| ListHeaderMismatch (marker : N)
| InvalidOptional (byte : N)
| TrailingAfterDecode (extra pos length : N)
| UnknownCode (value : N).

(** ** Writers *)

Definition NULL_FLAG : N := 253.
Definition LIST_ELEMENT_HEADER : N := 12.

(** The loop of [write_varint]: ten rounds take a [u64] to zero. *)
Fixpoint write_varint_loop (rounds : nat) (v : N) : bytes :=
  match rounds with
  | O => []
  | S rounds =>
      let byte := N.land v 127 in
      let v := N.shiftr v 7 in
      if negb (v =? 0) then u8 (N.lor byte 128) :: write_varint_loop rounds v
      else [u8 byte]
  end.

Definition write_varint (value : N) : bytes := write_varint_loop 10 value.

(** [x as u32], [x as u64] of a signed [x]. *)
Definition as_u32 (z : Z) : N := Z.to_N (z mod 2 ^ 32).
Definition as_u64 (z : Z) : N := Z.to_N (z mod 2 ^ 64).
Definition i32_wrap (z : Z) : Z := ((z + 2 ^ 31) mod 2 ^ 32 - 2 ^ 31)%Z.

Definition write_zigzag_i32 (value : Z) : bytes :=
  write_varint (as_u32 (Z.lxor (i32_wrap (Z.shiftl value 1)) (Z.shiftr value 31))).

Definition write_zigzag_i64 (value : Z) : bytes :=
  write_varint (as_u64 (Z.lxor (i64_wrap (Z.shiftl value 1)) (Z.shiftr value 63))).

Definition write_string (s : bytes) : bytes :=
  let header := N.lor (N.shiftl (len s) 2 mod U64_MODULUS) 2 in
  write_varint header ++ s.

Definition write_bytes_field (data : bytes) : bytes := write_varint (len data) ++ data.

Definition write_bool (value : bool) : bytes := [u8 (if value then 1 else 0)].

(** [to_le_bytes] of [n] bytes. *)
Fixpoint to_le_bytes (n : nat) (v : N) : bytes :=
  match n with
  | O => []
  | S n => u8 v :: to_le_bytes n (N.shiftr v 8)
  end.

Definition write_float64 (bits : N) : bytes := to_le_bytes 8 bits.

Definition write_list_header (length : N) : bytes :=
  write_varint length ++ [u8 LIST_ELEMENT_HEADER].

Definition write_optional_absent : bytes := [u8 NULL_FLAG].
Definition write_optional_present_prefix : bytes := [u8 0].

(** ** Readers *)

(** [buf[pos]]. *)
Definition index {E : Type} (buf : bytes) (pos : N) : run E N :=
  match buf !! N.to_nat pos with
  | Some b => Done (Strings.Byte.to_N b)
  | None => Panicked
  end.

(** [buf.get(a..b)]. *)
Definition get_range (buf : bytes) (a b : N) : option bytes :=
  if (a <=? b) && (b <=? len buf) then Some (take (N.to_nat (b - a)) (drop (N.to_nat a) buf))
  else None.

(** [&buf[a..b]]. *)
Definition slice {E : Type} (buf : bytes) (a b : N) : run E bytes :=
  match get_range buf a b with
  | Some s => Done s
  | None => Panicked
  end.

(** [Vec::with_capacity] panics when the bytes asked for exceed [isize::MAX]. *)
Definition with_capacity {E : Type} (elements size : N) : run E unit :=
  if 2 ^ 63 - 1 <? elements * size then Panicked else Done tt.

Definition need (buf : bytes) (pos n : N) : run CanonicalError unit :=
  if len buf <? u64_add pos n then Failed (UnexpectedEof n pos (len buf)) else Done tt.

(** One byte at the cursor, the cursor after it. *)
Definition next_byte (buf : bytes) (pos : N) : run CanonicalError (N * N) :=
  let* _ := need buf pos 1 in
  let* byte := index buf pos in
  Done (byte, u64_add pos 1).

Fixpoint read_varint_loop (rounds : nat) (buf : bytes) (pos value shift : N)
    : run CanonicalError (N * N) :=
  match rounds with
  | O => Failed VarintTooLong
  | S rounds =>
      let* (byte, pos) := next_byte buf pos in
      let value := N.lor value (N.shiftl (N.land byte 127) shift mod U64_MODULUS) in
      if N.land byte 128 =? 0 then Done (value, pos)
      else read_varint_loop rounds buf pos value (shift + 7)
  end.

Definition read_varint (buf : bytes) (pos : N) : run CanonicalError (N * N) :=
  read_varint_loop 10 buf pos 0 0.

(** [((raw >> 1) as i64) ^ -((raw & 1) as i64)]. *)
Definition unzigzag (raw : N) : Z :=
  Z.lxor (as_i64 (N.shiftr raw 1)) (- as_i64 (N.land raw 1)).

(** [u32::MAX], and [n as i32]. *)
Definition U32_MAX : N := 4294967295.
Definition u32_as_i32 (n : N) : Z := i32_wrap (Z.of_N n).

Definition read_zigzag_i32 (buf : bytes) (pos : N) : run CanonicalError (Z * N) :=
  let* (raw, pos) := read_varint buf pos in
  if U32_MAX <? raw then Failed (ZigzagOutOfRange raw)
  else
    Done (Z.lxor (u32_as_i32 (N.shiftr raw 1)) (- u32_as_i32 (N.land raw 1)), pos).

Definition read_zigzag_i64 (buf : bytes) (pos : N) : run CanonicalError (Z * N) :=
  let* (raw, pos) := read_varint buf pos in
  Done (unzigzag raw, pos).

(** [need], the slice and the cursor's advance of [read_string] and
    [read_bytes_field]. *)
Definition take_bytes (buf : bytes) (pos length : N) : run CanonicalError (bytes * N) :=
  let* _ := need buf pos length in
  let* taken := slice buf pos (u64_add pos length) in
  Done (taken, u64_add pos length).

Definition read_string (buf : bytes) (pos : N) : run CanonicalError (bytes * N) :=
  let* (header, pos) := read_varint buf pos in
  if negb (N.land header 3 =? 2) then Failed (StringEncodingBits header)
  else
    let* (s, pos) := take_bytes buf pos (N.shiftr header 2) in
    if utf8_valid s then Done (s, pos) else Failed InvalidUtf8.

Definition read_bytes_field (buf : bytes) (pos : N) : run CanonicalError (bytes * N) :=
  let* (length, pos) := read_varint buf pos in
  take_bytes buf pos length.

Definition read_bool (buf : bytes) (pos : N) : run CanonicalError (bool * N) :=
  let* (byte, pos) := next_byte buf pos in
  if byte =? 0 then Done (false, pos)
  else if byte =? 1 then Done (true, pos)
  else Failed (InvalidBool byte).

(** [from_le_bytes]. *)
Fixpoint from_le_bytes (s : bytes) : N :=
  match s with
  | [] => 0
  | b :: s => Strings.Byte.to_N b + 256 * from_le_bytes s
  end.

Definition read_float64 (buf : bytes) (pos : N) : run CanonicalError (N * N) :=
  let* (arr, pos) := take_bytes buf pos 8 in
  Done (from_le_bytes arr, pos).

Definition read_list_header (buf : bytes) (pos : N) : run CanonicalError (N * N) :=
  let* (length, pos) := read_varint buf pos in
  let* (marker, pos) := next_byte buf pos in
  if negb (marker =? LIST_ELEMENT_HEADER) then Failed (ListHeaderMismatch marker)
  else Done (length, pos).

Definition read_optional_present (buf : bytes) (pos : N) : run CanonicalError (bool * N) :=
  let* (byte, pos) := next_byte buf pos in
  if byte =? 0 then Done (true, pos)
  else if byte =? NULL_FLAG then Done (false, pos)
  else Failed (InvalidOptional byte).

Definition expect_eof (buf : bytes) (pos : N) : run CanonicalError unit :=
  if negb (pos =? len buf)
  then Failed (TrailingAfterDecode (u64_sub (len buf) pos) pos (len buf))
  else Done tt.

(** ** The interface of a reader *)

(** The slices considered: a list of as many strings as the slice has bytes can
    still be allocated, its 24-byte elements filling less than [isize::MAX]. *)
Definition SLICE_LIMIT : N := 2 ^ 58.

Class Reader {E A : Type} (ok : A -> Prop) (w : A -> bytes)
    (r : bytes -> N -> run E (A * N)) : Prop := {
  reader_reads pre a suf :
    ok a -> len (pre ++ w a ++ suf) < SLICE_LIMIT ->
    r (pre ++ w a ++ suf) (len pre) = Done (a, len pre + len (w a));
  reader_bounds buf pos a p :
    len buf < SLICE_LIMIT -> pos <= len buf -> r buf pos = Done (a, p) ->
    ok a /\ pos <= p <= len buf;
  reader_safe buf pos :
    len buf < SLICE_LIMIT -> pos <= len buf -> r buf pos <> Panicked;
}.

Class Codec {E A : Type} (ok : A -> Prop) (w : A -> bytes)
    (r : bytes -> N -> run E (A * N)) : Prop := {
  codec_reader :: Reader ok w r;
  codec_exact buf pos a p :
    len buf < SLICE_LIMIT -> pos <= len buf -> r buf pos = Done (a, p) ->
    get_range buf pos p = Some (w a);
}.

(** ** Slices *)

#[local] Arguments u8 _ : simpl never.
#[local] Arguments Strings.Byte.to_N _ : simpl never.
#[local] Arguments N.shiftl _ _ : simpl never.
#[local] Arguments N.shiftr _ _ : simpl never.
#[local] Arguments N.land _ _ : simpl never.

Lemma len_app {A} (l k : list A) : len (l ++ k) = len l + len k.
Proof. unfold len. rewrite length_app. lia. Qed.

Lemma len_cons {A} (x : A) l : len (x :: l) = 1 + len l.
Proof. unfold len. simpl. lia. Qed.

Lemma get_range_mid (pre mid suf : bytes) :
  get_range (pre ++ mid ++ suf) (len pre) (len pre + len mid) = Some mid.
Proof.
  unfold get_range. rewrite !len_app.
  rewrite (proj2 (N.leb_le _ _)), (proj2 (N.leb_le _ _)) by lia. simpl.
  replace (N.to_nat (len pre + len mid - len pre)) with (length mid) by (unfold len; lia).
  replace (N.to_nat (len pre)) with (length pre) by (unfold len; lia).
  by rewrite drop_app_length, take_app_length.
Qed.

(** A range found in a slice splits it. *)
Lemma get_range_split buf a b mid :
  get_range buf a b = Some mid ->
  b = a + len mid /\
  exists suf, buf = take (N.to_nat a) buf ++ mid ++ suf /\ len (take (N.to_nat a) buf) = a.
Proof.
  unfold get_range. destruct (a <=? b) eqn:H1; [|done]. destruct (b <=? len buf) eqn:H2; [|done].
  apply N.leb_le in H1, H2. unfold len in H2. intros [= <-]. split.
  - unfold len. rewrite length_take, length_drop. lia.
  - exists (drop (N.to_nat (b - a)) (drop (N.to_nat a) buf)). rewrite !take_drop. split; [done|].
    unfold len. rewrite length_take. lia.
Qed.

Lemma get_range_inside buf a b :
  a <= b <= len buf -> exists mid, get_range buf a b = Some mid /\ len mid = b - a.
Proof.
  intros [H1 H2]. unfold get_range.
  rewrite (proj2 (N.leb_le _ _) H1), (proj2 (N.leb_le _ _) H2). eexists. split; [done|].
  unfold len in *. rewrite length_take, length_drop. lia.
Qed.

(** Two adjacent ranges are one. *)
Lemma get_range_join buf a b c x y :
  get_range buf a b = Some x -> get_range buf b c = Some y -> get_range buf a c = Some (x ++ y).
Proof.
  intros Hx Hy. destruct (get_range_split _ _ _ _ Hx) as [Hb (s & Hbuf & Ha)].
  destruct (get_range_split _ _ _ _ Hy) as [Hc (t & Hbuf' & Hb')].
  set (pre := take (N.to_nat a) buf) in *.
  assert (Hp : take (N.to_nat b) buf = pre ++ x).
  { rewrite Hbuf, (assoc_L (++)). apply take_app_length'. subst b. unfold len in *.
    rewrite length_app. lia. }
  rewrite Hp in Hbuf'. rewrite Hbuf', <- (assoc_L (++)), (assoc_L (++) x), <- Ha, Hc, Hb, <- Ha.
  rewrite <- (get_range_mid pre (x ++ y) t). rewrite !len_app. f_equal; lia.
Qed.

(** [len] facts, unfolded limits, [lia]. *)
Ltac slice_lia :=
  unfold SLICE_LIMIT, U64_MODULUS in *; rewrite ?len_app, ?len_cons in *; lia.

Lemma next_byte_at pre b suf :
  len (pre ++ b :: suf) < SLICE_LIMIT ->
  next_byte (pre ++ b :: suf) (len pre) = Done (Strings.Byte.to_N b, len pre + 1).
Proof.
  intros H. unfold next_byte, need. rewrite u64_add_small by slice_lia.
  rewrite (proj2 (N.ltb_ge _ _)) by slice_lia. unfold index.
  replace (N.to_nat (len pre)) with (length pre) by (unfold len; lia).
  by rewrite list_lookup_middle.
Qed.

(** Inside a slice, [next_byte] gives the byte there or the end of the input. *)
Lemma next_byte_inside buf pos :
  len buf < SLICE_LIMIT -> pos <= len buf ->
  (exists b, next_byte buf pos = Done (b, pos + 1) /\ b < 256 /\ pos + 1 <= len buf) \/
  (exists e, next_byte buf pos = Failed e).
Proof.
  intros H1 H2. unfold next_byte, need. rewrite u64_add_small by slice_lia.
  destruct (len buf <? pos + 1) eqn:Hn; [right; by eexists|left]. apply N.ltb_ge in Hn.
  unfold index. destruct (lookup_lt_is_Some_2 buf (N.to_nat pos)) as [b Hb].
  { unfold len in Hn. lia. }
  rewrite Hb. eexists. split; [done|]. split; [apply byte_to_N_lt|done].
Qed.

(** ** Varints *)

Lemma lor_step value v shift :
  N.lor (N.lor value (N.shiftl (N.land v 127) shift)) (N.shiftl (N.shiftr v 7) (shift + 7)) =
  N.lor value (N.shiftl v shift).
Proof.
  rewrite <- N.lor_assoc. f_equal. rewrite N.add_comm, <- N.shiftl_shiftl, <- N.shiftl_lor. f_equal.
  change 127 with (N.ones 7). rewrite N.land_ones, N.shiftr_div_pow2, N.shiftl_mul_pow2.
  rewrite <- N.shiftl_mul_pow2. apply N.bits_inj. intros i. rewrite N.lor_spec.
  destruct (N.lt_ge_cases i 7).
  - rewrite N.mod_pow2_bits_low, N.shiftl_spec_low by done. by rewrite orb_false_r.
  - rewrite N.mod_pow2_bits_high, N.shiftl_spec_high' by done. simpl.
    rewrite N.div_pow2_bits. f_equal. lia.
Qed.

Lemma land_127_lt v : N.land v 127 < 128.
Proof. change 127 with (N.ones 7). rewrite N.land_ones. by apply N.mod_lt. Qed.

(** The bytes of a round: the low seven bits come back, and the high bit tells. *)
Lemma round_byte v (more : bool) :
  let b := Strings.Byte.to_N (u8 (if more then N.lor (N.land v 127) 128 else N.land v 127)) in
  N.land b 127 = N.land v 127 /\ (N.land b 128 =? 0) = negb more.
Proof.
  pose proof (land_127_lt v) as Hv. rewrite u8_to_N.
  assert (Hc : forall x, x < 128 ->
    N.land (N.lor x 128 mod 256) 127 = x /\ N.land (N.lor x 128 mod 256) 128 = 128 /\
    N.land (x mod 256) 127 = x /\ N.land (x mod 256) 128 = 0).
  { intros x Hx. rewrite <- (N2Nat.id x). assert (Hn : (N.to_nat x < 128)%nat) by lia.
    revert Hn. generalize (N.to_nat x). clear. intros n Hn.
    do 128 (destruct n as [|n]; [by vm_compute|]). lia. }
  destruct (Hc _ Hv) as (H1 & H2 & H3 & H4). destruct more; simpl; rewrite ?H1, ?H2, ?H3, ?H4; done.
Qed.

Lemma lor_u64 a b : a < U64_MODULUS -> b < U64_MODULUS -> N.lor a b < U64_MODULUS.
Proof.
  change U64_MODULUS with (2 ^ 64). intros Ha Hb.
  rewrite <- (N.mod_small a (2 ^ 64)), <- (N.mod_small b (2 ^ 64)) by done.
  rewrite <- !N.land_ones, <- N.land_lor_distr_l, N.land_ones. by apply N.mod_lt.
Qed.

(** Ten rounds are enough: more rounds write the same bytes. *)
Lemma write_varint_rounds m n v :
  (0 < m)%nat -> (0 < n)%nat -> v < 2 ^ (7 * N.of_nat m) -> v < 2 ^ (7 * N.of_nat n) ->
  write_varint_loop m v = write_varint_loop n v.
Proof.
  revert n v. induction m as [|m IH]; intros n v Hm Hn Hv Hw; [lia|].
  destruct n as [|n]; [lia|]. simpl.
  assert (Hdiv : forall k, v < 2 ^ (7 * N.of_nat (S k)) -> N.shiftr v 7 < 2 ^ (7 * N.of_nat k)).
  { intros k Hk. rewrite N.shiftr_div_pow2. apply N.Div0.div_lt_upper_bound.
    rewrite <- N.pow_add_r. by replace (7 + 7 * N.of_nat k) with (7 * N.of_nat (S k)) by lia. }
  destruct (N.shiftr v 7 =? 0) eqn:Hz; simpl; [done|]. apply N.eqb_neq in Hz. f_equal.
  apply Hdiv in Hv, Hw. destruct m; [change (2 ^ (7 * N.of_nat 0)) with 1 in Hv; lia|].
  destruct n; [change (2 ^ (7 * N.of_nat 0)) with 1 in Hw; lia|].
  apply IH; [lia..|done|done].
Qed.

Lemma len_write_varint v : 1 <= len (write_varint v).
Proof.
  assert (H : forall rounds, 1 <= len (write_varint_loop (S rounds) v)).
  { intros rounds. cbn [write_varint_loop]. destruct (negb _); rewrite len_cons; lia. }
  apply (H 9%nat).
Qed.

Lemma write_string_nonempty s : 1 <= len (write_string s).
Proof.
  unfold write_string. rewrite len_app. pose proof (len_write_varint (N.lor (N.shiftl (len s) 2 mod U64_MODULUS) 2)).
  lia.
Qed.

Lemma read_write_loop rounds v : forall pre suf value shift,
  (0 < rounds)%nat -> v < 2 ^ (7 * N.of_nat rounds) -> v * 2 ^ shift < U64_MODULUS ->
  len (pre ++ write_varint_loop rounds v ++ suf) < SLICE_LIMIT ->
  read_varint_loop rounds (pre ++ write_varint_loop rounds v ++ suf) (len pre) value shift =
  Done (N.lor value (N.shiftl v shift), len pre + len (write_varint_loop rounds v)).
Proof.
  revert v. induction rounds as [|rounds IH]; intros v pre suf value shift Hr Hv Hs Hlen; [lia|].
  set (more := negb (N.shiftr v 7 =? 0)).
  destruct (round_byte v more) as [Hlow Hhigh].
  assert (Hfit : N.shiftl (N.land v 127) shift mod U64_MODULUS = N.shiftl (N.land v 127) shift).
  { apply N.mod_small. rewrite N.shiftl_mul_pow2. eapply N.le_lt_trans; [|exact Hs].
    apply N.mul_le_mono_r. change 127 with (N.ones 7). rewrite N.land_ones. apply N.Div0.mod_le. }
  revert Hlen. simpl write_varint_loop. fold more. destruct more eqn:Hm; intros Hlen; simpl read_varint_loop.
  - rewrite next_byte_at by done. rewrite Hlow, Hhigh, Hfit. simpl.
    assert (Hsh : N.shiftr v 7 < 2 ^ (7 * N.of_nat rounds)).
    { rewrite N.shiftr_div_pow2. apply N.Div0.div_lt_upper_bound.
      rewrite <- N.pow_add_r. by replace (7 + 7 * N.of_nat rounds) with (7 * N.of_nat (S rounds)) by lia. }
    set (b := u8 _) in *.
    assert (Hre : pre ++ b :: write_varint_loop rounds (N.shiftr v 7) ++ suf =
                  (pre ++ [b]) ++ write_varint_loop rounds (N.shiftr v 7) ++ suf)
      by by rewrite <- (assoc_L (++)).
    revert Hlen. simpl. rewrite Hre. intros Hlen.
    replace (len pre + 1) with (len (pre ++ [b])) by (rewrite len_app; done).
    rewrite IH; [|destruct rounds; [change (2 ^ (7 * N.of_nat 0)) with 1 in Hsh|lia]| done | |done].
    + rewrite lor_step. do 2 f_equal. rewrite len_app, !len_cons. change (@len byte []) with 0. lia.
    + subst more. apply negb_true_iff, N.eqb_neq in Hm. lia.
    + eapply N.le_lt_trans; [|exact Hs]. rewrite (N.add_comm shift), N.pow_add_r, N.mul_assoc.
      apply N.mul_le_mono_r. rewrite N.shiftr_div_pow2, N.mul_comm. apply N.Div0.mul_div_le.
  - rewrite next_byte_at by done. rewrite Hlow, Hhigh, Hfit. simpl. do 2 f_equal.
    subst more. apply negb_false_iff, N.eqb_eq in Hm.
    rewrite <- (lor_step value v shift), Hm, N.shiftl_0_l. by rewrite N.lor_0_r.
Qed.

Lemma read_loop_inside rounds buf : forall pos value shift,
  len buf < SLICE_LIMIT -> pos <= len buf -> value < U64_MODULUS ->
  (exists v p, read_varint_loop rounds buf pos value shift = Done (v, p) /\
     v < U64_MODULUS /\ pos <= p <= len buf) \/
  (exists e, read_varint_loop rounds buf pos value shift = Failed e).
Proof.
  induction rounds as [|rounds IH]; intros pos value shift Hl Hp Hv; simpl; [right; by eexists|].
  destruct (next_byte_inside buf pos Hl Hp) as [(b & -> & Hb & Hp') | (e & ->)]; [|right; by eexists].
  assert (Hn : N.lor value (N.shiftl (N.land b 127) shift mod U64_MODULUS) < U64_MODULUS).
  { apply lor_u64; [done|]. by apply N.mod_lt. }
  destruct (N.land b 128 =? 0).
  - left. eexists _, _. split; [done|]. split; [done|lia].
  - destruct (IH (pos + 1) _ (shift + 7) Hl Hp' Hn) as [(v & p & -> & ? & ?)|(e & ->)];
      [left|right; by eexists].
    eexists _, _. split; [done|]. split; [done|lia].
Qed.

(** A reader that, inside a slice, yields an acceptable value or an error. *)
Lemma Reader_intro {E A} (ok : A -> Prop) w (r : bytes -> N -> run E (A * N)) :
  (forall pre a suf, ok a -> len (pre ++ w a ++ suf) < SLICE_LIMIT ->
     r (pre ++ w a ++ suf) (len pre) = Done (a, len pre + len (w a))) ->
  (forall buf pos, len buf < SLICE_LIMIT -> pos <= len buf ->
     (exists a p, r buf pos = Done (a, p) /\ ok a /\ pos <= p <= len buf) \/
     (exists e, r buf pos = Failed e)) ->
  Reader ok w r.
Proof.
  intros Hr Hi. split; [done|..].
  - intros buf pos a p H1 H2 H3. destruct (Hi buf pos H1 H2) as [(a' & p' & H & ? & ?)|(e & H)];
      rewrite H in H3; by simplify_eq.
  - intros buf pos H1 H2. by destruct (Hi buf pos H1 H2) as [(a' & p' & -> & _)|(e & ->)].
Qed.

Lemma reader_inside {E A} (ok : A -> Prop) w (r : bytes -> N -> run E (A * N)) `{!Reader ok w r} buf pos :
  len buf < SLICE_LIMIT -> pos <= len buf ->
  (exists a p, r buf pos = Done (a, p) /\ ok a /\ pos <= p <= len buf) \/
  (exists e, r buf pos = Failed e).
Proof.
  intros H1 H2. destruct (r buf pos) as [[a p]|e|] eqn:H.
  - left. eexists _, _. split; [done|]. by eapply reader_bounds.
  - right. by eexists.
  - by edestruct (reader_safe buf pos H1 H2).
Qed.

Definition is_u64 (v : N) : Prop := v < U64_MODULUS.

#[export] Instance varint_reader : Reader is_u64 write_varint read_varint.
Proof.
  apply Reader_intro.
  - intros pre v suf Hv Hlen. unfold write_varint, read_varint in *. unfold is_u64, U64_MODULUS in *.
    rewrite read_write_loop; [|lia| | |done].
    + by rewrite N.shiftl_0_r.
    + by apply (N.lt_trans _ 18446744073709551616).
    + by rewrite N.pow_0_r, N.mul_1_r.
  - intros buf pos Hl Hp. by apply read_loop_inside.
Qed.

(** ** Building readers from readers *)

Definition seq_reader {E A B : Type} (ra : bytes -> N -> run E (A * N))
    (rb : bytes -> N -> run E (B * N)) (buf : bytes) (pos : N) : run E (A * B * N) :=
  let* (a, pos) := ra buf pos in
  let* (b, pos) := rb buf pos in
  Done (a, b, pos).

Definition conv_reader {E F A B : Type} (ra : bytes -> N -> run E (A * N)) (f : E -> F)
    (dec : A -> run F B) (buf : bytes) (pos : N) : run F (B * N) :=
  match ra buf pos with
  | Done (a, pos) => let* b := dec a in Done (b, pos)
  | Failed e => Failed (f e)
  | Panicked => Panicked
  end.

Section Combinators.
  Context {E A B : Type} (oka : A -> Prop) (wa : A -> bytes) (ra : bytes -> N -> run E (A * N)).
  Context (okb : B -> Prop) (wb : B -> bytes).

#[export] Instance reader_seq (rb : bytes -> N -> run E (B * N)) :
  Reader oka wa ra -> Reader okb wb rb ->
  Reader (fun ab => oka ab.1 /\ okb ab.2) (fun ab => wa ab.1 ++ wb ab.2) (seq_reader ra rb).
Proof.
  intros Ha Hb. apply Reader_intro.
  - intros pre [a b] suf [Hoa Hob] Hlen. simpl in *. unfold seq_reader.
    rewrite <- (assoc_L (++)) in *. rewrite (reader_reads pre a (wb b ++ suf)) by done.
    revert Hlen. rewrite (assoc_L (++) pre), <- (len_app pre). intros Hlen.
    rewrite (reader_reads (pre ++ wa a) b suf) by done. do 2 f_equal. rewrite !len_app. lia.
  - intros buf pos Hl Hp. unfold seq_reader.
    destruct (reader_inside oka wa ra buf pos Hl Hp) as [(a & p & -> & ? & ?)|(e & ->)];
      [|right; by eexists].
    destruct (reader_inside okb wb rb buf p Hl) as [(b & q & -> & ? & ?)|(e & ->)];
      [lia|left|right; by eexists].
    eexists _, _. split; [done|]. split; [done|lia].
Qed.

#[export] Instance codec_seq (rb : bytes -> N -> run E (B * N)) :
  Codec oka wa ra -> Codec okb wb rb ->
  Codec (fun ab => oka ab.1 /\ okb ab.2) (fun ab => wa ab.1 ++ wb ab.2) (seq_reader ra rb).
Proof.
  intros Ha Hb. split; [apply _|]. intros buf pos [a b] q Hl Hp H. unfold seq_reader in H.
  destruct (ra buf pos) as [[a' p]|e|] eqn:Hra; try done.
  destruct (rb buf p) as [[b' q']|e|] eqn:Hrb; try done. simplify_eq. simpl.
  destruct (reader_bounds _ _ _ _ Hl Hp Hra). eapply get_range_join;
    [by eapply codec_exact|]. eapply codec_exact; [done|lia|done].
Qed.

(** Readers and writers that agree, the writers on what is acceptable. *)
Lemma reader_ext (w : A -> bytes) (r : bytes -> N -> run E (A * N)) :
  (forall a, oka a -> w a = wa a) -> (forall buf pos, r buf pos = ra buf pos) ->
  Reader oka wa ra -> Reader oka w r.
Proof.
  intros Hw Hr Ha. split; intros *; rewrite Hr; [|by apply reader_bounds|by apply reader_safe].
  intros Hok. rewrite Hw by done. by apply reader_reads.
Qed.

Lemma codec_ext (w : A -> bytes) (r : bytes -> N -> run E (A * N)) :
  (forall a, oka a -> w a = wa a) -> (forall buf pos, r buf pos = ra buf pos) ->
  Codec oka wa ra -> Codec oka w r.
Proof.
  intros Hw Hr Ha. split; [by eapply reader_ext, _|]. intros buf pos a p Hl Hp. rewrite Hr. intros H.
  destruct (reader_bounds buf pos a p Hl Hp H) as [Hok _]. rewrite Hw by done. by apply codec_exact.
Qed.

(** A value translated after it is read: [dec] takes back what [enc] makes. *)
Lemma reader_conv {F} (f : E -> F) (enc : B -> A) (dec : A -> run F B) :
  Reader oka wa ra ->
  (forall b, okb b -> oka (enc b) /\ dec (enc b) = Done b) ->
  (forall a, oka a -> dec a <> Panicked) ->
  (forall a b, oka a -> dec a = Done b -> okb b) ->
  Reader okb (fun b => wa (enc b)) (conv_reader ra f dec).
Proof.
  intros Ha Henc Hsafe Hok. apply Reader_intro.
  - intros pre b suf Hb Hlen. destruct (Henc b Hb) as [H1 H2]. unfold conv_reader.
    rewrite (reader_reads pre (enc b) suf) by done. by rewrite H2.
  - intros buf pos Hl Hp. unfold conv_reader.
    destruct (reader_inside oka wa ra buf pos Hl Hp) as [(a & p & -> & Hoa & ?)|(e & ->)];
      [|right; by eexists].
    destruct (dec a) as [b|e|] eqn:Hd; [left|right; by eexists|by destruct (Hsafe a)].
    eexists _, _. split; [done|]. split; [by eapply Hok|done].
Qed.

Lemma codec_conv {F} (f : E -> F) (enc : B -> A) (dec : A -> run F B) :
  Codec oka wa ra ->
  (forall b, okb b -> oka (enc b) /\ dec (enc b) = Done b) ->
  (forall a, oka a -> dec a <> Panicked) ->
  (forall a b, oka a -> dec a = Done b -> okb b /\ enc b = a) ->
  Codec okb (fun b => wa (enc b)) (conv_reader ra f dec).
Proof.
  intros Ha Henc Hsafe Hok. split.
  - eapply reader_conv; [apply _|done|done|]. intros a b H1 H2. by destruct (Hok a b).
  - intros buf pos b p Hl Hp H. unfold conv_reader in H.
    destruct (ra buf pos) as [[a q]|e|] eqn:Hr; try done.
    destruct (dec a) as [b'|e|] eqn:Hd; try done. simplify_eq.
    destruct (reader_bounds _ _ _ _ Hl Hp Hr) as [Hoa _]. destruct (Hok _ _ Hoa Hd) as [_ ->].
    by eapply codec_exact.
Qed.

End Combinators.

(** ** One byte *)

Definition is_u8 (b : N) : Prop := b < 256.
Definition write_u8 (b : N) : bytes := [u8 b].

#[export] Instance byte_codec : Codec is_u8 write_u8 next_byte.
Proof.
  split; [apply Reader_intro|].
  - intros pre b suf Hb Hlen. simpl in *. rewrite next_byte_at by done. by rewrite u8_small.
  - intros buf pos Hl Hp. destruct (next_byte_inside buf pos Hl Hp) as [(b & -> & ? & ?)|(e & ->)];
      [left|right; by eexists]. eexists _, _. split; [done|]. split; [done|lia].
  - intros buf pos b p Hl Hp H. unfold next_byte, need, index in H.
    rewrite u64_add_small in H by slice_lia.
    destruct (len buf <? pos + 1) eqn:Hn; [done|]. apply N.ltb_ge in Hn.
    destruct (buf !! N.to_nat pos) as [x|] eqn:Hx; [|done]. simplify_eq.
    unfold get_range, write_u8. rewrite u8_of_to.
    rewrite (proj2 (N.leb_le _ _)), (proj2 (N.leb_le _ _)) by lia. simpl.
    replace (N.to_nat (pos + 1 - pos)) with 1%nat by lia.
    by rewrite (drop_S _ x) by done.
Qed.

(** ** Booleans and options *)

#[export] Instance bool_codec : Codec (fun _ : bool => True) write_bool read_bool.
Proof.
  eapply codec_ext; [..|apply (codec_conv is_u8 write_u8 next_byte _ id (fun b : bool => if b then 1 else 0)
    (fun b => if b =? 0 then Done false else if b =? 1 then Done true else Failed (InvalidBool b)));
    [apply _|..]].
  - done.
  - intros buf pos. unfold read_bool, conv_reader. destruct (next_byte buf pos) as [[b p]| |]; try done.
    simpl. by repeat case_match.
  - by intros [] _.
  - intros a _. by repeat case_match.
  - intros a b _ H. repeat case_match; simplify_eq; boolean_facts; by subst.
Qed.

Definition write_presence (present : bool) : bytes :=
  if present then write_optional_present_prefix else write_optional_absent.

#[export] Instance optional_codec :
  Codec (fun _ : bool => True) write_presence read_optional_present.
Proof.
  eapply codec_ext; [..|apply (codec_conv is_u8 write_u8 next_byte _ id
    (fun b : bool => if b then 0 else NULL_FLAG) (fun b => if b =? 0 then Done true
       else if b =? NULL_FLAG then Done false else Failed (InvalidOptional b))); [apply _|..]].
  - by intros [].
  - intros buf pos. unfold read_optional_present, conv_reader.
    destruct (next_byte buf pos) as [[b p]| |]; try done. simpl. by repeat case_match.
  - by intros [] _.
  - intros a _. by repeat case_match.
  - intros a b _ H. repeat case_match; simplify_eq; boolean_facts; by subst.
Qed.

(** ** Signed integers *)

Definition is_i32 (z : Z) : Prop := (- 2 ^ 31 <= z < 2 ^ 31)%Z.
Definition is_i64 (z : Z) : Prop := (- 2 ^ 63 <= z < 2 ^ 63)%Z.

(** ZigZag in arithmetic: the even numbers are the naturals, the odd ones the rest. *)
Definition zigzag (z : Z) : N := Z.to_N (if (0 <=? z)%Z then 2 * z else - 2 * z - 1)%Z.

Lemma shiftr_sign z k :
  (0 <= k -> - 2 ^ k <= z < 2 ^ k -> Z.shiftr z k = if 0 <=? z then 0 else -1)%Z.
Proof.
  intros Hk Hz. rewrite Z.shiftr_div_pow2 by done. destruct (0 <=? z)%Z eqn:H.
  - apply Z.div_small. lia.
  - apply Z.leb_gt in H. symmetry. apply (Z.div_unique_pos _ _ _ (z + 2 ^ k)); lia.
Qed.

Lemma lxor_m1 x : Z.lxor x (-1) = (- x - 1)%Z.
Proof. rewrite Z.lxor_m1_r. unfold Z.lnot. lia. Qed.

Lemma zigzag_i64 z :
  is_i64 z -> as_u64 (Z.lxor (i64_wrap (Z.shiftl z 1)) (Z.shiftr z 63)) = zigzag z.
Proof.
  intros Hz. unfold is_i64 in Hz. rewrite shiftr_sign by lia. unfold as_u64, zigzag, i64_wrap.
  rewrite Z.shiftl_mul_pow2 by done. destruct (0 <=? z)%Z eqn:Hs; f_equal.
  - rewrite Z.lxor_0_r. apply Z.leb_le in Hs. Z.div_mod_to_equations. lia.
  - rewrite lxor_m1. apply Z.leb_gt in Hs. Z.div_mod_to_equations. lia.
Qed.

Lemma zigzag_i32 z :
  is_i32 z -> as_u32 (Z.lxor (i32_wrap (Z.shiftl z 1)) (Z.shiftr z 31)) = zigzag z.
Proof.
  intros Hz. unfold is_i32 in Hz. rewrite shiftr_sign by lia. unfold as_u32, zigzag, i32_wrap.
  rewrite Z.shiftl_mul_pow2 by done. destruct (0 <=? z)%Z eqn:Hs; f_equal.
  - rewrite Z.lxor_0_r. apply Z.leb_le in Hs. Z.div_mod_to_equations. lia.
  - rewrite lxor_m1. apply Z.leb_gt in Hs. Z.div_mod_to_equations. lia.
Qed.

(** The shifts of the decoder, with their bits: half of [raw], and its parity. *)
Lemma raw_parts raw :
  Z.of_N raw = (2 * Z.of_N (N.shiftr raw 1) + Z.of_N (N.land raw 1))%Z /\
  (N.land raw 1 = 0 \/ N.land raw 1 = 1).
Proof.
  assert (N.land raw 1 = raw mod 2) as -> by (change 1 with (N.ones 1); apply N.land_ones).
  assert (N.shiftr raw 1 = raw / 2) as -> by apply N.shiftr_div_pow2.
  generalize (N.div_mod raw 2 ltac:(done)) (N.mod_lt raw 2 ltac:(done)).
  generalize (raw / 2) (raw mod 2). lia.
Qed.

(** [zigzag] inverts the decoder at any width whose cast keeps [0 .. bound). *)
Lemma zigzag_decode (wrap : Z -> Z) (bound : Z) raw :
  (1 < bound)%Z -> (forall z, (0 <= z < bound)%Z -> wrap z = z) -> (Z.of_N raw < 2 * bound)%Z ->
  let z := Z.lxor (wrap (Z.of_N (N.shiftr raw 1))) (- wrap (Z.of_N (N.land raw 1))) in
  zigzag z = raw /\ (- bound <= z < bound)%Z.
Proof.
  intros Hbound Hw Hraw. simpl. destruct (raw_parts raw) as [Hr Hbit].
  rewrite !Hw by lia. unfold zigzag.
  destruct Hbit as [Hb | Hb]; rewrite Hb in *; simpl Z.of_N in *.
  - rewrite Z.lxor_0_r. rewrite (proj2 (Z.leb_le _ _)) by lia. lia.
  - simpl Z.opp. rewrite lxor_m1. rewrite (proj2 (Z.leb_gt _ _)) by lia. lia.
Qed.

Lemma zigzag_inj a b : zigzag a = zigzag b -> a = b.
Proof. unfold zigzag. destruct (0 <=? a)%Z eqn:Ha, (0 <=? b)%Z eqn:Hb; lia. Qed.

Lemma i64_wrap_small z : (0 <= z < 2 ^ 63)%Z -> i64_wrap z = z.
Proof. intros. unfold i64_wrap. rewrite Z.mod_small; lia. Qed.

Lemma i32_wrap_small z : (0 <= z < 2 ^ 31)%Z -> i32_wrap z = z.
Proof. intros. unfold i32_wrap. rewrite Z.mod_small; lia. Qed.

Lemma zigzag_unzigzag raw : is_u64 raw -> zigzag (unzigzag raw) = raw /\ is_i64 (unzigzag raw).
Proof.
  intros H. apply (zigzag_decode i64_wrap (2 ^ 63)); [done|apply i64_wrap_small|].
  unfold is_u64, U64_MODULUS in H. lia.
Qed.

Lemma zigzag_is_u64 z : is_i64 z -> is_u64 (zigzag z).
Proof. unfold is_i64, is_u64, zigzag, U64_MODULUS. destruct (0 <=? z)%Z eqn:H; lia. Qed.

Lemma unzigzag_zigzag z : is_i64 z -> unzigzag (zigzag z) = z.
Proof. intros H. apply zigzag_inj. by apply zigzag_unzigzag, zigzag_is_u64. Qed.

#[export] Instance zigzag_i64_reader : Reader is_i64 write_zigzag_i64 read_zigzag_i64.
Proof.
  eapply reader_ext; [..|apply (reader_conv is_u64 write_varint read_varint _ id zigzag
    (fun raw => Done (unzigzag raw))); [apply _|..]].
  - intros z Hz. unfold write_zigzag_i64. by rewrite zigzag_i64.
  - intros buf pos. unfold read_zigzag_i64, conv_reader. by destruct (read_varint _ _) as [[]| |].
  - intros z Hz. split; [by apply zigzag_is_u64|by rewrite unzigzag_zigzag].
  - done.
  - intros a b Ha [= <-]. by apply zigzag_unzigzag.
Qed.

#[export] Instance zigzag_i32_reader : Reader is_i32 write_zigzag_i32 read_zigzag_i32.
Proof.
  assert (Hdec : forall raw, raw <= U32_MAX ->
    let z := Z.lxor (u32_as_i32 (N.shiftr raw 1)) (- u32_as_i32 (N.land raw 1)) in
    zigzag z = raw /\ is_i32 z).
  { intros raw H. apply (zigzag_decode i32_wrap (2 ^ 31)); [done|apply i32_wrap_small|].
    unfold U32_MAX in H. lia. }
  assert (Hmax : forall z, is_i32 z -> zigzag z <= U32_MAX).
  { intros z Hz. unfold is_i32, zigzag, U32_MAX in *. destruct (0 <=? z)%Z eqn:H; lia. }
  eapply reader_ext; [..|apply (reader_conv is_u64 write_varint read_varint _ id zigzag
    (fun raw => if U32_MAX <? raw then Failed (ZigzagOutOfRange raw)
       else Done (Z.lxor (u32_as_i32 (N.shiftr raw 1)) (- u32_as_i32 (N.land raw 1)))));
    [apply _|..]].
  - intros z Hz. unfold write_zigzag_i32. by rewrite zigzag_i32.
  - intros buf pos. unfold read_zigzag_i32, conv_reader. destruct (read_varint _ _) as [[raw]| |]; try done.
    by case_match.
  - intros z Hz. pose proof (Hmax z Hz) as Hm. split; [unfold is_u64, U64_MODULUS, U32_MAX in *; lia|].
    rewrite (proj2 (N.ltb_ge _ _) Hm). f_equal. apply zigzag_inj. by apply Hdec.
  - intros a _. by case_match.
  - intros a b _ H. case_match eqn:Ha; [done|]. apply N.ltb_ge in Ha. simplify_eq. by apply Hdec.
Qed.

(** ** Runs of bytes *)

Lemma take_bytes_at pre s suf :
  len (pre ++ s ++ suf) < SLICE_LIMIT ->
  take_bytes (pre ++ s ++ suf) (len pre) (len s) = Done (s, len pre + len s).
Proof.
  intros H. unfold take_bytes, need, slice. rewrite u64_add_small by slice_lia.
  rewrite (proj2 (N.ltb_ge _ _)) by slice_lia. by rewrite get_range_mid.
Qed.

(** The guard of [take_bytes] decides, as long as its sum does not wrap. *)
Lemma take_bytes_inside buf pos n :
  pos + n < U64_MODULUS ->
  (exists s, take_bytes buf pos n = Done (s, pos + n) /\ len s = n /\ pos + n <= len buf /\
     get_range buf pos (pos + n) = Some s) \/
  (exists e, take_bytes buf pos n = Failed e).
Proof.
  intros H. unfold take_bytes, need, slice. rewrite u64_add_small by done.
  destruct (len buf <? pos + n) eqn:Hn; [right; by eexists|left]. apply N.ltb_ge in Hn.
  destruct (get_range_inside buf pos (pos + n)) as (s & Hs & Hl); [lia|].
  rewrite Hs. eexists. split; [done|]. split; [lia|done].
Qed.

(** Where the sum wraps, the guard lets the range through and the slice panics. *)
Lemma take_bytes_wraps buf pos n :
  pos <= len buf -> n < U64_MODULUS -> U64_MODULUS <= pos + n ->
  len buf < U64_MODULUS -> take_bytes buf pos n = Panicked.
Proof.
  intros H1 H2 H3 H4. unfold take_bytes, need, slice, get_range.
  assert (Hw : u64_add pos n = pos + n - U64_MODULUS).
  { unfold u64_add. symmetry. apply (N.mod_unique _ _ 1); unfold U64_MODULUS in *; lia. }
  rewrite Hw. rewrite (proj2 (N.ltb_ge _ _)) by lia. by rewrite (proj2 (N.leb_gt pos _)) by lia.
Qed.

Definition is_string (s : bytes) : Prop := utf8_valid s = true /\ len s < 2 ^ 62.

Lemma string_header n :
  n < 2 ^ 62 ->
  let header := N.lor (N.shiftl n 2 mod U64_MODULUS) 2 in
  is_u64 header /\ N.land header 3 = 2 /\ N.shiftr header 2 = n.
Proof.
  intros Hn. simpl. rewrite N.mod_small.
  2:{ rewrite N.shiftl_mul_pow2. unfold U64_MODULUS. lia. }
  split; [|split].
  - apply lor_u64; [|done]. rewrite N.shiftl_mul_pow2. unfold U64_MODULUS. lia.
  - change 3 with (N.ones 2). rewrite N.land_lor_distr_l, N.land_ones, N.shiftl_mul_pow2.
    by rewrite N.Div0.mod_mul.
  - rewrite N.shiftr_lor, N.shiftr_shiftl_l by done. by rewrite N.sub_diag, N.shiftl_0_r, N.lor_0_r.
Qed.

#[export] Instance string_reader : Reader is_string write_string read_string.
Proof.
  apply Reader_intro.
  - intros pre s suf [Hu Hs] Hlen. unfold write_string in *.
    destruct (string_header (len s) Hs) as (H1 & H2 & H3).
    rewrite <- (assoc_L (++)) in *. unfold read_string.
    rewrite (reader_reads pre _ (s ++ suf)) by done. rewrite H2, H3. simpl.
    revert Hlen. rewrite (assoc_L (++) pre), <- (len_app pre). intros Hlen.
    rewrite take_bytes_at by done. rewrite Hu. do 2 f_equal. rewrite !len_app. lia.
  - intros buf pos Hl Hp. unfold read_string.
    destruct (reader_inside _ _ read_varint buf pos Hl Hp) as [(h & p & -> & Hh & ?)|(e & ->)];
      [|right; by eexists].
    destruct (negb _); [right; by eexists|].
    assert (Hsmall : N.shiftr h 2 < 2 ^ 62).
    { rewrite N.shiftr_div_pow2. apply N.Div0.div_lt_upper_bound. exact Hh. }
    destruct (take_bytes_inside buf p (N.shiftr h 2)) as [(s & -> & Hs & ? & _)|(e & ->)];
      [slice_lia| |right; by eexists].
    destruct (utf8_valid s) eqn:Hu; [left|right; by eexists].
    eexists _, _. split; [done|]. split; [by split; [|rewrite Hs]|lia].
Qed.

(** [read_bytes_field] takes back what [write_bytes_field] wrote, but a length that
    reaches [2^64] from the cursor makes it panic instead of failing. *)
Lemma read_bytes_field_reads pre data suf :
  len (pre ++ write_bytes_field data ++ suf) < SLICE_LIMIT ->
  read_bytes_field (pre ++ write_bytes_field data ++ suf) (len pre) =
  Done (data, len pre + len (write_bytes_field data)).
Proof.
  unfold write_bytes_field. intros Hlen. rewrite <- (assoc_L (++)) in *. unfold read_bytes_field.
  rewrite (reader_reads pre _ (data ++ suf)); [|unfold is_u64; slice_lia|done].
  revert Hlen. rewrite (assoc_L (++) pre), <- (len_app pre). intros Hlen.
  rewrite take_bytes_at by done. do 2 f_equal. rewrite !len_app. lia.
Qed.

Lemma read_bytes_field_panics pre n suf :
  n < U64_MODULUS -> U64_MODULUS <= len (pre ++ write_varint n) + n ->
  len (pre ++ write_varint n ++ suf) < SLICE_LIMIT ->
  read_bytes_field (pre ++ write_varint n ++ suf) (len pre) = Panicked.
Proof.
  intros Hn Hw Hlen. unfold read_bytes_field. rewrite (reader_reads pre n suf) by done.
  rewrite <- len_app. apply take_bytes_wraps; [slice_lia|done|done|slice_lia].
Qed.

(** ** Floats and list headers *)

Lemma len_to_le_bytes n v : len (to_le_bytes n v) = N.of_nat n.
Proof. revert v. induction n as [|n IH]; intros v; [done|]. simpl. rewrite len_cons, IH. lia. Qed.

Lemma from_to_le n v : v < 256 ^ N.of_nat n -> from_le_bytes (to_le_bytes n v) = v.
Proof.
  revert v. induction n as [|n IH]; intros v Hv; simpl.
  - change (256 ^ N.of_nat 0) with 1 in Hv. lia.
  - rewrite IH, u8_to_N, N.shiftr_div_pow2.
    + change (2 ^ 8) with 256. pose proof (N.div_mod v 256 ltac:(done)). lia.
    + rewrite N.shiftr_div_pow2. apply N.Div0.div_lt_upper_bound.
      by rewrite <- N.pow_succ_r', <- Nat2N.inj_succ.
Qed.

Lemma to_from_le s : to_le_bytes (length s) (from_le_bytes s) = s.
Proof.
  induction s as [|b s IH]; [done|]. simpl. pose proof (byte_to_N_lt b) as Hb.
  assert (Hq : N.shiftr (Strings.Byte.to_N b + 256 * from_le_bytes s) 8 = from_le_bytes s).
  { rewrite N.shiftr_div_pow2. symmetry. apply (N.div_unique _ _ _ (Strings.Byte.to_N b)); [done|].
    change (2 ^ 8) with 256. lia. }
  rewrite Hq, IH. f_equal. apply byte_to_N_inj. rewrite u8_to_N. symmetry.
  apply (N.mod_unique _ _ (from_le_bytes s)); [done|lia].
Qed.

Lemma from_le_bound s : from_le_bytes s < 256 ^ len s.
Proof.
  induction s as [|b s IH]; [done|]. pose proof (byte_to_N_lt b). rewrite len_cons.
  rewrite N.pow_add_r. simpl from_le_bytes. change (256 ^ 1) with 256. lia.
Qed.

#[export] Instance float64_codec : Codec is_u64 write_float64 read_float64.
Proof.
  assert (Hin : forall buf pos, len buf < SLICE_LIMIT -> pos <= len buf ->
    (exists s, read_float64 buf pos = Done (from_le_bytes s, pos + 8) /\ len s = 8 /\
       pos + 8 <= len buf /\ get_range buf pos (pos + 8) = Some s) \/
    (exists e, read_float64 buf pos = Failed e)).
  { intros buf pos Hl Hp. unfold read_float64.
    destruct (take_bytes_inside buf pos 8) as [(s & -> & ?)|(e & ->)];
      [slice_lia|left; by eexists|right; by eexists]. }
  split; [apply Reader_intro|].
  - intros pre v suf Hv Hlen. unfold read_float64, write_float64 in *.
    replace 8 with (len (to_le_bytes 8 v)) by done. rewrite take_bytes_at by done.
    by rewrite from_to_le.
  - intros buf pos Hl Hp. destruct (Hin buf pos Hl Hp) as [(s & -> & Hs & ? & _)|(e & ->)];
      [left|right; by eexists]. eexists _, _. split; [done|]. split; [|lia].
    pose proof (from_le_bound s) as H'. by rewrite Hs in H'.
  - intros buf pos v p Hl Hp H. destruct (Hin buf pos Hl Hp) as [(s & H' & Hs & ? & Hg)|(e & H')];
      rewrite H' in H; [|done]. simplify_eq. rewrite Hg. unfold write_float64.
    replace 8%nat with (length s) by (unfold len in Hs; lia). by rewrite to_from_le.
Qed.

#[export] Instance list_header_reader : Reader is_u64 write_list_header read_list_header.
Proof.
  eapply reader_ext; [..|apply (reader_conv (fun nm => is_u64 nm.1 /\ is_u8 nm.2)
    (fun nm => write_varint nm.1 ++ write_u8 nm.2) (seq_reader read_varint next_byte) _ id
    (fun n => (n, LIST_ELEMENT_HEADER)) (fun nm => if negb (nm.2 =? LIST_ELEMENT_HEADER)
       then Failed (ListHeaderMismatch nm.2) else Done nm.1)); [apply _|..]].
  - done.
  - intros buf pos. unfold read_list_header, conv_reader, seq_reader.
    destruct (read_varint _ _) as [[n p]| |]; [|done..].
    destruct (next_byte _ _) as [[m q]| |]; [|done..]. simpl. by case_match.
  - intros n Hn. by split.
  - intros a _. by case_match.
  - intros [n m] b [Hn _] H. simpl in *. case_match; by simplify_eq.
Qed.
