(* ===== verification/Envelope.v ===== *)
(** * RPC envelopes and frames

    Models [core/src/envelope.rs], the codec of the three framework values that
    wrap every call ([StreamHeader], [CallHeader], [RpcStatus]), and
    [core/src/framing.rs], the length-prefixed frames that carry them, with the
    payload compression of a data frame. The decoders are written over a cursor
    into the slice, as the source has them, on the readers of [Canonical]. zstd is a
    parameter: [compress] for [zstd::bulk::compress] and [decoder] for the stream a
    [zstd::stream::read::Decoder] yields, the bytes it gives and whether it then
    fails. *)

From S2P Require Import Prelude Contract Ticket Topology Canonical Network.

#[local] Open Scope N_scope.
#[local] Open Scope run_scope.

(** ** The envelope types *)

Definition TAG_STREAM_HEADER : N := 161.
Definition TAG_CALL_HEADER : N := 162.
Definition TAG_RPC_STATUS : N := 163.
Definition ENVELOPE_VERSION : N := 1.

(** [enum SerializationMode] and its wire value. *)
Inductive SerializationMode : Type := Xlang | Native | Row.

Definition mode_as_i8 (m : SerializationMode) : Z :=
  match m with
  | Xlang => 0
  | Native => 1
  | Row => 2
  end.

Record StreamHeader : Type := mk_StreamHeader {
  sh_service : bytes;
  sh_method : bytes;
  sh_version : Z;
  sh_call_id : Z;
  sh_deadline : Z;
  sh_serialization_mode : Z;
  sh_metadata_keys : list bytes;
  sh_metadata_values : list bytes;
  sh_session_id : Z;
}.

Record CallHeader : Type := mk_CallHeader {
  ch_method : bytes;
  ch_call_id : Z;
  ch_deadline : Z;
  ch_metadata_keys : list bytes;
  ch_metadata_values : list bytes;
}.

Record RpcStatusV : Type := mk_RpcStatusV {
  st_code : Z;
  st_message : bytes;
  st_detail_keys : list bytes;
  st_detail_values : list bytes;
}.

(** [RpcStatus::ok], [error], [status_code] and [is_ok]. *)
Definition status_ok : RpcStatusV := mk_RpcStatusV 0 [] [] [].
Definition status_error (code : WireStatus) (message : bytes) : RpcStatusV :=
  mk_RpcStatusV (as_i32 code) message [] [].
Definition status_code_of (s : RpcStatusV) : WireStatus := from_i32 (st_code s).
Definition status_is_ok (s : RpcStatusV) : bool := (st_code s =? as_i32 WS_Ok)%Z.

(** [EnvelopeError], a constructor per message. *)
Inductive EnvelopeError : Type :=
| EE_Canonical (field : string) (e : CanonicalError)
| EE_OutOfRange (field : string) (v : Z)
| EE_NonMinimalVarint (field : string)
| EE_StringHeader (field : string)
| EE_ListHeader (field : string)
| EE_ListCount (field : string) (n : N)
| EE_UnsupportedVersion (name : string) (v : N)
| EE_WrongTag (name : string) (t want : N)
| EE_EmptyInput (name : string)
| EE_Trailing (name : string) (extra : N)
| EE_Pairs (what : string) (keys values : N).

(** ** Fields *)

Definition write_int (v : Z) : bytes :=
  write_varint (as_u64 (Z.lxor (i64_wrap (Z.shiftl v 1)) (Z.shiftr v 63))).

Definition read_int (buf : bytes) (pos : N) (min max : Z) (field : string)
    : run EnvelopeError (Z * N) :=
  let start := pos in
  let* (raw, pos) := map_err (EE_Canonical field) (read_varint buf pos) in
  let v := unzigzag raw in
  if ((v <? min) || (max <? v))%Z then Failed (EE_OutOfRange field v)
  else if bool_decide (get_range buf start pos <> Some (write_varint raw))
  then Failed (EE_NonMinimalVarint field)
  else Done (v, pos).

(** [read_int(buf, p, iN::MIN as i64, iN::MAX as i64, field)? as iN]. *)
Definition read_int_as (bits : Z) (buf : bytes) (pos : N) (field : string)
    : run EnvelopeError (Z * N) :=
  let* (v, pos) := read_int buf pos (- 2 ^ (bits - 1)) (2 ^ (bits - 1) - 1) field in
  Done (((v + 2 ^ (bits - 1)) mod 2 ^ bits - 2 ^ (bits - 1))%Z, pos).

Definition read_str (buf : bytes) (pos : N) (field : string) : run EnvelopeError (bytes * N) :=
  let start := pos in
  let* (s, pos) := map_err (EE_Canonical field) (read_string buf pos) in
  if bool_decide (get_range buf start pos <> Some (write_string s))
  then Failed (EE_StringHeader field)
  else Done (s, pos).

Definition write_list (items : list bytes) : bytes :=
  write_list_header (len items) ++ mjoin (map write_string items).

(** The loop of [read_list]. *)
Fixpoint read_items (n : nat) (buf : bytes) (pos : N) (field : string)
    : run EnvelopeError (list bytes * N) :=
  match n with
  | O => Done ([], pos)
  | S n =>
      let* (s, pos) := read_str buf pos field in
      let* (out, pos) := read_items n buf pos field in
      Done (s :: out, pos)
  end.

Definition read_list (buf : bytes) (pos : N) (field : string)
    : run EnvelopeError (list bytes * N) :=
  let start := pos in
  let* (n, pos) := map_err (EE_Canonical field) (read_list_header buf pos) in
  if bool_decide (get_range buf start pos <> Some (write_list_header n))
  then Failed (EE_ListHeader field)
  else if u64_sub (len buf) pos <? n then Failed (EE_ListCount field n)
  else
    let* _ := with_capacity n 24 in
    read_items (N.to_nat n) buf pos field.

Definition begin_envelope (tag : N) : bytes := [u8 tag; u8 ENVELOPE_VERSION].

Definition expect_prefix (buf : bytes) (tag : N) (name : string) : run EnvelopeError N :=
  match buf with
  | t :: v :: _ =>
      if Strings.Byte.to_N t =? tag then
        if Strings.Byte.to_N v =? ENVELOPE_VERSION then Done 2
        else Failed (EE_UnsupportedVersion name (Strings.Byte.to_N v))
      else Failed (EE_WrongTag name (Strings.Byte.to_N t) tag)
  | [t] => Failed (EE_WrongTag name (Strings.Byte.to_N t) tag)
  | [] => Failed (EE_EmptyInput name)
  end.

Definition finish (buf : bytes) (pos : N) (name : string) : run EnvelopeError unit :=
  if negb (pos =? len buf) then Failed (EE_Trailing name (u64_sub (len buf) pos)) else Done tt.

Definition check_pairs (keys values : list bytes) (what : string) : run EnvelopeError unit :=
  if negb (len keys =? len values) then Failed (EE_Pairs what (len keys) (len values)) else Done tt.

(** ** Encoders and decoders *)

Definition encode_stream_header (h : StreamHeader) : run EnvelopeError bytes :=
  let* _ := check_pairs (sh_metadata_keys h) (sh_metadata_values h) "StreamHeader.metadata" in
  Done (begin_envelope TAG_STREAM_HEADER ++ write_string (sh_service h) ++ write_string (sh_method h)
    ++ write_int (sh_version h) ++ write_int (sh_call_id h) ++ write_int (sh_deadline h)
    ++ write_int (sh_serialization_mode h) ++ write_list (sh_metadata_keys h)
    ++ write_list (sh_metadata_values h) ++ write_int (sh_session_id h)).

Definition decode_stream_header (buf : bytes) : run EnvelopeError StreamHeader :=
  let* p := expect_prefix buf TAG_STREAM_HEADER "StreamHeader" in
  let* (service, p) := read_str buf p "service" in
  let* (method, p) := read_str buf p "method" in
  let* (version, p) := read_int_as 32 buf p "version" in
  let* (call_id, p) := read_int_as 32 buf p "call_id" in
  let* (deadline, p) := read_int_as 16 buf p "deadline" in
  let* (mode, p) := read_int_as 8 buf p "serialization_mode" in
  let* (keys, p) := read_list buf p "metadata_keys" in
  let* (values, p) := read_list buf p "metadata_values" in
  let* (session_id, p) := read_int_as 32 buf p "session_id" in
  let* _ := finish buf p "StreamHeader" in
  let* _ := check_pairs keys values "StreamHeader.metadata" in
  Done (mk_StreamHeader service method version call_id deadline mode keys values session_id).

Definition encode_call_header (h : CallHeader) : run EnvelopeError bytes :=
  let* _ := check_pairs (ch_metadata_keys h) (ch_metadata_values h) "CallHeader.metadata" in
  Done (begin_envelope TAG_CALL_HEADER ++ write_string (ch_method h) ++ write_int (ch_call_id h)
    ++ write_int (ch_deadline h) ++ write_list (ch_metadata_keys h)
    ++ write_list (ch_metadata_values h)).

Definition decode_call_header (buf : bytes) : run EnvelopeError CallHeader :=
  let* p := expect_prefix buf TAG_CALL_HEADER "CallHeader" in
  let* (method, p) := read_str buf p "method" in
  let* (call_id, p) := read_int_as 32 buf p "call_id" in
  let* (deadline, p) := read_int_as 16 buf p "deadline" in
  let* (keys, p) := read_list buf p "metadata_keys" in
  let* (values, p) := read_list buf p "metadata_values" in
  let* _ := finish buf p "CallHeader" in
  let* _ := check_pairs keys values "CallHeader.metadata" in
  Done (mk_CallHeader method call_id deadline keys values).

Definition encode_rpc_status (s : RpcStatusV) : run EnvelopeError bytes :=
  let* _ := check_pairs (st_detail_keys s) (st_detail_values s) "RpcStatus.details" in
  Done (begin_envelope TAG_RPC_STATUS ++ write_int (st_code s) ++ write_string (st_message s)
    ++ write_list (st_detail_keys s) ++ write_list (st_detail_values s)).

Definition decode_rpc_status (buf : bytes) : run EnvelopeError RpcStatusV :=
  let* p := expect_prefix buf TAG_RPC_STATUS "RpcStatus" in
  let* (code, p) := read_int_as 32 buf p "code" in
  let* (message, p) := read_str buf p "message" in
  let* (keys, p) := read_list buf p "detail_keys" in
  let* (values, p) := read_list buf p "detail_values" in
  let* _ := finish buf p "RpcStatus" in
  let* _ := check_pairs keys values "RpcStatus.details" in
  Done (mk_RpcStatusV code message keys values).

(** ** Frames *)

Definition FLAG_COMPRESSED : N := 1.
Definition FLAG_TRAILER : N := 2.
Definition FLAG_HEADER : N := 4.
Definition FLAG_ROW_SCHEMA : N := 8.
Definition FLAG_CALL : N := 16.
Definition FLAG_CANCEL : N := 32.
Definition FLAG_END_STREAM : N := 64.
Definition FLAG_TUNNEL : N := 128.

Definition MAX_FRAME_SIZE : N := 16 * 1024 * 1024.
Definition COMPRESSION_THRESHOLD : N := 4096.
Definition MAX_DECOMPRESSED_SIZE : N := 16 * 1024 * 1024.

Inductive FrameError : Type :=
| FE_EmptyPayload
| FE_TooLarge (length : N)
| FE_ShortHeader (have : N)
| FE_ZeroLength
| FE_Incomplete (need have : N)
| FE_Compress
| FE_DecoderInit
| FE_Decompress
| FE_Bomb (limit : N).

(** [1u32 + payload.len() as u32]: the cast truncates and the sum wraps. *)
Definition frame_body_len (payload : bytes) : N := (1 + len payload mod 2 ^ 32) mod 2 ^ 32.

Definition encode_frame (payload : bytes) (flags : N) : run FrameError bytes :=
  let body := frame_body_len payload in
  if (len payload =? 0)
     && (N.land flags (N.lor (N.lor FLAG_TRAILER FLAG_CANCEL) FLAG_END_STREAM) =? 0)
  then Failed FE_EmptyPayload
  else if MAX_FRAME_SIZE <? body then Failed (FE_TooLarge body)
  else Done (to_le_bytes 4 body ++ u8 flags :: payload).

(** The payload, its flags and the bytes consumed. *)
Definition decode_frame (data : bytes) : run FrameError (bytes * N * N) :=
  if len data <? 4 then Failed (FE_ShortHeader (len data))
  else
    let* header := slice data 0 4 in
    let body := from_le_bytes header in
    if body =? 0 then Failed FE_ZeroLength
    else if MAX_FRAME_SIZE <? body then Failed (FE_TooLarge body)
    else
      let total_len := 4 + body in
      if len data <? total_len then Failed (FE_Incomplete total_len (len data))
      else
        let* flags := index data 4 in
        let* payload := slice data 5 total_len in
        Done (payload, flags, total_len).

Section Compression.
  Context (compress : bytes -> option bytes) (decoder : bytes -> option (bytes * bool)).

Definition maybe_compress (payload : bytes) (threshold : N) : run FrameError (option bytes) :=
  if len payload <=? threshold then Done None
  else
    match compress payload with
    | None => Failed FE_Compress
    | Some compressed => Done (if len compressed <? len payload then Some compressed else None)
    end.

(** [decoder.take(limit + 1).read_to_end(&mut out)], then the test on [out]. *)
Definition decompress_with_limit (data : bytes) (limit : N) : run FrameError bytes :=
  match decoder data with
  | None => Failed FE_DecoderInit
  | Some (stream, fails) =>
      if limit + 1 <=? len stream then Failed (FE_Bomb limit)
      else if fails then Failed FE_Decompress
      else Done stream
  end.

Definition decompress (data : bytes) : run FrameError bytes :=
  decompress_with_limit data MAX_DECOMPRESSED_SIZE.

Definition encode_payload_frame_with_threshold (payload : bytes) (flags threshold : N)
    : run FrameError bytes :=
  let* compressed := maybe_compress payload threshold in
  match compressed with
  | Some c => encode_frame c (N.lor flags FLAG_COMPRESSED)
  | None => encode_frame payload (N.ldiff flags FLAG_COMPRESSED)
  end.

Definition encode_payload_frame (payload : bytes) (flags : N) : run FrameError bytes :=
  encode_payload_frame_with_threshold payload flags COMPRESSION_THRESHOLD.

Definition payload_of (payload : bytes) (flags : N) : run FrameError bytes :=
  if negb (N.land flags FLAG_COMPRESSED =? 0) then decompress payload else Done payload.

End Compression.

(** ** Field codecs *)

#[local] Arguments write_varint _ : simpl never.
#[local] Arguments write_string _ : simpl never.
#[local] Arguments u8 _ : simpl never.

(** A range found inside a slice lies inside it. *)
Lemma get_range_bounds buf a b s : get_range buf a b = Some s -> a <= b <= len buf.
Proof. unfold get_range. case_match eqn:H; [|done]. boolean_facts. lia. Qed.

Lemma Codec_intro {E A} (ok : A -> Prop) w (r : bytes -> N -> run E (A * N)) :
  (forall pre a suf, ok a -> len (pre ++ w a ++ suf) < SLICE_LIMIT ->
     r (pre ++ w a ++ suf) (len pre) = Done (a, len pre + len (w a))) ->
  (forall buf pos, len buf < SLICE_LIMIT -> pos <= len buf ->
     (exists a p, r buf pos = Done (a, p) /\ ok a /\ get_range buf pos p = Some (w a)) \/
     (exists e, r buf pos = Failed e)) ->
  Codec ok w r.
Proof.
  intros Hr Hi. split; [apply Reader_intro; [done|]|].
  - intros buf pos Hl Hp. destruct (Hi buf pos Hl Hp) as [(a & p & -> & ? & Hg)|?]; [left|by right].
    eexists _, _. split; [done|]. split; [done|by eapply get_range_bounds].
  - intros buf pos a p Hl Hp H. destruct (Hi buf pos Hl Hp) as [(a' & p' & H' & ? & ?)|(e & H')];
      rewrite H' in H; by simplify_eq.
Qed.

(** The test that closes each field reader: the bytes read are the bytes written. *)
Lemma checked_range {E A} buf pos p s (e : E) (a : A) :
  (if bool_decide (get_range buf pos p <> Some s) then Failed e else Done (a, p)) = Done (a, p) /\
    get_range buf pos p = Some s \/
  (if bool_decide (get_range buf pos p <> Some s) then Failed e else Done (a, p)) = Failed e.
Proof.
  case_bool_decide as H; [by right|left]. split; [done|].
  by destruct (decide (get_range buf pos p = Some s)).
Qed.

Lemma checked_same {X} buf pos p s (x y : X) :
  get_range buf pos p = Some s ->
  (if bool_decide (get_range buf pos p <> Some s) then x else y) = y.
Proof. intros H. rewrite bool_decide_false; [done|]. by intros []. Qed.

Lemma write_int_zigzag v : is_i64 v -> write_int v = write_varint (zigzag v).
Proof. intros H. unfold write_int. by rewrite zigzag_i64. Qed.

Definition within (min max v : Z) : Prop := (min <= v <= max)%Z.

#[export] Instance int_codec min max field :
  (- 2 ^ 63 <= min)%Z -> (max < 2 ^ 63)%Z ->
  Codec (within min max) write_int (fun buf pos => read_int buf pos min max field).
Proof.
  intros Hmin Hmax.
  assert (Hi64 : forall v, within min max v -> is_i64 v) by (unfold within, is_i64; lia).
  apply Codec_intro.
  - intros pre v suf Hv Hlen. pose proof (Hi64 v Hv) as Hv'. rewrite write_int_zigzag in * by done.
    unfold read_int. rewrite (reader_reads pre (zigzag v) suf) by (done || by apply zigzag_is_u64).
    simpl. rewrite unzigzag_zigzag by done. unfold within in Hv.
    rewrite (proj2 (Z.ltb_ge v min)), (proj2 (Z.ltb_ge max v)) by lia. simpl.
    by rewrite checked_same by apply get_range_mid.
  - intros buf pos Hl Hp. unfold read_int.
    destruct (reader_inside _ _ read_varint buf pos Hl Hp) as [(raw & p & -> & Hraw & ?)|(e & ->)];
      simpl; [|right; by eexists].
    destruct (_ || _)%bool eqn:Hr; [right; by eexists|]. boolean_facts.
    destruct (zigzag_unzigzag raw Hraw) as [Hz Hz'].
    destruct (checked_range buf pos p (write_varint raw) (EE_NonMinimalVarint field) (unzigzag raw))
      as [[-> Hg]| ->]; [left|right; by eexists].
    eexists _, _. split; [done|]. rewrite write_int_zigzag, Hz by done.
    split; [unfold within; lia|done].
Qed.

Definition is_int (bits v : Z) : Prop := within (- 2 ^ (bits - 1)) (2 ^ (bits - 1) - 1) v.

#[export] Instance int_as_codec bits field :
  (1 <= bits <= 64)%Z ->
  Codec (is_int bits) write_int (fun buf pos => read_int_as bits buf pos field).
Proof.
  intros Hb. assert (Hpow : (2 ^ (bits - 1) <= 2 ^ 63)%Z) by (apply Z.pow_le_mono_r; lia).
  assert (Hdbl : (2 ^ bits = 2 * 2 ^ (bits - 1))%Z).
  { rewrite <- Z.pow_succ_r by lia. f_equal. lia. }
  pose proof (Z.pow_pos_nonneg 2 (bits - 1) ltac:(lia) ltac:(lia)) as Hpos.
  assert (Hid : forall v, is_int bits v ->
    ((v + 2 ^ (bits - 1)) mod 2 ^ bits - 2 ^ (bits - 1))%Z = v).
  { intros v Hv. unfold is_int, within in Hv. rewrite Z.mod_small; lia. }
  eapply codec_ext; [..|apply (codec_conv (is_int bits) write_int
    (fun buf pos => read_int buf pos (- 2 ^ (bits - 1)) (2 ^ (bits - 1) - 1) field) (is_int bits) id id
    (fun v => Done ((v + 2 ^ (bits - 1)) mod 2 ^ bits - 2 ^ (bits - 1))%Z))].
  - done.
  - intros buf pos. unfold read_int_as, conv_reader. by destruct (read_int _ _ _ _ _) as [[]| |].
  - apply int_codec; lia.
  - intros v Hv. by rewrite Hid.
  - done.
  - intros a b Ha [= <-]. rewrite Hid by done. done.
Qed.

#[export] Instance str_codec field : Codec is_string write_string (fun buf pos => read_str buf pos field).
Proof.
  apply Codec_intro.
  - intros pre s suf Hs Hlen. unfold read_str. rewrite (reader_reads pre s suf) by done. simpl.
    by rewrite checked_same by apply get_range_mid.
  - intros buf pos Hl Hp. unfold read_str.
    destruct (reader_inside _ _ read_string buf pos Hl Hp) as [(s & p & -> & Hs & ?)|(e & ->)];
      simpl; [|right; by eexists].
    destruct (checked_range buf pos p (write_string s) (EE_StringHeader field) s)
      as [[-> Hg]| ->]; [left; by eexists _, _|right; by eexists].
Qed.

(** ** List codecs *)

Definition is_strings (l : list bytes) : Prop := Forall is_string l.
Definition write_items (l : list bytes) : bytes := mjoin (map write_string l).

Lemma len_write_items l : len l <= len (write_items l).
Proof.
  induction l as [|s l IH]; [done|]. unfold write_items in *. simpl. rewrite len_app, len_cons.
  pose proof (write_string_nonempty s). lia.
Qed.

Lemma read_items_at l field : forall pre suf,
  is_strings l -> len (pre ++ write_items l ++ suf) < SLICE_LIMIT ->
  read_items (length l) (pre ++ write_items l ++ suf) (len pre) field =
  Done (l, len pre + len (write_items l)).
Proof.
  induction l as [|s l IH]; intros pre suf Hl Hlen; simpl.
  - by rewrite N.add_0_r.
  - inversion Hl as [|? ? Hs Hl']; subst. change (write_items (s :: l)) with (write_string s ++ write_items l) in *.
    rewrite <- (assoc_L (++)) in *.
    rewrite (reader_reads (r := fun buf pos => read_str buf pos field) pre s (write_items l ++ suf)) by done.
    revert Hlen. rewrite (assoc_L (++) pre), <- (len_app pre). intros Hlen.
    rewrite IH by done. do 2 f_equal. rewrite !len_app. lia.
Qed.

Lemma read_items_inside n buf field : forall pos,
  len buf < SLICE_LIMIT -> pos <= len buf ->
  (exists l p, read_items n buf pos field = Done (l, p) /\ length l = n /\ is_strings l /\
     get_range buf pos p = Some (write_items l)) \/
  (exists e, read_items n buf pos field = Failed e).
Proof.
  induction n as [|n IH]; intros pos Hl Hp; simpl.
  - left. eexists _, _. split; [done|]. split; [done|]. split; [constructor|].
    unfold get_range. rewrite N.leb_refl, (proj2 (N.leb_le _ _) Hp). simpl. by rewrite N.sub_diag.
  - destruct (reader_inside _ _ (fun buf pos => read_str buf pos field) buf pos Hl Hp)
      as [(s & p & Hr & Hs & Hb)|(e & ->)]; [|right; by eexists].
    rewrite Hr. pose proof (codec_exact (r := fun buf pos => read_str buf pos field) _ _ _ _ Hl Hp Hr) as Hg.
    destruct (IH p Hl) as [(l & q & -> & Hn & Hok & Hg')|(e & ->)]; [lia|left|right; by eexists].
    eexists _, _. split; [done|]. split; [simpl; by rewrite Hn|]. split; [by constructor|].
    by eapply get_range_join.
Qed.

#[export] Instance list_codec field : Codec is_strings write_list (fun buf pos => read_list buf pos field).
Proof.
  apply Codec_intro.
  - intros pre l suf Hl Hlen. unfold write_list, read_list in *. fold (write_items l) in *.
    pose proof (len_write_items l) as Hn. rewrite <- (assoc_L (++)) in *.
    rewrite (reader_reads pre (len l) (write_items l ++ suf)); [simpl|unfold is_u64; slice_lia|done].
    rewrite checked_same by apply get_range_mid.
    rewrite u64_sub_small by slice_lia. rewrite (proj2 (N.ltb_ge _ _)) by slice_lia.
    unfold with_capacity. rewrite (proj2 (N.ltb_ge _ _)) by slice_lia.
    replace (N.to_nat (len l)) with (length l) by (unfold len; lia).
    revert Hlen. rewrite (assoc_L (++) pre), <- (len_app pre). intros Hlen.
    rewrite read_items_at by done. do 2 f_equal. rewrite !len_app. lia.
  - intros buf pos Hl Hp. unfold read_list.
    destruct (reader_inside _ _ read_list_header buf pos Hl Hp) as [(n & p & -> & Hn & Hb)|(e & ->)];
      simpl; [|right; by eexists].
    case_bool_decide as Hg; [right; by eexists|].
    assert (Hg' : get_range buf pos p = Some (write_list_header n))
      by by destruct (decide (get_range buf pos p = Some (write_list_header n))).
    rewrite u64_sub_small by slice_lia. destruct (len buf - p <? n) eqn:Hc; [right; by eexists|].
    apply N.ltb_ge in Hc. unfold with_capacity. rewrite (proj2 (N.ltb_ge _ _)) by slice_lia.
    destruct (read_items_inside (N.to_nat n) buf field p Hl) as [(l & q & -> & Hlen & Hok & Hi)|(e & ->)];
      [lia|left|right; by eexists].
    eexists _, _. split; [done|]. split; [done|]. unfold write_list.
    replace (len l) with n by (unfold len; lia). by eapply get_range_join.
Qed.

(** ** Envelopes

    What a type's encoder and decoder promise: on any slice the decoder returns, and
    it returns [h] exactly where [h] is a value of the type and the slice is the
    encoding of [h]. *)

Definition envelope_spec {H : Type} (typed : H -> Prop) (encode : H -> run EnvelopeError bytes)
    (decode : bytes -> run EnvelopeError H) : Prop :=
  forall b, len b < SLICE_LIMIT ->
    decode b <> Panicked /\ forall h, decode b = Done h <-> typed h /\ encode h = Done b.

Lemma expect_prefix_cases buf tag name :
  tag < 256 ->
  (exists rest, expect_prefix buf tag name = Done 2 /\ buf = begin_envelope tag ++ rest) \/
  (exists e, expect_prefix buf tag name = Failed e).
Proof.
  intros Ht. unfold expect_prefix. destruct buf as [|t [|v rest]]; [right; by eexists..|].
  destruct (Strings.Byte.to_N t =? tag) eqn:H1; [|right; by eexists].
  destruct (Strings.Byte.to_N v =? ENVELOPE_VERSION) eqn:H2; [|right; by eexists].
  left. exists rest. split; [done|]. apply N.eqb_eq in H1, H2. unfold begin_envelope.
  by rewrite <- H1, <- H2, !u8_of_to.
Qed.

Lemma expect_prefix_begin tag rest name :
  tag < 256 -> expect_prefix (begin_envelope tag ++ rest) tag name = Done 2.
Proof.
  intros Ht. unfold expect_prefix, begin_envelope. simpl. rewrite !u8_small by done.
  by rewrite !N.eqb_refl.
Qed.

Lemma check_pairs_done keys values what :
  check_pairs keys values what = Done tt <-> length keys = length values.
Proof.
  unfold check_pairs, len. destruct (N.of_nat (length keys) =? N.of_nat (length values)) eqn:H; simpl.
  - apply N.eqb_eq in H. split; [lia|done].
  - apply N.eqb_neq in H. split; [done|lia].
Qed.

Section EnvelopeOf.
  Context {H T : Type} (tag : N) (name what : string) (ok : T -> Prop) (w : T -> bytes)
    (body : bytes -> N -> run EnvelopeError (T * N)) (mk : T -> H) (fields : H -> T)
    (keys values : H -> list bytes).
  Context `{!Codec ok w body}.
  Hypothesis tag_byte : tag < 256.
  Hypothesis mk_fields : forall h, mk (fields h) = h.
  Hypothesis fields_mk : forall t, fields (mk t) = t.

Definition encode_of (h : H) : run EnvelopeError bytes :=
  let* _ := check_pairs (keys h) (values h) what in
  Done (begin_envelope tag ++ w (fields h)).

Definition decode_of (buf : bytes) : run EnvelopeError H :=
  let* p := expect_prefix buf tag name in
  let* (t, p) := body buf p in
  let* _ := finish buf p name in
  let* _ := check_pairs (keys (mk t)) (values (mk t)) what in
  Done (mk t).

Lemma finish_exact buf p : finish buf p name = Done tt <-> p = len buf.
Proof. unfold finish. destruct (p =? len buf) eqn:E; simpl; rewrite ?N.eqb_eq, ?N.eqb_neq in E; done. Qed.

Lemma decode_of_encoding h :
  ok (fields h) -> length (keys h) = length (values h) ->
  len (begin_envelope tag ++ w (fields h)) < SLICE_LIMIT -> decode_of (begin_envelope tag ++ w (fields h)) = Done h.
Proof.
  intros Hok Hkv Hlen. unfold decode_of. rewrite expect_prefix_begin by done.
  pose proof (reader_reads (begin_envelope tag) (fields h) []) as Hr. rewrite !app_nil_r in Hr.
  change 2 with (len (begin_envelope tag)). rewrite Hr by done.
  rewrite mk_fields, (proj2 (finish_exact _ _)) by by rewrite len_app.
  by rewrite (proj2 (check_pairs_done _ _ _)).
Qed.

Lemma encode_of_done h b :
  encode_of h = Done b <-> length (keys h) = length (values h) /\ b = begin_envelope tag ++ w (fields h).
Proof.
  unfold encode_of. pose proof (check_pairs_done (keys h) (values h) what) as Hc.
  destruct (check_pairs _ _ _) as [[]|e|]; (split; [intros [= <-]|intros [H1 ->]]);
    try (split; [by apply Hc|done]); try done; by apply Hc in H1.
Qed.

Lemma envelope_of : envelope_spec (fun h => ok (fields h)) encode_of decode_of.
Proof.
  intros b Hb. split.
  - unfold decode_of. destruct (expect_prefix_cases b tag name tag_byte) as [(rest & -> & Hr)|(e & ->)]; [|done].
    destruct (reader_inside _ _ body b 2 Hb) as [(t & p & -> & _)|(e & ->)];
      [subst b; rewrite len_app; unfold begin_envelope; simpl; rewrite !len_cons; lia| |done].
    unfold finish, check_pairs. by repeat case_match.
  - intros h. split.
    + unfold decode_of. intros Hd.
      destruct (expect_prefix_cases b tag name tag_byte) as [(rest & He & Hr)|(e & He)]; rewrite He in Hd; [|done].
      destruct (body b 2) as [[t p]|e|] eqn:Hbody; try done.
      destruct (finish b p name) as [[]|e|] eqn:Hf; try done. apply finish_exact in Hf.
      destruct (check_pairs _ _ what) as [[]|e|] eqn:Hc; try done. apply check_pairs_done in Hc.
      injection Hd as <-. assert (H2 : 2 <= len b) by (subst b; rewrite len_app; unfold begin_envelope; rewrite !len_cons; lia).
      destruct (reader_bounds _ _ _ _ Hb H2 Hbody) as [Hok _]. rewrite fields_mk. split; [done|].
      apply encode_of_done. split; [done|]. rewrite fields_mk.
      apply (codec_exact _ _ _ _ Hb H2), get_range_split in Hbody as [Hp (suf & Hsplit & _)].
      destruct suf as [|x suf].
      2:{ apply (f_equal len) in Hsplit. rewrite !len_app, len_cons in Hsplit. 
          assert (len (take (N.to_nat 2) b) = 2) by (unfold len in *; rewrite length_take; lia). lia. }
      rewrite app_nil_r in Hsplit. rewrite Hsplit, Hr. done.
    + intros [Hok He]. apply encode_of_done in He as [Hkv ->]. by apply decode_of_encoding.
Qed.

End EnvelopeOf.

(** The values the Rust types can hold: integers of the field's width, UTF-8. *)
Definition stream_typed (h : StreamHeader) : Prop :=
  is_string (sh_service h) /\ is_string (sh_method h) /\ is_int 32 (sh_version h) /\
  is_int 32 (sh_call_id h) /\ is_int 16 (sh_deadline h) /\ is_int 8 (sh_serialization_mode h) /\
  is_strings (sh_metadata_keys h) /\ is_strings (sh_metadata_values h) /\ is_int 32 (sh_session_id h).

Definition call_typed (h : CallHeader) : Prop :=
  is_string (ch_method h) /\ is_int 32 (ch_call_id h) /\ is_int 16 (ch_deadline h) /\
  is_strings (ch_metadata_keys h) /\ is_strings (ch_metadata_values h).

Definition status_typed (s : RpcStatusV) : Prop :=
  is_int 32 (st_code s) /\ is_string (st_message s) /\
  is_strings (st_detail_keys s) /\ is_strings (st_detail_values s).

Lemma envelope_spec_ext {H} (typed typed' : H -> Prop) encode encode' decode decode' :
  (forall h, typed' h <-> typed h) -> (forall h, encode' h = encode h) -> (forall b, decode' b = decode b) ->
  envelope_spec typed encode decode -> envelope_spec typed' encode' decode'.
Proof.
  intros Ht He Hd Hs b Hb. rewrite Hd. destruct (Hs b Hb) as [? Hi]. split; [done|].
  intros h. by rewrite He, Ht.
Qed.

(** The codecs of two fields in sequence, and of an [iN] field. *)
Notation "c1 ⨾ c2" := (codec_seq _ _ _ _ _ _ c1 c2) (at level 60, right associativity).
#[local] Notation int_field bits field := (int_as_codec bits field ltac:(lia)).

(** A decoder is its fields in sequence: every field reader is taken in turn. *)
Ltac step_fields :=
  repeat match goal with
  | |- context [match ?r with Done _ => _ | Failed _ => _ | Panicked => _ end] =>
      match r with
      | read_str _ _ _ => destruct r as [[? ?]| |]; [|done..]
      | read_list _ _ _ => destruct r as [[? ?]| |]; [|done..]
      | read_int_as _ _ _ _ => destruct r as [[? ?]| |]; [|done..]
      | expect_prefix _ _ _ => destruct r; [|done..]
      end
  end; done.

Lemma stream_header_spec : envelope_spec stream_typed encode_stream_header decode_stream_header.
Proof.
  pose proof (str_codec "service" ⨾ str_codec "method" ⨾ int_field 32 "version" ⨾ int_field 32 "call_id"
    ⨾ int_field 16 "deadline" ⨾ int_field 8 "serialization_mode" ⨾ list_codec "metadata_keys"
    ⨾ list_codec "metadata_values" ⨾ int_field 32 "session_id") as C.
  pose proof (envelope_of TAG_STREAM_HEADER "StreamHeader" "StreamHeader.metadata" _ _ _
    (fun '(s, (m, (v, (c, (d, (z, (k, (x, i)))))))) => mk_StreamHeader s m v c d z k x i)
    (fun h => (sh_service h, (sh_method h, (sh_version h, (sh_call_id h, (sh_deadline h,
      (sh_serialization_mode h, (sh_metadata_keys h, (sh_metadata_values h, sh_session_id h)))))))))
    sh_metadata_keys sh_metadata_values (Codec0 := C)) as E.
  refine (envelope_spec_ext _ _ _ _ _ _ _ _ _ (E _ _ _)); [done|done| |done|by intros []|].
  - intros b. unfold decode_stream_header, decode_of, seq_reader. step_fields.
  - by intros (? & ? & ? & ? & ? & ? & ? & ? & ?).
Qed.

Lemma call_header_spec : envelope_spec call_typed encode_call_header decode_call_header.
Proof.
  pose proof (str_codec "method" ⨾ int_field 32 "call_id" ⨾ int_field 16 "deadline"
    ⨾ list_codec "metadata_keys" ⨾ list_codec "metadata_values") as C.
  pose proof (envelope_of TAG_CALL_HEADER "CallHeader" "CallHeader.metadata" _ _ _
    (fun '(m, (c, (d, (k, x)))) => mk_CallHeader m c d k x)
    (fun h => (ch_method h, (ch_call_id h, (ch_deadline h, (ch_metadata_keys h, ch_metadata_values h)))))
    ch_metadata_keys ch_metadata_values (Codec0 := C)) as E.
  refine (envelope_spec_ext _ _ _ _ _ _ _ _ _ (E _ _ _)); [done|done| |done|by intros []|].
  - intros b. unfold decode_call_header, decode_of, seq_reader. step_fields.
  - by intros (? & ? & ? & ? & ?).
Qed.

Lemma rpc_status_spec : envelope_spec status_typed encode_rpc_status decode_rpc_status.
Proof.
  pose proof (int_field 32 "code" ⨾ str_codec "message" ⨾ list_codec "detail_keys"
    ⨾ list_codec "detail_values") as C.
  pose proof (envelope_of TAG_RPC_STATUS "RpcStatus" "RpcStatus.details" _ _ _
    (fun '(c, (m, (k, x))) => mk_RpcStatusV c m k x)
    (fun s => (st_code s, (st_message s, (st_detail_keys s, st_detail_values s))))
    st_detail_keys st_detail_values (Codec0 := C)) as E.
  refine (envelope_spec_ext _ _ _ _ _ _ _ _ _ (E _ _ _)); [done|done| |done|by intros []|].
  - intros b. unfold decode_rpc_status, decode_of, seq_reader. step_fields.
  - by intros (? & ? & ? & ?).
Qed.

(** The bytes of the module's own tests. *)
Example status_bytes :
  encode_rpc_status (status_error WS_NotFound [u8 110; u8 111]) =
  Done (map u8 [163; 1; 10; 10; 110; 111; 0; 12; 0; 12]) /\
  encode_rpc_status status_ok = Done (map u8 [163; 1; 0; 2; 0; 12; 0; 12]) /\
  decode_rpc_status (map u8 [163; 1; 128; 0; 2; 0; 12; 0; 12]) = Failed (EE_NonMinimalVarint "code").
Proof. vm_compute. done. Qed.

(** ** Frames *)

Lemma len_frame_parts body flags payload :
  len (to_le_bytes 4 body ++ u8 flags :: payload) = 5 + len payload.
Proof. rewrite len_app, len_to_le_bytes, len_cons. lia. Qed.

(** A frame with its true length in front is taken off the data, whatever follows. *)
Lemma decode_frame_at body flags payload rest :
  body = 1 + len payload -> body <= MAX_FRAME_SIZE -> is_u8 flags ->
  decode_frame (to_le_bytes 4 body ++ u8 flags :: payload ++ rest) =
  Done (payload, flags, 5 + len payload).
Proof.
  intros Hb Hmax Hf. unfold decode_frame, slice.
  set (data := to_le_bytes 4 body ++ u8 flags :: payload ++ rest).
  assert (Hlen : len data = 5 + len payload + len rest).
  { unfold data. rewrite len_app, len_to_le_bytes, len_cons, len_app. lia. }
  assert (Hhead : get_range data 0 4 = Some (to_le_bytes 4 body)) by exact (get_range_mid [] (to_le_bytes 4 body) _).
  assert (Hbody : get_range data 5 (4 + body) = Some payload).
  { pose proof (get_range_mid (to_le_bytes 4 body ++ [u8 flags]) payload rest) as Hg.
    rewrite len_app, len_to_le_bytes, <- (assoc_L (++)) in Hg. subst body.
    by replace (4 + (1 + len payload)) with (5 + len payload) by lia. }
  assert (Hmax' : body < 256 ^ N.of_nat 4) by (unfold MAX_FRAME_SIZE in Hmax; lia).
  rewrite Hlen, (proj2 (N.ltb_ge _ _)), Hhead, from_to_le by (done || lia).
  rewrite (proj2 (N.eqb_neq _ _)), (proj2 (N.ltb_ge _ _)), (proj2 (N.ltb_ge _ _)), Hbody by lia.
  unfold index. simpl. rewrite u8_small by done. do 2 f_equal. lia.
Qed.

(** What [decode_frame] returns on any data: the frame there, or an error. *)
Lemma decode_frame_cases data :
  (exists payload flags rest,
     decode_frame data = Done (payload, flags, 5 + len payload) /\ is_u8 flags /\
     1 + len payload <= MAX_FRAME_SIZE /\
     data = to_le_bytes 4 (1 + len payload) ++ u8 flags :: payload ++ rest) \/
  (exists e, decode_frame data = Failed e).
Proof.
  unfold decode_frame, slice. destruct (len data <? 4) eqn:H4; [right; by eexists|]. apply N.ltb_ge in H4.
  destruct data as [|b0 [|b1 [|b2 [|b3 data]]]]; [rewrite ?len_cons in H4; unfold len in H4; simpl in H4; lia..|].
  assert (Hh : get_range (b0 :: b1 :: b2 :: b3 :: data) 0 4 = Some [b0; b1; b2; b3])
    by exact (get_range_mid [] [b0; b1; b2; b3] data).
  rewrite Hh. set (body := from_le_bytes [b0; b1; b2; b3]).
  assert (Hle : to_le_bytes 4 body = [b0; b1; b2; b3]) by exact (to_from_le [b0; b1; b2; b3]).
  destruct (body =? 0) eqn:H0; [right; by eexists|]. apply N.eqb_neq in H0.
  destruct (MAX_FRAME_SIZE <? body) eqn:Hm; [right; by eexists|]. apply N.ltb_ge in Hm.
  destruct (_ <? 4 + body) eqn:Hi; [right; by eexists|]. apply N.ltb_ge in Hi. left.
  destruct data as [|f data]; [rewrite !len_cons in Hi; change (@len byte []) with 0 in Hi; lia|].
  destruct (get_range_inside (b0 :: b1 :: b2 :: b3 :: f :: data) 5 (4 + body)) as (s & Hs & Hl); [lia|].
  rewrite Hs. apply get_range_split in Hs as [_ (rest & Hsplit & _)]. simpl in Hsplit.
  injection Hsplit as Hsplit. exists s, (Strings.Byte.to_N f), rest.
  replace (1 + len s) with body by lia. rewrite Hle, u8_of_to.
  split; [unfold index; simpl; do 2 f_equal; lia|]. split; [apply byte_to_N_lt|]. split; [done|].
  simpl. by rewrite <- Hsplit.
Qed.

(** A payload short of 4 GiB has the length written for it. *)
Lemma frame_body_len_small payload : len payload < 2 ^ 32 - 1 -> frame_body_len payload = 1 + len payload.
Proof. intros H. unfold frame_body_len. rewrite (N.mod_small (len payload)), N.mod_small; lia. Qed.

Lemma encode_frame_done payload flags frame :
  encode_frame payload flags = Done frame ->
  frame_body_len payload <= MAX_FRAME_SIZE /\
  frame = to_le_bytes 4 (frame_body_len payload) ++ u8 flags :: payload.
Proof.
  unfold encode_frame. case_match; [done|]. case_match eqn:Hm; [done|]. apply N.ltb_ge in Hm. by intros [= <-].
Qed.

Lemma encode_decode_frame payload flags frame rest :
  len payload < 2 ^ 32 - 1 -> is_u8 flags -> encode_frame payload flags = Done frame ->
  decode_frame (frame ++ rest) = Done (payload, flags, len frame).
Proof.
  intros Hlen Hf He. apply encode_frame_done in He as [Hm ->]. rewrite frame_body_len_small in * by done.
  rewrite len_frame_parts, <- (assoc_L (++)). by apply decode_frame_at.
Qed.

(** A payload of [2^32 + k] bytes is sent behind the length of [k] bytes: the cast of
    the length drops the rest before the size limit is tested. *)
Lemma oversized_frame_is_cut payload flags k :
  len payload = 2 ^ 32 + k -> 1 + k <= MAX_FRAME_SIZE -> is_u8 flags ->
  exists frame, encode_frame payload flags = Done frame /\
    decode_frame frame = Done (take (N.to_nat k) payload, flags, 5 + k) /\ 5 + k < len frame.
Proof.
  intros Hlen Hk Hf. assert (Hb : frame_body_len payload = 1 + k).
  { unfold frame_body_len. unfold MAX_FRAME_SIZE in Hk.
    rewrite Hlen, <- (N.mod_unique (2 ^ 32 + k) (2 ^ 32) 1 k), N.mod_small; lia. }
  exists (to_le_bytes 4 (1 + k) ++ u8 flags :: payload). split; [|split].
  - unfold encode_frame. rewrite Hb, (proj2 (N.eqb_neq _ _)), (proj2 (N.ltb_ge _ _)) by lia. done.
  - assert (Htake : len (take (N.to_nat k) payload) = k).
    { unfold len in *. rewrite length_take. lia. }
    pose proof (decode_frame_at (1 + k) flags (take (N.to_nat k) payload) (drop (N.to_nat k) payload)) as Hd.
    rewrite take_drop, Htake in Hd. by apply Hd.
  - rewrite len_frame_parts. lia.
Qed.

(** The two flag words of a data frame: only the compression bit differs, and it
    tells the two apart. *)
Lemma flag_compressed_set flags :
  N.ldiff (N.lor flags FLAG_COMPRESSED) FLAG_COMPRESSED = N.ldiff flags FLAG_COMPRESSED /\
  (N.land (N.lor flags FLAG_COMPRESSED) FLAG_COMPRESSED =? 0) = false.
Proof.
  split.
  - apply N.bits_inj. intros i. rewrite !N.ldiff_spec, N.lor_spec. by destruct (N.testbit flags i), (N.testbit _ i).
  - rewrite N.land_lor_distr_l. unfold FLAG_COMPRESSED. apply N.eqb_neq. intros H%N.lor_eq_0_iff. by destruct H.
Qed.

Lemma flag_compressed_clear flags :
  N.ldiff (N.ldiff flags FLAG_COMPRESSED) FLAG_COMPRESSED = N.ldiff flags FLAG_COMPRESSED /\
  (N.land (N.ldiff flags FLAG_COMPRESSED) FLAG_COMPRESSED =? 0) = true.
Proof.
  split.
  - apply N.bits_inj. intros i. rewrite !N.ldiff_spec. by destruct (N.testbit flags i), (N.testbit _ i).
  - apply N.eqb_eq, N.bits_inj. intros i. rewrite N.land_spec, N.ldiff_spec, N.bits_0.
    by destruct (N.testbit flags i), (N.testbit _ i).
Qed.

Lemma flags_stay_bytes flags :
  is_u8 flags -> is_u8 (N.lor flags FLAG_COMPRESSED) /\ is_u8 (N.ldiff flags FLAG_COMPRESSED).
Proof.
  unfold is_u8. intros H. rewrite <- (N.mod_small flags 256) by done.
  change 256 with (2 ^ 8). rewrite <- N.land_ones. split.
  - replace FLAG_COMPRESSED with (N.land FLAG_COMPRESSED (N.ones 8)) by done.
    rewrite <- N.land_lor_distr_l, N.land_ones. by apply N.mod_lt.
  - assert (Hb : N.ldiff (N.land flags (N.ones 8)) FLAG_COMPRESSED =
      N.land (N.ldiff flags FLAG_COMPRESSED) (N.ones 8)).
    { apply N.bits_inj. intros i. rewrite N.ldiff_spec, !N.land_spec, N.ldiff_spec.
      by destruct (N.testbit flags i), (N.testbit (N.ones 8) i), (N.testbit FLAG_COMPRESSED i). }
    rewrite Hb, N.land_ones. by apply N.mod_lt.
Qed.

Section Payloads.
  Context (compress : bytes -> option bytes) (decoder : bytes -> option (bytes * bool)).
  Hypothesis zstd_lossless : forall p c, compress p = Some c -> decoder c = Some (p, false).

(** Which of the two forms [encode_payload_frame_with_threshold] sends. *)
Lemma payload_frame_cases payload flags threshold frame :
  encode_payload_frame_with_threshold compress payload flags threshold = Done frame ->
  exists wire wflags, encode_frame wire wflags = Done frame /\ len wire <= len payload /\
    (wire = payload /\ wflags = N.ldiff flags FLAG_COMPRESSED \/
     compress payload = Some wire /\ wflags = N.lor flags FLAG_COMPRESSED).
Proof.
  unfold encode_payload_frame_with_threshold, maybe_compress. intros H.
  assert (Hraw : encode_frame payload (N.ldiff flags FLAG_COMPRESSED) = Done frame ->
    exists wire wflags, encode_frame wire wflags = Done frame /\ len wire <= len payload /\
    (wire = payload /\ wflags = N.ldiff flags FLAG_COMPRESSED \/
     compress payload = Some wire /\ wflags = N.lor flags FLAG_COMPRESSED)).
  { intros He. eexists payload, _. split; [done|]. split; [done|by left]. }
  destruct (len payload <=? threshold); [by apply Hraw|].
  destruct (compress payload) as [c|] eqn:Hz; [|done]. destruct (len c <? len payload) eqn:Hc.
  - apply N.ltb_lt in Hc. exists c. eexists. split; [done|]. split; [lia|by right].
  - by apply Hraw.
Qed.

Lemma payload_of_either payload flags wire wflags :
  len payload <= MAX_DECOMPRESSED_SIZE ->
  wire = payload /\ wflags = N.ldiff flags FLAG_COMPRESSED \/
  compress payload = Some wire /\ wflags = N.lor flags FLAG_COMPRESSED ->
  payload_of decoder wire wflags = Done payload /\
  N.ldiff wflags FLAG_COMPRESSED = N.ldiff flags FLAG_COMPRESSED.
Proof.
  intros Hlen [[-> ->]|[Hc ->]]; unfold payload_of.
  - destruct (flag_compressed_clear flags) as [-> ->]. done.
  - destruct (flag_compressed_set flags) as [-> ->]. split; [|done]. simpl.
    unfold decompress, decompress_with_limit. rewrite (zstd_lossless _ _ Hc).
    by rewrite (proj2 (N.leb_gt _ _)) by lia.
Qed.

(** A payload over the decompression limit that compresses below the frame limit is
    sent, and every receiver refuses it. *)
Lemma oversized_payload_refused payload flags wire :
  COMPRESSION_THRESHOLD < len payload -> MAX_DECOMPRESSED_SIZE < len payload -> is_u8 flags ->
  compress payload = Some wire -> 0 < len wire -> 1 + len wire <= MAX_FRAME_SIZE ->
  exists frame, encode_payload_frame compress payload flags = Done frame /\
    decode_frame frame = Done (wire, N.lor flags FLAG_COMPRESSED, len frame) /\
    payload_of decoder wire (N.lor flags FLAG_COMPRESSED) = Failed (FE_Bomb MAX_DECOMPRESSED_SIZE).
Proof.
  intros Ht Hbig Hf Hc Hw Hmax.
  assert (Hsmall : len wire < 2 ^ 32 - 1) by (unfold MAX_FRAME_SIZE in Hmax; lia).
  assert (He : encode_frame wire (N.lor flags FLAG_COMPRESSED) =
    Done (to_le_bytes 4 (1 + len wire) ++ u8 (N.lor flags FLAG_COMPRESSED) :: wire)).
  { unfold encode_frame. rewrite frame_body_len_small by done.
    by rewrite (proj2 (N.eqb_neq _ _)), (proj2 (N.ltb_ge _ _)) by lia. }
  eexists. split; [|split].
  - unfold encode_payload_frame, encode_payload_frame_with_threshold, maybe_compress.
    rewrite (proj2 (N.leb_gt _ _)), Hc, (proj2 (N.ltb_lt _ _)) by
      (unfold MAX_DECOMPRESSED_SIZE, MAX_FRAME_SIZE in *; lia). exact He.
  - rewrite <- (app_nil_r (_ ++ _)) at 1. by apply encode_decode_frame; [|apply flags_stay_bytes|].
  - unfold payload_of. destruct (flag_compressed_set flags) as [_ ->]. simpl.
    unfold decompress, decompress_with_limit. rewrite (zstd_lossless _ _ Hc).
    by rewrite (proj2 (N.leb_le _ _)) by lia.
Qed.

End Payloads.

(** ** What the wire path guarantees *)

(** C31: Each RPC envelope has exactly one encoding. On any slice the three decoders
    return without a panic, and a decoder yields [h] if and only if [h] is a value of
    the Rust type and the slice is the encoder's output for [h]: what was encoded is
    decoded to the same value, and nothing but an encoder's output is accepted
    (non-minimal integers, other string headers, overlong counts, trailing bytes,
    unequal key and value lists are all refused). No slice is accepted by two of the
    decoders. *)
Theorem envelopes_canonical (b : bytes) :
  len b < SLICE_LIMIT ->
  (decode_stream_header b <> Panicked /\
   forall h, decode_stream_header b = Done h <-> stream_typed h /\ encode_stream_header h = Done b) /\
  (decode_call_header b <> Panicked /\
   forall h, decode_call_header b = Done h <-> call_typed h /\ encode_call_header h = Done b) /\
  (decode_rpc_status b <> Panicked /\
   forall s, decode_rpc_status b = Done s <-> status_typed s /\ encode_rpc_status s = Done b) /\
  forall h c s,
    ~ (decode_stream_header b = Done h /\ decode_call_header b = Done c) /\
    ~ (decode_stream_header b = Done h /\ decode_rpc_status b = Done s) /\
    ~ (decode_call_header b = Done c /\ decode_rpc_status b = Done s).
Proof.
  intros Hb. pose proof (stream_header_spec b Hb) as Hs. pose proof (call_header_spec b Hb) as Hc.
  pose proof (rpc_status_spec b Hb) as Hr. split; [done|]. split; [done|]. split; [done|].
  assert (H1 : forall h, encode_stream_header h = Done b -> head b = Some (u8 TAG_STREAM_HEADER)).
  { intros h He. unfold encode_stream_header in He. by case_match; simplify_eq. }
  assert (H2 : forall h, encode_call_header h = Done b -> head b = Some (u8 TAG_CALL_HEADER)).
  { intros h He. unfold encode_call_header in He. by case_match; simplify_eq. }
  assert (H3 : forall h, encode_rpc_status h = Done b -> head b = Some (u8 TAG_RPC_STATUS)).
  { intros h He. unfold encode_rpc_status in He. by case_match; simplify_eq. }
  intros h c s. destruct Hs as [_ Hs], Hc as [_ Hc], Hr as [_ Hr]. rewrite Hs, Hc, Hr.
  repeat split; intros [[_ Ha] [_ Hz]];
    (apply H1 in Ha || apply H2 in Ha); (apply H2 in Hz || apply H3 in Hz); by rewrite Ha in Hz.
Qed.

(** A status with two details, a check mark and the least code, decoded from the 22 bytes
    it is encoded to. *)
Definition sample_status : RpcStatusV :=
  mk_RpcStatusV (- 2 ^ 31) (map u8 [226; 156; 147]) [[u8 97]; []] [[u8 49]; [u8 50]].
Definition sample_bytes : bytes :=
  map u8 [163; 1; 255; 255; 255; 255; 15; 14; 226; 156; 147; 2; 12; 6; 97; 2; 2; 12; 6; 49; 6; 50].

Lemma envelopes_canonical_witness :
  len sample_bytes < SLICE_LIMIT /\
  decode_rpc_status sample_bytes = Done sample_status /\
  status_typed sample_status /\ encode_rpc_status sample_status = Done sample_bytes.
Proof.
  split; [by vm_compute|]. assert (Hd : decode_rpc_status sample_bytes = Done sample_status) by by vm_compute.
  split; [exact Hd|].
  destruct (envelopes_canonical sample_bytes ltac:(by vm_compute)) as (_ & _ & [_ Hs] & _).
  by apply Hs.
Defined.

(** C33: A data frame delivers its payload. When the sender produces a frame for a
    payload of at most 16 MiB, compressed or not, a receiver that has the frame,
    with anything after it, takes off exactly its bytes and recovers the payload and
    the sender's flags (the compression bit apart), provided zstd restores what it
    compressed. And on any received data the decoder returns without a panic, inside
    the data, and no payload it leads to, decompressed or not, exceeds 16 MiB. *)
Theorem frames_lossless_and_bounded (compress : bytes -> option bytes)
    (decoder : bytes -> option (bytes * bool))
    (zstd_lossless : forall p c, compress p = Some c -> decoder c = Some (p, false)) :
  (forall payload flags threshold frame rest,
     is_u8 flags -> len payload <= MAX_DECOMPRESSED_SIZE ->
     encode_payload_frame_with_threshold compress payload flags threshold = Done frame ->
     len frame <= 4 + MAX_FRAME_SIZE /\
     exists wire wflags,
       decode_frame (frame ++ rest) = Done (wire, wflags, len frame) /\
       payload_of decoder wire wflags = Done payload /\
       N.ldiff wflags FLAG_COMPRESSED = N.ldiff flags FLAG_COMPRESSED) /\
  (forall data,
     decode_frame data <> Panicked /\
     forall wire wflags n p,
       decode_frame data = Done (wire, wflags, n) -> payload_of decoder wire wflags = Done p ->
       n = 5 + len wire /\ n <= len data /\ len p <= MAX_DECOMPRESSED_SIZE).
Proof.
  split.
  - intros payload flags threshold frame rest Hf Hlen He.
    destruct (payload_frame_cases _ _ _ _ _ He) as (wire & wflags & Hframe & Hw & Hform).
    destruct (payload_of_either _ _ zstd_lossless _ _ _ _ Hlen Hform) as [Hp Hflags].
    assert (Hwf : is_u8 wflags) by (destruct (flags_stay_bytes flags Hf); destruct Hform as [[_ ->]|[_ ->]]; done).
    assert (Hsmall : len wire < 2 ^ 32 - 1) by (unfold MAX_DECOMPRESSED_SIZE in Hlen; lia). split.
    + destruct (encode_frame_done _ _ _ Hframe) as [Hm ->]. rewrite frame_body_len_small in Hm by done.
      rewrite len_frame_parts. lia.
    + exists wire, wflags. split; [by apply encode_decode_frame|done].
  - intros data. destruct (decode_frame_cases data) as [(payload & flags & rest & -> & _ & Hm & Hd)|(e & ->)];
      [|by split]. split; [done|]. intros wire wflags n p [= <- <- <-] Hp. split; [done|]. split.
    + rewrite Hd, len_app, len_to_le_bytes, len_cons, len_app. lia.
    + unfold payload_of, decompress, decompress_with_limit in Hp. case_match; [|simplify_eq; unfold MAX_FRAME_SIZE, MAX_DECOMPRESSED_SIZE in *; lia].
      destruct (decoder payload) as [[out fails]|]; [|done]. case_match eqn:Ho; [done|].
      apply N.leb_gt in Ho. case_match; [done|]. simplify_eq. lia.
Qed.

(** A stand-in for zstd that shortens a run of zeros to its length. *)
Definition sample_compress (p : bytes) : option bytes :=
  Some (if bool_decide (p = replicate (length p) (u8 0)) && (len p <? 256)
        then [u8 1; u8 (len p)] else u8 0 :: p).

Definition sample_decoder (c : bytes) : option (bytes * bool) :=
  match c with
  | t :: rest =>
      if Strings.Byte.to_N t =? 1 then
        match rest with
        | [n] => Some (replicate (N.to_nat (Strings.Byte.to_N n)) (u8 0), false)
        | _ => None
        end
      else Some (rest, false)
  | [] => None
  end.

Lemma sample_lossless p c : sample_compress p = Some c -> sample_decoder c = Some (p, false).
Proof.
  unfold sample_compress. intros [= <-]. case_bool_decide as Hp; simpl; [|done].
  destruct (len p <? 256) eqn:Hl; [|done]. apply N.ltb_lt in Hl. simpl.
  rewrite !u8_small by done. simpl. unfold len. rewrite Nat2N.id. by rewrite <- Hp.
Qed.

Lemma frames_lossless_and_bounded_witness :
  exists frame wire,
    encode_payload_frame_with_threshold sample_compress (replicate 40 (u8 0)) FLAG_END_STREAM 16 = Done frame /\
    decode_frame (frame ++ [u8 9]) = Done (wire, N.lor FLAG_END_STREAM FLAG_COMPRESSED, 7) /\
    payload_of sample_decoder wire (N.lor FLAG_END_STREAM FLAG_COMPRESSED) = Done (replicate 40 (u8 0)).
Proof.
  exists (map u8 [3; 0; 0; 0; 65; 1; 40]), (map u8 [1; 40]).
  destruct (frames_lossless_and_bounded sample_compress sample_decoder sample_lossless) as [Hsend _].
  destruct (Hsend (replicate 40 (u8 0)) FLAG_END_STREAM 16 (map u8 [3; 0; 0; 0; 65; 1; 40]) [u8 9])
    as [_ (wire & wflags & Hd & Hp & _)]; [done|by vm_compute|by vm_compute|].
  assert (Hd' : decode_frame (map u8 [3; 0; 0; 0; 65; 1; 40] ++ [u8 9]) =
    Done (map u8 [1; 40], N.lor FLAG_END_STREAM FLAG_COMPRESSED, 7)) by by vm_compute.
  rewrite Hd' in Hd. injection Hd as <- <-. split; [by vm_compute|]. split; [exact Hd'|exact Hp].
Defined.
