(* ===== verification/Identity.v ===== *)
(** * Contract identity

    Models the canonical serialization of [core/src/contract.rs]: the type
    definitions, methods and service contracts a contract id is computed from, the
    order and field ids the writers impose on them, the readers that mirror the
    writers, the check of the producer language and the evaluation of a capability.
    Unicode normalization ([unicode_normalization]'s [nfc]) and the hex strings
    ([hex::encode], [hex::decode]) are parameters; a [f64] is its 64-bit pattern. *)

From S2P Require Import Prelude Contract Ids Ticket Topology Canonical.

#[local] Open Scope N_scope.
#[local] Open Scope run_scope.

(** ** Enumerations, with their discriminants *)

Inductive TypeKind : Type := TK_Primitive | TK_Ref | TK_SelfRef | TK_Any.
Inductive ContainerKind : Type := CK_None | CK_List | CK_Set | CK_Map.
Inductive TypeDefKind : Type := TD_Message | TD_Enum | TD_Union.
Inductive MethodPattern : Type := MP_Unary | MP_ServerStream | MP_ClientStream | MP_BidiStream.
Inductive CapabilityKind : Type := CAP_Role | CAP_AnyOf | CAP_AllOf.
Inductive ScopeKind : Type := SC_Shared | SC_Session.

Definition type_kind_code (k : TypeKind) : N :=
  match k with TK_Primitive => 0 | TK_Ref => 1 | TK_SelfRef => 2 | TK_Any => 3 end.
Definition container_kind_code (k : ContainerKind) : N :=
  match k with CK_None => 0 | CK_List => 1 | CK_Set => 2 | CK_Map => 3 end.
Definition type_def_kind_code (k : TypeDefKind) : N :=
  match k with TD_Message => 0 | TD_Enum => 1 | TD_Union => 2 end.
Definition method_pattern_code (k : MethodPattern) : N :=
  match k with MP_Unary => 0 | MP_ServerStream => 1 | MP_ClientStream => 2 | MP_BidiStream => 3 end.
Definition capability_kind_code (k : CapabilityKind) : N :=
  match k with CAP_Role => 0 | CAP_AnyOf => 1 | CAP_AllOf => 2 end.
Definition scope_kind_code (k : ScopeKind) : N :=
  match k with SC_Shared => 0 | SC_Session => 1 end.

Definition type_kind_from_u64 (v : N) : run CanonicalError TypeKind :=
  match v with
  | 0 => Done TK_Primitive | 1 => Done TK_Ref | 2 => Done TK_SelfRef | 3 => Done TK_Any
  | other => Failed (UnknownCode other)
  end.
Definition container_kind_from_u64 (v : N) : run CanonicalError ContainerKind :=
  match v with
  | 0 => Done CK_None | 1 => Done CK_List | 2 => Done CK_Set | 3 => Done CK_Map
  | other => Failed (UnknownCode other)
  end.
Definition type_def_kind_from_u64 (v : N) : run CanonicalError TypeDefKind :=
  match v with
  | 0 => Done TD_Message | 1 => Done TD_Enum | 2 => Done TD_Union
  | other => Failed (UnknownCode other)
  end.
Definition method_pattern_from_u64 (v : N) : run CanonicalError MethodPattern :=
  match v with
  | 0 => Done MP_Unary | 1 => Done MP_ServerStream | 2 => Done MP_ClientStream
  | 3 => Done MP_BidiStream | other => Failed (UnknownCode other)
  end.
Definition capability_kind_from_u64 (v : N) : run CanonicalError CapabilityKind :=
  match v with
  | 0 => Done CAP_Role | 1 => Done CAP_AnyOf | 2 => Done CAP_AllOf
  | other => Failed (UnknownCode other)
  end.
Definition scope_kind_from_u64 (v : N) : run CanonicalError ScopeKind :=
  match v with
  | 0 => Done SC_Shared | 1 => Done SC_Session
  | other => Failed (UnknownCode other)
  end.

(** ** Structures *)

Record FieldDef : Type := mk_FieldDef {
  fd_id : Z;
  fd_name : bytes;
  fd_type_kind : TypeKind;
  fd_type_primitive : bytes;
  fd_type_ref : bytes;
  fd_self_ref_name : bytes;
  fd_optional : bool;
  fd_ref_tracked : bool;
  fd_container : ContainerKind;
  fd_container_key_kind : TypeKind;
  fd_container_key_primitive : bytes;
  fd_container_key_ref : bytes;
  fd_required : bool;
  fd_default_value : bytes;
}.

Record EnumValueDef : Type := mk_EnumValueDef { ev_name : bytes; ev_value : Z }.

Record UnionVariantDef : Type := mk_UnionVariantDef {
  uv_name : bytes;
  uv_id : Z;
  uv_type_ref : bytes;
}.

Record TypeDef : Type := mk_TypeDef {
  td_kind : TypeDefKind;
  td_package : bytes;
  td_name : bytes;
  td_fields : list FieldDef;
  td_enum_values : list EnumValueDef;
  td_union_variants : list UnionVariantDef;
}.

Record CapabilityRequirement : Type := mk_CapabilityRequirement {
  cr_kind : CapabilityKind;
  cr_roles : list bytes;
}.

Record MethodDef : Type := mk_MethodDef {
  md_name : bytes;
  md_pattern : MethodPattern;
  md_request_type : bytes;
  md_response_type : bytes;
  md_idempotent : bool;
  md_default_timeout : N;
  md_requires : option CapabilityRequirement;
}.

Record ServiceContract : Type := mk_ServiceContract {
  sc_name : bytes;
  sc_version : Z;
  sc_methods : list MethodDef;
  sc_serialization_modes : list bytes;
  sc_scoped : ScopeKind;
  sc_requires : option CapabilityRequirement;
  sc_producer_language : bytes;
}.

(** ** Order *)

(** [slice::sort_by]: the stable sort. *)
Fixpoint insert_by {A : Type} (le : A -> A -> bool) (x : A) (l : list A) : list A :=
  match l with
  | [] => [x]
  | y :: t => if le x y then x :: l else y :: insert_by le x t
  end.

Definition sort_by {A : Type} (le : A -> A -> bool) (l : list A) : list A :=
  foldr (insert_by le) [] l.

(** [str::chars] as code points: the decoding of well-formed UTF-8. *)
Fixpoint chars (s : bytes) : list N :=
  let bits b m := Strings.Byte.to_N b mod m in
  match s with
  | [] => []
  | a :: t =>
      if Strings.Byte.to_N a <? 128 then Strings.Byte.to_N a :: chars t
      else
        match t with
        | [] => []
        | b :: t1 =>
            if Strings.Byte.to_N a <? 224 then bits a 32 * 64 + bits b 64 :: chars t1
            else
              match t1 with
              | [] => []
              | c :: t2 =>
                  if Strings.Byte.to_N a <? 240
                  then bits a 16 * 4096 + bits b 64 * 64 + bits c 64 :: chars t2
                  else
                    match t2 with
                    | [] => []
                    | d :: t3 =>
                        bits a 8 * 262144 + bits b 64 * 4096 + bits c 64 * 64 + bits d 64 :: chars t3
                    end
              end
        end
  end.

(** [Vec<u32>::cmp] is not [Greater]. *)
Fixpoint cps_leb (a b : list N) : bool :=
  match a, b with
  | [], _ => true
  | _ :: _, [] => false
  | x :: a, y :: b => (x <? y) || ((x =? y) && cps_leb a b)
  end.

(** A list: its header and its items; and the loop that reads [n] items. *)
Definition write_items_with {A : Type} (w : A -> bytes) (l : list A) : bytes :=
  write_list_header (len l) ++ mjoin (map w l).

Fixpoint read_loop {A : Type} (r : bytes -> N -> run CanonicalError (A * N)) (n : nat)
    (buf : bytes) (pos : N) : run CanonicalError (list A * N) :=
  match n with
  | O => Done ([], pos)
  | S n =>
      let* (a, pos) := r buf pos in
      let* (out, pos) := read_loop r n buf pos in
      Done (a :: out, pos)
  end.

(** [let n = read_list_header(..)?; Vec::with_capacity(n); for _ in 0..n { .. }], the
    elements taking [size] bytes each. *)
Definition read_items_with {A : Type} (size : N) (r : bytes -> N -> run CanonicalError (A * N))
    (buf : bytes) (pos : N) : run CanonicalError (list A * N) :=
  let* (n, pos) := read_list_header buf pos in
  let* _ := with_capacity n size in
  read_loop r (N.to_nat n) buf pos.

(** [from(read_varint(buf, pos)?)?]. *)
Definition read_code {A : Type} (from : N -> run CanonicalError A) (buf : bytes) (pos : N)
    : run CanonicalError (A * N) :=
  let* (raw, pos) := read_varint buf pos in
  let* k := from raw in
  Done (k, pos).

(** An optional field: the presence byte, then the value. *)
Definition write_option {A : Type} (w : A -> bytes) (o : option A) : bytes :=
  match o with
  | None => write_optional_absent
  | Some a => write_optional_present_prefix ++ w a
  end.

Definition read_option {A : Type} (r : bytes -> N -> run CanonicalError (A * N)) (buf : bytes)
    (pos : N) : run CanonicalError (option A * N) :=
  let* (present, pos) := read_optional_present buf pos in
  if (present : bool) then
    let* (a, pos) := r buf pos in
    Done (Some a, pos)
  else Done (None, pos).

Definition set_fd_id (i : Z) (f : FieldDef) : FieldDef :=
  mk_FieldDef i (fd_name f) (fd_type_kind f) (fd_type_primitive f) (fd_type_ref f)
    (fd_self_ref_name f) (fd_optional f) (fd_ref_tracked f) (fd_container f)
    (fd_container_key_kind f) (fd_container_key_primitive f) (fd_container_key_ref f)
    (fd_required f) (fd_default_value f).

(** [for (i, fd) in sorted.iter_mut().enumerate() { fd.id = (i + 1) as i32 }]. *)
Definition number_fields (l : list FieldDef) : list FieldDef :=
  imap (fun i f => set_fd_id (i32_wrap (Z.of_nat i + 1)) f) l.

Section Canonicalization.
  Context (nfc : bytes -> bytes) (hex_encode : bytes -> bytes) (hex_decode : bytes -> option bytes).

(** The comparison of names by the code points of their normal form. *)
Definition name_leb (a b : bytes) : bool := cps_leb (chars (nfc a)) (chars (nfc b)).

Definition hex_to_bytes (s : bytes) : bytes :=
  if bool_decide (s = []) then [] else default [] (hex_decode s).

Definition write_field_def (fd : FieldDef) : bytes :=
  write_zigzag_i32 (fd_id fd) ++ write_string (fd_name fd)
  ++ write_varint (type_kind_code (fd_type_kind fd)) ++ write_string (fd_type_primitive fd)
  ++ write_bytes_field (hex_to_bytes (fd_type_ref fd)) ++ write_string (fd_self_ref_name fd)
  ++ write_bool (fd_optional fd) ++ write_bool (fd_ref_tracked fd)
  ++ write_varint (container_kind_code (fd_container fd))
  ++ write_varint (type_kind_code (fd_container_key_kind fd))
  ++ write_string (fd_container_key_primitive fd)
  ++ write_bytes_field (hex_to_bytes (fd_container_key_ref fd)) ++ write_bool (fd_required fd)
  ++ write_bytes_field (hex_to_bytes (fd_default_value fd)).

Definition derive_nfc_sorted_field_ids (fields : list FieldDef) : list FieldDef :=
  number_fields (sort_by (fun a b => name_leb (fd_name a) (fd_name b)) fields).

Definition write_enum_value_def (ev : EnumValueDef) : bytes :=
  write_string (ev_name ev) ++ write_zigzag_i32 (ev_value ev).

Definition write_union_variant_def (uv : UnionVariantDef) : bytes :=
  write_string (uv_name uv) ++ write_zigzag_i32 (uv_id uv)
  ++ write_bytes_field (hex_to_bytes (uv_type_ref uv)).

Definition write_type_def (td : TypeDef) : bytes :=
  write_varint (type_def_kind_code (td_kind td)) ++ write_string (td_package td)
  ++ write_string (td_name td)
  ++ write_items_with write_field_def (derive_nfc_sorted_field_ids (td_fields td))
  ++ write_items_with write_enum_value_def
       (sort_by (fun a b => (ev_value a <=? ev_value b)%Z) (td_enum_values td))
  ++ write_items_with write_union_variant_def
       (sort_by (fun a b => (uv_id a <=? uv_id b)%Z) (td_union_variants td)).

Definition write_capability_requirement (cap : CapabilityRequirement) : bytes :=
  write_varint (capability_kind_code (cr_kind cap))
  ++ write_items_with write_string
       (sort_by (fun a b => cps_leb (chars a) (chars b)) (map nfc (cr_roles cap))).

Definition write_method_def (md : MethodDef) : bytes :=
  write_string (md_name md) ++ write_varint (method_pattern_code (md_pattern md))
  ++ write_bytes_field (hex_to_bytes (md_request_type md))
  ++ write_bytes_field (hex_to_bytes (md_response_type md)) ++ write_bool (md_idempotent md)
  ++ write_float64 (md_default_timeout md)
  ++ write_option write_capability_requirement (md_requires md).

Definition write_service_contract (sc : ServiceContract) : bytes :=
  write_string (sc_name sc) ++ write_zigzag_i32 (sc_version sc)
  ++ write_items_with write_method_def
       (sort_by (fun a b => name_leb (md_name a) (md_name b)) (sc_methods sc))
  ++ write_items_with write_string (sc_serialization_modes sc)
  ++ write_varint (scope_kind_code (sc_scoped sc))
  ++ write_option write_capability_requirement (sc_requires sc)
  ++ write_string (sc_producer_language sc).

(** [canonical_xlang_bytes_type_def] and its two siblings. *)
Definition canonical_xlang_bytes_type_def (td : TypeDef) : bytes := write_type_def td.
Definition canonical_xlang_bytes_service_contract (sc : ServiceContract) : bytes :=
  write_service_contract sc.
Definition canonical_xlang_bytes_method_def (md : MethodDef) : bytes := write_method_def md.

(** [hex::encode(read_bytes_field(buf, pos)?)]. *)
Definition read_hex (buf : bytes) (pos : N) : run CanonicalError (bytes * N) :=
  let* (b, pos) := read_bytes_field buf pos in
  Done (hex_encode b, pos).

Definition read_field_def (buf : bytes) (pos : N) : run CanonicalError (FieldDef * N) :=
  let* (id, pos) := read_zigzag_i32 buf pos in
  let* (name, pos) := read_string buf pos in
  let* (type_kind, pos) := read_code type_kind_from_u64 buf pos in
  let* (type_primitive, pos) := read_string buf pos in
  let* (type_ref, pos) := read_hex buf pos in
  let* (self_ref_name, pos) := read_string buf pos in
  let* (optional, pos) := read_bool buf pos in
  let* (ref_tracked, pos) := read_bool buf pos in
  let* (container, pos) := read_code container_kind_from_u64 buf pos in
  let* (key_kind, pos) := read_code type_kind_from_u64 buf pos in
  let* (key_primitive, pos) := read_string buf pos in
  let* (key_ref, pos) := read_hex buf pos in
  let* (required, pos) := read_bool buf pos in
  let* (default_value, pos) := read_hex buf pos in
  Done (mk_FieldDef id name type_kind type_primitive type_ref self_ref_name optional ref_tracked
          container key_kind key_primitive key_ref required default_value, pos).

Definition read_enum_value_def (buf : bytes) (pos : N) : run CanonicalError (EnumValueDef * N) :=
  let* (name, pos) := read_string buf pos in
  let* (value, pos) := read_zigzag_i32 buf pos in
  Done (mk_EnumValueDef name value, pos).

Definition read_union_variant_def (buf : bytes) (pos : N)
    : run CanonicalError (UnionVariantDef * N) :=
  let* (name, pos) := read_string buf pos in
  let* (id, pos) := read_zigzag_i32 buf pos in
  let* (type_ref, pos) := read_hex buf pos in
  Done (mk_UnionVariantDef name id type_ref, pos).

(** The sizes of a [FieldDef], an [EnumValueDef] and a [UnionVariantDef]: their
    [String]s of 24 bytes, the rest, and the padding to 8. *)
Definition read_type_def (buf : bytes) (pos : N) : run CanonicalError (TypeDef * N) :=
  let* (kind, pos) := read_code type_def_kind_from_u64 buf pos in
  let* (package, pos) := read_string buf pos in
  let* (name, pos) := read_string buf pos in
  let* (fields, pos) := read_items_with 192 read_field_def buf pos in
  let* (enum_values, pos) := read_items_with 32 read_enum_value_def buf pos in
  let* (union_variants, pos) := read_items_with 56 read_union_variant_def buf pos in
  Done (mk_TypeDef kind package name fields enum_values union_variants, pos).

Definition read_capability_requirement (buf : bytes) (pos : N)
    : run CanonicalError (CapabilityRequirement * N) :=
  let* (kind, pos) := read_code capability_kind_from_u64 buf pos in
  let* (roles, pos) := read_items_with 24 read_string buf pos in
  Done (mk_CapabilityRequirement kind roles, pos).

Definition read_method_def (buf : bytes) (pos : N) : run CanonicalError (MethodDef * N) :=
  let* (name, pos) := read_string buf pos in
  let* (pattern, pos) := read_code method_pattern_from_u64 buf pos in
  let* (request_type, pos) := read_hex buf pos in
  let* (response_type, pos) := read_hex buf pos in
  let* (idempotent, pos) := read_bool buf pos in
  let* (default_timeout, pos) := read_float64 buf pos in
  let* (requires, pos) := read_option read_capability_requirement buf pos in
  Done (mk_MethodDef name pattern request_type response_type idempotent default_timeout requires, pos).

Definition read_service_contract (buf : bytes) (pos : N) : run CanonicalError (ServiceContract * N) :=
  let* (name, pos) := read_string buf pos in
  let* (version, pos) := read_zigzag_i32 buf pos in
  let* (methods, pos) := read_items_with 120 read_method_def buf pos in
  let* (modes, pos) := read_items_with 24 read_string buf pos in
  let* (scoped, pos) := read_code scope_kind_from_u64 buf pos in
  let* (requires, pos) := read_option read_capability_requirement buf pos in
  let* (producer_language, pos) := read_string buf pos in
  Done (mk_ServiceContract name version methods modes scoped requires producer_language, pos).

(** [let mut pos = 0; let x = read(bytes, &mut pos)?; expect_eof(bytes, pos)?; Ok(x)]. *)
Definition decode_whole {A : Type} (r : bytes -> N -> run CanonicalError (A * N)) (buf : bytes)
    : run CanonicalError A :=
  let* (x, pos) := r buf 0 in
  let* _ := expect_eof buf pos in
  Done x.

Definition decode_type_def_bytes (buf : bytes) : run CanonicalError TypeDef :=
  decode_whole read_type_def buf.
Definition decode_service_contract_bytes (buf : bytes) : run CanonicalError ServiceContract :=
  decode_whole read_service_contract buf.
Definition decode_method_def_bytes (buf : bytes) : run CanonicalError MethodDef :=
  decode_whole read_method_def buf.

(** [validate_producer_language]: which of its three refusals, if any. *)
Inductive ProducerLanguageError : Type :=
| PL_Missing
| PL_Unexpected (language : bytes)
| PL_Unknown (language : bytes).

Definition PRODUCER_LANGUAGES : list bytes :=
  map String.list_byte_of_string ["python"; "typescript"; "java"; "csharp"; "go"]%string.
Definition NATIVE_MODE : bytes := String.list_byte_of_string "native".

Definition validate_producer_language (sc : ServiceContract) : result unit ProducerLanguageError :=
  let has_native := existsb (fun m => bool_decide (m = NATIVE_MODE)) (sc_serialization_modes sc) in
  let language := sc_producer_language sc in
  if has_native && bool_decide (language = []) then Err PL_Missing
  else if negb has_native && negb (bool_decide (language = [])) then Err (PL_Unexpected language)
  else if has_native && negb (existsb (fun l => bool_decide (l = language)) PRODUCER_LANGUAGES)
  then Err (PL_Unknown language)
  else Ok tt.

Definition canonical_xlang_bytes_service_contract_checked (sc : ServiceContract)
    : result bytes ProducerLanguageError :=
  match validate_producer_language sc with
  | Ok _ => Ok (canonical_xlang_bytes_service_contract sc)
  | Err e => Err e
  end.

End Canonicalization.

(** ** Capabilities *)

Definition ROLE_ATTRIBUTE : bytes := String.list_byte_of_string "aster.role".

(** [char::is_whitespace]: the code points with the White_Space property. *)
Definition is_whitespace (c : N) : bool :=
  ((9 <=? c) && (c <=? 13)) || (c =? 32) || (c =? 133) || (c =? 160) || (c =? 5760)
  || ((8192 <=? c) && (c <=? 8202)) || (c =? 8232) || (c =? 8233) || (c =? 8239) || (c =? 8287)
  || (c =? 12288).

Fixpoint trim_start (l : list N) : list N :=
  match l with
  | c :: t => if is_whitespace c then trim_start t else l
  | [] => []
  end.

Definition trim (l : list N) : list N := rev (trim_start (rev (trim_start l))).

(** [str::split(',')]. *)
Fixpoint split_commas (l : list N) : list (list N) :=
  match l with
  | [] => [[]]
  | c :: t =>
      if c =? 44 then [] :: split_commas t
      else
        match split_commas t with
        | w :: ws => (c :: w) :: ws
        | [] => [[c]]
        end
  end.

Definition caller_roles (attributes : gmap bytes bytes) : list (list N) :=
  match attributes !! ROLE_ATTRIBUTE with
  | None => []
  | Some raw => List.filter (fun r => negb (bool_decide (r = []))) (map trim (split_commas (chars raw)))
  end.

Definition evaluate_capability (req : CapabilityRequirement) (attributes : gmap bytes bytes) : bool :=
  let contains role := bool_decide (chars role ∈ caller_roles attributes) in
  match cr_kind req with
  | CAP_Role => match cr_roles req with [] => true | role :: _ => contains role end
  | CAP_AnyOf => bool_decide (cr_roles req = []) || existsb contains (cr_roles req)
  | CAP_AllOf => forallb contains (cr_roles req)
  end.

(** A caller that gains roles keeps every capability it had. *)
Lemma capability_monotone req attributes attributes' :
  (forall r, r ∈ caller_roles attributes -> r ∈ caller_roles attributes') ->
  evaluate_capability req attributes = true -> evaluate_capability req attributes' = true.
Proof.
  intros Hsub. unfold evaluate_capability. destruct (cr_kind req).
  - destruct (cr_roles req) as [|role rest]; [done|]. rewrite !bool_decide_eq_true. apply Hsub.
  - rewrite !orb_true_iff, !existsb_exists. intros [H|(r & Hr & H)]; [by left|right].
    exists r. split; [done|]. rewrite bool_decide_eq_true in *. by apply Hsub.
  - rewrite !forallb_forall. intros H r Hr. specialize (H r Hr). rewrite bool_decide_eq_true in *. by apply Hsub.
Qed.

Example padded_roles_are_read :
  let attributes := {[ ROLE_ATTRIBUTE := String.list_byte_of_string " admin, ,ops " ]} in
  evaluate_capability (mk_CapabilityRequirement CAP_AllOf
    (map String.list_byte_of_string ["ops"; "admin"]%string)) attributes = true /\
  evaluate_capability (mk_CapabilityRequirement CAP_AnyOf
    (map String.list_byte_of_string ["audit"]%string)) attributes = false.
Proof. by vm_compute. Qed.

(** ** Readers that take back what was written

    The half of [Reader] that holds for [read_bytes_field] too. *)

Class Reads {A : Type} (ok : A -> Prop) (w : A -> bytes)
    (r : bytes -> N -> run CanonicalError (A * N)) : Prop :=
  reads_at pre a suf :
    ok a -> len (pre ++ w a ++ suf) < SLICE_LIMIT ->
    r (pre ++ w a ++ suf) (len pre) = Done (a, len pre + len (w a)).

Lemma reader_is_reads {A} (ok : A -> Prop) w r : Reader ok w r -> Reads ok w r.
Proof. intros H pre a suf. apply reader_reads. Qed.

Lemma reads_seq {A B} (oka : A -> Prop) wa ra (okb : B -> Prop) wb rb :
  Reads oka wa ra -> Reads okb wb rb ->
  Reads (fun ab => oka ab.1 /\ okb ab.2) (fun ab => wa ab.1 ++ wb ab.2) (seq_reader ra rb).
Proof.
  intros Ha Hb pre [a b] suf [Hoa Hob] Hlen. simpl in *. unfold seq_reader.
  rewrite <- (assoc_L (++)) in *. rewrite (reads_at pre a (wb b ++ suf)) by done.
  revert Hlen. rewrite (assoc_L (++) pre), <- (len_app pre). intros Hlen.
  rewrite (reads_at (pre ++ wa a) b suf) by done. do 2 f_equal. rewrite !len_app. lia.
Qed.

(** A record read as the tuple of its fields. *)
Lemma reads_record {T R} (ok : T -> Prop) w r (fields : R -> T) (mk : T -> R) r' :
  Reads ok w r -> (forall x, mk (fields x) = x) ->
  (forall buf pos, r' buf pos = let* (t, p) := r buf pos in Done (mk t, p)) ->
  Reads (fun x => ok (fields x)) (fun x => w (fields x)) r'.
Proof.
  intros Hr Hmk Heq pre x suf Hok Hlen. rewrite Heq, (reads_at pre (fields x) suf) by done. by rewrite Hmk.
Qed.

Definition is_utf8 (s : bytes) : Prop := utf8_valid s = true.

(** A string inside a slice is short enough for its header. *)
Lemma reads_string : Reads is_utf8 write_string read_string.
Proof.
  intros pre s suf Hs Hlen. apply (reader_reads pre s suf); [|done]. split; [done|].
  unfold write_string in Hlen. slice_lia.
Qed.

Lemma reads_code {A} (code : A -> N) (from : N -> run CanonicalError A) :
  (forall k, code k < 256) -> (forall k, from (code k) = Done k) ->
  Reads (fun _ => True) (fun k => write_varint (code k)) (read_code from).
Proof.
  intros Hc Hf pre k suf _ Hlen. unfold read_code.
  rewrite (reader_reads pre (code k) suf); [|unfold is_u64, U64_MODULUS; specialize (Hc k); lia|done].
  by rewrite Hf.
Qed.

Lemma reads_loop {A} (ok : A -> Prop) w r `{!Reads ok w r} l : forall pre suf,
  Forall ok l -> len (pre ++ mjoin (map w l) ++ suf) < SLICE_LIMIT ->
  read_loop r (length l) (pre ++ mjoin (map w l) ++ suf) (len pre) =
  Done (l, len pre + len (mjoin (map w l))).
Proof.
  induction l as [|a l IH]; intros pre suf Hl Hlen.
  - simpl. change (@len byte []) with 0. by rewrite N.add_0_r.
  - inversion Hl as [|? ? Ha Hl']; subst.
    change (mjoin (map w (a :: l))) with (w a ++ mjoin (map w l)) in *.
    rewrite <- (assoc_L (++)) in *. simpl. rewrite (reads_at pre a (mjoin (map w l) ++ suf)) by done.
    revert Hlen. rewrite (assoc_L (++) pre), <- (len_app pre). intros Hlen.
    rewrite IH by done. do 2 f_equal. rewrite !len_app. lia.
Qed.

(** Lists of elements that take at least a byte each. *)
Lemma reads_items {A} (size : N) (ok : A -> Prop) w r `{!Reads ok w r} :
  (forall a, size <= 24 * len (w a)) -> (forall a, 1 <= len (w a)) ->
  Reads (Forall ok) (write_items_with w) (read_items_with size r).
Proof.
  intros Hsize Hw pre l suf Hl Hlen. unfold write_items_with, read_items_with in *.
  assert (Hn : size * len l <= 24 * len (mjoin (map w l)) /\ len l <= len (mjoin (map w l))).
  { clear Hlen Hl. induction l as [|a l [IH1 IH2]]; [unfold len; simpl; lia|].
    simpl. rewrite len_app, len_cons. specialize (Hsize a). specialize (Hw a). nia. }
  rewrite <- (assoc_L (++)) in *.
  rewrite (reader_reads pre (len l) (mjoin (map w l) ++ suf)); [|unfold is_u64; slice_lia|done].
  unfold with_capacity. rewrite (proj2 (N.ltb_ge _ _)) by slice_lia.
  replace (N.to_nat (len l)) with (length l) by (unfold len; lia).
  revert Hlen. rewrite (assoc_L (++) pre), <- (len_app pre). intros Hlen.
  rewrite (reads_loop ok w r) by done. do 2 f_equal. rewrite !len_app. lia.
Qed.

Lemma reads_option {A} (ok : A -> Prop) w r `{!Reads ok w r} :
  Reads (fun o => match o with Some a => ok a | None => True end) (write_option w) (read_option r).
Proof.
  intros pre [a|] suf Hok Hlen; unfold write_option, read_option in *.
  - rewrite <- (assoc_L (++)) in *.
    rewrite (reader_reads (w := write_presence) pre true (w a ++ suf)) by done.
    revert Hlen. rewrite (assoc_L (++) pre), <- (len_app pre). intros Hlen.
    change (write_presence true) with write_optional_present_prefix.
    rewrite (reads_at (pre ++ write_optional_present_prefix) a suf) by done. do 2 f_equal. rewrite !len_app. lia.
  - by rewrite (reader_reads (w := write_presence) pre false suf).
Qed.

(** ** The stable sort *)

Section Sorting.
  Context {A : Type} (le : A -> A -> bool).

Lemma insert_by_perm x l : insert_by le x l ≡ₚ x :: l.
Proof. induction l as [|y l IH]; simpl; [done|]. destruct (le x y); [done|]. rewrite IH. apply Permutation_swap. Qed.

Lemma sort_by_perm l : sort_by le l ≡ₚ l.
Proof. induction l as [|x l IH]; simpl; [done|]. by rewrite insert_by_perm, IH. Qed.

Lemma sort_by_Forall (P : A -> Prop) l : Forall P l -> Forall P (sort_by le l).
Proof. intros H. by rewrite sort_by_perm. Qed.

Context (le_total : forall a b, le a b = true \/ le b a = true).
Context (le_trans : forall a b c, le a b = true -> le b c = true -> le a c = true).

Lemma insert_by_sorted x l :
  StronglySorted (fun a b => le a b = true) l -> StronglySorted (fun a b => le a b = true) (insert_by le x l).
Proof.
  induction 1 as [|y l Hl IH Hy]; simpl; [by repeat constructor|]. destruct (le x y) eqn:E.
  - constructor; [by constructor|]. constructor; [done|]. eapply list.Forall_impl; [exact Hy|].
    intros z Hz. by eapply le_trans.
  - constructor; [done|]. rewrite insert_by_perm. constructor; [|done].
    destruct (le_total x y); congruence.
Qed.

Lemma sort_by_sorted l : StronglySorted (fun a b => le a b = true) (sort_by le l).
Proof. induction l as [|x l IH]; simpl; [constructor|by apply insert_by_sorted]. Qed.

(** Where no two elements compare equal, the order of the input does not matter. *)
Lemma sort_by_unique l k :
  l ≡ₚ k -> (forall a b, a ∈ l -> b ∈ l -> le a b = true -> le b a = true -> a = b) ->
  sort_by le l = sort_by le k.
Proof.
  intros Hp Hanti. apply (StronglySorted_unique_strong (fun a b => le a b = true)).
  - intros a b Ha Hb. rewrite sort_by_perm in Ha, Hb. rewrite <- Hp in Hb. by apply Hanti.
  - apply sort_by_sorted.
  - apply sort_by_sorted.
  - by rewrite !sort_by_perm.
Qed.

End Sorting.

Lemma cps_leb_total a b : cps_leb a b = true \/ cps_leb b a = true.
Proof.
  revert b. induction a as [|x a IH]; intros [|y b]; simpl; [by left|by left|by right|].
  destruct (N.lt_trichotomy x y) as [H|[->|H]].
  - left. by rewrite (proj2 (N.ltb_lt _ _) H).
  - rewrite N.ltb_irrefl, N.eqb_refl. simpl. apply IH.
  - right. by rewrite (proj2 (N.ltb_lt _ _) H).
Qed.

Lemma cps_leb_trans a b c : cps_leb a b = true -> cps_leb b c = true -> cps_leb a c = true.
Proof.
  revert b c. induction a as [|x a IH]; intros [|y b] [|z c]; simpl; try done.
  rewrite !orb_true_iff, !andb_true_iff, !N.ltb_lt, !N.eqb_eq.
  intros [H1|[-> H1]] [H2|[-> H2]]; [left; lia|by left|by left|]. right. eauto.
Qed.

Lemma cps_leb_antisym a b : cps_leb a b = true -> cps_leb b a = true -> a = b.
Proof.
  revert b. induction a as [|x a IH]; intros [|y b]; simpl; try done.
  rewrite !orb_true_iff, !andb_true_iff, !N.ltb_lt, !N.eqb_eq.
  intros [H1|[-> H1]] [H2|[H2' H2]]; try lia. f_equal. by apply IH.
Qed.

Lemma sort_by_map {A B} (f : A -> B) (le : B -> B -> bool) (le' : A -> A -> bool) l :
  (forall a b, le (f a) (f b) = le' a b) -> sort_by le (map f l) = map f (sort_by le' l).
Proof.
  intros H. induction l as [|x l IH]; [done|]. simpl. rewrite IH. generalize (sort_by le' l) as k. clear IH.
  induction k as [|y k IH]; [done|]. simpl. rewrite H. destruct (le' x y); [done|]. simpl. by rewrite IH.
Qed.

(** Elements told apart by a key are told apart by the order of their keys. *)
Lemma NoDup_key_inj {A K} (key : A -> K) l a b :
  NoDup (map key l) -> a ∈ l -> b ∈ l -> key a = key b -> a = b.
Proof.
  intros Hn Ha Hb Hk. apply list_elem_of_lookup in Ha as [i Hi], Hb as [j Hj].
  assert (i = j) as ->; [|congruence]. eapply (NoDup_lookup _ i j (key a)); [done|..];
    change (map key l) with (key <$> l); rewrite list_lookup_fmap, ?Hi, ?Hj; simpl; by rewrite ?Hk.
Qed.

#[local] Notation "c1 ⨾ c2" := (reads_seq _ _ _ _ _ _ c1 c2) (at level 60, right associativity).

(** A record reader is the reader of its fields in sequence. *)
Ltac step_reads :=
  repeat match goal with
  | |- context [match ?r with Done _ => _ | Failed _ => _ | Panicked => _ end] =>
      lazymatch r with
      | match _ with _ => _ end => fail
      | _ => destruct r as [[? ?]| |]; [|done..]
      end
  end; done.

Section Laws.
  Context (nfc : bytes -> bytes) (hex_encode : bytes -> bytes) (hex_decode : bytes -> option bytes).
  Hypothesis hex_roundtrip : forall b, hex_decode (hex_encode b) = Some b.
  Hypothesis hex_empty : hex_encode [] = [].
  Hypothesis nfc_utf8 : forall s, is_utf8 s -> is_utf8 (nfc s).

#[local] Abbreviation to_bytes := (hex_to_bytes hex_decode).

Definition is_hex (s : bytes) : Prop := hex_encode (to_bytes s) = s.

Lemma to_bytes_encode b : to_bytes (hex_encode b) = b.
Proof.
  unfold hex_to_bytes. case_bool_decide as H; [|by rewrite hex_roundtrip].
  pose proof (hex_roundtrip b) as Hb. rewrite H, <- hex_empty, hex_roundtrip in Hb. by injection Hb.
Qed.

Lemma reads_hex :
  Reads is_hex (fun s => write_bytes_field (to_bytes s)) (read_hex hex_encode).
Proof.
  intros pre s suf Hs Hlen. unfold read_hex. rewrite read_bytes_field_reads by done. by rewrite Hs.
Qed.

Definition field_ok (f : FieldDef) : Prop :=
  is_i32 (fd_id f) /\ is_utf8 (fd_name f) /\ True /\ is_utf8 (fd_type_primitive f) /\
  is_hex (fd_type_ref f) /\ is_utf8 (fd_self_ref_name f) /\ True /\ True /\ True /\ True /\
  is_utf8 (fd_container_key_primitive f) /\ is_hex (fd_container_key_ref f) /\ True /\
  is_hex (fd_default_value f).

Lemma reads_type_kind :
  Reads (fun _ => True) (fun k => write_varint (type_kind_code k)) (read_code type_kind_from_u64).
Proof. by apply reads_code; intros []. Qed.

Lemma reads_field_def : Reads field_ok (write_field_def hex_decode) (read_field_def hex_encode).
Proof.
  assert (Hc : Reads (fun _ => True) (fun k => write_varint (container_kind_code k))
    (read_code container_kind_from_u64)) by by apply reads_code; intros [].
  pose proof (reader_is_reads _ _ _ bool_codec.(codec_reader)) as Hb.
  refine (reads_record _ _ _ (fun f => (fd_id f, (fd_name f, (fd_type_kind f, (fd_type_primitive f,
    (fd_type_ref f, (fd_self_ref_name f, (fd_optional f, (fd_ref_tracked f, (fd_container f,
    (fd_container_key_kind f, (fd_container_key_primitive f, (fd_container_key_ref f, (fd_required f,
    fd_default_value f))))))))))))))
    (fun '(a, (b, (c, (d, (e, (f, (g, (h, (i, (j, (k, (l, (m, n))))))))))))) =>
       mk_FieldDef a b c d e f g h i j k l m n) _
    (reader_is_reads _ _ _ zigzag_i32_reader ⨾ reads_string ⨾ reads_type_kind ⨾ reads_string ⨾ reads_hex
     ⨾ reads_string ⨾ Hb ⨾ Hb ⨾ Hc ⨾ reads_type_kind ⨾ reads_string ⨾ reads_hex ⨾ Hb ⨾ reads_hex) _ _).
  - by intros [].
  - intros buf pos. unfold read_field_def, seq_reader. step_reads.
Qed.

(** Each writer's least number of bytes. *)
Lemma len_write_bytes_field b : 1 <= len (write_bytes_field b).
Proof. unfold write_bytes_field. rewrite len_app. pose proof (len_write_varint (len b)). lia. Qed.

Lemma len_write_zigzag z : 1 <= len (write_zigzag_i32 z).
Proof. apply len_write_varint. Qed.

Lemma len_write_field_def f : 14 <= len (write_field_def hex_decode f).
Proof.
  unfold write_field_def. rewrite !len_app.
  pose proof (len_write_zigzag (fd_id f)). pose proof (write_string_nonempty (fd_name f)).
  pose proof (len_write_varint (type_kind_code (fd_type_kind f))).
  pose proof (write_string_nonempty (fd_type_primitive f)).
  pose proof (len_write_bytes_field (to_bytes (fd_type_ref f))).
  pose proof (write_string_nonempty (fd_self_ref_name f)).
  pose proof (len_write_varint (container_kind_code (fd_container f))).
  pose proof (len_write_varint (type_kind_code (fd_container_key_kind f))).
  pose proof (write_string_nonempty (fd_container_key_primitive f)).
  pose proof (len_write_bytes_field (to_bytes (fd_container_key_ref f))).
  pose proof (len_write_bytes_field (to_bytes (fd_default_value f))).
  unfold write_bool. rewrite !len_cons. lia.
Qed.

Definition enum_ok (e : EnumValueDef) : Prop := is_utf8 (ev_name e) /\ is_i32 (ev_value e).

Lemma reads_enum_value : Reads enum_ok write_enum_value_def read_enum_value_def.
Proof.
  refine (reads_record _ _ _ (fun e => (ev_name e, ev_value e)) (fun '(n, v) => mk_EnumValueDef n v) _
    (reads_string ⨾ reader_is_reads _ _ _ zigzag_i32_reader) _ _).
  - by intros [].
  - intros buf pos. unfold read_enum_value_def, seq_reader. step_reads.
Qed.

Definition variant_ok (u : UnionVariantDef) : Prop :=
  is_utf8 (uv_name u) /\ is_i32 (uv_id u) /\ is_hex (uv_type_ref u).

Lemma reads_union_variant :
  Reads variant_ok (write_union_variant_def hex_decode) (read_union_variant_def hex_encode).
Proof.
  refine (reads_record _ _ _ (fun u => (uv_name u, (uv_id u, uv_type_ref u)))
    (fun '(n, (i, t)) => mk_UnionVariantDef n i t) _
    (reads_string ⨾ reader_is_reads _ _ _ zigzag_i32_reader ⨾ reads_hex) _ _).
  - by intros [].
  - intros buf pos. unfold read_union_variant_def, seq_reader. step_reads.
Qed.

(** The bytes of a type definition whose lists are in order already. *)
Definition put_type_def (td : TypeDef) : bytes :=
  write_varint (type_def_kind_code (td_kind td)) ++ write_string (td_package td)
  ++ write_string (td_name td) ++ write_items_with (write_field_def hex_decode) (td_fields td)
  ++ write_items_with write_enum_value_def (td_enum_values td)
  ++ write_items_with (write_union_variant_def hex_decode) (td_union_variants td).

Definition type_ok (td : TypeDef) : Prop :=
  True /\ is_utf8 (td_package td) /\ is_utf8 (td_name td) /\ Forall field_ok (td_fields td) /\
  Forall enum_ok (td_enum_values td) /\ Forall variant_ok (td_union_variants td).

Lemma reads_fields :
  Reads (Forall field_ok) (write_items_with (write_field_def hex_decode))
    (read_items_with 192 (read_field_def hex_encode)).
Proof.
  apply reads_items; [apply reads_field_def|..]; intros f; pose proof (len_write_field_def f); lia.
Qed.

Lemma reads_enum_values :
  Reads (Forall enum_ok) (write_items_with write_enum_value_def) (read_items_with 32 read_enum_value_def).
Proof.
  apply reads_items; [apply reads_enum_value|..]; intros e; unfold write_enum_value_def; rewrite len_app;
    pose proof (write_string_nonempty (ev_name e)); pose proof (len_write_zigzag (ev_value e)); lia.
Qed.

Lemma reads_union_variants :
  Reads (Forall variant_ok) (write_items_with (write_union_variant_def hex_decode))
    (read_items_with 56 (read_union_variant_def hex_encode)).
Proof.
  apply reads_items; [apply reads_union_variant|..]; intros u; unfold write_union_variant_def; rewrite !len_app;
    pose proof (write_string_nonempty (uv_name u)); pose proof (len_write_zigzag (uv_id u));
    pose proof (len_write_bytes_field (to_bytes (uv_type_ref u))); lia.
Qed.

Lemma reads_type_def : Reads type_ok put_type_def (read_type_def hex_encode).
Proof.
  assert (Hk : Reads (fun _ => True) (fun k => write_varint (type_def_kind_code k))
    (read_code type_def_kind_from_u64)) by by apply reads_code; intros [].
  refine (reads_record _ _ _ (fun t => (td_kind t, (td_package t, (td_name t, (td_fields t,
    (td_enum_values t, td_union_variants t))))))
    (fun '(k, (p, (n, (f, (e, u))))) => mk_TypeDef k p n f e u) _
    (Hk ⨾ reads_string ⨾ reads_string ⨾ reads_fields ⨾ reads_enum_values ⨾ reads_union_variants) _ _).
  - by intros [].
  - intros buf pos. unfold read_type_def, seq_reader. step_reads.
Qed.

Definition put_capability (c : CapabilityRequirement) : bytes :=
  write_varint (capability_kind_code (cr_kind c)) ++ write_items_with write_string (cr_roles c).

Definition capability_ok (c : CapabilityRequirement) : Prop := True /\ Forall is_utf8 (cr_roles c).

Lemma reads_strings : Reads (Forall is_utf8) (write_items_with write_string) (read_items_with 24 read_string).
Proof. apply reads_items; [apply reads_string|..]; intros t; pose proof (write_string_nonempty t); lia. Qed.

Lemma reads_capability : Reads capability_ok put_capability read_capability_requirement.
Proof.
  assert (Hk : Reads (fun _ => True) (fun k => write_varint (capability_kind_code k))
    (read_code capability_kind_from_u64)) by by apply reads_code; intros [].
  refine (reads_record _ _ _ (fun c => (cr_kind c, cr_roles c))
    (fun '(k, r) => mk_CapabilityRequirement k r) _ (Hk ⨾ reads_strings) _ _).
  - by intros [].
  - intros buf pos. unfold read_capability_requirement, seq_reader. step_reads.
Qed.

Definition put_method_def (m : MethodDef) : bytes :=
  write_string (md_name m) ++ write_varint (method_pattern_code (md_pattern m))
  ++ write_bytes_field (to_bytes (md_request_type m)) ++ write_bytes_field (to_bytes (md_response_type m))
  ++ write_bool (md_idempotent m) ++ write_float64 (md_default_timeout m)
  ++ write_option put_capability (md_requires m).

Definition requires_ok (o : option CapabilityRequirement) : Prop :=
  match o with Some c => capability_ok c | None => True end.

Definition method_ok (m : MethodDef) : Prop :=
  is_utf8 (md_name m) /\ True /\ is_hex (md_request_type m) /\ is_hex (md_response_type m) /\ True /\
  is_u64 (md_default_timeout m) /\ requires_ok (md_requires m).

Lemma reads_method_def : Reads method_ok put_method_def (read_method_def hex_encode).
Proof.
  assert (Hk : Reads (fun _ => True) (fun k => write_varint (method_pattern_code k))
    (read_code method_pattern_from_u64)) by by apply reads_code; intros [].
  refine (reads_record _ _ _ (fun m => (md_name m, (md_pattern m, (md_request_type m, (md_response_type m,
    (md_idempotent m, (md_default_timeout m, md_requires m)))))))
    (fun '(n, (p, (q, (s, (i, (d, r)))))) => mk_MethodDef n p q s i d r) _
    (reads_string ⨾ Hk ⨾ reads_hex ⨾ reads_hex ⨾ reader_is_reads _ _ _ bool_codec.(codec_reader)
     ⨾ reader_is_reads _ _ _ float64_codec.(codec_reader) ⨾ reads_option _ _ _ (Reads0 := reads_capability)) _ _).
  - by intros [].
  - intros buf pos. unfold read_method_def, seq_reader. step_reads.
Qed.

Lemma reads_methods :
  Reads (Forall method_ok) (write_items_with put_method_def) (read_items_with 120 (read_method_def hex_encode)).
Proof.
  apply reads_items; [apply reads_method_def|..]; intros m; unfold put_method_def; rewrite !len_app;
    unfold write_float64; rewrite len_to_le_bytes; pose proof (write_string_nonempty (md_name m)); lia.
Qed.

Definition put_service_contract (c : ServiceContract) : bytes :=
  write_string (sc_name c) ++ write_zigzag_i32 (sc_version c)
  ++ write_items_with put_method_def (sc_methods c)
  ++ write_items_with write_string (sc_serialization_modes c)
  ++ write_varint (scope_kind_code (sc_scoped c)) ++ write_option put_capability (sc_requires c)
  ++ write_string (sc_producer_language c).

Definition contract_ok (c : ServiceContract) : Prop :=
  is_utf8 (sc_name c) /\ is_i32 (sc_version c) /\ Forall method_ok (sc_methods c) /\
  Forall is_utf8 (sc_serialization_modes c) /\ True /\ requires_ok (sc_requires c) /\
  is_utf8 (sc_producer_language c).

Lemma reads_service_contract : Reads contract_ok put_service_contract (read_service_contract hex_encode).
Proof.
  assert (Hk : Reads (fun _ => True) (fun k => write_varint (scope_kind_code k))
    (read_code scope_kind_from_u64)) by by apply reads_code; intros [].
  refine (reads_record _ _ _ (fun c => (sc_name c, (sc_version c, (sc_methods c, (sc_serialization_modes c,
    (sc_scoped c, (sc_requires c, sc_producer_language c)))))))
    (fun '(n, (v, (m, (z, (s, (r, l)))))) => mk_ServiceContract n v m z s r l) _
    (reads_string ⨾ reader_is_reads _ _ _ zigzag_i32_reader ⨾ reads_methods ⨾ reads_strings ⨾ Hk
     ⨾ reads_option _ _ _ (Reads0 := reads_capability) ⨾ reads_string) _ _).
  - by intros [].
  - intros buf pos. unfold read_service_contract, seq_reader. step_reads.
Qed.

(** A decoder on the whole output of the writer it mirrors. *)
Lemma decode_whole_reads {A} (ok : A -> Prop) w r a :
  Reads ok w r -> ok a -> len (w a) < SLICE_LIMIT -> decode_whole r (w a) = Done a.
Proof.
  intros Hr Hok Hlen. unfold decode_whole. pose proof (reads_at [] a [] Hok) as H.
  simpl in H. rewrite app_nil_r in H. change 0 with (len (@nil byte)). rewrite H by done.
  unfold expect_eof. change (len (@nil byte)) with 0. by rewrite N.add_0_l, N.eqb_refl.
Qed.

(** ** Normal forms: what the writers make of a value *)

Definition norm_hex (s : bytes) : bytes := hex_encode (to_bytes s).

Definition norm_field (f : FieldDef) : FieldDef :=
  mk_FieldDef (fd_id f) (fd_name f) (fd_type_kind f) (fd_type_primitive f) (norm_hex (fd_type_ref f))
    (fd_self_ref_name f) (fd_optional f) (fd_ref_tracked f) (fd_container f) (fd_container_key_kind f)
    (fd_container_key_primitive f) (norm_hex (fd_container_key_ref f)) (fd_required f)
    (norm_hex (fd_default_value f)).

Definition norm_variant (u : UnionVariantDef) : UnionVariantDef :=
  mk_UnionVariantDef (uv_name u) (uv_id u) (norm_hex (uv_type_ref u)).

Definition norm_type_def (t : TypeDef) : TypeDef :=
  mk_TypeDef (td_kind t) (td_package t) (td_name t)
    (map norm_field (derive_nfc_sorted_field_ids nfc (td_fields t)))
    (sort_by (fun a b => (ev_value a <=? ev_value b)%Z) (td_enum_values t))
    (map norm_variant (sort_by (fun a b => (uv_id a <=? uv_id b)%Z) (td_union_variants t))).

Definition norm_capability (c : CapabilityRequirement) : CapabilityRequirement :=
  mk_CapabilityRequirement (cr_kind c)
    (sort_by (fun a b => cps_leb (chars a) (chars b)) (map nfc (cr_roles c))).

Definition norm_method (m : MethodDef) : MethodDef :=
  mk_MethodDef (md_name m) (md_pattern m) (norm_hex (md_request_type m)) (norm_hex (md_response_type m))
    (md_idempotent m) (md_default_timeout m) (norm_capability <$> md_requires m).

Definition norm_contract (c : ServiceContract) : ServiceContract :=
  mk_ServiceContract (sc_name c) (sc_version c)
    (map norm_method (sort_by (fun a b => name_leb nfc (md_name a) (md_name b)) (sc_methods c)))
    (sc_serialization_modes c) (sc_scoped c) (norm_capability <$> sc_requires c) (sc_producer_language c).

Lemma is_hex_norm s : is_hex (norm_hex s).
Proof. unfold is_hex, norm_hex. by rewrite to_bytes_encode. Qed.

Lemma write_norm_field f : write_field_def hex_decode (norm_field f) = write_field_def hex_decode f.
Proof. unfold write_field_def, norm_field, norm_hex. simpl. by rewrite !to_bytes_encode. Qed.

Lemma write_items_map {A B} (f : A -> B) (w : B -> bytes) (v : A -> bytes) l :
  (forall a, w (f a) = v a) -> write_items_with w (map f l) = write_items_with v l.
Proof.
  intros H. unfold write_items_with, len. rewrite length_map, List.map_map.
  do 2 f_equal. by apply List.map_ext.
Qed.

Lemma put_norm_type_def t : put_type_def (norm_type_def t) = write_type_def nfc hex_decode t.
Proof.
  unfold put_type_def, norm_type_def, write_type_def. simpl.
  rewrite (write_items_map norm_field _ (write_field_def hex_decode)) by apply write_norm_field.
  rewrite (write_items_map norm_variant _ (write_union_variant_def hex_decode)); [done|].
  intros u. unfold write_union_variant_def, norm_variant, norm_hex. simpl. by rewrite to_bytes_encode.
Qed.

Lemma put_norm_option o :
  write_option put_capability (norm_capability <$> o) = write_option (write_capability_requirement nfc) o.
Proof. by destruct o. Qed.

Lemma put_norm_method m : put_method_def (norm_method m) = write_method_def nfc hex_decode m.
Proof.
  unfold put_method_def, norm_method, write_method_def, norm_hex. simpl. rewrite put_norm_option.
  by rewrite !to_bytes_encode.
Qed.

Lemma put_norm_contract c : put_service_contract (norm_contract c) = write_service_contract nfc hex_decode c.
Proof.
  unfold put_service_contract, norm_contract, write_service_contract. simpl.
  rewrite put_norm_option. by rewrite (write_items_map norm_method _ (write_method_def nfc hex_decode))
    by apply put_norm_method.
Qed.

(** What the Rust types guarantee of a value: UTF-8 strings and machine integers. *)
Definition field_typed (f : FieldDef) : Prop :=
  is_utf8 (fd_name f) /\ is_utf8 (fd_type_primitive f) /\ is_utf8 (fd_self_ref_name f) /\
  is_utf8 (fd_container_key_primitive f).

Definition type_typed (t : TypeDef) : Prop :=
  is_utf8 (td_package t) /\ is_utf8 (td_name t) /\ Forall field_typed (td_fields t) /\
  Forall enum_ok (td_enum_values t) /\
  Forall (fun u => is_utf8 (uv_name u) /\ is_i32 (uv_id u)) (td_union_variants t).

Definition requires_typed (o : option CapabilityRequirement) : Prop :=
  match o with Some c => Forall is_utf8 (cr_roles c) | None => True end.

Definition method_typed (m : MethodDef) : Prop :=
  is_utf8 (md_name m) /\ is_u64 (md_default_timeout m) /\ requires_typed (md_requires m).

Definition contract_typed (c : ServiceContract) : Prop :=
  is_utf8 (sc_name c) /\ is_i32 (sc_version c) /\ Forall method_typed (sc_methods c) /\
  Forall is_utf8 (sc_serialization_modes c) /\ requires_typed (sc_requires c) /\
  is_utf8 (sc_producer_language c).

Lemma i32_wrap_is_i32 z : is_i32 (i32_wrap z).
Proof. unfold is_i32, i32_wrap. pose proof (Z.mod_pos_bound (z + 2 ^ 31) (2 ^ 32) ltac:(done)). lia. Qed.

Lemma number_fields_Forall (P : FieldDef -> Prop) l :
  (forall f i, P f -> P (set_fd_id i f)) -> Forall P l -> Forall P (number_fields l).
Proof.
  intros HP Hl. unfold number_fields. apply Forall_lookup. intros i f Hf.
  rewrite list_lookup_imap in Hf. destruct (l !! i) as [g|] eqn:Hg; [|done]. simpl in Hf.
  injection Hf as <-. apply HP. by eapply Forall_lookup in Hl.
Qed.

Lemma number_fields_ids l : Forall (fun f => is_i32 (fd_id f)) (number_fields l).
Proof.
  unfold number_fields. apply Forall_lookup. intros i f Hf. rewrite list_lookup_imap in Hf.
  destruct (l !! i); [|done]. injection Hf as <-. apply i32_wrap_is_i32.
Qed.

Lemma norm_type_ok t : type_typed t -> type_ok (norm_type_def t).
Proof.
  intros (Hp & Hn & Hf & He & Hu). unfold type_ok, norm_type_def. simpl.
  repeat (split; [done|]). split; [|split].
  - apply Forall_fmap. unfold derive_nfc_sorted_field_ids.
    pose proof (sort_by_Forall (fun a b => name_leb nfc (fd_name a) (fd_name b)) _ _ Hf) as Hs.
    apply number_fields_Forall in Hs; [|done].
    pose proof (number_fields_ids (sort_by (fun a b => name_leb nfc (fd_name a) (fd_name b)) (td_fields t))) as Hi.
    pose proof (Forall_and Hs Hi) as Hboth.
    eapply list.Forall_impl; [exact Hboth|]. intros f [(H1 & H2 & H3 & H4) H5].
    unfold field_ok, norm_field. simpl. by repeat (split; [by try apply is_hex_norm|]); apply is_hex_norm.
  - by apply sort_by_Forall.
  - apply Forall_fmap. eapply list.Forall_impl; [apply sort_by_Forall; exact Hu|].
    intros u [H1 H2]. split; [done|]. split; [done|apply is_hex_norm].
Qed.

Lemma norm_requires_ok o : requires_typed o -> requires_ok (norm_capability <$> o).
Proof.
  destruct o as [c|]; [|done]. intros H. split; [done|]. simpl. apply sort_by_Forall, Forall_fmap.
  eapply list.Forall_impl; [exact H|]. apply nfc_utf8.
Qed.

Lemma norm_method_ok m : method_typed m -> method_ok (norm_method m).
Proof.
  intros (Hn & Ht & Hr). unfold method_ok, norm_method. simpl.
  repeat (split; [by try apply is_hex_norm|]). by apply norm_requires_ok.
Qed.

Lemma norm_contract_ok c : contract_typed c -> contract_ok (norm_contract c).
Proof.
  intros (Hn & Hv & Hm & Hs & Hr & Hl). unfold contract_ok, norm_contract. simpl.
  split; [done|]. split; [done|]. split.
  - apply Forall_fmap. eapply list.Forall_impl; [apply sort_by_Forall; exact Hm|]. apply norm_method_ok.
  - split; [done|]. split; [done|]. split; [by apply norm_requires_ok|done].
Qed.

Lemma decode_canonical_type t :
  type_typed t -> len (canonical_xlang_bytes_type_def nfc hex_decode t) < SLICE_LIMIT ->
  decode_type_def_bytes hex_encode (canonical_xlang_bytes_type_def nfc hex_decode t) = Done (norm_type_def t).
Proof.
  unfold canonical_xlang_bytes_type_def. rewrite <- put_norm_type_def. intros Ht Hl.
  apply (decode_whole_reads type_ok); [apply reads_type_def|by apply norm_type_ok|done].
Qed.

Lemma decode_canonical_contract c :
  contract_typed c -> len (canonical_xlang_bytes_service_contract nfc hex_decode c) < SLICE_LIMIT ->
  decode_service_contract_bytes hex_encode (canonical_xlang_bytes_service_contract nfc hex_decode c) =
  Done (norm_contract c).
Proof.
  unfold canonical_xlang_bytes_service_contract. rewrite <- put_norm_contract. intros Ht Hl.
  apply (decode_whole_reads contract_ok); [apply reads_service_contract|by apply norm_contract_ok|done].
Qed.

Lemma decode_canonical_method m :
  method_typed m -> len (canonical_xlang_bytes_method_def nfc hex_decode m) < SLICE_LIMIT ->
  decode_method_def_bytes hex_encode (canonical_xlang_bytes_method_def nfc hex_decode m) = Done (norm_method m).
Proof.
  unfold canonical_xlang_bytes_method_def. rewrite <- put_norm_method. intros Ht Hl.
  apply (decode_whole_reads method_ok); [apply reads_method_def|by apply norm_method_ok|done].
Qed.

(** ** Identity

    Two definitions declare the same thing: the same scalars, and the same items
    whatever their order, the ids callers wrote and the spelling of hex strings. *)

Definition declared (f : FieldDef) : FieldDef := norm_field (set_fd_id 0 f).

Definition same_type (t t' : TypeDef) : Prop :=
  td_kind t = td_kind t' /\ td_package t = td_package t' /\ td_name t = td_name t' /\
  map declared (td_fields t) ≡ₚ map declared (td_fields t') /\
  td_enum_values t ≡ₚ td_enum_values t' /\
  map norm_variant (td_union_variants t) ≡ₚ map norm_variant (td_union_variants t').

Definition same_contract (c c' : ServiceContract) : Prop :=
  sc_name c = sc_name c' /\ sc_version c = sc_version c' /\
  map norm_method (sc_methods c) ≡ₚ map norm_method (sc_methods c') /\
  sc_serialization_modes c = sc_serialization_modes c' /\ sc_scoped c = sc_scoped c' /\
  norm_capability <$> sc_requires c = norm_capability <$> sc_requires c' /\
  sc_producer_language c = sc_producer_language c'.

(** Names that differ after normalization, distinct enum values and variant ids. *)
Definition distinct_type (t : TypeDef) : Prop :=
  NoDup (map (fun f => chars (nfc (fd_name f))) (td_fields t)) /\
  NoDup (map ev_value (td_enum_values t)) /\ NoDup (map uv_id (td_union_variants t)).

Definition distinct_contract (c : ServiceContract) : Prop :=
  NoDup (map (fun m => chars (nfc (md_name m))) (sc_methods c)).

Lemma number_fields_declared l :
  map norm_field (number_fields l) = number_fields (map declared l).
Proof.
  unfold number_fields. change (@map) with (fun A B => @list_fmap A B). simpl.
  apply list_eq. intros i. rewrite list_lookup_fmap, !list_lookup_imap, list_lookup_fmap. by destruct (l !! i).
Qed.

Lemma declared_number l : map (set_fd_id 0) (number_fields (map declared l)) = map declared l.
Proof.
  unfold number_fields. change (@map) with (fun A B => @list_fmap A B). simpl.
  apply list_eq. intros i. rewrite list_lookup_fmap, !list_lookup_imap, list_lookup_fmap. by destruct (l !! i).
Qed.

(** The fields as written: the declarations in the order of their names, numbered. *)
Lemma norm_fields_sorted l :
  map norm_field (derive_nfc_sorted_field_ids nfc l) =
  number_fields (sort_by (fun a b => name_leb nfc (fd_name a) (fd_name b)) (map declared l)).
Proof.
  unfold derive_nfc_sorted_field_ids. rewrite number_fields_declared. f_equal. symmetry. by apply sort_by_map.
Qed.

(** Items whose keys differ are written in one order, however they were declared. *)
Lemma sort_by_key {A K} (key : A -> K) (le : A -> A -> bool) l k :
  (forall a b, le a b = true \/ le b a = true) ->
  (forall a b c, le a b = true -> le b c = true -> le a c = true) ->
  (forall a b, le a b = true -> le b a = true -> key a = key b) ->
  NoDup (map key l) -> l ≡ₚ k -> sort_by le l = sort_by le k.
Proof.
  intros Ht Htr Ha Hn Hp. apply sort_by_unique; [done|done|done|]. intros a b H1 H2 H3 H4.
  eapply (NoDup_key_inj key); [done..|]. by apply Ha.
Qed.

Lemma norm_same_type t t' : distinct_type t -> same_type t t' -> norm_type_def t = norm_type_def t'.
Proof.
  intros (Df & De & Du) (Hk & Hp & Hn & Hf & He & Hu). unfold norm_type_def. rewrite Hk, Hp, Hn. f_equal.
  - rewrite !norm_fields_sorted. f_equal.
    apply (sort_by_key (fun f => chars (nfc (fd_name f)))); [..|done].
    + intros a b. apply cps_leb_total.
    + intros a b c. apply cps_leb_trans.
    + intros a b. apply cps_leb_antisym.
    + by rewrite List.map_map.
  - apply (sort_by_key ev_value); [intros; lia..|done|done].
  - rewrite <- !(sort_by_map norm_variant (fun a b => (uv_id a <=? uv_id b)%Z)) by done.
    apply (sort_by_key uv_id); [intros; lia..| |done]. by rewrite List.map_map.
Qed.

Lemma norm_type_same t t' : norm_type_def t = norm_type_def t' -> same_type t t'.
Proof.
  unfold norm_type_def. rewrite !norm_fields_sorted. intros [= Hk Hp Hn Hf He Hu].
  apply (f_equal (map (set_fd_id 0))) in Hf.
  rewrite !(sort_by_map declared _ (fun a b => name_leb nfc (fd_name a) (fd_name b))) in Hf by done.
  rewrite !declared_number in Hf. unfold same_type. repeat (split; [done|]). split; [|split].
  - rewrite <- (sort_by_perm (fun a b => name_leb nfc (fd_name a) (fd_name b)) (td_fields t)).
    rewrite <- (sort_by_perm (fun a b => name_leb nfc (fd_name a) (fd_name b)) (td_fields t')). by rewrite Hf.
  - rewrite <- (sort_by_perm (fun a b => (ev_value a <=? ev_value b)%Z) (td_enum_values t)), He.
    apply sort_by_perm.
  - rewrite <- (sort_by_perm (fun a b => (uv_id a <=? uv_id b)%Z) (td_union_variants t)).
    rewrite <- (sort_by_perm (fun a b => (uv_id a <=? uv_id b)%Z) (td_union_variants t')). by rewrite Hu.
Qed.

Lemma norm_same_contract c c' :
  distinct_contract c -> same_contract c c' -> norm_contract c = norm_contract c'.
Proof.
  intros Dm (Hn & Hv & Hm & Hs & Hk & Hr & Hl). unfold norm_contract. rewrite Hn, Hv, Hs, Hk, Hr, Hl. f_equal.
  rewrite <- !(sort_by_map norm_method (fun a b => name_leb nfc (md_name a) (md_name b))) by done.
  apply (sort_by_key (fun m => chars (nfc (md_name m)))); [..|done].
  - intros a b. apply cps_leb_total.
  - intros a b d. apply cps_leb_trans.
  - intros a b. apply cps_leb_antisym.
  - by rewrite List.map_map.
Qed.

Lemma norm_contract_same c c' : norm_contract c = norm_contract c' -> same_contract c c'.
Proof.
  unfold norm_contract. intros [= Hn Hv Hm Hs Hk Hr Hl]. unfold same_contract. repeat (split; [done|]).
  split; [|done]. rewrite <- (sort_by_perm (fun a b => name_leb nfc (md_name a) (md_name b)) (sc_methods c)).
  rewrite <- (sort_by_perm (fun a b => name_leb nfc (md_name a) (md_name b)) (sc_methods c')). by rewrite Hm.
Qed.

End Laws.

(** ** Contract identity *)

(** The invariant [validate_producer_language] checks. *)
Lemma producer_language_rule sc :
  validate_producer_language sc = Ok tt <->
  (NATIVE_MODE ∈ sc_serialization_modes sc /\ sc_producer_language sc ∈ PRODUCER_LANGUAGES) \/
  (NATIVE_MODE ∉ sc_serialization_modes sc /\ sc_producer_language sc = []).
Proof.
  unfold validate_producer_language.
  assert (Hn : existsb (fun m => bool_decide (m = NATIVE_MODE)) (sc_serialization_modes sc) = true <->
    NATIVE_MODE ∈ sc_serialization_modes sc).
  { rewrite existsb_exists, list_elem_of_In. split; [intros (m & Hm & ->%bool_decide_eq_true); done|].
    intros H. exists NATIVE_MODE. by rewrite bool_decide_eq_true_2. }
  assert (Hl : existsb (fun l => bool_decide (l = sc_producer_language sc)) PRODUCER_LANGUAGES = true <->
    sc_producer_language sc ∈ PRODUCER_LANGUAGES).
  { rewrite existsb_exists, list_elem_of_In. split; [intros (m & Hm & <-%bool_decide_eq_true); done|].
    intros H. exists (sc_producer_language sc). by rewrite bool_decide_eq_true_2. }
  assert (He : sc_producer_language sc = [] -> sc_producer_language sc ∉ PRODUCER_LANGUAGES).
  { intros -> H%list_elem_of_In. vm_compute in H. intuition discriminate. }
  destruct (existsb _ PRODUCER_LANGUAGES) eqn:E2, (existsb _ (sc_serialization_modes sc)) eqn:E1;
    case_bool_decide as Hz; cbn [andb negb]; clear E1 E2; naive_solver.
Qed.

(** C32: Canonical bytes identify a contract. For type definitions and service
    contracts, given hex strings that decode to what they encode and a normalization
    that keeps strings UTF-8: the decoder takes the canonical bytes back to the normal
    form of what was written; and two definitions have the same canonical bytes,
    hence the same hash and contract id, exactly when they declare the same thing,
    whatever the order of the declarations, the ids callers gave to fields and the
    spelling of hex strings, as long as names (after normalization), enum values and
    variant ids are distinct. *)
Theorem contract_bytes_identify (nfc hex_encode : bytes -> bytes) (hex_decode : bytes -> option bytes)
    (hex_roundtrip : forall b, hex_decode (hex_encode b) = Some b) (hex_empty : hex_encode [] = [])
    (nfc_utf8 : forall s, is_utf8 s -> is_utf8 (nfc s)) :
  (forall t, type_typed t ->
     let b := canonical_xlang_bytes_type_def nfc hex_decode t in
     len b < SLICE_LIMIT ->
     decode_type_def_bytes hex_encode b = Done (norm_type_def nfc hex_encode hex_decode t) /\
     forall t', type_typed t' -> distinct_type nfc t ->
       canonical_xlang_bytes_type_def nfc hex_decode t' = b <-> same_type hex_encode hex_decode t t') /\
  (forall c, contract_typed c ->
     let b := canonical_xlang_bytes_service_contract nfc hex_decode c in
     len b < SLICE_LIMIT ->
     decode_service_contract_bytes hex_encode b = Done (norm_contract nfc hex_encode hex_decode c) /\
     forall c', contract_typed c' -> distinct_contract nfc c ->
       canonical_xlang_bytes_service_contract nfc hex_decode c' = b <->
       same_contract nfc hex_encode hex_decode c c').
Proof.
  split.
  - intros t Ht b Hb. pose proof (decode_canonical_type nfc hex_encode hex_decode hex_roundtrip hex_empty t Ht Hb) as Hd.
    split; [done|]. intros t' Ht' Dt. split; intros H.
    + apply (norm_type_same nfc). unfold b in *. rewrite <- H in Hb, Hd.
      rewrite (decode_canonical_type nfc hex_encode hex_decode) in Hd by done. congruence.
    + unfold b, canonical_xlang_bytes_type_def. rewrite <- !(put_norm_type_def nfc hex_encode hex_decode) by done.
      by rewrite (norm_same_type nfc hex_encode hex_decode t t').
  - intros c Hc b Hb.
    pose proof (decode_canonical_contract nfc hex_encode hex_decode hex_roundtrip hex_empty nfc_utf8 c Hc Hb) as Hd.
    split; [done|]. intros c' Hc' Dc. split; intros H.
    + apply norm_contract_same. unfold b in *. rewrite <- H in Hb, Hd.
      rewrite (decode_canonical_contract nfc hex_encode hex_decode) in Hd by done. congruence.
    + unfold b, canonical_xlang_bytes_service_contract. rewrite <- !(put_norm_contract nfc hex_encode hex_decode) by done.
      by rewrite (norm_same_contract nfc hex_encode hex_decode c c').
Qed.

(** A message of two fields, and the same with the fields declared the other way
    round, other ids and an upper-case spelling of the reference. *)
Definition sample_field (id : Z) (name : string) (reference : string) : FieldDef :=
  mk_FieldDef id (String.list_byte_of_string name) TK_Ref [] (String.list_byte_of_string reference) []
    false true CK_None TK_Primitive [] [] true [].
Definition sample_type (fields : list FieldDef) : TypeDef :=
  mk_TypeDef TD_Message (String.list_byte_of_string "demo") (String.list_byte_of_string "Pair") fields [] [].
Definition sample_hex (s : bytes) : option bytes := result_ok (decode_hex_chunks s).

Lemma contract_bytes_identify_witness :
  let t := sample_type [sample_field 7 "left" "ab"; sample_field 0 "key" "01"] in
  let t' := sample_type [sample_field 1 "key" "01"; sample_field 2 "left" "AB"] in
  len (canonical_xlang_bytes_type_def id sample_hex t) < SLICE_LIMIT /\
  decode_type_def_bytes to_hex (canonical_xlang_bytes_type_def id sample_hex t) =
    Done (sample_type [sample_field 1 "key" "01"; sample_field 2 "left" "ab"]) /\
  canonical_xlang_bytes_type_def id sample_hex t' = canonical_xlang_bytes_type_def id sample_hex t.
Proof.
  intros t t'.
  destruct (contract_bytes_identify id to_hex sample_hex) as [Htypes _].
  { intros b. unfold sample_hex. by rewrite decode_hex_chunks_to_hex. }
  { done. }
  { done. }
  assert (Hlen : len (canonical_xlang_bytes_type_def id sample_hex t) < SLICE_LIMIT) by by vm_compute.
  destruct (Htypes t) as [Hd Hsame].
  { repeat split; repeat constructor. }
  { exact Hlen. }
  split; [exact Hlen|]. split; [rewrite Hd; by vm_compute|].
  apply Hsame; [by repeat split; repeat constructor|..].
  - split; [|split; constructor]. vm_compute. repeat constructor; rewrite list_elem_of_In; simpl; intuition discriminate.
  - repeat split; [|done|done]. vm_compute. apply Permutation_swap.
Defined.

(** The decoders return an error on most malformed input, but not on all: a count of
    [2^60] fields panics in the allocation, and a length of [u64::MAX] in the slice. *)
Lemma hostile_type_bytes_panic hex_encode :
  decode_type_def_bytes hex_encode (map u8 [0; 2; 2; 128; 128; 128; 128; 128; 128; 128; 128; 16; 12]) = Panicked /\
  decode_type_def_bytes hex_encode
    (map u8 [0; 2; 2; 1; 12; 2; 2; 1; 2; 255; 255; 255; 255; 255; 255; 255; 255; 255; 1]) = Panicked.
Proof. by split; vm_compute. Qed.

(** They also accept bytes that no writer produces: enum values out of order, and a
    padded integer. *)
Lemma decoder_accepts_other_bytes :
  let unordered := map u8 [1; 2; 2; 0; 12; 2; 12; 2; 4; 2; 2; 0; 12] in
  let padded := map u8 [129; 0; 2; 2; 0; 12; 0; 12; 0; 12] in
  (exists t, decode_type_def_bytes to_hex unordered = Done t /\
     canonical_xlang_bytes_type_def id sample_hex t <> unordered) /\
  (exists t, decode_type_def_bytes to_hex padded = Done t /\
     canonical_xlang_bytes_type_def id sample_hex t <> padded).
Proof. split; eexists; (split; [by vm_compute|by vm_compute]). Qed.
